(* ===== verification/_CoqProject ===== *)
-Q . S2P
Prelude.v
GoBytes.v
GoErrors.v
GoStrings.v
MerkleMulti.v
HashUtil.v
Encodings.v
EncodingsFacts.v
StateMachine.v
Services.v
RequestStore.v
RequestHandler.v
Values.v
Consensus.v
IdenticalAggregator.v
ReduceAggregator.v
ReportingPlugin.v
DataFeeds.v
LLOAggregator.v
FeedsAggregator.v
Capability.v
Workflows.v
Triggers.v
Mailbox.v
SleeperTask.v
Utils.v
Pages.v
Messages.v
CapabilityRPC.v
ClientConn.v
Broker.v
WorkflowSDK.v
WasmMemory.v
WasmHost.v
WasmCalls.v
WasmGuest.v
RemoteErrors.v
Query.v
ContractReader.v
Secrets.v
PluginService.v
LoopConfig.v
Automation.v
CCIPTypes.v
LLOTypes.v
ReportingRPC.v
OCR2RPC.v
ProviderRPC.v
ContractWriterRPC.v
Monitoring.v
PrometheusExporter.v
Events.v
CCIPReaders.v
CCIPRegistryRPC.v
CodecTypes.v
CodecMaps.v
CodecConfig.v
Modifiers.v
CodecProperty.v
CodecBytes.v
RelayerRPC.v
MercuryRPC.v
MedianRPC.v
NullUint32.v
Durations.v
ErrorLists.v
Assets.v
WorkflowYaml.v
JSONSerializable.v
ServicesRPC.v
RelayerSetRPC.v
