(* ===== verification/Prelude.v ===== *)
(** * chainlink-common: a model of its core and the theorems that make it correct

    chainlink-common is the Go library that Chainlink nodes and their plugins
    share.  This development models the parts of it that carry logic of their
    own: the off-chain consensus on workflow observations
    ([src/pkg/capabilities/consensus/ocr3]), the values it exchanges
    ([src/pkg/values]), the life cycle of services ([src/pkg/services]), Merkle
    multi-proofs ([src/pkg/merklemulti], [src/pkg/hashutil]), the binary codecs
    of contract types ([src/pkg/codec/encodings]) and the modifiers between the
    types of a chain and those of a plugin ([src/pkg/codec]), the graph and the
    references of workflows, the SDK they are written with, their secrets and
    the WASM sandbox they run in ([src/pkg/workflows]), the triggers that start
    them ([src/pkg/capabilities/triggers]), the plugin processes with the gRPC
    clients and servers of relayers, capabilities, contract readers, reporting
    plugins and the readers of CCIP ([src/pkg/loop]), the types they exchange ([src/pkg/types],
    [src/pkg/capabilities]), the monitoring pipeline ([src/pkg/monitoring]) and
    helpers ([src/pkg/utils], [src/pkg/chains]).

    ** Conventions

    - A Go call returns an [outcome]: [Ok], [Err] with the error a component
      distinguishes, or [Panic].  Logging is left out.
    - Integers are [Z], with the wrap-around of their width written out
      ([wrapU], [wrapS] in [GoBytes]); lengths and counters that cannot overflow
      are [nat].
    - [range] over a map takes a [RangeOrder], any permutation of the entries; a
      theorem holds for all of them, and a dependence on the order is a theorem
      with an order that makes it visible.
    - Code outside the repository is an interface (a [Class]) with the laws that
      the theorems use: decimals, protocol-buffer, JSON and CBOR marshalling,
      SHA-256, [sort.Slice], sealed boxes, gRPC statuses, URLs and durations,
      mapstructure, the codec below a modifier, aggregators and encoders seen from the plugin.  Every interface has a
      concrete instance, used by the witnesses.
    - Goroutines that share state are steps of a relation or of an executable
      [exec], one for each stretch between two points at which they can be
      interleaved; a theorem holds for every sequence of steps.

    ** Files

    - [Prelude]: outcomes, map iteration, shared lemmas and tactics; [GoBytes]:
      machine integers and bytes; [GoErrors]: error values and [errors.Is];
      [GoStrings]: decimal numbers, hexadecimal, base64 and string functions.
    - [MerkleMulti], [HashUtil]: proof generation, tree construction, the
      stateless verifier, the hashers.
    - [Encodings] (the codecs) and [EncodingsFacts] (typing, sizes, round trip).
    - [CodecTypes] (codec/modifier_base.go, field_and_indices.go and the part of
      every modifier that makes its off-chain type): Go types as the trees that
      reflect shows, the types remembered by a modifier as its state, and the
      renamer's casts, which keep the memory and change the type; [CodecMaps]
      (utils.go, hard_coder.go and the other modifiers' transformations): the
      hooks on numbers and times, values at paths, and actions on the maps that
      mapstructure makes of structs; [CodecProperty] (property_extractor.go),
      [CodecBytes] (byte_string_modifier.go); [CodecConfig] (config.go):
      configurations as JSON and the modifiers made of them; [Modifiers]
      (modifier.go, multi_modifier.go, by_item_type_modifier.go,
      modifier_codec.go): the class of modifiers, its combinations, and the
      codec that a modifier makes of another.
    - [StateMachine]: the lifecycle of a service as a step relation over the
      program counters of the calling goroutines; [Services]: the engine,
      start and close with sub-services, health reports.
    - [RequestStore] (store.go), [RequestHandler] (handler.go): the requests
      waiting for consensus; the worker is a transition per received event.
    - [Values]: wrapping, unwrapping, protocol-buffer form.
    - [Consensus]: the interfaces and counting lemmas of the aggregators;
      [IdenticalAggregator], [ReduceAggregator]: one round of each.
    - [ReportingPlugin]: query, observation, outcome and reports of the OCR3
      plugin, with the outcomes that are shared between the map and the reports
      on a heap.
    - [DataFeeds] (datastreams/types.go and what the two aggregators of
      datafeeds share: feed identifiers, floats, deviations), [LLOAggregator]
      (llo_aggregator.go), [FeedsAggregator] (feeds_aggregator.go).
    - [Capability] (capability.go, transmitter.go, factory.go): registration of
      workflows, requests that become events of [RequestHandler], and the
      transmission of a report back to the capability.
    - [Workflows] (dependency_graph.go, exec/interpolation.go, utils.go): the
      references of a step's inputs, the graph they make, their replacement;
      [WorkflowYaml] (models_yaml.go): workflows as they are written, with their
      identifiers, inputs and mappings.
    - [Triggers] (mercury_trigger.go, mercury_remote_aggregator.go,
      on_demand_trigger.go): channels are bounded buffers; a call under the lock
      is one operation.
    - [Mailbox], [SleeperTask], [Utils] (utils/), [Pages] (chains/nodes.go):
      the bounded queue with its notifications, the worker that is woken up,
      arithmetic, batches and retries, page tokens.
    - [Messages] (capabilities.go, pb/capabilities_helpers.go): identifiers,
      requests and responses and their messages; [CapabilityRPC]
      (loop/internal/core/services/capability): executables, triggers and the
      registry behind gRPC, on top of [Messages]; [ClientConn]
      (loop/internal/net/client.go): the connection that reconnects under them;
      [Broker] (net/broker.go): the servers on the other side.
    - [RemoteErrors] (types/provider.go, net/errors.go): what an error looks
      like on the other side of gRPC; [Query] (types/query): filters and their
      meaning; [ContractReader] (pluginprovider/contractreader): the reader and
      the codec behind gRPC, on top of both.
    - [ReportingRPC] (core/services/reportingplugin/ocr3) and [OCR2RPC]
      (ocr2): reporting plugins and their factories behind gRPC;
      [ProviderRPC] (pluginprovider/ocr2, ocr3): digesters, trackers and
      transmitters; [ContractWriterRPC] (pluginprovider/contractwriter), whose
      parameters travel as in [ContractReader].
    - [CCIPReaders] (pluginprovider/ext/ccip: the messages, gas_estimator.go,
      offramp.go, commit_store.go) and [CCIPRegistryRPC] (onramp.go,
      price_registry.go, pricegetter.go, token_data.go, token_pool.go and the
      two providers): every reader is an interface of calls, and its server and
      client are functions between calls and messages; the providers make and
      serve readers.  [RelayerRPC] (relayer/relayer.go): the keystore and the
      relayer in the same way, and what the calls that make providers open,
      serve and leave open.  [MercuryRPC] (ext/mercury, reportingplugin/mercury)
      and [MedianRPC] (ext/median, reportingplugin/median): the providers, data
      sources and plugins of Mercury and of the median, and what makes them.
      [RelayerSetRPC] (relayerset): sets of relayers, and what their server
      makes; [ServicesRPC] (keystore, core/services): the services of a node
      that its plugins call.
    - [PluginService] (goplugin/plugin_service.go, service.go): the process of
      a plugin, relaunched when it fails, and its health; [LoopConfig]
      (loop/config.go): the configuration in its environment.
    - [WorkflowSDK] (workflows/sdk/builder.go, wasm/pb/wasm.go): the builder of
      specifications; [Secrets] (workflows/secrets): their encryption;
      [WasmMemory], [WasmHost], [WasmCalls] (workflows/wasm/host) and
      [WasmGuest] (workflows/wasm): the sandbox from both sides, on one shared
      memory, and the fetches of concurrent guests, whose check and count of a
      fetch are two steps, as in the code.
    - [NullUint32] (utils/null), [Durations] (config/duration.go), [Assets]
      (assets, utils/bytes), [JSONSerializable] (utils/jsonserializable): values
      with a JSON, a text or a database form;
      [ErrorLists] (config/error.go): lists of errors.
    - [Automation] (types/automation): identifiers, triggers, check results;
      [CCIPTypes] (types/ccipocr3): ranges of sequence numbers, JSON texts,
      reports; [LLOTypes] (types/llo): report formats and channel definitions.
    - [Monitoring] (monitoring/poller.go, feed_monitor.go, run_monitor.go,
      manager.go): from the sources to the exporters; [PrometheusExporter]
      (exporter_prometheus.go, metrics.go): what one of them makes of the updates
      and what its cleanup leaves; [Events] (capabilities/events): operational
      events and their metadata.

    ** Theorems

    - Merkle: proofs verify, verification of another leaf needs a collision, the
      tree is total, the exact panic of the verifier.
    - Codecs: round trip, types, exact sizes, and what malformed headers do:
      decoding panics only where the runtime refuses what a header announces.
    - Modifiers: the renamer's casts are memory-safe and inverse to each other
      for types with at most one layer around each struct, and two layers break
      them; numbers are converted exactly or refused; combinations of invertible
      modifiers are invertible; a modified codec converts an item to the
      modifier's type element by element, and decodes what it encoded if the
      codec, the modifier and mapstructure lose nothing; configurations are read
      as they were written, and which cannot be written.
      The runs show which values a path, a zero or an array loses.
    - Services: mutual exclusion and unreachability of the panics in every
      interleaving; refinement of the sequential operations; roll-back, closing,
      health.
    - Requests: the store refines a queue; each request is answered exactly
      once, and at the latest when it expires.
    - Aggregators: what is reported was observed by a quorum, the median lies
      between honest values, the mode has honest support, independence of map
      order where it holds and the cases where it does not.
    - Plugin: reports have quorum, pruning is exact, the timestamp is
      Byzantine-fault tolerant, the agreement on encoders counts requests.
    - Data feeds and LLO: what a round reports and stores, feed by feed and
      stream by stream; reports are validated against signers that honest nodes
      vouch for; honest agreement decides an LLO round for every map order,
      unless an event names a stream twice.
    - Capability: registered workflows always have an aggregator and an
      encoder; a report comes back to the execution it was made for.
    - Workflows: a graph that is built is acyclic, has exactly one vertex for
      each step and the collected edges, and every step is reached from the
      trigger; the collected references
      are all that interpolation depends on; a workflow that is parsed has its
      steps in order, and is never a panic if the schema asks for identifiers.
    - Triggers: what a tick delivers after any sequence of calls, without a
      panic; the reports of a combined event are valid, one for a feed, and none
      is outdated;
      wrapped reports are unwrapped.
    - Helpers: the mailbox refines a bounded FIFO and strands nothing; medians,
      averages and batches at machine width; retries end; listing by pages
      visits every node.
    - Over gRPC: a capability, a contract reader, a reporting plugin, a relayer,
      a reader of CCIP or a provider of Mercury or of the median behind a client
      and a server answers every sequence of calls as it does directly, with
      errors as their statuses and but for what a theorem says is lost on the
      way (the workflow owner of a registration, the nil of a map); the conversions are proved to be inverses
      on what they are meant for, and where they are not the theorems say so.
      A connection is replaced by one caller at a time, and a call can always
      end.
    - Plugins: at most the current process runs, and none after [Close]; a
      plugin that works is relaunched by one check; a healthy report is vouched
      for by every part; the environment carries the configuration.
    - WASM: the host never reads or writes outside the slice it is asked for and
      fails where it should; the store has exactly the running requests, and
      a request whose fetches one guest makes stays within the limit, which two
      that race exceed; a request is answered and a fetch goes through the host and back.
    - Secrets: encryption succeeds exactly when every secret has values, each
      node opens its own share and no other, and the shares are as equal as the
      numbers allow; validation is exact.
    - Forms: what is written is read again, in each form.
    - Automation, CCIP, LLO: when two check results have one identifier; what
      limiting a range keeps, at 64 bits; which texts come back.
    - Monitoring: nothing a source gave is doubled or reordered, and nothing
      lost before the context is cancelled; each update is exported once by each
      exporter, cleanups come last, and the monitor's own steps are bounded and
      stop only at its end; which of a Prometheus exporter's series are left
      after its cleanup.

    ** Bounds and fuel

    Recursion is structural except for loops with a measure of their own.  Tree
    building takes the number of leaves as fuel (each layer halves it), the
    reversal of the mailbox's queue its length, batches one more than the length,
    [poll_oneoff] the number of subscriptions; the theorems are about these
    values.  Retries and page listings take any fuel, and theorems say how much
    is enough ([retry_ends], [pagination_complete]).  Values are read and set at
    a path with the nesting of their type as fuel; [Convert] is given the weights
    of the two types, and [Convert_enough] says that more is never needed.  Step
    relations have no bound: invariants hold in every reachable state, and
    termination is a measure that decreases ([run_ends], [serve_ends]).

    ** Not modelled

    The other gRPC clients and servers of the LOOP plugins forward calls and copy
    fields in the way of those that are modelled.  Generated code, loggers,
    metrics, exporters other than the one above, dashboards, test helpers and
    database helpers move data between libraries.  mapstructure and [UnwrapTo]
    of arbitrary types mean what reflection makes of them: the modifiers are
    about whatever decoder they are given.  The conversion between
    [json.Number] and floats, the text of errors made from Go values, and CBOR
    of numbers are left out.  The WASM engine, go-plugin, gRPC and the clocks
    are what they answer. *)

From stdpp Require Export ssreflect.
From stdpp Require Export prelude list gmap strings sorting.
From Stdlib Require Export ZArith Lia.
From Stdlib.Strings Require Import Byte.

Global Generalizable All Variables.

(** ** Outcomes of Go calls

    A Go function of type [(A, error)] either returns a value, returns an
    error, or panics.  [E] is the type of the errors a component
    distinguishes (sentinels and wrapped sentinels). *)

Inductive outcome (E A : Type) : Type :=
  | Ok (a : A)
  | Err (e : E)
  | Panic.
Arguments Ok {E A} _.
Arguments Err {E A} _.
Arguments Panic {E A}.

Declare Scope go_scope.
Delimit Scope go_scope with go.

Definition obind {E A B} (m : outcome E A) (k : A → outcome E B) : outcome E B :=
  match m with
  | Ok a => k a
  | Err e => Err e
  | Panic => Panic
  end.

(** [v, err := m; if err != nil { return err }; k] *)
Notation "'let?' x ':=' m 'in' k" := (obind m (λ x, k))
  (at level 10, x pattern, m at level 100, k at level 200,
   format "'[v' 'let?'  x  ':='  m  'in' '/' k ']'") : go_scope.
Open Scope go_scope.

Definition ok_or {E A} (e : E) (o : option A) : outcome E A :=
  match o with Some a => Ok a | None => Err e end.

(** An indexing expression [l[i]]: out of range is a run-time panic. *)
Definition go_index {E A} (l : list A) (i : nat) : outcome E A :=
  match l !! i with Some a => Ok a | None => Panic end.

Definition is_ok {E A} (m : outcome E A) : bool :=
  match m with Ok _ => true | _ => false end.

Definition map_err {E F A} (f : E → F) (m : outcome E A) : outcome F A :=
  match m with Ok a => Ok a | Err e => Err (f e) | Panic => Panic end.

(** [for _, x := range l { acc, err = f(acc, x); if err != nil { return err } }] *)
Fixpoint ofold {E A B} (f : B → A → outcome E B) (acc : B) (l : list A) : outcome E B :=
  match l with
  | [] => Ok acc
  | x :: l => let? acc' := f acc x in ofold f acc' l
  end.

Fixpoint omapM {E A B} (f : A → outcome E B) (l : list A) : outcome E (list B) :=
  match l with
  | [] => Ok []
  | x :: l => let? y := f x in let? ys := omapM f l in Ok (y :: ys)
  end.

Section outcome_lemmas.
Context {E A B C : Type}.
Implicit Types (m : outcome E A).

Lemma obind_ok a (k : A → outcome E B) : obind (Ok a) k = k a.
Proof. done. Qed.

Lemma obind_Ok_inv m (k : A → outcome E B) b :
  obind m k = Ok b → ∃ a, m = Ok a ∧ k a = Ok b.
Proof. destruct m; naive_solver. Qed.

Lemma obind_Ok_iff m (k : A → outcome E B) b :
  obind m k = Ok b ↔ ∃ a, m = Ok a ∧ k a = Ok b.
Proof. split; [apply obind_Ok_inv|]. by intros (a & -> & ?). Qed.

Lemma obind_assoc m (k : A → outcome E B) (l : B → outcome E C) :
  obind (obind m k) l = obind m (λ a, obind (k a) l).
Proof. by destruct m. Qed.

Lemma obind_not_panic m (k : A → outcome E B) :
  m ≠ Panic → (∀ a, m = Ok a → k a ≠ Panic) → obind m k ≠ Panic.
Proof. destruct m; naive_solver. Qed.

Lemma go_index_Ok (l : list A) i a :
  go_index (E:=E) l i = Ok a ↔ l !! i = Some a.
Proof. rewrite /go_index. destruct (l !! i); naive_solver. Qed.

Lemma go_index_lt (l : list A) i :
  i < length l → ∃ a, l !! i = Some a ∧ go_index (E:=E) l i = Ok a.
Proof.
  intros [a Ha]%lookup_lt_is_Some_2. exists a. by rewrite /go_index Ha.
Qed.
End outcome_lemmas.

Lemma omapM_length {E A B} (f : A → outcome E B) l l' :
  omapM f l = Ok l' → length l' = length l.
Proof.
  revert l'. induction l as [|x l IH]; intros l' H; simpl in H; [by simplify_eq|].
  apply obind_Ok_inv in H as (y & Hy & H).
  apply obind_Ok_inv in H as (ys & Hys & H). simplify_eq/=. f_equal. eauto.
Qed.

Lemma omapM_Forall2 {E A B} (f : A → outcome E B) l l' :
  omapM f l = Ok l' ↔ Forall2 (λ x y, f x = Ok y) l l'.
Proof.
  revert l'. induction l as [|x l IH]; intros l'; simpl.
  { split; [by intros [= <-] | by inversion 1]. }
  rewrite obind_Ok_iff. setoid_rewrite obind_Ok_iff. split.
  - intros (y & Hy & ys & Hys & [= <-]). constructor; [done|]. by apply IH.
  - inversion 1 as [|? y ? ys]; subst. exists y. split; [done|]. exists ys.
    split; [by apply IH|done].
Qed.

Lemma ofold_app {E A B} (f : B → A → outcome E B) acc l1 l2 :
  ofold f acc (l1 ++ l2) = (let? acc' := ofold f acc l1 in ofold f acc' l2).
Proof.
  revert acc. induction l1 as [|x l1 IH]; intros acc; [done|]. simpl.
  destruct (f acc x); simpl; auto.
Qed.

(** Peels a successful chain of [let?]. *)
Ltac inv_ok :=
  repeat match goal with
  | H : obind _ _ = Ok _ |- _ =>
      let a := fresh "a" in let Ha := fresh "Ha" in
      apply obind_Ok_inv in H as (a & Ha & H)
  | H : Ok _ = Ok _ |- _ => injection H as H
  | H : Err _ = Ok _ |- _ => discriminate H
  | H : Panic = Ok _ |- _ => discriminate H
  end; subst.

(** ** Map iteration

    Go iterates over a map in an order that is unspecified and differs from
    run to run.  Every [range] over a map takes a [RangeOrder]: any function
    that permutes the entries.  A theorem that quantifies over it holds for
    every order; two instances that give different results show that the
    source depends on the order. *)

Class RangeOrder (A : Type) := {
  range_order : list A → list A;
  range_order_perm : ∀ l, range_order l ≡ₚ l
}.
Arguments range_order {A} _ _.

Program Definition insertion_order (A : Type) : RangeOrder A :=
  {| range_order l := l |}.
Next Obligation. done. Qed.

Program Definition reverse_order (A : Type) : RangeOrder A :=
  {| range_order l := reverse l |}.
Next Obligation. intros. apply reverse_Permutation. Qed.

Definition range_map `{Countable K} {V} (O : RangeOrder (K * V)) (m : gmap K V) : list (K * V) :=
  range_order O (map_to_list m).

Lemma range_map_perm `{Countable K} {V} (O : RangeOrder (K * V)) (m : gmap K V) :
  range_map O m ≡ₚ map_to_list m.
Proof. apply range_order_perm. Qed.

Lemma elem_of_range_map `{Countable K} {V} (O : RangeOrder (K * V)) (m : gmap K V) k v :
  (k, v) ∈ range_map O m ↔ m !! k = Some v.
Proof. by rewrite range_map_perm elem_of_map_to_list. Qed.

Lemma NoDup_fst_range_map `{Countable K} {V} (O : RangeOrder (K * V)) (m : gmap K V) :
  NoDup (range_map O m).*1.
Proof. rewrite range_map_perm. apply NoDup_fst_map_to_list. Qed.

(** A loop that writes one entry per iterated entry. *)
Section foldl_insert.
Context `{Countable K} {V A : Type} (g : gmap K A → K * V → gmap K A) (f : K → V → A).
Context (g_insert : ∀ m k v, g m (k, v) = <[k := f k v]> m).

Lemma foldl_insert_notin l m k : k ∉ l.*1 → foldl g m l !! k = m !! k.
Proof.
  revert m. induction l as [|[k' v'] l IH]; intros m Hk; [done|]. simpl in *.
  rewrite IH; [|set_solver]. rewrite g_insert lookup_insert_ne //. set_solver.
Qed.

Lemma foldl_insert_elem l m k v : NoDup l.*1 → (k, v) ∈ l → foldl g m l !! k = Some (f k v).
Proof.
  revert m. induction l as [|[k' v'] l IH]; intros m Hnd Hk; simpl in *; [set_solver|].
  apply NoDup_cons in Hnd as [Hk' Hnd]. apply elem_of_cons in Hk as [[= <- <-]|Hk]; [|by apply IH].
  rewrite foldl_insert_notin // g_insert lookup_insert. by case_decide.
Qed.

Lemma foldl_insert_range (O : RangeOrder (K * V)) (src : gmap K V) m k :
  foldl g m (range_map O src) !! k = match src !! k with Some v => Some (f k v) | None => m !! k end.
Proof.
  destruct (src !! k) as [v|] eqn:E.
  - apply foldl_insert_elem; [apply NoDup_fst_range_map|by apply elem_of_range_map].
  - apply foldl_insert_notin. intros ([k' v] & -> & Hkv)%list_elem_of_fmap.
    apply elem_of_range_map in Hkv. simpl in E. congruence.
Qed.
End foldl_insert.

(** ** Shared hints *)

Create HintDb go.
#[export] Hint Resolve obind_not_panic : go.

(** ** Lists *)

Lemma NoDup_map_inj_on {A B} (f : A → B) (l : list A) :
  (∀ x y, x ∈ l → y ∈ l → f x = f y → x = y) → NoDup l → NoDup (f <$> l).
Proof.
  induction l as [|x l IH]; intros Hinj Hnd; [constructor|].
  apply NoDup_cons in Hnd as [Hx Hnd]. simpl. apply NoDup_cons. split.
  - intros (y & Hy & Hyl)%list_elem_of_fmap.
    assert (x = y) as -> by (apply Hinj; set_solver). done.
  - apply IH; [|done]. intros. apply Hinj; set_solver.
Qed.

Lemma take_drop_lookup {A} (l : list A) i x :
  l !! i = Some x → l = take i l ++ x :: drop (S i) l.
Proof. intros. symmetry. by apply take_drop_middle. Qed.

Lemma length_filter_mono {A} (P Q : A → Prop) `{∀ x, Decision (P x), ∀ x, Decision (Q x)} (l : list A) :
  (∀ x, x ∈ l → P x → Q x) → length (filter P l) ≤ length (filter Q l).
Proof.
  induction l as [|x l IH]; intros HPQ; [done|]. rewrite !filter_cons.
  assert (length (filter P l) ≤ length (filter Q l)) as Hl by (apply IH; set_solver).
  destruct (decide (P x)) as [Hx|]; [|destruct (decide (Q x)); cbn; lia].
  rewrite decide_True; [cbn; lia|]. apply HPQ; [set_solver|done].
Qed.

Lemma length_filter_eq `{EqDecision A} (k : A) (l : list A) :
  NoDup l → length (filter (λ x, x = k) l) = if decide (k ∈ l) then 1 else 0.
Proof.
  induction 1 as [|x l Hx _ IH]; [done|]. rewrite filter_cons. destruct (decide (x = k)) as [->|Hne]; cbn [length].
  - rewrite IH decide_False // decide_True //. set_solver.
  - rewrite IH. destruct (decide (k ∈ l)), (decide (k ∈ x :: l)); set_solver.
Qed.

Lemma NoDup_fst_inj {A B} (l : list (A * B)) k v v' :
  NoDup l.*1 → (k, v) ∈ l → (k, v') ∈ l → v = v'.
Proof.
  induction l as [|[k1 v1] l IH]; cbn; [set_solver|]. intros [Hk Hnd]%NoDup_cons Hv Hv'.
  assert (∀ w, (k1, w) ∉ l) as Hno by (intros w Hw; apply Hk; apply list_elem_of_fmap; by exists (k1, w)).
  apply elem_of_cons in Hv; apply elem_of_cons in Hv'. destruct Hv as [Hv|Hv], Hv' as [Hv'|Hv']; simplify_eq; [done|by destruct (Hno v')|by destruct (Hno v)|by apply IH].
Qed.
