(* ===== verification/GoBytes.v ===== *)
(** Machine integers and byte strings: Go's fixed-width conversions,
    [encoding/binary]'s byte orders and [bytes.Compare].  Integers are kept in
    [Z] with their wrap-around written out; a byte is [Byte.byte]. *)

From Stdlib.Strings Require Export Byte.
From S2P Require Import Prelude.

Abbreviation byte := Byte.byte.

#[export] Instance byte_eq_dec : EqDecision byte := Byte.byte_eq_dec.

(** ** Widths *)

(** [uintN(z)] *)
Definition wrapU (w : Z) (z : Z) : Z := z mod 2 ^ w.
(** [intN(z)] *)
Definition wrapS (w : Z) (z : Z) : Z := (z + 2 ^ (w - 1)) mod 2 ^ w - 2 ^ (w - 1).

Definition inU (w : Z) (z : Z) : Prop := (0 <= z < 2 ^ w)%Z.
Definition inS (w : Z) (z : Z) : Prop := (- 2 ^ (w - 1) <= z < 2 ^ (w - 1))%Z.

(** ** Bytes *)

Definition Z_of_byte (b : byte) : Z := Z.of_N (Byte.to_N b).
Definition byte_of_Z (z : Z) : byte :=
  match Byte.of_N (Z.to_N (z mod 256)) with Some b => b | None => x00 end.

(** Little-endian digits of [z], [n] bytes wide. *)
Fixpoint le_bytes (n : nat) (z : Z) : list byte :=
  match n with
  | 0 => []
  | S n => byte_of_Z z :: le_bytes n (z / 256)
  end.

Fixpoint le_val (bs : list byte) : Z :=
  match bs with
  | [] => 0
  | b :: bs => Z_of_byte b + 256 * le_val bs
  end.

Definition be_bytes (n : nat) (z : Z) : list byte := reverse (le_bytes n z).
Definition be_val (bs : list byte) : Z := le_val (reverse bs).

#[export] Instance byte_countable : Countable byte.
Proof. apply (inj_countable Byte.to_N Byte.of_N). apply Byte.of_to_N. Defined.

(** [bytes.Compare] *)
Fixpoint bytesCompare (a b : list byte) : comparison :=
  match a, b with
  | [], [] => Eq
  | [], _ => Lt
  | _, [] => Gt
  | x :: a, y :: b =>
      match Z.compare (Z_of_byte x) (Z_of_byte y) with
      | Eq => bytesCompare a b
      | c => c
      end
  end.

(** ** Lemmas *)

Section widths.
Local Open Scope Z_scope.

Lemma wrapU_small w z : inU w z → wrapU w z = z.
Proof. apply Z.mod_small. Qed.

Lemma wrapU_range w z : 0 <= w → inU w (wrapU w z).
Proof. intros. apply Z.mod_pos_bound. lia. Qed.

Lemma pow2_half w : 0 < w → 2 ^ w = 2 * 2 ^ (w - 1).
Proof. intros. rewrite -Z.pow_succ_r; [|lia]. f_equal. lia. Qed.

Lemma wrapS_small w z : 0 < w → inS w z → wrapS w z = z.
Proof. intros Hw [??]. rewrite /wrapS Z.mod_small; [lia|]. rewrite (pow2_half w Hw). lia. Qed.

Lemma wrapS_range w z : 0 < w → inS w (wrapS w z).
Proof.
  intros Hw. rewrite /wrapS /inS. pose proof (Z.mod_pos_bound (z + 2 ^ (w - 1)) (2 ^ w)).
  pose proof (Z.pow_pos_nonneg 2 (w - 1)). pose proof (pow2_half w Hw). lia.
Qed.

Lemma wrapU_wrapU w z : wrapU w (wrapU w z) = wrapU w z.
Proof. rewrite /wrapU. apply Zmod_mod. Qed.

Lemma wrapS_wrapS w z : 0 < w → wrapS w (wrapS w z) = wrapS w z.
Proof. intros. by apply wrapS_small, wrapS_range. Qed.

Lemma wrapS_wrapU w z : 0 < w → wrapS w (wrapU w z) = wrapS w z.
Proof. intros. by rewrite /wrapS /wrapU Zplus_mod_idemp_l. Qed.

Lemma wrapU_wrapS w z : 0 < w → wrapU w (wrapS w z) = wrapU w z.
Proof.
  intros. rewrite /wrapS /wrapU Zminus_mod_idemp_l. f_equal. lia.
Qed.

Lemma wrapS_add_mul w z k : 0 < w → wrapS w (z + k * 2 ^ w) = wrapS w z.
Proof.
  intros. rewrite /wrapS. replace (z + k * 2 ^ w + 2 ^ (w - 1)) with (z + 2 ^ (w - 1) + k * 2 ^ w) by lia.
  by rewrite Z_mod_plus_full.
Qed.

Lemma wrapS_eq w z : 0 < w → ∃ k, wrapS w z = z + k * 2 ^ w.
Proof.
  intros. exists (- ((z + 2 ^ (w - 1)) / 2 ^ w)). rewrite /wrapS.
  rewrite Z.mod_eq; [lia|]. pose proof (Z.pow_pos_nonneg 2 w). lia.
Qed.

Lemma wrapS_add w a b : 0 < w → wrapS w (wrapS w a + wrapS w b) = wrapS w (a + b).
Proof.
  intros Hw. destruct (wrapS_eq w a Hw) as [k ->], (wrapS_eq w b Hw) as [l ->].
  rewrite -(wrapS_add_mul w (a + b) (k + l)) //. f_equal. lia.
Qed.

Lemma wrapS_mul w a b : 0 < w → wrapS w (wrapS w a * b) = wrapS w (a * b).
Proof.
  intros Hw. destruct (wrapS_eq w a Hw) as [k ->].
  rewrite -(wrapS_add_mul w (a * b) (k * b)) //. f_equal. lia.
Qed.

End widths.

Lemma Z_of_byte_range b : (0 <= Z_of_byte b < 256)%Z.
Proof. rewrite /Z_of_byte. pose proof (Byte.to_N_bounded b). lia. Qed.

Lemma Z_of_byte_of_Z z : Z_of_byte (byte_of_Z z) = (z mod 256)%Z.
Proof.
  rewrite /byte_of_Z /Z_of_byte. pose proof (Z.mod_pos_bound z 256).
  destruct (Byte.of_N _) as [b|] eqn:E.
  - apply Byte.to_of_N in E. rewrite E. lia.
  - apply Byte.of_N_None_iff in E. lia.
Qed.

Lemma byte_of_Z_of_byte b : byte_of_Z (Z_of_byte b) = b.
Proof.
  rewrite /byte_of_Z. pose proof (Z_of_byte_range b). rewrite Z.mod_small; [|lia].
  rewrite /Z_of_byte N2Z.id Byte.of_to_N //.
Qed.

#[export] Instance Z_of_byte_inj : Inj (=) (=) Z_of_byte.
Proof. intros x y H. by rewrite -(byte_of_Z_of_byte x) H byte_of_Z_of_byte. Qed.

Lemma length_le_bytes n z : length (le_bytes n z) = n.
Proof. revert z. induction n as [|n IH]; intros z; simpl; auto. Qed.

Lemma length_be_bytes n z : length (be_bytes n z) = n.
Proof. by rewrite /be_bytes length_reverse length_le_bytes. Qed.

Lemma pow2_8S n : (2 ^ (8 * Z.of_nat (S n)) = 256 * 2 ^ (8 * Z.of_nat n))%Z.
Proof. replace (8 * Z.of_nat (S n))%Z with (8 + 8 * Z.of_nat n)%Z by lia. rewrite Z.pow_add_r; lia. Qed.

Lemma le_val_range bs : (0 <= le_val bs < 2 ^ (8 * Z.of_nat (length bs)))%Z.
Proof.
  induction bs as [|b bs IH]; [done|]. cbn [length le_val]. rewrite pow2_8S.
  pose proof (Z_of_byte_range b). lia.
Qed.

Lemma le_val_bytes n z : le_val (le_bytes n z) = (z mod 2 ^ (8 * Z.of_nat n))%Z.
Proof.
  revert z. induction n as [|n IH]; intros z; [by rewrite /= Z.mod_1_r|].
  cbn [le_bytes le_val]. rewrite IH Z_of_byte_of_Z pow2_8S.
  rewrite Z.rem_mul_r; [lia|lia|]. apply Z.pow_pos_nonneg; lia.
Qed.

Lemma le_bytes_val bs : le_bytes (length bs) (le_val bs) = bs.
Proof.
  induction bs as [|b bs IH]; [done|]. cbn [length le_bytes le_val].
  pose proof (Z_of_byte_range b). f_equal.
  - apply (inj Z_of_byte). rewrite Z_of_byte_of_Z (Z.mul_comm 256) Z.mod_add; [|lia].
    by apply Z.mod_small.
  - rewrite (Z.mul_comm 256) Z.div_add; [|lia]. rewrite (Z.div_small _ 256); [|done]. done.
Qed.

Lemma be_val_range bs : (0 <= be_val bs < 2 ^ (8 * Z.of_nat (length bs)))%Z.
Proof. rewrite /be_val -(length_reverse bs). apply le_val_range. Qed.

Lemma be_val_bytes n z : be_val (be_bytes n z) = (z mod 2 ^ (8 * Z.of_nat n))%Z.
Proof. by rewrite /be_val /be_bytes reverse_involutive le_val_bytes. Qed.

Lemma be_bytes_val bs : be_bytes (length bs) (be_val bs) = bs.
Proof. by rewrite /be_val /be_bytes -(length_reverse bs) le_bytes_val reverse_involutive. Qed.

Lemma bytesCompare_antisym a b : bytesCompare b a = CompOpp (bytesCompare a b).
Proof.
  revert b. induction a as [|x a IH]; intros [|y b]; simpl; [done..|].
  rewrite Z.compare_antisym. destruct (Z.compare _ _); simpl; auto.
Qed.

Lemma bytesCompare_Eq a b : bytesCompare a b = Eq ↔ a = b.
Proof.
  split; last first.
  { intros ->. induction b as [|y b IH]; simpl; [done|]. by rewrite Z.compare_refl. }
  revert b. induction a as [|x a IH]; intros [|y b]; simpl; [done..|].
  destruct (Z.compare _ _) eqn:E; [|done..]. intros H. apply Z.compare_eq in E.
  apply (inj Z_of_byte) in E. f_equal; auto.
Qed.

#[export] Hint Resolve Z_of_byte_range length_le_bytes length_be_bytes : go.

Arguments le_bytes : simpl never.
Arguments be_bytes : simpl never.
