(* ===== verification/GoErrors.v ===== *)
(** Go error values: leaves, wrapping with [%w], and [errors.Join].  A nil
    error is [None]. *)

From S2P Require Import Prelude.

Inductive error :=
  | ELeaf (msg : string)
  | EWrap (msg : string) (e : error)
  | EJoin (es : list error).

(** [errors.Join]: nil when every argument is. *)
Definition Join (es : list (option error)) : option error :=
  match omap id es with [] => None | es => Some (EJoin es) end.

(** [errors.Is] for comparable targets: the target occurs in the tree. *)
Fixpoint Is (e target : error) : Prop :=
  e = target ∨
  match e with
  | ELeaf _ => False
  | EWrap _ e => Is e target
  | EJoin es => (fix go (es : list error) : Prop := match es with [] => False | e :: es => Is e target ∨ go es end) es
  end.

Lemma Is_refl e : Is e e.
Proof. destruct e; by left. Qed.

Lemma Is_EJoin es e target : e ∈ es → Is e target → Is (EJoin es) target.
Proof.
  intros He Ht. right. induction es as [|e' es IH]; [by apply elem_of_nil in He|].
  apply elem_of_cons in He as [->|He]; [by left|right; by apply IH].
Qed.

Lemma Join_None es : Join es = None ↔ Forall (λ e, e = None) es.
Proof.
  rewrite /Join. split.
  - destruct (omap id es) eqn:E; [|done]. intros _.
    induction es as [|[e|] es IH]; simpl in E; [constructor|done|]. constructor; auto.
  - induction 1 as [|e es -> _ IH]; [done|]. exact IH.
Qed.

Lemma Join_Some es e : Some e ∈ es → ∃ j, Join es = Some j ∧ ∀ t, Is e t → Is j t.
Proof.
  intros He. assert (e ∈ omap id es) as Ho by (apply list_elem_of_omap; by exists (Some e)).
  rewrite /Join. destruct (omap id es) as [|a l]; [by apply elem_of_nil in Ho|].
  eexists. split; [done|]. intros t. by apply Is_EJoin.
Qed.

Arguments Join : simpl never.
