(* ===== verification/GoStrings.v ===== *)
(** The standard library's string functions that the components use:
    [strconv], [strings] and [encoding/hex]. *)

From Stdlib.Strings Require Import Ascii.
From stdpp Require Import pretty.
From S2P Require Import Prelude GoBytes.

Implicit Types s : string.

(** ** strconv *)

Definition digit (c : ascii) : option Z :=
  let n := Z.of_N (N_of_ascii c) in if decide (48 <= n <= 57)%Z then Some (n - 48)%Z else None.

Fixpoint digits (acc : Z) (s : string) : option Z :=
  match s with
  | EmptyString => Some acc
  | String c s => d ← digit c; digits (10 * acc + d) s
  end.

(** [strconv.ParseUint(s, 10, bits)] *)
Definition ParseUint (bits : Z) (s : string) : option Z :=
  match s with
  | EmptyString => None
  | _ => z ← digits 0 s; if decide (z < 2 ^ bits)%Z then Some z else None
  end.

(** [strconv.Atoi]: an error when there is no digit, another character, or on
    overflow. *)
Definition Atoi (s : string) : option Z :=
  let inRange z := if decide (- 2 ^ 63 <= z < 2 ^ 63)%Z then Some z else None in
  match s with
  | EmptyString => None
  | String "-" EmptyString | String "+" EmptyString => None
  | String "-" s => z ← digits 0 s; inRange (- z)%Z
  | String "+" s => z ← digits 0 s; inRange z
  | s => z ← digits 0 s; inRange z
  end.

(** ** strings *)

Fixpoint HasPrefix (s p : string) {struct p} : bool :=
  match p, s with
  | EmptyString, _ => true
  | String c p, String d s => Ascii.eqb c d && HasPrefix s p
  | _, _ => false
  end.

Fixpoint dropChars (n : nat) (s : string) {struct n} : string :=
  match n, s with
  | S n, String _ s => dropChars n s
  | _, s => s
  end.

(** [strings.TrimPrefix] *)
Definition TrimPrefix (s p : string) : string := if HasPrefix s p then dropChars (String.length p) s else s.

Fixpoint Repeat (s : string) (n : nat) : string :=
  match n with 0 => "" | S n => (s ++ Repeat s n)%string end.

(** [strings.ToLower], on ASCII. *)
Definition lowerChar (c : ascii) : ascii :=
  let n := N_of_ascii c in if decide (65 <= n <= 90)%N then ascii_of_N (n + 32) else c.

Fixpoint ToLower (s : string) : string :=
  match s with EmptyString => EmptyString | String c s => String (lowerChar c) (ToLower s) end.

Definition bytes_of_string (s : string) : list byte := String.list_byte_of_string s.

(** ** encoding/hex *)

Definition hexDigit (c : ascii) : option Z :=
  let n := Z.of_N (N_of_ascii c) in
  if decide (48 <= n <= 57)%Z then Some (n - 48)%Z
  else if decide (97 <= n <= 102)%Z then Some (n - 87)%Z
  else if decide (65 <= n <= 70)%Z then Some (n - 55)%Z
  else None.

(** [hex.DecodeString] *)
Fixpoint hexDecode (s : string) : option (list byte) :=
  match s with
  | EmptyString => Some []
  | String _ EmptyString => None
  | String a (String b s) =>
      x ← hexDigit a; y ← hexDigit b; bs ← hexDecode s; Some (byte_of_Z (16 * x + y) :: bs)
  end.

(** The bytes decoded before the first error. *)
Fixpoint hexPrefix (s : string) : list byte :=
  match s with
  | String a (String b s) =>
      match hexDigit a, hexDigit b with
      | Some x, Some y => byte_of_Z (16 * x + y) :: hexPrefix s
      | _, _ => []
      end
  | _ => []
  end.

Lemma hexDecode_prefix n s bs : String.length s < n → hexDecode s = Some bs → hexPrefix s = bs ∧ String.length s = 2 * length bs.
Proof.
  revert s bs. induction n as [|n IH]; intros s bs Hn; [lia|]. destruct s as [|a [|b s]]; cbn; [by intros [= <-]|done|].
  destruct (hexDigit a) as [x|], (hexDigit b) as [y|]; cbn; try done. destruct (hexDecode s) as [bs'|] eqn:E; cbn; [|done].
  intros [= <-]. destruct (IH s bs') as [-> Hl]; [cbn in Hn; lia|done|]. split; [done|]. cbn. rewrite Hl. lia.
Qed.

Definition hexChar (z : Z) : ascii :=
  ascii_of_N (Z.to_N (if decide (z < 10)%Z then z + 48 else z + 87)%Z).

(** [hex.EncodeToString] *)
Fixpoint hexEncode (bs : list byte) : string :=
  match bs with
  | [] => EmptyString
  | b :: bs => String (hexChar (Z_of_byte b / 16)) (String (hexChar (Z_of_byte b mod 16)) (hexEncode bs))
  end.

Lemma hex_byte b :
  hexDigit (hexChar (Z_of_byte b / 16)) = Some (Z_of_byte b / 16)%Z ∧
  hexDigit (hexChar (Z_of_byte b mod 16)) = Some (Z_of_byte b mod 16)%Z ∧
  byte_of_Z (16 * (Z_of_byte b / 16) + Z_of_byte b mod 16) = b ∧
  lowerChar (hexChar (Z_of_byte b / 16)) = hexChar (Z_of_byte b / 16) ∧
  lowerChar (hexChar (Z_of_byte b mod 16)) = hexChar (Z_of_byte b mod 16).
Proof. by destruct b. Qed.

Lemma hexDecode_hexEncode bs : hexDecode (hexEncode bs) = Some bs.
Proof.
  induction bs as [|b bs IH]; [done|]. cbn [hexEncode hexDecode]. destruct (hex_byte b) as (H1 & H2 & H3 & _).
  rewrite H1 H2 IH. cbn [mbind option_bind]. by rewrite H3.
Qed.

Lemma ToLower_hexEncode bs : ToLower (hexEncode bs) = hexEncode bs.
Proof.
  induction bs as [|b bs IH]; [done|]. cbn [hexEncode ToLower]. destruct (hex_byte b) as (_ & _ & _ & -> & ->). by rewrite IH.
Qed.

Lemma length_hexEncode bs : String.length (hexEncode bs) = 2 * length bs.
Proof. induction bs as [|b bs IH]; [done|]. cbn [hexEncode String.length length]. rewrite IH. lia. Qed.

Create Rewrite HintDb hex.
#[export] Hint Rewrite hexDecode_hexEncode ToLower_hexEncode length_hexEncode : hex.

(** ** encoding/base64: [StdEncoding] *)

Definition b64Char (z : Z) : ascii :=
  ascii_of_N (Z.to_N (if decide (z < 26) then z + 65 else if decide (z < 52) then z + 71
                      else if decide (z < 62) then z - 4 else if decide (z = 62) then 43 else 47)%Z).

Definition b64Val (c : ascii) : option Z :=
  let n := Z.of_N (N_of_ascii c) in
  if decide (65 <= n <= 90)%Z then Some (n - 65)%Z
  else if decide (97 <= n <= 122)%Z then Some (n - 71)%Z
  else if decide (48 <= n <= 57)%Z then Some (n + 4)%Z
  else if decide (n = 43)%Z then Some 62%Z
  else if decide (n = 47)%Z then Some 63%Z else None.

Fixpoint base64Encode (bs : list byte) : string :=
  match bs with
  | [] => EmptyString
  | [x] => let n := (Z_of_byte x * 16)%Z in
           String (b64Char (n / 64)) (String (b64Char (n mod 64)) (String "=" (String "=" EmptyString)))
  | [x; y] => let n := (Z_of_byte x * 1024 + Z_of_byte y * 4)%Z in
              String (b64Char (n / 4096)) (String (b64Char (n / 64 mod 64)) (String (b64Char (n mod 64)) (String "=" EmptyString)))
  | x :: y :: z :: bs =>
      let n := (Z_of_byte x * 65536 + Z_of_byte y * 256 + Z_of_byte z)%Z in
      String (b64Char (n / 262144)) (String (b64Char (n / 4096 mod 64))
        (String (b64Char (n / 64 mod 64)) (String (b64Char (n mod 64)) (base64Encode bs))))
  end.

(** Decoding quanta of four characters, the last one possibly padded. *)
Fixpoint b64Quanta (s : string) : option (list byte) :=
  match s with
  | EmptyString => Some []
  | String a (String b (String c (String d s'))) =>
      x ← b64Val a; y ← b64Val b;
      match b64Val c, b64Val d, s' with
      | Some z, Some w, _ =>
          let n := (x * 262144 + y * 4096 + z * 64 + w)%Z in
          bs ← b64Quanta s'; Some (byte_of_Z (n / 65536) :: byte_of_Z (n / 256) :: byte_of_Z n :: bs)
      | Some z, None, EmptyString =>
          if Ascii.eqb d "=" then
            let n := (x * 4096 + y * 64 + z)%Z in Some [byte_of_Z (n / 1024); byte_of_Z (n / 4)]
          else None
      | None, None, EmptyString =>
          if Ascii.eqb c "=" && Ascii.eqb d "=" then Some [byte_of_Z ((x * 64 + y) / 16)] else None
      | _, _, _ => None
      end
  | _ => None
  end.

(** Line breaks are skipped. *)
Fixpoint dropNewlines (s : string) : string :=
  match s with
  | EmptyString => EmptyString
  | String c s => if Ascii.eqb c "010" || Ascii.eqb c "013" then dropNewlines s else String c (dropNewlines s)
  end.

Definition base64Decode (s : string) : option (list byte) := b64Quanta (dropNewlines s).

Definition b64Good (z : Z) : bool :=
  bool_decide (b64Val (b64Char z) = Some z) && negb (Ascii.eqb (b64Char z) "010" || Ascii.eqb (b64Char z) "013").

Lemma b64Char_good z : (0 <= z < 64)%Z → b64Val (b64Char z) = Some z ∧ Ascii.eqb (b64Char z) "010" || Ascii.eqb (b64Char z) "013" = false.
Proof.
  intros Hz. assert (forallb (λ n, b64Good (Z.of_nat n)) (seq 0 64) = true) as Hall by (by vm_compute).
  rewrite forallb_forall in Hall. specialize (Hall (Z.to_nat z)). rewrite Z2Nat.id in Hall; [|lia].
  assert (b64Good z = true) as Hg by (apply Hall, in_seq; lia). rewrite /b64Good in Hg.
  apply andb_prop in Hg as [Hv Hn]. apply bool_decide_eq_true in Hv. by apply negb_true_iff in Hn.
Qed.

Lemma byte_of_Z_eq z b : (z mod 256 = Z_of_byte b)%Z → byte_of_Z z = b.
Proof.
  intros Hz. rewrite -(byte_of_Z_of_byte b) -Hz /byte_of_Z. by rewrite Zmod_mod.
Qed.

(** A byte is determined by the quotient that a decoder computes. *)
Ltac b64_byte := apply byte_of_Z_eq; Z.to_euclidean_division_equations; lia.

(** The characters of a quantum have the values of its digits, which make the
    bytes again. *)
Lemma b64_digits3 x y z :
  let n := (Z_of_byte x * 65536 + Z_of_byte y * 256 + Z_of_byte z)%Z in
  b64Val (b64Char (n / 262144)) = Some (n / 262144)%Z ∧ b64Val (b64Char (n / 4096 mod 64)) = Some (n / 4096 mod 64)%Z ∧
  b64Val (b64Char (n / 64 mod 64)) = Some (n / 64 mod 64)%Z ∧ b64Val (b64Char (n mod 64)) = Some (n mod 64)%Z ∧
  (n / 262144 * 262144 + n / 4096 mod 64 * 4096 + n / 64 mod 64 * 64 + n mod 64 = n)%Z ∧
  byte_of_Z (n / 65536) = x ∧ byte_of_Z (n / 256) = y ∧ byte_of_Z n = z.
Proof.
  intros n. pose proof (Z_of_byte_range x). pose proof (Z_of_byte_range y). pose proof (Z_of_byte_range z).
  split; [apply b64Char_good; subst n; Z.to_euclidean_division_equations; lia|].
  do 3 (split; [by apply b64Char_good, Z.mod_pos_bound|]). split; [clearbody n; Z.to_euclidean_division_equations; lia|].
  subst n. repeat split; b64_byte.
Qed.

Lemma b64_digits2 x y :
  let n := (Z_of_byte x * 1024 + Z_of_byte y * 4)%Z in
  b64Val (b64Char (n / 4096)) = Some (n / 4096)%Z ∧ b64Val (b64Char (n / 64 mod 64)) = Some (n / 64 mod 64)%Z ∧
  b64Val (b64Char (n mod 64)) = Some (n mod 64)%Z ∧ (n / 4096 * 4096 + n / 64 mod 64 * 64 + n mod 64 = n)%Z ∧
  byte_of_Z (n / 1024) = x ∧ byte_of_Z (n / 4) = y.
Proof.
  intros n. pose proof (Z_of_byte_range x). pose proof (Z_of_byte_range y).
  split; [apply b64Char_good; subst n; Z.to_euclidean_division_equations; lia|].
  do 2 (split; [by apply b64Char_good, Z.mod_pos_bound|]). split; [clearbody n; Z.to_euclidean_division_equations; lia|].
  subst n. repeat split; b64_byte.
Qed.

Lemma b64_digits1 x :
  let n := (Z_of_byte x * 16)%Z in
  b64Val (b64Char (n / 64)) = Some (n / 64)%Z ∧ b64Val (b64Char (n mod 64)) = Some (n mod 64)%Z ∧
  (n / 64 * 64 + n mod 64 = n)%Z ∧ byte_of_Z (n / 16) = x.
Proof.
  intros n. pose proof (Z_of_byte_range x).
  split; [apply b64Char_good; subst n; Z.to_euclidean_division_equations; lia|].
  split; [by apply b64Char_good, Z.mod_pos_bound|]. split; [clearbody n; Z.to_euclidean_division_equations; lia|].
  subst n. b64_byte.
Qed.

Lemma b64_quantum x y z s bs :
  b64Quanta s = Some bs →
  let n := (Z_of_byte x * 65536 + Z_of_byte y * 256 + Z_of_byte z)%Z in
  b64Quanta (String (b64Char (n / 262144)) (String (b64Char (n / 4096 mod 64)) (String (b64Char (n / 64 mod 64)) (String (b64Char (n mod 64)) s))))
  = Some (x :: y :: z :: bs).
Proof.
  intros Hs n. destruct (b64_digits3 x y z) as (E1 & E2 & E3 & E4 & Hn & Hx & Hy & Hz). fold n in E1, E2, E3, E4, Hn, Hx, Hy, Hz.
  cbn [b64Quanta]. rewrite E1 E2 E3 E4. cbn [mbind option_bind]. rewrite Hs. cbn [mbind option_bind]. by rewrite Hn Hx Hy Hz.
Qed.

Lemma b64_one x :
  let n := (Z_of_byte x * 16)%Z in
  b64Quanta (String (b64Char (n / 64)) (String (b64Char (n mod 64)) (String "=" (String "=" EmptyString)))) = Some [x].
Proof.
  intros n. destruct (b64_digits1 x) as (E1 & E2 & Hn & Hx). fold n in E1, E2, Hn, Hx.
  cbn [b64Quanta]. rewrite E1 E2. cbn -[Z.div Z.mul Z.add byte_of_Z]. by rewrite Hn Hx.
Qed.

Lemma b64_two x y :
  let n := (Z_of_byte x * 1024 + Z_of_byte y * 4)%Z in
  b64Quanta (String (b64Char (n / 4096)) (String (b64Char (n / 64 mod 64)) (String (b64Char (n mod 64)) (String "=" EmptyString)))) = Some [x; y].
Proof.
  intros n. destruct (b64_digits2 x y) as (E1 & E2 & E3 & Hn & Hx & Hy). fold n in E1, E2, E3, Hn, Hx, Hy.
  cbn [b64Quanta]. rewrite E1 E2 E3. cbn -[Z.div Z.mul Z.add byte_of_Z Z.modulo]. by rewrite Hn Hx Hy.
Qed.

Lemma dropNewlines_encode n bs : length bs < n → dropNewlines (base64Encode bs) = base64Encode bs.
Proof.
  revert bs. induction n as [|n IH]; intros bs Hn; [lia|].
  assert (∀ z s, (0 <= z < 64)%Z → dropNewlines (String (b64Char z) s) = String (b64Char z) (dropNewlines s)) as Hc
    by (intros z s Hz; cbn [dropNewlines]; by rewrite (proj2 (b64Char_good z Hz))).
  assert (∀ z, 0 <= z mod 64 < 64)%Z as Hm by (intros; by apply Z.mod_pos_bound).
  destruct bs as [|x [|y [|z bs]]]; [done|..]; cbn [base64Encode]; cbv zeta;
    pose proof (Z_of_byte_range x); try pose proof (Z_of_byte_range y); try pose proof (Z_of_byte_range z);
    rewrite !Hc //; try (Z.to_euclidean_division_equations; lia).
  rewrite IH //. cbn in Hn. lia.
Qed.

Lemma base64_roundtrip bs : base64Decode (base64Encode bs) = Some bs.
Proof.
  rewrite /base64Decode (dropNewlines_encode (S (length bs))); [|lia]. remember (length bs) as n eqn:Hn. assert (length bs ≤ n) as Hle by lia. clear Hn.
  revert bs Hle. induction n as [|n IH]; intros [|x [|y [|z bs]]] Hle; try done; try (cbn in Hle; lia).
  - apply b64_one.
  - apply b64_two.
  - cbn [base64Encode]. apply b64_quantum, IH. cbn in Hle. lia.
Qed.

(** *** [RawStdEncoding]: without padding *)

Fixpoint base64RawEncode (bs : list byte) : string :=
  match bs with
  | [] => EmptyString
  | [x] => let n := (Z_of_byte x * 16)%Z in String (b64Char (n / 64)) (String (b64Char (n mod 64)) EmptyString)
  | [x; y] => let n := (Z_of_byte x * 1024 + Z_of_byte y * 4)%Z in
              String (b64Char (n / 4096)) (String (b64Char (n / 64 mod 64)) (String (b64Char (n mod 64)) EmptyString))
  | x :: y :: z :: bs =>
      let n := (Z_of_byte x * 65536 + Z_of_byte y * 256 + Z_of_byte z)%Z in
      String (b64Char (n / 262144)) (String (b64Char (n / 4096 mod 64))
        (String (b64Char (n / 64 mod 64)) (String (b64Char (n mod 64)) (base64RawEncode bs))))
  end.

Fixpoint b64RawQuanta (s : string) : option (list byte) :=
  match s with
  | EmptyString => Some []
  | String a (String b EmptyString) =>
      x ← b64Val a; y ← b64Val b; Some [byte_of_Z ((x * 64 + y) / 16)]
  | String a (String b (String c EmptyString)) =>
      x ← b64Val a; y ← b64Val b; z ← b64Val c;
      let n := (x * 4096 + y * 64 + z)%Z in Some [byte_of_Z (n / 1024); byte_of_Z (n / 4)]
  | String a (String b (String c (String d s'))) =>
      x ← b64Val a; y ← b64Val b; z ← b64Val c; w ← b64Val d;
      let n := (x * 262144 + y * 4096 + z * 64 + w)%Z in
      bs ← b64RawQuanta s'; Some (byte_of_Z (n / 65536) :: byte_of_Z (n / 256) :: byte_of_Z n :: bs)
  | _ => None
  end.

Definition base64RawDecode (s : string) : option (list byte) := b64RawQuanta (dropNewlines s).

Lemma b64Raw_quantum x y z s bs :
  b64RawQuanta s = Some bs →
  let n := (Z_of_byte x * 65536 + Z_of_byte y * 256 + Z_of_byte z)%Z in
  b64RawQuanta (String (b64Char (n / 262144)) (String (b64Char (n / 4096 mod 64)) (String (b64Char (n / 64 mod 64)) (String (b64Char (n mod 64)) s))))
  = Some (x :: y :: z :: bs).
Proof.
  intros Hs n. destruct (b64_digits3 x y z) as (E1 & E2 & E3 & E4 & Hn & Hx & Hy & Hz). fold n in E1, E2, E3, E4, Hn, Hx, Hy, Hz.
  cbn [b64RawQuanta]. rewrite E1 E2 E3 E4. cbn [mbind option_bind]. rewrite Hs. cbn [mbind option_bind]. by rewrite Hn Hx Hy Hz.
Qed.

Lemma b64Raw_one x :
  let n := (Z_of_byte x * 16)%Z in b64RawQuanta (String (b64Char (n / 64)) (String (b64Char (n mod 64)) EmptyString)) = Some [x].
Proof.
  intros n. destruct (b64_digits1 x) as (E1 & E2 & Hn & Hx). fold n in E1, E2, Hn, Hx.
  cbn [b64RawQuanta]. rewrite E1 E2. cbn -[Z.div Z.mul Z.add byte_of_Z]. by rewrite Hn Hx.
Qed.

Lemma b64Raw_two x y :
  let n := (Z_of_byte x * 1024 + Z_of_byte y * 4)%Z in
  b64RawQuanta (String (b64Char (n / 4096)) (String (b64Char (n / 64 mod 64)) (String (b64Char (n mod 64)) EmptyString))) = Some [x; y].
Proof.
  intros n. destruct (b64_digits2 x y) as (E1 & E2 & E3 & Hn & Hx & Hy). fold n in E1, E2, E3, Hn, Hx, Hy.
  cbn [b64RawQuanta]. rewrite E1 E2 E3. cbn -[Z.div Z.mul Z.add byte_of_Z Z.modulo]. by rewrite Hn Hx Hy.
Qed.

Lemma dropNewlines_rawEncode n bs : length bs < n → dropNewlines (base64RawEncode bs) = base64RawEncode bs.
Proof.
  revert bs. induction n as [|n IH]; intros bs Hn; [lia|].
  assert (∀ z s, (0 <= z < 64)%Z → dropNewlines (String (b64Char z) s) = String (b64Char z) (dropNewlines s)) as Hc
    by (intros z s Hz; cbn [dropNewlines]; by rewrite (proj2 (b64Char_good z Hz))).
  assert (∀ z, 0 <= z mod 64 < 64)%Z as Hm by (intros; by apply Z.mod_pos_bound).
  destruct bs as [|x [|y [|z bs]]]; [done|..]; cbn [base64RawEncode]; cbv zeta;
    pose proof (Z_of_byte_range x); try pose proof (Z_of_byte_range y); try pose proof (Z_of_byte_range z);
    rewrite !Hc //; try (Z.to_euclidean_division_equations; lia).
  rewrite IH //. cbn in Hn. lia.
Qed.

Lemma base64Raw_roundtrip bs : base64RawDecode (base64RawEncode bs) = Some bs.
Proof.
  rewrite /base64RawDecode (dropNewlines_rawEncode (S (length bs))); [|lia]. remember (length bs) as n eqn:Hn. assert (length bs ≤ n) as Hle by lia. clear Hn.
  revert bs Hle. induction n as [|n IH]; intros [|x [|y [|z bs]]] Hle; try done; try (cbn in Hle; lia).
  - apply b64Raw_one.
  - apply b64Raw_two.
  - cbn [base64RawEncode]. apply b64Raw_quantum, IH. cbn in Hle. lia.
Qed.

(** ** strings.Split, on a one-character separator *)

Fixpoint splitOn (sep : ascii) (s : string) : string * list string :=
  match s with
  | EmptyString => (EmptyString, [])
  | String c s => let '(first, rest) := splitOn sep s in
                  if Ascii.eqb c sep then (EmptyString, first :: rest) else (String c first, rest)
  end.

(** Never empty. *)
Definition Split (s : string) (sep : ascii) : list string := let '(first, rest) := splitOn sep s in first :: rest.

(** ** strconv.Itoa *)

Definition Itoa (z : Z) : string := pretty z.

Lemma digit_pretty x : (x < 10)%N → digit (pretty_N_char x) = Some (Z.of_N x).
Proof.
  intros Hx. assert (x ∈ (λ n, N.of_nat n) <$> seq 0 10) as Hin.
  { apply list_elem_of_fmap. exists (N.to_nat x). split; [lia|]. apply elem_of_seq. lia. }
  assert (Forall (λ x, digit (pretty_N_char x) = Some (Z.of_N x)) ((λ n, N.of_nat n) <$> seq 0 10)) as Hall by (apply (bool_decide_unpack _); by vm_compute).
  rewrite Forall_forall in Hall. by apply Hall.
Qed.

(** The decimal digits of [x], before [s]. *)
Lemma digits_pretty_go x s : digits 0 (pretty_N_go x s) = digits (Z.of_N x) s.
Proof.
  revert s. induction (N.lt_wf_0 x) as [x _ IH]; intros s. destruct (decide (x = 0)%N) as [->|Hx]; [done|].
  rewrite pretty_N_go_step; [|lia]. rewrite IH; [|apply N.div_lt; lia]. cbn [digits].
  rewrite digit_pretty; [|apply N.mod_lt; lia]. cbn [mbind option_bind]. f_equal.
  pose proof (N.div_mod x 10 ltac:(lia)). lia.
Qed.

Fixpoint allChars (P : ascii → bool) (s : string) : bool :=
  match s with EmptyString => true | String c s => P c && allChars P s end.

Lemma allChars_app P s1 s2 : allChars P (s1 ++ s2) = allChars P s1 && allChars P s2.
Proof.
  induction s1 as [|c s1 IH]; [done|]. change ((String c s1 ++ s2)%string) with (String c (s1 ++ s2)). cbn [allChars]. by rewrite IH andb_assoc.
Qed.

Definition isDigit (c : ascii) : bool := match digit c with Some _ => true | None => false end.

Lemma pretty_go_digits x s : allChars isDigit s = true → allChars isDigit (pretty_N_go x s) = true.
Proof.
  revert s. induction (N.lt_wf_0 x) as [x _ IH]; intros s Hs. destruct (decide (x = 0)%N) as [->|Hx]; [done|].
  rewrite pretty_N_go_step; [|lia]. apply IH; [apply N.div_lt; lia|]. cbn [allChars]. rewrite Hs /isDigit digit_pretty; [done|apply N.mod_lt; lia].
Qed.

Lemma pretty_N_digits (x : N) : digits 0 (pretty x) = Some (Z.of_N x) ∧ allChars isDigit (pretty x) = true ∧ pretty x ≠ EmptyString.
Proof.
  rewrite /pretty /pretty_N. case_decide as Hx; [by subst|]. split; [by rewrite digits_pretty_go|]. split; [by apply pretty_go_digits|].
  intros He. pose proof (digits_pretty_go x EmptyString) as Hd. rewrite He in Hd. cbn in Hd. injection Hd as Hd. lia.
Qed.

Lemma Atoi_digits s z : allChars isDigit s = true → s ≠ EmptyString → digits 0 s = Some z → (- 2 ^ 63 <= z < 2 ^ 63)%Z → Atoi s = Some z.
Proof.
  intros Hall Hne Hd Hz. destruct s as [|c s]; [done|]. cbn [allChars] in Hall. apply andb_true_iff in Hall as [Hc _].
  assert (Atoi (String c s) = (z ← digits 0 (String c s); if decide (- 2 ^ 63 <= z < 2 ^ 63)%Z then Some z else None)) as ->.
  { clear Hd Hne. destruct c as [[] [] [] [] [] [] [] []]; first [by vm_compute in Hc|reflexivity]. }
  rewrite Hd. cbn [mbind option_bind]. by case_decide.
Qed.

Lemma Atoi_Itoa z : (- 2 ^ 63 <= z < 2 ^ 63)%Z → Atoi (Itoa z) = Some z.
Proof.
  intros Hz. rewrite /Itoa /pretty /pretty_Z. destruct z as [|p|p].
  - by vm_compute.
  - destruct (pretty_N_digits (N.pos p)) as (H1 & H2 & H3). by apply Atoi_digits.
  - destruct (pretty_N_digits (N.pos p)) as (H1 & H2 & H3). change (pretty p) with (pretty (N.pos p)).
    set (s := pretty (N.pos p)) in *. clearbody s. destruct s as [|c s]; [done|].
    change (Atoi ("-" +:+ String c s)) with (z ← digits 0 (String c s); if decide (- 2 ^ 63 <= - z < 2 ^ 63)%Z then Some (- z)%Z else None).
    rewrite H1. cbn [mbind option_bind]. by case_decide.
Qed.

(** ** strings.Cut and net/url.ParseQuery *)

Fixpoint Cut (s : string) (sep : ascii) : string * string :=
  match s with
  | EmptyString => (EmptyString, EmptyString)
  | String c s => if Ascii.eqb c sep then (EmptyString, s) else let '(before, after) := Cut s sep in (String c before, after)
  end.

(** [url.QueryUnescape] *)
Fixpoint QueryUnescape (s : string) : option string :=
  match s with
  | EmptyString => Some EmptyString
  | String c s =>
      if Ascii.eqb c "%" then
        match s with
        | String a (String b s) =>
            x ← hexDigit a; y ← hexDigit b; rest ← QueryUnescape s; Some (String (ascii_of_N (Z.to_N (16 * x + y))) rest)
        | _ => None
        end
      else rest ← QueryUnescape s; Some (String (if Ascii.eqb c "+" then " "%char else c) rest)
  end.

(** One part of a query: nothing, or a key and a value. *)
Definition parsePart (part : string) : option (list (string * string)) :=
  if negb (allChars (λ c, negb (Ascii.eqb c ";")) part) then None
  else if String.eqb part EmptyString then Some []
  else let '(key, value) := Cut part "=" in
       k ← QueryUnescape key; v ← QueryUnescape value; Some [(k, v)].

(** The entries in order; [None] is an error. *)
Fixpoint parseParts (parts : list string) : option (list (string * string)) :=
  match parts with
  | [] => Some []
  | p :: parts => l ← parsePart p; l' ← parseParts parts; Some (l ++ l')
  end.
Definition ParseQuery (query : string) : option (list (string * string)) := parseParts (Split query "&").

(** [vals.Get(key)], if the key is there. *)
Fixpoint queryGet (vals : list (string * string)) (key : string) : option string :=
  match vals with [] => None | (k, v) :: vals => if String.eqb k key then Some v else queryGet vals key end.

Definition avoids (c : ascii) (s : string) : bool := allChars (λ d, negb (Ascii.eqb d c)) s.

Lemma allChars_mono (P Q : ascii → bool) s : (∀ c, P c = true → Q c = true) → allChars P s = true → allChars Q s = true.
Proof.
  intros HPQ. induction s as [|c s IH]; cbn [allChars]; [done|]. intros [Hc Hs]%andb_true_iff. by rewrite HPQ // IH.
Qed.

Lemma Split_cons s1 s2 sep : avoids sep s1 = true → Split (s1 ++ String sep s2) sep = s1 :: Split s2 sep.
Proof.
  rewrite /avoids /Split. induction s1 as [|c s1 IH].
  - intros _. change ((EmptyString ++ String sep s2)%string) with (String sep s2). cbn [splitOn]. rewrite Ascii.eqb_refl. by destruct (splitOn sep s2).
  - cbn [allChars]. intros [Hc Hs]%andb_true_iff. change ((String c s1 ++ String sep s2)%string) with (String c (s1 ++ String sep s2)). cbn [splitOn].
    specialize (IH Hs). destruct (splitOn sep (s1 ++ String sep s2)) as [first rest]. apply negb_true_iff in Hc as ->. by injection IH as -> ->.
Qed.

Lemma Split_one s sep : avoids sep s = true → Split s sep = [s].
Proof.
  rewrite /avoids /Split. induction s as [|c s IH]; [done|]. cbn [allChars splitOn]. intros [Hc Hs]%andb_true_iff.
  specialize (IH Hs). destruct (splitOn sep s) as [first rest]. apply negb_true_iff in Hc as ->. by injection IH as -> ->.
Qed.

Lemma Cut_app s1 s2 sep : avoids sep s1 = true → Cut (s1 ++ String sep s2) sep = (s1, s2).
Proof.
  rewrite /avoids. induction s1 as [|c s1 IH].
  - intros _. change ((EmptyString ++ String sep s2)%string) with (String sep s2). cbn [Cut]. by rewrite Ascii.eqb_refl.
  - cbn [allChars]. intros [Hc Hs]%andb_true_iff. change ((String c s1 ++ String sep s2)%string) with (String c (s1 ++ String sep s2)). cbn [Cut].
    apply negb_true_iff in Hc as ->. by rewrite IH.
Qed.

Lemma QueryUnescape_plain s : avoids "%" s = true → avoids "+" s = true → QueryUnescape s = Some s.
Proof.
  rewrite /avoids. induction s as [|c s IH]; [done|]. cbn [allChars QueryUnescape].
  intros [H1 Hs1]%andb_true_iff [H2 Hs2]%andb_true_iff. apply negb_true_iff in H1 as ->, H2 as ->. by rewrite IH.
Qed.

(** Integers have none of the characters that mean something in a query. *)
Lemma Itoa_avoids c z : isDigit c = false → c ≠ "-"%char → avoids c (Itoa z) = true.
Proof.
  intros Hc Hm. assert (∀ s, allChars isDigit s = true → avoids c s = true) as Hd.
  { intros s. apply allChars_mono. intros d Hd. apply negb_true_iff. destruct (Ascii.eqb_spec d c) as [->|]; [congruence|done]. }
  rewrite /Itoa /pretty /pretty_Z. destruct z as [|p|p].
  - by apply Hd.
  - apply Hd. by destruct (pretty_N_digits (N.pos p)) as (_ & H & _).
  - change (avoids c (String "-" (pretty (N.pos p))) = true). rewrite /avoids. cbn [allChars]. apply andb_true_iff. split.
    + apply negb_true_iff. destruct (Ascii.eqb_spec "-" c); [congruence|done].
    + apply Hd. by destruct (pretty_N_digits (N.pos p)) as (_ & H & _).
Qed.

Lemma append_assoc (s1 s2 s3 : string) : ((s1 ++ s2) ++ s3 = s1 ++ (s2 ++ s3))%string.
Proof.
  induction s1 as [|c s1 IH]; [done|]. change ((String c s1 ++ s2) ++ s3)%string with (String c ((s1 ++ s2) ++ s3)). by rewrite IH.
Qed.

Lemma append_empty_r (s : string) : (s ++ "" = s)%string.
Proof. induction s as [|c s IH]; [done|]. change (String c s ++ "")%string with (String c (s ++ "")). by rewrite IH. Qed.

(** ** strings.Contains and strings.Trim with the space as its cutset *)

Fixpoint contains (s sub : string) : bool :=
  String.prefix sub s || match s with EmptyString => false | String _ s => contains s sub end.

Fixpoint trimLeft (s : string) : string :=
  match s with String c s' => if Ascii.eqb c " " then trimLeft s' else s | EmptyString => s end.
Fixpoint trimRight (s : string) : string :=
  match s with
  | EmptyString => EmptyString
  | String c s => match trimRight s with
                  | EmptyString => if Ascii.eqb c " " then EmptyString else String c EmptyString
                  | s => String c s
                  end
  end.
Definition trimSpaces (s : string) : string := trimRight (trimLeft s).

Lemma prefix_append sub s : String.prefix sub (sub ++ s) = true.
Proof.
  induction sub as [|c sub IH]; [by destruct ("" ++ s)%string|]. change (String c sub ++ s)%string with (String c (sub ++ s)). cbn. by destruct (Ascii.ascii_dec c c).
Qed.

Lemma contains_middle pre sub post : contains (pre ++ sub ++ post) sub = true.
Proof.
  induction pre as [|c pre IH].
  - change ("" ++ sub ++ post)%string with (sub ++ post)%string. pose proof (prefix_append sub post) as Hp.
    destruct (sub ++ post)%string; cbn [contains]; by rewrite Hp.
  - change (String c pre ++ sub ++ post)%string with (String c (pre ++ sub ++ post)). cbn [contains]. by rewrite IH orb_true_r.
Qed.

Lemma prefix_split sub s : String.prefix sub s = true → ∃ post, s = (sub ++ post)%string.
Proof.
  revert s. induction sub as [|c sub IH]; intros s; [intros _; by exists s|]. destruct s as [|d s]; [done|]. cbn. destruct (Ascii.ascii_dec c d) as [->|]; [|done].
  intros [post ->]%IH. by exists post.
Qed.

Lemma contains_split s sub : contains s sub = true → ∃ pre post, s = (pre ++ sub ++ post)%string.
Proof.
  induction s as [|c s IH]; cbn [contains]; rewrite orb_true_iff; intros [Hp|H].
  - apply prefix_split in Hp as [post ->]. by exists "", post.
  - done.
  - apply prefix_split in Hp as [post ->]. by exists "", post.
  - apply IH in H as (pre & post & ->). by exists (String c pre), post.
Qed.

Lemma contains_refl s : contains s s = true.
Proof. pose proof (contains_middle "" s "") as H. by rewrite append_empty_r in H. Qed.

Lemma contains_trans a b c : contains a b = true → contains b c = true → contains a c = true.
Proof.
  intros (p1 & q1 & ->)%contains_split (p2 & q2 & ->)%contains_split.
  rewrite !append_assoc. rewrite -(append_assoc p1 p2). apply contains_middle.
Qed.
