(* ===== verification/MerkleMulti.v ===== *)
(** Merkle trees with multi-proofs: [src/pkg/merklemulti/merkle_multi.go].

    Module [MerkleMulti] translates tree construction ([NewTree]), proof
    generation ([Prove]) and root recomputation ([VerifyComputeRoot]).  Node
    positions are Go [int]s, modelled in [Z]; slices are lists. *)

From S2P Require Import Prelude.

(** [hashutil.Hasher]: the operations of the interface the tree uses. *)
Record Hasher (H : Type) := {
  HashInternal : H → H → H;
  ZeroHash : H;
}.
Arguments HashInternal {H} _ _ _.
Arguments ZeroHash {H} _.

Module MerkleMulti.

Inductive error :=
  | ErrNoLeaves
  | ErrAuthIndexOutOfBounds (i : Z)
  | ErrLeavesAndProofsEmpty
  | ErrBeyondLimit
  | ErrTotalHashesTooLarge
  | ErrSourceFlagsCount (total flags : Z)
  | ErrProofSourceFlags (flags proofs : Z)
  | ErrNotAllProofsUsed.

Record singleLayerProof (H : Type) := {
  slp_nextIndices : list Z;
  slp_subProof : list H;
  slp_sourceFlags : list bool;
}.
Arguments slp_nextIndices {H} _.
Arguments slp_subProof {H} _.
Arguments slp_sourceFlags {H} _.

Record Proof (H : Type) := mkProof {
  Hashes : list H;
  SourceFlags : list bool;
}.
Arguments mkProof {H} _ _.
Arguments Hashes {H} _.
Arguments SourceFlags {H} _.

Definition SourceFromHashes : bool := true.
Definition SourceFromProof : bool := false.
Definition MaxNumberTreeLeaves : Z := 256.

(** The loop of [Proof.countSourceFlags]. *)
Definition countSourceFlags {H} (p : Proof H) (b : bool) : Z :=
  foldl (λ count flag, if Bool.eqb flag b then (count + 1)%Z else count) 0%Z (SourceFlags p).

Definition parentIndex (idx : Z) : Z := Z.quot idx 2.
Definition siblingIndex (idx : Z) : Z := Z.lxor idx 1.

(** First loop of [proveSingleLayer]: (nextIndices, authIndices, sourceFlags). *)
Fixpoint pairIndices (indices : list Z) : list Z * list Z * list bool :=
  match indices with
  | [] => ([], [], [])
  | x :: rest =>
      match rest with
      | y :: rest' =>
          if decide (y = siblingIndex x) then
            let '(next, auth, flags) := pairIndices rest' in
            (parentIndex x :: next, auth, SourceFromHashes :: flags)
          else
            let '(next, auth, flags) := pairIndices rest in
            (parentIndex x :: next, siblingIndex x :: auth, SourceFromProof :: flags)
      | [] => ([parentIndex x], [siblingIndex x], [SourceFromProof])
      end
  end.

Definition authHash {H} (layer : list H) (i : Z) : outcome error H :=
  if (bool_decide (i < 0) || bool_decide (Z.of_nat (length layer) <= i))%Z
  then Err (ErrAuthIndexOutOfBounds i)
  else go_index layer (Z.to_nat i).

Definition proveSingleLayer {H} (layer : list H) (indices : list Z) : outcome error (singleLayerProof H) :=
  let '(nextIndices, authIndices, sourceFlags) := pairIndices indices in
  let? subProof := omapM (authHash layer) authIndices in
  Ok {| slp_nextIndices := nextIndices; slp_subProof := subProof; slp_sourceFlags := sourceFlags |}.

Record Tree (H : Type) := { layers : list (list H) }.
Arguments layers {H} _.

Section with_hasher.
Context {H : Type} (hasher : Hasher H) (zeroH : H).

(** The pairing loop of [computeNextLayer]; an odd tail cannot occur
    after padding, and would be an out-of-range index. *)
Fixpoint hashPairs (layer : list H) : outcome error (list H) :=
  match layer with
  | [] => Ok []
  | [_] => Panic
  | a :: b :: rest => let? next := hashPairs rest in Ok (HashInternal hasher a b :: next)
  end.

Definition computeNextLayer (layer : list H) : outcome error (list H * list H) :=
  if decide (length layer = 1) then Ok (layer, layer)
  else
    let layer := if Nat.odd (length layer) then layer ++ [ZeroHash hasher] else layer in
    let? next := hashPairs layer in Ok (layer, next).

(** The loop of [NewTree]; [None] stands for "still running". *)
Fixpoint buildLayers (fuel : nat) (layer : list H) : outcome error (option (list (list H))) :=
  if decide (length layer ≤ 1) then Ok (Some [layer])
  else match fuel with
       | 0 => Ok None
       | S fuel =>
           let? (padded, next) := computeNextLayer layer in
           let? rest := buildLayers fuel next in
           Ok (cons padded <$> rest)
       end.

Definition NewTree (leafHashes : list H) : outcome error (option (Tree H)) :=
  if decide (length leafHashes = 0) then Err ErrNoLeaves
  else let? ls := buildLayers (length leafHashes) leafHashes in
       Ok ((λ ls, {| layers := ls |}) <$> ls).

Definition Root (t : Tree H) : outcome error H :=
  match last (layers t) with
  | None => Panic
  | Some layer => go_index layer 0
  end.

(** The loop of [Tree.Prove] over all layers but the last. *)
Fixpoint proveLayers (ls : list (list H)) (indices : list Z) (proof : Proof H) : outcome error (Proof H) :=
  match ls with
  | [] => Ok proof
  | layer :: ls =>
      let? res := proveSingleLayer layer indices in
      proveLayers ls (slp_nextIndices res)
        (mkProof (Hashes proof ++ slp_subProof res) (SourceFlags proof ++ slp_sourceFlags res))
  end.

Definition Prove (t : Tree H) (indices : list Z) : outcome error (Proof H) :=
  match layers t with
  | [] => Panic
  | _ => proveLayers (removelast (layers t)) indices (mkProof [] [])
  end.

(** The cursors and the scratch array of [VerifyComputeRoot]. *)
Record vstate := mkV {
  leafPos : nat;
  hashPos : nat;
  proofPos : nat;
  hashes : list H;
}.

Definition nextHash (leafHashes : list H) (s : vstate) : outcome error (H * vstate) :=
  if decide (leafPos s < length leafHashes) then
    let? a := go_index leafHashes (leafPos s) in
    Ok (a, mkV (S (leafPos s)) (hashPos s) (proofPos s) (hashes s))
  else
    let? a := go_index (hashes s) (hashPos s) in
    Ok (a, mkV (leafPos s) (S (hashPos s)) (proofPos s) (hashes s)).

Definition verifyStep (leafHashes : list H) (proof : Proof H) (s : vstate) (i : nat) : outcome error vstate :=
  let? flag := go_index (SourceFlags proof) i in
  let? (a, s) :=
    if Bool.eqb flag SourceFromHashes then nextHash leafHashes s
    else let? a := go_index (Hashes proof) (proofPos s) in
         Ok (a, mkV (leafPos s) (hashPos s) (S (proofPos s)) (hashes s)) in
  let? (b, s) := nextHash leafHashes s in
  if decide (i < length (hashes s)) then
    Ok (mkV (leafPos s) (hashPos s) (proofPos s) (<[i := HashInternal hasher a b]> (hashes s)))
  else Panic.

(** [hashes := make([]H, total)] followed by [total] appends of
    [leafHashes[0]]: the array has [2 * total] entries. *)
Definition initHashes (leafHashes : list H) (total : nat) : outcome error (list H) :=
  match total with
  | 0 => Ok []
  | _ => let? l0 := go_index leafHashes 0 in Ok (replicate total zeroH ++ replicate total l0)
  end.

Definition VerifyComputeRoot (leafHashes : list H) (proof : Proof H) : outcome error H :=
  let leavesLength := Z.of_nat (length leafHashes) in
  let proofsLength := Z.of_nat (length (Hashes proof)) in
  if (bool_decide (leavesLength = 0) && bool_decide (proofsLength = 0))%Z then Err ErrLeavesAndProofsEmpty
  else if (bool_decide (MaxNumberTreeLeaves + 1 < leavesLength)
           || bool_decide (MaxNumberTreeLeaves + 1 < proofsLength))%Z then Err ErrBeyondLimit
  else
    let totalHashes := (leavesLength + proofsLength - 1)%Z in
    if bool_decide (MaxNumberTreeLeaves < totalHashes)%Z then Err ErrTotalHashesTooLarge
    else if negb (bool_decide (totalHashes = Z.of_nat (length (SourceFlags proof))))
    then Err (ErrSourceFlagsCount totalHashes (Z.of_nat (length (SourceFlags proof))))
    else if bool_decide (totalHashes = 0%Z) then go_index leafHashes 0
    else
      let sourceProofCount := countSourceFlags proof SourceFromProof in
      if negb (bool_decide (sourceProofCount = proofsLength))
      then Err (ErrProofSourceFlags sourceProofCount proofsLength)
      else
        let total := Z.to_nat totalHashes in
        let? hs := initHashes leafHashes total in
        let? s := ofold (verifyStep leafHashes proof) (mkV 0 0 0 hs) (seq 0 total) in
        if (negb (bool_decide (Z.of_nat (hashPos s) = totalHashes - 1))
            || negb (bool_decide (Z.of_nat (leafPos s) = leavesLength))
            || negb (bool_decide (Z.of_nat (proofPos s) = proofsLength)))%Z
        then Err ErrNotAllProofsUsed
        else go_index (hashes s) (total - 1).

(** The queue reading of verification: the leaves are consumed first and
    then the hashes produced, so the two cursors and the scratch array
    behave as one FIFO queue [Q]; [P] are the unused proof hashes. *)
Fixpoint runQ (flags : list bool) (P Q : list H) : option (list H * list H) :=
  match flags with
  | [] => Some (P, Q)
  | true :: flags =>
      match Q with
      | a :: b :: Q => runQ flags P (Q ++ [HashInternal hasher a b])
      | _ => None
      end
  | false :: flags =>
      match P, Q with
      | a :: P, b :: Q => runQ flags P (Q ++ [HashInternal hasher a b])
      | _, _ => None
      end
  end.
End with_hasher.
Arguments leafPos {H} _.
Arguments hashPos {H} _.
Arguments proofPos {H} _.
Arguments hashes {H} _.
Arguments mkV {H} _ _ _ _.

Section queue.
Context {H : Type} (hasher : Hasher H).

Lemma runQ_app f1 f2 P Q P1 Q1 :
  runQ hasher f1 P Q = Some (P1, Q1) → runQ hasher (f1 ++ f2) P Q = runQ hasher f2 P1 Q1.
Proof.
  revert P Q. induction f1 as [|[] f1 IH]; intros P Q Hr; simplify_eq/=; [done|..].
  - destruct Q as [|a [|b Q]]; [done..|]. by apply IH.
  - destruct P as [|a P], Q as [|b Q]; [done..|]. by apply IH.
Qed.

Lemma runQ_lengths flags P Q P' Q' :
  runQ hasher flags P Q = Some (P', Q') →
  length P + length Q = length flags + length P' + length Q' ∧
  length P = length (filter (λ b, b = false) flags) + length P'.
Proof.
  revert P Q. induction flags as [|x flags IH]; intros P Q Hr.
  { simpl in Hr. simplify_eq. simpl. lia. }
  rewrite filter_cons. destruct x; simpl in Hr.
  - case_decide; [done|]. destruct Q as [|a [|b Q]]; [done..|].
    apply IH in Hr. rewrite length_app /= in Hr. simpl. lia.
  - case_decide; [|done]. destruct P as [|a P], Q as [|b Q]; [done..|].
    apply IH in Hr. rewrite length_app /= in Hr. simpl. lia.
Qed.

Lemma countSourceFlags_filter (p : Proof H) b :
  countSourceFlags p b = Z.of_nat (length (filter (λ x, x = b) (SourceFlags p))).
Proof.
  rewrite /countSourceFlags. destruct p as [hs fl]; simpl.
  assert (∀ acc, foldl (λ count flag, if Bool.eqb flag b then (count + 1)%Z else count) acc fl
                 = (acc + Z.of_nat (length (filter (λ x, x = b) fl)))%Z) as ->; [|lia].
  induction fl as [|x fl IH]; intros acc; simpl; [lia|].
  rewrite IH filter_cons. destruct (Bool.eqb x b) eqn:E.
  - apply Bool.eqb_prop in E. case_decide; [simpl; lia|done].
  - apply Bool.eqb_false_iff in E. by case_decide.
Qed.

Definition simInv (leafs : list H) (i : nat) (s : vstate) (Q : list H) : Prop :=
  Q = drop (leafPos s) leafs ++ drop (hashPos s) (take i (hashes s)) ∧
  leafPos s ≤ length leafs ∧ hashPos s ≤ i ≤ length (hashes s) ∧
  (leafPos s < length leafs → hashPos s = 0).

Lemma nextHash_sim leafs i s x Q :
  simInv leafs i s (x :: Q) →
  ∃ s', nextHash leafs s = Ok (x, s') ∧ simInv leafs i s' Q ∧
        proofPos s' = proofPos s ∧ hashes s' = hashes s.
Proof.
  intros (HQ & Hl & [Hh Hi] & Hlh). rewrite /nextHash.
  destruct (decide (leafPos s < length leafs)) as [Hlt|Hge].
  - destruct (lookup_lt_is_Some_2 leafs (leafPos s) Hlt) as [y Hy].
    rewrite (drop_S _ y _ Hy) in HQ. simplify_eq/=. rewrite /go_index Hy /=.
    eexists. split_and!; [done| |done..]. split_and!; simpl; [done|lia|lia|lia|].
    intros. apply Hlh. lia.
  - rewrite drop_ge /= in HQ; [|lia].
    destruct (hashes s !! hashPos s) as [y|] eqn:Hy; last first.
    { apply lookup_ge_None in Hy. rewrite drop_ge in HQ; [done|].
      rewrite length_take. lia. }
    destruct (decide (hashPos s < i)) as [Hlt|]; last first.
    { rewrite drop_ge in HQ; [done|rewrite length_take; lia]. }
    rewrite (drop_S _ y) in HQ; [|by rewrite lookup_take_lt].
    simplify_eq/=. rewrite /go_index Hy /=. eexists. split_and!; [done| |done..].
    split_and!; simpl; [|lia..]. rewrite (drop_ge leafs); [done|lia].
Qed.

Lemma simInv_push leafs i s Q h :
  simInv leafs i s Q → i < length (hashes s) →
  simInv leafs (S i) (mkV (leafPos s) (hashPos s) (proofPos s) (<[i := h]> (hashes s))) (Q ++ [h]).
Proof.
  intros (-> & Hl & [Hh Hi] & Hlh) Hlt. split_and!; simpl; [|done|lia|rewrite length_insert; lia|done].
  rewrite -assoc. f_equal.
  rewrite (take_S_r _ _ h); [|by apply list_lookup_insert_eq].
  rewrite take_insert_ge; [|lia]. rewrite drop_app_le; [done|].
  rewrite length_take. lia.
Qed.

Lemma verifyStep_sim leafs proof flag i s Q P P' Q' :
  SourceFlags proof !! i = Some flag →
  simInv leafs i s Q → P = drop (proofPos s) (Hashes proof) →
  i < length (hashes s) →
  runQ hasher [flag] P Q = Some (P', Q') →
  ∃ s', verifyStep hasher leafs proof s i = Ok s' ∧ simInv leafs (S i) s' Q' ∧
        P' = drop (proofPos s') (Hashes proof) ∧ length (hashes s') = length (hashes s) ∧
        proofPos s' + length P' = proofPos s + length P.
Proof.
  intros Hflag Hs HP Hi Hr. rewrite /verifyStep /go_index Hflag /=.
  destruct flag; simpl in Hr.
  - destruct Q as [|a [|b Q]]; [done..|]. simplify_eq/=.
    destruct (nextHash_sim _ _ _ _ _ Hs) as (s1 & -> & Hs1 & Hp1 & Hh1). simpl.
    destruct (nextHash_sim _ _ _ _ _ Hs1) as (s2 & -> & Hs2 & Hp2 & Hh2). simpl.
    rewrite decide_True; [|congruence]. eexists. split; [done|]. simpl.
    rewrite length_insert Hp2 Hp1 Hh2 Hh1. split_and!; [|done..].
    rewrite -Hp1 -Hp2 -Hh1 -Hh2. apply simInv_push; congruence.
  - destruct P as [|a P], Q as [|b Q]; [done..|]. simplify_eq/=.
    destruct (Hashes proof !! proofPos s) as [y|] eqn:Hy; last first.
    { apply lookup_ge_None in Hy. rewrite drop_ge in HP; [|done]. discriminate HP. }
    rewrite (drop_S _ y _ Hy) in HP. simplify_eq/=.
    set (s1 := mkV _ _ _ _). assert (simInv leafs i s1 (b :: Q)) as Hs1 by done.
    destruct (nextHash_sim _ _ _ _ _ Hs1) as (s2 & -> & Hs2 & Hp2 & Hh2). simpl.
    rewrite decide_True; [|by rewrite Hh2]. eexists. split; [done|]. simpl.
    rewrite length_insert Hp2 Hh2. simpl. split_and!; [|done|done|lia].
    change (S (proofPos s)) with (proofPos s1). change (hashes s) with (hashes s1).
    rewrite -Hp2 -Hh2. apply simInv_push; [done|]. by rewrite Hh2.
Qed.

Lemma verifyLoop_sim leafs proof flags i s P Q P' Q' :
  drop i (SourceFlags proof) = flags →
  simInv leafs i s Q → P = drop (proofPos s) (Hashes proof) →
  i + length flags ≤ length (hashes s) →
  runQ hasher flags P Q = Some (P', Q') →
  ∃ s', ofold (verifyStep hasher leafs proof) s (seq i (length flags)) = Ok s' ∧
        simInv leafs (i + length flags) s' Q' ∧
        length (hashes s') = length (hashes s) ∧
        proofPos s' + length P' = proofPos s + length P.
Proof.
  revert i s P Q. induction flags as [|x flags IH]; intros i s P Q Hd Hs HP Hi Hr.
  { simpl in *. simplify_eq. exists s. rewrite Nat.add_0_r. by split_and!. }
  assert (SourceFlags proof !! i = Some x) as Hx.
  { rewrite -(Nat.add_0_r i) -lookup_drop Hd. done. }
  destruct (runQ hasher [x] P Q) as [[P1 Q1]|] eqn:H1; last first.
  { destruct x, P, Q as [|? [|??]]; simpl in *; done. }
  pose proof Hr as Hr'. change (x :: flags) with ([x] ++ flags) in Hr'.
  rewrite (runQ_app _ _ _ _ _ _ H1) in Hr'.
  simpl in Hi.
  destruct (verifyStep_sim leafs proof x i s Q P P1 Q1) as (s1 & E1 & Hs1 & HP1 & Hl1 & Hp1);
    [done..|lia|done|].
  destruct (IH (S i) s1 P1 Q1) as (s2 & E2 & Hs2 & Hl2 & Hp2); [|done|done|lia|done|].
  { rewrite -Nat.add_1_r -drop_drop Hd. done. }
  exists s2. simpl. rewrite E1 /=. replace (i + S (length flags)) with (S i + length flags) by lia.
  split_and!; [done|done|congruence|lia].
Qed.
End queue.

(** ** Node positions *)

Lemma parentIndex_even k : (0 ≤ k)%Z → parentIndex (2 * k) = k.
Proof. intros. rewrite /parentIndex Z.mul_comm Z.quot_mul //. Qed.
Lemma parentIndex_odd k : (0 ≤ k)%Z → parentIndex (2 * k + 1) = k.
Proof.
  intros. rewrite /parentIndex Z.quot_div_nonneg; [|lia..].
  replace (2 * k + 1)%Z with (1 + k * 2)%Z by lia. by rewrite Z.div_add.
Qed.
Lemma siblingIndex_even k : (0 ≤ k)%Z → siblingIndex (2 * k) = (2 * k + 1)%Z.
Proof. by destruct k. Qed.
Lemma siblingIndex_odd k : (0 ≤ k)%Z → siblingIndex (2 * k + 1) = (2 * k)%Z.
Proof. by destruct k. Qed.

Lemma index_cases x : (0 ≤ x)%Z → ∃ k, (0 ≤ k)%Z ∧ (x = 2 * k ∨ x = 2 * k + 1)%Z.
Proof. intros. exists (x / 2)%Z. pose proof (Z.div_mod x 2). pose proof (Z.mod_pos_bound x 2). lia. Qed.

Section layers.
Context {H : Type} (hasher : Hasher H).

Definition layerOK (p next : list H) : Prop :=
  length p = 2 * length next ∧
  ∀ k a b, p !! (2 * k) = Some a → p !! (2 * k + 1) = Some b →
           next !! k = Some (HashInternal hasher a b).

Definition at_indices (p : list H) (idx : list Z) (hs : list H) : Prop :=
  Forall2 (λ i h, (0 ≤ i)%Z ∧ p !! Z.to_nat i = Some h) idx hs.

Lemma layerOK_lookup p next k :
  layerOK p next → (0 ≤ 2 * k < Z.of_nat (length p))%Z →
  ∃ a b, p !! Z.to_nat (2 * k) = Some a ∧ p !! Z.to_nat (2 * k + 1) = Some b ∧
         next !! Z.to_nat k = Some (HashInternal hasher a b).
Proof.
  intros [Hlen Hn] Hk.
  destruct (lookup_lt_is_Some_2 p (Z.to_nat (2 * k))) as [a Ha]; [lia|].
  destruct (lookup_lt_is_Some_2 p (Z.to_nat (2 * k + 1))) as [b Hb]; [lia|].
  exists a, b. split_and!; [done..|]. apply Hn.
  - by replace (2 * Z.to_nat k) with (Z.to_nat (2 * k)) by lia.
  - by replace (2 * Z.to_nat k + 1) with (Z.to_nat (2 * k + 1)) by lia.
Qed.

Context (Hcomm : ∀ a b, HashInternal hasher a b = HashInternal hasher b a).

(** What one layer of [Prove] contributes to verification. *)
Definition layerSim (p next : list H) (idx nx au : list Z) (fl : list bool) : Prop :=
  ∃ Q0 P0 N0,
    at_indices p idx Q0 ∧ at_indices p au P0 ∧ at_indices next nx N0 ∧
    StronglySorted Z.lt nx ∧
    (∀ n, n ∈ nx → ∃ i, i ∈ idx ∧ n = parentIndex i) ∧
    length fl = length nx ∧
    Forall (λ i, 0 ≤ i < Z.of_nat (length p))%Z au ∧
    ∀ P R, runQ hasher fl (P0 ++ P) (Q0 ++ R) = Some (P, R ++ N0).

Lemma layerSim_cons_pair p next k rest nx au fl :
  layerOK p next → (0 ≤ 2 * k < Z.of_nat (length p))%Z →
  Forall (Z.lt (2 * k + 1)) rest →
  layerSim p next rest nx au fl →
  layerSim p next ((2 * k) :: (2 * k + 1) :: rest)%Z (k :: nx) au (true :: fl).
Proof.
  intros Hok Hk Hgt (Q0 & P0 & N0 & HQ & HP & HN & Hs & Hin & Hlen & Hau & Hrun).
  destruct (layerOK_lookup p next k Hok Hk) as (a & b & Ha & Hb & Hn).
  exists (a :: b :: Q0), P0, (HashInternal hasher a b :: N0).
  split_and!; [repeat constructor; (done || lia)|done|constructor; [split; [lia|done]|done]|..].
  - constructor; [done|]. apply Forall_forall. intros n (i & Hi & ->)%Hin.
    rewrite Forall_forall in Hgt. specialize (Hgt i Hi).
    destruct (index_cases i) as (k' & ? & [-> | ->]); [lia|..];
      rewrite ?parentIndex_even ?parentIndex_odd; lia.
  - intros n [->|(i & Hi & ->)%Hin]%elem_of_cons.
    + exists (2 * k)%Z. rewrite parentIndex_even; [|lia]. set_solver.
    + exists i. set_solver.
  - simpl. lia.
  - done.
  - intros P R. simpl. rewrite -assoc Hrun -assoc //.
Qed.

Lemma layerSim_cons_single p next x k rest nx au fl :
  layerOK p next → (0 ≤ 2 * k < Z.of_nat (length p))%Z →
  (x = 2 * k ∨ x = 2 * k + 1)%Z →
  Forall (Z.lt (2 * k + 1)) rest →
  layerSim p next rest nx au fl →
  layerSim p next (x :: rest)%Z (k :: nx) (siblingIndex x :: au) (false :: fl).
Proof.
  intros Hok Hk Hx Hgt (Q0 & P0 & N0 & HQ & HP & HN & Hs & Hin & Hlen & Hau & Hrun).
  destruct (layerOK_lookup p next k Hok Hk) as (a & b & Ha & Hb & Hn).
  assert (Hpar : parentIndex x = k).
  { destruct Hx as [-> | ->]; [apply parentIndex_even|apply parentIndex_odd]; lia. }
  assert (∃ u v, p !! Z.to_nat x = Some u ∧ p !! Z.to_nat (siblingIndex x) = Some v ∧
            (0 ≤ siblingIndex x < Z.of_nat (length p))%Z ∧
            HashInternal hasher v u = HashInternal hasher a b) as (u & v & Hu & Hv & Hsib & Huv).
  { destruct Hok as [Hlp _].
    destruct Hx as [-> | ->]; rewrite ?siblingIndex_even ?siblingIndex_odd; [|lia| |lia].
    - exists a, b. split_and!; [done..|lia|lia|]. apply Hcomm.
    - exists b, a. by split_and!; [..|lia|lia|]. }
  exists (u :: Q0), (v :: P0), (HashInternal hasher a b :: N0).
  split_and!.
  - constructor; [split; [lia|done]|done].
  - constructor; [split; [lia|done]|done].
  - constructor; [split; [lia|done]|done].
  - constructor; [done|]. apply Forall_forall. intros n (i & Hi & ->)%Hin.
    rewrite Forall_forall in Hgt. specialize (Hgt i Hi).
    destruct (index_cases i) as (k' & ? & [-> | ->]); [lia|..];
      rewrite ?parentIndex_even ?parentIndex_odd; lia.
  - intros n [->|(i & Hi & ->)%Hin]%elem_of_cons; [exists x|exists i]; set_solver.
  - simpl. lia.
  - by constructor.
  - intros P R. simpl. rewrite Huv -assoc Hrun -assoc //.
Qed.

Lemma layerSim_nil p next : layerSim p next [] [] [] [].
Proof.
  exists [], [], []. split_and!; try constructor; try set_solver.
  intros. by rewrite app_nil_r.
Qed.

Lemma pairIndices_sim p next idx :
  layerOK p next → StronglySorted Z.lt idx →
  Forall (λ i, 0 ≤ i < Z.of_nat (length p))%Z idx →
  let '(nx, au, fl) := pairIndices idx in layerSim p next idx nx au fl.
Proof.
  intros Hok. induction idx as [idx IH] using (induction_ltof1 _ length). intros Hs Hr.
  destruct idx as [|x rest]; simpl; [apply layerSim_nil|].
  apply StronglySorted_inv in Hs as [Hs Hgt]. apply Forall_cons in Hr as [Hx Hr].
  destruct (index_cases x) as (k & Hk & Hxk); [lia|].
  assert (Hpar : parentIndex x = k).
  { destruct Hxk as [-> | ->]; [apply parentIndex_even|apply parentIndex_odd]; lia. }
  destruct rest as [|y rest'].
  { rewrite Hpar. apply layerSim_cons_single; [done|lia|done|done|apply layerSim_nil]. }
  destruct (decide (y = siblingIndex x)) as [->|Hne].
  - apply StronglySorted_inv in Hs as [Hs Hgt'].
    apply Forall_cons in Hgt as [Hxy Hgt]. apply Forall_cons in Hr as [_ Hr].
    destruct Hxk as [-> | ->];
      [rewrite siblingIndex_even in Hxy, Hgt', Hpar |- *; [|lia..]
      |rewrite siblingIndex_odd in Hxy; lia].
    specialize (IH rest'). destruct (pairIndices rest') as [[nx au] fl].
    rewrite Hpar. apply layerSim_cons_pair; [done|lia|done|].
    apply IH; [unfold ltof; simpl; lia|done..].
  - specialize (IH (y :: rest')).
    destruct (pairIndices (y :: rest')) as [[nx au] fl]. rewrite Hpar.
    apply layerSim_cons_single; [done|lia|done| |apply IH; [unfold ltof; simpl; lia|done..]].
    apply StronglySorted_inv in Hs as [_ Hgt'].
    apply Forall_cons in Hgt as [Hxy Hgt].
    assert (2 * k + 1 < y)%Z as Hky.
    { destruct Hxk as [-> | ->]; [rewrite siblingIndex_even in Hne|]; lia. }
    constructor; [done|]. eapply Forall_impl; [exact Hgt'|]. simpl. lia.
Qed.

(** ** Trees *)

Lemma hashPairs_layerOK layer :
  Nat.Even (length layer) →
  ∃ next, hashPairs hasher layer = Ok next ∧ layerOK layer next.
Proof.
  induction layer as [layer IH] using (induction_ltof1 _ length). intros Hev.
  destruct layer as [|a [|b rest]].
  - exists []. split; [done|]. split; [done|]. intros k ???. by rewrite lookup_nil.
  - destruct Hev as [k Hk]. simpl in Hk. lia.
  - destruct (IH rest) as (next & Hp & Hlen & Hn); [unfold ltof; simpl; lia| |].
    { destruct Hev as [k Hk]. exists (k - 1). simpl in Hk. lia. }
    exists (HashInternal hasher a b :: next). simpl. rewrite Hp /=. split; [done|].
    split; [simpl; lia|]. intros k x y Hx Hy. destruct k as [|k]; [simpl in *; congruence|].
    replace (2 * S k) with (S (S (2 * k))) in Hx, Hy by lia.
    simpl in *. eapply Hn; [exact Hx|]. by replace (k + (k + 0) + 1) with (2 * k + 1) in Hy by lia.
Qed.

Definition padLayer (layer : list H) : list H :=
  if Nat.odd (length layer) then layer ++ [ZeroHash hasher] else layer.

Lemma length_padLayer layer :
  length (padLayer layer) = 2 * Nat.div2 (S (length layer)).
Proof.
  rewrite /padLayer. pose proof (Nat.div2_odd (length layer)) as Hd.
  pose proof (Nat.div2_odd (S (length layer))) as Hd'.
  rewrite Nat.odd_succ -Nat.negb_odd in Hd'.
  destruct (Nat.odd (length layer)); rewrite ?length_app /= in Hd, Hd' |- *; lia.
Qed.

Lemma computeNextLayer_spec layer :
  length layer ≠ 1 →
  ∃ next, computeNextLayer hasher layer = Ok (padLayer layer, next) ∧
          layerOK (padLayer layer) next ∧ length next = Nat.div2 (S (length layer)).
Proof.
  intros Hne. rewrite /computeNextLayer decide_False; [|done].
  destruct (hashPairs_layerOK (padLayer layer)) as (next & Hp & Hok).
  { eexists. apply length_padLayer. }
  fold (padLayer layer). rewrite Hp obind_ok. exists next. split_and!; [done..|].
  destruct Hok as [Hlen _]. rewrite length_padLayer in Hlen. lia.
Qed.

(** The layers of a tree over [l]. *)
Inductive layered : list H → list (list H) → Prop :=
  | layered_top l : length l = 1 → layered l [l]
  | layered_cons l next rest :
      2 ≤ length l → layerOK (padLayer l) next →
      layered next rest → layered l (padLayer l :: rest).

Lemma buildLayers_layered fuel l :
  1 ≤ length l ≤ fuel → ∃ ls, buildLayers hasher fuel l = Ok (Some ls) ∧ layered l ls.
Proof.
  revert l. induction fuel as [|fuel IH]; intros l Hl; [lia|]. simpl.
  destruct (decide (length l ≤ 1)) as [Hle|Hgt].
  { exists [l]. split; [done|]. constructor. lia. }
  destruct (computeNextLayer_spec l) as (next & -> & Hok & Hlen); [lia|]. simpl.
  assert (1 ≤ length next ≤ fuel) as Hn.
  { rewrite Hlen. pose proof (Nat.div2_odd (S (length l))) as Hd.
    destruct (Nat.odd (S (length l))); cbn [Nat.b2n] in Hd; lia. }
  destruct (IH next Hn) as (ls & -> & Hls). simpl. eexists. split; [done|].
  by econstructor; [lia|..].
Qed.

Lemma NewTree_layered leafs :
  leafs ≠ [] → ∃ t, NewTree hasher leafs = Ok (Some t) ∧ layered leafs (layers t).
Proof.
  intros Hne. rewrite /NewTree decide_False; [|by destruct leafs].
  destruct (buildLayers_layered (length leafs) leafs) as (ls & -> & Hls).
  { destruct leafs; [done|]. simpl. lia. }
  simpl. by eexists.
Qed.

Lemma layered_not_nil l ls : layered l ls → ls ≠ [].
Proof. by destruct 1. Qed.

Lemma layered_Root l ls :
  layered l ls → ∃ r, Root {| layers := ls |} = Ok r.
Proof.
  induction 1 as [l Hl|l next rest Hl Hok Hlay [r IH]].
  - destruct l as [|r l]; [done|]. by exists r.
  - exists r. rewrite -IH /Root /=. pose proof (layered_not_nil _ _ Hlay). by destruct rest.
Qed.

(** Number of flags a tree over at most [2 ^ d] leaves can need. *)
Fixpoint maxFlags (d : nat) : nat :=
  match d with 0 => 0 | S d => 2 ^ d + maxFlags d end.

Lemma maxFlags_pow d : maxFlags d = 2 ^ d - 1.
Proof. induction d as [|d IH]; simpl; [done|]. rewrite IH. pose proof (Nat.pow_nonzero 2 d). lia. Qed.

Lemma length_next_pow l next d :
  layerOK (padLayer l) next → length l ≤ 2 ^ S d → length next ≤ 2 ^ d.
Proof.
  intros [Hlen _] Hl. rewrite length_padLayer in Hlen.
  pose proof (Nat.div2_odd (S (length l))) as Hd.
  rewrite Nat.pow_succ_r' in Hl. destruct (Nat.odd (S (length l))); cbn [Nat.b2n] in Hd; lia.
Qed.

(** ** Proving over all layers *)

Lemma omapM_authHash p au :
  Forall (λ i, 0 ≤ i < Z.of_nat (length p))%Z au →
  ∃ hs, omapM (authHash p) au = Ok hs ∧ at_indices p au hs.
Proof.
  induction 1 as [|i au Hi _ (hs & IH & Hat)]; simpl; [by exists []; split; [|constructor]|].
  rewrite {1}/authHash. do 2 (rewrite bool_decide_eq_false_2; [|lia]). simpl.
  destruct (go_index_lt (E:=error) p (Z.to_nat i)) as (a & Ha & ->); [lia|]. simpl.
  rewrite IH /=. eexists. split; [done|]. constructor; [split; [lia|done]|done].
Qed.

Lemma at_indices_inj p idx h1 h2 : at_indices p idx h1 → at_indices p idx h2 → h1 = h2.
Proof.
  intros Hh. revert h2. induction Hh as [|i h idx h1 [_ Hi] _ IH]; intros h2; inversion 1 as [|? h' ? ? [_ Hi']]; [done|].
  simplify_eq. f_equal. auto.
Qed.

Lemma at_indices_pad l idx hs : at_indices l idx hs → at_indices (padLayer l) idx hs.
Proof.
  intros Hat. eapply Forall2_impl; [exact Hat|]. intros i h [? Hi]. split; [done|].
  rewrite /padLayer.
  destruct (Nat.odd _); [|done]. by apply lookup_app_l_Some.
Qed.

Lemma at_indices_bound p idx hs :
  at_indices p idx hs → Forall (λ i, 0 ≤ i < Z.of_nat (length p))%Z idx.
Proof.
  intros Hat. apply Forall_forall. intros i Hi.
  apply list_elem_of_lookup in Hi as [n Hn].
  destruct (Forall2_lookup_l _ _ _ _ _ Hat Hn) as (h & _ & ? & Hh).
  apply lookup_lt_Some in Hh. lia.
Qed.

Lemma strictly_sorted_length m idx :
  StronglySorted Z.lt idx → Forall (λ i, 0 ≤ i < Z.of_nat m)%Z idx → length idx ≤ m.
Proof.
  intros Hs Hb. assert (NoDup (Z.to_nat <$> idx)) as Hnd.
  { apply NoDup_map_inj_on.
    - intros x y Hx Hy. rewrite Forall_forall in Hb.
      pose proof (Hb x Hx). pose proof (Hb y Hy). lia.
    - clear Hb. induction Hs as [|x l Hs IH Hx]; constructor; [|done].
      intros Hin. rewrite Forall_forall in Hx. specialize (Hx x Hin). lia. }
  rewrite -(length_fmap Z.to_nat idx) -{1}(length_seq m 0). apply submseteq_length.
  apply NoDup_submseteq; [done|]. intros k (i & -> & Hi)%list_elem_of_fmap.
  apply elem_of_seq. rewrite Forall_forall in Hb. specialize (Hb i Hi). lia.
Qed.

Lemma proveLayers_sim l ls idx Q pf d :
  layered l ls → length l ≤ 2 ^ d →
  StronglySorted Z.lt idx → idx ≠ [] → at_indices l idx Q →
  ∃ hs fl r,
    proveLayers (removelast ls) idx pf = Ok (mkProof (Hashes pf ++ hs) (SourceFlags pf ++ fl)) ∧
    Root {| layers := ls |} = Ok r ∧ length fl ≤ maxFlags d ∧
    ∀ P, runQ hasher fl (hs ++ P) Q = Some (P, [r]).
Proof.
  intros Hlay. revert idx Q pf d.
  induction Hlay as [l Hl|l next rest Hl Hok Hlay IH]; intros idx Q pf d Hd Hs Hne Hat.
  - destruct l as [|r [|]]; [done| |done]. exists [], [], r. simpl.
    rewrite !app_nil_r. destruct pf. split_and!; [done..|lia|].
    intros P. simpl. f_equal. f_equal.
    pose proof (strictly_sorted_length 1 idx Hs) as Hlen.
    pose proof (at_indices_bound _ _ _ Hat) as Hb.
    destruct Hat as [|i h idx Q [Hi Hh] Hat]; [done|].
    destruct Hat; [|simpl in Hlen; specialize (Hlen Hb); lia].
    apply Forall_cons in Hb as [Hb _]. replace i with 0%Z in Hh by lia. simpl in Hh. congruence.
  - destruct d as [|d]; [simpl in Hd; lia|].
    pose proof (length_next_pow _ _ _ Hok Hd) as Hnd.
    apply at_indices_pad in Hat.
    pose proof (pairIndices_sim _ _ _ Hok Hs (at_indices_bound _ _ _ Hat)) as Hsim.
    destruct (pairIndices idx) as [[nx au] fl] eqn:Epair.
    destruct Hsim as (Q0 & P0 & N0 & HQ & HP & HN & Hsn & Hin & Hlen & Hau & Hrun).
    rewrite -(at_indices_inj _ _ _ _ Hat HQ) in Hrun. clear HQ.
    assert (nx ≠ []) as Hnx.
    { intros ->. destruct idx as [|x idx]; [done|]. apply Forall2_length in HN.
      specialize (Hrun [] []). apply runQ_lengths in Hrun.
      pose proof (Forall2_length _ _ _ Hat). pose proof (Forall2_length _ _ _ HP).
      rewrite !length_app in Hrun. simpl in *. lia. }
    pose proof (layered_not_nil _ _ Hlay) as Hrest.
    destruct (IH nx N0 (mkProof (Hashes pf ++ P0) (SourceFlags pf ++ fl)) d) as
      (hs & fl' & r & Hprove & Hroot & Hfl & Hrun'); [done..|].
    exists (P0 ++ hs), (fl ++ fl'), r. split_and!.
    + replace (removelast (padLayer l :: rest)) with (padLayer l :: removelast rest)
        by (by destruct rest).
      simpl. rewrite /proveSingleLayer Epair.
      destruct (omapM_authHash _ _ Hau) as (hs' & -> & Hhs').
      rewrite (at_indices_inj _ _ _ _ Hhs' HP) /= Hprove /= -!assoc //.
    + rewrite -Hroot /Root /=. by destruct rest.
    + rewrite length_app Hlen. simpl.
      pose proof (strictly_sorted_length _ _ Hsn (at_indices_bound _ _ _ HN)). lia.
    + intros P. rewrite -assoc. specialize (Hrun (hs ++ P) []). rewrite app_nil_r in Hrun.
      by rewrite (runQ_app _ _ _ _ _ _ _ Hrun).
Qed.
End layers.


(** A run of the queue machine that empties the proof hashes and leaves one
    node is an accepting run of [VerifyComputeRoot]. *)
Lemma VerifyComputeRoot_runQ {H} (hasher : Hasher H) zeroH leaves proof r :
  leaves ≠ [] → length (SourceFlags proof) ≤ 256 →
  runQ hasher (SourceFlags proof) (Hashes proof) leaves = Some ([], [r]) →
  VerifyComputeRoot hasher zeroH leaves proof = Ok r.
Proof.
  intros Hne Hmax Hrun.
  destruct (runQ_lengths _ _ _ _ _ _ Hrun) as [Hlen Hcnt]. simpl in Hlen, Hcnt.
  assert (1 ≤ length leaves) as Hl1 by (destruct leaves; simpl; [done|lia]).
  rewrite /VerifyComputeRoot /MaxNumberTreeLeaves countSourceFlags_filter -/SourceFromProof.
  rewrite (bool_decide_eq_false_2 (Z.of_nat (length leaves) = 0)%Z); [|lia].
  rewrite (bool_decide_eq_false_2 (256 + 1 < Z.of_nat (length leaves))%Z); [|lia].
  rewrite (bool_decide_eq_false_2 (256 + 1 < Z.of_nat (length (Hashes proof)))%Z); [|lia].
  rewrite (bool_decide_eq_false_2 (256 < _)%Z); [|lia].
  rewrite (bool_decide_eq_true_2 (_ = Z.of_nat (length (SourceFlags proof)))%Z); [|lia]. simpl.
  case_bool_decide as H0.
  { destruct (SourceFlags proof) eqn:E; [|simpl in *; lia]. simpl in Hrun. simplify_eq.
    by rewrite /go_index. }
  rewrite /SourceFromProof bool_decide_eq_true_2; [|lia]. simpl.
  replace (Z.to_nat _) with (length (SourceFlags proof)) by lia.
  set (n := length (SourceFlags proof)) in *.
  destruct n as [|n'] eqn:En; [lia|]. rewrite -En.
  destruct leaves as [|l0 ls]; [done|]. simpl (initHashes _ _ _).
  assert (initHashes zeroH (l0 :: ls) n = Ok (replicate n zeroH ++ replicate n l0)) as ->.
  { by rewrite En. }
  rewrite obind_ok. set (hs := replicate n zeroH ++ replicate n l0).
  assert (length hs = 2 * n) as Hhs by (rewrite length_app !length_replicate; lia).
  destruct (verifyLoop_sim hasher (l0 :: ls) proof (SourceFlags proof) 0 (mkV 0 0 0 hs)
              (Hashes proof) (l0 :: ls) [] [r]) as (s & E & (HQ & Hlp & Hhp & Hlh) & Hlen' & Hpp);
    [done| |done|simpl; lia|done|].
  { split_and!; simpl; [by rewrite app_nil_r|lia|lia|lia|done]. }
  fold n in E. rewrite E obind_ok. simpl in HQ, Hpp, Hlen', Hlp, Hhp.
  apply (f_equal length) in HQ as HQl. rewrite length_app !length_drop length_take /= in HQl.
  assert (leafPos s = length (l0 :: ls)) as Hleaf.
  { destruct (decide (leafPos s < length (l0 :: ls))) as [Hlt|]; [|simpl in *; lia].
    rewrite (Hlh Hlt) in HQl. simpl in *. lia. }
  simpl in Hleaf, Hlen.
  rewrite !bool_decide_eq_true_2; [|simpl; lia..]. simpl.
  rewrite drop_ge in HQ; [|simpl; lia]. simpl in HQ.
  apply go_index_Ok. assert (hashPos s = n - 1) as Hhpos by lia.
  rewrite -(lookup_take_lt _ n); [|lia]. rewrite -Hhpos -(Nat.add_0_r (hashPos s)) -lookup_drop.
  replace n with (0 + n) by lia. rewrite -HQ //.
Qed.

(** ** Safety of the verification loop on arbitrary proofs *)

Definition stepInv {H} (proof : Proof H) (leaves : list H) (total i : nat) (s : @vstate H) : Prop :=
  leafPos s ≤ length leaves ∧ hashPos s ≤ 2 * i ∧ length (hashes s) = 2 * total ∧
  proofPos s = length (filter (λ b, b = false) (take i (SourceFlags proof))) .

Lemma nextHash_safe {H} (leaves : list H) (s : @vstate H) :
  hashPos s < length (hashes s) →
  ∃ a s', nextHash leaves s = Ok (a, s') ∧ hashPos s' ≤ S (hashPos s) ∧
    (leafPos s ≤ length leaves → leafPos s' ≤ length leaves) ∧
    proofPos s' = proofPos s ∧ hashes s' = hashes s.
Proof.
  intros Hlt. rewrite /nextHash. destruct (decide _) as [Hl|Hl].
  - destruct (go_index_lt (E:=error) leaves (leafPos s) Hl) as (a & _ & ->). rewrite obind_ok.
    do 2 eexists. split; [done|]. split_and!; simpl; (done || lia).
  - destruct (go_index_lt (E:=error) (hashes s) (hashPos s) Hlt) as (a & _ & ->). rewrite obind_ok.
    do 2 eexists. split; [done|]. split_and!; simpl; (done || lia).
Qed.

Lemma verifyStep_safe {H} (hasher : Hasher H) proof leaves total i s :
  total = length (SourceFlags proof) →
  length (filter (λ b, b = false) (SourceFlags proof)) = length (Hashes proof) →
  i < total → stepInv proof leaves total i s →
  ∃ s', verifyStep hasher leaves proof s i = Ok s' ∧ stepInv proof leaves total (S i) s'.
Proof.
  intros -> Hcnt Hi (Hl & Hh & Hlen & Hp). rewrite /verifyStep.
  destruct (lookup_lt_is_Some_2 (SourceFlags proof) i Hi) as [flag Hflag].
  assert (length (filter (λ b, b = false) (take (S i) (SourceFlags proof))) =
          proofPos s + if flag then 0 else 1) as HpS.
  { rewrite (take_S_r _ _ _ Hflag) filter_app length_app -Hp. f_equal. by destruct flag. }
  assert (length (filter (λ b, b = false) (take (S i) (SourceFlags proof))) ≤ length (Hashes proof)) as HpB.
  { rewrite -Hcnt -{2}(take_drop (S i) (SourceFlags proof)) filter_app length_app. lia. }
  rewrite {1}/go_index Hflag obind_ok.
  destruct flag; cbn [Bool.eqb SourceFromHashes].
  - destruct (nextHash_safe leaves s) as (a & s1 & -> & Hh1 & Hl1 & Hp1 & Hhs1); [lia|]. rewrite obind_ok.
    destruct (nextHash_safe leaves s1) as (b & s2 & -> & Hh2 & Hl2 & Hp2 & Hhs2); [rewrite Hhs1; lia|].
    rewrite obind_ok decide_True; [|rewrite Hhs2 Hhs1; lia]. eexists. split; [done|].
    split_and!; simpl; [auto|lia|rewrite length_insert Hhs2 Hhs1 //|lia].
  - destruct (go_index_lt (E:=error) (Hashes proof) (proofPos s)) as (a & _ & ->); [lia|].
    rewrite !obind_ok. set (s1 := mkV _ _ _ _).
    destruct (nextHash_safe leaves s1) as (b & s2 & -> & Hh2 & Hl2 & Hp2 & Hhs2); [simpl; lia|].
    rewrite obind_ok decide_True; [|rewrite Hhs2 /=; lia]. simpl in *. eexists. split; [done|].
    split_and!; simpl; [auto|lia|rewrite length_insert Hhs2 //|lia].
Qed.

Lemma verifyLoop_safe {H} (hasher : Hasher H) proof leaves total n i s :
  total = length (SourceFlags proof) →
  length (filter (λ b, b = false) (SourceFlags proof)) = length (Hashes proof) →
  i + n ≤ total → stepInv proof leaves total i s →
  ∃ s', ofold (verifyStep hasher leaves proof) s (seq i n) = Ok s' ∧ stepInv proof leaves total (i + n) s'.
Proof.
  intros Ht Hcnt. revert i s. induction n as [|n IH]; intros i s Hi Hs.
  { exists s. by rewrite Nat.add_0_r. }
  destruct (verifyStep_safe hasher proof leaves total i s) as (s1 & E1 & Hs1); [done..|lia|done|].
  destruct (IH (S i) s1) as (s2 & E2 & Hs2); [lia|done|].
  exists s2. simpl. rewrite E1 obind_ok. by replace (i + S n) with (S i + n) by lia.
Qed.

(** Completeness for every hasher whose internal hash is symmetric; the
    instance for the repository's hasher is in HashUtil. *)
Lemma verify_prove_comm {H} (hasher : Hasher H) (zeroH : H) leafs idx leaves :
  (∀ a b, HashInternal hasher a b = HashInternal hasher b a) →
  1 ≤ length leafs ≤ 256 → idx ≠ [] → StronglySorted Z.lt idx →
  at_indices leafs idx leaves →
  ∃ t p r, NewTree hasher leafs = Ok (Some t) ∧ Prove t idx = Ok p ∧ Root t = Ok r ∧
           VerifyComputeRoot hasher zeroH leaves p = Ok r.
Proof.
  intros Hcomm Hl Hne Hs Hat.
  destruct (NewTree_layered hasher leafs) as (t & Ht & Hlay); [by destruct leafs; simpl in *; [lia|]|].
  destruct (proveLayers_sim hasher Hcomm leafs (layers t) idx leaves (mkProof [] []) 8)
    as (hs & fl & r & Hprove & Hroot & Hfl & Hrun); [done|simpl; lia|done..|].
  exists t, (mkProof hs fl), r. split_and!; [done| |by destruct t|].
  - rewrite /Prove. pose proof (layered_not_nil _ _ _ Hlay).
    by destruct (layers t).
  - apply VerifyComputeRoot_runQ; simpl.
    + intros ->. by destruct idx; [|inversion Hat].
    + rewrite maxFlags_pow in Hfl. simpl in Hfl. lia.
    + specialize (Hrun []). by rewrite app_nil_r in Hrun.
Qed.

(** ** Properties *)

(** [NewTree] always returns: an error exactly on the empty list of
    leaves, and otherwise a tree with a root; its loop terminates within as
    many iterations as there are leaves. *)
Theorem NewTree_total {H} (hasher : Hasher H) leafs :
  (leafs = [] ∧ NewTree hasher leafs = Err ErrNoLeaves) ∨
  (leafs ≠ [] ∧ ∃ t r, NewTree hasher leafs = Ok (Some t) ∧ Root t = Ok r).
Proof.
  destruct (decide (leafs = [])) as [->|Hne]; [by left|right]. split; [done|].
  destruct (NewTree_layered hasher leafs Hne) as (t & Ht & Hlay).
  destruct (layered_Root hasher _ _ Hlay) as (r & Hr). exists t, r. by destruct t.
Qed.

(** [VerifyComputeRoot] never indexes out of range on any input, except
    for one shape: no leaves, exactly one proof hash and no source flags,
    where [leafHashes[0]] panics instead of the "leaves and proofs are
    empty" error. *)
Theorem verify_panics_iff {H} (hasher : Hasher H) (zeroH : H) leaves proof :
  VerifyComputeRoot hasher zeroH leaves proof = Panic ↔
  leaves = [] ∧ length (Hashes proof) = 1 ∧ SourceFlags proof = [].
Proof.
  rewrite /VerifyComputeRoot countSourceFlags_filter -/SourceFromProof. split; last first.
  { intros (-> & Hh & Hf). by rewrite Hh Hf. }
  destruct (bool_decide (_ = 0)%Z && _) eqn:E1; [done|].
  destruct (bool_decide _ || _) eqn:E2; [done|].
  clear E1 E2. case_bool_decide as E3; [done|]. case_bool_decide as E4; cbn [negb]; [|done].
  case_bool_decide as E5.
  { destruct leaves as [|l0 ls]; [|done]. intros _. simpl in *.
    split_and!; [done|lia|]. destruct (SourceFlags proof); [done|simpl in *; lia]. }
  case_bool_decide as E6; cbn [negb]; [|done].
  set (total := Z.to_nat _). assert (total = length (SourceFlags proof)) as Ht by lia.
  assert (total ≠ 0) as Ht0 by lia. clearbody total.
  assert (leaves ≠ []) as Hne.
  { intros ->. simpl in *. rewrite /SourceFromProof in E6.
    pose proof (length_filter (λ b, b = false) (SourceFlags proof)). lia. }
  destruct leaves as [|l0 ls]; [done|].
  assert (initHashes zeroH (l0 :: ls) total = Ok (replicate total zeroH ++ replicate total l0)) as ->.
  { by destruct total. }
  rewrite obind_ok.
  destruct (verifyLoop_safe hasher proof (l0 :: ls) total total 0
              (mkV 0 0 0 (replicate total zeroH ++ replicate total l0))) as (s & -> & Hs);
    [done|rewrite /SourceFromProof in E6; lia|lia| |].
  { split_and!; simpl; [lia|lia|rewrite length_app !length_replicate; lia|done]. }
  rewrite obind_ok. destruct (_ || _); [done|]. destruct Hs as (_ & _ & Hlen & _).
  destruct (go_index_lt (E:=error) (hashes s) (total - 1)) as (a & _ & ->); [lia|done].
Qed.

End MerkleMulti.
