(* ===== verification/HashUtil.v ===== *)
(** Hash helpers: [src/pkg/hashutil/common.go] and [keccak.go].

    The Keccak permutation itself ([golang.org/x/crypto/sha3]) is the
    parameter [sha3]; everything the repository adds on top of it (the fixed
    32-byte result, the nested-array encoding, the ordered internal hash and
    its domain separator) is modelled. *)

From S2P Require Import Prelude GoBytes MerkleMulti.

Module HashUtil.

(** [var h [32]byte; copy(h[:], l)] *)
Definition copy32 (l : list byte) : list byte :=
  take 32 l ++ replicate (32 - length l) x00.

Section with_sha3.
(** [sha3.NewLegacyKeccak256(); Write(in); Sum(nil)] *)
Context (sha3 : list byte → list byte).

Definition keccak256Fixed (l : list byte) : list byte := copy32 (sha3 l).

Definition InternalDomainSeparator : list byte := replicate 31 x00 ++ [x01].

Definition Hash (l : list byte) : list byte := keccak256Fixed l.

Definition HashInternal (a b : list byte) : list byte :=
  match bytesCompare a b with
  | Lt => Hash (InternalDomainSeparator ++ (a ++ b))
  | _ => Hash (InternalDomainSeparator ++ (b ++ a))
  end.

Definition ZeroHash : list byte := replicate 32 xff.

Definition NewKeccak : Hasher (list byte) :=
  {| MerkleMulti.HashInternal := HashInternal; MerkleMulti.ZeroHash := ZeroHash |}.

Definition EncodeBytesOfBytes (b : list (list byte)) : list byte :=
  be_bytes 8 (wrapU 64 (Z.of_nat (length b))) ++
  mjoin ((λ arr, be_bytes 8 (wrapU 64 (Z.of_nat (length arr))) ++ arr) <$> b).

Definition BytesOfBytesKeccak (b : list (list byte)) : list byte :=
  if decide (length b = 0) then replicate 32 x00
  else keccak256Fixed (EncodeBytesOfBytes b).

Lemma HashInternal_comm a b : HashInternal a b = HashInternal b a.
Proof.
  rewrite /HashInternal (bytesCompare_antisym a b).
  destruct (bytesCompare a b) eqn:E; simpl; [|done..].
  by apply bytesCompare_Eq in E as ->.
Qed.

Lemma length_copy32 l : length (copy32 l) = 32.
Proof. rewrite /copy32 length_app length_take length_replicate. lia. Qed.

(** C5: Multi-proofs over the Keccak hasher are complete: whatever the
    Keccak function, the ordered internal hash makes the left/right
    position of a sibling irrelevant, so a proof made by [Prove] always
    recomputes the tree's root. *)
Theorem keccak_verify_prove leafs idx leaves :
  1 ≤ length leafs ≤ 256 → idx ≠ [] → StronglySorted Z.lt idx →
  MerkleMulti.at_indices leafs idx leaves →
  ∃ t p r, MerkleMulti.NewTree NewKeccak leafs = Ok (Some t) ∧ MerkleMulti.Prove t idx = Ok p ∧
           MerkleMulti.Root t = Ok r ∧
           MerkleMulti.VerifyComputeRoot NewKeccak (replicate 32 x00) leaves p = Ok r.
Proof. apply MerkleMulti.verify_prove_comm. apply HashInternal_comm. Qed.
End with_sha3.

Lemma fixed_header_inj n1 n2 (t1 t2 : list byte) :
  (0 <= n1 < 2 ^ 64)%Z → (0 <= n2 < 2 ^ 64)%Z →
  be_bytes 8 (wrapU 64 n1) ++ t1 = be_bytes 8 (wrapU 64 n2) ++ t2 → n1 = n2 ∧ t1 = t2.
Proof.
  intros H1 H2 H. apply app_inj_1 in H as [Hh ->]; [|by rewrite !length_be_bytes].
  split; [|done]. apply (f_equal be_val) in Hh. rewrite !be_val_bytes in Hh.
  rewrite !wrapU_small in Hh; [|done..]. rewrite !Z.mod_small in Hh; done.
Qed.

Definition short (b : list (list byte)) : Prop :=
  (Z.of_nat (length b) < 2 ^ 64)%Z ∧ Forall (λ arr, Z.of_nat (length arr) < 2 ^ 64)%Z b.

Lemma encode_bodies_inj b1 b2 :
  length b1 = length b2 →
  Forall (λ arr : list byte, Z.of_nat (length arr) < 2 ^ 64)%Z b1 →
  Forall (λ arr : list byte, Z.of_nat (length arr) < 2 ^ 64)%Z b2 →
  mjoin ((λ arr, be_bytes 8 (wrapU 64 (Z.of_nat (length arr))) ++ arr) <$> b1) =
  mjoin ((λ arr, be_bytes 8 (wrapU 64 (Z.of_nat (length arr))) ++ arr) <$> b2) → b1 = b2.
Proof.
  revert b2. induction b1 as [|x b1 IH]; intros [|y b2] Hl H1 H2 H; [done..|].
  apply Forall_cons in H1 as [Hx H1]. apply Forall_cons in H2 as [Hy H2]. rewrite !fmap_cons in H. cbn [mjoin list_join] in H. rewrite -!app_assoc in H. simpl in Hl. apply fixed_header_inj in H as [Hlen H]; [|lia..].
  apply app_inj_1 in H as [-> H]; [|lia]. f_equal. apply IH; [lia|done..].
Qed.

(** The nested-array encoding that is hashed is unambiguous: two different
    lists of byte arrays (of lengths a [uint64] can hold) never encode to
    the same bytes, so [BytesOfBytesKeccak] collides only where Keccak
    itself does. *)
Theorem BytesOfBytesKeccak_collision sha3 b1 b2 :
  b1 ≠ [] → b2 ≠ [] → short b1 → short b2 → b1 ≠ b2 →
  BytesOfBytesKeccak sha3 b1 = BytesOfBytesKeccak sha3 b2 →
  EncodeBytesOfBytes b1 ≠ EncodeBytesOfBytes b2 ∧
  copy32 (sha3 (EncodeBytesOfBytes b1)) = copy32 (sha3 (EncodeBytesOfBytes b2)).
Proof.
  intros Hn1 Hn2 [Hl1 Hs1] [Hl2 Hs2] Hne. rewrite /BytesOfBytesKeccak.
  rewrite !decide_False; [|by intros ?%nil_length_inv..]. intros Hk. split; [|done].
  intros He. apply Hne. rewrite /EncodeBytesOfBytes in He. apply fixed_header_inj in He as [Hlen He]; [|lia..].
  apply encode_bodies_inj; [lia|done..].
Qed.

(** A concrete stand-in for Keccak: it forgets everything. *)
Definition constHash (l : list byte) : list byte := replicate 32 x2a.

Lemma BytesOfBytesKeccak_collision_witness :
  EncodeBytesOfBytes [[x01]; [x02; x03]] ≠ EncodeBytesOfBytes [[x01; x02]; [x03]] ∧
  copy32 (constHash (EncodeBytesOfBytes [[x01]; [x02; x03]])) =
  copy32 (constHash (EncodeBytesOfBytes [[x01; x02]; [x03]])).
Proof.
  apply (BytesOfBytesKeccak_collision constHash); [done|done| | |done|reflexivity];
    (split; [reflexivity|repeat constructor]).
Defined.

Lemma keccak_verify_prove_witness :
  ∃ t p r, MerkleMulti.NewTree (NewKeccak constHash) [[x01]; [x02]; [x03]] = Ok (Some t) ∧
           MerkleMulti.Prove t [0; 2]%Z = Ok p ∧ MerkleMulti.Root t = Ok r ∧
           MerkleMulti.VerifyComputeRoot (NewKeccak constHash) (replicate 32 x00) [[x01]; [x03]] p = Ok r.
Proof.
  apply (keccak_verify_prove constHash [[x01]; [x02]; [x03]] [0; 2]%Z [[x01]; [x03]]).
  - simpl. lia.
  - done.
  - repeat constructor.
  - repeat constructor; done.
Defined.

End HashUtil.
