(* ===== verification/Encodings.v ===== *)
(** The type codecs: [src/pkg/codec/encodings] and [encodings/binary].

    A codec is a tree of the combinators of the two packages; [encode],
    [decode], [getType], [size] and [fixedSize] are the methods of
    [encodings.TypeCodec], by recursion on that tree.  Go values that pass
    through an [any] are the tagged type [govalue]; a failed type assertion or
    a mistyped reflective [Set] is [Panic]. *)

From S2P Require Import Prelude GoBytes.

Module Encodings.

(** The sentinel errors of [types] that the package wraps. *)
Inductive error :=
  | ErrInvalidType | ErrInvalidEncoding | ErrSliceWrongLen
  | ErrNotASlice | ErrInternal | ErrInvalidConfig.

Inductive intkind := I8 | I16 | I32 | I64 | U8 | U16 | U32 | U64.
Inductive endian := BigEndian | LittleEndian.

(** [reflect.Type], as far as codecs build it. *)
Inductive gotype :=
  | TIntW (k : intkind) | TInt | TUint | TBool | TFloat32 | TFloat64
  | TString | TOracleID | TBig
  | TPtr (t : gotype) | TSlice (t : gotype) | TArray (n : nat) (t : gotype)
  | TStruct (fields : list (string * gotype)).

(** Dynamic values.  A float is its IEEE-754 bit pattern; a pointer carries
    its element type, as a Go interface does for a nil pointer. *)
Inductive govalue :=
  | VNil
  | VIntW (k : intkind) (z : Z) | VInt (z : Z) | VUint (z : Z) | VBool (b : bool)
  | VFloat32 (bits : Z) | VFloat64 (bits : Z)
  | VString (s : list byte) | VOracleID (z : Z) | VBig (z : Z)
  | VPtr (t : gotype) (v : option govalue)
  | VSlice (t : gotype) (vs : list govalue)
  | VArray (t : gotype) (vs : list govalue)
  | VStruct (fields : list (string * gotype)) (vs : list govalue).

(** [reflect.TypeOf] *)
Definition typeOf (v : govalue) : option gotype :=
  match v with
  | VNil => None
  | VIntW k _ => Some (TIntW k)
  | VInt _ => Some TInt
  | VUint _ => Some TUint
  | VBool _ => Some TBool
  | VFloat32 _ => Some TFloat32
  | VFloat64 _ => Some TFloat64
  | VString _ => Some TString
  | VOracleID _ => Some TOracleID
  | VBig _ => Some TBig
  | VPtr t _ => Some (TPtr t)
  | VSlice t _ => Some (TSlice t)
  | VArray t vs => Some (TArray (length vs) t)
  | VStruct fs _ => Some (TStruct fs)
  end.

(** How [endianEncoder.Int] and [Uint] convert between [int]/[uint] and the
    value of the underlying codec. *)
Inductive intconv := ConvW (k : intkind) | ConvBig.

Inductive codec :=
  | CIntW (k : intkind) (e : endian)
  | CInt (conv : intconv) (c : codec)
  | CUint (conv : intconv) (c : codec)
  | CBigInt (numBytes : nat) (signed : bool) (e : endian)
  | CBool
  | CFloat32 (e : endian)
  | CFloat64 (e : endian)
  | COracleID
  | CString (c : codec) (maxLength : Z)
  | CSlice (field size : codec)
  | CArray (numElements : nat) (field : codec)
  | CNotNil (elm : codec)
  | CStruct (fields : list (string * codec))
  | CEmpty.

Fixpoint gotype_eqb (a b : gotype) : bool :=
  match a, b with
  | TIntW I8, TIntW I8 | TIntW I16, TIntW I16 | TIntW I32, TIntW I32 | TIntW I64, TIntW I64
  | TIntW U8, TIntW U8 | TIntW U16, TIntW U16 | TIntW U32, TIntW U32 | TIntW U64, TIntW U64
  | TInt, TInt | TUint, TUint | TBool, TBool | TFloat32, TFloat32 | TFloat64, TFloat64
  | TString, TString | TOracleID, TOracleID | TBig, TBig => true
  | TPtr a, TPtr b => gotype_eqb a b
  | TSlice a, TSlice b => gotype_eqb a b
  | TArray n a, TArray m b => Nat.eqb n m && gotype_eqb a b
  | TStruct fs, TStruct gs =>
      (fix go (fs gs : list (string * gotype)) : bool :=
         match fs, gs with
         | [], [] => true
         | (n, a) :: fs, (m, b) :: gs => String.eqb n m && gotype_eqb a b && go fs gs
         | _, _ => false
         end) fs gs
  | _, _ => false
  end.

Definition kindBytes (k : intkind) : nat :=
  match k with I8 | U8 => 1 | I16 | U16 => 2 | I32 | U32 => 4 | I64 | U64 => 8 end.
Definition kindSigned (k : intkind) : bool :=
  match k with I8 | I16 | I32 | I64 => true | _ => false end.
Definition kindBits (k : intkind) : Z := 8 * Z.of_nat (kindBytes k).
(** The Go conversion [k(z)]. *)
Definition wrapK (k : intkind) (z : Z) : Z :=
  if kindSigned k then wrapS (kindBits k) z else wrapU (kindBits k) z.

(** [AppendUint<8n>] and [Uint<8n>] of the two byte orders. *)
Definition putUint (e : endian) (n : nat) (z : Z) : list byte :=
  match e with BigEndian => be_bytes n z | LittleEndian => le_bytes n z end.
Definition getUint (e : endian) (bs : list byte) : Z :=
  match e with BigEndian => be_val bs | LittleEndian => le_val bs end.

(** [reflect.Value.Set]: the value must have the slot's type. *)
Definition reflectSet (t : gotype) (v : govalue) : outcome error govalue :=
  match typeOf v with
  | Some t' => if gotype_eqb t' t then Ok v else Panic
  | None => Panic
  end.

Definition SafeDecode {T} (raw : list byte) (size : nat) (call : list byte → T) : outcome error (T * list byte) :=
  if decide (length raw < size) then Err ErrInvalidEncoding
  else Ok (call (take size raw), drop size raw).

(** [int] arithmetic. *)
Definition intAdd (a b : Z) : Z := wrapS 64 (a + b).
Definition intMul (a b : Z) : Z := wrapS 64 (a * b).

Fixpoint getType (c : codec) : gotype :=
  match c with
  | CIntW k _ => TIntW k
  | CInt _ _ => TInt
  | CUint _ _ => TUint
  | CBigInt _ _ _ => TPtr TBig
  | CBool => TBool
  | CFloat32 _ => TFloat32
  | CFloat64 _ => TFloat64
  | COracleID => TOracleID
  | CString _ _ => TString
  | CSlice f _ => TSlice (getType f)
  | CArray n f => TArray n (getType f)
  | CNotNil c => TPtr (getType c)
  | CStruct fs => TPtr (TStruct (map (λ f, (f.1, getType f.2)) fs))
  | CEmpty => TStruct []
  end.

Fixpoint fixedSize (c : codec) : outcome error Z :=
  match c with
  | CIntW k _ => Ok (Z.of_nat (kindBytes k))
  | CInt _ c => fixedSize c
  | CUint _ c => fixedSize c
  | CBigInt n _ _ => Ok (wrapS 64 (Z.of_nat n))
  | CBool => Ok 1%Z
  | CFloat32 _ => Ok 4%Z
  | CFloat64 _ => Ok 8%Z
  | COracleID => Ok 1%Z
  | CString _ _ => Err ErrInvalidType
  | CSlice _ _ => Err ErrInvalidType
  | CArray n f => let? fs := fixedSize f in Ok (intMul fs (Z.of_nat n))
  | CNotNil c => fixedSize c
  | CStruct fs =>
      (fix go (fs : list (string * codec)) (size : Z) : outcome error Z :=
         match fs with
         | [] => Ok size
         | (_, c) :: fs => let? n := fixedSize c in go fs (intAdd size n)
         end) fs 0%Z
  | CEmpty => Ok 0%Z
  end.

Fixpoint size (c : codec) (numItems : Z) : outcome error Z :=
  match c with
  | CInt _ c => size c numItems
  | CUint _ c => size c numItems
  | CString _ _ => Err ErrInvalidType
  | CSlice f s =>
      let? sizeSize := fixedSize s in
      let? elemSize := fixedSize f in
      Ok (intAdd sizeSize (intMul elemSize numItems))
  | CArray n f => fixedSize (CArray n f)
  | CNotNil c => size c numItems
  | CStruct fs => fixedSize (CStruct fs)
  | c => fixedSize c
  end.

(** [structCodec.SizeAtTopLevel] and the choice in [GetMaxEncodingSize]. *)
Fixpoint sizeFields (fs : list (string * codec)) (numItems acc : Z) : outcome error Z :=
  match fs with
  | [] => Ok acc
  | (_, c) :: fs => let? n := size c numItems in sizeFields fs numItems (intAdd acc n)
  end.

Definition GetMaxEncodingSize (c : codec) (numItems : Z) : outcome error Z :=
  match c with
  | CStruct fs => sizeFields fs numItems 0
  | c => size c numItems
  end.

Definition fromInt (conv : intconv) (v : Z) : govalue :=
  match conv with
  | ConvW k => VIntW k (wrapK k v)
  | ConvBig => VPtr TBig (Some (VBig v))
  end.

(** The type assertions of [toInt]/[toUint] panic on any other value. *)
Definition toInt (wrap : Z → Z) (conv : intconv) (v : govalue) : outcome error Z :=
  match conv, v with
  | ConvW k, VIntW k' z => if gotype_eqb (TIntW k) (TIntW k') then Ok (wrap z) else Panic
  | ConvBig, VPtr TBig (Some (VBig z)) => Ok (wrap z)
  | _, _ => Panic
  end.

Definition bitLen (z : Z) : Z := if decide (z = 0)%Z then 0%Z else (Z.log2 (Z.abs z) + 1)%Z.

Section encode.
(** [libocr/bigbigendian]: not part of this repository. *)
Context (SerializeSigned : nat → Z → option (list byte)).
Context (DeserializeSigned : nat → list byte → option Z).
(** Whether the runtime can allocate a slice of that element type and
    length; otherwise [reflect.MakeSlice] panics. *)
Context (makeSliceOk : gotype → Z → bool).

Definition serializeSigned (e : endian) (size : nat) (i : Z) : outcome error (list byte) :=
  let? b := ok_or ErrInvalidType (SerializeSigned size i) in
  Ok (match e with BigEndian => b | LittleEndian => reverse b end).

Definition serializeUnsigned (e : endian) (size : nat) (i : Z) : outcome error (list byte) :=
  if decide (i < 0)%Z then Err ErrInvalidType
  else if decide (Z.of_nat size * 8 < bitLen i)%Z then Err ErrInvalidType
  else let b := be_bytes size i in
       Ok (match e with BigEndian => b | LittleEndian => reverse b end).

Definition deserializeSigned (e : endian) (size : nat) (b : list byte) : option Z :=
  DeserializeSigned size (match e with BigEndian => b | LittleEndian => reverse b end).

Definition deserializeUnsigned (e : endian) (b : list byte) : Z :=
  be_val (match e with BigEndian => b | LittleEndian => reverse b end).

(** [EncodeEach] *)
Fixpoint encodeEach (enc : govalue → list byte → outcome error (list byte))
    (vs : list govalue) (into : list byte) : outcome error (list byte) :=
  match vs with
  | [] => Ok into
  | v :: vs => let? into := enc v into in encodeEach enc vs into
  end.

Definition encodeIntW (k : intkind) (e : endian) (value : govalue) (into : list byte) : outcome error (list byte) :=
  match value with
  | VIntW k' z =>
      if gotype_eqb (TIntW k) (TIntW k')
      then Ok (into ++ putUint e (kindBytes k) (wrapU (kindBits k) z))
      else Err ErrInvalidType
  | _ => Err ErrInvalidType
  end.

Definition encodeBigInt (n : nat) (signed : bool) (e : endian) (value : govalue) (into : list byte) : outcome error (list byte) :=
  match value with
  | VPtr TBig (Some (VBig bi)) =>
      let? bytes := if signed then serializeSigned e n bi else serializeUnsigned e n bi in
      Ok (into ++ bytes)
  | VPtr TBig _ => Panic
  | _ => Err ErrInvalidType
  end.

(** The elements of a value of kind slice or array. *)
Definition elements_of (value : govalue) : option (list govalue) :=
  match value with VSlice _ vs | VArray _ vs => Some vs | _ => None end.

(** [reflect.ValueOf(len).Convert(s.SizeCodec.GetType())] *)
Definition convertLen (t : gotype) (len : Z) : outcome error govalue :=
  match t with
  | TInt => Ok (VInt len)
  | TUint => Ok (VUint len)
  | TIntW k => Ok (VIntW k (wrapK k len))
  | _ => Panic
  end.

(** The [Encode] methods, given those of the codecs they contain. *)
Definition encoder : Type := govalue → list byte → outcome error (list byte).

Definition encodeInt (enc : encoder) (conv : intconv) (value : govalue) (into : list byte) : outcome error (list byte) :=
  match value with
  | VInt ival => enc (fromInt conv ival) into
  | _ => Err ErrInvalidType
  end.

Definition encodeUint (enc : encoder) (conv : intconv) (value : govalue) (into : list byte) : outcome error (list byte) :=
  match value with
  | VUint ival => enc (fromInt conv ival) into
  | _ => Err ErrInvalidType
  end.

Definition encodeBool (value : govalue) (into : list byte) : outcome error (list byte) :=
  match value with
  | VBool b => Ok (into ++ [if b then x01 else x00])
  | _ => Err ErrInvalidType
  end.

Definition encodeFloat32 (e : endian) (value : govalue) (into : list byte) : outcome error (list byte) :=
  match value with
  | VFloat32 bits => encodeIntW U32 e (VIntW U32 bits) into
  | _ => Err ErrInvalidType
  end.

Definition encodeFloat64 (e : endian) (value : govalue) (into : list byte) : outcome error (list byte) :=
  match value with
  | VFloat64 bits => encodeIntW U64 e (VIntW U64 bits) into
  | _ => Err ErrInvalidType
  end.

Definition encodeOracleID (value : govalue) (into : list byte) : outcome error (list byte) :=
  match value with
  | VOracleID oid => encodeIntW U8 BigEndian (VIntW U8 oid) into
  | _ => Err ErrInvalidType
  end.

Definition encodeString (enc : encoder) (maxLength : Z) (value : govalue) (into : list byte) : outcome error (list byte) :=
  match value with
  | VString str =>
      if decide (maxLength < Z.of_nat (length str))%Z then Err ErrInvalidType
      else enc (VSlice (TIntW U8) ((λ b, VIntW U8 (Z_of_byte b)) <$> str)) into
  | _ => Err ErrInvalidType
  end.

Definition encodeSlice (encField encSize : encoder) (sizeCodec : codec) (value : govalue) (into : list byte)
    : outcome error (list byte) :=
  match elements_of value with
  | None => Err ErrNotASlice
  | Some vs =>
      let? fs := fixedSize sizeCodec in
      let numElements := Z.of_nat (length vs) in
      let maxElements := Z.shiftl 1 (wrapU 64 (intMul fs 8)) in
      if decide (maxElements < numElements)%Z then Err ErrSliceWrongLen
      else
        let? toEncode := convertLen (getType sizeCodec) numElements in
        let? into := encSize toEncode into in
        encodeEach encField vs into
  end.

Definition encodeArray (encElem : encoder) (n : nat) (value : govalue) (into : list byte) : outcome error (list byte) :=
  match elements_of value with
  | None => Err ErrNotASlice
  | Some vs =>
      if decide (length vs ≠ n) then Err ErrSliceWrongLen
      else encodeEach encElem vs into
  end.

Definition encodeNotNil (encElm : encoder) (value : govalue) (into : list byte) : outcome error (list byte) :=
  match value with
  | VPtr _ (Some v) => encElm v into
  | _ => Err ErrInvalidType
  end.

(** [encFields] encodes the fields in order. *)
Definition encodeStruct (encFields : list govalue → list byte → outcome error (list byte)) (tpe : gotype)
    (value : govalue) (into : list byte) : outcome error (list byte) :=
  match typeOf value with
  | None => Panic
  | Some t =>
      if negb (gotype_eqb t tpe) then Err ErrInvalidType
      else encFields (match value with VPtr _ (Some (VStruct _ vs)) => vs | _ => [] end) into
  end.

Fixpoint encode (c : codec) : encoder :=
  match c with
  | CIntW k e => encodeIntW k e
  | CInt conv c => encodeInt (encode c) conv
  | CUint conv c => encodeUint (encode c) conv
  | CBigInt n signed e => encodeBigInt n signed e
  | CBool => encodeBool
  | CFloat32 e => encodeFloat32 e
  | CFloat64 e => encodeFloat64 e
  | COracleID => encodeOracleID
  | CString c maxLength => encodeString (encode c) maxLength
  | CSlice field sizeCodec => encodeSlice (encode field) (encode sizeCodec) sizeCodec
  | CArray n field => encodeArray (encode field) n
  | CNotNil elm => encodeNotNil (encode elm)
  | CStruct fields =>
      encodeStruct
        ((fix go (fs : list (string * codec)) (vs : list govalue) (into : list byte) :=
            match fs, vs with
            | [], _ => Ok into
            | (_, c) :: fs, v :: vs => let? into := encode c v into in go fs vs into
            | _ :: _, [] => Panic
            end) fields)
        (getType (CStruct fields))
  | CEmpty => λ _ into, Ok into
  end.

(** [DecodeEach] *)
Fixpoint decodeEach (dec : list byte → outcome error (govalue * list byte)) (elemType : gotype)
    (n : nat) (remaining : list byte) : outcome error (list govalue * list byte) :=
  match n with
  | 0 => Ok ([], remaining)
  | S n =>
      let? (element, remaining) := dec remaining in
      let? element := reflectSet elemType element in
      let? (vs, remaining) := decodeEach dec elemType n remaining in
      Ok (element :: vs, remaining)
  end.

Definition decodeIntW (k : intkind) (e : endian) (encoded : list byte) : outcome error (Z * list byte) :=
  SafeDecode encoded (kindBytes k) (λ bs, wrapK k (getUint e bs)).

(** [string(bytes.([]byte))] *)
Fixpoint bytesOf (vs : list govalue) : outcome error (list byte) :=
  match vs with
  | [] => Ok []
  | VIntW U8 z :: vs => let? bs := bytesOf vs in Ok (byte_of_Z z :: bs)
  | _ :: _ => Panic
  end.

(** The [Decode] methods, given those of the codecs they contain. *)
Definition decoder : Type := list byte → outcome error (govalue * list byte).

Definition decodeInt (dec : decoder) (conv : intconv) (encoded : list byte) : outcome error (govalue * list byte) :=
  let? (v, rest) := dec encoded in
  let? i := toInt (wrapS 64) conv v in Ok (VInt i, rest).

Definition decodeUint (dec : decoder) (conv : intconv) (encoded : list byte) : outcome error (govalue * list byte) :=
  let? (v, rest) := dec encoded in
  let? i := toInt (wrapU 64) conv v in Ok (VUint i, rest).

Definition decodeBigInt (n : nat) (signed : bool) (e : endian) (encoded : list byte) : outcome error (govalue * list byte) :=
  if signed then
    let? (z, rest) := SafeDecode encoded n (deserializeSigned e n) in
    Ok (VPtr TBig (VBig <$> z), rest)
  else
    let? (z, rest) := SafeDecode encoded n (deserializeUnsigned e) in
    Ok (VPtr TBig (Some (VBig z)), rest).

Definition decodeBool (encoded : list byte) : outcome error (govalue * list byte) :=
  let? (z, rest) := SafeDecode encoded 1 le_val in Ok (VBool (negb (Z.eqb z 0)), rest).

Definition decodeFloat32 (e : endian) (encoded : list byte) : outcome error (govalue * list byte) :=
  let? (z, rest) := decodeIntW U32 e encoded in Ok (VFloat32 z, rest).
Definition decodeFloat64 (e : endian) (encoded : list byte) : outcome error (govalue * list byte) :=
  let? (z, rest) := decodeIntW U64 e encoded in Ok (VFloat64 z, rest).
Definition decodeOracleID (encoded : list byte) : outcome error (govalue * list byte) :=
  let? (z, rest) := decodeIntW U8 BigEndian encoded in Ok (VOracleID z, rest).

Definition decodeString (dec : decoder) (maxLength : Z) (encoded : list byte) : outcome error (govalue * list byte) :=
  let? (bytes, rest) := dec encoded in
  let? sVal := match bytes with VSlice (TIntW U8) vs => bytesOf vs | _ => Panic end in
  if decide (maxLength < Z.of_nat (length sVal))%Z then Err ErrInvalidEncoding
  else Ok (VString sVal, rest).

Definition decodeSlice (decField decSize : decoder) (fieldType : gotype) (encoded : list byte)
    : outcome error (govalue * list byte) :=
  let? (size, remaining) := decSize encoded in
  match size with
  | VInt intSize =>
      if decide (intSize < 0)%Z then Err ErrInvalidEncoding
      else if negb (makeSliceOk fieldType intSize) then Panic
      else
        let? (vs, remaining) := decodeEach decField fieldType (Z.to_nat intSize) remaining in
        Ok (VSlice fieldType vs, remaining)
  | _ => Err ErrInternal
  end.

Definition decodeArray (decElem : decoder) (n : nat) (elemType : gotype) (encoded : list byte)
    : outcome error (govalue * list byte) :=
  let? (vs, remaining) := decodeEach decElem elemType n encoded in
  Ok (VArray elemType vs, remaining).

Definition decodeNotNil (decElm : decoder) (elmType : gotype) (encoded : list byte) : outcome error (govalue * list byte) :=
  let? (v, rest) := decElm encoded in
  let? v := reflectSet elmType v in
  Ok (VPtr elmType (Some v), rest).

Definition decodeStruct (decFields : list byte → outcome error (list govalue * list byte))
    (fts : list (string * gotype)) (encoded : list byte) : outcome error (govalue * list byte) :=
  let? (vs, rest) := decFields encoded in
  Ok (VPtr (TStruct fts) (Some (VStruct fts vs)), rest).

Fixpoint decode (c : codec) : decoder :=
  match c with
  | CIntW k e => λ encoded, let? (z, rest) := decodeIntW k e encoded in Ok (VIntW k z, rest)
  | CInt conv c => decodeInt (decode c) conv
  | CUint conv c => decodeUint (decode c) conv
  | CBigInt n signed e => decodeBigInt n signed e
  | CBool => decodeBool
  | CFloat32 e => decodeFloat32 e
  | CFloat64 e => decodeFloat64 e
  | COracleID => decodeOracleID
  | CString c maxLength => decodeString (decode c) maxLength
  | CSlice field sizeCodec => decodeSlice (decode field) (decode sizeCodec) (getType field)
  | CArray n field => decodeArray (decode field) n (getType field)
  | CNotNil elm => decodeNotNil (decode elm) (getType elm)
  | CStruct fields =>
      decodeStruct
        ((fix go (fs : list (string * codec)) (encoded : list byte) :=
            match fs with
            | [] => Ok ([], encoded)
            | (_, c) :: fs =>
                let? (v, encoded) := decode c encoded in
                let? v := reflectSet (getType c) v in
                let? (vs, encoded) := go fs encoded in
                Ok (v :: vs, encoded)
            end) fields)
        (map (λ f, (f.1, getType f.2)) fields)
  | CEmpty => λ encoded, Ok (VStruct [] [], encoded)
  end.
End encode.

(** ** Constructors *)

Section constructors.
(** [bigbigendian.MaxSize] *)
Context (MaxSize : Z).

Definition NewBigInt (numBytes : Z) (signed : bool) (e : endian) : outcome error codec :=
  if decide (MaxSize < numBytes)%Z then Err ErrInvalidConfig
  else Ok (CBigInt (Z.to_nat numBytes) signed e).

(** [endianEncoder.Int] *)
Definition NewInt (e : endian) (bytes : Z) : outcome error codec :=
  match bytes with
  | 1 => Ok (CInt (ConvW I8) (CIntW I8 e))
  | 2 => Ok (CInt (ConvW I16) (CIntW I16 e))
  | 4 => Ok (CInt (ConvW I32) (CIntW I32 e))
  | 8 => Ok (CInt (ConvW I64) (CIntW I64 e))
  | _ => let? c := NewBigInt bytes true e in Ok (CInt ConvBig c)
  end%Z.

(** [endianEncoder.Uint] *)
Definition NewUint (e : endian) (bytes : Z) : outcome error codec :=
  match bytes with
  | 1 => Ok (CUint (ConvW U8) (CIntW U8 e))
  | 2 => Ok (CUint (ConvW U16) (CIntW U16 e))
  | 4 => Ok (CUint (ConvW U32) (CIntW U32 e))
  | 8 => Ok (CUint (ConvW U64) (CIntW U64 e))
  | _ => let? c := NewBigInt bytes false e in Ok (CUint ConvBig c)
  end%Z.

Definition NewSlice (field size : codec) : outcome error codec :=
  if gotype_eqb (getType size) TInt then Ok (CSlice field size) else Err ErrInvalidConfig.

Definition NewArray (numElements : nat) (underlying : codec) : outcome error codec :=
  Ok (CArray numElements underlying).

Definition NewString (e : endian) (maxLength : Z) : outcome error codec :=
  let headerSize := ((bitLen maxLength + 7) / 8)%Z in
  let? sizeEncoder := NewInt e headerSize in
  let? c := NewSlice (CIntW U8 e) sizeEncoder in
  Ok (CString c maxLength).

Definition isPtr (t : gotype) : bool := match t with TPtr _ => true | _ => false end.

(** [NewStructCodec] wraps every field whose type is not a pointer; the
    names are those [reflect.StructOf] accepts. *)
Definition NewStructCodec (structOfOk : list string → bool) (fields : list (string * codec)) : outcome error codec :=
  if structOfOk (map fst fields)
  then Ok (CStruct (map (λ f, (f.1, if isPtr (getType f.2) then f.2 else CNotNil f.2)) fields))
  else Err ErrInvalidConfig.
End constructors.

(** [decode] of type_codec.go without the final conversion into the
    caller's value: the strict codec rejects trailing bytes, the lenient one
    ignores them. *)
Definition decodeTop DeserializeSigned makeSliceOk (c : codec) (exactSize : bool) (raw : list byte) : outcome error govalue :=
  let? (val, remaining) := decode DeserializeSigned makeSliceOk c raw in
  if exactSize && negb (bool_decide (length remaining = 0)) then Err ErrInvalidEncoding
  else Ok val.
End Encodings.
