(* ===== verification/EncodingsFacts.v ===== *)
(** What the type codecs of Encodings guarantee: encoding only appends, a
    decoded value has the codec's type and decoding panics only where the runtime
    refuses to allocate what a slice's header announces, encoding and decoding are
    inverse on representable values, and the announced sizes are
    the encoded lengths. *)

From S2P Require Import Prelude GoBytes Encodings.

Module EncodingsFacts.
Import Encodings.

(** Exposes the method of the codec at hand. *)
Ltac unfold_codec :=
  cbn [encode decode];
  unfold encodeInt, encodeUint, encodeBool, encodeFloat32, encodeFloat64, encodeOracleID, encodeString,
    encodeSlice, encodeArray, encodeNotNil, encodeStruct, decodeInt, decodeUint, decodeBigInt, decodeBool,
    decodeFloat32, decodeFloat64, decodeOracleID, decodeString, decodeSlice, decodeArray, decodeNotNil, decodeStruct.
Ltac unfold_codec_in H :=
  cbn [encode decode] in H;
  unfold encodeInt, encodeUint, encodeBool, encodeFloat32, encodeFloat64, encodeOracleID, encodeString,
    encodeSlice, encodeArray, encodeNotNil, encodeStruct, decodeInt, decodeUint, decodeBigInt, decodeBool,
    decodeFloat32, decodeFloat64, decodeOracleID, decodeString, decodeSlice, decodeArray, decodeNotNil, decodeStruct in H.

(** Induction over codecs, with the fields of a struct. *)
Lemma codec_ind' (P : codec → Prop) :
  (∀ k e, P (CIntW k e)) → (∀ cv c, P c → P (CInt cv c)) → (∀ cv c, P c → P (CUint cv c)) →
  (∀ n s e, P (CBigInt n s e)) → P CBool → (∀ e, P (CFloat32 e)) → (∀ e, P (CFloat64 e)) →
  P COracleID → (∀ c m, P c → P (CString c m)) → (∀ f s, P f → P s → P (CSlice f s)) →
  (∀ n f, P f → P (CArray n f)) → (∀ c, P c → P (CNotNil c)) →
  (∀ fs, Forall (λ f, P f.2) fs → P (CStruct fs)) → P CEmpty → ∀ c, P c.
Proof.
  intros H1 H2 H3 H4 H5 H6 H7 H8 H9 H10 H11 H12 H13 H14.
  fix IH 1. intros [| | | | | | | | | | | |fs|];
    [apply H1|apply H2, IH|apply H3, IH|apply H4|apply H5|apply H6|apply H7|apply H8
    |apply H9, IH|apply H10; apply IH|apply H11, IH|apply H12, IH| |apply H14].
  apply H13. induction fs as [|[n c] fs IHfs]; constructor; [apply IH|exact IHfs].
Qed.

Lemma gotype_ind' (P : gotype → Prop) :
  (∀ k, P (TIntW k)) → P TInt → P TUint → P TBool → P TFloat32 → P TFloat64 → P TString →
  P TOracleID → P TBig → (∀ t, P t → P (TPtr t)) → (∀ t, P t → P (TSlice t)) →
  (∀ n t, P t → P (TArray n t)) → (∀ fs, Forall (λ f, P f.2) fs → P (TStruct fs)) → ∀ t, P t.
Proof.
  intros H1 H2 H3 H4 H5 H6 H7 H8 H9 H10 H11 H12 H13.
  fix IH 1. intros [| | | | | | | | | | | |fs];
    [apply H1|apply H2|apply H3|apply H4|apply H5|apply H6|apply H7|apply H8|apply H9
    |apply H10, IH|apply H11, IH|apply H12, IH|].
  apply H13. induction fs as [|[n t] fs IHfs]; constructor; [apply IH|exact IHfs].
Qed.

Lemma gotype_eqb_refl t : gotype_eqb t t = true.
Proof.
  induction t as [k| | | | | | | | |t IH|t IH|n t IH|fs IH] using gotype_ind'; simpl; try done.
  - by destruct k.
  - by rewrite Nat.eqb_refl IH.
  - induction IH as [|[n t] fs Ht _ IHfs]; [done|]. simpl in *. by rewrite String.eqb_refl Ht IHfs.
Qed.

Lemma gotype_eqb_eq a b : gotype_eqb a b = true → a = b.
Proof.
  revert b. induction a as [k| | | | | | | | |t IH|t IH|n t IH|fs IH] using gotype_ind';
    intros [k'| | | | | | | | |t'|t'|n' t'|gs]; simpl; try done.
  all: try by (destruct k; try destruct k').
  - intros H. f_equal. auto.
  - intros H. f_equal. auto.
  - intros [->%Nat.eqb_eq H]%andb_prop. f_equal. auto.
  - intros H. f_equal. revert gs H. induction IH as [|[n t] fs Ht _ IHfs]; intros [|[m u] gs] H; try done.
    apply andb_prop in H as [[->%String.eqb_eq H]%andb_prop H']. f_equal; [f_equal; auto|auto].
Qed.

#[export] Instance gotype_eq_dec : EqDecision gotype.
Proof.
  intros a b. destruct (gotype_eqb a b) eqn:E; [left; by apply gotype_eqb_eq|right].
  intros ->. by rewrite gotype_eqb_refl in E.
Defined.

(** The recursion over struct fields, named. *)
Section fields.
Context (ser : nat → Z → option (list byte)) (des : nat → list byte → option Z) (mk : gotype → Z → bool).

Fixpoint encodeFields (fs : list (string * codec)) (vs : list govalue) (into : list byte) :=
  match fs, vs with
  | [], _ => Ok into
  | (_, c) :: fs, v :: vs => let? into := encode ser c v into in encodeFields fs vs into
  | _ :: _, [] => Panic
  end.

Fixpoint decodeFields (fs : list (string * codec)) (encoded : list byte) : outcome error (list govalue * list byte) :=
  match fs with
  | [] => Ok ([], encoded)
  | (_, c) :: fs =>
      let? (v, encoded) := decode des mk c encoded in
      let? v := reflectSet (getType c) v in
      let? (vs, encoded) := decodeFields fs encoded in
      Ok (v :: vs, encoded)
  end.

Fixpoint fixedFields (fs : list (string * codec)) (size : Z) : outcome error Z :=
  match fs with
  | [] => Ok size
  | (_, c) :: fs => let? n := fixedSize c in fixedFields fs (intAdd size n)
  end.

Definition fieldTypes (fs : list (string * codec)) : list (string * gotype) :=
  map (λ f, (f.1, getType f.2)) fs.

Definition structValues (value : govalue) : list govalue :=
  match value with VPtr _ (Some (VStruct _ vs)) => vs | _ => [] end.

Lemma encode_CStruct fs value into :
  encode ser (CStruct fs) value into =
  match typeOf value with
  | None => Panic
  | Some t =>
      if negb (gotype_eqb t (TPtr (TStruct (fieldTypes fs)))) then Err ErrInvalidType
      else encodeFields fs (structValues value) into
  end.
Proof.
  unfold_codec. destruct (typeOf value) as [t|]; [|done]. destruct (negb _); [done|].
  fold (structValues value). generalize (structValues value). intros vs.
  revert vs into. induction fs as [|[n c] fs IH]; intros vs into; [by destruct vs|].
  destruct vs as [|v vs]; [done|]. simpl. destruct (encode ser c v into); [|done..]. apply IH.
Qed.

Lemma decode_CStruct fs encoded :
  decode des mk (CStruct fs) encoded =
  let? (vs, rest) := decodeFields fs encoded in
  Ok (VPtr (TStruct (fieldTypes fs)) (Some (VStruct (fieldTypes fs) vs)), rest).
Proof.
  done.
Qed.

Lemma fixedSize_CStruct fs : fixedSize (CStruct fs) = fixedFields fs 0.
Proof.
  simpl. generalize 0%Z. induction fs as [|[n c] fs IH]; intros z; [done|]. simpl.
  destruct (fixedSize c); [|done..]. apply IH.
Qed.

Lemma getType_CStruct fs : getType (CStruct fs) = TPtr (TStruct (fieldTypes fs)).
Proof. done. Qed.
End fields.

(** ** Codecs the constructors build *)

(** [intCodec]/[uintCodec] over the codec of its conversion. *)
Definition convOK (signed : bool) (conv : intconv) (c : codec) : Prop :=
  match conv, c with
  | ConvW k, CIntW k' _ => k = k' ∧ kindSigned k = signed
  | ConvBig, CBigInt n s _ => s = signed ∧ 0 < n
  | _, _ => False
  end.

(** A slice header as [NewSlice] asks for it: of Go type [int]. *)
Definition headerOK (s : codec) : Prop :=
  match s with CInt conv c => convOK true conv c | _ => False end.

Fixpoint wf (c : codec) : Prop :=
  match c with
  | CInt conv c => convOK true conv c
  | CUint conv c => convOK false conv c
  | CBigInt n _ _ => 0 < n
  | CString (CSlice (CIntW U8 _) s) m => headerOK s
  | CString _ _ => False
  | CSlice f s => wf f ∧ headerOK s
  | CArray _ f => wf f
  | CNotNil c => wf c
  | CStruct fs =>
      (fix go (fs : list (string * codec)) : Prop :=
         match fs with [] => True | (_, c) :: fs => wf c ∧ go fs end) fs
  | _ => True
  end.

Lemma wf_CStruct fs : wf (CStruct fs) ↔ Forall (λ f, wf f.2) fs.
Proof.
  simpl. induction fs as [|[n c] fs IH]; [by split; constructor|]. rewrite Forall_cons IH //.
Qed.

(** The slices inside a codec: the codec of their elements and that of their header. *)
Fixpoint slicesOf (c : codec) : list (codec * codec) :=
  match c with
  | CString c _ | CArray _ c | CNotNil c => slicesOf c
  | CSlice f s => (f, s) :: slicesOf f
  | CStruct fs =>
      (fix go (fs : list (string * codec)) : list (codec * codec) :=
         match fs with [] => [] | (_, c) :: fs => slicesOf c ++ go fs end) fs
  | _ => []
  end.

Lemma elem_of_slicesOf_CStruct fs x : x ∈ slicesOf (CStruct fs) ↔ ∃ f, f ∈ fs ∧ x ∈ slicesOf f.2.
Proof.
  simpl. induction fs as [|[n c] fs IH]; [set_solver|]. rewrite elem_of_app IH. setoid_rewrite elem_of_cons. naive_solver.
Qed.

(** ** Deep typing of Go values: a scalar is in its type's range, the parts of
    a composite value have the types its header announces. *)

Definition scalarOK (v : govalue) : Prop :=
  match v with
  | VIntW k z => wrapK k z = z
  | VInt z => wrapS 64 z = z
  | VUint z => wrapU 64 z = z
  | VFloat32 bits => wrapU 32 bits = bits
  | VFloat64 bits => wrapU 64 bits = bits
  | VOracleID z => wrapU 8 z = z
  | VBool _ | VString _ | VBig _ | VPtr _ None => True
  | _ => False
  end.

Inductive hasType : gotype → govalue → Prop :=
  | HasScalar t v : scalarOK v → typeOf v = Some t → hasType t v
  | HasPtr t v : hasType t v → hasType (TPtr t) (VPtr t (Some v))
  | HasSlice t vs : Forall (hasType t) vs → hasType (TSlice t) (VSlice t vs)
  | HasArray t n vs : length vs = n → Forall (hasType t) vs → hasType (TArray n t) (VArray t vs)
  | HasStruct fs vs : Forall2 (λ f v, hasType f.2 v) fs vs → hasType (TStruct fs) (VStruct fs vs).

Lemma hasType_typeOf t v : hasType t v → typeOf v = Some t.
Proof. destruct 1; simpl; congruence. Qed.

Lemma hasType_bytes vs : Forall (hasType (TIntW U8)) vs → Forall (λ v, ∃ z, v = VIntW U8 z ∧ wrapU 8 z = z) vs.
Proof.
  intros Hvs. eapply Forall_impl; [exact Hvs|]. simpl. intros v H. inversion H as [? v' Hs Ht| | | |]; subst.
  destruct v; simplify_eq/=; try done. by eexists.
Qed.

(** The values a codec represents exactly.  [ser] is bigbigendian's signed
    serialiser: it succeeds on the integers that fit the size. *)
Section fits.
Context (ser : nat → Z → option (list byte)) (mk : gotype → Z → bool).

Definition fitsInt (conv : intconv) (z : Z) : Prop :=
  match conv with ConvW k => wrapK k z = z | ConvBig => True end.

Fixpoint fits (c : codec) (v : govalue) : Prop :=
  match c with
  | CIntW k _ => ∃ z, v = VIntW k z ∧ wrapK k z = z
  | CInt conv c => ∃ z, v = VInt z ∧ wrapS 64 z = z ∧ fitsInt conv z ∧ fits c (fromInt conv z)
  | CUint conv c => ∃ z, v = VUint z ∧ wrapU 64 z = z ∧ fitsInt conv z ∧ fits c (fromInt conv z)
  | CBigInt n true _ => ∃ z b, v = VPtr TBig (Some (VBig z)) ∧ ser n z = Some b
  | CBigInt n false _ => ∃ z, v = VPtr TBig (Some (VBig z)) ∧ inU (8 * Z.of_nat n) z
  | CBool => ∃ b, v = VBool b
  | CFloat32 _ => ∃ z, v = VFloat32 z ∧ wrapU 32 z = z
  | CFloat64 _ => ∃ z, v = VFloat64 z ∧ wrapU 64 z = z
  | COracleID => ∃ z, v = VOracleID z ∧ wrapU 8 z = z
  | CString c m =>
      ∃ str, v = VString str ∧ (Z.of_nat (length str) <= m)%Z ∧
             fits c (VSlice (TIntW U8) ((λ b, VIntW U8 (Z_of_byte b)) <$> str))
  | CSlice f s =>
      ∃ vs, v = VSlice (getType f) vs ∧ Forall (λ w, fits f w ∧ hasType (getType f) w) vs ∧
            getType s = TInt ∧ fits s (VInt (Z.of_nat (length vs))) ∧
            (∃ fs, fixedSize s = Ok fs ∧ (Z.of_nat (length vs) <= 2 ^ wrapU 64 (intMul fs 8))%Z) ∧
            mk (getType f) (Z.of_nat (length vs)) = true
  | CArray n f =>
      ∃ vs, v = VArray (getType f) vs ∧ length vs = n ∧ Forall (λ w, fits f w ∧ hasType (getType f) w) vs
  | CNotNil c => ∃ w, v = VPtr (getType c) (Some w) ∧ fits c w ∧ hasType (getType c) w
  | CStruct fs =>
      ∃ vs, v = VPtr (TStruct (fieldTypes fs)) (Some (VStruct (fieldTypes fs) vs)) ∧
      (fix go (fs : list (string * codec)) (vs : list govalue) : Prop :=
         match fs, vs with
         | [], [] => True
         | (_, c) :: fs, v :: vs => (fits c v ∧ hasType (getType c) v) ∧ go fs vs
         | _, _ => False
         end) fs vs
  | CEmpty => v = VStruct [] []
  end.

Lemma fits_CStruct fs v :
  fits (CStruct fs) v ↔
  ∃ vs, v = VPtr (TStruct (fieldTypes fs)) (Some (VStruct (fieldTypes fs) vs)) ∧
        Forall2 (λ f v, fits f.2 v ∧ hasType (getType f.2) v) fs vs.
Proof.
  simpl. f_equiv. intros vs. apply and_iff_compat_l. generalize vs.
  induction fs as [|[n c] fs IH]; intros [|w ws].
  - by split; [constructor|].
  - split; [done|inversion 1].
  - split; [done|inversion 1].
  - rewrite Forall2_cons IH. done.
Qed.
End fits.

Section guarantees.
Context (ser : nat → Z → option (list byte)) (des : nat → list byte → option Z) (mk : gotype → Z → bool).
(** The documented contract of bigbigendian: serialisations have the
    requested size, deserialisation inverts them and accepts every slice
    of the right, positive, size. *)
Context (ser_length : ∀ n i b, ser n i = Some b → length b = n).
Context (des_ser : ∀ n i b, ser n i = Some b → des n b = Some i).
Context (des_total : ∀ n b, 0 < n → length b = n → is_Some (des n b)).
Context (des_range : ∀ n b z, 0 < n → des n b = Some z → inS (8 * Z.of_nat n) z).

(** *** Encoding appends *)

Lemma encodeIntW_app k e v into :
  encodeIntW k e v into = let? bs := encodeIntW k e v [] in Ok (into ++ bs).
Proof. destruct v as [|k' z| | | | | | | | | | | |]; simpl; try done. by destruct k, k'. Qed.

Lemma encodeEach_app enc vs into :
  (∀ v into, enc v into = let? bs := enc v [] in Ok (into ++ bs)) →
  encodeEach enc vs into = let? bs := encodeEach enc vs [] in Ok (into ++ bs).
Proof.
  intros Henc. revert into. induction vs as [|v vs IH]; intros into; simpl; [by rewrite app_nil_r|].
  rewrite (Henc v into). destruct (enc v []) as [bs| |]; simpl; [|done..].
  rewrite (IH (into ++ bs)) (IH bs). destruct (encodeEach enc vs []); simpl; [|done..].
  by rewrite assoc.
Qed.

Lemma encodeFields_app fs vs into :
  Forall (λ f, ∀ v into, encode ser f.2 v into = let? bs := encode ser f.2 v [] in Ok (into ++ bs)) fs →
  encodeFields ser fs vs into = let? bs := encodeFields ser fs vs [] in Ok (into ++ bs).
Proof.
  intros Hfs. revert vs into. induction Hfs as [|[n c] fs Hc _ IH]; intros vs into; simpl; [by rewrite app_nil_r|].
  destruct vs as [|v vs]; [done|]. simpl in Hc. rewrite (Hc v into).
  destruct (encode ser c v []) as [bs| |]; simpl; [|done..].
  rewrite (IH vs (into ++ bs)) (IH vs bs). destruct (encodeFields ser fs vs []); simpl; [|done..].
  by rewrite assoc.
Qed.

Lemma encode_app c v into :
  encode ser c v into = let? bs := encode ser c v [] in Ok (into ++ bs).
Proof.
  revert v into. induction c using codec_ind'; intros v into;
    [| | | | | | | | | | | |rewrite !encode_CStruct|]; unfold_codec; simpl; try apply encodeIntW_app.
  - by destruct v.
  - by destruct v.
  - rewrite /encodeBigInt. destruct v as [| | | | | | | | | |[] [[]|]| | |]; try done.
    by destruct (if s then _ else _).
  - by destruct v.
  - destruct v; first [done|apply encodeIntW_app].
  - destruct v; first [done|apply encodeIntW_app].
  - destruct v; first [done|apply encodeIntW_app].
  - destruct v; [done..| |done|done|done|done|done|done]. by case_decide.
  - destruct (elements_of v) as [vs|]; [|done]. destruct (fixedSize _); simpl; [|done..].
    case_decide; [done|]. destruct (convertLen _ _) as [l| |]; simpl; [|done..].
    rewrite (IHc2 l into). destruct (encode ser c2 l []) as [bs| |]; simpl; [|done..].
    rewrite (encodeEach_app _ _ (into ++ bs)) // (encodeEach_app _ _ bs) //.
    destruct (encodeEach _ _ []); simpl; [|done..]. by rewrite assoc.
  - destruct (elements_of v) as [vs|]; [|done]. case_decide; [done|]. by apply encodeEach_app.
  - by destruct v as [| | | | | | | | | |? [w|]| | |].
  - destruct (typeOf v); [|done]. destruct (negb _); [done|]. by apply encodeFields_app.
  - by rewrite app_nil_r.
Qed.

(** *** Decoding is typed, consumes a prefix and panics only at a refused allocation *)

Section typed.
(** The slices that may be decoded. *)
Context (slices : list (codec * codec)).

(** Somewhere in the input is the header of such a slice, and the runtime
    refuses to allocate the number of elements it announces. *)
Definition refused (encoded : list byte) : Prop :=
  ∃ f s here n rest, (f, s) ∈ slices ∧ here `suffix_of` encoded ∧ decode des mk s here = Ok (VInt n, rest) ∧ (0 <= n < 2 ^ 63)%Z ∧ mk (getType f) n = false.

Lemma refused_suffix rest encoded : rest `suffix_of` encoded → refused rest → refused encoded.
Proof. intros Hs (f & s & here & n & rest' & Hin & Hh & Hd & Hn & Hm). exists f, s, here, n, rest'. split; [done|]. split; [by etrans|]. done. Qed.

Definition decodes {A} (P : A → Prop) (encoded : list byte) (r : outcome error (A * list byte)) : Prop :=
  match r with
  | Ok (v, rest) => P v ∧ rest `suffix_of` encoded
  | Err _ => True
  | Panic => refused encoded
  end.

Lemma decodes_bind {A B} (P : A → Prop) (Q : B → Prop) encoded r (k : A * list byte → outcome error (B * list byte)) :
  decodes P encoded r →
  (∀ v rest, P v → rest `suffix_of` encoded → decodes Q rest (k (v, rest))) →
  decodes Q encoded (obind r k).
Proof.
  destruct r as [[v rest]| |]; simpl; [|done..]. intros [HP Hs] Hk. specialize (Hk v rest HP Hs).
  destruct (k _) as [[w rest']| |]; [|done|by eapply refused_suffix]. destruct Hk as [HQ Hs'].
  split; [done|]. by etrans.
Qed.

Lemma decodes_ret {A B} (P : A → Prop) (Q : B → Prop) encoded r (f : A → B) :
  decodes P encoded r → (∀ v, P v → Q (f v)) → decodes Q encoded (let? (v, rest) := r in Ok (f v, rest)).
Proof. intros Hr HPQ. eapply decodes_bind; [done|]. intros v rest HP _. by split; [auto|]. Qed.

Lemma SafeDecode_decodes {T} encoded n (call : list byte → T) :
  decodes (λ z, ∃ bs, length bs = n ∧ z = call bs) encoded (SafeDecode encoded n call).
Proof.
  rewrite /SafeDecode. case_decide; [done|]. split.
  - exists (take n encoded). split; [rewrite length_take; lia|done].
  - exists (take n encoded). by rewrite take_drop.
Qed.

Lemma decodes_weaken {A} (P Q : A → Prop) encoded r :
  decodes P encoded r → (∀ v, P v → Q v) → decodes Q encoded r.
Proof. destruct r as [[v rest]| |]; simpl; naive_solver. Qed.

Lemma reflectSet_typed t v : hasType t v → reflectSet t v = Ok v.
Proof. intros H%hasType_typeOf. by rewrite /reflectSet H gotype_eqb_refl. Qed.

Lemma wrapK_idemp k z : wrapK k (wrapK k z) = wrapK k z.
Proof. rewrite /wrapK. destruct (kindSigned k); [apply wrapS_wrapS; by destruct k|apply wrapU_wrapU]. Qed.

Lemma decodeIntW_decodes k e encoded :
  decodes (λ z, wrapK k z = z) encoded (decodeIntW k e encoded).
Proof.
  eapply decodes_weaken; [apply SafeDecode_decodes|]. intros z (bs & _ & ->). apply wrapK_idemp.
Qed.

Lemma decodeEach_decodes dec t n encoded :
  (∀ bs, decodes (hasType t) bs (dec bs)) →
  decodes (λ vs, length vs = n ∧ Forall (hasType t) vs) encoded (decodeEach dec t n encoded).
Proof.
  intros Hdec. revert encoded. induction n as [|n IH]; intros encoded; simpl; [done|].
  eapply decodes_bind; [apply Hdec|]. intros v rest HP _.
  rewrite (reflectSet_typed _ _ HP) obind_ok.
  eapply (decodes_ret _ _ _ _ (cons v)); [apply IH|]. intros vs [Hl Hvs]. split; [simpl; lia|by constructor].
Qed.

Lemma decodeFields_decodes fs encoded :
  Forall (λ f, ∀ bs, decodes (hasType (getType f.2)) bs (decode des mk f.2 bs)) fs →
  decodes (Forall2 (λ f, hasType f.2) (fieldTypes fs)) encoded (decodeFields des mk fs encoded).
Proof.
  intros Hfs. revert encoded. induction Hfs as [|[n c] fs Hc _ IH]; intros encoded; simpl; [split; [apply Forall2_nil_2|done]|].
  eapply decodes_bind; [apply Hc|]. intros v rest HP _. simpl in HP.
  rewrite (reflectSet_typed _ _ HP) obind_ok.
  eapply (decodes_ret _ _ _ _ (cons v)); [apply IH|]. intros vs Hvs. by constructor.
Qed.

Lemma decode_CBigInt_decodes n s e encoded :
  decodes (λ v, hasType (TPtr TBig) v ∧
                  (0 < n → ∃ z, v = VPtr TBig (Some (VBig z)) ∧ (s = true → inS (8 * Z.of_nat n) z))) encoded
    (decode des mk (CBigInt n s e) encoded).
Proof.
  destruct s; simpl.
  - eapply (decodes_ret _ _ _ _ (λ z, VPtr TBig (VBig <$> z))); [apply SafeDecode_decodes|].
    intros z (bs & Hl & ->). split.
    { destruct (deserializeSigned _ _ _ _); simpl; [apply HasPtr|]; by apply HasScalar. }
    intros Hn.
    destruct (des_total n (match e with BigEndian => bs | LittleEndian => reverse bs end)) as [z Hz];
      [done|destruct e; rewrite ?length_reverse //|].
    exists z. rewrite /deserializeSigned Hz. split; [done|]. intros _. by eapply des_range.
  - eapply (decodes_ret _ _ _ _ (λ z, VPtr TBig (Some (VBig z)))); [apply SafeDecode_decodes|].
    intros z (bs & Hl & ->). split; [by apply HasPtr, HasScalar|]. by eexists.
Qed.

(** [intCodec.Decode] and [uintCodec.Decode]. *)
Lemma decode_conv_decodes signed conv c wrap (con : Z → govalue) t encoded :
  convOK signed conv c → (∀ z, hasType t (con (wrap z))) →
  decodes (hasType t) encoded
    (let? (v, rest) := decode des mk c encoded in let? i := toInt wrap conv v in Ok (con i, rest)).
Proof.
  intros Hc Ht. destruct conv as [k|], c as [k' e| | |n s e| | | | | | | | | |]; simpl in Hc; try done.
  - destruct Hc as [<- _]. unfold_codec. rewrite obind_assoc.
    eapply decodes_bind; [apply decodeIntW_decodes|].
    intros v rest _ _. simpl. destruct k; simpl; by split.
  - destruct Hc as [_ Hn]. eapply decodes_bind; [apply (decode_CBigInt_decodes n s e)|].
    intros v rest [_ Hv] _. destruct (Hv Hn) as (z & -> & _). by split.
Qed.

Lemma bytesOf_ok vs :
  Forall (hasType (TIntW U8)) vs → ∃ bs, bytesOf vs = Ok bs ∧ vs = (λ b, VIntW U8 (Z_of_byte b)) <$> bs.
Proof.
  intros H%hasType_bytes. induction H as [|v vs (z & -> & Hz) _ (bs & IH & Hl)]; simpl; [by exists []|].
  rewrite IH /=. eexists. split; [done|]. simpl. rewrite Z_of_byte_of_Z.
  change (z mod 256)%Z with (wrapU 8 z). rewrite Hz. by f_equal.
Qed.

Lemma decode_header_decodes s encoded :
  headerOK s → decodes (λ v, ∃ z, v = VInt z ∧ inS 64 z) encoded (decode des mk s encoded).
Proof.
  destruct s as [|conv c| | | | | | | | | | | |]; simpl; try done. intros Hc.
  eapply decodes_weaken; [apply (decode_conv_decodes true conv c (wrapS 64) VInt TInt _ Hc)|].
  - intros z. constructor; [by apply wrapS_wrapS|done].
  - intros v H. inversion H as [? v' Hs Ht| | | |]; subst. destruct v; simplify_eq/=. eexists. split; [done|]. rewrite -Hs. by apply wrapS_range.
Qed.

Lemma decode_CSlice_decodes f s encoded :
  (f, s) ∈ slices → (∀ bs, decodes (hasType (getType f)) bs (decode des mk f bs)) → headerOK s →
  decodes (hasType (getType (CSlice f s))) encoded (decode des mk (CSlice f s) encoded).
Proof.
  intros HS Hf Hs. unfold_codec. pose proof (decode_header_decodes s encoded Hs) as Hd. destruct (decode des mk s encoded) as [[v rest]| |] eqn:E; [|done..].
  destruct Hd as [(z & -> & Hz) Hsuf]. cbn [obind]. case_decide; [done|]. destruct (mk (getType f) z) eqn:Em.
  - cbn [negb]. pose proof (decodeEach_decodes (decode des mk f) (getType f) (Z.to_nat z) rest Hf) as He.
    destruct (decodeEach _ _ _ _) as [[vs rest']| |]; [|done|by eapply refused_suffix]. destruct He as [[_ Hvs] Hr]. split; [by constructor|]. by etrans.
  - exists f, s, encoded, z, rest. rewrite /inS in Hz. split_and!; [done|done|done|lia|lia|done].
Qed.

Lemma decode_CString_decodes c m encoded :
  getType c = TSlice (TIntW U8) →
  (∀ bs, decodes (hasType (getType c)) bs (decode des mk c bs)) →
  decodes (hasType TString) encoded (decode des mk (CString c m) encoded).
Proof.
  intros Ht Hc. unfold_codec. eapply decodes_bind; [apply Hc|]. rewrite Ht. intros v rest Hv _.
  inversion Hv as [? v' Hs Htv| |? vs Hvs| |]; subst.
  { by destruct v; simplify_eq/=. }
  destruct (bytesOf_ok vs Hvs) as (bs & -> & _). simpl. case_decide; [done|]. by repeat constructor.
Qed.

Ltac scalar := eapply decodes_ret; [apply decodeIntW_decodes|]; intros; by constructor.

Lemma decode_decodes c encoded : wf c → (∀ x, x ∈ slicesOf c → x ∈ slices) → decodes (hasType (getType c)) encoded (decode des mk c encoded).
Proof.
  revert encoded.
  induction c as [k e|cv c IH|cv c IH|n s e| |e|e| |c m IH|f s IHf IHs|n f IHf|c IH|fs IH| ] using codec_ind';
    intros encoded Hwf HS.
  - scalar.
  - eapply (decode_conv_decodes _ _ _ _ VInt TInt); [apply Hwf|]. intros z.
    constructor; [by apply wrapS_wrapS|done].
  - eapply (decode_conv_decodes _ _ _ _ VUint TUint); [apply Hwf|]. intros z.
    constructor; [by apply wrapU_wrapU|done].
  - eapply decodes_weaken; [apply decode_CBigInt_decodes|]. by intros v [? _].
  - eapply (decodes_ret _ _ _ _ (λ z, VBool (negb (Z.eqb z 0)))); [apply SafeDecode_decodes|by constructor].
  - scalar.
  - scalar.
  - scalar.
  - apply decode_CString_decodes; [|intros bs; apply IH];
    destruct c as [| | | | | | | | |[[]| | | | | | | | | | | | |] s| | | |]; try done.
  - destruct Hwf as (Hf & Hs). apply decode_CSlice_decodes; [apply HS; by left| |done]. intros bs. apply IHf; [done|]. intros x Hx. apply HS. by right.
  - eapply decodes_ret; [apply decodeEach_decodes; by auto|]. intros vs []. by constructor.
  - unfold_codec. eapply decodes_bind; [by apply IH|]. intros v rest Hv _.
    rewrite (reflectSet_typed _ _ Hv). split; [by apply HasPtr|done].
  - rewrite decode_CStruct. apply wf_CStruct in Hwf. eapply decodes_ret.
    + apply decodeFields_decodes. apply Forall_forall. intros f Hf bs.
      rewrite !Forall_forall in IH Hwf. apply IH; [done|by apply Hwf|]. intros x Hx. apply HS, elem_of_slicesOf_CStruct. eauto.
    + intros vs Hvs. by apply HasPtr, HasStruct.
  - split; [by apply HasStruct, Forall2_nil_2|done].
Qed.
End typed.

(** *** What the runtime allocates decides nothing else *)

(** The runtime gives up, or the outcome is that of one that never does. *)
Definition atMost {A} (r r' : outcome error A) : Prop := r = Panic ∨ r = r'.

Lemma atMost_bind {A B} (r r' : outcome error A) (k k' : A → outcome error B) :
  atMost r r' → (∀ x, atMost (k x) (k' x)) → atMost (obind r k) (obind r' k').
Proof. intros [-> | ->] Hk; [by left|]. destruct r'; [apply Hk|by right|by left]. Qed.

Lemma atMost_refl {A} (r : outcome error A) : atMost r r.
Proof. by right. Qed.

Lemma decodeEach_atMost dec dec' t n bs : (∀ bs, atMost (dec bs) (dec' bs)) → atMost (decodeEach dec t n bs) (decodeEach dec' t n bs).
Proof.
  intros Hd. revert bs. induction n as [|n IH]; intros bs; simpl; [apply atMost_refl|]. apply atMost_bind; [apply Hd|]. intros [v rest].
  apply atMost_bind; [apply atMost_refl|]. intros w. apply atMost_bind; [apply IH|]. intros []. apply atMost_refl.
Qed.

Lemma decode_atMost c bs : atMost (decode des mk c bs) (decode des (λ _ _, true) c bs).
Proof.
  revert bs. induction c as [k e|cv c IH|cv c IH|n s e| |e|e| |c m IH|f s IHf IHs|n f IHf|c IH|fs IH| ] using codec_ind'; intros bs;
    try apply atMost_refl; [| | | | | |rewrite !decode_CStruct]; unfold_codec.
  all: try (apply atMost_bind; [by apply IH|]; intros []; apply atMost_refl).
  - apply atMost_bind; [apply IHs|]. intros [v rest]. destruct v; try apply atMost_refl. case_decide; [apply atMost_refl|].
    destruct (mk (getType f) _); [|by left]. cbn [negb]. apply atMost_bind; [by apply decodeEach_atMost|]. intros []. apply atMost_refl.
  - apply atMost_bind; [by apply decodeEach_atMost|]. intros []. apply atMost_refl.
  - apply atMost_bind; [|intros []; apply atMost_refl]. revert bs. induction IH as [|[n c] fs Hc _ IHfs]; intros bs; simpl; [apply atMost_refl|].
    apply atMost_bind; [apply Hc|]. intros [v rest]. apply atMost_bind; [apply atMost_refl|]. intros w. apply atMost_bind; [apply IHfs|]. intros []. apply atMost_refl.
Qed.

(** *** Round trip *)

(** [c] encodes [v] as [bs], and decoding [bs] restores [v]. *)
Definition codes (c : codec) (v : govalue) (bs : list byte) : Prop :=
  encode ser c v [] = Ok bs ∧ ∀ rest, decode des mk c (bs ++ rest) = Ok (v, rest).

Lemma codes_encode c v bs into : codes c v bs → encode ser c v into = Ok (into ++ bs).
Proof. intros [H _]. by rewrite encode_app H. Qed.

Lemma SafeDecode_app {T} n bs rest (call : list byte → T) :
  length bs = n → SafeDecode (bs ++ rest) n call = Ok (call bs, rest).
Proof.
  intros <-. rewrite /SafeDecode. case_decide as H; [rewrite length_app in H; lia|].
  by rewrite take_app_length drop_app_length.
Qed.

Lemma length_putUint e n z : length (putUint e n z) = n.
Proof. destruct e; auto with go. Qed.

Lemma getUint_putUint e n z : getUint e (putUint e n z) = wrapU (8 * Z.of_nat n) z.
Proof. destruct e; [apply be_val_bytes|apply le_val_bytes]. Qed.

Lemma wrapK_wrapU k z : wrapK k (wrapU (kindBits k) z) = wrapK k z.
Proof. rewrite /wrapK. destruct (kindSigned k); [apply wrapS_wrapU; by destruct k|apply wrapU_wrapU]. Qed.

Lemma decodeIntW_put k e z rest :
  wrapK k z = z → decodeIntW k e (putUint e (kindBytes k) (wrapU (kindBits k) z) ++ rest) = Ok (z, rest).
Proof.
  intros Hz. rewrite /decodeIntW SafeDecode_app; [|apply length_putUint].
  by rewrite getUint_putUint -/(kindBits k) wrapU_wrapU wrapK_wrapU Hz.
Qed.

Lemma codes_CIntW k e z : wrapK k z = z → codes (CIntW k e) (VIntW k z) (putUint e (kindBytes k) (wrapU (kindBits k) z)).
Proof.
  intros Hz. split; [by destruct k|]. intros rest. unfold_codec. by rewrite decodeIntW_put.
Qed.

Lemma order_involutive e (b : list byte) :
  let f := λ b : list byte, match e with BigEndian => b | LittleEndian => reverse b end in f (f b) = b.
Proof. destruct e; [done|apply reverse_involutive]. Qed.

Lemma length_order e (b : list byte) : length (match e with BigEndian => b | LittleEndian => reverse b end) = length b.
Proof. destruct e; [done|apply length_reverse]. Qed.

Lemma codes_CBigInt_signed n e z b :
  ser n z = Some b → ∃ bs, codes (CBigInt n true e) (VPtr TBig (Some (VBig z))) bs.
Proof.
  intros Hb. eexists. split; [by rewrite /= /serializeSigned Hb|]. intros rest. simpl.
  rewrite SafeDecode_app; [|rewrite length_order; by eapply ser_length].
  rewrite /= /deserializeSigned order_involutive. by rewrite (des_ser _ _ _ Hb).
Qed.

Lemma bitLen_le z w : (0 <= w)%Z → (bitLen z <= w)%Z ↔ (Z.abs z < 2 ^ w)%Z.
Proof.
  intros Hw. rewrite /bitLen. case_decide; [subst; split; [intros _; by apply Z.pow_pos_nonneg|done]|].
  rewrite (Z.log2_lt_pow2 (Z.abs z)); lia.
Qed.

Lemma codes_CBigInt_unsigned n e z :
  inU (8 * Z.of_nat n) z → ∃ bs, codes (CBigInt n false e) (VPtr TBig (Some (VBig z))) bs.
Proof.
  intros [??]. eexists. split.
  { rewrite /= /serializeUnsigned. case_decide; [lia|]. case_decide as Hl; [|done].
    exfalso. apply Z.lt_nge in Hl. apply Hl, bitLen_le; [lia|].
    replace (Z.of_nat n * 8)%Z with (8 * Z.of_nat n)%Z; lia. }
  intros rest. simpl. rewrite SafeDecode_app; [|rewrite length_order; apply length_be_bytes].
  rewrite /= /deserializeUnsigned order_involutive be_val_bytes Z.mod_small; done.
Qed.

Lemma codes_conv signed conv c z wrap :
  convOK signed conv c → fits ser mk c (fromInt conv z) → fitsInt conv z → wrap z = z →
  ∃ bs, encode ser c (fromInt conv z) [] = Ok bs ∧
        ∀ rest, (let? (v, r) := decode des mk c (bs ++ rest) in let? i := toInt wrap conv v in Ok (i, r))
                = Ok (z, rest) :> outcome error _.
Proof.
  intros Hc Hf Hz Hw. destruct conv as [k|], c as [k' e| | |n s e| | | | | | | | | |]; simpl in Hc; try done.
  - destruct Hc as [<- _]. simpl in Hz. destruct (codes_CIntW k e z Hz) as [He Hd].
    rewrite /fromInt Hz. eexists. split; [exact He|]. intros rest. rewrite Hd /= Hw.
    by destruct k.
  - destruct Hc as [_ Hn]. assert (∃ bs, codes (CBigInt n s e) (VPtr TBig (Some (VBig z))) bs) as (bs & He & Hd).
    { destruct s; simpl in Hf.
      - destruct Hf as (z' & b & [= <-] & Hb). by eapply codes_CBigInt_signed.
      - destruct Hf as (z' & [= <-] & Hb). by apply codes_CBigInt_unsigned. }
    exists bs. split; [exact He|]. intros rest. by rewrite Hd /= Hw.
Qed.

Lemma codes_each f vs :
  Forall (λ w, (∃ bs, codes f w bs) ∧ hasType (getType f) w) vs →
  ∃ bs, encodeEach (encode ser f) vs [] = Ok bs ∧
        ∀ rest, decodeEach (decode des mk f) (getType f) (length vs) (bs ++ rest) = Ok (vs, rest).
Proof.
  induction 1 as [|v vs [(b & He & Hd) Ht] _ (bs & IHe & IHd)]; [by exists []|].
  exists (b ++ bs). split.
  - cbn [encodeEach]. rewrite He obind_ok encodeEach_app; [by rewrite IHe|]. intros; apply encode_app.
  - intros rest. cbn [length decodeEach]. rewrite -assoc Hd obind_ok (reflectSet_typed _ _ Ht) obind_ok IHd //.
Qed.

Lemma codes_fields fs vs :
  Forall2 (λ f w, (∃ bs, codes f.2 w bs) ∧ hasType (getType f.2) w) fs vs →
  ∃ bs, encodeFields ser fs vs [] = Ok bs ∧ ∀ rest, decodeFields des mk fs (bs ++ rest) = Ok (vs, rest).
Proof.
  induction 1 as [|[n c] v fs vs [(b & He & Hd) Ht] _ (bs & IHe & IHd)]; [by exists []|]. simpl in *.
  exists (b ++ bs). split.
  - rewrite He obind_ok encodeFields_app; [by rewrite IHe|].
    apply Forall_forall. intros; apply encode_app.
  - intros rest. rewrite -assoc Hd obind_ok (reflectSet_typed _ _ Ht) obind_ok IHd //.
Qed.

(** [wf] without the bound on the slice header, which only matters for
    hostile input. *)
Fixpoint wfEnc (c : codec) : Prop :=
  match c with
  | CInt conv c => convOK true conv c
  | CUint conv c => convOK false conv c
  | CBigInt n _ _ => 0 < n
  | CString (CSlice (CIntW U8 _) s) m => wfEnc s
  | CString _ _ => False
  | CSlice f s => wfEnc f ∧ wfEnc s
  | CArray _ f => wfEnc f
  | CNotNil c => wfEnc c
  | CStruct fs =>
      (fix go (fs : list (string * codec)) : Prop :=
         match fs with [] => True | (_, c) :: fs => wfEnc c ∧ go fs end) fs
  | _ => True
  end.

Lemma wfEnc_CStruct fs : wfEnc (CStruct fs) ↔ Forall (λ f, wfEnc f.2) fs.
Proof. simpl. induction fs as [|[n c] fs IH]; [by split; constructor|]. rewrite Forall_cons IH //. Qed.

Lemma encode_CString c m str into :
  encode ser (CString c m) (VString str) into =
  if decide (m < Z.of_nat (length str))%Z then Err ErrInvalidType
  else encode ser c (VSlice (TIntW U8) ((λ b, VIntW U8 (Z_of_byte b)) <$> str)) into.
Proof. done. Qed.

Lemma decode_CString c m encoded :
  decode des mk (CString c m) encoded =
  let? (bytes, rest) := decode des mk c encoded in
  let? sVal := match bytes with VSlice (TIntW U8) vs => bytesOf vs | _ => Panic end in
  if decide (m < Z.of_nat (length sVal))%Z then Err ErrInvalidEncoding else Ok (VString sVal, rest).
Proof. done. Qed.

Lemma bytesOf_bytes str : bytesOf ((λ b, VIntW U8 (Z_of_byte b)) <$> str) = Ok str.
Proof. induction str as [|b str IH]; [done|]. simpl. by rewrite IH /= byte_of_Z_of_byte. Qed.

Lemma codes_conv_top signed conv c z wrap (con : Z → govalue) (top : codec) :
  convOK signed conv c → fits ser mk c (fromInt conv z) → fitsInt conv z → wrap z = z →
  encode ser top (con z) [] = encode ser c (fromInt conv z) [] →
  (∀ bs, decode des mk top bs = let? (v, r) := decode des mk c bs in let? i := toInt wrap conv v in Ok (con i, r)) →
  ∃ bs, codes top (con z) bs.
Proof.
  intros Hc Hf Hz Hw He Hd. destruct (codes_conv _ _ _ _ wrap Hc Hf Hz Hw) as (bs & Hebs & Hdbs).
  exists bs. split; [by rewrite He|]. intros rest. rewrite Hd. specialize (Hdbs rest).
  destruct (decode des mk c (bs ++ rest)) as [[v r]| |]; simpl in *; [|done..].
  by destruct (toInt wrap conv v); simplify_eq/=.
Qed.

Lemma codes_CSlice f s vs fs :
  Forall (λ w, (∃ bs, codes f w bs) ∧ hasType (getType f) w) vs →
  getType s = TInt → (∃ bs, codes s (VInt (Z.of_nat (length vs))) bs) →
  fixedSize s = Ok fs → (Z.of_nat (length vs) <= 2 ^ wrapU 64 (intMul fs 8))%Z →
  mk (getType f) (Z.of_nat (length vs)) = true →
  ∃ bs, codes (CSlice f s) (VSlice (getType f) vs) bs.
Proof.
  intros Hvs Ht (hd & Heh & Hdh) Hfs Hmax Hmk. destruct (codes_each f vs Hvs) as (bs & He & Hd).
  exists (hd ++ bs). split.
  - unfold_codec; cbn [elements_of]. rewrite Hfs obind_ok Z.shiftl_1_l.
    case_decide; [lia|]. rewrite Ht /= Heh /=.
    rewrite encodeEach_app; [by rewrite He|]. intros; apply encode_app.
  - intros rest. unfold_codec. rewrite -assoc Hdh obind_ok. case_decide; [lia|].
    rewrite Hmk /= Nat2Z.id Hd //.
Qed.

Lemma roundtrip_codes c v : wfEnc c → fits ser mk c v → ∃ bs, codes c v bs.
Proof.
  revert v.
  induction c as [k e|cv c IH|cv c IH|n s e| |e|e| |c m IH|f s IHf IHs|n f IHf|c IH|fs IH| ] using codec_ind';
    intros v Hwf Hf; [| | | | | | | | | | | |apply fits_CStruct in Hf|].
  - destruct Hf as (z & -> & Hz). eexists. by apply codes_CIntW.
  - destruct Hf as (z & -> & Hw & Hz & Hf).
    by eapply (codes_conv_top _ cv c z (wrapS 64) VInt).
  - destruct Hf as (z & -> & Hw & Hz & Hf).
    by eapply (codes_conv_top _ cv c z (wrapU 64) VUint).
  - destruct s.
    + destruct Hf as (z & b & -> & Hb). by eapply codes_CBigInt_signed.
    + destruct Hf as (z & -> & Hb). by apply codes_CBigInt_unsigned.
  - destruct Hf as (b & ->). eexists. split; [done|]. intros rest. by destruct b.
  - destruct Hf as (z & -> & Hz). destruct (codes_CIntW U32 e z Hz) as [He Hd].
    eexists. split; [exact He|]. intros rest. unfold_codec. by rewrite (decodeIntW_put U32).
  - destruct Hf as (z & -> & Hz). destruct (codes_CIntW U64 e z Hz) as [He Hd].
    eexists. split; [exact He|]. intros rest. unfold_codec. by rewrite (decodeIntW_put U64).
  - destruct Hf as (z & -> & Hz). destruct (codes_CIntW U8 BigEndian z Hz) as [He Hd].
    eexists. split; [exact He|]. intros rest. unfold_codec. by rewrite (decodeIntW_put U8).
  - destruct Hf as (str & -> & Hl & Hf).
    destruct c as [| | | | | | | | |[[]| | | | | | | | | | | | |] s| | | |]; try done.
    destruct (IH _ (conj I Hwf) Hf) as (bs & He & Hd). exists bs. split.
    + rewrite encode_CString. case_decide; [lia|]. exact He.
    + intros rest. rewrite decode_CString Hd obind_ok bytesOf_bytes obind_ok.
      case_decide; [lia|done].
  - destruct Hf as (vs & -> & Hvs & Ht & Hs & (fs & Hfs & Hmax) & Hmk). destruct Hwf as [Hwf Hwfs].
    eapply codes_CSlice; try done; [|by apply IHs].
    eapply Forall_impl; [exact Hvs|]. intros w [??]. by auto.
  - destruct Hf as (vs & -> & <- & Hvs). simpl in Hwf. destruct (codes_each f vs) as (bs & He & Hd).
    { eapply Forall_impl; [exact Hvs|]. intros w [??]. by auto. }
    exists bs. split; [unfold_codec; cbn [elements_of]; case_decide; done|]. intros rest. unfold_codec. by rewrite Hd.
  - destruct Hf as (w & -> & Hf & Ht). destruct (IH w Hwf Hf) as (bs & He & Hd). exists bs.
    split; [done|]. intros rest. unfold_codec. by rewrite Hd obind_ok (reflectSet_typed _ _ Ht).
  - destruct Hf as (vs & -> & Hvs). apply wfEnc_CStruct in Hwf.
    destruct (codes_fields fs vs) as (bs & He & Hd).
    { clear -IH Hwf Hvs. induction Hvs as [|[n c] v fs vs [Hv Ht] Hvs IHvs]; [constructor|].
      inversion IH; inversion Hwf; subst. constructor; [by auto|by apply IHvs]. }
    exists bs. split; [|intros rest; by rewrite decode_CStruct Hd].
    rewrite encode_CStruct. cbn [typeOf]. by rewrite gotype_eqb_refl.
  - simpl in Hf. subst v. exists []. done.
Qed.

(** *** Sizes *)

(** [n] is the number of bytes [c] appends for [v], as a Go [int]. *)
Definition encSize (c : codec) (v : govalue) (n : Z) : Prop :=
  ∀ bs, encode ser c v [] = Ok bs → n = wrapS 64 (Z.of_nat (length bs)).

Lemma intAdd_wrap a b : intAdd (wrapS 64 a) (wrapS 64 b) = wrapS 64 (a + b).
Proof. by apply wrapS_add. Qed.

Lemma intMul_wrap a b : intMul (wrapS 64 a) b = wrapS 64 (a * b).
Proof. by apply wrapS_mul. Qed.

Lemma encodeEach_size f fs vs n :
  Forall (λ v, encSize f v fs) vs → n = intMul fs (Z.of_nat (length vs)) →
  ∀ bs, encodeEach (encode ser f) vs [] = Ok bs → n = wrapS 64 (Z.of_nat (length bs)).
Proof.
  intros Hvs ->. induction Hvs as [|v vs Hv _ IH]; intros bs H; simpl in H.
  { simplify_eq/=. by rewrite /intMul Z.mul_0_r. }
  apply obind_Ok_inv in H as (b & Hb & H).
  rewrite encodeEach_app in H; [|intros; apply encode_app].
  apply obind_Ok_inv in H as (bs' & Hbs' & [= <-]). specialize (IH _ Hbs'). specialize (Hv _ Hb).
  rewrite length_app Nat2Z.inj_add -intAdd_wrap -IH Hv !intMul_wrap intAdd_wrap. f_equal. cbn [length]. lia.
Qed.

Lemma encodeFields_size (sz : codec → outcome error Z) fs vs n acc :
  Forall2 (λ f v, ∀ m, sz f.2 = Ok m → encSize f.2 v m) fs vs →
  foldr (λ f k acc, let? m := sz f.2 in k (intAdd acc m)) Ok fs (wrapS 64 acc) = Ok n →
  ∀ bs, encodeFields ser fs vs [] = Ok bs → n = wrapS 64 (acc + Z.of_nat (length bs)).
Proof.
  intros Hfs. revert acc n. induction Hfs as [|[nm c] v fs vs Hc _ IH]; intros acc n Hn bs H; simpl in *.
  { simplify_eq/=. by rewrite Z.add_0_r. }
  apply obind_Ok_inv in H as (b & Hb & H).
  rewrite encodeFields_app in H; [|apply Forall_forall; intros; apply encode_app].
  apply obind_Ok_inv in H as (bs' & Hbs' & [= <-]).
  apply obind_Ok_inv in Hn as (m & Hm & Hn). rewrite (Hc _ Hm _ Hb) intAdd_wrap in Hn.
  rewrite (IH _ _ Hn _ Hbs') length_app. f_equal. lia.
Qed.

Lemma fixedFields_foldr fs acc :
  fixedFields fs acc = foldr (λ f k acc, let? m := fixedSize f.2 in k (intAdd acc m)) Ok fs acc.
Proof. revert acc. induction fs as [|[n c] fs IH]; intros acc; [done|]. simpl. destruct (fixedSize c); simpl; auto. Qed.

Lemma sizeFields_foldr fs items acc :
  sizeFields fs items acc = foldr (λ f k acc, let? m := size f.2 items in k (intAdd acc m)) Ok fs acc.
Proof. revert acc. induction fs as [|[n c] fs IH]; intros acc; [done|]. simpl. destruct (size c items); simpl; auto. Qed.

Lemma encodeIntW_size k e v bs : encodeIntW k e v [] = Ok bs → length bs = kindBytes k.
Proof.
  destruct v; simpl; try done. destruct (match k with I8 => _ | _ => _ end); [|done].
  intros [= <-]. apply length_putUint.
Qed.

Lemma encodeFields_short fs vs bs into : encodeFields ser fs vs into = Ok bs → length fs ≤ length vs.
Proof.
  revert vs into. induction fs as [|[n c] fs IH]; intros vs into; simpl; [lia|].
  destruct vs as [|v vs]; [done|]. intros (? & _ & H)%obind_Ok_inv. apply IH in H. simpl. lia.
Qed.

Lemma encodeFields_take fs vs into : encodeFields ser fs vs into = encodeFields ser fs (take (length fs) vs) into.
Proof.
  revert vs into. induction fs as [|[n c] fs IH]; intros vs into; simpl; [done|].
  destruct vs as [|v vs]; [done|]. simpl. destruct (encode ser c v into); simpl; auto.
Qed.

Lemma encodeBigInt_size n s e v bs : encodeBigInt ser n s e v [] = Ok bs → length bs = n.
Proof.
  rewrite /encodeBigInt. destruct v as [| | | | | | | | | |[] [[]|]| | |]; try done.
  intros (b & Hb & [= <-])%obind_Ok_inv. simpl. destruct s.
  - apply obind_Ok_inv in Hb as (b' & Hb' & [= <-]). rewrite length_order.
    destruct (ser n z) eqn:E; simplify_eq/=. by eapply ser_length.
  - rewrite /serializeUnsigned in Hb. repeat case_decide; simplify_eq. rewrite length_order. apply length_be_bytes.
Qed.

Lemma fixedSize_encSize c v n : fixedSize c = Ok n → encSize c v n.
Proof.
  revert v n.
  induction c as [k e|cv c IH|cv c IH|m s e| |e|e| |c m IH|f s IHf IHs|m f IHf|c IH|fs IH| ] using codec_ind';
    intros v n Hn bs Hbs.
  - simpl in Hn. simplify_eq. apply encodeIntW_size in Hbs as ->. by destruct k.
  - destruct v; try done. by eapply IH.
  - destruct v; try done. by eapply IH.
  - simpl in Hn. simplify_eq. by apply encodeBigInt_size in Hbs as ->.
  - by destruct v; simplify_eq/=.
  - by destruct v; simplify_eq/=; destruct e.
  - by destruct v; simplify_eq/=; destruct e.
  - by destruct v; simplify_eq/=.
  - done.
  - done.
  - simpl in Hn. apply obind_Ok_inv in Hn as (fz & Hfz & [= <-]). unfold_codec_in Hbs.
    destruct (elements_of v) as [vs|]; [|done]. case_decide as Hm; [done|].
    assert (length vs = m) as <- by lia. eapply encodeEach_size; [|done..].
    apply Forall_forall. intros w _. by apply IHf.
  - destruct v as [| | | | | | | | | |? [w|]| | |]; try done. by eapply IH.
  - rewrite fixedSize_CStruct fixedFields_foldr in Hn. rewrite encode_CStruct in Hbs.
    destruct (typeOf v); [|done]. destruct (negb _); [done|].
    pose proof (encodeFields_short _ _ _ _ Hbs). rewrite encodeFields_take in Hbs.
    eapply (encodeFields_size fixedSize _ _ _ 0%Z) in Hbs; [by rewrite Z.add_0_l in Hbs| |done].
    apply Forall2_same_length_lookup_2; [rewrite length_take; lia|].
    intros i f w Hf Hw. rewrite Forall_forall in IH. intros m. apply IH. by eapply list_elem_of_lookup_2.
  - by simplify_eq/=.
Qed.

(** The slices of [v] that [c] sizes at top level hold [items] elements. *)
Fixpoint itemsOf (c : codec) (v : govalue) (items : Z) : Prop :=
  match c with
  | CSlice _ _ => ∀ vs, elements_of v = Some vs → Z.of_nat (length vs) = items
  | CNotNil c => ∀ t w, v = VPtr t (Some w) → itemsOf c w items
  | _ => True
  end.

Lemma size_encSize c v items n :
  wfEnc c → itemsOf c v items → size c items = Ok n → encSize c v n.
Proof.
  revert v n.
  induction c as [k e|cv c _|cv c _|m s e| |e|e| |c m _|f s _ _|m f _|c IH|fs _| ] using codec_ind';
    intros v n Hwf Hi Hn; try (by apply fixedSize_encSize); try done.
  - assert (fixedSize (CInt cv c) = Ok n) as Hn'; [|by apply fixedSize_encSize].
    simpl in *. by destruct cv, c.
  - assert (fixedSize (CUint cv c) = Ok n) as Hn'; [|by apply fixedSize_encSize].
    simpl in *. by destruct cv, c.
  - simpl in Hn. apply obind_Ok_inv in Hn as (sz & Hsz & (fz & Hfz & [= <-])%obind_Ok_inv).
    intros bs Hbs. unfold_codec_in Hbs. destruct (elements_of v) as [vs|] eqn:Hv; [|done].
    specialize (Hi _ Hv). apply obind_Ok_inv in Hbs as (? & _ & Hbs). case_decide; [done|].
    apply obind_Ok_inv in Hbs as (l & _ & (hd & Hhd & Hbs)%obind_Ok_inv).
    rewrite encodeEach_app in Hbs; [|intros; apply encode_app].
    apply obind_Ok_inv in Hbs as (b & Hb & [= <-]).
    rewrite (fixedSize_encSize _ _ _ Hsz _ Hhd) length_app Nat2Z.inj_add -intAdd_wrap. f_equal.
    apply (encodeEach_size f fz vs); [|by rewrite Hi|done].
    apply Forall_forall. intros w _. by apply fixedSize_encSize.
  - intros bs Hbs. destruct v as [| | | | | | | | | |? [w|]| | |]; try done.
    eapply IH; [done|by eapply Hi|done|done].
Qed.

(** ** Properties *)

(** C8: the codecs are lossless on the values they represent: encoding
    appends some bytes to the buffer, and decoding those bytes, whatever
    follows them, restores the value and leaves what follows. *)
Theorem encode_decode c v into :
  wfEnc c → fits ser mk c v →
  ∃ bs, encode ser c v into = Ok (into ++ bs) ∧
        ∀ rest, decode des mk c (bs ++ rest) = Ok (v, rest).
Proof.
  intros Hwf Hf. destruct (roundtrip_codes c v Hwf Hf) as (bs & Hbs). exists bs.
  split; [by apply codes_encode|apply Hbs].
Qed.

(** C40: decoding arbitrary bytes is type safe, whatever the runtime can allocate.
    A decoded value has the codec's type in all its parts, and the remaining bytes
    are a suffix of the input.  Decoding panics only if one of the codec's slices
    finds, somewhere in the input, a header announcing as many elements as the
    runtime refuses to allocate; short of that panic the runtime's limits change
    nothing, and a runtime that refuses nothing never panics. *)
Theorem decode_typed c encoded :
  wf c →
  match decode des mk c encoded with
  | Ok (v, rest) => hasType (getType c) v ∧ rest `suffix_of` encoded
  | Err _ => True
  | Panic => ∃ f s here n rest, (f, s) ∈ slicesOf c ∧ here `suffix_of` encoded ∧ decode des mk s here = Ok (VInt n, rest) ∧
               (0 <= n < 2 ^ 63)%Z ∧ mk (getType f) n = false
  end ∧
  (decode des mk c encoded ≠ Panic → decode des mk c encoded = decode des (λ _ _, true) c encoded).
Proof. intros Hwf. split; [by apply (decode_decodes (slicesOf c))|]. intros Hp. by destruct (decode_atMost c encoded). Qed.

(** The size a codec announces is the number of bytes it appends:
    [FixedSize] for every value, and [GetMaxEncodingSize] for values whose
    top-level slices hold the announced number of items. *)
Theorem size_exact c v into out n items :
  wfEnc c → encode ser c v into = Ok out →
  (fixedSize c = Ok n ∨
   match c with
   | CStruct fs => Forall2 (λ f v, itemsOf f.2 v items) fs (structValues v)
   | _ => itemsOf c v items
   end ∧ GetMaxEncodingSize c items = Ok n) →
  n = wrapS 64 (Z.of_nat (length out) - Z.of_nat (length into)).
Proof.
  intros Hwf He Hn. rewrite encode_app in He. apply obind_Ok_inv in He as (bs & Hbs & [= <-]).
  rewrite length_app Nat2Z.inj_add Z.add_simpl_l. destruct Hn as [Hn|[Hi Hn]]; [by eapply fixedSize_encSize|].
  destruct c; try (by eapply size_encSize). apply wfEnc_CStruct in Hwf.
  rewrite encode_CStruct in Hbs. destruct (typeOf v); [|done]. destruct (negb _); [done|].
  rewrite /GetMaxEncodingSize sizeFields_foldr in Hn.
  eapply (encodeFields_size (λ c, size c items) _ _ _ 0%Z) in Hbs; [by rewrite Z.add_0_l in Hbs| |done].
  clear -Hwf Hi ser_length. induction Hi as [|f w fs ws Hf _ IH]; [constructor|].
  inversion Hwf; subst. constructor; [intros m; by apply size_encSize|by apply IH].
Qed.

Lemma codes_bytes e str :
  ∃ bs, encodeEach (encode ser (CIntW U8 e)) ((λ b, VIntW U8 (Z_of_byte b)) <$> str) [] = Ok bs.
Proof.
  destruct (codes_each (CIntW U8 e) ((λ b, VIntW U8 (Z_of_byte b)) <$> str)) as (bs & H & _); [|by eexists].
  apply Forall_fmap, Forall_true. intros b. simpl.
  assert (wrapK U8 (Z_of_byte b) = Z_of_byte b) as Hb by (apply wrapU_small, Z_of_byte_range).
  split; [eexists; by apply codes_CIntW|by apply HasScalar].
Qed.

Lemma encode_I8_header e n :
  encode ser (CInt (ConvW I8) (CIntW I8 e)) (VInt n) [] = Ok (putUint e 1 (wrapU 8 (wrapS 8 n))).
Proof. done. Qed.

Lemma decode_I8_header e n rest :
  decode des mk (CInt (ConvW I8) (CIntW I8 e)) (putUint e 1 (wrapU 8 (wrapS 8 n)) ++ rest)
  = Ok (VInt (wrapS 64 (wrapS 8 n)), rest).
Proof.
  unfold_codec. change (putUint e 1 (wrapU 8 (wrapS 8 n))) with (putUint e (kindBytes I8) (wrapU (kindBits I8) (wrapS 8 n))).
  rewrite decodeIntW_put; [done|]. by apply wrapS_wrapS.
Qed.

Lemma encode_CSlice f s t vs into :
  encode ser (CSlice f s) (VSlice t vs) into =
  let? fs := fixedSize s in
  if decide (Z.shiftl 1 (wrapU 64 (intMul fs 8)) < Z.of_nat (length vs))%Z then Err ErrSliceWrongLen
  else let? l := convertLen (getType s) (Z.of_nat (length vs)) in
       let? into := encode ser s l into in encodeEach (encode ser f) vs into.
Proof. done. Qed.

Lemma decode_CSlice f s encoded :
  decode des mk (CSlice f s) encoded =
  let? (size, remaining) := decode des mk s encoded in
  match size with
  | VInt n =>
      if decide (n < 0)%Z then Err ErrInvalidEncoding
      else if negb (mk (getType f) n) then Panic
      else let? (vs, remaining) := decodeEach (decode des mk f) (getType f) (Z.to_nat n) remaining in
           Ok (VSlice (getType f) vs, remaining)
  | _ => Err ErrInternal
  end.
Proof. done. Qed.

(** A string codec built for at most 255 bytes encodes strings of 128 to
    255 bytes that it then refuses to decode: the header is one byte wide,
    chosen for the unsigned length, but is read as a signed integer. *)
Theorem NewString_255_refuses_own_encoding MaxSize e str :
  128 ≤ length str ≤ 255 →
  ∃ c bs, NewString MaxSize e 255 = Ok c ∧
          encode ser c (VString str) [] = Ok bs ∧
          decode des mk c bs = Err ErrInvalidEncoding.
Proof.
  intros Hl. destruct (codes_bytes e str) as (bs & Hbs).
  set (c := CSlice (CIntW U8 e) (CInt (ConvW I8) (CIntW I8 e))).
  set (hd := putUint e 1 (wrapU 8 (wrapS 8 (Z.of_nat (length str))))).
  set (vs := (λ b, VIntW U8 (Z_of_byte b)) <$> str) in *.
  assert (encode ser c (VSlice (TIntW U8) vs) [] = Ok (hd ++ bs)) as He.
  { rewrite encode_CSlice length_fmap. change (fixedSize _) with (Ok 1%Z : outcome error Z). rewrite obind_ok.
    change (Z.shiftl 1 (wrapU 64 (intMul 1 8))) with 256%Z. case_decide; [lia|].
    cbn [getType convertLen]. rewrite obind_ok encode_I8_header obind_ok.
    rewrite encodeEach_app; [|intros; apply encode_app]. by rewrite Hbs. }
  assert (decode des mk c (hd ++ bs) = Err ErrInvalidEncoding) as Hd.
  { rewrite decode_CSlice decode_I8_header obind_ok. case_decide as Hs; [done|]. exfalso. apply Hs.
    destruct (wrapS_eq 8 (Z.of_nat (length str)) ltac:(done)) as [k Hk].
    pose proof (wrapS_range 8 (Z.of_nat (length str)) ltac:(done)) as [H1 H2].
    rewrite wrapS_small; [lia|done|]. rewrite /inS. lia. }
  exists (CString c 255), (hd ++ bs). split; [done|]. split.
  - rewrite encode_CString. case_decide; [lia|exact He].
  - by rewrite decode_CString Hd.
Qed.

(** A slice codec with an eight-byte header allocates the announced
    number of elements before it looks at the rest of the input: it panics
    whenever the runtime cannot allocate that many, however short the input
    is. *)
Theorem decode_slice_alloc_panics f e n rest :
  (0 <= n < 2 ^ 63)%Z → mk (getType f) n = false →
  decode des mk (CSlice f (CInt (ConvW I64) (CIntW I64 e))) (putUint e 8 n ++ rest) = Panic.
Proof.
  intros Hn Hmk. assert (wrapS 64 n = n) as Hw by (apply wrapS_small; [done|rewrite /inS; lia]).
  assert (wrapU 64 n = n) as Hu by (apply wrapU_small; rewrite /inU; lia).
  unfold_codec. rewrite -{1}Hu (decodeIntW_put I64 e n); [|done]. cbn. rewrite Hw.
  case_decide; [lia|]. by rewrite Hmk.
Qed.
End guarantees.

(** ** Instances *)

(** A signed serialiser with the documented behaviour of bigbigendian. *)
Definition exampleSer (n : nat) (i : Z) : option (list byte) :=
  if decide (0 < n ∧ inS (8 * Z.of_nat n) i) then Some (be_bytes n (wrapU (8 * Z.of_nat n) i)) else None.
Definition exampleDes (n : nat) (b : list byte) : option Z :=
  if decide (0 < n ∧ length b = n) then Some (wrapS (8 * Z.of_nat n) (be_val b)) else None.
(** A runtime that can allocate up to 2^40 elements. *)
Definition exampleMake (t : gotype) (n : Z) : bool := Z.leb n (2 ^ 40).

Lemma exampleSer_length n i b : exampleSer n i = Some b → length b = n.
Proof. rewrite /exampleSer. case_decide; [|done]. intros [= <-]. apply length_be_bytes. Qed.

Lemma exampleDes_ser n i b : exampleSer n i = Some b → exampleDes n b = Some i.
Proof.
  rewrite /exampleSer /exampleDes. case_decide as H; [|done]. intros [= <-].
  case_decide as H'; [|rewrite length_be_bytes in H'; naive_solver].
  rewrite be_val_bytes. fold (wrapU (8 * Z.of_nat n) (wrapU (8 * Z.of_nat n) i)).
  rewrite wrapU_wrapU wrapS_wrapU; [|lia]. f_equal. apply wrapS_small; [lia|apply H].
Qed.

Lemma exampleDes_total n b : 0 < n → length b = n → is_Some (exampleDes n b).
Proof. intros. rewrite /exampleDes. case_decide; [by eexists|naive_solver]. Qed.

Lemma exampleDes_range n b z : 0 < n → exampleDes n b = Some z → inS (8 * Z.of_nat n) z.
Proof. rewrite /exampleDes. case_decide; [|done]. intros ? [= <-]. apply wrapS_range. lia. Qed.

(** A struct of a price in three bytes, a flag and a short list. *)
Definition exampleCodec : codec :=
  CStruct [("Price"%string, CBigInt 3 true BigEndian); ("Live"%string, CNotNil CBool);
           ("Ids"%string, CNotNil (CSlice (CIntW U16 LittleEndian) (CInt (ConvW I8) (CIntW I8 BigEndian))))].
Definition exampleValue : govalue :=
  let ts := fieldTypes [("Price"%string, CBigInt 3 true BigEndian); ("Live"%string, CNotNil CBool);
           ("Ids"%string, CNotNil (CSlice (CIntW U16 LittleEndian) (CInt (ConvW I8) (CIntW I8 BigEndian))))] in
  VPtr (TStruct ts) (Some (VStruct ts
    [VPtr TBig (Some (VBig (-5))); VPtr TBool (Some (VBool true));
     VPtr (TSlice (TIntW U16)) (Some (VSlice (TIntW U16) [VIntW U16 7; VIntW U16 300]))])).

Lemma exampleValue_fits : fits exampleSer exampleMake exampleCodec exampleValue.
Proof.
  apply fits_CStruct. eexists. split; [done|]. repeat apply Forall2_cons_2; [..|apply Forall2_nil_2].
  - split; [|by apply HasPtr, HasScalar]. eexists _, _. split; [done|]. vm_compute. done.
  - split; [|by apply HasPtr, HasScalar]. eexists. split; [done|]. split; [by eexists|by apply HasScalar].
  - assert (Forall (λ w, fits exampleSer exampleMake (CIntW U16 LittleEndian) w ∧ hasType (TIntW U16) w) [VIntW U16 7; VIntW U16 300]) as Hvs.
    { repeat constructor; try (eexists; split; [done|]); done. }
    assert (hasType (TSlice (TIntW U16)) (VSlice (TIntW U16) [VIntW U16 7; VIntW U16 300])) as Ht.
    { apply HasSlice. eapply Forall_impl; [exact Hvs|]. by intros w [_ ?]. }
    split; [|by apply HasPtr]. eexists. split; [done|]. split; [|exact Ht].
    eexists. split; [done|]. split; [exact Hvs|]. split; [done|]. split.
    + eexists. split; [done|]. split; [done|]. split; [done|]. by eexists.
    + split; [|done]. eexists. split; [done|]. vm_compute. done.
Qed.

Lemma encode_decode_witness :
  ∃ bs, encode exampleSer exampleCodec exampleValue [x01] = Ok ([x01] ++ bs) ∧
        ∀ rest, decode exampleDes exampleMake exampleCodec (bs ++ rest) = Ok (exampleValue, rest).
Proof.
  apply (encode_decode exampleSer exampleDes exampleMake exampleSer_length exampleDes_ser).
  - simpl. repeat split; lia.
  - apply exampleValue_fits.
Defined.

(** A header that announces too much, and a runtime that allocates three elements. *)
Lemma decode_typed_witness :
  match decode exampleDes exampleMake exampleCodec [xff; xff; xfb; x01; x01; x07; x00] with
  | Ok (v, rest) => hasType (getType exampleCodec) v ∧ rest `suffix_of` [xff; xff; xfb; x01; x01; x07; x00]
  | _ => False
  end ∧
  decode exampleDes (λ _ n, Z.leb n 3) (CSlice CBool (CInt (ConvW I64) (CIntW I64 BigEndian))) [x00; x00; x00; x00; x00; x00; x00; x04] = Panic ∧
  ∃ here n rest, here `suffix_of` [x00; x00; x00; x00; x00; x00; x00; x04] ∧
    decode exampleDes (λ _ n, Z.leb n 3) (CInt (ConvW I64) (CIntW I64 BigEndian)) here = Ok (VInt n, rest) ∧ Z.leb n 3 = false.
Proof.
  split.
  - pose proof (decode_typed exampleDes exampleMake exampleDes_total exampleDes_range exampleCodec [xff; xff; xfb; x01; x01; x07; x00]) as [H _].
    { simpl. repeat split; lia. }
    destruct (decode _ _ _ _) as [[v rest]| |] eqn:E; [exact H|vm_compute in E; discriminate..].
  - pose proof (decode_typed exampleDes (λ _ n, Z.leb n 3) exampleDes_total exampleDes_range (CSlice CBool (CInt (ConvW I64) (CIntW I64 BigEndian))) [x00; x00; x00; x00; x00; x00; x00; x04]) as [H _].
    { simpl. repeat split; lia. }
    assert (decode exampleDes (λ _ n, Z.leb n 3) (CSlice CBool (CInt (ConvW I64) (CIntW I64 BigEndian))) [x00; x00; x00; x00; x00; x00; x00; x04] = Panic) as E by (vm_compute; reflexivity).
    split; [exact E|]. rewrite E in H. destruct H as (f & s & here & n & rest & Hin & Hsuf & Hd & _ & Hn).
    apply list_elem_of_singleton in Hin. injection Hin as -> ->. by exists here, n, rest.
Defined.

Lemma size_exact_witness :
  encode exampleSer exampleCodec exampleValue [] = Ok [xff; xff; xfb; x01; x02; x07; x00; x2c; x01] ∧
  9%Z = wrapS 64 (Z.of_nat 9 - 0).
Proof.
  assert (encode exampleSer exampleCodec exampleValue [] = Ok [xff; xff; xfb; x01; x02; x07; x00; x2c; x01]) as H
    by (vm_compute; reflexivity).
  split; [exact H|].
  apply (size_exact exampleSer exampleSer_length exampleCodec exampleValue []
           [xff; xff; xfb; x01; x02; x07; x00; x2c; x01] 9 2); [simpl; repeat split; lia|exact H|].
  right. split; [|reflexivity].
  repeat apply Forall2_cons_2; [..|apply Forall2_nil_2]; simpl; [done|done|].
  intros t w [= <- <-] vs [= <-]. reflexivity.
Defined.

Lemma NewString_255_refuses_own_encoding_witness :
  ∃ c bs, NewString 128 BigEndian 255 = Ok c ∧
          encode exampleSer c (VString (repeat x61 200)) [] = Ok bs ∧
          decode exampleDes exampleMake c bs = Err ErrInvalidEncoding.
Proof. apply NewString_255_refuses_own_encoding. vm_compute. split; repeat constructor. Defined.

Lemma decode_slice_alloc_panics_witness :
  decode exampleDes exampleMake (CSlice CBool (CInt (ConvW I64) (CIntW I64 BigEndian)))
    (putUint BigEndian 8 (2 ^ 62) ++ []) = Panic.
Proof. apply decode_slice_alloc_panics; [lia|reflexivity]. Defined.
End EncodingsFacts.
