(* ===== verification/StateMachine.v ===== *)
(** [src/pkg/services/state.go]: the start/stop state machine.

    Calls of [StartOnce], [StopOnce], [IfStarted] and [IfNotStopped] run in
    any number of goroutines; [step] is one atomic action of one of them: a
    compare-and-swap, a load, taking or releasing the lock, the entry to or
    the return of the function argument.  [ErrorBuffer], every method of which
    holds its own mutex, is a pure data structure. *)

From stdpp Require Import functions.
From S2P Require Import Prelude GoErrors.

Module StateMachine.

Inductive state :=
  | stateUnstarted | stateStarted | stateStarting | stateStartFailed
  | stateStopping | stateStopped | stateStopFailed.

#[export] Instance state_eq_dec : EqDecision state.
Proof. solve_decision. Defined.

Definition String (s : state) : string :=
  match s with
  | stateUnstarted => "Unstarted"
  | stateStarted => "Started"
  | stateStarting => "Starting"
  | stateStartFailed => "StartFailed"
  | stateStopping => "Stopping"
  | stateStopped => "Stopped"
  | stateStopFailed => "StopFailed"
  end.

(** *** ErrorBuffer *)

Definition defaultErrorBufferCap : nat := 50.

Record ErrorBuffer := { buffer : list error; cap : nat }.

Definition Flush (eb : ErrorBuffer) : option error * ErrorBuffer :=
  (Join (Some <$> buffer eb), {| buffer := []; cap := cap eb |}).

Definition Append (eb : ErrorBuffer) (incoming : error) : ErrorBuffer :=
  if decide (length (buffer eb) = cap eb ∧ cap eb ≠ 0)
  then {| buffer := drop 1 (buffer eb) ++ [incoming]; cap := cap eb |}
  else {| buffer := buffer eb ++ [incoming]; cap := cap eb |}.

Definition SetCap (eb : ErrorBuffer) (cap : nat) : ErrorBuffer :=
  {| buffer := if decide (cap < length (buffer eb))
               then drop (length (buffer eb) - cap) (buffer eb) else buffer eb;
     cap := cap |}.

(** *** Calls and results *)

Inductive call := CStartOnce | CStopOnce | CIfStarted | CIfNotStopped.

Inductive result :=
  | RFn (r : option error)                  (* what the function returned *)
  | RAlreadyStarted (s : state)             (* "has already been started once" *)
  | RAlreadyStopped                         (* ErrAlreadyStopped *)
  | RCannotStopUnstarted                    (* ErrCannotStopUnstarted *)
  | RCannotStop (s : state)                 (* "cannot be stopped from this state" *)
  | RBool (ok : bool).

(** [StopOnce]'s answer when the first compare-and-swap fails. *)
Definition stopRefusal (s : state) : result :=
  match s with
  | stateStopped => RAlreadyStopped
  | stateUnstarted => RCannotStopUnstarted
  | s => RCannotStop s
  end.

(** [IfStarted] runs its argument in state Started, [IfNotStopped] in every
    state but Stopped. *)
Definition guard (started : bool) (s : state) : bool :=
  if started then bool_decide (s = stateStarted) else negb (bool_decide (s = stateStopped)).

(** What a goroutine does next. *)
Inductive pc :=
  | StartCas1                    (* compare-and-swap Unstarted, Starting *)
  | StartLoad                    (* load the state for the error *)
  | StartLock                    (* once.Lock() *)
  | StartCall                    (* SetCap, then enter fn *)
  | StartFn                      (* inside fn *)
  | StartCas2 (r : option error) (* compare-and-swap Starting, Started/StartFailed *)
  | StopLock                     (* once.Lock() *)
  | StopCas1                     (* compare-and-swap Started, Stopping *)
  | StopLoad                     (* load the state for the error *)
  | StopCall                     (* enter fn *)
  | StopFn                       (* inside fn *)
  | StopCas2 (r : option error)  (* compare-and-swap Stopping, Stopped/StopFailed *)
  | IfRLock (started : bool)     (* once.RLock() *)
  | IfLoad (started : bool)      (* load the state *)
  | IfBody (started : bool)      (* inside f *)
  | RetW (r : result)            (* deferred once.Unlock() *)
  | RetR (r : result)            (* deferred once.RUnlock() *)
  | Done (r : result)
  | Unreachable.                 (* "entered unreachable state" panic *)

Definition entry (c : call) : pc :=
  match c with
  | CStartOnce => StartCas1
  | CStopOnce => StopLock
  | CIfStarted => IfRLock true
  | CIfNotStopped => IfRLock false
  end.

(** Entries to and returns of the functions passed to StartOnce and StopOnce. *)
Inductive event := StartEnter | StartReturn (r : option error) | StopEnter | StopReturn (r : option error).

Record config := Config {
  st : state;
  errs : ErrorBuffer;
  writer : option nat;
  readers : gset nat;
  threads : nat → pc;
  trace : list event
}.

Definition initial (calls : nat → call) : config :=
  Config stateUnstarted {| buffer := []; cap := 0 |} None ∅ (λ i, entry (calls i)) [].

Definition afterStart (r : option error) : state :=
  match r with None => stateStarted | Some _ => stateStartFailed end.
Definition afterStop (r : option error) : state :=
  match r with None => stateStopped | Some _ => stateStopFailed end.

(** One action of goroutine [i]; [r] is what the function it is in returns,
    if it is about to return. *)
Definition action (i : nat) (r : option error) (c : config) : option config :=
  let go s p := Some (Config s (errs c) (writer c) (readers c) (<[i:=p]> (threads c)) (trace c)) in
  let log p e := Some (Config (st c) (errs c) (writer c) (readers c) (<[i:=p]> (threads c)) (trace c ++ [e])) in
  let lock p := if decide (writer c = None ∧ readers c = ∅)
                then Some (Config (st c) (errs c) (Some i) ∅ (<[i:=p]> (threads c)) (trace c)) else None in
  match threads c i with
  | StartCas1 => if decide (st c = stateUnstarted) then go stateStarting StartLock else go (st c) StartLoad
  | StartLoad => go (st c) (Done (RAlreadyStarted (st c)))
  | StartLock => lock StartCall
  | StartCall => Some (Config (st c) (SetCap (errs c) defaultErrorBufferCap) (writer c) (readers c)
                         (<[i:=StartFn]> (threads c)) (trace c ++ [StartEnter]))
  | StartFn => log (StartCas2 r) (StartReturn r)
  | StartCas2 r => if decide (st c = stateStarting) then go (afterStart r) (RetW (RFn r)) else go (st c) Unreachable
  | StopLock => lock StopCas1
  | StopCas1 => if decide (st c = stateStarted) then go stateStopping StopCall else go (st c) StopLoad
  | StopLoad => go (st c) (RetW (stopRefusal (st c)))
  | StopCall => log StopFn StopEnter
  | StopFn => log (StopCas2 r) (StopReturn r)
  | StopCas2 r => if decide (st c = stateStopping) then go (afterStop r) (RetW (RFn r)) else go (st c) Unreachable
  | IfRLock q => if decide (writer c = None)
                 then Some (Config (st c) (errs c) (writer c) ({[i]} ∪ readers c) (<[i:=IfLoad q]> (threads c)) (trace c))
                 else None
  | IfLoad q => if guard q (st c) then go (st c) (IfBody q) else go (st c) (RetR (RBool false))
  | IfBody q => go (st c) (RetR (RBool true))
  | RetW r => Some (Config (st c) (errs c) None (readers c) (<[i:=Done r]> (threads c)) (trace c))
  | RetR r => Some (Config (st c) (errs c) (writer c) (readers c ∖ {[i]}) (<[i:=Done r]> (threads c)) (trace c))
  | Done _ | Unreachable => None
  end.

Inductive step : config → config → Prop :=
  | step_thread i r c c' : action i r c = Some c' → step c c'
  | step_append e c :
      (* [SvcErrBuffer.Append], from anywhere *)
      step c (Config (st c) (Append (errs c) e) (writer c) (readers c) (threads c) (trace c))
  | step_healthy c :
      (* [Healthy] flushes the buffer when the service is started *)
      st c = stateStarted →
      step c (Config (st c) (Flush (errs c)).2 (writer c) (readers c) (threads c) (trace c)).

Definition reachable (calls : nat → call) : config → Prop := rtc step (initial calls).

(** *** Invariant *)

Definition holdsW (p : pc) : bool :=
  match p with
  | StartCall | StartFn | StartCas2 _ | StopCas1 | StopLoad | StopCall | StopFn | StopCas2 _ | RetW _ => true
  | _ => false
  end.
Definition holdsR (p : pc) : bool :=
  match p with IfLoad _ | IfBody _ | RetR _ => true | _ => false end.
(** [Some true] between the two compare-and-swaps of StartOnce, [Some false]
    between those of StopOnce. *)
Definition role (p : pc) : option bool :=
  match p with
  | StartLock | StartCall | StartFn | StartCas2 _ => Some true
  | StopCall | StopFn | StopCas2 _ => Some false
  | _ => None
  end.

(** The events of a start or stop in progress at [p]. *)
Definition progress (p : pc) : list event :=
  match p with
  | StartFn => [StartEnter]
  | StartCas2 r => [StartEnter; StartReturn r]
  | StopFn => [StopEnter]
  | StopCas2 r => [StopEnter; StopReturn r]
  | _ => []
  end.
Definition started : list event := [StartEnter; StartReturn None].

(** The events that lead to a state in which no start or stop is in progress. *)
Definition settled (s : state) (tr : list event) : Prop :=
  match s with
  | stateUnstarted => tr = []
  | stateStarted => tr = started
  | stateStartFailed => ∃ e, tr = [StartEnter; StartReturn (Some e)]
  | stateStopped => tr = started ++ [StopEnter; StopReturn None]
  | stateStopFailed => ∃ e, tr = started ++ [StopEnter; StopReturn (Some e)]
  | stateStarting | stateStopping => False
  end.

Definition lockInv (w : option nat) (rs : gset nat) (th : nat → pc) : Prop :=
  (∀ i, holdsW (th i) = true ↔ w = Some i) ∧ (∀ i, holdsR (th i) = true ↔ i ∈ rs) ∧ (w ≠ None → rs = ∅).

(** At most one goroutine is starting or stopping the service, and the state
    and the events so far are those of its progress. *)
Definition phaseInv (s : state) (tr : list event) (th : nat → pc) : Prop :=
  ∃ o : option nat,
    (∀ j, o ≠ Some j → role (th j) = None) ∧
    match o with
    | None => settled s tr
    | Some i => ∃ b, role (th i) = Some b ∧ s = (if b then stateStarting else stateStopping) ∧
                     tr = (if b then [] else started) ++ progress (th i)
    end.

Record inv (c : config) : Prop := {
  inv_lock : lockInv (writer c) (readers c) (threads c);
  inv_phase : phaseInv (st c) (trace c) (threads c);
  inv_body i : threads c i = IfBody true → st c = stateStarted;
  inv_reach i : threads c i ≠ Unreachable;
  inv_cap : cap (errs c) = 0 ∨ length (buffer (errs c)) ≤ cap (errs c)
}.

Lemma inv_initial calls : inv (initial calls).
Proof.
  split; simpl; [| | | |by left].
  - split_and!; [intros i; by destruct (calls i)|intros i|done].
    rewrite elem_of_empty. by destruct (calls i).
  - exists None. split; [|done]. intros j _. by destruct (calls j).
  - intros i. by destruct (calls i).
  - intros i. by destruct (calls i).
Qed.

Ltac lock_solver := first [set_solver | naive_solver].

Section frame.
Context (th : nat → pc) (i : nat) (p : pc).

Lemma lock_frame w rs :
  lockInv w rs th → holdsW p = holdsW (th i) → holdsR p = holdsR (th i) → lockInv w rs (<[i:=p]> th).
Proof.
  intros (Hw & Hr & Hx) Hpw Hpr. split_and!; [intros j..|done]; destruct (decide (j = i)) as [->|Hj];
    rewrite ?fn_lookup_insert ?fn_lookup_insert_ne ?Hpw ?Hpr //.
Qed.

Lemma lock_acquire rs :
  lockInv None rs th → rs = ∅ → holdsW p = true → holdsR p = false → lockInv (Some i) ∅ (<[i:=p]> th).
Proof.
  intros (Hw & Hr & _) -> Hpw Hpr. split_and!; [intros j..|done]; destruct (decide (j = i)) as [->|Hj];
    rewrite ?fn_lookup_insert ?fn_lookup_insert_ne // ?Hpw ?Hpr ?Hw ?Hr; lock_solver.
Qed.

Lemma lock_release rs :
  lockInv (Some i) rs th → holdsW p = false → holdsR p = false → lockInv None rs (<[i:=p]> th).
Proof.
  intros (Hw & Hr & Hx) Hpw Hpr. rewrite (Hx ltac:(done)) in Hr |- *.
  split_and!; [intros j..|done]; destruct (decide (j = i)) as [->|Hj];
    rewrite ?fn_lookup_insert ?fn_lookup_insert_ne // ?Hpw ?Hpr ?Hw ?Hr; lock_solver.
Qed.

Lemma rlock_acquire rs :
  lockInv None rs th → holdsW p = false → holdsR p = true → lockInv None ({[i]} ∪ rs) (<[i:=p]> th).
Proof.
  intros (Hw & Hr & _) Hpw Hpr. split_and!; [intros j..|done]; destruct (decide (j = i)) as [->|Hj];
    rewrite ?fn_lookup_insert ?fn_lookup_insert_ne // ?Hpw ?Hpr ?Hw ?Hr; lock_solver.
Qed.

Lemma rlock_release w rs :
  lockInv w rs th → i ∈ rs → holdsW p = false → holdsR p = false → lockInv w (rs ∖ {[i]}) (<[i:=p]> th).
Proof.
  intros (Hw & Hr & Hx) Hi Hpw Hpr. assert (w = None) as -> by (destruct w; [specialize (Hx ltac:(done)); set_solver|done]).
  split_and!; [intros j..|done]; destruct (decide (j = i)) as [->|Hj];
    rewrite ?fn_lookup_insert ?fn_lookup_insert_ne // ?Hpw ?Hpr ?Hw ?Hr; lock_solver.
Qed.

Lemma phase_frame s tr :
  phaseInv s tr th → role (th i) = None → role p = None → phaseInv s tr (<[i:=p]> th).
Proof.
  intros (o & Ho & Hm) Hi Hp. exists o. split.
  - intros j Hj. destruct (decide (j = i)) as [->|]; rewrite ?fn_lookup_insert ?fn_lookup_insert_ne //. by apply Ho.
  - destruct o as [k|]; [|done]. destruct Hm as (b & Hb & ? & ?). exists b.
    rewrite fn_lookup_insert_ne; [done|]. intros ->. congruence.
Qed.

Lemma phase_active s tr b :
  phaseInv s tr th → role (th i) = Some b →
  s = (if b then stateStarting else stateStopping) ∧ tr = (if b then [] else started) ++ progress (th i) ∧
  ∀ j, j ≠ i → role (th j) = None.
Proof.
  intros (o & Ho & Hm) Hi. destruct (decide (o = Some i)) as [->|Hne]; [|specialize (Ho i Hne); congruence].
  destruct Hm as (b' & Hb' & -> & ->). assert (b' = b) as -> by congruence.
  split_and!; [done..|]. intros j Hj. apply Ho. congruence.
Qed.

Lemma phase_settled s tr :
  phaseInv s tr th → s ≠ stateStarting → s ≠ stateStopping → settled s tr ∧ ∀ j, role (th j) = None.
Proof.
  intros ([k|] & Ho & Hm) H1 H2; [by destruct Hm as ([] & _ & -> & _)|]. split; [done|]. intros j. by apply Ho.
Qed.

Lemma phase_progress s tr b es :
  phaseInv s tr th → role (th i) = Some b → role p = Some b → progress p = progress (th i) ++ es →
  phaseInv s (tr ++ es) (<[i:=p]> th).
Proof.
  intros Hph Hi Hp Hes. destruct (phase_active _ _ _ Hph Hi) as (-> & -> & Ho). exists (Some i). split.
  - intros j Hj. rewrite fn_lookup_insert_ne; [apply Ho|]; congruence.
  - exists b. rewrite fn_lookup_insert Hp Hes assoc //.
Qed.

Lemma phase_enter b tr :
  (∀ j, role (th j) = None) → role p = Some b → tr = (if b then [] else started) ++ progress p →
  phaseInv (if b then stateStarting else stateStopping) tr (<[i:=p]> th).
Proof.
  intros Ho Hp ->. exists (Some i). split.
  - intros j Hj. rewrite fn_lookup_insert_ne; [apply Ho|]; congruence.
  - exists b. by rewrite fn_lookup_insert.
Qed.

Lemma phase_exit s s' tr b :
  phaseInv s tr th → role (th i) = Some b → role p = None → settled s' tr → phaseInv s' tr (<[i:=p]> th).
Proof.
  intros Hph Hi Hp Hs. destruct (phase_active _ _ _ Hph Hi) as (_ & _ & Ho). exists None. split; [|done].
  intros j _. destruct (decide (j = i)) as [->|]; rewrite ?fn_lookup_insert ?fn_lookup_insert_ne //. by apply Ho.
Qed.
End frame.

(** The error buffer stays within a positive cap. *)
Definition capped (eb : ErrorBuffer) : Prop := cap eb = 0 ∨ length (buffer eb) ≤ cap eb.

Lemma Append_capped eb e : capped eb → capped (Append eb e).
Proof.
  rewrite /Append /capped. case_decide as H; simpl; [|rewrite length_app /=; lia].
  rewrite length_app length_drop /=. lia.
Qed.

Lemma SetCap_capped eb n : capped (SetCap eb n).
Proof. right. simpl. case_decide; [rewrite length_drop; lia|lia]. Qed.

(** The remaining fields of the invariant, when one goroutine moves. *)
Lemma body_frame (th : nat → pc) i p (s s' : state) :
  (∀ j, th j = IfBody true → s = stateStarted) → (s' = s ∨ ∀ j, th j ≠ IfBody true) →
  (p = IfBody true → s' = stateStarted) → ∀ j, <[i:=p]> th j = IfBody true → s' = stateStarted.
Proof.
  intros Hb Hs Hp j. destruct (decide (j = i)) as [->|]; rewrite ?fn_lookup_insert ?fn_lookup_insert_ne //.
  intros Hj. destruct Hs as [->|Hs]; [by eapply Hb|by apply Hs in Hj].
Qed.

Lemma reach_frame (th : nat → pc) i p :
  (∀ j, th j ≠ Unreachable) → p ≠ Unreachable → ∀ j, <[i:=p]> th j ≠ Unreachable.
Proof. intros Hu Hp j. destruct (decide (j = i)) as [->|]; rewrite ?fn_lookup_insert ?fn_lookup_insert_ne //. Qed.

(** Goroutine [i] of [c] moves to [p]. *)
Lemma inv_move c i p s eb w rs tr :
  inv c → capped eb →
  lockInv w rs (<[i:=p]> (threads c)) → phaseInv s tr (<[i:=p]> (threads c)) →
  (s = st c ∨ ∀ j, threads c j ≠ IfBody true) → (p = IfBody true → s = stateStarted) → p ≠ Unreachable →
  inv (Config s eb w rs (<[i:=p]> (threads c)) tr).
Proof.
  intros [Hl Hph Hb Hu Hc] Heb Hl' Hph' Hs Hp Hpu. split; simpl; [done|done| |by apply reach_frame|done].
  by eapply body_frame.
Qed.

(** A goroutine in the body of [IfStarted] excludes every change of state. *)
Lemma inv_no_body c : inv c → st c ≠ stateStarted → ∀ j, threads c j ≠ IfBody true.
Proof. intros [] Hs j Hj. eauto. Qed.

Lemma inv_no_body_locked c i : inv c → holdsW (threads c i) = true → ∀ j, threads c j ≠ IfBody true.
Proof.
  intros [(Hw & Hr & Hx) _ _ _ _] Hi j Hj. apply Hw in Hi.
  assert (j ∈ readers c) as Hjr by (apply Hr; by rewrite Hj). rewrite Hx in Hjr; [set_solver|congruence].
Qed.

Lemma settled_start s r tr : s = stateStarting → tr = [StartEnter; StartReturn r] → settled (afterStart r) tr.
Proof. intros -> ->. destruct r; simpl; [by eexists|done]. Qed.

Lemma settled_stop s r tr : s = stateStopping → tr = started ++ [StopEnter; StopReturn r] → settled (afterStop r) tr.
Proof. intros -> ->. destruct r; simpl; [by eexists|done]. Qed.

Lemma inv_action i r c c' : inv c → action i r c = Some c' → inv c'.
Proof.
  intros Hinv Ha. pose proof Hinv as [Hl Hph Hb Hu Hc].
  pose proof (λ b, phase_active _ i _ _ b Hph) as Hact.
  unfold action in Ha.
  destruct (threads c i) eqn:Hi; simpl in Hact; repeat case_decide; simplify_eq/=;
    try (by apply (inv_move c); [done|done|apply lock_frame; rewrite ?Hi|apply phase_frame; rewrite ?Hi|by left|done|done]).
  - (* StartCas1 *) destruct (phase_settled _ _ _ Hph) as [Hs Hr]; [congruence..|].
    apply (inv_move c); [done|done|by apply lock_frame; rewrite ?Hi| | |done|done].
    + rewrite H in Hs. rewrite Hs. by apply (phase_enter _ _ _ true).
    + right. apply inv_no_body; [done|congruence].
  - (* StartLock *) destruct H as [Hw Hr]. apply (inv_move c); [done|done| | |by left|done|done].
    + rewrite Hw in Hl. by eapply lock_acquire.
    + rewrite -(app_nil_r (trace c)). by eapply phase_progress; rewrite ?Hi.
  - (* StartCall *) apply (inv_move c); [done|apply SetCap_capped|by apply lock_frame; rewrite ?Hi| |by left|done|done].
    by eapply phase_progress; rewrite ?Hi.
  - (* StartFn *) apply (inv_move c); [done|done|by apply lock_frame; rewrite ?Hi| |by left|done|done].
    by eapply phase_progress; rewrite ?Hi.
  - (* StartCas2 *) destruct (Hact true eq_refl) as (Hs & Htr & _).
    apply (inv_move c); [done|done|by apply lock_frame; rewrite ?Hi| | |done|done].
    + eapply phase_exit; [done|by rewrite Hi|done|]. by eapply settled_start.
    + right. apply inv_no_body; [done|congruence].
  - (* StartCas2, unreachable *) by destruct (Hact true eq_refl) as (Hs & _).
  - (* StopLock *) destruct H as [Hw Hr]. apply (inv_move c); [done|done| | |by left|done|done].
    + rewrite Hw in Hl. by eapply lock_acquire.
    + by apply phase_frame; rewrite ?Hi.
  - (* StopCas1 *) destruct (phase_settled _ _ _ Hph) as [Hs Hr]; [congruence..|].
    apply (inv_move c); [done|done|by apply lock_frame; rewrite ?Hi| | |done|done].
    + rewrite H in Hs. rewrite Hs. by apply (phase_enter _ _ _ false).
    + right. apply (inv_no_body_locked c i); [done|by rewrite Hi].
  - (* StopCall *) apply (inv_move c); [done|done|by apply lock_frame; rewrite ?Hi| |by left|done|done].
    by eapply phase_progress; rewrite ?Hi.
  - (* StopFn *) apply (inv_move c); [done|done|by apply lock_frame; rewrite ?Hi| |by left|done|done].
    by eapply phase_progress; rewrite ?Hi.
  - (* StopCas2 *) destruct (Hact false eq_refl) as (Hs & Htr & _).
    apply (inv_move c); [done|done|by apply lock_frame; rewrite ?Hi| | |done|done].
    + eapply phase_exit; [done|by rewrite Hi|done|]. by eapply settled_stop.
    + right. apply inv_no_body; [done|congruence].
  - (* StopCas2, unreachable *) by destruct (Hact false eq_refl) as (Hs & _).
  - (* IfRLock *) apply (inv_move c); [done|done| |by apply phase_frame; rewrite ?Hi|by left|done|done].
    rewrite H in Hl |- *. by apply rlock_acquire.
  - (* IfLoad *) destruct (guard started0 (st c)) eqn:Hg; simplify_eq;
      (apply (inv_move c); [done|done|by apply lock_frame; rewrite ?Hi|by apply phase_frame; rewrite ?Hi|by left| |done]); [|done].
    intros [= ->]. by apply bool_decide_eq_true in Hg.
  - (* RetW *) apply (inv_move c); [done|done| |by apply phase_frame; rewrite ?Hi|by left|done|done].
    apply (lock_release _ i). assert (writer c = Some i) as <- by (apply Hl; by rewrite Hi). done. done. done.
  - (* RetR *) apply (inv_move c); [done|done| |by apply phase_frame; rewrite ?Hi|by left|done|done].
    apply rlock_release; [done| |done..]. apply Hl. by rewrite Hi.
Qed.

Lemma inv_step c c' : inv c → step c c' → inv c'.
Proof.
  intros Hinv Hstep. revert Hinv. destruct Hstep as [i r c1 c2 Ha|e c1|c1 Hs]; [by eauto using inv_action|..];
    intros [Hl Hph Hb Hu Hc].
  - split; [done..|]. by apply Append_capped.
  - split; [done..|]. right. apply Nat.le_0_l.
Qed.

Lemma inv_reachable calls c : reachable calls c → inv c.
Proof.
  rewrite /reachable. pose proof (inv_initial calls) as Hi. intros H. revert Hi.
  induction H as [|x y z Hs _ IH]; [done|]. eauto using inv_step.
Qed.

(** *** Properties *)

(** Start events, then stop events, then nothing. *)
Definition lifecycle (tr : list event) : Prop :=
  ∃ r, tr `prefix_of` [StartEnter; StartReturn None; StopEnter; StopReturn r] ∨
       tr `prefix_of` [StartEnter; StartReturn r].

Lemma phase_lifecycle s tr th : phaseInv s tr th → lifecycle tr.
Proof.
  intros ([i|] & _ & Hm).
  - destruct Hm as (b & Hb & _ & ->). destruct b, (th i) as [| | | | |r| | | | | |r| | | | | | |] eqn:E; simplify_eq/=;
      try (exists None; left; by eexists _); exists r; [right|left]; by eexists [].
  - destruct s; simpl in Hm; try done.
    + subst. exists None. left. by eexists _.
    + subst. exists None. left. by eexists _.
    + destruct Hm as [e ->]. exists (Some e). right. by eexists [].
    + subst. exists None. left. by eexists [].
    + destruct Hm as [e ->]. exists (Some e). left. by eexists [].
Qed.

(** C1: whatever calls run in whatever interleaving, the panics "entered
    unreachable state" are unreachable; the function given to StartOnce is
    entered at most once, and the one given to StopOnce at most once and
    only after the start function has returned nil; and the function given to
    IfStarted only runs while the state is Started. *)
Theorem lifecycle_safe calls c :
  reachable calls c →
  (∀ i, threads c i ≠ Unreachable) ∧ lifecycle (trace c) ∧
  (∀ i, threads c i = IfBody true → st c = stateStarted ∧ trace c = started).
Proof.
  intros [Hl Hph Hb Hu Hc]%inv_reachable. split_and!; [done|by eapply phase_lifecycle|].
  intros i Hi. specialize (Hb i Hi). split; [done|].
  destruct (phase_settled _ _ _ Hph) as [Hs _]; [congruence..|]. by rewrite Hb in Hs.
Qed.

(** Goroutines inside the argument of StartOnce, StopOnce, IfStarted or IfNotStopped. *)
Definition inW (p : pc) : bool := match p with StartFn | StopFn => true | _ => false end.
Definition inR (p : pc) : bool := match p with IfBody _ => true | _ => false end.

(** The lock keeps the functions apart: while one goroutine is inside a
    start or stop function, no other goroutine is inside any of the four. *)
Theorem functions_exclusive calls c i j :
  reachable calls c → inW (threads c i) = true → i ≠ j →
  inW (threads c j) = false ∧ inR (threads c j) = false.
Proof.
  intros [(Hw & Hr & Hx) _ _ _ _]%inv_reachable Hi Hij.
  assert (writer c = Some i) as Hwi by (apply Hw; by destruct (threads c i)).
  assert (holdsW (threads c j) ≠ true) as Hj by (rewrite Hw; congruence).
  assert (holdsR (threads c j) ≠ true) as Hj' by (rewrite Hr Hx; [set_solver|congruence]).
  by destruct (threads c j).
Qed.

(** Once the service has been started the error buffer never holds more
    than its cap, and appending keeps the most recent errors. *)
Theorem errors_capped calls c :
  reachable calls c → cap (errs c) ≠ 0 →
  length (buffer (errs c)) ≤ cap (errs c) ∧
  ∀ e, buffer (Append (errs c) e) =
       drop (length (buffer (errs c)) + 1 - cap (errs c)) (buffer (errs c) ++ [e]).
Proof.
  intros [_ _ _ _ Hc]%inv_reachable H0. assert (length (buffer (errs c)) ≤ cap (errs c)) as Hle by lia.
  split; [done|]. intros e. rewrite /Append. case_decide as H; simpl.
  - rewrite drop_app_le; [|lia]. do 2 f_equal. lia.
  - replace (_ + 1 - _) with 0 by lia. done.
Qed.

(** *** Witnesses *)

(** Goroutine 0 starts the service and goroutine 1 asks IfStarted. *)
Definition demoCalls (i : nat) : call := if decide (i = 0) then CStartOnce else CIfStarted.
Definition runs (sched : list nat) (c : config) : option config :=
  foldl (λ c i, c ≫= action i None) (Some c) sched.

Lemma runs_reachable calls sched c : runs sched (initial calls) = Some c → reachable calls c.
Proof.
  rewrite /runs /reachable. generalize (initial calls) as c0. induction sched as [|i sched IH]; intros c0; simpl.
  { by intros [= ->]. }
  destruct (action i None c0) as [c1|] eqn:E.
  - intros H. eapply rtc_l; [by eapply step_thread|by apply IH].
  - intros H. exfalso. clear -H. induction sched; simpl in H; [done|auto].
Qed.

(** Goroutine 1 is inside the argument of IfStarted. *)
Definition demo : config :=
  default (initial demoCalls) (runs [0; 0; 0; 0; 0; 0; 1; 1] (initial demoCalls)).
(** Goroutine 0 is inside the start function, after goroutine 1 has left the
    argument of IfNotStopped; it could not take the lock before that. *)
Definition demoCalls' (i : nat) : call := if decide (i = 0) then CStartOnce else CIfNotStopped.
Definition demo' : config :=
  default (initial demoCalls') (runs [1; 1; 0; 1; 1; 0; 0] (initial demoCalls')).

Lemma demo_reachable : reachable demoCalls demo.
Proof. by apply (runs_reachable _ [0; 0; 0; 0; 0; 0; 1; 1]). Qed.
Lemma demo'_reachable : reachable demoCalls' demo'.
Proof. by apply (runs_reachable _ [1; 1; 0; 1; 1; 0; 0]). Qed.

Lemma lifecycle_safe_witness :
  (∀ i, threads demo i ≠ Unreachable) ∧ lifecycle (trace demo) ∧
  (∀ i, threads demo i = IfBody true → st demo = stateStarted ∧ trace demo = started).
Proof. apply (lifecycle_safe demoCalls), demo_reachable. Defined.

Lemma functions_exclusive_witness :
  threads demo' 0 = StartFn ∧ inW (threads demo' 2) = false ∧ inR (threads demo' 2) = false.
Proof.
  split; [reflexivity|]. apply (functions_exclusive demoCalls' _ 0 2); [apply demo'_reachable|reflexivity|lia].
Defined.

Lemma errors_capped_witness :
  length (buffer (errs demo)) ≤ cap (errs demo) ∧
  ∀ e, buffer (Append (errs demo) e) =
       drop (length (buffer (errs demo)) + 1 - cap (errs demo)) (buffer (errs demo) ++ [e]).
Proof. apply (errors_capped demoCalls); [apply demo_reachable|done]. Defined.
End StateMachine.
