(* ===== verification/Services.v ===== *)
(** [src/pkg/services]: services built from a [Config] (service.go), starting
    and closing groups of services (multi.go), and the health checker
    (health.go).

    The methods of a sub-service act on a world [W]; an error result is an
    [option error].  The concurrent closes of [multiCloser] run in an order
    given by a [RangeOrder]. *)

From stdpp Require Import functions.
From S2P Require Import Prelude GoErrors StateMachine.

Module Services.
Import StateMachine.

(** *** The state machine, called without contention *)

Definition StartOnce {W} (s : state) (eb : ErrorBuffer) (fn : W → option error * W) (w : W)
    : result * state * ErrorBuffer * W :=
  if decide (s = stateUnstarted) then
    let eb := SetCap eb defaultErrorBufferCap in
    let '(err, w) := fn w in (RFn err, afterStart err, eb, w)
  else (RAlreadyStarted s, s, eb, w).

Definition StopOnce {W} (s : state) (fn : W → option error * W) (w : W) : result * state * W :=
  if decide (s = stateStarted) then
    let '(err, w) := fn w in (RFn err, afterStop err, w)
  else (stopRefusal s, s, w).

Definition IfStarted {A} (s : state) (f : unit → A) : option A :=
  if decide (s = stateStarted) then Some (f ()) else None.
Definition IfNotStopped {A} (s : state) (f : unit → A) : option A :=
  if decide (s = stateStopped) then None else Some (f ()).

(** [errNotStarted] *)
Definition errNotStarted (s : state) : error := EWrap "service is not started" (ELeaf (StateMachine.String s)).

Definition smReady (s : state) : option error :=
  if decide (s = stateStarted) then None else Some (errNotStarted s).

Definition smHealthy (s : state) (eb : ErrorBuffer) : option error * ErrorBuffer :=
  if decide (s = stateStarted) then Flush eb else (Some (errNotStarted s), eb).

Section services.
Context {W : Type}.

(** The [Service] interface. *)
Record Service := {
  Name : string;
  Start : W → option error * W;
  Close : W → option error * W;
  Ready : W → option error;
  HealthReport : W → gmap string (option error) * W
}.

(** *** multi.go *)

Record MultiStart := { ms_started : list Service }.

(** [MultiStart.Close]: the started services in reverse order. *)
Definition msClose (m : MultiStart) (w : W) : option error * W :=
  foldl (λ '(err, w) s, let '(e, w) := Close s w in (Join [err; e], w)) (None, w) (reverse (ms_started m)).

Definition msStart1 (m : MultiStart) (s : Service) (w : W) : option error * MultiStart * W :=
  let '(err, w) := Start s w in
  match err with
  | Some _ => let '(cerr, w) := msClose m w in (Join [err; cerr], m, w)
  | None => (None, {| ms_started := ms_started m ++ [s] |}, w)
  end.

Fixpoint msStart (m : MultiStart) (srvcs : list Service) (w : W) : option error * MultiStart * W :=
  match srvcs with
  | [] => (None, m, w)
  | s :: srvcs =>
      let '(err, m, w) := msStart1 m s w in
      match err with
      | Some _ => (err, m, w)
      | None => msStart m srvcs w
      end
  end.

Definition CloseBecause (reason : error) (m : MultiStart) (w : W) : option error * W :=
  let '(err, w) := msClose m w in (Join [Some reason; err], w).

(** [multiCloser.Close] *)
Definition multiClose (O : RangeOrder Service) (m : list Service) (w : W) : option error * W :=
  if decide (length m = 0) then (None, w)
  else
    let '(errs, w) :=
      foldl (λ '(errs, w) s, let '(e, w) := Close s w in
                             (match e with Some e => errs ++ [e] | None => errs end, w))
            ([], w) (range_order O m) in
    (foldl (λ err e, Join [err; Some e]) None errs, w).

(** *** service.go *)

Record Config := {
  cfgName : string;
  cfgStart : option (W → option error * W);
  cfgClose : option (W → option error * W)
}.

Record service := {
  cfg : Config;
  subs : list Service;
  sst : state;
  svcErrBuffer : ErrorBuffer;
  conds : gmap string error;
  stopChanClosed : bool
}.

Definition new (c : Config) (subs : list Service) : service :=
  {| cfg := c; subs := subs; sst := stateUnstarted; svcErrBuffer := {| buffer := []; cap := 0 |};
     conds := ∅; stopChanClosed := false |}.

(** The function given to StartOnce: sub-services, then the hook. *)
Fixpoint startSubs (m : MultiStart) (ss : list Service) (w : W) : option error * W :=
  match ss with
  | [] => (None, w)
  | s :: ss =>
      let '(err, m, w) := msStart m [s] w in
      match err with
      | Some e => (Some (EWrap "failed to start sub-service" e), w)
      | None => startSubs m ss w
      end
  end.

Definition startFn (s : service) (w : W) : option error * W :=
  let '(err, w) := if decide (0 < length (subs s)) then startSubs {| ms_started := [] |} (subs s) w else (None, w) in
  match err with
  | Some e => (Some e, w)
  | None =>
      match cfgStart (cfg s) with
      | Some hook =>
          let '(err, w) := hook w in
          match err with
          | Some e => (Some (EWrap "failed to start service" e), w)
          | None => (None, w)
          end
      | None => (None, w)
      end
  end.

Definition serviceStart (s : service) (w : W) : result * service * W :=
  let '(r, st', eb, w) := StartOnce (sst s) (svcErrBuffer s) (startFn s) w in
  (r, {| cfg := cfg s; subs := subs s; sst := st'; svcErrBuffer := eb; conds := conds s;
         stopChanClosed := stopChanClosed s |}, w).

(** The function given to StopOnce, after the stop channel is closed and the
    tracked goroutines have returned: the hook, then the sub-services. *)
Definition closeFn (O : RangeOrder Service) (s : service) (w : W) : option error * W :=
  let '(err, w) := match cfgClose (cfg s) with Some hook => hook w | None => (None, w) end in
  if decide (length (subs s) = 0) then (err, w)
  else let '(cerr, w) := multiClose O (subs s) w in (Join [err; cerr], w).

Definition serviceClose (O : RangeOrder Service) (s : service) (w : W) : result * service * W :=
  let '(r, st', w) := StopOnce (sst s) (closeFn O s) w in
  (r, {| cfg := cfg s; subs := subs s; sst := st'; svcErrBuffer := svcErrBuffer s; conds := conds s;
         stopChanClosed := if decide (sst s = stateStarted) then true else stopChanClosed s |}, w).

(** [service.Ready] *)
Definition serviceReady (s : service) (w : W) : option error :=
  foldl (λ err sub, Join [err; Ready sub w]) (smReady (sst s)) (subs s).

Definition setConds (s : service) (cs : gmap string error) : service :=
  {| cfg := cfg s; subs := subs s; sst := sst s; svcErrBuffer := svcErrBuffer s; conds := cs;
     stopChanClosed := stopChanClosed s |}.
Definition SetHealthCond (s : service) (condition : string) (err : error) : service :=
  setConds s (<[condition := EWrap condition err]> (conds s)).
Definition ClearHealthCond (s : service) (condition : string) : service :=
  setConds s (delete condition (conds s)).
(** [NewHealthCond]: the condition key is a fresh UUID; the returned [clear]
    is [ClearHealthCond] of it. *)
Definition NewHealthCond (s : service) (uuid : string) (err : error) : service := SetHealthCond s uuid err.
Definition clearCond (O : RangeOrder (string * error)) (s : service) : option error :=
  Join ((λ kv, Some kv.2) <$> range_map O (conds s)).

Definition EmitHealthErr (s : service) (err : error) : service :=
  {| cfg := cfg s; subs := subs s; sst := sst s; svcErrBuffer := Append (svcErrBuffer s) err; conds := conds s;
     stopChanClosed := stopChanClosed s |}.

(** [service.Healthy] *)
Definition Healthy (O : RangeOrder (string * error)) (s : service) : option error * service :=
  let '(err, eb) := smHealthy (sst s) (svcErrBuffer s) in
  let s := {| cfg := cfg s; subs := subs s; sst := sst s; svcErrBuffer := eb; conds := conds s;
              stopChanClosed := stopChanClosed s |} in
  match err with Some e => (Some e, s) | None => (clearCond O s, s) end.

(** *** health.go *)

(** [CopyHealth]; [testing] is [testing.Testing()]. *)
Definition copyEntry (testing : bool) (dest : gmap string (option error)) (kv : string * option error)
    : outcome error (gmap string (option error)) :=
  let '(name, err) := kv in
  match dest !! name with
  | Some errOrig =>
      if testing then Panic
      else match errOrig with
           | Some _ => Ok (<[name := Join [errOrig; err]]> dest)
           | None => Ok (<[name := err]> dest)
           end
  | None => Ok (<[name := err]> dest)
  end.

Definition CopyHealth (O : RangeOrder (string * option error)) (testing : bool)
    (dest src : gmap string (option error)) : outcome error (gmap string (option error)) :=
  ofold (copyEntry testing) dest (range_map O src).

(** [service.HealthReport] *)
Definition serviceHealthReport O O' (testing : bool) (s : service) (w : W)
    : outcome error (gmap string (option error)) * service * W :=
  let '(err, s) := Healthy O s in
  let '(m, w) := foldl (λ '(m, w) sub,
      let '(src, w) := HealthReport sub w in
      ((let? m := m in CopyHealth O' testing m src), w))
    (Ok {[ cfgName (cfg s) := err ]}, w) (subs s) in
  (m, s, w).
End services.
Arguments Service : clear implicits.
Arguments MultiStart : clear implicits.
Arguments Config : clear implicits.
Arguments service : clear implicits.

(** [HealthChecker].  A registered reporter is a pointer [R]; its answers
    when it is asked are given by [ask]. *)
Section checker.
Context {R : Type}.

Record HealthChecker := {
  hc_services : gmap string R;
  hc_ready : gmap string (option error);
  hc_healthy : gmap string (option error)
}.

Definition NewHealthChecker : HealthChecker := {| hc_services := ∅; hc_ready := ∅; hc_healthy := ∅ |}.

(** [maps.Copy(dst, src)] *)
Definition mapsCopy {V} (dst src : gmap string V) : gmap string V := src ∪ dst.

Definition healthMap : Type := gmap string (option error).

(** The check of one service. *)
Definition checkEntry (O' : RangeOrder (string * option error)) (ask : R → option error * healthMap)
    (acc : healthMap * healthMap) (kv : string * R) : healthMap * healthMap :=
  (<[kv.1 := (ask kv.2).1]> acc.1,
   foldl (λ (healthy : healthMap) ne, <[ne.1 := ne.2]> healthy) acc.2 (range_map O' (ask kv.2).2)).

Definition update (O : RangeOrder (string * R)) (O' : RangeOrder (string * option error))
    (ask : R → option error * healthMap) (c : HealthChecker) : HealthChecker :=
  let '(ready, healthy) := foldl (checkEntry O' ask) (∅, ∅) (range_map O (hc_services c)) in
  {| hc_services := hc_services c;
     hc_ready := mapsCopy (hc_ready c) ready;
     hc_healthy := mapsCopy (hc_healthy c) healthy |}.

(** [Register] outside tests. *)
Definition Register (name : string) (service : R) (c : HealthChecker) : outcome unit HealthChecker :=
  if decide (name = "") then Err ()
  else Ok {| hc_services := <[name := service]> (hc_services c); hc_ready := hc_ready c; hc_healthy := hc_healthy c |}.

Definition Unregister (name : string) (c : HealthChecker) : outcome unit HealthChecker :=
  if decide (name = "") then Err ()
  else Ok {| hc_services := delete name (hc_services c); hc_ready := hc_ready c; hc_healthy := hc_healthy c |}.

Definition nilEntry (acc : bool * gmap string (option error)) (kv : string * option error) :=
  (match kv.2 with Some _ => false | None => acc.1 end, <[kv.1 := kv.2]> acc.2).

Definition allNil (O : RangeOrder (string * option error)) (m : gmap string (option error))
    : bool * gmap string (option error) :=
  foldl nilEntry (true, ∅) (range_map O m).

Definition IsReady O (c : HealthChecker) := allNil O (hc_ready c).
Definition IsHealthy O (c : HealthChecker) := allNil O (hc_healthy c).

Definition ContainsError (O : RangeOrder (string * option error)) (report : gmap string (option error))
    (target : error) : Prop :=
  Exists (λ kv, match kv.2 with Some err => Is err target | None => False end) (range_map O report).
End checker.
Arguments HealthChecker : clear implicits.

(** *** The uncontended calls are runs of the interleaving model *)

Definition solo (i : nat) (c c' : config) : Prop := ∃ r, action i r c = Some c'.

Lemma solo_step i c c' : rtc (solo i) c c' → rtc step c c'.
Proof. induction 1 as [|x y z [r Hr] _ IH]; [done|]. eapply rtc_l; [by eapply step_thread|done]. Qed.

Lemma solo_l i r c c1 c' : action i r c = Some c1 → rtc (solo i) c1 c' → rtc (solo i) c c'.
Proof. intros H. apply rtc_l. by exists r. Qed.

(** Runs the next action of the goroutine, whose function returns [r]. *)
Ltac solo_action r :=
  eapply (solo_l _ r);
  [ rewrite /action /= ?fn_lookup_insert; repeat (case_decide; [|by naive_solver]); reflexivity
  | simpl ].

Definition unlocked (c : config) : Prop := writer c = None ∧ readers c = ∅.

Lemma StartOnce_solo i c r :
  threads c i = StartCas1 → unlocked c →
  let '(res, s', eb', _) := StartOnce (st c) (errs c) (λ _, (r, ())) () in
  ∃ c', rtc (solo i) c c' ∧ threads c' i = Done res ∧ st c' = s' ∧ errs c' = eb' ∧ unlocked c'.
Proof.
  destruct c as [s eb w rs th tr]; simpl. intros Hi [Hw Hr]. simpl in Hw, Hr. subst w rs. rewrite /StartOnce.
  case_decide as Hs.
  - subst s. eexists. split.
    { eapply (solo_l _ r); [by rewrite /action /= Hi|]. do 5 solo_action r. apply rtc_refl. }
    simpl. rewrite fn_lookup_insert. done.
  - eexists. split.
    { eapply (solo_l _ r); [by rewrite /action /= Hi decide_False|]. solo_action r. apply rtc_refl. }
    simpl. rewrite fn_lookup_insert. done.
Qed.

Lemma StopOnce_solo i c r :
  threads c i = StopLock → unlocked c →
  let '(res, s', _) := StopOnce (st c) (λ _, (r, ())) () in
  ∃ c', rtc (solo i) c c' ∧ threads c' i = Done res ∧ st c' = s' ∧ errs c' = errs c ∧ unlocked c'.
Proof.
  destruct c as [s eb w rs th tr]; simpl. intros Hi [Hw Hr]. simpl in Hw, Hr. subst w rs. rewrite /StopOnce.
  case_decide as Hs.
  - subst s. eexists. split.
    { eapply (solo_l _ r); [by rewrite /action /= Hi|]. do 5 solo_action r. apply rtc_refl. }
    simpl. rewrite fn_lookup_insert. done.
  - eexists. split.
    { eapply (solo_l _ r); [by rewrite /action /= Hi|].
      eapply (solo_l _ r); [by rewrite /action /= fn_lookup_insert decide_False|].
      do 2 solo_action r. apply rtc_refl. }
    simpl. rewrite fn_lookup_insert. done.
Qed.

(** StartOnce and StopOnce as functions are what a goroutine does in the
    interleaving model when no other one moves: same result, same state, same
    error buffer, and the lock is free again. *)
Theorem once_refines i c r :
  unlocked c →
  (threads c i = StartCas1 →
   let '(res, s', eb', _) := StartOnce (st c) (errs c) (λ _, (r, ())) () in
   ∃ c', rtc step c c' ∧ threads c' i = Done res ∧ st c' = s' ∧ errs c' = eb' ∧ unlocked c') ∧
  (threads c i = StopLock →
   let '(res, s', _) := StopOnce (st c) (λ _, (r, ())) () in
   ∃ c', rtc step c c' ∧ threads c' i = Done res ∧ st c' = s' ∧ errs c' = errs c ∧ unlocked c').
Proof.
  intros Hc. split; intros Hi.
  - pose proof (StartOnce_solo i c r Hi Hc) as H. destruct (StartOnce _ _ _ _) as [[[res s'] eb'] []].
    destruct H as (c' & H & ?). exists c'. by split; [eapply solo_step|].
  - pose proof (StopOnce_solo i c r Hi Hc) as H. destruct (StopOnce _ _ _) as [[res s'] []].
    destruct H as (c' & H & ?). exists c'. by split; [eapply solo_step|].
Qed.

(** *** Scripted sub-services

    Sub-service [k] returns fixed errors and logs the calls it gets. *)

Inductive logEntry := LStart (k : nat) | LClose (k : nat) | LStartHook | LCloseHook.

Definition scripted (x : nat * option error * option error) : Service (list logEntry) :=
  {| Name := ""; Start w := (x.1.2, w ++ [LStart x.1.1]); Close w := (x.2, w ++ [LClose x.1.1]);
     Ready w := None; HealthReport w := (∅, w) |}.
Definition hookOf (r : option error) (e : logEntry) (w : list logEntry) := (r, w ++ [e]).

Definition script : Type := list (nat * option error * option error).
Definition ids (xs : script) : list nat := (λ x, x.1.1) <$> xs.
Definition allStart (xs : script) : Prop := Forall (λ x, x.1.2 = None) xs.

Lemma startSubs_ok m xs w :
  allStart xs → startSubs m (scripted <$> xs) w = (None, w ++ (LStart <$> ids xs)).
Proof.
  revert m w. induction xs as [|x xs IH]; intros m w Hx; [by rewrite /= app_nil_r|].
  apply Forall_cons in Hx as [Hx Hxs]. cbn. rewrite Hx /= IH // /ids /= -assoc //.
Qed.

Lemma msClose_scripted xs w :
  ∃ e, msClose {| ms_started := scripted <$> xs |} w = (e, w ++ (LClose <$> reverse (ids xs))) ∧
       (e = None ↔ Forall (λ x, x.2 = None) xs).
Proof.
  rewrite /msClose /= -fmap_reverse /ids -fmap_reverse.
  cut (∀ (ys : script) acc w, ∃ e, foldl (λ '(err, w) s, let '(e, w) := Close s w in (Join [err; e], w)) (acc, w) (scripted <$> ys)
          = (e, w ++ (LClose <$> ((λ x, x.1.1) <$> ys))) ∧ (e = None ↔ acc = None ∧ Forall (λ x, x.2 = None) ys)).
  { intros Hc. destruct (Hc (reverse xs) None w) as (e & -> & He). exists e. split; [done|].
    rewrite He Forall_reverse. naive_solver. }
  induction ys as [|y ys IH]; intros acc v; simpl.
  - exists acc. rewrite app_nil_r. split; [done|]. naive_solver.
  - destruct (IH (Join [acc; y.2]) (v ++ [LClose y.1.1])) as (e & Hf & He). exists e.
    simpl in Hf. rewrite Hf. split; [by rewrite -assoc|]. rewrite He Join_None !Forall_cons Forall_nil. naive_solver.
Qed.

Lemma startSubs_fail done xs k e ce ys w :
  allStart xs →
  ∃ e', startSubs {| ms_started := scripted <$> done |} (scripted <$> xs ++ (k, Some e, ce) :: ys) w =
    (Some e', w ++ (LStart <$> ids xs) ++ [LStart k] ++ (LClose <$> reverse (ids (done ++ xs)))) ∧
    ∀ t, Is e t → Is e' t.
Proof.
  revert done w. induction xs as [|x xs IH]; intros done w Hx.
  - cbn. destruct (msClose_scripted done (w ++ [LStart k])) as (ec & Hc & _). cbn in Hc. rewrite Hc.
    destruct (Join_Some [Some e; ec] e) as (j & Hj & Ht); [set_solver|]. rewrite Hj. eexists. split.
    + rewrite app_nil_r -assoc //.
    + intros t H. right. by apply Ht.
  - apply Forall_cons in Hx as [Hx Hxs]. cbn. rewrite Hx. cbn.
    destruct (IH (done ++ [x]) (w ++ [LStart x.1.1]) Hxs) as (e' & He & Ht).
    rewrite fmap_app in He. cbn in He. rewrite He. exists e'. split; [|done].
    rewrite -!assoc. done.
Qed.

(** The first start of a service runs the start function. *)
Lemma serviceStart_new {W} (c : Config W) subs w :
  serviceStart (new c subs) w =
  let '(err, w) := startFn (new c subs) w in
  (RFn err, {| cfg := c; subs := subs; sst := afterStart err;
               svcErrBuffer := SetCap {| buffer := []; cap := 0 |} defaultErrorBufferCap;
               conds := ∅; stopChanClosed := false |}, w).
Proof. rewrite /serviceStart /StartOnce /=. by destruct (startFn _ _). Qed.

(** When a sub-service fails to start, the ones started before it are
    closed in reverse order, the later ones and the hook never run, and the
    service ends in StartFailed with an error that contains the cause. *)
Theorem start_rollback name hook closeHook xs k e ce ys :
  allStart xs →
  let s := new {| cfgName := name; cfgStart := Some (hookOf hook LStartHook); cfgClose := closeHook |}
               (scripted <$> xs ++ (k, Some e, ce) :: ys) in
  ∃ e' s', serviceStart s [] = (RFn (Some e'), s',
             (LStart <$> ids xs) ++ [LStart k] ++ (LClose <$> reverse (ids xs))) ∧
           Is e' e ∧ sst s' = stateStartFailed.
Proof.
  intros Hx s. destruct (startSubs_fail [] xs k e ce ys [] Hx) as (e' & He & Ht).
  exists e'. eexists. rewrite /s serviceStart_new /startFn. cbn [subs new].
  case_decide as Hl; [|rewrite length_fmap length_app /= in Hl; lia].
  cbn in He |- *. rewrite He. split; [done|]. split; [apply Ht, Is_refl|done].
Qed.

(** When every sub-service starts and then the service's own start hook
    fails, no sub-service is closed: the service ends in StartFailed, and a
    later Close refuses without touching them. *)
Theorem start_hook_failure_leaks_subs name e closeHook xs O :
  allStart xs →
  let s := new {| cfgName := name; cfgStart := Some (hookOf (Some e) LStartHook); cfgClose := closeHook |}
               (scripted <$> xs) in
  ∃ e' s' log, serviceStart s [] = (RFn (Some e'), s', log) ∧ Is e' e ∧
    log = (LStart <$> ids xs) ++ [LStartHook] ∧
    serviceClose O s' log = (RCannotStop stateStartFailed, s', log).
Proof.
  intros Hx s. pose proof (startSubs_ok {| ms_started := [] |} xs [] Hx) as Hs. cbn in Hs.
  eexists (EWrap _ e), _, _. split.
  { rewrite /s serviceStart_new /startFn. cbn [subs new]. case_decide as Hl.
    - cbn. rewrite Hs. cbn. reflexivity.
    - destruct xs as [|x xs]; [|rewrite length_fmap /= in Hl; lia]. cbn. reflexivity. }
  split; [right; apply Is_refl|]. split; [done|]. done.
Qed.

Lemma joins_None es acc :
  foldl (λ err e, Join [err; Some e]) acc es = None ↔ acc = None ∧ es = [].
Proof.
  revert acc. induction es as [|e es IH]; intros acc; simpl; [naive_solver|].
  rewrite IH Join_None !Forall_cons Forall_nil. naive_solver.
Qed.

Lemma multiClose_scripted O (xs : script) w :
  ∃ e xs', multiClose O (scripted <$> xs) w = (e, w ++ (LClose <$> ids xs')) ∧ xs' ≡ₚ xs ∧
           (e = None ↔ Forall (λ x, x.2 = None) xs).
Proof.
  rewrite /multiClose. case_decide as Hl.
  { destruct xs; [|done]. exists None, []. rewrite /= app_nil_r. split_and!; [done..|]. by split. }
  destruct (Permutation_map_inv _ _ (@range_order_perm _ O (scripted <$> xs))) as (xs' & Hro & Hp). rewrite Hro.
  cut (∀ (ys : script) errs w, ∃ errs',
    foldl (λ '(errs, w) s, let '(e, w) := Close s w in
                           (match e with Some e => errs ++ [e] | None => errs end, w)) (errs, w) (map scripted ys)
    = (errs ++ errs', w ++ (LClose <$> ids ys)) ∧ (errs' = [] ↔ Forall (λ x, x.2 = None) ys)).
  { intros Hc. destruct (Hc xs' [] w) as (errs & -> & He). eexists _, xs'. split; [done|]. split; [done|].
    rewrite joins_None /= He -Hp. naive_solver. }
  induction ys as [|y ys IH]; intros errs v; simpl.
  - exists []. rewrite !app_nil_r. split; [done|]. by split.
  - destruct (IH (match y.2 with Some e => errs ++ [e] | None => errs end) (v ++ [LClose y.1.1])) as (errs' & Hf & He).
    exists ((match y.2 with Some e => [e] | None => [] end) ++ errs'). rewrite Hf /ids /= -assoc. split.
    + destruct y.2; [by rewrite -assoc|done].
    + rewrite Forall_cons -He. destruct y.2; naive_solver.
Qed.

(** Closing a started service closes its stop channel, runs the close hook,
    then closes every sub-service exactly once, whatever fails on the way; the
    result is nil exactly when nothing failed, and a second Close refuses
    without touching anything. *)
Theorem close_all O (s : service (list logEntry)) (xs : script) hook w :
  sst s = stateStarted → subs s = scripted <$> xs → cfgClose (cfg s) = Some (hookOf hook LCloseHook) →
  ∃ err s' xs',
    serviceClose O s w = (RFn err, s', w ++ [LCloseHook] ++ (LClose <$> ids xs')) ∧ xs' ≡ₚ xs ∧
    (err = None ↔ hook = None ∧ Forall (λ x, x.2 = None) xs) ∧
    stopChanClosed s' = true ∧ sst s' = afterStop err ∧
    ∀ w', serviceClose O s' w' = (stopRefusal (afterStop err), s', w').
Proof.
  intros Hs Hsubs Hh. rewrite /serviceClose /StopOnce Hs /closeFn Hsubs Hh. cbn [hookOf].
  destruct (multiClose_scripted O xs (w ++ [LCloseHook])) as (e & xs' & Hm & Hp & He).
  destruct (decide (stateStarted = stateStarted)) as [_|]; [|done]. case_decide as Hl.
  - destruct xs; [|done]. apply Permutation_nil_r in Hp as ->. exists hook. eexists _, [].
    split; [done|]. split; [done|]. split; [by split; [intros; split; [done|constructor]|intros [? _]]|].
    split; [done|]. split; [done|]. intros w'. cbn. by destruct hook.
  - rewrite Hm. exists (Join [hook; e]). eexists _, xs'. split; [by rewrite /= -assoc|]. split; [done|].
    split; [rewrite Join_None !Forall_cons Forall_nil He; naive_solver|]. split; [done|]. split; [done|].
    intros w'. cbn. by destruct (Join _).
Qed.

(** *** Health reports *)

Lemma CopyHealth_list (l : list (string * option error)) dest :
  NoDup l.*1 →
  ∃ dest', ofold (copyEntry false) dest l = Ok dest' ∧
    (∀ n, n ∉ l.*1 → dest' !! n = dest !! n) ∧
    (∀ n err, (n, err) ∈ l →
       dest' !! n = Some (match dest !! n with Some (Some e) => Join [Some e; err] | _ => err end)).
Proof.
  revert dest. induction l as [|[n err] l IH]; intros dest Hnd; simpl.
  { exists dest. split; [done|]. split; [done|]. intros ?? H. by apply elem_of_nil in H. }
  apply NoDup_cons in Hnd as [Hn Hnd].
  destruct (IH (<[n := match dest !! n with Some (Some e) => Join [Some e; err] | _ => err end]> dest) Hnd)
    as (dest' & Hd & Hout & Hin).
  exists dest'. split_and!.
  - rewrite -Hd. by destruct (dest !! n) as [[]|].
  - intros m Hm. apply not_elem_of_cons in Hm as [Hmn Hm]. by rewrite Hout // lookup_insert_ne.
  - intros m e' [[= -> ->]|Hl]%elem_of_cons; [by rewrite Hout // lookup_insert; case_decide|].
    rewrite (Hin _ _ Hl) lookup_insert_ne; [done|]. intros ->. apply Hn. by apply (list_elem_of_fmap_2 fst) in Hl.
Qed.

(** Copying a health report, outside tests, does not depend on the order of
    the map: every name of either report is in the result, errors of a name
    that had an error already are joined to it, and a nil never hides an
    error. *)
Theorem CopyHealth_merge O dest src :
  ∃ m, CopyHealth O false dest src = Ok m ∧
    ∀ n, m !! n = match src !! n, dest !! n with
                  | None, d => d
                  | Some err, Some (Some e) => Some (Join [Some e; err])
                  | Some err, _ => Some err
                  end.
Proof.
  destruct (CopyHealth_list (range_map O src) dest (NoDup_fst_range_map O src)) as (m & Hm & Hout & Hin).
  exists m. split; [exact Hm|]. intros n. destruct (src !! n) as [err|] eqn:E.
  - rewrite (Hin n err); [by destruct (dest !! n) as [[]|]|by apply elem_of_range_map].
  - rewrite Hout; [done|]. intros ([n' e'] & -> & H)%list_elem_of_fmap.
    apply elem_of_range_map in H. simpl in E. congruence.
Qed.

(** *** The health checker *)

Lemma nilEntry_foldl l ok acc :
  (foldl nilEntry (ok, acc) l).2 = foldl (λ errors kv, <[kv.1 := kv.2]> errors) acc l ∧
  ((foldl nilEntry (ok, acc) l).1 = true ↔ ok = true ∧ Forall (λ kv, kv.2 = None) l).
Proof.
  revert ok acc. induction l as [|[n e] l IH]; intros ok acc; simpl; [naive_solver|].
  destruct (IH (match e with Some _ => false | None => ok end) (<[n := e]> acc)) as [H1 H2].
  split; [exact H1|]. etrans; [exact H2|]. rewrite Forall_cons. destruct e; naive_solver.
Qed.

Lemma Forall_range_map {V} (O : RangeOrder (string * V)) (m : gmap string V) (P : V → Prop) :
  Forall (λ kv, P kv.2) (range_map O m) ↔ ∀ n v, m !! n = Some v → P v.
Proof.
  rewrite Forall_forall. split.
  - intros H n v Hv. apply (H (n, v)). by apply elem_of_range_map.
  - intros H [n v] Hk. apply elem_of_range_map in Hk. by eapply H.
Qed.

Lemma allNil_spec O m :
  (allNil O m).2 = m ∧ ((allNil O m).1 = true ↔ ∀ n e, m !! n = Some e → e = None).
Proof.
  rewrite /allNil. destruct (nilEntry_foldl (range_map O m) true ∅) as [H1 H2]. split.
  - rewrite H1. apply map_eq. intros n. rewrite (foldl_insert_range _ (λ _ v, v)); [|done]. by destruct (m !! n).
  - rewrite H2 -(Forall_range_map O). naive_solver.
Qed.

(** The readiness map after a round of checks. *)
Lemma update_ready {R} O O' ask (c : HealthChecker R) n :
  hc_ready (update O O' ask c) !! n =
  match hc_services c !! n with Some s => Some (ask s).1 | None => hc_ready c !! n end.
Proof.
  rewrite /update.
  assert (∀ (l : list (string * R)) acc, (foldl (checkEntry O' ask) acc l).1
          = foldl (λ (ready : healthMap) kv, <[kv.1 := (ask kv.2).1]> ready) acc.1 l) as Hl.
  { induction l as [|[k v] l IH]; intros [a b]; [done|]. simpl. apply IH. }
  specialize (Hl (range_map O (hc_services c)) (∅, ∅)).
  destruct (foldl _ _ _) as [ready healthy]. simpl in Hl. subst ready.
  cbn [hc_ready]. rewrite /mapsCopy lookup_union.
  rewrite (foldl_insert_range _ (λ _ s, (ask s).1)); [|done]. rewrite lookup_empty.
  destruct (hc_services c !! n), (hc_ready c !! n); done.
Qed.

(** Right after a round of checks of a checker from which no checked
    service was removed, the system is ready exactly when every registered
    service answered that it is, and the reported errors are the answers. *)
Theorem IsReady_iff {R} O O' O'' ask (c : HealthChecker R) :
  dom (hc_ready c) ⊆ dom (hc_services c) →
  ((IsReady O (update O' O'' ask c)).1 = true ↔ ∀ n s, hc_services c !! n = Some s → (ask s).1 = None) ∧
  (IsReady O (update O' O'' ask c)).2 = (λ s, (ask s).1) <$> hc_services c.
Proof.
  intros Hdom. assert (hc_ready (update O' O'' ask c) = (λ s, (ask s).1) <$> hc_services c) as Heq.
  { apply map_eq. intros n. rewrite update_ready lookup_fmap. destruct (hc_services c !! n) eqn:E; [done|].
    apply not_elem_of_dom in E. simpl. apply not_elem_of_dom. set_solver. }
  rewrite /IsReady Heq. destruct (allNil_spec O ((λ s, (ask s).1) <$> hc_services c)) as [H1 H2]. split; [|done].
  rewrite H2. split.
  - intros H n s Hs. apply (H n). by rewrite lookup_fmap Hs.
  - intros H n e. rewrite lookup_fmap fmap_Some. intros (s & Hs & ->). by eapply H.
Qed.

(** What can happen to a checker after [name] was unregistered and not
    registered again. *)
Inductive evolves {R} (name : string) : HealthChecker R → HealthChecker R → Prop :=
  | ev_refl c : evolves name c c
  | ev_update O O' ask c c' : evolves name (update O O' ask c) c' → evolves name c c'
  | ev_register n s c c' c'' : n ≠ name → Register n s c = Ok c' → evolves name c' c'' → evolves name c c''
  | ev_unregister n c c' c'' : Unregister n c = Ok c' → evolves name c' c'' → evolves name c c''.

(** A service that is unregistered while its last answer was an error
    keeps the whole system unready for ever: unregistering removes it from the
    checked services but not from the recorded answers. *)
Theorem unregister_keeps_error {R} O name e (c c' c'' : HealthChecker R) :
  hc_ready c !! name = Some (Some e) → Unregister name c = Ok c' → evolves name c' c'' →
  (IsReady O c'').1 = false.
Proof.
  intros He Hu Hev.
  assert (hc_ready c' !! name = Some (Some e) ∧ hc_services c' !! name = None) as Hinv.
  { rewrite /Unregister in Hu. case_decide; simplify_eq/=. split; [done|]. apply lookup_delete_eq. }
  clear He Hu c. assert (hc_ready c'' !! name = Some (Some e)) as Hr.
  { induction Hev as [c|O1 O2 ask c c'' _ IH|n s c c1 c2 Hn Hreg _ IH|n c c1 c2 Hun _ IH]; [apply Hinv|..].
    - apply IH. rewrite update_ready. destruct Hinv as [? Hs]. rewrite /update. destruct (foldl _ _ _).
      by rewrite Hs.
    - apply IH. rewrite /Register in Hreg. case_decide; simplify_eq/=. by rewrite lookup_insert_ne.
    - apply IH. rewrite /Unregister in Hun. case_decide; simplify_eq/=. split; [apply Hinv|].
      destruct (decide (n = name)) as [->|]; [apply lookup_delete_eq|rewrite lookup_delete_ne; naive_solver]. }
  destruct (allNil_spec O (hc_ready c'')) as [_ H2]. rewrite /IsReady.
  destruct (allNil _ _).1; [|done]. by pose proof (proj1 H2 eq_refl name _ Hr).
Qed.

(** *** Witnesses *)

Lemma once_refines_witness :
  let c := initial (λ _, CStartOnce) in
  unlocked c ∧
  (threads c 4 = StartCas1 →
   let '(res, s', eb', _) := StartOnce (st c) (errs c) (λ _, (None, ())) () in
   ∃ c', rtc step c c' ∧ threads c' 4 = Done res ∧ st c' = s' ∧ errs c' = eb' ∧ unlocked c') ∧
  (threads c 4 = StopLock →
   let '(res, s', _) := StopOnce (st c) (λ _, (None, ())) () in
   ∃ c', rtc step c c' ∧ threads c' 4 = Done res ∧ st c' = s' ∧ errs c' = errs c ∧ unlocked c').
Proof. split; [by split|]. apply (once_refines 4 (initial (λ _, CStartOnce)) None). by split. Defined.

Definition boom : error := ELeaf "boom".
Definition demoSubs : script := [(0, None, None); (1, None, Some boom)].

Lemma start_rollback_witness :
  allStart demoSubs ∧
  ∃ e' s', serviceStart (new {| cfgName := "svc"; cfgStart := Some (hookOf None LStartHook); cfgClose := None |}
                           (scripted <$> demoSubs ++ (2, Some boom, None) :: [(3, None, None)])) [] =
           (RFn (Some e'), s', [LStart 0; LStart 1; LStart 2; LClose 1; LClose 0]) ∧
           Is e' boom ∧ sst s' = stateStartFailed.
Proof.
  assert (allStart demoSubs) as H by (repeat constructor). split; [exact H|].
  apply (start_rollback "svc" None None demoSubs 2 boom None [(3, None, None)] H).
Defined.

Lemma start_hook_failure_leaks_subs_witness :
  allStart demoSubs ∧
  ∃ e' s' log, serviceStart (new {| cfgName := "svc"; cfgStart := Some (hookOf (Some boom) LStartHook); cfgClose := None |}
                               (scripted <$> demoSubs)) [] = (RFn (Some e'), s', log) ∧ Is e' boom ∧
    log = [LStart 0; LStart 1; LStartHook] ∧
    serviceClose (insertion_order _) s' log = (RCannotStop stateStartFailed, s', log).
Proof.
  assert (allStart demoSubs) as H by (repeat constructor). split; [exact H|].
  apply (start_hook_failure_leaks_subs "svc" boom None demoSubs (insertion_order _) H).
Defined.

Definition demoService : service (list logEntry) :=
  {| cfg := {| cfgName := "svc"; cfgStart := None; cfgClose := Some (hookOf None LCloseHook) |};
     subs := scripted <$> demoSubs; sst := stateStarted; svcErrBuffer := {| buffer := []; cap := 50 |};
     conds := ∅; stopChanClosed := false |}.

Lemma close_all_witness :
  ∃ err s' xs',
    serviceClose (reverse_order _) demoService [] = (RFn err, s', [] ++ [LCloseHook] ++ (LClose <$> ids xs')) ∧
    xs' ≡ₚ demoSubs ∧
    (err = None ↔ None = None :> option error ∧ Forall (λ x, x.2 = None) demoSubs) ∧
    stopChanClosed s' = true ∧ sst s' = afterStop err ∧
    ∀ w', serviceClose (reverse_order _) s' w' = (stopRefusal (afterStop err), s', w').
Proof. apply (close_all (reverse_order _) demoService demoSubs None []); reflexivity. Defined.

Definition demoChecker : HealthChecker bool :=
  {| hc_services := {[ "a" := true; "b" := false ]}; hc_ready := ∅; hc_healthy := ∅ |}.
Definition demoAsk (r : bool) : option error * healthMap := (if r then None else Some boom, ∅).

Lemma IsReady_iff_witness :
  dom (hc_ready demoChecker) ⊆ dom (hc_services demoChecker) ∧
  (((IsReady (insertion_order _) (update (insertion_order _) (insertion_order _) demoAsk demoChecker)).1 = true ↔
    ∀ n s, hc_services demoChecker !! n = Some s → (demoAsk s).1 = None) ∧
   (IsReady (insertion_order _) (update (insertion_order _) (insertion_order _) demoAsk demoChecker)).2
   = (λ s, (demoAsk s).1) <$> hc_services demoChecker).
Proof.
  assert (dom (hc_ready demoChecker) ⊆ dom (hc_services demoChecker)) as H by (simpl; set_solver).
  split; [exact H|]. by apply (IsReady_iff _ _ _ demoAsk demoChecker).
Defined.

Definition demoUnready : HealthChecker bool :=
  update (insertion_order _) (insertion_order _) demoAsk demoChecker.
Definition demoRemoved : HealthChecker bool :=
  {| hc_services := delete "b" (hc_services demoUnready); hc_ready := hc_ready demoUnready; hc_healthy := hc_healthy demoUnready |}.

Lemma unregister_keeps_error_witness :
  hc_ready demoUnready !! "b" = Some (Some boom) ∧ Unregister "b" demoUnready = Ok demoRemoved ∧
  (IsReady (insertion_order _) (update (insertion_order _) (insertion_order _) demoAsk demoRemoved)).1 = false.
Proof.
  assert (hc_ready demoUnready !! "b" = Some (Some boom)) as H by (vm_compute; reflexivity).
  assert (Unregister "b" demoUnready = Ok demoRemoved) as H' by reflexivity.
  split; [exact H|]. split; [exact H'|].
  apply (unregister_keeps_error (insertion_order _) "b" boom demoUnready demoRemoved); [exact H|exact H'|].
  eapply ev_update, ev_refl.
Defined.
End Services.
