(* ===== verification/RequestStore.v ===== *)
(** [src/pkg/capabilities/consensus/ocr3/requests/store.go] and [request.go]:
    the in-memory store of ongoing consensus requests, and the abstract queue
    it implements.

    Every method runs under the store's lock, so a method is one transition.
    Requests are deep-copied on the way out, and the model's values are
    immutable: [Copy] is the identity. *)

From S2P Require Import Prelude.

Module RequestStore.

(** A channel is a number; [V] is the type of the observed values and of the
    encoder configuration. *)
Record Request (V : Type) := mkRequest {
  Observations : V;
  OverriddenEncoderName : string;
  OverriddenEncoderConfig : V;
  ExpiresAt : Z;
  CallbackCh : nat;
  WorkflowExecutionID : string;
  WorkflowID : string;
  WorkflowOwner : string;
  WorkflowName : string;
  WorkflowDonID : Z;
  WorkflowDonConfigVersion : Z;
  ReportID : string;
  KeyID : string
}.
Arguments mkRequest {V}.
Arguments Observations {V}.
Arguments OverriddenEncoderName {V}.
Arguments OverriddenEncoderConfig {V}.
Arguments ExpiresAt {V}.
Arguments CallbackCh {V}.
Arguments WorkflowExecutionID {V}.
Arguments WorkflowID {V}.
Arguments WorkflowOwner {V}.
Arguments WorkflowName {V}.
Arguments WorkflowDonID {V}.
Arguments WorkflowDonConfigVersion {V}.
Arguments ReportID {V}.
Arguments KeyID {V}.

Section store.
Context {V : Type}.
Implicit Types (r : Request V) (id : string).

Record Store := mkStore { requestIDs : list string; requests : gmap string (Request V) }.

(** [Request.Copy] *)
Definition Copy (r : Request V) : Request V :=
  mkRequest (Observations r) (OverriddenEncoderName r) (OverriddenEncoderConfig r) (ExpiresAt r) (CallbackCh r)
    (WorkflowExecutionID r) (WorkflowID r) (WorkflowOwner r) (WorkflowName r) (WorkflowDonID r)
    (WorkflowDonConfigVersion r) (ReportID r) (KeyID r).

Definition NewStore : Store := mkStore [] ∅.

Inductive error := ErrZeroBatch | ErrExists (id : string).

Fixpoint GetByIDs (s : Store) (ids : list string) : list (Request V) :=
  match ids with
  | [] => []
  | id :: ids => match requests s !! id with Some r => Copy r :: GetByIDs s ids | None => GetByIDs s ids end
  end.

(** The loop of [FirstN] over the remaining ids; [got] requests so far. *)
Fixpoint firstNLoop (s : Store) (batchSize : Z) (ids : list string) (got : list (Request V)) : list (Request V) :=
  match ids with
  | [] => got
  | id :: ids =>
      match requests s !! id with
      | None => firstNLoop s batchSize ids got
      | Some r =>
          let got := got ++ [Copy r] in
          if decide (Z.of_nat (length got) = batchSize) then got else firstNLoop s batchSize ids got
      end
  end.

Definition FirstN (s : Store) (batchSize : Z) : outcome error (list (Request V)) :=
  if decide (batchSize = 0)%Z then Err ErrZeroBatch
  else if decide (length (requestIDs s) = 0) then Ok []
  else Ok (firstNLoop s batchSize (requestIDs s) []).

Definition Add (s : Store) (req : Request V) : outcome error Store :=
  match requests s !! WorkflowExecutionID req with
  | Some _ => Err (ErrExists (WorkflowExecutionID req))
  | None => Ok (mkStore (requestIDs s ++ [WorkflowExecutionID req])
                        (<[WorkflowExecutionID req := req]> (requests s)))
  end.

Definition Get (s : Store) (id : string) : option (Request V) := Copy <$> requests s !! id.

Definition evict (s : Store) (id : string) : option (Request V) * bool * Store :=
  (requests s !! id,
   bool_decide (is_Some (requests s !! id)) || bool_decide (id ∈ requestIDs s),
   mkStore (filter (λ rid, rid ≠ id) (requestIDs s)) (delete id (requests s))).

(** *** The abstract queue

    What the store promises: requests with distinct ids in arrival order. *)
Definition queue : Type := list (Request V).

Definition qlookup (q : queue) (id : string) : option (Request V) :=
  list_find (λ r, WorkflowExecutionID r = id) q ≫= λ ir, Some ir.2.
Definition qadd (q : queue) (req : Request V) : option queue :=
  match qlookup q (WorkflowExecutionID req) with Some _ => None | None => Some (q ++ [req]) end.
Definition qevict (q : queue) (id : string) : queue := filter (λ r, WorkflowExecutionID r ≠ id) q.

(** The store that represents a queue. *)
Definition represents (s : Store) (q : queue) : Prop :=
  requestIDs s = WorkflowExecutionID <$> q ∧ NoDup (WorkflowExecutionID <$> q) ∧
  ∀ id, requests s !! id = qlookup q id.

Lemma Copy_id r : Copy r = r.
Proof. by destruct r. Qed.

Lemma qlookup_cons r (q : queue) id :
  qlookup (r :: q) id = if decide (WorkflowExecutionID r = id) then Some r else qlookup q id.
Proof.
  rewrite /qlookup /=. case_decide; [done|]. destruct (list_find _ q) as [[]|]; done.
Qed.

Lemma qlookup_Some (q : queue) id r : NoDup (WorkflowExecutionID <$> q) →
  qlookup q id = Some r ↔ r ∈ q ∧ WorkflowExecutionID r = id.
Proof.
  induction q as [|r' q IH]; intros Hnd; [split; [done|intros [H _]; by apply elem_of_nil in H]|].
  rewrite fmap_cons in Hnd. apply NoDup_cons in Hnd as [Hr' Hnd]. rewrite qlookup_cons elem_of_cons.
  case_decide as Hid; [|rewrite IH //; naive_solver]. split; [naive_solver|]. intros [[->|H] Hid']; [done|].
  exfalso. apply Hr'. rewrite Hid -Hid'. by apply list_elem_of_fmap_2.
Qed.

Lemma qlookup_None (q : queue) id : qlookup q id = None ↔ id ∉ WorkflowExecutionID <$> q.
Proof.
  induction q as [|r q IH]; [by split; [intros _ H; apply elem_of_nil in H|]|].
  rewrite qlookup_cons fmap_cons not_elem_of_cons. case_decide; naive_solver.
Qed.

Lemma represents_empty : represents NewStore [].
Proof. split; [done|]. split; [constructor|]. intros id. by rewrite lookup_empty. Qed.

Lemma Add_represents s q req :
  represents s q →
  match Add s req, qadd q req with
  | Ok s', Some q' => represents s' q'
  | Err e, None => e = ErrExists (WorkflowExecutionID req)
  | _, _ => False
  end.
Proof.
  intros (Hids & Hnd & Hm). rewrite /Add /qadd Hm. destruct (qlookup q _) as [r|] eqn:E; [done|].
  apply qlookup_None in E. split_and!; simpl.
  - by rewrite Hids fmap_app.
  - rewrite fmap_app. apply NoDup_app. split; [done|]. split; [|apply NoDup_singleton]. set_solver.
  - intros id. assert (∀ q' : queue, WorkflowExecutionID req ∉ WorkflowExecutionID <$> q' →
                   qlookup (q' ++ [req]) id = if decide (WorkflowExecutionID req = id) then Some req else qlookup q' id) as Happ.
    { induction q' as [|r q' IH]; intros Hq; [apply qlookup_cons|]. simpl. rewrite fmap_cons not_elem_of_cons in Hq.
      rewrite !qlookup_cons IH; [|naive_solver]. repeat case_decide; naive_solver. }
    rewrite Happ; [|done]. rewrite -Hm. case_decide as Hd; [subst; apply lookup_insert_eq|by apply lookup_insert_ne].
Qed.

Lemma evict_represents s q id :
  represents s q →
  let '(r, found, s') := evict s id in
  represents s' (qevict q id) ∧ r = qlookup q id ∧ (found = true ↔ is_Some r).
Proof.
  intros (Hids & Hnd & Hm). rewrite /evict. split; [split_and!; simpl|].
  - rewrite Hids /qevict. clear. induction q as [|r q IH]; [done|]. rewrite fmap_cons !filter_cons.
    case_decide; [by rewrite fmap_cons IH|done].
  - rewrite /qevict. clear -Hnd. induction q as [|r q IH]; [constructor|].
    rewrite fmap_cons in Hnd. apply NoDup_cons in Hnd as [Hr Hnd]. rewrite filter_cons. case_decide; [|by auto].
    rewrite fmap_cons. apply NoDup_cons. split; [|by auto]. intros (r' & Hr' & Hin)%list_elem_of_fmap.
    apply Hr. rewrite Hr'. apply list_elem_of_fmap_2. by apply list_elem_of_filter in Hin as [].
  - intros id'. rewrite /qevict. destruct (decide (id = id')) as [->|Hne].
    + rewrite lookup_delete_eq. symmetry. apply qlookup_None. intros (r & -> & [? _]%list_elem_of_filter)%list_elem_of_fmap. done.
    + rewrite lookup_delete_ne // Hm. clear -Hne. induction q as [|r q IH]; [done|].
      rewrite filter_cons qlookup_cons. destruct (decide (WorkflowExecutionID r ≠ id)) as [H1|H1].
      * by rewrite qlookup_cons IH.
      * apply dec_stable in H1. rewrite decide_False; [apply IH|congruence].
  - rewrite Hm. split; [done|]. rewrite orb_true_iff !bool_decide_eq_true. split; [|by left].
    intros [H|H]; [done|]. destruct (qlookup q id) eqn:E; [done|]. apply qlookup_None in E. by rewrite Hids in H.
Qed.

Lemma firstNLoop_take s q batchSize done got :
  (∀ r, r ∈ q → requests s !! WorkflowExecutionID r = Some r) →
  (0 < batchSize)%Z → (Z.of_nat (length got) < batchSize)%Z → done = got →
  firstNLoop s batchSize (WorkflowExecutionID <$> q) got = take (Z.to_nat batchSize) (done ++ q).
Proof.
  intros Hq Hb. revert done got. induction q as [|r q IH]; intros done got Hl ->; simpl.
  - rewrite app_nil_r take_ge; [done|lia].
  - rewrite Hq; [|set_solver]. rewrite Copy_id. case_decide as Hd; rewrite length_app /= in Hd.
    + rewrite (cons_middle r got q) assoc. rewrite take_app_length'; [done|rewrite length_app /=; lia].
    + rewrite (IH ltac:(set_solver) (got ++ [r])); [by rewrite -assoc|rewrite length_app /=; lia|done].
Qed.

(** The stored requests are read back one by one. *)
Lemma represents_lookup s q r : represents s q → r ∈ q → requests s !! WorkflowExecutionID r = Some r.
Proof. intros (_ & Hnd & Hm) Hr. rewrite Hm. by apply qlookup_Some. Qed.

Lemma GetByIDs_represents s q ids : represents s q → GetByIDs s ids = omap (qlookup q) ids.
Proof.
  intros (_ & _ & Hm). induction ids as [|id ids IH]; [done|]. simpl. rewrite Hm IH.
  destruct (qlookup q id); [by rewrite Copy_id|done].
Qed.

Lemma FirstN_represents s q n :
  represents s q →
  FirstN s n = if decide (n = 0)%Z then Err ErrZeroBatch else Ok (if decide (0 < n)%Z then take (Z.to_nat n) q else q).
Proof.
  intros Hs. pose proof Hs as (Hids & _ & _). rewrite /FirstN. case_decide; [done|]. rewrite Hids length_fmap.
  case_decide as Hl.
  { destruct q; [|done]. by case_decide; rewrite ?take_nil. }
  f_equal. case_decide as Hn.
  - rewrite (firstNLoop_take s q n [] []); [done|by intros; eapply represents_lookup|done|simpl; lia|done].
  - assert (∀ q' got, (∀ r, r ∈ q' → requests s !! WorkflowExecutionID r = Some r) →
              firstNLoop s n (WorkflowExecutionID <$> q') got = got ++ q') as ->; [|done|by intros; eapply represents_lookup].
    clear Hids Hl. induction q' as [|r q' IH]; intros got Hq; [by rewrite /= app_nil_r|]. simpl.
    rewrite Hq; [|set_solver]. rewrite Copy_id. case_decide; [lia|]. rewrite IH; [by rewrite -assoc|set_solver].
Qed.

(** C39: the store implements a queue of requests with distinct ids: adding
    appends or refuses a known id, evicting removes and returns, reading returns
    what is there, and the first [n] are the oldest [n] (every request, for a
    negative [n]). *)
Theorem store_refines_queue s q :
  represents s q →
  (∀ req, match Add s req, qadd q req with
          | Ok s', Some q' => represents s' q'
          | Err e, None => e = ErrExists (WorkflowExecutionID req)
          | _, _ => False
          end) ∧
  (∀ id, let '(r, found, s') := evict s id in
         represents s' (qevict q id) ∧ r = qlookup q id ∧ (found = true ↔ is_Some r)) ∧
  (∀ id, Get s id = qlookup q id) ∧
  (∀ ids, GetByIDs s ids = omap (qlookup q) ids) ∧
  (∀ n, FirstN s n = if decide (n = 0)%Z then Err ErrZeroBatch
                     else Ok (if decide (0 < n)%Z then take (Z.to_nat n) q else q)).
Proof.
  intros Hs. split_and!.
  - intros req. by apply Add_represents.
  - intros id. by apply evict_represents.
  - intros id. rewrite /Get (proj2 (proj2 Hs)). destruct (qlookup q id); simpl; [by rewrite Copy_id|done].
  - intros ids. by apply GetByIDs_represents.
  - intros n. by apply FirstN_represents.
Qed.
End store.
Arguments Store : clear implicits.

Definition demoRequest (id : string) (ch : nat) (expiry : Z) : Request unit :=
  mkRequest () "" () expiry ch id "" "" "" 0 0 "" "".

Lemma store_refines_queue_witness :
  let q := [demoRequest "a" 0 10; demoRequest "b" 1 20] in
  let s := mkStore ["a"; "b"] {[ "a" := demoRequest "a" 0 10; "b" := demoRequest "b" 1 20 ]} in
  represents s q ∧ FirstN s 1 = Ok [demoRequest "a" 0 10].
Proof.
  intros q s. assert (represents s q) as H.
  { split; [reflexivity|]. split; [apply NoDup_cons; split; [set_solver|apply NoDup_singleton]|].
    intros id. rewrite /q !qlookup_cons. simpl. rewrite !lookup_insert lookup_empty. reflexivity. }
  split; [exact H|]. destruct (store_refines_queue s q H) as (_ & _ & _ & _ & Hn).
  rewrite (Hn 1%Z). reflexivity.
Defined.
End RequestStore.
