(* ===== verification/RequestHandler.v ===== *)
(** [src/pkg/capabilities/consensus/ocr3/requests/handler.go]: the worker that
    matches consensus requests with the responses of the reporting plugin.

    The worker owns its maps, so one turn of its select loop is one transition;
    [event] is the case the select took, with the clock's reading where the
    case reads it.  Callback channels are numbers: [sent] is what was sent on
    them and [closed] the closed ones. *)

From S2P Require Import Prelude GoErrors RequestStore.

Module RequestHandler.
Import RequestStore.

Section handler.
Context {V : Type}.

Record Response := mkResponse { respID : string; Value : option V; RespErr : option GoErrors.error }.

Record Handler := mkHandler {
  store : Store V;
  pendingRequests : gmap string (Request V);
  responseCache : gmap string (Response * Z);
  sent : list (nat * Response);
  closed : gset nat
}.

Definition NewHandler : Handler := mkHandler NewStore ∅ ∅ [] ∅.

Inductive event :=
  | EvExpirePending (now : Z)
  | EvExpireCache (now : Z)
  | EvRequest (req : Request V)
  | EvResponse (resp : Response) (now : Z).

Definition setStore (s : Store V) (h : Handler) : Handler :=
  mkHandler s (pendingRequests h) (responseCache h) (sent h) (closed h).
Definition setPending (p : gmap string (Request V)) (h : Handler) : Handler :=
  mkHandler (store h) p (responseCache h) (sent h) (closed h).
Definition setCache (c : gmap string (Response * Z)) (h : Handler) : Handler :=
  mkHandler (store h) (pendingRequests h) c (sent h) (closed h).

(** [ctxDone]: the select took the branch of the cancelled context.  Sending on
    a closed channel panics. *)
Definition sendResponse (ctxDone : bool) (req : Request V) (resp : Response) (h : Handler) : outcome unit Handler :=
  if ctxDone then Ok h
  else if decide (CallbackCh req ∈ closed h) then Panic
  else Ok (mkHandler (store h) (delete (WorkflowExecutionID req) (pendingRequests h)) (responseCache h)
             (sent h ++ [(CallbackCh req, resp)]) ({[CallbackCh req]} ∪ closed h)).

Definition timeoutResponse (req : Request V) : Response :=
  mkResponse (WorkflowExecutionID req) None
    (Some (ELeaf "timeout exceeded: could not process request before expiry")).

(** The body of the loop of [expirePendingRequests]. *)
Definition expireEntry (ctxDone : bool) (now : Z) (h : Handler) (kv : string * Request V) : outcome unit Handler :=
  if decide (ExpiresAt kv.2 < now)%Z then
    let '(_, _, s) := evict (store h) (WorkflowExecutionID kv.2) in
    sendResponse ctxDone kv.2 (timeoutResponse kv.2) (setStore s h)
  else Ok h.

Definition expirePendingRequests (O : RangeOrder (string * Request V)) (ctxDone : bool) (now : Z) (h : Handler)
    : outcome unit Handler :=
  ofold (expireEntry ctxDone now) h (range_map O (pendingRequests h)).

Definition expireCachedResponses (cacheExpiryTime now : Z) (h : Handler) : Handler :=
  setCache (filter (λ kv, ¬ (cacheExpiryTime < now - kv.2.2)%Z) (responseCache h)) h.

Definition onRequest (ctxDone : bool) (req : Request V) (h : Handler) : outcome unit Handler :=
  let id := WorkflowExecutionID req in
  let h := setPending (<[id := req]> (pendingRequests h)) h in
  match responseCache h !! id with
  | Some (resp, _) => sendResponse ctxDone req resp (setCache (delete id (responseCache h)) h)
  | None =>
      match Add (store h) req with
      | Ok s => Ok (setStore s h)
      | Err _ => Ok h
      | Panic => Panic
      end
  end.

Definition onResponse (ctxDone : bool) (resp : Response) (now : Z) (h : Handler) : outcome unit Handler :=
  let '(req, wasPresent, s) := evict (store h) (respID resp) in
  let h := setStore s h in
  if wasPresent then match req with Some req => sendResponse ctxDone req resp h | None => Panic end
  else Ok (setCache (<[respID resp := (resp, now)]> (responseCache h)) h).

(** One turn of the worker's loop. *)
Definition worker (O : RangeOrder (string * Request V)) (cacheExpiryTime : Z) (ctxDone : bool) (h : Handler) (e : event)
    : outcome unit Handler :=
  match e with
  | EvExpirePending now => expirePendingRequests O ctxDone now h
  | EvExpireCache now => Ok (expireCachedResponses cacheExpiryTime now h)
  | EvRequest req => onRequest ctxDone req h
  | EvResponse resp now => onResponse ctxDone resp now h
  end.

Definition run O expiry (h : Handler) (evs : list event) : outcome unit Handler := ofold (worker O expiry false) h evs.

(** *** Invariant *)

Definition requestOf (e : event) : list (Request V) := match e with EvRequest r => [r] | _ => [] end.
Definition requestsOf (evs : list event) : list (Request V) := mjoin (requestOf <$> evs).

(** What was sent on a request's channel. *)
Definition answers (h : Handler) (r : Request V) : list Response :=
  (filter (λ x, x.1 = CallbackCh r) (sent h)).*2.

(** Distinct ids and distinct callback channels. *)
Definition distinct (rs : list (Request V)) : Prop :=
  NoDup (WorkflowExecutionID <$> rs) ∧ NoDup (CallbackCh <$> rs).

Record inv (seen : list (Request V)) (h : Handler) : Prop := {
  inv_store : ∃ q, represents (store h) q;
  inv_pend id : pendingRequests h !! id = requests (store h) !! id;
  inv_id id r : pendingRequests h !! id = Some r → WorkflowExecutionID r = id ∧ r ∈ seen;
  inv_cache id resp t : responseCache h !! id = Some (resp, t) → pendingRequests h !! id = None ∧ respID resp = id;
  inv_seen r : r ∈ seen →
    match pendingRequests h !! WorkflowExecutionID r with
    | Some _ => answers h r = []
    | None => ∃ resp, answers h r = [resp] ∧ respID resp = WorkflowExecutionID r
    end;
  inv_closed c : c ∈ closed h → ∃ r, r ∈ seen ∧ CallbackCh r = c ∧ answers h r ≠ [];
  inv_sent c : c ∈ (sent h).*1 → ∃ r, r ∈ seen ∧ CallbackCh r = c
}.

Lemma inv_init : inv [] NewHandler.
Proof.
  split; simpl; try set_solver.
  exists []. apply represents_empty.
Qed.

Lemma distinct_inj rs r1 r2 :
  distinct rs → r1 ∈ rs → r2 ∈ rs →
  WorkflowExecutionID r1 = WorkflowExecutionID r2 ∨ CallbackCh r1 = CallbackCh r2 → r1 = r2.
Proof.
  intros [Hid Hch] H1 H2 Heq. apply list_elem_of_lookup in H1 as [i Hi], H2 as [j Hj].
  assert (i = j) as ->; [|congruence]. destruct Heq as [Heq|Heq].
  - eapply (NoDup_lookup (WorkflowExecutionID <$> rs)); [done|rewrite list_lookup_fmap Hi //|rewrite list_lookup_fmap Hj /= Heq //].
  - eapply (NoDup_lookup (CallbackCh <$> rs)); [done|rewrite list_lookup_fmap Hi //|rewrite list_lookup_fmap Hj /= Heq //].
Qed.

(** Answering a pending request. *)
Lemma sendResponse_inv seen h r resp :
  inv seen h → distinct seen → pendingRequests h !! WorkflowExecutionID r = Some r → respID resp = WorkflowExecutionID r →
  let '(_, _, s) := evict (store h) (WorkflowExecutionID r) in
  ∃ h', sendResponse false r resp (setStore s h) = Ok h' ∧ inv seen h' ∧
        pendingRequests h' = delete (WorkflowExecutionID r) (pendingRequests h).
Proof.
  intros [[q Hq] Hp Hid Hc Hs Hcl Hsn] Hd Hr Hresp. pose proof (evict_represents _ _ (WorkflowExecutionID r) Hq) as Hev.
  rewrite /evict in Hev |- *. destruct Hev as (Hq' & _). destruct (Hid _ _ Hr) as [_ Hin].
  pose proof (Hs _ Hin) as Hno. rewrite Hr in Hno.
  rewrite /sendResponse. cbn [closed setStore store]. rewrite decide_False.
  2:{ intros (r' & Hr' & Hch & Ha)%Hcl. apply Ha. by rewrite (distinct_inj _ _ _ Hd Hr' Hin (or_intror Hch)). }
  eexists. split; [done|]. split; [|done]. split; simpl.
  - by eexists.
  - intros id. destruct (decide (id = WorkflowExecutionID r)) as [->|Hne]; [by rewrite !lookup_delete_eq|].
    rewrite !lookup_delete_ne //.
  - intros id r' [_ Hr']%lookup_delete_Some. by apply Hid.
  - intros id resp' t Hct. destruct (Hc _ _ _ Hct) as [Hn ?]. split; [|done].
    apply lookup_delete_None. by right.
  - intros r' Hr'. rewrite /answers filter_app fmap_app /= filter_cons filter_nil.
    destruct (decide (WorkflowExecutionID r' = WorkflowExecutionID r)) as [Heq|Hne].
    + rewrite (distinct_inj _ _ _ Hd Hr' Hin (or_introl Heq)) lookup_delete_eq. exists resp. split; [|done].
      rewrite /answers in Hno. rewrite Hno decide_True //.
    + rewrite lookup_delete_ne // decide_False; [rewrite app_nil_r; by apply Hs|].
      intros Hch. apply Hne. simpl in Hch. by rewrite (distinct_inj _ _ _ Hd Hr' Hin (or_intror (eq_sym Hch))).
  - intros c [->%elem_of_singleton|Hcc]%elem_of_union.
    + exists r. split; [done|]. split; [done|]. rewrite /answers filter_app fmap_app /= filter_cons decide_True //.
      by destruct (filter _ _).*2.
    + destruct (Hcl _ Hcc) as (r' & Hr' & Hch & Ha). exists r'. split; [done|]. split; [done|].
      rewrite /answers filter_app fmap_app. rewrite /answers in Ha. by destruct (filter _ (sent h)).*2.
  - intros c. rewrite fmap_app elem_of_app. intros [Hc'| ->%list_elem_of_singleton]; [by apply Hsn|]. by exists r.
Qed.

(** A new request whose id and channel were never seen. *)
Lemma fresh_request seen h req :
  inv seen h → distinct (seen ++ [req]) →
  pendingRequests h !! WorkflowExecutionID req = None ∧ answers h req = [] ∧ CallbackCh req ∉ closed h.
Proof.
  intros [Hq Hp Hid Hc Hs Hcl Hsn] Hd.
  assert (∀ r, r ∈ seen → WorkflowExecutionID r = WorkflowExecutionID req ∨ CallbackCh r = CallbackCh req → False) as Hno.
  { intros r Hr Heq. destruct Hd as [Hd1 Hd2]. rewrite !fmap_app in Hd1, Hd2.
    apply NoDup_app in Hd1 as (_ & Hd1 & _), Hd2 as (_ & Hd2 & _). destruct Heq as [Heq|Heq].
    - apply (Hd1 (WorkflowExecutionID req)); [rewrite -Heq; by apply list_elem_of_fmap_2|set_solver].
    - apply (Hd2 (CallbackCh req)); [rewrite -Heq; by apply list_elem_of_fmap_2|set_solver]. }
  split_and!.
  - destruct (pendingRequests h !! _) as [r|] eqn:E; [|done]. destruct (Hid _ _ E). exfalso. eauto.
  - rewrite /answers. destruct (filter _ (sent h)) as [|x l] eqn:E; [done|]. exfalso.
    assert (x ∈ filter (λ x, x.1 = CallbackCh req) (sent h)) as [Hx Hin]%list_elem_of_filter by (rewrite E; set_solver).
    destruct (Hsn x.1) as (r & Hr & Hch); [by apply list_elem_of_fmap_2|]. eapply Hno; [done|]. right. congruence.
  - intros (r & Hr & Hch & _)%Hcl. eauto.
Qed.

(** The handler after [req] was stored. *)
Definition accepted (req : Request V) (h : Handler) : Handler :=
  mkHandler (mkStore (requestIDs (store h) ++ [WorkflowExecutionID req])
                     (<[WorkflowExecutionID req := req]> (requests (store h))))
    (<[WorkflowExecutionID req := req]> (pendingRequests h)) (delete (WorkflowExecutionID req) (responseCache h))
    (sent h) (closed h).

Lemma accepted_inv seen h req : inv seen h → distinct (seen ++ [req]) → inv (seen ++ [req]) (accepted req h).
Proof.
  intros Hinv Hd. destruct (fresh_request _ _ _ Hinv Hd) as (Hn & Ha & _).
  destruct Hinv as [[q Hq] Hp Hid Hc Hs Hcl Hsn].
  pose proof (Add_represents _ _ req Hq) as Hadd. rewrite /Add -Hp Hn in Hadd. destruct (qadd q req) as [q'|]; [|done].
  split; simpl.
  - by exists q'.
  - intros id. destruct (decide (id = WorkflowExecutionID req)) as [->|]; [by rewrite !lookup_insert_eq|].
    rewrite !lookup_insert_ne //.
  - intros id r [[<- <-]|[_ Hr]]%lookup_insert_Some; [set_solver|]. destruct (Hid _ _ Hr). set_solver.
  - intros id resp t [Hne Ht]%lookup_delete_Some. rewrite lookup_insert_ne //. by eapply Hc.
  - intros r [Hr| ->%list_elem_of_singleton]%elem_of_app; [|by rewrite lookup_insert_eq].
    destruct (decide (WorkflowExecutionID r = WorkflowExecutionID req)) as [Heq|Hne].
    + rewrite (distinct_inj _ r req Hd); [by rewrite lookup_insert_eq|set_solver|set_solver|by left].
    + rewrite lookup_insert_ne //. by apply Hs.
  - intros c (r & Hr & ? & ?)%Hcl. exists r. set_solver.
  - intros c (r & Hr & ?)%Hsn. exists r. set_solver.
Qed.

Lemma filter_snoc_fresh (l : list string) id : id ∉ l → filter (λ rid, rid ≠ id) (l ++ [id]) = l.
Proof.
  induction l as [|x l IH]; intros Hl; simpl; rewrite filter_cons; [by rewrite decide_False; [|tauto]|].
  apply not_elem_of_cons in Hl as [Hx Hl]. by rewrite decide_True // IH.
Qed.

Lemma onRequest_inv seen h req :
  inv seen h → distinct (seen ++ [req]) → ∃ h', onRequest false req h = Ok h' ∧ inv (seen ++ [req]) h'.
Proof.
  intros Hinv Hd. pose proof (accepted_inv _ _ _ Hinv Hd) as Hacc.
  destruct (fresh_request _ _ _ Hinv Hd) as (Hn & _ & Hnc). pose proof Hinv as [[q Hq] Hp Hid Hc Hs Hcl Hsn].
  assert (requests (store h) !! WorkflowExecutionID req = None) as Hns by (by rewrite -Hp).
  rewrite /onRequest. cbn [responseCache setPending]. destruct (responseCache h !! _) as [[resp t]|] eqn:E.
  - destruct (Hc _ _ _ E) as [_ Hresp]. rewrite /sendResponse. cbn [closed setCache setPending].
    rewrite decide_False //. eexists. split; [done|].
    pose proof (sendResponse_inv _ _ req resp Hacc Hd) as Hsend. cbn [pendingRequests accepted] in Hsend.
    specialize (Hsend ltac:(apply lookup_insert_eq) Hresp). rewrite /evict in Hsend.
    destruct Hsend as (h' & Heq & Hinv' & _). rewrite /sendResponse in Heq. cbn [closed setStore accepted] in Heq.
    rewrite decide_False // in Heq. injection Heq as <-. simpl in Hinv' |- *.
    rewrite filter_snoc_fresh in Hinv'.
    2:{ destruct Hq as (Hids & _ & Hm). rewrite Hids. apply qlookup_None. by rewrite -Hm. }
    rewrite delete_insert_id // in Hinv'. by destruct (store h).
  - rewrite /Add. cbn [store setPending]. rewrite Hns. eexists. split; [done|].
    rewrite /accepted delete_id // in Hacc.
Qed.

Lemma onResponse_inv seen h resp now :
  inv seen h → distinct seen → ∃ h', onResponse false resp now h = Ok h' ∧ inv seen h'.
Proof.
  intros Hinv Hd. pose proof Hinv as [[q Hq] Hp Hid Hc Hs Hcl Hsn].
  pose proof (evict_represents _ _ (respID resp) Hq) as Hev. rewrite /onResponse.
  destruct (requests (store h) !! respID resp) as [r|] eqn:E.
  - destruct (Hid (respID resp) r) as [Hr _]; [by rewrite Hp|].
    pose proof (sendResponse_inv _ _ r resp Hinv Hd) as Hsend. rewrite Hr in Hsend.
    specialize (Hsend ltac:(by rewrite Hp) eq_refl).
    rewrite /evict E in Hev, Hsend |- *. rewrite bool_decide_true /=; [|by eexists].
    destruct Hsend as (h' & Hsend & Hinv' & _). eauto.
  - rewrite /evict E in Hev |- *. destruct Hev as (Hq' & _ & Hf).
    destruct (_ || _); [by destruct (proj1 Hf eq_refl)|]. eexists. split; [done|].
    assert (delete (respID resp) (requests (store h)) = requests (store h)) as Hdel by (by apply delete_id).
    split; simpl; [by eexists| |done| |done|done|done].
    + intros id. by rewrite Hdel.
    + intros id resp' t [[<- [= <- <-]]|[_ Ht]]%lookup_insert_Some; [by rewrite Hp|by eapply Hc].
Qed.

Lemma expireLoop_inv seen now l h :
  inv seen h → distinct seen → NoDup l.*1 → (∀ id r, (id, r) ∈ l → pendingRequests h !! id = Some r) →
  ∃ h', ofold (expireEntry false now) h l = Ok h' ∧ inv seen h' ∧
        ∀ id r, pendingRequests h' !! id = Some r → pendingRequests h !! id = Some r ∧ (id ∈ l.*1 → (now <= ExpiresAt r)%Z).
Proof.
  revert h. induction l as [|[id r] l IH]; intros h Hinv Hd Hnd Hl.
  { exists h. split; [done|]. split; [done|]. intros id r Hr. split; [done|set_solver]. }
  rewrite fmap_cons in Hnd. apply NoDup_cons in Hnd as [Hnid Hnd]. simpl in Hnid.
  assert (pendingRequests h !! id = Some r) as Hr by (apply Hl; set_solver).
  destruct (inv_id _ _ Hinv _ _ Hr) as [<- _].
  assert (∀ h1, expireEntry false now h (WorkflowExecutionID r, r) = Ok h1 → inv seen h1 →
            (∀ id' r', (id', r') ∈ l → pendingRequests h1 !! id' = Some r') →
            (∀ id' r', pendingRequests h1 !! id' = Some r' → pendingRequests h !! id' = Some r' ∧
                         (id' = WorkflowExecutionID r → (now <= ExpiresAt r')%Z)) →
            ∃ h', ofold (expireEntry false now) h ((WorkflowExecutionID r, r) :: l) = Ok h' ∧ inv seen h' ∧
              ∀ id r0, pendingRequests h' !! id = Some r0 → pendingRequests h !! id = Some r0 ∧
                (id ∈ ((WorkflowExecutionID r, r) :: l).*1 → (now <= ExpiresAt r0)%Z)) as Hstep.
  { intros h1 He Hinv1 Hl1 Hsub. destruct (IH h1 Hinv1 Hd Hnd Hl1) as (h' & Hf & Hinv' & Hp').
    exists h'. split; [by cbn [ofold]; rewrite He|]. split; [done|]. intros id' r' Hr'. destruct (Hp' _ _ Hr') as [H1 H2].
    destruct (Hsub _ _ H1) as [H3 H4]. split; [done|]. rewrite fmap_cons elem_of_cons. simpl. naive_solver. }
  rewrite /expireEntry in Hstep. cbn [snd] in Hstep. case_decide as Hexp.
  - pose proof (sendResponse_inv _ _ r (timeoutResponse r) Hinv Hd Hr eq_refl) as Hsend.
    rewrite /evict in Hsend, Hstep. destruct Hsend as (h1 & Hs1 & Hinv1 & Hp1). apply (Hstep h1 Hs1 Hinv1).
    + intros id' r' Hin. rewrite Hp1 lookup_delete_ne; [apply Hl; set_solver|].
      intros <-. apply Hnid. by apply (list_elem_of_fmap_2 fst) in Hin.
    + intros id' r'. rewrite Hp1. intros [Hne Hr']%lookup_delete_Some. split; [done|]. congruence.
  - apply (Hstep h); [done|done|intros; apply Hl; set_solver|].
    intros id' r' Hr'. split; [done|]. intros ->. assert (r' = r) as -> by congruence. lia.
Qed.

Lemma expirePending_inv O seen now h :
  inv seen h → distinct seen →
  ∃ h', expirePendingRequests O false now h = Ok h' ∧ inv seen h' ∧
        ∀ id r, pendingRequests h' !! id = Some r → (now <= ExpiresAt r)%Z.
Proof.
  intros Hinv Hd. destruct (expireLoop_inv seen now (range_map O (pendingRequests h)) h Hinv Hd) as (h' & Hf & Hinv' & Hp).
  - apply NoDup_fst_range_map.
  - intros id r. by rewrite elem_of_range_map.
  - exists h'. split; [done|]. split; [done|]. intros id r Hr. destruct (Hp _ _ Hr) as [H1 H2]. apply H2.
    apply (list_elem_of_fmap_2' fst _ (id, r)); [by apply elem_of_range_map|done].
Qed.

Lemma expireCache_inv seen expiry now h : inv seen h → inv seen (expireCachedResponses expiry now h).
Proof.
  intros [Hq Hp Hid Hc Hs Hcl Hsn]. split; simpl; try done.
  intros id resp t [Hr _]%map_lookup_filter_Some. by eapply Hc.
Qed.

Lemma worker_inv O expiry seen h e :
  inv seen h → distinct (seen ++ requestOf e) →
  ∃ h', worker O expiry false h e = Ok h' ∧ inv (seen ++ requestOf e) h'.
Proof.
  intros Hinv Hd. destruct e as [now|now|req|resp now]; simpl in *; rewrite ?app_nil_r in Hd |- *.
  - destruct (expirePending_inv O seen now h Hinv Hd) as (h' & ? & ? & _). eauto.
  - eexists. split; [done|]. by apply expireCache_inv.
  - by apply onRequest_inv.
  - by apply onResponse_inv.
Qed.

Lemma distinct_app rs rs' : distinct (rs ++ rs') → distinct rs.
Proof. rewrite /distinct !fmap_app. by intros [(? & _)%NoDup_app (? & _)%NoDup_app]. Qed.

Lemma run_inv O expiry seen h evs :
  inv seen h → distinct (seen ++ requestsOf evs) →
  ∃ h', run O expiry h evs = Ok h' ∧ inv (seen ++ requestsOf evs) h'.
Proof.
  revert seen h. induction evs as [|e evs IH]; intros seen h Hinv Hd.
  { rewrite /requestsOf /= app_nil_r. eauto. }
  rewrite /requestsOf /= assoc -/(requestsOf evs) in Hd |- *.
  destruct (worker_inv O expiry seen h e Hinv) as (h1 & H1 & Hinv1); [by eapply distinct_app|].
  rewrite /run /= H1 /=. by apply IH.
Qed.
(** *** Properties *)

(** C7: whatever requests with distinct ids and channels, responses, expiry
    ticks and cache ticks arrive in whatever order, the worker does not panic,
    and every accepted request is either still pending, in both the handler and
    the store, with nothing sent to it, or was sent exactly one response, which
    carries its id. *)
Theorem exactly_one_response O expiry evs :
  distinct (requestsOf evs) →
  ∃ h, run O expiry NewHandler evs = Ok h ∧ ∀ r, r ∈ requestsOf evs →
    (pendingRequests h !! WorkflowExecutionID r = Some r ∧ requests (store h) !! WorkflowExecutionID r = Some r ∧
     answers h r = []) ∨
    (pendingRequests h !! WorkflowExecutionID r = None ∧
     ∃ resp, answers h r = [resp] ∧ respID resp = WorkflowExecutionID r).
Proof.
  intros Hd. destruct (run_inv O expiry [] NewHandler evs inv_init Hd) as (h & Hrun & [_ Hp Hid _ Hs _ _]).
  simpl in Hid, Hs. exists h. split; [done|]. intros r Hr. specialize (Hs r Hr).
  destruct (pendingRequests h !! WorkflowExecutionID r) as [r'|] eqn:E; [left|by right].
  destruct (Hid _ _ E) as [Hid' Hr']. assert (r' = r) as -> by (eapply distinct_inj; eauto).
  split; [done|]. split; [by rewrite -Hp|done].
Qed.

(** After a tick of the expiry timer, every request that was accepted before
    it and whose deadline has passed has been sent exactly one response. *)
Theorem expired_requests_answered O expiry evs now :
  distinct (requestsOf evs) →
  ∃ h, run O expiry NewHandler (evs ++ [EvExpirePending now]) = Ok h ∧
    ∀ r, r ∈ requestsOf evs → (ExpiresAt r < now)%Z → ∃ resp, answers h r = [resp] ∧ respID resp = WorkflowExecutionID r.
Proof.
  intros Hd. destruct (run_inv O expiry [] NewHandler evs inv_init Hd) as (h0 & Hrun & Hinv0). simpl in Hinv0.
  destruct (expirePending_inv O _ now h0 Hinv0 Hd) as (h & Hexp & Hinv & Hdl). exists h. split.
  { rewrite /run ofold_app. rewrite /run in Hrun. rewrite Hrun /= Hexp //. }
  intros r Hr Hlt. destruct Hinv as [_ _ Hid _ Hs _ _]. specialize (Hs r Hr).
  destruct (pendingRequests h !! WorkflowExecutionID r) as [r'|] eqn:E; [|done].
  destruct (Hid _ _ E) as [Hid' Hr']. assert (r' = r) as -> by (eapply distinct_inj; eauto).
  specialize (Hdl _ _ E). lia.
Qed.

(** Channel [c] is known to nobody any more, and nothing was sent on it. *)
Definition forgotten (c : nat) (h : Handler) : Prop :=
  (∀ id r, pendingRequests h !! id = Some r → CallbackCh r ≠ c) ∧
  (∀ id r, requests (store h) !! id = Some r → CallbackCh r ≠ c) ∧
  c ∉ (sent h).*1.

Lemma sendResponse_forgotten c r resp h h' :
  forgotten c h → CallbackCh r ≠ c → sendResponse false r resp h = Ok h' → forgotten c h'.
Proof.
  intros (Hp & Hs & Hc) Hr. rewrite /sendResponse. case_decide; [done|]. intros [= <-]. split_and!; simpl.
  - intros id r' [_ H']%lookup_delete_Some. by eapply Hp.
  - done.
  - rewrite fmap_app elem_of_app /= list_elem_of_singleton. naive_solver.
Qed.

Lemma evict_forgotten c id h : forgotten c h → forgotten c (setStore (evict (store h) id).2 h).
Proof. intros (Hp & Hs & Hc). split_and!; simpl; [done| |done]. intros id' r [_ H]%lookup_delete_Some. by eapply Hs. Qed.

Lemma expireLoop_forgotten c now l h h' :
  forgotten c h → (∀ kv, kv ∈ l → CallbackCh kv.2 ≠ c) → ofold (expireEntry false now) h l = Ok h' → forgotten c h'.
Proof.
  revert h. induction l as [|kv l IH]; intros h Hf Hl; cbn [ofold]; [by intros [= <-]|].
  intros (h1 & H1 & H2)%obind_Ok_inv. eapply IH; [|set_solver|done]. rewrite /expireEntry in H1. case_decide; [|by simplify_eq].
  rewrite /evict in H1. eapply sendResponse_forgotten; [|apply (Hl kv); set_solver|exact H1].
  by apply (evict_forgotten _ (WorkflowExecutionID kv.2)).
Qed.

Lemma worker_forgotten O expiry c h e h' :
  forgotten c h → (∀ r, r ∈ requestOf e → CallbackCh r ≠ c) → worker O expiry false h e = Ok h' → forgotten c h'.
Proof.
  intros Hf He. destruct e as [now|now|req|resp now]; simpl in *.
  - apply expireLoop_forgotten; [done|]. intros [id r] Hkv%elem_of_range_map. by eapply (proj1 Hf).
  - intros [= <-]. destruct Hf as (? & ? & ?). done.
  - assert (CallbackCh req ≠ c) as Hreq by (apply He; set_solver). destruct Hf as (Hp & Hs & Hc).
    assert (∀ id r, <[WorkflowExecutionID req := req]> (pendingRequests h) !! id = Some r → CallbackCh r ≠ c) as Hp'.
    { intros id r [[_ <-]|[_ Hr]]%lookup_insert_Some; [done|by eapply Hp]. }
    rewrite /onRequest. cbn [responseCache setPending]. destruct (responseCache h !! _) as [[resp t]|].
    + by apply sendResponse_forgotten.
    + rewrite /Add. cbn [store setPending]. destruct (requests (store h) !! _); intros [= <-]; [done|].
      split_and!; simpl; [done| |done]. intros id r [[_ <-]|[_ Hr]]%lookup_insert_Some; [done|by eapply Hs].
  - rewrite /onResponse /evict. destruct (_ || _).
    + destruct (requests (store h) !! respID resp) as [r|] eqn:E; [|done].
      apply sendResponse_forgotten; [by apply (evict_forgotten _ (respID resp))|by eapply (proj1 (proj2 Hf))].
    + intros [= <-]. apply (evict_forgotten _ (respID resp)) in Hf. destruct Hf as (? & ? & ?). done.
Qed.

(** When a second request arrives with the id of a pending one, the second
    replaces the first among the pending requests although the store refuses
    it: the response then answers the first and drops the second, whose
    channel never receives anything, not even a timeout. *)
Theorem duplicate_never_answered O expiry r1 r2 resp now :
  WorkflowExecutionID r1 = WorkflowExecutionID r2 → respID resp = WorkflowExecutionID r1 →
  CallbackCh r1 ≠ CallbackCh r2 →
  ∃ h, run O expiry NewHandler [EvRequest r1; EvRequest r2; EvResponse resp now] = Ok h ∧
    answers h r1 = [resp] ∧
    ∀ evs h', (∀ r, r ∈ requestsOf evs → CallbackCh r ≠ CallbackCh r2) →
      run O expiry h evs = Ok h' → answers h' r2 = [].
Proof.
  intros Hid Hresp Hne. exists (mkHandler (mkStore [] ∅) ∅ ∅ [(CallbackCh r1, resp)] {[CallbackCh r1]}). split_and!.
  - set (id := WorkflowExecutionID r1) in *.
    set (s1 := mkStore [id] (<[id := r1]> ∅)).
    assert (onRequest false r1 NewHandler = Ok (mkHandler s1 (<[id := r1]> ∅) ∅ [] ∅)) as H1 by done.
    assert (onRequest false r2 (mkHandler s1 (<[id := r1]> ∅) ∅ [] ∅) = Ok (mkHandler s1 (<[id := r2]> ∅) ∅ [] ∅)) as H2.
    { rewrite /onRequest -Hid. cbn [responseCache setPending pendingRequests]. rewrite lookup_empty /Add -Hid.
      cbn [requests s1 store setPending]. rewrite lookup_insert_eq /setPending /= insert_insert_eq //. }
    assert (onResponse false resp now (mkHandler s1 (<[id := r2]> ∅) ∅ [] ∅)
            = Ok (mkHandler (mkStore [] ∅) ∅ ∅ [(CallbackCh r1, resp)] {[CallbackCh r1]})) as H3.
    { rewrite /onResponse /evict Hresp. cbn [store requests requestIDs s1]. rewrite lookup_insert_eq.
      rewrite bool_decide_true; [|by eexists]. cbn [orb]. rewrite /sendResponse. cbn [closed setStore].
      case_decide as Hcl; [set_solver|]. cbn. rewrite -/id !delete_insert_id ?lookup_empty //.
      case_decide; [done|]. do 2 f_equal. set_solver. }
    rewrite /run. cbn [ofold worker]. rewrite H1 obind_ok H2 obind_ok H3 //.
  - rewrite /answers /= filter_cons decide_True //.
  - intros evs h' Hevs Hrun. assert (forgotten (CallbackCh r2) h') as (_ & _ & Hc).
    { revert Hrun Hevs. rewrite /run.
      assert (forgotten (CallbackCh r2) (mkHandler (mkStore [] ∅) ∅ ∅ [(CallbackCh r1, resp)] {[CallbackCh r1]})) as Hf.
      { split_and!; simpl; [intros ??; by rewrite lookup_empty..|]. rewrite list_elem_of_singleton. done. }
      revert Hf. generalize (mkHandler (mkStore [] ∅) ∅ ∅ [(CallbackCh r1, resp)] {[CallbackCh r1]}) as h0.
      clear. induction evs as [|e evs IH]; intros h0 Hf; cbn [ofold]; [by intros [= <-]|].
      intros (h1 & H1 & H2)%obind_Ok_inv Hevs. rewrite /requestsOf /= in Hevs.
      eapply IH; [|exact H2|intros r Hr; apply Hevs, elem_of_app; by right].
      eapply worker_forgotten; [exact Hf| |exact H1]. intros r Hr. apply Hevs, elem_of_app. by left. }
    rewrite /answers. destruct (filter _ _) as [|x l] eqn:E; [done|]. exfalso. apply Hc.
    assert (x ∈ filter (λ x, x.1 = CallbackCh r2) (sent h')) as [Hx Hin]%list_elem_of_filter by (rewrite E; set_solver).
    rewrite -Hx. by apply list_elem_of_fmap_2.
Qed.
End handler.

(** *** Witnesses *)

Definition demoResp (id : string) : @Response unit := mkResponse id (Some ()) None.
(** A response that arrives before its request, a normal exchange, and a
    request that expires. *)
Definition demoEvents : list (@event unit) :=
  [EvResponse (demoResp "b") 1; EvRequest (demoRequest "a" 0 10); EvRequest (demoRequest "b" 1 10);
   EvRequest (demoRequest "c" 2 5); EvResponse (demoResp "a") 3].

Lemma demo_distinct : distinct (requestsOf demoEvents).
Proof. split; apply (bool_decide_unpack _); vm_compute; exact I. Qed.

Lemma exactly_one_response_witness :
  distinct (requestsOf demoEvents) ∧
  ∃ h, run (insertion_order _) 100 NewHandler demoEvents = Ok h ∧ ∀ r, r ∈ requestsOf demoEvents →
    (pendingRequests h !! WorkflowExecutionID r = Some r ∧ requests (store h) !! WorkflowExecutionID r = Some r ∧
     answers h r = []) ∨
    (pendingRequests h !! WorkflowExecutionID r = None ∧
     ∃ resp, answers h r = [resp] ∧ respID resp = WorkflowExecutionID r).
Proof. split; [apply demo_distinct|]. apply exactly_one_response. apply demo_distinct. Defined.

Lemma expired_requests_answered_witness :
  distinct (requestsOf demoEvents) ∧
  ∃ h, run (reverse_order _) 100 NewHandler (demoEvents ++ [EvExpirePending 6]) = Ok h ∧
    ∀ r, r ∈ requestsOf demoEvents → (ExpiresAt r < 6)%Z → ∃ resp, answers h r = [resp] ∧ respID resp = WorkflowExecutionID r.
Proof. split; [apply demo_distinct|]. apply expired_requests_answered. apply demo_distinct. Defined.

Lemma duplicate_never_answered_witness :
  ∃ h, run (insertion_order _) 100 NewHandler
         [EvRequest (demoRequest "a" 0 10); EvRequest (demoRequest "a" 1 10); EvResponse (demoResp "a") 3] = Ok h ∧
    answers h (demoRequest "a" 0 10) = [demoResp "a"] ∧
    ∀ evs h', (∀ r, r ∈ requestsOf evs → CallbackCh r ≠ CallbackCh (demoRequest "a" 1 10)) →
      run (insertion_order _) 100 h evs = Ok h' → answers h' (demoRequest "a" 1 10) = [].
Proof. apply duplicate_never_answered; [reflexivity|reflexivity|discriminate]. Defined.
End RequestHandler.
