(* ===== verification/Values.v ===== *)
(** [src/pkg/values]: the values that capabilities exchange, wrapping Go data
    as values and back, and their protocol-buffer form.

    A nil [Value] is [None].  A decimal (shopspring) is its coefficient and
    exponent, a float its IEEE-754 bits, a time its seconds and nanoseconds
    since the epoch.  A map is the list of its entries; [wf] says that the keys
    are distinct. *)

From S2P Require Import Prelude GoBytes.

Module Values.

Inductive Value :=
  | VString (s : string)
  | VBool (b : bool)
  | VBytes (bs : list byte)
  | VInt64 (z : Z)
  | VBigInt (z : Z)
  | VDecimal (coefficient exponent : Z)
  | VFloat64 (bits : Z)
  | VTime (sec nsec : Z)
  | VList (l : list (option Value))
  | VMap (m : list (string * option Value)).

Inductive error := ErrWrap | ErrBounds | ErrUnwrapTo | ErrProto.

(** *** Go data, as an [any] *)

Inductive gokind := KInt8 | KInt16 | KInt32 | KInt64 | KInt | KUint8 | KUint16 | KUint32 | KUint64 | KUint.

Inductive any :=
  | ANil
  | AString (s : string)
  | ABool (b : bool)
  | ABytes (bs : list byte)
  | AInt (k : gokind) (z : Z)
  | ABigInt (z : Z)
  | ADecimal (coefficient exponent : Z)
  | AFloat64 (bits : Z)
  | ATime (sec nsec : Z)
  | ASlice (l : list any)                              (* slices and arrays *)
  | AMap (m : list (string * any))                     (* maps with string keys *)
  | AStruct (fields : list (string * string * bool * any))  (* name, mapstructure tag, exported *)
  | APtr (p : option any)
  | AValue (v : Value)
  | AOther.                                            (* functions, channels, maps with other keys *)

Definition MaxInt64 : Z := 2 ^ 63 - 1.

(** The key of a struct field: its tag, or its name. *)
Definition fieldKey (name tag : string) : string := if String.eqb tag "" then name else tag.

(** [m[k] = v] on a list of entries. *)
Fixpoint mapSet {A} (m : list (string * A)) (k : string) (v : A) : list (string * A) :=
  match m with
  | [] => [(k, v)]
  | (k', v') :: m => if String.eqb k k' then (k, v) :: m else (k', v') :: mapSet m k v
  end.

Fixpoint Wrap (v : any) : outcome error (option Value) :=
  match v with
  | ANil => Ok None
  | AString s => Ok (Some (VString s))
  | ABool b => Ok (Some (VBool b))
  | ABytes bs => Ok (Some (VBytes bs))
  | AInt KUint64 z => if decide (MaxInt64 < z)%Z then Ok (Some (VBigInt z)) else Ok (Some (VInt64 (wrapS 64 z)))
  | AInt _ z => Ok (Some (VInt64 (wrapS 64 z)))
  | ABigInt z => Ok (Some (VBigInt z))
  | ADecimal c e => Ok (Some (VDecimal c e))
  | AFloat64 f => Ok (Some (VFloat64 f))
  | ATime s n => Ok (Some (VTime s n))
  | ASlice l =>
      let? l := (fix wrapAll (l : list any) : outcome error (list (option Value)) :=
                   match l with
                   | [] => Ok []
                   | v :: l => let? w := Wrap v in let? ws := wrapAll l in Ok (w :: ws)
                   end) l in
      Ok (Some (VList l))
  | AMap m =>
      let? m := (fix wrapAll (m : list (string * any)) : outcome error (list (string * option Value)) :=
                   match m with
                   | [] => Ok []
                   | (k, v) :: m => let? w := Wrap v in let? ws := wrapAll m in Ok ((k, w) :: ws)
                   end) m in
      Ok (Some (VMap m))
  | AStruct fields =>
      let? m := (fix wrapAll (fs : list (string * string * bool * any)) (acc : list (string * option Value))
                   : outcome error (list (string * option Value)) :=
                   match fs with
                   | [] => Ok acc
                   | (_, _, false, _) :: fs => wrapAll fs acc
                   | (name, tag, true, v) :: fs => let? w := Wrap v in wrapAll fs (mapSet acc (fieldKey name tag) w)
                   end) fields [] in
      Ok (Some (VMap m))
  | APtr None => Ok None
  | APtr (Some v) => Wrap v
  | AValue v => Ok (Some v)
  | AOther => Err ErrWrap
  end.

Fixpoint Unwrap (v : Value) : any :=
  match v with
  | VString s => AString s
  | VBool b => ABool b
  | VBytes bs => ABytes bs
  | VInt64 z => AInt KInt64 z
  | VBigInt z => ABigInt z
  | VDecimal c e => ADecimal c e
  | VFloat64 f => AFloat64 f
  | VTime s n => ATime s n
  | VList l => ASlice ((λ o, match o with Some v => Unwrap v | None => ANil end) <$> l)
  | VMap m => AMap ((λ kv, (kv.1, match kv.2 with Some v => Unwrap v | None => ANil end)) <$> m)
  end.

(** [values.Unwrap] *)
Definition UnwrapOpt (v : option Value) : any := match v with Some v => Unwrap v | None => ANil end.

(** *** Integers *)

Definition kindMin (k : gokind) : Z :=
  match k with
  | KInt8 => - 2 ^ 7 | KInt16 => - 2 ^ 15 | KInt32 => - 2 ^ 31 | KInt64 | KInt => - 2 ^ 63
  | _ => 0
  end.
Definition kindMax (k : gokind) : Z :=
  match k with
  | KInt8 => 2 ^ 7 - 1 | KInt16 => 2 ^ 15 - 1 | KInt32 => 2 ^ 31 - 1 | KInt64 | KInt => 2 ^ 63 - 1
  | KUint8 => 2 ^ 8 - 1 | KUint16 => 2 ^ 16 - 1 | KUint32 => 2 ^ 32 - 1 | KUint64 | KUint => 2 ^ 64 - 1
  end.
(** The Go conversion to [k]. *)
Definition convK (k : gokind) (z : Z) : Z :=
  match k with
  | KInt8 => wrapS 8 z | KInt16 => wrapS 16 z | KInt32 => wrapS 32 z | KInt64 | KInt => wrapS 64 z
  | KUint8 => wrapU 8 z | KUint16 => wrapU 16 z | KUint32 => wrapU 32 z | KUint64 | KUint => wrapU 64 z
  end.

Definition verifyBounds (min max value : Z) : outcome error unit :=
  if decide (value < min)%Z then Err ErrBounds
  else if decide (max < value)%Z then Err ErrBounds
  else Ok ().

(** [Int64.UnwrapTo] to a pointer to an integer type of kind [k]. *)
Definition Int64UnwrapTo (k : gokind) (i : Z) : outcome error Z :=
  match k with
  | KInt64 => Ok i
  | KUint64 | KUint => if decide (i < 0)%Z then Err ErrBounds else Ok (convK k i)
  | _ => let? _ := verifyBounds (kindMin k) (kindMax k) i in Ok (convK k i)
  end.

(** [BigInt.UnwrapTo] to a [*uint64]; [Uint64] is what [big.Int.Uint64] returns,
    which is unspecified out of range. *)
Definition BigIntUnwrapToUint64 (Uint64 : Z → Z) (b : Z) : outcome error Z :=
  if decide (2 ^ 64 - 1 < b)%Z then Err ErrUnwrapTo else Ok (Uint64 b).

(** *** Protocol buffers *)

Inductive pbValue :=
  | PNone                                             (* an empty Value message *)
  | PString (s : string)
  | PBool (b : bool)
  | PBytes (bs : list byte)
  | PInt64 (z : Z)
  | PBigInt (sign : Z) (absVal : list byte)
  | PDecimal (sign : Z) (absVal : list byte) (exponent : Z)
  | PFloat64 (bits : Z)
  | PTime (sec nsec : Z)
  | PList (l : list pbValue)
  | PMap (m : list (string * pbValue)).

(** [big.Int.Bytes]: the absolute value, big-endian, without leading zeros. *)
Definition bigBytes (z : Z) : list byte :=
  let a := Z.abs z in
  be_bytes (Z.to_nat (if decide (a = 0)%Z then 0 else Z.log2 a / 8 + 1)%Z) a.

Fixpoint proto (v : Value) : pbValue :=
  match v with
  | VString s => PString s
  | VBool b => PBool b
  | VBytes bs => PBytes bs
  | VInt64 z => PInt64 z
  | VBigInt z => PBigInt (Z.sgn z) (bigBytes z)
  | VDecimal c e => PDecimal (Z.sgn c) (bigBytes c) e
  | VFloat64 f => PFloat64 f
  | VTime s n => PTime s n
  | VList l => PList ((λ o, match o with Some v => proto v | None => PNone end) <$> l)
  | VMap m => PMap ((λ kv, (kv.1, match kv.2 with Some v => proto v | None => PNone end)) <$> m)
  end.

(** [values.Proto] *)
Definition Proto (v : option Value) : pbValue := match v with Some v => proto v | None => PNone end.

Definition protoToBigInt (sign : Z) (absVal : list byte) : Z :=
  let av := be_val absVal in if decide (sign < 0)%Z then (- av)%Z else av.

Fixpoint FromProto (v : pbValue) : option Value :=
  match v with
  | PNone => None
  | PString s => Some (VString s)
  | PBool b => Some (VBool b)
  | PBytes bs => Some (VBytes bs)
  | PInt64 z => Some (VInt64 z)
  | PBigInt sg a => Some (VBigInt (protoToBigInt sg a))
  | PDecimal sg a e => Some (VDecimal (protoToBigInt sg a) e)
  | PFloat64 f => Some (VFloat64 f)
  | PTime s n => Some (VTime s n)
  | PList l => Some (VList (FromProto <$> l))
  | PMap m => Some (VMap ((λ kv, (kv.1, FromProto kv.2)) <$> m))
  end.

(** *** Maps *)

Fixpoint mapGet {A} (m : list (string * A)) (k : string) : option A :=
  match m with
  | [] => None
  | (k', v) :: m => if String.eqb k k' then Some v else mapGet m k
  end.
Definition mapDelete {A} (m : list (string * A)) (k : string) : list (string * A) :=
  filter (λ kv, kv.1 ≠ k) m.

(** [Map.DeleteAtPath], on the path split at its dots. *)
Fixpoint DeleteAtPath (m : list (string * option Value)) (path : list string) : list (string * option Value) * bool :=
  match path with
  | [] => (m, false)
  | [k] => match mapGet m k with Some _ => (mapDelete m k, true) | None => (m, false) end
  | k :: path =>
      match mapGet m k with
      | Some (Some (VMap sub)) => let '(sub, ok) := DeleteAtPath sub path in (mapSet m k (Some (VMap sub)), ok)
      | _ => (m, false)
      end
  end.

(** *** Induction *)

Definition optP (P : Value → Prop) (o : option Value) : Prop := match o with Some v => P v | None => True end.

Lemma Value_ind' (P : Value → Prop) :
  (∀ s, P (VString s)) → (∀ b, P (VBool b)) → (∀ bs, P (VBytes bs)) → (∀ z, P (VInt64 z)) → (∀ z, P (VBigInt z)) →
  (∀ c e, P (VDecimal c e)) → (∀ f, P (VFloat64 f)) → (∀ s n, P (VTime s n)) →
  (∀ l, Forall (optP P) l → P (VList l)) → (∀ m, Forall (λ kv, optP P kv.2) m → P (VMap m)) → ∀ v, P v.
Proof.
  intros H1 H2 H3 H4 H5 H6 H7 H8 H9 H10. fix IH 1. intros [| | | | | | | |l|m];
    [apply H1|apply H2|apply H3|apply H4|apply H5|apply H6|apply H7|apply H8| |].
  - apply H9. induction l as [|[v|] l IHl]; constructor; [apply IH|exact IHl|exact I|exact IHl].
  - apply H10. induction m as [|[k [v|]] m IHm]; constructor; [apply IH|exact IHm|exact I|exact IHm].
Qed.

(** On Go data, the slices and maps against everything else. *)
Definition isContainer (a : any) : bool := match a with AMap _ | ASlice _ => true | _ => false end.

Lemma any_ind' (P : any → Prop) :
  (∀ a, isContainer a = false → P a) → (∀ l, Forall P l → P (ASlice l)) → (∀ m, Forall (λ kv, P kv.2) m → P (AMap m)) → ∀ a, P a.
Proof.
  intros H1 H2 H3. fix IH 1. intros a. destruct a as [| | | | | | | | |l|m| | | |]; try by apply H1.
  - apply H2. induction l as [|v l IHl]; constructor; [apply IH|exact IHl].
  - apply H3. induction m as [|[k v] m IHm]; constructor; [apply IH|exact IHm].
Qed.

(** The integers of a value fit their type. *)
Fixpoint wf (v : Value) : Prop :=
  match v with
  | VInt64 z => inS 64 z
  | VList l => (fix go (l : list (option Value)) : Prop :=
                  match l with [] => True | Some v :: l => wf v ∧ go l | None :: l => go l end) l
  | VMap m => (fix go (m : list (string * option Value)) : Prop :=
                 match m with [] => True | (_, Some v) :: m => wf v ∧ go m | (_, None) :: m => go m end) m
  | _ => True
  end.

Lemma wf_VList l : wf (VList l) ↔ Forall (optP wf) l.
Proof.
  simpl. induction l as [|[v|] l IH]; [by split; constructor|..]; rewrite Forall_cons IH; simpl; naive_solver.
Qed.

Lemma wf_VMap m : wf (VMap m) ↔ Forall (λ kv, optP wf kv.2) m.
Proof.
  simpl. induction m as [|[k [v|]] m IH]; [by split; constructor|..]; rewrite Forall_cons IH; simpl; naive_solver.
Qed.

(** The recursion of [Wrap] over slices and maps, named. *)
Fixpoint wrapList (l : list any) : outcome error (list (option Value)) :=
  match l with [] => Ok [] | v :: l => let? w := Wrap v in let? ws := wrapList l in Ok (w :: ws) end.
Fixpoint wrapEntries (m : list (string * any)) : outcome error (list (string * option Value)) :=
  match m with
  | [] => Ok []
  | (k, v) :: m => let? w := Wrap v in let? ws := wrapEntries m in Ok ((k, w) :: ws)
  end.

Lemma Wrap_ASlice l : Wrap (ASlice l) = let? l := wrapList l in Ok (Some (VList l)).
Proof. done. Qed.
Lemma Wrap_AMap m : Wrap (AMap m) = let? m := wrapEntries m in Ok (Some (VMap m)).
Proof. done. Qed.

(** *** Properties *)

(** Unwrapping a value to Go data and wrapping it again gives the value
    back, nested lists and maps and nil entries included. *)
Theorem Wrap_Unwrap v : wf v → Wrap (Unwrap v) = Ok (Some v).
Proof.
  induction v as [| | |z| | | | |l IH|m IH] using Value_ind'; intros Hwf; try done.
  - simpl. by rewrite wrapS_small.
  - apply wf_VList in Hwf. cbn [Unwrap]. rewrite Wrap_ASlice.
    assert (wrapList ((λ o, match o with Some v => Unwrap v | None => ANil end) <$> l) = Ok l) as ->; [|done].
    induction IH as [|[v|] l Hv _ IHl]; [done|..]; apply Forall_cons in Hwf as [Hwv Hwf]; cbn [fmap list_fmap wrapList].
    + rewrite Hv // obind_ok IHl //.
    + rewrite obind_ok IHl //.
  - apply wf_VMap in Hwf. cbn [Unwrap]. rewrite Wrap_AMap.
    assert (wrapEntries ((λ kv, (kv.1, match kv.2 with Some v => Unwrap v | None => ANil end)) <$> m) = Ok m) as ->; [|done].
    induction IH as [|[k [v|]] m Hv _ IHm]; [done|..]; apply Forall_cons in Hwf as [Hwv Hwf];
      simpl in Hv, Hwv; cbn [fmap list_fmap wrapEntries fst snd].
    + rewrite Hv // obind_ok IHm //.
    + rewrite obind_ok IHm //.
Qed.

Lemma be_val_bigBytes z : be_val (bigBytes z) = Z.abs z.
Proof.
  rewrite /bigBytes be_val_bytes. case_decide as Hz; [by rewrite Hz|]. rewrite Z2Nat.id.
  2:{ pose proof (Z.div_pos (Z.log2 (Z.abs z)) 8 (Z.log2_nonneg _)). lia. }
  apply Z.mod_small. split; [lia|]. destruct (Z.log2_spec (Z.abs z)) as [_ Hlt]; [lia|].
  eapply Z.lt_le_trans; [exact Hlt|]. apply Z.pow_le_mono_r; [lia|].
  pose proof (Z.div_mod (Z.log2 (Z.abs z)) 8 ltac:(lia)). pose proof (Z.mod_pos_bound (Z.log2 (Z.abs z)) 8 ltac:(lia)). lia.
Qed.

Lemma protoToBigInt_bigBytes z : protoToBigInt (Z.sgn z) (bigBytes z) = z.
Proof. rewrite /protoToBigInt be_val_bigBytes. case_decide; lia. Qed.

(** Converting a value to its protocol-buffer form and back gives the value
    back: signs, big integers, decimals, nil entries, nesting. *)
Theorem FromProto_Proto v : FromProto (Proto v) = v.
Proof.
  destruct v as [v|]; [|done]. simpl.
  induction v as [| | |z|z|c e| | |l IH|m IH] using Value_ind'; try done.
  - simpl. by rewrite protoToBigInt_bigBytes.
  - simpl. by rewrite protoToBigInt_bigBytes.
  - simpl. do 2 f_equal. induction IH as [|[v|] l Hv _ IHl]; [done|..]; cbn [fmap list_fmap]; f_equal; done.
  - simpl. do 2 f_equal. induction IH as [|[k [v|]] m Hv _ IHm]; [done|..]; cbn [fmap list_fmap fst snd];
      simpl in Hv; rewrite ?Hv; f_equal; done.
Qed.

(** Unwrapping an integer value to any integer type either gives exactly
    that integer or refuses: it is refused exactly when it is out of the
    type's range. *)
Theorem Int64UnwrapTo_exact k i :
  inS 64 i → Int64UnwrapTo k i = if decide (kindMin k <= i <= kindMax k)%Z then Ok i else Err ErrBounds.
Proof.
  rewrite /inS. intros Hi.
  destruct k; unfold Int64UnwrapTo, verifyBounds, kindMin, kindMax, convK in *; repeat case_decide; simpl;
    try lia; try done; rewrite ?wrapS_small ?wrapU_small //; rewrite /inS /inU; lia.
Qed.

(** Wrapping a [uint] above the int64 range silently stores a negative
    integer, while the same number as a [uint64] is stored exactly. *)
Theorem Wrap_uint_negative z :
  (2 ^ 63 <= z < 2 ^ 64)%Z →
  Wrap (AInt KUint64 z) = Ok (Some (VBigInt z)) ∧
  Wrap (AInt KUint z) = Ok (Some (VInt64 (z - 2 ^ 64))) ∧ (z - 2 ^ 64 < 0)%Z.
Proof.
  intros Hz. split_and!; [|simpl|lia].
  - simpl. rewrite decide_True //. rewrite /MaxInt64. lia.
  - do 3 f_equal. rewrite -(wrapS_add_mul 64 z (-1)) //. rewrite wrapS_small; [lia|lia|rewrite /inS; lia].
Qed.

(** *** Witnesses *)

Definition demoValue : Value :=
  VMap [("price", Some (VDecimal (-1234) (-2))); ("ids", Some (VList [Some (VInt64 7); None; Some (VBigInt (2 ^ 70))]))].

Lemma Wrap_Unwrap_witness : wf demoValue ∧ Wrap (Unwrap demoValue) = Ok (Some demoValue).
Proof. assert (wf demoValue) as H by (simpl; rewrite /inS; lia). split; [exact H|]. by apply Wrap_Unwrap. Defined.

Lemma Int64UnwrapTo_exact_witness :
  inS 64 300 ∧ Int64UnwrapTo KUint8 300 = if decide (kindMin KUint8 <= 300 <= kindMax KUint8)%Z then Ok 300%Z else Err ErrBounds.
Proof. assert (inS 64 300) as H by (rewrite /inS; lia). split; [exact H|]. by apply Int64UnwrapTo_exact. Defined.

Lemma Wrap_uint_negative_witness :
  Wrap (AInt KUint64 (2 ^ 63)) = Ok (Some (VBigInt (2 ^ 63))) ∧
  Wrap (AInt KUint (2 ^ 63)) = Ok (Some (VInt64 (2 ^ 63 - 2 ^ 64))) ∧ (2 ^ 63 - 2 ^ 64 < 0)%Z.
Proof. apply Wrap_uint_negative. lia. Defined.
End Values.
