(* ===== verification/Consensus.v ===== *)
(** What the consensus aggregators share: the parts of their environment that
    are outside the repository, as interfaces with laws, and the outcome of an
    aggregation.

    [DecimalOps] is shopspring's decimal, [Wire] the protocol-buffer
    marshalling and SHA-256, [SortSlice] the runtime's unstable [sort.Slice]. *)

From Stdlib Require Import QArith Qabs Qpower.
From S2P Require Import Prelude GoBytes Values.
Local Close Scope Q_scope.

Module Consensus.
Import Values.

Inductive error :=
  | ErrNotEnoughObservations | ErrNotEnoughValues | ErrEmptyItems
  | ErrMethod | ErrModeQuorum | ErrModeQuorumType | ErrNotDecimal | ErrDeviationMethod
  | ErrMarshal | ErrState | ErrFormat | ErrWrapReport
  | ErrNoConsensus (idx : nat) | ErrConfig.

(** *** Decimals *)

Class DecimalOps (D : Type) := {
  dCmp : D → D → comparison;
  dSub : D → D → D;
  dAbs : D → D;
  dDiv : D → D → D;                    (* rounded to 16 digits *)
  NewFromInt : Z → D;
  NewFromBigInt : Z → Z → D;           (* coefficient, exponent *)
  NewFromString : string → option D;
  NewFromFloat : Z → option D          (* panics on NaN and infinities *)
}.

Definition GreaterThan `{DecimalOps D} (a b : D) : bool := match dCmp a b with Gt => true | _ => false end.
Definition dle `{DecimalOps D} (a b : D) : Prop := dCmp a b ≠ Gt.

(** The comparison is a total preorder. *)
Class DecimalLaws (D : Type) `{DecimalOps D} := {
  dCmp_antisym a b : dCmp b a = CompOpp (dCmp a b);
  dle_trans a b c : dle a b → dle b c → dle a c
}.

Section decimal_lemmas.
Context `{DecimalLaws D}.

Lemma dle_refl (a : D) : dle a a.
Proof. rewrite /dle. pose proof (dCmp_antisym a a) as Ha. by destruct (dCmp a a). Qed.

Lemma dle_total (a b : D) : dle a b ∨ dle b a.
Proof. rewrite /dle (dCmp_antisym a b). destruct (dCmp a b); naive_solver. Qed.

Lemma GreaterThan_false (a b : D) : GreaterThan a b = false ↔ dle a b.
Proof. rewrite /GreaterThan /dle. destruct (dCmp a b); naive_solver. Qed.

Lemma GreaterThan_true_dle (a b : D) : GreaterThan a b = true → dle b a.
Proof. rewrite /GreaterThan /dle (dCmp_antisym a b). destruct (dCmp a b); naive_solver. Qed.
End decimal_lemmas.

(** Rationals: the interface at a concrete instance, without strings and floats. *)
Definition rationalOps : DecimalOps Q := {|
  dCmp := Qcompare;
  dSub := Qminus;
  dAbs := Qabs;
  dDiv := Qdiv;
  NewFromInt := inject_Z;
  NewFromBigInt c e := Qmult (inject_Z c) (Qpower (inject_Z 10) e);
  NewFromString _ := None;
  NewFromFloat _ := None
|}.

Lemma rationalLaws : @DecimalLaws Q rationalOps.
Proof.
  constructor; unfold dle; cbn [dCmp rationalOps].
  - intros a b. symmetry. apply Qcompare_antisym.
  - intros a b c Hab Hbc. rewrite <-Qle_alt in *. by eapply Qle_trans.
Qed.

(** *** Sorting *)

(** [sort.Slice]: some permutation, sorted when the order is a strict weak
    order; it is not stable. *)
Class SortSlice := {
  sortSlice : ∀ {A}, (A → A → bool) → list A → list A;
  sortSlice_perm {A} (less : A → A → bool) l : sortSlice less l ≡ₚ l;
  sortSlice_sorted {A} (less : A → A → bool) l :
    (∀ x y, less x y = true → less y x = false) →
    (∀ x y z, less y x = false → less z y = false → less z x = false) →
    StronglySorted (λ x y, less y x = false) (sortSlice less l)
}.

Lemma StronglySorted_mono {A} (R R' : A → A → Prop) l :
  (∀ x y, R x y → R' x y) → StronglySorted R l → StronglySorted R' l.
Proof. intros HR. induction 1 as [|x l _ IH Hx]; constructor; [done|]. eapply Forall_impl; eauto. Qed.

Lemma StronglySorted_lookup {A} (R : A → A → Prop) l i j x y :
  StronglySorted R l → l !! i = Some x → l !! j = Some y → i < j → R x y.
Proof.
  intros Hs. revert i j. induction Hs as [|a l _ IH Ha]; intros i j Hi Hj Hij; [done|].
  destruct j as [|j]; [lia|]. destruct i as [|i]; simpl in *.
  - simplify_eq. rewrite Forall_forall in Ha. apply Ha. by eapply list_elem_of_lookup_2.
  - apply (IH i j); [done..|lia].
Qed.

Lemma filter_split {A} (P : A → Prop) `{∀ x, Decision (P x)} (l : list A) :
  filter P l ++ filter (λ x, ¬ P x) l ≡ₚ l.
Proof.
  induction l as [|x l IH]; [done|]. rewrite !filter_cons. destruct (decide (P x)) as [Hp|Hp], (decide (¬ P x)) as [Hn|Hn]; try done.
  - cbn. by apply Permutation_cons.
  - rewrite -Permutation_middle. by apply Permutation_cons.
Qed.

(** Among more elements than there are faulty ones, one is honest. *)
Lemma pigeonhole {A} (t l honest faulty : list A) :
  t ⊆+ l → l ≡ₚ honest ++ faulty → length faulty < length t → ∃ x, x ∈ t ∧ x ∈ honest.
Proof.
  intros Ht Hl Hlen. rewrite Hl in Ht. apply submseteq_app_r in Ht as (t1 & t2 & Ht & Ht1 & Ht2).
  apply submseteq_length in Ht2. rewrite Ht length_app in Hlen. destruct t1 as [|x t1]; [simpl in Hlen; lia|].
  exists x. rewrite Ht. split; [set_solver|]. eapply elem_of_submseteq; [|exact Ht1]. set_solver.
Qed.

(** An element of a sorted list that has fewer faulty elements before it, and
    after it, than there are elements, lies between two honest ones. *)
Lemma sorted_bounds {A} (R : A → A → Prop) l honest faulty k r :
  StronglySorted R l → l ≡ₚ honest ++ faulty → l !! k = Some r →
  length faulty ≤ k → length faulty < length l - k →
  ∃ x y, x ∈ honest ∧ y ∈ honest ∧ (x = r ∨ R x r) ∧ (y = r ∨ R r y).
Proof.
  intros Hs Hp Hr Hk1 Hk2. apply lookup_lt_Some in Hr as Hlt.
  destruct (pigeonhole (take (S k) l) l honest faulty) as (x & Hx & Hx');
    [apply sublist_submseteq, sublist_take|done|rewrite length_take; lia|].
  destruct (pigeonhole (drop k l) l honest faulty) as (y & Hy & Hy');
    [apply sublist_submseteq, sublist_drop|done|rewrite length_drop; lia|].
  exists x, y. split; [done|]. split; [done|]. split.
  - apply list_elem_of_lookup in Hx as [i Hi]. apply lookup_take_Some in Hi as [Hi Hik].
    destruct (decide (i = k)) as [->|Hne]; [left; congruence|]. right. apply (StronglySorted_lookup R l i k); [done..|lia].
  - apply list_elem_of_lookup in Hy as [i Hi]. rewrite lookup_drop in Hi. destruct i as [|i].
    + rewrite Nat.add_0_r in Hi. left. congruence.
    + right. apply (StronglySorted_lookup R l k (k + S i)); [done..|lia].
Qed.

(** Insertion sort: the interface at a concrete instance. *)
Section insertion_sort.
Context {A : Type} (less : A → A → bool).

Fixpoint insertBy (x : A) (l : list A) : list A :=
  match l with
  | [] => [x]
  | y :: l => if less y x then y :: insertBy x l else x :: y :: l
  end.

Definition sortBy (l : list A) : list A := foldr insertBy [] l.

Lemma insertBy_perm x l : insertBy x l ≡ₚ x :: l.
Proof. induction l as [|y l IH]; [done|]. cbn. destruct (less y x); [|done]. rewrite IH. apply perm_swap. Qed.

Lemma sortBy_perm l : sortBy l ≡ₚ l.
Proof. induction l as [|x l IH]; [done|]. cbn. rewrite insertBy_perm. by f_equiv. Qed.

Lemma sortBy_sorted l :
  (∀ x y, less x y = true → less y x = false) →
  (∀ x y z, less y x = false → less z y = false → less z x = false) →
  StronglySorted (λ x y, less y x = false) (sortBy l).
Proof.
  intros Hasym Htrans. induction l as [|x l IH]; [constructor|]. rewrite /sortBy /= in IH |- *. revert IH. generalize (foldr insertBy [] l) as s.
  induction 1 as [|y s Hs IH Hy]; cbn; [repeat constructor|]. destruct (less y x) eqn:E.
  - constructor; [done|]. rewrite insertBy_perm. constructor; [by apply Hasym|done].
  - constructor; [by constructor|]. constructor; [done|]. eapply Forall_impl; [exact Hy|]. intros z Hz. by eapply Htrans.
Qed.
End insertion_sort.

Definition insertionSort : SortSlice :=
  {| sortSlice := @sortBy; sortSlice_perm := @sortBy_perm; sortSlice_sorted := @sortBy_sorted |}.

(** *** Marshalling and hashing *)

Class Wire := {
  marshalValue : pbValue → option (list byte);
  marshalMap : list (string * pbValue) → option (list byte);
  unmarshalMap : list byte → option (list (string * pbValue));
  sha256 : list byte → list byte
}.

(** A wire format for byte strings only, and no hashing: the interface at a
    concrete instance. *)
Definition bytesWire : Wire := {|
  marshalValue v := match v with PBytes bs => Some bs | _ => None end;
  marshalMap m := match m with [] => Some [] | [(_, PBytes bs)] => Some bs | _ => None end;
  unmarshalMap bs := Some [("v", PBytes bs)];
  sha256 bs := bs
|}.

(** [types.AggregationOutcome], the protocol-buffer message. *)
Record AggregationOutcome := mkOutcome {
  EncodableOutcome : list (string * pbValue);
  Metadata : list byte;
  ShouldReport : bool;
  LastSeenAt : Z;
  Timestamp : option (Z * Z);
  EncoderName : string;
  EncoderConfig : option (list (string * pbValue))
}.

(** The observations of a round: per oracle, the values it contributed. *)
Definition observations : Type := gmap nat (list (option Value)).

(** The order that starts with the entry of a key. *)
Definition keyFirstList `{EqDecision K} {V} (k : K) (l : list (K * V)) : list (K * V) :=
  filter (λ kv, kv.1 = k) l ++ filter (λ kv, kv.1 ≠ k) l.

Lemma keyFirstList_perm `{EqDecision K} {V} (k : K) (l : list (K * V)) : keyFirstList k l ≡ₚ l.
Proof. apply filter_split. Qed.

Definition keyFirst `{EqDecision K} {V} (k : K) : RangeOrder (K * V) :=
  {| range_order := keyFirstList k; range_order_perm := keyFirstList_perm k |}.

Lemma range_map_keyFirst `{Countable K} {V} (k : K) (m : gmap K V) (v : V) :
  m !! k = Some v → ∃ l, range_map (keyFirst k) m = (k, v) :: l.
Proof.
  intros Hv. rewrite /range_map. cbn [range_order keyFirst]. rewrite /keyFirstList.
  destruct (filter (λ kv, kv.1 = k) (map_to_list m)) as [|[k' v'] l] eqn:El.
  - exfalso. apply elem_of_map_to_list in Hv. by eapply (filter_nil_not_elem_of _ _ (k, v)) in El.
  - assert ((k', v') ∈ filter (λ kv, kv.1 = k) (map_to_list m)) as Hin by (rewrite El; set_solver).
    apply list_elem_of_filter in Hin as [Hk Hin]. cbn in Hk. subst k'. apply elem_of_map_to_list in Hin. simplify_eq. by eexists.
Qed.

(** *** Counting observations by hash *)

(** [counter]: an observation and the number of times its hash was seen. *)
Record counter := mkCounter { fullObservation : option Value; count : nat }.

Section counting.
Context `{Wire}.

Definition shaOf (v : option Value) : option (list byte) := sha256 <$> marshalValue (Proto v).

Definition bump (counts : gmap (list byte) counter) (sha : list byte) (item : option Value) : gmap (list byte) counter :=
  match counts !! sha with
  | None => <[sha := mkCounter item 1]> counts
  | Some c => <[sha := mkCounter (fullObservation c) (S (count c))]> counts
  end.

(** How often the hash of [v] occurs. *)
Definition occurrences (sha : list byte) (items : list (option Value)) : nat :=
  length (filter (λ v, shaOf v = Some sha) items).

Definition countStep (counts : gmap (list byte) counter) (item : option Value) : outcome error (gmap (list byte) counter) :=
  match shaOf item with None => Err ErrMarshal | Some sha => Ok (bump counts sha item) end.

Definition countAll (items : list (option Value)) : outcome error (gmap (list byte) counter) :=
  ofold countStep ∅ items.

(** Every counter holds the number of occurrences of its hash, and an observed
    value with that hash. *)
Definition counted (items : list (option Value)) (counts : gmap (list byte) counter) : Prop :=
  ∀ sha, match counts !! sha with
         | None => occurrences sha items = 0
         | Some c => count c = occurrences sha items ∧ fullObservation c ∈ items ∧ shaOf (fullObservation c) = Some sha
         end.

Lemma occurrences_snoc sha items v :
  occurrences sha (items ++ [v]) = occurrences sha items + (if decide (shaOf v = Some sha) then 1 else 0).
Proof. rewrite /occurrences filter_app length_app filter_cons filter_nil. by case_decide. Qed.

Lemma bump_counted items counts sha v :
  counted items counts → shaOf v = Some sha → counted (items ++ [v]) (bump counts sha v).
Proof.
  intros Hc Hv sha'. specialize (Hc sha'). rewrite occurrences_snoc Hv.
  destruct (decide (sha' = sha)) as [->|Hne].
  - rewrite decide_True // /bump. destruct (counts !! sha) as [c|]; rewrite lookup_insert_eq /=.
    + destruct Hc as (-> & ? & ?). split; [lia|]. split; [set_solver|done].
    + rewrite Hc. split; [done|]. split; [set_solver|done].
  - rewrite decide_False; [|congruence]. rewrite Nat.add_0_r /bump.
    destruct (counts !! sha); rewrite lookup_insert_ne //; destruct (counts !! sha') as [c'|]; set_solver.
Qed.

Lemma countLoop_counted done items counts counts' :
  counted done counts →
  ofold countStep counts items = Ok counts' →
  counted (done ++ items) counts'.
Proof.
  revert done counts. induction items as [|v items IH]; intros done counts Hc; cbn [ofold].
  - intros [= <-]. by rewrite app_nil_r.
  - intros (c1 & H1 & H2)%obind_Ok_inv. rewrite /countStep in H1. destruct (shaOf v) as [sha|] eqn:Hv; [|done]. simplify_eq.
    rewrite (cons_middle v) assoc. eapply IH; [|exact H2]. by apply bump_counted.
Qed.

Lemma countAll_counted items counts : countAll items = Ok counts → counted items counts.
Proof. apply (countLoop_counted []). intros sha. by rewrite lookup_empty. Qed.

Lemma countAll_ok items : Forall (λ v, is_Some (shaOf v)) items → ∃ counts, countAll items = Ok counts.
Proof.
  rewrite /countAll. generalize (∅ : gmap (list byte) counter). induction items as [|v items IH]; intros counts Hi; cbn [ofold]; [by eexists|].
  apply Forall_cons in Hi as [[sha Hs] Hi]. rewrite /countStep Hs obind_ok. by apply IH.
Qed.
End counting.

Lemma bytesWire_injective v w :
  @shaOf bytesWire v = @shaOf bytesWire w → is_Some (@shaOf bytesWire v) → Proto v = Proto w.
Proof.
  rewrite /shaOf. cbn [marshalValue sha256 bytesWire].
  destruct (Proto v), (Proto w); simpl; try (by intros ? []%is_Some_None); naive_solver.
Qed.
End Consensus.
