(* ===== verification/IdenticalAggregator.v ===== *)
(** [src/pkg/capabilities/consensus/ocr3/aggregators/identical.go]: the most
    frequent observation at each index, which at least 2f+1 nodes must share. *)

From stdpp Require Import pretty.
From S2P Require Import Prelude GoBytes Values Consensus.

Module IdenticalAggregator.
Import Values Consensus.

Record IdenticalAggConfig := { ExpectedObservationsLen : nat; KeyOverrides : list string }.

(** [ParseConfigIdenticalAggregator], given the unwrapped configuration. *)
Definition ParseConfigIdenticalAggregator (unwrapped : option IdenticalAggConfig) : outcome error IdenticalAggConfig :=
  match unwrapped with
  | None => Err ErrConfig
  | Some c => Ok {| ExpectedObservationsLen :=
                      if decide (ExpectedObservationsLen c = 0) then 1 else ExpectedObservationsLen c;
                    KeyOverrides := KeyOverrides c |}
  end.

Section identical.
Context `{Wire}.
Context (config : IdenticalAggConfig).

(** The loop over one node's observations. *)
Fixpoint countNode (counters : list (gmap (list byte) counter)) (obs : list (option Value)) : outcome error (list (gmap (list byte) counter)) :=
  match counters, obs with
  | c :: counters, v :: obs =>
      let? c := countStep c v in
      let? counters := countNode counters obs in
      Ok (c :: counters)
  | [], _ :: _ => Panic
  | counters, [] => Ok counters
  end.

(** The observations of a node that are not ignored. *)
Definition accepts (obs : list (option Value)) : bool :=
  match obs with
  | [] | None :: _ => false
  | _ => bool_decide (length obs = ExpectedObservationsLen config)
  end.

(** One node: its observations are counted when there are as many as expected. *)
Definition nodeStep (counters : list (gmap (list byte) counter)) (node : nat * list (option Value)) : outcome error (list (gmap (list byte) counter)) :=
  let '(_, nodeObs) := node in if accepts nodeObs then countNode counters nodeObs else Ok counters.

(** The highest counter of an index: the first one met among the largest. *)
Definition highestStep (acc : nat * option Value) (kv : list byte * counter) : nat * option Value :=
  if decide (acc.1 < count kv.2) then (count kv.2, fullObservation kv.2) else acc.

Definition highest (O : RangeOrder (list byte * counter)) (c : gmap (list byte) counter) : nat * option Value :=
  foldl highestStep (0, None) (range_map O c).

Definition keyFor (n idx : nat) : string :=
  if decide (length (KeyOverrides config) = n) then default "" (KeyOverrides config !! idx) else pretty (N.of_nat idx).

(** [n] is the number of counters. *)
Fixpoint collectLoop (O : RangeOrder (list byte * counter)) (f n : nat) (counters : list (gmap (list byte) counter)) (idx : nat)
    (outcome : gmap string (option Value)) : Prelude.outcome error (gmap string (option Value)) :=
  match counters with
  | [] => Ok outcome
  | c :: counters =>
      let '(highestCount, highestObservation) := highest O c in
      if decide (highestCount < 2 * f + 1) then Err (ErrNoConsensus idx)
      else collectLoop O f n counters (S idx) (<[keyFor n idx := highestObservation]> outcome)
  end.

Definition collectHighestCounts (O : RangeOrder (list byte * counter)) (f : nat) (counters : list (gmap (list byte) counter))
    : outcome error AggregationOutcome :=
  let? out := collectLoop O f (length counters) counters 0 ∅ in
  Ok (mkOutcome (map_to_list (Proto <$> out)) [] true 0 None "" None).

Definition Aggregate (O : RangeOrder (nat * list (option Value))) (O' : RangeOrder (list byte * counter))
    (obs : observations) (f : nat) : outcome error AggregationOutcome :=
  let? counters := ofold nodeStep (replicate (ExpectedObservationsLen config) ∅) (range_map O obs) in
  collectHighestCounts O' f counters.

(** *** Counting *)

(** The accepted observations at an index, over the nodes in the order given. *)
Definition column (nodes : list (nat * list (option Value))) (i : nat) : list (option Value) :=
  omap (λ n, if accepts n.2 then n.2 !! i else None) nodes.

Lemma accepts_length obs : accepts obs = true → length obs = ExpectedObservationsLen config.
Proof. rewrite /accepts. destruct obs as [|[v|] obs]; [done| |done]. apply bool_decide_eq_true. Qed.

Lemma countNode_spec counters obs counters' :
  length counters = length obs → countNode counters obs = Ok counters' →
  length counters' = length counters ∧
  ∀ i v c done, obs !! i = Some v → counters !! i = Some c → counted done c →
    ∃ c', counters' !! i = Some c' ∧ counted (done ++ [v]) c'.
Proof.
  revert obs counters'. induction counters as [|c counters IH]; intros [|v obs] counters' Hl Hc; simplify_eq/=; [done|].
  apply obind_Ok_inv in Hc as (c1 & H1 & (cs & H2 & [= <-])%obind_Ok_inv).
  destruct (IH obs cs) as [Hl' Hi]; [lia|done|]. split; [simpl; lia|].
  intros [|i] w c' done Hv Hc' Hd; simplify_eq/=; [|by eapply Hi].
  eexists. split; [done|]. rewrite /countStep in H1. destruct (shaOf w) as [sha|] eqn:Hw; simplify_eq.
  by apply bump_counted.
Qed.

Lemma nodesLoop_counted seen nodes counters counters' :
  length counters = ExpectedObservationsLen config →
  (∀ i c, counters !! i = Some c → counted (column seen i) c) →
  ofold nodeStep counters nodes = Ok counters' →
  length counters' = ExpectedObservationsLen config ∧
  ∀ i c, counters' !! i = Some c → counted (column (seen ++ nodes) i) c.
Proof.
  revert seen counters. induction nodes as [|[id obs] nodes IH]; intros seen counters Hl Hc Hr; cbn [ofold] in Hr.
  { simplify_eq. by rewrite app_nil_r. }
  apply obind_Ok_inv in Hr as (c1 & H1 & H2). rewrite (cons_middle (id, obs)) assoc.
  assert (length c1 = ExpectedObservationsLen config ∧ ∀ i c, c1 !! i = Some c → counted (column (seen ++ [(id, obs)]) i) c) as [Hl1 Hc1].
  { rewrite /nodeStep in H1. destruct (accepts obs) eqn:Ha.
    - pose proof (accepts_length _ Ha) as Hlo. destruct (countNode_spec _ _ _ (eq_trans Hl (eq_sym Hlo)) H1) as [Hlc Hi].
      split; [congruence|]. intros i c Hic.
      apply lookup_lt_Some in Hic as Hlt. rewrite Hlc in Hlt. destruct (lookup_lt_is_Some_2 _ _ Hlt) as [c0 Hc0].
      rewrite Hl -Hlo in Hlt. destruct (lookup_lt_is_Some_2 _ _ Hlt) as [v Hv].
      destruct (Hi i v c0 _ Hv Hc0 (Hc _ _ Hc0)) as (c' & Hc' & Hd). assert (c' = c) as -> by congruence.
      by rewrite /column omap_app /= Ha Hv.
    - simplify_eq. split; [done|]. intros i c Hic. rewrite /column omap_app /= Ha app_nil_r. by apply Hc. }
  by eapply IH.
Qed.

(** *** The highest counter *)

Lemma highestLoop_spec l acc :
  acc.1 ≤ (foldl highestStep acc l).1 ∧ Forall (λ kv, count kv.2 ≤ (foldl highestStep acc l).1) l ∧
  (foldl highestStep acc l = acc ∨
   ∃ kv, kv ∈ l ∧ foldl highestStep acc l = (count kv.2, fullObservation kv.2)).
Proof.
  revert acc. induction l as [|kv l IH]; intros acc; simpl; [split; [done|]; split; [constructor|by left]|].
  destruct (IH (highestStep acc kv)) as (H1 & H2 & H3). set (r := foldl highestStep (highestStep acc kv) l) in *.
  assert (acc.1 ≤ (highestStep acc kv).1 ∧ count kv.2 ≤ (highestStep acc kv).1) as [H4 H5]
    by (rewrite /highestStep; case_decide; simpl; lia).
  split; [lia|]. split; [constructor; [lia|done]|].
  destruct H3 as [->|(kv' & Hkv & ->)]; [|right; exists kv'; set_solver].
  rewrite /highestStep. case_decide; [right; exists kv; set_solver|by left].
Qed.

Lemma highest_spec (O : RangeOrder (list byte * counter)) (items : list (option Value)) (c : gmap (list byte) counter) :
  counted items c →
  (∀ sha, occurrences sha items ≤ (highest O c).1) ∧
  (0 < (highest O c).1 →
   ∃ sha, (highest O c).1 = occurrences sha items ∧ shaOf (highest O c).2 = Some sha ∧ (highest O c).2 ∈ items).
Proof.
  intros Hc. rewrite /highest. destruct (highestLoop_spec (range_map O c) (0, None)) as (_ & Hall & Hex).
  rewrite Forall_forall in Hall. split.
  - intros sha. specialize (Hc sha). destruct (c !! sha) as [ctr|] eqn:E; [|rewrite Hc; apply Nat.le_0_l].
    destruct Hc as [<- _]. apply (Hall (sha, ctr)). by apply elem_of_range_map.
  - intros Hpos. destruct Hex as [Heq|([sha ctr] & Hin & Heq)]; rewrite Heq in Hpos |- *; simpl in *; [lia|].
    apply elem_of_range_map in Hin. specialize (Hc sha). rewrite Hin in Hc. exists sha. naive_solver.
Qed.

Lemma occurrences_two sha1 sha2 items :
  sha1 ≠ sha2 → occurrences sha1 items + occurrences sha2 items ≤ length items.
Proof.
  intros Hne. rewrite /occurrences. induction items as [|v items IH]; [done|]. rewrite !filter_cons.
  repeat case_decide; simpl; try lia. congruence.
Qed.

Lemma occurrences_perm sha items items' : items ≡ₚ items' → occurrences sha items = occurrences sha items'.
Proof. intros Hp. rewrite /occurrences. by rewrite Hp. Qed.

Lemma length_column nodes i : length (column nodes i) ≤ length nodes.
Proof.
  induction nodes as [|n nodes IH]; [done|]. cbn.
  destruct (if accepts n.2 then _ else _); [apply le_n_S|apply le_S]; exact IH.
Qed.

Lemma column_perm nodes nodes' i : nodes ≡ₚ nodes' → column nodes i ≡ₚ column nodes' i.
Proof. intros Hp. rewrite /column. by rewrite Hp. Qed.

(** The highest count does not depend on the orders, nor does its value when
    it is the count of more than half of the observations. *)
Lemma highest_unique (O O' : RangeOrder (list byte * counter)) (items items' : list (option Value)) (c c' : gmap (list byte) counter) :
  items ≡ₚ items' → counted items c → counted items' c' →
  (highest O c).1 = (highest O' c').1 ∧
  (length items < 2 * (highest O c).1 → ∃ sha, shaOf (highest O c).2 = Some sha ∧ shaOf (highest O' c').2 = Some sha ∧
     (highest O c).2 ∈ items ∧ (highest O' c').2 ∈ items).
Proof.
  intros Hp Hc Hc'. destruct (highest_spec O _ _ Hc) as [Hle Hex], (highest_spec O' _ _ Hc') as [Hle' Hex'].
  assert ((highest O c).1 = (highest O' c').1) as Heq.
  { destruct (decide ((highest O c).1 = 0)) as [H0|H0]; destruct (decide ((highest O' c').1 = 0)) as [H0'|H0']; [congruence|..].
    - destruct Hex' as (sha & Hs & _); [lia|]. specialize (Hle sha). rewrite (occurrences_perm _ _ _ Hp) in Hle. lia.
    - destruct Hex as (sha & Hs & _); [lia|]. specialize (Hle' sha). rewrite -(occurrences_perm _ _ _ Hp) in Hle'. lia.
    - destruct Hex as (sha & Hs & _), Hex' as (sha' & Hs' & _); [lia..|].
      specialize (Hle sha'). specialize (Hle' sha). rewrite (occurrences_perm _ _ _ Hp) in Hle.
      rewrite -(occurrences_perm _ _ _ Hp) in Hle'. lia. }
  split; [done|]. intros Hlt. destruct Hex as (sha & Hs & Hsha & Hin), Hex' as (sha' & Hs' & Hsha' & Hin'); [lia..|].
  assert (sha' = sha) as ->.
  { destruct (decide (sha' = sha)) as [|Hne]; [done|]. pose proof (occurrences_two _ _ items Hne) as Htwo.
    rewrite -(occurrences_perm _ _ _ Hp) in Hs'. lia. }
  exists sha. rewrite Hp. repeat split; try done. by rewrite -Hp.
Qed.

(** *** The loop over the nodes never panics, and fails only on marshalling *)

Lemma countNode_result counters obs :
  length counters = length obs →
  (Forall (λ v, is_Some (shaOf v)) obs → ∃ cs, countNode counters obs = Ok cs ∧ length cs = length counters) ∧
  (¬ Forall (λ v, is_Some (shaOf v)) obs → countNode counters obs = Err ErrMarshal).
Proof.
  revert obs. induction counters as [|c counters IH]; intros [|v obs] Hl; simplify_eq/=.
  { split; [by exists []|]. by intros []. }
  destruct (IH obs Hl) as [IHok IHerr]. rewrite Forall_cons /countStep. destruct (shaOf v) as [sha|] eqn:Hv; cbn [obind].
  - split; [intros [_ Hf]|intros Hf].
    + destruct (IHok Hf) as (cs & -> & Hcs). eexists. split; [done|]. simpl. by rewrite Hcs.
    + rewrite IHerr; [done|]. naive_solver.
  - split; [|done]. by intros [[]%is_Some_None _].
Qed.

(** The nodes whose accepted observations can all be marshalled. *)
Definition hashable (node : nat * list (option Value)) : Prop :=
  accepts node.2 = true → Forall (λ v, is_Some (shaOf v)) node.2.

#[local] Instance hashable_dec node : Decision (hashable node).
Proof. rewrite /hashable. destruct (accepts node.2); [destruct (decide (Forall (λ v, is_Some (shaOf v)) node.2))|]; [left|right|left]; naive_solver. Defined.

Lemma nodesLoop_result nodes counters :
  length counters = ExpectedObservationsLen config →
  (Forall hashable nodes → ∃ cs, ofold nodeStep counters nodes = Ok cs) ∧
  (¬ Forall hashable nodes → ofold nodeStep counters nodes = Err ErrMarshal).
Proof.
  revert counters. induction nodes as [|[id obs] nodes IH]; intros counters Hl; cbn [ofold].
  { split; [by exists counters|]. by intros []. }
  rewrite Forall_cons. unfold nodeStep at 1 3. unfold hashable at 1 3. cbn [snd]. destruct (accepts obs) eqn:Ha.
  - destruct (countNode_result counters obs) as [Hok Herr]; [rewrite Hl; symmetry; by apply accepts_length|].
    destruct (decide (Forall (λ v, is_Some (shaOf v)) obs)) as [Hf|Hf].
    + destruct (Hok Hf) as (cs & -> & Hcs). destruct (IH cs (eq_trans Hcs Hl)) as [IHok IHerr]. cbn [obind]. naive_solver.
    + rewrite (Herr Hf). naive_solver.
  - cbn [obind]. destruct (IH counters Hl) as [IHok IHerr]. split; [naive_solver|]. intros Hn. apply IHerr. naive_solver.
Qed.

Lemma Aggregate_counters O obs cs :
  ofold nodeStep (replicate (ExpectedObservationsLen config) ∅) (range_map O obs) = Ok cs →
  length cs = ExpectedObservationsLen config ∧ ∀ i c, cs !! i = Some c → counted (column (range_map O obs) i) c.
Proof.
  apply (nodesLoop_counted []); [apply length_replicate|]. intros i c [-> _]%lookup_replicate sha. by rewrite lookup_empty.
Qed.

(** *** Consensus at every index *)

Definition entries (idx : nat) (O : RangeOrder (list byte * counter)) (n : nat) (cs : list (gmap (list byte) counter))
    : list (string * option Value) :=
  imap (λ i c, (keyFor n (idx + i), (highest O c).2)) cs.

Lemma collectLoop_result O f n cs idx out :
  (Forall (λ c, 2 * f + 1 ≤ (highest O c).1) cs →
   collectLoop O f n cs idx out = Ok (foldl (λ m kv, <[kv.1 := kv.2]> m) out (entries idx O n cs))) ∧
  (¬ Forall (λ c, 2 * f + 1 ≤ (highest O c).1) cs → ∃ i, collectLoop O f n cs idx out = Err (ErrNoConsensus i)).
Proof.
  revert idx out. induction cs as [|c cs IH]; intros idx out; cbn [collectLoop]; [split; [done|by intros []]|].
  destruct (highest O c) as [n0 v0] eqn:Hh. rewrite Forall_cons Hh; cbn [fst]. destruct (decide (n0 < 2 * f + 1)).
  - split; [intros []; lia|]. intros _. by eexists.
  - destruct (IH (S idx) (<[keyFor n idx := v0]> out)) as [IHok IHerr]. split.
    + intros [_ Hf]. rewrite (IHok Hf) /entries. cbn. rewrite Hh Nat.add_0_r; cbn [fst snd]. f_equal. f_equal. apply imap_ext. intros i c' _; cbn.
      by rewrite -plus_n_Sm.
    + intros Hn. apply IHerr. intros Hf. apply Hn. split; [lia|done].
Qed.

Lemma foldl_insert_lookup {A} (l : list (string * A)) (m : gmap string A) k v :
  foldl (λ m kv, <[kv.1 := kv.2]> m) m l !! k = Some v → (k, v) ∈ l ∨ m !! k = Some v.
Proof.
  revert m. induction l as [|[k' v'] l IH]; intros m; simpl; [by right|]. intros [Hin|Hm]%IH; [left; set_solver|].
  destruct (decide (k = k')) as [->|Hne]; [rewrite lookup_insert_eq in Hm; simplify_eq; set_solver|].
  rewrite lookup_insert_ne // in Hm. by right.
Qed.

Lemma foldl_insert_dom {A} (l : list (string * A)) (m : gmap string A) k :
  k ∈ l.*1 ∨ is_Some (m !! k) → is_Some (foldl (λ m kv, <[kv.1 := kv.2]> m) m l !! k).
Proof.
  revert m. induction l as [|[k' v'] l IH]; intros m; simpl; [set_solver|]. intros Hk. apply IH.
  destruct (decide (k = k')) as [->|Hne]; [right; rewrite lookup_insert_eq; by eexists|].
  rewrite lookup_insert_ne //. set_solver.
Qed.
(** The nodes that were counted for a hash at an index. *)
Definition supports (idx : nat) (sha : list byte) (node : nat * list (option Value)) : bool :=
  accepts node.2 && bool_decide ((v ← node.2 !! idx; shaOf v) = Some sha).

Definition supporters (obs : observations) (idx : nat) (sha : list byte) : gset nat :=
  dom (filter (λ node, supports idx sha node = true) obs).

Lemma occurrences_column sha nodes i :
  occurrences sha (column nodes i) = length (filter (λ node, supports i sha node = true) nodes).
Proof.
  induction nodes as [|n nodes IH]; [done|]. rewrite filter_cons /supports. cbn -[occurrences].
  destruct (accepts n.2); cbn [andb]; [|exact IH]. destruct (n.2 !! i) as [v|] eqn:Hv; cbn -[occurrences].
  - rewrite {1}/occurrences filter_cons. destruct (decide (shaOf v = Some sha)) as [Hs|Hs].
    + rewrite decide_True; [|by apply bool_decide_eq_true]. cbn. by rewrite -IH.
    + rewrite decide_False; [|by rewrite bool_decide_eq_true]. exact IH.
  - exact IH.
Qed.

Lemma size_supporters O obs idx sha : size (supporters obs idx sha) = occurrences sha (column (range_map O obs) idx).
Proof.
  rewrite occurrences_column /supporters size_dom map_filter_alt map_size_list_to_map.
  - by rewrite (range_map_perm O obs).
  - eapply sublist_NoDup; [apply (NoDup_fst_map_to_list obs)|]. apply fmap_sublist, sublist_filter.

Qed.

Lemma entries_elem O n cs k v :
  (k, v) ∈ entries 0 O n cs → ∃ i c, cs !! i = Some c ∧ k = keyFor n i ∧ v = (highest O c).2.
Proof. intros (i & c & [= -> ->] & Hc)%elem_of_lookup_imap. by exists i, c. Qed.

(** The result, when the observations can be marshalled: consensus at every
    index, or an error at some index. *)
Lemma Aggregate_Ok_inv O O' obs f out :
  Aggregate O O' obs f = Ok out →
  ∃ cs, length cs = ExpectedObservationsLen config ∧
    (∀ i c, cs !! i = Some c → counted (column (range_map O obs) i) c ∧ 2 * f + 1 ≤ (highest O' c).1) ∧
    out = mkOutcome (map_to_list (Proto <$> foldl (λ m kv, <[kv.1 := kv.2]> m) ∅ (entries 0 O' (length cs) cs)))
                    [] true 0 None "" None.
Proof.
  intros (cs & Hcs & Hout)%obind_Ok_inv. apply Aggregate_counters in Hcs as [Hl Hc].
  apply obind_Ok_inv in Hout as (m & Hm & [= <-]). exists cs. split; [done|].
  destruct (collectLoop_result O' f (length cs) cs 0 ∅) as [Hok Herr].
  destruct (decide (Forall (λ c, 2 * f + 1 ≤ (highest O' c).1) cs)) as [Hf|Hf].
  - rewrite (Hok Hf) in Hm. simplify_eq. split; [|done]. intros i c Hi. split; [by apply Hc|].
    rewrite Forall_lookup in Hf. by eapply Hf.
  - destruct (Herr Hf) as [i Hi]. by rewrite Hi in Hm.
Qed.

(** [Aggregate] reports only what a quorum observed: an outcome has a value
    under the key of every index and under no other key, and each value was
    contributed at that index by at least 2f+1 distinct nodes (their
    observations have the same hash). *)
Theorem outcome_has_quorum O O' obs f out :
  Aggregate O O' obs f = Ok out →
  ShouldReport out = true ∧
  (∀ idx, idx < ExpectedObservationsLen config →
     ∃ pb, (keyFor (ExpectedObservationsLen config) idx, pb) ∈ EncodableOutcome out) ∧
  (∀ k pb, (k, pb) ∈ EncodableOutcome out →
     ∃ idx v sha, idx < ExpectedObservationsLen config ∧ k = keyFor (ExpectedObservationsLen config) idx ∧
       pb = Proto v ∧ shaOf v = Some sha ∧ 2 * f + 1 ≤ size (supporters obs idx sha)).
Proof.
  intros (cs & Hl & Hc & ->)%Aggregate_Ok_inv. cbn [ShouldReport EncodableOutcome]. split; [done|]. split.
  - intros idx Hidx. rewrite -Hl in Hidx |- *. destruct (lookup_lt_is_Some_2 _ _ Hidx) as [c Hci].
    destruct (foldl_insert_dom (entries 0 O' (length cs) cs) ∅ (keyFor (length cs) idx)) as [v Hv].
    { left. apply list_elem_of_fmap. exists (keyFor (length cs) idx, (highest O' c).2). split; [done|].
      apply elem_of_lookup_imap. by exists idx, c. }
    exists (Proto v). apply elem_of_map_to_list. by rewrite lookup_fmap Hv.
  - intros k pb Hin. apply elem_of_map_to_list in Hin. rewrite lookup_fmap in Hin. apply fmap_Some in Hin as (v & Hv & ->).
    apply foldl_insert_lookup in Hv as [Hv|Hv]; [|by rewrite lookup_empty in Hv].
    apply entries_elem in Hv as (i & c & Hi & -> & ->). destruct (Hc i c Hi) as [Hcnt Hge].
    destruct (highest_spec O' _ _ Hcnt) as [_ Hex]. destruct Hex as (sha & Hs & Hsha & _); [lia|].
    exists i, (highest O' c).2, sha. rewrite -Hl (size_supporters O) -Hs. apply lookup_lt_Some in Hi as Hlt. done.
Qed.

Lemma collectLoop_related O1 O2 f n cs1 cs2 idx out1 out2 :
  Forall2 (λ c1 c2, (highest O1 c1).1 = (highest O2 c2).1 ∧
    (2 * f + 1 ≤ (highest O1 c1).1 → Proto (highest O1 c1).2 = Proto (highest O2 c2).2)) cs1 cs2 →
  Proto <$> out1 = Proto <$> out2 →
  (let? m := collectLoop O1 f n cs1 idx out1 in Ok (Proto <$> m)) = (let? m := collectLoop O2 f n cs2 idx out2 in Ok (Proto <$> m)).
Proof.
  intros Hcs. revert idx out1 out2. induction Hcs as [|c1 c2 cs1 cs2 [Hn Hv] _ IH]; intros idx out1 out2 Hout; cbn [collectLoop].
  { cbn [obind]. by rewrite Hout. }
  destruct (highest O1 c1) as [n1 v1], (highest O2 c2) as [n2 v2]; cbn [fst snd] in *. subst n2.
  destruct (decide (n1 < 2 * f + 1)); [done|]. apply IH. rewrite !fmap_insert Hout. f_equal. apply Hv. lia.
Qed.

Lemma elem_of_column nodes i v : v ∈ column nodes i → ∃ n, n ∈ nodes ∧ v ∈ n.2.
Proof.
  intros (n & Hn & Hv)%list_elem_of_omap. exists n. split; [done|]. destruct (accepts n.2); [|done]. by eapply list_elem_of_lookup_2.
Qed.

(** C9: with at most 4f+1 nodes (an OCR network has 3f+1) and no collision among
    the observed values, the result of [Aggregate] does not depend on the order
    in which the runtime walks the maps, so that all nodes get the same
    outcome, or the same kind of error. *)
Theorem Aggregate_deterministic O1 O1' O2 O2' obs f :
  size obs ≤ 4 * f + 1 →
  (∀ id1 id2 obs1 obs2 v w, obs !! id1 = Some obs1 → obs !! id2 = Some obs2 → v ∈ obs1 → w ∈ obs2 →
     shaOf v = shaOf w → is_Some (shaOf v) → Proto v = Proto w) →
  Aggregate O1 O1' obs f = Aggregate O2 O2' obs f.
Proof.
  intros Hsize Hcol. assert (range_map O1 obs ≡ₚ range_map O2 obs) as Hp by by rewrite !range_map_perm. rewrite /Aggregate.
  pose proof (length_replicate (ExpectedObservationsLen config) (∅ : gmap (list byte) counter)) as Hl0.
  destruct (nodesLoop_result (range_map O1 obs) _ Hl0) as [Hok1 Herr1].
  destruct (nodesLoop_result (range_map O2 obs) _ Hl0) as [Hok2 Herr2].
  assert (Forall hashable (range_map O1 obs) ↔ Forall hashable (range_map O2 obs)) as HpF
    by (rewrite !Forall_forall; split; intros Hf x Hx; apply Hf; by [rewrite Hp|rewrite -Hp]).
  destruct (decide (Forall hashable (range_map O1 obs))) as [Hh|Hh]; [|by rewrite (Herr1 Hh) Herr2 // -HpF].
  destruct (Hok1 Hh) as [cs1 H1], (Hok2 (proj1 HpF Hh)) as [cs2 H2]. rewrite H1 H2. cbn [obind].
  destruct (Aggregate_counters O1 _ _ H1) as [Hl1 Hc1], (Aggregate_counters O2 _ _ H2) as [Hl2 Hc2].
  pose proof (collectLoop_related O1' O2' f (length cs1) cs1 cs2 0 ∅ ∅) as Hrel.
  unfold collectHighestCounts. rewrite -(eq_trans Hl1 (eq_sym Hl2)).
  assert (∀ m : outcome error (gmap string (option Value)),
    (let? out := m in Ok (mkOutcome (map_to_list (Proto <$> out)) [] true 0 None "" None)) =
    (let? pbs := (let? out := m in Ok (Proto <$> out)) in Ok (mkOutcome (map_to_list pbs) [] true 0 None "" None))) as Hfac
    by by intros [].
  rewrite !Hfac Hrel; [done| |done]. apply Forall2_same_length_lookup_2; [congruence|]. intros i c1 c2 Hi1 Hi2.
  pose proof (column_perm _ _ i Hp) as Hcp. destruct (highest_unique O1' O2' _ _ c1 c2 Hcp (Hc1 _ _ Hi1) (Hc2 _ _ Hi2)) as [Heq Hun].
  split; [done|]. intros Hge. pose proof (length_column (range_map O1 obs) i) as Hle. rewrite (Permutation_length (range_map_perm O1 obs)) in Hle.
  rewrite length_map_to_list in Hle. destruct Hun as (sha & Hs1 & Hs2 & Hin1 & Hin2);
    [eapply Nat.le_lt_trans; [exact (Nat.le_trans _ _ _ Hle Hsize)|lia]|].
  apply elem_of_column in Hin1 as ([id1 obs1] & Hin1 & Hv1), Hin2 as ([id2 obs2] & Hin2 & Hv2).
  apply elem_of_range_map in Hin1, Hin2. apply (Hcol id1 id2 obs1 obs2 _ _ Hin1 Hin2 Hv1 Hv2); [by rewrite Hs1 Hs2|rewrite Hs1; by eexists].
Qed.
End identical.

(** *** Four nodes, one of them faulty *)

Definition x61 : option Value := Some (VBytes [Byte.x61]).
Definition x62 : option Value := Some (VBytes [Byte.x62]).
Definition sampleConfig : IdenticalAggConfig := {| ExpectedObservationsLen := 1; KeyOverrides := [] |}.
Definition sampleObs : observations := {[ 0 := [x61]; 1 := [x62]; 2 := [x61]; 3 := [x61] ]}.
Definition sampleOut : AggregationOutcome := mkOutcome [("0", PBytes [Byte.x61])] [] true 0 None "" None.

Lemma outcome_has_quorum_witness :
  let _ := bytesWire in
  Aggregate sampleConfig (insertion_order _) (insertion_order _) sampleObs 1 = Ok sampleOut ∧
  ∃ idx v sha, idx < 1 ∧ "0" = keyFor sampleConfig 1 idx ∧ PBytes [Byte.x61] = Proto v ∧ shaOf v = Some sha ∧
    2 * 1 + 1 ≤ size (supporters sampleConfig sampleObs idx sha).
Proof.
  assert (@Aggregate bytesWire sampleConfig (insertion_order _) (insertion_order _) sampleObs 1 = Ok sampleOut) as Hr
    by by vm_compute.
  cbn zeta. split; [exact Hr|]. destruct (@outcome_has_quorum bytesWire _ _ _ _ _ _ Hr) as (_ & _ & Hall).
  destruct (Hall "0" (PBytes [Byte.x61])) as (idx & v & sha & H); [by left|]. by exists idx, v, sha.
Defined.

Lemma Aggregate_deterministic_witness :
  let _ := bytesWire in
  size sampleObs ≤ 4 * 1 + 1 ∧
  Aggregate sampleConfig (insertion_order _) (insertion_order _) sampleObs 1 =
  Aggregate sampleConfig (reverse_order _) (reverse_order _) sampleObs 1.
Proof.
  cbn zeta. split; [vm_compute; lia|]. apply (@Aggregate_deterministic bytesWire); [vm_compute; lia|].
  intros id1 id2 obs1 obs2 v w _ _ _ _ Hvw Hv. by apply bytesWire_injective.
Defined.
End IdenticalAggregator.
