(* ===== verification/ReduceAggregator.v ===== *)
(** [src/pkg/capabilities/consensus/ocr3/aggregators/reduce_aggregator.go]: each
    field of the configuration is reduced to one value, by median or mode, and
    reported when it deviates from the last reported value.

    Decimals, marshalling and [sort.Slice] are the interfaces of [Consensus].
    Every [range] over a map takes its own order: a round is given, per field,
    the orders of its loops. *)

From Stdlib Require Import QArith.
From S2P Require Import Prelude GoBytes GoStrings Values Consensus.
Local Close Scope Q_scope.

Module ReduceAggregator.
Import Values Consensus.

Definition AGGREGATION_METHOD_MEDIAN : string := "median".
Definition AGGREGATION_METHOD_MODE : string := "mode".
Definition DEVIATION_TYPE_NONE : string := "none".
Definition DEVIATION_TYPE_ANY : string := "any".
Definition DEVIATION_TYPE_PERCENT : string := "percent".
Definition DEVIATION_TYPE_ABSOLUTE : string := "absolute".
Definition REPORT_FORMAT_MAP : string := "map".
Definition REPORT_FORMAT_ARRAY : string := "array".
Definition REPORT_FORMAT_VALUE : string := "value".
Definition MODE_QUORUM_OCR : string := "ocr".
Definition MODE_QUORUM_ANY : string := "any".
Definition DEFAULT_REPORT_FORMAT : string := REPORT_FORMAT_MAP.
Definition DEFAULT_OUTPUT_FIELD_NAME : string := "Reports".
Definition MaxInt : Z := 2 ^ 63 - 1.

Record AggregationField (D : Type) := mkField {
  Deviation : D;
  DeviationString : string;
  DeviationType : string;
  InputKey : string;
  Method : string;
  ModeQuorum : string;
  OutputKey : string;
  SubMapField : bool
}.
Arguments mkField {D} _ _ _ _ _ _ _ _.
Arguments Deviation {D} _.
Arguments DeviationString {D} _.
Arguments DeviationType {D} _.
Arguments InputKey {D} _.
Arguments Method {D} _.
Arguments ModeQuorum {D} _.
Arguments OutputKey {D} _.
Arguments SubMapField {D} _.

Record ReduceAggConfig (D : Type) := mkConfig {
  Fields : list (AggregationField D);
  OutputFieldName : string;
  ReportFormat : string;
  SubMapKey : string
}.
Arguments mkConfig {D} _ _ _ _.
Arguments Fields {D} _.
Arguments OutputFieldName {D} _.
Arguments ReportFormat {D} _.
Arguments SubMapKey {D} _.

Definition isOneOf (toCheck : string) (options : list string) : bool := existsb (String.eqb toCheck) options.

(** The orders of the loops over maps while a field is reduced. *)
Record orders := mkOrders {
  obsOrder : RangeOrder (nat * list (option Value));
  maxOrder : RangeOrder (list byte * counter);
  modesOrder : RangeOrder (list byte * counter)
}.

(** *** Values that can be compared *)

(** [==] on interface values that hold floats: NaN differs from itself, and
    the two zeros are equal. *)
Definition floatEq (a b : Z) : bool :=
  let nan x := bool_decide (2 ^ 63 - 2 ^ 52 < x mod 2 ^ 63)%Z in
  if nan a || nan b then false
  else if bool_decide (a mod 2 ^ 63 = 0 ∧ b mod 2 ^ 63 = 0)%Z then true
  else Z.eqb a b.

(** [==] on what [Unwrap] returns.  An unwrapped [BigInt] is a pointer to a new
    [big.Int]; a [Decimal] holds a pointer to its coefficient, which differs
    between the unmarshalled state and an observation. *)
Definition ifaceEq (a b : any) : bool :=
  match a, b with
  | ANil, ANil => true
  | AString s, AString s' => String.eqb s s'
  | ABool x, ABool y => Bool.eqb x y
  | AInt KInt64 x, AInt KInt64 y => Z.eqb x y
  | AFloat64 x, AFloat64 y => floatEq x y
  | ATime s n, ATime s' n' => Z.eqb s s' && Z.eqb n n'
  | _, _ => false
  end.

Section reduce.
Context `{DecimalOps D, Wire, SortSlice}.

Definition toDecimal (item : option Value) : outcome error D :=
  match item with
  | None => Panic                                   (* a method call on a nil interface *)
  | Some v =>
      match Unwrap v with
      | AString s => ok_or ErrNotDecimal (NewFromString s)
      | ADecimal c e => Ok (NewFromBigInt c e)
      | AInt KInt64 z => Ok (NewFromInt z)
      | ABigInt z => Ok (NewFromBigInt z 10)
      | ATime s _ => Ok (NewFromInt s)
      | AFloat64 x => match NewFromFloat x with Some d => Ok d | None => Panic end
      | _ => Err ErrNotDecimal
      end
  end.

Definition toDecimal0 (item : option Value) : D :=
  match toDecimal item with Ok d => d | _ => NewFromInt 0 end.

Definition panics (item : option Value) : bool := match toDecimal item with Panic => true | _ => false end.
Definition fails (item : option Value) : bool := match toDecimal item with Err _ => true | _ => false end.

(** The comparison runs for every item unless there is only one; an error is
    remembered, and the sort goes on with zero. *)
Definition sortAsDecimal (items : list (option Value)) : outcome error (list (option Value)) :=
  if decide (length items < 2) then Ok items
  else if existsb panics items then Panic
  else if existsb fails items then Err ErrNotDecimal
  else Ok (sortSlice (λ x y, GreaterThan (toDecimal0 x) (toDecimal0 y)) items).

Definition median (items : list (option Value)) : outcome error (option Value) :=
  if decide (length items = 0) then Err ErrEmptyItems
  else
    let? items := sortAsDecimal items in
    go_index items ((length items - 1) / 2).

Definition maxStep (maxCount : nat) (kv : list byte * counter) : nat :=
  if decide (maxCount < count kv.2) then count kv.2 else maxCount.

Definition mode (O : orders) (items : list (option Value)) : outcome error (option Value * nat) :=
  if decide (length items = 0) then Err ErrEmptyItems
  else
    let? counts := countAll items in
    let maxCount := foldl maxStep 0 (range_map (maxOrder O) counts) in
    let modes := omap (λ kv : list byte * counter,
                         if decide (count kv.2 = maxCount) then Some (fullObservation kv.2) else None)
                      (range_map (modesOrder O) counts) in
    let? v := go_index modes 0 in
    Ok (v, maxCount).

Definition modeHasQuorum (quorumType : string) (count f : nat) : outcome error unit :=
  if String.eqb quorumType MODE_QUORUM_ANY then Ok ()
  else if String.eqb quorumType MODE_QUORUM_OCR then (if decide (count < f + 1) then Err ErrModeQuorum else Ok ())
  else Err ErrModeQuorumType.

Definition reduce (O : orders) (method : string) (items : list (option Value)) (f : nat) (modeQuorum : string)
    : outcome error (option Value) :=
  if String.eqb method AGGREGATION_METHOD_MEDIAN then median items
  else if String.eqb method AGGREGATION_METHOD_MODE then
    let? (value, count) := mode O items in
    let? _ := modeHasQuorum modeQuorum count f in
    Ok value
  else Err ErrMethod.

Definition deviation (method : string) (previousValue nextValue : option Value) : outcome error D :=
  let? prevDeci := toDecimal previousValue in
  let? nextDeci := toDecimal nextValue in
  let diff := dAbs (dSub prevDeci nextDeci) in
  let isZero d := match dCmp d (NewFromInt 0) with Eq => true | _ => false end in
  if String.eqb method DEVIATION_TYPE_ABSOLUTE then Ok diff
  else if String.eqb method DEVIATION_TYPE_PERCENT then
    if isZero prevDeci then
      if isZero diff then Ok (NewFromInt 0) else Ok (NewFromInt MaxInt)
    else Ok (dDiv diff prevDeci)
  else Err ErrDeviationMethod.

(** *** Observations *)

(** What one node contributes to a field; [None] when it is skipped. *)
Definition extractValue (aggregationKey : string) (nodeObservations : list (option Value))
    : outcome error (option (option Value)) :=
  let rewrapped a := match Wrap a with Ok v => Ok (Some v) | Err _ => Ok None | Panic => Panic end in
  match nodeObservations with
  | [] | None :: _ => Ok None
  | Some _ :: _ :: _ => Ok None
  | [Some v] =>
      match Unwrap v with
      | AMap m => match mapGet m aggregationKey with None => Ok None | Some a => rewrapped a end
      | ASlice l =>
          match Atoi aggregationKey with
          | None => Ok None
          | Some i => if decide (i < 0)%Z then Panic
                      else match l !! Z.to_nat i with None => Panic | Some a => rewrapped a end
          end
      | _ => if String.eqb aggregationKey "" then Ok (Some (Some v)) else Ok None
      end
  end.

Definition extractStep (aggregationKey : string) (vals : list (option Value)) (node : nat * list (option Value))
    : outcome error (list (option Value)) :=
  let? v := extractValue aggregationKey node.2 in
  Ok (match v with Some v => vals ++ [v] | None => vals end).

Definition extractValues (O : orders) (obs : observations) (aggregationKey : string) : outcome error (list (option Value)) :=
  ofold (extractStep aggregationKey) [] (range_map (obsOrder O) obs).

(** *** State and reports *)

Definition initializeCurrentState (previousOutcome : option AggregationOutcome) : outcome error (gmap string (option Value)) :=
  match previousOutcome with
  | None => Ok ∅
  | Some p => match unmarshalMap (Metadata p) with
              | None => Err ErrState
              | Some m => Ok (list_to_map ((λ kv, (kv.1, FromProto kv.2)) <$> m))
              end
  end.

Definition shouldReport (field : AggregationField D) (singleValue : option Value) (currentState : gmap string (option Value))
    : outcome error bool :=
  if String.eqb (DeviationType field) DEVIATION_TYPE_NONE then Ok false
  else
    match default None (currentState !! OutputKey field) with
    | None => Ok true
    | Some oldValue =>
        if String.eqb (DeviationType field) DEVIATION_TYPE_ANY then
          match singleValue with
          | None => Panic
          | Some v =>
              match Unwrap oldValue with
              | ABytes b => match Unwrap v with
                            | ABytes b' => Ok (negb (bool_decide (b = b')))
                            | _ => Panic                      (* the type assertion *)
                            end
              | AMap _ | ASlice _ =>
                  let? b := ok_or ErrMarshal (marshalValue (Proto (Some oldValue))) in
                  let? b' := ok_or ErrMarshal (marshalValue (Proto singleValue)) in
                  Ok (negb (bool_decide (b = b')))
              | a => Ok (negb (ifaceEq a (Unwrap v)))
              end
          end
        else
          let? currDeviation := deviation (DeviationType field) (Some oldValue) singleValue in
          Ok (GreaterThan currDeviation (Deviation field))
    end.

(** The value as an [any]. *)
Definition asAny (v : option Value) : any := match v with Some v => AValue v | None => ANil end.

Definition reportKey (field : AggregationField D) : string :=
  if String.eqb (OutputKey field) "" then InputKey field else OutputKey field.

Record round := mkRound {
  currentState : gmap string (option Value);
  report : gmap string any;
  reportNow : bool
}.

Definition fieldStep (obs : observations) (f : nat) (st : round) (work : orders * AggregationField D) : outcome error round :=
  let '(ord, field) := work in
  let? vals := extractValues ord obs (InputKey field) in
  if decide (length vals < 2 * f + 1) then Err ErrNotEnoughValues
  else
    let? singleValue := reduce ord (Method field) vals f (ModeQuorum field) in
    let? shouldReportField := shouldReport field singleValue (currentState st) in
    Ok {| currentState := if shouldReportField || String.eqb (DeviationType field) DEVIATION_TYPE_NONE
                          then <[OutputKey field := singleValue]> (currentState st) else currentState st;
          report := <[reportKey field := asAny singleValue]> (report st);
          reportNow := shouldReportField || reportNow st |}.

(** The fields marked for it move into a nested map. *)
Definition subMapStep (acc : gmap string any * gmap string any) (field : AggregationField D)
    : gmap string any * gmap string any :=
  if SubMapField field
  then (<[reportKey field := default ANil (acc.2 !! reportKey field)]> acc.1, delete (reportKey field) acc.2)
  else acc.

Definition nestSubMap (config : ReduceAggConfig D) (report : gmap string any) : gmap string any :=
  if String.eqb (SubMapKey config) "" then report
  else
    let '(subMap, report) := foldl subMapStep (∅, report) (Fields config) in
    <[SubMapKey config := AMap (map_to_list subMap)]> report.

Definition hasNoDeviation (config : ReduceAggConfig D) : bool :=
  forallb (λ field, String.eqb (DeviationType field) DEVIATION_TYPE_NONE) (Fields config).

Definition formatReport (O : RangeOrder (string * any)) (report : gmap string any) (format : string) : outcome error any :=
  if String.eqb format REPORT_FORMAT_ARRAY then Ok (ASlice [AMap (map_to_list report)])
  else if String.eqb format REPORT_FORMAT_MAP then Ok (AMap (map_to_list report))
  else if String.eqb format REPORT_FORMAT_VALUE then
    match range_map O report with [] => Err ErrFormat | kv :: _ => Ok kv.2 end
  else Err ErrFormat.

(** The orders of a round: one set per field, and the one of [formatReport]. *)
Definition Aggregate (config : ReduceAggConfig D) (Os : nat → orders) (Or : RangeOrder (string * any))
    (previousOutcome : option AggregationOutcome) (obs : observations) (f : nat) : outcome error AggregationOutcome :=
  if decide (size obs < 2 * f + 1) then Err ErrNotEnoughObservations
  else
    let? state := initializeCurrentState previousOutcome in
    let? st := ofold (fieldStep obs f) (mkRound state ∅ false) (imap (λ i field, (Os i, field)) (Fields config)) in
    let report := nestSubMap config (report st) in
    let? stateBytes := ok_or ErrMarshal (marshalMap (map_to_list (Proto <$> currentState st))) in
    let? toWrap := formatReport Or report (ReportFormat config) in
    let? wrapped := map_err (λ _, ErrWrapReport) (Wrap toWrap) in
    Ok (mkOutcome [(OutputFieldName config, Proto wrapped)] stateBytes
                  (hasNoDeviation config || reportNow st) 0 None "" None).

(** *** Configuration *)

Definition setDeviationType (t : string) (x : AggregationField D) : AggregationField D :=
  mkField (Deviation x) (DeviationString x) t (InputKey x) (Method x) (ModeQuorum x) (OutputKey x) (SubMapField x).
Definition setDeviation (d : D) (x : AggregationField D) : AggregationField D :=
  mkField d (DeviationString x) (DeviationType x) (InputKey x) (Method x) (ModeQuorum x) (OutputKey x) (SubMapField x).
Definition setModeQuorum (q : string) (x : AggregationField D) : AggregationField D :=
  mkField (Deviation x) (DeviationString x) (DeviationType x) (InputKey x) (Method x) q (OutputKey x) (SubMapField x).

Definition guard (c : bool) : outcome error unit := if c then Err ErrConfig else Ok ().

(** One iteration of the loop over the fields. *)
Definition parseField (format : string) (outputKeys : gset string) (field : AggregationField D)
    : outcome error (AggregationField D) :=
  let? _ := guard ((String.eqb format REPORT_FORMAT_ARRAY || String.eqb format REPORT_FORMAT_MAP)
                   && String.eqb (OutputKey field) "") in
  let field := if String.eqb (DeviationType field) "" then setDeviationType DEVIATION_TYPE_NONE field else field in
  let? _ := guard (negb (isOneOf (DeviationType field)
                     [DEVIATION_TYPE_ABSOLUTE; DEVIATION_TYPE_PERCENT; DEVIATION_TYPE_NONE; DEVIATION_TYPE_ANY])) in
  let? _ := guard (negb (isOneOf (DeviationType field) [DEVIATION_TYPE_NONE; DEVIATION_TYPE_ANY])
                   && String.eqb (DeviationString field) "") in
  let? field :=
    if negb (String.eqb (DeviationType field) DEVIATION_TYPE_NONE) && negb (String.eqb (DeviationString field) "")
    then match NewFromString (DeviationString field) with
         | None => Err ErrConfig
         | Some deci => Ok (setDeviation deci field)
         end
    else Ok field in
  let? _ := guard (String.eqb (Method field) ""
                   || negb (isOneOf (Method field) [AGGREGATION_METHOD_MEDIAN; AGGREGATION_METHOD_MODE])) in
  let field := if String.eqb (Method field) AGGREGATION_METHOD_MODE && String.eqb (ModeQuorum field) ""
               then setModeQuorum MODE_QUORUM_OCR field else field in
  let? _ := guard (String.eqb (Method field) AGGREGATION_METHOD_MODE
                   && negb (isOneOf (ModeQuorum field) [MODE_QUORUM_ANY; MODE_QUORUM_OCR])) in
  let? _ := guard (negb (String.eqb (DeviationString field) "")
                   && isOneOf (DeviationType field) [DEVIATION_TYPE_NONE; DEVIATION_TYPE_ANY]) in
  let? _ := guard (bool_decide (OutputKey field ∈ outputKeys)) in
  Ok field.

Fixpoint parseFields (format : string) (outputKeys : gset string) (fields : list (AggregationField D))
    : outcome error (list (AggregationField D)) :=
  match fields with
  | [] => Ok []
  | field :: fields =>
      let? field := parseField format outputKeys field in
      let? fields := parseFields format ({[OutputKey field]} ∪ outputKeys) fields in
      Ok (field :: fields)
  end.

(** [ParseConfigReduceAggregator], given the unwrapped configuration. *)
Definition ParseConfigReduceAggregator (unwrapped : option (ReduceAggConfig D)) : outcome error (ReduceAggConfig D) :=
  let? c := ok_or ErrConfig unwrapped in
  let? _ := guard (bool_decide (length (Fields c) = 0)) in
  let name := if String.eqb (OutputFieldName c) "" then DEFAULT_OUTPUT_FIELD_NAME else OutputFieldName c in
  let format := if String.eqb (ReportFormat c) "" then DEFAULT_REPORT_FORMAT else ReportFormat c in
  let? _ := guard (bool_decide (1 < length (Fields c)) && String.eqb format REPORT_FORMAT_VALUE) in
  let? fields := parseFields format ∅ (Fields c) in
  let hasSubMapField := existsb SubMapField fields in
  let? _ := guard (negb (String.eqb (SubMapKey c) "") && negb hasSubMapField) in
  let? _ := guard (hasSubMapField && String.eqb (SubMapKey c) "") in
  let? _ := guard (negb (isOneOf format [REPORT_FORMAT_ARRAY; REPORT_FORMAT_MAP; REPORT_FORMAT_VALUE])) in
  Ok (mkConfig fields name format (SubMapKey c)).
End reduce.

(** *** The median *)

Section median_facts.
Context `{DecimalLaws D, Wire, SortSlice}.
Implicit Types (items : list (option Value)).

Definition byDecimal (x y : option Value) : Prop := dle (toDecimal0 y) (toDecimal0 x).

Lemma sortAsDecimal_sorted items sorted :
  sortAsDecimal items = Ok sorted → sorted ≡ₚ items ∧ StronglySorted byDecimal sorted.
Proof.
  rewrite /sortAsDecimal. case_decide as Hl.
  { intros [= <-]. split; [done|]. destruct items as [|x [|y items]]; [repeat constructor|repeat constructor|simpl in Hl; lia]. }
  destruct (existsb panics items); [done|]. destruct (existsb fails items); [done|]. intros [= <-].
  split; [apply sortSlice_perm|]. eapply StronglySorted_mono; [|apply sortSlice_sorted].
  - intros x y Hxy. by apply GreaterThan_false.
  - intros x y Hxy%GreaterThan_true_dle. by apply GreaterThan_false.
  - intros x y z. rewrite !GreaterThan_false. intros Hyx Hzy. by eapply dle_trans.
Qed.

Lemma median_bounds items r honest faulty f :
  median items = Ok r → items ≡ₚ honest ++ faulty → length faulty ≤ f → 2 * f + 1 ≤ length items →
  ∃ lo hi, lo ∈ honest ∧ hi ∈ honest ∧ dle (toDecimal0 lo) (toDecimal0 r) ∧ dle (toDecimal0 r) (toDecimal0 hi).
Proof.
  rewrite /median. case_decide; [done|]. intros (sorted & Hs & Hr)%obind_Ok_inv Hp Hf Hn.
  apply go_index_Ok in Hr. apply sortAsDecimal_sorted in Hs as [Hperm Hsort].
  set (n := length sorted) in *. set (k := (n - 1) / 2) in *.
  assert (n = length items) as Hlen by (by rewrite /n Hperm).
  assert (2 * k ≤ n - 1 ∧ n - 1 < 2 * k + 2) as [Hk1 Hk2].
  { pose proof (Nat.div_mod_eq (n - 1) 2) as Hd. pose proof (Nat.mod_upper_bound (n - 1) 2) as Hm. fold k in Hd. lia. }
  rewrite -Hperm in Hp.
  destruct (sorted_bounds byDecimal sorted honest faulty k r Hsort Hp Hr) as (hi & lo & Hhi & Hlo & Hb1 & Hb2);
    [lia|fold n; lia|].
  exists lo, hi. split; [done|]. split; [done|]. split.
  - destruct Hb2 as [->|Hb2]; [apply dle_refl|exact Hb2].
  - destruct Hb1 as [->|Hb1]; [apply dle_refl|exact Hb1].
Qed.
End median_facts.

(** *** The mode *)

Section mode_facts.
Context `{DecimalOps D, Wire, SortSlice}.
Implicit Types (items : list (option Value)).

Lemma maxLoop_spec l acc :
  acc ≤ foldl maxStep acc l ∧ Forall (λ kv, count kv.2 ≤ foldl maxStep acc l) l ∧
  (foldl maxStep acc l = acc ∨ ∃ kv, kv ∈ l ∧ foldl maxStep acc l = count kv.2).
Proof.
  revert acc. induction l as [|kv l IH]; intros acc; cbn [foldl]; [split; [done|]; split; [constructor|by left]|].
  destruct (IH (maxStep acc kv)) as (H1' & H2 & H3). revert H1' H2 H3. generalize (foldl maxStep (maxStep acc kv) l) as r.
  intros r H1' H2 H3. assert (acc ≤ maxStep acc kv ∧ count kv.2 ≤ maxStep acc kv ∧ (maxStep acc kv = acc ∨ maxStep acc kv = count kv.2)) as (H4 & H5 & H6)
    by (rewrite /maxStep; case_decide; lia).
  split; [lia|]. split; [constructor; [lia|done]|]. destruct H3 as [->|(kv' & Hkv & ->)]; [|right; exists kv'; set_solver].
  destruct H6 as [->| ->]; [by left|right; exists kv; set_solver].
Qed.

Lemma mode_spec O items v n :
  mode O items = Ok (v, n) →
  ∃ sha, shaOf v = Some sha ∧ v ∈ items ∧ n = occurrences sha items ∧ ∀ sha', occurrences sha' items ≤ n.
Proof.
  rewrite /mode. case_decide; [done|]. intros (counts & Hc & Hv)%obind_Ok_inv. apply obind_Ok_inv in Hv as (w & Hw & [= <- <-]).
  apply go_index_Ok in Hw. apply countAll_counted in Hc.
  destruct (maxLoop_spec (range_map (maxOrder O) counts) 0) as (_ & Hall & _). rewrite Forall_forall in Hall.
  set (m := foldl maxStep 0 _) in *. apply list_elem_of_lookup_2 in Hw.
  apply list_elem_of_omap in Hw as ([sha ctr] & Hin & Hw). cbn [fst snd] in Hw. destruct (decide (count ctr = m)) as [Hm|]; [|done].
  injection Hw as Hw. subst w. apply elem_of_range_map in Hin. pose proof (Hc sha) as Hs. rewrite Hin in Hs. destruct Hs as (Hcnt & Hel & Hsha).
  exists sha. split; [done|]. split; [done|]. split; [congruence|]. intros sha'. specialize (Hc sha').
  destruct (counts !! sha') as [c|] eqn:E; [|rewrite Hc; apply Nat.le_0_l]. destruct Hc as [<- _].
  apply (Hall (sha', c)). by apply elem_of_range_map.
Qed.
End mode_facts.

(** *** What the nodes contribute *)

Definition contribution (key : string) (node : nat * list (option Value)) : option (nat * option Value) :=
  match extractValue key node.2 with Ok (Some v) => Some (node.1, v) | _ => None end.

Definition contributions (O : orders) (obs : observations) (key : string) : list (nat * option Value) :=
  omap (contribution key) (range_map (obsOrder O) obs).

(** Node [id] contributes [v] to the field with input key [key]. *)
Definition contributes (obs : observations) (key : string) (id : nat) (v : option Value) : Prop :=
  ∃ o, obs !! id = Some o ∧ extractValue key o = Ok (Some v).

Lemma extractLoop_result key vals nodes vals' :
  ofold (extractStep key) vals nodes = Ok vals' → vals' = vals ++ (omap (contribution key) nodes).*2.
Proof.
  revert vals. induction nodes as [|n nodes IH]; intros vals; cbn [ofold]; [intros [= <-]; by rewrite app_nil_r|].
  intros (vals1 & H1 & ->%IH)%obind_Ok_inv. apply obind_Ok_inv in H1 as (v & Hv & [= <-]). cbn. rewrite /contribution Hv.
  destruct v as [v|]; [|done]. cbn. by rewrite -assoc.
Qed.

Lemma extractValues_result O obs key vals : extractValues O obs key = Ok vals → vals = (contributions O obs key).*2.
Proof. by intros ->%extractLoop_result. Qed.

Lemma elem_of_contributions O obs key id v : (id, v) ∈ contributions O obs key ↔ contributes obs key id v.
Proof.
  rewrite /contributions list_elem_of_omap /contributes /contribution. split.
  - intros ([id' o] & Hin & Hc). apply elem_of_range_map in Hin. cbn [fst snd] in Hc. exists o.
    destruct (extractValue key o) as [[w|]| |]; naive_solver.
  - intros (o & Ho & Hv). exists (id, o). split; [by apply elem_of_range_map|]. by rewrite /= Hv.
Qed.

Lemma contribution_keys key nodes : (omap (contribution key) nodes).*1 `sublist_of` nodes.*1.
Proof.
  induction nodes as [|[id o] nodes IH]; [done|]. cbn. rewrite {1}/contribution. cbn [fst snd].
  destruct (extractValue key o) as [[w|]| |]; by constructor.
Qed.

Lemma contributions_NoDup O obs key : NoDup (contributions O obs key).*1.
Proof. eapply sublist_NoDup; [apply (NoDup_fst_range_map (obsOrder O) obs)|apply contribution_keys]. Qed.

(** The contributions of honest nodes, and those of the at most [f] others. *)
Lemma contributions_split O obs key (honest : gset nat) f :
  size (dom obs ∖ honest) ≤ f →
  ∃ hon faulty, contributions O obs key ≡ₚ hon ++ faulty ∧ length faulty ≤ f ∧
    ∀ id v, (id, v) ∈ hon → id ∈ honest ∧ contributes obs key id v.
Proof.
  intros Hf. exists (filter (λ n, n.1 ∈ honest) (contributions O obs key)), (filter (λ n, n.1 ∉ honest) (contributions O obs key)).
  split; [|split].
  - symmetry. apply filter_split.
  - etrans; [|exact Hf]. set (l := filter _ _). rewrite -(length_fmap fst l) -(size_list_to_set (C:=gset nat) l.*1).
    + apply subseteq_size. intros id Hid. apply elem_of_list_to_set in Hid.
      apply list_elem_of_fmap in Hid as ([id' v] & -> & Hin). apply list_elem_of_filter in Hin as [Hn Hin].
      apply elem_of_contributions in Hin as (o & Ho & _). apply elem_of_difference. split; [|done]. by apply elem_of_dom.
    + eapply sublist_NoDup; [apply (contributions_NoDup O obs key)|]. apply fmap_sublist, sublist_filter.
  - intros id v Hin. apply list_elem_of_filter in Hin as [Hn Hin]. split; [done|]. by apply (elem_of_contributions O).
Qed.

(** *** Guarantees against faulty nodes *)

Section faulty.
Context `{DecimalLaws D, Wire, SortSlice}.

(** C6: the median is Byzantine-fault tolerant: whatever at most [f] nodes
    contribute, the median of at least 2f+1 values lies between two values that
    honest nodes contributed. *)
Theorem median_between_honest O obs key (honest : gset nat) f q vals r :
  extractValues O obs key = Ok vals →
  2 * f + 1 ≤ length vals →
  size (dom obs ∖ honest) ≤ f →
  reduce O AGGREGATION_METHOD_MEDIAN vals f q = Ok r →
  ∃ id1 id2 lo hi, id1 ∈ honest ∧ id2 ∈ honest ∧ contributes obs key id1 lo ∧ contributes obs key id2 hi ∧
    dle (toDecimal0 lo) (toDecimal0 r) ∧ dle (toDecimal0 r) (toDecimal0 hi).
Proof.
  intros ->%extractValues_result Hlen Hf Hr. change (median (contributions O obs key).*2 = Ok r) in Hr.
  destruct (contributions_split O obs key honest f Hf) as (hon & faulty & Hp & Hl & Hhon).
  destruct (median_bounds _ r hon.*2 faulty.*2 f Hr) as (lo & hi & Hlo & Hhi & Hb); [by rewrite Hp fmap_app|by rewrite length_fmap|done|].
  apply list_elem_of_fmap in Hlo as ([id1 lo'] & -> & Hlo), Hhi as ([id2 hi'] & -> & Hhi).
  apply Hhon in Hlo as [? ?], Hhi as [? ?]. by exists id1, id2, lo', hi'.
Qed.

(** A mode with OCR quorum was contributed by an honest node (up to a hash
    collision), and no value was contributed by more nodes. *)
Theorem mode_has_honest_support O obs key (honest : gset nat) f vals r :
  extractValues O obs key = Ok vals →
  size (dom obs ∖ honest) ≤ f →
  reduce O AGGREGATION_METHOD_MODE vals f MODE_QUORUM_OCR = Ok r →
  ∃ id v sha, id ∈ honest ∧ contributes obs key id v ∧ shaOf v = Some sha ∧ shaOf r = Some sha ∧
    ∀ sha', occurrences sha' vals ≤ occurrences sha vals.
Proof.
  intros ->%extractValues_result Hf Hr. unfold reduce in Hr. cbn in Hr.
  apply obind_Ok_inv in Hr as ([w n] & (sha & Hsha & _ & Hn & Hmax)%mode_spec & Hr).
  apply obind_Ok_inv in Hr as ([] & Hq & [= <-]). rewrite /modeHasQuorum /= in Hq. destruct (decide (n < f + 1)); [done|].
  destruct (contributions_split O obs key honest f Hf) as (hon & faulty & Hp & Hl & Hhon).
  set (items := (contributions O obs key).*2) in *.
  assert (items ≡ₚ hon.*2 ++ faulty.*2) as Hitems by (by rewrite /items Hp fmap_app).
  destruct (pigeonhole (filter (λ v, shaOf v = Some sha) items) items hon.*2 faulty.*2) as (v & Hv & Hv'); [|done|..].
  { apply sublist_submseteq, sublist_filter. }
  { rewrite length_fmap. rewrite /occurrences in Hn. lia. }
  apply list_elem_of_filter in Hv as [Hv _]. apply list_elem_of_fmap in Hv' as ([id v'] & -> & Hin). apply Hhon in Hin as [? ?].
  exists id, v', sha. repeat split; try done. intros sha'. rewrite -Hn. apply Hmax.
Qed.
End faulty.

(** *** Where the result depends on the run *)

Section ties.
Context `{DecimalOps D, Wire, SortSlice}.

(** [mode] does not break ties: when several values are the most frequent
    ones, with a quorum each, every one of them is the result under some map
    order, so that nodes that observed the same values can disagree. *)
Theorem mode_tie_depends_on_order O items f sha :
  Forall (λ v, is_Some (shaOf v)) items →
  f + 1 ≤ occurrences sha items →
  (∀ sha', occurrences sha' items ≤ occurrences sha items) →
  ∃ modesO r, reduce (mkOrders (obsOrder O) (maxOrder O) modesO) AGGREGATION_METHOD_MODE items f MODE_QUORUM_OCR = Ok r ∧
    shaOf r = Some sha.
Proof.
  intros Hall Hf Hmax. exists (keyFirst sha). destruct (countAll_ok items Hall) as [counts Hcounts].
  pose proof (countAll_counted _ _ Hcounts) as Hc.
  assert (length items ≠ 0) as Hne by (destruct items; [unfold occurrences in Hf; simpl in Hf; lia|done]).
  pose proof (Hc sha) as Hs. destruct (counts !! sha) as [ctr|] eqn:Hctr; [|lia]. destruct Hs as (Hcnt & _ & Hsha).
  destruct (maxLoop_spec (range_map (maxOrder O) counts) 0) as (_ & Hle & Hex). rewrite Forall_forall in Hle.
  assert (foldl maxStep 0 (range_map (maxOrder O) counts) = count ctr) as Hm.
  { apply Nat.le_antisymm; [|apply (Hle (sha, ctr)); by apply elem_of_range_map].
    destruct Hex as [->|([sha' c] & Hin & ->)]; [lia|]. apply elem_of_range_map in Hin. pose proof (Hc sha') as Hs'.
    rewrite Hin in Hs'. destruct Hs' as [Hs' _]. cbn [snd]. rewrite Hs' Hcnt. apply Hmax. }
  exists (fullObservation ctr). split; [|done]. unfold reduce. cbn. rewrite /mode decide_False // Hcounts. cbn [obind maxOrder modesOrder].
  rewrite Hm. destruct (range_map_keyFirst sha counts ctr Hctr) as [l' ->].
  cbn. rewrite decide_True // /modeHasQuorum /=. rewrite decide_False; [done|]. lia.
Qed.
End ties.

Section panics.
Context `{DecimalOps D, Wire, SortSlice}.

Lemma extractValue_not_Err key o e : extractValue key o ≠ Err e.
Proof.
  rewrite /extractValue. destruct o as [|[v|] [|]]; try done.
  destruct (Unwrap v) as [| | | | | | | | |l|m| | | |]; try (by destruct (String.eqb key "")).
  - destruct (Atoi key) as [i|]; [|done]. destruct (decide (i < 0)%Z); [done|]. destruct (l !! Z.to_nat i) as [a|]; [|done].
    by destruct (Wrap a).
  - destruct (mapGet m key) as [a|]; [|done]. by destruct (Wrap a).
Qed.

Lemma extractValues_panics O obs key id o :
  obs !! id = Some o → extractValue key o = Panic → extractValues O obs key = Panic.
Proof.
  intros Ho Hp. rewrite /extractValues. generalize (@nil (option Value)) as vals.
  assert ((id, o) ∈ range_map (obsOrder O) obs) as Hin by by apply elem_of_range_map.
  induction (range_map (obsOrder O) obs) as [|[id' o'] nodes IH]; intros vals; [by apply elem_of_nil in Hin|]. cbn [ofold].
  rewrite {1}/extractStep. cbn [snd]. destruct (extractValue key o') as [v|e|] eqn:Hv; [|by apply extractValue_not_Err in Hv|done].
  apply elem_of_cons in Hin as [[= <- <-]|Hin]; [congruence|]. cbn [obind]. by apply IH.
Qed.

(** A single node can crash the aggregation of all nodes: when its
    observation is a list that is too short for the index that a field's input
    key names (or the key is negative), [Aggregate] panics, whatever the other
    nodes observed. *)
Theorem short_list_panics config Os Or prev obs f st id l i field rest :
  Fields config = field :: rest →
  2 * f + 1 ≤ size obs →
  initializeCurrentState prev = Ok st →
  obs !! id = Some [Some (VList l)] →
  Atoi (InputKey field) = Some i →
  (i < 0 ∨ Z.of_nat (length l) ≤ i)%Z →
  Aggregate config Os Or prev obs f = Panic.
Proof.
  intros Hfields Hsize Hst Ho Hi Hrange. unfold Aggregate. destruct (decide (size obs < 2 * f + 1)) as [Hlt|_];
    [by apply Nat.lt_nge in Hlt|].
  rewrite Hst Hfields. cbn [obind imap ofold]. rewrite {1}/fieldStep (extractValues_panics _ _ _ _ _ Ho); [done|].
  rewrite /extractValue /=. rewrite Hi. case_decide as Hneg; [done|].
  rewrite lookup_ge_None_2; [done|]. rewrite length_fmap. lia.
Qed.
End panics.

(** *** Reporting on any change *)

Lemma ok_or_Ok {E A} (e : E) (o : option A) a : ok_or e o = Ok a ↔ o = Some a.
Proof. destruct o; naive_solver. Qed.

Section any_deviation.
Context `{DecimalOps D, Wire}.

(** A field of deviation type "any" is reported exactly when its value
    differs from the last reported one (for lists and maps, when their
    marshalled form does); except that a [BigInt] or a [Decimal] is reported in
    every round, because pointers are compared. *)
Theorem any_deviation_exact (field : AggregationField D) st old v b :
  DeviationType field = DEVIATION_TYPE_ANY →
  st !! OutputKey field = Some (Some old) →
  shouldReport field (Some v) st = Ok b →
  match old with
  | VBigInt _ | VDecimal _ _ => b = true
  | VFloat64 x => b = negb (match v with VFloat64 y => floatEq x y | _ => false end)
  | VList _ | VMap _ => b = false ↔ marshalValue (Proto (Some old)) = marshalValue (Proto (Some v))
  | _ => b = false ↔ v = old
  end.
Proof.
  intros Ht Hst. rewrite /shouldReport Ht Hst /=. destruct old; cbn [Unwrap].
  1: destruct v; intros [= <-]; rewrite ?negb_false_iff ?String.eqb_eq; naive_solver.
  1: destruct v; intros [= <-]; rewrite ?negb_false_iff ?eqb_true_iff; naive_solver.
  2: destruct v; intros [= <-]; rewrite ?negb_false_iff ?Z.eqb_eq; naive_solver.
  2, 3, 4: by (destruct v; intros [= <-]).
  - destruct v; intros [= <-]; rewrite negb_false_iff bool_decide_eq_true; naive_solver.
  - destruct v; intros [= <-]; simpl; rewrite ?negb_false_iff ?andb_true_iff ?Z.eqb_eq; naive_solver.
  - intros (x & Hx & (y & Hy & [= <-])%obind_Ok_inv)%obind_Ok_inv. rewrite negb_false_iff bool_decide_eq_true.
    apply ok_or_Ok in Hx as ->, Hy as ->. split; congruence.
  - intros (x & Hx & (y & Hy & [= <-])%obind_Ok_inv)%obind_Ok_inv. rewrite negb_false_iff bool_decide_eq_true.
    apply ok_or_Ok in Hx as ->, Hy as ->. split; congruence.
Qed.
End any_deviation.

(** *** Validated configurations *)

(** The call does not fail for a reason that validation excludes. *)
Definition avoids {A} (m : outcome error A) : Prop :=
  match m with Err (ErrMethod | ErrModeQuorumType | ErrDeviationMethod | ErrFormat) => False | _ => True end.

Lemma obind_avoids {A B} (m : outcome error A) (k : A → outcome error B) :
  avoids m → (∀ a, m = Ok a → avoids (k a)) → avoids (obind m k).
Proof. destruct m as [a|[]|]; simpl; auto. Qed.

Lemma ofold_avoids {A B} (f : B → A → outcome error B) acc l :
  (∀ acc x, x ∈ l → avoids (f acc x)) → avoids (ofold f acc l).
Proof.
  revert acc. induction l as [|x l IH]; intros acc Hf; [done|]. cbn [ofold]. apply obind_avoids; [apply Hf; set_solver|].
  intros a _. apply IH. set_solver.
Qed.

Section validated.
Context `{DecimalOps D, Wire, SortSlice}.

Record validField (field : AggregationField D) : Prop := {
  vf_method : Method field = AGGREGATION_METHOD_MEDIAN ∨ Method field = AGGREGATION_METHOD_MODE;
  vf_quorum : Method field = AGGREGATION_METHOD_MODE → ModeQuorum field = MODE_QUORUM_ANY ∨ ModeQuorum field = MODE_QUORUM_OCR;
  vf_deviation : DeviationType field = DEVIATION_TYPE_NONE ∨ DeviationType field = DEVIATION_TYPE_ANY ∨
                 DeviationType field = DEVIATION_TYPE_PERCENT ∨ DeviationType field = DEVIATION_TYPE_ABSOLUTE
}.

Lemma guard_Ok c u : guard c = Ok u → c = false.
Proof. by destruct c. Qed.

Lemma isOneOf_true s l : isOneOf s l = true ↔ s ∈ l.
Proof.
  rewrite /isOneOf existsb_exists list_elem_of_In. split; [by intros (x & Hx & ->%String.eqb_eq)|].
  intros Hs. exists s. by rewrite String.eqb_refl.
Qed.

Lemma parseField_valid format keys field field' :
  parseField format keys field = Ok field' →
  validField field' ∧ (OutputKey field' ∉ keys) ∧ (format = REPORT_FORMAT_MAP → OutputKey field' ≠ "").
Proof.
  rewrite /parseField. set (f1 := if String.eqb (DeviationType field) "" then _ else _).
  intros (? & Hempty%guard_Ok & Hr)%obind_Ok_inv. apply obind_Ok_inv in Hr as (? & Hd%guard_Ok & Hr). apply obind_Ok_inv in Hr as (? & _ & Hr).
  apply obind_Ok_inv in Hr as (f2 & Hf2 & Hr).
  assert (OutputKey f1 = OutputKey field) as Hkey1 by (clear; subst f1; by destruct (String.eqb (DeviationType field) _)).
  assert (DeviationType f2 = DeviationType f1 ∧ OutputKey f2 = OutputKey f1) as [Hdt Hkey2].
  { clearbody f1. destruct (negb (String.eqb (DeviationType f1) _) && _); [|by injection Hf2 as <-].
    by destruct (NewFromString (DeviationString f1)); [injection Hf2 as <-|]. }
  apply obind_Ok_inv in Hr as (? & Hm%guard_Ok & Hr). set (f3 := if String.eqb (Method f2) _ && _ then _ else _) in *.
  assert (DeviationType f3 = DeviationType f2 ∧ Method f3 = Method f2 ∧ OutputKey f3 = OutputKey f2) as (Hdt3 & Hm3 & Hkey3) by (clear; subst f3; by destruct (String.eqb (Method f2) _ && _)).
  apply obind_Ok_inv in Hr as (? & Hq%guard_Ok & Hr). apply obind_Ok_inv in Hr as (? & _ & Hr).
  apply obind_Ok_inv in Hr as (? & Hk%guard_Ok & [= <-]). apply bool_decide_eq_false in Hk. split; [|split; [done|]].
  2: { intros ->. rewrite orb_true_r in Hempty. cbn [andb] in Hempty. rewrite Hkey3 Hkey2 Hkey1. by apply String.eqb_neq. }
  apply negb_false_iff, isOneOf_true in Hd. apply orb_false_iff in Hm as [_ Hm]. apply negb_false_iff, isOneOf_true in Hm. split.
  - rewrite Hm3. set_solver.
  - intros Hmode. rewrite Hmode String.eqb_refl in Hq. cbn [andb] in Hq. apply negb_false_iff, isOneOf_true in Hq. set_solver.
  - rewrite Hdt3 Hdt. set_solver.
Qed.

Lemma parseFields_valid format keys fields fields' :
  parseFields format keys fields = Ok fields' →
  length fields' = length fields ∧ Forall validField fields' ∧ NoDup (OutputKey <$> fields') ∧
  (format = REPORT_FORMAT_MAP → Forall (λ field, OutputKey field ≠ "") fields') ∧
  ∀ field, field ∈ fields' → OutputKey field ∉ keys.
Proof.
  revert keys fields'. induction fields as [|field fields IH]; intros keys fields'; cbn [parseFields].
  { intros [= <-]. split; [done|]. split; [constructor|]. split; [constructor|]. split; [constructor|]. set_solver. }
  intros (f1 & (Hv & Hk & Hem)%parseField_valid & (fs & (Hl & Hf & Hnd & Hems & Hkeys)%IH & [= <-])%obind_Ok_inv)%obind_Ok_inv.
  split; [simpl; congruence|]. split; [by constructor|]. split; [|split; [by constructor; auto|]].
  - cbn. constructor; [|done]. intros (field' & Heq & Hin)%list_elem_of_fmap. apply Hkeys in Hin. set_solver.
  - intros field' [->|Hin]%elem_of_cons; [done|]. apply Hkeys in Hin. set_solver.
Qed.

(** What validation establishes. *)
Lemma ParseConfig_valid c config :
  ParseConfigReduceAggregator c = Ok config →
  Fields config ≠ [] ∧ Forall validField (Fields config) ∧ NoDup (OutputKey <$> Fields config) ∧
  (ReportFormat config = REPORT_FORMAT_MAP → Forall (λ field, OutputKey field ≠ "") (Fields config)) ∧
  (ReportFormat config = REPORT_FORMAT_ARRAY ∨ ReportFormat config = REPORT_FORMAT_MAP ∨ ReportFormat config = REPORT_FORMAT_VALUE).
Proof.
  intros (c0 & _ & Hr)%obind_Ok_inv. apply obind_Ok_inv in Hr as (? & Hl%guard_Ok & Hr). apply obind_Ok_inv in Hr as (? & _ & Hr).
  apply obind_Ok_inv in Hr as (fields & (Hlen & Hv & Hnd & Hem & _)%parseFields_valid & Hr).
  apply obind_Ok_inv in Hr as (? & _ & Hr). apply obind_Ok_inv in Hr as (? & _ & Hr).
  apply obind_Ok_inv in Hr as (? & Hf%guard_Ok & [= <-]). cbn [Fields ReportFormat].
  apply bool_decide_eq_false in Hl. apply negb_false_iff, isOneOf_true in Hf.
  split; [intros ->; simpl in *; congruence|]. split; [done|]. split; [done|]. split; [done|]. set_solver.
Qed.

Lemma ok_or_avoids {A} (o : option A) : avoids (ok_or ErrMarshal o).
Proof. by destruct o. Qed.

Lemma toDecimal_avoids v : avoids (toDecimal v).
Proof.
  rewrite /toDecimal. destruct v as [v|]; [|done]. destruct (Unwrap v) as [| | | |k| | | | | | | | | |]; try done.
  - by destruct (NewFromString s).
  - by destruct k.
  - by destruct (NewFromFloat bits).
Qed.

Lemma go_index_avoids {A} (l : list A) i : avoids (go_index l i).
Proof. rewrite /go_index. by destruct (l !! i). Qed.

Lemma reduce_avoids O field vals f : validField field → avoids (reduce O (Method field) vals f (ModeQuorum field)).
Proof.
  intros [[->| ->] Hq _]; unfold reduce; cbn.
  - rewrite /median. case_decide; [done|]. apply obind_avoids; [|intros; apply go_index_avoids].
    rewrite /sortAsDecimal. case_decide; [done|]. by destruct (existsb panics vals), (existsb fails vals).
  - apply obind_avoids.
    + rewrite /mode. case_decide; [done|]. apply obind_avoids.
      * apply ofold_avoids. intros acc v _. rewrite /countStep. by destruct (shaOf v).
      * intros a _. apply obind_avoids; [apply go_index_avoids|done].
    + intros [v n] _. apply obind_avoids; [|done]. rewrite /modeHasQuorum.
      destruct (Hq eq_refl) as [->| ->]; cbn; [done|]. by case_decide.
Qed.

Lemma shouldReport_avoids field v st : validField field → avoids (shouldReport field v st).
Proof.
  intros [_ _ Hd]. rewrite /shouldReport. destruct (String.eqb_spec (DeviationType field) DEVIATION_TYPE_NONE) as [|Hn]; [done|].
  destruct (default None (st !! OutputKey field)) as [old|]; [|done].
  destruct (String.eqb_spec (DeviationType field) DEVIATION_TYPE_ANY) as [|Ha].
  - destruct v as [v|]; [|done]. destruct (Unwrap old); try done; [by destruct (Unwrap v)|..];
      (apply obind_avoids; [apply ok_or_avoids|]; intros; apply obind_avoids; [apply ok_or_avoids|done]).
  - apply obind_avoids; [|done]. rewrite /deviation. apply obind_avoids; [apply toDecimal_avoids|]. intros p _.
    apply obind_avoids; [apply toDecimal_avoids|]. intros q _. destruct Hd as [?|[?|[->| ->]]]; try done.
    cbn. by repeat case_match.
Qed.

Lemma fieldStep_report obs f st w st' : fieldStep obs f st w = Ok st' → report st' ≠ ∅.
Proof.
  destruct w as [O field]. rewrite /fieldStep. intros (vals & _ & Hr)%obind_Ok_inv. case_decide; [done|].
  apply obind_Ok_inv in Hr as (v & _ & Hr). apply obind_Ok_inv in Hr as (b & _ & [= <-]). apply insert_non_empty.
Qed.

Lemma fieldsLoop_report obs f st ws st' : ws ≠ [] → ofold (fieldStep obs f) st ws = Ok st' → report st' ≠ ∅.
Proof.
  intros Hne. revert st. induction ws as [|w ws IH]; intros st; [done|]. cbn [ofold]. intros (st1 & H1' & H2')%obind_Ok_inv.
  destruct ws; [|by eapply IH]. cbn in H2'. simplify_eq. by eapply fieldStep_report.
Qed.

(** After validation no aggregation fails on an unsupported method, quorum,
    deviation type or report format: what the code calls invariants of the
    configuration. *)
Theorem validated_config_supported c config Os Or prev obs f :
  ParseConfigReduceAggregator c = Ok config →
  Aggregate config Os Or prev obs f ∉
    [Err ErrMethod; Err ErrModeQuorumType; Err ErrDeviationMethod; Err ErrFormat].
Proof.
  intros (Hne & Hv & _ & _ & Hformat)%ParseConfig_valid. rewrite Forall_forall in Hv.
  assert (avoids (Aggregate config Os Or prev obs f)) as Ha; [|set_unfold; intuition; by repeat match goal with Hx : _ = Err _ |- _ => rewrite Hx in Ha end].
  unfold Aggregate. destruct (decide (size obs < 2 * f + 1)); [done|]. apply obind_avoids.
  { rewrite /initializeCurrentState. destruct prev as [p|]; [|done]. by destruct (unmarshalMap (Metadata p)). }
  intros st0 _. apply obind_avoids.
  { apply ofold_avoids. intros st [O field] Hin. apply elem_of_lookup_imap in Hin as (i & fld & [= -> ->] & Hi).
    apply list_elem_of_lookup_2, Hv in Hi. rewrite /fieldStep. apply obind_avoids.
    - apply ofold_avoids. intros acc node _. apply obind_avoids; [|done].
      destruct (extractValue (InputKey fld) node.2) eqn:E; try done. by apply extractValue_not_Err in E.
    - intros vals _. case_decide; [done|]. apply obind_avoids; [by apply reduce_avoids|]. intros v _.
      apply obind_avoids; [by apply shouldReport_avoids|done]. }
  intros st Hst. apply obind_avoids; [apply ok_or_avoids|]. intros bs _. apply obind_avoids.
  { rewrite /formatReport. destruct Hformat as [->|[->| ->]]; cbn; [done|done|].
    assert (nestSubMap config (report st) ≠ ∅) as Hrep.
    { apply fieldsLoop_report in Hst; [|by destruct (Fields config)]. rewrite /nestSubMap. destruct (String.eqb (SubMapKey config) ""); [done|].
      destruct (foldl _ _ _). apply insert_non_empty. }
    destruct (range_map Or (nestSubMap config (report st))) as [|kv l] eqn:E; [|done]. exfalso. apply Hrep.
    apply map_to_list_empty_iff. apply Permutation_nil. by rewrite -E range_map_perm. }
  intros a _. apply obind_avoids; [by destruct (Wrap a)|done].
Qed.

(** *** Rounds *)

(** What a field comes to in a round that starts in state [st]. *)
Definition fieldResult (O : orders) (obs : observations) (f : nat) (st : gmap string (option Value))
    (field : AggregationField D) (r : option Value * bool) : Prop :=
  ∃ vals, extractValues O obs (InputKey field) = Ok vals ∧ 2 * f + 1 ≤ length vals ∧
    reduce O (Method field) vals f (ModeQuorum field) = Ok r.1 ∧ shouldReport field r.1 st = Ok r.2.

(** The stored value after the round: the new one if it is reported, or if the
    field has no deviation check. *)
Definition storedAfter (st : gmap string (option Value)) (field : AggregationField D) (r : option Value * bool) : option (option Value) :=
  if r.2 || String.eqb (DeviationType field) DEVIATION_TYPE_NONE then Some r.1 else st !! OutputKey field.

Lemma shouldReport_ext field v st st' :
  st !! OutputKey field = st' !! OutputKey field → shouldReport field v st = shouldReport field v st'.
Proof. intros Hst. by rewrite /shouldReport Hst. Qed.

Lemma fieldsLoop_spec obs f st ws st' :
  ofold (fieldStep obs f) st ws = Ok st' →
  NoDup (OutputKey <$> ws.*2) →
  ∃ results,
    Forall2 (λ w r, fieldResult w.1 obs f (currentState st) w.2 r ∧
                    currentState st' !! OutputKey w.2 = storedAfter (currentState st) w.2 r) ws results ∧
    (∀ k, k ∉ OutputKey <$> ws.*2 → currentState st' !! k = currentState st !! k) ∧
    reportNow st' = existsb snd results || reportNow st ∧
    (NoDup (reportKey <$> ws.*2) → Forall2 (λ w r, report st' !! reportKey w.2 = Some (asAny r.1)) ws results) ∧
    (∀ k, k ∉ reportKey <$> ws.*2 → report st' !! k = report st !! k).
Proof.
  revert st. induction ws as [|[O field] ws IH]; intros st; cbn [ofold].
  { intros [= <-] _. exists []. repeat split; constructor. }
  intros (st1 & Hstep & Hloop)%obind_Ok_inv. cbn [fmap list_fmap snd]. intros [Hk Hnd]%NoDup_cons.
  destruct (IH st1 Hloop Hnd) as (results & Hres & Hsame & Hnow & Hrep & Hrsame).
  rewrite /fieldStep in Hstep. apply obind_Ok_inv in Hstep as (vals & Hvals & Hstep). case_decide as Hlen; [done|].
  apply obind_Ok_inv in Hstep as (v & Hv & Hstep). apply obind_Ok_inv in Hstep as (b & Hb & [= <-]). cbn [currentState report reportNow] in *.
  assert (∀ k, k ≠ OutputKey field →
    (if b || String.eqb (DeviationType field) DEVIATION_TYPE_NONE then <[OutputKey field:=v]> (currentState st) else currentState st) !! k
    = currentState st !! k) as Hother by (intros k Hne; destruct (b || _); [by rewrite lookup_insert_ne|done]).
  exists ((v, b) :: results). split; [|split; [|split; [|split]]].
  - constructor.
    + split; [by exists vals; split; [|split; [lia|]]|]. cbn [fst snd]. rewrite (Hsame _ Hk) /storedAfter. cbn [fst snd].
      destruct (b || _); [by rewrite lookup_insert_eq|done].
    + apply Forall2_same_length_lookup_2; [by eapply Forall2_length|]. intros i [O' field'] r Hw Hr.
      destruct (Forall2_lookup_lr _ _ _ _ _ _ Hres Hw Hr) as [(vals' & Hf1 & Hf2 & Hf3 & Hf4) Hst].
      assert (OutputKey field' ≠ OutputKey field) as Hne.
      { intros Heq. apply Hk. rewrite -Heq. apply (list_elem_of_fmap_2 OutputKey), (list_elem_of_fmap_2 snd _ (O', field')).
        by eapply list_elem_of_lookup_2. }
      cbn [fst snd] in *. split.
      * exists vals'. repeat split; try done. rewrite -Hf4. apply shouldReport_ext. symmetry. by apply Hother.
      * rewrite Hst /storedAfter. by rewrite Hother.
  - intros k Hkn. apply not_elem_of_cons in Hkn as [Hk1 Hk2]. rewrite (Hsame _ Hk2). by apply Hother.
  - rewrite Hnow. cbn. by destruct b, (existsb snd results).
  - intros [Hrk Hrnd]%NoDup_cons. constructor; [|by apply Hrep]. cbn [fst snd]. by rewrite (Hrsame _ Hrk) lookup_insert_eq.
  - intros k Hkn. apply not_elem_of_cons in Hkn as [Hk1 Hk2]. by rewrite (Hrsame _ Hk2) lookup_insert_ne.
Qed.

Lemma wrapEntries_elem (m : list (string * any)) m' k v :
  wrapEntries m = Ok m' → (k, asAny v) ∈ m → (k, v) ∈ m'.
Proof.
  revert m'. induction m as [|[k' a] m IH]; intros m'; cbn; [set_solver|].
  intros (w & Hw & (ws & Hws & [= <-])%obind_Ok_inv)%obind_Ok_inv [[= <- <-]|Hin]%elem_of_cons.
  - destruct v as [v|]; cbn in Hw; simplify_eq; set_solver.
  - apply elem_of_cons. right. by eapply IH.
Qed.

(** What a round does, for a validated configuration.  Every field is
    reduced from at least 2f+1 contributions and compared with the state of the
    previous outcome; the round reports when some field deviates, or when no
    field has a deviation check; the new state holds the new value of the
    fields that were reported, and keeps the old value of the others, so that
    small changes accumulate; with report format "map" and no nested map, every
    field's value is in the report under its output key. *)
Theorem Aggregate_round c config Os Or prev obs f out :
  ParseConfigReduceAggregator c = Ok config →
  Aggregate config Os Or prev obs f = Ok out →
  ∃ st0 st results,
    initializeCurrentState prev = Ok st0 ∧
    marshalMap (map_to_list (Proto <$> st)) = Some (Metadata out) ∧
    length results = length (Fields config) ∧
    (∀ i field r, Fields config !! i = Some field → results !! i = Some r →
       fieldResult (Os i) obs f st0 field r ∧ st !! OutputKey field = storedAfter st0 field r) ∧
    (∀ k, k ∉ OutputKey <$> Fields config → st !! k = st0 !! k) ∧
    ShouldReport out = hasNoDeviation config || existsb snd results ∧
    (ReportFormat config = REPORT_FORMAT_MAP → SubMapKey config = "" →
     ∃ m, EncodableOutcome out = [(OutputFieldName config, PMap m)] ∧
       ∀ i field r, Fields config !! i = Some field → results !! i = Some r → (OutputKey field, Proto r.1) ∈ m).
Proof.
  intros (_ & _ & Hnd & Hem & _)%ParseConfig_valid. unfold Aggregate. destruct (decide (size obs < 2 * f + 1)); [done|].
  intros (st0 & Hst0 & Hr)%obind_Ok_inv. apply obind_Ok_inv in Hr as (rd & Hloop & Hr).
  apply obind_Ok_inv in Hr as (bytes & Hbytes & Hr). apply obind_Ok_inv in Hr as (a & Hfmt & Hr).
  apply obind_Ok_inv in Hr as (w & Hw & [= <-]).
  set (ws := imap (λ i field, (Os i, field)) (Fields config)) in *.
  assert (ws.*2 = Fields config) as Hws by (rewrite /ws fmap_imap -{2}(list_fmap_id (Fields config)) -imap_const; by apply imap_ext).
  destruct (fieldsLoop_spec _ _ _ _ _ Hloop) as (results & Hres & Hsame & Hnow & Hrep & _); [by rewrite Hws|].
  rewrite Hws in Hsame Hrep. exists st0, (currentState rd), results. split; [done|]. split; [by apply ok_or_Ok in Hbytes|].
  split; [rewrite -(Forall2_length _ _ _ Hres) /ws length_imap //|].
  assert (∀ i field, Fields config !! i = Some field → ws !! i = Some (Os i, field)) as Hlook
    by (intros i field Hi; by rewrite /ws list_lookup_imap Hi).
  split; [intros i field r Hi%Hlook Hri; exact (Forall2_lookup_lr _ _ _ _ _ _ Hres Hi Hri)|]. split; [done|].
  split; [cbn [ShouldReport]; by rewrite Hnow /= orb_false_r|]. cbn [EncodableOutcome].
  intros Hmap Hsub. rewrite /nestSubMap Hsub Hmap /= in Hfmt. injection Hfmt as <-.
  rewrite Wrap_AMap in Hw. destruct (wrapEntries (map_to_list (report rd))) as [m| |] eqn:Hm; cbn in Hw; [|done..]. injection Hw as <-.
  eexists. split; [done|]. intros i field r Hi Hri. specialize (Hem Hmap). rewrite Forall_lookup in Hem.
  assert (∀ field, field ∈ Fields config → reportKey field = OutputKey field) as Hkeys.
  { intros fld [j Hj]%list_elem_of_lookup. rewrite /reportKey. destruct (String.eqb_spec (OutputKey fld) ""); [|done]. by apply Hem in Hj. }
  assert (reportKey <$> Fields config = OutputKey <$> Fields config) as Hkeys'.
  { apply list_fmap_ext. intros j fld Hj. apply Hkeys. by eapply list_elem_of_lookup_2. }
  rewrite Hkeys' in Hrep. pose proof (Forall2_lookup_lr _ _ _ _ _ _ (Hrep Hnd) (Hlook _ _ Hi) Hri) as Hin. cbn in Hin.
  rewrite Hkeys in Hin; [|by eapply list_elem_of_lookup_2]. apply elem_of_map_to_list in Hin.
  eapply wrapEntries_elem in Hin; [|exact Hm]. apply list_elem_of_fmap. by exists (OutputKey field, r.1).
Qed.
End validated.

(** *** Concrete rounds: four nodes, one of them faulty *)

Definition anyOrders : orders := mkOrders (insertion_order _) (insertion_order _) (insertion_order _).
Definition x61 : option Value := Some (VBytes [Byte.x61]).
Definition x62 : option Value := Some (VBytes [Byte.x62]).

Definition intObs : observations :=
  {[ 0 := [Some (VInt64 10)]; 1 := [Some (VInt64 11)]; 2 := [Some (VInt64 12)]; 3 := [Some (VInt64 1000)] ]}.
Definition byteObs : observations := {[ 0 := [x61]; 1 := [x61]; 2 := [x62]; 3 := [x62] ]}.

Lemma median_between_honest_witness :
  let _ := rationalOps in let _ := insertionSort in let _ := bytesWire in
  reduce anyOrders AGGREGATION_METHOD_MEDIAN [Some (VInt64 10); Some (VInt64 1000); Some (VInt64 11); Some (VInt64 12)] 1 "" = Ok (Some (VInt64 12)) ∧
  ∃ vals r, extractValues anyOrders intObs "" = Ok vals ∧ reduce anyOrders AGGREGATION_METHOD_MEDIAN vals 1 "" = Ok r ∧
  ∃ id1 id2 lo hi, id1 ∈ ({[0; 1; 2]} : gset nat) ∧ id2 ∈ ({[0; 1; 2]} : gset nat) ∧
    contributes intObs "" id1 lo ∧ contributes intObs "" id2 hi ∧
    dle (toDecimal0 lo) (toDecimal0 r) ∧ dle (toDecimal0 r) (toDecimal0 hi).
Proof.
  cbn zeta. split; [by vm_compute|].
  destruct (extractValues anyOrders intObs "") as [vals| |] eqn:E; [|by vm_compute in E..].
  destruct (@reduce Q rationalOps bytesWire insertionSort anyOrders AGGREGATION_METHOD_MEDIAN vals 1 "") as [r| |] eqn:Er;
    [|by vm_compute in E; injection E as <-; vm_compute in Er..].
  exists vals, r. split; [done|]. split; [done|].
  apply (@median_between_honest Q rationalOps rationalLaws bytesWire insertionSort anyOrders intObs "" {[0; 1; 2]} 1 "" vals r E); [|by vm_compute; lia|exact Er].
  vm_compute in E. injection E as <-. simpl. lia.
Defined.

Lemma mode_has_honest_support_witness :
  let _ := rationalOps in let _ := insertionSort in let _ := bytesWire in
  ∃ vals r, extractValues anyOrders byteObs "" = Ok vals ∧ reduce anyOrders AGGREGATION_METHOD_MODE vals 1 MODE_QUORUM_OCR = Ok r ∧
  ∃ id v sha, id ∈ ({[0; 1; 2]} : gset nat) ∧ contributes byteObs "" id v ∧ shaOf v = Some sha ∧ shaOf r = Some sha ∧
    ∀ sha', occurrences sha' vals ≤ occurrences sha vals.
Proof.
  cbn zeta.
  destruct (extractValues anyOrders byteObs "") as [vals| |] eqn:E; [|by vm_compute in E..].
  destruct (@reduce Q rationalOps bytesWire insertionSort anyOrders AGGREGATION_METHOD_MODE vals 1 MODE_QUORUM_OCR) as [r| |] eqn:Er;
    [|by vm_compute in E; injection E as <-; vm_compute in Er..].
  exists vals, r. split; [done|]. split; [done|].
  apply (@mode_has_honest_support Q rationalOps bytesWire insertionSort anyOrders byteObs "" {[0; 1; 2]} 1 vals r E); [by vm_compute; lia|exact Er].
Defined.

(** Two of four nodes observe "a", two observe "b": either is the result. *)
Lemma mode_tie_depends_on_order_witness :
  let _ := rationalOps in let _ := insertionSort in let _ := bytesWire in
  (∃ O r, reduce (mkOrders (obsOrder anyOrders) (maxOrder anyOrders) O) AGGREGATION_METHOD_MODE [x61; x62; x61; x62] 1 MODE_QUORUM_OCR = Ok r ∧
     shaOf r = Some [Byte.x61]) ∧
  (∃ O r, reduce (mkOrders (obsOrder anyOrders) (maxOrder anyOrders) O) AGGREGATION_METHOD_MODE [x61; x62; x61; x62] 1 MODE_QUORUM_OCR = Ok r ∧
     shaOf r = Some [Byte.x62]).
Proof.
  cbn zeta. assert (∀ sha', @occurrences bytesWire sha' [x61; x62; x61; x62] ≤ 2) as Hle.
  { intros sha'. rewrite /occurrences. change (length (filter (λ v, @shaOf bytesWire v = Some sha') ([x61; x62] ++ [x61; x62])) ≤ 2).
    rewrite filter_app length_app. cut (length (filter (λ v, @shaOf bytesWire v = Some sha') [x61; x62]) ≤ 1); [lia|].
    rewrite !filter_cons filter_nil. cbn. repeat case_decide; simplify_eq; simpl; lia. }
  split; apply (@mode_tie_depends_on_order Q rationalOps bytesWire insertionSort);
    [by repeat constructor; eexists|by vm_compute; lia|exact Hle|by repeat constructor; eexists|by vm_compute; lia|exact Hle].
Defined.

Definition sampleField : AggregationField Q := mkField (inject_Z 0) "" "" "" "mode" "" "out" false.
Definition rawConfig : ReduceAggConfig Q := mkConfig [sampleField] "" "" "".
Definition sampleConfig : ReduceAggConfig Q :=
  mkConfig [mkField (inject_Z 0) "" "none" "" "mode" "ocr" "out" false] "Reports" "map" "".
Definition bytesOut : AggregationOutcome :=
  mkOutcome [("Reports", PMap [("out", PBytes [Byte.x61])])] [Byte.x61] true 0 None "" None.

Definition roundObs : observations := {[ 0 := [x61]; 1 := [x61]; 2 := [x61]; 3 := [x62] ]}.

(** A faulty node sends an empty list to a field that indexes lists. *)
Definition listObs : observations :=
  {[ 0 := [Some (VList [x61])]; 1 := [Some (VList [x61])]; 2 := [Some (VList [x61])]; 3 := [Some (VList [])] ]}.
Definition indexConfig : ReduceAggConfig Q := mkConfig [mkField (inject_Z 0) "" "none" "0" "mode" "ocr" "out" false] "Reports" "map" "".

Lemma short_list_panics_witness :
  let _ := rationalOps in let _ := insertionSort in let _ := bytesWire in
  Aggregate indexConfig (λ _, anyOrders) (insertion_order _) None listObs 1 = Panic ∧
  is_ok (Aggregate indexConfig (λ _, anyOrders) (insertion_order _) None (delete 3 listObs) 1) = true.
Proof.
  cbn zeta. split; [|by vm_compute].
  apply (@short_list_panics Q rationalOps bytesWire insertionSort indexConfig (λ _, anyOrders) (insertion_order _) None listObs 1 ∅ 3 [] 0%Z
    (mkField (inject_Z 0) "" "none" "0" "mode" "ocr" "out" false) []); [done|by vm_compute; lia|done|done|by vm_compute|by right].
Defined.

Lemma any_deviation_exact_witness :
  let _ := rationalOps in let _ := bytesWire in
  let field : AggregationField Q := mkField (inject_Z 0) "" "any" "" "mode" "ocr" "out" false in
  let state : gmap string (option Value) := {[ "out" := Some (VBigInt 5) ]} in
  shouldReport field (Some (VBigInt 5)) state = Ok true ∧ true = true.
Proof.
  cbn zeta. split; [by vm_compute|].
  apply (@any_deviation_exact Q rationalOps bytesWire (mkField (inject_Z 0) "" "any" "" "mode" "ocr" "out" false)
    {[ "out" := Some (VBigInt 5) ]} (VBigInt 5) (VBigInt 5) true); [done|by vm_compute|by vm_compute].
Defined.

Lemma validated_config_supported_witness :
  let _ := rationalOps in let _ := insertionSort in let _ := bytesWire in
  ParseConfigReduceAggregator (Some rawConfig) = Ok sampleConfig ∧
  Aggregate sampleConfig (λ _, anyOrders) (insertion_order _) None byteObs 1 ∉
    [Err ErrMethod; Err ErrModeQuorumType; Err ErrDeviationMethod; Err ErrFormat].
Proof.
  cbn zeta. assert (@ParseConfigReduceAggregator Q rationalOps (Some rawConfig) = Ok sampleConfig) as Hp by by vm_compute.
  split; [exact Hp|]. exact (@validated_config_supported Q rationalOps bytesWire insertionSort _ _ _ _ _ _ _ Hp).
Defined.

Lemma Aggregate_round_witness :
  let _ := rationalOps in let _ := insertionSort in let _ := bytesWire in
  Aggregate sampleConfig (λ _, anyOrders) (insertion_order _) None roundObs 1 = Ok bytesOut ∧
  ∃ m, EncodableOutcome bytesOut = [("Reports", PMap m)] ∧ ∃ r : option Value * bool, ("out", Proto r.1) ∈ m.
Proof.
  cbn zeta. assert (@ParseConfigReduceAggregator Q rationalOps (Some rawConfig) = Ok sampleConfig) as Hp by by vm_compute.
  assert (@Aggregate Q rationalOps bytesWire insertionSort sampleConfig (λ _, anyOrders) (insertion_order _) None roundObs 1 = Ok bytesOut) as Ha
    by by vm_compute.
  split; [exact Ha|].
  destruct (@Aggregate_round Q rationalOps bytesWire insertionSort _ _ _ _ _ _ _ _ Hp Ha) as (st0 & st & results & _ & _ & Hl & _ & _ & _ & Hm).
  destruct (Hm eq_refl eq_refl) as (m & Hm1 & Hm2). exists m. split; [exact Hm1|].
  destruct results as [|r results]; [done|]. exists r. by apply (Hm2 0 _ r eq_refl).
Defined.
End ReduceAggregator.
