(* ===== verification/ReportingPlugin.v ===== *)
(** [src/pkg/capabilities/consensus/ocr3/reporting_plugin.go] and
    [types/aggregator.go]: the OCR3 reporting plugin, from the query to the
    reports.

    The wire format, the registered workflows and the encoders are interfaces
    ([PluginWire], [CapabilityIface]).  Outcomes are shared between the map of
    outcomes and the current reports, so [Outcome] works on a heap of them. *)

From stdpp Require Import pretty.
From S2P Require Import Prelude GoBytes GoStrings Values RequestStore Consensus.

Module ReportingPlugin.
Import Values Consensus.

Record Id := mkId {
  WorkflowExecutionId : string;
  WorkflowId : string;
  WorkflowOwner : string;
  WorkflowName : string;
  WorkflowDonId : Z;
  WorkflowDonConfigVersion : Z;
  ReportId : string;
  KeyId : string
}.

Definition pbMap : Type := list (string * pbValue).

(** [types.Observation]: one request as a node observed it. *)
Record Observation := mkObservation {
  ObservationsList : option (list pbValue);
  ObservationId : option Id;
  OverriddenEncoderName : string;
  OverriddenEncoderConfig : option pbMap
}.

(** [types.Observations] *)
Record Observations := mkObservations {
  ObservationRequests : list (option Observation);
  RegisteredWorkflowIds : list string;
  ObservationsTimestamp : option (Z * Z)
}.

(** [types.Report] and [types.Outcome], as marshalled. *)
Record Report := mkReport { ReportOutcome : option AggregationOutcome; ReportOf : option Id }.
Record OutcomeMsg := mkOutcomeMsg { MsgOutcomes : gmap string AggregationOutcome; MsgCurrentReports : list (option Report) }.

(** [types.ReportInfo] *)
Record ReportInfo := mkReportInfo { InfoId : Id; InfoShouldReport : bool }.

(** [types.Metadata] *)
Record Metadata := mkMetadata {
  Version : Z;
  ExecutionID : string;
  MetaTimestamp : Z;
  DONID : Z;
  DONConfigVersion : Z;
  MetaWorkflowID : string;
  MetaWorkflowName : string;
  MetaWorkflowOwner : string;
  ReportID : string
}.

Inductive perror := ErrBatch | ErrUnmarshal | ErrMarshalOutcome | ErrCancelled.

Class PluginWire := {
  unmarshalQuery : list byte → option (list (option Id));
  marshalQuery : list (option Id) → option (list byte);
  unmarshalObservations : list byte → option Observations;
  marshalObservations : Observations → option (list byte);
  unmarshalOutcome : list byte → option OutcomeMsg;
  marshalOutcome : OutcomeMsg → option (list byte);
  marshalInfo : ReportInfo → option (list byte);
  (** The structpb message of a key bundle and a report info; it is refused
      when the key is not valid UTF-8. *)
  marshalInfoStruct : string → list byte → option (list byte)
}.

Definition Aggregator : Type := option AggregationOutcome → observations → nat → outcome error AggregationOutcome.
Definition Encoder : Type := pbMap → option (list byte).

(** What the plugin asks of the capability, during one call. *)
Class CapabilityIface := {
  GetAggregator : string → option Aggregator;
  GetEncoderByWorkflowID : string → option Encoder;
  GetEncoderByName : string → option pbMap → option Encoder;
  GetRegisteredWorkflowsIDs : list string
}.

(** *** Time *)

Definition unixToInternal : Z := 62135596800.

(** [Timestamp.AsTime]: the internal seconds and the nanoseconds of the time;
    a nil timestamp is the Unix epoch. *)
Definition AsTime (t : option (Z * Z)) : Z * Z :=
  let '(sec, nsec) := default (0, 0)%Z t in
  (wrapS 64 (sec + nsec / 10 ^ 9 + unixToInternal), nsec mod 10 ^ 9)%Z.

Definition Before (t u : Z * Z) : bool := (t.1 <? u.1)%Z || ((t.1 =? u.1)%Z && (t.2 <? u.2)%Z).

Definition Unix (t : Z * Z) : Z := wrapS 64 (t.1 - unixToInternal).

(** *** Query and observation *)

Definition idOf {V} (rq : RequestStore.Request V) : Id :=
  mkId (RequestStore.WorkflowExecutionID rq) (RequestStore.WorkflowID rq) (RequestStore.WorkflowOwner rq)
       (RequestStore.WorkflowName rq) (RequestStore.WorkflowDonID rq) (RequestStore.WorkflowDonConfigVersion rq)
       (RequestStore.ReportID rq) (RequestStore.KeyID rq).

Section plugin.
Context `{Wire, SortSlice, PluginWire, CapabilityIface}.
(** [config.F] and [outcomePruningThreshold]. *)
Context (F : nat) (outcomePruningThreshold : Z).

Definition Query (s : RequestStore.Store (option Value)) (batchSize : Z) : outcome perror (list byte) :=
  let? batch := map_err (λ _, ErrBatch) (RequestStore.FirstN s batchSize) in
  ok_or ErrMarshalOutcome (marshalQuery ((λ rq, Some (idOf rq)) <$> batch)).

(** One request of the query, as the node observes it; [None] when it is
    skipped, because the node does not have it. *)
Definition observe (reqMap : gmap string (RequestStore.Request (option Value))) (weid : string)
    : outcome perror (option Observation) :=
  match reqMap !! weid with
  | None => Ok None
  | Some rq =>
      match RequestStore.Observations rq with
      | None => Panic                              (* [proto] of a nil list *)
      | Some v =>
          match proto v with
          | PList listProto =>
              let cfgProto := match RequestStore.OverriddenEncoderConfig rq with
                              | Some c => match proto c with PMap m => Some m | _ => None end
                              | None => None
                              end in
              Ok (Some (mkObservation (Some listProto) (Some (idOf rq)) (RequestStore.OverriddenEncoderName rq) cfgProto))
          | _ => Ok None
          end
      end
  end.

Definition byExecution (reqs : list (RequestStore.Request (option Value))) : gmap string (RequestStore.Request (option Value)) :=
  foldl (λ m rq, <[RequestStore.WorkflowExecutionID rq := rq]> m) ∅ reqs.

Definition Observation_ (s : RequestStore.Store (option Value)) (now : Z * Z) (query : list byte) : outcome perror (list byte) :=
  let? ids := ok_or ErrUnmarshal (unmarshalQuery query) in
  let weids := omap (λ q, WorkflowExecutionId <$> q) ids in
  let reqMap := byExecution (RequestStore.GetByIDs s weids) in
  let? obs := omapM (observe reqMap) weids in
  ok_or ErrMarshalOutcome
    (marshalObservations (mkObservations (Some <$> omap id obs) GetRegisteredWorkflowsIDs (Some now))).

(** *** Outcome: collecting the observations *)

Definition shaForOverriddenEncoder (obs : Observation) : option (list byte) :=
  marshalled ← match OverriddenEncoderConfig obs with Some c => marshalMap c | None => Some [] end;
  Some (sha256 (bytes_of_string (OverriddenEncoderName obs) ++ marshalled)).

Record encoderConfig := mkEncoderConfig { name : string; config : option pbMap }.

Record collected := mkCollected {
  execIDToOracleObservations : gmap string observations;
  seenWorkflowIDs : gmap string nat;
  timestamps : list (option (Z * Z));
  execIDToEncoderShaToCount : gmap string (gmap (list byte) nat);
  shaToEncoder : gmap (list byte) encoderConfig
}.

Definition emptyCollected : collected := mkCollected ∅ ∅ [] ∅ ∅.

(** Counting a node's registered workflows, each once. *)
Definition seenStep (acc : gmap string nat * gset string) (id : string) : gmap string nat * gset string :=
  let '(seen, counted) := acc in
  if decide (id ∈ counted) then acc else (<[id := S (default 0 (seen !! id))]> seen, {[id]} ∪ counted).

Definition countSeen (seen : gmap string nat) (ids : list string) : gmap string nat :=
  (foldl seenStep (seen, ∅) ids).1.

(** One request of the observation of [observer]. *)
Definition requestStep (observer : nat) (c : collected) (request : option Observation) : collected :=
  match request with
  | None => c
  | Some request =>
      match ObservationId request, ObservationsList request with
      | Some id, Some obsList =>
          let weid := WorkflowExecutionId id in
          let execObs := <[weid := <[observer := FromProto <$> obsList]> (default ∅ (execIDToOracleObservations c !! weid))]>
                           (execIDToOracleObservations c) in
          match shaForOverriddenEncoder request with
          | None => mkCollected execObs (seenWorkflowIDs c) (timestamps c) (execIDToEncoderShaToCount c) (shaToEncoder c)
          | Some sha =>
              let counts := default ∅ (execIDToEncoderShaToCount c !! weid) in
              mkCollected execObs (seenWorkflowIDs c) (timestamps c)
                (<[weid := <[sha := S (default 0 (counts !! sha))]> counts]> (execIDToEncoderShaToCount c))
                (<[sha := mkEncoderConfig (OverriddenEncoderName request) (OverriddenEncoderConfig request)]> (shaToEncoder c))
          end
      | _, _ => c
      end
  end.

(** One attributed observation: the oracle and the bytes it sent. *)
Definition collectStep (c : collected) (ao : nat * list byte) : collected :=
  match unmarshalObservations ao.2 with
  | None => c
  | Some obs =>
      foldl (requestStep ao.1)
        (mkCollected (execIDToOracleObservations c) (countSeen (seenWorkflowIDs c) (RegisteredWorkflowIds obs))
           (timestamps c ++ [ObservationsTimestamp obs]) (execIDToEncoderShaToCount c) (shaToEncoder c))
        (ObservationRequests obs)
  end.

Definition collect (aos : list (nat * list byte)) : collected := foldl collectStep emptyCollected aos.

(** *** Outcome: the timestamp *)

Definition finalTimestamp (ts : list (option (Z * Z))) : outcome perror (option (Z * Z)) :=
  let sorted := sortSlice (λ a b, Before (AsTime a) (AsTime b)) ts in
  let mid := length sorted / 2 in
  if decide (length sorted mod 2 = 1) then go_index sorted mid
  else if decide (mid = 0) then Panic                        (* index -1 *)
  else
    let? ta := go_index sorted (mid - 1) in
    let? tb := go_index sorted mid in
    let a := Unix (AsTime ta) in
    let b := Unix (AsTime tb) in
    Ok (Some (wrapS 64 (a + wrapS 64 (b - a) ÷ 2), 0))%Z.

(** *** Outcome: aggregating *)

Definition setLastSeenAt (n : Z) (o : AggregationOutcome) : AggregationOutcome :=
  mkOutcome (EncodableOutcome o) (Consensus.Metadata o) (ShouldReport o) n (Timestamp o) (EncoderName o) (EncoderConfig o).
Definition setTimestamp (t : option (Z * Z)) (o : AggregationOutcome) : AggregationOutcome :=
  mkOutcome (EncodableOutcome o) (Consensus.Metadata o) (ShouldReport o) (LastSeenAt o) t (EncoderName o) (EncoderConfig o).
Definition setEncoder (c : encoderConfig) (o : AggregationOutcome) : AggregationOutcome :=
  mkOutcome (EncodableOutcome o) (Consensus.Metadata o) (ShouldReport o) (LastSeenAt o) (Timestamp o) (name c) (config c).

(** The outcomes, by location; the map and the reports hold locations. *)
Record state := mkState {
  heap : list AggregationOutcome;
  Outcomes : gmap string nat;
  CurrentReports : list (nat * Id)
}.

(** The first encoder in the order given that 2F+1 observations agree on. *)
Definition pickEncoder (O : RangeOrder (list byte * nat)) (shaToCount : gmap (list byte) nat)
    (encoders : gmap (list byte) encoderConfig) : option encoderConfig :=
  head (omap (λ sc : list byte * nat, if decide (2 * F + 1 ≤ sc.2) then encoders !! sc.1 else None)
             (range_map O shaToCount)).

(** One id of the query. *)
Definition queryStep (c : collected) (ts : option (Z * Z)) (st : state) (work : RangeOrder (list byte * nat) * option Id)
    : outcome perror state :=
  match work.2 with
  | None => Ok st
  | Some weid =>
      match execIDToOracleObservations c !! WorkflowExecutionId weid with
      | None => Ok st
      | Some obs =>
          let workflowOutcome := (loc ← Outcomes st !! WorkflowId weid; heap st !! loc) in
          if decide (size obs < 2 * F + 1) then Ok st
          else
            match GetAggregator (WorkflowId weid) with
            | None => Ok st
            | Some agg =>
                match agg workflowOutcome obs F with
                | Panic => Panic
                | Err _ => Ok st
                | Ok outcome =>
                    let outcome := match workflowOutcome with
                                   | Some w => setLastSeenAt (LastSeenAt w) outcome
                                   | None => outcome
                                   end in
                    let outcome := setTimestamp ts outcome in
                    match execIDToEncoderShaToCount c !! WorkflowExecutionId weid with
                    | None => Ok st
                    | Some shaToCount =>
                        let outcome := match pickEncoder work.1 shaToCount (shaToEncoder c) with
                                       | Some encCfg => setEncoder encCfg outcome
                                       | None => outcome
                                       end in
                        let loc := length (heap st) in
                        Ok (mkState (heap st ++ [outcome]) (<[WorkflowId weid := loc]> (Outcomes st))
                                    (CurrentReports st ++ [(loc, weid)]))
                    end
                end
            end
      end
  end.

(** *** Outcome: pruning *)

(** One workflow of the loop, with the workflows unregistered so far. *)
Definition pruneStep (seen : gmap string nat) (SeqNr : Z) (acc : state * list string) (entry : string * nat)
    : state * list string :=
  let '(st, unregistered) := acc in
  let '(workflowID, loc) := entry in
  if decide (F + 1 ≤ default 0 (seen !! workflowID)) then
    (mkState (alter (setLastSeenAt SeqNr) loc (heap st)) (Outcomes st) (CurrentReports st), unregistered)
  else
    match heap st !! loc with
    | None => acc
    | Some o =>
        if decide (outcomePruningThreshold < wrapU 64 (SeqNr - LastSeenAt o))%Z then
          (mkState (heap st) (delete workflowID (Outcomes st)) (CurrentReports st), unregistered ++ [workflowID])
        else acc
    end.

(** *** Outcome *)

(** The state of the previous outcome, without its reports. *)
Definition loadOutcome (o : OutcomeMsg) : state :=
  let entries := map_to_list (MsgOutcomes o) in
  mkState entries.*2 (list_to_map (imap (λ i e, (e.1, i)) entries)) [].

Definition saveOutcome (st : state) : OutcomeMsg :=
  mkOutcomeMsg (omap (λ loc : nat, heap st !! loc) (Outcomes st))
               ((λ r : nat * Id, Some (mkReport (heap st !! r.1) (Some r.2))) <$> CurrentReports st).

(** The state before it is marshalled, and the workflows that are unregistered. *)
Definition outcomeState (Oe : nat → RangeOrder (list byte * nat)) (Op : RangeOrder (string * nat)) (SeqNr : Z)
    (PreviousOutcome query : list byte) (aos : list (nat * list byte)) : outcome perror (state * list string) :=
  let c := collect aos in
  let? ts := finalTimestamp (timestamps c) in
  let? q := ok_or ErrUnmarshal (unmarshalQuery query) in
  let? previousOutcome := ok_or ErrUnmarshal (unmarshalOutcome PreviousOutcome) in
  let? st := ofold (queryStep c ts) (loadOutcome previousOutcome) (imap (λ i id, (Oe i, id)) q) in
  Ok (foldl (pruneStep (seenWorkflowIDs c) SeqNr) (st, []) (range_map Op (Outcomes st))).

Definition Outcome (Oe : nat → RangeOrder (list byte * nat)) (Op : RangeOrder (string * nat)) (SeqNr : Z)
    (PreviousOutcome query : list byte) (aos : list (nat * list byte)) : outcome perror (list byte * list string) :=
  let? (st, unregistered) := outcomeState Oe Op SeqNr PreviousOutcome query aos in
  let? raw := ok_or ErrMarshalOutcome (marshalOutcome (saveOutcome st)) in
  Ok (raw, unregistered).

(** *** Reports *)

Definition padWorkflowName (m : Metadata) : Metadata :=
  if decide (String.length (MetaWorkflowName m) < 20)
  then mkMetadata (Version m) (ExecutionID m) (MetaTimestamp m) (DONID m) (DONConfigVersion m) (MetaWorkflowID m)
         (MetaWorkflowName m ++ Repeat "0" (20 - String.length (MetaWorkflowName m)))%string
         (MetaWorkflowOwner m) (ReportID m)
  else m.

(** The metadata as the struct that [values.Wrap] is given. *)
Definition metadataAny (m : Metadata) : any :=
  APtr (Some (AStruct
    [("Version", "", true, AInt KUint32 (Version m)); ("ExecutionID", "", true, AString (ExecutionID m));
     ("Timestamp", "", true, AInt KUint32 (MetaTimestamp m)); ("DONID", "", true, AInt KUint32 (DONID m));
     ("DONConfigVersion", "", true, AInt KUint32 (DONConfigVersion m)); ("WorkflowID", "", true, AString (MetaWorkflowID m));
     ("WorkflowName", "", true, AString (MetaWorkflowName m)); ("WorkflowOwner", "", true, AString (MetaWorkflowOwner m));
     ("ReportID", "", true, AString (ReportID m))])).

Definition MetadataFieldName : string := "INTERNAL_METADATA".

(** An outcome without fields has a nil map after unmarshalling: the assignment
    panics. *)
Definition AppendMetadata (o : AggregationOutcome) (meta : Metadata) : outcome perror AggregationOutcome :=
  let? metaWrapped := map_err (λ _, ErrMarshalOutcome) (Wrap (metadataAny (padWorkflowName meta))) in
  if decide (length (EncodableOutcome o) = 0) then Panic
  else Ok (mkOutcome (mapSet (EncodableOutcome o) MetadataFieldName (Proto metaWrapped)) (Consensus.Metadata o) (ShouldReport o)
                     (LastSeenAt o) (Timestamp o) (EncoderName o) (EncoderConfig o)).

Definition marshalReportInfo (info : ReportInfo) (keyID : string) : option (list byte) :=
  p ← marshalInfo info; marshalInfoStruct keyID p.

Definition metadataOf (o : AggregationOutcome) (id : Id) : Metadata :=
  mkMetadata 1 (WorkflowExecutionId id) (wrapU 32 (Unix (AsTime (Timestamp o)))) (WorkflowDonId id)
    (WorkflowDonConfigVersion id) (WorkflowId id) (WorkflowName id) (WorkflowOwner id) (ReportId id).

(** The encoder of a report: the overriding one if it can be had, or the
    workflow's. *)
Definition selectEncoder (o : AggregationOutcome) (id : Id) : option Encoder :=
  match (if String.eqb (EncoderName o) "" then None else GetEncoderByName (EncoderName o) (EncoderConfig o)) with
  | Some e => Some e
  | None => GetEncoderByWorkflowID (WorkflowId id)
  end.

(** One current report: the report and its info; [None] when it is skipped. *)
Definition reportStep (cancelled : bool) (report : option Report) : outcome perror (option (list byte * list byte)) :=
  match report with
  | Some (mkReport (Some outcome) (Some id)) =>
      let info := mkReportInfo id (ShouldReport outcome) in
      let? rawReport :=
        if ShouldReport outcome then
          match AppendMetadata outcome (metadataOf outcome id) with
          | Panic => Panic
          | Err _ => Ok None
          | Ok newOutcome =>
              match selectEncoder newOutcome id with
              | None => Ok None
              | Some encoder =>
                  match encoder (EncodableOutcome newOutcome) with
                  | Some raw => Ok (Some raw)
                  | None => if cancelled then Err ErrCancelled else Ok None
                  end
              end
          end
        else Ok (Some []) in
      match rawReport with
      | None => Ok None
      | Some raw => Ok (match marshalReportInfo info (KeyId id) with
                        | Some infob => Some (raw, infob)
                        | None => None
                        end)
      end
  | _ => Ok None
  end.

Definition Reports (cancelled : bool) (outcome : list byte) : Prelude.outcome perror (list (list byte * list byte)) :=
  let? o := ok_or ErrUnmarshal (unmarshalOutcome outcome) in
  let? reports := omapM (reportStep cancelled) (MsgCurrentReports o) in
  Ok (omap id reports).

(** ** Facts *)

(** *** What is collected *)

(** The timestamps of the observations that can be unmarshalled. *)
Definition timestampsOf (aos : list (nat * list byte)) : list (option (Z * Z)) :=
  omap (λ ao : nat * list byte, ObservationsTimestamp <$> unmarshalObservations ao.2) aos.

Lemma requestLoop_same observer c rqs :
  timestamps (foldl (requestStep observer) c rqs) = timestamps c ∧
  seenWorkflowIDs (foldl (requestStep observer) c rqs) = seenWorkflowIDs c.
Proof.
  revert c. induction rqs as [|rq rqs IH]; intros c; [done|]. cbn [foldl]. destruct (IH (requestStep observer c rq)) as [-> ->].
  destruct rq as [rq|]; [|done]. cbn. destruct (ObservationId rq), (ObservationsList rq); try done.
  by destruct (shaForOverriddenEncoder rq).
Qed.

Lemma timestamps_collectLoop c aos : timestamps (foldl collectStep c aos) = timestamps c ++ timestampsOf aos.
Proof.
  revert c. induction aos as [|ao aos IH]; intros c; [by rewrite app_nil_r|]. cbn [foldl]. rewrite IH. cbn.
  rewrite {1}/collectStep. destruct (unmarshalObservations ao.2) as [obs|]; [|done]. cbn.
  destruct (requestLoop_same ao.1 (mkCollected (execIDToOracleObservations c) (countSeen (seenWorkflowIDs c) (RegisteredWorkflowIds obs))
    (timestamps c ++ [ObservationsTimestamp obs]) (execIDToEncoderShaToCount c) (shaToEncoder c)) (ObservationRequests obs)) as [-> _].
  cbn. by rewrite -assoc.
Qed.

Lemma timestamps_collect aos : timestamps (collect aos) = timestampsOf aos.
Proof. apply timestamps_collectLoop. Qed.

(** Does the node's observation list the workflow as registered? *)
Definition registers (wf : string) (ao : nat * list byte) : Prop :=
  match unmarshalObservations ao.2 with Some obs => wf ∈ RegisteredWorkflowIds obs | None => False end.

#[export] Instance registers_dec wf ao : Decision (registers wf ao).
Proof. rewrite /registers. destruct (unmarshalObservations ao.2); apply _. Defined.

Definition registrations (wf : string) (aos : list (nat * list byte)) : nat := length (filter (registers wf) aos).

Lemma seenLoop_count seen counted ids wf :
  default 0 ((foldl seenStep (seen, counted) ids).1 !! wf) =
  default 0 (seen !! wf) + (if decide (wf ∈ ids ∧ wf ∉ counted) then 1 else 0).
Proof.
  revert seen counted. induction ids as [|id ids IH]; intros seen counted; cbn [foldl].
  { destruct (decide _) as [[[]%elem_of_nil _]|_]. cbn. lia. }
  rewrite {2}/seenStep. destruct (decide (id ∈ counted)) as [Hc|Hc]; rewrite IH.
  - f_equal. destruct (decide (wf ∈ ids ∧ wf ∉ counted)), (decide (wf ∈ id :: ids ∧ wf ∉ counted)); set_solver.
  - destruct (decide (id = wf)) as [->|Hne].
    + rewrite lookup_insert_eq. destruct (decide (wf ∈ ids ∧ _)), (decide (wf ∈ wf :: ids ∧ _)); [set_solver..|cbn; lia|set_solver].
    + rewrite lookup_insert_ne //. f_equal. destruct (decide (wf ∈ ids ∧ _)), (decide (wf ∈ id :: ids ∧ _)); set_solver.
Qed.

Lemma seen_collectLoop c aos wf :
  default 0 (seenWorkflowIDs (foldl collectStep c aos) !! wf) = default 0 (seenWorkflowIDs c !! wf) + registrations wf aos.
Proof.
  revert c. induction aos as [|ao aos IH]; intros c; [cbn; lia|]. cbn [foldl]. rewrite IH /registrations filter_cons.
  rewrite {1}/collectStep. destruct (unmarshalObservations ao.2) as [obs|] eqn:Hobs.
  - destruct (requestLoop_same ao.1 (mkCollected (execIDToOracleObservations c) (countSeen (seenWorkflowIDs c) (RegisteredWorkflowIds obs))
      (timestamps c ++ [ObservationsTimestamp obs]) (execIDToEncoderShaToCount c) (shaToEncoder c)) (ObservationRequests obs)) as [_ ->].
    cbn [seenWorkflowIDs]. rewrite /countSeen seenLoop_count. destruct (decide (wf ∈ RegisteredWorkflowIds obs)) as [Hin|Hin].
    + destruct (decide (_ ∧ _)); [|set_solver]. destruct (decide (registers wf ao)) as [|Hn]; [cbn; lia|]. by rewrite /registers Hobs in Hn.
    + destruct (decide (_ ∧ _)); [set_solver|]. destruct (decide (registers wf ao)) as [Hn|]; [|cbn; lia]. by rewrite /registers Hobs in Hn.
  - destruct (decide (registers wf ao)) as [Hn|]; [|done]. by rewrite /registers Hobs in Hn.
Qed.

Lemma seen_collect aos wf : default 0 (seenWorkflowIDs (collect aos) !! wf) = registrations wf aos.
Proof. rewrite /collect seen_collectLoop /emptyCollected. cbn [seenWorkflowIDs]. by rewrite lookup_empty. Qed.

(** Oracle [oracle] sent [v] for execution [weid]. *)
Definition observed (aos : list (nat * list byte)) (weid : string) (oracle : nat) (v : list (option Value)) : Prop :=
  ∃ bytes msg rq id l, (oracle, bytes) ∈ aos ∧ unmarshalObservations bytes = Some msg ∧ Some rq ∈ ObservationRequests msg ∧
    ObservationId rq = Some id ∧ WorkflowExecutionId id = weid ∧ ObservationsList rq = Some l ∧ v = FromProto <$> l.

Lemma requestLoop_observed (P : string → nat → list (option Value) → Prop) observer c rqs :
  (∀ weid obs o v, execIDToOracleObservations c !! weid = Some obs → obs !! o = Some v → P weid o v) →
  (∀ rq id l, Some rq ∈ rqs → ObservationId rq = Some id → ObservationsList rq = Some l →
     P (WorkflowExecutionId id) observer (FromProto <$> l)) →
  ∀ weid obs o v, execIDToOracleObservations (foldl (requestStep observer) c rqs) !! weid = Some obs → obs !! o = Some v → P weid o v.
Proof.
  revert c. induction rqs as [|rq rqs IH]; intros c Hc Hrqs; [done|]. cbn [foldl]. apply IH; [|set_solver].
  intros weid obs o v. destruct rq as [rq|]; [|by apply Hc]. cbn.
  destruct (ObservationId rq) as [id|] eqn:Hid; [|by apply Hc]. destruct (ObservationsList rq) as [l|] eqn:Hl; [|by apply Hc].
  assert (∀ obs, <[WorkflowExecutionId id := <[observer := FromProto <$> l]> (default ∅ (execIDToOracleObservations c !! WorkflowExecutionId id))]>
    (execIDToOracleObservations c) !! weid = Some obs → obs !! o = Some v → P weid o v) as Hins.
  { intros obs' Hobs Ho. destruct (decide (weid = WorkflowExecutionId id)) as [->|Hne].
    - rewrite lookup_insert_eq in Hobs. injection Hobs as <-. destruct (decide (o = observer)) as [->|Hno].
      + rewrite lookup_insert_eq in Ho. injection Ho as <-. eapply Hrqs; [|done..]. set_solver.
      + rewrite lookup_insert_ne // in Ho. destruct (execIDToOracleObservations c !! WorkflowExecutionId id) as [obs0|] eqn:E; [|done].
        by eapply Hc.
    - rewrite lookup_insert_ne // in Hobs. by eapply Hc. }
  destruct (shaForOverriddenEncoder rq); apply Hins.
Qed.

Lemma collectLoop_observed (P : string → nat → list (option Value) → Prop) c aos :
  (∀ weid obs o v, execIDToOracleObservations c !! weid = Some obs → obs !! o = Some v → P weid o v) →
  (∀ weid o v, observed aos weid o v → P weid o v) →
  ∀ weid obs o v, execIDToOracleObservations (foldl collectStep c aos) !! weid = Some obs → obs !! o = Some v → P weid o v.
Proof.
  revert c. induction aos as [|[o0 bytes] aos IH]; intros c Hc Hobs; [done|]. cbn [foldl]. apply IH.
  - rewrite /collectStep. cbn [fst snd]. destruct (unmarshalObservations bytes) as [msg|] eqn:Hm; [|done]. apply requestLoop_observed; [done|].
    intros rq id l Hin Hid Hl. apply Hobs. exists bytes, msg, rq, id, l. repeat split; try done. by left.
  - intros weid o v (b & msg & rq & id & l & Hin & Hrest). apply Hobs. exists b, msg, rq, id, l. split; [by right|done].
Qed.

Lemma collect_observed aos weid obs o v :
  execIDToOracleObservations (collect aos) !! weid = Some obs → obs !! o = Some v → observed aos weid o v.
Proof. by apply (collectLoop_observed (observed aos)). Qed.

(** *** The state *)

(** The outcome of a workflow. *)
Definition view (st : state) (wf : string) : option AggregationOutcome := loc ← Outcomes st !! wf; heap st !! loc.

(** Locations are allocated, and no two workflows share one. *)
Record wfState (st : state) : Prop := {
  ws_alloc wf loc : Outcomes st !! wf = Some loc → loc < length (heap st);
  ws_inj wf wf' loc : Outcomes st !! wf = Some loc → Outcomes st !! wf' = Some loc → wf = wf'
}.

Definition push (st : state) (id : Id) (o : AggregationOutcome) : state :=
  mkState (heap st ++ [o]) (<[WorkflowId id := length (heap st)]> (Outcomes st)) (CurrentReports st ++ [(length (heap st), id)]).

Lemma lookup_save st wf : MsgOutcomes (saveOutcome st) !! wf = view st wf.
Proof. by rewrite /saveOutcome /view lookup_omap. Qed.

Lemma load_Outcomes o wf loc :
  Outcomes (loadOutcome o) !! wf = Some loc ↔ ∃ out, map_to_list (MsgOutcomes o) !! loc = Some (wf, out).
Proof.
  cbn. rewrite -elem_of_list_to_map.
  - rewrite elem_of_lookup_imap. split; [intros (i & [wf' out] & [= -> ->] & Hi); by exists out|intros [out Hi]; by exists loc, (wf, out)].
  - assert (∀ l : list (string * AggregationOutcome), (imap (λ i e, (e.1, i)) l).*1 = l.*1) as ->; [|apply NoDup_fst_map_to_list].
    intros l. rewrite fmap_imap -imap_const. by apply imap_ext.
Qed.

Lemma load_view o wf : view (loadOutcome o) wf = MsgOutcomes o !! wf.
Proof.
  rewrite /view. destruct (MsgOutcomes o !! wf) as [out|] eqn:E.
  - apply elem_of_map_to_list, list_elem_of_lookup in E as [loc Hloc]. rewrite (proj2 (load_Outcomes o wf loc)); [|by exists out].
    cbn. by rewrite list_lookup_fmap Hloc.
  - destruct (Outcomes (loadOutcome o) !! wf) as [loc|] eqn:Hl; [|done]. apply load_Outcomes in Hl as [out Hloc].
    apply list_elem_of_lookup_2, elem_of_map_to_list in Hloc. congruence.
Qed.

Lemma load_wf o : wfState (loadOutcome o).
Proof.
  split.
  - intros wf loc [out Hl]%load_Outcomes. cbn. rewrite length_fmap. by eapply lookup_lt_Some.
  - intros wf wf' loc [out Hl]%load_Outcomes [out' Hl']%load_Outcomes. congruence.
Qed.

Lemma push_wf st id o : wfState st → wfState (push st id o).
Proof.
  intros [Ha Hi]. split; cbn.
  - intros wf loc [[<- <-]|[_ Hl]]%lookup_insert_Some; rewrite length_app /=; [lia|]. apply Ha in Hl. lia.
  - intros wf wf' loc [[<- <-]|[Hn Hl]]%lookup_insert_Some [[<- Heq]|[Hn' Hl']]%lookup_insert_Some; [done|..|by eapply Hi].
    + apply Ha in Hl'. lia.
    + apply Ha in Hl. lia.
Qed.

Lemma push_view st id o wf : wfState st → view (push st id o) wf = if decide (wf = WorkflowId id) then Some o else view st wf.
Proof.
  intros [Ha _]. rewrite /view. cbn. case_decide as Hd; [subst wf; rewrite lookup_insert_eq; cbn; by rewrite list_lookup_middle|].
  rewrite lookup_insert_ne //. destruct (Outcomes st !! wf) as [loc|] eqn:E; [|done]. cbn. apply Ha in E. by rewrite lookup_app_l.
Qed.

(** *** The loop over the query *)

(** [o] is the outcome that the aggregator computed, from the observations of
    at least 2F+1 oracles, but for what the plugin adds to it. *)
Definition aggregated (c : collected) (ts : option (Z * Z)) (id : Id) (o : AggregationOutcome) : Prop :=
  ∃ obs agg w o0, execIDToOracleObservations c !! WorkflowExecutionId id = Some obs ∧ 2 * F + 1 ≤ size obs ∧
    GetAggregator (WorkflowId id) = Some agg ∧ agg w obs F = Ok o0 ∧
    EncodableOutcome o = EncodableOutcome o0 ∧ Consensus.Metadata o = Consensus.Metadata o0 ∧
    ShouldReport o = ShouldReport o0 ∧ Timestamp o = ts.

Lemma queryStep_cases c ts st O wid st' :
  queryStep c ts st (O, wid) = Ok st' →
  st' = st ∨ ∃ id o, wid = Some id ∧ aggregated c ts id o ∧ st' = push st id o.
Proof.
  rewrite /queryStep. cbn [fst snd]. destruct wid as [id|]; [|intros [= ->]; by left].
  destruct (execIDToOracleObservations c !! WorkflowExecutionId id) as [obs|] eqn:Hobs; [|intros [= ->]; by left].
  set (w := loc ← Outcomes st !! WorkflowId id; heap st !! loc).
  destruct (decide (size obs < 2 * F + 1)) as [|Hn]; [intros [= ->]; by left|].
  destruct (GetAggregator (WorkflowId id)) as [agg|] eqn:Hagg; [|intros [= ->]; by left].
  destruct (agg w obs F) as [o0| |] eqn:Ho; [|intros [= ->]; by left|done].
  destruct (execIDToEncoderShaToCount c !! WorkflowExecutionId id) as [counts|]; [|intros [= ->]; by left].
  intros [= <-]. right. exists id. eexists. split; [done|]. split; [|done]. exists obs, agg, w, o0. apply Nat.nlt_ge in Hn.
  repeat (split; [done|]). by destruct w, (pickEncoder O counts (shaToEncoder c)).
Qed.

(** What holds before the loop and is preserved by adding an aggregated
    outcome for an id of the query holds after it. *)
Lemma queryLoop_ind (P : state → Prop) c ts works st st' :
  P st →
  (∀ st id o, P st → Some id ∈ works.*2 → aggregated c ts id o → P (push st id o)) →
  ofold (queryStep c ts) st works = Ok st' → P st'.
Proof.
  revert st. induction works as [|[O wid] works IH]; intros st Hst Hstep; cbn [ofold]; [by intros [= <-]|].
  intros (st1 & H1' & H2')%obind_Ok_inv. eapply IH; [|intros st2 id o Hp Hin; apply Hstep; [done|cbn; set_solver]|exact H2'].
  destruct (queryStep_cases _ _ _ _ _ _ H1') as [->|(id & o & -> & Ha & ->)]; [done|]. apply Hstep; [done|cbn; set_solver|done].
Qed.

(** *** Pruning *)

Definition prunedOutcome (seen : gmap string nat) (SeqNr : Z) (wf : string) (o : AggregationOutcome) : option AggregationOutcome :=
  if decide (F + 1 ≤ default 0 (seen !! wf)) then Some (setLastSeenAt SeqNr o)
  else if decide (outcomePruningThreshold < wrapU 64 (SeqNr - LastSeenAt o))%Z then None else Some o.

Lemma view_Some st wf loc : wfState st → Outcomes st !! wf = Some loc → ∃ o, heap st !! loc = Some o ∧ view st wf = Some o.
Proof.
  intros [Ha _] Hl. destruct (lookup_lt_is_Some_2 _ _ (Ha _ _ Hl)) as [o Ho]. exists o. split; [done|]. by rewrite /view Hl.
Qed.

Lemma pruneStep_spec seen SeqNr st unreg wf loc st' unreg' :
  wfState st → Outcomes st !! wf = Some loc →
  pruneStep seen SeqNr (st, unreg) (wf, loc) = (st', unreg') →
  wfState st' ∧ CurrentReports st' = CurrentReports st ∧
  (∀ wf', wf' ≠ wf → Outcomes st' !! wf' = Outcomes st !! wf' ∧ view st' wf' = view st wf') ∧
  view st' wf = view st wf ≫= prunedOutcome seen SeqNr wf ∧
  unreg' = unreg ++ (match view st' wf with None => [wf] | Some _ => [] end) ∧
  (∀ l, setLastSeenAt 0 <$> heap st' !! l = setLastSeenAt 0 <$> heap st !! l).
Proof.
  intros Hwf Hloc. destruct (view_Some _ _ _ Hwf Hloc) as (o & Ho & Hview). destruct Hwf as [Ha Hi]. rewrite Hview /pruneStep /prunedOutcome. cbn [mbind option_bind].
  destruct (decide (F + 1 ≤ default 0 (seen !! wf))) as [Hs|Hs].
  - intros [= <- <-]. cbn. split; [split; cbn; [intros; rewrite length_alter; by eapply Ha|done]|]. split; [done|].
    split; [|split; [|split]].
    + intros wf' Hne. split; [done|]. rewrite /view. cbn. destruct (Outcomes st !! wf') as [loc'|] eqn:E; [|done]. cbn.
      apply list_lookup_alter_ne. intros ->. by eapply Hne, Hi.
    + by rewrite /view /= Hloc /= list_lookup_alter_eq Ho.
    + rewrite /view /= Hloc /= list_lookup_alter_eq Ho. by rewrite app_nil_r.
    + intros l. destruct (decide (l = loc)) as [->|Hne]; [by rewrite list_lookup_alter_eq Ho|by rewrite list_lookup_alter_ne].
  - rewrite Ho. destruct (decide (outcomePruningThreshold < wrapU 64 (SeqNr - LastSeenAt o))%Z) as [Ht|Ht]; intros [= <- <-].
    + split; [split; cbn; [intros wf' l [_ Hl]%lookup_delete_Some; by eapply Ha|intros wf' wf'' l [_ Hl]%lookup_delete_Some [_ Hl']%lookup_delete_Some; by eapply Hi]|].
      split; [done|]. split; [intros wf' Hne; rewrite /view /= lookup_delete_ne //|].
      rewrite /view /= lookup_delete_eq. done.
    + split; [done|]. split; [done|]. split; [done|]. split; [done|]. split; [by rewrite Hview app_nil_r|done].
Qed.

Lemma pruneLoop_spec seen SeqNr entries st unreg st' unreg' :
  wfState st → NoDup entries.*1 →
  (∀ wf loc, (wf, loc) ∈ entries → Outcomes st !! wf = Some loc) →
  foldl (pruneStep seen SeqNr) (st, unreg) entries = (st', unreg') →
  CurrentReports st' = CurrentReports st ∧
  (∀ wf, view st' wf = if decide (wf ∈ entries.*1) then view st wf ≫= prunedOutcome seen SeqNr wf else view st wf) ∧
  (∀ wf, wf ∈ unreg' ↔ wf ∈ unreg ∨ (wf ∈ entries.*1 ∧ view st' wf = None)) ∧
  (∀ l, setLastSeenAt 0 <$> heap st' !! l = setLastSeenAt 0 <$> heap st !! l).
Proof.
  revert st unreg. induction entries as [|[wf loc] entries IH]; intros st unreg Hwf Hnd Hin; cbn [foldl].
  { intros [= <- <-]. split; [done|]. split; [|split; [set_solver|done]]. intros wf. by destruct (decide _) as [[]%elem_of_nil|]. }
  cbn in Hnd. apply NoDup_cons in Hnd as [Hnot Hnd]. destruct (pruneStep seen SeqNr (st, unreg) (wf, loc)) as [st1 unreg1] eqn:E.
  destruct (pruneStep_spec _ _ _ _ _ _ _ _ Hwf (Hin wf loc ltac:(set_solver)) E) as (Hwf1 & Hr1 & Hother & Hv1 & -> & Hh1).
  intros Hloop. assert (∀ wf' loc', (wf', loc') ∈ entries → Outcomes st1 !! wf' = Some loc') as Hin1.
  { intros wf' loc' Hin'. assert (wf' ≠ wf) as Hne by (intros ->; apply Hnot; apply list_elem_of_fmap; by exists (wf, loc')).
    rewrite (proj1 (Hother wf' Hne)). apply Hin. set_solver. }
  destruct (IH st1 _ Hwf1 Hnd Hin1 Hloop) as (Hr & Hv & Hu & Hh). split; [congruence|]. split; [|split].
  - intros wf'. rewrite Hv. cbn. destruct (decide (wf' = wf)) as [->|Hne].
    + destruct (decide (wf ∈ entries.*1)); [done|]. destruct (decide (wf ∈ wf :: entries.*1)); [done|set_solver].
    + rewrite (proj2 (Hother wf' Hne)). destruct (decide (wf' ∈ entries.*1)), (decide (wf' ∈ wf :: entries.*1)); set_solver.
  - intros wf'. rewrite Hu. cbn. rewrite elem_of_app elem_of_cons. specialize (Hv wf). destruct (decide (wf ∈ entries.*1)); [done|]. rewrite -Hv.
    destruct (view st' wf) eqn:Ev; [rewrite elem_of_nil|rewrite list_elem_of_singleton];
      (destruct (decide (wf' = wf)) as [->|]; [rewrite Ev|]); naive_solver.
  - intros l. by rewrite Hh Hh1.
Qed.

(** *** The outcome of a round *)

Section round.
Context (Oe : nat → RangeOrder (list byte * nat)) (Op : RangeOrder (string * nat)) (SeqNr : Z).
Context (PreviousOutcome query : list byte) (aos : list (nat * list byte)).

Lemma outcomeState_inv st' unregistered :
  outcomeState Oe Op SeqNr PreviousOutcome query aos = Ok (st', unregistered) →
  ∃ ts q po st, finalTimestamp (timestampsOf aos) = Ok ts ∧ unmarshalQuery query = Some q ∧
    unmarshalOutcome PreviousOutcome = Some po ∧
    ofold (queryStep (collect aos) ts) (loadOutcome po) (imap (λ i id, (Oe i, id)) q) = Ok st ∧
    wfState st ∧ CurrentReports st' = CurrentReports st ∧
    (∀ wf, view st' wf = view st wf ≫= prunedOutcome (seenWorkflowIDs (collect aos)) SeqNr wf) ∧
    (∀ wf, wf ∈ unregistered ↔ is_Some (view st wf) ∧ view st' wf = None) ∧
    (∀ l, setLastSeenAt 0 <$> heap st' !! l = setLastSeenAt 0 <$> heap st !! l).
Proof.
  unfold outcomeState. rewrite timestamps_collect. intros (ts & Hts & Hr)%obind_Ok_inv. apply obind_Ok_inv in Hr as (q & Hq & Hr).
  apply obind_Ok_inv in Hr as (po & Hpo & Hr). apply obind_Ok_inv in Hr as (st & Hst & Hr). injection Hr as Hr.
  exists ts, q, po, st. split; [done|]. split; [by destruct (unmarshalQuery query); simplify_eq/=|].
  split; [by destruct (unmarshalOutcome PreviousOutcome); simplify_eq/=|]. split; [done|].
  assert (wfState st) as Hwf by (eapply (queryLoop_ind wfState); [apply load_wf|intros; by apply push_wf|exact Hst]).
  assert (∀ wf loc, (wf, loc) ∈ range_map Op (Outcomes st) → Outcomes st !! wf = Some loc) as Hagree
    by (intros wf loc Hin; by apply elem_of_range_map in Hin).
  destruct (pruneLoop_spec _ _ _ _ _ _ _ Hwf (NoDup_fst_range_map Op (Outcomes st)) Hagree Hr) as (Hrep & Hv & Hu & Hh).
  assert (∀ wf, wf ∈ (range_map Op (Outcomes st)).*1 ↔ is_Some (view st wf)) as Hkeys.
  { intros wf. rewrite list_elem_of_fmap. split.
    - intros ([wf' loc] & -> & Hin). apply elem_of_range_map in Hin. destruct (view_Some _ _ _ Hwf Hin) as (o & _ & Ho). by exists o.
    - intros [o Ho]. rewrite /view in Ho. destruct (Outcomes st !! wf) as [loc|] eqn:E; [|done]. exists (wf, loc).
      split; [done|]. by apply elem_of_range_map. }
  split; [done|]. split; [done|]. split; [|split; [|done]].
  - intros wf. rewrite Hv. destruct (decide (wf ∈ (range_map Op (Outcomes st)).*1)) as [|Hn]; [done|].
    destruct (view st wf) eqn:E; [|done]. destruct Hn. apply Hkeys. by eexists.
  - intros wf. rewrite Hu Hkeys. split; [intros [Hin|]; [by apply elem_of_nil in Hin|done]|by right].
Qed.

(** C2: a round reports only what a quorum observed: every report of the outcome
    answers an id of the query, from the observations that at least 2F+1
    distinct oracles sent for that execution, as the workflow's aggregator
    computed it, with the round's timestamp. *)
Theorem reports_have_quorum st' unregistered r :
  outcomeState Oe Op SeqNr PreviousOutcome query aos = Ok (st', unregistered) →
  r ∈ MsgCurrentReports (saveOutcome st') →
  ∃ id o q ts obs agg w o0,
    r = Some (mkReport (Some o) (Some id)) ∧
    unmarshalQuery query = Some q ∧ Some id ∈ q ∧
    2 * F + 1 ≤ size obs ∧
    (∀ oracle v, obs !! oracle = Some v → observed aos (WorkflowExecutionId id) oracle v) ∧
    GetAggregator (WorkflowId id) = Some agg ∧ agg w obs F = Ok o0 ∧
    EncodableOutcome o = EncodableOutcome o0 ∧ Consensus.Metadata o = Consensus.Metadata o0 ∧
    ShouldReport o = ShouldReport o0 ∧
    finalTimestamp (timestampsOf aos) = Ok ts ∧ Timestamp o = ts.
Proof.
  intros (ts & q & po & st & Hts & Hq & Hpo & Hloop & _ & Hrep & _ & _ & Hheap)%outcomeState_inv Hr.
  apply list_elem_of_fmap in Hr as ([loc id] & -> & Hin). rewrite Hrep in Hin. cbn [fst snd].
  set (P := λ st, wfState st ∧ ∀ loc id, (loc, id) ∈ CurrentReports st →
    Some id ∈ q ∧ ∃ o, heap st !! loc = Some o ∧ aggregated (collect aos) ts id o).
  assert (P st) as [_ Hst].
  { eapply (queryLoop_ind P); [split; [apply load_wf|by intros ? ? ?%elem_of_nil]| |exact Hloop].
    intros st2 id2 o2 [Hwf2 Hr2] Hin2 Ha2. split; [by apply push_wf|]. cbn. intros loc3 id3 [Hin3|Hin3]%elem_of_app.
    - destruct (Hr2 _ _ Hin3) as (Hq3 & o3 & Ho3 & Ha3). split; [done|]. exists o3. split; [|done]. by apply lookup_app_l_Some.
    - apply list_elem_of_singleton in Hin3 as [= -> ->]. split.
      + rewrite fmap_imap in Hin2. apply elem_of_lookup_imap in Hin2 as (i & wid & Heq & Hi). cbn in Heq. subst wid.
        by eapply list_elem_of_lookup_2.
      + exists o2. split; [by rewrite list_lookup_middle|done]. }
  destruct (Hst _ _ Hin) as (Hinq & o & Ho & obs & agg & w & o0 & Hobs & Hsize & Hagg & Ho0 & He & Hm & Hs & Ht).
  specialize (Hheap loc). rewrite Ho in Hheap. destruct (heap st' !! loc) as [o'|] eqn:Ho'; [|done].
  injection Hheap as He' Hm' Hs' Ht' _ _. exists id, o', q, ts, obs, agg, w, o0. split; [done|]. split; [done|]. split; [done|].
  split; [done|]. split; [intros oracle v; by apply collect_observed|]. split; [done|]. split; [done|].
  split; [congruence|]. split; [congruence|]. split; [congruence|]. split; [done|congruence].
Qed.

(** Pruning, for the workflows that the round does not aggregate: an outcome
    is kept and marked as seen in this round exactly when at least F+1 nodes
    have the workflow registered; otherwise it is kept unchanged until it has
    not been seen for more than the threshold of rounds, and is then removed.
    The workflows that are unregistered are the removed ones. *)
Theorem pruning_exact st' unregistered q po wf :
  outcomeState Oe Op SeqNr PreviousOutcome query aos = Ok (st', unregistered) →
  unmarshalQuery query = Some q →
  unmarshalOutcome PreviousOutcome = Some po →
  (∀ id, Some id ∈ q → WorkflowId id ≠ wf) →
  MsgOutcomes (saveOutcome st') !! wf =
    match MsgOutcomes po !! wf with
    | None => None
    | Some o =>
        if decide (F + 1 ≤ registrations wf aos) then Some (setLastSeenAt SeqNr o)
        else if decide (outcomePruningThreshold < wrapU 64 (SeqNr - LastSeenAt o))%Z then None
        else Some o
    end ∧
  (wf ∈ unregistered ↔ is_Some (MsgOutcomes po !! wf) ∧ MsgOutcomes (saveOutcome st') !! wf = None).
Proof.
  intros (ts & q' & po' & st & Hts & Hq & Hpo & Hloop & _ & _ & Hview & Hu & _)%outcomeState_inv Hq' Hpo' Hnot.
  assert (q' = q) as -> by congruence. assert (po' = po) as -> by congruence.
  assert (wfState st ∧ view st wf = MsgOutcomes po !! wf) as [_ Hst].
  { eapply (queryLoop_ind (λ st, wfState st ∧ view st wf = MsgOutcomes po !! wf)); [split; [apply load_wf|apply load_view]| |exact Hloop].
    intros st2 id2 o2 [Hwf2 Hv2] Hin2 _. split; [by apply push_wf|]. rewrite push_view // decide_False //. apply not_eq_sym, Hnot.
    rewrite fmap_imap in Hin2. apply elem_of_lookup_imap in Hin2 as (i & wid & Heq & Hi). cbn in Heq. subst wid.
    by eapply list_elem_of_lookup_2. }
  rewrite lookup_save Hview Hu Hview Hst. split; [|done]. destruct (MsgOutcomes po !! wf) as [o|]; [|done].
  cbn. by rewrite /prunedOutcome seen_collect.
Qed.
End round.

(** *** The timestamp *)

(** Within some 70 billion years of 1970. *)
Definition inEra (t : option (Z * Z)) : Prop := (- 2 ^ 61 ≤ (AsTime t).1 - unixToInternal ≤ 2 ^ 61)%Z.

Definition notAfter (x y : option (Z * Z)) : Prop := Before (AsTime y) (AsTime x) = false.

Lemma notAfter_le x y : notAfter x y → ((AsTime x).1 ≤ (AsTime y).1)%Z.
Proof.
  rewrite /notAfter /Before. destruct (AsTime x) as [a b], (AsTime y) as [c d]. cbn.
  rewrite orb_false_iff andb_false_iff !Z.ltb_ge. lia.
Qed.

Lemma timestamps_sorted (ts : list (option (Z * Z))) :
  StronglySorted notAfter (sortSlice (λ a b, Before (AsTime a) (AsTime b)) ts).
Proof.
  apply sortSlice_sorted.
  - intros x y. rewrite /Before orb_true_iff orb_false_iff andb_true_iff andb_false_iff !Z.ltb_lt !Z.ltb_ge Z.eqb_eq Z.eqb_neq. lia.
  - intros x y z. rewrite /Before !orb_false_iff !andb_false_iff !Z.ltb_ge !Z.eqb_neq. lia.
Qed.

Lemma Unix_inEra t : inEra t → Unix (AsTime t) = ((AsTime t).1 - unixToInternal)%Z.
Proof. intros Ht. rewrite /Unix. apply wrapS_small; [done|]. rewrite /inS. rewrite /inEra in Ht. lia. Qed.

Lemma AsTime_seconds s : (- 2 ^ 61 ≤ s ≤ 2 ^ 61)%Z → (AsTime (Some (s, 0%Z))).1 = (s + unixToInternal)%Z ∧ inEra (Some (s, 0%Z)).
Proof.
  intros Hs. assert ((AsTime (Some (s, 0%Z))).1 = s + unixToInternal)%Z as Heq.
  { cbn. rewrite Z.add_0_r. apply wrapS_small; [done|]. rewrite /inS /unixToInternal. lia. }
  split; [done|]. rewrite /inEra Heq. lia.
Qed.

(** The timestamp of a round is Byzantine-fault tolerant: when more honest
    than faulty observations arrive, [Outcome] does not panic on it, and it lies
    between the timestamps of two honest oracles. *)
Theorem timestamp_between_honest aos (honest : gset nat) :
  length (timestampsOf (filter (λ ao, ao.1 ∉ honest) aos)) < length (timestampsOf (filter (λ ao, ao.1 ∈ honest) aos)) →
  Forall inEra (timestampsOf (filter (λ ao, ao.1 ∈ honest) aos)) →
  ∃ t lo hi, finalTimestamp (timestamps (collect aos)) = Ok t ∧
    lo ∈ timestampsOf (filter (λ ao, ao.1 ∈ honest) aos) ∧ hi ∈ timestampsOf (filter (λ ao, ao.1 ∈ honest) aos) ∧
    (Unix (AsTime lo) ≤ Unix (AsTime t) ≤ Unix (AsTime hi))%Z.
Proof.
  rewrite timestamps_collect. set (fau := timestampsOf (filter (λ ao, ao.1 ∉ honest) aos)).
  set (hon := timestampsOf (filter (λ ao, ao.1 ∈ honest) aos)). intros Hlt Hera.
  assert (timestampsOf aos ≡ₚ hon ++ fau) as Hp.
  { rewrite /hon /fau /timestampsOf -omap_app. by rewrite filter_split. }
  unfold finalTimestamp. pose proof (timestamps_sorted (timestampsOf aos)) as Hs.
  pose proof (sortSlice_perm (λ a b, Before (AsTime a) (AsTime b)) (timestampsOf aos)) as Hperm.
  set (l := sortSlice _ _) in *. rewrite -Hperm in Hp. clearbody l. clear Hperm.
  pose proof (Permutation_length Hp) as Hlen. rewrite length_app in Hlen. rewrite Forall_forall in Hera.
  pose proof (Nat.div_mod_eq (length l) 2) as Hd. pose proof (Nat.mod_upper_bound (length l) 2) as Hm.
  set (mid := length l / 2) in *. destruct (decide (length l mod 2 = 1)) as [Hodd|Heven].
  - destruct (lookup_lt_is_Some_2 l mid) as [t Ht]; [lia|].
    destruct (sorted_bounds notAfter l hon fau mid t Hs Hp Ht) as (lo & hi & Hlo & Hhi & Hb1 & Hb2); [lia..|].
    exists t, lo, hi. split; [by apply go_index_Ok|]. split; [done|]. split; [done|].
    assert ((AsTime lo).1 ≤ (AsTime t).1)%Z by (destruct Hb1 as [->|?]; [done|by apply notAfter_le]).
    assert ((AsTime t).1 ≤ (AsTime hi).1)%Z by (destruct Hb2 as [->|?]; [done|by apply notAfter_le]).
    assert (inEra lo ∧ inEra hi) as [Hel Heh] by auto.
    assert (inEra t) as Het by (rewrite /inEra in Hel, Heh |- *; lia). rewrite !Unix_inEra //. lia.
  - destruct (decide (mid = 0)) as [|Hmid]; [lia|].
    destruct (lookup_lt_is_Some_2 l (mid - 1)) as [ta Hta]; [lia|]. destruct (lookup_lt_is_Some_2 l mid) as [tb Htb]; [lia|].
    destruct (sorted_bounds notAfter l hon fau (mid - 1) ta Hs Hp Hta) as (lo & _ & Hlo & _ & Hb1 & _); [lia..|].
    destruct (sorted_bounds notAfter l hon fau mid tb Hs Hp Htb) as (_ & hi & _ & Hhi & _ & Hb2); [lia..|].
    assert ((AsTime lo).1 ≤ (AsTime ta).1)%Z by (destruct Hb1 as [->|?]; [done|by apply notAfter_le]).
    assert ((AsTime tb).1 ≤ (AsTime hi).1)%Z by (destruct Hb2 as [->|?]; [done|by apply notAfter_le]).
    assert ((AsTime ta).1 ≤ (AsTime tb).1)%Z by (apply notAfter_le, (StronglySorted_lookup _ l (mid - 1) mid); [done..|lia]).
    assert (inEra lo ∧ inEra hi) as [Hel Heh] by auto.
    assert (inEra ta ∧ inEra tb) as [Hea Heb] by (rewrite /inEra in Hel, Heh |- *; lia).
    rewrite /go_index Hta Htb. cbn [obind]. rewrite (Unix_inEra ta Hea) (Unix_inEra tb Heb).
    set (a := ((AsTime ta).1 - unixToInternal)%Z) in *. set (b := ((AsTime tb).1 - unixToInternal)%Z) in *.
    assert (- 2 ^ 61 ≤ a ∧ a ≤ b ∧ b ≤ 2 ^ 61)%Z as (Ha & Hab & Hb) by (rewrite /inEra in Hea, Heb; lia).
    rewrite (wrapS_small 64 (b - a)); [|done|rewrite /inS; lia].
    assert (0 ≤ (b - a) ÷ 2 ≤ b - a)%Z as Hq.
    { rewrite Z.quot_div_nonneg; [|lia..]. pose proof (Z.div_pos (b - a) 2). pose proof (Z.div_le_upper_bound (b - a) 2 (b - a)). lia. }
    rewrite (wrapS_small 64); [|done|rewrite /inS; lia].
    destruct (AsTime_seconds (a + (b - a) ÷ 2)) as [Heq Her]; [lia|].
    eexists. exists lo, hi. split; [done|]. split; [done|]. split; [done|]. rewrite (Unix_inEra _ Her) Heq !Unix_inEra //. lia.
Qed.

(** *** The overriding encoder *)

(** Does the request count for an execution and the hash of an encoder? *)
Definition countsFor (weid : string) (sha : list byte) (request : option Observation) : Prop :=
  match request with
  | Some rq => match ObservationId rq, ObservationsList rq with
               | Some id, Some _ => WorkflowExecutionId id = weid ∧ shaForOverriddenEncoder rq = Some sha
               | _, _ => False
               end
  | None => False
  end.

#[export] Instance countsFor_dec weid sha rq : Decision (countsFor weid sha rq).
Proof.
  rewrite /countsFor. destruct rq as [rq|]; [|apply _]. destruct (ObservationId rq); [|apply _]. destruct (ObservationsList rq); apply _.
Defined.

Definition encoderCount (c : collected) (weid : string) (sha : list byte) : nat :=
  default 0 (default ∅ (execIDToEncoderShaToCount c !! weid) !! sha).

(** Every counted hash is the hash of the encoder stored for it. *)
Definition encodersOk (c : collected) : Prop :=
  (∀ sha enc, shaToEncoder c !! sha = Some enc → shaForOverriddenEncoder (mkObservation None None (name enc) (config enc)) = Some sha) ∧
  (∀ weid sha, 0 < encoderCount c weid sha → is_Some (shaToEncoder c !! sha)).

Lemma requestStep_encoders observer c rq weid sha :
  encodersOk c →
  encodersOk (requestStep observer c rq) ∧
  encoderCount (requestStep observer c rq) weid sha = encoderCount c weid sha + (if decide (countsFor weid sha rq) then 1 else 0).
Proof.
  intros [He1 He2]. destruct rq as [rq|]; cbn [requestStep]; [|split; [done|]; case_decide; [done|lia]].
  destruct (ObservationId rq) as [id|] eqn:Hid; [|split; [done|]; case_decide as Hc; [by rewrite /countsFor Hid in Hc|lia]].
  destruct (ObservationsList rq) as [l|] eqn:Hl; [|split; [done|]; case_decide as Hc; [by rewrite /countsFor Hid Hl in Hc|lia]].
  destruct (shaForOverriddenEncoder rq) as [s|] eqn:Hs; cycle 1.
  { split; [done|]. case_decide as Hc; [|unfold encoderCount; cbn; lia]. rewrite /countsFor Hid Hl in Hc. destruct Hc. congruence. }
  set (c' := mkCollected _ _ _ _ _).
  assert (∀ w s', encoderCount c' w s' = encoderCount c w s' + (if decide (w = WorkflowExecutionId id ∧ s' = s) then 1 else 0)) as Hcount.
  { intros w s'. rewrite /encoderCount /c'. cbn [execIDToEncoderShaToCount]. destruct (decide (w = WorkflowExecutionId id)) as [->|Hw].
    - rewrite lookup_insert_eq. cbn [default]. destruct (decide (s' = s)) as [->|Hs'].
      + rewrite lookup_insert_eq. destruct (decide _); [cbn; lia|naive_solver].
      + rewrite lookup_insert_ne //. destruct (decide _); [naive_solver|cbn; lia].
    - rewrite lookup_insert_ne //. destruct (decide _); [naive_solver|cbn; lia]. }
  split; [split|].
  - intros s' enc. rewrite /c'. cbn [shaToEncoder]. intros [[<- <-]|[_ Henc]]%lookup_insert_Some; [exact Hs|by apply He1].
  - intros w s'. rewrite Hcount /c'. cbn [shaToEncoder]. intros Hpos. destruct (decide (s' = s)) as [->|Hne]; [rewrite lookup_insert_eq; by eexists|].
    rewrite lookup_insert_ne //. destruct (decide _) as [[]|]; [done|]. apply (He2 w). lia.
  - rewrite Hcount. f_equal.
    assert (countsFor weid sha (Some rq) ↔ weid = WorkflowExecutionId id ∧ sha = s) as Hiff by (rewrite /countsFor Hid Hl; naive_solver).
    destruct (decide (countsFor weid sha (Some rq))), (decide (weid = WorkflowExecutionId id ∧ sha = s)); naive_solver.
Qed.

Lemma requestLoop_encoders observer c rqs weid sha :
  encodersOk c →
  encodersOk (foldl (requestStep observer) c rqs) ∧
  encoderCount (foldl (requestStep observer) c rqs) weid sha = encoderCount c weid sha + length (filter (countsFor weid sha) rqs).
Proof.
  revert c. induction rqs as [|rq rqs IH]; intros c Hc; cbn [foldl]; [split; [done|cbn; lia]|].
  destruct (requestStep_encoders observer c rq weid sha Hc) as [Hc' Heq]. destruct (IH _ Hc') as [Hok ->]. split; [done|].
  rewrite Heq filter_cons. case_decide; cbn; lia.
Qed.

(** The requests of all the observations that count. *)
Definition encoderRequests (weid : string) (sha : list byte) (aos : list (nat * list byte)) : nat :=
  sum_list ((λ ao : nat * list byte, match unmarshalObservations ao.2 with
                      | Some msg => length (filter (countsFor weid sha) (ObservationRequests msg))
                      | None => 0
                      end) <$> aos).

Lemma collectLoop_encoders c aos weid sha :
  encodersOk c →
  encodersOk (foldl collectStep c aos) ∧
  encoderCount (foldl collectStep c aos) weid sha = encoderCount c weid sha + encoderRequests weid sha aos.
Proof.
  revert c. induction aos as [|ao aos IH]; intros c Hc; cbn [foldl]; [split; [done|cbn; lia]|].
  assert (encodersOk (collectStep c ao) ∧ encoderCount (collectStep c ao) weid sha = encoderCount c weid sha + encoderRequests weid sha [ao]) as [Hc' Heq].
  { rewrite /collectStep /encoderRequests. cbn. destruct (unmarshalObservations ao.2) as [msg|]; [|split; [done|lia]].
    rewrite Nat.add_0_r. exact (requestLoop_encoders ao.1 (mkCollected (execIDToOracleObservations c)
      (countSeen (seenWorkflowIDs c) (RegisteredWorkflowIds msg)) (timestamps c ++ [ObservationsTimestamp msg])
      (execIDToEncoderShaToCount c) (shaToEncoder c)) (ObservationRequests msg) weid sha Hc). }
  destruct (IH _ Hc') as [Hok ->]. split; [done|]. rewrite Heq /encoderRequests. cbn. lia.
Qed.

(** Agreement on the overriding encoder counts requests, not oracles: the
    count of an encoder is the number of requests for it in all observations,
    so that a single oracle that repeats its request 2F+1 times reaches the
    quorum, and its encoder is the one that some map order picks. *)
Theorem one_oracle_forges_encoder aos oracle bytes msg weid sha :
  (oracle, bytes) ∈ aos →
  unmarshalObservations bytes = Some msg →
  2 * F + 1 ≤ length (filter (countsFor weid sha) (ObservationRequests msg)) →
  ∃ counts O enc, execIDToEncoderShaToCount (collect aos) !! weid = Some counts ∧
    counts !! sha = Some (encoderRequests weid sha aos) ∧
    pickEncoder O counts (shaToEncoder (collect aos)) = Some enc ∧
    shaForOverriddenEncoder (mkObservation None None (name enc) (config enc)) = Some sha.
Proof.
  intros Hin Hmsg Hlen. destruct (collectLoop_encoders emptyCollected aos weid sha) as [[He1 He2] Hcount].
  { split; [intros ? ? Hs; by rewrite lookup_empty in Hs|]. intros w s. rewrite /encoderCount /= lookup_empty /= lookup_empty /=. lia. }
  fold (collect aos) in *. assert (2 * F + 1 ≤ encoderRequests weid sha aos) as Hreq.
  { etrans; [exact Hlen|]. apply list_elem_of_split in Hin as (l1 & l2 & ->). rewrite /encoderRequests fmap_app fmap_cons sum_list_with_app.
    cbn. rewrite Hmsg. lia. }
  assert (encoderCount (collect aos) weid sha = encoderRequests weid sha aos) as Hc.
  { rewrite Hcount /encoderCount /emptyCollected. cbn [execIDToEncoderShaToCount]. by rewrite lookup_empty /= lookup_empty. }
  destruct (He2 weid sha) as [enc Henc]; [lia|]. rewrite /encoderCount in Hc.
  destruct (execIDToEncoderShaToCount (collect aos) !! weid) as [counts|] eqn:Ecounts; cbn in Hc; [|rewrite lookup_empty in Hc; cbn in Hc; lia].
  destruct (counts !! sha) as [n|] eqn:En; cbn in Hc; [|lia]. subst n.
  exists counts, (keyFirst sha), enc. split; [done|]. split; [done|]. split; [|by apply He1].
  destruct (range_map_keyFirst sha counts _ En) as [l Hl]. rewrite /pickEncoder Hl. cbn. rewrite decide_True //. cbn. by rewrite Henc.
Qed.
End plugin.

(** *** A concrete round: four oracles, of which the last is faulty *)

Section examples.
#[local] Existing Instance bytesWire.
#[local] Existing Instance insertionSort.

Definition sampleId : Id := mkId "exec" "wf" "owner" "name" 1 1 "0001" "evm".
Definition honestMsg : Observations :=
  mkObservations [Some (mkObservation (Some [PBytes [Byte.x61]]) (Some sampleId) "" None)] ["wf"; "old"] (Some (1000, 0)%Z).
(** The faulty oracle repeats a request that names its own encoder. *)
Definition faultyMsg : Observations :=
  mkObservations (replicate 3 (Some (mkObservation (Some [PBytes [Byte.x62]]) (Some sampleId) "evil" None))) [] (Some (9000, 0)%Z).
Definition previousMsg : OutcomeMsg :=
  mkOutcomeMsg {[ "old" := mkOutcome [] [] false 5 None "" None; "gone" := mkOutcome [] [] false 5 None "" None ]} [].

Definition sampleWire : PluginWire := {|
  unmarshalQuery _ := Some [Some sampleId];
  marshalQuery _ := Some [];
  unmarshalObservations bs := match bs with [Byte.x61] => Some honestMsg | [Byte.x62] => Some faultyMsg | _ => None end;
  marshalObservations _ := Some [];
  unmarshalOutcome _ := Some previousMsg;
  marshalOutcome _ := Some [];
  marshalInfo _ := Some [];
  marshalInfoStruct _ _ := Some []
|}.

Definition sampleCapability : CapabilityIface := {|
  GetAggregator wf := if String.eqb wf "wf" then Some (λ _ _ _, Ok (mkOutcome [("v", PBytes [Byte.x61])] [] true 0 None "" None)) else None;
  GetEncoderByWorkflowID _ := None;
  GetEncoderByName _ _ := None;
  GetRegisteredWorkflowsIDs := []
|}.

#[local] Existing Instance sampleWire.
#[local] Existing Instance sampleCapability.

Definition sampleAos : list (nat * list byte) := [(0, [Byte.x61]); (1, [Byte.x61]); (2, [Byte.x61]); (3, [Byte.x62])].
Definition sampleState : outcome perror (state * list string) :=
  outcomeState 1 10 (λ _, insertion_order _) (insertion_order _) 20 [] [] sampleAos.

Definition sampleResult : state * list string :=
  match sampleState with Ok r => r | _ => (mkState [] ∅ [], []) end.

Lemma sampleState_Ok :
  outcomeState 1 10 (λ _, insertion_order _) (insertion_order _) 20 [] [] sampleAos = Ok (sampleResult.1, sampleResult.2).
Proof. by vm_compute. Qed.

Lemma sampleReport : ∃ r, head (MsgCurrentReports (saveOutcome sampleResult.1)) = Some r.
Proof. eexists. by vm_compute. Qed.

Lemma sampleQuery_others wf id : wf ≠ "wf" → Some id ∈ [Some sampleId] → WorkflowId id ≠ wf.
Proof. intros Hwf [= ->]%list_elem_of_singleton. by apply not_eq_sym. Qed.

Lemma reports_have_quorum_witness :
  ∃ r, r ∈ MsgCurrentReports (saveOutcome sampleResult.1) ∧
    ∃ id obs, Some id ∈ [Some sampleId] ∧ 3 ≤ size (obs : observations) ∧
      ∀ oracle v, obs !! oracle = Some v → observed sampleAos (WorkflowExecutionId id) oracle v.
Proof.
  destruct sampleReport as [r Hr]. pose proof (head_Some_elem_of _ _ Hr) as Hin. exists r. split; [exact Hin|].
  destruct (reports_have_quorum 1 10 _ _ 20 [] [] sampleAos _ _ r sampleState_Ok Hin)
    as (id & o & q & ts & obs & agg & w & o0 & _ & Hq & Hid & Hsize & Hobs & _).
  change (Some [Some sampleId] = Some q) in Hq. injection Hq as <-. exists id, obs.
  split; [exact Hid|]. split; [exact Hsize|exact Hobs].
Defined.

Lemma pruning_exact_witness :
  MsgOutcomes (saveOutcome sampleResult.1) !! "old" = Some (mkOutcome [] [] false 20 None "" None) ∧
  "gone" ∈ sampleResult.2 ∧ MsgOutcomes (saveOutcome sampleResult.1) !! "gone" = None.
Proof.
  destruct (pruning_exact 1 10 _ _ 20 [] [] sampleAos _ _ [Some sampleId] previousMsg "old" sampleState_Ok eq_refl eq_refl
    (λ id, sampleQuery_others "old" id ltac:(discriminate))) as [_ _].
  destruct (pruning_exact 1 10 _ _ 20 [] [] sampleAos _ _ [Some sampleId] previousMsg "gone" sampleState_Ok eq_refl eq_refl
    (λ id, sampleQuery_others "gone" id ltac:(discriminate))) as [Hgone Hun].
  assert (MsgOutcomes (saveOutcome sampleResult.1) !! "gone" = None) as Hnone by (clear; by vm_compute).
  split; [clear; by vm_compute|]. split; [|exact Hnone]. apply Hun. split; [|exact Hnone].
  apply (bool_decide_unpack _). by vm_compute.
Defined.

Lemma timestamp_between_honest_witness :
  ∃ t lo hi, finalTimestamp (timestamps (collect sampleAos)) = Ok t ∧
    lo ∈ timestampsOf (filter (λ ao, ao.1 ∈ ({[0; 1; 2]} : gset nat)) sampleAos) ∧
    hi ∈ timestampsOf (filter (λ ao, ao.1 ∈ ({[0; 1; 2]} : gset nat)) sampleAos) ∧
    (Unix (AsTime lo) ≤ Unix (AsTime t) ≤ Unix (AsTime hi))%Z.
Proof.
  apply timestamp_between_honest; [by vm_compute; lia|].
  change (Forall inEra [Some (1000, 0); Some (1000, 0); Some (1000, 0)]%Z).
  rewrite !Forall_cons. repeat split; try constructor; by vm_compute.
Defined.

Lemma one_oracle_forges_encoder_witness :
  ∃ counts O enc, execIDToEncoderShaToCount (collect sampleAos) !! "exec" = Some counts ∧
    counts !! bytes_of_string "evil" = Some (encoderRequests "exec" (bytes_of_string "evil") sampleAos) ∧
    pickEncoder 1 O counts (shaToEncoder (collect sampleAos)) = Some enc ∧
    shaForOverriddenEncoder (mkObservation None None (name enc) (config enc)) = Some (bytes_of_string "evil").
Proof.
  apply (one_oracle_forges_encoder 1 sampleAos 3 [Byte.x62] faultyMsg); [by vm_compute; set_solver|done|by vm_compute; lia].
Defined.
End examples.
End ReportingPlugin.
