(* ===== verification/DataFeeds.v ===== *)
(** What the data-feeds and LLO aggregators of
    [src/pkg/capabilities/consensus/ocr3/datafeeds] share: feed identifiers
    ([src/pkg/capabilities/datastreams/types.go]), feed configurations, floats
    and deviations.

    [float64] is IEEE 754 binary64, with the operations of [SpecFloat]. *)

From Stdlib Require Import SpecFloat.
From stdpp Require Import pretty.
From S2P Require Import Prelude GoBytes GoStrings Values Consensus.

Module DataFeeds.
Import Values Consensus.

(** *** Floats *)

Definition float64 : Type := spec_float.
Definition fdiv : float64 → float64 → float64 := SFdiv 53 1024.
Definition fmul : float64 → float64 → float64 := SFmul 53 1024.
Definition fsub : float64 → float64 → float64 := SFsub 53 1024.
(** [a > b] *)
Definition fgt (a b : float64) : bool := SFltb b a.
(** The nearest float: [float64(z)] and [big.Int.Float64]. *)
Definition floatOfZ (z : Z) : float64 := binary_normalize 53 1024 z 0 false.
Definition fzero : float64 := S754_zero false.
Definition fone : float64 := floatOfZ 1.
Definition MaxFloat64 : float64 := S754_finite false (2 ^ 53 - 1) 971.

(** What the feeds use of decimals besides [DecimalOps]. *)
Class DecimalFormat (D : Type) := {
  dUnmarshalBinary : list byte → option D;
  dMarshalBinary : D → option (list byte);
  dString : D → string;
  dIsZero : D → bool;
  dFloat64 : D → float64;                    (* also [InexactFloat64] *)
  dShift : D → Z → D;
  dBigInt : D → Z;
  dZeroValue : D;                            (* [decimal.Decimal{}] *)
  dZero : D                                  (* [decimal.Zero] *)
}.

(** *** Feed identifiers *)

Definition FeedIDBytesLen : nat := 32.

Inductive error :=
  | ErrInvalidConfig | ErrInsufficientConsensus | ErrEmptyObservation | ErrInvalidFeedID
  | ErrUnwrap | ErrState | ErrMarshalState | ErrWrapUpdates | ErrMinRequired | ErrParse
  | ErrField (key : string) | ErrPayload.

(** [FeedID.Bytes]: panics on a short string, and when there are fewer than 32
    bytes. *)
Definition FeedIDBytes (id : string) : outcome error (list byte) :=
  if decide (String.length id < 2) then Panic
  else
    let b := hexPrefix (dropChars 2 id) in
    if decide (length b < FeedIDBytesLen) then Panic else Ok (take FeedIDBytesLen b).

Definition validateFeedID (id : string) : bool :=
  if decide (String.length id ≠ 2 * FeedIDBytesLen + 2) then false
  else if negb (HasPrefix id "0x") then false
  else if negb (String.eqb (ToLower id) id) then false
  else match hexDecode (dropChars 2 id) with Some _ => true | None => false end.

Definition NewFeedID (s : string) : outcome error string :=
  if validateFeedID s then Ok s else Err ErrInvalidFeedID.

Definition FeedIDFromBytes (b : list byte) : string := ("0x" ++ hexEncode b)%string.

(** *** Reports and trigger events *)

Record FeedReport := mkReport {
  FeedID : string;
  FullReport : list byte;
  ReportContext : list byte;
  Signatures : list (list byte);
  BenchmarkPrice : list byte;
  ObservationTimestamp : Z
}.

(** [datastreams.Metadata] *)
Record TriggerMetadata := mkMetadata {
  Signers : list (list byte);
  MinRequiredSignatures : Z
}.

(** [datastreams.ReportCodec]. *)
Class ReportCodec := {
  codecUnwrap : Value → option (list FeedReport);
  codecValidate : FeedReport → list (list byte) → Z → bool
}.

Definition getStringField (mp : list (string * option Value)) (key : string) : outcome error string :=
  match mapGet mp key with Some (Some (VString s)) => Ok s | _ => Err (ErrField key) end.

Definition getBytesField (mp : list (string * option Value)) (key : string) : outcome error (list byte) :=
  match mapGet mp key with Some (Some (VBytes b)) => Ok b | _ => Err (ErrField key) end.

Definition unwrapSignature (sig : option Value) : outcome error (list byte) :=
  match sig with Some (VBytes b) => Ok b | _ => Err (ErrField "Signatures") end.

(** One entry of the payload; the fields derived from the full report stay zero. *)
Definition unwrapReport (v : option Value) : outcome error FeedReport :=
  match v with
  | Some (VMap mp) =>
      let? id := getStringField mp "FeedID" in
      let? full := getBytesField mp "FullReport" in
      let? context := getBytesField mp "ReportContext" in
      match mapGet mp "Signatures" with
      | Some (Some (VList sigs)) =>
          let? sigs := omapM unwrapSignature sigs in
          Ok (mkReport id full context sigs [] 0)
      | _ => Err (ErrField "Signatures")
      end
  | _ => Err ErrPayload
  end.

Definition UnwrapStreamsTriggerEventToFeedReportList (wrapped : option Value) : outcome error (list FeedReport) :=
  match wrapped with
  | Some (VMap m) =>
      match mapGet m "Payload" with
      | Some (Some (VList l)) => omapM unwrapReport l
      | _ => Err ErrPayload
      end
  | _ => Err ErrPayload
  end.

(** [sort.Slice] or [sort.Strings] on identifiers, which are distinct. *)
Definition sortFeedIDs (ids : list string) : list string :=
  merge_sort (λ a b, bytesCompare (bytes_of_string a) (bytes_of_string b) ≠ Gt) ids.

Lemma sortFeedIDs_perm ids : sortFeedIDs ids ≡ₚ ids.
Proof. apply merge_sort_Permutation. Qed.

(** *** Feed configurations *)

Record FeedConfig (D : Type) := mkFeed {
  Heartbeat : Z;                      (* seconds *)
  FeedDeviation : string;
  RemappedIDHex : string;
  parsedDeviation : D;
  remappedID : list byte
}.
Arguments mkFeed {D} _ _ _ _ _.
Arguments Heartbeat {D} _.
Arguments FeedDeviation {D} _.
Arguments RemappedIDHex {D} _.
Arguments parsedDeviation {D} _.
Arguments remappedID {D} _.

Definition HeartbeatNanos {D} (c : FeedConfig D) : Z := wrapS 64 (Heartbeat c * 10 ^ 9).

Section feeds.
Context `{DecimalOps D, DecimalFormat D}.

Definition setParsedDeviation (d : D) (c : FeedConfig D) : FeedConfig D :=
  mkFeed (Heartbeat c) (FeedDeviation c) (RemappedIDHex c) d (remappedID c).
Definition setRemappedID (r : list byte) (c : FeedConfig D) : FeedConfig D :=
  mkFeed (Heartbeat c) (FeedDeviation c) (RemappedIDHex c) (parsedDeviation c) r.

(** A missing configuration is the zero value of the struct. *)
Definition zeroFeed : FeedConfig D := mkFeed 0 "" "" dZeroValue [].

(** *** Deviations *)

Definition deviation (oldPrice newPrice : Z) : float64 :=
  let diff := Z.abs (oldPrice - newPrice) in
  if decide (oldPrice = 0)%Z then (if decide (diff = 0)%Z then fzero else MaxFloat64)
  else fdiv (floatOfZ diff) (floatOfZ oldPrice).

Definition deviationDecimal (oldPrice newPrice : D) : float64 :=
  let diff := dAbs (dSub oldPrice newPrice) in
  if dIsZero oldPrice then (if dIsZero diff then fzero else MaxFloat64)
  else fdiv (dFloat64 diff) (dFloat64 oldPrice).
End feeds.

(** *** Integers as decimals: the interfaces at a concrete instance *)

Definition integerOps : DecimalOps Z := {|
  dCmp := Z.compare;
  dSub := Z.sub;
  dAbs := Z.abs;
  dDiv := Z.div;
  NewFromInt z := z;
  NewFromBigInt c e := (c * 10 ^ e)%Z;
  NewFromString s := Atoi s;
  NewFromFloat _ := None
|}.

Definition integerFormat : DecimalFormat Z := {|
  dUnmarshalBinary bs := Some (be_val bs);
  dMarshalBinary z := Some (bigBytes z);
  dString := pretty;
  dIsZero z := bool_decide (z = 0)%Z;
  dFloat64 := floatOfZ;
  dShift z e := (z * 10 ^ e)%Z;
  dBigInt z := z;
  dZeroValue := 0%Z;
  dZero := 0%Z
|}.

(** *** Feed identifiers: facts *)

(** A valid identifier has its 32 bytes. *)
Lemma FeedIDBytes_valid id : validateFeedID id = true → ∃ b, FeedIDBytes id = Ok b ∧ length b = FeedIDBytesLen.
Proof.
  rewrite /validateFeedID /FeedIDBytes. destruct (decide (String.length id ≠ _)) as [|Hl]; [by intros|].
  destruct (HasPrefix id "0x"); [|by intros]. destruct (String.eqb (ToLower id) id); [|by intros]. cbn [negb].
  destruct (hexDecode (dropChars 2 id)) as [b|] eqn:Hb; [|by intros]. intros _.
  apply dec_stable in Hl. rewrite decide_False; [|rewrite Hl /FeedIDBytesLen; lia].
  destruct (hexDecode_prefix _ _ _ (Nat.lt_succ_diag_r _) Hb) as [-> Hlen].
  assert (length b = 32) as Hlb by (destruct id as [|c1 [|c2 id]]; cbn in Hl, Hlen; lia).
  rewrite decide_False; [|rewrite Hlb /FeedIDBytesLen; lia]. exists (take FeedIDBytesLen b). split; [done|].
  by rewrite length_take Hlb.
Qed.

Lemma validateFeedID_encode b : length b = FeedIDBytesLen → validateFeedID ("0x" ++ hexEncode b) = true.
Proof.
  intros Hb. rewrite /validateFeedID.
  change (String.length ("0x" ++ hexEncode b)) with (2 + String.length (hexEncode b)).
  change (HasPrefix ("0x" ++ hexEncode b) "0x") with true.
  change (ToLower ("0x" ++ hexEncode b)) with ("0x" ++ ToLower (hexEncode b))%string.
  change (dropChars 2 ("0x" ++ hexEncode b)) with (hexEncode b).
  rewrite length_hexEncode ToLower_hexEncode hexDecode_hexEncode String.eqb_refl Hb.
  case_decide; [lia|done].
Qed.

(** Feed identifiers round-trip: the identifier of 32 bytes is valid, and its
    bytes are the bytes it was made of. *)
Theorem FeedID_roundtrip b :
  length b = FeedIDBytesLen →
  NewFeedID (FeedIDFromBytes b) = Ok (FeedIDFromBytes b) ∧ FeedIDBytes (FeedIDFromBytes b) = Ok b.
Proof.
  intros Hb. pose proof (validateFeedID_encode b Hb) as Hv. split; [by rewrite /NewFeedID /FeedIDFromBytes Hv|].
  rewrite /FeedIDBytes /FeedIDFromBytes.
  change (String.length ("0x" ++ hexEncode b)) with (2 + String.length (hexEncode b)).
  change (dropChars 2 ("0x" ++ hexEncode b)) with (hexEncode b). case_decide; [lia|].
  destruct (hexDecode_prefix _ _ _ (Nat.lt_succ_diag_r _) (hexDecode_hexEncode b)) as [-> _].
  rewrite decide_False; [|lia]. by rewrite take_ge; [|rewrite Hb].
Qed.

Lemma FeedID_roundtrip_witness :
  length (replicate 32 Byte.xab) = 32 ∧ FeedIDBytes (FeedIDFromBytes (replicate 32 Byte.xab)) = Ok (replicate 32 Byte.xab).
Proof. split; [done|]. apply FeedID_roundtrip. done. Defined.
End DataFeeds.
