(* ===== verification/LLOAggregator.v ===== *)
(** [src/pkg/capabilities/consensus/ocr3/datafeeds/llo_aggregator.go]: the prices
    that enough nodes agree on are compared with the last reported ones, and
    the streams that deviate, or whose heartbeat has passed, are reported.

    Decimals, mapstructure and the state's protocol-buffer form are interfaces.
    Every [range] over a map whose order matters takes its own order. *)

From Stdlib Require Import SpecFloat.
From S2P Require Import Prelude GoBytes GoStrings Values Consensus DataFeeds.

Module LLOAggregator.
Import Values Consensus DataFeeds.

Record LLOStreamDecimal := mkStream { StreamID : Z; Decimal : list byte }.
Record LLOStreamsTriggerEvent := mkEvent {
  Payload : list (option LLOStreamDecimal);
  ObservationTimestampNanoseconds : Z
}.

(** An entry of [LLOOutcomeMetadata]. *)
Record LLOStreamInfo := mkInfo { Timestamp : Z; Price : list byte }.

(** mapstructure on an event, and the protocol-buffer form of the state. *)
Class LLOWire := {
  unwrapEvent : Value → option LLOStreamsTriggerEvent;
  marshalLLO : gmap Z LLOStreamInfo → option (list byte);
  unmarshalLLO : list byte → option (gmap Z LLOStreamInfo)
}.

Record LLOAggregatorConfig (D : Type) := mkLLOConfig {
  Streams : gmap string (FeedConfig D);
  AllowedPartialStaleness : string
}.
Arguments mkLLOConfig {D} _ _.
Arguments Streams {D} _.
Arguments AllowedPartialStaleness {D} _.

Record parsedLLOAggregatorConfig (D : Type) := mkParsed {
  streams : gmap Z (FeedConfig D);
  allowedPartialStaleness : float64
}.
Arguments mkParsed {D} _ _.
Arguments streams {D} _.
Arguments allowedPartialStaleness {D} _.

(** The orders of a round's loops over maps whose order matters: the events,
    twice, and each stream's candidate prices. *)
Record orders := mkOrders {
  timestampOrder : RangeOrder (nat * LLOStreamsTriggerEvent);
  eventOrder : RangeOrder (nat * LLOStreamsTriggerEvent);
  priceOrder : Z → RangeOrder (string * nat)
}.

Definition decimalShift : Z := 18.
Definition TopLevelListOutputFieldName : string := "Reports".

Section llo.
Context `{DecimalOps D, DecimalFormat D, LLOWire}.

(** *** Configuration *)

Definition streamIDStep (acc : gmap Z (FeedConfig D)) (kv : string * FeedConfig D) : outcome error (gmap Z (FeedConfig D)) :=
  match ParseUint 32 kv.1 with
  | None => Err ErrInvalidConfig
  | Some id => Ok (<[wrapU 32 id := kv.2]> acc)
  end.

(** One iteration of the loop that parses the configuration of the streams. *)
Definition parseStream (cfg : FeedConfig D) : outcome error (FeedConfig D) :=
  if String.eqb (RemappedIDHex cfg) "" then Err ErrInvalidConfig
  else
    let? cfg :=
      if String.eqb (FeedDeviation cfg) "" then Ok cfg
      else match NewFromString (FeedDeviation cfg) with
           | None => Err ErrInvalidConfig
           | Some dec => Ok (setParsedDeviation dec cfg)
           end in
    match hexDecode (TrimPrefix (RemappedIDHex cfg) "0x") with
    | None => Err ErrInvalidConfig
    | Some raw => Ok (setRemappedID raw cfg)
    end.

Definition parseStreamStep (acc : gmap Z (FeedConfig D)) (kv : Z * FeedConfig D) : outcome error (gmap Z (FeedConfig D)) :=
  let? cfg := parseStream kv.2 in Ok (<[kv.1 := cfg]> acc).

Definition parseStaleness (s : string) : outcome error float64 :=
  if String.eqb s "" then Ok fzero
  else match NewFromString s with None => Err ErrInvalidConfig | Some d => Ok (dFloat64 d) end.

Definition convertToInternal (O : RangeOrder (string * FeedConfig D)) (O' : RangeOrder (Z * FeedConfig D))
    (c : LLOAggregatorConfig D) : outcome error (parsedLLOAggregatorConfig D) :=
  let? ids := ofold streamIDStep ∅ (range_map O (Streams c)) in
  let? parsed := ofold parseStreamStep ids (range_map O' ids) in
  let? staleness := parseStaleness (AllowedPartialStaleness c) in
  Ok (mkParsed parsed staleness).

(** [parseLLOConfig], given the unwrapped configuration. *)
Definition parseLLOConfig (O : RangeOrder (string * FeedConfig D)) (O' : RangeOrder (Z * FeedConfig D))
    (unwrapped : option (LLOAggregatorConfig D)) : outcome error (parsedLLOAggregatorConfig D) :=
  match unwrapped with None => Err ErrUnwrap | Some c => convertToInternal O O' c end.

(** *** Observations *)

Definition extractEvent (nodeObservations : list (option Value)) : option LLOStreamsTriggerEvent :=
  match nodeObservations with
  | [Some v] => unwrapEvent v
  | _ => None
  end.

Definition extractLLOEvents (obs : observations) : gmap nat LLOStreamsTriggerEvent := omap extractEvent obs.

(** The loop of [getObservationTimestamp]: the first timestamp counted more
    than [f] times. *)
Fixpoint countTimestamps (f : nat) (counts : gmap Z nat) (events : list (nat * LLOStreamsTriggerEvent)) : outcome error Z :=
  match events with
  | [] => Err ErrInsufficientConsensus
  | (_, event) :: events =>
      let ts := ObservationTimestampNanoseconds event in
      let counts := <[ts := S (default 0 (counts !! ts))]> counts in
      if decide (f + 1 <= default 0 (counts !! ts)) then Ok (wrapS 64 ts) else countTimestamps f counts events
  end.

(** A [time.Time] here is its nanoseconds since the epoch. *)
Definition getObservationTimestamp (O : RangeOrder (nat * LLOStreamsTriggerEvent))
    (lloEvents : gmap nat LLOStreamsTriggerEvent) (f : nat) : outcome error Z :=
  countTimestamps f ∅ (range_map O lloEvents).

(** One entry of an event's payload. *)
Definition countPrice (acc : gmap Z (gmap string nat)) (p : option LLOStreamDecimal) : outcome error (gmap Z (gmap string nat)) :=
  match p with
  | None => Panic                                       (* a nil pointer *)
  | Some p =>
      match acc !! StreamID p with
      | None => Ok acc
      | Some counts =>
          match dUnmarshalBinary (Decimal p) with
          | None => Ok acc
          | Some price => Ok (<[StreamID p := <[dString price := S (default 0 (counts !! dString price))]> counts]> acc)
          end
      end
  end.

Definition countEvent (timestampNS : Z) (acc : gmap Z (gmap string nat)) (event : nat * LLOStreamsTriggerEvent)
    : outcome error (gmap Z (gmap string nat)) :=
  if decide (ObservationTimestampNanoseconds event.2 ≠ timestampNS) then Ok acc
  else ofold countPrice acc (Payload event.2).

(** The first price counted more than [f] times. *)
Definition quorumPrice (f : nat) (prices : list (string * nat)) : option D :=
  match filter (λ kv, f + 1 <= kv.2) prices with
  | [] => None
  | kv :: _ => Some (default dZeroValue (NewFromString kv.1))
  end.

Definition emptyCandidates (ids : list Z) : gmap Z (gmap string nat) := list_to_map ((λ id, (id, ∅)) <$> ids).

Definition lloStreamPrices (O : orders) (wantStreamIDs : list Z) (lloEvents : gmap nat LLOStreamsTriggerEvent) (f : nat)
    : outcome error (Z * gmap Z D) :=
  let? ts := getObservationTimestamp (timestampOrder O) lloEvents f in
  let? counts := ofold (countEvent (wrapU 64 ts)) (emptyCandidates wantStreamIDs) (range_map (eventOrder O) lloEvents) in
  Ok (ts, map_imap (λ id priceCount, quorumPrice f (range_map (priceOrder O id) priceCount)) counts).

(** *** State *)

Definition stateInit (config : parsedLLOAggregatorConfig D) (zero : list byte) (old : gmap Z LLOStreamInfo) : gmap Z LLOStreamInfo :=
  map_imap (λ id _, Some (default (mkInfo 0 zero) (old !! id))) (streams config).

(** Unmarshalling resets the message: with no entry its map is nil, and adding
    a stream to it panics. *)
Definition initializeLLOState (config : parsedLLOAggregatorConfig D) (previousOutcome : option AggregationOutcome)
    : outcome error (gmap Z LLOStreamInfo) :=
  let? (old, nilMap) :=
    match previousOutcome with
    | Some p =>
        if decide (Metadata p = []) then Ok (∅, false)
        else match unmarshalLLO (Metadata p) with
             | None => Err ErrState
             | Some m => Ok (m, bool_decide (m = ∅))
             end
    | None => Ok (∅, false)
    end in
  match dMarshalBinary dZero with
  | None => Err ErrMarshalState
  | Some zero =>
      if nilMap && negb (bool_decide (streams config = ∅)) then Panic
      else Ok (stateInit config zero old)
  end.

(** *** A round *)

Definition decimalToBigInt (d : D) : Z := dBigInt (dShift d decimalShift).

(** The wrapped [EVMEncodableStreamUpdate]. *)
Definition streamUpdate (config : parsedLLOAggregatorConfig D) (ts : Z) (prices : gmap Z D) (streamID : Z) : any :=
  APtr (Some (AStruct
    [("StreamID", "", true, AInt KUint32 streamID);
     ("Price", "", true, ABigInt (decimalToBigInt (default dZeroValue (prices !! streamID))));
     ("Timestamp", "", true, AInt KUint32 (wrapU 32 (ts / 10 ^ 9)));
     ("RemappedID", "", true, ABytes (remappedID (default zeroFeed (streams config !! streamID))))]%string)).

Inductive decision := Skip | Must (marshalled : option (list byte)) | Maybe | Nothing.

(** What the loop decides for a stream. *)
Definition decideStream (config : parsedLLOAggregatorConfig D) (ts : Z) (prices : gmap Z D) (info : LLOStreamInfo) (streamID : Z) : decision :=
  let cfg := default zeroFeed (streams config !! streamID) in
  match dUnmarshalBinary (Price info) with
  | None => Skip
  | Some oldPrice =>
      let newPrice := default dZeroValue (prices !! streamID) in
      let timeDiffNs := wrapS 64 (ts - Timestamp info) in
      if bool_decide (HeartbeatNanos cfg < timeDiffNs)%Z
         || fgt (deviationDecimal oldPrice newPrice) (dFloat64 (parsedDeviation cfg))
      then Must (dMarshalBinary newPrice)
      else if fgt (floatOfZ timeDiffNs) (fmul (floatOfZ (HeartbeatNanos cfg)) (fsub fone (allowedPartialStaleness config)))
      then Maybe else Nothing
  end.

Record round := mkRound {
  streamInfo : gmap Z LLOStreamInfo;
  mustUpdateIDs : list Z;
  maybeUpdateIDs : list Z
}.

Definition streamStep (config : parsedLLOAggregatorConfig D) (ts : Z) (prices : gmap Z D) (st : round) (streamID : Z) : round :=
  match streamInfo st !! streamID with
  | None => st
  | Some info =>
      match decideStream config ts prices info streamID with
      | Skip | Nothing => st
      | Must marshalled =>
          mkRound (<[streamID := mkInfo ts (default [] marshalled)]> (streamInfo st))
                  (match marshalled with Some _ => mustUpdateIDs st ++ [streamID] | None => mustUpdateIDs st end)
                  (maybeUpdateIDs st)
      | Maybe => mkRound (streamInfo st) (mustUpdateIDs st) (maybeUpdateIDs st ++ [streamID])
      end
  end.

(** [slices.Sort] *)
Definition sortIDs (ids : list Z) : list Z := merge_sort Z.le ids.

Definition toUpdate (st : round) : list Z :=
  if decide (mustUpdateIDs st = []) then [] else sortIDs (mustUpdateIDs st ++ maybeUpdateIDs st).

(** The rest of a round, once the prices are known. *)
Definition finishRound (config : parsedLLOAggregatorConfig D) (state : gmap Z LLOStreamInfo) (ts : Z) (prices : gmap Z D)
    : outcome error AggregationOutcome :=
  let st := foldl (streamStep config ts prices) (mkRound state [] []) (sortIDs (map_to_list state).*1) in
  let? stateBytes := ok_or ErrMarshalState (marshalLLO (streamInfo st)) in
  let? wrapped := map_err (λ _, ErrWrapUpdates) (Wrap (ASlice (streamUpdate config ts prices <$> toUpdate st))) in
  Ok (mkOutcome [(TopLevelListOutputFieldName, Proto wrapped)] stateBytes
                (negb (bool_decide (toUpdate st = []))) 0 None "" None).

Definition Aggregate (config : parsedLLOAggregatorConfig D) (O : orders) (previousOutcome : option AggregationOutcome)
    (obs : observations) (f : nat) : outcome error AggregationOutcome :=
  if decide (size obs = 0) then Err ErrEmptyObservation
  else
    let lloEvents := extractLLOEvents obs in
    let? state := initializeLLOState config previousOutcome in
    let allStreamIDs := sortIDs (map_to_list state).*1 in
    let? (ts, prices) := lloStreamPrices O allStreamIDs lloEvents f in
    finishRound config state ts prices.

(** *** Timestamps *)

Definition hasTimestamp (ts : Z) (ev : nat * LLOStreamsTriggerEvent) : Prop := ObservationTimestampNanoseconds ev.2 = ts.
#[export] Instance hasTimestamp_dec ts ev : Decision (hasTimestamp ts ev) := ltac:(unfold hasTimestamp; apply _).

(** Counts that agree with the events seen. *)
Definition tsCounted (counts : gmap Z nat) (seen : list (nat * LLOStreamsTriggerEvent)) : Prop :=
  ∀ ts, default 0 (counts !! ts) = length (filter (hasTimestamp ts) seen).

Lemma tsCounted_snoc counts seen ev :
  tsCounted counts seen →
  tsCounted (<[ObservationTimestampNanoseconds ev.2 := S (default 0 (counts !! ObservationTimestampNanoseconds ev.2))]> counts) (seen ++ [ev]).
Proof.
  intros Hc ts. rewrite filter_app length_app filter_cons filter_nil /hasTimestamp. case_decide as Hd.
  - rewrite Hd lookup_insert_eq /= Hc /hasTimestamp. lia.
  - rewrite lookup_insert_ne // Hc /hasTimestamp /=. lia.
Qed.

Lemma countTimestamps_quorum f counts seen events t :
  tsCounted counts seen → countTimestamps f counts events = Ok t →
  ∃ ts, t = wrapS 64 ts ∧ f + 1 ≤ length (filter (hasTimestamp ts) (seen ++ events)).
Proof.
  revert counts seen. induction events as [|[n e] events IH]; intros counts seen Hc; cbn [countTimestamps]; [done|].
  pose proof (tsCounted_snoc _ _ (n, e) Hc) as Hc'. cbn [snd] in Hc'. case_decide as Hd.
  - intros [= <-]. exists (ObservationTimestampNanoseconds e). split; [done|].
    rewrite Hc' in Hd. rewrite (cons_middle (n, e)) assoc filter_app length_app. lia.
  - intros Hok. rewrite (cons_middle (n, e)) assoc. by eapply IH.
Qed.

Lemma countTimestamps_ok f counts seen events ts :
  tsCounted counts seen → length (filter (hasTimestamp ts) seen) < f + 1 →
  f + 1 ≤ length (filter (hasTimestamp ts) (seen ++ events)) → ∃ t, countTimestamps f counts events = Ok t.
Proof.
  revert counts seen. induction events as [|[n e] events IH]; intros counts seen Hc Hs Hq; cbn [countTimestamps]; [rewrite app_nil_r in Hq; lia|].
  pose proof (tsCounted_snoc _ _ (n, e) Hc) as Hc'. cbn [snd] in Hc'. case_decide as Hd; [by eexists|].
  rewrite (cons_middle (n, e)) assoc in Hq. eapply IH; [exact Hc'| |exact Hq].
  rewrite filter_app length_app filter_cons filter_nil. case_decide as Hd'; cbn; [|lia].
  rewrite Hc' in Hd. rewrite /hasTimestamp /= in Hd'. rewrite Hd' filter_app length_app filter_cons filter_nil decide_True // in Hd.
  cbn in Hd. lia.
Qed.

(** *** Prices *)

(** The prices an event names, as the loop keys them. *)
Definition entryOf (p : option LLOStreamDecimal) : option (Z * string) :=
  p ← p; d ← dUnmarshalBinary (Decimal p); Some (StreamID p, dString d).
Definition entries (e : LLOStreamsTriggerEvent) : list (Z * string) := omap entryOf (Payload e).
Definition payloads (ts : Z) (events : list (nat * LLOStreamsTriggerEvent)) : list (option LLOStreamDecimal) :=
  mjoin ((λ ev, Payload ev.2) <$> filter (hasTimestamp ts) events).

Lemma countEvents_flat ts acc events :
  ofold (countEvent ts) acc events = ofold countPrice acc (payloads ts events).
Proof.
  revert acc. induction events as [|ev events IH]; intros acc; [done|]. rewrite /payloads filter_cons. cbn [ofold].
  rewrite {1}/countEvent. destruct (decide (hasTimestamp ts ev)) as [Ht|Ht]; rewrite /hasTimestamp in Ht.
  - rewrite decide_False; [|by intros []]. cbn. rewrite ofold_app. destruct (ofold countPrice acc (Payload ev.2)); cbn; [apply IH|done..].
  - rewrite decide_True //. apply IH.
Qed.

Definition priceCounted (ids : list Z) (acc : gmap Z (gmap string nat)) (seen : list (option LLOStreamDecimal)) : Prop :=
  ∀ id, match acc !! id with
        | None => id ∉ ids
        | Some c => id ∈ ids ∧ ∀ s, default 0 (c !! s) = length (filter (λ e, e = (id, s)) (omap entryOf seen))
        end.

Lemma priceCounted_empty ids : priceCounted ids (emptyCandidates ids) [].
Proof.
  intros id. rewrite /emptyCandidates. destruct (list_to_map _ !! id) as [c|] eqn:E.
  - apply elem_of_list_to_map_2 in E. apply list_elem_of_fmap in E as (id' & [= -> ->] & Hid). split; [done|]. intros s. by rewrite lookup_empty.
  - apply not_elem_of_list_to_map_2 in E. intros Hid. apply E. rewrite -list_fmap_compose. apply list_elem_of_fmap. by exists id.
Qed.

Lemma entries_snoc k seen p :
  length (filter (λ e, e = k) (omap entryOf (seen ++ [p]))) =
  length (filter (λ e, e = k) (omap entryOf seen)) + (if decide (entryOf p = Some k) then 1 else 0).
Proof.
  rewrite omap_app filter_app length_app. f_equal. cbn [omap list_omap].
  destruct (entryOf p) as [k'|]; [|done]. rewrite filter_cons filter_nil.
  destruct (decide (k' = k)), (decide (Some k' = Some k)); naive_solver.
Qed.

Lemma priceCounted_step ids acc seen p acc' :
  priceCounted ids acc seen → countPrice acc p = Ok acc' → priceCounted ids acc' (seen ++ [p]).
Proof.
  intros Hc Hp id. specialize (Hc id). destruct p as [p|]; [|done].
  assert (∀ c, acc !! id = Some c → entryOf (Some p) = None ∨ StreamID p ≠ id → acc' !! id = Some c →
          match acc' !! id with
          | None => id ∉ ids
          | Some c => id ∈ ids ∧ ∀ s, default 0 (c !! s) = length (filter (λ e, e = (id, s)) (omap entryOf (seen ++ [Some p])))
          end) as Hsame.
  { intros c Hac He ->. rewrite Hac in Hc. destruct Hc as [Hid Hc]. split; [done|]. intros s. rewrite Hc entries_snoc decide_False; [lia|].
    intros Hk. destruct He as [He|He]; [congruence|]. apply He. cbn in Hk. destruct (dUnmarshalBinary (Decimal p)); naive_solver. }
  cbn in Hp. destruct (acc !! StreamID p) as [c|] eqn:Ec.
  - destruct (dUnmarshalBinary (Decimal p)) as [d|] eqn:Ed; simplify_eq.
    + destruct (decide (id = StreamID p)) as [->|Hne].
      * rewrite lookup_insert_eq. rewrite Ec in Hc. destruct Hc as [Hid Hc]. split; [done|]. intros s.
        rewrite entries_snoc. cbn [entryOf mbind option_bind]. rewrite Ed. cbn [mbind option_bind].
        destruct (decide (s = dString d)) as [->|Hs]; [rewrite lookup_insert_eq decide_True // /= Hc; lia|].
        rewrite lookup_insert_ne // Hc decide_False; [lia|congruence].
      * destruct (acc !! id) as [c'|] eqn:Ei; [|by rewrite lookup_insert_ne // Ei].
        apply (Hsame c'); [done|right; congruence|by rewrite lookup_insert_ne].
    + destruct (acc' !! id) as [c'|] eqn:Ei; [|done]. apply (Hsame c'); [done|left; by rewrite /= Ed|done].
  - simplify_eq. destruct (acc' !! id) as [c'|] eqn:Ei; [|done].
    apply (Hsame c'); [done|right; congruence|done].
Qed.

Lemma countPrices_counted ids acc seen ps acc' :
  priceCounted ids acc seen → ofold countPrice acc ps = Ok acc' → priceCounted ids acc' (seen ++ ps).
Proof.
  revert acc seen. induction ps as [|p ps IH]; intros acc seen Hc Hp; cbn [ofold] in Hp; [simplify_eq; by rewrite app_nil_r|].
  inv_ok. rewrite (cons_middle p) assoc. eapply IH; [|exact Hp]. by eapply priceCounted_step.
Qed.

Lemma countPrices_ok acc ps : Forall is_Some ps → ∃ acc', ofold countPrice acc ps = Ok acc'.
Proof.
  revert acc. induction ps as [|p ps IH]; intros acc Hp; cbn [ofold]; [by eexists|]. apply Forall_cons in Hp as [[q ->] Hp].
  assert (∃ acc', countPrice acc (Some q) = Ok acc') as [acc' ->]; [|by apply IH].
  cbn. destruct (acc !! StreamID q), (dUnmarshalBinary (Decimal q)); by eexists.
Qed.

(** Under distinct entries, a price is counted once per event that names it. *)
Definition names (k : Z * string) (ev : nat * LLOStreamsTriggerEvent) : Prop := k ∈ entries ev.2.
#[export] Instance names_dec k ev : Decision (names k ev) := ltac:(unfold names; apply _).

Lemma occurrences_events k ts events :
  Forall (λ ev, NoDup (entries ev.2)) events →
  length (filter (λ e, e = k) (omap entryOf (payloads ts events))) =
  length (filter (λ ev, hasTimestamp ts ev ∧ names k ev) events).
Proof.
  induction 1 as [|ev events Hnd _ IH]; [done|]. rewrite /payloads !filter_cons.
  destruct (decide (hasTimestamp ts ev)) as [Ht|Ht]; [|destruct (decide (_ ∧ _)) as [[? _]|_]; [done|exact IH]].
  cbn [fmap list_fmap mjoin list_join]. rewrite omap_app filter_app length_app.
  change (length (filter (λ e, e = k) (omap entryOf (mjoin ((λ ev, Payload ev.2) <$> filter (hasTimestamp ts) events)))))
    with (length (filter (λ e, e = k) (omap entryOf (payloads ts events)))). rewrite IH.
  change (omap entryOf (Payload ev.2)) with (entries ev.2). rewrite /names. rewrite (length_filter_eq _ _ Hnd).
  destruct (decide (k ∈ entries ev.2)), (decide (hasTimestamp ts ev ∧ k ∈ entries ev.2)); naive_solver.
Qed.

(** *** Agreement of the honest nodes *)

(** At most [f] events are from faulty nodes, more than [f] honest nodes have
    sent the same event, and no event names a stream twice. *)
Record agreed (events : gmap nat LLOStreamsTriggerEvent) (honest : gset nat) (f : nat) (e : LLOStreamsTriggerEvent) : Prop := {
  agreed_faulty : length (filter (λ ev, ev.1 ∉ honest) (map_to_list events)) ≤ f;
  agreed_honest : f + 1 ≤ length (filter (λ ev, ev.1 ∈ honest) (map_to_list events));
  agreed_same n e' : events !! n = Some e' → n ∈ honest → e' = e;
  agreed_clean n e' : events !! n = Some e' → Forall is_Some (Payload e') ∧ NoDup (entries e').*1;
  agreed_width : inU 64 (ObservationTimestampNanoseconds e)
}.

Section agreement.
Context (events : gmap nat LLOStreamsTriggerEvent) (honest : gset nat) (f : nat) (e : LLOStreamsTriggerEvent).
Context (Hagreed : agreed events honest f e) (O : RangeOrder (nat * LLOStreamsTriggerEvent)).
Context (P : nat * LLOStreamsTriggerEvent → Prop) `{∀ ev, Decision (P ev)}.

(** What more than [f] events say, the honest nodes say, and conversely. *)
Lemma quorum_of_honest : (∀ n, P (n, e)) → f + 1 ≤ length (filter P (range_map O events)).
Proof.
  intros HP. etransitivity; [apply (agreed_honest _ _ _ _ Hagreed)|]. rewrite range_map_perm. apply length_filter_mono.
  intros [n e'] Hin Hn. apply elem_of_map_to_list in Hin. by rewrite (agreed_same _ _ _ _ Hagreed n e' Hin Hn).
Qed.

Lemma honest_of_quorum : f + 1 ≤ length (filter P (range_map O events)) → ∃ n, P (n, e).
Proof.
  intros Hq. destruct (pigeonhole (filter P (range_map O events)) (range_map O events)
                        (filter (λ ev, ev.1 ∈ honest) (map_to_list events)) (filter (λ ev, ev.1 ∉ honest) (map_to_list events)))
    as ([n e'] & Hp & Hh).
  - apply sublist_submseteq, sublist_filter.
  - by rewrite filter_split range_map_perm.
  - pose proof (agreed_faulty _ _ _ _ Hagreed). lia.
  - apply list_elem_of_filter in Hp as [Hp _]. apply list_elem_of_filter in Hh as [Hn Hin]. apply elem_of_map_to_list in Hin.
    exists n. by rewrite -(agreed_same _ _ _ _ Hagreed n e' Hin Hn).
Qed.
End agreement.

(** The price of a stream in an event. *)
Definition eventPrice (e : LLOStreamsTriggerEvent) (id : Z) : option D :=
  match filter (λ k, k.1 = id) (entries e) with
  | [] => None
  | k :: _ => Some (default dZeroValue (NewFromString k.2))
  end.

Lemma eventPrice_spec e id s :
  NoDup (entries e).*1 → (id, s) ∈ entries e → eventPrice e id = Some (default dZeroValue (NewFromString s)).
Proof.
  intros Hnd Hin. rewrite /eventPrice. destruct (filter _ _) as [|[id' s'] l] eqn:El.
  - by eapply (filter_nil_not_elem_of _ _ (id, s)) in El.
  - assert ((id', s') ∈ filter (λ k : Z * string, k.1 = id) (entries e)) as Hin' by (rewrite El; set_solver).
    apply list_elem_of_filter in Hin' as [Hid Hin']. cbn in Hid. subst id'. do 2 f_equal.
    cbn. f_equal. by eapply NoDup_fst_inj.
Qed.

Lemma eventPrice_None e id : (∀ s, (id, s) ∉ entries e) → eventPrice e id = None.
Proof.
  intros Hn. rewrite /eventPrice. destruct (filter _ _) as [|[id' s'] l] eqn:El; [done|]. exfalso.
  assert ((id', s') ∈ filter (λ k : Z * string, k.1 = id) (entries e)) as Hin' by (rewrite El; set_solver).
  apply list_elem_of_filter in Hin' as [Hid Hin']. cbn in Hid. subst id'. by apply (Hn s').
Qed.

Section honest_prices.
Context (events : gmap nat LLOStreamsTriggerEvent) (honest : gset nat) (f : nat) (e : LLOStreamsTriggerEvent).
Context (Hagreed : agreed events honest f e).

Lemma agreed_nonempty : ∃ n, events !! n = Some e.
Proof.
  pose proof (agreed_honest _ _ _ _ Hagreed) as Hh. destruct (filter _ _) as [|[n e'] l] eqn:El; [cbn in Hh; lia|].
  assert ((n, e') ∈ filter (λ ev : nat * LLOStreamsTriggerEvent, ev.1 ∈ honest) (map_to_list events)) as Hin by (rewrite El; set_solver).
  apply list_elem_of_filter in Hin as [Hn Hin]. apply elem_of_map_to_list in Hin. exists n.
  by rewrite -(agreed_same _ _ _ _ Hagreed n e' Hin Hn).
Qed.

Lemma agreed_NoDup : NoDup (entries e).*1.
Proof. destruct agreed_nonempty as [n Hn]. apply (agreed_clean _ _ _ _ Hagreed n e Hn). Qed.

Lemma agreed_timestamp O :
  getObservationTimestamp O events f = Ok (wrapS 64 (ObservationTimestampNanoseconds e)).
Proof.
  assert (tsCounted ∅ []) as Hempty by (intros ts; by rewrite lookup_empty).
  destruct (countTimestamps_ok f ∅ [] (range_map O events) (ObservationTimestampNanoseconds e)) as [t Ht];
    [done|cbn; lia|cbn; by apply (quorum_of_honest _ _ _ _ Hagreed)|].
  rewrite /getObservationTimestamp Ht. apply (countTimestamps_quorum _ _ [] _ _ Hempty) in Ht as (ts & -> & Hq).
  cbn in Hq. apply (honest_of_quorum _ _ _ _ Hagreed) in Hq as [n Hn]. by rewrite /hasTimestamp /= in Hn; subst.
Qed.

Lemma agreed_counts O ids :
  ∃ counts, ofold (countEvent (ObservationTimestampNanoseconds e)) (emptyCandidates ids) (range_map O events) = Ok counts ∧
    ∀ id, match counts !! id with
          | None => id ∉ ids
          | Some c => id ∈ ids ∧ ∀ s, f + 1 ≤ default 0 (c !! s) ↔ (id, s) ∈ entries e
          end.
Proof.
  rewrite countEvents_flat. destruct (countPrices_ok (emptyCandidates ids) (payloads (ObservationTimestampNanoseconds e) (range_map O events))) as [counts Hc].
  { apply Forall_join, Forall_fmap, Forall_forall. intros [n e'] Hin. apply list_elem_of_filter in Hin as [_ Hin].
    apply elem_of_range_map in Hin. apply (agreed_clean _ _ _ _ Hagreed n e' Hin). }
  exists counts. split; [done|]. intros id. pose proof (countPrices_counted _ _ [] _ _ (priceCounted_empty ids) Hc id) as Hcnt.
  destruct (counts !! id) as [c|]; [|done]. destruct Hcnt as [Hid Hcnt]. split; [done|]. intros s.
  rewrite Hcnt app_nil_l occurrences_events.
  2: { apply Forall_forall. intros [n e'] Hin. apply elem_of_range_map in Hin. eapply NoDup_fmap_1, (agreed_clean _ _ _ _ Hagreed n e' Hin). }
  split.
  - intros Hq. apply (honest_of_quorum _ _ _ _ Hagreed) in Hq as [n [_ Hn]]. done.
  - intros Hin. by apply (quorum_of_honest _ _ _ _ Hagreed).
Qed.

Lemma lloStreamPrices_agreed O ids :
  ∃ prices, lloStreamPrices O ids events f = Ok (wrapS 64 (ObservationTimestampNanoseconds e), prices) ∧
    ∀ id, prices !! id = if decide (id ∈ ids) then eventPrice e id else None.
Proof.
  rewrite /lloStreamPrices agreed_timestamp obind_ok wrapU_wrapS // wrapU_small; [|apply (agreed_width _ _ _ _ Hagreed)].
  destruct (agreed_counts (eventOrder O) ids) as (counts & -> & Hc). rewrite obind_ok. eexists. split; [done|]. intros id.
  rewrite map_lookup_imap. specialize (Hc id). destruct (counts !! id) as [c|]; cbn; [|by rewrite decide_False].
  destruct Hc as [Hid Hc]. rewrite decide_True // /quorumPrice.
  assert (∀ s k, (s, k) ∈ filter (λ kv : string * nat, f + 1 ≤ kv.2) (range_map (priceOrder O id) c) ↔ c !! s = Some k ∧ (id, s) ∈ entries e) as Hf.
  { intros s k. rewrite list_elem_of_filter elem_of_range_map -Hc. cbn. split; intros [Ha Hb]; split; try done; [by rewrite Hb|by rewrite Ha in Hb]. }
  destruct (filter _ _) as [|[s k] l] eqn:El.
  - symmetry. apply eventPrice_None. intros s Hin. pose proof (proj2 (Hc s) Hin) as Hk.
    destruct (c !! s) as [k|] eqn:Es; [|cbn in Hk; lia]. destruct (not_elem_of_nil (s, k)). by apply Hf.
  - destruct (proj1 (Hf s k)) as [_ Hin]; [set_solver|]. symmetry. apply eventPrice_spec; [apply agreed_NoDup|done].
Qed.
End honest_prices.

(** *** The round *)

Section round.
Context (config : parsedLLOAggregatorConfig D) (ts : Z) (prices : gmap Z D).

Definition decisionFor (state : gmap Z LLOStreamInfo) (id : Z) : decision :=
  match state !! id with Some info => decideStream config ts prices info id | None => Nothing end.

Definition isMust (d : decision) : bool := match d with Must (Some _) => true | _ => false end.
Definition isMaybe (d : decision) : bool := match d with Maybe => true | _ => false end.
Definition newInfo (d : decision) (info : LLOStreamInfo) : LLOStreamInfo :=
  match d with Must m => mkInfo ts (default [] m) | _ => info end.

Lemma streamsLoop_spec state l st :
  NoDup l → (∀ id, id ∈ l → is_Some (state !! id) ∧ streamInfo st !! id = state !! id) →
  let st' := foldl (streamStep config ts prices) st l in
  mustUpdateIDs st' = mustUpdateIDs st ++ filter (λ id, isMust (decisionFor state id)) l ∧
  maybeUpdateIDs st' = maybeUpdateIDs st ++ filter (λ id, isMaybe (decisionFor state id)) l ∧
  ∀ id, streamInfo st' !! id =
        if decide (id ∈ l) then newInfo (decisionFor state id) <$> state !! id else streamInfo st !! id.
Proof.
  revert st. induction l as [|id l IH]; intros st Hnd Hst; [cbn; rewrite !app_nil_r; split_and!; try done; intros; by rewrite decide_False; [|set_solver]|].
  apply NoDup_cons in Hnd as [Hid Hnd]. destruct (Hst id) as [[info Hinfo] Hsame]; [set_solver|]. rewrite Hinfo in Hsame.
  set (st1 := streamStep config ts prices st id).
  assert (streamInfo st1 !! id = Some (newInfo (decisionFor state id) info) ∧
          (∀ id', id' ≠ id → streamInfo st1 !! id' = streamInfo st !! id') ∧
          mustUpdateIDs st1 = mustUpdateIDs st ++ (if isMust (decisionFor state id) then [id] else []) ∧
          maybeUpdateIDs st1 = maybeUpdateIDs st ++ (if isMaybe (decisionFor state id) then [id] else [])) as (H1' & H2' & H3' & H4').
  { rewrite /st1 /streamStep Hsame /decisionFor Hinfo.
    destruct (decideStream config ts prices info id) as [|[m|]| |]; cbn; rewrite ?app_nil_r ?lookup_insert_eq;
      split_and!; try done; intros; by rewrite lookup_insert_ne. }
  destruct (IH st1 Hnd) as (I1 & I2 & I3).
  { intros id' Hin. destruct (Hst id') as [Hs Hs']; [set_solver|]. split; [done|]. rewrite H2' //. set_solver. }
  cbn [foldl]. split_and!.
  - rewrite I1 H3' filter_cons -assoc. by destruct (isMust (decisionFor state id)).
  - rewrite I2 H4' filter_cons -assoc. by destruct (isMaybe (decisionFor state id)).
  - intros id'. rewrite I3. destruct (decide (id' = id)) as [->|Hne].
    + rewrite decide_False // decide_True; [|set_solver]. by rewrite H1' Hinfo.
    + destruct (decide (id' ∈ l)), (decide (id' ∈ id :: l)); set_solver.
Qed.
End round.

Lemma sortIDs_perm l : sortIDs l ≡ₚ l.
Proof. apply merge_sort_Permutation. Qed.

Lemma sortIDs_sorted l : StronglySorted Z.le (sortIDs l).
Proof. apply Sorted_StronglySorted, Sorted_merge_sort; apply _. Qed.

Lemma initializeLLOState_streams config previousOutcome state :
  initializeLLOState config previousOutcome = Ok state → ∀ id, is_Some (state !! id) ↔ is_Some (streams config !! id).
Proof.
  rewrite /initializeLLOState. intros (oldNil & Ho & Hs)%obind_Ok_inv id. destruct oldNil as [old nilMap].
  destruct (dMarshalBinary dZero) as [zero|]; [|done]. destruct (nilMap && _); [done|]. simplify_eq.
  rewrite /stateInit map_lookup_imap. destruct (streams config !! id); naive_solver.
Qed.

Lemma elem_of_stateIDs (state : gmap Z LLOStreamInfo) id : id ∈ sortIDs (map_to_list state).*1 ↔ is_Some (state !! id).
Proof.
  rewrite sortIDs_perm list_elem_of_fmap. split.
  - intros ([id' info] & -> & Hin). apply elem_of_map_to_list in Hin. by eexists.
  - intros [info Hin]. exists (id, info). split; [done|]. by apply elem_of_map_to_list.
Qed.

Lemma NoDup_stateIDs (state : gmap Z LLOStreamInfo) : NoDup (sortIDs (map_to_list state).*1).
Proof. rewrite sortIDs_perm. apply NoDup_fst_map_to_list. Qed.

Lemma must_not_maybe config ts prices state id :
  isMust (decisionFor config ts prices state id) → isMaybe (decisionFor config ts prices state id) → False.
Proof. by destruct (decisionFor config ts prices state id). Qed.

Lemma toUpdate_spec (state : gmap Z LLOStreamInfo) (R1 R2 : Z → bool) st :
  (∀ id, R1 id → R2 id → False) →
  mustUpdateIDs st = filter R1 (sortIDs (map_to_list state).*1) →
  maybeUpdateIDs st = filter R2 (sortIDs (map_to_list state).*1) →
  StronglySorted Z.le (toUpdate st) ∧ NoDup (toUpdate st) ∧
  ∀ id, id ∈ toUpdate st ↔ is_Some (state !! id) ∧ (R1 id ∨ R2 id ∧ ∃ id', is_Some (state !! id') ∧ R1 id').
Proof.
  intros Hdisj Hmust Hmaybe. set (all := sortIDs _) in *.
  assert (∀ id, id ∈ mustUpdateIDs st ↔ is_Some (state !! id) ∧ R1 id) as H1'
    by (intros id; rewrite Hmust list_elem_of_filter elem_of_stateIDs; tauto).
  assert (∀ id, id ∈ maybeUpdateIDs st ↔ is_Some (state !! id) ∧ R2 id) as H2'
    by (intros id; rewrite Hmaybe list_elem_of_filter elem_of_stateIDs; tauto).
  rewrite /toUpdate. destruct (decide (mustUpdateIDs st = [])) as [Hnil|Hne].
  - split; [constructor|]. split; [constructor|]. intros id. rewrite Hnil in H1'. split; [set_solver|].
    intros [Hid [Hr|[_ (id' & Hid' & Hr)]]]; [destruct (not_elem_of_nil id)|destruct (not_elem_of_nil id')]; by apply H1'.
  - split; [apply sortIDs_sorted|]. split.
    + rewrite sortIDs_perm. apply NoDup_app. split_and!.
      * rewrite Hmust. apply NoDup_filter, NoDup_stateIDs.
      * intros id [_ Hr1]%H1' [_ Hr2]%H2'. by eapply Hdisj.
      * rewrite Hmaybe. apply NoDup_filter, NoDup_stateIDs.
    + intros id. rewrite sortIDs_perm elem_of_app H1' H2'. split; [|naive_solver].
      intros [Hm|[Hid Hr]]; [tauto|]. split; [done|]. right. split; [done|].
      destruct (mustUpdateIDs st) as [|id' l]; [done|]. exists id'. apply H1'. set_solver.
Qed.

(** The value of a reported stream. *)
Definition updateValue (config : parsedLLOAggregatorConfig D) (ts : Z) (prices : gmap Z D) (id : Z) : Value :=
  VMap [("StreamID", Some (VInt64 (wrapS 64 id)));
        ("Price", Some (VBigInt (decimalToBigInt (default dZeroValue (prices !! id)))));
        ("Timestamp", Some (VInt64 (wrapS 64 (wrapU 32 (ts / 10 ^ 9)))));
        ("RemappedID", Some (VBytes (remappedID (default zeroFeed (streams config !! id)))))]%string.

Lemma Wrap_updates config ts prices ids :
  Wrap (ASlice (streamUpdate config ts prices <$> ids)) = Ok (Some (VList (Some ∘ updateValue config ts prices <$> ids))).
Proof.
  rewrite Wrap_ASlice. assert (wrapList (streamUpdate config ts prices <$> ids) = Ok (Some ∘ updateValue config ts prices <$> ids)) as ->; [|done].
  induction ids as [|id ids IH]; [done|]. cbn [fmap list_fmap wrapList]. by rewrite IH.
Qed.

(** A round keeps one entry per configured stream.  It updates exactly the
    streams whose heartbeat has passed or whose price has deviated; when there
    is such a stream it reports, in increasing order, those streams and the
    ones close to their heartbeat, whose state it leaves alone; a stream
    without an agreed price is reported with the price zero. *)
Theorem Aggregate_streams config O previousOutcome obs f out :
  Aggregate config O previousOutcome obs f = Ok out →
  ∃ state new ts prices ids,
    initializeLLOState config previousOutcome = Ok state ∧
    lloStreamPrices O (sortIDs (map_to_list state).*1) (extractLLOEvents obs) f = Ok (ts, prices) ∧
    marshalLLO new = Some (Metadata out) ∧
    (∀ id, is_Some (new !! id) ↔ is_Some (streams config !! id)) ∧
    (∀ id info, state !! id = Some info → new !! id = Some (newInfo ts (decideStream config ts prices info id) info)) ∧
    EncodableOutcome out = [("Reports", PList (proto ∘ updateValue config ts prices <$> ids))]%string ∧
    ShouldReport out = negb (bool_decide (ids = [])) ∧ StronglySorted Z.le ids ∧ NoDup ids ∧
    ∀ id, id ∈ ids ↔ ∃ info, state !! id = Some info ∧
      (isMust (decideStream config ts prices info id) ∨
       isMaybe (decideStream config ts prices info id) ∧
         ∃ id' info', state !! id' = Some info' ∧ isMust (decideStream config ts prices info' id')).
Proof.
  rewrite /Aggregate. case_decide; [done|]. intros (state & Hstate & (tsp & Hprices & Hout)%obind_Ok_inv)%obind_Ok_inv.
  destruct tsp as [ts prices]. rewrite /finishRound in Hout. cbv zeta in Hout.
  set (all := sortIDs (map_to_list state).*1) in *. set (st := foldl _ _ all) in Hout.
  assert (∀ id, id ∈ all ↔ is_Some (state !! id)) as Hall by apply elem_of_stateIDs.
  destruct (streamsLoop_spec config ts prices state all (mkRound state [] [])) as (Hmust & Hmaybe & Hinfo);
    [apply NoDup_stateIDs|intros id Hid; by rewrite -Hall|]. fold st in Hmust, Hmaybe, Hinfo.
  destruct (toUpdate_spec state _ _ st (must_not_maybe config ts prices state) Hmust Hmaybe) as (Hsorted & Hnodup & Hids).
  apply obind_Ok_inv in Hout as (stateBytes & Hm & Hout). rewrite Wrap_updates in Hout. cbn in Hout. simplify_eq.
  exists state, (streamInfo st), ts, prices, (toUpdate st). split_and!; try done.
  - destruct (marshalLLO (streamInfo st)); by simplify_eq/=.
  - intros id. rewrite Hinfo -(initializeLLOState_streams _ _ _ Hstate). destruct (decide (id ∈ all)) as [Hin|Hin]; [by rewrite fmap_is_Some|done].
  - intros id info Hi. rewrite Hinfo decide_True; [|by rewrite Hall Hi]. by rewrite Hi /decisionFor Hi.
  - cbn. by rewrite -list_fmap_compose.
  - intros id. rewrite Hids /decisionFor. split.
    + intros [[info Hi] Hd]. exists info. rewrite Hi in Hd. split; [done|]. destruct Hd as [Hd|[Hd (id' & [info' Hi'] & Hd')]]; [by left|right].
      rewrite Hi' in Hd'. naive_solver.
    + intros (info & Hi & Hd). rewrite Hi. split; [done|]. destruct Hd as [Hd|(Hd & id' & info' & Hi' & Hd')]; [by left|right].
      split; [done|]. exists id'. by rewrite Hi'.
Qed.

(** C3: when at most [f] of the events come from faulty nodes, more than [f]
    honest nodes have sent one event, and no event names a stream twice, the
    round is the one of the honest event's timestamp and prices: no faulty
    node, and no iteration order, has any influence. *)
Theorem Aggregate_honest config previousOutcome obs honest f e state :
  agreed (extractLLOEvents obs) honest f e →
  initializeLLOState config previousOutcome = Ok state →
  ∃ prices, (∀ id, prices !! id = if decide (is_Some (streams config !! id)) then eventPrice e id else None) ∧
    ∀ O, Aggregate config O previousOutcome obs f =
         finishRound config state (wrapS 64 (ObservationTimestampNanoseconds e)) prices.
Proof.
  intros Hagreed Hstate. set (ids := sortIDs (map_to_list state).*1).
  assert (size obs ≠ 0) as Hsize.
  { destruct (agreed_nonempty _ _ _ _ Hagreed) as [n Hn]. intros Hobs%map_size_empty_inv. rewrite /extractLLOEvents Hobs in Hn. by rewrite lookup_omap in Hn. }
  destruct (lloStreamPrices_agreed _ _ _ _ Hagreed
              (mkOrders (insertion_order _) (insertion_order _) (λ _, insertion_order _)) ids) as (prices & _ & Hp).
  exists prices. split.
  - intros id. rewrite Hp. pose proof (elem_of_stateIDs state id) as Hid. rewrite (initializeLLOState_streams _ _ _ Hstate) in Hid.
    destruct (decide (id ∈ ids)), (decide (is_Some (streams config !! id))); tauto.
  - intros O. rewrite /Aggregate decide_False // Hstate obind_ok. cbv beta zeta. fold ids.
    destruct (lloStreamPrices_agreed _ _ _ _ Hagreed O ids) as (prices' & -> & Hp').
    assert (prices' = prices) as -> by (apply map_eq; intros id; by rewrite Hp Hp'). done.
Qed.

(** *** Forged prices *)

Lemma filter_all {A} (P : A → Prop) `{∀ x, Decision (P x)} (l : list A) : Forall P l → filter P l = l.
Proof. induction 1 as [|x l Hx _ IH]; [done|]. by rewrite filter_cons decide_True // IH. Qed.

Lemma same_timestamp O events f ts :
  f + 1 ≤ size events → (∀ n e, events !! n = Some e → ObservationTimestampNanoseconds e = ts) →
  getObservationTimestamp O events f = Ok (wrapS 64 ts).
Proof.
  intros Hsize Hts. assert (tsCounted ∅ []) as Hempty by (intros t; by rewrite lookup_empty).
  assert (Forall (hasTimestamp ts) (range_map O events)) as Hall
    by (apply Forall_forall; intros [n e] Hin; apply elem_of_range_map in Hin; by eapply Hts).
  destruct (countTimestamps_ok f ∅ [] (range_map O events) ts) as [t Ht]; [done|cbn; lia| |].
  { rewrite app_nil_l (filter_all _ _ Hall) range_map_perm length_map_to_list. done. }
  rewrite /getObservationTimestamp Ht. apply (countTimestamps_quorum _ _ [] _ _ Hempty) in Ht as (ts' & -> & Hq).
  rewrite app_nil_l in Hq. destruct (filter (hasTimestamp ts') _) as [|ev l] eqn:El; [cbn in Hq; lia|].
  assert (ev ∈ filter (hasTimestamp ts') (range_map O events)) as Hin by (rewrite El; set_solver).
  apply list_elem_of_filter in Hin as [Ht Hin]. rewrite Forall_forall in Hall. specialize (Hall ev Hin).
  rewrite /hasTimestamp in Ht, Hall. by rewrite -Ht Hall.
Qed.

Lemma occurrences_submseteq k ps qs :
  ps ⊆+ qs → length (filter (λ e, e = k) (omap entryOf ps)) ≤ length (filter (λ e, e = k) (omap entryOf qs)).
Proof. intros [l Hl]%submseteq_Permutation. rewrite Hl omap_app filter_app length_app. lia. Qed.

Lemma payloads_submseteq ts (events : list (nat * LLOStreamsTriggerEvent)) ev :
  ev ∈ events → hasTimestamp ts ev → Payload ev.2 ⊆+ payloads ts events.
Proof.
  intros Hin Hts. assert (ev ∈ filter (hasTimestamp ts) events) as Hf by (by apply list_elem_of_filter). rewrite /payloads.
  clear Hin Hts. induction Hf as [ev l|ev ev' l _ IH]; cbn; [by apply submseteq_inserts_r|]. by apply submseteq_inserts_l, IH.
Qed.

Lemma forged_entries p k m :
  entryOf p = Some k → length (filter (λ e, e = k) (omap entryOf (replicate m p))) = m.
Proof. intros Hp. induction m as [|m IH]; [done|]. cbn. rewrite Hp filter_cons decide_True //. cbn. by rewrite IH. Qed.

(** A single node that repeats one entry of its payload [f + 1] times gives
    its own price the quorum, whatever the other nodes report. *)
Theorem one_node_forges_price events f n ts id bs d ids :
  f + 1 ≤ size events → inU 64 ts → id ∈ ids → dUnmarshalBinary bs = Some d →
  (∀ n' e, events !! n' = Some e → ObservationTimestampNanoseconds e = ts ∧ Forall is_Some (Payload e)) →
  (∃ e, events !! n = Some e ∧ replicate (f + 1) (Some (mkStream id bs)) ⊆+ Payload e) →
  ∃ O prices, lloStreamPrices O ids events f = Ok (wrapS 64 ts, prices) ∧
    prices !! id = Some (default dZeroValue (NewFromString (dString d))).
Proof.
  intros Hsize Hw Hid Hd Hev (e & He & Hrep).
  exists (mkOrders (insertion_order _) (insertion_order _) (λ _, keyFirst (dString d))).
  rewrite /lloStreamPrices (same_timestamp _ _ _ ts) //; [|intros n' e' He'; by apply (Hev n')].
  rewrite obind_ok wrapU_wrapS // wrapU_small // countEvents_flat. cbn [eventOrder]. set (ps := payloads ts _).
  destruct (countPrices_ok (emptyCandidates ids) ps) as [counts Hc].
  { apply Forall_join, Forall_fmap, Forall_forall. intros [n' e'] Hin. apply list_elem_of_filter in Hin as [_ Hin].
    apply elem_of_range_map in Hin. by apply (Hev n'). }
  rewrite Hc obind_ok. eexists. split; [done|]. rewrite map_lookup_imap.
  pose proof (countPrices_counted _ _ [] _ _ (priceCounted_empty ids) Hc id) as Hcnt. rewrite app_nil_l in Hcnt.
  destruct (counts !! id) as [c|]; [|done]. destruct Hcnt as [_ Hcnt]. specialize (Hcnt (dString d)).
  assert (f + 1 ≤ default 0 (c !! dString d)) as Hq.
  { rewrite Hcnt -{1}(forged_entries (Some (mkStream id bs)) (id, dString d) (f + 1)); [|by rewrite /entryOf /= Hd].
    apply occurrences_submseteq. etransitivity; [exact Hrep|]. apply (payloads_submseteq ts _ (n, e)); [|by apply (Hev n)].
    by apply elem_of_range_map. }
  cbn [mbind option_bind priceOrder]. rewrite /quorumPrice. destruct (c !! dString d) as [k|] eqn:Ek; [|cbn in Hq; lia].
  destruct (range_map_keyFirst (dString d) c k Ek) as [l ->]. rewrite filter_cons decide_True //.
Qed.
End llo.

(** *** Witnesses *)

Definition demoEntry (v : option Value) : option LLOStreamDecimal :=
  match v with Some (VList [Some (VInt64 id); Some (VBytes bs)]) => Some (mkStream id bs) | _ => None end.

(** Events as pairs, and a state of which only the size is kept. *)
Definition demoWire : LLOWire := {|
  unwrapEvent v := match v with VList [Some (VInt64 ts); Some (VList l)] => Some (mkEvent (demoEntry <$> l) ts) | _ => None end;
  marshalLLO m := Some [byte_of_Z (Z.of_nat (size m))];
  unmarshalLLO _ := Some ∅
|}.

Definition demoOrders : orders := mkOrders (insertion_order _) (insertion_order _) (λ _, insertion_order _).

Definition demoFeed (deviation heartbeat : Z) (remapped : list byte) : FeedConfig Z := mkFeed heartbeat "" "" deviation remapped.

(** Stream 1 deviates, stream 2 is close to its heartbeat, stream 3 is new and
    has no price. *)
Definition demoLLO : parsedLLOAggregatorConfig Z :=
  mkParsed (<[1%Z := demoFeed 0 100 [x01]]> (<[2%Z := demoFeed 0 100 [x02]]> (<[3%Z := demoFeed 0 0 [x03]]> ∅))) fone.

Definition demoPayload : Value :=
  VList [Some (VInt64 (10 ^ 9)); Some (VList [Some (VList [Some (VInt64 1); Some (VBytes [x07])]); Some (VList [Some (VInt64 2); Some (VBytes [])])])].

Definition demoObs : observations := <[0 := [Some demoPayload]]> (<[1 := [Some demoPayload]]> (<[2 := [None]]> ∅)).

Definition demoEvent : LLOStreamsTriggerEvent := mkEvent [Some (mkStream 1 [x07]); Some (mkStream 2 [])] (10 ^ 9).

Section witnesses.
#[local] Existing Instances integerOps integerFormat demoWire.

Definition demoOutcome : AggregationOutcome :=
  mkOutcome [("Reports", PList [
    PMap [("StreamID", PInt64 1); ("Price", PBigInt 1 (bigBytes (7 * 10 ^ 18))); ("Timestamp", PInt64 1); ("RemappedID", PBytes [x01])];
    PMap [("StreamID", PInt64 2); ("Price", PBigInt 0 []); ("Timestamp", PInt64 1); ("RemappedID", PBytes [x02])];
    PMap [("StreamID", PInt64 3); ("Price", PBigInt 0 []); ("Timestamp", PInt64 1); ("RemappedID", PBytes [x03])]])]%string
    [x03] true 0 None "" None.

Lemma demo_runs : Aggregate demoLLO demoOrders None demoObs 1 = Ok demoOutcome.
Proof. by vm_compute. Qed.

Lemma demo_agreed : agreed (extractLLOEvents demoObs) {[0; 1]} 1 demoEvent.
Proof.
  assert (extractLLOEvents demoObs = <[0 := demoEvent]> (<[1 := demoEvent]> ∅)) as Hev by (by vm_compute).
  assert (∀ n e', extractLLOEvents demoObs !! n = Some e' → e' = demoEvent) as Hall.
  { intros n e'. rewrite Hev. by intros [[_ <-]|[_ [[_ <-]|[_ ?]]%lookup_insert_Some]]%lookup_insert_Some. }
  constructor; [by vm_compute; lia|by vm_compute; lia|by intros; eapply Hall| |by rewrite /inU; cbn; lia].
  intros n e' He. rewrite (Hall n e' He). split; [repeat constructor; by eexists|]. by apply (bool_decide_unpack _).
Qed.

Lemma Aggregate_streams_witness :
  Aggregate demoLLO demoOrders None demoObs 1 = Ok demoOutcome ∧
  ∃ new, marshalLLO new = Some (Metadata demoOutcome) ∧ ∀ id, is_Some (new !! id) ↔ is_Some (streams demoLLO !! id).
Proof.
  split; [by vm_compute|]. destruct (Aggregate_streams demoLLO demoOrders None demoObs 1 demoOutcome demo_runs)
    as (state & new & ts & prices & ids & _ & _ & Hm & Hd & _). by exists new.
Defined.

Definition demoState : gmap Z LLOStreamInfo := stateInit demoLLO [] ∅.

Lemma Aggregate_honest_witness :
  agreed (extractLLOEvents demoObs) {[0; 1]} 1 demoEvent ∧
  ∃ prices, (∀ id, prices !! id = if decide (is_Some (streams demoLLO !! id)) then eventPrice demoEvent id else None) ∧
    ∀ O, Aggregate demoLLO O None demoObs 1 = finishRound demoLLO demoState (wrapS 64 (10 ^ 9)) prices.
Proof. split; [exact demo_agreed|]. apply (Aggregate_honest demoLLO None demoObs {[0; 1]} 1 demoEvent demoState demo_agreed). by vm_compute. Defined.

Definition demoForged : gmap nat LLOStreamsTriggerEvent :=
  <[0 := mkEvent [Some (mkStream 1 [x09]); Some (mkStream 1 [x09])] 5]> (<[1 := mkEvent [Some (mkStream 1 [x07])] 5]> ∅).

Lemma one_node_forges_price_witness :
  2 ≤ size demoForged ∧ ∃ O prices, lloStreamPrices O [1%Z] demoForged 1 = Ok (wrapS 64 5, prices) ∧ prices !! 1%Z = Some 9%Z.
Proof.
  split; [by vm_compute; lia|].
  destruct (one_node_forges_price demoForged 1 0 5 1 [x09] 9%Z [1%Z]) as (O & prices & Hp & Hid);
    [by vm_compute; lia|by rewrite /inU; cbn; lia|by constructor|done| | |].
  - rewrite /demoForged. intros n e [[_ <-]|[_ [[_ <-]|[_ ?]]%lookup_insert_Some]]%lookup_insert_Some; [..|done];
      (split; [done|]; repeat constructor; by eexists).
  - eexists. split; [done|]. cbn. done.
  - exists O, prices. split; [exact Hp|]. rewrite Hid. by vm_compute.
Defined.
End witnesses.
End LLOAggregator.
