(* ===== verification/FeedsAggregator.v ===== *)
(** [src/pkg/capabilities/consensus/ocr3/datafeeds/feeds_aggregator.go]: the
    latest validly signed report of each feed is compared with the last
    reported one; feeds that deviate, or whose heartbeat has passed, are
    reported.

    The report codec, mapstructure and the state's protocol-buffer form are
    interfaces.  Every [range] over a map whose order matters takes its own
    order. *)

From Stdlib Require Import SpecFloat.
From S2P Require Import Prelude GoBytes GoStrings Values Consensus DataFeeds.

Module FeedsAggregator.
Import Values Consensus DataFeeds.

Definition addrLen : nat := 20.

(** An entry of [DataFeedsOutcomeMetadata]. *)
Record ReportInfo := mkInfo { InfoTimestamp : Z; InfoPrice : list byte }.

(** mapstructure on a trigger event, of which only the metadata is used, and
    the protocol-buffer form of the state. *)
Class FeedsWire := {
  unwrapMetadata : Value → option TriggerMetadata;
  marshalFeeds : gmap string ReportInfo → option (list byte);
  unmarshalFeeds : list byte → option (gmap string ReportInfo)
}.

(** [aggregatorConfig]; [AllowedPartialStalenessStr] is parsed into
    [AllowedPartialStaleness]. *)
Record aggregatorConfig (D : Type) := mkAggConfig {
  Feeds : gmap string (FeedConfig D);
  AllowedPartialStaleness : float64;
  AllowedPartialStalenessStr : string
}.
Arguments mkAggConfig {D} _ _ _.
Arguments Feeds {D} _.
Arguments AllowedPartialStaleness {D} _.
Arguments AllowedPartialStalenessStr {D} _.

(** The orders of a round's loops over maps. *)
Record orders := mkOrders {
  nodeOrder : RangeOrder (nat * list (option Value));
  signerOrder : RangeOrder (list byte * nat);
  minOrder : RangeOrder (Z * nat);
  eventOrder : RangeOrder (nat * Value)
}.

(** *** Signers *)

Definition extractUniqueSigners (signers : list (list byte)) : option (gset (list byte)) :=
  if forallb (λ s : list byte, bool_decide (length s = addrLen)) signers then Some (list_to_set signers) else None.

(** [m[k]++] *)
Definition incr `{Countable K} (m : gmap K nat) (k : K) : gmap K nat := <[k := S (default 0 (m !! k))]> m.

Record extraction := mkExtraction {
  events : gmap nat Value;
  signers : gmap (list byte) nat;
  mins : gmap Z nat
}.

Section feeds.
Context `{DecimalOps D, DecimalFormat D, ReportCodec, FeedsWire}.

(** What a node contributes: its event, its signers and its minimum. *)
Definition contribution (nodeObservations : list (option Value)) : option (Value * gset (list byte) * Z) :=
  match nodeObservations with
  | [Some v] =>
      meta ← unwrapMetadata v;
      currentNodeSigners ← extractUniqueSigners (Signers meta);
      Some (v, currentNodeSigners, MinRequiredSignatures meta)
  | _ => None
  end.

Definition extractStep (acc : extraction) (node : nat * list (option Value)) : extraction :=
  match contribution node.2 with
  | None => acc
  | Some (v, nodeSigners, minRequired) =>
      mkExtraction (<[node.1 := v]> (events acc)) (foldl incr (signers acc) (elements nodeSigners)) (incr (mins acc) minRequired)
  end.

Definition minStep (f : nat) (minRequired : Z) (kv : Z * nat) : Z :=
  if decide (f + 1 <= kv.2 ∧ (minRequired < kv.1)%Z) then kv.1 else minRequired.

Definition extractSignersAndPayloads (O : orders) (obs : observations) (fConsensus : nat)
    : list (list byte) * Z * gmap nat Value :=
  let x := foldl extractStep (mkExtraction ∅ ∅ ∅) (range_map (nodeOrder O) obs) in
  let allowedSigners := (filter (λ kv, fConsensus + 1 <= kv.2) (range_map (signerOrder O) (signers x))).*1 in
  let minRequired := foldl (minStep fConsensus) 0%Z (range_map (minOrder O) (mins x)) in
  (allowedSigners, minRequired, events x).

(** *** The latest report of each feed *)

Definition latestStep (allowedSigners : list (list byte)) (minRequired : Z) (latest : gmap string FeedReport) (report : FeedReport)
    : gmap string FeedReport :=
  let newer := match latest !! FeedID report with
               | None => true
               | Some l => bool_decide (ObservationTimestamp l < ObservationTimestamp report)%Z
               end in
  if newer && codecValidate report allowedSigners minRequired then <[FeedID report := report]> latest else latest.

Definition latestEvent (allowedSigners : list (list byte)) (minRequired : Z) (latest : gmap string FeedReport) (event : nat * Value)
    : gmap string FeedReport :=
  match codecUnwrap event.2 with
  | None => latest
  | Some reports => foldl (latestStep allowedSigners minRequired) latest reports
  end.

Definition latestReportPerFeed (O : orders) (allowedSigners : list (list byte)) (minRequired : Z) (evs : gmap nat Value)
    : gmap string FeedReport :=
  foldl (latestEvent allowedSigners minRequired) ∅ (range_map (eventOrder O) evs).

(** *** State *)

Definition initializeCurrentState (config : aggregatorConfig D) (previousOutcome : option AggregationOutcome)
    : outcome error (gmap string ReportInfo) :=
  let? old := match previousOutcome with
              | None => Ok ∅
              | Some p => ok_or ErrState (unmarshalFeeds (Metadata p))
              end in
  Ok (map_imap (λ id _, Some (default (mkInfo 0 (bigBytes 0)) (old !! id))) (Feeds config)).

(** *** A round *)

Inductive decision := Skip | Must (report : FeedReport) | Candidate (report : FeedReport).

(** What the loop decides for a feed. *)
Definition decideFeed (config : aggregatorConfig D) (latest : gmap string FeedReport) (info : ReportInfo) (feedID : string) : decision :=
  match NewFeedID feedID with
  | Ok _ =>
      match latest !! feedID with
      | None => Skip
      | Some report =>
          let cfg := default zeroFeed (Feeds config !! feedID) in
          let currDeviation := deviation (be_val (InfoPrice info)) (be_val (BenchmarkPrice report)) in
          let currStaleness := wrapS 64 (ObservationTimestamp report - InfoTimestamp info) in
          if bool_decide (Heartbeat cfg < currStaleness)%Z || fgt currDeviation (dFloat64 (parsedDeviation cfg))
          then Must report
          else if fgt (floatOfZ currStaleness) (fmul (floatOfZ (Heartbeat cfg)) (fsub fone (AllowedPartialStaleness config)))
          then Candidate report else Skip
      end
  | _ => Skip
  end.

Definition infoOf (report : FeedReport) : ReportInfo := mkInfo (ObservationTimestamp report) (BenchmarkPrice report).

Record round := mkRound {
  feedInfo : gmap string ReportInfo;
  reportsNeedingUpdate : list FeedReport;
  candidateIDs : list string
}.

Definition feedStep (config : aggregatorConfig D) (latest : gmap string FeedReport) (st : round) (feedID : string) : round :=
  match feedInfo st !! feedID with
  | None => st
  | Some info =>
      match decideFeed config latest info feedID with
      | Skip => st
      | Must report => mkRound (<[feedID := infoOf report]> (feedInfo st)) (reportsNeedingUpdate st ++ [report]) (candidateIDs st)
      | Candidate _ => mkRound (feedInfo st) (reportsNeedingUpdate st) (candidateIDs st ++ [feedID])
      end
  end.

Definition zeroReport : FeedReport := mkReport "" [] [] [] [] 0.

(** A missing report is the zero value of the struct. *)
Definition candidateStep (latest : gmap string FeedReport) (st : round) (feedID : string) : round :=
  let latestReport := default zeroReport (latest !! feedID) in
  mkRound (<[feedID := infoOf latestReport]> (feedInfo st)) (reportsNeedingUpdate st ++ [latestReport]) (candidateIDs st).

Definition addCandidates (latest : gmap string FeedReport) (st : round) : round :=
  if decide (reportsNeedingUpdate st = []) then st else foldl (candidateStep latest) st (candidateIDs st).

Definition reportValue (config : aggregatorConfig D) (report : FeedReport) : outcome error any :=
  let? feedID := FeedIDBytes (FeedID report) in
  let remapped := remappedID (default zeroFeed (Feeds config !! FeedID report)) in
  Ok (AMap [("FeedID", ABytes feedID);
            ("RawReport", ABytes (FullReport report));
            ("Price", ABigInt (be_val (BenchmarkPrice report)));
            ("Timestamp", AInt KInt64 (ObservationTimestamp report));
            ("RemappedID", ABytes (if decide (remapped = []) then feedID else remapped))]%string).

(** The rest of a round, once the latest reports are known. *)
Definition finishRound (config : aggregatorConfig D) (latest : gmap string FeedReport) (state : gmap string ReportInfo)
    : outcome error AggregationOutcome :=
  let st := addCandidates latest (foldl (feedStep config latest) (mkRound state [] []) (sortFeedIDs (map_to_list state).*1)) in
  let? stateBytes := ok_or ErrMarshalState (marshalFeeds (feedInfo st)) in
  let? toWrap := omapM (reportValue config) (reportsNeedingUpdate st) in
  let? wrapped := map_err (λ _, ErrWrapUpdates) (Wrap (ASlice toWrap)) in
  Ok (mkOutcome [("Reports"%string, Proto wrapped)] stateBytes
                (negb (bool_decide (reportsNeedingUpdate st = []))) 0 None "" None).

Definition Aggregate (config : aggregatorConfig D) (O : orders) (previousOutcome : option AggregationOutcome)
    (obs : observations) (f : nat) : outcome error AggregationOutcome :=
  let '(allowedSigners, minRequiredSignatures, evs) := extractSignersAndPayloads O obs f in
  if decide (0 < size evs ∧ minRequiredSignatures = 0%Z) then Err ErrMinRequired
  else
    let latest := latestReportPerFeed O allowedSigners minRequiredSignatures evs in
    let? state := initializeCurrentState config previousOutcome in
    finishRound config latest state.

(** *** Configuration *)

Definition parseFeed (feedID : string) (cfg : FeedConfig D) : outcome error (FeedConfig D) :=
  let? cfg :=
    if String.eqb (FeedDeviation cfg) "" then Ok cfg
    else
      let? _ := NewFeedID feedID in
      match NewFromString (FeedDeviation cfg) with
      | None => Err ErrParse
      | Some dec => Ok (setParsedDeviation dec cfg)
      end in
  if HasPrefix (RemappedIDHex cfg) "0x" then
    match hexDecode (dropChars 2 (RemappedIDHex cfg)) with
    | None => Err ErrParse
    | Some raw => Ok (setRemappedID raw cfg)
    end
  else Ok cfg.

Definition parseFeedStep (acc : gmap string (FeedConfig D)) (kv : string * FeedConfig D) : outcome error (gmap string (FeedConfig D)) :=
  let? cfg := parseFeed kv.1 kv.2 in Ok (<[kv.1 := cfg]> acc).

(** [ParseConfig], given the unwrapped configuration. *)
Definition ParseConfig (O : RangeOrder (string * FeedConfig D)) (unwrapped : option (aggregatorConfig D)) : outcome error (aggregatorConfig D) :=
  match unwrapped with
  | None => Err ErrUnwrap
  | Some c =>
      let? feeds := ofold parseFeedStep (Feeds c) (range_map O (Feeds c)) in
      if String.eqb (AllowedPartialStalenessStr c) "" then Ok (mkAggConfig feeds (AllowedPartialStaleness c) "")
      else match NewFromString (AllowedPartialStalenessStr c) with
           | None => Err ErrParse
           | Some d => Ok (mkAggConfig feeds (dFloat64 d) (AllowedPartialStalenessStr c))
           end
  end.

(** *** Signers: facts *)

Lemma incr_lookup `{Countable K} (m : gmap K nat) k k' :
  default 0 (incr m k !! k') = default 0 (m !! k') + (if decide (k' = k) then 1 else 0).
Proof.
  rewrite /incr. destruct (decide (k' = k)) as [->|Hne]; [rewrite lookup_insert_eq /=; lia|]. rewrite lookup_insert_ne //; lia.
Qed.

Lemma foldl_incr_lookup `{Countable K} (m : gmap K nat) l k :
  NoDup l → default 0 (foldl incr m l !! k) = default 0 (m !! k) + (if decide (k ∈ l) then 1 else 0).
Proof.
  revert m. induction l as [|x l IH]; intros m Hnd; [destruct (decide (k ∈ [])) as [Hk|_]; [by apply not_elem_of_nil in Hk|cbn; lia]|].
  apply NoDup_cons in Hnd as [Hx Hnd]. cbn [foldl]. rewrite IH // incr_lookup.
  destruct (decide (k = x)) as [Heq|Hne], (decide (k ∈ l)) as [Hl|Hl], (decide (k ∈ x :: l)) as [Hk|Hk];
    rewrite elem_of_cons in Hk; try lia; naive_solver.
Qed.

(** A node names a signer, and a minimum. *)
Definition namesSigner (s : list byte) (node : nat * list (option Value)) : bool :=
  match contribution node.2 with Some c => bool_decide (s ∈ c.1.2) | None => false end.
Definition namesMin (m : Z) (node : nat * list (option Value)) : bool :=
  match contribution node.2 with Some c => bool_decide (m = c.2) | None => false end.

Lemma extract_signers acc nodes s :
  default 0 (signers (foldl extractStep acc nodes) !! s) =
  default 0 (signers acc !! s) + length (filter (λ n, namesSigner s n) nodes).
Proof.
  revert acc. induction nodes as [|n nodes IH]; intros acc; [cbn; lia|]. cbn [foldl]. rewrite IH filter_cons /extractStep /namesSigner.
  destruct (contribution n.2) as [[[v ss] m]|]; cbn -[elements]; [|done]. rewrite foldl_incr_lookup; [|apply NoDup_elements].
  destruct (decide (s ∈ elements ss)) as [Hs|Hs]; rewrite elem_of_elements in Hs.
  - case_decide as Hb; [cbn; lia|]. by destruct Hb; apply bool_decide_pack.
  - case_decide as Hb; [by apply bool_decide_unpack in Hb|cbn; lia].
Qed.

Lemma extract_mins acc nodes m :
  default 0 (mins (foldl extractStep acc nodes) !! m) =
  default 0 (mins acc !! m) + length (filter (λ n, namesMin m n) nodes).
Proof.
  revert acc. induction nodes as [|n nodes IH]; intros acc; [cbn; lia|]. cbn [foldl]. rewrite IH filter_cons /extractStep /namesMin.
  destruct (contribution n.2) as [[[v ss] m']|]; cbn -[incr]; [|done]. rewrite incr_lookup.
  destruct (decide (m = m')) as [->|Hm].
  - case_decide as Hb; [cbn; lia|]. by destruct Hb; apply bool_decide_pack.
  - case_decide as Hb; [by apply bool_decide_unpack in Hb|cbn; lia].
Qed.

Lemma extract_events acc nodes n v :
  events (foldl extractStep acc nodes) !! n = Some v →
  events acc !! n = Some v ∨ ∃ l c, (n, l) ∈ nodes ∧ contribution l = Some c ∧ c.1.1 = v.
Proof.
  revert acc. induction nodes as [|[n' l] nodes IH]; intros acc; [by left|]. cbn [foldl]. intros [Hv|(l' & c & Hin & Hc)]%IH; [|right; exists l', c; set_solver].
  rewrite /extractStep in Hv. destruct (contribution _) as [[[v' ss] m]|] eqn:Hc; [|by left]. cbn in Hv, Hc.
  apply lookup_insert_Some in Hv as [[-> ->]|[_ Hv]]; [|by left]. right. eexists l, _. split; [set_solver|]. by split.
Qed.

Lemma minStep_spec f kvs acc :
  let m := foldl (minStep f) acc kvs in
  m = acc ∨ ∃ k, (m, k) ∈ kvs ∧ f + 1 ≤ k.
Proof.
  revert acc. induction kvs as [|[c k] kvs IH]; intros acc; [by left|]. cbn. rewrite {2 4}/minStep. cbn.
  destruct (IH (minStep f acc (c, k))) as [Heq|(k' & Hin & Hk')]; [|right; exists k'; set_solver].
  rewrite Heq. rewrite /minStep. cbn. case_decide as Hd; [right; exists k; set_solver|by left].
Qed.

(** The agreed signers, and the agreed minimum, are named by more than [f] nodes. *)
Lemma extract_quorum O obs f allowed minRequired evs :
  extractSignersAndPayloads O obs f = (allowed, minRequired, evs) →
  (∀ s, s ∈ allowed → f + 1 ≤ length (filter (λ n, namesSigner s n) (map_to_list obs))) ∧
  (minRequired = 0%Z ∨ f + 1 ≤ length (filter (λ n, namesMin minRequired n) (map_to_list obs))) ∧
  (∀ n v, evs !! n = Some v → ∃ l c, obs !! n = Some l ∧ contribution l = Some c ∧ c.1.1 = v).
Proof.
  rewrite /extractSignersAndPayloads. intros [= <- <- <-]. set (x := foldl extractStep _ _). split_and!.
  - intros s ([s' k] & -> & Hin)%list_elem_of_fmap. apply list_elem_of_filter in Hin as [Hk Hin]. apply elem_of_range_map in Hin.
    pose proof (extract_signers (mkExtraction ∅ ∅ ∅) (range_map (nodeOrder O) obs) s') as Hs. fold x in Hs.
    rewrite Hin in Hs. cbn [signers] in Hs. rewrite lookup_empty range_map_perm in Hs. cbn in Hs, Hk. subst k. exact Hk.
  - destruct (minStep_spec f (range_map (minOrder O) (mins x)) 0%Z) as [Hm|(k & Hin & Hk)]; [by left|].
    apply elem_of_range_map in Hin. set (m := foldl (minStep f) 0%Z _) in *.
    pose proof (extract_mins (mkExtraction ∅ ∅ ∅) (range_map (nodeOrder O) obs) m) as Hs. fold x in Hs.
    rewrite Hin in Hs. cbn [mins] in Hs. rewrite lookup_empty range_map_perm in Hs. cbn in Hs. subst k. right. exact Hk.
  - intros n v Hv. apply extract_events in Hv as [Hv|(l & c & Hin & Hc)]; [cbn in Hv; by rewrite lookup_empty in Hv|].
    exists l, c. by rewrite elem_of_range_map in Hin.
Qed.

(** *** The latest reports: facts *)

Definition reportsOf (evs : list (nat * Value)) : list FeedReport := mjoin ((λ ev, default [] (codecUnwrap ev.2)) <$> evs).

Lemma latest_flat allowed minRequired latest evs :
  foldl (latestEvent allowed minRequired) latest evs = foldl (latestStep allowed minRequired) latest (reportsOf evs).
Proof.
  revert latest. induction evs as [|ev evs IH]; intros latest; [done|]. rewrite /reportsOf. cbn. rewrite foldl_app. rewrite IH.
  f_equal. rewrite /latestEvent. by destruct (codecUnwrap ev.2).
Qed.

Lemma elem_of_reportsOf r evs : r ∈ reportsOf evs ↔ ∃ n v rs, (n, v) ∈ evs ∧ codecUnwrap v = Some rs ∧ r ∈ rs.
Proof.
  rewrite /reportsOf list_elem_of_join. split.
  - intros (l & Hr & ([n v] & -> & Hin)%list_elem_of_fmap). cbn in Hr. destruct (codecUnwrap v) as [rs|] eqn:E; [|set_solver].
    by exists n, v, rs.
  - intros (n & v & rs & Hin & Hc & Hr). exists rs. split; [done|]. apply list_elem_of_fmap. exists (n, v). by rewrite /= Hc.
Qed.

(** What the latest reports are, after the reports [seen]. *)
Definition latestOf (allowed : list (list byte)) (minRequired : Z) (seen : list FeedReport) (latest : gmap string FeedReport) : Prop :=
  (∀ id r, latest !! id = Some r → r ∈ seen ∧ FeedID r = id ∧ codecValidate r allowed minRequired = true) ∧
  (∀ r, r ∈ seen → codecValidate r allowed minRequired = true →
     ∃ r', latest !! FeedID r = Some r' ∧ (ObservationTimestamp r <= ObservationTimestamp r')%Z).

Lemma latestStep_spec allowed minRequired seen latest r :
  latestOf allowed minRequired seen latest →
  latestOf allowed minRequired (seen ++ [r]) (latestStep allowed minRequired latest r).
Proof.
  intros [Hfwd Hbwd]. rewrite /latestStep. cbv zeta.
  assert (∀ r', r' ∈ seen ++ [r] ↔ r' ∈ seen ∨ r' = r) as Hin by (intros; set_solver).
  destruct (codecValidate r allowed minRequired) eqn:Hv; [|rewrite andb_false_r; split; [intros id r' Hl; destruct (Hfwd _ _ Hl); set_solver|]].
  2: { intros r' [Hr| ->]%Hin Hval; [by apply Hbwd|congruence]. }
  rewrite andb_true_r. destruct (match latest !! FeedID r with None => true | Some l => _ end) eqn:Hnew.
  - split.
    + intros id r' [[<- <-]|[Hne Hl]]%lookup_insert_Some; [by rewrite Hin; auto|]. destruct (Hfwd _ _ Hl) as (? & ? & ?). by rewrite Hin; auto.
    + intros r' [Hr| ->]%Hin Hval; [|by exists r; rewrite lookup_insert_eq].
      destruct (decide (FeedID r' = FeedID r)) as [Heq|Hne]; [|rewrite lookup_insert_ne //; by apply Hbwd].
      destruct (Hbwd r' Hr Hval) as (l & Hl & Hle). exists r. rewrite Heq lookup_insert_eq. split; [done|].
      rewrite Heq in Hl. rewrite Hl in Hnew. apply bool_decide_eq_true in Hnew. lia.
  - split.
    + intros id r' Hl. destruct (Hfwd _ _ Hl) as (? & ? & ?). by rewrite Hin; auto.
    + intros r' [Hr| ->]%Hin Hval; [by apply Hbwd|]. destruct (latest !! FeedID r) as [l|] eqn:El; [|done].
      apply bool_decide_eq_false in Hnew. exists l. split; [done|lia].
Qed.

Lemma latestLoop_spec allowed minRequired seen latest rs :
  latestOf allowed minRequired seen latest →
  latestOf allowed minRequired (seen ++ rs) (foldl (latestStep allowed minRequired) latest rs).
Proof.
  revert seen latest. induction rs as [|r rs IH]; intros seen latest Hl; [by rewrite app_nil_r|].
  rewrite (cons_middle r) assoc. by apply IH, latestStep_spec.
Qed.

Lemma latest_spec O allowed minRequired evs :
  latestOf allowed minRequired (reportsOf (range_map (eventOrder O) evs)) (latestReportPerFeed O allowed minRequired evs).
Proof.
  rewrite /latestReportPerFeed latest_flat. apply (latestLoop_spec allowed minRequired []).
  split; [intros id r; by rewrite lookup_empty|set_solver].
Qed.

(** *** The round *)

Section round.
Context (config : aggregatorConfig D) (latest : gmap string FeedReport).

Definition decisionFor (state : gmap string ReportInfo) (id : string) : decision :=
  match state !! id with Some info => decideFeed config latest info id | None => Skip end.

Definition mustReport (d : decision) : option FeedReport := match d with Must r => Some r | _ => None end.
Definition candidateReport (d : decision) : option FeedReport := match d with Candidate r => Some r | _ => None end.

Lemma decideFeed_latest info id r :
  mustReport (decideFeed config latest info id) = Some r ∨ candidateReport (decideFeed config latest info id) = Some r →
  latest !! id = Some r ∧ validateFeedID id = true.
Proof.
  rewrite /decideFeed /NewFeedID. destruct (validateFeedID id); [|by intros []]. destruct (latest !! id) as [r'|]; [|by intros []].
  cbv zeta. destruct (_ || _); [|destruct (fgt _ _)]; cbn; naive_solver.
Qed.

(** The loop over the feeds. *)
Lemma feedsLoop_spec state l st :
  NoDup l → (∀ id, id ∈ l → is_Some (state !! id) ∧ feedInfo st !! id = state !! id) →
  let st' := foldl (feedStep config latest) st l in
  reportsNeedingUpdate st' = reportsNeedingUpdate st ++ omap (λ id, mustReport (decisionFor state id)) l ∧
  candidateIDs st' = candidateIDs st ++ filter (λ id, is_Some (candidateReport (decisionFor state id))) l ∧
  ∀ id, feedInfo st' !! id =
        match (if decide (id ∈ l) then mustReport (decisionFor state id) else None) with
        | Some r => Some (infoOf r)
        | None => feedInfo st !! id
        end.
Proof.
  revert st. induction l as [|id l IH]; intros st Hnd Hst; [cbn; rewrite !app_nil_r; split_and!; done|].
  apply NoDup_cons in Hnd as [Hid Hnd]. destruct (Hst id) as [[info Hinfo] Hsame]; [set_solver|]. rewrite Hinfo in Hsame.
  set (st1 := feedStep config latest st id).
  assert ((feedInfo st1 !! id = match mustReport (decisionFor state id) with Some r => Some (infoOf r) | None => feedInfo st !! id end) ∧
          (∀ id', id' ≠ id → feedInfo st1 !! id' = feedInfo st !! id') ∧
          reportsNeedingUpdate st1 = reportsNeedingUpdate st ++ omap (λ id, mustReport (decisionFor state id)) [id] ∧
          candidateIDs st1 = candidateIDs st ++ filter (λ id, is_Some (candidateReport (decisionFor state id))) [id]) as (J1 & J2 & J3 & J4).
  { rewrite /st1 /feedStep Hsame filter_cons filter_nil /= /decisionFor Hinfo.
    destruct (decideFeed config latest info id) as [|r|r]; cbn; rewrite ?app_nil_r ?lookup_insert_eq;
      split_and!; try done; intros; by rewrite lookup_insert_ne. }
  destruct (IH st1 Hnd) as (I1 & I2 & I3).
  { intros id' Hin. destruct (Hst id') as [Hs Hs']; [set_solver|]. split; [done|]. rewrite J2 //. set_solver. }
  cbn [foldl]. split_and!.
  - rewrite I1 J3 -assoc -omap_app. done.
  - rewrite I2 J4 -assoc -filter_app. done.
  - intros id'. rewrite I3. destruct (decide (id' = id)) as [->|Hne].
    + destruct (decide (id ∈ l)); [done|]. rewrite J1. destruct (decide (id ∈ id :: l)); [done|set_solver].
    + rewrite J2 //. destruct (decide (id' ∈ l)), (decide (id' ∈ id :: l)); set_solver.
Qed.

Lemma candidatesLoop_spec l st :
  let st' := foldl (candidateStep latest) st l in
  reportsNeedingUpdate st' = reportsNeedingUpdate st ++ ((λ id, default zeroReport (latest !! id)) <$> l) ∧
  ∀ id, feedInfo st' !! id = if decide (id ∈ l) then Some (infoOf (default zeroReport (latest !! id))) else feedInfo st !! id.
Proof.
  revert st. induction l as [|id l IH]; intros st; [cbn; by rewrite app_nil_r|]. cbn [foldl].
  destruct (IH (candidateStep latest st id)) as [I1 I2]. split.
  - rewrite I1 /candidateStep. cbn. by rewrite -assoc.
  - intros id'. rewrite I2. cbn. destruct (decide (id' = id)) as [->|Hne].
    + rewrite lookup_insert_eq. destruct (decide (id ∈ l)), (decide (id ∈ id :: l)); set_solver.
    + rewrite lookup_insert_ne //. destruct (decide (id' ∈ l)), (decide (id' ∈ id :: l)); set_solver.
Qed.
End round.

(** *** What a round reports *)

Definition anyMust (config : aggregatorConfig D) (latest : gmap string FeedReport) (state : gmap string ReportInfo) : bool :=
  existsb (λ id, bool_decide (is_Some (mustReport (decisionFor config latest state id)))) (map_to_list state).*1.

(** The report of a feed, if the round has one: the feed must be updated, or is
    a candidate while another must be. *)
Definition roundReport (config : aggregatorConfig D) (latest : gmap string FeedReport) (state : gmap string ReportInfo) (id : string)
    : option FeedReport :=
  match decisionFor config latest state id with
  | Must r => Some r
  | Candidate r => if anyMust config latest state then Some r else None
  | Skip => None
  end.

Lemma elem_of_feedIDs (state : gmap string ReportInfo) id : id ∈ sortFeedIDs (map_to_list state).*1 ↔ is_Some (state !! id).
Proof.
  rewrite sortFeedIDs_perm list_elem_of_fmap. split.
  - intros ([id' info] & -> & Hin). apply elem_of_map_to_list in Hin. by eexists.
  - intros [info Hin]. exists (id, info). split; [done|]. by apply elem_of_map_to_list.
Qed.

Lemma anyMust_spec config latest state :
  anyMust config latest state = negb (bool_decide (omap (λ id, mustReport (decisionFor config latest state id)) (sortFeedIDs (map_to_list state).*1) = [])).
Proof.
  rewrite /anyMust. assert (omap (λ id, mustReport (decisionFor config latest state id)) (sortFeedIDs (map_to_list state).*1) ≡ₚ
    omap (λ id, mustReport (decisionFor config latest state id)) (map_to_list state).*1) as Hp by (by rewrite sortFeedIDs_perm).
  assert (∀ l, existsb (λ id, bool_decide (is_Some (mustReport (decisionFor config latest state id)))) l =
               negb (bool_decide (omap (λ id, mustReport (decisionFor config latest state id)) l = []))) as Hl.
  { induction l as [|id l IH]; [done|]. cbn. rewrite IH. by destruct (mustReport (decisionFor config latest state id)). }
  rewrite Hl. f_equal. apply bool_decide_ext. split; intros Hnil; rewrite Hnil in Hp; [by apply Permutation_nil_r in Hp|by symmetry in Hp; apply Permutation_nil_r in Hp].
Qed.

Lemma round_spec config latest state :
  let st := addCandidates latest (foldl (feedStep config latest) (mkRound state [] []) (sortFeedIDs (map_to_list state).*1)) in
  reportsNeedingUpdate st ≡ₚ omap (roundReport config latest state) (map_to_list state).*1 ∧
  ∀ id, feedInfo st !! id = match roundReport config latest state id with Some r => Some (infoOf r) | None => state !! id end.
Proof.
  cbv zeta. pose proof (anyMust_spec config latest state) as Hany. pose proof (elem_of_feedIDs state) as Hall.
  assert (sortFeedIDs (map_to_list state).*1 ≡ₚ (map_to_list state).*1) as Hperm by apply sortFeedIDs_perm.
  assert (NoDup (sortFeedIDs (map_to_list state).*1)) as Hnd by (rewrite Hperm; apply NoDup_fst_map_to_list).
  rewrite -{2}Hperm. set (all := sortFeedIDs (map_to_list state).*1) in *.
  destruct (feedsLoop_spec config latest state all (mkRound state [] []) Hnd) as (I1 & I2 & I3); [intros id Hid; by rewrite -Hall|].
  set (st := foldl _ _ all) in *. cbn in I1, I2, I3.
  assert (∀ id r, candidateReport (decisionFor config latest state id) = Some r → latest !! id = Some r) as Hlatest.
  { intros id r. rewrite /decisionFor. destruct (state !! id); [|done]. intros Hr. by apply (decideFeed_latest config latest r0 id r); right. }
  assert (∀ id, id ∉ all → decisionFor config latest state id = Skip) as Hout.
  { intros id Hid. rewrite /decisionFor. destruct (state !! id) eqn:E; [|done]. destruct Hid. apply Hall. by rewrite E. }
  rewrite /addCandidates I1. destruct (decide _) as [Hnil|Hne].
  - rewrite Hnil bool_decide_true // in Hany. split.
    + rewrite I1 Hnil. assert (omap (roundReport config latest state) all = omap (λ id, mustReport (decisionFor config latest state id)) all) as ->; [|by rewrite Hnil].
      clear -Hany. induction all as [|id l IH]; [done|]. cbn [omap list_omap]. rewrite IH {1}/roundReport Hany. by destruct (decisionFor config latest state id).
    + intros id. rewrite I3 /roundReport Hany. destruct (decide (id ∈ all)) as [_|Hid]; [by destruct (decisionFor config latest state id)|].
      by rewrite Hout.
  - rewrite bool_decide_false // in Hany. destruct (candidatesLoop_spec latest (candidateIDs st) st) as [J1 J2]. split.
    + rewrite J1 I1 I2. clear -Hany Hlatest. induction all as [|id all IH]; [done|]. cbn [omap list_omap]. rewrite filter_cons.
      assert (roundReport config latest state id = match decisionFor config latest state id with Must r | Candidate r => Some r | Skip => None end) as ->
        by (rewrite /roundReport Hany; by destruct (decisionFor config latest state id)).
      specialize (Hlatest id). case_decide as Hc; destruct (decisionFor config latest state id) as [|r|r]; cbn in *;
        [by destruct Hc|by destruct Hc| |done|by apply Permutation_cons|by destruct Hc; eexists].
      rewrite (Hlatest r) // -Permutation_middle. by apply Permutation_cons.
    + intros id. rewrite J2 I3 I2. specialize (Hlatest id). specialize (Hout id). rewrite /roundReport Hany.
      destruct (decide (id ∈ filter _ all)) as [Hin|Hin]; rewrite list_elem_of_filter in Hin.
      * destruct Hin as [[r Hr] _]. rewrite (Hlatest r Hr). by destruct (decisionFor config latest state id); simplify_eq/=.
      * destruct (decide (id ∈ all)) as [Hid|Hid]; [|by rewrite Hout]. destruct (decisionFor config latest state id) as [|r|r]; [done..|].
        destruct Hin. split; [by eexists|done].
Qed.

(** The value of a report, when its identifier has the bytes [feedID]. *)
Definition reportMap (config : aggregatorConfig D) (report : FeedReport) (feedID : list byte) : Value :=
  let remapped := remappedID (default zeroFeed (Feeds config !! FeedID report)) in
  VMap [("FeedID", Some (VBytes feedID));
        ("RawReport", Some (VBytes (FullReport report)));
        ("Price", Some (VBigInt (be_val (BenchmarkPrice report))));
        ("Timestamp", Some (VInt64 (wrapS 64 (ObservationTimestamp report))));
        ("RemappedID", Some (VBytes (if decide (remapped = []) then feedID else remapped)))]%string.

Definition wrapsReport (config : aggregatorConfig D) (report : FeedReport) (v : pbValue) : Prop :=
  ∃ feedID, FeedIDBytes (FeedID report) = Ok feedID ∧ v = proto (reportMap config report feedID).

Lemma Wrap_reports config reports :
  Forall (λ r, validateFeedID (FeedID r) = true) reports →
  ∃ l vs, omapM (reportValue config) reports = Ok l ∧ Wrap (ASlice l) = Ok (Some (VList vs)) ∧
    Forall2 (wrapsReport config) reports (Proto <$> vs).
Proof.
  induction 1 as [|r reports Hr _ (l & vs & Hl & Hw & Hvs)]; [by exists [], []|].
  destruct (FeedIDBytes_valid _ Hr) as (b & Hb & _).
  assert (reportValue config r = Ok (AMap [("FeedID", ABytes b); ("RawReport", ABytes (FullReport r));
            ("Price", ABigInt (be_val (BenchmarkPrice r))); ("Timestamp", AInt KInt64 (ObservationTimestamp r));
            ("RemappedID", ABytes (if decide (remappedID (default zeroFeed (Feeds config !! FeedID r)) = []) then b
                                   else remappedID (default zeroFeed (Feeds config !! FeedID r))))]%string)) as Hv
    by (by rewrite /reportValue Hb).
  eexists (_ :: l), (Some (reportMap config r b) :: vs). cbn [omapM]. rewrite Hv Hl. split; [done|]. split.
  - rewrite Wrap_ASlice in Hw. rewrite Wrap_ASlice. cbn [wrapList]. destruct (wrapList l) as [ws| |]; cbn in Hw; simplify_eq. done.
  - constructor; [|done]. by exists b.
Qed.

Lemma roundReport_latest config latest state id r :
  roundReport config latest state id = Some r → latest !! id = Some r ∧ validateFeedID id = true ∧ is_Some (state !! id).
Proof.
  rewrite /roundReport /decisionFor. destruct (state !! id) as [info|]; [|done]. intros Hr.
  assert (latest !! id = Some r ∧ validateFeedID id = true) as [H1' H2']; [|naive_solver].
  apply (decideFeed_latest config latest info). destruct (decideFeed config latest info id); [done|by left|right].
  by destruct (anyMust config latest state).
Qed.

Lemma initializeCurrentState_feeds config previousOutcome state :
  initializeCurrentState config previousOutcome = Ok state → ∀ id, is_Some (state !! id) ↔ is_Some (Feeds config !! id).
Proof.
  rewrite /initializeCurrentState. intros (old & _ & Hs)%obind_Ok_inv id. simplify_eq.
  rewrite map_lookup_imap. destruct (Feeds config !! id); naive_solver.
Qed.

(** What a successful round did. *)
Lemma finishRound_inv config O allowed minRequired evs state out :
  let latest := latestReportPerFeed O allowed minRequired evs in
  finishRound config latest state = Ok out →
  ∃ new reports vs,
    marshalFeeds new = Some (Metadata out) ∧
    (∀ id, new !! id = match roundReport config latest state id with Some r => Some (infoOf r) | None => state !! id end) ∧
    reports ≡ₚ omap (roundReport config latest state) (map_to_list state).*1 ∧
    EncodableOutcome out = [("Reports", PList vs)]%string ∧ Forall2 (wrapsReport config) reports vs ∧
    ShouldReport out = negb (bool_decide (reports = [])).
Proof.
  cbv zeta. intros Hout. set (latest := latestReportPerFeed _ _ _ _) in *.
  destruct (latest_spec O allowed minRequired evs) as [Hfwd _]. fold latest in Hfwd.
  rewrite /finishRound in Hout. cbv zeta in Hout.
  destruct (round_spec config latest state) as [Hreports Hnew]. set (st := addCandidates _ _) in *.
  apply obind_Ok_inv in Hout as (bs & Hm & Hout).
  destruct (Wrap_reports config (reportsNeedingUpdate st)) as (l & vs & Hl & Hw & Hvs).
  { rewrite Hreports. apply Forall_forall. intros r (id & _ & Hr)%list_elem_of_omap.
    apply roundReport_latest in Hr as (Hr & Hv & _). apply Hfwd in Hr as (_ & -> & _). done. }
  rewrite Hl obind_ok Hw in Hout. cbn in Hout. simplify_eq.
  exists (feedInfo st), (reportsNeedingUpdate st), (Proto <$> vs). split_and!; try done.
  destruct (marshalFeeds (feedInfo st)); by simplify_eq/=.
Qed.

Lemma Aggregate_inv config O previousOutcome obs f out :
  Aggregate config O previousOutcome obs f = Ok out →
  ∃ allowed minRequired evs state,
    extractSignersAndPayloads O obs f = (allowed, minRequired, evs) ∧ (size evs = 0 ∨ minRequired ≠ 0%Z) ∧
    initializeCurrentState config previousOutcome = Ok state ∧
    finishRound config (latestReportPerFeed O allowed minRequired evs) state = Ok out.
Proof.
  rewrite /Aggregate. destruct (extractSignersAndPayloads O obs f) as [[allowed minRequired] evs].
  destruct (decide _) as [|Hd]; [done|]. intros (state & Hs & Hout)%obind_Ok_inv. exists allowed, minRequired, evs, state.
  split_and!; try done. destruct (decide (minRequired = 0%Z)); [left|by right]. destruct (size evs); [done|]. destruct Hd. split; [lia|done].
Qed.

(** A round keeps one entry per configured feed.  It reports the latest
    report of every feed whose heartbeat has passed or whose price has
    deviated, and, when there is one, of every feed close to its heartbeat;
    the state takes the timestamp and price of exactly what is reported. *)
Theorem Aggregate_feeds config O previousOutcome obs f out :
  Aggregate config O previousOutcome obs f = Ok out →
  ∃ allowed minRequired evs state new reports vs,
    extractSignersAndPayloads O obs f = (allowed, minRequired, evs) ∧ (size evs = 0 ∨ minRequired ≠ 0%Z) ∧
    initializeCurrentState config previousOutcome = Ok state ∧ marshalFeeds new = Some (Metadata out) ∧
    (let report := roundReport config (latestReportPerFeed O allowed minRequired evs) state in
     (∀ id, new !! id = match report id with Some r => Some (infoOf r) | None => state !! id end) ∧
     reports ≡ₚ omap report (map_to_list state).*1) ∧
    (∀ id, is_Some (new !! id) ↔ is_Some (Feeds config !! id)) ∧
    EncodableOutcome out = [("Reports", PList vs)]%string ∧ Forall2 (wrapsReport config) reports vs ∧
    ShouldReport out = negb (bool_decide (reports = [])).
Proof.
  intros (allowed & minRequired & evs & state & Hex & Hmin & Hstate & Hout)%Aggregate_inv.
  apply finishRound_inv in Hout as (new & reports & vs & Hm & Hnew & Hr & He & Hvs & Hs).
  exists allowed, minRequired, evs, state, new, reports, vs. split_and!; try done.
  intros id. rewrite Hnew -(initializeCurrentState_feeds _ _ _ Hstate).
  destruct (roundReport _ _ state id) as [r|] eqn:Er; [|done]. apply roundReport_latest in Er as (_ & _ & Hi). by split.
Qed.

(** C4: with at most [f] faulty nodes, every report of a round is of a configured
    feed, and its signatures were validated against signers that honest nodes
    each vouch for, with a minimum that an honest node names; it comes from the
    event of some node. *)
Theorem reported_vouched config O previousOutcome obs (honest : gset nat) f out :
  length (filter (λ n, n.1 ∉ honest) (map_to_list obs)) ≤ f →
  Aggregate config O previousOutcome obs f = Ok out →
  ∃ reports vs, EncodableOutcome out = [("Reports", PList vs)]%string ∧ Forall2 (wrapsReport config) reports vs ∧
    ∀ r, r ∈ reports → is_Some (Feeds config !! FeedID r) ∧ validateFeedID (FeedID r) = true ∧
      ∃ allowed minRequired, codecValidate r allowed minRequired = true ∧
        (∀ s, s ∈ allowed → ∃ n l, n ∈ honest ∧ obs !! n = Some l ∧ namesSigner s (n, l)) ∧
        (∃ n l, n ∈ honest ∧ obs !! n = Some l ∧ namesMin minRequired (n, l)) ∧
        ∃ n l c rs, obs !! n = Some l ∧ contribution l = Some c ∧ codecUnwrap c.1.1 = Some rs ∧ r ∈ rs.
Proof.
  intros Hfaulty (allowed & minRequired & evs & state & Hex & Hmin & Hstate & Hout)%Aggregate_inv.
  apply finishRound_inv in Hout as (new & reports & vs & _ & _ & Hr & He & Hvs & _). exists reports, vs. split; [done|]. split; [done|].
  apply extract_quorum in Hex as (Hsigners & Hmins & Hevs). destruct (latest_spec O allowed minRequired evs) as [Hfwd _].
  assert (∀ P : nat * list (option Value) → bool, f + 1 ≤ length (filter (λ n, P n) (map_to_list obs)) →
          ∃ n l, n ∈ honest ∧ obs !! n = Some l ∧ P (n, l)) as Hhonest.
  { intros P HP. destruct (pigeonhole (filter (λ n, P n) (map_to_list obs)) (map_to_list obs)
                    (filter (λ n, n.1 ∈ honest) (map_to_list obs)) (filter (λ n, n.1 ∉ honest) (map_to_list obs))) as ([n l] & Hp & Hh);
      [apply sublist_submseteq, sublist_filter|by rewrite filter_split|lia|].
    apply list_elem_of_filter in Hp as [Hp _]. apply list_elem_of_filter in Hh as [Hn Hin]. apply elem_of_map_to_list in Hin. by exists n, l. }
  intros r. rewrite Hr. intros (id & _ & Hid)%list_elem_of_omap. apply roundReport_latest in Hid as (Hid & Hv & Hs).
  apply Hfwd in Hid as (Hin & <- & Hval). rewrite -(initializeCurrentState_feeds _ _ _ Hstate). split; [done|]. split; [done|].
  apply elem_of_reportsOf in Hin as (n & v & rs & Hev & Hrs & Hin). rewrite elem_of_range_map in Hev.
  exists allowed, minRequired. split_and!; [done|by intros s Hsa; apply Hhonest, Hsigners| |].
  - apply Hhonest. destruct Hmins as [Hz|Hq]; [|done]. exfalso. destruct Hmin as [Hsz|Hnz]; [|done].
    apply map_size_empty_inv in Hsz. by rewrite Hsz lookup_empty in Hev.
  - destruct (Hevs n v Hev) as (l & c & Hl & Hc & Hcv). exists n, l, c, rs. by rewrite Hcv.
Qed.

(** The report kept for a feed is a valid one of some event, and no valid
    report of the events is newer. *)
Theorem latest_report_wins O allowed minRequired evs :
  let latest := latestReportPerFeed O allowed minRequired evs in
  (∀ id r, latest !! id = Some r →
     FeedID r = id ∧ codecValidate r allowed minRequired = true ∧
     ∃ n v rs, evs !! n = Some v ∧ codecUnwrap v = Some rs ∧ r ∈ rs) ∧
  (∀ n v rs r, evs !! n = Some v → codecUnwrap v = Some rs → r ∈ rs → codecValidate r allowed minRequired = true →
     ∃ r', latest !! FeedID r = Some r' ∧ (ObservationTimestamp r <= ObservationTimestamp r')%Z).
Proof.
  cbv zeta. destruct (latest_spec O allowed minRequired evs) as [Hfwd Hbwd]. split.
  - intros id r (Hin & Hid & Hval)%Hfwd. split; [done|]. split; [done|]. apply elem_of_reportsOf in Hin as (n & v & rs & Hev & Hrs).
    exists n, v, rs. by rewrite elem_of_range_map in Hev.
  - intros n v rs r Hev Hrs Hin Hval. apply Hbwd; [|done]. apply elem_of_reportsOf. exists n, v, rs. by rewrite elem_of_range_map.
Qed.
End feeds.

(** *** Witnesses *)

(** Events carry the reports; every report is valid, the signer is fixed. *)
Definition demoSigner : list byte := replicate addrLen x01.

Definition demoCodec : ReportCodec := {|
  codecUnwrap v := match v with
                   | VList [Some (VString id); Some (VInt64 ts); Some (VBytes price)] => Some [mkReport id [] [] [] price ts]
                   | _ => None
                   end;
  codecValidate _ allowed minRequired := bool_decide (demoSigner ∈ allowed ∧ minRequired = 1%Z)
|}.

Definition demoWire : FeedsWire := {|
  unwrapMetadata _ := Some (mkMetadata [demoSigner] 1);
  marshalFeeds m := Some [byte_of_Z (Z.of_nat (size m))];
  unmarshalFeeds _ := Some ∅
|}.

Definition demoID : string := FeedIDFromBytes (replicate 32 xab).
Definition demoEvent (ts : Z) (price : list byte) : Value := VList [Some (VString demoID); Some (VInt64 ts); Some (VBytes price)].
Definition demoConfig : aggregatorConfig Z := mkAggConfig (<[demoID := mkFeed 10 "" "" 0%Z []]> ∅) fzero "".
Definition demoOrders : orders := mkOrders (insertion_order _) (insertion_order _) (insertion_order _) (insertion_order _).
Definition reverseOrders : orders := mkOrders (insertion_order _) (insertion_order _) (insertion_order _) (reverse_order _).
Definition demoObs : observations := <[0 := [Some (demoEvent 100 [x05])]]> (<[1 := [Some (demoEvent 90 [x04])]]> (<[2 := [None]]> ∅)).
(** Two valid reports of one second, with different prices. *)
Definition tiedObs : observations := <[0 := [Some (demoEvent 100 [x05])]]> (<[1 := [Some (demoEvent 100 [x06])]]> ∅).

Section witnesses.
#[local] Existing Instances integerOps integerFormat demoCodec demoWire.

Definition demoOutcome (price : byte) : AggregationOutcome :=
  mkOutcome [("Reports", PList [PMap [("FeedID", PBytes (replicate 32 xab)); ("RawReport", PBytes []); ("Price", PBigInt 1 [price]);
    ("Timestamp", PInt64 100); ("RemappedID", PBytes (replicate 32 xab))]])]%string [x01] true 0 None "" None.

Lemma demo_feeds_run : Aggregate demoConfig demoOrders None demoObs 1 = Ok (demoOutcome x05).
Proof. by vm_compute. Qed.

Lemma Aggregate_feeds_witness :
  Aggregate demoConfig demoOrders None demoObs 1 = Ok (demoOutcome x05) ∧
  ∃ new, marshalFeeds new = Some (Metadata (demoOutcome x05)) ∧ ∀ id, is_Some (new !! id) ↔ is_Some (Feeds demoConfig !! id).
Proof.
  split; [exact demo_feeds_run|]. destruct (Aggregate_feeds demoConfig demoOrders None demoObs 1 _ demo_feeds_run)
    as (allowed & minRequired & evs & state & new & reports & vs & _ & _ & _ & Hm & _ & Hd & _). by exists new.
Defined.

Lemma reported_vouched_witness :
  length (filter (λ n, n.1 ∉ ({[0; 2]} : gset nat)) (map_to_list demoObs)) ≤ 1 ∧
  ∃ reports vs, EncodableOutcome (demoOutcome x05) = [("Reports", PList vs)]%string ∧ Forall2 (wrapsReport demoConfig) reports vs.
Proof.
  assert (length (filter (λ n, n.1 ∉ ({[0; 2]} : gset nat)) (map_to_list demoObs)) ≤ 1) as Hf by (by vm_compute; lia).
  split; [exact Hf|]. destruct (reported_vouched demoConfig demoOrders None demoObs {[0; 2]} 1 _ Hf demo_feeds_run) as (reports & vs & He & Hvs & _).
  by exists reports, vs.
Defined.

(** Two valid reports of one feed with the same timestamp: which of them is
    reported depends on the order in which a node iterates over the events, so
    nodes with the same observations may disagree on the outcome. *)
Theorem tie_depends_on_order :
  Aggregate demoConfig demoOrders None tiedObs 1 = Ok (demoOutcome x06) ∧
  Aggregate demoConfig reverseOrders None tiedObs 1 = Ok (demoOutcome x05).
Proof. split; by vm_compute. Qed.
End witnesses.
End FeedsAggregator.
