(* ===== verification/Capability.v ===== *)
(** The consensus capability
    ([src/pkg/capabilities/consensus/ocr3/capability.go]), the transmitter that
    brings a report back to it ([transmitter.go]) and the plugin factory
    ([factory.go]).

    The capability's maps are its [state]; a call holds the lock from beginning
    to end, so it is one step.  Requests and responses become events of
    [RequestHandler].  The factories, the validator, mapstructure and the
    protocol-buffer forms are the interface [Environment]. *)

From Stdlib.Strings Require Import Ascii.
From S2P Require Import Prelude GoBytes GoErrors GoStrings Values RequestStore Consensus RequestHandler ReportingPlugin.

Module Capability.
Import Values.

Abbreviation Aggregator := ReportingPlugin.Aggregator.
Abbreviation Encoder := ReportingPlugin.Encoder.
Abbreviation Id := ReportingPlugin.Id.

(** A [values.Map] is the list of its entries. *)

(** [config] and [inputs] of [models.go]; a nil map or list is [None]. *)
Record config := mkConfig {
  AggregationMethod : string;
  AggregationConfig : option (list (string * option Value));
  EncoderNameOf : string;
  EncoderConfig : option (list (string * option Value));
  ReportID : string;
  RequestTimeoutMS : Z;
  KeyID : string
}.
Record inputs := mkInputs {
  Observations : option Value;
  InputEncoderName : string;
  InputEncoderConfig : option (list (string * option Value))
}.

(** What [Execute] reads from the inputs first. *)
Record methodArgs := mkArgs { Method : string; Transmission : list (string * any); Terminate : bool }.

Definition methodStartRequest : string := "start_request".
Definition methodSendResponse : string := "send_response".
Definition methodHeader : string := "method".
Definition transmissionHeader : string := "transmission".
Definition terminateHeader : string := "terminate".

Class Environment := {
  aggregatorFactory : string → list (string * option Value) → option Aggregator;
  encoderFactory : string → option (list (string * option Value)) → option Encoder;
  ValidateConfig : option (list (string * option Value)) → option config;
  ValidateInputs : option (list (string * option Value)) → option inputs;
  (** [UnwrapTo] on a struct preset with the given values; an error is only
      logged, and leaves what has been decoded so far. *)
  unwrapMethod : option (list (string * option Value)) → methodArgs → methodArgs;
  protoSize : pbValue → Z;
  (** the transmitter's: the structpb message, and [types.ReportInfo], whose id may be nil *)
  unmarshalStruct : list byte → option (list (string * any));
  unmarshalInfo : list byte → option (option Id * bool)
}.

Inductive cerror :=
  | ErrValidateConfig | ErrValidateInputs | ErrAggregatorFactory | ErrEncoderFactory
  | ErrNoAggregator | ErrNoEncoder | ErrTransmission | ErrUnknownMethod (m : string)
  | ErrInfo | ErrReportID | ErrWrapReport | ErrRegistry.

(** *** The capability *)

Record state := mkState {
  aggregators : gmap string Aggregator;
  encoders : gmap string Encoder;
  registeredWorkflowsIDs : gset string;
  requestTimeout : Z                      (* nanoseconds *)
}.

Definition NewCapability (requestTimeout : Z) : state := mkState ∅ ∅ ∅ requestTimeout.

Record RequestMetadata := mkMeta {
  WorkflowID : string;
  WorkflowOwner : string;
  WorkflowExecutionID : string;
  WorkflowName : string;
  WorkflowDonID : Z;
  WorkflowDonConfigVersion : Z
}.

Record CapabilityRequest := mkCapRequest {
  ReqMetadata : RequestMetadata;
  ReqConfig : option (list (string * option Value));
  ReqInputs : option (list (string * option Value))
}.

Section capability.
Context `{Environment}.

(** The state is returned with the error: the calls before it have happened. *)
Definition RegisterToWorkflow (st : state) (workflowID : string) (cfg : option (list (string * option Value)))
    : outcome cerror (state * option cerror) :=
  match ValidateConfig cfg with
  | None => Ok (st, Some ErrValidateConfig)
  | Some c =>
      match AggregationConfig c with
      | None => Panic                                  (* a nil pointer *)
      | Some aggConfig =>
          match aggregatorFactory (AggregationMethod c) aggConfig with
          | None => Ok (st, Some ErrAggregatorFactory)
          | Some agg =>
              let st := mkState (<[workflowID := agg]> (aggregators st)) (encoders st) (registeredWorkflowsIDs st) (requestTimeout st) in
              match encoderFactory (EncoderNameOf c) (EncoderConfig c) with
              | None => Ok (st, Some ErrEncoderFactory)
              | Some encoder =>
                  Ok (mkState (aggregators st) (<[workflowID := encoder]> (encoders st))
                              ({[workflowID]} ∪ registeredWorkflowsIDs st) (requestTimeout st), None)
              end
          end
      end
  end.

Definition GetAggregator (st : state) (workflowID : string) : outcome cerror Aggregator :=
  ok_or ErrNoAggregator (aggregators st !! workflowID).

Definition GetEncoderByWorkflowID (st : state) (workflowID : string) : outcome cerror Encoder :=
  ok_or ErrNoEncoder (encoders st !! workflowID).

Definition GetEncoderByName (encoderName : string) (cfg : option (list (string * option Value))) : outcome cerror Encoder :=
  ok_or ErrEncoderFactory (encoderFactory encoderName cfg).

Definition GetRegisteredWorkflowsIDs (O : RangeOrder string) (st : state) : list string :=
  range_order O (elements (registeredWorkflowsIDs st)).

Definition UnregisterWorkflowID (st : state) (workflowID : string) : state :=
  mkState (aggregators st) (encoders st) (registeredWorkflowsIDs st ∖ {[workflowID]}) (requestTimeout st).

Definition UnregisterFromWorkflow (st : state) (workflowID : string) : state :=
  mkState (delete workflowID (aggregators st)) (delete workflowID (encoders st))
          (registeredWorkflowsIDs st ∖ {[workflowID]}) (requestTimeout st).

Definition setRequestTimeout (st : state) (timeout : Z) : state :=
  mkState (aggregators st) (encoders st) (registeredWorkflowsIDs st) timeout.

(** *** Requests *)

(** The timeout of a request: its own, or the capability's.  Durations wrap. *)
Definition timeoutOf (st : state) (c : config) : Z :=
  if decide (RequestTimeoutMS c ≠ 0)%Z then wrapS 64 (RequestTimeoutMS c * 10 ^ 6) else requestTimeout st.

Definition asValue (m : option (list (string * option Value))) : option Value := VMap <$> m.

(** [now] is the clock's reading and [callbackCh] the new channel. *)
Definition queueRequestForProcessing (st : state) (now : Z) (callbackCh : nat) (metadata : RequestMetadata) (i : inputs) (c : config)
    : RequestStore.Request (option Value) :=
  RequestStore.mkRequest (Observations i) (InputEncoderName i) (asValue (InputEncoderConfig i)) (now + timeoutOf st c)%Z callbackCh
    (WorkflowExecutionID metadata) (WorkflowID metadata) (WorkflowOwner metadata) (WorkflowName metadata)
    (WorkflowDonID metadata) (WorkflowDonConfigVersion metadata) (ReportID c) (KeyID c).

Definition byteSizeOfMap (m : option (list (string * option Value))) : Z :=
  match m with None => 0 | Some m => protoSize (proto (VMap m)) end.

Definition ErrStopExecution : GoErrors.error := ELeaf "__workflow_stop_execution".

(** What [Execute] does before it may block: the message for the handler, and
    whether it then waits for the response. *)
Inductive execution :=
  | Responded (ev : RequestHandler.Response (V := option Value))
  | Waiting (req : RequestStore.Request (option Value)) (inputLenBytes : Z).

Definition Execute (st : state) (now : Z) (callbackCh : nat) (r : CapabilityRequest) : outcome cerror execution :=
  let m := unwrapMethod (ReqInputs r) (mkArgs methodStartRequest [] false) in
  if String.eqb (Method m) methodSendResponse then
    let? inputs := map_err (λ _, ErrTransmission) (Wrap (AMap (Transmission m))) in
    Ok (Responded (RequestHandler.mkResponse (WorkflowExecutionID (ReqMetadata r)) (Some inputs)
                     (if Terminate m then Some ErrStopExecution else None)))
  else if String.eqb (Method m) methodStartRequest then
    let? i := ok_or ErrValidateInputs (ValidateInputs (ReqInputs r)) in
    let inputLenBytes := byteSizeOfMap (ReqInputs r) in
    let? c := ok_or ErrValidateConfig (ValidateConfig (ReqConfig r)) in
    Ok (Waiting (queueRequestForProcessing st now callbackCh (ReqMetadata r) i c) inputLenBytes)
  else Err (ErrUnknownMethod (Method m)).

Record CapabilityResponse := mkCapResponse { RespValue : option (option Value); SpendValue : Z }.

(** The end of a call that waits: what arrives on the callback channel, or
    [None] when the context is done first. *)
Definition finishExecute (inputLenBytes : Z) (response : option (RequestHandler.Response (V := option Value))) (ctxErr : GoErrors.error)
    : CapabilityResponse * option GoErrors.error :=
  match response with
  | None => (mkCapResponse None 0, Some ctxErr)
  | Some response =>
      let outputLenBytes := match RequestHandler.Value response with Some (Some (VMap m)) => byteSizeOfMap (Some m) | _ => 0%Z end in
      (mkCapResponse (RequestHandler.Value response) (wrapS 64 (inputLenBytes + outputLenBytes)), RequestHandler.RespErr response)
  end.

(** *** The transmitter *)

Record SignedReport := mkSigned { Report : list byte; Context_ : list byte; Signatures : list (list byte); SignedID : list byte }.

Definition extractReportInfo (data : list byte) : outcome cerror (option Id * bool) :=
  let? im := ok_or ErrInfo (unmarshalStruct data) in
  match mapGet im "reportInfo" with
  | Some (AString ris) =>
      let? rib := ok_or ErrInfo (base64Decode ris) in
      ok_or ErrInfo (unmarshalInfo rib)
  | _ => Err ErrInfo
  end.

(** The config digest, the sequence number in bytes 27 to 30 of 32, and zeros. *)
Definition reportContext (configDigest : list byte) (seqNr : Z) : list byte :=
  configDigest ++ (replicate 27 x00 ++ be_bytes 4 (wrapU 32 seqNr) ++ [x00]) ++ replicate 32 x00.

Definition signedReportAny (s : SignedReport) : any :=
  APtr (Some (AStruct [("Report", "", true, ABytes (Report s)); ("Context", "", true, ABytes (Context_ s));
                       ("Signatures", "", true, ASlice (ABytes <$> Signatures s)); ("ID", "", true, ABytes (SignedID s))]%string)).

(** The request that [Transmit] executes.  The registry is asked when the
    capability is not known yet. *)
Definition Transmit (known registered : bool) (configDigest : list byte) (seqNr : Z) (report info : list byte) (signatures : list (list byte))
    : outcome cerror CapabilityRequest :=
  let? (id, shouldReport) := extractReportInfo info in
  let? signedReport :=
    if shouldReport then
      match id with
      | None => Panic                                  (* a nil pointer *)
      | Some id =>
          let? reportIDBytes := ok_or ErrReportID (hexDecode (ReportingPlugin.ReportId id)) in
          Ok (mkSigned report (reportContext configDigest seqNr) signatures reportIDBytes)
      end
    else Ok (mkSigned [] [] [] []) in
  let? inputs := map_err (λ _, ErrWrapReport)
    (Wrap (AMap [(methodHeader, AString methodSendResponse); (transmissionHeader, signedReportAny signedReport);
                 (terminateHeader, ABool (negb shouldReport))])) in
  if negb known && negb registered then Err ErrRegistry
  else
    match id, inputs with
    | Some id, Some (VMap inputs) =>
        Ok (mkCapRequest (mkMeta (ReportingPlugin.WorkflowId id) "" (ReportingPlugin.WorkflowExecutionId id) ""
                                 (ReportingPlugin.WorkflowDonId id) 0) None (Some inputs))
    | _, _ => Panic
    end.

(** *** The factory *)

Record ReportingPluginConfig := mkPluginConfig {
  MaxQueryLengthBytes : Z;
  MaxObservationLengthBytes : Z;
  MaxOutcomeLengthBytes : Z;
  MaxReportLengthBytes : Z;
  MaxReportCount : Z;
  MaxBatchSize : Z;
  OutcomePruningThreshold : Z;
  PluginRequestTimeout : option Z         (* nanoseconds *)
}.

Definition defaultMaxPhaseOutputBytes : Z := 1000000.
Definition defaultMaxReportCount : Z := 20.
Definition defaultBatchSize : Z := 20.
Definition defaultOutcomePruningThreshold : Z := 3600.
Definition defaultRequestExpiry : Z := 20 * 10 ^ 9.

Definition orDefault (d z : Z) : Z := if decide (z <= 0)%Z then d else z.

(** The configuration with its defaults, and the capability with its timeout. *)
Definition NewReportingPlugin (st : state) (configProto : ReportingPluginConfig) : ReportingPluginConfig * state :=
  let c := mkPluginConfig
    (orDefault defaultMaxPhaseOutputBytes (MaxQueryLengthBytes configProto))
    (orDefault defaultMaxPhaseOutputBytes (MaxObservationLengthBytes configProto))
    (orDefault defaultMaxPhaseOutputBytes (MaxOutcomeLengthBytes configProto))
    (orDefault defaultMaxPhaseOutputBytes (MaxReportLengthBytes configProto))
    (orDefault defaultMaxReportCount (MaxReportCount configProto))
    (orDefault defaultBatchSize (MaxBatchSize configProto))
    (orDefault defaultOutcomePruningThreshold (OutcomePruningThreshold configProto))
    (Some (default defaultRequestExpiry (PluginRequestTimeout configProto))) in
  (c, setRequestTimeout st (default defaultRequestExpiry (PluginRequestTimeout configProto))).

(** *** Registrations *)

(** A call that changes the capability. *)
Inductive step : state → state → Prop :=
  | step_register st wf cfg st' err : RegisterToWorkflow st wf cfg = Ok (st', err) → step st st'
  | step_unregisterID st wf : step st (UnregisterWorkflowID st wf)
  | step_unregister st wf : step st (UnregisterFromWorkflow st wf)
  | step_timeout st t : step st (setRequestTimeout st t).

Definition usable (st : state) : Prop :=
  ∀ wf, wf ∈ registeredWorkflowsIDs st → is_Some (aggregators st !! wf) ∧ is_Some (encoders st !! wf).

Lemma insert_is_Some `{Countable K} {A} (m : gmap K A) k k' v : is_Some (m !! k') → is_Some (<[k := v]> m !! k').
Proof. intros Hm. destruct (decide (k' = k)) as [->|Hne]; [rewrite lookup_insert_eq; by eexists|by rewrite lookup_insert_ne]. Qed.

Lemma register_usable st wf cfg st' err : usable st → RegisterToWorkflow st wf cfg = Ok (st', err) → usable st'.
Proof.
  intros Hu. rewrite /RegisterToWorkflow. destruct (ValidateConfig cfg) as [c|]; [|by intros; simplify_eq].
  destruct (AggregationConfig c) as [ac|]; [|done]. destruct (aggregatorFactory _ ac) as [agg|]; [|by intros; simplify_eq].
  destruct (encoderFactory _ _) as [enc|]; intros; simplify_eq; intros wf' Hwf'; cbn in *.
  - apply elem_of_union in Hwf' as [->%elem_of_singleton|Hwf'].
    + split; rewrite lookup_insert_eq; by eexists.
    + destruct (Hu _ Hwf'). by split; apply insert_is_Some.
  - destruct (Hu _ Hwf'). split; [by apply insert_is_Some|done].
Qed.

Lemma step_usable st st' : usable st → step st st' → usable st'.
Proof.
  intros Hu Hs. revert Hu. destruct Hs as [st1 wf cfg st2 err Hr|st1 wf|st1 wf|st1 t]; intros Hu; [by eapply register_usable|..]; intros wf' Hwf'; cbn in *; [set_solver| |by apply Hu].
  rewrite !lookup_delete_ne; set_solver.
Qed.

(** C10: after any sequence of calls, failed registrations included, a workflow
    that is advertised as registered has an aggregator and an encoder. *)
Theorem registered_usable t st wf O :
  rtc step (NewCapability t) st → wf ∈ GetRegisteredWorkflowsIDs O st →
  (∃ agg, GetAggregator st wf = Ok agg) ∧ (∃ enc, GetEncoderByWorkflowID st wf = Ok enc).
Proof.
  intros Hreach Hwf. assert (usable st) as Hu.
  { eapply (rtc_ind_r usable); [|by intros; eapply step_usable|exact Hreach]. intros wf'. cbn. set_solver. }
  rewrite /GetRegisteredWorkflowsIDs range_order_perm elem_of_elements in Hwf. destruct (Hu _ Hwf) as [[agg Ha] [enc He]].
  rewrite /GetAggregator /GetEncoderByWorkflowID Ha He. split; by eexists.
Qed.

(** A registration that fails at its encoder has already replaced the
    aggregator: a workflow that was registered before keeps running with the
    new aggregator and the old encoder. *)
Theorem failed_registration_mixes st wf cfg c ac agg :
  wf ∈ registeredWorkflowsIDs st → ValidateConfig cfg = Some c → AggregationConfig c = Some ac →
  aggregatorFactory (AggregationMethod c) ac = Some agg → encoderFactory (EncoderNameOf c) (EncoderConfig c) = None →
  ∃ st', RegisterToWorkflow st wf cfg = Ok (st', Some ErrEncoderFactory) ∧ wf ∈ registeredWorkflowsIDs st' ∧
    GetAggregator st' wf = Ok agg ∧ GetEncoderByWorkflowID st' wf = GetEncoderByWorkflowID st wf.
Proof.
  intros Hwf Hc Hac Hagg Henc. eexists. rewrite /RegisterToWorkflow Hc Hac Hagg Henc. split; [done|]. split; [done|].
  by rewrite /GetAggregator /= lookup_insert_eq.
Qed.

(** *** Reports come back *)

Definition signedFields (s : SignedReport) : list (string * option Value) :=
  [("Report", Some (VBytes (Report s))); ("Context", Some (VBytes (Context_ s)));
   ("Signatures", Some (VList ((λ b, Some (VBytes b)) <$> Signatures s))); ("ID", Some (VBytes (SignedID s)))]%string.

Lemma wrapList_bytes (l : list (list byte)) : wrapList (ABytes <$> l) = Ok ((λ b, Some (VBytes b)) <$> l).
Proof. induction l as [|b l IH]; [done|]. cbn [fmap list_fmap wrapList]. by rewrite IH. Qed.

Lemma Wrap_signedReport s : Wrap (signedReportAny s) = Ok (Some (VMap (signedFields s))).
Proof.
  pose proof (wrapList_bytes (Signatures s)) as Hl. pose proof (Wrap_ASlice (ABytes <$> Signatures s)) as Hw.
  rewrite Hl in Hw. cbn [obind] in Hw. rewrite /signedReportAny. remember (ASlice (ABytes <$> Signatures s)) as a.
  cbn. by rewrite Hw.
Qed.

(** mapstructure fills the struct from a map with exactly its fields. *)
Definition unwrapsMethod : Prop := ∀ m init s terminate,
  unwrapMethod (Some [(methodHeader, Some (VString m)); (transmissionHeader, Some (VMap s)); (terminateHeader, Some (VBool terminate))]) init
  = mkArgs m ((λ kv, (kv.1, UnwrapOpt kv.2)) <$> s) terminate.

(** The structpb message carries the bytes of the info in base64, and
    unmarshalling inverts marshalling. *)
Definition carriesInfo `{ReportingPlugin.PluginWire} : Prop :=
  (∀ key p b, ReportingPlugin.marshalInfoStruct key p = Some b →
     ∃ im, unmarshalStruct b = Some im ∧ mapGet im "reportInfo" = Some (AString (base64Encode p))) ∧
  (∀ i b, ReportingPlugin.marshalInfo i = Some b →
     unmarshalInfo b = Some (Some (ReportingPlugin.InfoId i), ReportingPlugin.InfoShouldReport i)).

Lemma extractReportInfo_marshal `{ReportingPlugin.PluginWire} info key b :
  carriesInfo → ReportingPlugin.marshalReportInfo info key = Some b →
  extractReportInfo b = Ok (Some (ReportingPlugin.InfoId info), ReportingPlugin.InfoShouldReport info).
Proof.
  intros [Hs Hi]. rewrite /ReportingPlugin.marshalReportInfo. destruct (ReportingPlugin.marshalInfo info) as [p|] eqn:Ep; [|done].
  cbn. intros (im & Him & Hri)%Hs. by rewrite /extractReportInfo Him /= Hri /= base64_roundtrip /= (Hi _ _ Ep).
Qed.

Lemma Execute_transmission st now ch meta cfg s terminate :
  unwrapsMethod →
  Execute st now ch (mkCapRequest meta cfg
    (Some [(methodHeader, Some (VString methodSendResponse)); (transmissionHeader, Some (VMap (signedFields s)));
           (terminateHeader, Some (VBool terminate))]))
  = Ok (Responded (RequestHandler.mkResponse (WorkflowExecutionID meta) (Some (Some (VMap (signedFields s))))
                     (if terminate then Some ErrStopExecution else None))).
Proof.
  intros Hu. rewrite /Execute Hu. cbn [Method]. rewrite String.eqb_refl. cbn [Transmission Terminate].
  rewrite Wrap_AMap. assert (wrapEntries ((λ kv, (kv.1, UnwrapOpt kv.2)) <$> signedFields s) = Ok (signedFields s)) as ->; [|done].
  destruct s as [r c sigs i]. pose proof (wrapList_bytes sigs) as Hl. pose proof (Wrap_ASlice (ABytes <$> sigs)) as Hw. rewrite Hl in Hw.
  assert (UnwrapOpt (Some (VList ((λ b, Some (VBytes b)) <$> sigs))) = ASlice (ABytes <$> sigs)) as Hs
    by (cbn [UnwrapOpt Unwrap]; f_equal; by rewrite -list_fmap_compose).
  rewrite /signedFields. cbn [fmap list_fmap fst snd Report Context_ Signatures SignedID]. rewrite Hs. cbn [wrapEntries]. by rewrite Hw.
Qed.

Lemma be_bytes_inj n z z' : be_bytes n z = be_bytes n z' → (z mod 2 ^ (8 * Z.of_nat n) = z' mod 2 ^ (8 * Z.of_nat n))%Z.
Proof. intros Hz. by rewrite -!be_val_bytes Hz. Qed.

(** C11: the report that the plugin hands over comes back to the capability
    unchanged: transmitting it with its info makes the capability send, for the
    execution of the info, the signed report with its context, or, when nothing
    is to be reported, an empty report that terminates the execution. *)
Theorem report_reaches_requester `{ReportingPlugin.PluginWire} st now ch known registered digest seqNr report info key b sigs reportID :
  unwrapsMethod → carriesInfo → ReportingPlugin.marshalReportInfo info key = Some b →
  hexDecode (ReportingPlugin.ReportId (ReportingPlugin.InfoId info)) = Some reportID → known || registered = true →
  ∃ req, Transmit known registered digest seqNr report b sigs = Ok req ∧
    Execute st now ch req = Ok (Responded (
      if ReportingPlugin.InfoShouldReport info
      then RequestHandler.mkResponse (ReportingPlugin.WorkflowExecutionId (ReportingPlugin.InfoId info))
             (Some (Some (VMap (signedFields (mkSigned report (reportContext digest seqNr) sigs reportID))))) None
      else RequestHandler.mkResponse (ReportingPlugin.WorkflowExecutionId (ReportingPlugin.InfoId info))
             (Some (Some (VMap (signedFields (mkSigned [] [] [] []))))) (Some ErrStopExecution))).
Proof.
  intros Hu Hc Hm Hid Hk. rewrite /Transmit (extractReportInfo_marshal _ _ _ Hc Hm) obind_ok.
  assert (negb known && negb registered = false) as -> by (by destruct known, registered).
  assert (∀ s terminate, Wrap (AMap [(methodHeader, AString methodSendResponse); (transmissionHeader, signedReportAny s); (terminateHeader, ABool terminate)])
    = Ok (Some (VMap [(methodHeader, Some (VString methodSendResponse)); (transmissionHeader, Some (VMap (signedFields s))); (terminateHeader, Some (VBool terminate))]))) as HW.
  { intros s terminate. rewrite Wrap_AMap. cbn [wrapEntries]. rewrite Wrap_signedReport. done. }
  destruct (ReportingPlugin.InfoShouldReport info).
  - rewrite Hid. cbn [ok_or obind]. rewrite HW. cbn [map_err obind]. eexists. split; [done|]. by rewrite Execute_transmission.
  - cbn [obind]. rewrite HW. cbn [map_err obind]. eexists. split; [done|]. by rewrite Execute_transmission.
Qed.

(** A report context has 96 bytes, and determines the config digest and the
    sequence number modulo 2^32: of a longer number the high bits are lost. *)
Theorem reportContext_exact d d' n n' :
  length d = 32 → length d' = 32 →
  length (reportContext d n) = 96 ∧
  (reportContext d n = reportContext d' n' ↔ d = d' ∧ wrapU 32 n = wrapU 32 n').
Proof.
  intros Hd Hd'. split; [by rewrite /reportContext !length_app !length_replicate length_be_bytes Hd|]. split; [|by intros [-> Hn]; rewrite /reportContext Hn].
  rewrite /reportContext. intros [Hdd Hrest]%app_inj_1; [|by rewrite Hd]. split; [done|].
  apply app_inj_2 in Hrest as [Hrest _]; [|done]. apply app_inj_1 in Hrest as [_ Hrest]; [|done].
  apply app_inj_2 in Hrest as [Hrest _]; [|done]. apply be_bytes_inj in Hrest.
  change (2 ^ (8 * Z.of_nat 4))%Z with (2 ^ 32)%Z in Hrest. by rewrite /wrapU !Zmod_mod in Hrest.
Qed.
End capability.

(** *** Witnesses *)

#[export] Instance Id_eq_dec : EqDecision Id.
Proof. solve_decision. Defined.
#[export] Instance ReportInfo_eq_dec : EqDecision ReportingPlugin.ReportInfo.
Proof. solve_decision. Defined.

Definition demoId : Id := ReportingPlugin.mkId "exec" "wf" "owner" "name" 7 1 "0f1a" "evm".
Definition demoInfo : ReportingPlugin.ReportInfo := ReportingPlugin.mkReportInfo demoId true.

(** One encoder, "EVM"; the encoder of a configuration is its only field. *)
Definition demoEnv : Environment := {|
  aggregatorFactory m _ := Some (λ _ _ _, Err Consensus.ErrConfig);
  encoderFactory name _ := if String.eqb name "EVM" then Some (λ _, Some []) else None;
  ValidateConfig cfg := match cfg with
                        | Some [(_, Some (VString e))] => Some (mkConfig "identical" (Some []) e None "0f1a" 0 "evm")
                        | _ => None
                        end;
  ValidateInputs _ := None;
  unwrapMethod i init := match i with
                         | Some [(_, Some (VString m)); (_, Some (VMap s)); (_, Some (VBool t))] =>
                             mkArgs m ((λ kv, (kv.1, UnwrapOpt kv.2)) <$> s) t
                         | _ => init
                         end;
  protoSize _ := 0%Z;
  unmarshalStruct b := Some [("reportInfo"%string, AString (base64Encode b))];
  unmarshalInfo b := if decide (b = [x01]) then Some (Some demoId, true) else None
|}.

(** Only [demoInfo] is marshalled. *)
Definition demoWire : ReportingPlugin.PluginWire := {|
  ReportingPlugin.unmarshalQuery _ := None;
  ReportingPlugin.marshalQuery _ := None;
  ReportingPlugin.unmarshalObservations _ := None;
  ReportingPlugin.marshalObservations _ := None;
  ReportingPlugin.unmarshalOutcome _ := None;
  ReportingPlugin.marshalOutcome _ := None;
  ReportingPlugin.marshalInfo i := if decide (i = demoInfo) then Some [x01] else None;
  ReportingPlugin.marshalInfoStruct _ p := Some p
|}.

Definition configFor (e : string) : option (list (string * option Value)) := Some [("encoder"%string, Some (VString e))].

Section witnesses.
#[local] Existing Instances demoEnv demoWire.

Lemma demo_unwraps : unwrapsMethod.
Proof. by intros m init s terminate. Qed.

Lemma demo_carries : carriesInfo.
Proof.
  split; cbn.
  - intros _ p b [= ->]. by eexists.
  - intros i b. destruct (decide (i = demoInfo)) as [->|]; [|done]. by intros [= <-].
Qed.

Definition demoState : state :=
  match RegisterToWorkflow (NewCapability 0) "wf" (configFor "EVM") with Ok (st, _) => st | _ => NewCapability 0 end.

Lemma registered_usable_witness :
  rtc step (NewCapability 0) demoState ∧ "wf"%string ∈ GetRegisteredWorkflowsIDs (insertion_order _) demoState ∧
  (∃ agg, GetAggregator demoState "wf" = Ok agg) ∧ (∃ enc, GetEncoderByWorkflowID demoState "wf" = Ok enc).
Proof.
  assert (rtc step (NewCapability 0) demoState) as Hreach by (by eapply rtc_once, (step_register _ "wf" (configFor "EVM"))).
  assert ("wf"%string ∈ GetRegisteredWorkflowsIDs (insertion_order _) demoState) as Hwf
    by (by apply (bool_decide_unpack _)).
  split; [exact Hreach|]. split; [exact Hwf|]. exact (registered_usable 0 demoState "wf" (insertion_order _) Hreach Hwf).
Defined.

Lemma failed_registration_mixes_witness :
  "wf"%string ∈ registeredWorkflowsIDs demoState ∧
  ∃ st', RegisterToWorkflow demoState "wf" (configFor "none") = Ok (st', Some ErrEncoderFactory) ∧ "wf"%string ∈ registeredWorkflowsIDs st'.
Proof.
  assert ("wf"%string ∈ registeredWorkflowsIDs demoState) as Hwf by (by apply (bool_decide_unpack _)). split; [exact Hwf|].
  destruct (failed_registration_mixes demoState "wf" (configFor "none") (mkConfig "identical" (Some []) "none" None "0f1a" 0 "evm") []
              (λ _ _ _, Err Consensus.ErrConfig) Hwf) as (st' & Hr & Hin & _); [done..|]. by exists st'.
Defined.

Lemma report_reaches_requester_witness :
  ∃ req, Transmit true false (replicate 32 x00) 5 [x2a] [x01] [[x07]] = Ok req ∧
    Execute demoState 0 0 req = Ok (Responded (RequestHandler.mkResponse "exec"
      (Some (Some (VMap (signedFields (mkSigned [x2a] (reportContext (replicate 32 x00) 5) [[x07]] [x0f; x1a]))))) None)).
Proof.
  exact (report_reaches_requester demoState 0 0 true false (replicate 32 x00) 5 [x2a] demoInfo "evm" [x01] [[x07]] [x0f; x1a]
           demo_unwraps demo_carries eq_refl eq_refl eq_refl).
Defined.

Lemma reportContext_exact_witness :
  length (reportContext (replicate 32 x00) 1) = 96 ∧
  (reportContext (replicate 32 x00) 1 = reportContext (replicate 32 x00) 2 ↔
   replicate 32 x00 = replicate 32 x00 ∧ wrapU 32 1 = wrapU 32 2).
Proof. by apply reportContext_exact. Defined.
End witnesses.
End Capability.
