(* ===== verification/Workflows.v ===== *)
(** [src/pkg/workflows]: how the inputs of a workflow's steps refer to the results
    of other steps.  [dependency_graph.go] collects the references and builds the
    graph of the steps; [exec/interpolation.go] replaces references by results;
    [utils.go] makes identifiers.

    Of Go's dynamic values, [AMap] stands for [map[string]any] and [ASlice] for
    [[]any].  The entries of a map are in the order in which the loop meets
    them, so a theorem on all inputs covers all orders.  The graph library is
    the interface [Graph]. *)

From Stdlib.Strings Require Import Ascii.
From S2P Require Import Prelude GoBytes GoStrings Values Consensus.

Module Workflows.
Import Values.

Inductive error :=
  | ErrTraverse                                   (* a nil value *)
  | ErrParts | ErrNoRef (ref : string) | ErrStepErrored | ErrSecondPart
  | ErrRefPart (part : string) | ErrIndex (part : string)
  | ErrEnvToken | ErrSecret (key : string)
  | ErrAddVertex (ref : string) | ErrNoDependency (ref : string) | ErrAddEdge | ErrVertex
  | ErrOwner.

(** *** Traversal *)

(** [DeepMap]; [transform] may carry a state. *)
Section deep_map.
Context {S : Type} (transform : any → S → outcome error (any * S)).

Fixpoint DeepMap (input : any) (s : S) : outcome error (any * S) :=
  match input with
  | AMap m =>
      let? (m, s) := (fix deepEntries (m : list (string * any)) (s : S) : outcome error (list (string * any) * S) :=
                        match m with
                        | [] => Ok ([], s)
                        | (k, v) :: m => let? (nv, s) := DeepMap v s in let? (nm, s) := deepEntries m s in Ok ((k, nv) :: nm, s)
                        end) m s in
      Ok (AMap m, s)
  | ASlice l =>
      let? (l, s) := (fix deepList (l : list any) (s : S) : outcome error (list any * S) :=
                        match l with
                        | [] => Ok ([], s)
                        | v :: l => let? (nv, s) := DeepMap v s in let? (nl, s) := deepList l s in Ok (nv :: nl, s)
                        end) l s in
      Ok (ASlice l, s)
  | ANil => Err ErrTraverse
  | v => transform v s
  end.

(** The recursion over maps and slices, named. *)
Fixpoint deepEntries (m : list (string * any)) (s : S) : outcome error (list (string * any) * S) :=
  match m with
  | [] => Ok ([], s)
  | (k, v) :: m => let? (nv, s) := DeepMap v s in let? (nm, s) := deepEntries m s in Ok ((k, nv) :: nm, s)
  end.
Fixpoint deepList (l : list any) (s : S) : outcome error (list any * S) :=
  match l with
  | [] => Ok ([], s)
  | v :: l => let? (nv, s) := DeepMap v s in let? (nl, s) := deepList l s in Ok (nv :: nl, s)
  end.

Lemma DeepMap_AMap m s : DeepMap (AMap m) s = let? (m, s) := deepEntries m s in Ok (AMap m, s).
Proof. done. Qed.
Lemma DeepMap_ASlice l s : DeepMap (ASlice l) s = let? (l, s) := deepList l s in Ok (ASlice l, s).
Proof. done. Qed.
End deep_map.

(** *** Tokens *)

(** [\s] *)
Definition isSpace (c : ascii) : bool :=
  Ascii.eqb c "009" || Ascii.eqb c "010" || Ascii.eqb c "012" || Ascii.eqb c "013" || Ascii.eqb c " ".

(** [s] up to a final closing parenthesis, without spaces before it. *)
Fixpoint untilParen (s : string) : option string :=
  match s with
  | EmptyString => None
  | String ")" EmptyString => Some EmptyString
  | String c s => if isSpace c then None else rest ← untilParen s; Some (String c rest)
  end.

(** [InterpolationTokenRe], the regular expression [^\$\((\S+)\)$]: its group. *)
Definition token (s : string) : option string :=
  match s with
  | String "$" (String "(" s) => match untilParen s with Some EmptyString => None | m => m end
  | _ => None
  end.

(** *** References *)

Definition findRefsAt (el : any) (refs : list string) : outcome error (any * list string) :=
  match el with
  | AString s => match token s with
                 | None => Ok (el, refs)
                 | Some m => match Split m "." with
                             | [] => Err ErrParts
                             | part :: _ => Ok (el, refs ++ [part])
                             end
                 end
  | _ => Ok (el, refs)
  end.

Definition findRefs (inputs : any) : outcome error (list string) :=
  let? (_, refs) := DeepMap findRefsAt inputs [] in Ok refs.

(** *** Interpolation *)

Record Result := mkResult { Inputs : option Value; Outputs : option Value; ResultError : bool }.
Definition Results : Type := string → option Result.

(** One part of a key. *)
Definition interpolatePart (val : any) (r : string) : outcome error any :=
  match val with
  | AMap m => match mapGet m r with Some inner => Ok inner | None => Err (ErrRefPart r) end
  | ASlice v =>
      match Atoi r with
      | None => Err (ErrRefPart r)
      | Some i => if decide (Z.of_nat (length v) - 1 < i ∨ i < 0)%Z then Err (ErrIndex r) else go_index v (Z.to_nat i)
      end
  | _ => Err (ErrRefPart r)
  end.

Definition InterpolateKey (key : string) (state : Results) : outcome error any :=
  match Split key "." with
  | ref :: part :: remainingParts =>
      match state ref with
      | None => Err (ErrNoRef ref)
      | Some sc =>
          let? value :=
            if String.eqb part "inputs" then Ok (Inputs sc)
            else if String.eqb part "outputs" then (if ResultError sc then Err ErrStepErrored else Ok (Outputs sc))
            else Err ErrSecondPart in
          ofold interpolatePart (UnwrapOpt value) remainingParts
      end
  | _ => Err ErrParts
  end.

Definition interpolateAt (state : Results) (el : any) (_ : ()) : outcome error (any * ()) :=
  match el with
  | AString s => match token s with
                 | None => Ok (el, ())
                 | Some key => let? v := InterpolateKey key state in Ok (v, ())
                 end
  | _ => Ok (el, ())
  end.

Definition FindAndInterpolateAllKeys (input : any) (state : Results) : outcome error any :=
  let? (v, _) := DeepMap (interpolateAt state) input () in Ok v.

Record Env := mkEnv { Binary : list byte; Config : list byte; Secrets : gmap string string }.

Definition interpolateEnvAt (env : Env) (el : any) (_ : ()) : outcome error (any * ()) :=
  match el with
  | AString s =>
      match token s with
      | None => Ok (el, ())
      | Some m =>
          match Split m "." with
          | first :: second :: rest =>
              if negb (String.eqb first "ENV") then Ok (el, ())
              else if String.eqb second "config" then Ok (ABytes (Config env), ())
              else if String.eqb second "binary" then Ok (ABytes (Binary env), ())
              else if String.eqb second "secrets" then
                match rest with
                | [key] => match Secrets env !! key with Some got => Ok (AString got, ()) | None => Err (ErrSecret key) end
                | [] => Ok (AMap ((λ kv, (kv.1, AString kv.2)) <$> map_to_list (Secrets env)), ())
                | _ => Err ErrEnvToken
                end
              else Err ErrEnvToken
          | _ => Ok (el, ())
          end
      end
  | _ => Ok (el, ())
  end.

Definition FindAndInterpolateEnvVars (input : any) (env : Env) : outcome error any :=
  let? (v, _) := DeepMap (interpolateEnvAt env) input () in Ok v.

(** *** The graph of the steps *)

Definition KeywordTrigger : string := "trigger".

(** The fields of [sdk.StepDefinition] that the graph uses. *)
Record StepDefinition := mkStep { ID : string; Ref : string; OutputRef : string; Mapping : list (string * any) }.
Record WorkflowSpec := mkSpec {
  Triggers : list StepDefinition;
  Actions : list StepDefinition;
  ConsensusSteps : list StepDefinition;
  Targets : list StepDefinition
}.

Definition Steps (w : WorkflowSpec) : list StepDefinition := Actions w ++ ConsensusSteps w ++ Targets w.

(** [github.com/dominikbraun/graph], directed and with [PreventCycles]: what a
    successful call does.  [edgeExists] is the error that is let through. *)
Class Graph (G : Type) := {
  newGraph : G;
  vertices : G → gmap string StepDefinition;
  edges : G → gset (string * string);
  addVertex : G → StepDefinition → option G;
  addEdge : G → string → string → option G;
  edgeExists : G → string → string → bool;
  newGraph_empty : vertices newGraph = ∅ ∧ edges newGraph = ∅;
  addVertex_spec g v g' : addVertex g v = Some g' →
    vertices g !! Ref v = None ∧ vertices g' = <[Ref v := v]> (vertices g) ∧ edges g' = edges g;
  addEdge_spec g a b g' : addEdge g a b = Some g' →
    is_Some (vertices g !! a) ∧ is_Some (vertices g !! b) ∧ ¬ rtc (λ x y, (x, y) ∈ edges g) b a ∧
    vertices g' = vertices g ∧ edges g' = {[(a, b)]} ∪ edges g;
  edgeExists_spec g a b : edgeExists g a b = true → (a, b) ∈ edges g
}.

Section graph.
Context {G} `{Graph G}.

Record DependencyGraph := mkDep { graph : G; dependencies : gmap string (list string) }.

(** The step as a vertex: its reference defaults to its id. *)
Definition withRef (s : StepDefinition) : StepDefinition :=
  if String.eqb (Ref s) "" then mkStep (ID s) (ID s) (OutputRef s) (Mapping s) else s.

Definition addStep (g : G) (s : StepDefinition) : outcome error G :=
  ok_or (ErrAddVertex (Ref (withRef s))) (addVertex g (withRef s)).

Definition inputsOf (s : StepDefinition) : any :=
  if String.eqb (OutputRef s) "" then AMap (Mapping s) else AString (OutputRef s).

Definition addDependency (step : StepDefinition) (g : G) (r : string) : outcome error G :=
  match addEdge g r (Ref step) with
  | Some g => Ok g
  | None => if edgeExists g r (Ref step) then Ok g else Err ErrAddEdge
  end.

(** One iteration of the loop that adds the edges. *)
Definition connectStep (d : DependencyGraph) (stepRef : string) : outcome error DependencyGraph :=
  match vertices (graph d) !! stepRef with
  | None => Err ErrVertex
  | Some step =>
      let? refs := findRefs (inputsOf step) in
      if negb (String.eqb stepRef KeywordTrigger) && bool_decide (refs = []) then Err (ErrNoDependency stepRef)
      else
        let? g := ofold (addDependency step) (graph d) refs in
        Ok (mkDep g (<[stepRef := refs]> (dependencies d)))
  end.

Definition triggerStep : StepDefinition := mkStep "" KeywordTrigger "" [].

Definition BuildDependencyGraph (O : RangeOrder (string * StepDefinition)) (spec : WorkflowSpec) : outcome error DependencyGraph :=
  let? g := ok_or (ErrAddVertex KeywordTrigger) (addVertex newGraph triggerStep) in
  let? g := ofold addStep g (Steps spec) in
  ofold connectStep (mkDep g ∅) (range_map O (vertices g)).*1.
End graph.
Arguments DependencyGraph : clear implicits.

(** *** Identifiers *)

Section identifiers.
Context `{Consensus.Wire}.

Definition EncodeExecutionID (workflowID eventID : string) : string :=
  hexEncode (Consensus.sha256 (bytes_of_string workflowID ++ bytes_of_string eventID)).

Definition versionByte : byte := x00.

(** The first byte of the hash is replaced. *)
Definition GenerateWorkflowID (owner : list byte) (name : string) (workflow config : list byte) (secretsURL : string) : list byte :=
  match Consensus.sha256 (owner ++ bytes_of_string name ++ workflow ++ config ++ bytes_of_string secretsURL) with
  | [] => []
  | _ :: sha => versionByte :: sha
  end.

Definition GenerateWorkflowIDFromStrings (owner name : string) (workflow config : list byte) (secretsURL : string) : outcome error string :=
  let ownerWithoutPrefix := if HasPrefix owner "0x" then dropChars 2 owner else owner in
  let? ownerb := ok_or ErrOwner (hexDecode ownerWithoutPrefix) in
  Ok (hexEncode (GenerateWorkflowID ownerb name workflow config secretsURL)).

Fixpoint takeChars (n : nat) (s : string) : string :=
  match n, s with S n, String c s => String c (takeChars n s) | _, _ => EmptyString end.

Definition HashTruncateName (name : string) : string := takeChars 10 (hexEncode (Consensus.sha256 (bytes_of_string name))).

Lemma bytes_of_string_app s1 s2 : bytes_of_string (s1 ++ s2) = bytes_of_string s1 ++ bytes_of_string s2.
Proof.
  rewrite /bytes_of_string. induction s1 as [|c s1 IH]; [done|].
  change (String c s1 ++ s2)%string with (String c (s1 ++ s2)%string).
  change (String.list_byte_of_string (String c (s1 ++ s2)%string)) with (byte_of_ascii c :: String.list_byte_of_string (s1 ++ s2)).
  change (String.list_byte_of_string (String c s1)) with (byte_of_ascii c :: String.list_byte_of_string s1). by rewrite IH.
Qed.

(** The parts of a workflow's identity are hashed without separators: the end
    of a name can as well be the beginning of the code. *)
Lemma workflowID_ambiguous owner name suffix workflow config url :
  GenerateWorkflowID owner (name ++ suffix) workflow config url =
  GenerateWorkflowID owner name (bytes_of_string suffix ++ workflow) config url.
Proof. by rewrite /GenerateWorkflowID bytes_of_string_app -!app_assoc. Qed.

Lemma takeChars_hex n bs : takeChars (2 * n) (hexEncode bs) = hexEncode (take n bs).
Proof.
  revert bs. induction n as [|n IH]; intros bs; [by destruct bs|]. replace (2 * S n) with (S (S (2 * n))) by lia.
  destruct bs as [|b bs]; [done|]. cbn [hexEncode takeChars take]. by rewrite IH.
Qed.

(** Ten characters are five bytes of the hash. *)
Lemma HashTruncateName_bytes name : HashTruncateName name = hexEncode (take 5 (Consensus.sha256 (bytes_of_string name))).
Proof. apply (takeChars_hex 5). Qed.
End identifiers.

(** *** References decide interpolation *)

Section interpolation.
Context (st1 st2 : Results).

(** What collecting the references of an input says about interpolating it. *)
Definition decided (input : any) : Prop := ∀ refs v refs',
  DeepMap findRefsAt input refs = Ok (v, refs') →
  v = input ∧ ∃ new, refs' = refs ++ new ∧
    ((∀ r, r ∈ new → st1 r = st2 r) → DeepMap (interpolateAt st1) input () = DeepMap (interpolateAt st2) input ()) ∧
    (new = [] → DeepMap (interpolateAt st1) input () = Ok (input, ())).

Lemma InterpolateKey_agree key part rest :
  Split key "." = part :: rest → st1 part = st2 part → InterpolateKey key st1 = InterpolateKey key st2.
Proof. rewrite /InterpolateKey. intros -> Hpart. destruct rest as [|second rest]; [done|]. by rewrite Hpart. Qed.

Lemma decided_leaf a : isContainer a = false → decided a.
Proof.
  intros Ha refs v refs' Hr. destruct a as [|s| | | | | | | |l|m| | | |]; try done; cbn in Hr; simplify_eq;
    try (split; [done|]; exists []; by rewrite app_nil_r).
  cbn. destruct (token s) as [m|]; simplify_eq; [|split; [done|]; exists []; by rewrite app_nil_r].
  destruct (Split m ".") as [|part rest] eqn:Em; simplify_eq. split; [done|]. exists [part]. split; [done|]. split; [|done].
  intros Hagree. by rewrite (InterpolateKey_agree m part rest Em (Hagree part (list_elem_of_here _ _))).
Qed.

Lemma decided_list l : Forall decided l → ∀ refs v refs',
  deepList findRefsAt l refs = Ok (v, refs') →
  v = l ∧ ∃ new, refs' = refs ++ new ∧
    ((∀ r, r ∈ new → st1 r = st2 r) → deepList (interpolateAt st1) l () = deepList (interpolateAt st2) l ()) ∧
    (new = [] → deepList (interpolateAt st1) l () = Ok (l, ())).
Proof.
  induction 1 as [|a l Ha _ IH]; intros refs v refs'; cbn [deepList].
  - intros [= <- <-]. split; [done|]. exists []. by rewrite app_nil_r.
  - intros ([na refs1] & H1 & ([nl refs2] & H2 & [= <- <-])%obind_Ok_inv)%obind_Ok_inv.
    apply Ha in H1 as (-> & new1 & -> & Hagree1 & Hnil1). apply IH in H2 as (-> & new2 & -> & Hagree2 & Hnil2).
    split; [done|]. exists (new1 ++ new2). rewrite assoc. split; [done|]. split.
    + intros Hagree. rewrite Hagree1; [|set_solver]. destruct (DeepMap (interpolateAt st2) a ()) as [[na []]| |]; [cbn|done..].
      rewrite Hagree2; [done|set_solver].
    + intros [-> ->]%app_nil. rewrite (Hnil1 eq_refl). cbn [obind]. by rewrite (Hnil2 eq_refl).
Qed.

Lemma decided_entries m : Forall (λ kv, decided kv.2) m → ∀ refs v refs',
  deepEntries findRefsAt m refs = Ok (v, refs') →
  v = m ∧ ∃ new, refs' = refs ++ new ∧
    ((∀ r, r ∈ new → st1 r = st2 r) → deepEntries (interpolateAt st1) m () = deepEntries (interpolateAt st2) m ()) ∧
    (new = [] → deepEntries (interpolateAt st1) m () = Ok (m, ())).
Proof.
  induction 1 as [|[k a] m Ha _ IH]; intros refs v refs'; cbn [deepEntries].
  - intros [= <- <-]. split; [done|]. exists []. by rewrite app_nil_r.
  - intros ([na refs1] & H1 & ([nl refs2] & H2 & [= <- <-])%obind_Ok_inv)%obind_Ok_inv.
    cbn [snd] in Ha. apply Ha in H1 as (-> & new1 & -> & Hagree1 & Hnil1). apply IH in H2 as (-> & new2 & -> & Hagree2 & Hnil2).
    split; [done|]. exists (new1 ++ new2). rewrite assoc. split; [done|]. split.
    + intros Hagree. rewrite Hagree1; [|set_solver]. destruct (DeepMap (interpolateAt st2) a ()) as [[na []]| |]; [cbn|done..].
      rewrite Hagree2; [done|set_solver].
    + intros [-> ->]%app_nil. rewrite (Hnil1 eq_refl). cbn [obind]. by rewrite (Hnil2 eq_refl).
Qed.

Lemma decided_all input : decided input.
Proof.
  induction input as [a Ha|l IH|m IH] using any_ind'; [by apply decided_leaf|..]; intros refs v refs'.
  - rewrite !DeepMap_ASlice. intros ([nl refs1] & H1 & [= <- <-])%obind_Ok_inv.
    destruct (decided_list l IH _ _ _ H1) as (-> & new & -> & Hagree & Hnil). split; [done|]. exists new. split; [done|]. split.
    + intros Ha. by rewrite (Hagree Ha).
    + intros Hn. by rewrite (Hnil Hn).
  - rewrite !DeepMap_AMap. intros ([nl refs1] & H1 & [= <- <-])%obind_Ok_inv.
    destruct (decided_entries m IH _ _ _ H1) as (-> & new & -> & Hagree & Hnil). split; [done|]. exists new. split; [done|]. split.
    + intros Ha. by rewrite (Hagree Ha).
    + intros Hn. by rewrite (Hnil Hn).
Qed.
End interpolation.

(** The references collected for the graph are all that interpolation needs:
    if two states of the execution agree on the steps that an input refers to,
    interpolating the input gives the same, errors included; an input without
    references is left as it is. *)
Theorem references_decide input refs st1 st2 :
  findRefs input = Ok refs → (∀ r, r ∈ refs → st1 r = st2 r) →
  FindAndInterpolateAllKeys input st1 = FindAndInterpolateAllKeys input st2 ∧
  (refs = [] → FindAndInterpolateAllKeys input st1 = Ok input).
Proof.
  rewrite /findRefs /FindAndInterpolateAllKeys. intros ([v refs'] & Hr & [= <-])%obind_Ok_inv Hagree.
  destruct (decided_all st1 st2 input [] v refs' Hr) as (_ & new & -> & Ha & Hn). cbn in Hagree. split; [by rewrite (Ha Hagree)|].
  intros Hnil. by rewrite (Hn Hnil).
Qed.

(** *** Every step depends on the trigger *)

Section triggered.
Context {G} `{Graph G}.

Definition edge (g : G) (a b : string) : Prop := (a, b) ∈ edges g.

(** The edges join vertices and close no cycle. *)
Record wf (g : G) : Prop := {
  wf_ends a b : edge g a b → is_Some (vertices g !! a) ∧ is_Some (vertices g !! b);
  wf_acyclic a : ¬ tc (edge g) a a
}.

Lemma tc_insert (g g' : G) a b x y :
  edges g' = {[(a, b)]} ∪ edges g → tc (edge g') x y → tc (edge g) x y ∨ rtc (edge g) x a ∧ rtc (edge g) b y.
Proof.
  intros Hg. assert (∀ u v, edge g' u v → edge g u v ∨ u = a ∧ v = b) as Hstep by (intros u v; rewrite /edge Hg; set_solver).
  induction 1 as [x y Hxy|x y z Hxy _ IH].
  - apply Hstep in Hxy as [Hxy|[-> ->]]; [left; by constructor|right; split; constructor].
  - apply Hstep in Hxy as [Hxy|[-> ->]].
    + destruct IH as [IH|[IH1 IH2]]; [left; by eapply tc_l|right; split; [by eapply rtc_l|done]].
    + right. split; [constructor|]. destruct IH as [IH|[_ IH2]]; [by apply tc_rtc|done].
Qed.

Lemma addEdge_wf g a b g' : wf g → addEdge g a b = Some g' → wf g'.
Proof.
  intros [Hends Hacyc] Hadd. apply addEdge_spec in Hadd as (Ha & Hb & Hno & Hv & He). constructor.
  - intros x y. rewrite /edge He Hv. intros [[= -> ->]%elem_of_singleton|Hxy]%elem_of_union; [done|by apply Hends].
  - intros x [Hx|[Hxa Hbx]]%(tc_insert g g' a b x x He); [by eapply Hacyc|]. apply Hno. by transitivity x.
Qed.

Lemma addSteps_spec steps g g' :
  ofold addStep g steps = Ok g' → edges g' = edges g ∧ vertices g ⊆ vertices g'.
Proof.
  revert g. induction steps as [|s steps IH]; intros g; cbn [ofold]; [by intros [= <-]|].
  intros (g1 & H1 & H2)%obind_Ok_inv. apply IH in H2 as [He Hv]. rewrite /addStep in H1.
  destruct (addVertex g (withRef s)) as [g2|] eqn:E; simplify_eq/=. apply addVertex_spec in E as (Hn & Hv2 & He2).
  split; [congruence|]. etransitivity; [|exact Hv]. rewrite Hv2. by apply insert_subseteq.
Qed.

Lemma addDependencies_spec step refs g g' :
  wf g → ofold (addDependency step) g refs = Ok g' →
  wf g' ∧ vertices g' = vertices g ∧ edges g' = edges g ∪ list_to_set ((λ r, (r, Ref step)) <$> refs).
Proof.
  revert g. induction refs as [|r refs IH]; intros g Hwf; cbn [ofold]; [intros [= <-]; set_solver|].
  intros (g1 & H1 & H2)%obind_Ok_inv. rewrite /addDependency in H1.
  assert (wf g1 ∧ vertices g1 = vertices g ∧ edges g1 = {[(r, Ref step)]} ∪ edges g) as (Hwf1 & Hv1 & He1).
  { destruct (addEdge g r (Ref step)) as [g2|] eqn:E.
    - simplify_eq. split; [by eapply addEdge_wf|]. apply addEdge_spec in E. naive_solver.
    - destruct (edgeExists g r (Ref step)) eqn:E2; simplify_eq. apply edgeExists_spec in E2. set_solver. }
  apply IH in H2 as (Hwf2 & Hv2 & He2); [|done]. split; [done|]. split; [congruence|]. rewrite He2 He1. set_solver.
Qed.

(** Vertices are stored under their reference. *)
Definition keyed (g : G) : Prop := ∀ k v, vertices g !! k = Some v → Ref v = k.

(** The reference of a step is the one it declares, or else its id; its vertex
    has all that the step has. *)
Definition stepKey (s : StepDefinition) : string := if decide (Ref s = ""%string) then ID s else Ref s.
Definition stepVertex (s : StepDefinition) : StepDefinition := mkStep (ID s) (stepKey s) (OutputRef s) (Mapping s).

Lemma withRef_vertex s : withRef s = stepVertex s.
Proof.
  rewrite /withRef /stepVertex /stepKey. destruct s as [i r o m]. cbn [Ref ID OutputRef Mapping].
  destruct (String.eqb_spec r ""), (decide (r = ""%string)); by subst.
Qed.

Lemma addSteps_vertices steps g g' :
  keyed g → ofold addStep g steps = Ok g' →
  keyed g' ∧ NoDup (stepKey <$> steps) ∧ (∀ s, s ∈ steps → vertices g !! stepKey s = None) ∧
  ∀ k v, vertices g' !! k = Some v ↔ vertices g !! k = Some v ∨ ∃ s, s ∈ steps ∧ k = stepKey s ∧ v = stepVertex s.
Proof.
  revert g. induction steps as [|s steps IH]; intros g Hk; cbn [ofold].
  { intros [= <-]. split; [done|]. split; [constructor|]. split; [set_solver|]. intros k v. set_solver. }
  intros (g1 & H1 & H2)%obind_Ok_inv. rewrite /addStep withRef_vertex in H1. destruct (addVertex g (stepVertex s)) as [g2|] eqn:E; simplify_eq/=.
  apply addVertex_spec in E as (Hn & Hv & _). change (Ref (stepVertex s)) with (stepKey s) in Hn, Hv.
  apply IH in H2 as (Hk' & Hnd & Hfresh & Hall).
  2: { intros k v. rewrite Hv. intros [[<- <-]|[_ Hg]]%lookup_insert_Some; [done|by apply Hk]. }
  assert (∀ s', s' ∈ steps → stepKey s ≠ stepKey s' ∧ vertices g !! stepKey s' = None) as Hold.
  { intros s' Hs. apply Hfresh in Hs. rewrite Hv in Hs. apply lookup_insert_None in Hs as [Hs1 Hs2]. split; [|done]. congruence. }
  split; [done|]. split; [|split].
  - apply NoDup_cons. split; [|done]. intros (s' & Heq & Hs)%list_elem_of_fmap. by destruct (Hold s' Hs).
  - intros s' [->|Hs]%elem_of_cons; [done|]. by apply Hold.
  - intros k v. rewrite Hall Hv lookup_insert_Some. split.
    + intros [[[<- <-]|[_ Hg]]|(s' & Hs & Hr)]; [right; exists s; set_solver|by left|right; exists s'; set_solver].
    + intros [Hg|(s' & [->|Hs]%elem_of_cons & -> & ->)]; [|by left; left|right; by exists s'].
      left. right. split; [|done]. intros <-. by rewrite Hn in Hg.
Qed.

Lemma inputsOf_decide s :
  inputsOf s = if decide (OutputRef s = ""%string) then AMap (Mapping s) else AString (OutputRef s).
Proof. rewrite /inputsOf. by destruct (String.eqb_spec (OutputRef s) ""), (decide (OutputRef s = ""%string)). Qed.

(** What connecting the steps [l] did. *)
Record connected (l : list string) (d d' : DependencyGraph G) : Prop := {
  con_wf : wf (graph d');
  con_vertices : vertices (graph d') = vertices (graph d);
  con_deps k : k ∈ l → ∃ step refs, vertices (graph d) !! k = Some step ∧ findRefs (inputsOf step) = Ok refs ∧
    dependencies d' !! k = Some refs ∧ (k ≠ KeywordTrigger → refs ≠ []);
  con_other k : k ∉ l → dependencies d' !! k = dependencies d !! k;
  con_edges a b : edge (graph d') a b ↔ edge (graph d) a b ∨ b ∈ l ∧ ∃ refs, dependencies d' !! b = Some refs ∧ a ∈ refs
}.

Lemma connectStep_spec k d d' : wf (graph d) → keyed (graph d) → connectStep d k = Ok d' → connected [k] d d'.
Proof.
  intros Hwf Hk. rewrite /connectStep. destruct (vertices (graph d) !! k) as [step|] eqn:Ek; [|done].
  intros (refs & Hrefs & Hd)%obind_Ok_inv. destruct (negb _ && _) eqn:Hguard; [done|].
  apply obind_Ok_inv in Hd as (g & Hg & [= <-]). apply addDependencies_spec in Hg as (Hwf' & Hv & He); [|done].
  rewrite (Hk k step Ek) in He. constructor; cbn; [done|done|..].
  - intros k' ->%list_elem_of_singleton. exists step, refs. rewrite lookup_insert_eq. split_and!; try done. intros Hne ->.
    assert (String.eqb k KeywordTrigger = false) as Hkt by (by apply String.eqb_neq). by rewrite Hkt in Hguard.
  - intros k' Hk'. rewrite lookup_insert_ne //. set_solver.
  - intros a b. rewrite /edge He elem_of_union elem_of_list_to_set list_elem_of_fmap list_elem_of_singleton. split.
    + intros [Hab|(r & [= -> ->] & Hr)]; [by left|right]. split; [done|]. exists refs. by rewrite lookup_insert_eq.
    + intros [Hab|(-> & refs' & Hr & Ha)]; [by left|right]. rewrite lookup_insert_eq in Hr. simplify_eq. by exists a.
Qed.

Lemma connectSteps_spec l d d' :
  NoDup l → wf (graph d) → keyed (graph d) → ofold connectStep d l = Ok d' → connected l d d'.
Proof.
  revert d. induction l as [|k l IH]; intros d Hnd Hwf Hk; cbn [ofold].
  - intros [= <-]. constructor; try done; set_solver.
  - intros (d1 & H1 & H2)%obind_Ok_inv. apply NoDup_cons in Hnd as [Hkl Hnd].
    apply connectStep_spec in H1 as [Hwf1 Hv1 Hd1 Ho1 He1]; [|done..].
    apply IH in H2 as [Hwf2 Hv2 Hd2 Ho2 He2]; [|done|done|by intros k' v; rewrite Hv1; apply Hk]. constructor.
    + done.
    + congruence.
    + intros k' [->|Hin]%elem_of_cons; [|rewrite -Hv1; by apply Hd2].
      destruct (Hd1 k) as (step & refs & Hs & Hr & Hdep & Hne); [set_solver|]. exists step, refs. rewrite Ho2 //.
    + intros k' Hk'. rewrite Ho2; [|set_solver]. apply Ho1. set_solver.
    + intros a b. rewrite He2 He1. split.
      * intros [[Hab|[Hb Hr]]|[Hb Hr]]; [by left|right|right; split; [set_solver|done]].
        apply list_elem_of_singleton in Hb as ->. split; [set_solver|]. by rewrite Ho2.
      * intros [Hab|[[->|Hb]%elem_of_cons Hr]]; [by left; left|left; right|by right]. split; [set_solver|]. by rewrite -Ho2.
Qed.

Lemma reaches_trigger g :
  wf g → (∀ k, is_Some (vertices g !! k) → k = KeywordTrigger ∨ ∃ p, edge g p k) →
  ∀ n k, is_Some (vertices g !! k) →
  rtc (edge g) KeywordTrigger k ∨ ∃ l, length l = n ∧ NoDup l ∧ ∀ v, v ∈ l → is_Some (vertices g !! v) ∧ tc (edge g) v k.
Proof.
  intros [Hends Hacyc] Hpred. induction n as [|n IH]; intros k Hk; [right; exists []; split; [done|]; split; [constructor|set_solver]|].
  destruct (Hpred k Hk) as [->|[p Hp]]; [left; constructor|]. destruct (Hends _ _ Hp) as [Hpv _].
  destruct (IH p Hpv) as [Hreach|(l & Hlen & Hnd & Hl)]; [left; by eapply rtc_r|right].
  exists (p :: l). split; [cbn; by rewrite Hlen|]. split.
  - constructor; [|done]. intros Hin. by destruct (Hacyc p), (Hl p Hin).
  - intros v [->|Hv]%elem_of_cons; [split; [done|by constructor]|]. destruct (Hl v Hv) as [Hvv Ht]. split; [done|]. by eapply tc_r.
Qed.

(** C12: the vertices of a graph that is built are the trigger and one vertex
    for every step, under the reference it declares or else its id, with all that
    the step has; no two steps, and no step and the trigger, share a
    reference.  The edges are exactly those from each reference found in the
    inputs of a step (its output reference, or else its mapping) to the step;
    there is no cycle, and every step depends, perhaps through other steps, on
    the trigger. *)
Theorem every_step_triggered O spec d :
  BuildDependencyGraph O spec = Ok d →
  NoDup ("trigger"%string :: (stepKey <$> Steps spec)) ∧
  (∀ k v, vertices (graph d) !! k = Some v ↔
     k = "trigger"%string ∧ v = mkStep "" "trigger" "" [] ∨ ∃ s, s ∈ Steps spec ∧ k = stepKey s ∧ v = stepVertex s) ∧
  (∀ a b, (a, b) ∈ edges (graph d) ↔
     ∃ step refs, vertices (graph d) !! b = Some step ∧ a ∈ refs ∧
       findRefs (if decide (OutputRef step = ""%string) then AMap (Mapping step) else AString (OutputRef step)) = Ok refs) ∧
  (∀ k, ¬ tc (λ a b, (a, b) ∈ edges (graph d)) k k) ∧
  ∀ k, is_Some (vertices (graph d) !! k) → rtc (λ a b, (a, b) ∈ edges (graph d)) "trigger"%string k.
Proof.
  destruct newGraph_empty as [Hv0 He0]. rewrite /BuildDependencyGraph. intros (g1 & H1 & (g2 & H2 & H3)%obind_Ok_inv)%obind_Ok_inv.
  destruct (addVertex newGraph triggerStep) as [g1'|] eqn:E1; simplify_eq/=. apply addVertex_spec in E1 as (_ & Hv1 & He1).
  assert (keyed g1) as Hkeyed1 by (intros k v; rewrite Hv1 Hv0; by intros [[<- <-]|[_ ?]]%lookup_insert_Some).
  pose proof (addSteps_spec _ _ _ H2) as [He2 _]. apply addSteps_vertices in H2 as (Hkeyed2 & Hnd & Hfresh & Hall); [|done].
  assert (wf g2) as Hwf2.
  { assert (∀ a b, ¬ edge g2 a b) as Hnone by (intros a b; rewrite /edge He2 He1 He0; set_solver).
    constructor; [intros a b Hab; by destruct (Hnone a b)|]. intros a Ht. destruct Ht as [a b Hab|a b c Hab _]; by eapply Hnone. }
  apply connectSteps_spec in H3 as [Hwf Hv Hdeps _ Hedges]; [|apply NoDup_fst_range_map|done|done]. cbn in Hv, Hedges.
  assert (∀ k, k ∈ (range_map O (vertices g2)).*1 ↔ is_Some (vertices g2 !! k)) as Hkeys.
  { intros k. rewrite list_elem_of_fmap. split; [intros ([k' v] & -> & Hin%elem_of_range_map); by eexists|].
    intros [v Hin]. exists (k, v). by rewrite elem_of_range_map. }
  assert (∀ a b, edge (graph d) a b ↔ ∃ step refs, vertices (graph d) !! b = Some step ∧ findRefs (inputsOf step) = Ok refs ∧ a ∈ refs) as Hedge.
  { intros a b. rewrite Hedges Hv Hkeys /edge He2 He1 He0. split.
    - intros [?|[Hb (refs & Hr & Ha)]]; [set_solver|]. destruct (Hdeps b) as (step & refs' & Hs & Hf & Hd & _); [by apply Hkeys|].
      exists step, refs'. split; [done|]. split; [done|]. congruence.
    - intros (step & refs & Hs & Hf & Ha). right. split; [by eexists|]. destruct (Hdeps b) as (step' & refs' & Hs' & Hf' & Hd' & _); [by apply Hkeys; eexists|].
      cbn in Hs'. exists refs'. split; [done|]. congruence. }
  split; [|split; [|split; [|split; [apply Hwf|]]]].
  - apply NoDup_cons. split; [|done]. intros (s & Heq & Hs)%list_elem_of_fmap. apply Hfresh in Hs.
    change (Ref triggerStep) with "trigger"%string in Hv1. by rewrite -Heq Hv1 lookup_insert_eq in Hs.
  - intros k v. rewrite Hv Hall Hv1 Hv0 lookup_insert_Some lookup_empty.
    split; [intros [[[<- <-]|[_ ?]]|?]; [by left|done|by right]|intros [[-> ->]|?]; [by left; left|by right]].
  - intros a b. etransitivity; [apply Hedge|]. split; intros (step & refs & Hs & Hf & Ha); exists step, refs; (split; [done|]).
    + split; [done|]. by rewrite -inputsOf_decide.
    + split; [|done]. by rewrite inputsOf_decide.
  - intros k Hk. destruct (reaches_trigger (graph d) Hwf) with (n := S (size (vertices (graph d)))) (k := k) as [Hr|(l & Hlen & Hndl & Hl)]; [|done|done|].
    + intros k' Hk'. destruct (decide (k' = KeywordTrigger)) as [->|Hne]; [by left|right].
      rewrite Hv in Hk'. destruct (Hdeps k') as (step & refs & Hs & Hf & _ & Hnil); [by apply Hkeys|]. specialize (Hnil Hne).
      destruct refs as [|r refs]; [done|]. exists r. apply Hedge. rewrite Hv. exists step, (r :: refs). split; [done|]. split; [done|]. set_solver.
    + exfalso. assert (size (list_to_set l : gset string) ≤ size (dom (vertices (graph d)))) as Hsz.
      { apply subseteq_size. intros v Hv'%elem_of_list_to_set. apply elem_of_dom. by apply Hl. }
      rewrite size_list_to_set // size_dom Hlen in Hsz. lia.
Qed.
End triggered.

(** *** Witnesses *)

(** A graph that only takes edges to longer references: the interface at a
    concrete instance. *)
Record lengthGraph := mkGraph { lgVertices : gmap string StepDefinition; lgEdges : gset (string * string) }.

Definition grows (e : string * string) : Prop := String.length e.1 < String.length e.2.
#[export] Instance grows_dec e : Decision (grows e) := ltac:(unfold grows; apply _).

Definition lgAddVertex (g : lengthGraph) (v : StepDefinition) : option lengthGraph :=
  match lgVertices g !! Ref v with
  | Some _ => None
  | None => Some (mkGraph (<[Ref v := v]> (lgVertices g)) (lgEdges g))
  end.

Definition lgAddEdge (g : lengthGraph) (a b : string) : option lengthGraph :=
  match lgVertices g !! a, lgVertices g !! b with
  | Some _, Some _ =>
      if decide (grows (a, b) ∧ set_Forall grows (lgEdges g) ∧ (a, b) ∉ lgEdges g)
      then Some (mkGraph (lgVertices g) ({[(a, b)]} ∪ lgEdges g)) else None
  | _, _ => None
  end.

Lemma lgAddVertex_spec g v g' : lgAddVertex g v = Some g' →
  lgVertices g !! Ref v = None ∧ lgVertices g' = <[Ref v := v]> (lgVertices g) ∧ lgEdges g' = lgEdges g.
Proof. rewrite /lgAddVertex. destruct (lgVertices g !! Ref v); [done|]. by intros [= <-]. Qed.

Lemma lgAddEdge_spec g a b g' : lgAddEdge g a b = Some g' →
  is_Some (lgVertices g !! a) ∧ is_Some (lgVertices g !! b) ∧ ¬ rtc (λ x y, (x, y) ∈ lgEdges g) b a ∧
  lgVertices g' = lgVertices g ∧ lgEdges g' = {[(a, b)]} ∪ lgEdges g.
Proof.
  rewrite /lgAddEdge. destruct (lgVertices g !! a), (lgVertices g !! b); try done. case_decide as Hd; [|done]. intros [= <-].
  destruct Hd as (Hab & Hall & _). split_and!; [by eexists|by eexists| |done|done].
  intros Hr. assert (∀ x y, rtc (λ x y, (x, y) ∈ lgEdges g) x y → String.length x ≤ String.length y) as Hle.
  { induction 1 as [x|x y z Hxy _ IH]; [done|]. specialize (Hall _ Hxy). rewrite /grows /= in Hall. lia. }
  apply Hle in Hr. rewrite /grows /= in Hab. lia.
Qed.

Definition lengthGraphs : Graph lengthGraph := {|
  newGraph := mkGraph ∅ ∅;
  vertices := lgVertices;
  edges := lgEdges;
  addVertex := lgAddVertex;
  addEdge := lgAddEdge;
  edgeExists g a b := bool_decide ((a, b) ∈ lgEdges g);
  newGraph_empty := conj eq_refl eq_refl;
  addVertex_spec := lgAddVertex_spec;
  addEdge_spec := lgAddEdge_spec;
  edgeExists_spec g a b := bool_decide_eq_true_1 _
|}.

Definition demoSpec : WorkflowSpec := mkSpec []
  [mkStep "compute" "compute1" "" [("x", AString "$(trigger.outputs.price)"); ("y", ASlice [AString "plain"; AInt KInt 3])]]
  [mkStep "consensus" "consensus1" "" [("observations", ASlice [AString "$(compute1.outputs)"; AString "$(trigger.outputs)"])]]
  [mkStep "write-target" "" "$(consensus1.outputs)" []].

Section witnesses.
#[local] Existing Instance lengthGraphs.

Definition demoGraph : DependencyGraph lengthGraph :=
  match BuildDependencyGraph (insertion_order _) demoSpec with Ok d => d | _ => mkDep (mkGraph ∅ ∅) ∅ end.

Lemma demo_builds : BuildDependencyGraph (insertion_order _) demoSpec = Ok demoGraph.
Proof. by vm_compute. Qed.

Lemma every_step_triggered_witness :
  BuildDependencyGraph (insertion_order _) demoSpec = Ok demoGraph ∧
  vertices (graph demoGraph) !! "write-target"%string = Some (mkStep "write-target" "write-target" "$(consensus1.outputs)" []) ∧
  rtc (λ a b, (a, b) ∈ edges (graph demoGraph)) KeywordTrigger "write-target".
Proof.
  split; [exact demo_builds|]. destruct (every_step_triggered _ _ _ demo_builds) as (_ & Hv & _ & _ & Hr).
  assert (vertices (graph demoGraph) !! "write-target"%string = Some (mkStep "write-target" "write-target" "$(consensus1.outputs)" [])) as Hw.
  { apply Hv. right. exists (mkStep "write-target" "" "$(consensus1.outputs)" []). split; [cbn; set_solver|done]. }
  split; [exact Hw|]. apply Hr. by eexists.
Defined.
End witnesses.

Definition demoInput : any := AMap [("a", AString "$(step.outputs.0)"); ("b", AString "text")]%string.
Definition demoResults (r : string) : option Result :=
  if String.eqb r "step" then Some (mkResult None (Some (VList [Some (VInt64 4)])) false) else None.

Lemma references_decide_witness :
  findRefs demoInput = Ok ["step"%string] ∧
  FindAndInterpolateAllKeys demoInput demoResults =
  FindAndInterpolateAllKeys demoInput (λ r, if String.eqb r "other" then None else demoResults r).
Proof.
  split; [by vm_compute|]. apply (references_decide demoInput ["step"%string]); [by vm_compute|].
  by intros r ->%list_elem_of_singleton.
Defined.

Example demo_interpolates :
  FindAndInterpolateAllKeys demoInput demoResults = Ok (AMap [("a", AInt KInt64 4); ("b", AString "text")]%string).
Proof. by vm_compute. Qed.
End Workflows.
