(* ===== verification/Triggers.v ===== *)
(** [src/pkg/capabilities/triggers]: the service that sends the latest reports to
    its subscribers ([mercury_trigger.go]), the aggregator of the events of
    remote nodes ([mercury_remote_aggregator.go]) and the on-demand trigger
    ([on_demand_trigger.go]).

    A call under the lock is one operation.  A subscriber's channel is its
    buffer and whether it is closed; receiving is the subscriber's business and
    an operation too. *)

From stdpp Require Import pretty.
From S2P Require Import Prelude GoBytes GoStrings Values Consensus DataFeeds.

Module Triggers.
Import Values DataFeeds.

Inductive terror := ErrConfig | ErrRegistered | ErrFrequency | ErrNotRegistered | ErrNoReports | ErrWrap | ErrFull.

Record TriggerResponse := mkTriggerResponse { TriggerType : string; EventID : string; EventOutputs : option Value }.

(** *** Wrapping reports *)

Definition reportAny (r : FeedReport) : any :=
  AStruct [("FeedID", "", true, AString (FeedID r)); ("FullReport", "", true, ABytes (FullReport r));
           ("ReportContext", "", true, ABytes (ReportContext r)); ("Signatures", "", true, ASlice (ABytes <$> Signatures r));
           ("BenchmarkPrice", "", true, ABytes (BenchmarkPrice r)); ("ObservationTimestamp", "", true, AInt KInt64 (ObservationTimestamp r))]%string.

Definition WrapReports (reportList : list FeedReport) (eventID : string) (timestamp : Z) (meta : TriggerMetadata) (capID : string)
    : outcome terror TriggerResponse :=
  let? outputsv := map_err (λ _, ErrWrap) (Wrap (AStruct
    [("Payload", "", true, ASlice (reportAny <$> reportList));
     ("Metadata", "", true, AStruct [("Signers", "", true, ASlice (ABytes <$> Signers meta));
                                     ("MinRequiredSignatures", "", true, AInt KInt (MinRequiredSignatures meta))]);
     ("Timestamp", "", true, AInt KInt64 timestamp)]%string)) in
  Ok (mkTriggerResponse capID eventID outputsv).

(** *** The aggregator of remote events *)

Record remoteConfig := mkRemote { allowedSigners : list (list byte); minRequiredSignatures : Z; capID : string }.

Record remoteRound := mkRemoteRound {
  latestReports : gmap string FeedReport;
  previousLatestReports : gmap string FeedReport;
  latestGlobalTs : Z
}.

Section remote.
Context `{ReportCodec} (unmarshalOutputs : list byte → option Value) (a : remoteConfig).

(** One report of a response. *)
Definition remoteStep (st : remoteRound) (report : FeedReport) : remoteRound :=
  let id := FeedID report in
  let '(latestReport, st) :=
    match latestReports st !! id with
    | Some l => (Some l, st)
    | None =>
        match previousLatestReports st !! id with
        | None => (None, st)
        | Some l => (Some l, mkRemoteRound (<[id := l]> (latestReports st)) (previousLatestReports st)
                       (if decide (latestGlobalTs st < ObservationTimestamp l)%Z then ObservationTimestamp report else latestGlobalTs st))
        end
    end in
  let newer := match latestReport with None => true | Some l => bool_decide (ObservationTimestamp l < ObservationTimestamp report)%Z end in
  if newer && codecValidate report (allowedSigners a) (minRequiredSignatures a) then
    mkRemoteRound (<[id := report]> (latestReports st)) (<[id := report]> (previousLatestReports st))
      (if decide (latestGlobalTs st < ObservationTimestamp report)%Z then ObservationTimestamp report else latestGlobalTs st)
  else st.

Definition remoteResponse (st : remoteRound) (response : list byte) : remoteRound :=
  match unmarshalOutputs response with
  | None => st
  | Some v => match codecUnwrap v with None => st | Some reports => foldl remoteStep st reports end
  end.

(** The response, and the reports remembered for the next call. *)
Definition Aggregate (previous : gmap string FeedReport) (triggerEventID : string) (responses : list (list byte))
    : outcome terror TriggerResponse * gmap string FeedReport :=
  let st := foldl remoteResponse (mkRemoteRound ∅ previous 0) responses in
  (if decide (latestReports st = ∅) then Err ErrNoReports
   else
     let allIDs := sortFeedIDs ((λ kv, FeedID kv.2) <$> map_to_list (latestReports st)) in
     let reportList := (λ id, default (mkReport "" [] [] [] [] 0) (latestReports st !! id)) <$> allIDs in
     WrapReports reportList triggerEventID (latestGlobalTs st) (mkMetadata (allowedSigners a) (minRequiredSignatures a)) (capID a),
   previousLatestReports st).
End remote.

(** *** Channels *)

Definition defaultSendChannelBufferSize : nat := 1000.

Record channel := mkChannel { buffer : list TriggerResponse; isClosed : bool }.

(** Sending with a default case: [Panic] on a closed channel, [None] when the
    buffer is full. *)
Definition trySend (chans : gmap nat channel) (ch : nat) (x : TriggerResponse) : outcome terror (option (gmap nat channel)) :=
  match chans !! ch with
  | None => Ok None                                   (* a nil channel is never ready *)
  | Some c => if isClosed c then Panic
              else if decide (length (buffer c) < defaultSendChannelBufferSize)
                   then Ok (Some (<[ch := mkChannel (buffer c ++ [x]) false]> chans)) else Ok None
  end.

Definition closeChannel (chans : gmap nat channel) (ch : nat) : outcome terror (gmap nat channel) :=
  match chans !! ch with
  | None => Panic
  | Some c => if isClosed c then Panic else Ok (<[ch := mkChannel (buffer c) true]> chans)
  end.

(** *** The service *)

Record TriggerConfig := mkTriggerConfig { FeedIds : list string; MaxFrequencyMs : Z }.
Record subscriber := mkSubscriber { subCh : nat; workflowID : string; subConfig : TriggerConfig }.

Record MercuryTriggerService := mkService {
  tickerResolutionMs : Z;
  subscribers : gmap string subscriber;
  serviceReports : gmap string FeedReport;
  channels : gmap nat channel;
  metaOverride : TriggerMetadata;
  serviceID : string
}.

Definition defaultTickerResolutionMs : Z := 1000.

Definition NewMercuryTriggerService (resolution : Z) (id : string) : MercuryTriggerService :=
  mkService (if decide (resolution = 0)%Z then defaultTickerResolutionMs else resolution) ∅ ∅ ∅ (mkMetadata [] 0) id.

Definition setChannels (subs : gmap string subscriber) (chans : gmap nat channel) (o : MercuryTriggerService) : MercuryTriggerService :=
  mkService (tickerResolutionMs o) subs (serviceReports o) chans (metaOverride o) (serviceID o).

Definition SetMetaOverride (meta : TriggerMetadata) (o : MercuryTriggerService) : MercuryTriggerService :=
  mkService (tickerResolutionMs o) (subscribers o) (serviceReports o) (channels o) meta (serviceID o).

Definition ProcessReport (reports : list FeedReport) (o : MercuryTriggerService) : MercuryTriggerService :=
  mkService (tickerResolutionMs o) (subscribers o) (foldl (λ m r, <[FeedID r := r]> m) (serviceReports o) reports)
            (channels o) (metaOverride o) (serviceID o).

(** [config] is the validated configuration: at least one millisecond.  The new
    channel gets the number that is free. *)
Definition RegisterTrigger (config : option TriggerConfig) (triggerID wid : string) (o : MercuryTriggerService)
    : outcome terror (nat * MercuryTriggerService) :=
  match config with
  | None => Err ErrConfig
  | Some config =>
      match subscribers o !! triggerID with
      | Some _ => Err ErrRegistered
      | None =>
          if decide (tickerResolutionMs o = 0)%Z then Panic
          else if decide (Z.rem (wrapS 64 (MaxFrequencyMs config)) (tickerResolutionMs o) ≠ 0)%Z then Err ErrFrequency
          else
            let ch := fresh (dom (channels o)) in
            Ok (ch, setChannels (<[triggerID := mkSubscriber ch wid config]> (subscribers o)) (<[ch := mkChannel [] false]> (channels o)) o)
      end
  end.

Definition UnregisterTrigger (triggerID : string) (o : MercuryTriggerService) : outcome terror MercuryTriggerService :=
  match subscribers o !! triggerID with
  | None => Err ErrNotRegistered
  | Some sub =>
      let? chans := closeChannel (channels o) (subCh sub) in
      Ok (setChannels (delete triggerID (subscribers o)) chans o)
  end.

(** The reports that a subscriber asks for, as far as they are known. *)
Definition reportsFor (o : MercuryTriggerService) (sub : subscriber) : list FeedReport :=
  omap (λ id, serviceReports o !! id) (FeedIds (subConfig sub)).

(** The id of the event of a timestamp: the number in decimal, padded with zeros
    to 24 characters. *)
Definition eventIDOf (timestamp : Z) : string :=
  let t := pretty timestamp in ("streams_" ++ Repeat "0" (24 - String.length t) ++ t)%string.

Definition due (timestamp : Z) (sub : subscriber) : bool :=
  bool_decide (Z.rem timestamp (wrapS 64 (MaxFrequencyMs (subConfig sub))) = 0)%Z.

(** One iteration of the loop over the subscribers. *)
Definition processStep (o : MercuryTriggerService) (timestamp : Z) (chans : gmap nat channel) (kv : string * subscriber)
    : outcome terror (gmap nat channel) :=
  let sub := kv.2 in
  if decide (wrapS 64 (MaxFrequencyMs (subConfig sub)) = 0)%Z then Panic
  else if due timestamp sub then
    match WrapReports (reportsFor o sub) (eventIDOf timestamp) timestamp (metaOverride o) (serviceID o) with
    | Ok response => let? sent := trySend chans (subCh sub) response in Ok (default chans sent)
    | Err _ => Ok chans
    | Panic => Panic
    end
  else Ok chans.

Definition process (O : RangeOrder (string * subscriber)) (timestamp : Z) (o : MercuryTriggerService) : outcome terror MercuryTriggerService :=
  let? chans := ofold (processStep o timestamp) (channels o) (range_map O (subscribers o)) in
  Ok (setChannels (subscribers o) chans o).

(** The closest multiple of the resolution, and the time to wait for the next. *)
Definition aligned (startTs resolution : Z) : Z :=
  wrapS 64 (Z.quot (wrapS 64 (startTs + Z.quot resolution 2)) resolution * resolution)%Z.
Definition getNextWaitIntervalMs (lastTs resolution currentTs : Z) : Z :=
  let nextWait := wrapS 64 (lastTs + resolution - currentTs)%Z in if decide (nextWait <= 0)%Z then 0%Z else nextWait.

(** What can happen to the service; a receiver takes the oldest event. *)
Inductive op :=
  | OpMeta (meta : TriggerMetadata)
  | OpReports (reports : list FeedReport)
  | OpRegister (config : option TriggerConfig) (triggerID wid : string)
  | OpUnregister (triggerID : string)
  | OpProcess (O : RangeOrder (string * subscriber)) (timestamp : Z)
  | OpReceive (ch : nat).

Definition receive (ch : nat) (o : MercuryTriggerService) : MercuryTriggerService :=
  match channels o !! ch with
  | Some (mkChannel (_ :: buf) cl) => setChannels (subscribers o) (<[ch := mkChannel buf cl]> (channels o)) o
  | _ => o
  end.

(** An error leaves the service as it is. *)
Definition unchanged (o : MercuryTriggerService) (m : outcome terror MercuryTriggerService) : outcome terror MercuryTriggerService :=
  match m with Err _ => Ok o | m => m end.

Definition apply (o : MercuryTriggerService) (x : op) : outcome terror MercuryTriggerService :=
  match x with
  | OpMeta meta => Ok (SetMetaOverride meta o)
  | OpReports reports => Ok (ProcessReport reports o)
  | OpRegister config triggerID wid => unchanged o (let? (_, o) := RegisterTrigger config triggerID wid o in Ok o)
  | OpUnregister triggerID => unchanged o (UnregisterTrigger triggerID o)
  | OpProcess ord timestamp => process ord timestamp o
  | OpReceive ch => Ok (receive ch o)
  end.

(** *** The on-demand trigger *)

Record OnDemand := mkOnDemand { chans : gmap string nat; odChannels : gmap nat channel }.

(** One iteration of [FanOutEvent]. *)
Definition fanOutStep (response : TriggerResponse) (cs : gmap nat channel) (kv : string * nat) : outcome terror (gmap nat channel) :=
  let? sent := trySend cs kv.2 response in Ok (default cs sent).

Definition FanOutEvent (O : RangeOrder (string * nat)) (response : TriggerResponse) (o : OnDemand) : outcome terror OnDemand :=
  let? cs := ofold (fanOutStep response) (odChannels o) (range_map O (chans o)) in Ok (mkOnDemand (chans o) cs).

Definition SendEvent (wid : string) (event : TriggerResponse) (o : OnDemand) : outcome terror OnDemand :=
  match chans o !! wid with
  | None => Err ErrNotRegistered
  | Some ch =>
      let? sent := trySend (odChannels o) ch event in
      match sent with Some cs => Ok (mkOnDemand (chans o) cs) | None => Err ErrFull end
  end.

(** A channel that was registered before is replaced, and not closed. *)
Definition RegisterOnDemand (wid : string) (o : OnDemand) : nat * OnDemand :=
  let ch := fresh (dom (odChannels o)) in
  (ch, mkOnDemand (<[wid := ch]> (chans o)) (<[ch := mkChannel [] false]> (odChannels o))).

Definition UnregisterOnDemand (wid : string) (o : OnDemand) : outcome terror OnDemand :=
  match chans o !! wid with
  | None => Ok o
  | Some ch => let? cs := closeChannel (odChannels o) ch in Ok (mkOnDemand (delete wid (chans o)) cs)
  end.

(** *** Wrapping: facts *)

Definition bytesList (l : list (list byte)) : option Value := Some (VList ((λ b, Some (VBytes b)) <$> l)).

Definition reportVal (r : FeedReport) : Value :=
  VMap [("FeedID", Some (VString (FeedID r))); ("FullReport", Some (VBytes (FullReport r)));
        ("ReportContext", Some (VBytes (ReportContext r))); ("Signatures", bytesList (Signatures r));
        ("BenchmarkPrice", Some (VBytes (BenchmarkPrice r))); ("ObservationTimestamp", Some (VInt64 (wrapS 64 (ObservationTimestamp r))))]%string.

Definition eventVal (reports : list FeedReport) (timestamp : Z) (meta : TriggerMetadata) : Value :=
  VMap [("Payload", Some (VList (Some ∘ reportVal <$> reports)));
        ("Metadata", Some (VMap [("Signers", bytesList (Signers meta)); ("MinRequiredSignatures", Some (VInt64 (wrapS 64 (MinRequiredSignatures meta))))]));
        ("Timestamp", Some (VInt64 (wrapS 64 timestamp)))]%string.

Lemma Wrap_bytes (l : list (list byte)) : Wrap (ASlice (ABytes <$> l)) = Ok (bytesList l).
Proof.
  rewrite Wrap_ASlice. assert (wrapList (ABytes <$> l) = Ok ((λ b, Some (VBytes b)) <$> l)) as ->; [|done].
  induction l as [|b l IH]; [done|]. cbn [fmap list_fmap wrapList]. by rewrite IH.
Qed.

Lemma Wrap_report r : Wrap (reportAny r) = Ok (Some (reportVal r)).
Proof.
  pose proof (Wrap_bytes (Signatures r)) as Hs. rewrite /reportAny. remember (ASlice (ABytes <$> Signatures r)) as a.
  cbn. by rewrite Hs.
Qed.

Lemma WrapReports_ok reports eventID timestamp meta capID :
  WrapReports reports eventID timestamp meta capID = Ok (mkTriggerResponse capID eventID (Some (eventVal reports timestamp meta))).
Proof.
  assert (Wrap (ASlice (reportAny <$> reports)) = Ok (Some (VList (Some ∘ reportVal <$> reports)))) as Hp.
  { rewrite Wrap_ASlice. assert (wrapList (reportAny <$> reports) = Ok (Some ∘ reportVal <$> reports)) as ->; [|done].
    induction reports as [|r reports IH]; [done|]. cbn [fmap list_fmap wrapList]. by rewrite Wrap_report IH. }
  pose proof (Wrap_bytes (Signers meta)) as Hm. rewrite /WrapReports.
  remember (ASlice (ABytes <$> Signers meta)) as a. remember (ASlice (reportAny <$> reports)) as b.
  cbn. by rewrite Hp /= Hm.
Qed.

(** The reports of a trigger event come out of it again: unwrapping what
    [WrapReports] made gives the reports, without the two fields that are
    derived from the full report. *)
Theorem unwrap_WrapReports reports eventID timestamp meta capID :
  ∃ resp, WrapReports reports eventID timestamp meta capID = Ok resp ∧
    UnwrapStreamsTriggerEventToFeedReportList (EventOutputs resp) =
    Ok ((λ r, mkReport (FeedID r) (FullReport r) (ReportContext r) (Signatures r) [] 0) <$> reports).
Proof.
  eexists. split; [apply WrapReports_ok|]. cbn [EventOutputs UnwrapStreamsTriggerEventToFeedReportList eventVal mapGet].
  change (String.eqb "Payload" "Payload") with true. cbn [negb]. induction reports as [|r reports IH]; [done|].
  cbn [fmap list_fmap omapM]. change ((Some ∘ reportVal) r) with (Some (reportVal r)).
  assert (∀ l, omapM unwrapSignature ((λ b, Some (VBytes b)) <$> l) = Ok l) as Hs
    by (induction l as [|b l IHl]; [done|]; cbn [fmap list_fmap omapM]; by rewrite IHl).
  assert (unwrapReport (Some (reportVal r)) = Ok (mkReport (FeedID r) (FullReport r) (ReportContext r) (Signatures r) [] 0)) as ->
    by (rewrite /unwrapReport /reportVal /bytesList /=; by rewrite Hs).
  rewrite obind_ok. by rewrite IH.
Qed.

(** *** The aggregator of remote events: facts *)

Section remote_facts.
Context `{ReportCodec} (unmarshalOutputs : list byte → option Value) (a : remoteConfig).

Definition valid (r : FeedReport) : Prop := codecValidate r (allowedSigners a) (minRequiredSignatures a) = true.

(** The remembered reports are valid, and stored under their feed. *)
Definition goodReports (m : gmap string FeedReport) : Prop := ∀ id r, m !! id = Some r → FeedID r = id ∧ valid r.

(** [m'] has a report at least as new for every feed of [m]. *)
Definition notOlder (m m' : gmap string FeedReport) : Prop :=
  ∀ id r, m !! id = Some r → ∃ r', m' !! id = Some r' ∧ (ObservationTimestamp r <= ObservationTimestamp r')%Z.

#[export] Instance notOlder_preorder : PreOrder notOlder.
Proof.
  split; [intros m id r Hr; by exists r|]. intros m1 m2 m3 H12 H23 id r Hr.
  destruct (H12 _ _ Hr) as (r2 & Hr2 & Hle). destruct (H23 _ _ Hr2) as (r3 & Hr3 & Hle'). exists r3. split; [done|lia].
Qed.

Lemma notOlder_insert m r :
  match m !! FeedID r with Some l => (ObservationTimestamp l <= ObservationTimestamp r)%Z | None => True end →
  notOlder m (<[FeedID r := r]> m).
Proof.
  intros Hr id r' Hr'. destruct (decide (id = FeedID r)) as [->|Hne]; [|exists r'; rewrite lookup_insert_ne //].
  exists r. rewrite lookup_insert_eq. split; [done|]. by rewrite Hr' in Hr.
Qed.

Record remoteInv (seen : list FeedReport) (st : remoteRound) : Prop := {
  ri_good : goodReports (previousLatestReports st);
  ri_latest id r : latestReports st !! id = Some r → previousLatestReports st !! id = Some r;
  ri_seen r : r ∈ seen → valid r → ∃ r', latestReports st !! FeedID r = Some r' ∧ (ObservationTimestamp r <= ObservationTimestamp r')%Z
}.

(** The first part of a step: a feed not met yet in this call takes its
    remembered report. *)
Definition recall (st : remoteRound) (report : FeedReport) : remoteRound :=
  match latestReports st !! FeedID report, previousLatestReports st !! FeedID report with
  | None, Some l => mkRemoteRound (<[FeedID report := l]> (latestReports st)) (previousLatestReports st)
                      (if decide (latestGlobalTs st < ObservationTimestamp l)%Z then ObservationTimestamp report else latestGlobalTs st)
  | _, _ => st
  end.

Lemma remoteStep_recall st r :
  let st1 := recall st r in
  remoteStep a st r =
  let newer := match latestReports st1 !! FeedID r with None => true | Some l => bool_decide (ObservationTimestamp l < ObservationTimestamp r)%Z end in
  if newer && codecValidate r (allowedSigners a) (minRequiredSignatures a) then
    mkRemoteRound (<[FeedID r := r]> (latestReports st1)) (<[FeedID r := r]> (previousLatestReports st1))
      (if decide (latestGlobalTs st1 < ObservationTimestamp r)%Z then ObservationTimestamp r else latestGlobalTs st1)
  else st1.
Proof.
  rewrite /remoteStep /recall. destruct (latestReports st !! FeedID r) as [l|] eqn:El; [by rewrite El|].
  destruct (previousLatestReports st !! FeedID r) as [l|] eqn:Ep; [cbn; by rewrite lookup_insert_eq|by rewrite El].
Qed.

Lemma recall_spec seen st r :
  remoteInv seen st → remoteInv seen (recall st r) ∧ previousLatestReports (recall st r) = previousLatestReports st ∧
  (latestReports (recall st r) !! FeedID r = previousLatestReports st !! FeedID r).
Proof.
  intros [Hgood Hlatest Hseen]. rewrite /recall. destruct (latestReports st !! FeedID r) as [l|] eqn:El.
  - split; [by constructor|]. split; [done|]. rewrite El. symmetry. by apply Hlatest.
  - destruct (previousLatestReports st !! FeedID r) as [l|] eqn:Ep; [|split; [by constructor|by rewrite El]].
    split; [|cbn; by rewrite lookup_insert_eq]. constructor; cbn; [done| |].
    + intros id r' [[<- <-]|[_ Hr']]%lookup_insert_Some; [done|by apply Hlatest].
    + intros r' Hr' Hv. destruct (Hseen r' Hr' Hv) as (r2 & Hr2 & Hle). exists r2. split; [|done].
      rewrite lookup_insert_ne //. intros Heq. rewrite Heq in El. congruence.
Qed.

Lemma remoteStep_inv seen st r :
  remoteInv seen st → remoteInv (seen ++ [r]) (remoteStep a st r) ∧
  notOlder (previousLatestReports st) (previousLatestReports (remoteStep a st r)).
Proof.
  intros Hinv. destruct (recall_spec seen st r Hinv) as ([Hgood Hlatest Hseen] & Hprev & Hrec). rewrite remoteStep_recall. cbv zeta.
  set (st1 := recall st r) in *. rewrite -Hprev.
  assert (match latestReports st1 !! FeedID r with None => true | Some l => bool_decide (ObservationTimestamp l < ObservationTimestamp r)%Z end = true →
          match previousLatestReports st1 !! FeedID r with Some l => (ObservationTimestamp l <= ObservationTimestamp r)%Z | None => True end) as Hnewer.
  { rewrite Hprev -Hrec. destruct (latestReports st1 !! FeedID r); [|done]. intros Hb%bool_decide_eq_true. lia. }
  destruct (match latestReports st1 !! FeedID r with None => true | Some l => _ end) eqn:En.
  - destruct (codecValidate r (allowedSigners a) (minRequiredSignatures a)) eqn:Ev; cbn [andb].
    + split; [|apply notOlder_insert; by apply Hnewer]. constructor; cbn.
      * intros id r' [[<- <-]|[_ Hr']]%lookup_insert_Some; [done|by apply Hgood].
      * intros id r' [[<- <-]|[Hne Hr']]%lookup_insert_Some; [by rewrite lookup_insert_eq|]. rewrite lookup_insert_ne //. by apply Hlatest.
      * intros r' [Hr'| ->%list_elem_of_singleton]%elem_of_app Hv; [|exists r; rewrite lookup_insert_eq; split; [done|lia]].
        destruct (Hseen r' Hr' Hv) as (r2 & Hr2 & Hle). destruct (decide (FeedID r' = FeedID r)) as [Heq|Hne].
        { exists r. rewrite Heq lookup_insert_eq. split; [done|]. rewrite Heq in Hr2. rewrite Hr2 in En. apply bool_decide_eq_true in En. lia. }
        exists r2. by rewrite lookup_insert_ne.
    + split; [|done]. constructor; [done|done|]. intros r' [Hr'| ->%list_elem_of_singleton]%elem_of_app Hv; [by apply Hseen|].
      rewrite /valid in Hv. congruence.
  - cbn [andb]. split; [|done]. constructor; [done|done|]. intros r' [Hr'| ->%list_elem_of_singleton]%elem_of_app Hv; [by apply Hseen|].
    destruct (latestReports st1 !! FeedID r) as [l|]; [|done]. apply bool_decide_eq_false in En. exists l. split; [done|lia].
Qed.

Lemma remoteSteps_inv reports seen st :
  remoteInv seen st → remoteInv (seen ++ reports) (foldl (remoteStep a) st reports) ∧
  notOlder (previousLatestReports st) (previousLatestReports (foldl (remoteStep a) st reports)).
Proof.
  revert seen st. induction reports as [|r reports IH]; intros seen st Hinv; [by rewrite app_nil_r|]. cbn [foldl].
  destruct (remoteStep_inv seen st r Hinv) as [Hinv' Hold]. destruct (IH _ _ Hinv') as [Hinv2 Hold2].
  rewrite (cons_middle r) assoc. split; [done|]. by etransitivity.
Qed.

(** The reports of the responses that can be decoded. *)
Definition responseReports (response : list byte) : list FeedReport :=
  match unmarshalOutputs response with Some v => default [] (codecUnwrap v) | None => [] end.

Lemma remoteResponses_inv responses seen st :
  remoteInv seen st →
  remoteInv (seen ++ mjoin (responseReports <$> responses)) (foldl (remoteResponse unmarshalOutputs a) st responses) ∧
  notOlder (previousLatestReports st) (previousLatestReports (foldl (remoteResponse unmarshalOutputs a) st responses)).
Proof.
  revert seen st. induction responses as [|x responses IH]; intros seen st Hinv; [by rewrite app_nil_r|]. cbn [foldl].
  assert (remoteResponse unmarshalOutputs a st x = foldl (remoteStep a) st (responseReports x)) as ->.
  { rewrite /remoteResponse /responseReports. destruct (unmarshalOutputs x) as [v|]; [|done]. by destruct (codecUnwrap v). }
  destruct (remoteSteps_inv (responseReports x) seen st Hinv) as [Hinv' Hold]. destruct (IH _ _ Hinv') as [Hinv2 Hold2].
  cbn [fmap list_fmap mjoin list_join]. rewrite assoc. split; [done|]. by etransitivity.
Qed.

Lemma elem_of_reportList (m : gmap string FeedReport) r :
  (∀ id r, m !! id = Some r → FeedID r = id) →
  r ∈ (λ id, default (mkReport "" [] [] [] [] 0) (m !! id)) <$> sortFeedIDs ((λ kv, FeedID kv.2) <$> map_to_list m) ↔ m !! FeedID r = Some r.
Proof.
  intros Hkey. rewrite list_elem_of_fmap. setoid_rewrite sortFeedIDs_perm. setoid_rewrite list_elem_of_fmap. split.
  - intros (id & -> & ([k r'] & -> & Hin%elem_of_map_to_list)). cbn. rewrite (Hkey _ _ Hin) Hin /=. by rewrite (Hkey _ _ Hin) Hin.
  - intros Hr. exists (FeedID r). rewrite Hr. split; [done|]. exists (FeedID r, r). split; [done|]. by apply elem_of_map_to_list.
Qed.

(** A step reports the feed of its report, and no other. *)
Lemma remoteStep_mentioned st r id :
  is_Some (latestReports (remoteStep a st r) !! id) → is_Some (latestReports st !! id) ∨ id = FeedID r.
Proof.
  rewrite remoteStep_recall. cbv zeta. intros Hs. destruct (decide (id = FeedID r)) as [->|Hne]; [by right|]. left.
  assert (is_Some (latestReports (recall st r) !! id) → is_Some (latestReports st !! id)) as Hrecall.
  { rewrite /recall. destruct (latestReports st !! FeedID r), (previousLatestReports st !! FeedID r); cbn; try done.
    rewrite lookup_insert_ne; [done|congruence]. }
  apply Hrecall. destruct (_ && _); cbn [latestReports] in Hs; [|exact Hs]. rewrite lookup_insert_ne in Hs; [exact Hs|congruence].
Qed.

Lemma remoteResponses_mentioned responses st id :
  is_Some (latestReports (foldl (remoteResponse unmarshalOutputs a) st responses) !! id) →
  is_Some (latestReports st !! id) ∨ ∃ response v rs r, response ∈ responses ∧ unmarshalOutputs response = Some v ∧
    codecUnwrap v = Some rs ∧ r ∈ rs ∧ FeedID r = id.
Proof.
  assert (∀ rs st, is_Some (latestReports (foldl (remoteStep a) st rs) !! id) →
            is_Some (latestReports st !! id) ∨ ∃ r, r ∈ rs ∧ FeedID r = id) as Hsteps.
  { induction rs as [|r rs IH]; intros st' Hs; [by left|]. cbn [foldl] in Hs.
    destruct (IH _ Hs) as [[?| ->]%remoteStep_mentioned|(r' & Hr' & Hid)]; [by left|right; exists r; set_solver|right; exists r'; set_solver]. }
  revert st. induction responses as [|x responses IH]; intros st Hs; [by left|]. cbn [foldl] in Hs.
  destruct (IH _ Hs) as [H1|(response & v & rs & r & Hin & Hrest)]; [|right; exists response, v, rs, r; set_solver].
  rewrite /remoteResponse in H1. destruct (unmarshalOutputs x) as [v|] eqn:Hv; [|by left].
  destruct (codecUnwrap v) as [rs|] eqn:Hrs; [|by left]. apply Hsteps in H1 as [?|(r & Hr & Hid)]; [by left|].
  right. exists x, v, rs, r. set_solver.
Qed.

(** The feeds of the listed reports are the keys, each once. *)
Lemma reportList_feeds (m : gmap string FeedReport) :
  (∀ id r, m !! id = Some r → FeedID r = id) →
  NoDup (FeedID <$> ((λ id, default (mkReport "" [] [] [] [] 0) (m !! id)) <$> sortFeedIDs ((λ kv, FeedID kv.2) <$> map_to_list m))).
Proof.
  intros Hkey. assert ((λ kv : string * FeedReport, FeedID kv.2) <$> map_to_list m = (map_to_list m).*1) as Hfst.
  { apply list_fmap_ext. intros i [k r] Hi%list_elem_of_lookup_2%elem_of_map_to_list. by apply Hkey. }
  rewrite Hfst -list_fmap_compose. assert (∀ l : list string, (∀ id, id ∈ l → is_Some (m !! id)) →
    (FeedID ∘ λ id, default (mkReport "" [] [] [] [] 0) (m !! id)) <$> l = l) as Hid.
  { induction l as [|id l IH]; intros Hl; [done|]. cbn. rewrite IH; [|set_solver]. f_equal.
    destruct (Hl id) as [r Hr]; [set_solver|]. rewrite Hr. by apply Hkey. }
  rewrite Hid.
  - rewrite sortFeedIDs_perm. apply NoDup_fst_map_to_list.
  - intros id. rewrite sortFeedIDs_perm. intros ([k r] & -> & Hin%elem_of_map_to_list)%list_elem_of_fmap. by eexists.
Qed.

(** C13: over any number of calls the remembered reports stay valid and never get
    older.  A call's event has exactly one report for a feed, only of feeds that a
    decoded response mentions; the report is valid and is the one that is
    remembered, and no valid report of the responses, and none that
    was remembered, is newer. *)
Theorem remote_latest previous triggerEventID responses result previous' :
  goodReports previous →
  Aggregate unmarshalOutputs a previous triggerEventID responses = (result, previous') →
  goodReports previous' ∧ notOlder previous previous' ∧
  ∀ resp, result = Ok resp →
    ∃ reports ts, EventOutputs resp = Some (eventVal reports ts (mkMetadata (allowedSigners a) (minRequiredSignatures a))) ∧
      NoDup (FeedID <$> reports) ∧
      (∀ r, r ∈ reports → valid r ∧ previous' !! FeedID r = Some r ∧
         (∃ response v rs r', response ∈ responses ∧ unmarshalOutputs response = Some v ∧ codecUnwrap v = Some rs ∧
            r' ∈ rs ∧ FeedID r' = FeedID r) ∧
         ∀ l, previous !! FeedID r = Some l → (ObservationTimestamp l <= ObservationTimestamp r)%Z) ∧
      (∀ response v rs r, response ∈ responses → unmarshalOutputs response = Some v → codecUnwrap v = Some rs → r ∈ rs → valid r →
         ∃ r', r' ∈ reports ∧ FeedID r' = FeedID r ∧ (ObservationTimestamp r <= ObservationTimestamp r')%Z).
Proof.
  intros Hgood. rewrite /Aggregate. set (st0 := mkRemoteRound ∅ previous 0).
  assert (remoteInv [] st0) as Hinit by (constructor; cbn; [done|intros id r; by rewrite lookup_empty|set_solver]).
  destruct (remoteResponses_inv responses [] st0 Hinit) as [[Hgood' Hlatest Hseen] Hold].
  pose proof (remoteResponses_mentioned responses st0) as Hmention.
  set (st := foldl _ st0 responses) in *. intros [= <- <-]. split; [done|]. split; [done|]. intros resp.
  destruct (decide (latestReports st = ∅)); [done|]. rewrite WrapReports_ok. intros [= <-]. eexists _, _. split; [done|].
  assert (∀ id r, latestReports st !! id = Some r → FeedID r = id) as Hkey by (intros id r Hr; by apply (Hgood' id r), Hlatest).
  split; [by apply reportList_feeds|]. split.
  - intros r Hr. apply elem_of_reportList in Hr; [|done]. destruct (Hmention (FeedID r)) as [[? Hno]|Hm]; [by eexists|by rewrite lookup_empty in Hno|].
    apply Hlatest in Hr. split; [by apply (Hgood' _ _ Hr)|]. split; [done|]. split; [done|].
    intros l (r' & Hr' & Hle)%Hold. rewrite Hr in Hr'. by simplify_eq.
  - intros response v rs r Hin Hv Hrs Hr Hval. destruct (Hseen r) as (r' & Hr' & Hle); [|done|].
    + rewrite app_nil_l list_elem_of_join. exists (responseReports response). split; [by rewrite /responseReports Hv Hrs|]. by apply list_elem_of_fmap_2.
    + exists r'. rewrite elem_of_reportList // (Hkey _ _ Hr'). done.
Qed.

(** The timestamp of the event need not come from a valid report: when a
    feed has a remembered report, a forged report of the feed is rejected, but
    its timestamp becomes that of the event. *)
Theorem forged_timestamp previous triggerEventID response v l r :
  unmarshalOutputs response = Some v → codecUnwrap v = Some [r] →
  previous !! FeedID r = Some l → FeedID l = FeedID r → (0 < ObservationTimestamp l)%Z → ¬ valid r →
  Aggregate unmarshalOutputs a previous triggerEventID [response] =
  (WrapReports [l] triggerEventID (ObservationTimestamp r) (mkMetadata (allowedSigners a) (minRequiredSignatures a)) (capID a), previous).
Proof.
  intros Hv Hrs Hl Hid Hpos Hinv. assert (codecValidate r (allowedSigners a) (minRequiredSignatures a) = false) as Hval
    by (apply not_true_is_false; exact Hinv).
  assert (foldl (remoteResponse unmarshalOutputs a) (mkRemoteRound ∅ previous 0) [response] =
          mkRemoteRound {[FeedID r := l]} previous (ObservationTimestamp r)) as Hst.
  { cbn [foldl]. rewrite /remoteResponse Hv Hrs. cbn [foldl]. rewrite remoteStep_recall. cbv zeta. rewrite Hval andb_false_r.
    rewrite /recall. cbn [latestReports previousLatestReports latestGlobalTs]. rewrite lookup_empty Hl decide_True //. }
  rewrite /Aggregate Hst. cbn [latestReports previousLatestReports latestGlobalTs]. rewrite decide_False; [|apply map_non_empty_singleton].
  rewrite map_to_list_singleton. cbn [fmap list_fmap snd]. rewrite Hid.
  assert (sortFeedIDs [FeedID r] = [FeedID r]) as -> by done. cbn [fmap list_fmap]. by rewrite lookup_singleton_eq.
Qed.
End remote_facts.

(** *** The service: facts *)

(** Subscribers have open channels of their own, and a frequency. *)
Record serviceInv (o : MercuryTriggerService) : Prop := {
  si_resolution : tickerResolutionMs o ≠ 0%Z;
  si_open id sub : subscribers o !! id = Some sub →
    (∃ buf, channels o !! subCh sub = Some (mkChannel buf false)) ∧ wrapS 64 (MaxFrequencyMs (subConfig sub)) ≠ 0%Z;
  si_own id1 id2 s1 s2 : subscribers o !! id1 = Some s1 → subscribers o !! id2 = Some s2 → subCh s1 = subCh s2 → id1 = id2
}.

(** The channel of a subscriber after an event of the timestamp. *)
Definition delivered (o : MercuryTriggerService) (timestamp : Z) (sub : subscriber) (c : channel) : channel :=
  if due timestamp sub && bool_decide (length (buffer c) < defaultSendChannelBufferSize)
  then mkChannel (buffer c ++ [mkTriggerResponse (serviceID o) (eventIDOf timestamp)
                                 (Some (eventVal (reportsFor o sub) timestamp (metaOverride o)))]) (isClosed c)
  else c.

Lemma processStep_spec o timestamp chs id sub buf :
  chs !! subCh sub = Some (mkChannel buf false) → wrapS 64 (MaxFrequencyMs (subConfig sub)) ≠ 0%Z →
  ∃ chs', processStep o timestamp chs (id, sub) = Ok chs' ∧
    chs' !! subCh sub = Some (delivered o timestamp sub (mkChannel buf false)) ∧ ∀ ch, ch ≠ subCh sub → chs' !! ch = chs !! ch.
Proof.
  intros Hc Hf. rewrite /processStep /delivered. cbn [snd]. rewrite decide_False //. destruct (due timestamp sub); [|by exists chs].
  rewrite WrapReports_ok /trySend Hc. cbn [isClosed buffer andb]. case_decide as Hl; cbn [obind default].
  - rewrite bool_decide_true //. eexists. split; [done|]. split; [by rewrite lookup_insert_eq|]. intros ch Hne. by rewrite lookup_insert_ne.
  - rewrite bool_decide_false //. by exists chs.
Qed.

Lemma processLoop_spec o timestamp l chs :
  NoDup ((λ kv : string * subscriber, subCh kv.2) <$> l) →
  (∀ id sub, (id, sub) ∈ l → (∃ buf, chs !! subCh sub = Some (mkChannel buf false)) ∧ wrapS 64 (MaxFrequencyMs (subConfig sub)) ≠ 0%Z) →
  ∃ chs', ofold (processStep o timestamp) chs l = Ok chs' ∧
    (∀ id sub c, (id, sub) ∈ l → chs !! subCh sub = Some c → chs' !! subCh sub = Some (delivered o timestamp sub c)) ∧
    ∀ ch, ch ∉ (λ kv : string * subscriber, subCh kv.2) <$> l → chs' !! ch = chs !! ch.
Proof.
  revert chs. induction l as [|[id sub] l IH]; intros chs Hnd Hall; [exists chs; split; [done|]; split; [set_solver|done]|].
  apply NoDup_cons in Hnd as [Hnot Hnd]. destruct (Hall id sub) as [[buf Hbuf] Hf]; [set_solver|].
  destruct (processStep_spec o timestamp chs id sub buf Hbuf Hf) as (chs1 & H1 & Hs1 & Ho1). cbn [ofold]. rewrite H1 obind_ok.
  assert (∀ id' sub', (id', sub') ∈ l → subCh sub' ≠ subCh sub) as Hne.
  { intros id' sub' Hin Heq. apply Hnot. cbn. rewrite -Heq. by apply (list_elem_of_fmap_2 (λ kv : string * subscriber, subCh kv.2) l (id', sub')). }
  destruct (IH chs1 Hnd) as (chs' & H2 & Hs2 & Ho2).
  { intros id' sub' Hin. rewrite Ho1; [|by eapply Hne]. apply (Hall id'). set_solver. }
  exists chs'. split; [done|]. split.
  - intros id' sub' c [[= -> ->]|Hin]%elem_of_cons Hc; [rewrite Ho2 // Hs1; congruence|]. apply (Hs2 id'); [done|]. rewrite Ho1 //. by eapply Hne.
  - intros ch Hch. cbn in Hch. rewrite Ho2; [apply Ho1|]; set_solver.
Qed.

Lemma process_spec O timestamp o :
  serviceInv o → ∃ o', process O timestamp o = Ok o' ∧ o' = setChannels (subscribers o) (channels o') o ∧
    (∀ id sub c, subscribers o !! id = Some sub → channels o !! subCh sub = Some c →
       channels o' !! subCh sub = Some (delivered o timestamp sub c)) ∧
    ∀ ch, (∀ id sub, subscribers o !! id = Some sub → subCh sub ≠ ch) → channels o' !! ch = channels o !! ch.
Proof.
  intros [_ Hopen Hown]. destruct (processLoop_spec o timestamp (range_map O (subscribers o)) (channels o)) as (chs & Hl & Hs & Ho).
  - apply NoDup_map_inj_on; [|eapply NoDup_fmap_1, NoDup_fst_range_map].
    intros [id1 s1] [id2 s2] Hi1%elem_of_range_map Hi2%elem_of_range_map Heq. cbn in Heq.
    assert (id1 = id2) as -> by by eapply Hown. congruence.
  - intros id sub Hin%elem_of_range_map. by apply (Hopen id).
  - exists (setChannels (subscribers o) chs o). rewrite /process Hl. split; [done|]. split; [done|]. split.
    + intros id sub c Hsub Hc. apply (Hs id); [by apply elem_of_range_map|done].
    + intros ch Hch. apply Ho. intros ([id sub] & -> & Hin%elem_of_range_map)%list_elem_of_fmap. by apply (Hch id sub).
Qed.

Lemma process_inv O timestamp o o' : serviceInv o → process O timestamp o = Ok o' → serviceInv o'.
Proof.
  intros Hinv Hp. destruct (process_spec O timestamp o Hinv) as (o1 & H1 & Heq & Hs & _). rewrite H1 in Hp. simplify_eq.
  destruct Hinv as [Hres Hopen Hown]. rewrite Heq. constructor; cbn; [done| |done]. intros id sub Hsub.
  destruct (Hopen id sub Hsub) as [[buf Hbuf] Hf]. split; [|done]. rewrite (Hs id sub _ Hsub Hbuf) /delivered. destruct (_ && _); by eexists.
Qed.

Lemma register_inv config triggerID wid o ch o' :
  serviceInv o → (∀ c, config = Some c → (1 <= MaxFrequencyMs c < 2 ^ 64)%Z) →
  RegisterTrigger config triggerID wid o = Ok (ch, o') → serviceInv o'.
Proof.
  intros [Hres Hopen Hown] Hc. rewrite /RegisterTrigger. destruct config as [c|]; [|done].
  destruct (subscribers o !! triggerID) eqn:Es; [done|]. rewrite decide_False //. case_decide; [done|]. intros [= <- <-].
  specialize (Hc c eq_refl). pose proof (is_fresh (dom (channels o))) as Hfresh. set (ch := fresh _) in *.
  assert (∀ id sub, subscribers o !! id = Some sub → subCh sub ≠ ch) as Hne.
  { intros id sub Hsub Heq. destruct (Hopen id sub Hsub) as [[buf Hbuf] _]. apply Hfresh. rewrite -Heq. apply elem_of_dom. by rewrite Hbuf. }
  constructor; cbn; [done| |].
  - intros id sub [[<- <-]|[_ Hsub]]%lookup_insert_Some.
    + cbn. split; [exists []; by rewrite lookup_insert_eq|]. rewrite /wrapS. intros Hz.
      assert (((MaxFrequencyMs c + 2 ^ 63) mod 2 ^ 64 = 2 ^ 63)%Z) as Hm by (change (2 ^ (64 - 1))%Z with (2 ^ 63)%Z in Hz; lia).
      clear -Hc Hm. change (2 ^ 64)%Z with 18446744073709551616%Z in *. change (2 ^ 63)%Z with 9223372036854775808%Z in *.
      Z.to_euclidean_division_equations. lia.
    + destruct (Hopen id sub Hsub) as [[buf Hbuf] Hf]. split; [exists buf; rewrite lookup_insert_ne //|done]. intros Heq. by eapply Hne.
  - intros id1 id2 s1 s2 [[<- <-]|[Hn1 H1]]%lookup_insert_Some [[<- <-]|[Hn2 H2]]%lookup_insert_Some; cbn; intros Heq; [done|..].
    + by destruct (Hne _ _ H2).
    + by destruct (Hne _ _ H1).
    + by eapply Hown.
Qed.

Lemma unregister_inv triggerID o :
  serviceInv o → UnregisterTrigger triggerID o ≠ Panic ∧ ∀ o', UnregisterTrigger triggerID o = Ok o' → serviceInv o'.
Proof.
  intros [Hres Hopen Hown]. rewrite /UnregisterTrigger. destruct (subscribers o !! triggerID) as [sub|] eqn:Es; [|done].
  destruct (Hopen _ _ Es) as [[buf Hbuf] _]. rewrite /closeChannel Hbuf. cbn [isClosed buffer obind]. split; [done|]. intros o' [= <-].
  constructor; cbn; [done| |].
  - intros id s [Hne Hs]%lookup_delete_Some. destruct (Hopen id s Hs) as [[b Hb] Hf]. split; [|done]. exists b. rewrite lookup_insert_ne //.
    intros Heq. by apply Hne, (Hown triggerID id sub s).
  - intros id1 id2 s1 s2 [_ H1]%lookup_delete_Some [_ H2]%lookup_delete_Some. by apply Hown.
Qed.

Lemma receive_inv ch o : serviceInv o → serviceInv (receive ch o).
Proof.
  intros [Hres Hopen Hown]. rewrite /receive. destruct (channels o !! ch) as [[[|x buf] cl]|] eqn:Ec; try by constructor.
  constructor; cbn; [done| |done]. intros id sub Hsub. destruct (Hopen id sub Hsub) as [[b Hb] Hf]. split; [|done].
  destruct (decide (subCh sub = ch)) as [Heq|Hne]; [|exists b; by rewrite lookup_insert_ne].
  rewrite Heq lookup_insert_eq. rewrite Heq in Hb. rewrite Hb in Ec. simplify_eq. by eexists.
Qed.

(** Registrations are validated: at least one millisecond. *)
Definition validOp (x : op) : Prop :=
  match x with OpRegister (Some c) _ _ => (1 <= MaxFrequencyMs c < 2 ^ 64)%Z | _ => True end.

Lemma apply_inv o x : serviceInv o → validOp x → ∃ o', apply o x = Ok o' ∧ serviceInv o'.
Proof.
  intros Hinv Hx. destruct x as [meta|reports|config triggerID wid|triggerID|ord timestamp|ch]; cbn [apply].
  - eexists. split; [done|]. by destruct Hinv.
  - eexists. split; [done|]. by destruct Hinv.
  - destruct (RegisterTrigger config triggerID wid o) as [[ch o']| |] eqn:Er; cbn; [eexists; split; [done|]|by eexists|].
    + eapply register_inv; [exact Hinv| |exact Er]. intros c ->. exact Hx.
    + exfalso. rewrite /RegisterTrigger in Er. destruct config; [|done]. destruct (subscribers o !! triggerID); [done|].
      rewrite decide_False in Er; [|apply Hinv]. by case_decide.
  - destruct (unregister_inv triggerID o Hinv) as [Hnp Hok]. destruct (UnregisterTrigger triggerID o) as [o'| |]; cbn; [|by eexists|done].
    exists o'. split; [done|]. by apply Hok.
  - destruct (process_spec ord timestamp o Hinv) as (o' & Hp & _). exists o'. split; [done|]. by eapply process_inv.
  - eexists. split; [done|]. by apply receive_inv.
Qed.

Lemma ops_inv o xs : serviceInv o → Forall validOp xs → ∃ o', ofold apply o xs = Ok o' ∧ serviceInv o'.
Proof.
  intros Hinv Hxs. revert o Hinv. induction Hxs as [|x xs Hx _ IH]; intros o Hinv; cbn [ofold]; [by exists o|].
  destruct (apply_inv o x Hinv Hx) as (o1 & -> & Hinv1). rewrite obind_ok. by apply IH.
Qed.

Lemma new_inv resolution id : serviceInv (NewMercuryTriggerService resolution id).
Proof.
  constructor; cbn; [|intros ? ?; by rewrite lookup_empty|intros ????; by rewrite lookup_empty].
  by case_decide.
Qed.

(** C14: whatever calls, ticks and receptions come in whatever order, the service
    never panics: it does not send on or close a closed channel, and does not
    divide by zero.  At each tick exactly the subscribers whose frequency
    divides the timestamp and whose buffer has room get one event, with the
    latest reports of their feeds in the order they asked for. *)
Theorem tick_exact resolution id xs O timestamp :
  Forall validOp xs →
  ∃ o, ofold apply (NewMercuryTriggerService resolution id) xs = Ok o ∧
  ∃ o', process O timestamp o = Ok o' ∧ subscribers o' = subscribers o ∧
    (∀ tid sub, subscribers o !! tid = Some sub →
       ∃ buf, channels o !! subCh sub = Some (mkChannel buf false) ∧
         channels o' !! subCh sub = Some (delivered o timestamp sub (mkChannel buf false))) ∧
    ∀ ch, (∀ tid sub, subscribers o !! tid = Some sub → subCh sub ≠ ch) → channels o' !! ch = channels o !! ch.
Proof.
  intros Hxs. destruct (ops_inv (NewMercuryTriggerService resolution id) xs (new_inv resolution id) Hxs) as (o & Ho & Hinv).
  exists o. split; [done|]. destruct (process_spec O timestamp o Hinv) as (o' & Hp & Heq & Hs & Hother). exists o'. split; [done|].
  split; [by rewrite Heq|]. split; [|done]. intros tid sub Hsub. destruct (si_open _ Hinv tid sub Hsub) as [[buf Hbuf] _].
  exists buf. split; [done|]. by apply (Hs tid).
Qed.

(** *** Witnesses *)

Definition demoReport (id : string) (ts : Z) (ctx : list byte) : FeedReport := mkReport id [] ctx [] [] ts.

(** A report is valid when its context is empty; responses are numbered. *)
Definition demoCodec : ReportCodec := {|
  codecUnwrap v := match v with
                   | VString "old" => Some [demoReport "f" 10 []]
                   | VString "new" => Some [demoReport "f" 20 []]
                   | VString "forged" => Some [demoReport "f" 99 [x01]]
                   | _ => None
                   end%string;
  codecValidate r _ _ := bool_decide (ReportContext r = [])
|}.

Definition demoOutputs (b : list byte) : option Value :=
  match b with [Byte.x00] => Some (VString "old") | [Byte.x01] => Some (VString "new") | [Byte.x02] => Some (VString "forged") | _ => None end.

Definition demoRemote : remoteConfig := mkRemote [] 1 "trigger".

Section witnesses.
#[local] Existing Instance demoCodec.

Lemma remote_latest_witness :
  goodReports demoRemote ∅ ∧
  ∃ previous', (Aggregate demoOutputs demoRemote ∅ "e" [[x00]; [x01]; [x02]]).2 = previous' ∧ goodReports demoRemote previous'.
Proof.
  assert (goodReports demoRemote ∅) as Hg by (intros id r; by rewrite lookup_empty). split; [exact Hg|].
  destruct (Aggregate demoOutputs demoRemote ∅ "e" [[x00]; [x01]; [x02]]) as [result previous'] eqn:E. exists previous'. split; [done|].
  by apply (remote_latest demoOutputs demoRemote ∅ "e" [[x00]; [x01]; [x02]] result previous' Hg E).
Defined.

Lemma forged_timestamp_witness :
  Aggregate demoOutputs demoRemote {["f"%string := demoReport "f" 10 []]} "e" [[x02]] =
  (WrapReports [demoReport "f" 10 []] "e" 99 (mkMetadata [] 1) "trigger", {["f"%string := demoReport "f" 10 []]}).
Proof.
  apply (forged_timestamp demoOutputs demoRemote {["f"%string := demoReport "f" 10 []]} "e" [x02] (VString "forged")
           (demoReport "f" 10 []) (demoReport "f" 99 [x01])); done.
Defined.
End witnesses.

Definition demoOps : list op :=
  [OpRegister (Some (mkTriggerConfig ["f"%string] 1000)) "t" "wf"; OpReports [demoReport "f" 10 []]].

Lemma tick_exact_witness :
  Forall validOp demoOps ∧
  ∃ o, ofold apply (NewMercuryTriggerService 0 "trigger") demoOps = Ok o ∧ ∃ o', process (insertion_order _) 2000 o = Ok o'.
Proof.
  assert (Forall validOp demoOps) as Hv by (constructor; [cbn; lia|by constructor; [|constructor]]). split; [exact Hv|].
  destruct (tick_exact 0 "trigger" demoOps (insertion_order _) 2000 Hv) as (o & Ho & o' & Hp & _). exists o. split; [done|]. by exists o'.
Defined.
End Triggers.
