(* ===== verification/Mailbox.v ===== *)
(** [src/pkg/utils/mailbox/mailbox.go]: a bounded queue with a notification
    channel, the bounded FIFO it implements, and its use by a consumer that
    waits for notifications while producers deliver.

    Every method holds the mutex, so a method is one transition; [Deliver]
    sends its notification while it holds it. *)

From S2P Require Import Prelude GoBytes DataFeeds.

Module Mailbox.
Import DataFeeds.

Section mailbox.
Context {T : Type}.

(** The newest item comes first.  [chNotify] is whether the channel of capacity
    one holds a notification. *)
Record Mailbox := mkMailbox { chNotify : bool; queue : list T; queueLen : Z; capacity : N }.

Definition made (capacity : N) : Mailbox := mkMailbox false [] 0 capacity.
(** [makeOk] is whether the runtime can make a slice of that capacity; otherwise
    [make] panics. *)
Definition New (makeOk : N → bool) (capacity : N) : outcome False Mailbox :=
  let queueCap := if (capacity =? 0)%N then 100%N else capacity in
  if makeOk queueCap then Ok (made capacity) else Panic.
Definition NewHighCapacity (makeOk : N → bool) : outcome False Mailbox := New makeOk 100000.
Definition NewSingle (makeOk : N → bool) : outcome False Mailbox := New makeOk 1.

(** [100 * float64(queueLen) / float64(capacity)] *)
Definition load (m : Mailbox) : N * float64 :=
  (capacity m, fdiv (fmul (floatOfZ 100) (floatOfZ (queueLen m))) (floatOfZ (Z.of_N (capacity m)))).

Definition Deliver (x : T) (m : Mailbox) : bool * Mailbox :=
  let queue := [x] ++ queue m in
  if (capacity m <? N.of_nat (length queue))%N && (0 <? capacity m)%N then
    (true, mkMailbox true (take (length queue - 1) queue) (queueLen m) (capacity m))
  else (false, mkMailbox true queue (queueLen m + 1) (capacity m)).

Definition Retrieve (m : Mailbox) : option T * Mailbox :=
  if decide (length (queue m) = 0) then (None, m)
  else (queue m !! (length (queue m) - 1),
        mkMailbox (chNotify m) (take (length (queue m) - 1) (queue m)) (queueLen m - 1) (capacity m)).

(** The loop that swaps the ends: [i] counts up and [j] down. *)
Fixpoint swapLoop (fuel i j : nat) (q : list T) : list T :=
  match fuel with
  | 0 => q
  | S fuel =>
      if decide (i < j) then
        match q !! i, q !! j with
        | Some x, Some y => swapLoop fuel (S i) (j - 1) (<[j := x]> (<[i := y]> q))
        | _, _ => q
        end
      else q
  end.

Definition RetrieveAll (m : Mailbox) : list T * Mailbox :=
  (swapLoop (length (queue m)) 0 (length (queue m) - 1) (queue m), mkMailbox (chNotify m) [] 0 (capacity m)).

Definition RetrieveLatestAndClear (m : Mailbox) : option T * Mailbox :=
  match queue m with
  | [] => (None, m)
  | t :: _ => (Some t, mkMailbox (chNotify m) [] 0 (capacity m))
  end.

(** Taking a notification from the channel, if there is one. *)
Definition Notify (m : Mailbox) : option Mailbox :=
  if chNotify m then Some (mkMailbox false (queue m) (queueLen m) (capacity m)) else None.

(** *** The in-place reversal *)

(** Between [i] and [j] the list is still as it was, outside it is reversed. *)
Lemma swapLoop_rev fuel : ∀ (a b c : list T) i j,
  length b ≤ fuel → i = length a → j = length a + length b - 1 →
  swapLoop fuel i j (a ++ b ++ c) = a ++ rev b ++ c.
Proof.
  induction fuel as [|fuel IH]; intros a b c i j Hf -> ->; [destruct b; [done|cbn in Hf; lia]|].
  destruct b as [|x b]; [cbn; by rewrite decide_False; [|lia]|].
  destruct b as [|y b _] using rev_ind; [cbn; by rewrite decide_False; [|lia]|].
  cbn [length rev] in *. rewrite rev_unit. rewrite length_app in Hf |- *. cbn [length] in *. cbn [swapLoop].
  rewrite decide_True; [|lia]. rewrite lookup_app_r // Nat.sub_diag.
  replace (length a + S (length b + 1) - 1) with (length a + S (length b)) by lia.
  replace (a ++ (x :: b ++ [y]) ++ c) with (a ++ x :: b ++ y :: c) by (cbn; by rewrite -app_assoc).
  rewrite (lookup_app_r a); [|lia]. replace (length a + S (length b) - length a) with (S (length b)) by lia.
  cbn [lookup list_lookup app]. rewrite lookup_app_r // Nat.sub_diag. cbn [lookup list_lookup].
  rewrite insert_app_r_alt // Nat.sub_diag. cbn [insert list_insert].
  rewrite insert_app_r_alt; [|lia]. replace (length a + S (length b) - length a) with (S (length b)) by lia. cbn [insert list_insert].
  rewrite insert_app_r_alt // Nat.sub_diag. cbn [insert list_insert].
  replace (a ++ y :: b ++ x :: c) with ((a ++ [y]) ++ b ++ (x :: c)) by (by rewrite -app_assoc).
  rewrite IH; [by rewrite -!app_assoc| lia | rewrite length_app; cbn; lia | rewrite length_app; cbn; lia].
Qed.

Lemma swapLoop_reverses (q : list T) : swapLoop (length q) 0 (length q - 1) q = rev q.
Proof. pose proof (swapLoop_rev (length q) [] q [] 0 (length q - 1)) as H. rewrite !app_nil_r in H. by apply H. Qed.

(** *** The abstract queue *)

(** A call, and what it returns. *)
Inductive op := ODeliver (x : T) | ORetrieve | ORetrieveAll | ORetrieveLatest | ONotify.
Inductive reply := RFlag (wasOverCapacity : bool) | ROne (x : option T) | RAll (l : list T) | RNotified (b : bool).

Definition step (m : Mailbox) (o : op) : reply * Mailbox :=
  match o with
  | ODeliver x => let '(over, m) := Deliver x m in (RFlag over, m)
  | ORetrieve => let '(x, m) := Retrieve m in (ROne x, m)
  | ORetrieveAll => let '(l, m) := RetrieveAll m in (RAll l, m)
  | ORetrieveLatest => let '(x, m) := RetrieveLatestAndClear m in (ROne x, m)
  | ONotify => match Notify m with Some m => (RNotified true, m) | None => (RNotified false, m) end
  end.

Fixpoint run (m : Mailbox) (ops : list op) : list reply * Mailbox :=
  match ops with
  | [] => ([], m)
  | o :: ops => let '(r, m) := step m o in let '(rs, m) := run m ops in (r :: rs, m)
  end.

(** Items in the order of delivery; the oldest is dropped when the bound, if
    any, is exceeded. *)
Record fifo := mkFifo { items : list T; noted : bool }.

Definition over (cap : N) (l : list T) : bool := (0 <? cap)%N && (cap <? N.of_nat (length l))%N.

Definition specStep (cap : N) (f : fifo) (o : op) : reply * fifo :=
  match o with
  | ODeliver x =>
      let l := items f ++ [x] in
      if over cap l then (RFlag true, mkFifo (drop 1 l) true) else (RFlag false, mkFifo l true)
  | ORetrieve => (ROne (head (items f)), mkFifo (drop 1 (items f)) (noted f))
  | ORetrieveAll => (RAll (items f), mkFifo [] (noted f))
  | ORetrieveLatest => (ROne (last (items f)), mkFifo [] (noted f))
  | ONotify => (RNotified (noted f), mkFifo (items f) false)
  end.

Fixpoint specRun (cap : N) (f : fifo) (ops : list op) : list reply * fifo :=
  match ops with
  | [] => ([], f)
  | o :: ops => let '(r, f) := specStep cap f o in let '(rs, f) := specRun cap f ops in (r :: rs, f)
  end.

(** The mailbox [m] holds the queue [f]; its counter is the length, and a bound
    is respected. *)
Record represents (m : Mailbox) (f : fifo) : Prop := {
  rp_items : items f = rev (queue m);
  rp_noted : noted f = chNotify m;
  rp_len : queueLen m = Z.of_nat (length (queue m));
  rp_cap : (0 < capacity m)%N → (N.of_nat (length (queue m)) <= capacity m)%N
}.

Lemma rev_take_last (q : list T) : rev (take (length q - 1) q) = drop 1 (rev q).
Proof. induction q as [|x q _] using rev_ind; [done|]. rewrite length_app /= Nat.add_sub take_app_length rev_unit. done. Qed.

Lemma rev_cons_app (x : T) q : rev (x :: q) = rev q ++ [x].
Proof. done. Qed.

Lemma head_rev (q : list T) : head (rev q) = q !! (length q - 1).
Proof.
  induction q as [|x q _] using rev_ind; [done|]. rewrite rev_unit length_app /= Nat.add_sub lookup_app_r // Nat.sub_diag. done.
Qed.

Lemma Deliver_represents x m f :
  represents m f → ∀ b m', Deliver x m = (b, m') →
  represents m' (specStep (capacity m) f (ODeliver x)).2 ∧ (specStep (capacity m) f (ODeliver x)).1 = RFlag b ∧ capacity m' = capacity m.
Proof.
  intros [Hi Hn Hl Hc] b m'. rewrite /Deliver. cbn [specStep]. rewrite Hi. change ([x] ++ queue m) with (x :: queue m).
  rewrite /over length_app length_rev. replace (length (queue m) + length [x]) with (length (x :: queue m)) by (cbn; lia).
  rewrite andb_comm. destruct (_ && _) eqn:E; intros [= <- <-]; (split; [|done]); cbn [snd]; constructor; cbn [items noted queue queueLen chNotify capacity]; try done.
  - by rewrite rev_take_last.
  - rewrite length_take. cbn [length]. rewrite Hl. lia.
  - intros Hp. rewrite length_take. specialize (Hc Hp). cbn [length]. lia.
  - cbn [length]. lia.
  - intros Hp. apply andb_false_iff in E as [E|E]; apply N.ltb_ge in E; lia.
Qed.

Lemma Retrieve_represents m f :
  represents m f → (Retrieve m).1 = head (items f) ∧ represents (Retrieve m).2 (mkFifo (drop 1 (items f)) (noted f)) ∧
  capacity (Retrieve m).2 = capacity m.
Proof.
  intros [Hi Hn Hl Hc]. rewrite /Retrieve Hi head_rev. case_decide as H0.
  - apply nil_length_inv in H0. rewrite H0. split; [done|]. split; [|done]. constructor; cbn; rewrite ?H0; [done|done|by rewrite Hl H0|cbn; lia].
  - split; [done|]. split; [|done]. constructor; cbn [items noted queue queueLen chNotify capacity snd]; [by rewrite rev_take_last|done| |].
    + rewrite length_take Hl. lia.
    + intros Hp. rewrite length_take. specialize (Hc Hp). lia.
Qed.

Lemma step_represents m f o :
  represents m f → (step m o).1 = (specStep (capacity m) f o).1 ∧ represents (step m o).2 (specStep (capacity m) f o).2 ∧
  capacity (step m o).2 = capacity m.
Proof.
  intros Hr. destruct o as [x| | | |]; cbn [step].
  - destruct (Deliver x m) as [b m'] eqn:E. by destruct (Deliver_represents x m f Hr b m' E) as (? & -> & ?).
  - destruct (Retrieve m) as [x m'] eqn:E. destruct (Retrieve_represents m f Hr) as (Hx & Hm & Hc). rewrite E in Hx Hm Hc.
    cbn in *. by rewrite Hx.
  - destruct Hr as [Hi Hn Hl Hc]. rewrite /RetrieveAll swapLoop_reverses. cbn. rewrite Hi. split; [done|]. split; [|done].
    constructor; cbn; [done|done|done|lia].
  - destruct Hr as [Hi Hn Hl Hc]. rewrite /RetrieveLatestAndClear. destruct (queue m) as [|x q] eqn:Eq; cbn [specStep fst snd].
    + rewrite Hi. split; [done|]. split; [|done]. constructor; cbn; rewrite ?Eq; [done|done|by rewrite Hl|cbn; lia].
    + rewrite Hi rev_cons_app last_snoc. split; [done|]. split; [|done]. constructor; cbn; [done|done|done|lia].
  - destruct Hr as [Hi Hn Hl Hc]. rewrite /Notify. destruct (chNotify m) eqn:En; cbn; rewrite Hn; (split; [done|]); (split; [|done]); by constructor.
Qed.

Lemma run_represents m f ops :
  represents m f → (run m ops).1 = (specRun (capacity m) f ops).1 ∧ represents (run m ops).2 (specRun (capacity m) f ops).2.
Proof.
  revert m f. induction ops as [|o ops IH]; intros m f Hr; [done|]. cbn [run specRun].
  destruct (step_represents m f o Hr) as (H1 & H2 & H3). destruct (step m o) as [r m'], (specStep (capacity m) f o) as [r' f'].
  cbn in H1, H2, H3. subst r'. destruct (IH m' f' H2) as [H4 H5]. rewrite H3 in H4, H5.
  destruct (run m' ops), (specRun (capacity m) f' ops). cbn in *. by rewrite H4.
Qed.

(** C38: a mailbox is a bounded first-in-first-out queue that drops its oldest
    item when a delivery exceeds the capacity, and unbounded at capacity zero:
    every sequence of calls on a new mailbox gets the replies of that queue, the
    counter read by the monitor is the number of items, and the bound is never
    exceeded.  Making one panics only if the runtime cannot make its slice. *)
Theorem mailbox_refines_fifo makeOk cap ops :
  match New makeOk cap with
  | Ok m => (run m ops).1 = (specRun cap (mkFifo [] false) ops).1 ∧ represents (run m ops).2 (specRun cap (mkFifo [] false) ops).2
  | Err e => False
  | Panic => makeOk (if (cap =? 0)%N then 100%N else cap) = false
  end.
Proof. rewrite /New. destruct (makeOk _); [|done]. apply (run_represents (made cap)). constructor; cbn; [done|done|done|lia]. Qed.

(** *** What is retrieved *)

Definition delivered (ops : list op) : list T := omap (λ o, match o with ODeliver x => Some x | _ => None end) ops.
Definition retrieved (rs : list reply) : list T :=
  concat ((λ r, match r with ROne (Some x) => [x] | RAll l => l | _ => [] end) <$> rs).

(** No delivery overflows and the queue is never cleared. *)
Definition lossless (ops : list op) (rs : list reply) : Prop :=
  (RFlag true ∉ rs) ∧ (ORetrieveLatest ∉ ops).

Lemma spec_order cap ops f :
  sublist (retrieved (specRun cap f ops).1 ++ items (specRun cap f ops).2) (items f ++ delivered ops) ∧
  (lossless ops (specRun cap f ops).1 → retrieved (specRun cap f ops).1 ++ items (specRun cap f ops).2 = items f ++ delivered ops).
Proof.
  revert f. induction ops as [|o ops IH]; intros f; [cbn; by rewrite app_nil_r|]. cbn [specRun].
  destruct (specStep cap f o) as [r f1] eqn:E. specialize (IH f1). destruct (specRun cap f1 ops) as [rs f2]. cbn [fst snd] in *.
  destruct IH as [Hs Hl]. assert (lossless (o :: ops) (r :: rs) → lossless ops rs ∧ r ≠ RFlag true ∧ o ≠ ORetrieveLatest) as Hll.
  { intros [H1 H2]. split; [split; set_solver|]. split; intros ->; set_solver. }
  rewrite /retrieved /delivered in Hs Hl |- *. cbn [fmap list_fmap concat omap list_omap].
  destruct o as [x| | | |]; cbn [specStep] in E.
  - destruct (over cap (items f ++ [x])); injection E as <- <-; cbn [items app] in *.
    + split; [|intros (_ & H & _)%Hll; done]. etrans; [exact Hs|]. rewrite (app_assoc (items f) [x] (omap _ ops) : items f ++ x :: _ = _). apply sublist_app; [|done].
      destruct (items f ++ [x]); cbn; [done|]. by rewrite drop_0; apply sublist_cons.
    + rewrite -app_assoc in Hs Hl. split; [done|]. by intros (H & _)%Hll; apply Hl.
  - injection E as <- <-. destruct (items f) as [|y l]; cbn [head drop items app] in *; [by split; [|intros (H & _)%Hll; apply Hl]|].
    rewrite drop_0 in Hs Hl. split; [by apply sublist_skip|]. intros (H & _)%Hll. f_equal. by apply Hl.
  - injection E as <- <-. cbn [items app] in *. rewrite -app_assoc. split; [by apply sublist_app|]. intros (H & _)%Hll. f_equal. by apply Hl.
  - injection E as <- <-. cbn [items app] in *. split; [|intros (_ & _ & H)%Hll; done].
    destruct (items f) as [|y l _] using rev_ind; cbn [last app]; [done|]. rewrite last_snoc -!app_assoc.
    by apply sublist_inserts_l, sublist_skip.
  - injection E as <- <-. cbn [items app] in *. split; [done|]. by intros (H & _)%Hll; apply Hl.
Qed.

(** Items are retrieved in the order of their delivery and none twice: what
    was retrieved, followed by what is still queued, is a subsequence of what
    was delivered, and all of it unless a delivery reported an overflow or the
    queue was cleared for its latest item. *)
Theorem retrieval_order cap ops :
  sublist (retrieved (run (made cap) ops).1 ++ rev (queue (run (made cap) ops).2)) (delivered ops) ∧
  (lossless ops (run (made cap) ops).1 → retrieved (run (made cap) ops).1 ++ rev (queue (run (made cap) ops).2) = delivered ops).
Proof.
  destruct (run_represents (made cap) (mkFifo [] false) ops) as [-> Hr]; [constructor; cbn; [done|done|done|lia]|].
  rewrite -(rp_items _ _ Hr). apply (spec_order cap ops (mkFifo [] false)).
Qed.

(** *** A consumer that waits for notifications *)

(** The consumer waits on the channel, then retrieves until nothing is left. *)
Inductive consumer := CWait | CDrain.
Record system := mkSystem { box : Mailbox; consumerAt : consumer; handled : list T }.
Inductive event := EDeliver (x : T) | ENotified | ERetrieve.

Definition exec (s : system) (e : event) : option system :=
  match e with
  | EDeliver x => Some (mkSystem (Deliver x (box s)).2 (consumerAt s) (handled s))
  | ENotified =>
      match consumerAt s with
      | CWait => m ← Notify (box s); Some (mkSystem m CDrain (handled s))
      | CDrain => None
      end
  | ERetrieve =>
      match consumerAt s with
      | CDrain =>
          match Retrieve (box s) with
          | (Some x, m) => Some (mkSystem m CDrain (handled s ++ [x]))
          | (None, m) => Some (mkSystem m CWait (handled s))
          end
      | CWait => None
      end
  end.

Fixpoint execs (s : system) (es : list event) : option system :=
  match es with [] => Some s | e :: es => s ← exec s e; execs s es end.

(** An item in the queue has a notification, or a consumer that is draining. *)
Definition noticed (s : system) : Prop := queue (box s) ≠ [] → chNotify (box s) = true ∨ consumerAt s = CDrain.

Lemma Deliver_noted x m : chNotify (Deliver x m).2 = true.
Proof. rewrite /Deliver. by destruct (_ && _). Qed.

Lemma Retrieve_cases m :
  (queue m = [] ∧ Retrieve m = (None, m)) ∨
  ∃ x q, queue m = q ++ [x] ∧ Retrieve m = (Some x, mkMailbox (chNotify m) q (queueLen m - 1) (capacity m)).
Proof.
  rewrite /Retrieve. destruct (queue m) as [|x q _] using rev_ind; [left; by split|right]. exists x, q. split; [done|].
  rewrite length_app decide_False /=; [|lia]. by rewrite Nat.add_sub lookup_app_r // Nat.sub_diag take_app_length.
Qed.

Lemma exec_noticed s e s' : noticed s → exec s e = Some s' → noticed s'.
Proof.
  rewrite /noticed. intros Hs. destruct e as [x| |]; cbn [exec]; intros E.
  - injection E as <-. cbn. intros _. left. apply Deliver_noted.
  - destruct (consumerAt s); [|done]. rewrite /Notify in E. destruct (chNotify (box s)); [|done]. injection E as <-. by right.
  - destruct (consumerAt s); [done|]. destruct (Retrieve_cases (box s)) as [[Hq Hr]|(x & q & Hq & Hr)]; rewrite Hr in E; injection E as <-; cbn.
    + by rewrite Hq.
    + by right.
Qed.

Lemma execs_noticed s es s' : noticed s → execs s es = Some s' → noticed s'.
Proof.
  revert s. induction es as [|e es IH]; cbn; intros s Hs; [by intros [= <-]|].
  destruct (exec s e) as [s1|] eqn:E; [|done]. apply IH. by eapply exec_noticed.
Qed.

(** What the consumer can still do by itself. *)
Definition work (s : system) : nat :=
  2 * length (queue (box s)) + (if chNotify (box s) then 2 else 0) + (if consumerAt s then 0 else 1).

Lemma exec_work s e s' : exec s e = Some s' → (∀ x, e ≠ EDeliver x) → work s' < work s ∧
  handled s' ++ rev (queue (box s')) = handled s ++ rev (queue (box s)).
Proof.
  intros E He. rewrite /work. destruct e as [x| |]; cbn [exec] in E; [by destruct (He x)|..].
  - destruct (consumerAt s); [|done]. rewrite /Notify in E. destruct (chNotify (box s)); [|done]. injection E as <-. cbn. split; [lia|done].
  - destruct (consumerAt s); [done|]. destruct (Retrieve_cases (box s)) as [[Hq Hr]|(x & q & Hq & Hr)]; rewrite Hr in E; injection E as <-; cbn.
    + split; [lia|done].
    + rewrite Hq length_app rev_unit -app_assoc /=. split; [lia|done].
Qed.

Lemma consumer_stops es s s' : execs s es = Some s' → (∀ x, EDeliver x ∉ es) →
  length es ≤ work s ∧ handled s' ++ rev (queue (box s')) = handled s ++ rev (queue (box s)).
Proof.
  revert s. induction es as [|e es IH]; cbn [execs length]; intros s Hes He; [injection Hes as <-; split; [lia|done]|].
  destruct (exec s e) as [s1|] eqn:E; [|done]. destruct (exec_work s e s1 E) as [Hw Hh]; [set_solver|].
  destruct (IH s1 Hes) as [Hl Hh']; [set_solver|]. split; [lia|]. by rewrite Hh'.
Qed.

(** No item is stranded.  After any interleaving of deliveries with a consumer
    that waits for notifications and then retrieves until nothing is left, the
    consumer alone can make only finitely many steps, and when it can make no
    more it has handled, in order, everything that was queued. *)
Theorem nothing_stranded cap es s :
  execs (mkSystem (made cap) CWait []) es = Some s →
  ∀ es' s', (∀ x, EDeliver x ∉ es') → execs s es' = Some s' →
    length es' ≤ work s ∧
    (exec s' ENotified = None → exec s' ERetrieve = None →
     queue (box s') = [] ∧ handled s' = handled s ++ rev (queue (box s))).
Proof.
  intros Hes es' s' Hd Hes'. destruct (consumer_stops es' s s' Hes' Hd) as [Hl Hh]. split; [done|]. intros Hn Hr.
  assert (noticed s') as Hnot.
  { eapply execs_noticed; [|exact Hes']. eapply execs_noticed; [|exact Hes]. intros Hq. by destruct Hq. }
  assert (queue (box s') = []) as Hq.
  { destruct (queue (box s')) as [|x q] eqn:Eq; [done|]. exfalso. cbn [exec] in Hn, Hr.
    destruct Hnot as [Hc|Hc]; [by rewrite Eq| |].
    - destruct (consumerAt s'); [by rewrite /Notify Hc in Hn|]. by destruct (Retrieve (box s')) as [[]].
    - rewrite Hc in Hr. by destruct (Retrieve (box s')) as [[]]. }
  split; [done|]. by rewrite Hq app_nil_r in Hh.
Qed.

(** The note on [capacity] says that only capacity one can be notified of an
    empty queue: an item that is delivered while the consumer drains leaves its
    notification behind whatever the capacity is. *)
Lemma empty_notification cap x :
  (1 < cap)%N → ∃ s, execs (mkSystem (made cap) CWait []) [EDeliver x; ENotified; EDeliver x; ERetrieve; ERetrieve; ERetrieve; ENotified] = Some s ∧
    consumerAt s = CDrain ∧ queue (box s) = [].
Proof.
  intros Hcap. assert ((cap <? 1)%N = false) as H1 by (apply N.ltb_ge; lia). assert ((cap <? 2)%N = false) as H2 by (apply N.ltb_ge; lia).
  exists (mkSystem (mkMailbox false [] 0 cap) CDrain [x; x]). split; [|done]. cbn [execs exec].
  change (Deliver x (box (mkSystem (made cap) CWait []))) with (Deliver x (made cap)).
  rewrite {2}/Deliver. cbn. rewrite H1. cbn. rewrite /Deliver. cbn. rewrite H2. done.
Qed.
End mailbox.
Arguments Mailbox : clear implicits.
Arguments op : clear implicits.
Arguments reply : clear implicits.
Arguments fifo : clear implicits.

(** *** Witnesses *)

Lemma nothing_stranded_witness :
  ∃ s, execs (mkSystem (made 2) CWait []) [EDeliver 1; EDeliver 2; EDeliver 3; ENotified] = Some s ∧
  ∃ s', execs s [ERetrieve; ERetrieve; ERetrieve] = Some s' ∧ queue (box s') = [] ∧ handled s' = [2; 3].
Proof.
  destruct (execs (mkSystem (made 2) CWait []) [EDeliver 1; EDeliver 2; EDeliver 3; ENotified]) as [s|] eqn:E; [|by vm_compute in E].
  exists s. split; [done|]. destruct (execs s [ERetrieve; ERetrieve; ERetrieve]) as [s'|] eqn:E'.
  - exists s'. split; [done|]. assert (∀ x : nat, EDeliver x ∉ [ERetrieve; ERetrieve; ERetrieve]) as Hd by (intros x Hx; repeat (apply elem_of_cons in Hx as [Hx|Hx]; [done|]); by apply not_elem_of_nil in Hx).
    destruct (nothing_stranded 2 _ s E _ s' Hd E') as [_ H]. vm_compute in E. injection E as <-. vm_compute in E'. injection E' as <-.
    by apply H.
  - vm_compute in E. injection E as <-. by vm_compute in E'.
Defined.

(** The load of an unbounded mailbox is not a number. *)
Lemma load_unbounded : (load (made (T := nat) 0)).2 = SpecFloat.S754_nan.
Proof. by vm_compute. Qed.
End Mailbox.
