(* ===== verification/SleeperTask.v ===== *)
(** [src/pkg/utils/sleeper_task.go]: a background goroutine that works whenever it
    is woken up, and its shutdown.

    The task embeds a service state machine: its states and what [IfStarted]
    and [StopOnce] do with them are those of [StateMachine].  [StopOnce] holds
    the write lock while it runs its function, so calls of [IfStarted] wait for
    it; [IfStarted] with its non-blocking send is one step, because nothing
    else changes the state while it holds the read lock. *)

From S2P Require Import Prelude GoErrors StateMachine.

Module SleeperTask.
Import StateMachine.

(** The worker's goroutine: waiting in its select, in [Work], about to signal
    that work is done, and returned. *)
Inductive worker := WSelect | WWork | WSignal | WExited.

(** [chQueue] has room for one wake-up and [chWorkDone] for ten signals.
    [stopping] is whether [Stop]'s function waits for the worker.  The last
    three fields record a history: accepted wake-ups, calls of [Work], and the
    wake-ups accepted since the latest call began. *)
Record SleeperTask := mkTask {
  life : state;
  chQueue : bool;
  chStop : bool;
  chDone : bool;
  chWorkDone : nat;
  workerAt : worker;
  stopping : bool;
  accepted : nat;
  works : nat;
  pending : nat
}.

Definition workDoneCap : nat := 10.

(** The worker starts in the constructor. *)
Definition NewSleeperTask : SleeperTask := mkTask stateStarted false false false 0 WSelect false 0 0 0.

Inductive event :=
  | EWakeUp | EWakeUpIfStarted
  | EStop                                  (* StopOnce up to its function's select *)
  | EStopDone | EStopTimeout               (* the select's cases *)
  | ETakeQueue | ETakeStop                 (* the worker's select *)
  | EWorkReturns | EWorkDone               (* the rest of its loop *)
  | EReceiveWorkDone.

Inductive reply := RNone | RReturns (ok : bool) | RPanics | RStop (r : result).

(** The non-blocking send to [chQueue]. *)
Definition wake (t : SleeperTask) : SleeperTask :=
  mkTask (life t) true (chStop t) (chDone t) (chWorkDone t) (workerAt t) (stopping t) (S (accepted t)) (works t) (S (pending t)).

(** [workDone] *)
Definition workDone (t : SleeperTask) : SleeperTask :=
  mkTask (life t) (chQueue t) (chStop t) (chDone t)
    (if decide (chWorkDone t < workDoneCap) then S (chWorkDone t) else chWorkDone t)
    WSelect (stopping t) (accepted t) (works t) (pending t).

Definition finishStop (s : state) (t : SleeperTask) : SleeperTask :=
  mkTask s (chQueue t) (chStop t) (chDone t) (chWorkDone t) (workerAt t) false (accepted t) (works t) (pending t).

Definition errTimeout : error := ELeaf "took too long to stop".

(** One step; [None] when it cannot happen now. *)
Definition exec (t : SleeperTask) (e : event) : option (reply * SleeperTask) :=
  match e with
  | EWakeUp =>
      if stopping t then None else if guard true (life t) then Some (RNone, wake t) else Some (RPanics, t)
  | EWakeUpIfStarted =>
      if stopping t then None else if guard true (life t) then Some (RReturns true, wake t) else Some (RReturns false, t)
  | EStop =>
      if stopping t then None
      else if decide (life t = stateStarted) then
        Some (RNone, mkTask stateStopping (chQueue t) true (chDone t) (chWorkDone t) (workerAt t) true (accepted t) (works t) (pending t))
      else Some (RStop (stopRefusal (life t)), t)
  | EStopDone => if stopping t && chDone t then Some (RStop (RFn None), finishStop (afterStop None) t) else None
  | EStopTimeout =>
      if stopping t then Some (RStop (RFn (Some errTimeout)), finishStop (afterStop (Some errTimeout)) t) else None
  | ETakeQueue =>
      match workerAt t with
      | WSelect => if chQueue t then
          Some (RNone, mkTask (life t) false (chStop t) (chDone t) (chWorkDone t) WWork (stopping t) (accepted t) (S (works t)) 0)
          else None
      | _ => None
      end
  | ETakeStop =>
      match workerAt t with
      | WSelect => if chStop t then
          Some (RNone, mkTask (life t) (chQueue t) (chStop t) true (chWorkDone t) WExited (stopping t) (accepted t) (works t) (pending t))
          else None
      | _ => None
      end
  | EWorkReturns =>
      match workerAt t with
      | WWork => Some (RNone, mkTask (life t) (chQueue t) (chStop t) (chDone t) (chWorkDone t) WSignal (stopping t) (accepted t) (works t) (pending t))
      | _ => None
      end
  | EWorkDone => match workerAt t with WSignal => Some (RNone, workDone t) | _ => None end
  | EReceiveWorkDone =>
      match chWorkDone t with
      | 0 => None
      | S n => Some (RNone, mkTask (life t) (chQueue t) (chStop t) (chDone t) n (workerAt t) (stopping t) (accepted t) (works t) (pending t))
      end
  end.

Fixpoint execs (t : SleeperTask) (es : list event) : option SleeperTask :=
  match es with [] => Some t | e :: es => '(_, t) ← exec t e; execs t es end.

(** *** Facts *)

Definition reachable (t : SleeperTask) : Prop := ∃ es, execs NewSleeperTask es = Some t.

Record inv (t : SleeperTask) : Prop := {
  inv_stopping : stopping t = true ↔ life t = stateStopping;
  inv_stop : chStop t = true ↔ life t ≠ stateStarted;
  inv_done : chDone t = true ↔ workerAt t = WExited;
  inv_exited : workerAt t = WExited → chStop t = true;
  inv_stopped : life t = stateStopped → workerAt t = WExited;
  inv_queue : chQueue t = true ↔ 0 < pending t;
  inv_works : works t + (if chQueue t then 1 else 0) ≤ accepted t;
  inv_cap : chWorkDone t ≤ workDoneCap
}.

(** Splits a step by what the task is doing, and closes the fields that the
    step does not touch. *)
Ltac step_inv E :=
  repeat (case_match || case_decide); try discriminate E; injection E as <- <-; subst;
  constructor; cbn in *; first [assumption | tauto | intuition congruence | intuition lia | idtac].

Lemma exec_inv t e r t' : inv t → exec t e = Some (r, t') → inv t'.
Proof.
  intros [H1 H2 H3 H4 H5 H6 H7 H8] E.
  destruct t as [l q s d wd w st ac wo pe]; cbn [life chQueue chStop chDone chWorkDone workerAt stopping accepted works pending] in *.
  destruct e; cbn in E.
  all: step_inv E.
  all: try (apply andb_true_iff in H as [-> ->]).
  all: try (case_decide; lia).
  all: intuition congruence.
Qed.

Lemma execs_inv t es t' : inv t → execs t es = Some t' → inv t'.
Proof.
  revert t. induction es as [|e es IH]; cbn; intros t Ht; [by intros [= <-]|].
  destruct (exec t e) as [[r t1]|] eqn:E; [|done]. apply IH. by eapply exec_inv.
Qed.

Lemma reachable_inv t : reachable t → inv t.
Proof. intros [es Hes]. eapply execs_inv; [|exact Hes]. constructor; cbn; try done; try lia; split; (done || lia). Qed.

(** *** The worker by itself *)

Definition byWorker (e : event) : bool := match e with ETakeQueue | EWorkReturns | EWorkDone => true | _ => false end.

Definition workLeft (t : SleeperTask) : nat :=
  (if chQueue t then 3 else 0) + match workerAt t with WWork => 2 | WSignal => 1 | _ => 0 end.

Lemma exec_worker t e r t' : byWorker e = true → exec t e = Some (r, t') →
  workLeft t = S (workLeft t') ∧ chStop t' = chStop t ∧ accepted t' = accepted t.
Proof.
  intros He E. rewrite /workLeft. destruct e; try done; cbn in E; destruct (workerAt t) eqn:Ew; try done;
    [destruct (chQueue t) eqn:Eq; [|done]|..]; injection E as <- <-; cbn; rewrite ?Eq; by repeat split; lia.
Qed.

Lemma execs_worker t es t' : Forall (λ e, byWorker e = true) es → execs t es = Some t' →
  workLeft t = length es + workLeft t' ∧ chStop t' = chStop t.
Proof.
  revert t. induction es as [|e es IH]; cbn; intros t Hes E; [by injection E as <-|]. inversion_clear Hes as [|?? He Hes'].
  destruct (exec t e) as [[r t1]|] eqn:E1; [|done]. destruct (exec_worker t e r t1 He E1) as (H1 & H2 & _).
  destruct (IH t1 Hes' E) as [H3 H4]. split; [lia|congruence].
Qed.

(** As long as the task is not being stopped, the worker is called after
    every accepted wake-up: whatever happened before, the worker gets to its
    select with nothing queued in at most five steps of its own, and then its
    latest call began after the latest wake-up.  It is never called more often
    than it was woken up. *)
Theorem wakeup_works t es t' :
  reachable t → Forall (λ e, byWorker e = true) es → execs t es = Some t' →
  works t' ≤ accepted t' ∧ length es ≤ 5 ∧
  ((∀ e, byWorker e = true → exec t' e = None) → pending t' = 0 ∨ chStop t' = true ∧ workerAt t' = WExited).
Proof.
  intros Hr Hes E. pose proof (reachable_inv t Hr) as Hinv. pose proof (execs_inv t es t' Hinv E) as Hinv'.
  destruct (execs_worker t es t' Hes E) as [Hl _]. split; [pose proof (inv_works _ Hinv'); lia|]. split.
  - assert (workLeft t ≤ 5); [|lia]. rewrite /workLeft. destruct (chQueue t), (workerAt t); lia.
  - intros Hno. destruct (workerAt t') eqn:Ew.
    + left. specialize (Hno ETakeQueue eq_refl). cbn in Hno. rewrite Ew in Hno. destruct (chQueue t') eqn:Eq; [done|].
      pose proof (inv_queue _ Hinv') as Hq. rewrite Eq in Hq. destruct (pending t'); [done|]. exfalso. by assert (false = true) by (apply Hq; lia).
    + specialize (Hno EWorkReturns eq_refl). cbn in Hno. by rewrite Ew in Hno.
    + specialize (Hno EWorkDone eq_refl). cbn in Hno. by rewrite Ew in Hno.
    + right. split; [|done]. by apply (inv_exited _ Hinv').
Qed.

Lemma exec_stopped t e r t' : life t = stateStopped → inv t → exec t e = Some (r, t') →
  life t' = stateStopped ∧ works t' = works t ∧ accepted t' = accepted t.
Proof.
  intros Hl Hinv E. pose proof (inv_stopped _ Hinv Hl) as Hw. assert (stopping t = false) as Hs.
  { destruct (stopping t) eqn:Es; [|done]. apply (inv_stopping _ Hinv) in Es. congruence. }
  destruct e; cbn in E; rewrite ?Hs ?Hw ?Hl /= in E; try done; try (injection E as <- <-; done).
  destruct (chWorkDone t); [done|]. by injection E as <- <-.
Qed.

(** After a [Stop] that returned no error the task is over: its worker has
    returned, every later [Stop] is refused, wake-ups panic or return false, and
    the worker is not called again. *)
Theorem stopped_for_good t es t' :
  reachable t → life t = stateStopped → execs t es = Some t' →
  workerAt t' = WExited ∧ chDone t' = true ∧ works t' = works t ∧ accepted t' = accepted t ∧
  exec t' EStop = Some (RStop RAlreadyStopped, t') ∧ exec t' EWakeUp = Some (RPanics, t') ∧
  exec t' EWakeUpIfStarted = Some (RReturns false, t').
Proof.
  intros Hr Hl E. pose proof (reachable_inv t Hr) as Hinv. clear Hr. revert t Hinv Hl E.
  induction es as [|e es IH]; cbn [execs]; intros t Hinv Hl E.
  - injection E as <-. pose proof (inv_stopped _ Hinv Hl) as Hw. assert (stopping t = false) as Hs.
    { destruct (stopping t) eqn:Es; [|done]. apply (inv_stopping _ Hinv) in Es. congruence. }
    split; [done|]. split; [by apply (inv_done _ Hinv)|]. split; [done|]. split; [done|]. cbn. by rewrite Hs Hl.
  - destruct (exec t e) as [[r t1]|] eqn:E1; [|done]. destruct (exec_stopped t e r t1 Hl Hinv E1) as (Hl1 & Hw1 & Ha1).
    destruct (IH t1 (exec_inv t e r t1 Hinv E1) Hl1 E) as (H1 & H2 & H3 & H4 & H5). rewrite H3 H4. done.
Qed.

(** The constructor's comment promises a call for every wake-up, and that a
    wake-up does not block.  A wake-up that is followed by a stop can be lost,
    because the worker's select may take either case; and a wake-up waits while
    a stop waits for the worker, to panic then. *)
Lemma wakeup_lost : ∃ t, execs NewSleeperTask [EWakeUp; EStop; ETakeStop; EStopDone] = Some t ∧
  accepted t = 1 ∧ works t = 0 ∧ life t = stateStopped.
Proof. eexists. split; [by vm_compute|done]. Qed.

Lemma wakeup_blocks : ∃ t t', execs NewSleeperTask [EWakeUp; ETakeQueue; EStop] = Some t ∧ exec t EWakeUp = None ∧
  execs t [EStopTimeout] = Some t' ∧ exec t' EWakeUp = Some (RPanics, t').
Proof. eexists _, _. split; [by vm_compute|]. split; [by vm_compute|]. split; by vm_compute. Qed.

(** *** Witnesses *)

Lemma wakeup_works_witness :
  ∃ t t', execs NewSleeperTask [EWakeUp; ETakeQueue; EWakeUp] = Some t ∧
    execs t [EWorkReturns; EWorkDone; ETakeQueue; EWorkReturns; EWorkDone] = Some t' ∧ works t' ≤ accepted t'.
Proof.
  destruct (execs NewSleeperTask [EWakeUp; ETakeQueue; EWakeUp]) as [t|] eqn:E; [|by vm_compute in E].
  destruct (execs t [EWorkReturns; EWorkDone; ETakeQueue; EWorkReturns; EWorkDone]) as [t'|] eqn:E';
    [|vm_compute in E; injection E as <-; by vm_compute in E'].
  exists t, t'. split; [done|]. split; [done|].
  eapply (wakeup_works t _ t'); [by exists [EWakeUp; ETakeQueue; EWakeUp]| |exact E']. repeat constructor.
Defined.

Lemma stopped_for_good_witness :
  ∃ t t', execs NewSleeperTask [EWakeUp; ETakeQueue; EStop; EWorkReturns; EWorkDone; ETakeStop; EStopDone] = Some t ∧ life t = stateStopped ∧
    execs t [EReceiveWorkDone; EStop] = Some t' ∧ workerAt t' = WExited ∧ works t' = 1.
Proof.
  destruct (execs NewSleeperTask [EWakeUp; ETakeQueue; EStop; EWorkReturns; EWorkDone; ETakeStop; EStopDone]) as [t|] eqn:E; [|by vm_compute in E].
  assert (life t = stateStopped ∧ works t = 1) as [Hl Hw] by (vm_compute in E; by injection E as <-).
  destruct (execs t [EReceiveWorkDone; EStop]) as [t'|] eqn:E'; [|vm_compute in E; injection E as <-; by vm_compute in E'].
  exists t, t'. split; [done|]. split; [done|]. split; [done|].
  destruct (stopped_for_good t [EReceiveWorkDone; EStop] t' (ex_intro _ _ E) Hl E') as (H1 & _ & H2 & _). by rewrite H2.
Defined.
End SleeperTask.
