(* ===== verification/Utils.v ===== *)
(** Helpers of [src/pkg/utils]: averages and medians of machine integers
    ([mathutil]), big integers ([big_math]), batches ([collection.go]), lazily
    loaded values ([lazy.go]), comparison ([utils.go]), retries ([retry]),
    quotes ([bytes]) and prefixed hexadecimal text ([hex]). *)

From Stdlib.Strings Require Import Ascii.
From S2P Require Import Prelude GoBytes GoStrings.

Module Utils.

(** *** Machine integers: [mathutil] *)

(** An integer type: its width and whether it is signed. *)
Record inttype := mkInt { bits : Z; signed : bool }.

Definition wrap (V : inttype) (z : Z) : Z := if signed V then wrapS (bits V) z else wrapU (bits V) z.
Definition inRange (V : inttype) (z : Z) : Prop := if signed V then inS (bits V) z else inU (bits V) z.

Inductive error := ErrAddition | ErrLength | ErrEmpty | ErrZeroMax.

Definition Max (first : Z) (vals : list Z) : Z := foldl (λ max v, if decide (max < v)%Z then v else max) first vals.
Definition Min (first : Z) (vals : list Z) : Z := foldl (λ min v, if decide (v < min)%Z then v else min) first vals.

(** One addition, with the check for overflow; [math.Signbit] of the value as a
    float is its sign. *)
Definition addChecked (V : inttype) (total v : Z) : outcome error Z :=
  let prev := total in
  let total := wrap V (total + v) in
  let negative := bool_decide (v < 0)%Z in
  if (bool_decide (total < prev)%Z && negb negative) || (bool_decide (prev < total)%Z && negative)
  then Err ErrAddition else Ok total.

Definition Avg (V : inttype) (arr : list Z) : outcome error Z :=
  let? total := ofold (addChecked V) 0%Z arr in
  let n := Z.of_nat (length arr) in
  if decide (wrapU 64 (wrap V n) ≠ wrapU 64 n) then Err ErrLength
  else if decide (wrap V n = 0)%Z then Panic                      (* division by zero *)
  else Ok (wrap V (Z.quot total (wrap V n))).

(** [slices.Sort] sorts its argument in place, which is the caller's slice when
    it is passed with dots: the sorted slice is part of the result. *)
Definition Median (V : inttype) (arr : list Z) : list Z * outcome error Z :=
  let arr := merge_sort Z.le arr in
  let l := length arr in
  (arr,
   if decide (l = 0) then Err ErrEmpty
   else if decide (l mod 2 = 0) then Avg V (take 2 (drop (l / 2 - 1) arr))
   else go_index arr (l / 2)).

(** *** Big integers: [big_math]

    [big.Int]'s [Div] and [Mod] are Euclidean. *)

Definition bigDiv (x y : Z) : outcome error Z := if decide (y = 0)%Z then Panic else Ok (Z.sgn y * (x / Z.abs y))%Z.
Definition bigMod (x y : Z) : outcome error Z := if decide (y = 0)%Z then Panic else Ok (x mod Z.abs y)%Z.
Definition bigMax (x y : Z) : Z := match (x ?= y)%Z with Gt => x | _ => y end.
Definition bigMin (x y : Z) : Z := match (x ?= y)%Z with Lt => x | _ => y end.

(** The sum is a [uint16]. *)
Definition AddPercentage (value percentage : Z) : Z := (value * wrapU 16 (100 + percentage) / 100)%Z.
Definition Accumulate (s : list Z) : Z := foldl Z.add 0%Z s.

(** *** Batches *)

(** A slice expression [list[max:]] with a negative bound panics. *)
Fixpoint batches {T} (fuel : nat) (list : list T) (max : Z) (out : Datatypes.list (Datatypes.list T)) : outcome error (Datatypes.list (Datatypes.list T)) :=
  if decide (max < Z.of_nat (length list))%Z then
    match fuel with
    | 0 => Panic                                                  (* not reached *)
    | S fuel =>
        if decide (max < 0)%Z then Panic
        else batches fuel (drop (Z.to_nat max) list) max (out ++ [take (Z.to_nat max) list])
    end
  else Ok (out ++ [list]).

Definition BatchSplit {T} (list : list T) (max : Z) : outcome error (Datatypes.list (Datatypes.list T)) :=
  if decide (max = 0)%Z then Err ErrZeroMax else batches (S (length list)) list max [].

(** *** Lazily loaded values *)

(** [f] is the loader, with the state [S] that it works on. *)
Record LazyLoad (T : Type) := mkLazy { loaded : T; ok : bool }.
Arguments mkLazy {T}.
Arguments loaded {T}.
Arguments ok {T}.

Section lazy.
Context {T S E : Type} (zero : T) (f : S → (T * option E) * S).

Definition NewLazyLoad : LazyLoad T := mkLazy zero false.

Definition Get (l : LazyLoad T) (s : S) : (T * option E) * LazyLoad T * S :=
  if ok l then ((loaded l, None), l, s)
  else
    let '((v, err), s) := f s in
    ((v, err), mkLazy v (match err with None => true | Some _ => false end), s).

Definition Reset (l : LazyLoad T) : LazyLoad T := mkLazy (loaded l) false.
End lazy.

(** *** Comparison *)

(** [AllEqual]; indices are in range. *)
Definition AllEqual `{EqDecision T} (elems : list T) : bool :=
  forallb (λ i, match elems !! i, elems !! 0 with Some x, Some y => bool_decide (x = y) | _, _ => true end) (seq 1 (length elems - 1)).

(** The deadline of [ContextWithDeadlineFn]'s result. *)
Definition ContextWithDeadlineFn (deadline : option Z) (deadlineFn : Z → Z) : option Z :=
  match deadline with
  | Some d => let m := deadlineFn d in if decide (m < d)%Z then Some m else Some d
  | None => None
  end.

(** *** Retries *)

(** [attempt n] is the result of the [n]-th call of the function, and [cancelled n]
    whether the wait after it ends because the context is done. *)
Section retry.
Context {R E : Type} (attempt : nat → R * option E) (cancelled : nat → bool).

Inductive retried := RSuccess (r : R) | RMaxRetries | RContextDone (r : R).

(** [MaxRetries] is a [uint] that is converted to [int]; the first attempt is
    number zero, because the back-off was reset.  [None]: still running after
    [fuel] attempts.  The second component counts the calls. *)
Fixpoint retryLoop (MaxRetries : Z) (fuel numRetries : nat) : option (retried * nat) :=
  match fuel with
  | 0 => None
  | S fuel =>
      if bool_decide (0 < MaxRetries)%Z && bool_decide (wrapS 64 MaxRetries < Z.of_nat numRetries)%Z then Some (RMaxRetries, numRetries)
      else
        match attempt numRetries with
        | (result, None) => Some (RSuccess result, S numRetries)
        | (result, Some _) =>
            if cancelled numRetries then Some (RContextDone result, S numRetries)
            else retryLoop MaxRetries fuel (S numRetries)
        end
  end.

Definition Do (MaxRetries : Z) (fuel : nat) : option (retried * nat) := retryLoop MaxRetries fuel 0.
End retry.
Arguments RSuccess {R}.
Arguments RMaxRetries {R}.
Arguments RContextDone {R}.

(** *** Bytes and hexadecimal text *)

Definition quoteD : byte := "034"%byte.
Definition quoteS : byte := "039"%byte.

Definition HasQuotes (input : list byte) : bool :=
  match input with
  | b :: _ :: _ => (bool_decide (b = quoteD) && bool_decide (List.last input b = quoteD)) ||
                   (bool_decide (b = quoteS) && bool_decide (List.last input b = quoteS))
  | _ => false
  end.
Definition TrimQuotes (input : list byte) : list byte := if HasQuotes input then take (length input - 2) (drop 1 input) else input.
Definition IsEmpty (bytes : list byte) : bool := forallb (λ b, bool_decide (b = x00)) bytes.

Definition EnsurePrefix (str : string) : string := if HasPrefix str "0x" then str else ("0x" ++ str)%string.
Definition hasHexPrefix (str : string) : bool :=
  match str with String a (String b _) => Ascii.eqb a "0" && (Ascii.eqb b "x" || Ascii.eqb b "X") | _ => false end.
Definition trimHexPrefix (str : string) : string := if hasHexPrefix str then dropChars 2 str else str.

(** An odd number of digits gets a leading zero. *)
Definition DecodeString (s : string) : option (list byte) :=
  if hasHexPrefix s then
    let s := dropChars 2 s in hexDecode (if decide (String.length s mod 2 = 1) then String "0" s else s)
  else None.

(** [SetString(s, 16)]: an optional sign and at least one digit. *)
Fixpoint hexDigits (acc : Z) (s : string) : option Z :=
  match s with EmptyString => Some acc | String c s => d ← hexDigit c; hexDigits (16 * acc + d) s end.
Definition ParseBig (s : string) : option Z :=
  match s with
  | EmptyString => None
  | String c s' =>
      if Ascii.eqb c "-" then (if String.eqb s' "" then None else z ← hexDigits 0 s'; Some (- z)%Z)
      else if Ascii.eqb c "+" then (if String.eqb s' "" then None else hexDigits 0 s')
      else hexDigits 0 s
  end.

Lemma DecodeString_hexEncode bs : DecodeString (EnsurePrefix ("0x" ++ hexEncode bs)) = Some bs ∧ trimHexPrefix ("0x" ++ hexEncode bs) = hexEncode bs.
Proof.
  change (("0x" ++ hexEncode bs)%string) with (String "0" (String "x" (hexEncode bs))). rewrite /EnsurePrefix /DecodeString /trimHexPrefix. cbn -[Nat.modulo].
  split; [|done]. case_decide as H; [by rewrite length_hexEncode Nat.mul_comm Nat.Div0.mod_mul in H|]. apply hexDecode_hexEncode.
Qed.

(** *** Averages and medians: facts *)

Definition okWidth (V : inttype) : Prop := (2 < bits V <= 64)%Z.

#[export] Instance inRange_dec V z : Decision (inRange V z).
Proof. rewrite /inRange /inS /inU. destruct (signed V); apply _. Defined.

(** The sums after each element. *)
Fixpoint sums (acc : Z) (arr : list Z) : list Z :=
  match arr with [] => [] | v :: arr => (acc + v)%Z :: sums (acc + v)%Z arr end.

Definition sum (arr : list Z) : Z := foldr Z.add 0%Z arr.

Lemma wrap_small V z : okWidth V → inRange V z → wrap V z = z.
Proof. rewrite /okWidth /wrap /inRange. intros. destruct (signed V); [apply wrapS_small|apply wrapU_small]; auto with lia. Qed.

Lemma addChecked_exact V total v : okWidth V → inRange V total → inRange V v →
  addChecked V total v = if decide (inRange V (total + v)) then Ok (total + v)%Z else Err ErrAddition.
Proof.
  intros HV Ht Hv. rewrite /addChecked. case_decide as Hr.
  - rewrite wrap_small //. destruct (bool_decide_reflect (total + v < total)%Z), (bool_decide_reflect (total < total + v)%Z),
      (bool_decide_reflect (v < 0)%Z); cbn; try done; lia.
  - assert (wrap V (total + v) ≠ total ∧ ((0 <= v → wrap V (total + v) < total) ∧ (v < 0 → total < wrap V (total + v))))%Z as (Hne & Hp & Hn).
    { revert Ht Hv Hr. rewrite /okWidth in HV. rewrite /wrap /inRange /wrapS /wrapU /inS /inU.
      pose proof (pow2_half (bits V) ltac:(lia)) as Hh. pose proof (Z.pow_pos_nonneg 2 (bits V - 1)). destruct (signed V); intros Ht Hv Hr.
      - set (M := (2 ^ (bits V - 1))%Z) in *. rewrite Hh in Hr |- *.
        assert (((total + v + M) mod (2 * M) = if decide (0 <= v)%Z then total + v + M - 2 * M else total + v + M + 2 * M)%Z) as ->.
        { case_decide; symmetry; [apply (Z.mod_unique_pos _ _ 1)|apply (Z.mod_unique_pos _ _ (-1))]; lia. }
        case_decide; lia.
      - set (M := (2 ^ bits V)%Z) in *. assert (((total + v) mod M = total + v - M)%Z) as -> by (symmetry; apply (Z.mod_unique_pos _ _ 1); lia). lia. }
    destruct (bool_decide_reflect (wrap V (total + v) < total)%Z), (bool_decide_reflect (total < wrap V (total + v))%Z),
      (bool_decide_reflect (v < 0)%Z); cbn; try done; lia.
Qed.

Lemma addChecked_fold V arr total : okWidth V → inRange V total → Forall (inRange V) arr →
  ofold (addChecked V) total arr = if decide (Forall (inRange V) (sums total arr)) then Ok (total + sum arr)%Z else Err ErrAddition.
Proof.
  intros HV Ht Harr. revert total Ht. induction Harr as [|v arr Hv _ IH]; intros total Ht; cbn [ofold sums sum foldr].
  { case_decide as Hn; [by rewrite Z.add_0_r|by destruct Hn]. }
  rewrite addChecked_exact //. case_decide as Hr; cbn [obind].
  - rewrite IH //. case_decide as Hs; case_decide as Hs'; try done; [f_equal; rewrite /sum; lia|by destruct Hs'; constructor|by apply Forall_cons in Hs' as [_ ?]].
  - case_decide as Hs; [by apply Forall_cons in Hs as [? _]|done].
Qed.

Lemma length_check V n : okWidth V → (0 <= n < 2 ^ 63)%Z → wrapU 64 (wrap V n) = wrapU 64 n ↔ inRange V n.
Proof.
  intros HV Hn. split; [|intros Hr; by rewrite wrap_small]. rewrite /okWidth in HV. rewrite /wrap /inRange.
  assert (wrapU 64 n = n) as -> by (apply wrapU_small; rewrite /inU; lia).
  pose proof (Z.pow_le_mono_r 2 (bits V) 64 ltac:(lia) ltac:(lia)) as H64.
  pose proof (Z.pow_le_mono_r 2 (bits V - 1) 63 ltac:(lia) ltac:(lia)) as H63. change (2 ^ 64)%Z with (2 * 2 ^ 63)%Z in *.
  destruct (signed V).
  - pose proof (wrapS_range (bits V) n ltac:(lia)) as Hw. destruct (decide (inS (bits V) n)) as [|Hno]; [done|].
    rewrite /inS in Hw, Hno. set (w := wrapS (bits V) n) in *. set (M := (2 ^ (bits V - 1))%Z) in *. intros Heq. exfalso.
    destruct (decide (0 <= w)%Z); [rewrite wrapU_small in Heq; [|rewrite /inU; change (2 ^ 64)%Z with (2 * 2 ^ 63)%Z]; lia|].
    rewrite /wrapU in Heq. change (2 ^ 64)%Z with (2 * 2 ^ 63)%Z in Heq. rewrite -(Z.mod_unique_pos w (2 * 2 ^ 63) (-1) (w + 2 * 2 ^ 63)) in Heq; lia.
  - pose proof (wrapU_range (bits V) n ltac:(lia)) as Hw. rewrite /inU in Hw |- *. intros Heq.
    rewrite wrapU_small in Heq; [lia|]. rewrite /inU. change (2 ^ 64)%Z with (2 * 2 ^ 63)%Z. lia.
Qed.

Lemma sums_last acc arr : arr ≠ [] → (acc + sum arr)%Z ∈ sums acc arr.
Proof.
  revert acc. induction arr as [|v arr IH]; intros acc H; [done|]. cbn [sums sum foldr]. destruct (decide (arr = [])) as [->|Hne].
  - cbn. rewrite Z.add_0_r. set_solver.
  - apply elem_of_cons. right. rewrite Z.add_assoc. by apply IH.
Qed.

Lemma quot_between z n : (0 < n)%Z → (Z.min z 0 <= Z.quot z n <= Z.max z 0)%Z.
Proof. intros Hn. split; [apply Z.quot_le_lower_bound|apply Z.quot_le_upper_bound];
  [done|destruct (Z.min_spec z 0) as [[? ->]|[? ->]]; nia|done|destruct (Z.max_spec z 0) as [[? ->]|[? ->]]; nia]. Qed.

Lemma quot_inRange V z n : okWidth V → inRange V z → (0 < n)%Z → inRange V (Z.quot z n).
Proof.
  rewrite /okWidth /inRange /inS /inU. intros HV Hz Hn. pose proof (Z.pow_pos_nonneg 2 (bits V - 1)).
  pose proof (quot_between z n Hn). destruct (signed V); lia.
Qed.

(** What [Avg] computes: the exact quotient if every partial sum and the length
    are representable, an error otherwise, and a panic without elements. *)
Definition average (V : inttype) (arr : list Z) : outcome error Z :=
  let n := Z.of_nat (length arr) in
  if decide (Forall (inRange V) (sums 0 arr)) then
    if decide (inRange V n) then (if decide (arr = []) then Panic else Ok (Z.quot (sum arr) n)) else Err ErrLength
  else Err ErrAddition.

Lemma zero_inRange V : okWidth V → inRange V 0.
Proof.
  rewrite /okWidth /inRange /inS /inU. intros. pose proof (Z.pow_pos_nonneg 2 (bits V - 1)). pose proof (Z.pow_pos_nonneg 2 (bits V)).
  destruct (signed V); lia.
Qed.

Lemma Avg_average V arr : okWidth V → Forall (inRange V) arr → (Z.of_nat (length arr) < 2 ^ 63)%Z → Avg V arr = average V arr.
Proof.
  intros HV Harr Hlen. rewrite /Avg /average addChecked_fold //; [|by apply zero_inRange]. case_decide as Hs; [|done]. cbn [obind].
  destruct (decide (inRange V (Z.of_nat (length arr)))) as [Hn|Hn].
  - case_decide as Hw; [by destruct Hw; apply length_check; [| |]; auto with lia|]. rewrite wrap_small //. case_decide as H0.
    + destruct arr; [by case_decide|cbn in H0; lia].
    + case_decide as Hnil; [by subst|]. f_equal. rewrite Z.add_0_l. apply wrap_small, quot_inRange; [done..| |destruct arr; [done|cbn; lia]].
      apply (sums_last 0) in Hnil. rewrite Forall_forall in Hs. by apply Hs.
  - case_decide as Hw; [done|]. destruct Hn. apply length_check; [done|lia|]. by destruct (decide (wrapU 64 (wrap V (Z.of_nat (length arr))) = wrapU 64 (Z.of_nat (length arr)))).
Qed.

(** The average of machine integers is the exact quotient, truncated towards
    zero, whenever the partial sums and the length are representable; otherwise
    an overflow is reported, never a wrong number.  Without elements it divides
    by zero. *)
Theorem Avg_exact V arr :
  okWidth V → Forall (inRange V) arr → (Z.of_nat (length arr) < 2 ^ 63)%Z →
  Avg V arr = average V arr ∧ (Avg V arr = Panic ↔ arr = []) ∧ (∀ r, Avg V arr = Ok r → r = Z.quot (sum arr) (Z.of_nat (length arr)) ∧ inRange V r).
Proof.
  intros HV Harr Hlen. split; [by apply Avg_average|]. rewrite Avg_average // /average. split.
  - split; [|intros ->; case_decide as H1; [|by destruct H1]; case_decide as H2; [by case_decide|by destruct H2; apply zero_inRange]].
    case_decide; [|done]. case_decide; [|done]. by case_decide.
  - intros r. case_decide as Hs; [|done]. case_decide; [|done]. case_decide as Hnil; [done|]. intros [= <-]. split; [done|].
    apply quot_inRange; [done| |destruct arr; [done|cbn; lia]]. apply (sums_last 0) in Hnil. rewrite Forall_forall in Hs. by apply Hs.
Qed.

(** *** Median *)

Lemma count_below {A} (P : A → Prop) `{∀ x, Decision (P x)} (l : list A) k :
  (∀ i x, l !! i = Some x → P x → i < k) → length (filter P l) ≤ k.
Proof.
  intros HP. rewrite -{1}(take_drop k l) filter_app length_app. assert (filter P (drop k l) = []) as ->.
  { destruct (filter P (drop k l)) as [|x f] eqn:E; [done|]. assert (x ∈ filter P (drop k l)) as Hx by (rewrite E; set_solver).
    apply list_elem_of_filter in Hx as [Hx [i Hi]%list_elem_of_lookup]. rewrite lookup_drop in Hi. specialize (HP _ _ Hi Hx). lia. }
  cbn. pose proof (length_filter P (take k l)). rewrite length_take in H0. lia.
Qed.

Lemma count_above {A} (P : A → Prop) `{∀ x, Decision (P x)} (l : list A) k :
  (∀ i x, l !! i = Some x → P x → k ≤ i) → length (filter P l) ≤ length l - k.
Proof.
  intros HP. rewrite -{1}(take_drop k l) filter_app length_app. assert (filter P (take k l) = []) as ->.
  { destruct (filter P (take k l)) as [|x f] eqn:E; [done|]. assert (x ∈ filter P (take k l)) as Hx by (rewrite E; set_solver).
    apply list_elem_of_filter in Hx as [Hx [i Hi]%list_elem_of_lookup]. apply lookup_take_Some in Hi as [Hi Hlt]. specialize (HP _ _ Hi Hx). lia. }
  cbn. pose proof (length_filter P (drop k l)). rewrite length_drop in H0. lia.
Qed.

Lemma sorted_lookup (l : list Z) i j x y : Sorted Z.le l → i ≤ j → l !! i = Some x → l !! j = Some y → (x <= y)%Z.
Proof.
  intros Hs%Sorted_StronglySorted Hij Hi Hj; [|intros ???; lia]. revert i j Hij Hi Hj.
  induction Hs as [|a l _ IH Ha]; intros i j Hij Hi Hj; [done|]. destruct i as [|i], j as [|j]; cbn in *; simplify_eq; [lia| |lia|apply (IH i j); auto with lia].
  rewrite Forall_forall in Ha. apply Ha. by eapply list_elem_of_lookup_2.
Qed.

(** At most half of the elements are smaller and at most half are greater. *)
Definition splits (arr : list Z) (r : Z) : Prop :=
  2 * length (filter (λ x, x < r)%Z arr) ≤ length arr ∧ 2 * length (filter (λ x, r < x)%Z arr) ≤ length arr.

Lemma splits_perm arr arr' r : arr ≡ₚ arr' → splits arr r → splits arr' r.
Proof. intros Hp [H1 H2]. split; [by rewrite -!Hp|by rewrite -!Hp]. Qed.

Lemma sorted_splits (l : list Z) i j x y r : Sorted Z.le l → l !! i = Some x → l !! j = Some y → (x <= r <= y)%Z →
  2 * j ≤ length l → length l ≤ 2 * i + 2 → splits l r.
Proof.
  intros Hs Hi Hj Hr Hj2 Hi2. split.
  - assert (length (filter (λ x, x < r)%Z l) ≤ j); [|lia]. apply count_below. intros k z Hk Hz.
    destruct (decide (k < j)) as [|Hge]; [done|]. pose proof (sorted_lookup l j k y z Hs ltac:(lia) Hj Hk). lia.
  - assert (length (filter (λ x, r < x)%Z l) ≤ length l - S i); [|lia]. apply count_above. intros k z Hk Hz.
    destruct (decide (S i ≤ k)) as [|Hlt]; [done|]. pose proof (sorted_lookup l k i z x Hs ltac:(lia) Hk Hi). lia.
Qed.

Lemma merge_sort_sorted (arr : list Z) : Sorted Z.le (merge_sort Z.le arr).
Proof. apply Sorted_merge_sort. intros x y. lia. Qed.

Lemma Forall_sort (P : Z → Prop) arr : Forall P arr → Forall P (merge_sort Z.le arr).
Proof. by rewrite merge_sort_Permutation. Qed.

(** The median of machine integers splits them into halves: at most half of
    them are smaller and at most half are greater.  There is an error exactly
    without elements and when the sum of the two in the middle overflows; the
    slice that was passed is sorted, and the median does not depend on its
    order. *)
Theorem Median_splits V arr :
  okWidth V → Forall (inRange V) arr →
  let '(sorted, r) := Median V arr in
  Sorted Z.le sorted ∧ sorted ≡ₚ arr ∧
  match r with
  | Ok m => splits arr m ∧ inRange V m
  | Err e => arr = [] ∧ e = ErrEmpty ∨
             ∃ x y, e = ErrAddition ∧ sorted !! (length arr / 2 - 1) = Some x ∧ sorted !! (length arr / 2) = Some y ∧
               length arr mod 2 = 0 ∧ ¬ inRange V (x + y)
  | Panic => False
  end ∧
  ∀ arr', arr' ≡ₚ arr → Median V arr' = Median V arr.
Proof.
  intros HV Harr. rewrite /Median. pose proof (merge_sort_sorted arr) as Hs. pose proof (merge_sort_Permutation Z.le arr) as Hp.
  pose proof (Forall_sort _ _ Harr) as Hr.
  assert (∀ arr', arr' ≡ₚ arr → merge_sort Z.le arr' = merge_sort Z.le arr) as Huniq.
  { intros arr' Hp'. apply (StronglySorted_unique Z.le); [apply StronglySorted_merge_sort; [intros ???; lia|intros ??; lia]..|].
    by rewrite !merge_sort_Permutation. }
  set (l := merge_sort Z.le arr) in *. clearbody l. split; [done|]. split; [done|]. split; [|intros arr' Hp'; by rewrite (Huniq _ Hp')].
  assert (length l = length arr) as Hlen by (by rewrite Hp). rewrite -Hlen.
  assert (∀ m, splits l m → splits arr m) as Hsp by (intros m; by apply splits_perm).
  case_decide as H0.
  { left. split; [|done]. rewrite H0 in Hlen. by destruct arr. }
  pose proof (Nat.div_mod_eq (length l) 2) as Hdm. pose proof (Nat.mod_upper_bound (length l) 2 ltac:(lia)) as Hm2. case_decide as H2.
  - destruct (lookup_lt_is_Some_2 l (length l / 2 - 1)) as [x Hx]; [lia|]. destruct (lookup_lt_is_Some_2 l (length l / 2)) as [y Hy]; [lia|].
    assert (take 2 (drop (length l / 2 - 1) l) = [x; y]) as ->.
    { rewrite (drop_S l x) //. replace (S (length l / 2 - 1)) with (length l / 2) by lia. by rewrite (drop_S l y). }
    pose proof (sorted_lookup l (length l / 2 - 1) (length l / 2) x y Hs ltac:(lia) Hx Hy) as Hxy. rewrite Forall_lookup in Hr.
    pose proof (Hr _ _ Hx) as Hxr. pose proof (Hr _ _ Hy) as Hyr.
    rewrite Avg_average //; [|by repeat constructor]. rewrite /average. cbn [sums sum foldr length]. case_decide as Hf.
    + case_decide as Hn; [|exfalso; apply Hn; rewrite /okWidth in HV; rewrite /inRange /inS /inU;
        pose proof (Z.pow_le_mono_r 2 2 (bits V - 1) ltac:(lia) ltac:(lia)); pose proof (Z.pow_le_mono_r 2 2 (bits V) ltac:(lia) ltac:(lia)); destruct (signed V); lia].
      case_decide as Hnil; [done|]. split; [|apply quot_inRange; [done| |done]].
      * apply Hsp. apply (sorted_splits l (length l / 2 - 1) (length l / 2) x y); [done..| |lia|lia].
        rewrite Z.add_0_r. split; [apply Z.quot_le_lower_bound|apply Z.quot_le_upper_bound]; lia.
      * rewrite Z.add_0_r. inversion_clear Hf as [|?? _ Hf']. inversion_clear Hf' as [|?? Hq _]. by rewrite Z.add_0_l in Hq.
    + right. exists x, y. split; [done|]. split; [done|]. split; [done|]. split; [done|]. intros Hq. apply Hf.
      repeat constructor; rewrite ?Z.add_0_l //.
  - destruct (lookup_lt_is_Some_2 l (length l / 2)) as [m Hm]; [lia|]. rewrite /go_index Hm. split.
    + apply Hsp. by apply (sorted_splits l (length l / 2) (length l / 2) m m); [done..|lia|lia|lia].
    + rewrite Forall_lookup in Hr. by eapply Hr.
Qed.

(** *** Big integers *)

(** Division and modulus agree, with a remainder that is never negative. *)
Lemma bigDiv_bigMod x y q r : bigDiv x y = Ok q → bigMod x y = Ok r → x = (q * y + r)%Z ∧ (0 <= r < Z.abs y)%Z.
Proof.
  rewrite /bigDiv /bigMod. case_decide; [done|]. intros [= <-] [= <-].
  pose proof (Z.div_mod x (Z.abs y) ltac:(lia)). pose proof (Z.mod_pos_bound x (Z.abs y) ltac:(lia)).
  split; [|done]. assert (Z.sgn y * y = Z.abs y)%Z as Hs by lia.
  replace (Z.sgn y * (x / Z.abs y) * y)%Z with (Z.sgn y * y * (x / Z.abs y))%Z by lia. lia.
Qed.

Lemma bigMax_max x y : bigMax x y = Z.max x y ∧ bigMin x y = Z.min x y.
Proof. rewrite /bigMax /bigMin /Z.max /Z.min. destruct (Z.compare_spec x y); split; lia. Qed.

Lemma Accumulate_sum s : Accumulate s = sum s.
Proof. rewrite /Accumulate /sum. assert (∀ a, foldl Z.add a s = a + foldr Z.add 0 s)%Z as H; [|by rewrite H]. induction s as [|x s IH]; intros a; cbn; [lia|]. rewrite IH. lia. Qed.

(** The percentage is added, rounded down, up to 65435; beyond, 100 plus the
    percentage does not fit its type and the value shrinks. *)
Lemma AddPercentage_exact value p : (0 <= p < 2 ^ 16)%Z →
  AddPercentage value p = if decide (p < 65436)%Z then (value + value * p / 100)%Z else (value * (p - 65436) / 100)%Z.
Proof.
  intros Hp. rewrite /AddPercentage /wrapU. change (2 ^ 16)%Z with 65536%Z in *. case_decide.
  - rewrite Z.mod_small; [|lia]. rewrite Z.mul_add_distr_l Z.add_comm Z.div_add; [|done]. lia.
  - f_equal. f_equal. symmetry. apply (Z.mod_unique_pos _ _ 1); lia.
Qed.

(** *** Batches *)

Lemma batches_spec {T} (max : nat) fuel (l : list T) out :
  0 < max → length l < fuel → ∃ full rest, batches fuel l (Z.of_nat max) out = Ok (out ++ full ++ [rest]) ∧
    concat full ++ rest = l ∧ Forall (λ b, length b = max) full ∧ length rest ≤ max ∧ (rest = [] → l = []).
Proof.
  intros Hmax. revert l out. induction fuel as [|fuel IH]; intros l out Hf; [lia|]. cbn [batches]. case_decide as Hl.
  - rewrite decide_False; [|lia]. rewrite Nat2Z.id. destruct (IH (drop max l) (out ++ [take max l])) as (full & rest & Hb & Hc & Hfull & Hr & Hnil).
    { rewrite length_drop. lia. }
    exists (take max l :: full), rest. split; [by rewrite Hb -app_assoc|]. split; [by cbn [concat]; rewrite -app_assoc Hc take_drop|].
    split; [constructor; [rewrite length_take; lia|done]|]. split; [done|]. intros Hrest. apply Hnil in Hrest.
    apply (f_equal length) in Hrest. rewrite length_drop /= in Hrest. lia.
  - exists [], l. cbn. repeat split; [constructor|lia|done].
Qed.

(** Splitting a list into batches keeps its elements in order, every batch
    but the last has exactly the maximal length, and the last is empty only for
    an empty list.  A maximum of zero is an error and a negative one panics. *)
Theorem BatchSplit_spec {T} (l : list T) (max : Z) :
  (max = 0%Z → BatchSplit l max = Err ErrZeroMax) ∧ ((max < 0)%Z → BatchSplit l max = Panic) ∧
  ((0 < max)%Z → ∃ full rest, BatchSplit l max = Ok (full ++ [rest]) ∧ concat (full ++ [rest]) = l ∧
     Forall (λ b, Z.of_nat (length b) = max) full ∧ (Z.of_nat (length rest) <= max)%Z ∧ (rest = [] → l = [])).
Proof.
  rewrite /BatchSplit. split; [by intros ->|]. split.
  - intros Hmax. rewrite decide_False; [|lia]. cbn [batches]. rewrite decide_True; [|lia]. by rewrite decide_True; [|lia].
  - intros Hmax. rewrite decide_False; [|lia]. destruct (batches_spec (Z.to_nat max) (S (length l)) l []) as (full & rest & Hb & Hc & Hf & Hr & Hn); [lia|lia|].
    rewrite Z2Nat.id in Hb; [|lia]. exists full, rest. split; [done|]. split; [by rewrite concat_app /= app_nil_r|].
    split; [|split; [lia|done]]. eapply Forall_impl; [exact Hf|]. cbn. lia.
Qed.

(** *** Lazily loaded values *)

Section lazy_facts.
Context {T S E : Type} (zero : T) (f : S → (T * option E) * S).

(** [n] calls in a row. *)
Fixpoint gets (n : nat) (l : LazyLoad T) (s : S) : list (T * option E) * LazyLoad T * S :=
  match n with
  | 0 => ([], l, s)
  | Datatypes.S n => let '(r, l, s) := Get f l s in let '(rs, l, s) := gets n l s in (r :: rs, l, s)
  end.

(** Once it has succeeded the loader is not called again, until a reset. *)
Lemma loaded_once l s v l' s' n :
  Get f l s = ((v, None), l', s') → gets n l' s' = (replicate n (v, None), l', s') ∧ Get f (Reset l') s' = Get f (NewLazyLoad zero) s'.
Proof.
  rewrite {1}/Get. intros Hg. assert (ok l' = true ∧ loaded l' = v) as [Hok Hv].
  { destruct (ok l) eqn:Eo; [by simplify_eq|]. destruct (f s) as [[v1 err] s1]. by simplify_eq. }
  split; [|done]. induction n as [|n IH]; [done|]. cbn [gets replicate]. rewrite {1}/Get Hok Hv IH. done.
Qed.
End lazy_facts.

Lemma AllEqual_spec `{EqDecision T} (elems : list T) : AllEqual elems = true ↔ ∀ x y, x ∈ elems → y ∈ elems → x = y.
Proof.
  rewrite /AllEqual. rewrite forallb_forall. split.
  - intros Hall. assert (∀ x, x ∈ elems → elems !! 0 = Some x) as H0.
    { intros x [i Hi]%list_elem_of_lookup. destruct i as [|i]; [done|]. pose proof (lookup_lt_Some _ _ _ Hi) as Hlt.
      specialize (Hall (S i) ltac:(apply in_seq; lia)). rewrite Hi in Hall. destruct elems as [|x0 elems]; [done|]. cbn in Hall |- *.
      by apply bool_decide_eq_true in Hall as ->. }
    intros x y Hx%H0 Hy%H0. congruence.
  - intros Heq i _. destruct (elems !! i) eqn:Ei, (elems !! 0) eqn:E0; try done. apply bool_decide_eq_true, Heq; by eapply list_elem_of_lookup_2.
Qed.

(** *** Retries *)

Section retry_facts.
Context {R E : Type} (attempt : nat → R * option E) (cancelled : nat → bool).

(** The limit is reached before attempt [k]. *)
Definition limit (MaxRetries : Z) (k : nat) : bool := bool_decide (0 < MaxRetries)%Z && bool_decide (wrapS 64 MaxRetries < Z.of_nat k)%Z.

(** The run ends at attempt [k], and how. *)
Definition stops (MaxRetries : Z) (k : nat) : bool :=
  limit MaxRetries k || match (attempt k).2 with None => true | Some _ => cancelled k end.
Definition ending (MaxRetries : Z) (k : nat) : retried (R := R) * nat :=
  if limit MaxRetries k then (RMaxRetries, k)
  else match attempt k with (r, None) => (RSuccess r, S k) | (r, Some _) => (RContextDone r, S k) end.

Definition firstStop (MaxRetries : Z) (k : nat) : Prop := stops MaxRetries k = true ∧ ∀ i, i < k → stops MaxRetries i = false.

Lemma retryLoop_step M fuel n :
  retryLoop attempt cancelled M (S fuel) n = if stops M n then Some (ending M n) else retryLoop attempt cancelled M fuel (S n).
Proof.
  cbn [retryLoop]. rewrite /stops /ending -/(limit M n). destruct (limit M n); [done|]. cbn [orb].
  destruct (attempt n) as [r [e|]]; cbn; [|done]. by destruct (cancelled n).
Qed.

Lemma retryLoop_first M k fuel n :
  n ≤ k → k < n + fuel → stops M k = true → (∀ i, n ≤ i → i < k → stops M i = false) → retryLoop attempt cancelled M fuel n = Some (ending M k).
Proof.
  revert n. induction fuel as [|fuel IH]; intros n Hn Hk Hs Hi; [lia|]. rewrite retryLoop_step.
  destruct (decide (n = k)) as [->|Hne]; [by rewrite Hs|]. rewrite Hi; [|lia..]. apply IH; [lia..|done|]. intros i ??. apply Hi; lia.
Qed.

Lemma first_stop M n : stops M n = true → ∃ k, k ≤ n ∧ firstStop M k.
Proof.
  induction n as [n IH] using lt_wf_ind. intros Hn. destruct (decide (Exists (λ i, stops M i = true) (seq 0 n))) as [He|He].
  - apply Exists_exists in He as (i & Hi%elem_of_seq & Hs). destruct (IH i ltac:(lia) Hs) as (k & Hk & Hf). exists k. split; [lia|done].
  - exists n. split; [lia|]. split; [done|]. intros i Hi. destruct (stops M i) eqn:Es; [|done]. destruct He.
    apply Exists_exists. exists i. split; [apply elem_of_seq; lia|done].
Qed.

(** A strategy with a limit ends after at most one call more than the limit,
    with the first success, when the context is done, or with the limit's error;
    one without a limit ends exactly when some attempt succeeds or the context
    is done.  (A limit that does not fit an [int] ends it before the first
    call.) *)
Theorem retry_ends M :
  ((0 < M < 2 ^ 63)%Z → ∃ k, (Z.of_nat k <= M + 1)%Z ∧ firstStop M k ∧ ((ending M k).2 ≤ S (Z.to_nat M)) ∧
     ∀ fuel, k < fuel → Do attempt cancelled M fuel = Some (ending M k)) ∧
  (M = 0%Z → ∀ k, firstStop M k → (ending M k).2 = S k ∧ ∀ fuel, k < fuel → Do attempt cancelled M fuel = Some (ending M k)) ∧
  ((2 ^ 63 <= M < 2 ^ 64)%Z → ∀ fuel, Do attempt cancelled M (S fuel) = Some (RMaxRetries, 0)).
Proof.
  assert (∀ k fuel, firstStop M k → k < fuel → Do attempt cancelled M fuel = Some (ending M k)) as Hdo.
  { intros k fuel [Hs Hi] Hf. apply retryLoop_first; [lia|lia|done|]. intros i _. apply Hi. }
  split; [|split].
  - intros HM. assert (wrapS 64 M = M) as Hw by (apply wrapS_small; [done|]; rewrite /inS; change (2 ^ (64 - 1))%Z with (2 ^ 63)%Z; lia).
    assert (∀ k, limit M k = bool_decide (M < Z.of_nat k)%Z) as Hl by (intros k; rewrite /limit Hw bool_decide_true; [done|lia]).
    destruct (first_stop M (S (Z.to_nat M))) as (k & Hk & Hf); [rewrite /stops Hl bool_decide_true; [done|lia]|].
    exists k. split; [lia|]. split; [done|]. split; [|intros fuel; by apply Hdo]. rewrite /ending Hl.
    case_bool_decide; [cbn; lia|]. destruct (attempt k) as [r [e|]]; cbn; lia.
  - intros ->. intros k Hf. split; [|intros fuel; by apply Hdo]. rewrite /ending /limit. cbn. by destruct (attempt k) as [r [e|]].
  - intros HM fuel. assert (wrapS 64 M = M - 2 ^ 64)%Z as Hw.
    { rewrite /wrapS. change (2 ^ (64 - 1))%Z with (2 ^ 63)%Z. change (2 ^ 64)%Z with (2 * 2 ^ 63)%Z in *.
      rewrite -(Z.mod_unique_pos (M + 2 ^ 63) (2 * 2 ^ 63) 1 (M - 2 ^ 63)); lia. }
    assert (limit M 0 = true) as Hl by (rewrite /limit Hw !bool_decide_true; [done|lia|lia]).
    rewrite (Hdo 0 (S fuel)); [by rewrite /ending Hl|split; [by rewrite /stops Hl|lia]|lia].
Qed.
End retry_facts.

(** *** Witnesses *)

Definition int8 : inttype := mkInt 8 true.

Lemma Avg_exact_witness : Avg int8 [100; 20; -7]%Z = Ok 37%Z ∧ Avg int8 [100; 100]%Z = Err ErrAddition.
Proof.
  assert (okWidth int8) as HV by (rewrite /okWidth; cbn; lia).
  assert (Forall (inRange int8) [100; 20; -7]%Z) as H1 by (repeat constructor; cbn; lia).
  assert (Forall (inRange int8) [100; 100]%Z) as H2 by (repeat constructor; cbn; lia).
  destruct (Avg_exact int8 _ HV H1) as [-> _]; [cbn; lia|]. destruct (Avg_exact int8 _ HV H2) as [-> _]; [cbn; lia|].
  split; by vm_compute.
Defined.

(** The third attempt succeeds. *)
Definition thirdTime (n : nat) : nat * option nat := (n, if decide (n = 2) then None else Some n).

Lemma retry_ends_witness : ∃ k, Do thirdTime (λ _, false) 5 10 = Some (ending thirdTime 5 k) ∧ firstStop thirdTime (λ _, false) 5 k.
Proof.
  destruct (proj1 (retry_ends thirdTime (λ _, false) 5)) as (k & _ & Hf & _ & Hdo); [lia|]. exists k. split; [|done].
  apply Hdo. destruct (decide (k < 10)) as [|Hk]; [done|]. pose proof (proj2 Hf 2 ltac:(lia)) as H2. by vm_compute in H2.
Defined.

Lemma BatchSplit_spec_witness : ∃ full rest, BatchSplit [1; 2; 3; 4; 5] 2 = Ok (full ++ [rest]) ∧ concat (full ++ [rest]) = [1; 2; 3; 4; 5].
Proof. destruct (proj2 (proj2 (BatchSplit_spec [1; 2; 3; 4; 5] 2))) as (full & rest & H1 & H2 & _); [lia|]. by exists full, rest. Defined.

Lemma Median_splits_witness : splits [3; 1; 2]%Z 2%Z ∧ (Median int8 [3; 1; 2]%Z).2 = Ok 2%Z.
Proof.
  assert (okWidth int8) as HV by (rewrite /okWidth; cbn; lia).
  assert (Forall (inRange int8) [3; 1; 2]%Z) as H1 by (repeat constructor; cbn; lia).
  pose proof (Median_splits int8 [3; 1; 2]%Z HV H1) as H. assert (Median int8 [3; 1; 2]%Z = ([1; 2; 3]%Z, Ok 2%Z)) as Hm by (by vm_compute).
  rewrite Hm in H. destruct H as (_ & _ & [H _] & _). split; [exact H|by rewrite Hm].
Defined.
End Utils.
