(* ===== verification/Pages.v ===== *)
(** [src/pkg/chains/nodes.go]: page tokens and the listing of node statuses page
    by page. *)

From Stdlib.Strings Require Import Ascii.
From S2P Require Import Prelude GoBytes GoStrings.

Module Pages.

Inductive error := ErrBase64 | ErrQuery | ErrInvalidToken | ErrBadPage | ErrBadSize | ErrList.

Record pageToken := mkToken { Page : Z; Size : Z }.

Definition defaultSize : Z := 100.

Definition string_of_bytes (bs : list byte) : string := String.string_of_list_byte bs.

(** [Encode] also stores the default size in the token. *)
Definition Encode (pr : pageToken) : pageToken * string :=
  let pr := if decide (Size pr = 0)%Z then mkToken (Page pr) defaultSize else pr in
  let s := ("page=" ++ Itoa (Page pr) ++ "&size=" ++ Itoa (Size pr))%string in
  (pr, base64RawEncode (bytes_of_string s)).

Definition NewPageToken (b64enc : string) : outcome error pageToken :=
  if String.eqb b64enc "" then Ok (mkToken 0 defaultSize)
  else
    let? b := ok_or ErrBase64 (base64RawDecode b64enc) in
    let? vals := ok_or ErrQuery (ParseQuery (string_of_bytes b)) in
    match queryGet vals "page", queryGet vals "size" with
    | Some p, Some s =>
        let? page := ok_or ErrBadPage (Atoi p) in
        let? size := ok_or ErrBadSize (Atoi s) in
        Ok (mkToken page size)
    | _, _ => Err ErrInvalidToken
    end.

(** The statuses, the next page's token, the total, and an error. *)
Record listing (S : Type) := mkListing { stats : list S; nextPageToken : string; total : Z; err : option error }.
Arguments mkListing {S}.
Arguments stats {S}.
Arguments nextPageToken {S}.
Arguments total {S}.
Arguments err {S}.

Section list.
Context {S : Type} (listFn : Z → Z → list S * Z * option error).

(** A page size of zero is the default. *)
Definition effectiveSize (pageSize : Z) : Z := if decide (pageSize = 0)%Z then defaultSize else pageSize.

Definition ListNodeStatuses (pageSize : Z) (pageTokenStr : string) : listing S :=
  let pageSize := effectiveSize pageSize in
  match (if String.eqb pageTokenStr "" then Ok (mkToken 0 pageSize) else NewPageToken pageTokenStr) with
  | Err e => mkListing [] "" (-1) (Some e)
  | Panic => mkListing [] "" (-1) None                              (* not reached *)
  | Ok t =>
      let start := wrapS 64 (Page t * Size t) in
      let stop := wrapS 64 (wrapS 64 (Page t + 1) * Size t) in
      let '(stats, total, err) := listFn start stop in
      match err with
      | Some e => mkListing stats "" (-1) (Some e)
      | None =>
          let next := if decide (stop < total)%Z then (Encode (mkToken (wrapS 64 (Page t + 1)) (Size t))).2 else "" in
          mkListing stats next total None
      end
  end.

(** A client that follows the tokens until there is none; [None]: not done
    after [fuel] pages. *)
Fixpoint listAll (pageSize : Z) (fuel : nat) (token : string) : option (list S * nat) :=
  match fuel with
  | 0 => None
  | Datatypes.S fuel =>
      let r := ListNodeStatuses pageSize token in
      match err r with
      | Some _ => None
      | None =>
          if String.eqb (nextPageToken r) "" then Some (stats r, 1)
          else '(rest, n) ← listAll pageSize fuel (nextPageToken r); Some (stats r ++ rest, Datatypes.S n)
      end
  end.
End list.

(** *** Tokens *)

Lemma string_bytes s : string_of_bytes (bytes_of_string s) = s.
Proof. apply String.string_of_list_byte_of_string. Qed.

Definition tokenQuery (p s : Z) : string := ("page=" ++ Itoa p ++ "&size=" ++ Itoa s)%string.

Lemma avoids_part c name z : avoids c name = true → isDigit c = false → c ≠ "-"%char → avoids c (name ++ Itoa z) = true.
Proof. intros Hn Hd Hm. rewrite /avoids allChars_app. apply andb_true_iff. split; [exact Hn|by apply Itoa_avoids]. Qed.

Lemma part_entry name z : avoids ";" name = true → avoids "=" name = true → avoids "%" name = true → avoids "+" name = true → name ≠ "" →
  parsePart (name ++ String "=" (Itoa z)) = Some [(name, Itoa z)].
Proof.
  intros H1 H2 H3 H4 Hne. rewrite /parsePart.
  assert (allChars (λ c, negb (Ascii.eqb c ";")) (name ++ String "=" (Itoa z)) = true) as ->.
  { rewrite allChars_app. apply andb_true_iff. split; [exact H1|]. cbn [allChars]. by apply (Itoa_avoids ";"). }
  cbn [negb]. destruct (String.eqb_spec (name ++ String "=" (Itoa z)) "") as [He|_]; [by destruct name|].
  rewrite Cut_app // !QueryUnescape_plain //; by apply Itoa_avoids.
Qed.

Lemma ParseQuery_token p s : ParseQuery (tokenQuery p s) = Some [("page", Itoa p); ("size", Itoa s)]%string.
Proof.
  assert (tokenQuery p s = ("page" ++ String "=" (Itoa p)) ++ String "&" ("size" ++ String "=" (Itoa s)))%string as ->.
  { rewrite append_assoc. done. }
  rewrite /ParseQuery Split_cons; [|apply (avoids_part "&" "page=" p); done].
  rewrite Split_one; [|apply (avoids_part "&" "size=" s); done]. cbn [parseParts]. rewrite !part_entry //.
Qed.

Lemma base64Raw_nonempty bs : bs ≠ [] → base64RawEncode bs ≠ "".
Proof. destruct bs as [|x [|y [|z bs]]]; done. Qed.

Lemma token_decoded p s :
  inS 64 p → inS 64 s →
  NewPageToken (Encode (mkToken p s)).2 = Ok (mkToken p (if decide (s = 0)%Z then defaultSize else s)) ∧
  (Encode (mkToken p s)).2 ≠ "" ∧ (Encode (mkToken p s)).1 = mkToken p (if decide (s = 0)%Z then defaultSize else s).
Proof.
  intros Hp Hs. rewrite /Encode. cbn [Size]. set (s' := if decide (s = 0)%Z then defaultSize else s).
  assert ((if decide (s = 0)%Z then mkToken (Page (mkToken p s)) defaultSize else mkToken p s) = mkToken p s') as ->
    by (subst s'; by case_decide).
  assert (inS 64 s') as Hs' by (subst s'; case_decide; [rewrite /inS /defaultSize; lia|done]). clearbody s'. cbn [fst snd Page Size].
  assert (base64RawEncode (bytes_of_string (tokenQuery p s')) ≠ "") as Hne by (by apply base64Raw_nonempty).
  fold (tokenQuery p s'). split; [|done]. rewrite /NewPageToken. destruct (String.eqb_spec (base64RawEncode (bytes_of_string (tokenQuery p s'))) "") as [|_]; [done|].
  rewrite base64Raw_roundtrip. cbn [ok_or obind]. rewrite string_bytes ParseQuery_token. cbn [ok_or obind queryGet].
  change (String.eqb "page" "page") with true. change (String.eqb "page" "size") with false. change (String.eqb "size" "size") with true. cbn iota.
  rewrite /inS in Hp, Hs'. change (2 ^ (64 - 1))%Z with (2 ^ 63)%Z in *. by rewrite !Atoi_Itoa.
Qed.

(** A page token that was encoded is decoded to the same page and size, with
    the default for size zero, and is never the empty string, which means the
    first page. *)
Theorem token_roundtrip p s :
  inS 64 p → inS 64 s →
  NewPageToken (Encode (mkToken p s)).2 = Ok (mkToken p (if decide (s = 0)%Z then defaultSize else s)) ∧
  (Encode (mkToken p s)).2 ≠ "" ∧ (Encode (mkToken p s)).1 = mkToken p (if decide (s = 0)%Z then defaultSize else s).
Proof. apply token_decoded. Qed.

(** *** Listing all pages *)

Section complete.
Context {S : Type} (nodes : list S) (listFn : Z → Z → list S * Z * option error).

(** What the pages rely on: a range that starts within the list gives its
    elements.  Nothing is said about ranges that do not. *)
Definition listsNodes : Prop := ∀ start stop : nat,
  start < length nodes → start < stop → listFn (Z.of_nat start) (Z.of_nat stop) = (take (stop - start) (drop start nodes), Z.of_nat (length nodes), None).

Definition tokenOf (k n : nat) : string := if decide (k = 0) then "" else (Encode (mkToken (Z.of_nat k) (Z.of_nat n))).2.

Lemma small_inS (k : nat) : (Z.of_nat k < 2 ^ 63)%Z → inS 64 (Z.of_nat k).
Proof. rewrite /inS. change (2 ^ (64 - 1))%Z with (2 ^ 63)%Z. lia. Qed.

Lemma page_exact pageSize (n k : nat) :
  listsNodes → Z.of_nat n = effectiveSize pageSize →
  0 < n → k * n < length nodes → (Z.of_nat (length nodes + n) < 2 ^ 63)%Z →
  ListNodeStatuses listFn pageSize (tokenOf k n) =
  mkListing (take n (drop (k * n) nodes)) (if decide ((k + 1) * n < length nodes) then tokenOf (k + 1) n else "") (Z.of_nat (length nodes)) None.
Proof.
  intros Hlist Hn Hpos Hk Hmax. rewrite /ListNodeStatuses -Hn. clear Hn.
  assert (k <= k * n) as Hkn by nia.
  assert ((if String.eqb (tokenOf k n) "" then Ok (mkToken 0 (Z.of_nat n)) else NewPageToken (tokenOf k n)) = Ok (mkToken (Z.of_nat k) (Z.of_nat n))) as ->.
  { rewrite /tokenOf. case_decide as H0; [by subst|].
    destruct (token_decoded (Z.of_nat k) (Z.of_nat n)) as (H1 & H2 & _); [apply small_inS; lia|apply small_inS; lia|].
    rewrite decide_False in H1; [|lia]. rewrite H1. by destruct (String.eqb_spec (Encode (mkToken (Z.of_nat k) (Z.of_nat n))).2 ""). }
  cbn [Page Size]. replace (Z.of_nat k + 1)%Z with (Z.of_nat (k + 1)) by lia.
  rewrite (wrapS_small 64 (Z.of_nat (k + 1))); [|done|apply small_inS; lia]. rewrite -!Nat2Z.inj_mul.
  rewrite (wrapS_small 64 (Z.of_nat (k * n))); [|done|apply small_inS; lia].
  rewrite (wrapS_small 64 (Z.of_nat ((k + 1) * n))); [|done|apply small_inS; nia].
  rewrite Hlist; [|done|nia]. replace ((k + 1) * n - k * n) with n by nia. cbn iota beta. f_equal.
  destruct (decide (Z.of_nat ((k + 1) * n) < Z.of_nat (length nodes))%Z), (decide ((k + 1) * n < length nodes)); try lia; [|done].
  rewrite /tokenOf decide_False //. lia.
Qed.

Lemma tokenOf_nonempty k n : (Z.of_nat k < 2 ^ 63)%Z → (Z.of_nat n < 2 ^ 63)%Z → k ≠ 0 → tokenOf k n ≠ "".
Proof.
  intros Hk Hn H0. by rewrite /tokenOf decide_False.
Qed.

Lemma listAll_from pageSize (n : nat) fuel : ∀ k,
  listsNodes → Z.of_nat n = effectiveSize pageSize →
  0 < n → k * n < length nodes → (Z.of_nat (length nodes + n) < 2 ^ 63)%Z → length nodes < fuel + k * n →
  ∃ pages, listAll listFn pageSize fuel (tokenOf k n) = Some (drop (k * n) nodes, pages) ∧
    (k + pages - 1) * n < length nodes ∧ length nodes ≤ (k + pages) * n ∧ 0 < pages.
Proof.
  induction fuel as [|fuel IH]; intros k Hlist Hn Hpos Hk Hmax Hf; [lia|]. cbn [listAll].
  rewrite (page_exact pageSize n k) //. cbn [err stats nextPageToken]. case_decide as Hnext.
  - destruct (String.eqb_spec (tokenOf (k + 1) n) "") as [He|_]; [by destruct (tokenOf_nonempty (k + 1) n); [nia|lia|lia|]|].
    destruct (IH (k + 1)) as (pages & Hl & H1 & H2 & H3); [done|done|lia|lia|lia|nia|]. rewrite Hl. cbn [mbind option_bind].
    assert (take n (drop (k * n) nodes) ++ drop ((k + 1) * n) nodes = drop (k * n) nodes) as ->.
    { rewrite -{2}(take_drop n (drop (k * n) nodes)) drop_drop. do 2 f_equal. lia. }
    exists (Datatypes.S pages). replace (k + Datatypes.S pages) with (k + 1 + pages) by lia. split; [done|]. split; [exact H1|]. split; [exact H2|lia].
  - exists 1. split; [|repeat split; lia]. do 2 f_equal. apply take_ge. rewrite length_drop. nia.
Qed.

(** A client that follows the page tokens gets every status exactly once, in
    order, in the smallest number of pages, whatever page size it asks for; the
    last page has no token. *)
Theorem pagination_complete pageSize (n fuel : nat) :
  listsNodes → nodes ≠ [] → Z.of_nat n = effectiveSize pageSize → 0 < n →
  (Z.of_nat (length nodes + n) < 2 ^ 63)%Z → length nodes < fuel →
  ∃ pages, listAll listFn pageSize fuel "" = Some (nodes, pages) ∧ (pages - 1) * n < length nodes ∧ length nodes ≤ pages * n.
Proof.
  intros Hlist Hne Hn Hpos Hmax Hf. destruct (listAll_from pageSize n fuel 0) as (pages & Hl & H1 & H2 & _); try done.
  - cbn. destruct nodes; [done|cbn; lia].
  - lia.
  - exists pages. split; [exact Hl|]. split; [exact H1|exact H2].
Qed.
End complete.

(** *** Witnesses *)

Lemma token_roundtrip_witness : NewPageToken (Encode (mkToken 3 (-20))).2 = Ok (mkToken 3 (-20)).
Proof. apply (token_roundtrip 3 (-20)); rewrite /inS; cbn; lia. Defined.

Definition demoList (start stop : Z) : list nat * Z * option error :=
  if decide (start < 0 ∨ 5 <= start)%Z then ([], 0%Z, Some ErrList)
  else (take (Z.to_nat stop - Z.to_nat start) (drop (Z.to_nat start) [10; 11; 12; 13; 14]), 5%Z, None).

Lemma pagination_complete_witness :
  listsNodes [10; 11; 12; 13; 14] demoList ∧ ∃ pages, listAll demoList 2 10 "" = Some ([10; 11; 12; 13; 14], pages).
Proof.
  assert (listsNodes [10; 11; 12; 13; 14] demoList) as Hl.
  { intros start stop Hs _. rewrite /demoList decide_False; [|cbn in Hs; lia]. by rewrite !Nat2Z.id. }
  split; [done|]. destruct (pagination_complete [10; 11; 12; 13; 14] demoList 2 2 10 Hl) as (pages & H & _); [done|done|lia|done|cbn; lia|].
  by exists pages.
Defined.
End Pages.
