(* ===== verification/Messages.v ===== *)
(** [src/pkg/capabilities]: identifiers and kinds of capabilities, the requests
    and responses they exchange ([capabilities.go]), and their conversion to and
    from protocol buffers ([pb/capabilities_helpers.go] and the replies of
    [loop/internal/core/services/capability]).

    A [*values.Map] is [None] when it is nil.  A field of a message that is a
    pointer to a message is an [option]; marshalling keeps it as it is. *)

From Stdlib.Strings Require Import Ascii.
From S2P Require Import Prelude GoBytes GoStrings Values.

Module Messages.
Import Values.

Inductive error := ErrNilRequest | ErrNilMetadata | ErrKind | ErrIdLength | ErrIdFormat | ErrDial | ErrImpl (text : string).

(** *** Maps of values *)

Definition goMap : Type := option (list (string * option Value)).
Definition pbMap : Type := option (list (string * pbValue)).

Definition EmptyMap : goMap := Some [].

(** [if req.Config != nil { config = req.Config }] *)
Definition orEmpty (m : goMap) : goMap := match m with None => EmptyMap | m => m end.

(** The interface that holds a nil map is not nil: its message is an empty map. *)
Definition ProtoMap (m : goMap) : pbMap := Some ((λ kv, (kv.1, Proto kv.2)) <$> default [] m).
Definition FromMapValueProto (m : pbMap) : goMap :=
  match m with None => None | Some l => Some ((λ kv, (kv.1, FromProto kv.2)) <$> l) end.

(** What a map is after it was sent. *)
Definition sentMap (m : goMap) : goMap := Some (default [] m).

(** *** Requests and responses *)

Record RequestMetadata := mkRequestMetadata {
  WorkflowID : string; WorkflowOwner : string; WorkflowExecutionID : string; WorkflowName : string;
  WorkflowDonID : Z; WorkflowDonConfigVersion : Z; ReferenceID : string; DecodedWorkflowName : string
}.
Record RegistrationMetadata := mkRegistrationMetadata { regWorkflowID : string; regWorkflowOwner : string; regReferenceID : string }.

Record CapabilityRequest := mkCapabilityRequest { crMetadata : RequestMetadata; crConfig : goMap; crInputs : goMap }.
(** [RegisterToWorkflowRequest] and [UnregisterFromWorkflowRequest] *)
Record RegistrationRequest := mkRegistrationRequest { rrMetadata : RegistrationMetadata; rrConfig : goMap }.
Record MeteringNodeDetail := mkMeteringNodeDetail { Peer2PeerID : string; SpendUnit : string; SpendValue : string }.
Record CapabilityResponse := mkCapabilityResponse { respValue : goMap; Metering : list MeteringNodeDetail }.

Record TriggerRegistrationRequest := mkTriggerRegistrationRequest { TriggerID : string; trMetadata : RequestMetadata; trConfig : goMap }.
Record OCRTriggerEvent := mkOCRTriggerEvent {
  ConfigDigest : list byte; SeqNr : Z; OCRReport : list byte; Sigs : list (list byte * Z)
}.
Record TriggerEvent := mkTriggerEvent { TriggerType : string; EventID : string; Outputs : goMap; OCREvent : option OCRTriggerEvent }.
(** The error is its text. *)
Record TriggerResponse := mkTriggerResponse { Event : TriggerEvent; TriggerErr : option string }.

(** *** Messages *)

Record pbRequestMetadata := mkPbRequestMetadata {
  WorkflowId : string; WorkflowExecutionId : string; PbWorkflowOwner : string; PbWorkflowName : string;
  WorkflowDonId : Z; PbWorkflowDonConfigVersion : Z; ReferenceId : string; PbDecodedWorkflowName : string
}.
Record pbRegistrationMetadata := mkPbRegistrationMetadata { regWorkflowId : string; regReferenceId : string; regPbWorkflowOwner : string }.
Record pbCapabilityRequest := mkPbCapabilityRequest { pcrMetadata : option pbRequestMetadata; pcrConfig : pbMap; pcrInputs : pbMap }.
Record pbRegistrationRequest := mkPbRegistrationRequest { prrMetadata : option pbRegistrationMetadata; prrConfig : pbMap }.
Record pbCapabilityResponse := mkPbCapabilityResponse { prValue : pbMap; prError : string; prMetering : option (list MeteringNodeDetail) }.
Record pbTriggerRegistrationRequest := mkPbTriggerRegistrationRequest { ptrId : string; ptrMetadata : option pbRequestMetadata; ptrConfig : pbMap }.
Record pbTriggerEvent := mkPbTriggerEvent { pteType : string; pteId : string; pteOutputs : pbMap }.
Record pbTriggerResponse := mkPbTriggerResponse { ptError : string; ptEvent : option pbTriggerEvent }.

(** *** Conversions *)

Definition CapabilityRequestToProto (req : CapabilityRequest) : pbCapabilityRequest :=
  let md := crMetadata req in
  let inputs := orEmpty (crInputs req) in
  let config := orEmpty (crConfig req) in
  mkPbCapabilityRequest
    (Some (mkPbRequestMetadata (WorkflowID md) (WorkflowExecutionID md) (WorkflowOwner md) (WorkflowName md) (WorkflowDonID md)
             (WorkflowDonConfigVersion md) (ReferenceID md) (DecodedWorkflowName md)))
    (ProtoMap config) (ProtoMap inputs).

Definition CapabilityRequestFromProto (pr : option pbCapabilityRequest) : outcome error CapabilityRequest :=
  let? pr := ok_or ErrNilRequest pr in
  let? md := ok_or ErrNilMetadata (pcrMetadata pr) in
  Ok (mkCapabilityRequest
        (mkRequestMetadata (WorkflowId md) (PbWorkflowOwner md) (WorkflowExecutionId md) (PbWorkflowName md) (WorkflowDonId md)
           (PbWorkflowDonConfigVersion md) (ReferenceId md) (PbDecodedWorkflowName md))
        (FromMapValueProto (pcrConfig pr)) (FromMapValueProto (pcrInputs pr))).

Definition CapabilityResponseToProto (resp : CapabilityResponse) : pbCapabilityResponse :=
  mkPbCapabilityResponse (ProtoMap (respValue resp)) "" (Some (Metering resp)).

Definition CapabilityResponseFromProto (pr : option pbCapabilityResponse) : outcome error CapabilityResponse :=
  let? pr := ok_or ErrNilRequest pr in
  Ok (mkCapabilityResponse (FromMapValueProto (prValue pr)) (default [] (prMetering pr))).

Definition RegistrationRequestToProto (req : RegistrationRequest) : pbRegistrationRequest :=
  let md := rrMetadata req in
  let config := orEmpty (rrConfig req) in
  mkPbRegistrationRequest (Some (mkPbRegistrationMetadata (regWorkflowID md) (regReferenceID md) (regWorkflowOwner md))) (ProtoMap config).

Definition RegistrationRequestFromProto (req : option pbRegistrationRequest) : outcome error RegistrationRequest :=
  let? req := ok_or ErrNilRequest req in
  let? md := ok_or ErrNilMetadata (prrMetadata req) in
  Ok (mkRegistrationRequest (mkRegistrationMetadata (regWorkflowId md) (regPbWorkflowOwner md) (regReferenceId md)) (FromMapValueProto (prrConfig req))).

(** The reference and the decoded name are not filled in. *)
Definition TriggerRegistrationRequestToProto (req : TriggerRegistrationRequest) : pbTriggerRegistrationRequest :=
  let md := trMetadata req in
  let config := orEmpty (trConfig req) in
  mkPbTriggerRegistrationRequest (TriggerID req)
    (Some (mkPbRequestMetadata (WorkflowID md) (WorkflowExecutionID md) (WorkflowOwner md) (WorkflowName md) (WorkflowDonID md)
             (WorkflowDonConfigVersion md) "" ""))
    (ProtoMap config).

Definition TriggerRegistrationRequestFromProto (req : option pbTriggerRegistrationRequest) : outcome error TriggerRegistrationRequest :=
  let? req := ok_or ErrNilRequest req in
  let? md := ok_or ErrNilMetadata (ptrMetadata req) in
  Ok (mkTriggerRegistrationRequest (ptrId req)
        (mkRequestMetadata (WorkflowId md) (PbWorkflowOwner md) (WorkflowExecutionId md) (PbWorkflowName md) (WorkflowDonId md)
           (PbWorkflowDonConfigVersion md) "" "")
        (FromMapValueProto (ptrConfig req))).

Definition TriggerResponseToProto (resp : TriggerResponse) : pbTriggerResponse :=
  let errs := default "" (TriggerErr resp) in
  mkPbTriggerResponse errs (Some (mkPbTriggerEvent (TriggerType (Event resp)) (EventID (Event resp)) (ProtoMap (Outputs (Event resp))))).

Definition zeroEvent : TriggerEvent := mkTriggerEvent "" "" None None.

Definition TriggerResponseFromProto (resp : option pbTriggerResponse) : outcome error TriggerResponse :=
  let? resp := ok_or ErrNilRequest resp in
  let event :=
    match ptEvent resp with
    | Some eventpb => mkTriggerEvent (pteType eventpb) (pteId eventpb) (FromMapValueProto (pteOutputs eventpb)) None
    | None => zeroEvent
    end in
  Ok (mkTriggerResponse event (if String.eqb (ptError resp) "" then None else Some (ptError resp))).

(** *** Kinds and information *)

(** [CapabilityType] is a string type: any text can occur. *)
Definition CapabilityTypeUnknown : string := "unknown".
Definition CapabilityTypeTrigger : string := "trigger".
Definition CapabilityTypeAction : string := "action".
Definition CapabilityTypeConsensus : string := "consensus".
Definition CapabilityTypeTarget : string := "target".

Definition IsValid (c : string) : bool :=
  String.eqb c CapabilityTypeTrigger || String.eqb c CapabilityTypeAction || String.eqb c CapabilityTypeConsensus || String.eqb c CapabilityTypeTarget.

Record DON := mkDON { DonID : Z; ConfigVersion : Z; Members : list (list byte); DonF : Z; IsPublic : bool; AcceptsWorkflows : bool }.
Record CapabilityInfo := mkCapabilityInfo { InfoID : string; InfoType : string; Description : string; InfoDON : option DON; IsLocal : bool }.

Inductive pbCapabilityType := PbUnknown | PbTrigger | PbAction | PbConsensus | PbTarget | PbOther (n : Z).
Record pbInfoReply := mkPbInfoReply { piId : string; piType : pbCapabilityType; piDescription : string; piIsLocal : bool }.

Definition InfoToReply (info : CapabilityInfo) : pbInfoReply :=
  let ct :=
    if String.eqb (InfoType info) CapabilityTypeTrigger then PbTrigger
    else if String.eqb (InfoType info) CapabilityTypeAction then PbAction
    else if String.eqb (InfoType info) CapabilityTypeConsensus then PbConsensus
    else if String.eqb (InfoType info) CapabilityTypeTarget then PbTarget
    else PbUnknown in
  mkPbInfoReply (InfoID info) ct (Description info) (IsLocal info).

(** A number that is none of the constants leaves the type empty. *)
Definition InfoReplyToInfo (resp : pbInfoReply) : outcome error CapabilityInfo :=
  let info ct := Ok (mkCapabilityInfo (piId resp) ct (piDescription resp) None (piIsLocal resp)) in
  match piType resp with
  | PbTrigger => info CapabilityTypeTrigger
  | PbAction => info CapabilityTypeAction
  | PbConsensus => info CapabilityTypeConsensus
  | PbTarget => info CapabilityTypeTarget
  | PbUnknown => Err ErrKind
  | PbOther _ => info ""
  end.

(** *** DONs and nodes *)

Record pbDON := mkPbDON { pdId : Z; pdMembers : list (list byte); pdF : Z; pdConfigVersion : Z }.

Definition toPbDON (don : DON) : pbDON := mkPbDON (DonID don) (Members don) (DonF don) (ConfigVersion don).

(** Converting a slice to an array of 32 bytes panics when it is shorter. *)
Definition toPeerID (bs : list byte) : outcome error (list byte) := if decide (length bs < 32) then Panic else Ok (take 32 bs).

Definition toDON (don : option pbDON) : outcome error DON :=
  match don with
  | None => Panic
  | Some don =>
      let? members := omapM toPeerID (pdMembers don) in
      Ok (mkDON (pdId don) (pdConfigVersion don) members (wrapU 8 (pdF don)) false false)
  end.

Record Node := mkNode { NodePeerID : option (list byte); WorkflowDON : DON; CapabilityDONs : list DON }.
Record pbLocalNodeReply := mkPbLocalNodeReply { pnPeerID : list byte; pnWorkflowDON : option pbDON; pnCapabilityDONs : list pbDON }.

(** [capabilitiesRegistryServer.LocalNode] and [capabilitiesRegistryClient.LocalNode] *)
Definition nodeToReply (node : Node) : pbLocalNodeReply :=
  mkPbLocalNodeReply (default [] (NodePeerID node)) (Some (toPbDON (WorkflowDON node))) (toPbDON <$> CapabilityDONs node).

Definition nodeFromReply (res : pbLocalNodeReply) : outcome error Node :=
  let? pid := if decide (0 < length (pnPeerID res)) then let? p := toPeerID (pnPeerID res) in Ok (Some p) else Ok None in
  let? cDONs := omapM (λ d, toDON (Some d)) (pnCapabilityDONs res) in
  let? workflowDON := toDON (pnWorkflowDON res) in
  Ok (mkNode pid workflowDON cDONs).

(** *** Configuration of a capability *)

Record RemoteTriggerConfig := mkRemoteTriggerConfig {
  RegistrationRefresh : Z; RegistrationExpiry : Z; MinResponsesToAggregate : Z; MessageExpiry : Z; MaxBatchSize : Z; BatchCollectionPeriod : Z
}.
Record RemoteExecutableConfig := mkRemoteExecutableConfig { ExcludedAttributes : list string; ExecRegistrationRefresh : Z; ExecRegistrationExpiry : Z }.
Record CapabilityConfiguration := mkCapabilityConfiguration {
  DefaultConfig : goMap;
  RestrictedKeys : list string;
  RestrictedConfig : goMap;
  TriggerConfig : option RemoteTriggerConfig;
  TargetConfig : option (list string);
  ExecutableConfig : option RemoteExecutableConfig
}.

Definition DefaultRegistrationRefresh : Z := 30 * 1000000000.
Definition DefaultRegistrationExpiry : Z := 2 * 60 * 1000000000.
Definition DefaultMessageExpiry : Z := 2 * 60 * 1000000000.
Definition DefaultBatchSize : Z := 100.
Definition DefaultBatchCollectionPeriod : Z := 100 * 1000000.

Definition orDefault (z d : Z) : Z := if decide (z = 0)%Z then d else z.

(** [RemoteTriggerConfig.ApplyDefaults]; a nil configuration stays nil. *)
Definition ApplyDefaults (c : option RemoteTriggerConfig) : option RemoteTriggerConfig :=
  match c with
  | None => None
  | Some c =>
      Some (mkRemoteTriggerConfig (orDefault (RegistrationRefresh c) DefaultRegistrationRefresh) (orDefault (RegistrationExpiry c) DefaultRegistrationExpiry)
              (MinResponsesToAggregate c) (orDefault (MessageExpiry c) DefaultMessageExpiry) (orDefault (MaxBatchSize c) DefaultBatchSize)
              (orDefault (BatchCollectionPeriod c) DefaultBatchCollectionPeriod))
  end.

(** [RemoteExecutableConfig.ApplyDefaults] *)
Definition ApplyExecutableDefaults (c : option RemoteExecutableConfig) : option RemoteExecutableConfig :=
  match c with
  | None => None
  | Some c =>
      Some (mkRemoteExecutableConfig (ExcludedAttributes c) (orDefault (ExecRegistrationRefresh c) DefaultRegistrationRefresh)
              (orDefault (ExecRegistrationExpiry c) DefaultRegistrationExpiry))
  end.

(** [durationpb]: seconds and nanoseconds of a duration, and back. *)
Class DurationPb := {
  pbDuration : Type;
  durationNew : Z → pbDuration;
  AsDuration : option pbDuration → Z;
  AsDuration_New d : inS 64 d → AsDuration (Some (durationNew d)) = d
}.

Section config.
Context `{DurationPb}.

Record pbTriggerConfig := mkPbTriggerConfig {
  ptcRefresh : option pbDuration; ptcExpiry : option pbDuration; ptcMin : Z; ptcMessageExpiry : option pbDuration; ptcBatch : Z; ptcPeriod : option pbDuration
}.
Record pbExecutableConfig := mkPbExecutableConfig { pecExcluded : list string; pecRefresh : option pbDuration; pecExpiry : option pbDuration }.
Inductive pbRemoteConfig := RemoteNone | RemoteTrigger (c : pbTriggerConfig) | RemoteTarget (excluded : list string) | RemoteExecutable (c : pbExecutableConfig).
(** [CapabilityConfig]; its fields for the restricted configuration are not used. *)
Record pbCapabilityConfig := mkPbCapabilityConfig { pccDefault : pbMap; pccRemote : pbRemoteConfig }.

(** [capabilitiesRegistryServer.ConfigForCapability] *)
Definition configToProto (cc : CapabilityConfiguration) : pbCapabilityConfig :=
  let remote := RemoteNone in
  let remote :=
    match TriggerConfig cc with
    | Some c => RemoteTrigger (mkPbTriggerConfig (Some (durationNew (RegistrationRefresh c))) (Some (durationNew (RegistrationExpiry c)))
                  (MinResponsesToAggregate c) (Some (durationNew (MessageExpiry c))) (MaxBatchSize c) (Some (durationNew (BatchCollectionPeriod c))))
    | None => remote
    end in
  let remote := match TargetConfig cc with Some excluded => RemoteTarget excluded | None => remote end in
  let remote :=
    match ExecutableConfig cc with
    | Some c => RemoteExecutable (mkPbExecutableConfig (ExcludedAttributes c) (Some (durationNew (ExecRegistrationRefresh c)))
                  (Some (durationNew (ExecRegistrationExpiry c))))
    | None => remote
    end in
  mkPbCapabilityConfig (ProtoMap (DefaultConfig cc)) remote.

(** [capabilitiesRegistryClient.ConfigForCapability] *)
Definition configFromProto (res : pbCapabilityConfig) : CapabilityConfiguration :=
  let mc := FromMapValueProto (pccDefault res) in
  match pccRemote res with
  | RemoteTrigger c =>
      mkCapabilityConfiguration mc [] None
        (Some (mkRemoteTriggerConfig (AsDuration (ptcRefresh c)) (AsDuration (ptcExpiry c)) (ptcMin c) (AsDuration (ptcMessageExpiry c)) (ptcBatch c)
                 (AsDuration (ptcPeriod c)))) None None
  | RemoteTarget excluded => mkCapabilityConfiguration mc [] None None (Some excluded) None
  | RemoteExecutable c =>
      mkCapabilityConfiguration mc [] None None None (Some (mkRemoteExecutableConfig (pecExcluded c) (AsDuration (pecRefresh c)) (AsDuration (pecExpiry c))))
  | RemoteNone => mkCapabilityConfiguration mc [] None None None None
  end.
End config.

(** *** Identifiers

    The regular expression of an id: a name, an at sign and a version. *)

Fixpoint cutAt (sep : ascii) (s : string) : string * option string :=
  match s with
  | EmptyString => (EmptyString, None)
  | String c s => if Ascii.eqb c sep then (EmptyString, Some s) else let '(a, b) := cutAt sep s in (String c a, b)
  end.

Definition inRange (lo hi c : ascii) : bool := (N_of_ascii lo <=? N_of_ascii c)%N && (N_of_ascii c <=? N_of_ascii hi)%N.
Definition nameChar (c : ascii) : bool := inRange "a" "z" c || inRange "0" "9" c || Ascii.eqb c "_" || Ascii.eqb c "-" || Ascii.eqb c ":".
Definition identChar (c : ascii) : bool := inRange "0" "9" c || inRange "a" "z" c || inRange "A" "Z" c || Ascii.eqb c "-".

Definition nonempty (s : string) : bool := negb (String.eqb s "").

(** [0|[1-9]\d*] *)
Definition numericId (s : string) : bool :=
  match s with
  | EmptyString => false
  | String "0" EmptyString => true
  | String c s => inRange "1" "9" c && allChars (inRange "0" "9") s
  end.
(** [0|[1-9]\d*|\d*[a-zA-Z-][0-9a-zA-Z-]*] *)
Definition preReleaseId (s : string) : bool :=
  nonempty s && allChars identChar s && (negb (allChars (inRange "0" "9") s) || numericId s).
Definition buildId (s : string) : bool := nonempty s && allChars identChar s.

Definition isVersion (v : string) : bool :=
  let '(v, build) := cutAt "+" v in
  let '(core, pre) := cutAt "-" v in
  match Split core "." with
  | [a; b; c] => numericId a && numericId b && numericId c
  | _ => false
  end &&
  match pre with None => true | Some pre => forallb preReleaseId (Split pre ".") end &&
  match build with None => true | Some build => forallb buildId (Split build ".") end.

Definition idRegex (id : string) : bool :=
  match cutAt "@" id with
  | (name, Some version) => nonempty name && allChars nameChar name && isVersion version
  | (_, None) => false
  end.

Definition idMaxLength : nat := 128.

Definition newCapabilityInfo (id capabilityType description : string) (don : option DON) (isLocal : bool) : outcome error CapabilityInfo :=
  if decide (idMaxLength < String.length id) then Err ErrIdLength
  else if negb (idRegex id) then Err ErrIdFormat
  else if negb (IsValid capabilityType) then Err ErrKind
  else Ok (mkCapabilityInfo id capabilityType description don isLocal).

(** [strings.Index] is -1 without an at sign. *)
Definition Version (c : CapabilityInfo) : string := match cutAt "@" (InfoID c) with (_, Some version) => version | (_, None) => InfoID c end.

(** *** Facts: maps *)

Lemma Proto_FromProto_entries (l : list (string * option Value)) :
  (λ kv : string * pbValue, (kv.1, FromProto kv.2)) <$> ((λ kv, (kv.1, Proto kv.2)) <$> l) = l.
Proof. induction l as [|[k v] l IH]; [done|]. cbn [fmap list_fmap fst snd]. by rewrite FromProto_Proto IH. Qed.

Lemma FromMap_ProtoMap m : FromMapValueProto (ProtoMap m) = sentMap m.
Proof. rewrite /FromMapValueProto /ProtoMap /sentMap. by rewrite Proto_FromProto_entries. Qed.

Lemma sentMap_idem m : sentMap (sentMap m) = sentMap m.
Proof. done. Qed.

Lemma sentMap_orEmpty m : sentMap (orEmpty m) = sentMap m.
Proof. by destruct m. Qed.

#[local] Arguments ProtoMap : simpl never.
#[local] Arguments FromMapValueProto : simpl never.
#[local] Arguments sentMap : simpl never.
#[local] Arguments orEmpty : simpl never.
Create Rewrite HintDb sent.
#[export] Hint Rewrite FromMap_ProtoMap sentMap_orEmpty : sent.

(** *** Facts: requests and responses *)

Definition sentRequest (req : CapabilityRequest) : CapabilityRequest :=
  mkCapabilityRequest (crMetadata req) (sentMap (crConfig req)) (sentMap (crInputs req)).
Definition sentResponse (resp : CapabilityResponse) : CapabilityResponse := mkCapabilityResponse (sentMap (respValue resp)) (Metering resp).
Definition sentRegistration (req : RegistrationRequest) : RegistrationRequest := mkRegistrationRequest (rrMetadata req) (sentMap (rrConfig req)).

Definition withoutReference (md : RequestMetadata) : RequestMetadata :=
  mkRequestMetadata (WorkflowID md) (WorkflowOwner md) (WorkflowExecutionID md) (WorkflowName md) (WorkflowDonID md) (WorkflowDonConfigVersion md) "" "".
Definition sentTriggerRegistration (req : TriggerRegistrationRequest) : TriggerRegistrationRequest :=
  mkTriggerRegistrationRequest (TriggerID req) (withoutReference (trMetadata req)) (sentMap (trConfig req)).

Definition sentEvent (e : TriggerEvent) : TriggerEvent := mkTriggerEvent (TriggerType e) (EventID e) (sentMap (Outputs e)) None.
Definition sentError (e : option string) : option string := match e with Some s => if String.eqb s "" then None else Some s | None => None end.
Definition sentTriggerResponse (r : TriggerResponse) : TriggerResponse := mkTriggerResponse (sentEvent (Event r)) (sentError (TriggerErr r)).

Lemma request_sent req : CapabilityRequestFromProto (Some (CapabilityRequestToProto req)) = Ok (sentRequest req).
Proof. destruct req as [[] c i]. rewrite /CapabilityRequestFromProto /CapabilityRequestToProto /=. by autorewrite with sent. Qed.

Lemma response_sent resp : CapabilityResponseFromProto (Some (CapabilityResponseToProto resp)) = Ok (sentResponse resp).
Proof. rewrite /CapabilityResponseFromProto /CapabilityResponseToProto /=. by autorewrite with sent. Qed.

Lemma registration_sent req : RegistrationRequestFromProto (Some (RegistrationRequestToProto req)) = Ok (sentRegistration req).
Proof. destruct req as [[] c]. rewrite /RegistrationRequestFromProto /RegistrationRequestToProto /=. by autorewrite with sent. Qed.

Lemma trigger_registration_sent req :
  TriggerRegistrationRequestFromProto (Some (TriggerRegistrationRequestToProto req)) = Ok (sentTriggerRegistration req).
Proof. destruct req as [id [] c]. rewrite /TriggerRegistrationRequestFromProto /TriggerRegistrationRequestToProto /=. by autorewrite with sent. Qed.

Lemma trigger_response_sent r : TriggerResponseFromProto (Some (TriggerResponseToProto r)) = Ok (sentTriggerResponse r).
Proof.
  destruct r as [[ty id o ocr] e]. rewrite /TriggerResponseFromProto /TriggerResponseToProto /=. autorewrite with sent.
  rewrite /sentTriggerResponse /sentEvent /sentError /=. destruct e as [e|]; [|done]. cbn. by destruct (String.eqb e "").
Qed.

Lemma info_sent info : IsValid (InfoType info) = true →
  InfoReplyToInfo (InfoToReply info) = Ok (mkCapabilityInfo (InfoID info) (InfoType info) (Description info) None (IsLocal info)).
Proof.
  rewrite /IsValid /InfoReplyToInfo /InfoToReply. intros Hv. cbn [piType piId piDescription piIsLocal].
  destruct (String.eqb_spec (InfoType info) CapabilityTypeTrigger) as [->|_]; [done|].
  destruct (String.eqb_spec (InfoType info) CapabilityTypeAction) as [->|_]; [done|].
  destruct (String.eqb_spec (InfoType info) CapabilityTypeConsensus) as [->|_]; [done|].
  destruct (String.eqb_spec (InfoType info) CapabilityTypeTarget) as [->|_]; [done|discriminate Hv].
Qed.

Lemma info_invalid info : IsValid (InfoType info) = false → InfoReplyToInfo (InfoToReply info) = Err ErrKind.
Proof.
  rewrite /IsValid /InfoReplyToInfo /InfoToReply. cbn [piType].
  by intros [[[-> ->]%orb_false_iff ->]%orb_false_iff ->]%orb_false_iff.
Qed.

(** What arrives when a request, a response or an event is sent: everything,
    with a nil map replaced by an empty one, but for the reference and the
    decoded name of a trigger registration, the OCR event of a trigger response
    and an error with an empty text; sending again changes nothing more. *)
Theorem messages_arrive :
  (∀ req, CapabilityRequestFromProto (Some (CapabilityRequestToProto req)) = Ok (sentRequest req) ∧ sentRequest (sentRequest req) = sentRequest req) ∧
  (∀ resp, CapabilityResponseFromProto (Some (CapabilityResponseToProto resp)) = Ok (sentResponse resp) ∧
     sentResponse (sentResponse resp) = sentResponse resp) ∧
  (∀ req, RegistrationRequestFromProto (Some (RegistrationRequestToProto req)) = Ok (sentRegistration req) ∧
     sentRegistration (sentRegistration req) = sentRegistration req) ∧
  (∀ req, TriggerRegistrationRequestFromProto (Some (TriggerRegistrationRequestToProto req)) = Ok (sentTriggerRegistration req) ∧
     sentTriggerRegistration (sentTriggerRegistration req) = sentTriggerRegistration req) ∧
  (∀ r, TriggerResponseFromProto (Some (TriggerResponseToProto r)) = Ok (sentTriggerResponse r) ∧
     sentTriggerResponse (sentTriggerResponse r) = sentTriggerResponse r) ∧
  (∀ info, InfoReplyToInfo (InfoToReply info) =
     if IsValid (InfoType info) then Ok (mkCapabilityInfo (InfoID info) (InfoType info) (Description info) None (IsLocal info)) else Err ErrKind).
Proof.
  split_and!.
  - intros req. by rewrite request_sent.
  - intros resp. by rewrite response_sent.
  - intros req. by rewrite registration_sent.
  - intros req. by rewrite trigger_registration_sent.
  - intros [[] [e|]]; rewrite trigger_response_sent; [|done]. split; [done|]. rewrite /sentTriggerResponse /sentError /=.
    destruct (String.eqb e "") eqn:E; [done|]. by rewrite E.
  - intros info. destruct (IsValid (InfoType info)) eqn:E; [by apply info_sent|by apply info_invalid].
Qed.

(** *** Facts: nodes and configurations *)

Definition sentDON (d : DON) : DON := mkDON (DonID d) (ConfigVersion d) (Members d) (DonF d) false false.
Definition wfDON (d : DON) : Prop := Forall (λ m, length m = 32) (Members d) ∧ (0 <= DonF d < 2 ^ 8)%Z.

Lemma toPeerID_array m : length m = 32 → toPeerID m = Ok m.
Proof. intros H. rewrite /toPeerID decide_False; [|lia]. by rewrite -H firstn_all. Qed.

Lemma toDON_sent d : wfDON d → toDON (Some (toPbDON d)) = Ok (sentDON d).
Proof.
  intros [Hm Hf]. rewrite /toDON /toPbDON. cbn [pdMembers pdId pdF pdConfigVersion].
  assert (omapM toPeerID (Members d) = Ok (Members d)) as ->.
  { apply omapM_Forall2. induction Hm as [|m l Hl _ IH]; constructor; [by apply toPeerID_array|done]. }
  cbn [obind]. by rewrite wrapU_small.
Qed.

Lemma node_sent n : wfDON (WorkflowDON n) → Forall wfDON (CapabilityDONs n) → (∀ p, NodePeerID n = Some p → length p = 32) →
  nodeFromReply (nodeToReply n) = Ok (mkNode (NodePeerID n) (sentDON (WorkflowDON n)) (sentDON <$> CapabilityDONs n)).
Proof.
  intros Hw Hc Hp. rewrite /nodeFromReply /nodeToReply. cbn [pnPeerID pnWorkflowDON pnCapabilityDONs].
  assert (omapM (λ d, toDON (Some d)) (toPbDON <$> CapabilityDONs n) = Ok (sentDON <$> CapabilityDONs n)) as ->.
  { apply omapM_Forall2. induction Hc as [|d l Hd _ IH]; constructor; [by apply toDON_sent|done]. }
  rewrite toDON_sent //. destruct (NodePeerID n) as [p|]; cbn [default]; [|done]. specialize (Hp p eq_refl).
  rewrite decide_True; [|cbn; lia]. cbn [default]. change (id p) with p. by rewrite toPeerID_array.
Qed.

Section config_facts.
Context `{DurationPb}.

Definition wfTrigger (c : RemoteTriggerConfig) : Prop :=
  inS 64 (RegistrationRefresh c) ∧ inS 64 (RegistrationExpiry c) ∧ inS 64 (MessageExpiry c) ∧ inS 64 (BatchCollectionPeriod c).
Definition wfExecutable (c : RemoteExecutableConfig) : Prop := inS 64 (ExecRegistrationRefresh c) ∧ inS 64 (ExecRegistrationExpiry c).

(** Of the remote configurations the last one is sent. *)
Definition sentConfig (cc : CapabilityConfiguration) : CapabilityConfiguration :=
  let sent := mkCapabilityConfiguration (sentMap (DefaultConfig cc)) [] None in
  match ExecutableConfig cc, TargetConfig cc, TriggerConfig cc with
  | Some c, _, _ => sent None None (Some c)
  | None, Some c, _ => sent None (Some c) None
  | None, None, c => sent c None None
  end.

Lemma config_sent cc :
  (∀ c, TriggerConfig cc = Some c → wfTrigger c) → (∀ c, ExecutableConfig cc = Some c → wfExecutable c) →
  configFromProto (configToProto cc) = sentConfig cc.
Proof.
  intros Ht He. rewrite /configFromProto /configToProto /sentConfig. cbn [pccDefault pccRemote]. rewrite FromMap_ProtoMap.
  destruct (ExecutableConfig cc) as [[ex r e]|].
  - destruct (He _ eq_refl) as [??]. cbn. by rewrite !AsDuration_New.
  - destruct (TargetConfig cc) as [t|]; [done|]. destruct (TriggerConfig cc) as [[r e mi me mb p]|]; [|done].
    destruct (Ht _ eq_refl) as (? & ? & ? & ?). cbn in *. by rewrite !AsDuration_New.
Qed.
End config_facts.

Lemma ApplyDefaults_idem c : ApplyDefaults (ApplyDefaults c) = ApplyDefaults c.
Proof.
  destruct c as [[r e mi me mb p]|]; [|done]. cbn. rewrite /orDefault. do 2 f_equal; repeat case_decide; try done; lia.
Qed.

(** *** Facts: identifiers *)

Lemma cutAt_spec sep s a b : cutAt sep s = (a, Some b) → s = (a ++ String sep b)%string ∧ avoids sep a = true.
Proof.
  revert a b. induction s as [|c s IH]; intros a b; [done|]. cbn [cutAt]. destruct (Ascii.eqb_spec c sep) as [->|Hc].
  - by intros [= <- <-].
  - destruct (cutAt sep s) as [a' o] eqn:E. intros [= <- ->]. destruct (IH _ _ eq_refl) as [-> Ha]. split; [done|].
    rewrite /avoids in Ha |- *. cbn [allChars]. rewrite Ha andb_true_r. apply negb_true_iff. by apply Ascii.eqb_neq.
Qed.

(** An accepted id is a name, an at sign and the version that [Version] returns,
    which is a semantic version. *)
Lemma capability_id_parts id ct d don l info : newCapabilityInfo id ct d don l = Ok info →
  ∃ name, InfoID info = (name ++ String "@" (Version info))%string ∧ nonempty name = true ∧ allChars nameChar name = true ∧
    isVersion (Version info) = true ∧ IsValid (InfoType info) = true ∧ String.length (InfoID info) ≤ idMaxLength.
Proof.
  rewrite /newCapabilityInfo. case_decide as Hl; [done|]. destruct (idRegex id) eqn:Er; cbn [negb]; [|done].
  destruct (IsValid ct) eqn:Ev; cbn [negb]; [|done]. intros [= <-]. rewrite /Version. cbn [InfoID InfoType].
  rewrite /idRegex in Er. destruct (cutAt "@" id) as [name [v|]] eqn:Ec; [|done]. destruct (cutAt_spec _ _ _ _ Ec) as [-> _].
  apply andb_true_iff in Er as [[Hn Hc]%andb_true_iff Hv]. exists name. split_and!; try done. apply not_lt in Hl. exact Hl.
Qed.

Lemma capability_id_parts_witness : ∃ info, newCapabilityInfo "a-b:x_1@1.0.0-rc.1+b.01" "action" "" None true = Ok info ∧ Version info = "1.0.0-rc.1+b.01".
Proof. eexists. split; [vm_compute; reflexivity|done]. Qed.

Lemma versions :
  isVersion "1.0.0" = true ∧ isVersion "01.0.0" = false ∧ isVersion "1.0" = false ∧ isVersion "1.0.0-01" = false ∧ isVersion "1.0.0-0a" = true ∧
  isVersion "1.0.0+01" = true ∧ isVersion "1.0.0+" = false ∧ isVersion "1.0.0-a..b" = false ∧ isVersion "1.0.0+a-b" = true.
Proof. vm_compute. done. Qed.
End Messages.
