(* ===== verification/CapabilityRPC.v ===== *)
(** [src/pkg/loop/internal/core/services/capability]: capabilities behind gRPC.
    [capabilities.go] has the servers and clients of executables and triggers,
    [capabilities_registry.go] those of the registry, which serves each
    capability it hands out on a connection of its own ([net/broker.go]).

    The implementation that a server calls has a state of its own.  gRPC itself
    is a parameter: how a call fails, and the text it makes of an error that a
    handler returns. *)

From S2P Require Import Prelude GoBytes Values Messages.

Module CapabilityRPC.
Import Values Messages.

(** *** Calls

    A call can fail before it reaches the server, or its reply can be lost. *)
Inductive delivery := NotSent (e : string) | Sent | NoReply (e : string).

(** What a call answers: a value, the text of an error, or a panic. *)
Definition result (A : Type) : Type := outcome string A.

Class GRPC := {
  statusText : string → string;                                (* the error that a client sees when a handler returns one *)
  ctxErr : string                                              (* the error of a stream whose context is done *)
}.

Section executable.
Context `{GRPC} {S : Type}.

(** [capabilities.Executable] *)
Record Executable := mkExecutable {
  RegisterToWorkflow : RegistrationRequest → S → result unit * S;
  UnregisterFromWorkflow : RegistrationRequest → S → result unit * S;
  Execute : CapabilityRequest → S → result CapabilityResponse * S
}.

Definition metadataErr : string := "could not convert nil metadata to RequestMetadata".

(** [executableServer.Execute]: the message that is sent, or the handler's error. *)
Definition serverExecute (impl : Executable) (reqpb : pbCapabilityRequest) (s : S) : result pbCapabilityResponse * S :=
  match CapabilityRequestFromProto (Some reqpb) with
  | Ok req =>
      match Execute impl req s with
      | (Err err, s) => (Ok (mkPbCapabilityResponse None err None), s)
      | (Ok response, s) => (Ok (CapabilityResponseToProto response), s)
      | (Panic, s) => (Panic, s)
      end
  | _ => (Err ("could not unmarshal capability request: " ++ metadataErr)%string, s)
  end.

(** [executableServer.RegisterToWorkflow] and [UnregisterFromWorkflow]: the
    owner is not filled in. *)
Definition serverRegistration (call : RegistrationRequest → S → result unit * S) (req : pbRegistrationRequest) (s : S) : result unit * S :=
  match prrMetadata req with
  | None => (Panic, s)
  | Some md => call (mkRegistrationRequest (mkRegistrationMetadata (regWorkflowId md) "" (regReferenceId md)) (FromMapValueProto (prrConfig req))) s
  end.

(** What a client receives of what a handler returns. *)
Definition received {A} (r : result A) : result A := match r with Err e => Err (statusText e) | r => r end.

(** [executableClient.Execute] *)
Definition clientExecute (d : delivery) (impl : Executable) (req : CapabilityRequest) (s : S) : result CapabilityResponse * S :=
  match d with
  | NotSent e => (Err ("error executing capability request: " ++ e)%string, s)
  | _ =>
      let '(sent, s) := serverExecute impl (CapabilityRequestToProto req) s in
      match match d with NoReply e => match sent with Panic => Panic | _ => Err e end | _ => received sent end with
      | Panic => (Panic, s)
      | Err e => (Err ("error waiting for response message: " ++ e)%string, s)
      | Ok resp =>
          if negb (String.eqb (prError resp) "") then (Err (prError resp), s)
          else match CapabilityResponseFromProto (Some resp) with
               | Ok r => (Ok r, s)
               | _ => (Err "could not unmarshal response: could not convert nil proto to CapabilityResponse", s)
               end
      end
  end.

(** [executableClient.RegisterToWorkflow] and [UnregisterFromWorkflow]: the
    owner is not sent. *)
Definition clientRegistration (d : delivery) (call : RegistrationRequest → S → result unit * S) (req : RegistrationRequest) (s : S) : result unit * S :=
  let config := orEmpty (rrConfig req) in
  let r := mkPbRegistrationRequest (Some (mkPbRegistrationMetadata (regWorkflowID (rrMetadata req)) (regReferenceID (rrMetadata req)) "")) (ProtoMap config) in
  match d with
  | NotSent e => (Err e, s)
  | Sent => let '(reply, s) := serverRegistration call r s in (received reply, s)
  | NoReply e => let '(reply, s) := serverRegistration call r s in (match reply with Panic => Panic | _ => Err e end, s)
  end.

(** A capability behind a client and a server is a capability. *)
Definition remote (impl : Executable) : Executable :=
  mkExecutable (clientRegistration Sent (RegisterToWorkflow impl)) (clientRegistration Sent (UnregisterFromWorkflow impl)) (clientExecute Sent impl).

(** *** Executables: facts *)

(** What the other side is called with, and what is made of its answer. *)
Definition withoutOwner (req : RegistrationRequest) : RegistrationRequest :=
  mkRegistrationRequest (mkRegistrationMetadata (regWorkflowID (rrMetadata req)) "" (regReferenceID (rrMetadata req))) (rrConfig req).
Definition sentResult (r : result CapabilityResponse) : result CapabilityResponse :=
  match r with
  | Ok resp => Ok (sentResponse resp)
  | Err e => if String.eqb e "" then Ok (mkCapabilityResponse None []) else Err e
  | Panic => Panic
  end.

Lemma execute_sent impl req s : clientExecute Sent impl req s = let '(r, s) := Execute impl (sentRequest req) s in (sentResult r, s).
Proof.
  rewrite /clientExecute /serverExecute request_sent. destruct (Execute impl (sentRequest req) s) as [[resp|e|] s'].
  - by rewrite /received response_sent.
  - cbn [received prError]. destruct (String.eqb e "") eqn:E; cbn; by rewrite E.
  - done.
Qed.

Lemma registration_call_sent call req s :
  clientRegistration Sent call req s = let '(r, s) := call (withoutOwner (sentRegistration req)) s in (received r, s).
Proof.
  rewrite /clientRegistration /serverRegistration. cbn [prrMetadata prrConfig regWorkflowId regReferenceId]. autorewrite with sent. done.
Qed.

(** One call on an executable. *)
Inductive call := CRegister (req : RegistrationRequest) | CUnregister (req : RegistrationRequest) | CExecute (req : CapabilityRequest).
Inductive answer := ADone (r : result unit) | AResponse (r : result CapabilityResponse).

Definition exec (impl : Executable) (c : call) (s : S) : answer * S :=
  match c with
  | CRegister req => let '(r, s) := RegisterToWorkflow impl req s in (ADone r, s)
  | CUnregister req => let '(r, s) := UnregisterFromWorkflow impl req s in (ADone r, s)
  | CExecute req => let '(r, s) := Execute impl req s in (AResponse r, s)
  end.

Fixpoint execs (impl : Executable) (cs : list call) (s : S) : list answer * S :=
  match cs with [] => ([], s) | c :: cs => let '(a, s) := exec impl c s in let '(l, s) := execs impl cs s in (a :: l, s) end.

Definition sentCall (c : call) : call :=
  match c with
  | CRegister req => CRegister (withoutOwner (sentRegistration req))
  | CUnregister req => CUnregister (withoutOwner (sentRegistration req))
  | CExecute req => CExecute (sentRequest req)
  end.
Definition sentAnswer (a : answer) : answer := match a with ADone r => ADone (received r) | AResponse r => AResponse (sentResult r) end.

Lemma exec_remote impl c s : exec (remote impl) c s = let '(a, s) := exec impl (sentCall c) s in (sentAnswer a, s).
Proof.
  destruct c as [req|req|req]; cbn [exec remote RegisterToWorkflow UnregisterFromWorkflow Execute sentCall].
  - rewrite registration_call_sent. by destruct (RegisterToWorkflow _ _ _).
  - rewrite registration_call_sent. by destruct (UnregisterFromWorkflow _ _ _).
  - rewrite execute_sent. by destruct (Execute _ _ _).
Qed.

Lemma execs_remote impl cs : ∀ s, execs (remote impl) cs s = let '(l, s) := execs impl (sentCall <$> cs) s in (sentAnswer <$> l, s).
Proof.
  induction cs as [|c cs IH]; intros s; [done|]. cbn [execs fmap list_fmap]. rewrite exec_remote. destruct (exec impl (sentCall c) s) as [a s1].
  change (list_fmap call call sentCall cs) with (sentCall <$> cs). rewrite IH. by destruct (execs impl (sentCall <$> cs) s1).
Qed.

Lemma sentCall_idem c : sentCall (sentCall c) = sentCall c.
Proof. by destruct c. Qed.

Lemma sentResult_idem r : sentResult (sentResult r) = match r with Err "" => Ok (mkCapabilityResponse (Some []) []) | _ => sentResult r end.
Proof.
  destruct r as [resp|e|]; [done| |done]. cbn. destruct (String.eqb_spec e "") as [->|He]; [done|]. cbn. destruct (String.eqb_spec e ""); [done|].
  by destruct e.
Qed.

(** What a second hop makes of an answer: an error of a registration gets the
    text of one more status; a response stays, but the empty one that stands for
    an error without a text gets an empty map. *)
Definition secondHop (a1 a2 : answer) : Prop :=
  match a1, a2 with
  | ADone r1, ADone r2 => r2 = match r1 with Err e => Err (statusText e) | _ => r1 end
  | AResponse r1, AResponse r2 => r2 = r1 ∨ r1 = Ok (mkCapabilityResponse None []) ∧ r2 = Ok (mkCapabilityResponse (Some []) [])
  | _, _ => False
  end.

Lemma secondHop_sent a : secondHop (sentAnswer a) (sentAnswer (sentAnswer a)).
Proof.
  destruct a as [r|r]; cbn; [by destruct r|]. rewrite sentResult_idem. destruct r as [resp|[|c e]|]; cbn; [by left|by right|by left|by left].
Qed.

(** C21: a capability behind gRPC, when every call arrives.  The implementation
    behind it changes as by the same sequence of calls made directly, but with the
    workflow owner of registrations erased and nil maps made empty; each answer is
    the implementation's, with nil maps made empty, an execution's error with its
    text (one without a text becomes an empty response) and a registration's
    error with the text of a status.  Behind two hops the implementation changes
    just as behind one, and the answers are those of one hop, but for one more
    status around the errors of registrations and the empty map of a
    response that stands for an error without a text. *)
Theorem remote_capability impl cs s :
  execs (remote impl) cs s = (let '(l, s) := execs impl (sentCall <$> cs) s in (sentAnswer <$> l, s)) ∧
  (execs (remote (remote impl)) cs s).2 = (execs (remote impl) cs s).2 ∧
  Forall2 secondHop (execs (remote impl) cs s).1 (execs (remote (remote impl)) cs s).1.
Proof.
  split; [apply execs_remote|]. rewrite !execs_remote. rewrite -list_fmap_compose. rewrite (list_fmap_ext (sentCall ∘ sentCall) sentCall cs); [|by intros; apply sentCall_idem].
  destruct (execs impl (sentCall <$> cs) s) as [l s']. split; [done|]. cbn. induction l as [|a l IH]; [constructor|]. constructor; [apply secondHop_sent|exact IH].
Qed.
End executable.
Arguments Executable : clear implicits.

(** *** Triggers *)

Section trigger.
Context `{GRPC} {S : Type}.

(** [capabilities.TriggerExecutable]; the responses come on a channel. *)
Record Trigger := mkTrigger {
  RegisterTrigger : TriggerRegistrationRequest → S → result unit * S;
  UnregisterTrigger : TriggerRegistrationRequest → S → result unit * S
}.

(** [TriggerResponseMessage] *)
Inductive message := MAck | MResponse (r : pbTriggerResponse) | MUnset.

(** How the stream ends, unless sending fails: the channel of responses is
    closed, or the stream's context is done, and the client gets only some of the
    messages that were sent. *)
Inductive ending := ChannelClosed | ContextDone (delivered : nat).

(** The loop: [sends] more messages can be sent. *)
Fixpoint serverLoop (sends : nat) (sendErr : string) (feed : list TriggerResponse) : list message * result unit :=
  match feed with
  | [] => ([], Ok ())
  | resp :: feed =>
      match sends with
      | 0 => ([], Err ("error sending response for trigger: " ++ sendErr)%string)
      | Datatypes.S sends => let '(l, r) := serverLoop sends sendErr feed in (MResponse (TriggerResponseToProto resp) :: l, r)
      end
  end.

(** [triggerExecutableServer.RegisterTrigger]: the messages sent, what the
    handler returns, and the implementation.  [sends] messages can be sent before
    sending fails; [feed] is what arrives on the channel.  The deferred call
    runs once the acknowledgement is sent. *)
Definition serverRegisterTrigger (impl : Trigger) (request : pbTriggerRegistrationRequest) (sends : nat) (sendErr : string) (feed : list TriggerResponse) (s : S)
    : list message * result unit * S :=
  match TriggerRegistrationRequestFromProto (Some request) with
  | Ok req =>
      match RegisterTrigger impl req s with
      | (Err err, s) =>
          match sends with
          | 0 => ([], Err sendErr, s)
          | _ => ([MResponse (mkPbTriggerResponse err None)], Ok (), s)
          end
      | (Ok _, s) =>
          match sends with
          | 0 => ([], Err ("failed sending ACK response for trigger registration: " ++ sendErr)%string, s)
          | Datatypes.S sends =>
              let '(l, r) := serverLoop sends sendErr feed in
              match UnregisterTrigger impl req s with
              | (Panic, s) => (MAck :: l, Panic, s)
              | (_, s) => (MAck :: l, r, s)
              end
          end
      | (Panic, s) => ([], Panic, s)
      end
  | _ => ([], Err "could not unmarshal capability request", s)
  end.

(** [triggerExecutableServer.UnregisterTrigger] *)
Definition serverUnregisterTrigger (impl : Trigger) (request : pbTriggerRegistrationRequest) (s : S) : result unit * S :=
  match TriggerRegistrationRequestFromProto (Some request) with
  | Ok req =>
      match UnregisterTrigger impl req s with
      | (Err err, s) => (Err ("error unregistering trigger: " ++ err)%string, s)
      | r => r
      end
  | _ => (Err "could not unmarshal capability request", s)
  end.

(** What [Recv] gives. *)
Inductive receipt := RMessage (m : message) | REOF | RError (e : string).

Definition unexpectedErr : string := "unexpected message type when receiving response: expected response".

(** [forwardTriggerResponsesToChannel]: the responses put on the channel, and
    whether it is closed; no more receipts means that [Recv] waits. *)
Fixpoint forward (rs : list receipt) : list TriggerResponse * bool :=
  match rs with
  | [] => ([], false)
  | REOF :: _ => ([], true)
  | RError e :: _ => ([mkTriggerResponse zeroEvent (Some e)], true)
  | RMessage (MResponse resp) :: rs =>
      let r := match TriggerResponseFromProto (Some resp) with Ok r => r | _ => mkTriggerResponse zeroEvent (Some "could not unmarshal event payload") end in
      let '(l, closed) := forward rs in (r :: l, closed)
  | RMessage _ :: _ => ([mkTriggerResponse zeroEvent (Some unexpectedErr)], true)
  end.

(** [triggerExecutableClient.RegisterTrigger], on the receipts of its stream. *)
Definition clientRegisterTrigger (rs : list receipt) : result (list TriggerResponse * bool) :=
  match rs with
  | [] => Ok ([], false)                                           (* still waiting *)
  | REOF :: _ => Err "failed to receive registering trigger ack message: EOF"
  | RError e :: _ => Err ("failed to receive registering trigger ack message: " ++ e)%string
  | RMessage MAck :: rs => Ok (forward rs)
  | RMessage (MResponse r) :: _ => Err ("failed registering trigger: " ++ ptError r)%string
  | RMessage MUnset :: _ => Err "failed registering trigger: "
  end.

(** The receipts of a stream whose handler returned.  The handler returns nil in
    both endings; when the context is done, by the client or a lost connection,
    the client's [Recv] fails with the context's error. *)
Definition stream (e : ending) (sent : list message * result unit * S) : list receipt :=
  match e with
  | ChannelClosed => (RMessage <$> sent.1.1) ++ [match sent.1.2 with Ok _ => REOF | Err e => RError (statusText e) | Panic => RError ctxErr end]
  | ContextDone delivered => (RMessage <$> take delivered sent.1.1) ++ [RError ctxErr]
  end.

(** *** Triggers: facts *)

Lemma serverLoop_spec sends sendErr feed :
  serverLoop sends sendErr feed =
    ((λ r, MResponse (TriggerResponseToProto r)) <$> take sends feed,
     if decide (length feed ≤ sends) then Ok () else Err ("error sending response for trigger: " ++ sendErr)%string).
Proof.
  revert sends. induction feed as [|r feed IH]; intros sends; [by destruct sends|]. destruct sends as [|sends]; [done|].
  cbn [serverLoop]. rewrite IH. cbn [take fmap list_fmap length]. repeat case_decide; done || lia.
Qed.

Lemma forward_responses feed rs :
  forward ((RMessage <$> ((λ r, MResponse (TriggerResponseToProto r)) <$> feed)) ++ rs) =
    let '(l, closed) := forward rs in ((sentTriggerResponse <$> feed) ++ l, closed).
Proof.
  induction feed as [|r feed IH]; [cbn; by destruct (forward rs)|]. cbn [fmap list_fmap app forward] in IH |- *. rewrite IH trigger_response_sent.
  by destruct (forward rs).
Qed.

Lemma client_receives sends sendErr feed (s : S) :
  let '(l, r) := serverLoop sends sendErr feed in
  let rs := stream ChannelClosed (MAck :: l, r, s) in
  if decide (length feed ≤ sends) then clientRegisterTrigger rs = Ok (sentTriggerResponse <$> feed, true)
  else ∃ e, clientRegisterTrigger rs = Ok ((sentTriggerResponse <$> take sends feed) ++ [mkTriggerResponse zeroEvent (Some e)], true).
Proof.
  rewrite serverLoop_spec /stream. cbn [fst snd fmap list_fmap app clientRegisterTrigger].
  change (list_fmap message receipt RMessage ?l) with (RMessage <$> l). case_decide as Hl.
  - rewrite forward_responses. cbn. rewrite app_nil_r firstn_all2 //.
  - eexists. by rewrite forward_responses.
Qed.

Lemma client_cut sends sendErr feed (s : S) n :
  let '(l, r) := serverLoop sends sendErr feed in
  clientRegisterTrigger (stream (ContextDone (Datatypes.S n)) (MAck :: l, r, s)) =
    Ok ((sentTriggerResponse <$> take n (take sends feed)) ++ [mkTriggerResponse zeroEvent (Some ctxErr)], true).
Proof.
  rewrite serverLoop_spec /stream. cbn [fst snd take]. rewrite fmap_cons. cbn [app clientRegisterTrigger].
  rewrite firstn_map. change (map ?f (take n (take sends feed))) with (f <$> take n (take sends feed)). by rewrite forward_responses.
Qed.

End trigger.
Arguments Trigger : clear implicits.

(** *** The registry *)

(** A Go value that implements [BaseCapability]: what it says about itself, and
    which of the other interfaces it has. *)
Record capability := mkCapability { capInfo : string + CapabilityInfo; hasTrigger : bool; hasExecutable : bool }.

Inductive rerror :=
  | EImpl (e : string)                                             (* of the registry or the capability *)
  | EExpected (t : string)                                         (* validateCapability *)
  | EConnAccept (name : string) (id : Z) (e : string)
  | EConnDial (name : string) (id : Z) (e : string)
  | EUnknownExecuteType (n : Z)
  | ERPC (e : string).

(** Action, consensus and target are the same interface. *)
Definition validateCapability (impl : capability) (t : string) : outcome rerror unit :=
  if String.eqb t CapabilityTypeTrigger then if hasTrigger impl then Ok () else Err (EExpected t)
  else if String.eqb t CapabilityTypeAction then if hasExecutable impl then Ok () else Err (EExpected t)
  else if String.eqb t CapabilityTypeConsensus then if hasExecutable impl then Ok () else Err (EExpected t)
  else if String.eqb t CapabilityTypeTarget then if hasExecutable impl then Ok () else Err (EExpected t)
  else if String.eqb t CapabilityTypeUnknown then Err (EExpected t)
  else Ok ().

Inductive service := SBase | STrigger | SExecutable.

Definition pbRegisterCapability (t : string) : list service :=
  (if String.eqb t CapabilityTypeTrigger then [STrigger]
   else if String.eqb t CapabilityTypeAction then [SExecutable]
   else if String.eqb t CapabilityTypeConsensus then [SExecutable]
   else if String.eqb t CapabilityTypeTarget then [SExecutable]
   else []) ++ [SBase].

Definition getExecuteAPIType (c : string) : Z :=
  if String.eqb c CapabilityTypeTrigger then 1%Z
  else if String.eqb c CapabilityTypeAction then 2%Z
  else if String.eqb c CapabilityTypeConsensus then 2%Z
  else if String.eqb c CapabilityTypeTarget then 2%Z
  else 0%Z.

(** What is served on the connections of the broker; a closed one is removed. *)
Definition conns : Type := gmap Z (capability * list service).

(** A client and the services that its methods call. *)
Inductive client := BaseClient (id : Z) | TriggerClient (id : Z) | ExecutableClient (id : Z).
Definition clientConn (c : client) : Z := match c with BaseClient id | TriggerClient id | ExecutableClient id => id end.
Definition clientCalls (c : client) : list service :=
  match c with BaseClient _ => [SBase] | TriggerClient _ => [STrigger; SBase] | ExecutableClient _ => [SExecutable; SBase] end.

(** go-plugin's broker: the next id, which was not used before, and listening
    and dialling, which can fail. *)
Class Broker := {
  NextId : conns → Z;
  Accept : Z → option string;
  Dial : Z → option string;
  NextId_fresh m : m !! NextId m = None
}.

Section registry.
Context `{Broker}.

(** [BrokerExt.ServeNew] *)
Definition ServeNew (name : string) (c : capability) (t : string) (m : conns) : outcome rerror Z * conns :=
  let id := NextId m in
  match Accept id with
  | Some e => (Err (EConnAccept name id e), m)
  | None => (Ok id, <[id := (c, pbRegisterCapability t)]> m)
  end.

(** [capabilitiesRegistryServer.Add]; [implAdd] is the registry behind it. *)
Definition serverAdd (implAdd : client → option string) (id type : Z) : outcome rerror client :=
  match Dial id with
  | Some e => Err (EConnDial "Add" id e)
  | None =>
      let? c := if (type =? 1)%Z then Ok (TriggerClient id) else if (type =? 2)%Z then Ok (ExecutableClient id) else Err (EUnknownExecuteType type) in
      match implAdd c with Some e => Err (EImpl e) | None => Ok c end
  end.

(** [capabilitiesRegistryClient.Add]: its result, what the registry was given,
    and what is served afterwards. *)
Definition clientAdd (d : delivery) (implAdd : client → option string) (c : capability) (m : conns) : outcome rerror unit * option client * conns :=
  match capInfo c with
  | inl e => (Err (EImpl e), None, m)
  | inr info =>
      match validateCapability c (InfoType info) with
      | Ok _ =>
          match ServeNew (InfoID info) c (InfoType info) m with
          | (Ok id, m) =>
              match d with
              | NotSent e => (Err (ERPC e), None, delete id m)
              | Sent =>
                  match serverAdd implAdd id (getExecuteAPIType (InfoType info)) with
                  | Ok cl => (Ok (), Some cl, m)
                  | Err e => (Err e, None, delete id m)
                  | Panic => (Panic, None, m)
                  end
              | NoReply e =>
                  (Err (ERPC e), match serverAdd implAdd id (getExecuteAPIType (InfoType info)) with Ok cl => Some cl | _ => None end, delete id m)
              end
          | (Err e, m) => (Err e, None, m)
          | (Panic, m) => (Panic, None, m)
          end
      | Err e => (Err e, None, m)
      | Panic => (Panic, None, m)
      end
  end.

(** [capabilitiesRegistryServer.GetTrigger], [GetAction], [GetConsensus] and
    [GetTarget], with the type each of them asks for. *)
Definition serverGetTyped (name t : string) (found : string + capability) (m : conns) : outcome rerror Z * conns :=
  match found with
  | inl e => (Err (EImpl e), m)
  | inr c => match validateCapability c t with Ok _ => ServeNew name c t m | Err e => (Err e, m) | Panic => (Panic, m) end
  end.

(** [capabilitiesRegistryServer.Get] *)
Definition serverGet (found : string + capability) (m : conns) : outcome rerror Z * conns :=
  match found with
  | inl e => (Err (EImpl e), m)
  | inr c =>
      match capInfo c with
      | inl e => (Err (EImpl e), m)
      | inr info => match validateCapability c (InfoType info) with Ok _ => ServeNew "Get" c (InfoType info) m | Err e => (Err e, m) | Panic => (Panic, m) end
      end
  end.

(** The clients' side of a get: dialling, and the client that is made. *)
Definition clientGet (name : string) (mk : Z → client) (r : outcome rerror Z * conns) : outcome rerror client * conns :=
  match r with
  | (Ok id, m) => (match Dial id with Some e => Err (EConnDial name id e) | None => Ok (mk id) end, m)
  | (Err e, m) => (Err e, m)
  | (Panic, m) => (Panic, m)
  end.

(** The loop of [capabilitiesRegistryServer.List]: each capability is served;
    when one fails, those served before it are closed. *)
Fixpoint serverListLoop (served : list Z) (cs : list capability) (m : conns) : outcome rerror (list Z) * conns :=
  let fail e := (Err e, foldr delete m served) in
  match cs with
  | [] => (Ok served, m)
  | c :: cs =>
      match capInfo c with
      | inl e => fail (EImpl e)
      | inr info =>
          match validateCapability c (InfoType info) with
          | Ok _ =>
              match ServeNew "List" c (InfoType info) m with
              | (Ok id, m) => serverListLoop (served ++ [id]) cs m
              | (Err e, m) => (Err e, foldr delete m served)
              | (Panic, m) => (Panic, m)
              end
          | Err e => fail e
          | Panic => (Panic, m)
          end
      end
  end.

Definition serverList (found : string + list capability) (m : conns) : outcome rerror (list Z) * conns :=
  match found with inl e => (Err (EImpl e), m) | inr cs => serverListLoop [] cs m end.

(** [capabilitiesRegistryClient.List] *)
Fixpoint dialAll (ids : list Z) : outcome rerror (list client) :=
  match ids with
  | [] => Ok []
  | id :: ids => match Dial id with Some e => Err (EConnDial "List" id e) | None => let? l := dialAll ids in Ok (BaseClient id :: l) end
  end.
Definition clientList (r : outcome rerror (list Z) * conns) : outcome rerror (list client) * conns :=
  match r with (Ok ids, m) => (dialAll ids, m) | (Err e, m) => (Err e, m) | (Panic, m) => (Panic, m) end.

(** *** The registry: facts *)

(** Every method of the client calls a service that is served on its
    connection, and that the capability behind it has. *)
Definition implements (c : capability) (s : service) : bool := match s with SBase => true | STrigger => hasTrigger c | SExecutable => hasExecutable c end.
Definition usable (m : conns) (cl : client) (c : capability) : Prop :=
  ∃ services, m !! clientConn cl = Some (c, services) ∧ ∀ s, s ∈ clientCalls cl → s ∈ services ∧ implements c s = true.

Definition knownType (t : string) : bool := IsValid t.

Lemma ServeNew_ok name c t m id m' : ServeNew name c t m = (Ok id, m') → m !! id = None ∧ m' = <[id := (c, pbRegisterCapability t)]> m.
Proof. rewrite /ServeNew. destruct (Accept (NextId m)); [done|]. intros [= <- <-]. split; [apply NextId_fresh|done]. Qed.

Lemma ServeNew_err name c t m r m' : ServeNew name c t m = (r, m') → (∀ id, r ≠ Ok id) → m' = m ∧ r ≠ Panic.
Proof. rewrite /ServeNew. destruct (Accept (NextId m)); intros [= <- <-]; [done|]. intros Hr. by destruct (Hr (NextId m)). Qed.

(** What each type serves, is validated for, and is called through. *)
Lemma trigger_type : pbRegisterCapability CapabilityTypeTrigger = [STrigger; SBase] ∧ getExecuteAPIType CapabilityTypeTrigger = 1%Z ∧
  ∀ c, validateCapability c CapabilityTypeTrigger = Ok () ↔ hasTrigger c = true.
Proof. split_and!; [done|done|]. intros c. rewrite /validateCapability /=. destruct (hasTrigger c); naive_solver. Qed.

Lemma executable_type t : t ∈ [CapabilityTypeAction; CapabilityTypeConsensus; CapabilityTypeTarget] →
  pbRegisterCapability t = [SExecutable; SBase] ∧ getExecuteAPIType t = 2%Z ∧ ∀ c, validateCapability c t = Ok () ↔ hasExecutable c = true.
Proof.
  intros Ht. assert (t = CapabilityTypeAction ∨ t = CapabilityTypeConsensus ∨ t = CapabilityTypeTarget) as [->|[->| ->]] by set_solver;
    (split_and!; [done|done|]; intros c; rewrite /validateCapability /=; destruct (hasExecutable c); naive_solver).
Qed.

Lemma known_types t : IsValid t = true → t = CapabilityTypeTrigger ∨ t ∈ [CapabilityTypeAction; CapabilityTypeConsensus; CapabilityTypeTarget].
Proof.
  rewrite /IsValid. intros [[[H1%String.eqb_eq|H1%String.eqb_eq]%orb_true_iff|H1%String.eqb_eq]%orb_true_iff|H1%String.eqb_eq]%orb_true_iff; subst; [by left|right; set_solver..].
Qed.

Lemma usable_new m id c t mk :
  validateCapability c t = Ok () → (∀ i, clientConn (mk i) = i) →
  (clientCalls (mk id) = [SBase] ∨ t = CapabilityTypeTrigger ∧ clientCalls (mk id) = [STrigger; SBase] ∨
   t ∈ [CapabilityTypeAction; CapabilityTypeConsensus; CapabilityTypeTarget] ∧ clientCalls (mk id) = [SExecutable; SBase]) →
  usable (<[id := (c, pbRegisterCapability t)]> m) (mk id) c.
Proof.
  intros Hv Hmk Hc. exists (pbRegisterCapability t). rewrite Hmk lookup_insert_eq. split; [done|]. intros s Hs.
  destruct Hc as [Hc|[[-> Hc]|[Hin Hc]]]; rewrite Hc in Hs.
  - apply list_elem_of_singleton in Hs as ->. split; [|done]. rewrite /pbRegisterCapability elem_of_app. right. by apply list_elem_of_singleton.
  - destruct trigger_type as (-> & _ & Hi). split; [done|]. apply Hi in Hv. set_solver.
  - destruct (executable_type t Hin) as (-> & _ & Hi). split; [done|]. apply Hi in Hv. set_solver.
Qed.

(** Other kinds than the known ones are validated but nothing can call them. *)
Lemma serverAdd_ok implAdd id t cl : serverAdd implAdd id (getExecuteAPIType t) = Ok cl →
  IsValid t = true ∧ implAdd cl = None ∧ cl = (if String.eqb t CapabilityTypeTrigger then TriggerClient id else ExecutableClient id).
Proof.
  rewrite /serverAdd. destruct (Dial id); [done|]. rewrite /getExecuteAPIType /IsValid.
  destruct (String.eqb t CapabilityTypeTrigger); cbn; [destruct (implAdd (TriggerClient id)) eqn:E; [done|]; by intros [= <-]|].
  destruct (String.eqb t CapabilityTypeAction); cbn; [destruct (implAdd (ExecutableClient id)) eqn:E; [done|]; by intros [= <-]|].
  destruct (String.eqb t CapabilityTypeConsensus); cbn; [destruct (implAdd (ExecutableClient id)) eqn:E; [done|]; by intros [= <-]|].
  destruct (String.eqb t CapabilityTypeTarget); cbn; [destruct (implAdd (ExecutableClient id)) eqn:E; [done|]; by intros [= <-]|done].
Qed.

Lemma serverAdd_no_panic implAdd id t : serverAdd implAdd id t ≠ Panic.
Proof. rewrite /serverAdd. destruct (Dial id); [done|]. destruct (t =? 1)%Z; [cbn; by case_match|]. destruct (t =? 2)%Z; cbn; [by case_match|done]. Qed.

Lemma validate_no_panic c t : validateCapability c t ≠ Panic.
Proof. rewrite /validateCapability. repeat case_match; done. Qed.

Lemma usable_weaken m m' cl c : m ⊆ m' → usable m cl c → usable m' cl c.
Proof. intros Hm (services & Hl & Hs). exists services. split; [by eapply lookup_weaken|done]. Qed.

(** The typed getters, and the clients they make. *)
Definition getter (t : string) (mk : Z → client) : Prop :=
  t = CapabilityTypeTrigger ∧ mk = TriggerClient ∨
  t ∈ [CapabilityTypeAction; CapabilityTypeConsensus; CapabilityTypeTarget] ∧ mk = ExecutableClient.

(** One capability served: the connection is new and serves what it should. *)
Lemma serve_step name c t m id m' : validateCapability c t = Ok () → ServeNew name c t m = (Ok id, m') →
  m !! id = None ∧ m ⊆ m' ∧ delete id m' = m ∧ usable m' (BaseClient id) c ∧ ∀ mk, getter t mk → usable m' (mk id) c.
Proof.
  intros Hv Hs. apply ServeNew_ok in Hs as [Hid ->]. split; [done|]. split; [by apply insert_subseteq|]. split; [by apply delete_insert_id|].
  split; [apply (usable_new m id c t BaseClient); auto|]. intros mk [[-> ->]|[Ht ->]]; [apply (usable_new m id c _ TriggerClient)|apply (usable_new m id c _ ExecutableClient)]; auto.
Qed.

Lemma typed_get_usable name t mk found m : getter t mk →
  let '(r, m') := clientGet name mk (serverGetTyped name t found m) in
  m ⊆ m' ∧ match r with Ok cl => ∃ c, found = inr c ∧ usable m' cl c | Err _ => True | Panic => False end.
Proof.
  intros Hg. rewrite /serverGetTyped. destruct found as [e|c]; [done|]. destruct (validateCapability c t) as [[]|e|] eqn:Ev; [|done|by apply validate_no_panic in Ev].
  destruct (ServeNew name c t m) as [[id|e|] m'] eqn:Es.
  - destruct (serve_step _ _ _ _ _ _ Ev Es) as (_ & Hm & _ & _ & Hu). cbn. split; [done|]. destruct (Dial id); [done|]. exists c. auto.
  - by destruct (ServeNew_err _ _ _ _ _ _ Es) as [-> _].
  - by destruct (ServeNew_err _ _ _ _ _ _ Es) as [_ ?].
Qed.

Lemma get_usable found m :
  let '(r, m') := clientGet "Capability" BaseClient (serverGet found m) in
  m ⊆ m' ∧ match r with Ok cl => ∃ c, found = inr c ∧ usable m' cl c | Err _ => True | Panic => False end.
Proof.
  rewrite /serverGet. destruct found as [e|c]; [done|]. destruct (capInfo c) as [e|info]; [done|].
  destruct (validateCapability c (InfoType info)) as [[]|e|] eqn:Ev; [|done|by apply validate_no_panic in Ev].
  destruct (ServeNew "Get" c (InfoType info) m) as [[id|e|] m'] eqn:Es.
  - destruct (serve_step _ _ _ _ _ _ Ev Es) as (_ & Hm & _ & Hu & _). cbn. split; [done|]. destruct (Dial id); [done|]. by exists c.
  - by destruct (ServeNew_err _ _ _ _ _ _ Es) as [-> _].
  - by destruct (ServeNew_err _ _ _ _ _ _ Es) as [_ ?].
Qed.

Lemma list_loop cs : ∀ served m0 m, foldr delete m served = m0 → m0 ⊆ m →
  let '(r, m') := serverListLoop served cs m in
  match r with
  | Ok ids => m ⊆ m' ∧ ∃ new, ids = served ++ new ∧ Forall2 (λ id c, usable m' (BaseClient id) c) new cs
  | Err _ => m' = m0
  | Panic => False
  end.
Proof.
  induction cs as [|c cs IH]; intros served m0 m Hm0 Hsub; cbn [serverListLoop].
  - split; [done|]. exists []. by rewrite app_nil_r.
  - destruct (capInfo c) as [e|info]; [done|]. destruct (validateCapability c (InfoType info)) as [[]|e|] eqn:Ev; [|done|by apply validate_no_panic in Ev].
    destruct (ServeNew "List" c (InfoType info) m) as [[id|e|] m1] eqn:Es; [|by destruct (ServeNew_err _ _ _ _ _ _ Es) as [-> _]|by destruct (ServeNew_err _ _ _ _ _ _ Es) as [_ ?]].
    destruct (serve_step _ _ _ _ _ _ Ev Es) as (_ & Hm & Hd & Hu & _).
    assert (foldr delete m1 (served ++ [id]) = m0) as H0 by (by rewrite foldr_app /= Hd).
    assert (m0 ⊆ m1) as H1 by (by etrans). specialize (IH (served ++ [id]) m0 m1 H0 H1).
    destruct (serverListLoop (served ++ [id]) cs m1) as [[ids|e|] m']; [|done|done]. destruct IH as (Hsub' & new & -> & Hall).
    split; [by etrans|]. exists (id :: new). split; [by rewrite -app_assoc|]. constructor; [by eapply usable_weaken|done].
Qed.

Lemma dialAll_ok ids l : dialAll ids = Ok l → l = BaseClient <$> ids.
Proof.
  revert l. induction ids as [|id ids IH]; intros l; cbn [dialAll]; [by intros [= <-]|]. destruct (Dial id); [done|].
  destruct (dialAll ids) as [l'|e|]; cbn; [|done|done]. intros [= <-]. by rewrite (IH l').
Qed.

Lemma dialAll_no_panic ids : dialAll ids ≠ Panic.
Proof. induction ids as [|id ids IH]; cbn [dialAll]; [done|]. destruct (Dial id); [done|]. by destruct (dialAll ids). Qed.

(** Whatever the registry's client hands out can be used.  A client from a
    typed getter calls only services that are served on its connection and that
    the capability it was asked for has; [Get] and [List] hand out clients that
    only ask for information, [List] one for each capability, in order.
    Connections served before stay; when listing fails on the server's side
    nothing of it is left. *)
Theorem handed_out_usable m :
  (∀ name t mk found, getter t mk →
     let '(r, m') := clientGet name mk (serverGetTyped name t found m) in
     m ⊆ m' ∧ match r with Ok cl => ∃ c, found = inr c ∧ usable m' cl c | Err _ => True | Panic => False end) ∧
  (∀ found, let '(r, m') := clientGet "Capability" BaseClient (serverGet found m) in
     m ⊆ m' ∧ match r with Ok cl => ∃ c, found = inr c ∧ usable m' cl c | Err _ => True | Panic => False end) ∧
  (∀ found, let '(r, m') := clientList (serverList found m) in
     m ⊆ m' ∧ match r with
              | Ok cls => ∃ cs, found = inr cs ∧ Forall2 (usable m') cls cs
              | Err _ => ∀ e, (serverList found m).1 = Err e → m' = m
              | Panic => False
              end).
Proof.
  split; [intros; by apply typed_get_usable|]. split; [intros; by apply get_usable|]. intros [e|cs]; [by split|]. cbn [serverList].
  pose proof (list_loop cs [] m m eq_refl ltac:(done)) as Hl. destruct (serverListLoop [] cs m) as [[ids|e|] m']; cbn [clientList] in Hl |- *; [|by subst|done].
  destruct Hl as (Hm & new & -> & Hall). cbn [app]. destruct (dialAll new) as [cls|e|] eqn:Ed; [|by split|by apply dialAll_no_panic in Ed].
  split; [done|]. exists cs. split; [done|]. apply dialAll_ok in Ed as ->. by apply Forall2_fmap_l.
Qed.

(** A capability that is added through the registry's client can be used
    through the client that the registry is given: each method calls a service
    that is served on the connection and that the capability has.  When adding
    fails nothing is served any more, and unless the reply was lost the registry
    was given nothing. *)
Theorem added_usable d implAdd c m :
  let '(r, given, m') := clientAdd d implAdd c m in
  match r with
  | Ok _ => ∃ cl, given = Some cl ∧ implAdd cl = None ∧ usable m' cl c ∧ m !! clientConn cl = None ∧ delete (clientConn cl) m' = m
  | Err _ => m' = m ∧ (d = Sent → given = None)
  | Panic => False
  end.
Proof.
  rewrite /clientAdd. destruct (capInfo c) as [e|info]; [done|]. set (t := InfoType info).
  destruct (validateCapability c t) as [[]|e|] eqn:Ev; [|done|by apply validate_no_panic in Ev].
  destruct (ServeNew (InfoID info) c t m) as [[id|e|] m1] eqn:Es.
  - apply ServeNew_ok in Es as [Hid ->]. assert (delete id (<[id:=(c, pbRegisterCapability t)]> m) = m) as Hdel by (by apply delete_insert_id).
    destruct d as [e| |e]; [done| |done]. destruct (serverAdd implAdd id (getExecuteAPIType t)) as [cl|e|] eqn:Ea; [|done|by apply serverAdd_no_panic in Ea].
    apply serverAdd_ok in Ea as (Ht & Hi & ->). exists (if String.eqb t CapabilityTypeTrigger then TriggerClient id else ExecutableClient id). split; [done|]. split; [done|].
    destruct (String.eqb_spec t CapabilityTypeTrigger) as [Htt|Hne].
    + split; [|done]. apply (usable_new m id c t TriggerClient); auto.
    + split; [|done]. apply (usable_new m id c t ExecutableClient); auto. right. right. destruct (known_types t Ht); done.
  - destruct (ServeNew_err _ _ _ _ _ _ Es) as [-> _]; done.
  - by destruct (ServeNew_err _ _ _ _ _ _ Es) as [_ ?].
Qed.
End registry.

(** *** Witnesses *)

#[local] Instance plainGRPC : GRPC := { statusText e := e; ctxErr := "canceled" }.

(** A trigger that counts its registrations. *)
Definition countingTrigger : Trigger nat := mkTrigger (λ _ n, (Ok (), n + 1)) (λ _ n, (Ok (), n - 1)).
Definition demoRegistration : TriggerRegistrationRequest :=
  mkTriggerRegistrationRequest "id" (mkRequestMetadata "wf" "owner" "" "name" 1 1 "ref" "decoded") None.
Definition demoFeed : list TriggerResponse :=
  [mkTriggerResponse (mkTriggerEvent "t" "1" None None) None; mkTriggerResponse (mkTriggerEvent "t" "2" (Some []) None) (Some "failed")].


(** An executable that counts its calls and fails without a text. *)
Definition countingExecutable : Executable nat :=
  mkExecutable (λ _ n, (Err "full", n + 1)) (λ _ n, (Ok (), n + 1)) (λ req n, (if decide (n = 0) then Err "" else Ok (mkCapabilityResponse None []), n + 1)).
Definition demoCalls : list call :=
  [CExecute (mkCapabilityRequest (mkRequestMetadata "wf" "owner" "" "name" 1 1 "ref" "decoded") None None);
   CRegister (mkRegistrationRequest (mkRegistrationMetadata "wf" "owner" "ref") None)].

Lemma remote_capability_witness :
  execs (remote countingExecutable) demoCalls 0 = ([AResponse (Ok (mkCapabilityResponse None [])); ADone (Err "full")], 2) ∧
  (execs (remote (remote countingExecutable)) demoCalls 0).2 = 2.
Proof. destruct (remote_capability countingExecutable demoCalls 0) as (H1 & H2 & _). rewrite H2 H1. by vm_compute. Defined.

(** The acknowledgement is lost: the trigger stays registered. *)
Lemma ack_lost : (serverRegisterTrigger countingTrigger (TriggerRegistrationRequestToProto demoRegistration) 0 "" demoFeed 0).2 = 1.
Proof. done. Qed.

(** A broker that takes the first id that is free and always connects. *)
#[local] Program Instance freshBroker : Broker := {| NextId m := fresh (dom m); Accept _ := None; Dial _ := None |}.
Next Obligation. intros m. apply not_elem_of_dom, is_fresh. Qed.

Definition demoInfo : CapabilityInfo := mkCapabilityInfo "trigger@1.0.0" CapabilityTypeTrigger "" None true.
Definition demoTrigger : capability := mkCapability (inr demoInfo) true false.

Lemma added_usable_witness :
  let '(r, given, m') := clientAdd Sent (λ _, None) demoTrigger ∅ in
  match r with
  | Ok _ => ∃ cl, given = Some cl ∧ (None : option string) = None ∧ usable m' cl demoTrigger ∧ (∅ : conns) !! clientConn cl = None ∧ delete (clientConn cl) m' = ∅
  | Err _ => m' = ∅ ∧ (Sent = Sent → given = None)
  | Panic => False
  end.
Proof. exact (added_usable Sent (λ _, None) demoTrigger ∅). Defined.

Lemma handed_out_usable_witness :
  getter CapabilityTypeTrigger TriggerClient ∧
  let '(r, m') := clientGet "GetTrigger" TriggerClient (serverGetTyped "GetTrigger" CapabilityTypeTrigger (inr demoTrigger) ∅) in
  ∅ ⊆ m' ∧ match r with Ok cl => ∃ c, inr demoTrigger = (inr c : string + capability) ∧ usable m' cl c | Err _ => True | Panic => False end.
Proof. split; [by left|]. apply (handed_out_usable ∅). by left. Defined.
End CapabilityRPC.
