(* ===== verification/ClientConn.v ===== *)
(** [src/pkg/loop/internal/net/client.go]: a gRPC connection to a plugin that
    is replaced when it breaks, while any number of calls use it.

    A connection is a number.  The steps of a call are those of [Invoke] (and
    [NewStream], which differs only in having no special method): reading the
    connection under the read lock, one attempt on it, and [refresh], which holds
    the write lock while it tries to connect.  What an attempt, a new client or a
    dial gives, and when a caller's context is done, is up to the environment. *)

From S2P Require Import Prelude.

Module ClientConn.

(** How a call ends: with what an attempt on a connection gave, or with
    [context.Cause], which is nil, and so no error, unless the context is done. *)
Inductive reply := RReply (c : nat) | RCause (contextDone : bool).

Inductive pc :=
  | PStart
  | PInvoke (c : nat)                                          (* about to try on a connection *)
  | PRefresh (orig : option nat)                               (* about to lock *)
  | PTry (tried : bool)                                        (* holds the lock; after a failed attempt it waits *)
  | PDone (r : reply).

(** The fields of [clientConn] and its callers.  [nextConn] numbers connections,
    and [closes] are the connections closed, latest first. *)
Record state := mkState {
  cc : option nat;
  writer : option nat;
  nextConn : nat;
  closes : list nat;
  pcs : gmap nat pc;
  canceled : gset nat
}.

Inductive attempt := AReply | ATerminal.                       (* [isErrTerminal] *)
Inductive tryResult := NewClientFails | DialFails | Connected.

Inductive event :=
  | ECall (t : nat)
  | ECancel (t : nat)
  | ERead (t : nat)
  | EAttempt (t : nat) (a : attempt)
  | ELock (t : nat)
  | ETry (t : nat) (r : tryResult)
  | EGiveUp (t : nat).

Section step.
(** The callers that call [Close], for which no new connection is made. *)
Context (isClose : nat → bool).

Definition setPc (t : nat) (p : pc) (s : state) : state := mkState (cc s) (writer s) (nextConn s) (closes s) (<[t := p]> (pcs s)) (canceled s).

(** What follows a refresh, or a read, that gave [o]. *)
Definition continue (t : nat) (o : option nat) (s : state) : state :=
  match o with Some c => setPc t (PInvoke c) s | None => setPc t (PDone (RCause (bool_decide (t ∈ canceled s)))) s end.

(** [refresh] returns nil and unlocks. *)
Definition giveUp (t : nat) (s : state) : state := continue t None (mkState (cc s) None (nextConn s) (closes s) (pcs s) (canceled s)).

(** After a failed attempt: the context is looked at. *)
Definition failed (t : nat) (s : state) : state := if decide (t ∈ canceled s) then giveUp t s else setPc t (PTry true) s.

Definition exec (s : state) (e : event) : option state :=
  match e with
  | ECall t => match pcs s !! t with None => Some (setPc t PStart s) | _ => None end
  | ECancel t => Some (mkState (cc s) (writer s) (nextConn s) (closes s) (pcs s) ({[t]} ∪ canceled s))
  | ERead t =>
      match pcs s !! t, writer s with
      | Some PStart, None => Some (match cc s with Some c => setPc t (PInvoke c) s | None => setPc t (PRefresh None) s end)
      | _, _ => None
      end
  | EAttempt t a =>
      match pcs s !! t with
      | Some (PInvoke c) =>
          Some (match a with
                | AReply => setPc t (PDone (RReply c)) s
                | ATerminal => if isClose t then setPc t (PDone (RReply c)) s else setPc t (PRefresh (Some c)) s
                end)
      | _ => None
      end
  | ELock t =>
      match pcs s !! t, writer s with
      | Some (PRefresh orig), None =>
          Some (if decide (cc s = orig)
                then setPc t (PTry false) (mkState (cc s) (Some t) (nextConn s) (match cc s with Some c => c :: closes s | None => closes s end) (pcs s) (canceled s))
                else continue t (cc s) s)
      | _, _ => None
      end
  | ETry t r =>
      match pcs s !! t with
      | Some (PTry _) =>
          Some (match r with
                | NewClientFails => failed t s
                | DialFails => failed t (mkState None (writer s) (nextConn s) (closes s) (pcs s) (canceled s))
                | Connected =>
                    continue t (Some (nextConn s)) (mkState (Some (nextConn s)) None (S (nextConn s)) (closes s) (pcs s) (canceled s))
                end)
      | _ => None
      end
  | EGiveUp t =>
      match pcs s !! t with
      | Some (PTry true) => if decide (t ∈ canceled s) then Some (giveUp t s) else None
      | _ => None
      end
  end.

Fixpoint execs (s : state) (es : list event) : option state :=
  match es with [] => Some s | e :: es => s ← exec s e; execs s es end.

(** [NewClientConn] *)
Definition NewClientConn : state := mkState None None 0 [] ∅ ∅.

Definition reachable (s : state) : Prop := ∃ es, execs NewClientConn es = Some s.

(** *** Facts *)

Lemma execs_app s es1 es2 : execs s (es1 ++ es2) = execs s es1 ≫= λ s, execs s es2.
Proof. revert s. induction es1 as [|e es1 IH]; intros s; [done|]. cbn. destruct (exec s e); [apply IH|done]. Qed.

Lemma reachable_ind (P : state → Prop) :
  P NewClientConn → (∀ s e s', P s → exec s e = Some s' → P s') → ∀ s, reachable s → P s.
Proof.
  intros H0 Hs s [es He]. revert s He. induction es as [|e es IH] using rev_ind; intros s; [by intros [= <-]|].
  rewrite execs_app. destruct (execs NewClientConn es) as [s1|]; cbn; [|done]. destruct (exec s1 e) as [s2|] eqn:E; cbn; [|done].
  intros [= <-]. eapply Hs; [by apply IH|done].
Qed.

(** The lock: its holder is the one caller that tries to connect.  Connections
    that callers hold have been made. *)
Definition known (s : state) (p : pc) : Prop :=
  match p with PInvoke c | PRefresh (Some c) | PDone (RReply c) => c < nextConn s | _ => True end.

Record lockInv (s : state) : Prop := {
  li_writer t p : pcs s !! t = Some p → (∃ b, p = PTry b) ↔ writer s = Some t;
  li_holds t : writer s = Some t → ∃ b, pcs s !! t = Some (PTry b);
  li_known t p : pcs s !! t = Some p → known s p;
  li_cc c : cc s = Some c → c < nextConn s
}.

(** What the invariant says of everyone but one caller. *)
Record othersInv (t : nat) (s : state) : Prop := {
  oi_writer t' p : t' ≠ t → pcs s !! t' = Some p → (∃ b, p = PTry b) ↔ writer s = Some t';
  oi_holds t' : t' ≠ t → writer s = Some t' → ∃ b, pcs s !! t' = Some (PTry b);
  oi_known t' p : pcs s !! t' = Some p → known s p;
  oi_cc c : cc s = Some c → c < nextConn s
}.

Lemma lockInv_others t s : lockInv s → othersInv t s.
Proof. intros [H1 H2 H3 H4]. split; eauto. Qed.

Lemma lockInv_set t p s : othersInv t s → ((∃ b, p = PTry b) ↔ writer s = Some t) → known s p → lockInv (setPc t p s).
Proof.
  intros [H1 H2 H3 H4] Hp Hk. split; cbn [setPc pcs writer cc nextConn].
  - intros t' p' Hl. destruct (decide (t' = t)) as [->|Hne]; [rewrite lookup_insert_eq in Hl; by injection Hl as <-|].
    rewrite lookup_insert_ne // in Hl. by apply H1.
  - intros t' Hw. destruct (decide (t' = t)) as [->|Hne]; [|rewrite lookup_insert_ne //; auto].
    rewrite lookup_insert_eq. apply Hp in Hw as [b ->]. by exists b.
  - intros t' p' Hl. destruct (decide (t' = t)) as [->|Hne]; [rewrite lookup_insert_eq in Hl; injection Hl as <-; exact Hk|].
    rewrite lookup_insert_ne // in Hl. exact (H3 _ _ Hl).
  - exact H4.
Qed.

(** Fields that change around a caller. *)
Lemma known_mono s s' p : nextConn s ≤ nextConn s' → known s p → known s' p.
Proof. intros Hn. destruct p as [| |[c|]|b|[c|b]]; cbn; lia || done. Qed.

Lemma others_change t s o n cl ca w :
  othersInv t s → nextConn s ≤ n → (∀ c, o = Some c → c < n) → (writer s = None ∨ writer s = Some t) → (w = None ∨ w = Some t) →
  othersInv t (mkState o w n cl (pcs s) ca).
Proof.
  intros [H1 H2 H3 H4] Hn Ho Hws Hw. split; cbn.
  - intros t' p Hne Hl. rewrite (H1 t' p Hne Hl). destruct Hws as [->| ->], Hw as [->| ->]; split; intros [=]; congruence.
  - intros t' Hne Hw'. destruct Hw as [->| ->]; [done|]. by injection Hw' as <-.
  - intros t' p Hl. eapply known_mono, H3, Hl. done.
  - exact Ho.
Qed.

Lemma lockInv_continue t o s : othersInv t s → writer s ≠ Some t → (∀ c, o = Some c → c < nextConn s) → lockInv (continue t o s).
Proof.
  intros Ho Hw Hc. destruct o as [c|]; cbn; apply lockInv_set; try done; try (split; [by intros [? [=]]|done]). cbn. by apply Hc.
Qed.

Lemma lockInv_giveUp t s : othersInv t s → writer s = Some t → lockInv (giveUp t s).
Proof.
  intros Ho Hw. apply lockInv_continue; [|done|done]. apply others_change; auto. apply Ho.
Qed.

Lemma lockInv_failed t s : othersInv t s → writer s = Some t → lockInv (failed t s).
Proof.
  intros Ho Hw. rewrite /failed. case_decide; [by apply lockInv_giveUp|]. apply lockInv_set; [done| |done]. split; [done|]. intros _. by eexists.
Qed.

Lemma lockInv_step s e s' : lockInv s → exec s e = Some s' → lockInv s'.
Proof.
  intros Hinv. pose proof Hinv as [H1 H2 H3 H4]. destruct e as [t|t|t|t a|t|t r|t]; cbn [exec].
  - destruct (pcs s !! t) eqn:E; [done|]. intros [= <-]. apply lockInv_set; [by apply lockInv_others| |done].
    split; [by intros [? [=]]|]. intros Hw. apply H2 in Hw as [b Hb]. congruence.
  - intros [= <-]. split; eauto.
  - destruct (pcs s !! t) as [[]|] eqn:E; try done. destruct (writer s) eqn:Ew; [done|]. intros [= <-].
    destruct (cc s) as [c|] eqn:Ec; (apply lockInv_set; [by apply lockInv_others| |]); try (rewrite Ew; split; [by intros [? [=]]|done]); [|done].
    cbn. by apply H4.
  - destruct (pcs s !! t) as [[|c| | |]|] eqn:E; try done. intros [= <-].
    assert (writer s ≠ Some t) as Hw by (intros Hw; apply H2 in Hw as [b Hb]; congruence). pose proof (H3 _ _ E) as Hk. cbn in Hk.
    destruct a; [|destruct (isClose t)]; (apply lockInv_set; [by apply lockInv_others| |done]); (split; [by intros [? [=]]|done]).
  - destruct (pcs s !! t) as [[| |orig| |]|] eqn:E; try done. destruct (writer s) eqn:Ew; [done|]. intros [= <-]. case_decide as Hd.
    + apply lockInv_set; [|split; [done|by eexists]|done]. apply others_change; auto. by apply lockInv_others.
    + apply lockInv_continue; [by apply lockInv_others|by rewrite Ew|done].
  - destruct (pcs s !! t) as [[| | |b|]|] eqn:E; try done. intros [= <-].
    assert (writer s = Some t) as Hw by (apply (H1 _ _ E); by eexists). pose proof (lockInv_others t s Hinv) as Ho. destruct r.
    + by apply lockInv_failed.
    + apply lockInv_failed; [|done]. apply others_change; auto. done.
    + apply (lockInv_continue t (Some (nextConn s)) (mkState (Some (nextConn s)) None (S (nextConn s)) (closes s) (pcs s) (canceled s)));
        [|done|cbn; intros ? [= <-]; lia]. apply others_change; auto. intros ? [= <-]. lia.
  - destruct (pcs s !! t) as [[| | |[]|]|] eqn:E; try done. case_decide; [|done]. intros [= <-].
    apply lockInv_giveUp; [by apply lockInv_others|]. apply (H1 _ _ E). by eexists.
Qed.

Lemma lock_inv s : reachable s → lockInv s.
Proof. apply reachable_ind; [|apply lockInv_step]. split; cbn; try done; intros *; by rewrite ?lookup_empty. Qed.

(** *** Without cancellations *)

Record calmInv (s : state) : Prop := {
  ca_cc : writer s = None → cc s = None → nextConn s = 0;
  ca_nodup : NoDup (closes s);
  ca_closed c : c ∈ closes s → c < nextConn s ∧ (writer s = None → cc s ≠ Some c);
  ca_reply t b : pcs s !! t ≠ Some (PDone (RCause b))
}.

Definition isCause (p : pc) : bool := match p with PDone (RCause _) => true | _ => false end.

Lemma calm_set t p s : calmInv s → isCause p = false → calmInv (setPc t p s).
Proof.
  intros [H1 H2 H3 H4] Hp. split; try done. intros t' b. cbn. destruct (decide (t' = t)) as [->|]; [rewrite lookup_insert_eq; by intros [= ->]|].
  by rewrite lookup_insert_ne.
Qed.

(** The fields that change while the lock is held. *)
Lemma calm_locked s o w cl : calmInv s → NoDup cl → (∀ c, c ∈ cl → c < nextConn s) → calmInv (mkState o (Some w) (nextConn s) cl (pcs s) (canceled s)).
Proof. intros [H1 H2 H3 H4] Hn Hc. split; cbn; try done. intros c Hin. split; [by apply Hc|done]. Qed.

Lemma calm_failed t s : calmInv s → canceled s = ∅ → calmInv (failed t s).
Proof. intros Hc He. rewrite /failed. case_decide as Hd; [rewrite He in Hd; set_solver|by apply calm_set]. Qed.

Lemma canceled_mono s e s' : exec s e = Some s' → canceled s' = ∅ → canceled s = ∅ ∧ ∀ t, e ≠ ECancel t.
Proof.
  intros He Hc. split; [|intros t ->; injection He as <-; cbn in Hc; set_solver]. destruct e as [t|t|t|t a|t|t r|t]; cbn [exec] in He;
    repeat (case_match; try done); simplify_eq; rewrite /failed /giveUp /continue in Hc; repeat case_match; cbn in Hc; set_solver.
Qed.

Lemma calm_step s e s' : lockInv s → calmInv s → exec s e = Some s' → canceled s' = ∅ → calmInv s'.
Proof.
  intros Hl Hc He Hs'. destruct (canceled_mono _ _ _ He Hs') as [Hs Hne]. revert He. destruct e as [t|t|t|t a|t|t r|t]; cbn [exec]; [| |..].
  - destruct (pcs s !! t); [done|]. intros [= <-]. by apply calm_set.
  - by destruct (Hne t).
  - destruct (pcs s !! t) as [[]|]; try done. destruct (writer s); [done|]. intros [= <-]. destruct (cc s); by apply calm_set.
  - destruct (pcs s !! t) as [[|c| | |]|]; try done. intros [= <-]. destruct a; [|destruct (isClose t)]; by apply calm_set.
  - destruct (pcs s !! t) as [[| |orig| |]|] eqn:E; try done. destruct (writer s) eqn:Ew; [done|]. intros [= <-]. case_decide as Hd.
    + apply calm_set; [|done]. apply calm_locked; [done|..]; destruct (cc s) as [c|] eqn:Ec; try apply Hc.
      * constructor; [|apply Hc]. intros Hin. by destruct (ca_closed _ Hc _ Hin) as [_ Hin'%(λ f, f Ew)].
      * intros c' [->|Hin]%elem_of_cons; [by apply (li_cc _ Hl)|by destruct (ca_closed _ Hc _ Hin)].
    + destruct (cc s) as [c|] eqn:Ec; [by apply calm_set|]. exfalso. pose proof (ca_cc _ Hc Ew Ec) as H0.
      destruct orig as [c|]; [|done]. pose proof (li_known _ Hl _ _ E) as Hk. cbn in Hk. lia.
  - destruct (pcs s !! t) as [[| | |b|]|] eqn:E; try done. intros [= <-]. destruct r.
    + by apply calm_failed.
    + apply calm_failed; [|done]. assert (writer s = Some t) as -> by (apply (li_writer _ Hl _ _ E); by eexists).
      apply calm_locked; [done|apply Hc|]. intros c Hin. by destruct (ca_closed _ Hc _ Hin).
    + apply (calm_set t (PInvoke (nextConn s)) (mkState (Some (nextConn s)) None (S (nextConn s)) (closes s) (pcs s) (canceled s))); [|done].
      split; cbn; [done|apply Hc| |apply Hc]. intros c Hin. apply (ca_closed _ Hc) in Hin as [Hlt _]. split; [lia|]. intros _ [= Heq]. lia.
  - destruct (pcs s !! t) as [[| | |[]|]|]; try done. case_decide as Hd; [|done]. by rewrite Hs in Hd.
Qed.

Lemma calm_inv s : reachable s → lockInv s ∧ (canceled s = ∅ → calmInv s).
Proof.
  apply (reachable_ind (λ s, lockInv s ∧ (canceled s = ∅ → calmInv s))).
  - split; [apply lock_inv; by exists []|]. intros _. split; cbn; [done|constructor| |by intros *; rewrite lookup_empty]. by intros c ?%elem_of_nil.
  - intros s0 e s' [Hl Hc] He. split; [by eapply lockInv_step|]. intros Hs'. destruct (canceled_mono _ _ _ He Hs') as [Hs0 _]. eapply calm_step; eauto.
Qed.

(** C19: replacing a connection.  In every interleaving one caller at a time
    tries to connect.  As long as no caller's context is done, a call that ended
    got its reply from a connection, no connection is closed twice, and the
    current connection is not one that was closed. *)
Theorem refresh_safe s : reachable s →
  (∀ t t' b b', pcs s !! t = Some (PTry b) → pcs s !! t' = Some (PTry b') → t = t') ∧
  (canceled s = ∅ →
   (∀ t r, pcs s !! t = Some (PDone r) → ∃ c, r = RReply c ∧ c < nextConn s) ∧
   NoDup (closes s) ∧
   (writer s = None → ∀ c, cc s = Some c → c ∉ closes s)).
Proof.
  intros Hr. destruct (calm_inv s Hr) as [Hl Hc]. split.
  - intros t t' b b' H1 H2. assert (writer s = Some t) as Hw by (apply (li_writer _ Hl _ _ H1); by eexists).
    assert (writer s = Some t') as Hw' by (apply (li_writer _ Hl _ _ H2); by eexists). congruence.
  - intros He. specialize (Hc He). split; [|split; [apply Hc|]].
    + intros t [c|b] Hp; [|by apply (ca_reply _ Hc) in Hp]. exists c. split; [done|]. exact (li_known _ Hl _ _ Hp).
    + intros Hw c Hcc Hin. by apply (ca_closed _ Hc) in Hin as [_ Hin%(λ f, f Hw)].
Qed.

(** *** Progress *)

Definition doneWithin (n : nat) (t : nat) (s : state) : Prop :=
  ∃ es s' r, execs s es = Some s' ∧ pcs s' !! t = Some (PDone r) ∧ length es ≤ n ∧ canceled s' = canceled s.

Lemma done_step n t s e s1 : exec s e = Some s1 → canceled s1 = canceled s → doneWithin n t s1 → doneWithin (S n) t s.
Proof.
  intros He Hc (es & s' & r & H1 & H2 & H3 & H4). exists (e :: es), s', r. cbn [execs length]. rewrite He. split_and!; [done|done|lia|congruence].
Qed.

Lemma done_invoke t s c : pcs s !! t = Some (PInvoke c) → doneWithin 1 t s.
Proof.
  intros Hp. eexists [EAttempt t AReply], _, _. cbn [execs exec]. rewrite Hp. split; [done|]. cbn. rewrite lookup_insert_eq. done.
Qed.

Lemma done_try t s b : pcs s !! t = Some (PTry b) → doneWithin 2 t s.
Proof.
  intros Hp. eapply (done_step 1 t s (ETry t Connected)); [cbn [exec]; rewrite Hp; reflexivity|done|].
  apply (done_invoke t _ (nextConn s)). cbn. by rewrite lookup_insert_eq.
Qed.

Lemma done_refresh t s o : writer s = None → pcs s !! t = Some (PRefresh o) → doneWithin 3 t s.
Proof.
  intros Hw Hp. eapply (done_step 2 t s (ELock t)); [cbn [exec]; rewrite Hp Hw; reflexivity|case_decide; [done|by destruct (cc s)]|]. case_decide.
  - apply (done_try t _ false). cbn. by rewrite lookup_insert_eq.
  - destruct (cc s) as [c|]; cbn.
    + destruct (done_invoke t (setPc t (PInvoke c) s) c) as (es & s' & r & H1 & H2 & H3 & H4); [by rewrite lookup_insert_eq|].
      exists es, s', r. split_and!; [done|done|lia|done].
    + eexists [], _, _. split; [done|]. cbn. rewrite lookup_insert_eq. split_and!; [done|lia|done].
Qed.

Lemma done_unlocked t s p : writer s = None → pcs s !! t = Some p → doneWithin 4 t s.
Proof.
  intros Hw Hp. destruct p as [|c|o|b|r].
  - eapply (done_step 3 t s (ERead t)); [cbn [exec]; rewrite Hp Hw; reflexivity|by case_match|]. destruct (cc s) as [c|].
    + destruct (done_invoke t (setPc t (PInvoke c) s) c) as (es & s' & r & H1 & H2 & H3 & H4); [by cbn; rewrite lookup_insert_eq|].
      exists es, s', r. split_and!; [done|done|lia|done].
    + apply (done_refresh t _ None); [done|]. cbn. by rewrite lookup_insert_eq.
  - destruct (done_invoke t s c Hp) as (es & s' & r & H1 & H2 & H3 & H4). exists es, s', r. split_and!; [done|done|lia|done].
  - destruct (done_refresh t s o Hw Hp) as (es & s' & r & H1 & H2 & H3 & H4). exists es, s', r. split_and!; [done|done|lia|done].
  - destruct (done_try t s b Hp) as (es & s' & r & H1 & H2 & H3 & H4). exists es, s', r. split_and!; [done|done|lia|done].
  - eexists [], s, r. split_and!; [done|done|cbn; lia|done].
Qed.

(** No call is stuck.  From every state that can be reached, and whoever
    holds the lock, each call can end within five steps without any context being
    done, once connecting succeeds; if no context is done before, it then has a
    reply. *)
Theorem call_can_end s t p : reachable s → pcs s !! t = Some p →
  ∃ es s' r, execs s es = Some s' ∧ pcs s' !! t = Some (PDone r) ∧ length es ≤ 5 ∧ canceled s' = canceled s ∧
    (canceled s = ∅ → ∃ c, r = RReply c).
Proof.
  intros Hr Hp. assert (doneWithin 5 t s) as (es & s' & r & H1 & H2 & H3 & H4).
  { destruct (writer s) as [w|] eqn:Hw; [|destruct (done_unlocked t s p Hw Hp) as (es & s' & r & H1 & H2 & H3 & H4); exists es, s', r; split_and!; [done|done|lia|done]].
    destruct (lock_inv s Hr) as [H1 H2 _ _]. destruct (H2 w Hw) as [b Hb]. destruct (decide (w = t)) as [->|Hne].
    - destruct (done_try t s b Hb) as (es & s' & r & Ha & Hb' & Hc & Hd). exists es, s', r. split_and!; [done|done|lia|done].
    - eapply (done_step 4 t s (ETry w Connected)); [cbn [exec]; rewrite Hb; reflexivity|done|]. eapply (done_unlocked t _ p); [done|].
      cbn. by rewrite lookup_insert_ne. }
  exists es, s', r. split_and!; [done|done|done|done|]. intros He. destruct Hr as [es0 Hes0].
  assert (reachable s') as Hr' by (exists (es0 ++ es); by rewrite execs_app Hes0).
  destruct (calm_inv s' Hr') as [_ Hc]. destruct r as [c|b]; [by exists c|]. rewrite H4 in Hc. by apply (ca_reply _ (Hc He)) in H2.
Qed.
End step.

(** *** Examples *)

Definition brokenTwice : list event :=
  [ECall 1; ERead 1; ELock 1; ETry 1 Connected; EAttempt 1 AReply;
   ECall 2; ECall 3; ERead 2; ERead 3; EAttempt 2 ATerminal; EAttempt 3 ATerminal].

(** Callers 2 and 3 find the connection broken.  Caller 2 fails to dial and gives
    up because its context is done; caller 3, whose context is not, finds the
    connection changed to nil, and its call ends with a nil error although it was
    never made again. *)
Lemma silent_success :
  (λ s, pcs s !! 3) <$> execs (λ _, false) NewClientConn (brokenTwice ++ [ELock 2; ETry 2 DialFails; ECancel 2; EGiveUp 2; ELock 3]) =
  Some (Some (PDone (RCause false))).
Proof. vm_compute. reflexivity. Qed.

(** When it is the new client that fails, the closed connection stays the
    current one, and is closed again. *)
Lemma closed_twice :
  closes <$> execs (λ _, false) NewClientConn (brokenTwice ++ [ELock 2; ECancel 2; ETry 2 NewClientFails; ELock 3]) = Some [0; 0].
Proof. vm_compute. reflexivity. Qed.

(** *** Witnesses *)

Lemma refresh_safe_witness :
  ∃ s, execs (λ _, false) NewClientConn brokenTwice = Some s ∧
    (∀ t r, pcs s !! t = Some (PDone r) → ∃ c, r = RReply c ∧ c < nextConn s) ∧ NoDup (closes s).
Proof.
  destruct (execs (λ _, false) NewClientConn brokenTwice) as [s|] eqn:E; [|vm_compute in E; discriminate E].
  exists s. split; [done|]. destruct (refresh_safe (λ _, false) s) as [_ Hc]; [by exists brokenTwice|].
  destruct Hc as (H1 & H2 & _); [|by split]. injection E as <-. vm_compute. reflexivity.
Defined.

Lemma call_can_end_witness :
  ∃ s, execs (λ _, false) NewClientConn brokenTwice = Some s ∧ pcs s !! 3 = Some (PRefresh (Some 0)) ∧
    ∃ es s' r, execs (λ _, false) s es = Some s' ∧ pcs s' !! 3 = Some (PDone r) ∧ length es ≤ 5 ∧ canceled s' = canceled s ∧
      (canceled s = ∅ → ∃ c, r = RReply c).
Proof.
  destruct (execs (λ _, false) NewClientConn brokenTwice) as [s|] eqn:E; [|vm_compute in E; discriminate E].
  exists s. split; [done|]. assert (pcs s !! 3 = Some (PRefresh (Some 0))) as Hp by (injection E as <-; vm_compute; reflexivity).
  split; [done|]. apply (call_can_end (λ _, false) s 3 (PRefresh (Some 0))); [by exists brokenTwice|exact Hp].
Defined.
End ClientConn.
