(* ===== verification/Broker.v ===== *)
(** [src/pkg/loop/internal/net/broker.go]: serving a gRPC server on a
    connection of its own, with the resources that are closed when it ends.

    [Serve] starts two goroutines: one serves and then closes the resources, one
    stops the server when the plugin stops.  The resource that it returns stops
    the server, ends the second goroutine and waits for both; it does so once,
    other calls of its [Close] wait for the first one. *)

From S2P Require Import Prelude.

Module Broker.

Section broker.
Context {D : Type} (deps : list D).

(** *** The state *)

(** The goroutine that serves: in [server.Serve], in [CloseAll] with the
    resources that are left, returned. *)
Inductive serverPc := GServe | GClose (rest : list D) | GDone.
(** The goroutine that waits for [StopCh] or [done]. *)
Inductive stopperPc := SWait | SDone.
(** The function of the returned resource: not called, after [server.Stop()],
    after [close(done)], returned. *)
Inductive closerPc := CNone | CStopped | CWait | CReturned.

Record state := mkState {
  serving : serverPc; stopper : stopperPc; closer : closerPc;
  stopped : bool;      (* server.Stop() was called *)
  failed : bool;       (* server.Serve returned by itself *)
  stopCh : bool; done_ : bool;
  closed : list D
}.

Definition setServing g s := mkState g (stopper s) (closer s) (stopped s) (failed s) (stopCh s) (done_ s) (closed s).
Definition setStopper p b s := mkState (serving s) p (closer s) (b || stopped s) (failed s) (stopCh s) (done_ s) (closed s).
Definition setCloser c b d s := mkState (serving s) (stopper s) c (b || stopped s) (failed s) (stopCh s) (d || done_ s) (closed s).

(** [Serve], when [Accept] gives a listener; [CloseAll] when it does not. *)
Definition Serve (acceptErr : bool) : list D + state :=
  if acceptErr then inl deps else inr (mkState GServe SWait CNone false false false false []).

(** *** Steps *)

Inductive event :=
  | EServeReturns (fails : bool)   (* because it was stopped, or by itself *)
  | ECloseDep
  | EServed
  | EStopSeen
  | EDoneSeen
  | EStop                          (* StopCh is closed *)
  | EClose
  | ECloseDone
  | ECloseReturns.

Definition exec (s : state) (e : event) : option state :=
  match e with
  | EServeReturns fails =>
      match serving s with
      | GServe => if fails || stopped s then Some (mkState (GClose deps) (stopper s) (closer s) (stopped s) (fails || failed s) (stopCh s) (done_ s) (closed s)) else None
      | _ => None
      end
  | ECloseDep =>
      match serving s with
      | GClose (d :: rest) => Some (mkState (GClose rest) (stopper s) (closer s) (stopped s) (failed s) (stopCh s) (done_ s) (closed s ++ [d]))
      | _ => None
      end
  | EServed => match serving s with GClose [] => Some (setServing GDone s) | _ => None end
  | EStopSeen => match stopper s with SWait => if stopCh s then Some (setStopper SDone true s) else None | SDone => None end
  | EDoneSeen => match stopper s with SWait => if done_ s then Some (setStopper SDone false s) else None | SDone => None end
  | EStop => Some (mkState (serving s) (stopper s) (closer s) (stopped s) (failed s) true (done_ s) (closed s))
  | EClose => match closer s with CNone => Some (setCloser CStopped true false s) | _ => None end
  | ECloseDone => match closer s with CStopped => Some (setCloser CWait false true s) | _ => None end
  | ECloseReturns => match closer s, serving s, stopper s with CWait, GDone, SDone => Some (setCloser CReturned false false s) | _, _, _ => None end
  end.

Inductive reachable : state → Prop :=
  | reach_init s : Serve false = inr s → reachable s
  | reach_step s e s' : reachable s → exec s e = Some s' → reachable s'.

Definition execs (s : state) (es : list event) : option state := foldl (λ s e, s ≫= λ s, exec s e) (Some s) es.

(** *** The invariant *)

Definition remaining (g : serverPc) : list D := match g with GServe => deps | GClose rest => rest | GDone => [] end.
Definition ended (g : serverPc) : bool := match g with GServe => false | _ => true end.

Record inv (s : state) : Prop := {
  inv_deps : closed s ++ remaining (serving s) = deps;
  inv_ended : ended (serving s) = true → stopped s = true ∨ failed s = true;
  inv_stopper : match stopper s with SWait => True | SDone => stopCh s = true ∧ stopped s = true ∨ done_ s = true end;
  inv_closer : match closer s with
               | CNone => done_ s = false
               | CStopped => stopped s = true ∧ done_ s = false
               | CWait => stopped s = true ∧ done_ s = true
               | CReturned => stopped s = true ∧ done_ s = true ∧ serving s = GDone ∧ stopper s = SDone
               end
}.

Lemma broker_step s e s' : inv s → exec s e = Some s' → inv s'.
Proof.
  intros [Hd He Hs Hc]. destruct s as [g p c st fl sc dn cl], e as [fails| | | | | | | |]; cbn in *.
  - destruct g; [|done..]. destruct (fails || st) eqn:Hf; [|done]. intros [= <-]. split; cbn; [done| |done|by destruct c; naive_solver].
    intros _. apply orb_true_iff in Hf as [->| ->]; [by right|by left].
  - destruct g as [|[|d rest]|]; try done. intros [= <-]. split; cbn; [by rewrite -app_assoc|done|done|by destruct c; naive_solver].
  - destruct g as [|[|]|]; try done. intros [= <-]. split; cbn; [done..|]. destruct c; naive_solver.
  - destruct p, sc; try done. intros [= <-]. split; cbn; [done|by left|by left|]. destruct c; naive_solver.
  - destruct p, dn; try done. intros [= <-]. split; cbn; [done|done|by right|]. destruct c; naive_solver.
  - intros [= <-]. split; cbn; [done|done|destruct p; naive_solver|done].
  - destruct c; try done. intros [= <-]. split; cbn; [done|by left|destruct p; naive_solver|done].
  - destruct c; try done. intros [= <-]. split; cbn; [done|done|by destruct p; [|right]|]. naive_solver.
  - destruct c, g, p; try done. intros [= <-]. split; cbn; [done|done|done|]. naive_solver.
Qed.

Lemma broker_reachable s : reachable s → inv s.
Proof. induction 1 as [s [= <-]|s e s' _ IH He]; [by split|by eapply broker_step]. Qed.

(** The resources are closed in order and each of them once: none while the
    server serves, all of them before the returned resource has been closed,
    and at once if there is no connection to serve on. *)
Lemma serve_releases :
  Serve true = inl deps ∧
  ∀ s, reachable s →
    (∃ rest, closed s ++ rest = deps) ∧ (serving s = GServe → closed s = []) ∧
    (serving s = GDone → closed s = deps ∧ (stopped s = true ∨ failed s = true)) ∧
    (closer s = CReturned → closed s = deps ∧ stopper s = SDone).
Proof.
  split; [done|]. intros s Hr. destruct (broker_reachable s Hr) as [Hd He Hs Hc]. split_and!.
  - by eexists.
  - intros Hg. rewrite Hg /= in Hd. apply (f_equal length) in Hd. rewrite length_app in Hd. apply nil_length_inv. lia.
  - intros Hg. rewrite Hg /= app_nil_r in Hd. split; [done|]. apply He. by rewrite Hg.
  - intros Hcl. rewrite Hcl in Hc. destruct Hc as (_ & _ & Hg & Hp). rewrite Hg /= app_nil_r in Hd. done.
Qed.

(** *** It ends *)

Definition rank (s : state) : nat :=
  match serving s with GServe => 2 + length deps | GClose rest => 1 + length rest | GDone => 0 end +
  match stopper s with SWait => 1 | SDone => 0 end + match closer s with CNone => 0 | CStopped => 2 | CWait => 1 | CReturned => 0 end.

(** The steps that the goroutines take by themselves. *)
Definition own (e : event) : bool := match e with EServeReturns fails => negb fails | EStop | EClose => false | _ => true end.

Definition over (s : state) : Prop := serving s = GDone ∧ stopper s = SDone ∧ (closer s = CNone ∨ closer s = CReturned).

Lemma broker_progress s : inv s → stopCh s = true ∨ closer s ≠ CNone →
  over s ∨ ∃ e s', exec s e = Some s' ∧ own e = true ∧ rank s' < rank s ∧ (stopCh s' = true ∨ closer s' ≠ CNone).
Proof.
  intros [Hd He Hs Hc] Hstop. destruct s as [g p c st fl sc dn cl]. rewrite /over /rank. cbn in *.
  destruct p.
  - destruct sc; [right; exists EStopSeen; eexists; split; [done|]; cbn; split_and!; [done|lia|by left]|].
    destruct Hstop as [|Hstop]; [done|]. destruct c; [done|right; exists ECloseDone; eexists; split; [done|]; cbn; split_and!; [done|lia|by right]| |].
    + destruct Hc as [-> ->]. right. exists EDoneSeen. eexists. split; [done|]. cbn. split_and!; [done|lia|by right].
    + by destruct Hc as (_ & _ & _ & ?).
  - destruct g as [|[|d rest]|].
    + assert (st = true) as -> by (destruct Hs as [[_ ?]|Hdn]; [done|]; destruct c; naive_solver).
      right. exists (EServeReturns false). eexists. split; [done|]. cbn. split_and!; [done|lia|done].
    + right. exists EServed. eexists. split; [done|]. cbn. split_and!; [done|lia|done].
    + right. exists ECloseDep. eexists. split; [done|]. cbn. split_and!; [done|lia|done].
    + destruct c; [left; auto| | |left; auto]; right.
      * exists ECloseDone. eexists. split; [done|]. cbn. split_and!; [done|lia|by right].
      * exists ECloseReturns. eexists. split; [done|]. cbn. split_and!; [done|lia|by right].
Qed.

(** C36: nothing that [Serve] starts is left behind.  Once the plugin stops or the
    returned resource is being closed, whatever happened before, the goroutines
    end and [Close] returns, within [rank s] of their own steps, with every
    resource closed exactly once and in order; they are never blocked. *)
Theorem serve_ends s : reachable s → stopCh s = true ∨ closer s ≠ CNone →
  ∃ es s', execs s es = Some s' ∧ Forall (λ e, own e = true) es ∧ length es ≤ rank s ∧ over s' ∧ closed s' = deps.
Proof.
  intros Hr. pose proof (broker_reachable s Hr) as Hinv. clear Hr. remember (rank s) as m eqn:Hm. revert s Hm Hinv.
  induction (lt_wf m) as [m _ IH]. intros s -> Hinv Hstop. destruct (broker_progress s Hinv Hstop) as [Hov|(e & s1 & He & Ho & Hlt & Hstop1)].
  - exists [], s. split_and!; [done|constructor|cbn; lia|done|]. destruct Hov as (Hg & _). destruct Hinv as [Hd _ _ _]. by rewrite Hg /= app_nil_r in Hd.
  - destruct (IH _ Hlt s1 eq_refl (broker_step s e s1 Hinv He) Hstop1) as (es & s2 & Hes & Hown & Hlen & Hov & Hcl).
    exists (e :: es), s2. cbn [length]. split_and!; [|by constructor|lia|done|done]. by rewrite /execs /= He.
Qed.
End broker.

Lemma serve_ends_witness : ∃ s, execs [7; 8] (mkState GServe SWait CNone false false false false []) [EClose; EServeReturns false; ECloseDep] = Some s ∧ closer s = CStopped ∧
  ∃ es s', execs [7; 8] s es = Some s' ∧ over s' ∧ closed s' = [7; 8].
Proof.
  eexists. split; [done|]. split; [done|].
  assert (reachable [7; 8] (mkState (GClose [8]) SWait CStopped true false false false [7])) as Hr.
  { eapply (reach_step _ _ ECloseDep); [eapply (reach_step _ _ (EServeReturns false)); [eapply (reach_step _ _ EClose); [by apply reach_init|done]|done]|done]. }
  destruct (serve_ends [7; 8] _ Hr) as (es & s' & H1 & _ & _ & H2 & H3); [by right|]. by exists es, s'.
Defined.

(** A server that fails by itself closes its resources, but the goroutine that
    waits for the plugin to stop stays until then. *)
Example failed_leaves_stopper : ∃ s, execs [7; 8] (mkState GServe SWait CNone false false false false []) [EServeReturns true; ECloseDep; ECloseDep; EServed] = Some s ∧
  closed s = [7; 8] ∧ stopper s = SWait ∧ exec [7; 8] s EStopSeen = None ∧ exec [7; 8] s EDoneSeen = None.
Proof. eexists. split; [done|]. done. Qed.
End Broker.
