(* ===== verification/WorkflowSDK.v ===== *)
(** [src/pkg/workflows/sdk/builder.go], with which a workflow is written as a
    program, and [src/pkg/workflows/wasm/pb/wasm.go], which turns the resulting
    specification into a message and back.

    The Go types of outputs are phantom types of the references and are left
    out; a compute function is not part of a step. *)

From Stdlib.Strings Require Import Ascii.
From S2P Require Import Prelude GoBytes GoStrings Values Messages Workflows.

Module WorkflowSDK.
Import Values Messages.

Inductive error :=
  | ErrJoined (es : list string) | ErrDuplicates (names : gset string) | ErrEmptyNames | ErrBadTypes (ids : list string)
  | ErrWrapInputs | ErrWrapConfig | ErrNilInputs.

(** *** Specifications *)

(** [map[string]any]; [None] is nil. *)
Definition anyMap : Type := option (list (string * any)).

Record Step := mkStep { sID : string; sRef : string; sOutputRef : string; sMapping : anyMap; sConfig : anyMap; sType : string }.
Record Spec := mkSpec { sName : string; sOwner : string; sTriggers : list Step; sActions : list Step; sConsensus : list Step; sTargets : list Step }.

(** *** References *)

(** What [Ref] gives: a string for the output of a step, other Go data for
    constants and components. *)
Definition outputsRef (stepRef : string) : string := ("$(" ++ stepRef ++ ".outputs)")%string.

(** [s[:len(s)-1]] *)
Fixpoint dropLast (s : string) : outcome error string :=
  match s with
  | EmptyString => Panic
  | String c EmptyString => Ok EmptyString
  | String c s => let? s := dropLast s in Ok (String c s)
  end.

(** [AccessField]: the reference must be a string. *)
Definition AccessField (ref : any) (fieldName : string) : outcome error any :=
  match ref with
  | AString originalRef => let? r := dropLast originalRef in Ok (AString (r ++ "." ++ fieldName ++ ")"))
  | _ => Panic
  end.

(** [singleCapList.Index] *)
Definition Index (ref : any) (i : Z) : outcome error any :=
  match ref with
  | AString listRef => let? r := dropLast listRef in Ok (AString (r ++ "." ++ Itoa i ++ ")"))
  | ASlice l => if decide (i < 0)%Z then Panic else go_index l (Z.to_nat i)
  | _ => Panic
  end.

(** [ListOf] and [multiCapList.Index] *)
Definition ListOf (refs : list any) : any := ASlice refs.
(** [Map] and [AnyMap] *)
Definition Components (input : list (string * any)) : any := AMap input.

(** *** The factory *)

Record WorkflowSpecFactory := mkFactory {
  fSpec : Spec; names : gset string; duplicateNames : gset string; emptyNames : bool; badCapTypes : list string; errors : list string
}.

Definition NewWorkflowSpecFactory : WorkflowSpecFactory := mkFactory (mkSpec "" "" [] [] [] []) ∅ ∅ false [] [].

Definition isTarget (s : Step) : bool := String.eqb (sType s) CapabilityTypeTarget.

Definition appendStep (step : Step) (w : WorkflowSpecFactory) : WorkflowSpecFactory :=
  let sp := fSpec w in
  let withSpec sp := mkFactory sp (names w) (duplicateNames w) (emptyNames w) (badCapTypes w) (errors w) in
  if String.eqb (sType step) CapabilityTypeTrigger then withSpec (mkSpec (sName sp) (sOwner sp) (sTriggers sp ++ [step]) (sActions sp) (sConsensus sp) (sTargets sp))
  else if String.eqb (sType step) CapabilityTypeAction then withSpec (mkSpec (sName sp) (sOwner sp) (sTriggers sp) (sActions sp ++ [step]) (sConsensus sp) (sTargets sp))
  else if String.eqb (sType step) CapabilityTypeConsensus then withSpec (mkSpec (sName sp) (sOwner sp) (sTriggers sp) (sActions sp) (sConsensus sp ++ [step]) (sTargets sp))
  else if String.eqb (sType step) CapabilityTypeTarget then withSpec (mkSpec (sName sp) (sOwner sp) (sTriggers sp) (sActions sp) (sConsensus sp) (sTargets sp ++ [step]))
  else mkFactory sp (names w) (duplicateNames w) (emptyNames w) (badCapTypes w ++ [sID step]) (errors w).

(** [Step.AddTo]: the factory, and the reference to the outputs of the step. *)
Definition AddTo (step : Step) (w : WorkflowSpecFactory) : WorkflowSpecFactory * any :=
  let stepRef := sRef step in
  let duplicates := if bool_decide (stepRef ∈ names w) && negb (isTarget step) then {[stepRef]} ∪ duplicateNames w else duplicateNames w in
  let empty := if String.eqb stepRef "" && negb (isTarget step) then true else emptyNames w in
  (appendStep step (mkFactory (fSpec w) ({[stepRef]} ∪ names w) duplicates empty (badCapTypes w) (errors w)), AString (outputsRef stepRef)).

Definition AddErr (err : string) (w : WorkflowSpecFactory) : WorkflowSpecFactory :=
  mkFactory (fSpec w) (names w) (duplicateNames w) (emptyNames w) (badCapTypes w) (errors w ++ [err]).

(** [WorkflowSpecFactory.Spec] *)
Definition SpecOf (w : WorkflowSpecFactory) : outcome error Spec :=
  match errors w with
  | _ :: _ => Err (ErrJoined (errors w))
  | [] =>
      if decide (duplicateNames w = ∅)
      then if emptyNames w then Err ErrEmptyNames
           else match badCapTypes w with _ :: _ => Err (ErrBadTypes (badCapTypes w)) | [] => Ok (fSpec w) end
      else Err (ErrDuplicates (duplicateNames w))
  end.

Definition build (steps : list Step) : WorkflowSpecFactory := foldl (λ w s, (AddTo s w).1) NewWorkflowSpecFactory steps.

(** *** The message *)

Record pbStep := mkPbStep { pId : string; pRef : string; pInputs : option (string * pbMap); pConfig : pbMap; pType : string }.
Record pbSpec := mkPbSpec { pName : string; pOwner : string; pTriggers : list pbStep; pActions : list pbStep; pConsensus : list pbStep; pTargets : list pbStep }.

(** [values.WrapMap] *)
Definition WrapMap (e : error) (m : anyMap) : outcome error goMap :=
  match Wrap (AMap (default [] m)) with Ok (Some (VMap m)) => Ok (Some m) | Panic => Panic | _ => Err e end.

Definition toStepDefinition (sd : Step) : outcome error pbStep :=
  let? inputs := match sMapping sd with None => Ok None | m => WrapMap ErrWrapInputs m end in
  let? wrappedConfig := WrapMap ErrWrapConfig (sConfig sd) in
  Ok (mkPbStep (sID sd) (sRef sd) (Some (sOutputRef sd, ProtoMap inputs)) (ProtoMap wrappedConfig) (sType sd)).

Definition WorkflowSpecToProto (spec : Spec) : outcome error pbSpec :=
  let? triggers := omapM toStepDefinition (sTriggers spec) in
  let? actions := omapM toStepDefinition (sActions spec) in
  let? consensus := omapM toStepDefinition (sConsensus spec) in
  let? targets := omapM toStepDefinition (sTargets spec) in
  Ok (mkPbSpec (sName spec) (sOwner spec) triggers actions consensus targets).

(** [UnwrapTo] a [map[string]any]. *)
Definition unwrapEntries (m : list (string * option Value)) : list (string * any) := (λ kv, (kv.1, UnwrapOpt kv.2)) <$> m.

Definition fromStepDefinition (sd : pbStep) : outcome error Step :=
  match pInputs sd with
  | None => Err ErrNilInputs
  | Some (outputRef, pbMapping) =>
      let mapping := match FromMapValueProto pbMapping with None => None | Some m => Some (unwrapEntries m) end in
      let cmapping := match FromMapValueProto (pConfig sd) with None => [] | Some m => unwrapEntries m end in
      Ok (mkStep (pId sd) (pRef sd) outputRef mapping (Some cmapping) (pType sd))
  end.

Definition ProtoToWorkflowSpec (spec : pbSpec) : outcome error Spec :=
  let? triggers := omapM fromStepDefinition (pTriggers spec) in
  let? actions := omapM fromStepDefinition (pActions spec) in
  let? consensus := omapM fromStepDefinition (pConsensus spec) in
  let? targets := omapM fromStepDefinition (pTargets spec) in
  Ok (mkSpec (pName spec) (pOwner spec) triggers actions consensus targets).

(** *** References: facts *)

Lemma dropLast_snoc s c : dropLast (s ++ String c "") = Ok s.
Proof.
  induction s as [|d s IH]; [done|]. change ((String d s ++ String c "")%string) with (String d (s ++ String c "")). cbn [dropLast].
  destruct (s ++ String c "")%string as [|x y] eqn:E; [by destruct s|]. by rewrite IH.
Qed.

(** Fields after a reference. *)
Definition fieldsText (fields : list string) : string := foldr (λ f s, ("." ++ f ++ s)%string) "" fields.

Lemma access_fields fields : ∀ body,
  ofold AccessField (AString ("$(" ++ body ++ ")")) fields = Ok (AString ("$(" ++ (body ++ fieldsText fields) ++ ")")).
Proof.
  induction fields as [|f fields IH]; intros body; cbn [ofold fieldsText foldr].
  - f_equal. f_equal. by rewrite append_empty_r.
  - cbn [AccessField]. assert (dropLast ("$(" ++ body ++ ")") = Ok ("$(" ++ body)%string) as ->.
    { rewrite -append_assoc. apply dropLast_snoc. }
    cbn [obind]. specialize (IH (body ++ "." ++ f)%string). rewrite -!append_assoc in IH |- *. exact IH.
Qed.

Definition noSpaces (s : string) : bool := allChars (λ c, negb (Workflows.isSpace c)) s.

Lemma noSpaces_app s1 s2 : noSpaces s1 = true → noSpaces s2 = true → noSpaces (s1 ++ s2) = true.
Proof.
  rewrite /noSpaces. induction s1 as [|c s1 IH]; [done|]. cbn [allChars]. intros [Hc Hs]%andb_true_iff H2.
  change ((String c s1 ++ s2)%string) with (String c (s1 ++ s2)). cbn [allChars]. by rewrite Hc IH.
Qed.

Lemma untilParen_cons c d s : Workflows.isSpace c = false →
  Workflows.untilParen (String c (String d s)) = (rest ← Workflows.untilParen (String d s); Some (String c rest)).
Proof. intros Hc. destruct c as [[] [] [] [] [] [] [] []]; first [discriminate Hc|reflexivity]. Qed.

Lemma untilParen_app s : noSpaces s = true → Workflows.untilParen (s ++ ")") = Some s.
Proof.
  rewrite /noSpaces. induction s as [|c s IH]; [done|]. cbn [allChars]. intros [Hc Hs]%andb_true_iff. apply negb_true_iff in Hc.
  change ((String c s ++ ")")%string) with (String c (s ++ ")")). specialize (IH Hs).
  assert (∃ d r, (s ++ ")")%string = String d r) as (d & r & Er) by (destruct s as [|d s]; [by eexists _, _|by eexists d, _]).
  rewrite Er in IH |- *. by rewrite untilParen_cons // IH.
Qed.

Lemma noSpaces_fields fields : Forall (λ f, noSpaces f = true) fields → noSpaces (fieldsText fields) = true.
Proof. induction 1 as [|f fields Hf _ IH]; [done|]. cbn [fieldsText foldr]. apply noSpaces_app; [done|]. by apply noSpaces_app. Qed.

(** The reference to a field of a step's outputs, of a field of that, and so on,
    is a string whose only reference is the step. *)
Lemma builder_reference step w fields :
  avoids "." (sRef step) = true → noSpaces (sRef step) = true → Forall (λ f, noSpaces f = true) fields →
  ∃ r, ofold AccessField (AddTo step w).2 fields = Ok r ∧ Workflows.findRefs r = Ok [sRef step].
Proof.
  intros Hd Hs Hf. pose proof (access_fields fields (sRef step ++ ".outputs")) as Ha. cbn [AddTo snd].
  assert (outputsRef (sRef step) = ("$(" ++ (sRef step ++ ".outputs") ++ ")")%string) as ->.
  { rewrite /outputsRef. f_equal. by rewrite append_assoc. }
  eexists. split; [exact Ha|]. rewrite (append_assoc (sRef step) ".outputs"). set (body := (sRef step ++ ".outputs" ++ fieldsText fields)%string).
  assert (noSpaces body = true) as Hb by (apply noSpaces_app; [done|]; apply noSpaces_app; [done|by apply noSpaces_fields]).
  rewrite /Workflows.findRefs. cbn [Workflows.DeepMap Workflows.findRefsAt].
  assert (Workflows.token ("$(" ++ body ++ ")") = Some body) as ->.
  { change (match Workflows.untilParen (body ++ ")") with Some EmptyString => None | m => m end = Some body).
    rewrite untilParen_app //. subst body. by destruct (sRef step). }
  subst body. change ("." ++ ?x)%string with (String "." x). change (".outputs" ++ ?x)%string with (String "." ("outputs" ++ x)).
  by rewrite Split_cons.
Qed.

(** *** The factory: facts *)

Definition ofType (t : string) (steps : list Step) : list Step := filter (λ s, sType s = t) steps.

(** No step but a target has the reference of a step before it, or none. *)
Definition refsDistinct (steps : list Step) : Prop :=
  ∀ i s, steps !! i = Some s → isTarget s = false → sRef s ∉ sRef <$> take i steps.
Definition refsGiven (steps : list Step) : Prop := ∀ s, s ∈ steps → isTarget s = false → sRef s ≠ "".

Lemma refsDistinct_snoc steps s : refsDistinct (steps ++ [s]) ↔ refsDistinct steps ∧ (isTarget s = false → sRef s ∉ sRef <$> steps).
Proof.
  split.
  - intros H. split.
    + intros i s' Hi Ht. pose proof (lookup_lt_Some _ _ _ Hi). specialize (H i s'). rewrite lookup_app_l // take_app_le in H; [by apply H|lia].
    + intros Ht. specialize (H (length steps) s). rewrite list_lookup_middle // take_app_length in H. by apply H.
  - intros [H1 H2] i s' Hi Ht. apply lookup_app_Some in Hi as [Hi|[Hge Hi]].
    + pose proof (lookup_lt_Some _ _ _ Hi). rewrite take_app_le; [by eapply H1|lia].
    + apply list_lookup_singleton_Some in Hi as [Hi <-]. rewrite take_app_ge; [|lia]. replace (i - length steps) with 0 by lia.
      rewrite firstn_0 app_nil_r. by apply H2.
Qed.

Lemma refsGiven_snoc steps s : refsGiven (steps ++ [s]) ↔ refsGiven steps ∧ (isTarget s = false → sRef s ≠ "").
Proof. rewrite /refsGiven. setoid_rewrite elem_of_app. setoid_rewrite list_elem_of_singleton. naive_solver. Qed.

Lemma ofType_snoc t steps s : ofType t (steps ++ [s]) = ofType t steps ++ if decide (sType s = t) then [s] else [].
Proof. rewrite /ofType filter_app filter_cons. by case_decide. Qed.

Record builtSpec (steps : list Step) (w : WorkflowSpecFactory) : Prop := {
  bs_names : names w = list_to_set (sRef <$> steps);
  bs_duplicates : duplicateNames w = ∅ ↔ refsDistinct steps;
  bs_empty : emptyNames w = false ↔ refsGiven steps;
  bs_bad : badCapTypes w = sID <$> filter (λ s, IsValid (sType s) = false) steps;
  bs_errors : errors w = [];
  bs_spec : fSpec w = mkSpec "" "" (ofType CapabilityTypeTrigger steps) (ofType CapabilityTypeAction steps) (ofType CapabilityTypeConsensus steps)
                        (ofType CapabilityTypeTarget steps)
}.

(** What adding a step does to the fields that do not depend on its type. *)
Lemma appendStep_fields step w : names (appendStep step w) = names w ∧ duplicateNames (appendStep step w) = duplicateNames w ∧
  emptyNames (appendStep step w) = emptyNames w ∧ errors (appendStep step w) = errors w.
Proof. rewrite /appendStep. by repeat case_match. Qed.

Lemma appendStep_spec step w : let sp := fSpec w in
  fSpec (appendStep step w) = mkSpec (sName sp) (sOwner sp)
    (sTriggers sp ++ if decide (sType step = CapabilityTypeTrigger) then [step] else []) (sActions sp ++ if decide (sType step = CapabilityTypeAction) then [step] else [])
    (sConsensus sp ++ if decide (sType step = CapabilityTypeConsensus) then [step] else []) (sTargets sp ++ if decide (sType step = CapabilityTypeTarget) then [step] else []) ∧
  badCapTypes (appendStep step w) = badCapTypes w ++ if IsValid (sType step) then [] else [sID step].
Proof.
  cbv zeta. rewrite /appendStep /IsValid. destruct (fSpec w) as [n o t a c g].
  destruct (String.eqb_spec (sType step) CapabilityTypeTrigger) as [->|H1]; [by rewrite /= !app_nil_r|].
  destruct (String.eqb_spec (sType step) CapabilityTypeAction) as [->|H2]; [by rewrite /= !app_nil_r|].
  destruct (String.eqb_spec (sType step) CapabilityTypeConsensus) as [->|H3]; [by rewrite /= !app_nil_r|].
  destruct (String.eqb_spec (sType step) CapabilityTypeTarget) as [->|H4]; [by rewrite /= !app_nil_r|].
  by rewrite !decide_False //= !app_nil_r.
Qed.

Lemma build_spec steps : builtSpec steps (build steps).
Proof.
  induction steps as [|s steps IH] using rev_ind.
  - split; [done|split; [by intros _ i s|done]|split; [by intros _ s ?%elem_of_nil|done]|done|done|done].
  - rewrite /build foldl_snoc. change (foldl _ _ steps) with (build steps). destruct IH as [H1 H2 H3 H4 H5 H6].
    cbn [AddTo fst]. set (w := mkFactory _ _ _ _ _ _). destruct (appendStep_fields s w) as (F1 & F2 & F3 & F4). destruct (appendStep_spec s w) as [F5 F6].
    split.
    + rewrite F1 fmap_app list_to_set_app_L. subst w. cbn [names fmap list_fmap]. rewrite H1. set_solver.
    + rewrite F2 refsDistinct_snoc -H2. subst w. cbn [duplicateNames]. clear -H1.
      assert (sRef s ∈ names (build steps) ↔ sRef s ∈ sRef <$> steps) as Hn by (by rewrite H1 elem_of_list_to_set). rewrite -Hn. clear H1 Hn.
      destruct (bool_decide_reflect (sRef s ∈ names (build steps))) as [Hin|Hin]; cbn [andb]; destruct (isTarget s); cbn [negb]; set_solver.
    + rewrite F3 refsGiven_snoc -H3. subst w. cbn [emptyNames]. destruct (String.eqb_spec (sRef s) ""); cbn [andb]; destruct (isTarget s); cbn [negb]; naive_solver.
    + rewrite F6 filter_app fmap_app. subst w. cbn [badCapTypes]. rewrite H4. f_equal. rewrite filter_cons filter_nil. by destruct (IsValid (sType s)).
    + rewrite F4. exact H5.
    + rewrite F5. subst w. cbn [fSpec]. rewrite H6. cbn. by rewrite !ofType_snoc.
Qed.

(** What a workflow program builds.  The specification exists exactly when
    every step has a known type and every step but a target has a reference that
    no step before it has; it then has the steps of each type, in the order in
    which they were added.  A reference made from a step's outputs is collected
    as a reference to that step. *)
Theorem built_workflow steps :
  (∀ spec, SpecOf (build steps) = Ok spec ↔
     refsDistinct steps ∧ refsGiven steps ∧ Forall (λ s, IsValid (sType s) = true) steps ∧
     spec = mkSpec "" "" (ofType CapabilityTypeTrigger steps) (ofType CapabilityTypeAction steps) (ofType CapabilityTypeConsensus steps)
              (ofType CapabilityTypeTarget steps)) ∧
  (∀ step w fields, avoids "." (sRef step) = true → noSpaces (sRef step) = true → Forall (λ f, noSpaces f = true) fields →
     ∃ r, ofold AccessField (AddTo step w).2 fields = Ok r ∧ Workflows.findRefs r = Ok [sRef step]).
Proof.
  split; [|apply builder_reference]. intros spec. destruct (build_spec steps) as [_ H2 H3 H4 H5 H6]. rewrite /SpecOf H5.
  assert (badCapTypes (build steps) = [] ↔ Forall (λ s, IsValid (sType s) = true) steps) as Hb.
  { rewrite H4 Forall_forall. split.
    - intros Hnil%fmap_nil_inv s Hs. destruct (IsValid (sType s)) eqn:E; [done|]. assert (s ∈ filter (λ s, IsValid (sType s) = false) steps) as Hin by (by apply list_elem_of_filter).
      rewrite Hnil in Hin. by apply elem_of_nil in Hin.
    - intros Hall. destruct (filter _ steps) as [|s l] eqn:E; [done|]. assert (s ∈ filter (λ s, IsValid (sType s) = false) steps) as Hin by (rewrite E; apply list_elem_of_here).
      apply list_elem_of_filter in Hin as [Hf Hin]. by rewrite Hall in Hf. }
  rewrite -H2 -H3 -Hb. case_decide as Hd; [|split; [done|]; by intros (? & _)]. destruct (emptyNames (build steps)); [by split; [done|]; intros (_ & ? & _)|].
  destruct (badCapTypes (build steps)) as [|b l]; [|by split; [done|]; intros (_ & _ & ? & _)]. rewrite H6. split; [by intros [= <-]|]. by intros (_ & _ & _ & ->).
Qed.

(** *** The message: facts *)

(** Data as it comes out of a value: wrapping it loses nothing. *)
Definition normalMap (m : anyMap) : Prop := ∃ vs, wf (VMap vs) ∧ default [] m = unwrapEntries vs.
Definition normalStep (s : Step) : Prop := normalMap (sMapping s) ∧ normalMap (sConfig s).
Definition stepsOf (spec : Spec) : list Step := sTriggers spec ++ sActions spec ++ sConsensus spec ++ sTargets spec.
Definition normalSpec (spec : Spec) : Prop := Forall normalStep (stepsOf spec).

(** A nil map arrives as an empty one. *)
Definition sentStep (s : Step) : Step := mkStep (sID s) (sRef s) (sOutputRef s) (Some (default [] (sMapping s))) (Some (default [] (sConfig s))) (sType s).
Definition sentSpec (spec : Spec) : Spec :=
  mkSpec (sName spec) (sOwner spec) (sentStep <$> sTriggers spec) (sentStep <$> sActions spec) (sentStep <$> sConsensus spec) (sentStep <$> sTargets spec).

(** The specification that the graph is built from. *)
Definition graphStep (s : Step) : Workflows.StepDefinition := Workflows.mkStep (sID s) (sRef s) (sOutputRef s) (default [] (sMapping s)).
Definition graphSpec (spec : Spec) : Workflows.WorkflowSpec :=
  Workflows.mkSpec (graphStep <$> sTriggers spec) (graphStep <$> sActions spec) (graphStep <$> sConsensus spec) (graphStep <$> sTargets spec).

Lemma WrapMap_normal e m vs : wf (VMap vs) → default [] m = unwrapEntries vs → WrapMap e m = Ok (Some vs).
Proof. intros Hw Hm. rewrite /WrapMap Hm. change (AMap (unwrapEntries vs)) with (Unwrap (VMap vs)). by rewrite Wrap_Unwrap. Qed.

Lemma step_roundtrip s : normalStep s → ∃ p, toStepDefinition s = Ok p ∧ fromStepDefinition p = Ok (sentStep s).
Proof.
  destruct s as [id ref out m c ty]. intros [(ms & Hmw & Hm) (cs & Hcw & Hc)]. cbn in Hm, Hc. rewrite /toStepDefinition. cbn [sMapping sConfig sID sRef sOutputRef sType].
  rewrite (WrapMap_normal _ _ _ Hcw Hc). destruct m as [m|].
  - rewrite (WrapMap_normal _ _ _ Hmw Hm). eexists. split; [done|]. rewrite /fromStepDefinition. cbn [pInputs pConfig pId pRef pType]. rewrite !FromMap_ProtoMap.
    rewrite /sentStep /=. by rewrite Hc -Hm.
  - eexists. split; [done|]. rewrite /fromStepDefinition. cbn [pInputs pConfig pId pRef pType]. rewrite !FromMap_ProtoMap. rewrite /sentStep /=. by rewrite Hc.
Qed.

Lemma steps_roundtrip l : Forall normalStep l → ∃ ps, omapM toStepDefinition l = Ok ps ∧ omapM fromStepDefinition ps = Ok (sentStep <$> l).
Proof.
  induction 1 as [|s l Hs _ (ps & H1 & H2)]; [by exists []|]. destruct (step_roundtrip s Hs) as (p & Hp & Hf). exists (p :: ps). cbn [omapM]. rewrite Hp H1 Hf H2. done.
Qed.

(** A specification survives the trip from the guest to the host.  When its
    maps hold plain data (what comes out of a value), it can be sent, every field
    of every step arrives, nil maps as empty ones, sending it again changes
    nothing, and the graph built from it is the graph of the original. *)
Theorem spec_roundtrip spec : normalSpec spec →
  (let? p := WorkflowSpecToProto spec in ProtoToWorkflowSpec p) = Ok (sentSpec spec) ∧
  sentSpec (sentSpec spec) = sentSpec spec ∧ graphSpec (sentSpec spec) = graphSpec spec.
Proof.
  rewrite /normalSpec /stepsOf !Forall_app. intros (Ht & Ha & Hc & Hg). split; [|split].
  - rewrite /WorkflowSpecToProto. destruct (steps_roundtrip _ Ht) as (ts & -> & Hts), (steps_roundtrip _ Ha) as (as_ & -> & Has).
    destruct (steps_roundtrip _ Hc) as (cs & -> & Hcs), (steps_roundtrip _ Hg) as (gs & -> & Hgs).
    rewrite /ProtoToWorkflowSpec. cbn [obind pTriggers pActions pConsensus pTargets pName pOwner]. by rewrite Hts Has Hcs Hgs.
  - rewrite /sentSpec /=. by rewrite -!list_fmap_compose.
  - rewrite /graphSpec /=. by rewrite -!list_fmap_compose.
Qed.

(** *** Witnesses *)

Definition demoStep : Step :=
  mkStep "write@1.0.0" "w" "" (Some [("report", AString "$(consensus.outputs)")]) (Some [("limits", ASlice [AInt KInt64 7; ANil])]) CapabilityTypeTarget.
Definition demoSpec : Spec := mkSpec "name" "owner" [] [] [] [demoStep].

Lemma demoSpec_normal : normalSpec demoSpec.
Proof.
  constructor; [|constructor]. split.
  - exists [("report", Some (VString "$(consensus.outputs)"))]. by split.
  - exists [("limits", Some (VList [Some (VInt64 7); None]))]. split; [|done]. cbn. rewrite /inS. lia.
Qed.

Lemma spec_roundtrip_witness :
  normalSpec demoSpec ∧ (let? p := WorkflowSpecToProto demoSpec in ProtoToWorkflowSpec p) = Ok (sentSpec demoSpec) ∧
  sentSpec (sentSpec demoSpec) = sentSpec demoSpec ∧ graphSpec (sentSpec demoSpec) = graphSpec demoSpec.
Proof. split; [exact demoSpec_normal|]. apply (spec_roundtrip demoSpec demoSpec_normal). Defined.

(** A target with the reference of an action before it is accepted by the
    factory, but not by the graph, which has a vertex for each reference. *)
Lemma target_reference_shared :
  let steps := [Workflows.mkStep "a@1.0.0" "a" "" [] ; Workflows.mkStep "t@1.0.0" "a" "" []] in
  is_ok (SpecOf (build [mkStep "a@1.0.0" "a" "" None None CapabilityTypeAction; mkStep "t@1.0.0" "a" "" None None CapabilityTypeTarget])) = true ∧
  ofold (@Workflows.addStep _ Workflows.lengthGraphs) (@Workflows.newGraph _ Workflows.lengthGraphs) steps = Err (Workflows.ErrAddVertex "a").
Proof. split; vm_compute; reflexivity. Qed.

Lemma built_workflow_witness :
  let steps := [mkStep "a@1.0.0" "a" "" None None CapabilityTypeAction; mkStep "t@1.0.0" "" "" None None CapabilityTypeTarget] in
  is_ok (SpecOf (build steps)) = true ∧ refsDistinct steps ∧ refsGiven steps.
Proof.
  cbv zeta. split; [vm_compute; reflexivity|]. match goal with |- refsDistinct ?l ∧ _ => destruct (built_workflow l) as [Hb _]; destruct (Hb (fSpec (build l))) as [Hf _] end.
  destruct Hf as (H1 & H2 & _); [vm_compute; reflexivity|by split].
Defined.
End WorkflowSDK.
