(* ===== verification/WasmMemory.v ===== *)
(** [src/pkg/workflows/wasm/host]: the host's access to the memory of a WASM
    guest ([module.go]: [read], [write], [writeUInt32]) and the WASI functions
    that it replaces ([wasip1.go]: [poll_oneoff], [clock_time_get],
    [random_get]).

    Pointers and sizes are the [int32] arguments of the guest, with their
    wrap-around; a slice expression with bounds out of order or out of range is a
    panic of the host. *)

From S2P Require Import Prelude GoBytes.

Module WasmMemory.

(** *** Slices *)

(** [l[lo:hi]] *)
Definition goSlice {E A} (l : list A) (lo hi : Z) : outcome E (list A) :=
  if decide (0 <= lo ∧ lo <= hi ∧ hi <= Z.of_nat (length l))%Z
  then Ok (take (Z.to_nat (hi - lo)) (drop (Z.to_nat lo) l)) else Panic.

(** [l[i]] *)
Definition goAt {E A} (l : list A) (i : Z) : outcome E A := if decide (i < 0)%Z then Panic else go_index l (Z.to_nat i).

(** [copy(l[at:], src)] where the target is long enough. *)
Definition overwrite {A} (l : list A) (at_ : nat) (src : list A) : list A :=
  take at_ l ++ src ++ drop (at_ + length src) l.

Inductive error := ErrAccess | ErrOutOfBounds | ErrSlot.

Definition len32 {A} (l : list A) : Z := wrapS 32 (Z.of_nat (length l)).

(** *** Guest memory *)

Definition read (memory : list byte) (ptr size : Z) : outcome error (list byte) :=
  if decide (size < 0 ∨ ptr < 0)%Z then Err ErrAccess
  else if decide (len32 memory < wrapS 32 (ptr + size))%Z then Err ErrOutOfBounds
  else goSlice memory ptr (wrapS 32 (ptr + size)).

(** The number of bytes written, or -1, and the memory. *)
Definition write (memory src : list byte) (ptr size : Z) : outcome error (Z * list byte) :=
  if decide (size < 0 ∨ ptr < 0)%Z then Ok ((-1)%Z, memory)
  else if decide (Z.of_nat (length src) ≠ size) then Ok ((-1)%Z, memory)
  else if decide (len32 memory < wrapS 32 (ptr + size))%Z then Ok ((-1)%Z, memory)
  else
    let? buffer := goSlice memory ptr (wrapS 32 (ptr + size)) in
    Ok (Z.of_nat (length buffer), overwrite memory (Z.to_nat ptr) (take (length buffer) src)).

Definition writeUInt32 (memory : list byte) (ptr val : Z) : outcome error (Z * list byte) :=
  write memory (le_bytes 4 val) ptr 4.

(** *** Error numbers *)

Definition ErrnoSuccess : Z := 0.
Definition ErrnoBadf : Z := 8.
Definition ErrnoFault : Z := 21.
Definition ErrnoInval : Z := 28.
Definition ErrnoNotsup : Z := 58.

(** *** The clock

    A fake clock, in nanoseconds since [nanoBase]; it is shared by all modules. *)

Definition tick : Z := 100000000.
Definition clockIDRealtime : Z := 0.
Definition clockIDMonotonic : Z := 1.

Record wasi := mkWasi { memory : list byte; clock : Z }.

(** The result of the write is not looked at. *)
Definition clockTimeGet (nanoBase : Z) (id resultTimestamp : Z) (w : wasi) : outcome error (Z * wasi) :=
  let answer val :=
    let? r := write (memory w) (le_bytes 8 (wrapU 64 val)) resultTimestamp 8 in
    Ok (ErrnoSuccess, mkWasi r.2 (clock w + tick)) in
  if decide (id = clockIDMonotonic) then answer (clock w + tick)%Z
  else if decide (id = clockIDRealtime) then answer (nanoBase + clock w + tick)%Z
  else Ok (ErrnoInval, w).

(** *** Polling *)

Definition subscriptionLen : Z := 48.
Definition eventsLen : Z := 32.

(** The three constants follow two others in their block, so that [iota] is
    two for the first of them. *)
Definition eventTypeClock : Z := 2.
Definition eventTypeFDRead : Z := 3.
Definition eventTypeFDWrite : Z := 4.

Definition getSlot (events : list byte) (i : Z) : outcome error (Z * list byte) :=
  let offset := wrapS 32 (i * eventsLen) in
  if decide (len32 events < wrapS 32 (offset + eventsLen))%Z then Err ErrSlot
  else let? slot := goSlice events offset (wrapS 32 (offset + eventsLen)) in Ok (offset, slot).

(** [copy], two assignments and [PutUint32]. *)
Definition writeEvent (slot userData : list byte) (errno eventType : Z) : list byte :=
  let slot := overwrite slot 0 (take (length slot) userData) in
  overwrite (<[9 := x00]> (<[8 := byte_of_Z errno]> slot)) 10 (le_bytes 4 (wrapU 32 eventType)).

(** The answer to a subscription, and the timeout. *)
Definition answer (eventType : Z) (argBuf : list byte) (timeout : Z) : outcome error (Z * Z) :=
  if decide (eventType = eventTypeClock) then
    let? newTimeout := goSlice argBuf 8 16 in
    let? flag := goSlice argBuf 24 32 in
    if decide (le_val (take 2 flag) = 0)%Z then
      let newTimeout := wrapS 64 (le_val newTimeout) in
      Ok (ErrnoSuccess, if decide (timeout < newTimeout)%Z then newTimeout else timeout)
    else Ok (ErrnoNotsup, timeout)
  else if decide (eventType = eventTypeFDRead ∨ eventType = eventTypeFDWrite)%Z then Ok (ErrnoBadf, timeout)
  else Ok (ErrnoInval, timeout).

(** One iteration: the events and the timeout. *)
Definition pollStep (subs : list byte) (i : Z) (st : list byte * Z) : outcome error (list byte * Z) :=
  let '(events, timeout) := st in
  let inOffset := wrapS 32 (i * subscriptionLen) in
  let? userData := goSlice subs inOffset (wrapS 32 (inOffset + 8)) in
  let? eventType := goAt subs (wrapS 32 (inOffset + 8)) in
  let? argBuf := goSlice subs (wrapS 32 (wrapS 32 (inOffset + 8) + 8)) (Z.of_nat (length subs)) in
  let? slot := getSlot events i in
  let? r := answer (Z_of_byte eventType) argBuf timeout in
  Ok (overwrite events (Z.to_nat slot.1) (writeEvent slot.2 userData r.1 (Z_of_byte eventType)), r.2).

Fixpoint pollLoop (fuel : nat) (subs : list byte) (i : Z) (st : list byte * Z) : outcome error (list byte * Z) :=
  match fuel with
  | 0 => Ok st
  | S fuel => let? st := pollStep subs i st in pollLoop fuel subs (i + 1) st
  end.

(** A failed access answers with an error number. *)
Definition orFault {A} (w : wasi) (m : outcome error A) (k : A → outcome error (Z * wasi)) : outcome error (Z * wasi) :=
  match m with Ok a => k a | Err _ => Ok (ErrnoFault, w) | Panic => Panic end.

Definition pollOneoff (subscriptionptr eventsptr nsubscriptions resultNevents : Z) (w : wasi) : outcome error (Z * wasi) :=
  if decide (nsubscriptions = 0)%Z then Ok (ErrnoInval, w)
  else
    orFault w (read (memory w) subscriptionptr (wrapS 32 (nsubscriptions * subscriptionLen))) (λ subs,
    let size := wrapS 32 (nsubscriptions * eventsLen) in
    if decide (size < 0)%Z then Panic                             (* makeslice: len out of range *)
    else
      orFault w (pollLoop (Z.to_nat nsubscriptions) subs 0 (repeat x00 (Z.to_nat size), 0%Z)) (λ st,
      let w := mkWasi (memory w) (if decide (0 < st.2)%Z then clock w + st.2 else clock w)%Z in
      let? r := write (memory w) (le_bytes 4 (wrapU 32 nsubscriptions)) resultNevents 4 in
      if decide (r.1 = -1)%Z then Ok (ErrnoFault, w)
      else
        let w := mkWasi r.2 (clock w) in
        let? r := write (memory w) st.1 eventsptr size in
        if decide (r.1 = -1)%Z then Ok (ErrnoFault, w) else Ok (ErrnoSuccess, mkWasi r.2 (clock w)))).

(** *** Random bytes

    [rand.NewSource(seed)] is a stream of bytes for each seed; [seed] is that of
    the configuration, if it asks for determinism. *)

Definition randomGet (rand : Z → nat → byte) (seed : option Z) (buf bufLen : Z) (w : wasi) : outcome error (Z * wasi) :=
  match seed with
  | None => Ok (ErrnoInval, w)
  | Some seed =>
      if decide (bufLen < 0)%Z then Panic                         (* makeslice: len out of range *)
      else
        let randOutput := rand seed <$> seq 0 (Z.to_nat bufLen) in
        let? r := write (memory w) randOutput buf bufLen in
        if decide (r.1 ≠ Z.of_nat (length randOutput)) then Ok (ErrnoFault, mkWasi r.2 (clock w)) else Ok (ErrnoSuccess, mkWasi r.2 (clock w))
  end.

(** *** Memory access: facts *)

Lemma goSlice_ok {E A} (l : list A) (lo hi : nat) : lo ≤ hi → hi ≤ length l → goSlice (E := E) l (Z.of_nat lo) (Z.of_nat hi) = Ok (take (hi - lo) (drop lo l)).
Proof. intros. rewrite /goSlice decide_True; [|lia]. by rewrite Nat2Z.id -Nat2Z.inj_sub // Nat2Z.id. Qed.

Lemma wrap32_small z : (- 2 ^ 31 <= z < 2 ^ 31)%Z → wrapS 32 z = z.
Proof. intros. apply wrapS_small; [done|]. rewrite /inS. change (2 ^ (32 - 1))%Z with (2 ^ 31)%Z. lia. Qed.

Lemma wrap32_over z : (2 ^ 31 <= z < 2 ^ 32)%Z → wrapS 32 z = (z - 2 ^ 32)%Z.
Proof.
  intros. rewrite /wrapS. change (2 ^ (32 - 1))%Z with (2 ^ 31)%Z. change (2 ^ 32)%Z with (2 * 2 ^ 31)%Z in *.
  rewrite -(Z.mod_unique_pos (z + 2 ^ 31) (2 * 2 ^ 31) 1 (z - 2 ^ 31)); lia.
Qed.

Definition smallMemory (m : list byte) : Prop := (Z.of_nat (length m) < 2 ^ 31)%Z.

Lemma len32_small m : smallMemory m → len32 m = Z.of_nat (length m).
Proof. intros. apply wrap32_small. rewrite /smallMemory in H. lia. Qed.

(** What an access to a range does. *)
Inductive range := RNegative | ROverflow | ROutside | RInside.
Definition rangeOf (m : list byte) (ptr size : Z) : range :=
  if decide (size < 0 ∨ ptr < 0)%Z then RNegative
  else if decide (2 ^ 31 <= ptr + size)%Z then ROverflow
  else if decide (Z.of_nat (length m) < ptr + size)%Z then ROutside else RInside.

Lemma read_range m ptr size : smallMemory m → inS 32 ptr → inS 32 size →
  read m ptr size =
    match rangeOf m ptr size with
    | RNegative => Err ErrAccess
    | ROverflow => Panic
    | ROutside => Err ErrOutOfBounds
    | RInside => Ok (take (Z.to_nat size) (drop (Z.to_nat ptr) m))
    end.
Proof.
  rewrite /inS. change (2 ^ (32 - 1))%Z with (2 ^ 31)%Z. intros Hm Hp Hs. rewrite /read /rangeOf len32_small //.
  rewrite /smallMemory in Hm. case_decide as H1; [done|]. destruct (decide (2 ^ 31 <= ptr + size)%Z) as [H2|H2].
  - rewrite wrap32_over; [|lia]. rewrite decide_False; [|lia]. rewrite /goSlice decide_False //. lia.
  - rewrite wrap32_small; [|lia]. case_decide as H3; [done|]. rewrite /goSlice decide_True; [|lia]. do 3 f_equal. lia.
Qed.

Lemma write_range m src ptr size : smallMemory m → inS 32 ptr → inS 32 size →
  write m src ptr size =
    match rangeOf m ptr size with
    | RNegative => Ok ((-1)%Z, m)
    | ROverflow => if decide (Z.of_nat (length src) = size) then Panic else Ok ((-1)%Z, m)
    | ROutside => Ok ((-1)%Z, m)
    | RInside => if decide (Z.of_nat (length src) = size) then Ok (size, overwrite m (Z.to_nat ptr) src) else Ok ((-1)%Z, m)
    end.
Proof.
  rewrite /inS. change (2 ^ (32 - 1))%Z with (2 ^ 31)%Z. intros Hm Hp Hs. rewrite /write /rangeOf len32_small //.
  rewrite /smallMemory in Hm. case_decide as H1; [done|]. destruct (decide (Z.of_nat (length src) = size)) as [Hl|Hl].
  - rewrite decide_False; [|by intros ?]. destruct (decide (2 ^ 31 <= ptr + size)%Z) as [H2|H2].
    + rewrite wrap32_over; [|lia]. rewrite decide_False; [|lia]. rewrite /goSlice decide_False //. lia.
    + rewrite wrap32_small; [|lia]. case_decide as H3; [done|]. rewrite /goSlice decide_True; [|lia]. cbn [obind].
      assert (length (take (Z.to_nat (ptr + size - ptr)) (drop (Z.to_nat ptr) m)) = length src) as ->.
      { rewrite length_take length_drop. lia. }
      by rewrite Hl firstn_all.
  - rewrite decide_True //. by repeat case_decide.
Qed.

Lemma length_overwrite {A} (l : list A) i src : i + length src ≤ length l → length (overwrite l i src) = length l.
Proof. intros. rewrite /overwrite !length_app length_take length_drop. lia. Qed.

Lemma overwrite_lookup {A} (l : list A) i src k : i + length src ≤ length l →
  overwrite l i src !! k = if decide (i ≤ k < i + length src) then src !! (k - i) else l !! k.
Proof.
  intros Hl. rewrite /overwrite. assert (length (take i l) = i) as Hi by (rewrite length_take; lia). case_decide as Hk.
  - rewrite lookup_app_r; [|lia]. rewrite Hi lookup_app_l //. lia.
  - destruct (decide (k < i)) as [Hlt|Hge].
    + rewrite lookup_app_l; [|lia]. by rewrite lookup_take_lt.
    + rewrite lookup_app_r; [|lia]. rewrite lookup_app_r; [|lia]. rewrite Hi lookup_drop. f_equal. lia.
Qed.

Lemma take_drop_overwrite {A} (l : list A) i src : i + length src ≤ length l → take (length src) (drop i (overwrite l i src)) = src.
Proof.
  intros Hl. rewrite /overwrite drop_app_length'; [|rewrite length_take; lia]. by rewrite take_app_length.
Qed.

(** C37: guest memory is accessed within bounds.  A read returns exactly the bytes
    of the range, a write replaces exactly them (and a read of the range then
    returns what was written), and a range that is not inside is refused, with
    one exception: when the pointer plus the size does not fit an [int32] the
    check is passed and the host panics. *)
Theorem memory_access m src ptr size :
  smallMemory m → inS 32 ptr → inS 32 size → Z.of_nat (length src) = size →
  match rangeOf m ptr size with
  | RInside =>
      ∃ m', read m ptr size = Ok (take (Z.to_nat size) (drop (Z.to_nat ptr) m)) ∧
        write m src ptr size = Ok (size, m') ∧ read m' ptr size = Ok src ∧ length m' = length m ∧
        ∀ k : nat, (Z.of_nat k < ptr ∨ ptr + size <= Z.of_nat k)%Z → m' !! k = m !! k
  | ROverflow => read m ptr size = Panic ∧ write m src ptr size = Panic
  | _ => (∃ e, read m ptr size = Err e) ∧ write m src ptr size = Ok ((-1)%Z, m)
  end.
Proof.
  intros Hm Hp Hs Hl. rewrite read_range // write_range //.
  destruct (rangeOf m ptr size) eqn:E; [by split; [eexists|]|by case_decide|by split; [eexists|]|]. case_decide as Hd; [clear Hd|done].
  assert (0 <= ptr ∧ ptr + size <= Z.of_nat (length m))%Z as [Hp0 Hin] by (rewrite /rangeOf in E; repeat case_decide; (done || lia)).
  exists (overwrite m (Z.to_nat ptr) src). split; [done|]. split; [done|].
  assert (length (overwrite m (Z.to_nat ptr) src) = length m) as Hlen by (apply length_overwrite; lia).
  split; [|split; [done|]].
  - rewrite read_range //; [|by rewrite /smallMemory Hlen]. assert (rangeOf (overwrite m (Z.to_nat ptr) src) ptr size = RInside) as ->.
    { rewrite -E /rangeOf Hlen. done. }
    rewrite -Hl Nat2Z.id. f_equal. apply take_drop_overwrite. lia.
  - intros k Hk. rewrite overwrite_lookup; [|lia]. rewrite decide_False //. lia.
Qed.

(** *** Polling: facts *)

(** A subscription is 48 bytes: user data, a tag, and for clocks an id, the
    timeout, the precision and flags. *)
Definition tagOf (sub : list byte) : Z := Z_of_byte (default x00 (sub !! 8)).
Definition isSleep (sub : list byte) : bool := bool_decide (tagOf sub = eventTypeClock) && bool_decide (le_val (take 2 (drop 40 sub)) = 0%Z).
Definition errnoOf (sub : list byte) : Z :=
  if isSleep sub then ErrnoSuccess
  else if decide (tagOf sub = eventTypeClock) then ErrnoNotsup
  else if decide (tagOf sub = eventTypeFDRead ∨ tagOf sub = eventTypeFDWrite) then ErrnoBadf else ErrnoInval.
Definition sleepOf (sub : list byte) : Z := if isSleep sub then wrapS 64 (le_val (take 8 (drop 24 sub))) else 0%Z.

(** The event of a subscription: its user data, the error, its tag. *)
Definition eventOf (sub : list byte) : list byte :=
  take 8 sub ++ [byte_of_Z (errnoOf sub); x00] ++ le_bytes 4 (tagOf sub) ++ repeat x00 18.

Definition sleeps (subs : list (list byte)) : Z := foldl (λ t sub, Z.max t (sleepOf sub)) 0%Z subs.

(** The [i]-th subscription. *)
Definition nth_sub (subs : list byte) (i : nat) : list byte := take 48 (drop (48 * i) subs).

Lemma writeEvent_fresh userData errno eventType : length userData = 8 →
  writeEvent (repeat x00 32) userData errno eventType = userData ++ [byte_of_Z errno; x00] ++ le_bytes 4 (wrapU 32 eventType) ++ repeat x00 18.
Proof. intros H. do 8 (destruct userData as [|? userData]; [done|]). by destruct userData. Qed.

Lemma take_drop_nth (subs : list byte) i k n : k + n ≤ 48 → take n (drop k (nth_sub subs i)) = take n (drop (48 * i + k) subs).
Proof. intros. rewrite /nth_sub skipn_firstn_comm drop_drop take_take. f_equal. lia. Qed.

(** A slice expression at an offset of the [i]-th subscription. *)
Lemma sub_slice {E} (subs : list byte) (n i : nat) (lo hi : nat) :
  length subs = 48 * n → (48 * Z.of_nat n < 2 ^ 31)%Z → i < n → lo ≤ hi → hi ≤ 48 →
  goSlice (E := E) subs (Z.of_nat (48 * i + lo)) (Z.of_nat (48 * i + hi)) = Ok (take (hi - lo) (drop lo (nth_sub subs i))).
Proof. intros. rewrite goSlice_ok; [|lia|lia]. rewrite take_drop_nth; [|lia]. do 2 f_equal. lia. Qed.

Lemma answer_exact (subs : list byte) (n i : nat) t : length subs = 48 * n → i < n → (0 <= t)%Z →
  answer (tagOf (nth_sub subs i)) (drop (48 * i + 16) subs) t = Ok (errnoOf (nth_sub subs i), Z.max t (sleepOf (nth_sub subs i))).
Proof.
  intros Hl Hi Ht. rewrite /answer /errnoOf /sleepOf /isSleep. destruct (decide (tagOf (nth_sub subs i) = eventTypeClock)) as [Hc|Hc].
  - rewrite (goSlice_ok _ 8 16); [|lia|rewrite length_drop; lia]. rewrite (goSlice_ok _ 24 32); [|lia|rewrite length_drop; lia]. cbn [obind].
    rewrite !drop_drop take_take. rewrite bool_decide_true //. cbn [andb].
    change (take (16 - 8) (drop (48 * i + 16 + 8) subs)) with (take 8 (drop (48 * i + 16 + 8) subs)).
    replace (48 * i + 16 + 8) with (48 * i + 24) by lia. replace (48 * i + 16 + 24) with (48 * i + 40) by lia.
    change (2 `min` (32 - 24)) with 2. rewrite -!take_drop_nth; [|lia|lia].
    case_decide as Hf; [rewrite bool_decide_true //|rewrite bool_decide_false //]; do 2 f_equal; [|lia].
    set (z := wrapS 64 _). case_decide; lia.
  - rewrite bool_decide_false //. cbn [andb]. case_decide; do 2 f_equal; lia.
Qed.

(** The events answered so far, followed by room for the others. *)
Definition answered (subs : list byte) (n i : nat) : list byte :=
  concat (eventOf <$> (nth_sub subs <$> seq 0 i)) ++ repeat x00 (32 * (n - i)).

Lemma length_nth_sub subs n i : length subs = 48 * n → i < n → length (nth_sub subs i) = 48.
Proof. intros. rewrite /nth_sub length_take length_drop. lia. Qed.

Lemma length_eventOf subs n i : length subs = 48 * n → i < n → length (eventOf (nth_sub subs i)) = 32.
Proof. intros Hl Hi. rewrite /eventOf !length_app length_take (length_nth_sub subs n i) //. Qed.

Lemma length_events subs n i : length subs = 48 * n → i ≤ n → length (concat (eventOf <$> (nth_sub subs <$> seq 0 i))) = 32 * i.
Proof.
  intros Hl. induction i as [|i IH]; intros Hi; [done|]. rewrite seq_S !fmap_app concat_app length_app IH; [|lia]. cbn [fmap list_fmap concat].
  rewrite app_nil_r (length_eventOf subs n); lia.
Qed.

Lemma length_answered subs n i : length subs = 48 * n → i ≤ n → length (answered subs n i) = 32 * n.
Proof. intros. rewrite /answered length_app (length_events subs n) // repeat_length. lia. Qed.

Lemma tag_range sub : (0 <= tagOf sub < 256)%Z.
Proof. apply Z_of_byte_range. Qed.

Lemma wrapU32_tag sub : wrapU 32 (tagOf sub) = tagOf sub.
Proof. apply wrapU_small. pose proof (tag_range sub). rewrite /inU. lia. Qed.

Lemma nth_sub_tag subs n i : length subs = 48 * n → i < n → ∃ b, subs !! (48 * i + 8) = Some b ∧ Z_of_byte b = tagOf (nth_sub subs i).
Proof.
  intros Hl Hi. destruct (lookup_lt_is_Some_2 subs (48 * i + 8)) as [b Hb]; [lia|]. exists b. split; [done|].
  rewrite /tagOf /nth_sub lookup_take_lt; [|lia]. by rewrite lookup_drop Hb.
Qed.

Lemma answered_next subs n i : length subs = 48 * n → i < n →
  overwrite (answered subs n i) (32 * i) (eventOf (nth_sub subs i)) = answered subs n (S i).
Proof.
  intros Hl Hi. rewrite /overwrite /answered. pose proof (length_events subs n i Hl ltac:(lia)) as He.
  rewrite take_app_length'; [|done]. rewrite seq_S !fmap_app concat_app. cbn [fmap list_fmap concat Nat.add]. rewrite app_nil_r -app_assoc. do 2 f_equal.
  rewrite (length_eventOf subs n) // drop_app_ge; [|lia]. rewrite He.
  replace (32 * i + 32 - 32 * i) with 32 by lia. replace (32 * (n - i)) with (32 + 32 * (n - S i)) by lia.
  rewrite repeat_app drop_app_ge; [|by rewrite repeat_length]. by rewrite repeat_length Nat.sub_diag drop_0.
Qed.

Lemma answered_slot subs n i : length subs = 48 * n → i < n → take 32 (drop (32 * i) (answered subs n i)) = repeat x00 32.
Proof.
  intros Hl Hi. rewrite /answered drop_app_ge; [|by rewrite (length_events subs n) //; lia]. rewrite (length_events subs n) //; [|lia].
  rewrite Nat.sub_diag drop_0. replace (32 * (n - i)) with (32 + 32 * (n - S i)) by lia. rewrite repeat_app take_app_length'; [done|].
  by rewrite repeat_length.
Qed.

Lemma pollStep_exact subs n i t : length subs = 48 * n → (48 * Z.of_nat n < 2 ^ 31)%Z → i < n → (0 <= t)%Z →
  pollStep subs (Z.of_nat i) (answered subs n i, t) = Ok (answered subs n (S i), Z.max t (sleepOf (nth_sub subs i))).
Proof.
  intros Hl Hn Hi Ht. rewrite /pollStep. change subscriptionLen with 48%Z.
  rewrite (wrap32_small (Z.of_nat i * 48)); [|lia]. rewrite !(wrap32_small (Z.of_nat i * 48 + 8)); [|lia]. rewrite (wrap32_small (Z.of_nat i * 48 + 8 + 8)); [|lia].
  replace (Z.of_nat i * 48)%Z with (Z.of_nat (48 * i + 0)) by lia.
  replace (Z.of_nat (48 * i + 0) + 8)%Z with (Z.of_nat (48 * i + 8)) by lia. rewrite (sub_slice subs n i 0 8) //; [|lia..]. cbn [obind].
  destruct (nth_sub_tag subs n i Hl Hi) as (b & Hb & Htag). rewrite /goAt decide_False; [|lia]. rewrite Nat2Z.id /go_index Hb. cbn [obind].
  replace (Z.of_nat (48 * i + 8) + 8)%Z with (Z.of_nat (48 * i + 16)) by lia. rewrite goSlice_ok; [|lia|lia]. cbn [obind].
  rewrite take_ge; [|rewrite length_drop; lia]. rewrite /getSlot. change eventsLen with 32%Z.
  rewrite (wrap32_small (Z.of_nat i * 32)); [|lia]. rewrite !(wrap32_small (Z.of_nat i * 32 + 32)); [|lia].
  rewrite len32_small; [|rewrite /smallMemory (length_answered subs n i) //; lia]. rewrite (length_answered subs n i) //; [|lia].
  rewrite decide_False; [|lia]. replace (Z.of_nat i * 32)%Z with (Z.of_nat (32 * i)) by lia.
  replace (Z.of_nat (32 * i) + 32)%Z with (Z.of_nat (32 * i + 32)) by lia. rewrite goSlice_ok; [|lia|rewrite (length_answered subs n i) //; lia]. cbn [obind].
  rewrite Htag (answer_exact subs n i) //. cbn [obind fst snd]. replace (32 * i + 32 - 32 * i) with 32 by lia.
  rewrite answered_slot // writeEvent_fresh; [|rewrite drop_0 length_take (length_nth_sub subs n i) //].
  rewrite wrapU32_tag drop_0 Nat2Z.id. do 2 f_equal. by rewrite -(answered_next subs n i).
Qed.

Lemma pollLoop_exact subs n k i t : length subs = 48 * n → (48 * Z.of_nat n < 2 ^ 31)%Z → i + k = n → (0 <= t)%Z →
  pollLoop k subs (Z.of_nat i) (answered subs n i, t) = Ok (answered subs n n, foldl (λ t sub, Z.max t (sleepOf sub)) t (nth_sub subs <$> seq i k)).
Proof.
  intros Hl Hn. revert i t. induction k as [|k IH]; intros i t Hik Ht; [cbn; by rewrite -Hik Nat.add_0_r|]. cbn [pollLoop].
  rewrite (pollStep_exact subs n i) //; [|lia]. cbn [obind]. replace (Z.of_nat i + 1)%Z with (Z.of_nat (S i)) by lia.
  rewrite IH; [done|lia|lia].
Qed.

Lemma sleeps_from t subs : (0 <= t)%Z → (t <= foldl (λ t sub, Z.max t (sleepOf sub)) t subs)%Z.
Proof. revert t. induction subs as [|sub subs IH]; intros t Ht; cbn; [done|]. specialize (IH (Z.max t (sleepOf sub)) ltac:(lia)). lia. Qed.

Lemma rangeOf_inside m (ptr size : nat) : smallMemory m → ptr + size ≤ length m → rangeOf m (Z.of_nat ptr) (Z.of_nat size) = RInside.
Proof. rewrite /smallMemory /rangeOf. intros Hm Hl. rewrite decide_False; [|lia]. rewrite decide_False; [|lia]. by rewrite decide_False; [|lia]. Qed.

Lemma small_inS32 (k : nat) : (Z.of_nat k < 2 ^ 31)%Z → inS 32 (Z.of_nat k).
Proof. rewrite /inS. change (2 ^ (32 - 1))%Z with (2 ^ 31)%Z. lia. Qed.

Lemma write_inside m src (ptr size : nat) : smallMemory m → length src = size → ptr + size ≤ length m →
  write m src (Z.of_nat ptr) (Z.of_nat size) = Ok (Z.of_nat size, overwrite m ptr src).
Proof.
  intros Hm Hs Hl. rewrite write_range //; [|apply small_inS32; rewrite /smallMemory in Hm; lia..]. rewrite rangeOf_inside // Nat2Z.id.
  case_decide; [done|lia].
Qed.

(** The subscriptions that a guest passes. *)
Definition subscriptions (m : list byte) (ptr n : nat) : list (list byte) := nth_sub (take (48 * n) (drop ptr m)) <$> seq 0 n.

(** A poll whose buffers lie in the guest's memory answers every
    subscription, in order, with one event that carries its user data and tag,
    reports their number, and advances the clock by the longest accepted
    timeout.  Nothing else changes. *)
Theorem poll_answers w (sp ep rp n : nat) :
  smallMemory (memory w) → 0 < n → sp + 48 * n ≤ length (memory w) → ep + 32 * n ≤ length (memory w) → rp + 4 ≤ length (memory w) →
  let subs := subscriptions (memory w) sp n in
  pollOneoff (Z.of_nat sp) (Z.of_nat ep) (Z.of_nat n) (Z.of_nat rp) w =
  Ok (ErrnoSuccess, mkWasi (overwrite (overwrite (memory w) rp (le_bytes 4 (Z.of_nat n))) ep (concat (eventOf <$> subs))) (clock w + sleeps subs)).
Proof.
  intros Hm Hn Hs He Hr. cbn zeta. rewrite /pollOneoff decide_False; [|lia]. change subscriptionLen with 48%Z. change eventsLen with 32%Z.
  pose proof Hm as Hm'. rewrite /smallMemory in Hm'. rewrite !wrap32_small; [|lia|lia].
  replace (Z.of_nat n * 48)%Z with (Z.of_nat (48 * n)) by lia. replace (Z.of_nat n * 32)%Z with (Z.of_nat (32 * n)) by lia.
  rewrite read_range //; [|apply small_inS32; lia..]. rewrite rangeOf_inside // !Nat2Z.id. cbn [orFault]. rewrite decide_False; [|lia].
  set (sl := take (48 * n) (drop sp (memory w))). assert (length sl = 48 * n) as Hsl by (rewrite length_take length_drop; lia).
  assert (repeat x00 (32 * n) = answered sl n 0) as -> by (by rewrite /answered /= Nat.sub_0_r).
  change 0%Z with (Z.of_nat 0) at 1. rewrite (pollLoop_exact sl n n 0 0) //; [|lia]. cbn [orFault fst snd memory clock].
  change 4%Z with (Z.of_nat 4). rewrite (write_inside _ _ rp 4) //. cbn [obind fst snd memory clock]. match goal with |- context [decide (?a = (-1)%Z)] => destruct (decide (a = (-1)%Z)); [lia|] end.
  rewrite wrapU_small; [|rewrite /inU; lia]. set (m1 := overwrite (memory w) rp (le_bytes 4 (Z.of_nat n))).
  assert (length m1 = length (memory w)) as Hm1 by (apply length_overwrite; rewrite length_le_bytes; lia).
  rewrite (write_inside m1 _ ep (32 * n)); [|by rewrite /smallMemory Hm1|by apply length_answered|by rewrite Hm1].
  cbn [obind fst snd]. match goal with |- context [decide (?a = (-1)%Z)] => destruct (decide (a = (-1)%Z)); [lia|] end. do 3 f_equal.
  - by rewrite /answered Nat.sub_diag /= app_nil_r.
  - rewrite /sleeps /subscriptions -/sl. pose proof (sleeps_from 0 (nth_sub sl <$> seq 0 n) ltac:(lia)). case_decide; lia.
Qed.

(** The tags of WASI are 0 for clocks, 1 and 2 for reading and writing.  A clock
    subscription is therefore refused and nothing is slept, and a subscription
    to write is taken for a clock. *)
Lemma wasi_clock_refused sub : tagOf sub = 0%Z → errnoOf sub = ErrnoInval ∧ sleepOf sub = 0%Z.
Proof. intros Ht. by rewrite /errnoOf /sleepOf /isSleep Ht. Qed.

Lemma wasi_write_sleeps sub : tagOf sub = 2%Z → le_val (take 2 (drop 40 sub)) = 0%Z → errnoOf sub = ErrnoSuccess.
Proof. intros Ht Hf. by rewrite /errnoOf /isSleep Ht Hf. Qed.

(** A number of subscriptions whose size overflows to zero makes the host panic. *)
Lemma poll_panics w n ptr ep rp : n = (2 ^ 28)%Z → smallMemory (memory w) → (0 <= ptr <= Z.of_nat (length (memory w)))%Z →
  pollOneoff ptr ep n rp w = Panic.
Proof.
  intros Hn Hm Hp. rewrite /smallMemory in Hm.
  assert (wrapS 32 (n * subscriptionLen) = 0 ∧ wrapS 32 (n * eventsLen) = 0 ∧ 0 < n)%Z as (H48 & H32 & Hpos) by (rewrite Hn; by vm_compute).
  clear Hn. rewrite /pollOneoff H48 H32 read_range //; [|rewrite /inS; change (2 ^ (32 - 1))%Z with (2 ^ 31)%Z; lia].
  destruct (decide (n = 0)%Z); [lia|]. assert (rangeOf (memory w) ptr 0 = RInside) as ->.
  { rewrite /rangeOf decide_False; [|lia]. rewrite decide_False; [|lia]. by rewrite decide_False; [|lia]. }
  cbn [orFault]. destruct (decide (0 < 0)%Z); [lia|]. destruct (Z.to_nat n) as [|k] eqn:Ek; [lia|].
  cbn [pollLoop pollStep]. rewrite take_0. by vm_compute.
Qed.

(** *** Witnesses *)

(** A memory of 104 bytes: a subscription for a clock in the sense of WASI with
    user data 1, then room for the event and the count. *)
Definition demoMemory : list byte := x01 :: repeat x00 103.

Lemma memory_access_witness : ∃ m', write demoMemory [x01; x02] 100 2 = Ok (2%Z, m') ∧ read m' 100 2 = Ok [x01; x02].
Proof.
  pose proof (memory_access demoMemory [x01; x02] 100 2) as H. change (rangeOf demoMemory 100 2) with RInside in H. cbv beta iota in H.
  destruct H as (m' & _ & Hw & Hr & _); [by rewrite /smallMemory; vm_compute|by rewrite /inS; vm_compute..|done|]. by exists m'.
Defined.

Lemma poll_answers_witness :
  ∃ m, pollOneoff 0 48 1 80 (mkWasi demoMemory 0) = Ok (ErrnoSuccess, mkWasi m 0) ∧ m !! 56 = Some x1c.
Proof.
  assert (smallMemory demoMemory) as Hm by (by rewrite /smallMemory; vm_compute).
  pose proof (poll_answers (mkWasi demoMemory 0) 0 48 80 1 Hm) as H. cbv zeta in H. eexists. split; [apply H; vm_compute; lia|by vm_compute].
Defined.
End WasmMemory.
