(* ===== verification/WasmHost.v ===== *)
(** [src/pkg/workflows/wasm/host/module.go]: the functions that the host exports
    to a WASM guest, the store of the requests being run, and the configuration
    and the result of a run.

    A host function works on the memory of the guest that calls it and on the
    store, which all runs of a module share.  Here a call runs to its end before
    another one begins; file WasmCalls takes the calls of concurrent guests
    apart into their accesses of the shared data.  Protocol buffers, the
    emitter and the fetch function are an interface. *)

From Stdlib.Strings Require Import Ascii.
From S2P Require Import Prelude GoBytes GoStrings Values WasmMemory.

Module WasmHost.
Import Values WasmMemory.

(** *** Messages *)

Definition headers : Type := list (string * string).

(** [sdk.FetchRequest], [host.FetchRequestMetadata] and [sdk.FetchResponse]. *)
Record FetchRequest := mkFetchRequest { URL : string; Method : string; Headers : headers; Body : list byte; TimeoutMs : Z; MaxRetries : Z }.
Record FetchMetadata := mkFetchMetadata {
  WorkflowID : string; WorkflowName : string; WorkflowOwner : string; WorkflowExecutionID : string; DecodedWorkflowName : string
}.
Record FetchResponse := mkFetchResponse {
  ExecutionError : bool; ErrorMessage : string; StatusCode : Z; respHeaders : headers; respBody : list byte
}.

(** The messages of [wasm.proto]. *)
Record pbFetchRequest := mkPbFetchRequest {
  pbUrl : string; pbMethod : string; pbHeaders : list (string * pbValue); pbBody : list byte; pbTimeoutMs : Z; pbId : string;
  pbMetadata : option FetchMetadata; pbMaxRetries : Z
}.
Record pbFetchResponse := mkPbFetchResponse {
  pbExecutionError : bool; pbErrorMessage : string; pbStatusCode : Z; pbRespHeaders : list (string * pbValue); pbRespBody : list byte
}.
Record Response := mkResponse { respId : string; ErrMsg : string; respMessage : list byte }.
Record pbEmitRequest := mkPbEmitRequest { emMessage : string; emLabels : list (string * pbValue); emRequestId : string }.

(** Marshalling, [mapstructure]'s conversion of labels to strings, and the two
    functions of the configuration: [Fetch], which may answer differently each
    time, and [Emit].  An error is its text; [Fetch] may return a nil response. *)
Class WasmEnv := {
  marshalFetchRequest : pbFetchRequest → string + list byte;
  unmarshalFetchRequest : list byte → string + pbFetchRequest;
  marshalFetchResponse : pbFetchResponse → string + list byte;
  unmarshalFetchResponse : list byte → string + pbFetchResponse;
  unmarshalResponse : list byte → string + Response;
  marshalEmitError : string → string + list byte;
  unmarshalEmitRequest : list byte → string + pbEmitRequest;
  labelStrings : list (string * option Value) → string + headers;
  Fetch : nat → FetchRequest → FetchMetadata → string + option FetchResponse;
  Emit : headers → string → option string
}.

(** The texts of the errors of the host itself. *)
Definition readErrText (ptr size : Z) (e : WasmMemory.error) : string :=
  match e with
  | ErrAccess => "invalid memory access: ptr: " ++ Itoa ptr ++ ", size: " ++ Itoa size
  | _ => "out of bounds memory access"
  end.
Definition notFoundText (id : string) : string := "could not find request data for id " ++ id.
Definition fetchNotImplemented : string + option FetchResponse := inl "fetch not implemented".
Definition unimplementedEmit : option string := Some "unimplemented".

(** [values.WrapMap] and [values.ProtoMap] of text entries; text always wraps. *)
Definition wrapErrText : string := "could not wrap into value".
Definition wrapHeaders (h : headers) : outcome WasmMemory.error (list (string * pbValue)) :=
  match Wrap (AMap ((λ kv, (kv.1, AString kv.2)) <$> h)) with
  | Ok (Some (VMap m)) => Ok ((λ kv, (kv.1, Proto kv.2)) <$> m)
  | Panic => Panic
  | _ => Err ErrAccess
  end.

(** [v.GetStringValue()] for each field. *)
Definition stringFields (fields : list (string * pbValue)) : headers :=
  (λ kv, (kv.1, match kv.2 with PString s => s | _ => "" end)) <$> fields.

Definition emptyMetadata : FetchMetadata := mkFetchMetadata "" "" "" "" "".

Definition toSdkReq (req : pbFetchRequest) : FetchRequest * FetchMetadata :=
  (mkFetchRequest (pbUrl req) (pbMethod req) (stringFields (pbHeaders req)) (pbBody req) (pbTimeoutMs req) (pbMaxRetries req),
   default emptyMetadata (pbMetadata req)).

Definition fromSdkResp (resp : FetchResponse) : outcome WasmMemory.error pbFetchResponse :=
  let? m := wrapHeaders (respHeaders resp) in
  Ok (mkPbFetchResponse (ExecutionError resp) (ErrorMessage resp) (StatusCode resp) m (respBody resp)).

(** *** The store *)

Record RequestData := mkRequestData { fetchRequestsCounter : Z; response : option Response }.
Definition store : Type := gmap string RequestData.

Definition storeAdd (id : string) (req : RequestData) (r : store) : option store :=
  match r !! id with Some _ => None | None => Some (<[id := req]> r) end.
Definition storeGet (id : string) (r : store) : option RequestData := r !! id.
Definition storeDelete (id : string) (r : store) : store := delete id r.

(** What the module does, in order: requests that begin, fetches that are
    performed, responses that are stored, requests that end. *)
Inductive entry := LAdd (id : string) | LFetch (id : string) | LResponse (r : Response) | LDelete (id : string).
Record host := mkHost { requestStore : store; trace : list entry }.

Section calls.
Context `{WasmEnv} (MaxFetchRequests : Z).

Definition herror := WasmMemory.error.

(** The host's answer: an error number, the guest's memory and the state of the
    host, which the functions that only write an answer pass on. *)
Definition answerOf (S : Type) : Type := outcome herror (Z * list byte * S).

(** Writing a message and its length. *)
Definition writeMessage (mem respBytes : list byte) (respptr resplenptr : Z) : outcome herror (bool * list byte) :=
  let? r := write mem respBytes respptr (wrapS 32 (Z.of_nat (length respBytes))) in
  if decide (r.1 = -1)%Z then Ok (false, r.2)
  else
    let? r := writeUInt32 r.2 resplenptr (wrapU 32 (Z.of_nat (length respBytes))) in
    Ok (bool_decide (r.1 ≠ (-1)%Z), r.2).

Definition answerWith {S} (h : S) (r : outcome herror (bool * list byte)) : answerOf S :=
  let? r := r in Ok (if r.1 then ErrnoSuccess else ErrnoFault, r.2, h).

(** [writeErr] of [createFetchFn] *)
Definition fetchErr {S} (mem : list byte) (respptr resplenptr : Z) (h : S) (err : string) : answerOf S :=
  match marshalFetchResponse (mkPbFetchResponse true err 0 [] []) with
  | inl _ => Ok (ErrnoFault, mem, h)
  | inr respBytes => answerWith h (writeMessage mem respBytes respptr resplenptr)
  end.

Definition countFetch (id : string) (rd : RequestData) (h : host) : host :=
  mkHost (<[id := mkRequestData (fetchRequestsCounter rd + 1) (response rd)]> (requestStore h)) (trace h ++ [LFetch id]).

(** The last part of [createFetchFn]: the response is written. *)
Definition fetchRespond {S} (mem : list byte) (respptr resplenptr : Z) (h : S) (fetchResp : FetchResponse) : answerOf S :=
  match fromSdkResp fetchResp with
  | Panic => Panic
  | Err _ => fetchErr mem respptr resplenptr h wrapErrText
  | Ok protoResp =>
      match marshalFetchResponse protoResp with
      | inl err => fetchErr mem respptr resplenptr h err
      | inr respBytes =>
          let? r := write mem respBytes respptr (wrapS 32 (Z.of_nat (length respBytes))) in
          if decide (r.1 = -1)%Z then fetchErr r.2 respptr resplenptr h "failed to write response"
          else
            let? r := writeUInt32 r.2 resplenptr (wrapU 32 (Z.of_nat (length respBytes))) in
            if decide (r.1 = -1)%Z then fetchErr r.2 respptr resplenptr h "failed to write response length"
            else Ok (ErrnoSuccess, r.2, h)
      end
  end.

(** The request that the guest's memory holds, or the text of an error. *)
Definition fetchRequest (mem : list byte) (reqptr reqptrlen : Z) : outcome herror (string + pbFetchRequest) :=
  match read mem reqptr reqptrlen with
  | Panic => Panic
  | Err e => Ok (inl (readErrText reqptr reqptrlen e))
  | Ok b => Ok (unmarshalFetchRequest b)
  end.

(** The check of the counter. *)
Definition limited (rd : RequestData) : bool := bool_decide (MaxFetchRequests <= fetchRequestsCounter rd)%Z.
Definition limitText : string := "max number of fetch requests exceeded".

(** The call of [Fetch], the [n]-th entry of the trace, and its answer. *)
Definition fetchPerform {S} (n : nat) (mem : list byte) (respptr resplenptr : Z) (h : S) (req : pbFetchRequest) : answerOf S :=
  let '(sdkReq, md) := toSdkReq req in
  match Fetch n sdkReq md with
  | inl err => fetchErr mem respptr resplenptr h err
  | inr None => Panic                               (* a nil dereference *)
  | inr (Some fetchResp) => fetchRespond mem respptr resplenptr h fetchResp
  end.

(** [createFetchFn], with no other call in between *)
Definition fetch (mem : list byte) (respptr resplenptr reqptr reqptrlen : Z) (h : host) : answerOf host :=
  let? request := fetchRequest mem reqptr reqptrlen in
  match request with
  | inl err => fetchErr mem respptr resplenptr h err
  | inr req =>
      match storeGet (pbId req) (requestStore h) with
      | None => fetchErr mem respptr resplenptr h (notFoundText (pbId req))
      | Some storedRequest =>
          if limited storedRequest then fetchErr mem respptr resplenptr h limitText
          else
            let h := countFetch (pbId req) storedRequest h in
            fetchPerform (length (trace h)) mem respptr resplenptr h req
      end
  end.

(** The response that the guest's memory holds, if it can be read. *)
Definition responseAt (mem : list byte) (ptr ptrlen : Z) : outcome herror (option Response) :=
  match read mem ptr ptrlen with
  | Panic => Panic
  | Err _ => Ok None
  | Ok b => Ok match unmarshalResponse b with inl _ => None | inr resp => Some resp end
  end.

(** [createSendResponseFn], with no other call in between *)
Definition sendResponse (mem : list byte) (ptr ptrlen : Z) (h : host) : outcome herror (Z * host) :=
  let? r := responseAt mem ptr ptrlen in
  match r with
  | None => Ok (ErrnoFault, h)
  | Some resp =>
      match storeGet (respId resp) (requestStore h) with
      | None => Ok (ErrnoFault, h)
      | Some storedReq =>
          Ok (ErrnoSuccess, mkHost (<[respId resp := mkRequestData (fetchRequestsCounter storedReq) (Some resp)]> (requestStore h))
                                   (trace h ++ [LResponse resp]))
      end
  end.

(** [toValidatedLabels]; no labels are an empty map. *)
Definition toValidatedLabels (msg : pbEmitRequest) : string + headers := labelStrings ((λ kv, (kv.1, FromProto kv.2)) <$> emLabels msg).

Definition toEmissible (b : list byte) : string + (string * string * headers) :=
  match unmarshalEmitRequest b with
  | inl err => inl err
  | inr msg => match toValidatedLabels msg with inl err => inl err | inr validated => inr (emRequestId msg, emMessage msg, validated) end
  end.

Definition emitErr {S} (mem : list byte) (respptr resplenptr : Z) (h : S) (err : string) : answerOf S :=
  match marshalEmitError err with
  | inl _ => Ok (ErrnoFault, mem, h)
  | inr respBytes => answerWith h (writeMessage mem respBytes respptr resplenptr)
  end.

(** [createEmitFn] *)
Definition emit (mem : list byte) (respptr resplenptr msgptr msglen : Z) (h : host) : answerOf host :=
  match read mem msgptr msglen with
  | Panic => Panic
  | Err e => emitErr mem respptr resplenptr h (readErrText msgptr msglen e)
  | Ok b =>
      match toEmissible b with
      | inl err => emitErr mem respptr resplenptr h err
      | inr (reqID, msg, labels) =>
          match storeGet reqID (requestStore h) with
          | None => emitErr mem respptr resplenptr h (notFoundText reqID)
          | Some _ =>
              match Emit labels msg with
              | Some err => emitErr mem respptr resplenptr h err
              | None => Ok (ErrnoSuccess, mem, h)
              end
          end
      end
  end.
End calls.

(** *** The log function *)

(** What a call of [createLogFn]'s function does: nothing, a line, or, at level
    fatal, the end of the host's process. *)
Inductive logged :=
  | LNothing
  | LLine (level : string) (msg : string) (args : list (string * any))
  | LExit.

(** Control characters, quotes, brackets and the other characters of the regular
    expression. *)
Definition unsafeChar (c : ascii) : bool :=
  bool_decide (N_of_ascii c < 32)%N ||
  existsb (Ascii.eqb c) ["<"; ">"; "034"; "'"; "\"; "&"; "%"; "$"; ";"; ":"; "{"; "}"; "["; "]"; "/"]%char.

Fixpoint sanitize (msg : string) : string :=
  match msg with EmptyString => EmptyString | String c msg => String (if unsafeChar c then "*"%char else c) (sanitize msg) end.

Definition hasLevel (level : option any) (name : string) : bool := match level with Some (AString s) => String.eqb s name | _ => false end.

(** [unmarshalJSON] gives the fields of a JSON object. *)
Definition log (unmarshalJSON : list byte → option (list (string * any))) (mem : list byte) (ptr ptrlen : Z) : outcome WasmMemory.error logged :=
  match read mem ptr ptrlen with
  | Panic => Panic
  | Err _ => Ok LNothing
  | Ok b =>
      match unmarshalJSON b with
      | None => Ok LNothing
      | Some raw =>
          let level := mapGet raw "level" in
          match mapGet (mapDelete raw "level") "msg" with
          | Some (AString msg) =>
              let args := mapDelete (mapDelete (mapDelete raw "level") "msg") "ts" in
              let sanitizedMsg := sanitize msg in
              if hasLevel level "debug" then Ok (LLine "debug" sanitizedMsg args)
              else if hasLevel level "info" then Ok (LLine "info" sanitizedMsg args)
              else if hasLevel level "warn" then Ok (LLine "warn" sanitizedMsg args)
              else if hasLevel level "error" then Ok (LLine "error" sanitizedMsg args)
              else if hasLevel level "panic" then Panic
              else if hasLevel level "fatal" then Ok LExit
              else Ok (LLine "info" sanitizedMsg args)
          | _ => Panic                                            (* the type assertion *)
          end
      end
  end.

(** *** Configuration *)

Record ModuleConfig := mkModuleConfig {
  hasLogger : bool;
  TickInterval : Z;
  Timeout : option Z;
  MaxMemoryMBs : Z;
  MinMemoryMBs : Z;
  InitialFuel : Z;
  IsUncompressed : bool;
  cfgMaxFetchRequests : Z;
  MaxCompressedBinarySize : Z;
  MaxDecompressedBinarySize : Z;
  MaxResponseSizeBytes : Z;
  Determinism : option Z
}.

Definition defaultTickInterval : Z := 100 * 1000000.
Definition defaultTimeout : Z := 10 * 1000000000.
Definition defaultMinMemoryMBs : Z := 128.
Definition defaultMaxFetchRequests : Z := 5.
Definition defaultMaxCompressedBinarySize : Z := 20 * 1024 * 1024.
Definition defaultMaxDecompressedBinarySize : Z := 100 * 1024 * 1024.
Definition defaultMaxResponseSizeBytes : Z := 5 * 1024 * 1024.

Definition orElse (z d : Z) : Z := if decide (z = 0)%Z then d else z.

(** A [uint64] as a [float64] and back: 53 bits, half to even.  (A result of 2^64
    does not fit; Go leaves that conversion open.) *)
Definition float64Round (z : Z) : Z :=
  let e := (Z.log2 z - 52)%Z in
  if decide (e <= 0)%Z then z
  else
    let q := Z.shiftr z e in let r := (z - Z.shiftl q e)%Z in let half := (2 ^ (e - 1))%Z in
    Z.shiftl (if decide (half < r ∨ r = half ∧ Z.odd q = true)%Z then q + 1 else q)%Z e.

(** The defaults of [NewModule]. *)
Definition applyDefaults (cfg : ModuleConfig) : ModuleConfig :=
  let minMemory := orElse (MinMemoryMBs cfg) defaultMinMemoryMBs in
  mkModuleConfig (hasLogger cfg) (orElse (TickInterval cfg) defaultTickInterval) (Some (default defaultTimeout (Timeout cfg)))
    (Z.max (float64Round minMemory) (float64Round (MaxMemoryMBs cfg))) minMemory (InitialFuel cfg) (IsUncompressed cfg)
    (orElse (cfgMaxFetchRequests cfg) defaultMaxFetchRequests) (orElse (MaxCompressedBinarySize cfg) defaultMaxCompressedBinarySize)
    (orElse (MaxDecompressedBinarySize cfg) defaultMaxDecompressedBinarySize) (orElse (MaxResponseSizeBytes cfg) defaultMaxResponseSizeBytes)
    (Determinism cfg).

Inductive rerror :=
  | ErrNoLogger | ErrCompressedSize | ErrDecompress | ErrDecompressedSize
  | ErrNilRequest | ErrEmptyId | ErrAdd | ErrNoRequest | ErrNoResponse
  | ErrInvalidResponse | ErrInvalidRequest | ErrRunner (msg : string) | ErrHost | ErrGuest (text : string).

(** [WithDeterminism]: the seed is 2009-01-03T00:00:00Z in Unix seconds. *)
Definition WithDeterminism (cfg : ModuleConfig) : ModuleConfig :=
  mkModuleConfig (hasLogger cfg) (TickInterval cfg) (Timeout cfg) (MaxMemoryMBs cfg) (MinMemoryMBs cfg) (InitialFuel cfg) (IsUncompressed cfg)
    (cfgMaxFetchRequests cfg) (MaxCompressedBinarySize cfg) (MaxDecompressedBinarySize cfg) (MaxResponseSizeBytes cfg) (Some 1230940800%Z).

(** The bytes of memory and the ticks that a run gets. *)
Definition memoryLimit (cfg : ModuleConfig) : Z := wrapS 64 (wrapS 64 (MaxMemoryMBs cfg) * 1000000).
Definition epochDeadline (timeout : Z) (cfg : ModuleConfig) : Z := wrapU 64 (wrapS 64 (Z.quot timeout (TickInterval cfg))).

(** The binary that is compiled.  [decompress b n] reads at most [n] bytes of the
    decompressed stream; the limit is the maximum plus one, a [uint64] converted
    to [int64]. *)
Definition loadBinary (decompress : list byte → Z → option (list byte)) (cfg : ModuleConfig) (binary : list byte) : outcome rerror (list byte) :=
  if negb (hasLogger cfg) then Err ErrNoLogger
  else
    let cfg := applyDefaults cfg in
    let? binary :=
      if IsUncompressed cfg then Ok binary
      else if decide (MaxCompressedBinarySize cfg < Z.of_nat (length binary))%Z then Err ErrCompressedSize
      else ok_or ErrDecompress (decompress binary (wrapS 64 (wrapU 64 (MaxDecompressedBinarySize cfg + 1)))) in
    if decide (MaxDecompressedBinarySize cfg < Z.of_nat (length binary))%Z then Err ErrDecompressedSize else Ok binary.

(** *** Runs *)

Definition CodeSuccess : string := "0".
Definition CodeInvalidResponse : string := "110".
Definition CodeInvalidRequest : string := "111".
Definition CodeRunnerErr : string := "112".
Definition CodeHostErr : string := "113".

Definition containsCode (err : option string) (code : string) : bool :=
  match err with None => false | Some text => contains text ("exit status " ++ code) end.

(** The end of [Run]: the error of the guest's start function, if any, decides. *)
Definition runResult (id : string) (err : option string) (r : store) : outcome rerror (option Response) :=
  if containsCode err CodeSuccess then
    match storeGet id r with
    | None => Err ErrNoRequest
    | Some storedRequest => match response storedRequest with None => Err ErrNoResponse | Some resp => Ok (Some resp) end
    end
  else if containsCode err CodeInvalidResponse then Err ErrInvalidResponse
  else if containsCode err CodeInvalidRequest then Err ErrInvalidRequest
  else if containsCode err CodeRunnerErr then
    match storeGet id r with
    | None => Err ErrNoRequest
    | Some storedRequest => match response storedRequest with None => Panic | Some resp => Err (ErrRunner (ErrMsg resp)) end
    end
  else if containsCode err CodeHostErr then Err ErrHost
  else match err with Some text => Err (ErrGuest text) | None => Ok None end.

Definition beginRun (id : string) (h : host) : option host :=
  r ← storeAdd id (mkRequestData 0 None) (requestStore h); Some (mkHost r (trace h ++ [LAdd id])).
Definition endRun (id : string) (h : host) : host := mkHost (storeDelete id (requestStore h)) (trace h ++ [LDelete id]).

(** [Run].  [setup] is the error of marshalling the request, of instantiating the
    module or of looking up its start function, if any; [guest] is what happens to
    the host until that function returns [err]. *)
Definition run (setup : option string) (guest : host → outcome WasmMemory.error host) (request : option string) (err : option string) (h : host)
    : outcome rerror (option Response) * host :=
  match request with
  | None => (Err ErrNilRequest, h)
  | Some id =>
      if String.eqb id "" then (Err ErrEmptyId, h)
      else
        match beginRun id h with
        | None => (Err ErrAdd, h)
        | Some h =>
            match setup with Some text => (Err (ErrGuest text), endRun id h) | None =>
            match guest h with
            | Ok h => (runResult id err (requestStore h), endRun id h)
            | _ => (Panic, endRun id h)
            end end
        end
  end.

(** *** Configuration and logs: facts *)

(** Whatever the decompressor returns, no larger binary is compiled. *)
Lemma loadBinary_bounded decompress cfg b b' :
  loadBinary decompress cfg b = Ok b' → (Z.of_nat (length b') <= MaxDecompressedBinarySize (applyDefaults cfg))%Z.
Proof.
  rewrite /loadBinary. destruct (negb _); [done|]. cbv zeta. destruct (if IsUncompressed _ then _ else _) as [b1| |]; cbn [obind]; [|done|done].
  case_decide; [done|]. intros [= <-]. lia.
Qed.

(** A logged message holds none of the characters of the expression. *)
Lemma sanitize_safe msg : Forall (λ c, unsafeChar c = false) (String.list_ascii_of_string (sanitize msg)).
Proof.
  induction msg as [|c msg IH]; cbn; [constructor|]. apply Forall_cons. split; [|exact IH].
  destruct (unsafeChar c) eqn:E; [by vm_compute|exact E].
Qed.

Lemma sanitize_idempotent msg : sanitize (sanitize msg) = sanitize msg.
Proof. induction msg as [|c msg IH]; [done|]. cbn. rewrite IH. by destruct (unsafeChar c) eqn:E; rewrite ?E. Qed.

(** The deadline of a run, in ticks, is the timeout rounded down. *)
Lemma epochDeadline_timeout timeout cfg : (0 <= timeout < 2 ^ 63)%Z → (0 < TickInterval cfg)%Z →
  (epochDeadline timeout cfg * TickInterval cfg <= timeout < (epochDeadline timeout cfg + 1) * TickInterval cfg)%Z.
Proof.
  intros Ht Hi. rewrite /epochDeadline Z.quot_div_nonneg; [|lia|lia].
  assert (0 <= timeout / TickInterval cfg)%Z by (apply Z.div_pos; lia).
  assert (timeout / TickInterval cfg <= timeout)%Z by (apply Z.div_le_upper_bound; nia).
  rewrite wrapS_small; [|done|rewrite /inS; change (2 ^ (64 - 1))%Z with (2 ^ 63)%Z; lia].
  rewrite wrapU_small; [|rewrite /inU; lia]. pose proof (Z.div_mod timeout (TickInterval cfg)). pose proof (Z.mod_pos_bound timeout (TickInterval cfg)). nia.
Qed.

(** *** The store and the limit on fetches *)

Section facts.
Context `{WasmEnv} (MaxFetchRequests : Z).

(** What can happen to a module while any number of guests run, one call at a
    time; WasmCalls has the calls of guests overlap. *)
Inductive event :=
  | EBegin (id : string)
  | EEnd (id : string)
  | EFetch (mem : list byte) (respptr resplenptr reqptr reqptrlen : Z)
  | ESend (mem : list byte) (ptr ptrlen : Z)
  | EEmit (mem : list byte) (respptr resplenptr msgptr msglen : Z).

Definition hstep (h : host) (e : event) : outcome WasmMemory.error host :=
  match e with
  | EBegin id => Ok (default h (beginRun id h))
  | EEnd id => Ok (endRun id h)
  | EFetch mem respptr resplenptr reqptr reqptrlen =>
      let? r := fetch MaxFetchRequests mem respptr resplenptr reqptr reqptrlen h in Ok r.2
  | ESend mem ptr ptrlen => let? r := sendResponse mem ptr ptrlen h in Ok r.2
  | EEmit mem respptr resplenptr msgptr msglen => let? r := emit mem respptr resplenptr msgptr msglen h in Ok r.2
  end.

(** The trace decides what is stored: whether a request runs, the fetches made
    since it began, and the last response that carries its id. *)
Definition runsAfter (id : string) (b : bool) (e : entry) : bool :=
  match e with LAdd id' => bool_decide (id = id') || b | LDelete id' => negb (bool_decide (id = id')) && b | _ => b end.
Definition fetchesAfter (id : string) (n : Z) (e : entry) : Z :=
  match e with LAdd id' => if decide (id = id') then 0%Z else n | LFetch id' => if decide (id = id') then (n + 1)%Z else n | _ => n end.
Definition responseAfter (id : string) (o : option Response) (e : entry) : option Response :=
  match e with LAdd id' => if decide (id = id') then None else o | LResponse r => if decide (id = respId r) then Some r else o | _ => o end.

Definition running (id : string) (tr : list entry) : bool := foldl (runsAfter id) false tr.
Definition fetches (id : string) (tr : list entry) : Z := foldl (fetchesAfter id) 0%Z tr.
Definition responded (id : string) (tr : list entry) : option Response := foldl (responseAfter id) None tr.

Definition specStore (id : string) (tr : list entry) : option RequestData :=
  if running id tr then Some (mkRequestData (fetches id tr) (responded id tr)) else None.

Record hostInv (h : host) : Prop := {
  hi_store id : requestStore h !! id = specStore id (trace h);
  hi_fetches id : (0 <= fetches id (trace h) <= Z.max 0 MaxFetchRequests)%Z;
  hi_responded id r : responded id (trace h) = Some r → respId r = id
}.

Lemma trace_snoc id tr e :
  running id (tr ++ [e]) = runsAfter id (running id tr) e ∧ fetches id (tr ++ [e]) = fetchesAfter id (fetches id tr) e ∧
  responded id (tr ++ [e]) = responseAfter id (responded id tr) e.
Proof. by rewrite /running /fetches /responded !foldl_app. Qed.

(** One more entry, and the store that goes with it. *)
Lemma hostInv_snoc h r e :
  hostInv h → (∀ id, r !! id = specStore id (trace h ++ [e])) →
  (∀ id, (0 <= fetches id (trace h ++ [e]) <= Z.max 0 MaxFetchRequests)%Z) → hostInv (mkHost r (trace h ++ [e])).
Proof.
  intros [Hs Hf Hr] Hst Hfe. constructor; cbn [requestStore trace]; [done|done|]. intros id resp. destruct (trace_snoc id (trace h) e) as (_ & _ & ->).
  destruct e as [id'|id'|r'|id']; cbn; try apply Hr; case_decide; try done; [by apply Hr|by intros [= <-]|by apply Hr].
Qed.

Lemma begin_inv id h : hostInv h → hostInv (default h (beginRun id h)).
Proof.
  intros Hinv. rewrite /beginRun /storeAdd. destruct (requestStore h !! id) eqn:E; [done|]. cbn. apply hostInv_snoc; [done|..].
  - intros id'. destruct (trace_snoc id' (trace h) (LAdd id)) as (H1 & H2 & H3). rewrite /specStore H1 H2 H3. cbn.
    destruct (decide (id' = id)) as [->|Hne].
    + rewrite lookup_insert_eq bool_decide_true //.
    + rewrite lookup_insert_ne // bool_decide_false //. apply (hi_store _ Hinv).
  - intros id'. destruct (trace_snoc id' (trace h) (LAdd id)) as (_ & -> & _). cbn. case_decide; [lia|apply (hi_fetches _ Hinv)].
Qed.

Lemma end_inv id h : hostInv h → hostInv (endRun id h).
Proof.
  intros Hinv. apply hostInv_snoc; [done|..].
  - intros id'. destruct (trace_snoc id' (trace h) (LDelete id)) as (H1 & H2 & H3). rewrite /specStore H1 H2 H3 /storeDelete. cbn.
    destruct (decide (id' = id)) as [->|Hne].
    + rewrite lookup_delete_eq bool_decide_true //.
    + rewrite lookup_delete_ne // bool_decide_false //. apply (hi_store _ Hinv).
  - intros id'. destruct (trace_snoc id' (trace h) (LDelete id)) as (_ & -> & _). apply (hi_fetches _ Hinv).
Qed.

Lemma count_inv id rd h : hostInv h → requestStore h !! id = Some rd → (fetchRequestsCounter rd < MaxFetchRequests)%Z → hostInv (countFetch id rd h).
Proof.
  intros Hinv Hrd Hlt. pose proof (hi_store _ Hinv id) as Hs. rewrite Hrd /specStore in Hs.
  destruct (running id (trace h)) eqn:Er; [|done]. injection Hs as ->. cbn in Hlt. pose proof (hi_fetches _ Hinv id) as Hb. apply hostInv_snoc; [done|..].
  - intros id'. destruct (trace_snoc id' (trace h) (LFetch id)) as (H1 & H2 & H3). rewrite /specStore H1 H2 H3. cbn.
    destruct (decide (id' = id)) as [->|Hne]; [by rewrite lookup_insert_eq Er|]. rewrite lookup_insert_ne //. apply (hi_store _ Hinv).
  - intros id'. destruct (trace_snoc id' (trace h) (LFetch id)) as (_ & -> & _). cbn. case_decide as He; [subst; lia|apply (hi_fetches _ Hinv)].
Qed.

Lemma response_inv resp rd h : hostInv h → requestStore h !! respId resp = Some rd →
  hostInv (mkHost (<[respId resp := mkRequestData (fetchRequestsCounter rd) (Some resp)]> (requestStore h)) (trace h ++ [LResponse resp])).
Proof.
  intros Hinv Hrd. pose proof (hi_store _ Hinv (respId resp)) as Hs. rewrite Hrd /specStore in Hs.
  destruct (running (respId resp) (trace h)) eqn:Er; [|done]. injection Hs as ->. apply hostInv_snoc; [done|..].
  - intros id'. destruct (trace_snoc id' (trace h) (LResponse resp)) as (H1 & H2 & H3). rewrite /specStore H1 H2 H3. cbn.
    destruct (decide (id' = respId resp)) as [->|Hne]; [by rewrite lookup_insert_eq Er|]. rewrite lookup_insert_ne //. apply (hi_store _ Hinv).
  - intros id'. destruct (trace_snoc id' (trace h) (LResponse resp)) as (_ & -> & _). apply (hi_fetches _ Hinv).
Qed.
(** The functions that write an answer leave the host alone. *)
Lemma answerWith_host {S} (h : S) m r : answerWith h m = Ok r → r.2 = h.
Proof. rewrite /answerWith. destruct m; cbn; congruence || (by intros [= <-]). Qed.

Lemma fetchErr_host {S} mem p l (h : S) err r : fetchErr mem p l h err = Ok r → r.2 = h.
Proof. rewrite /fetchErr. case_match; [by intros [= <-]|apply answerWith_host]. Qed.

Lemma emitErr_host {S} mem p l (h : S) err r : emitErr mem p l h err = Ok r → r.2 = h.
Proof. rewrite /emitErr. case_match; [by intros [= <-]|apply answerWith_host]. Qed.

Lemma fetchRespond_host {S} mem p l (h : S) resp r : fetchRespond mem p l h resp = Ok r → r.2 = h.
Proof.
  rewrite /fetchRespond. case_match; [|apply fetchErr_host|done]. case_match; [apply fetchErr_host|].
  destruct (write _ _ _ _); cbn; try done. case_decide; [apply fetchErr_host|].
  destruct (writeUInt32 _ _ _); cbn; try done. case_decide; [apply fetchErr_host|by intros [= <-]].
Qed.

Lemma fetchPerform_host {S} n mem p l (h : S) req r : fetchPerform n mem p l h req = Ok r → r.2 = h.
Proof.
  rewrite /fetchPerform. destruct (toSdkReq req) as [sdkReq md].
  destruct (Fetch _ _ _) as [|[|]]; [apply fetchErr_host|apply fetchRespond_host|done].
Qed.

(** A call of fetch leaves the host alone or counts one fetch of a running
    request that has not used up its fetches. *)
Lemma fetch_host mem respptr resplenptr reqptr reqptrlen h r :
  fetch MaxFetchRequests mem respptr resplenptr reqptr reqptrlen h = Ok r →
  r.2 = h ∨ ∃ id rd, requestStore h !! id = Some rd ∧ (fetchRequestsCounter rd < MaxFetchRequests)%Z ∧ r.2 = countFetch id rd h.
Proof.
  rewrite /fetch. destruct (fetchRequest mem reqptr reqptrlen) as [[err|req]| |]; cbn [obind]; [intros; left; by eapply fetchErr_host| |done|done].
  destruct (storeGet (pbId req) (requestStore h)) as [rd|] eqn:Erd; [|intros; left; by eapply fetchErr_host].
  destruct (limited MaxFetchRequests rd) eqn:El; [intros; left; by eapply fetchErr_host|]. cbv zeta. intros Hr. right. exists (pbId req), rd.
  split; [done|]. apply bool_decide_eq_false in El. split; [lia|]. by eapply fetchPerform_host.
Qed.

(** A call of sendResponse leaves the host alone or stores a response. *)
Lemma sendResponse_host mem ptr ptrlen h r :
  sendResponse mem ptr ptrlen h = Ok r →
  r = (ErrnoFault, h) ∨ ∃ resp rd, requestStore h !! respId resp = Some rd ∧
    r = (ErrnoSuccess, mkHost (<[respId resp := mkRequestData (fetchRequestsCounter rd) (Some resp)]> (requestStore h)) (trace h ++ [LResponse resp])).
Proof.
  rewrite /sendResponse. destruct (responseAt mem ptr ptrlen) as [[resp|]| |]; cbn [obind]; [|intros [= <-]; by left|done|done].
  destruct (storeGet (respId resp) (requestStore h)) as [rd|] eqn:Erd; intros [= <-]; [right|by left]. by exists resp, rd.
Qed.

Lemma emit_host mem respptr resplenptr msgptr msglen h r : emit mem respptr resplenptr msgptr msglen h = Ok r → r.2 = h.
Proof.
  rewrite /emit. destruct (read mem msgptr msglen) as [b| |]; [|apply emitErr_host|done].
  destruct (toEmissible b) as [|[[reqID msg] labels]]; [apply emitErr_host|]. case_match; [|apply emitErr_host].
  case_match; [apply emitErr_host|by intros [= <-]].
Qed.

(** What one event adds to the trace. *)
Inductive adds : event → list entry → Prop :=
  | AddsNone e : (∀ id, e ≠ EEnd id) → adds e []
  | AddsBegin id : adds (EBegin id) [LAdd id]
  | AddsEnd id : adds (EEnd id) [LDelete id]
  | AddsFetch mem p l q k id : adds (EFetch mem p l q k) [LFetch id]
  | AddsResponse mem p l resp : adds (ESend mem p l) [LResponse resp].

(** [run] reports that a request it is asked to begin is already running, so
    that a second [LAdd] of a running request is never recorded. *)
Lemma hstep_inv h e h' : hostInv h → hstep h e = Ok h' →
  hostInv h' ∧ ∃ new, adds e new ∧ trace h' = trace h ++ new ∧ ∀ id, running id (trace h) = true → LAdd id ∉ new.
Proof.
  intros Hinv. destruct e as [id|id|mem p l q k|mem p l|mem p l q k]; cbn.
  - intros [= <-]. split; [by apply begin_inv|]. rewrite /beginRun /storeAdd. pose proof (hi_store _ Hinv id) as Hs. rewrite /specStore in Hs.
    destruct (requestStore h !! id) eqn:E; cbn.
    + exists []. rewrite app_nil_r. split; [by constructor|]. split; [done|]. intros ? _. apply not_elem_of_nil.
    + exists [LAdd id]. split; [by constructor|]. split; [done|]. intros id' Hr. rewrite list_elem_of_singleton. intros [= ->]. by rewrite Hr in Hs.
  - intros [= <-]. split; [by apply end_inv|]. exists [LDelete id]. split; [by constructor|]. split; [done|]. intros id' _. by rewrite list_elem_of_singleton.
  - destruct (fetch _ _ _ _ _ _ _) as [r| |] eqn:E; cbn; [|done|done]. intros [= <-].
    destruct (fetch_host _ _ _ _ _ _ _ E) as [->|(id & rd & H1 & H2 & ->)].
    + split; [done|]. exists []. rewrite app_nil_r. split; [by constructor|]. split; [done|]. intros ? _. apply not_elem_of_nil.
    + split; [by apply count_inv|]. exists [LFetch id]. split; [by constructor|]. split; [done|]. intros id' _. by rewrite list_elem_of_singleton.
  - destruct (sendResponse _ _ _ _) as [r| |] eqn:E; cbn; [|done|done]. intros [= <-].
    destruct (sendResponse_host _ _ _ _ _ E) as [->|(resp & rd & H1 & ->)].
    + split; [done|]. exists []. rewrite app_nil_r. split; [by constructor|]. split; [done|]. intros ? _. apply not_elem_of_nil.
    + split; [by apply response_inv|]. exists [LResponse resp]. split; [by constructor|]. split; [done|]. intros id' _. by rewrite list_elem_of_singleton.
  - destruct (emit _ _ _ _ _ _) as [r| |] eqn:E; cbn; [|done|done]. intros [= <-]. rewrite (emit_host _ _ _ _ _ _ _ E).
    split; [done|]. exists []. rewrite app_nil_r. split; [by constructor|]. split; [done|]. intros ? _. apply not_elem_of_nil.
Qed.

Definition hsteps (h : host) (es : list event) : outcome WasmMemory.error host := ofold hstep h es.

Lemma hsteps_inv es : ∀ h h', hostInv h → hsteps h es = Ok h' → hostInv h'.
Proof.
  induction es as [|e es IH]; intros h h' Hinv; cbn; [by intros [= <-]|]. rewrite /hsteps /= in IH |- *.
  destruct (hstep h e) as [h1| |] eqn:E; cbn; [|done|done]. apply IH. by eapply hstep_inv.
Qed.

Definition freshHost : host := mkHost ∅ [].

Lemma fresh_inv : hostInv freshHost.
Proof. constructor; cbn; [|lia|done]. intros id. by rewrite lookup_empty. Qed.

(** The events of other runs, and of this run's guest, do not end the run. *)
Definition notEnded (id : string) (es : list event) : Prop := EEnd id ∉ es.

Lemma running_kept id new : LDelete id ∉ new → ∀ b, b = true → foldl (runsAfter id) b new = true.
Proof.
  induction new as [|e new IH]; intros Hn b ->; [done|]. cbn. apply IH; [by intros ?; apply Hn, list_elem_of_further|].
  destruct e; cbn; try done; [by rewrite orb_true_r|]. rewrite bool_decide_false //. intros ->. apply Hn, list_elem_of_here.
Qed.

Lemma adds_no_delete e new id : adds e new → e ≠ EEnd id → LDelete id ∉ new.
Proof. destruct 1; intros He; rewrite ?list_elem_of_singleton; try done; [apply not_elem_of_nil|]. by intros [= ->]. Qed.

(** While a request runs, the trace grows by entries that neither begin nor end it. *)
Lemma hsteps_running id es : ∀ h h', hostInv h → notEnded id es → running id (trace h) = true → (hsteps h es = Ok h') →
  ∃ new, trace h' = trace h ++ new ∧ (LAdd id ∉ new) ∧ (LDelete id ∉ new).
Proof.
  rewrite /notEnded /hsteps. induction es as [|e es IH]; intros h h' Hinv Hne Hr; cbn.
  - intros [= <-]. exists []. rewrite app_nil_r. split_and!; [done|apply not_elem_of_nil..].
  - destruct (hstep h e) as [h1| |] eqn:E; cbn; [|done|done]. intros Hes. apply not_elem_of_cons in Hne as [He Hne].
    destruct (hstep_inv _ _ _ Hinv E) as (Hinv1 & new1 & Ha & Ht & Hadd).
    assert (LDelete id ∉ new1) as Hd by (by eapply adds_no_delete).
    destruct (IH h1 h' Hinv1 Hne) as (new2 & Ht2 & Ha2 & Hd2); [|done|].
    { rewrite Ht /running foldl_app. by apply running_kept. }
    exists (new1 ++ new2). rewrite Ht2 Ht -app_assoc. split; [done|]. rewrite !not_elem_of_app. auto.
Qed.

(** The responses in a part of the trace that carry an id. *)
Definition responsesOf (id : string) (new : list entry) : list Response :=
  omap (λ e, match e with LResponse r => if decide (id = respId r) then Some r else None | _ => None end) new.

Lemma responded_last id tr new : LAdd id ∉ new → responded id (tr ++ [LAdd id] ++ new) = last (responsesOf id new).
Proof.
  induction new as [|e new IH] using rev_ind; intros Hn.
  - rewrite app_nil_r. destruct (trace_snoc id tr (LAdd id)) as (_ & _ & ->). cbn. by rewrite decide_True.
  - apply not_elem_of_app in Hn as [Hn He]. rewrite !app_assoc. destruct (trace_snoc id ((tr ++ [LAdd id]) ++ new) e) as (_ & _ & ->).
    rewrite -app_assoc IH // /responsesOf omap_app last_app. destruct e; cbn; try done; case_decide; try done.
    subst. exfalso. apply He, list_elem_of_here.
Qed.

Lemma begin_running id h : hostInv h → running id (trace h) = false →
  ∃ h1, beginRun id h = Some h1 ∧ trace h1 = trace h ++ [LAdd id] ∧ hostInv h1 ∧ running id (trace h1) = true.
Proof.
  intros Hinv Hr. pose proof (begin_inv id h Hinv) as Hb. rewrite /beginRun /storeAdd (hi_store _ Hinv id) /specStore Hr in Hb |- *. cbn in *.
  eexists. split; [done|]. split; [done|]. split; [done|]. destruct (trace_snoc id (trace h) (LAdd id)) as (H1 & _). cbn [trace]. rewrite H1.
  cbn. by rewrite bool_decide_true.
Qed.

(** What [Run] answers when [resps] are the responses sent during the run. *)
Definition answerOfRun (err : option string) (resps : list Response) : outcome rerror (option Response) :=
  if containsCode err CodeSuccess then match last resps with Some resp => Ok (Some resp) | None => Err ErrNoResponse end
  else if containsCode err CodeInvalidResponse then Err ErrInvalidResponse
  else if containsCode err CodeInvalidRequest then Err ErrInvalidRequest
  else if containsCode err CodeRunnerErr then match last resps with Some resp => Err (ErrRunner (ErrMsg resp)) | None => Panic end
  else if containsCode err CodeHostErr then Err ErrHost
  else match err with Some text => Err (ErrGuest text) | None => Ok None end.

(** C16: a run answers with the last response sent for its id while it ran, by its
    own guest or by another (the host trusts the id in the message), and leaves
    nothing of the request in the store; a guest that returns without an exit
    status gives neither a response nor an error, and the exit status of a failed
    runner without a response is a panic of the host.  An id that is already
    running is refused, and nothing changes. *)
Theorem run_answers es0 h id es err : hsteps freshHost es0 = Ok h → id ≠ "" → notEnded id es →
  let result := run None (λ h, hsteps h es) (Some id) err h in
  if running id (trace h) then result = (Err ErrAdd, h)
  else
    ∀ h1, beginRun id h = Some h1 → ∀ h2, hsteps h1 es = Ok h2 →
    ∃ new, trace result.2 = trace h ++ [LAdd id] ++ new ++ [LDelete id] ∧
      result.1 = answerOfRun err (responsesOf id new) ∧ requestStore result.2 !! id = None.
Proof.
  intros Hes0 Hid Hne. assert (hostInv h) as Hinv by (eapply hsteps_inv; [apply fresh_inv|done]).
  cbv zeta. rewrite /run. destruct (String.eqb_spec id "") as [|_]; [done|]. destruct (running id (trace h)) eqn:Er.
  - by rewrite /beginRun /storeAdd (hi_store _ Hinv id) /specStore Er.
  - intros h1 Hb h2 Hh2. destruct (begin_running id h Hinv Er) as (h1' & Hb' & Ht1 & Hinv1 & Hr1). rewrite Hb in Hb'. injection Hb' as <-.
    rewrite Hb Hh2. cbn [fst snd]. destruct (hsteps_running id es h1 h2 Hinv1 Hne Hr1 Hh2) as (new & Ht & Ha & Hd).
    pose proof (hsteps_inv _ _ _ Hinv1 Hh2) as Hinv2. exists new. split; [by rewrite /= Ht Ht1 -!app_assoc|].
    split; [|by rewrite /= /storeDelete lookup_delete_eq].
    pose proof (hi_store _ Hinv2 id) as Hs. rewrite /specStore Ht Ht1 -app_assoc responded_last // in Hs.
    assert (running id (trace h ++ [LAdd id] ++ new) = true) as Hrun.
    { rewrite app_assoc -Ht1 /running foldl_app. by apply running_kept. }
    rewrite Hrun in Hs. by rewrite /runResult /answerOfRun /storeGet Hs.
Qed.

End facts.

(** *** Witnesses *)

(** A host whose messages are single bytes: request 1 is a fetch for run a, and
    response 2 is one of run a. *)
#[local] Instance toyEnv : WasmEnv := {
  marshalFetchRequest _ := inl "";
  unmarshalFetchRequest bs := match bs with [x01] => inr (mkPbFetchRequest "url" "GET" [] [] 0 "a" None 0) | _ => inl "bad" end;
  marshalFetchResponse _ := inr [x07];
  unmarshalFetchResponse _ := inl "";
  unmarshalResponse bs := match bs with [x02] => inr (mkResponse "a" "" [x09]) | _ => inl "bad" end;
  marshalEmitError _ := inr [x08];
  unmarshalEmitRequest _ := inl "bad";
  labelStrings _ := inr [];
  Fetch _ _ _ := inr (Some (mkFetchResponse false "" 200 [] []));
  Emit _ _ := None
}.

Definition toyMemory : list byte := [x01; x02; x00; x00; x00; x00; x00; x00].
Definition toyCalls : list event := [EFetch toyMemory 2 4 0 1; EFetch toyMemory 2 4 0 1; ESend toyMemory 1 1].

Lemma run_answers_witness :
  let result := run None (λ h, hsteps 1 h toyCalls) (Some "a") (Some "wasi: exit status 0") freshHost in
  ∃ new, trace result.2 = [LAdd "a"] ++ new ++ [LDelete "a"] ∧
    result.1 = answerOfRun (Some "wasi: exit status 0") (responsesOf "a" new) ∧ requestStore result.2 !! "a" = None.
Proof.
  refine (run_answers 1 [] freshHost "a" toyCalls (Some "wasi: exit status 0") eq_refl _ _ _ _ _ _).
  - done.
  - rewrite /notEnded /toyCalls !not_elem_of_cons. split_and!; [done..|apply not_elem_of_nil].
  - vm_compute. reflexivity.
  - vm_compute. reflexivity.
Defined.

Lemma run_answers_example :
  (run None (λ h, hsteps 1 h toyCalls) (Some "a") (Some "wasi: exit status 0") freshHost).1 = Ok (Some (mkResponse "a" "" [x09])).
Proof. vm_compute. reflexivity. Qed.
End WasmHost.
