(* ===== verification/WasmCalls.v ===== *)
(** [src/pkg/workflows/wasm/host/module.go]: the calls of guests that run at the
    same time.

    The store's map is guarded by its mutex, but a request's data is not: a host
    function gets a pointer under the lock and then reads and writes through
    it.  Here each such access is a transition of its own, so that the calls of
    guests interleave between the check of the fetch counter, the load
    and the store of its increment, the fetch, and the assignment of a response;
    a pointer that a call has got outlives the removal of its request. *)

From S2P Require Import Prelude GoBytes GoStrings Values WasmMemory WasmHost.

Module WasmCalls.
Import WasmMemory WasmHost.

(** *** State *)

(** What happened, in order: a request began with a new object; a guest's
    fetch got an object; its fetch was performed; a response was assigned; a
    request ended. *)
Inductive entry :=
  | LAdd (id : string) (p : nat)
  | LGet (t p : nat)
  | LFetch (t p : nat)
  | LResponse (p : nat) (r : Response)
  | LDelete (id : string).

(** The arguments of a fetch and the request it has read. *)
Record call := mkCall { callMem : list byte; callRespptr : Z; callResplenptr : Z; callReq : pbFetchRequest }.

(** What a guest's goroutine does next: code of the guest, or an access of a host
    function through the pointer [p]. *)
Inductive pc :=
  | InGuest
  | FetchCheck (p : nat) (c : call)
  | FetchLoad (p : nat) (c : call)
  | FetchStore (p : nat) (v : Z) (c : call)
  | FetchPerform (p : nat) (c : call)
  | SendStore (p : nat) (resp : Response).

(** The objects that the pointers name, the store's map, and the goroutines that
    run a request. *)
Record state := mkState { objects : list RequestData; byId : gmap string nat; threads : gmap nat (string * pc); calls : list entry }.

Definition fresh : state := mkState [] ∅ ∅ [].

Definition setPc (t : nat) (id : string) (c : pc) (s : state) : state := mkState (objects s) (byId s) (<[t := (id, c)]> (threads s)) (calls s).
Definition record (e : entry) (s : state) : state := mkState (objects s) (byId s) (threads s) (calls s ++ [e]).

(** An assignment of a field through a pointer. *)
Definition setCounter (v : Z) (rd : RequestData) : RequestData := mkRequestData v (response rd).
Definition setResponse (resp : Response) (rd : RequestData) : RequestData := mkRequestData (fetchRequestsCounter rd) (Some resp).
Definition assign (p : nat) (f : RequestData → RequestData) (s : state) : state := mkState (alter f p (objects s)) (byId s) (threads s) (calls s).

(** The store as one sees it at rest. *)
Definition view (s : state) : WasmHost.store := omap (λ p, objects s !! p) (byId s).

(** *** Events *)

Inductive hostCall :=
  | CFetch (mem : list byte) (respptr resplenptr reqptr reqptrlen : Z)
  | CSend (mem : list byte) (ptr ptrlen : Z)
  | CEmit (mem : list byte) (respptr resplenptr msgptr msglen : Z).

Inductive event :=
  | Begin (t : nat) (id : string)
  | Call (t : nat) (c : hostCall)
  | Step (t : nat)
  | End (t : nat).

Section calls.
Context `{WasmEnv} (MaxFetchRequests : Z).

(** The deferred removal of a run's request. *)
Definition endRun (t : nat) (id : string) (s : state) : state :=
  record (LDelete id) (mkState (objects s) (delete id (byId s)) (delete t (threads s)) (calls s)).

(** A host function returns to the guest; a panic ends the run. *)
Definition answered {S} (t : nat) (id : string) (r : outcome herror S) (s : state) : state :=
  match r with Panic => endRun t id (setPc t id InGuest s) | _ => setPc t id InGuest s end.

(** [Run] up to the guest's start function. *)
Definition begin (t : nat) (id : string) (s : state) : state :=
  if String.eqb id "" then s
  else
    match threads s !! t, byId s !! id with
    | None, None =>
        let p := length (objects s) in
        record (LAdd id p) (mkState (objects s ++ [mkRequestData 0 None]) (<[id := p]> (byId s)) (<[t := (id, InGuest)]> (threads s)) (calls s))
    | _, _ => s
    end.

(** A host function up to and with [requestStore.get]; [emit] does not access
    the object, so that it is one transition. *)
Definition enter (t : nat) (id : string) (c : hostCall) (s : state) : state :=
  match c with
  | CFetch mem respptr resplenptr reqptr reqptrlen =>
      match fetchRequest mem reqptr reqptrlen with
      | Ok (inr req) =>
          match byId s !! pbId req with
          | Some p => record (LGet t p) (setPc t id (FetchCheck p (mkCall mem respptr resplenptr req)) s)
          | None => answered t id (fetchErr mem respptr resplenptr () (notFoundText (pbId req))) s
          end
      | Ok (inl err) => answered t id (fetchErr mem respptr resplenptr () err) s
      | Err e => answered t id (Err e : outcome herror ()) s
      | Panic => answered t id (Panic : outcome herror ()) s
      end
  | CSend mem ptr ptrlen =>
      match responseAt mem ptr ptrlen with
      | Ok (Some resp) => match byId s !! respId resp with Some p => setPc t id (SendStore p resp) s | None => s end
      | Panic => answered t id (Panic : outcome herror ()) s
      | _ => s
      end
  | CEmit mem respptr resplenptr msgptr msglen => answered t id (emit mem respptr resplenptr msgptr msglen (mkHost (view s) [])) s
  end.

(** The next access of a host function. *)
Definition advance (t : nat) (id : string) (at_ : pc) (s : state) : state :=
  match at_ with
  | InGuest => s
  | FetchCheck p c =>
      match objects s !! p with
      | Some storedRequest =>
          if limited MaxFetchRequests storedRequest then answered t id (fetchErr (callMem c) (callRespptr c) (callResplenptr c) () limitText) s
          else setPc t id (FetchLoad p c) s
      | None => s
      end
  | FetchLoad p c =>
      match objects s !! p with Some storedRequest => setPc t id (FetchStore p (fetchRequestsCounter storedRequest) c) s | None => s end
  | FetchStore p v c => setPc t id (FetchPerform p c) (assign p (setCounter (v + 1)) s)
  | FetchPerform p c =>
      let s := record (LFetch t p) s in
      answered t id (fetchPerform (length (calls s)) (callMem c) (callRespptr c) (callResplenptr c) () (callReq c)) s
  | SendStore p resp => record (LResponse p resp) (setPc t id InGuest (assign p (setResponse resp) s))
  end.

Definition exec (s : state) (e : event) : state :=
  match e with
  | Begin t id => begin t id s
  | Call t c => match threads s !! t with Some (id, InGuest) => enter t id c s | _ => s end
  | Step t => match threads s !! t with Some (id, at_) => advance t id at_ s | None => s end
  | End t => match threads s !! t with Some (id, InGuest) => endRun t id s | _ => s end
  end.

Definition execs (s : state) (es : list event) : state := foldl exec s es.
End calls.

(** *** Transitions *)

Section facts.
Context `{WasmEnv} (MaxFetchRequests : Z).

(** A move of a goroutine that leaves the shared data alone. *)
Inductive moves (s : state) : pc → pc → Prop :=
  | MvStay c : moves s c c
  | MvRefuse p c : moves s (FetchCheck p c) InGuest
  | MvPass p c rd : objects s !! p = Some rd → limited MaxFetchRequests rd = false → moves s (FetchCheck p c) (FetchLoad p c)
  | MvLoad p c rd : objects s !! p = Some rd → moves s (FetchLoad p c) (FetchStore p (fetchRequestsCounter rd) c)
  | MvSend p resp : byId s !! respId resp = Some p → moves s InGuest (SendStore p resp).

Inductive step (s : state) : state → Prop :=
  | StBegin t id : threads s !! t = None → byId s !! id = None →
      step s (record (LAdd id (length (objects s)))
        (mkState (objects s ++ [mkRequestData 0 None]) (<[id := length (objects s)]> (byId s)) (<[t := (id, InGuest)]> (threads s)) (calls s)))
  | StEnd t id : threads s !! t = Some (id, InGuest) → step s (endRun t id s)
  | StMove t id c c' : threads s !! t = Some (id, c) → moves s c c' → step s (setPc t id c' s)
  | StGet t id i p c : threads s !! t = Some (id, InGuest) → byId s !! i = Some p → step s (record (LGet t p) (setPc t id (FetchCheck p c) s))
  | StCount t id p v c : threads s !! t = Some (id, FetchStore p v c) → step s (setPc t id (FetchPerform p c) (assign p (setCounter (v + 1)) s))
  | StPerform t id p c : threads s !! t = Some (id, FetchPerform p c) → step s (setPc t id InGuest (record (LFetch t p) s))
  | StRespond t id p resp : threads s !! t = Some (id, SendStore p resp) →
      step s (record (LResponse p resp) (setPc t id InGuest (assign p (setResponse resp) s))).

Lemma setPc_twice t id c c' s : setPc t id c (setPc t id c' s) = setPc t id c s.
Proof. rewrite /setPc /=. by rewrite insert_insert_eq. Qed.

(** Answering is one move, and after a panic the end of the run. *)
Lemma answered_steps {S} t id (r : outcome herror S) s s' :
  (∀ s1, s1 = setPc t id InGuest s → step s' s1) → rtc step s' (answered t id r s).
Proof.
  intros Hs. specialize (Hs _ eq_refl). rewrite /answered. destruct r; try (by apply rtc_once). eapply rtc_l; [exact Hs|].
  apply rtc_once, StEnd. by rewrite /setPc /= lookup_insert_eq.
Qed.

Lemma enter_steps t id c s : threads s !! t = Some (id, InGuest) → rtc step s (enter t id c s).
Proof.
  intros Ht. assert (∀ {S} (r : outcome herror S), rtc step s (answered t id r s)) as Hans.
  { intros S r. apply answered_steps. intros s1 ->. eapply StMove; [done|constructor]. }
  destruct c as [mem p l q k|mem p l|mem p l q k]; cbn; [| |apply Hans].
  - destruct (fetchRequest mem q k) as [[err|req]|e|]; [apply Hans| |apply (Hans unit (Err e))|apply (Hans unit Panic)].
    destruct (byId s !! pbId req) eqn:E; [|apply Hans]. by eapply rtc_once, StGet.
  - destruct (responseAt mem p l) as [[resp|]| |]; try done; [|apply (Hans unit Panic)].
    destruct (byId s !! respId resp) eqn:E; [|done]. by eapply rtc_once, StMove; [|econstructor].
Qed.

Lemma advance_steps t id at_ s : threads s !! t = Some (id, at_) → rtc step s (advance MaxFetchRequests t id at_ s).
Proof.
  intros Ht. destruct at_ as [|p c|p c|p v c|p c|p resp]; cbn [advance].
  - done.
  - destruct (objects s !! p) as [rd|] eqn:E; [|done]. destruct (limited _ rd) eqn:El.
    + apply answered_steps. intros s1 ->. eapply StMove; [done|constructor].
    + by eapply rtc_once, StMove; [|econstructor].
  - destruct (objects s !! p) as [rd|] eqn:E; [|done]. by eapply rtc_once, StMove; [|econstructor].
  - by eapply rtc_once, StCount.
  - apply answered_steps. intros s1 ->. by eapply StPerform.
  - by eapply rtc_once, StRespond.
Qed.

Lemma exec_steps s e : rtc step s (exec MaxFetchRequests s e).
Proof.
  destruct e as [t id|t c|t|t]; cbn.
  - rewrite /begin. destruct (String.eqb id ""); [done|]. destruct (threads s !! t) eqn:Et; [done|]. destruct (byId s !! id) eqn:Ei; [done|].
    by apply rtc_once, StBegin.
  - destruct (threads s !! t) as [[id []]|] eqn:Et; try done. by apply enter_steps.
  - destruct (threads s !! t) as [[id at_]|] eqn:Et; [|done]. by apply advance_steps.
  - destruct (threads s !! t) as [[id []]|] eqn:Et; try done. by apply rtc_once, StEnd.
Qed.

Lemma execs_steps es s : rtc step s (execs MaxFetchRequests s es).
Proof.
  revert s. induction es as [|e es IH]; intros s; [done|]. etransitivity; [apply exec_steps|apply IH].
Qed.

(** An invariant of the transitions holds after any events. *)
Lemma execs_invariant (I : state → Prop) es : I fresh → (∀ s s', I s → step s s' → I s') → I (execs MaxFetchRequests fresh es).
Proof.
  intros H0 Hstep. assert (∀ s s', rtc step s s' → I s → I s') as Hr by (induction 1; eauto). by eapply Hr, H0; apply execs_steps.
Qed.

(** *** What the trace says *)

(** The object of a running request, the responses assigned to an object, and the
    fetches performed through it. *)
Definition currentAfter (id : string) (o : option nat) (e : entry) : option nat :=
  match e with LAdd id' p => if decide (id' = id) then Some p else o | LDelete id' => if decide (id' = id) then None else o | _ => o end.
Definition current (id : string) (l : list entry) : option nat := foldl (currentAfter id) None l.
Definition responsesTo (p : nat) (l : list entry) : list Response :=
  omap (λ e, match e with LResponse p' r => if decide (p' = p) then Some r else None | _ => None end) l.
Definition fetchersOf (p : nat) (l : list entry) : list nat :=
  omap (λ e, match e with LFetch t p' => if decide (p' = p) then Some t else None | _ => None end) l.
Definition performed (p : nat) (l : list entry) : Z := Z.of_nat (length (fetchersOf p l)).

Lemma current_snoc id l e : current id (l ++ [e]) = currentAfter id (current id l) e.
Proof. by rewrite /current foldl_app. Qed.
Lemma responsesTo_snoc p l e : responsesTo p (l ++ [e]) = responsesTo p l ++ responsesTo p [e].
Proof. by rewrite /responsesTo omap_app. Qed.
Lemma performed_snoc p l e : performed p (l ++ [e]) = (performed p l + performed p [e])%Z.
Proof. rewrite /performed /fetchersOf omap_app length_app. lia. Qed.

(** *** Invariants *)

(** The map holds exactly the requests being run, each by one goroutine. *)
Record storeInv (s : state) : Prop := {
  si_current id : byId s !! id = current id (calls s);
  si_running id : is_Some (byId s !! id) ↔ ∃ t c, threads s !! t = Some (id, c);
  si_one t1 t2 id c1 c2 : threads s !! t1 = Some (id, c1) → threads s !! t2 = Some (id, c2) → t1 = t2
}.

(** The store's map and the ids of the goroutines stay, and the new entry neither begins
    nor ends a request. *)
Lemma storeInv_frame s objs' t id c c' l :
  storeInv s → threads s !! t = Some (id, c) → (∀ i o, foldl (currentAfter i) o l = o) →
  storeInv (mkState objs' (byId s) (<[t := (id, c')]> (threads s)) (calls s ++ l)).
Proof.
  intros [Hc Hr Ho] Ht Hl. assert (∀ t' i, (∃ c, <[t := (id, c')]> (threads s) !! t' = Some (i, c)) ↔ ∃ c, threads s !! t' = Some (i, c)) as Hids.
  { intros t' i. destruct (decide (t = t')) as [<-|Hne]; [rewrite lookup_insert_eq Ht|by rewrite lookup_insert_ne]. naive_solver. }
  constructor; cbn [byId calls threads objects record endRun].
  - intros i. by rewrite Hc /current foldl_app Hl.
  - intros i. rewrite Hr. by setoid_rewrite Hids.
  - intros t1 t2 i c1 c2 H1 H2. destruct (proj1 (Hids t1 i)) as [d1 Hd1]; [by eexists|]. destruct (proj1 (Hids t2 i)) as [d2 Hd2]; [by eexists|].
    by eapply Ho.
Qed.

Lemma storeInv_step s s' : storeInv s → step s s' → storeInv s'.
Proof.
  intros Hinv [t id Ht Hi|t id Ht|t id c c' Ht Hm|t id i p c Ht Hi|t id p v c Ht|t id p c Ht|t id p resp Ht].
  - destruct Hinv as [Hc Hr Ho]. constructor; cbn [byId calls threads objects record endRun].
    + intros id'. rewrite current_snoc. cbn [currentAfter]. destruct (decide (id = id')) as [->|Hne]; [by rewrite lookup_insert_eq|by rewrite lookup_insert_ne].
    + intros id'. rewrite lookup_insert_is_Some'. setoid_rewrite lookup_insert_Some. rewrite Hr. split; [|naive_solver].
      intros [->|(t' & c & Ht')]; [by exists t, InGuest; left|]. exists t', c. right. split; [|done]. intros ->. congruence.
    + assert (∀ t' c', threads s !! t' ≠ Some (id, c')) as Hno.
      { intros t' c' Ht'. assert (is_Some (byId s !! id)) as [? ?] by (apply Hr; by eexists _, _). congruence. }
      intros t1 t2 i c1 c2 [[<- ?]|[? H1]]%lookup_insert_Some [[<- ?]|[? H2]]%lookup_insert_Some; simplify_eq; [done|by destruct (Hno _ _ H2)|by destruct (Hno _ _ H1)|].
      by eapply Ho.
  - destruct Hinv as [Hc Hr Ho]. constructor; cbn [byId calls threads objects record endRun].
    + intros id'. rewrite current_snoc. cbn [currentAfter]. destruct (decide (id = id')) as [->|Hne]; [by rewrite lookup_delete_eq|by rewrite lookup_delete_ne].
    + intros id'. destruct (decide (id = id')) as [->|Hne].
      * rewrite lookup_delete_eq. split; [by intros [? ?]|]. intros (t' & c & [Hne Ht']%lookup_delete_Some). by destruct Hne; eapply Ho.
      * rewrite lookup_delete_ne // Hr. setoid_rewrite lookup_delete_Some. split; [|naive_solver].
        intros (t' & c & Ht'). exists t', c. split; [|done]. intros ->. congruence.
    + intros t1 t2 i c1 c2 [_ H1]%lookup_delete_Some [_ H2]%lookup_delete_Some. by eapply Ho.
  - pose proof (storeInv_frame s (objects s) t id c c' [] Hinv Ht ltac:(done)) as Hf. by rewrite app_nil_r in Hf.
  - by apply (storeInv_frame s (objects s) t id _ _ [_] Hinv Ht).
  - pose proof (storeInv_frame s (alter (setCounter (v + 1)) p (objects s)) t id _ (FetchPerform p c) [] Hinv Ht ltac:(done)) as Hf. by rewrite app_nil_r in Hf.
  - by apply (storeInv_frame s (objects s) t id _ _ [_] Hinv Ht).
  - by apply (storeInv_frame s _ t id _ _ [_] Hinv Ht).
Qed.

(** The pointer that a goroutine holds. *)
Definition holds (c : pc) (p : nat) : Prop :=
  match c with FetchCheck p' _ | FetchLoad p' _ | FetchStore p' _ _ | FetchPerform p' _ => p = p' | _ => False end.

(** Objects are those that were added, for one id each, and hold the last
    response assigned, which carries that id. *)
Record objectInv (s : state) : Prop := {
  oi_added id p : LAdd id p ∈ calls s → p < length (objects s);
  oi_id id1 id2 p : LAdd id1 p ∈ calls s → LAdd id2 p ∈ calls s → id1 = id2;
  oi_byId id p : byId s !! id = Some p → LAdd id p ∈ calls s;
  oi_responses p r : LResponse p r ∈ calls s → LAdd (respId r) p ∈ calls s;
  oi_sending t id p resp : threads s !! t = Some (id, SendStore p resp) → LAdd (respId resp) p ∈ calls s;
  oi_response p rd : objects s !! p = Some rd → response rd = last (responsesTo p (calls s))
}.

Lemma responsesTo_elem p r l : r ∈ responsesTo p l ↔ LResponse p r ∈ l.
Proof.
  rewrite /responsesTo list_elem_of_omap. split.
  - intros ([] & Hin & He); try done. case_decide; by simplify_eq.
  - intros Hin. exists (LResponse p r). by rewrite decide_True.
Qed.

(** A transition that leaves the added objects and the responses alone. *)
Lemma objectInv_frame s t id c l (f : RequestData → RequestData) p :
  objectInv s → (∀ rd, response (f rd) = response rd) → (∀ q resp, c = SendStore q resp → LAdd (respId resp) q ∈ calls s) →
  (∀ e, e ∈ l → match e with LGet _ _ | LFetch _ _ => True | _ => False end) →
  objectInv (mkState (alter f p (objects s)) (byId s) (<[t := (id, c)]> (threads s)) (calls s ++ l)).
Proof.
  intros [Ha Hi Hb Hr Hs Ho] Hf Hc Hl. assert (∀ e, match e with LGet _ _ | LFetch _ _ => False | _ => True end → e ∈ calls s ++ l → e ∈ calls s) as Hold.
  { intros e He [?|Hin]%elem_of_app; [done|]. apply Hl in Hin. by destruct e. }
  constructor; cbn [byId calls threads objects]; rewrite ?length_alter.
  - intros i q Hin%Hold; [by eapply Ha|done].
  - intros i1 i2 q H1%Hold H2%Hold; [by eapply Hi|done..].
  - intros i q Hq%Hb. by apply elem_of_app; left.
  - intros q r Hin%Hold; [|done]. by apply elem_of_app; left; apply Hr.
  - intros t' i q resp [[<- ?]|[_ Ht']]%lookup_insert_Some; simplify_eq; apply elem_of_app; left; [by apply Hc|by eapply Hs].
  - intros q rd Hq. assert (responsesTo q (calls s ++ l) = responsesTo q (calls s)) as ->.
    { rewrite /responsesTo omap_app. assert (omap (λ e, match e with LResponse p' r => if decide (p' = q) then Some r else None | _ => None end) l = []) as ->; [|by rewrite app_nil_r].
      clear -Hl. induction l as [|e l IH]; [done|]. cbn. specialize (Hl e (list_elem_of_here _ _)) as He. destruct e; try done; apply IH; intros e' ?; apply Hl; by right. }
    destruct (decide (p = q)) as [->|Hne]; [|rewrite list_lookup_alter_ne // in Hq; by apply Ho].
    rewrite list_lookup_alter_eq in Hq. destruct (objects s !! q) as [rd'|] eqn:E; cbn in Hq; simplify_eq. rewrite Hf. by apply Ho.
Qed.

Lemma objectInv_move s t id c l :
  objectInv s → (∀ q resp, c = SendStore q resp → LAdd (respId resp) q ∈ calls s) →
  (∀ e, e ∈ l → match e with LGet _ _ | LFetch _ _ => True | _ => False end) →
  objectInv (mkState (objects s) (byId s) (<[t := (id, c)]> (threads s)) (calls s ++ l)).
Proof.
  intros Hinv Hc Hl. assert (objects s = alter (λ rd, rd) 0 (objects s)) as Hid by (symmetry; by apply list_alter_id).
  rewrite {1}Hid. by apply objectInv_frame.
Qed.

Lemma objectInv_step s s' : objectInv s → step s s' → objectInv s'.
Proof.
  intros Hinv [t id Ht Hi|t id Ht|t id c c' Ht Hm|t id i p c Ht Hi|t id p v c Ht|t id p c Ht|t id p resp Ht].
  - destruct Hinv as [Ha Hid Hb Hr Hs Ho]. assert (∀ i q, LAdd i q ∈ calls s ++ [LAdd id (length (objects s))] ↔ LAdd i q ∈ calls s ∨ i = id ∧ q = length (objects s)) as Hadd.
    { intros i q. rewrite elem_of_app list_elem_of_singleton. naive_solver. }
    constructor; cbn [byId calls threads objects record].
    + intros i q. rewrite length_app Hadd. intros [Hq|[-> ->]]; cbn; [apply Ha in Hq|]; lia.
    + intros i1 i2 q. rewrite !Hadd. intros [H1|[-> ->]] [H2|[-> H2]]; [by eapply Hid|subst; apply Ha in H1; lia|apply Ha in H2; lia|done].
    + intros i q. rewrite Hadd. intros [[<- <-]|[_ Hq]]%lookup_insert_Some; [by right|left; by apply Hb].
    + intros q r [Hin|Hin%list_elem_of_singleton]%elem_of_app; [|done]. rewrite Hadd. left. by apply Hr.
    + intros t' i q resp [[_ ?]|[_ Hq]]%lookup_insert_Some; [done|]. rewrite Hadd. left. by eapply Hs.
    + intros q rd. rewrite responsesTo_snoc app_nil_r. rewrite lookup_app_Some. intros [Hq|[Hle Hq]]; [by apply Ho|].
      destruct (q - length (objects s)) as [|k] eqn:Ek; cbn in Hq; [|done]. simplify_eq. cbn.
      destruct (last (responsesTo q (calls s))) as [r|] eqn:El; [|done]. apply last_Some_elem_of in El. apply responsesTo_elem, Hr, Ha in El. lia.
  - destruct Hinv as [Ha Hid Hb Hr Hs Ho]. assert (∀ i q, LAdd i q ∈ calls s ++ [LDelete id] ↔ LAdd i q ∈ calls s) as Hadd.
    { intros i q. rewrite elem_of_app list_elem_of_singleton. naive_solver. }
    constructor; cbn [byId calls threads objects record endRun]; try setoid_rewrite Hadd; try done.
    + intros i q [_ Hq]%lookup_delete_Some. by apply Hb.
    + intros q r [Hin|Hin%list_elem_of_singleton]%elem_of_app; [|done]. by apply Hr.
    + intros t' i q resp [_ Hq]%lookup_delete_Some. by eapply Hs.
    + intros q rd. rewrite responsesTo_snoc app_nil_r. apply Ho.
  - pose proof (objectInv_move s t id c' [] Hinv) as Hf. rewrite app_nil_r in Hf. apply Hf; [|set_solver].
    intros q resp ->. inversion Hm; subst; [by eapply oi_sending|by apply oi_byId].
  - by apply (objectInv_move s t id _ [_] Hinv); [|intros e ->%list_elem_of_singleton].
  - pose proof (objectInv_frame s t id (FetchPerform p c) [] (setCounter (v + 1)) p Hinv) as Hf. rewrite app_nil_r in Hf. apply Hf; [done|done|set_solver].
  - by apply (objectInv_move s t id _ [_] Hinv); [|intros e ->%list_elem_of_singleton].
  - assert (LAdd (respId resp) p ∈ calls s) as Hp by (by eapply oi_sending). destruct Hinv as [Ha Hid Hb Hr Hs Ho].
    assert (∀ i q, LAdd i q ∈ calls s ++ [LResponse p resp] ↔ LAdd i q ∈ calls s) as Hadd.
    { intros i q. rewrite elem_of_app list_elem_of_singleton. naive_solver. }
    constructor; cbn [byId calls threads objects record setPc assign]; rewrite ?length_alter; try setoid_rewrite Hadd; try done.
    + intros q r [Hin|Hin%list_elem_of_singleton]%elem_of_app; [by apply Hr|by simplify_eq].
    + intros t' i q r [[_ ?]|[_ Hq]]%lookup_insert_Some; [done|by eapply Hs].
    + intros q rd. rewrite responsesTo_snoc. cbn [responsesTo omap list_omap]. destruct (decide (p = q)) as [->|Hne].
      * rewrite list_lookup_alter_eq. destruct (objects s !! q) as [rd'|]; intros ?; simplify_eq/=. by rewrite last_snoc.
      * rewrite list_lookup_alter_ne // app_nil_r. apply Ho.
Qed.

(** *** The limit *)

(** An increment whose fetch is still to be performed. *)
Definition pending (s : state) (t p : nat) : Z :=
  match threads s !! t with Some (_, FetchPerform p' _) => (if decide (p' = p) then 1 else 0) | _ => 0 end%Z.

(** What the goroutine knows of the counter, if no other one changes it. *)
Definition knows (s : state) (t p : nat) (counter : Z) : Prop :=
  match threads s !! t with
  | Some (_, FetchLoad p' _) => p' = p → (counter < MaxFetchRequests)%Z
  | Some (_, FetchStore p' v _) => p' = p → v = counter ∧ (counter < MaxFetchRequests)%Z
  | _ => True
  end.

(** Only the guest [t] has fetched for the object. *)
Definition onlyBy (t p : nat) (l : list entry) : Prop := ∀ t', LGet t' p ∈ l → t' = t.

Record limitInv (s : state) : Prop := {
  li_objects : objectInv s;
  li_get t id c p : threads s !! t = Some (id, c) → holds c p → LGet t p ∈ calls s;
  li_fetch t p : LFetch t p ∈ calls s → LGet t p ∈ calls s;
  li_bound t p : LGet t p ∈ calls s → p < length (objects s);
  li_limit p t rd : objects s !! p = Some rd → onlyBy t p (calls s) →
    (0 <= fetchRequestsCounter rd <= Z.max 0 MaxFetchRequests)%Z ∧
    fetchRequestsCounter rd = (performed p (calls s) + pending s t p)%Z ∧ knows s t p (fetchRequestsCounter rd)
}.

(** A transition of another goroutine, or through another pointer, changes
    nothing for [t] and [p]. *)
Lemma pending_other s s' t t0 id c p :
  threads s' = <[t0 := (id, c)]> (threads s) → t ≠ t0 → pending s' t p = pending s t p ∧ ∀ v, knows s' t p v ↔ knows s t p v.
Proof. intros Ht Hne. rewrite /pending /knows Ht lookup_insert_ne //. Qed.

Lemma pending_elsewhere s t id c p : threads s !! t = Some (id, c) → ¬ holds c p → pending s t p = 0%Z ∧ ∀ v, knows s t p v.
Proof.
  intros Ht Hp. rewrite /pending /knows Ht. destruct c; cbn in Hp; try done; [naive_solver..|]. by case_decide; [destruct Hp|].
Qed.

Lemma performed_other t p q : p ≠ q → performed q [LFetch t p] = 0%Z.
Proof. intros Hne. rewrite /performed /fetchersOf. cbn. by rewrite decide_False. Qed.

Lemma onlyBy_app t p l l' : onlyBy t p (l ++ l') → onlyBy t p l.
Proof. intros Ho t' Hin. apply Ho, elem_of_app. by left. Qed.

Lemma knows_other s s' t t0 id c p rd :
  threads s' = <[t0 := (id, c)]> (threads s) → t ≠ t0 → knows s t p (fetchRequestsCounter rd) → knows s' t p (fetchRequestsCounter rd).
Proof. intros Ht Hne. apply (pending_other _ _ _ _ _ _ _ Ht Hne). Qed.

(** A transition of the goroutine [t0] that changes no counter and performs no fetch. *)
Lemma limit_frame s t0 id c0 c l p t rd :
  limitInv s → threads s !! t0 = Some (id, c0) → objects s !! p = Some rd → onlyBy t p (calls s ++ l) → (∀ q, performed q l = 0%Z) →
  pending (mkState (objects s) (byId s) (<[t0 := (id, c)]> (threads s)) (calls s ++ l)) t0 p = pending s t0 p →
  knows (mkState (objects s) (byId s) (<[t0 := (id, c)]> (threads s)) (calls s ++ l)) t0 p (fetchRequestsCounter rd) →
  let s' := mkState (objects s) (byId s) (<[t0 := (id, c)]> (threads s)) (calls s ++ l) in
  (0 <= fetchRequestsCounter rd <= Z.max 0 MaxFetchRequests)%Z ∧
  fetchRequestsCounter rd = (performed p (calls s') + pending s' t p)%Z ∧ knows s' t p (fetchRequestsCounter rd).
Proof.
  intros Hinv Ht0 Hp Ho Hl Hpend Hknow s'. destruct (li_limit _ Hinv p t rd Hp (onlyBy_app _ _ _ _ Ho)) as (Hb & Hc & Hk).
  assert (performed p (calls s') = performed p (calls s)) as ->.
  { specialize (Hl p). rewrite /s' /= /performed /fetchersOf omap_app length_app. rewrite /performed /fetchersOf in Hl. lia. }
  split; [done|]. destruct (decide (t = t0)) as [->|Hne].
  - by rewrite Hpend.
  - destruct (pending_other s s' t t0 id c p eq_refl Hne) as [-> Hk']. by rewrite Hk'.
Qed.

(** A request that begins has a new object. *)
Lemma limit_begin s t0 id p t rd :
  limitInv s → threads s !! t0 = None →
  let s' := record (LAdd id (length (objects s)))
    (mkState (objects s ++ [mkRequestData 0 None]) (<[id := length (objects s)]> (byId s)) (<[t0 := (id, InGuest)]> (threads s)) (calls s)) in
  objects s' !! p = Some rd → onlyBy t p (calls s') →
  (0 <= fetchRequestsCounter rd <= Z.max 0 MaxFetchRequests)%Z ∧
  fetchRequestsCounter rd = (performed p (calls s') + pending s' t p)%Z ∧ knows s' t p (fetchRequestsCounter rd).
Proof.
  intros Hinv Ht s' Hp Ho. assert (performed p (calls s') = performed p (calls s)) as Hpf
    by (change (calls s') with (calls s ++ [LAdd id (length (objects s))]); rewrite performed_snoc; change (performed p [LAdd id (length (objects s))]) with 0%Z; lia).
  rewrite Hpf. apply lookup_app_Some in Hp as [Hp|[Hle Hp]].
  - destruct (li_limit _ Hinv p t rd Hp (onlyBy_app _ _ _ _ Ho)) as (Hb & Hc & Hk). split; [done|].
    destruct (decide (t = t0)) as [->|Hne]; [|by destruct (pending_other s s' t t0 id InGuest p eq_refl Hne) as [-> ->]].
    rewrite /pending /knows Ht in Hc Hk |- *. cbn. by rewrite lookup_insert_eq.
  - destruct (p - length (objects s)) as [|k] eqn:Ek; cbn in Hp; [|done]. simplify_eq. cbn [fetchRequestsCounter].
    assert (performed p (calls s) = 0%Z) as ->.
    { rewrite /performed. destruct (fetchersOf p (calls s)) as [|t' l] eqn:E; [done|]. exfalso.
      assert (t' ∈ fetchersOf p (calls s)) as Hin' by (rewrite E; left). apply list_elem_of_omap in Hin' as ([] & Hin' & He); try done.
      case_decide; simplify_eq. apply (li_fetch _ Hinv), (li_bound _ Hinv) in Hin'. lia. }
    destruct (threads s' !! t) as [[i c]|] eqn:Et; [|rewrite /pending /knows Et; split; [lia|done]].
    assert (¬ holds c p) as Hno.
    { intros Hh. cbn in Et. apply lookup_insert_Some in Et as [[_ ?]|[_ Hq]]; simplify_eq; [done|]. apply (li_get _ Hinv _ _ _ _ Hq), (li_bound _ Hinv) in Hh. lia. }
    destruct (pending_elsewhere s' t i c p Et Hno) as [-> Hk]. split; [lia|]. split; [done|apply Hk].
Qed.

(** The increment is stored: the goroutine that does it is the only one. *)
Lemma limit_count s t0 id p0 v c p t rd :
  limitInv s → threads s !! t0 = Some (id, FetchStore p0 v c) →
  let s' := setPc t0 id (FetchPerform p0 c) (assign p0 (setCounter (v + 1)) s) in
  objects s' !! p = Some rd → onlyBy t p (calls s') →
  (0 <= fetchRequestsCounter rd <= Z.max 0 MaxFetchRequests)%Z ∧
  fetchRequestsCounter rd = (performed p (calls s') + pending s' t p)%Z ∧ knows s' t p (fetchRequestsCounter rd).
Proof.
  intros Hinv Ht s' Hp Ho. change (calls s') with (calls s) in *. cbn in Hp. destruct (decide (p = p0)) as [->|Hne].
  - rewrite list_lookup_alter_eq in Hp. destruct (objects s !! p0) as [rd0|] eqn:E; cbn in Hp; simplify_eq.
    assert (t0 = t) as -> by (apply Ho; by eapply li_get).
    destruct (li_limit _ Hinv p0 t rd0 E Ho) as (Hb & Hc & Hk). rewrite /pending /knows Ht in Hc Hk. destruct (Hk eq_refl) as [-> Hlt].
    rewrite /pending /knows /s' /= lookup_insert_eq decide_True //. cbn. split; [lia|]. split; [lia|done].
  - rewrite list_lookup_alter_ne // in Hp. destruct (li_limit _ Hinv p t rd Hp Ho) as (Hb & Hc & Hk). split; [done|].
    destruct (decide (t = t0)) as [->|Hnt]; [|by destruct (pending_other s s' t t0 id (FetchPerform p0 c) p eq_refl Hnt) as [-> ->]].
    destruct (pending_elsewhere s t0 id _ p Ht ltac:(done)) as [H0 _]. rewrite H0 in Hc.
    destruct (pending_elsewhere s' t0 id (FetchPerform p0 c) p) as [-> Hk']; [by rewrite /s' /= lookup_insert_eq|done|]. split; [done|apply Hk'].
Qed.

(** A fetch is performed: its increment is no longer pending. *)
Lemma limit_perform s t0 id p0 c p t rd :
  limitInv s → threads s !! t0 = Some (id, FetchPerform p0 c) →
  let s' := setPc t0 id InGuest (record (LFetch t0 p0) s) in
  objects s' !! p = Some rd → onlyBy t p (calls s') →
  (0 <= fetchRequestsCounter rd <= Z.max 0 MaxFetchRequests)%Z ∧
  fetchRequestsCounter rd = (performed p (calls s') + pending s' t p)%Z ∧ knows s' t p (fetchRequestsCounter rd).
Proof.
  intros Hinv Ht s' Hp Ho%onlyBy_app. change (calls s') with (calls s ++ [LFetch t0 p0]). rewrite performed_snoc.
  destruct (li_limit _ Hinv p t rd Hp Ho) as (Hb & Hc & Hk). split; [done|].
  assert (pending s' t0 p = 0%Z ∧ ∀ v, knows s' t0 p v) as [Hp0 Hk0] by (eapply pending_elsewhere; [by rewrite /s' /= lookup_insert_eq|intros []]).
  destruct (decide (p = p0)) as [->|Hne].
  - assert (t0 = t) as -> by (apply Ho; by eapply li_get). rewrite Hp0. split; [|apply Hk0].
    rewrite /pending Ht decide_True // in Hc. rewrite {2}/performed /fetchersOf. cbn. rewrite decide_True //. cbn. lia.
  - rewrite performed_other //. destruct (decide (t = t0)) as [->|Hnt].
    + rewrite Hp0. destruct (pending_elsewhere s t0 id _ p Ht ltac:(done)) as [H0 _]. split; [lia|apply Hk0].
    + destruct (pending_other s s' t t0 id InGuest p eq_refl Hnt) as [-> Hk']. split; [lia|by apply Hk'].
Qed.

#[local] Instance holds_dec c p : Decision (holds c p).
Proof. destruct c; cbn; apply _. Defined.

(** A response is assigned: the counter stays. *)
Lemma limit_respond s t0 id p0 resp p t rd :
  limitInv s → threads s !! t0 = Some (id, SendStore p0 resp) →
  let s' := record (LResponse p0 resp) (setPc t0 id InGuest (assign p0 (setResponse resp) s)) in
  objects s' !! p = Some rd → onlyBy t p (calls s') →
  (0 <= fetchRequestsCounter rd <= Z.max 0 MaxFetchRequests)%Z ∧
  fetchRequestsCounter rd = (performed p (calls s') + pending s' t p)%Z ∧ knows s' t p (fetchRequestsCounter rd).
Proof.
  intros Hinv Ht s' Hp Ho. assert (∃ rd0, objects s !! p = Some rd0 ∧ fetchRequestsCounter rd = fetchRequestsCounter rd0) as (rd0 & Hp0 & ->).
  { cbn in Hp. destruct (decide (p = p0)) as [->|Hne]; [|rewrite list_lookup_alter_ne // in Hp; by exists rd].
    rewrite list_lookup_alter_eq in Hp. destruct (objects s !! p0) as [rd0|]; cbn in Hp; simplify_eq. by exists rd0. }
  apply (limit_frame s t0 id (SendStore p0 resp) InGuest [LResponse p0 resp] p t rd0); try done; rewrite /pending /knows /= ?lookup_insert_eq ?Ht //.
Qed.

Lemma limitInv_step s s' : limitInv s → step s s' → limitInv s'.
Proof.
  intros Hinv Hstep. assert (objectInv s') as Hobj by (eapply objectInv_step; [apply Hinv|done]).
  assert (∀ t0 id c0 c, threads s !! t0 = Some (id, c0) → (∀ p, holds c p → holds c0 p) →
            ∀ t i c1 p, <[t0 := (id, c)]> (threads s) !! t = Some (i, c1) → holds c1 p → LGet t p ∈ calls s) as Hkeep.
  { intros t0 id c0 c Ht0 Hh t i c1 p [[<- ?]|[_ Hq]]%lookup_insert_Some Hc1; simplify_eq; [eapply li_get; [done|exact Ht0|by apply Hh]|by eapply li_get]. }
  destruct Hstep as [t0 id Ht Hi|t0 id Ht|t0 id c0 c' Ht Hm|t0 id i p0 c Ht Hi|t0 id p0 v c Ht|t0 id p0 c Ht|t0 id p0 resp Ht].
  - assert (∀ e, (∀ i q, e ≠ LAdd i q) → e ∈ calls s ++ [LAdd id (length (objects s))] ↔ e ∈ calls s) as Hin.
    { intros e He. rewrite elem_of_app list_elem_of_singleton. naive_solver. }
    constructor; [done|..]; cbn [byId calls threads objects record].
    + intros t i c p [[_ ?]|[_ Hq]]%lookup_insert_Some Hh; simplify_eq; [done|]. rewrite Hin //. by eapply li_get.
    + intros t p. rewrite !Hin //. by apply li_fetch.
    + intros t p. rewrite Hin // length_app. intros Hg%(li_bound _ Hinv). lia.
    + intros p t rd. by apply limit_begin.
  - assert (∀ e, (∀ i, e ≠ LDelete i) → e ∈ calls s ++ [LDelete id] ↔ e ∈ calls s) as Hin.
    { intros e He. rewrite elem_of_app list_elem_of_singleton. naive_solver. }
    constructor; [done|..]; cbn [byId calls threads objects record endRun].
    + intros t i c p [_ Hq]%lookup_delete_Some Hh. rewrite Hin //. by eapply li_get.
    + intros t p. rewrite !Hin //. apply Hinv.
    + intros t p. rewrite Hin //. apply Hinv.
    + intros p t rd Hp Ho. destruct (li_limit _ Hinv p t rd Hp (onlyBy_app _ _ _ _ Ho)) as (Hb & Hc & Hk). split; [done|].
      rewrite performed_snoc. change (performed p [LDelete id]) with 0%Z. rewrite /pending /knows in Hc Hk |- *. cbn [threads].
      destruct (decide (t0 = t)) as [<-|Hne]; [rewrite lookup_delete_eq; rewrite Ht in Hc; split; [lia|done]|].
      rewrite lookup_delete_ne //. split; [lia|done].
  - constructor; [done|..]; cbn [byId calls threads objects setPc].
    + eapply Hkeep; [done|]. intros p. by destruct Hm.
    + apply Hinv.
    + apply Hinv.
    + intros p t rd Hp Ho. pose proof (limit_frame s t0 id c0 c' [] p t rd Hinv Ht Hp) as Hf. rewrite app_nil_r in Hf.
      apply Hf; [done|done|by rewrite /pending /= lookup_insert_eq Ht; destruct Hm|]. rewrite /knows /= lookup_insert_eq.
      destruct Hm as [c0|p0 c|p0 c rd0 Hp0 Hlim|p0 c rd0 Hp0|p0 resp Hp0]; try done.
      * destruct (decide (holds c0 p)) as [Hh|Hh].
        { assert (t0 = t) as <- by (apply Ho; by eapply li_get). destruct (li_limit _ Hinv p t0 rd Hp Ho) as (_ & _ & Hk). by rewrite /knows Ht in Hk. }
        destruct (pending_elsewhere s t0 id c0 p Ht Hh) as [_ Hk]. specialize (Hk (fetchRequestsCounter rd)). by rewrite /knows Ht in Hk.
      * intros ->. apply bool_decide_eq_false in Hlim. rewrite Hp in Hp0. simplify_eq. lia.
      * intros ->. rewrite Hp in Hp0. simplify_eq. assert (t0 = t) as <- by (apply Ho; by eapply li_get).
        destruct (li_limit _ Hinv p t0 rd0 Hp Ho) as (_ & _ & Hk). rewrite /knows Ht in Hk. split; [done|]. by apply Hk.
  - assert (∀ e, (∀ t p, e ≠ LGet t p) → e ∈ calls s ++ [LGet t0 p0] ↔ e ∈ calls s) as Hin.
    { intros e He. rewrite elem_of_app list_elem_of_singleton. naive_solver. }
    constructor; [done|..]; cbn [byId calls threads objects record setPc].
    + intros t i' c1 p Hq Hh. apply lookup_insert_Some in Hq as [[<- ?]|[_ Hq]]; simplify_eq.
      * cbn in Hh. subst p. set_solver.
      * apply elem_of_app. left. by eapply li_get.
    + intros t p. rewrite Hin //. intros Hf. apply elem_of_app. left. by apply li_fetch.
    + intros t p [Hg|Hg%list_elem_of_singleton]%elem_of_app; [by eapply li_bound|]. simplify_eq. eapply oi_added, oi_byId; [apply Hinv|apply Hinv|done].
    + intros p t rd Hp Ho. apply (limit_frame s t0 id InGuest (FetchCheck p0 c) [LGet t0 p0] p t rd); try done; rewrite /pending /knows /= ?lookup_insert_eq ?Ht //.
  - constructor; [done|..]; cbn [byId calls threads objects setPc assign]; rewrite ?length_alter.
    + by eapply Hkeep.
    + apply Hinv.
    + apply Hinv.
    + intros p t rd. by eapply limit_count.
  - assert (∀ t p, LGet t p ∈ calls s ++ [LFetch t0 p0] ↔ LGet t p ∈ calls s) as Hin.
    { intros t p. rewrite elem_of_app list_elem_of_singleton. naive_solver. }
    constructor; [done|..]; cbn [byId calls threads objects record setPc].
    + intros t i c1 p Hq Hh. rewrite Hin. by apply (Hkeep t0 id _ InGuest Ht ltac:(by intros ? []) t i c1 p).
    + intros t p. rewrite Hin. intros [Hf|Hf%list_elem_of_singleton]%elem_of_app; [by apply li_fetch|]. simplify_eq. by eapply li_get.
    + intros t p. rewrite Hin. apply Hinv.
    + intros p t rd. by eapply limit_perform.
  - assert (∀ e, (∀ p r, e ≠ LResponse p r) → e ∈ calls s ++ [LResponse p0 resp] ↔ e ∈ calls s) as Hin.
    { intros e He. rewrite elem_of_app list_elem_of_singleton. naive_solver. }
    constructor; [done|..]; cbn [byId calls threads objects record setPc assign]; rewrite ?length_alter.
    + intros t i c1 p Hq Hh. rewrite Hin //. by apply (Hkeep t0 id _ InGuest Ht ltac:(by intros ? []) t i c1 p).
    + intros t p. rewrite !Hin //. apply Hinv.
    + intros t p. rewrite Hin //. apply Hinv.
    + intros p t rd Hp Ho. by apply (limit_respond s t0 id p0 resp).
Qed.

Lemma storeInv_holds es : storeInv (execs MaxFetchRequests fresh es).
Proof.
  apply execs_invariant; [|by apply storeInv_step]. constructor; cbn; [done|..].
  - intros id. rewrite lookup_empty. split; [by intros [? ?]|by intros (? & ? & ?)].
  - intros t1 t2 id c1 c2. by rewrite lookup_empty.
Qed.

Lemma limitInv_holds es : limitInv (execs MaxFetchRequests fresh es).
Proof.
  apply execs_invariant; [|by apply limitInv_step]. assert (∀ e : entry, e ∉ calls fresh) as Hno by (intros e; apply not_elem_of_nil).
  constructor; [constructor|..]; cbn; try done.
  - intros id p Hp. by destruct (Hno (LAdd id p)).
  - intros id1 id2 p Hp. by destruct (Hno (LAdd id1 p)).
  - intros p r Hp. by destruct (Hno (LResponse p r)).
  - intros t p Hp. by destruct (Hno (LFetch t p)).
  - intros t p Hp. by destruct (Hno (LGet t p)).
Qed.

(** C15: the store follows the calls.  Whatever guests run at the same time, and
    however the accesses of their calls interleave, an id is in the store's map
    exactly while a goroutine runs a request of that id, with the object made when
    it began; an object holds the last response that was assigned to it, and every
    response assigned carries the id for which the object was made.  If one guest
    only has fetched for an object, the fetches performed are at most the
    configured limit, and the counter counts them and the one that its call is
    about to perform.  (The counter is not guarded: [limit_raced] is two guests
    that fetch for the same id, beyond the limit.) *)
Theorem store_follows_calls es :
  let s := execs MaxFetchRequests fresh es in
  (∀ id, byId s !! id = current id (calls s) ∧ (is_Some (byId s !! id) ↔ ∃ t c, threads s !! t = Some (id, c))) ∧
  (∀ p rd, objects s !! p = Some rd → response rd = last (responsesTo p (calls s))) ∧
  (∀ p r, LResponse p r ∈ calls s → ∀ id, LAdd id p ∈ calls s ↔ id = respId r) ∧
  ∀ p t rd, objects s !! p = Some rd → (∀ t', LGet t' p ∈ calls s → t' = t) →
    (performed p (calls s) <= Z.max 0 MaxFetchRequests)%Z ∧
    fetchRequestsCounter rd =
      (performed p (calls s) + match threads s !! t with Some (_, FetchPerform p' _) => if decide (p' = p) then 1 else 0 | _ => 0 end)%Z.
Proof.
  intros s. destruct (storeInv_holds es) as [Hc Hr _]. destruct (limitInv_holds es) as [Hobj _ _ _ Hl]. fold s in Hc, Hr, Hobj, Hl.
  split; [done|]. split; [apply Hobj|]. split.
  - intros p r Hin id. apply (oi_responses _ Hobj) in Hin. split; [|by intros ->]. intros Hid. by eapply oi_id.
  - intros p t rd Hp Ho. destruct (Hl p t rd Hp Ho) as (Hb & Heq & _). rewrite /pending in Heq. split; [|done].
    destruct (threads s !! t) as [[? []]|]; try lia. case_decide; lia.
Qed.

(** *** Calls that do not overlap *)

Lemma view_lookup s id : view s !! id = byId s !! id ≫= λ p, objects s !! p.
Proof. by rewrite /view lookup_omap. Qed.

(** An assignment through the pointer of a stored request changes that entry of
    the store only: no two ids share an object. *)
Lemma view_assign s id p rd f objs' :
  objectInv s → byId s !! id = Some p → objects s !! p = Some rd → objs' = alter f p (objects s) →
  omap (λ q, objs' !! q) (byId s) = <[id := f rd]> (view s).
Proof.
  intros Hinv Hid Hp ->. apply map_eq. intros i. rewrite lookup_omap. destruct (decide (id = i)) as [<-|Hne].
  - rewrite lookup_insert_eq Hid /= list_lookup_alter_eq Hp. done.
  - rewrite lookup_insert_ne // view_lookup. destruct (byId s !! i) as [q|] eqn:Hq; [|done]. cbn.
    rewrite list_lookup_alter_ne //. intros ->. apply Hne. eapply (oi_id _ Hinv _ _ q); by apply oi_byId.
Qed.

(** The functions that write an answer do the same for every state. *)
Lemma fetchErr_any {S T} (h : S) (k : T) mem p l err r : fetchErr mem p l h err = Ok r → fetchErr mem p l k err = Ok (r.1, k).
Proof.
  rewrite /fetchErr /answerWith. destruct (marshalFetchResponse _); [by intros [= <-]|]. destruct (writeMessage _ _ _ _); cbn; [|done|done]. by intros [= <-].
Qed.

Lemma fetchPerform_any {S T} (h : S) (k : T) n mem p l req r : fetchPerform n mem p l h req = Ok r → fetchPerform n mem p l k req = Ok (r.1, k).
Proof.
  rewrite /fetchPerform. destruct (toSdkReq req) as [q md]. destruct (Fetch n q md) as [err|[resp|]]; [apply fetchErr_any| |done].
  rewrite /fetchRespond. destruct (fromSdkResp resp); [|apply fetchErr_any|done]. destruct (marshalFetchResponse _); [apply fetchErr_any|].
  destruct (write _ _ _ _); cbn; [|done|done]. case_decide; [apply fetchErr_any|].
  destruct (writeUInt32 _ _ _); cbn; [|done|done]. case_decide; [apply fetchErr_any|by intros [= <-]].
Qed.

Lemma steps_idle s t id n : threads s !! t = Some (id, InGuest) → execs MaxFetchRequests s (repeat (Step t) n) = s.
Proof. intros Ht. induction n as [|n IH]; [done|]. cbn. by rewrite Ht /=. Qed.

Lemma steps_step s t id c n : threads s !! t = Some (id, c) →
  execs MaxFetchRequests s (repeat (Step t) (S n)) = execs MaxFetchRequests (advance MaxFetchRequests t id c s) (repeat (Step t) n).
Proof. intros Ht. cbn. by rewrite Ht. Qed.

Lemma setPc_at t id c s : threads (setPc t id c s) !! t = Some (id, c).
Proof. cbn. by rewrite lookup_insert_eq. Qed.

(** When no other event comes in between, a call of fetch does to the store what
    [WasmHost.fetch] does. *)
Lemma fetch_alone s t id mem respptr resplenptr reqptr reqptrlen tr r :
  objectInv s → threads s !! t = Some (id, InGuest) → length tr = length (calls s) + 1 →
  fetch MaxFetchRequests mem respptr resplenptr reqptr reqptrlen (mkHost (view s) tr) = Ok r →
  let s' := execs MaxFetchRequests s (Call t (CFetch mem respptr resplenptr reqptr reqptrlen) :: repeat (Step t) 4) in
  view s' = requestStore r.2 ∧ threads s' !! t = Some (id, InGuest).
Proof.
  intros Hinv Ht Hlen Hf. change (execs MaxFetchRequests s (_ :: _)) with
    (execs MaxFetchRequests (exec MaxFetchRequests s (Call t (CFetch mem respptr resplenptr reqptr reqptrlen))) (repeat (Step t) 4)).
  cbn [exec]. rewrite Ht. cbn [enter]. rewrite /fetch in Hf.
  assert (∀ err, fetchErr mem respptr resplenptr (mkHost (view s) tr) err = Ok r →
    let s' := execs MaxFetchRequests (answered t id (fetchErr mem respptr resplenptr () err) s) (repeat (Step t) 4) in
    view s' = requestStore r.2 ∧ threads s' !! t = Some (id, InGuest)) as Herr.
  { intros err He. rewrite (fetchErr_any _ () _ _ _ _ _ He) /answered. rewrite (steps_idle _ t id); [|apply setPc_at].
    rewrite (fetchErr_host _ _ _ _ _ _ He). split; [done|apply setPc_at]. }
  destruct (fetchRequest mem reqptr reqptrlen) as [[err|req]| |]; cbn [obind] in Hf; [by apply Herr| |done|done].
  rewrite /storeGet view_lookup in Hf. destruct (byId s !! pbId req) as [p|] eqn:Hp; cbn [mbind option_bind] in Hf; [|by apply Herr].
  destruct (lookup_lt_is_Some_2 (objects s) p) as [rd Hrd]; [by apply (oi_added _ Hinv (pbId req)), oi_byId|]. rewrite Hrd in Hf. set (c := mkCall mem respptr resplenptr req).
  rewrite (steps_step _ _ id (FetchCheck p c)); [|apply setPc_at]. cbn [advance objects record setPc]. rewrite Hrd.
  destruct (limited MaxFetchRequests rd).
  { rewrite (fetchErr_any _ () _ _ _ _ _ Hf) /answered (steps_idle _ t id); [|apply setPc_at].
    rewrite (fetchErr_host _ _ _ _ _ _ Hf). split; [done|apply setPc_at]. }
  rewrite (steps_step _ _ id (FetchLoad p c)); [|apply setPc_at]. cbn [advance objects record setPc]. rewrite Hrd.
  rewrite (steps_step _ _ id (FetchStore p (fetchRequestsCounter rd) c)); [|apply setPc_at]. cbn [advance].
  rewrite (steps_step _ _ id (FetchPerform p c)); [|apply setPc_at]. cbn [advance]. cbv zeta in Hf.
  match goal with |- context [fetchPerform ?n _ _ _ _ _] => replace n with (length (trace (countFetch (pbId req) rd (mkHost (view s) tr)))) end.
  2: { cbn. rewrite !length_app Hlen. cbn. lia. }
  rewrite (fetchPerform_any _ () _ _ _ _ _ _ Hf) /answered. cbn [repeat execs foldl]. split; [|apply setPc_at].
  rewrite (fetchPerform_host _ _ _ _ _ _ _ Hf). rewrite /view. cbn [objects byId setPc record assign requestStore countFetch].
  by apply (view_assign s (pbId req) p rd (setCounter (fetchRequestsCounter rd + 1))).
Qed.
End facts.

(** *** Two guests and one counter

    Guest 1 runs request a; guest 2 runs request b but fetches for a.  Both pass the
    check, both load 0 and both store 1. *)

Definition raceCall (t : nat) : event := Call t (CFetch toyMemory 2 4 0 1).
Definition race : list event :=
  [Begin 1 "a"; Begin 2 "b"; raceCall 1; raceCall 2] ++ [Step 1; Step 2] ++ [Step 1; Step 2] ++ [Step 1; Step 2] ++ [Step 1; Step 2].

Section witnesses.
#[local] Existing Instance toyEnv.

(** With a limit of one, two fetches are performed for request a. *)
Lemma limit_raced :
  let s := execs 1 fresh race in
  byId s !! "a" = Some 0 ∧ performed 0 (calls s) = 2%Z ∧ objects s !! 0 = Some (mkRequestData 1 None).
Proof. vm_compute. done. Qed.

(** The same guest, fetching twice, is refused the second time. *)
Lemma store_follows_calls_witness :
  let s := execs 1 fresh ([Begin 1 "a"; raceCall 1] ++ repeat (Step 1) 4 ++ [raceCall 1] ++ repeat (Step 1) 4) in
  performed 0 (calls s) = 1%Z ∧ (performed 0 (calls s) <= Z.max 0 1)%Z ∧ objects s !! 0 = Some (mkRequestData 1 None).
Proof.
  split; [by vm_compute|]. split; [|by vm_compute].
  destruct (store_follows_calls 1 ([Begin 1 "a"; raceCall 1] ++ repeat (Step 1) 4 ++ [raceCall 1] ++ repeat (Step 1) 4)) as (_ & _ & _ & Hlimit).
  apply (Hlimit 0 1 (mkRequestData 1 None)); [by vm_compute|]. intros t' Hin. vm_compute in Hin.
  by repeat (apply elem_of_cons in Hin as [Hin|Hin]; [by inversion Hin|]); apply not_elem_of_nil in Hin.
Defined.
End witnesses.
End WasmCalls.
