(* ===== verification/WasmGuest.v ===== *)
(** [src/pkg/workflows/wasm]: the guest's side of the functions that the host
    exports ([sdk.go]) and the runner that answers one request ([runner.go],
    [runner_wasip1.go]), together with the host of [WasmHost] on the memory that
    they share.

    Where the guest's allocator puts the buffers is a parameter. *)

From S2P Require Import Prelude GoBytes GoStrings Values Messages WorkflowSDK WasmMemory WasmHost.

Module WasmGuest.
Import Values WasmMemory WasmHost.

(** *** The guest's runtime *)

Record RuntimeConfig := mkRuntimeConfig {
  MaxResponseSizeBytes : Z;
  RequestID : option string;
  Metadata : option Messages.RequestMetadata
}.

Definition defaultFetchResponseSizeBytes : Z := 5 * 1024 * 1024.
Definition defaultRuntimeConfig (id : string) (md : Messages.RequestMetadata) : RuntimeConfig :=
  mkRuntimeConfig defaultFetchResponseSizeBytes (Some id) (Some md).

Inductive gerror :=
  | GText (text : string)
  | GErrno (errno : Z)
  | GSize (size max : Z)
  | GEmptyBuffer
  | GEmission (e : gerror).

(** Marshalling on the guest's side.  An emit response holds an optional error
    message; of a request the runner uses the id, the configuration and which
    message it is. *)
Class GuestEnv := {
  marshalEmitRequest : pbEmitRequest → string + list byte;
  unmarshalEmitResponse : list byte → string + option string;
  marshalResponse : Response → string + list byte
}.

(** The addresses of the three buffers of a call. *)
Record buffers := mkBuffers { reqAt : Z; respAt : Z; lenAt : Z }.

Definition zeros (n : nat) : list byte := repeat x00 n.
Definition place (m : list byte) (at_ : Z) (bs : list byte) : list byte := overwrite m (Z.to_nat at_) bs.

(** [bufferToPointerLen]: the address is that of the buffer. *)
Definition bufferToPointerLen (at_ : Z) (buf : list byte) : outcome gerror (Z * Z) :=
  match buf with [] => Err GEmptyBuffer | _ => Ok (at_, wrapS 32 (Z.of_nat (length buf))) end.

(** [make([]byte, n)] *)
Definition makeBuffer (n : Z) : outcome gerror (list byte) := if decide (n < 0)%Z then Panic else Ok (zeros (Z.to_nat n)).

Section guest.
Context `{WasmEnv} `{GuestEnv}.

Definition hostCall : Type := list byte → Z → Z → Z → Z → host → answerOf host.
(** The guest's memory and the host. *)
Definition world : Type := list byte * host.

(** The host is called, and the response is looked at, as [createFetchFn] and
    [createEmitFn] do once the buffers are made. *)
Definition exchange (call : hostCall) (cfg : RuntimeConfig) (bufs : buffers) (b respBuffer resplenBuffer : list byte) (w : world)
    : outcome gerror (list byte) * world :=
  let mem := place (place (place w.1 (reqAt bufs) b) (respAt bufs) respBuffer) (lenAt bufs) resplenBuffer in
  match call mem (respAt bufs) (lenAt bufs) (reqAt bufs) (wrapS 32 (Z.of_nat (length b))) w.2 with
  | Ok (errno, mem, h) =>
      if decide (errno ≠ 0)%Z then (Err (GErrno errno), (mem, h))
      else
        let responseSize := le_val (take 4 (drop (Z.to_nat (lenAt bufs)) mem)) in
        if decide (wrapU 32 (MaxResponseSizeBytes cfg) < responseSize)%Z then (Err (GSize responseSize (MaxResponseSizeBytes cfg)), (mem, h))
        else (goSlice (take (length respBuffer) (drop (Z.to_nat (respAt bufs)) mem)) 0 responseSize, (mem, h))
  | _ => (Panic, w)
  end.

Definition fetchMetadata (md : Messages.RequestMetadata) : FetchMetadata :=
  mkFetchMetadata (Messages.WorkflowID md) (Messages.WorkflowName md) (Messages.WorkflowOwner md) (Messages.WorkflowExecutionID md)
    (Messages.DecodedWorkflowName md).

Definition uint32Size : nat := 4.

(** What the guest makes of the host's response to a fetch. *)
Definition readFetchResponse (bs : list byte) : outcome gerror FetchResponse :=
  match unmarshalFetchResponse bs with
  | inl err => Err (GText ("failed to unmarshal fetch response: " ++ err)%string)
  | inr response =>
      if pbExecutionError response && negb (String.eqb (pbErrorMessage response) "") then Err (GText (pbErrorMessage response))
      else Ok (mkFetchResponse false "" (pbStatusCode response) (stringFields (pbRespHeaders response)) (pbRespBody response))
  end.

(** [createFetchFn] *)
Definition guestFetch (fetch : hostCall) (cfg : RuntimeConfig) (bufs : buffers) (req : FetchRequest) (w : world) : outcome gerror FetchResponse * world :=
  match wrapHeaders (Headers req) with
  | Panic => (Panic, w)
  | Err _ => (Err (GText "failed to create headers map"), w)
  | Ok headerspb =>
      match RequestID cfg, Metadata cfg with
      | None, _ => (Err (GText "request ID is required to fetch"), w)
      | Some _, None => (Panic, w)                                 (* a nil dereference *)
      | Some id, Some md =>
          match marshalFetchRequest (mkPbFetchRequest (URL req) (Method req) headerspb (Body req) (TimeoutMs req) id (Some (fetchMetadata md)) (MaxRetries req)) with
          | inl err => (Err (GText ("failed to marshal fetch request: " ++ err)%string), w)
          | inr b =>
              match (let? _ := bufferToPointerLen (reqAt bufs) b in
                     let? respBuffer := makeBuffer (MaxResponseSizeBytes cfg) in
                     let? _ := bufferToPointerLen (respAt bufs) respBuffer in Ok respBuffer) with
              | Panic => (Panic, w)
              | Err e => (Err e, w)
              | Ok respBuffer =>
                  let '(r, w) := exchange fetch cfg bufs b respBuffer (zeros uint32Size) w in
                  (let? bs := r in readFetchResponse bs, w)
              end
          end
      end
  end.

(** [toEmitLabels] *)
Definition toEmitLabels (md : Messages.RequestMetadata) (labels : headers) : outcome gerror headers :=
  if String.eqb (Messages.WorkflowID md) "" then Err (GText "must provide workflow id to emit event")
  else if String.eqb (Messages.WorkflowName md) "" then Err (GText "must provide workflow name to emit event")
  else if String.eqb (Messages.WorkflowOwner md) "" then Err (GText "must provide workflow owner to emit event")
  else if String.eqb (Messages.WorkflowExecutionID md) "" then Err (GText "must provide workflow execution id to emit event")
  else
    let labels := mapSet labels "workflow_execution_id" (Messages.WorkflowExecutionID md) in
    let labels := mapSet labels "workflow_owner_address" (Messages.WorkflowOwner md) in
    let labels := mapSet labels "workflow_id" (Messages.WorkflowID md) in
    Ok (mapSet labels "workflow_name" (Messages.WorkflowName md)).

(** What the guest makes of the host's response to an emission: no error, or one
    without a message, is success. *)
Definition readEmitResponse (bs : list byte) : outcome gerror unit :=
  match unmarshalEmitResponse bs with
  | inl err => Err (GEmission (GText err))
  | inr (Some msg) => if String.eqb msg "" then Ok () else Err (GEmission (GText msg))
  | inr None => Ok ()
  end.

(** [createEmitFn] *)
Definition guestEmit (emit : hostCall) (cfg : RuntimeConfig) (bufs : buffers) (msg : string) (labels : headers) (w : world) : outcome gerror unit * world :=
  match Metadata cfg with
  | None => (Err (GEmission (GText "metadata is required to emit")), w)
  | Some md =>
      match toEmitLabels md labels with
      | Panic => (Panic, w)
      | Err e => (Err (GEmission e), w)
      | Ok labels =>
          match wrapHeaders labels with
          | Panic => (Panic, w)
          | Err _ => (Err (GEmission (GText "could not wrap labels to map")), w)
          | Ok vm =>
              match RequestID cfg with
              | None => (Panic, w)
              | Some id =>
                  match marshalEmitRequest (mkPbEmitRequest msg vm id) with
                  | inl err => (Err (GText err), w)
                  | inr b =>
                      match (let? respBuffer := makeBuffer (MaxResponseSizeBytes cfg) in
                             let? _ := bufferToPointerLen (respAt bufs) respBuffer in
                             let? _ := bufferToPointerLen (reqAt bufs) b in Ok respBuffer) with
                      | Panic => (Panic, w)
                      | Err e => (Err e, w)
                      | Ok respBuffer =>
                          let '(r, w) := exchange emit cfg bufs b respBuffer (zeros uint32Size) w in
                          (match r with Ok bs => readEmitResponse bs | Err e => Err (GEmission e) | Panic => Panic end, w)
                      end
                  end
              end
          end
      end
  end.
End guest.

(** *** Memory: facts *)

Lemma range_in_memory m ptr size : smallMemory m → (0 <= ptr)%Z → (0 <= size)%Z → (ptr + size <= Z.of_nat (length m))%Z → rangeOf m ptr size = RInside.
Proof. rewrite /smallMemory /rangeOf. intros. rewrite !decide_False; [done|lia..]. Qed.

Lemma read_inside m ptr size : smallMemory m → (0 <= ptr)%Z → (0 <= size)%Z → (ptr + size <= Z.of_nat (length m))%Z →
  read m ptr size = Ok (take (Z.to_nat size) (drop (Z.to_nat ptr) m)).
Proof.
  rewrite /smallMemory. intros Hm Hp Hs Hin. rewrite read_range //; [|rewrite /inS; change (2 ^ (32 - 1))%Z with (2 ^ 31)%Z; lia..].
  by rewrite range_in_memory.
Qed.

Lemma write_in_memory m src ptr : smallMemory m → (0 <= ptr)%Z → (ptr + Z.of_nat (length src) <= Z.of_nat (length m))%Z →
  write m src ptr (wrapS 32 (Z.of_nat (length src))) = Ok (Z.of_nat (length src), place m ptr src).
Proof.
  rewrite /smallMemory. intros Hm Hp Hin. rewrite wrap32_small; [|lia]. rewrite write_range //; [|rewrite /inS; change (2 ^ (32 - 1))%Z with (2 ^ 31)%Z; lia..].
  rewrite range_in_memory //; [|lia]. by rewrite decide_True.
Qed.

Lemma writeUInt32_inside m ptr val : smallMemory m → (0 <= ptr)%Z → (ptr + 4 <= Z.of_nat (length m))%Z →
  writeUInt32 m ptr val = Ok (4%Z, place m ptr (le_bytes 4 val)).
Proof.
  intros Hm Hp Hin. rewrite /writeUInt32. pose proof (write_in_memory m (le_bytes 4 val) ptr Hm Hp) as Hw. rewrite length_le_bytes in Hw.
  by apply Hw.
Qed.

Lemma length_place m at_ bs : (0 <= at_)%Z → (at_ + Z.of_nat (length bs) <= Z.of_nat (length m))%Z → length (place m at_ bs) = length m.
Proof. intros. apply length_overwrite. lia. Qed.

(** The [n] bytes at an address. *)
Definition bytesAt (m : list byte) (at_ : Z) (n : nat) : list byte := take n (drop (Z.to_nat at_) m).

Lemma bytesAt_place m at_ bs : (0 <= at_)%Z → (at_ + Z.of_nat (length bs) <= Z.of_nat (length m))%Z → bytesAt (place m at_ bs) at_ (length bs) = bs.
Proof. intros. apply take_drop_overwrite. lia. Qed.

Lemma bytesAt_other m at_ bs a n : (0 <= at_)%Z → (0 <= a)%Z → (at_ + Z.of_nat (length bs) <= Z.of_nat (length m))%Z →
  (a + Z.of_nat n <= at_ ∨ at_ + Z.of_nat (length bs) <= a)%Z → bytesAt (place m at_ bs) a n = bytesAt m a n.
Proof.
  intros H1 H2 H3 Hd. rewrite /bytesAt /place. apply list_eq. intros k. destruct (decide (k < n)) as [Hk|Hk].
  - rewrite !lookup_take_lt // !lookup_drop overwrite_lookup; [|lia]. rewrite decide_False //. lia.
  - rewrite !lookup_take_ge //; lia.
Qed.

Lemma bytesAt_prefix m at_ n k : k ≤ n → bytesAt m at_ k = take k (bytesAt m at_ n).
Proof. intros. rewrite /bytesAt take_take. f_equal. lia. Qed.

(** Where the allocator may put the buffers: inside the memory, and apart. *)
Record layout (m : list byte) (bufs : buffers) (b : list byte) (n : nat) : Prop := {
  ly_small : smallMemory m;
  ly_req : (0 <= reqAt bufs ∧ reqAt bufs + Z.of_nat (length b) <= Z.of_nat (length m))%Z;
  ly_resp : (0 <= respAt bufs ∧ respAt bufs + Z.of_nat n <= Z.of_nat (length m))%Z;
  ly_len : (0 <= lenAt bufs ∧ lenAt bufs + 4 <= Z.of_nat (length m))%Z;
  ly_req_resp : (reqAt bufs + Z.of_nat (length b) <= respAt bufs ∨ respAt bufs + Z.of_nat n <= reqAt bufs)%Z;
  ly_req_len : (reqAt bufs + Z.of_nat (length b) <= lenAt bufs ∨ lenAt bufs + 4 <= reqAt bufs)%Z;
  ly_resp_len : (respAt bufs + Z.of_nat n <= lenAt bufs ∨ lenAt bufs + 4 <= respAt bufs)%Z
}.

(** The memory when the host is called. *)
Definition prepared (m : list byte) (bufs : buffers) (b : list byte) (n : nat) : list byte :=
  place (place (place m (reqAt bufs) b) (respAt bufs) (zeros n)) (lenAt bufs) (zeros uint32Size).

Lemma length_zeros n : length (zeros n) = n.
Proof. apply repeat_length. Qed.

Lemma prepared_length m bufs b n : layout m bufs b n → length (prepared m bufs b n) = length m.
Proof.
  intros [_ H1 H2 H3 _ _ _]. rewrite /prepared.
  assert (length (place m (reqAt bufs) b) = length m) as L1 by (apply length_place; lia).
  assert (length (place (place m (reqAt bufs) b) (respAt bufs) (zeros n)) = length m) as L2 by (rewrite length_place ?length_zeros; lia).
  rewrite length_place ?length_zeros ?L2; change uint32Size with 4; lia.
Qed.

(** The host finds the request, and no byte outside the buffers has changed. *)
Lemma prepared_request m bufs b n : layout m bufs b n → bytesAt (prepared m bufs b n) (reqAt bufs) (length b) = b.
Proof.
  intros [_ H1 H2 H3 H4 H5 _]. rewrite /prepared.
  assert (length (place m (reqAt bufs) b) = length m) as L1 by (apply length_place; lia).
  assert (length (place (place m (reqAt bufs) b) (respAt bufs) (zeros n)) = length m) as L2 by (rewrite length_place ?length_zeros; lia).
  rewrite bytesAt_other ?length_zeros ?L2; change uint32Size with 4; [|lia..]. rewrite bytesAt_other ?length_zeros ?L1; [|lia..]. by apply bytesAt_place; lia.
Qed.

Definition outside (bufs : buffers) (b : list byte) (n : nat) (k : nat) : Prop :=
  (Z.of_nat k < reqAt bufs ∨ reqAt bufs + Z.of_nat (length b) <= Z.of_nat k)%Z ∧
  (Z.of_nat k < respAt bufs ∨ respAt bufs + Z.of_nat n <= Z.of_nat k)%Z ∧ (Z.of_nat k < lenAt bufs ∨ lenAt bufs + 4 <= Z.of_nat k)%Z.

Lemma place_lookup m at_ bs k : (0 <= at_)%Z → (at_ + Z.of_nat (length bs) <= Z.of_nat (length m))%Z →
  (Z.of_nat k < at_ ∨ at_ + Z.of_nat (length bs) <= Z.of_nat k)%Z → place m at_ bs !! k = m !! k.
Proof. intros. rewrite /place overwrite_lookup; [|lia]. rewrite decide_False //. lia. Qed.

Lemma prepared_outside m bufs b n k : layout m bufs b n → outside bufs b n k → prepared m bufs b n !! k = m !! k.
Proof.
  intros [_ H1 H2 H3 _ _ _] (O1 & O2 & O3). rewrite /prepared.
  assert (length (place m (reqAt bufs) b) = length m) as L1 by (apply length_place; lia).
  assert (length (place (place m (reqAt bufs) b) (respAt bufs) (zeros n)) = length m) as L2 by (rewrite length_place ?length_zeros; lia).
  rewrite !place_lookup ?length_zeros ?L2 ?L1; change uint32Size with 4; done || lia.
Qed.

(** What the host writes: a response that fits, and its length. *)
Definition answeredMemory (m : list byte) (bufs : buffers) (rb : list byte) : list byte :=
  place (place m (respAt bufs) rb) (lenAt bufs) (le_bytes 4 (wrapU 32 (Z.of_nat (length rb)))).

Lemma answered_reads m bufs b n rb : layout m bufs b n → length rb ≤ n →
  bytesAt (answeredMemory (prepared m bufs b n) bufs rb) (respAt bufs) (length rb) = rb ∧
  le_val (bytesAt (answeredMemory (prepared m bufs b n) bufs rb) (lenAt bufs) 4) = Z.of_nat (length rb) ∧
  ∀ k, outside bufs b n k → answeredMemory (prepared m bufs b n) bufs rb !! k = m !! k.
Proof.
  intros Hly Hrb. pose proof (prepared_length _ _ _ _ Hly) as Hlen. pose proof Hly as [Hsm H1 H2 H3 _ _ H6]. rewrite /smallMemory in Hsm. rewrite /answeredMemory.
  set (mem := prepared m bufs b n) in *.
  assert (length (place mem (respAt bufs) rb) = length m) as L1 by (rewrite length_place; lia).
  split; [|split].
  - rewrite bytesAt_other ?length_le_bytes ?L1; [|lia..]. apply bytesAt_place; lia.
  - pose proof (bytesAt_place (place mem (respAt bufs) rb) (lenAt bufs) (le_bytes 4 (wrapU 32 (Z.of_nat (length rb))))) as Hb. rewrite length_le_bytes in Hb.
    rewrite Hb; [|lia|lia]. rewrite le_val_bytes. change (8 * Z.of_nat 4)%Z with 32%Z. rewrite wrapU_small; [|rewrite /inU; lia]. apply Z.mod_small. lia.
  - intros k Hk. rewrite place_lookup ?length_le_bytes ?L1; [|lia|lia|apply Hk]. destruct Hk as (O1 & O2 & O3). rewrite place_lookup; [|lia|lia|lia].
    by apply prepared_outside.
Qed.

(** *** A fetch through the host *)

Section through_host.
Context `{WasmEnv} `{GuestEnv} (MaxFetchRequests : Z).

Lemma wrapHeaders_ok h : wrapHeaders h = Ok ((λ kv, (kv.1, PString kv.2)) <$> h).
Proof.
  rewrite /wrapHeaders Wrap_AMap. assert (wrapEntries ((λ kv : string * string, (kv.1, AString kv.2)) <$> h) = Ok ((λ kv, (kv.1, Some (VString kv.2))) <$> h)) as ->.
  { induction h as [|[k v] h IH]; [done|]. cbn [fmap list_fmap wrapEntries]. cbn [fst snd Wrap obind]. by rewrite IH. }
  cbn [obind]. by rewrite -list_fmap_compose.
Qed.

Lemma stringFields_ok h : stringFields ((λ kv, (kv.1, PString kv.2)) <$> h) = h.
Proof. rewrite /stringFields. induction h as [|[k v] h IH]; [done|]. cbn [fmap list_fmap fst snd]. by rewrite IH. Qed.

(** The message of a request, and that of what [Fetch] gave. *)
Definition requestMessage (req : FetchRequest) (id : string) (md : Messages.RequestMetadata) : pbFetchRequest :=
  mkPbFetchRequest (URL req) (Method req) ((λ kv, (kv.1, PString kv.2)) <$> Headers req) (Body req) (TimeoutMs req) id (Some (fetchMetadata md)) (MaxRetries req).
Definition responseMessage (r : string + FetchResponse) : pbFetchResponse :=
  match r with
  | inl err => mkPbFetchResponse true err 0 [] []
  | inr resp => mkPbFetchResponse (ExecutionError resp) (ErrorMessage resp) (StatusCode resp) ((λ kv, (kv.1, PString kv.2)) <$> respHeaders resp) (respBody resp)
  end.
Definition fetched (r : string + FetchResponse) : string + option FetchResponse := match r with inl e => inl e | inr resp => inr (Some resp) end.

(** What the guest's caller gets of it. *)
Definition seenResponse (r : string + FetchResponse) : outcome gerror FetchResponse :=
  match r with
  | inl err => if String.eqb err "" then Ok (mkFetchResponse false "" 0 [] []) else Err (GText err)
  | inr resp =>
      if ExecutionError resp && negb (String.eqb (ErrorMessage resp) "") then Err (GText (ErrorMessage resp))
      else Ok (mkFetchResponse false "" (StatusCode resp) (respHeaders resp) (respBody resp))
  end.

Lemma toSdkReq_message req id md : toSdkReq (requestMessage req id md) = (req, fetchMetadata md).
Proof. destruct req. rewrite /toSdkReq /requestMessage /=. by rewrite stringFields_ok. Qed.

Lemma readFetchResponse_message r rb : unmarshalFetchResponse rb = inr (responseMessage r) → readFetchResponse rb = seenResponse r.
Proof.
  intros Hu. rewrite /readFetchResponse Hu.
  destruct r as [err|resp]; cbn [responseMessage pbExecutionError pbErrorMessage pbStatusCode pbRespHeaders pbRespBody seenResponse andb].
  - by destruct (String.eqb err "").
  - rewrite stringFields_ok. by destruct (ExecutionError resp), (String.eqb (ErrorMessage resp) "").
Qed.

(** The room a message needs. *)
Definition room (m rb : list byte) (respptr resplenptr : Z) : Prop :=
  smallMemory m ∧ (0 <= respptr ∧ respptr + Z.of_nat (length rb) <= Z.of_nat (length m))%Z ∧ (0 <= resplenptr ∧ resplenptr + 4 <= Z.of_nat (length m))%Z.

Definition written (m rb : list byte) (respptr resplenptr : Z) : list byte :=
  place (place m respptr rb) resplenptr (le_bytes 4 (wrapU 32 (Z.of_nat (length rb)))).

Lemma writeMessage_ok m rb respptr resplenptr : room m rb respptr resplenptr → writeMessage m rb respptr resplenptr = Ok (true, written m rb respptr resplenptr).
Proof.
  intros (Hm & H1 & H2). rewrite /writeMessage write_in_memory; [|done|lia|lia]. cbn [obind fst snd]. rewrite decide_False; [|lia].
  assert (length (place m respptr rb) = length m) as Hl by (apply length_place; lia). rewrite writeUInt32_inside; [|by rewrite /smallMemory Hl|lia|rewrite Hl; lia]. done.
Qed.

Lemma fetchErr_ok {S} m rb respptr resplenptr (h : S) err : marshalFetchResponse (responseMessage (inl err)) = inr rb → room m rb respptr resplenptr →
  fetchErr m respptr resplenptr h err = Ok (ErrnoSuccess, written m rb respptr resplenptr, h).
Proof. intros Hm Hr. rewrite /fetchErr. cbn in Hm. by rewrite Hm writeMessage_ok. Qed.

Lemma fetchRespond_ok {S} m rb respptr resplenptr (h : S) resp : marshalFetchResponse (responseMessage (inr resp)) = inr rb → room m rb respptr resplenptr →
  fetchRespond m respptr resplenptr h resp = Ok (ErrnoSuccess, written m rb respptr resplenptr, h).
Proof.
  intros Hm (Hs & H1 & H2). rewrite /fetchRespond /fromSdkResp wrapHeaders_ok. cbn [obind]. cbn in Hm. rewrite Hm. rewrite write_in_memory; [|done|lia|lia]. cbn [obind fst snd].
  rewrite decide_False; [|lia]. assert (length (place m respptr rb) = length m) as Hl by (apply length_place; lia).
  rewrite writeUInt32_inside; [|by rewrite /smallMemory Hl|lia|rewrite Hl; lia]. done.
Qed.

(** The host's side, when the request can be read and the response written. *)
Lemma host_fetch m respptr resplenptr reqptr reqptrlen h b req id md rd r rb :
  read m reqptr reqptrlen = Ok b → unmarshalFetchRequest b = inr (requestMessage req id md) →
  requestStore h !! id = Some rd → (fetchRequestsCounter rd < MaxFetchRequests)%Z →
  Fetch (length (trace (countFetch id rd h))) req (fetchMetadata md) = fetched r →
  marshalFetchResponse (responseMessage r) = inr rb → room m rb respptr resplenptr →
  fetch MaxFetchRequests m respptr resplenptr reqptr reqptrlen h = Ok (ErrnoSuccess, written m rb respptr resplenptr, countFetch id rd h).
Proof.
  intros Hr Hu Hst Hlt Hf Hm Hroom. rewrite /fetch /fetchRequest Hr. cbn [obind]. rewrite Hu. change (pbId (requestMessage req id md)) with id. rewrite /storeGet Hst.
  assert (limited MaxFetchRequests rd = false) as -> by (apply bool_decide_eq_false; lia). rewrite /fetchPerform.
  rewrite toSdkReq_message Hf. destruct r as [err|resp]; cbn [fetched]; [by apply fetchErr_ok|by apply fetchRespond_ok].
Qed.

(** The guest's side, when the host leaves [rb] and its length. *)
Lemma exchange_reads call cfg bufs b n (w : world) rb m' h' :
  layout w.1 bufs b n → Z.of_nat n = MaxResponseSizeBytes cfg → length rb ≤ n → length m' = length w.1 →
  bytesAt m' (respAt bufs) (length rb) = rb → le_val (bytesAt m' (lenAt bufs) 4) = Z.of_nat (length rb) →
  call (prepared w.1 bufs b n) (respAt bufs) (lenAt bufs) (reqAt bufs) (wrapS 32 (Z.of_nat (length b))) w.2 = Ok (ErrnoSuccess, m', h') →
  exchange call cfg bufs b (zeros n) (zeros uint32Size) w = (Ok rb, (m', h')).
Proof.
  intros Hly Hn Hrb Hlm Ha Hl Hc. rewrite /exchange. change (place (place (place w.1 (reqAt bufs) b) (respAt bufs) (zeros n)) (lenAt bufs) (zeros uint32Size)) with (prepared w.1 bufs b n).
  rewrite Hc. cbn [fst snd]. change (take 4 (drop (Z.to_nat (lenAt bufs)) m')) with (bytesAt m' (lenAt bufs) 4). rewrite Hl. cbv zeta.
  pose proof (ly_small _ _ _ _ Hly) as Hs. pose proof (ly_resp _ _ _ _ Hly) as Hresp. rewrite /smallMemory in Hs.
  rewrite decide_False; [|rewrite -Hn wrapU_small; [lia|rewrite /inU; lia]]. f_equal. rewrite length_zeros.
  change (take n (drop (Z.to_nat (respAt bufs)) m')) with (bytesAt m' (respAt bufs) n). rewrite (goSlice_ok _ 0 (length rb)); [|lia|rewrite /bytesAt length_take length_drop; lia].
  rewrite drop_0 Nat.sub_0_r -(bytesAt_prefix _ _ n) //. by rewrite Ha.
Qed.

Lemma answered_length m bufs b n rb : layout m bufs b n → length rb ≤ n → length (answeredMemory (prepared m bufs b n) bufs rb) = length m.
Proof.
  intros Hly Hrb. rewrite /answeredMemory. pose proof (prepared_length _ _ _ _ Hly) as Hpl. pose proof (ly_len _ _ _ _ Hly) as Hlen. pose proof (ly_resp _ _ _ _ Hly).
  assert (length (place (prepared m bufs b n) (respAt bufs) rb) = length m) as L1 by (rewrite length_place; lia). rewrite length_place ?length_le_bytes ?L1; lia.
Qed.

Lemma exchange_ok call cfg bufs b n (w : world) rb h' :
  layout w.1 bufs b n → Z.of_nat n = MaxResponseSizeBytes cfg → length rb ≤ n →
  call (prepared w.1 bufs b n) (respAt bufs) (lenAt bufs) (reqAt bufs) (wrapS 32 (Z.of_nat (length b))) w.2 =
    Ok (ErrnoSuccess, answeredMemory (prepared w.1 bufs b n) bufs rb, h') →
  exchange call cfg bufs b (zeros n) (zeros uint32Size) w = (Ok rb, (answeredMemory (prepared w.1 bufs b n) bufs rb, h')).
Proof.
  intros Hly Hn Hrb. destruct (answered_reads _ _ _ _ _ Hly Hrb) as (Ha & Hl & _). by apply exchange_reads; try apply answered_length.
Qed.

(** When the host writes nothing, the response is empty. *)
Lemma exchange_empty call cfg bufs b n (w : world) h' :
  layout w.1 bufs b n → Z.of_nat n = MaxResponseSizeBytes cfg →
  call (prepared w.1 bufs b n) (respAt bufs) (lenAt bufs) (reqAt bufs) (wrapS 32 (Z.of_nat (length b))) w.2 = Ok (ErrnoSuccess, prepared w.1 bufs b n, h') →
  exchange call cfg bufs b (zeros n) (zeros uint32Size) w = (Ok [], (prepared w.1 bufs b n, h')).
Proof.
  intros Hly Hn. apply exchange_reads; [done|done|cbn; lia|by apply prepared_length|done|]. pose proof Hly as [_ H1 H2 H3 _ _ _].
  assert (length (place w.1 (reqAt bufs) b) = length w.1) as L1 by (apply length_place; lia).
  assert (length (place (place w.1 (reqAt bufs) b) (respAt bufs) (zeros n)) = length w.1) as L2 by (rewrite length_place ?length_zeros; lia).
  rewrite /prepared. change 4 with (length (zeros uint32Size)) at 1. rewrite bytesAt_place; [done|lia|]. rewrite L2. change (length (zeros uint32Size)) with 4. lia.
Qed.

(** The host finds the request of a prepared memory, and has room for a response
    that fits. *)
Lemma prepared_read m bufs b n : layout m bufs b n → read (prepared m bufs b n) (reqAt bufs) (wrapS 32 (Z.of_nat (length b))) = Ok b.
Proof.
  intros Hly. pose proof (prepared_length _ _ _ _ Hly) as Hpl. pose proof Hly as [Hs H1 H2 H3 _ _ _].
  rewrite wrap32_small; [|rewrite /smallMemory in Hs; lia]. rewrite read_inside ?Hpl; [|by rewrite /smallMemory Hpl|lia..]. rewrite Nat2Z.id. f_equal. by apply prepared_request.
Qed.

Lemma prepared_room m bufs b n rb : layout m bufs b n → length rb ≤ n → room (prepared m bufs b n) rb (respAt bufs) (lenAt bufs).
Proof.
  intros Hly Hrb. pose proof (prepared_length _ _ _ _ Hly) as Hpl. pose proof Hly as [Hs H1 H2 H3 _ _ _]. split; [by rewrite /smallMemory Hpl|]. rewrite Hpl. lia.
Qed.

(** C18: a fetch goes through.  A guest that asks for a fetch, with its buffers
    anywhere in its memory but apart from each other, makes the host call [Fetch]
    with exactly the guest's request and its workflow's metadata, once, and gets
    its answer: the status, headers and body, or its error; the rest of the
    guest's memory is as it was.  (An error without a text arrives as an empty
    response.)  Messages must be understood as they were sent, the request must be
    running with fetches left, and the response must fit the buffer. *)
Theorem fetch_through_host cfg bufs req (w : world) id md rd n b r rb :
  RequestID cfg = Some id → Metadata cfg = Some md → Z.of_nat n = MaxResponseSizeBytes cfg → 0 < n →
  marshalFetchRequest (requestMessage req id md) = inr b → b ≠ [] → unmarshalFetchRequest b = inr (requestMessage req id md) →
  layout w.1 bufs b n → requestStore w.2 !! id = Some rd → (fetchRequestsCounter rd < MaxFetchRequests)%Z →
  Fetch (length (trace (countFetch id rd w.2))) req (fetchMetadata md) = fetched r →
  marshalFetchResponse (responseMessage r) = inr rb → unmarshalFetchResponse rb = inr (responseMessage r) → length rb ≤ n →
  ∃ m', guestFetch (fetch MaxFetchRequests) cfg bufs req w = (seenResponse r, (m', countFetch id rd w.2)) ∧
    ∀ k, outside bufs b n k → m' !! k = w.1 !! k.
Proof.
  intros Hid Hmd Hn Hpos Hmq Hb Huq Hly Hst Hlt Hf Hmr Hur Hrb. exists (answeredMemory (prepared w.1 bufs b n) bufs rb).
  split; [|by apply (answered_reads _ _ _ _ _ Hly Hrb)]. rewrite /guestFetch wrapHeaders_ok Hid Hmd.
  change (mkPbFetchRequest _ _ _ _ _ _ _ _) with (requestMessage req id md). rewrite Hmq.
  assert (bufferToPointerLen (reqAt bufs) b = Ok (reqAt bufs, wrapS 32 (Z.of_nat (length b)))) as -> by (by destruct b).
  rewrite /makeBuffer decide_False; [|lia]. rewrite -Hn Nat2Z.id. cbn [obind].
  assert (bufferToPointerLen (respAt bufs) (zeros n) = Ok (respAt bufs, wrapS 32 (Z.of_nat (length (zeros n))))) as -> by (by destruct n; [lia|]). cbn [obind].
  rewrite (exchange_ok _ _ _ _ _ _ rb (countFetch id rd w.2) Hly Hn Hrb).
  - cbn [obind]. by rewrite (readFetchResponse_message r).
  - apply (host_fetch _ _ _ _ _ _ b req id md rd r rb); try done; [by apply prepared_read|by apply prepared_room].
Qed.

(** *** An emission through the host *)

(** The labels that are emitted. *)
Definition emittedLabels (md : Messages.RequestMetadata) (labels : headers) : headers :=
  mapSet (mapSet (mapSet (mapSet labels "workflow_execution_id" (Messages.WorkflowExecutionID md)) "workflow_owner_address" (Messages.WorkflowOwner md))
    "workflow_id" (Messages.WorkflowID md)) "workflow_name" (Messages.WorkflowName md).

Definition completeMetadata (md : Messages.RequestMetadata) : Prop :=
  Messages.WorkflowID md ≠ "" ∧ Messages.WorkflowName md ≠ "" ∧ Messages.WorkflowOwner md ≠ "" ∧ Messages.WorkflowExecutionID md ≠ "".

Definition emitMessageOf (msg : string) (labels : headers) (id : string) : pbEmitRequest :=
  mkPbEmitRequest msg ((λ kv, (kv.1, PString kv.2)) <$> labels) id.

Lemma toEmitLabels_ok md labels : completeMetadata md → toEmitLabels md labels = Ok (emittedLabels md labels).
Proof.
  intros (H1 & H2 & H3 & H4). rewrite /toEmitLabels. apply String.eqb_neq in H1, H2, H3, H4. by rewrite H1 H2 H3 H4.
Qed.

Lemma host_emit m respptr resplenptr msgptr msglen h b msg labels id rd :
  (∀ l, labelStrings ((λ kv, (kv.1, Some (VString kv.2))) <$> l) = inr l) →
  read m msgptr msglen = Ok b → unmarshalEmitRequest b = inr (emitMessageOf msg labels id) → requestStore h !! id = Some rd →
  emit m respptr resplenptr msgptr msglen h =
    match Emit labels msg with Some err => emitErr m respptr resplenptr h err | None => Ok (ErrnoSuccess, m, h) end.
Proof.
  intros Hl Hr Hu Hst. rewrite /emit Hr /toEmissible Hu /toValidatedLabels. cbn [emLabels emitMessageOf emRequestId emMessage].
  assert ((λ kv : string * pbValue, (kv.1, FromProto kv.2)) <$> ((λ kv : string * string, (kv.1, PString kv.2)) <$> labels) = (λ kv, (kv.1, Some (VString kv.2))) <$> labels) as ->.
  { by rewrite -list_fmap_compose. }
  by rewrite Hl /storeGet Hst.
Qed.

Definition seenEmission (r : option string) : outcome gerror unit :=
  match r with Some err => if String.eqb err "" then Ok () else Err (GEmission (GText err)) | None => Ok () end.

(** An emission goes through.  A guest with complete metadata that emits a
    message makes the host emit that message with the guest's labels and the four
    labels of its workflow, and learns whether it failed; nothing else of the
    guest's memory changes, and nothing of the host. *)
Theorem emit_through_host cfg bufs msg labels (w : world) id md rd n b :
  RequestID cfg = Some id → Metadata cfg = Some md → completeMetadata md → Z.of_nat n = MaxResponseSizeBytes cfg → 0 < n →
  (∀ l, labelStrings ((λ kv, (kv.1, Some (VString kv.2))) <$> l) = inr l) →
  marshalEmitRequest (emitMessageOf msg (emittedLabels md labels) id) = inr b → b ≠ [] →
  unmarshalEmitRequest b = inr (emitMessageOf msg (emittedLabels md labels) id) →
  layout w.1 bufs b n → requestStore w.2 !! id = Some rd →
  unmarshalEmitResponse [] = inr None →
  (∀ err, Emit (emittedLabels md labels) msg = Some err →
     ∃ rb, marshalEmitError err = inr rb ∧ unmarshalEmitResponse rb = inr (Some err) ∧ length rb ≤ n) →
  ∃ m', guestEmit emit cfg bufs msg labels w = (seenEmission (Emit (emittedLabels md labels) msg), (m', w.2)) ∧
    ∀ k, outside bufs b n k → m' !! k = w.1 !! k.
Proof.
  intros Hid Hmd Hcm Hn Hpos Hls Hmq Hb Huq Hly Hst Hue Herr.
  assert (guestEmit emit cfg bufs msg labels w =
    (let '(r, w) := exchange emit cfg bufs b (zeros n) (zeros uint32Size) w in
     (match r with Ok bs => readEmitResponse bs | Err e => Err (GEmission e) | Panic => Panic end, w))) as ->.
  { rewrite /guestEmit Hmd toEmitLabels_ok // wrapHeaders_ok Hid. change (mkPbEmitRequest _ _ _) with (emitMessageOf msg (emittedLabels md labels) id). rewrite Hmq.
    rewrite /makeBuffer decide_False; [|lia]. rewrite -Hn Nat2Z.id. cbn [obind].
    assert (bufferToPointerLen (respAt bufs) (zeros n) = Ok (respAt bufs, wrapS 32 (Z.of_nat (length (zeros n))))) as -> by (by destruct n; [lia|]). cbn [obind].
    assert (bufferToPointerLen (reqAt bufs) b = Ok (reqAt bufs, wrapS 32 (Z.of_nat (length b)))) as -> by (by destruct b). done. }
  pose proof (host_emit (prepared w.1 bufs b n) (respAt bufs) (lenAt bufs) (reqAt bufs) (wrapS 32 (Z.of_nat (length b))) w.2 b msg (emittedLabels md labels) id rd
    Hls (prepared_read _ _ _ _ Hly) Huq Hst) as Hhost.
  destruct (Emit (emittedLabels md labels) msg) as [err|].
  - destruct (Herr err eq_refl) as (rb & Hm & Hu & Hrb). exists (answeredMemory (prepared w.1 bufs b n) bufs rb). split; [|by apply (answered_reads _ _ _ _ _ Hly Hrb)].
    rewrite (exchange_ok _ _ _ _ _ _ rb w.2 Hly Hn Hrb); [by rewrite /readEmitResponse Hu|]. rewrite Hhost /emitErr Hm writeMessage_ok; [done|by apply prepared_room].
  - exists (prepared w.1 bufs b n). split; [|intros k; by apply prepared_outside]. rewrite (exchange_empty _ _ _ _ _ _ w.2 Hly Hn Hhost). by rewrite /readEmitResponse Hue.
Qed.
End through_host.

(** *** The runner *)

Definition unknownID : string := "__UNKNOWN__".

(** [wasmpb.Request]: a compute request has the limit of its runtime
    configuration, if it has one. *)
Inductive requestMessageKind :=
  | SpecRequest
  | ComputeRequest (req : option Messages.pbCapabilityRequest) (runtimeConfig : option Z)
  | NoRequest.
Record Request := mkRequest { rqId : string; rqConfig : list byte; rqMessage : requestMessageKind }.

(** Marshalling of requests and of the payload of a response, and the texts of
    the errors of building a specification. *)
Class RunnerEnv := {
  marshalRequest : Request → string + list byte;
  unmarshalRequest : list byte → string + Request;
  specPayload : WorkflowSDK.pbSpec → list byte;
  computePayload : Messages.pbCapabilityResponse → list byte;
  specErrText : WorkflowSDK.error → string
}.

(** What a compute function does; the text of a panic is that of its error, or of
    the value with which it was called. *)
Inductive computed := CResponse (r : Messages.CapabilityResponse) | CError (text : string) | CPanic (text : string).
Definition computeFn : Type := RuntimeConfig → Messages.CapabilityRequest → computed.
Record Factory := mkFactory { spec : WorkflowSDK.WorkflowSpecFactory; fns : string → option computeFn }.

Section runner.
Context `{WasmEnv} `{GuestEnv} `{RunnerEnv}.

(** [parseRequest] *)
Definition parseRequest (args : list string) : string + Request :=
  match args with
  | [_; request] =>
      if String.eqb request "" then inl "invalid request: request cannot be empty"
      else match base64Decode request with
           | None => inl "invalid request: could not decode request into bytes"
           | Some b => match unmarshalRequest b with inl e => inl ("invalid request: could not unmarshal proto: " ++ e)%string | inr req => inr req end
           end
  | _ => inl "invalid request: request must contain a payload"
  end.

Definition errorResponse (id err : string) : Response := mkResponse id err [].

(** How handling a request fails: with an error, or in a panic that [Run]
    recovers from. *)
Inductive failure := FError (text : string) | FPanic (text : string).

(** The text of a nil dereference; wrapping a specification does not panic. *)
Definition nilDereference : string := "runtime error: invalid memory address or nil pointer dereference".

(** [handleSpecRequest] *)
Definition handleSpecRequest (factory : Factory) (id : string) : failure + Response :=
  match WorkflowSDK.SpecOf (spec factory) with
  | Panic => inl (FPanic nilDereference)
  | Err e => inl (FError ("error getting spec from factory: " ++ specErrText e)%string)
  | Ok sp =>
      match WorkflowSDK.WorkflowSpecToProto sp with
      | Panic => inl (FPanic nilDereference)
      | Err e => inl (FError ("failed to translate workflow spec to proto: " ++ specErrText e)%string)
      | Ok specpb => inr (mkResponse id "" (specPayload specpb))
      end
  end.

(** [handleComputeRequest] *)
Definition handleComputeRequest (factory : Factory) (id : string) (creq : option Messages.pbCapabilityRequest) (runtimeConfig : option Z) : failure + Response :=
  match creq with
  | None => inl (FError "invalid compute request: nil request")
  | Some req =>
      match Messages.pcrMetadata req with
      | None => inl (FError "invalid compute request: nil request metadata")
      | Some md =>
          match fns factory (Messages.ReferenceId md) with
          | None => inl (FError ("invalid compute request: could not find compute function for id " ++ Messages.ReferenceId md)%string)
          | Some fn =>
              match Messages.CapabilityRequestFromProto (Some req) with
              | Ok creq =>
                  let drc := defaultRuntimeConfig id (Messages.crMetadata creq) in
                  let drc := match runtimeConfig with
                             | Some max => if decide (max ≠ 0)%Z then mkRuntimeConfig max (RequestID drc) (Metadata drc) else drc
                             | None => drc
                             end in
                  match fn drc creq with
                  | CResponse resp => inr (mkResponse id "" (computePayload (Messages.CapabilityResponseToProto resp)))
                  | CError err => inl (FError ("error executing custom compute: " ++ err)%string)
                  | CPanic text => inl (FPanic text)
                  end
              | _ => inl (FError "invalid compute request: could not translate proto into capability request")
              end
          end
      end
  end.

(** [Runner.ExitWithError] *)
Definition ExitWithError (args : list string) (err : string) : Response :=
  match parseRequest args with inl e => errorResponse unknownID e | inr req => errorResponse (rqId req) err end.

(** [Runner.Config]: the configuration, or the response that is sent. *)
Definition Config (args : list string) : Response + list byte :=
  match parseRequest args with inl e => inl (errorResponse unknownID e) | inr req => inr (rqConfig req) end.

(** [Runner.Run]: the response that is sent. *)
Definition Run (args : list string) (factory : Factory) : Response :=
  match parseRequest args with
  | inl err => errorResponse unknownID err
  | inr req =>
      let handled :=
        match rqMessage req with
        | SpecRequest => handleSpecRequest factory (rqId req)
        | ComputeRequest creq rc => handleComputeRequest factory (rqId req) creq rc
        | NoRequest => inl (FError "invalid request: message must be SpecRequest or ComputeRequest")
        end in
      match handled with
      | inr resp => resp
      | inl (FError err) => errorResponse (rqId req) err
      | inl (FPanic text) => errorResponse (rqId req) text
      end
  end.

(** [sendResponseFn]: the exit code. *)
Definition sendResponseFn (at_ : Z) (response : Response) (w : world) : outcome gerror (Z * world) :=
  match marshalResponse response with
  | inl _ => Ok (110%Z, w)
  | inr pb =>
      if String.eqb (respId response) unknownID then Ok (111%Z, w)
      else
        match bufferToPointerLen at_ pb with
        | Ok (ptr, ptrlen) =>
            let mem := place w.1 at_ pb in
            match sendResponse mem ptr ptrlen w.2 with
            | Ok (errno, h) =>
                if decide (errno ≠ 0)%Z then Ok (113%Z, (mem, h))
                else Ok (if String.eqb (ErrMsg response) "" then 0%Z else 112%Z, (mem, h))
            | _ => Panic
            end
        | _ => Ok (110%Z, w)
        end
  end.

(** The arguments that the host gives the guest. *)
Definition hostArgs (reqpb : list byte) : list string := ["wasi"; base64Encode reqpb].

(** *** A run of the host and the guest *)

(** The limit that the host sets in a compute request; it is a [uint64] of the
    configuration, converted to [int64]. *)
Definition withRuntimeConfig (maxResponseSizeBytes : Z) (request : Request) : Request :=
  match rqMessage request with
  | ComputeRequest req _ => mkRequest (rqId request) (rqConfig request) (ComputeRequest req (Some (wrapS 64 maxResponseSizeBytes)))
  | _ => request
  end.

(** [Module.Run] with what the guest's start function, given its arguments, does
    to the host until it exits; [exitText] is the text of wasmtime's error for an
    exit code. *)
Definition runGuest (cfg : ModuleConfig) (exitText : Z → string) (start : list string → host → outcome gerror (Z * host)) (request : Request) (h : host)
    : outcome rerror (option Response) * host :=
  let id := rqId request in
  match beginRun id h with
  | None => run None (λ h, Ok h) (Some id) None h
  | Some h1 =>
      match marshalRequest (withRuntimeConfig (WasmHost.MaxResponseSizeBytes cfg) request) with
      | inl text => run (Some text) (λ h, Ok h) (Some id) None h
      | inr reqpb =>
          match start (hostArgs reqpb) h1 with
          | Ok (code, h2) => run None (λ _, Ok h2) (Some id) (Some (exitText code)) h
          | _ => run None (λ _, Panic) (Some id) None h
          end
      end
  end.

Lemma parse_hostArgs reqpb : reqpb ≠ [] →
  parseRequest (hostArgs reqpb) = match unmarshalRequest reqpb with inl e => inl ("invalid request: could not unmarshal proto: " ++ e)%string | inr req => inr req end.
Proof.
  intros Hne. rewrite /parseRequest /hostArgs. rewrite base64_roundtrip. destruct (String.eqb_spec (base64Encode reqpb) "") as [E|_]; [|done].
  destruct reqpb as [|x [|y [|z l]]]; [done|discriminate E..].
Qed.

(** Every response of the runner carries the request's id. *)
Lemma Run_id args factory req : parseRequest args = inr req → respId (Run args factory) = rqId req.
Proof.
  intros Hp. rewrite /Run Hp. destruct (rqMessage req) as [|creq rc|].
  - rewrite /handleSpecRequest. destruct (WorkflowSDK.SpecOf _); [|done|done]. by destruct (WorkflowSDK.WorkflowSpecToProto _).
  - rewrite /handleComputeRequest. destruct creq as [creq|]; [|done]. destruct (Messages.pcrMetadata creq); [|done]. destruct (fns _ _); [|done].
    destruct (Messages.CapabilityRequestFromProto _); [|done|done]. by destruct (c _ _).
  - done.
Qed.

(** A stored response is what the host finds at the end. *)
Lemma sendResponseFn_stores at_ resp (w : world) pb rd :
  marshalResponse resp = inr pb → pb ≠ [] → unmarshalResponse pb = inr resp → respId resp ≠ unknownID →
  smallMemory w.1 → (0 <= at_ ∧ at_ + Z.of_nat (length pb) <= Z.of_nat (length w.1))%Z → requestStore w.2 !! respId resp = Some rd →
  sendResponseFn at_ resp w =
    Ok (if String.eqb (ErrMsg resp) "" then 0%Z else 112%Z,
        (place w.1 at_ pb, mkHost (<[respId resp := mkRequestData (fetchRequestsCounter rd) (Some resp)]> (requestStore w.2)) (trace w.2 ++ [LResponse resp]))).
Proof.
  intros Hm Hne Hu Hid Hs Hat Hst. rewrite /sendResponseFn Hm. apply String.eqb_neq in Hid as ->.
  assert (bufferToPointerLen at_ pb = Ok (at_, wrapS 32 (Z.of_nat (length pb)))) as -> by (by destruct pb).
  assert (length (place w.1 at_ pb) = length w.1) as Hl by (apply length_place; lia).
  rewrite /sendResponse /responseAt wrap32_small; [|rewrite /smallMemory in Hs; lia]. rewrite read_inside ?Hl; [|by rewrite /smallMemory Hl|lia..].
  rewrite Nat2Z.id. change (take (length pb) (drop (Z.to_nat at_) (place w.1 at_ pb))) with (bytesAt (place w.1 at_ pb) at_ (length pb)).
  rewrite bytesAt_place; [|lia|lia]. cbn [obind]. rewrite Hu /storeGet Hst. done.
Qed.

Definition exitCodes : list Z := [0; 110; 111; 112; 113]%Z.

(** C17: a request is answered.  When the host runs a guest, and the guest, after
    any calls of its own and amid those of other guests, sends the response that
    its runner makes of the request it is given (the host's, with the configured
    limit in a compute request), then [Module.Run] returns that response, or
    its error; it carries the request's id, and the request is no longer stored.
    The messages must be understood as they were sent, and the texts of
    wasmtime's errors must tell the exit codes apart. *)
Theorem request_answered MaxFetchRequests cfg exitText factory request reqpb resp pb mem at_ es0 es h :
  rqId request ≠ "" → rqId request ≠ unknownID →
  let sent := withRuntimeConfig (WasmHost.MaxResponseSizeBytes cfg) request in
  marshalRequest sent = inr reqpb → reqpb ≠ [] → unmarshalRequest reqpb = inr sent →
  resp = Run (hostArgs reqpb) factory →
  marshalResponse resp = inr pb → pb ≠ [] → unmarshalResponse pb = inr resp →
  smallMemory mem → (0 <= at_ ∧ at_ + Z.of_nat (length pb) <= Z.of_nat (length mem))%Z →
  (∀ c code, c ∈ exitCodes → code ∈ exitCodes → containsCode (Some (exitText c)) (Itoa code) = bool_decide (c = code)) →
  hsteps MaxFetchRequests freshHost es0 = Ok h → running (rqId request) (trace h) = false → notEnded (rqId request) es →
  let start args h1 :=
    match hsteps MaxFetchRequests h1 es with
    | Ok h2 => let? r := sendResponseFn at_ (Run args factory) (mem, h2) in Ok (r.1, r.2.2)
    | _ => Panic
    end in
  (∀ h1, beginRun (rqId request) h = Some h1 → ∃ h2, hsteps MaxFetchRequests h1 es = Ok h2) →
  let result := runGuest cfg exitText start request h in
  result.1 = (if String.eqb (ErrMsg resp) "" then Ok (Some resp) else Err (ErrRunner (ErrMsg resp))) ∧
  respId resp = rqId request ∧ requestStore result.2 !! rqId request = None.
Proof.
  intros Hid Hun sent Hmq Hrq Huq Hresp Hmr Hpb Hur Hs Hat Hexit Hes0 Hrun Hne start Hes.
  assert (respId resp = rqId request) as Hrid.
  { rewrite Hresp (Run_id _ _ sent); [|by rewrite parse_hostArgs // Huq]. rewrite /sent /withRuntimeConfig. by destruct (rqMessage request). }
  pose proof (hsteps_inv MaxFetchRequests _ _ _ (fresh_inv MaxFetchRequests) Hes0) as Hinv.
  destruct (begin_running MaxFetchRequests _ _ Hinv Hrun) as (h1 & Hb & Ht1 & Hinv1 & Hr1). destruct (Hes h1 Hb) as [h2 Hh2].
  pose proof (hsteps_inv MaxFetchRequests _ _ _ Hinv1 Hh2) as Hinv2.
  destruct (hsteps_running MaxFetchRequests _ _ _ _ Hinv1 Hne Hr1 Hh2) as (new & Ht2 & Ha & Hd).
  assert (requestStore h2 !! rqId request = specStore (rqId request) (trace h2)) as Hst by (apply (hi_store _ _ Hinv2)).
  assert (running (rqId request) (trace h2) = true) as Hr2 by (rewrite Ht2 /running foldl_app; by apply running_kept).
  rewrite /specStore Hr2 -Hrid in Hst.
  pose proof (sendResponseFn_stores at_ resp (mem, h2) pb _ Hmr Hpb Hur ltac:(by rewrite Hrid) Hs Hat Hst) as Hsend.
  cbv zeta. rewrite /runGuest Hb Hmq. subst start. cbv beta. rewrite Hh2 -Hresp Hsend. cbn [obind fst snd]. rewrite /run. apply String.eqb_neq in Hid as ->. rewrite Hb. cbn [fst snd].
  split; [|split; [done|by rewrite /= /storeDelete lookup_delete_eq]]. rewrite /runResult /storeGet. cbn [requestStore]. rewrite -Hrid lookup_insert_eq. cbn [response].
  assert (0%Z ∈ exitCodes ∧ 110%Z ∈ exitCodes ∧ 111%Z ∈ exitCodes ∧ 112%Z ∈ exitCodes) as (E0 & E1 & E2 & E3) by (rewrite /exitCodes; set_solver).
  change CodeSuccess with (Itoa 0). change CodeInvalidResponse with (Itoa 110). change CodeInvalidRequest with (Itoa 111). change CodeRunnerErr with (Itoa 112).
  destruct (String.eqb (ErrMsg resp) ""); rewrite ?Hexit //.
Qed.
End runner.

(** *** Witnesses

    A workflow with one message of each kind, so that every message is one byte;
    the host's fetch function answers with a status. *)

Definition demoMetadata : Messages.RequestMetadata := Messages.mkRequestMetadata "wid" "owner" "exec" "name" 1 1 "ref" "decoded".
Definition demoConfig : RuntimeConfig := mkRuntimeConfig 4 (Some "run") (Some demoMetadata).
Definition demoFetch : FetchRequest := mkFetchRequest "https://example.org" "GET" [("accept", "text")] [x2a] 100 3.
Definition demoAnswer : FetchResponse := mkFetchResponse false "" 200 [("type", "text")] [x2b].
Definition demoLabels : headers := emittedLabels demoMetadata [("k", "v")].

#[local] Instance demoWasm : WasmEnv := {
  marshalFetchRequest _ := inr [x01];
  unmarshalFetchRequest _ := inr (requestMessage demoFetch "run" demoMetadata);
  marshalFetchResponse _ := inr [x02];
  unmarshalFetchResponse _ := inr (responseMessage (inr demoAnswer));
  unmarshalResponse bs := inr (mkResponse "run" (if decide (bs = [x03]) then "invalid request: message must be SpecRequest or ComputeRequest" else "") []);
  marshalEmitError _ := inr [x04];
  unmarshalEmitRequest _ := inr (emitMessageOf "hello" demoLabels "run");
  labelStrings l := inr ((λ kv, (kv.1, match kv.2 with Some (VString s) => s | _ => "" end)) <$> l);
  Fetch _ _ _ := inr (Some demoAnswer);
  Emit _ _ := Some "no beholder"
}.

#[local] Instance demoGuest : GuestEnv := {
  marshalEmitRequest _ := inr [x05];
  unmarshalEmitResponse bs := inr (if decide (bs = []) then None else Some "no beholder");
  marshalResponse _ := inr [x03]
}.

#[local] Instance demoRunner : RunnerEnv := {
  marshalRequest _ := inr [x06];
  unmarshalRequest _ := inr (mkRequest "run" [] NoRequest);
  specPayload _ := [];
  computePayload _ := [];
  specErrText _ := ""
}.

Definition demoBuffers : buffers := mkBuffers 0 4 8.
Definition demoHost : host := mkHost {[ "run" := mkRequestData 0 None ]} [LAdd "run"].
Definition demoWorld : world := (zeros 16, demoHost).

Definition demoModule : ModuleConfig := mkModuleConfig true 100 None 0 0 0 true 0 0 0 0 None.
Definition demoFactory : Factory := mkFactory WorkflowSDK.NewWorkflowSpecFactory (λ _, None).

Lemma demo_layout b : length b = 1 → layout demoWorld.1 demoBuffers b 4.
Proof. intros Hb. split; rewrite /smallMemory /demoWorld ?Hb; cbn; lia. Qed.

Lemma fetch_through_host_witness :
  ∃ m', guestFetch (fetch 5) demoConfig demoBuffers demoFetch demoWorld = (Ok demoAnswer, (m', countFetch "run" (mkRequestData 0 None) demoHost)) ∧
    ∀ k, outside demoBuffers [x01] 4 k → m' !! k = zeros 16 !! k.
Proof.
  exact (fetch_through_host 5 demoConfig demoBuffers demoFetch demoWorld "run" demoMetadata (mkRequestData 0 None) 4 [x01] (inr demoAnswer) [x02]
    eq_refl eq_refl eq_refl ltac:(lia) eq_refl ltac:(done) eq_refl (demo_layout [x01] eq_refl) ltac:(reflexivity) ltac:(cbn; lia) eq_refl eq_refl eq_refl ltac:(cbn; lia)).
Defined.

Lemma emit_through_host_witness :
  ∃ m', guestEmit emit demoConfig demoBuffers "hello" [("k", "v")] demoWorld = (Err (GEmission (GText "no beholder")), (m', demoHost)) ∧
    ∀ k, outside demoBuffers [x05] 4 k → m' !! k = zeros 16 !! k.
Proof.
  refine (emit_through_host demoConfig demoBuffers "hello" [("k", "v")] demoWorld "run" demoMetadata (mkRequestData 0 None) 4 [x05]
    eq_refl eq_refl _ eq_refl ltac:(lia) _ eq_refl ltac:(done) eq_refl (demo_layout [x05] eq_refl) ltac:(reflexivity) eq_refl _).
  - by repeat split.
  - intros l. cbn. f_equal. rewrite -list_fmap_compose. induction l as [|[k v] l IH]; [done|]. cbn. by rewrite IH.
  - intros err [= <-]. exists [x04]. split_and!; [done|done|cbn; lia].
Defined.

(** The guest, after a fetch, answers that the request has no message. *)
Lemma request_answered_witness :
  (runGuest demoModule (λ c, "exit status " ++ Itoa c)%string
    (λ args h1, match hsteps 5 h1 [EFetch [x01] 0 0 0 1] with
           | Ok h2 => let? r := sendResponseFn 0 (Run args demoFactory) (zeros 4, h2) in Ok (r.1, r.2.2)
           | _ => Panic
           end) (mkRequest "run" [] NoRequest) freshHost).1
  = Err (ErrRunner "invalid request: message must be SpecRequest or ComputeRequest").
Proof.
  refine (proj1 (request_answered 5 demoModule (λ c, "exit status " ++ Itoa c)%string demoFactory (mkRequest "run" [] NoRequest) [x06]
    (errorResponse "run" "invalid request: message must be SpecRequest or ComputeRequest") [x03] (zeros 4) 0 [] [EFetch [x01] 0 0 0 1] freshHost
    _ _ eq_refl _ eq_refl _ eq_refl _ eq_refl _ _ _ eq_refl eq_refl _ _)).
  1-3: done.
  - vm_compute. reflexivity.
  - done.
  - rewrite /smallMemory. cbn. lia.
  - cbn. lia.
  - assert (Forall (λ c, Forall (λ code, containsCode (Some ("exit status " ++ Itoa c)%string) (Itoa code) = bool_decide (c = code)) exitCodes) exitCodes) as Hall
      by (rewrite /exitCodes; repeat (apply Forall_cons; split); try apply Forall_nil; vm_compute; reflexivity).
    intros c code Hc Hcode. rewrite Forall_forall in Hall. specialize (Hall c Hc). rewrite Forall_forall in Hall. exact (Hall code Hcode).
  - by apply not_elem_of_cons; split; [|apply not_elem_of_nil].
  - intros h1 [= <-]. eexists. vm_compute. reflexivity.
Defined.
End WasmGuest.
