(* ===== verification/RemoteErrors.v ===== *)
(** [src/pkg/types/provider.go] and [src/pkg/loop/internal/net/errors.go]: the
    error types that a provider returns, and what is left of an error when it
    reaches a client in another process.

    gRPC's [status.FromError] is an interface with its documented behaviour; a
    handler's error arrives as a status with the code and message that it has. *)

From Stdlib.Strings Require Import Ascii.
From S2P Require Import Prelude GoStrings.

Module RemoteErrors.

Inductive code := Unknown | InvalidArgument | NotFound | Unimplemented | Internal | OtherCode (n : Z).
#[global] Instance code_eq_dec : EqDecision code.
Proof. solve_decision. Defined.

Inductive kind := InvalidArgumentError | UnimplementedError | InternalError | NotFoundError.
#[global] Instance kind_eq_dec : EqDecision kind.
Proof. solve_decision. Defined.

(** Errors: of [errors.New], of [fmt.Errorf] with the errors that its [%w] verbs
    wrap, of the types above, a status of gRPC, and [wrappedError]. *)
Inductive error :=
  | EText (msg : string)
  | EWrap (msg : string) (es : list error)
  | ETyped (k : kind) (msg : string)
  | EStatus (c : code) (msg : string)
  | ERemote (err : error) (c : code) (msg : string).

(** The codes of the [GRPCStatus] methods. *)
Definition codeOf (k : kind) : code :=
  match k with InvalidArgumentError => InvalidArgument | UnimplementedError => Unimplemented | InternalError => Internal | NotFoundError => NotFound end.

(** The sentinel errors of [types]. *)
Definition ErrInvalidType : kind * string := (InvalidArgumentError, "invalid type").
Definition ErrInvalidEncoding : kind * string := (InvalidArgumentError, "invalid encoding").
Definition ErrNotFound : kind * string := (NotFoundError, "not found").
Definition ErrFieldNotFound : kind * string := (InvalidArgumentError, "field not found").
Definition ErrInternal : kind * string := (InternalError, "internal error").
Definition typed (target : kind * string) : error := ETyped target.1 target.2.

(** [GRPCStatus] of an error that has the method itself. *)
Definition ownStatus (e : error) : option (code * string) :=
  match e with
  | ETyped k msg => Some (codeOf k, msg)
  | EStatus c msg | ERemote _ c msg => Some (c, msg)
  | EText _ | EWrap _ _ => None
  end.

Definition firstSome {A B} (f : A → option B) : list A → option B :=
  fix go l := match l with [] => None | x :: l => match f x with Some y => Some y | None => go l end end.

(** [errors.As] for the method: the first one in the tree. *)
Fixpoint firstStatus (e : error) : option (code * string) := match e with EWrap _ es => firstSome firstStatus es | e => ownStatus e end.

(** The text of a status as an error; [status.FromError] gives a code, a message
    and whether the error has a status; a wrapped status has the whole text. *)
Class GRPCStatus := {
  statusText : code → string → string;
  text : error → string := fix text e :=
    match e with EText msg | EWrap msg _ | ETyped _ msg => msg | EStatus c msg => statusText c msg | ERemote err _ _ => text err end;
  FromError : error → code * string * bool;
  FromError_own : ∀ e c msg, ownStatus e = Some (c, msg) → FromError e = (c, msg, true);
  FromError_wrapped : ∀ msg es c m, firstStatus (EWrap msg es) = Some (c, m) → FromError (EWrap msg es) = (c, msg, true);
  FromError_none : ∀ e, firstStatus e = None → FromError e = (Unknown, text e, false)
}.

Section errors.
Context `{GRPCStatus}.

(** [status.Convert] *)
Definition Convert (e : error) : code * string := (FromError e).1.

(** [grpcErrorHasTypeAndMessage] *)
Definition grpcErrorHasTypeAndMessage (target : error) (msg : string) (c : code) : bool :=
  let '(s, ok) := FromError target in
  ok && bool_decide (s.1 = c) && existsb (λ part, String.eqb (trimSpaces part) msg) (Split s.2 ":"%char).

(** The [Is] methods of the typed errors, and of [wrappedError]. *)
Definition typedIs (k : kind) (msg : string) (target : kind * string) : bool :=
  bool_decide ((k, msg) = target) || grpcErrorHasTypeAndMessage (typed target) msg (codeOf k).
Definition wrappedIs (c : code) (msg : string) (target : kind * string) : bool :=
  let s := Convert (typed target) in bool_decide (c = s.1) && contains msg s.2.

(** [errors.Is] with one of the typed errors as its target. *)
Fixpoint Is (e : error) (target : kind * string) : bool :=
  match e with
  | EText _ | EStatus _ _ => false
  | EWrap _ es => existsb (λ e, Is e target) es
  | ETyped k msg => typedIs k msg target
  | ERemote _ c msg => wrappedIs c msg target
  end.

(** [WrapRPCErr] *)
Definition WrapRPCErr (err : option error) : option error :=
  match err with None => None | Some err => let s := Convert err in Some (ERemote err s.1 s.2) end.

(** The error that gRPC gives a client whose server returned [e]. *)
Definition arrived (e : error) : error := EStatus (Convert e).1 (Convert e).2.

(** What the caller of a client gets. *)
Definition remoteError (e : error) : error := match WrapRPCErr (Some (arrived e)) with Some e => e | None => e end.

(** *** Facts *)

Lemma Convert_own e c msg : ownStatus e = Some (c, msg) → Convert e = (c, msg).
Proof. intros Ho. by rewrite /Convert (FromError_own e c msg). Qed.

Lemma Is_remote e target : Is (remoteError e) target = bool_decide ((Convert e).1 = codeOf target.1) && contains (Convert e).2 target.2.
Proof.
  rewrite /remoteError /WrapRPCErr /arrived. rewrite (Convert_own (EStatus _ _) (Convert e).1 (Convert e).2) //. cbn [Is fst snd]. rewrite /wrappedIs.
  by rewrite (Convert_own (typed target) (codeOf target.1) target.2).
Qed.

Lemma remoteError_status e : Convert (remoteError e) = Convert e.
Proof.
  rewrite {1}/remoteError /WrapRPCErr /arrived. rewrite (Convert_own (EStatus _ _) (Convert e).1 (Convert e).2) //.
  cbn [fst snd]. rewrite (Convert_own (ERemote _ _ _) (Convert e).1 (Convert e).2) //. by destruct (Convert e).
Qed.

(** The typed errors of a tree. *)
Fixpoint leaves (e : error) : list (kind * string) :=
  match e with EWrap _ es => flat_map leaves es | ETyped k msg => [(k, msg)] | _ => [] end.

(** No status of gRPC is in the tree, and a wrapping text has those it wraps, as
    [fmt.Errorf] makes it. *)
Fixpoint local (e : error) : Prop :=
  match e with
  | EWrap msg es => foldr (λ e P, local e ∧ contains msg (text e) = true ∧ P) True es
  | EText _ | ETyped _ _ => True
  | EStatus _ _ | ERemote _ _ _ => False
  end.

Lemma error_ind' (P : error → Prop) :
  (∀ msg, P (EText msg)) → (∀ msg es, Forall P es → P (EWrap msg es)) → (∀ k msg, P (ETyped k msg)) → (∀ c msg, P (EStatus c msg)) →
  (∀ err c msg, P err → P (ERemote err c msg)) → ∀ e, P e.
Proof.
  intros H1 H2 H3 H4 H5. fix go 1. intros [msg|msg es|k msg|c msg|err c msg]; [apply H1| |apply H3|apply H4|apply H5, go].
  apply H2. revert es. fix goes 1. intros [|e es]; constructor; [apply go|apply goes].
Qed.

Lemma local_wrap msg es : local (EWrap msg es) ↔ Forall (λ e, local e ∧ contains msg (text e) = true) es.
Proof.
  cbn [local]. induction es as [|e es IH]; cbn [foldr]; [by split; [constructor|]|]. rewrite IH Forall_cons. tauto.
Qed.

(** The first status of a local tree is its first typed error. *)
Lemma firstStatus_local e : local e → firstStatus e = (λ l, (codeOf l.1, l.2)) <$> head (leaves e).
Proof.
  induction e as [msg|msg es IH|k msg|c msg|err c msg _] using error_ind'; [done| |done|done|done]. rewrite local_wrap. cbn [firstStatus leaves].
  induction es as [|e es IHes]; [done|]. rewrite !Forall_cons in IH |- *. intros [[Hl _] Hes]. destruct IH as [He IH]. cbn [firstSome flat_map].
  rewrite (He Hl). destruct (leaves e) as [|l ls]; [by apply IHes|done].
Qed.

(** The text of a tree has the messages of its typed errors. *)
Lemma leaf_in_text e l : local e → l ∈ leaves e → contains (text e) l.2 = true.
Proof.
  induction e as [msg|msg es IH|k msg|c msg|err c msg _] using error_ind'; [by intros _ ?%elem_of_nil| | |done|done].
  - rewrite local_wrap. cbn [leaves]. intros Hes Hin. change (text (EWrap msg es)) with msg. apply list_elem_of_In, in_flat_map in Hin as (e & He & Hl).
    apply list_elem_of_In in He, Hl. rewrite !Forall_forall in IH, Hes. destruct (Hes e He) as [Hloc Hc]. by eapply contains_trans; [exact Hc|apply IH].
  - intros _ ->%list_elem_of_singleton. apply contains_refl.
Qed.

(** The status of a local tree. *)
Lemma Convert_local e : local e → Convert e = (match head (leaves e) with Some l => codeOf l.1 | None => Unknown end, text e).
Proof.
  intros Hl. pose proof (firstStatus_local e Hl) as Hf. destruct (head (leaves e)) as [l|]; cbn in Hf.
  - destruct e as [msg|msg es|k msg|c msg|err c msg]; try done.
    + by rewrite /Convert (FromError_wrapped msg es _ _ Hf).
    + cbn in Hf. injection Hf as <- _. by rewrite (Convert_own _ (codeOf k) msg).
  - by rewrite /Convert FromError_none.
Qed.

(** A target whose message is one part. *)
Definition plain (target : kind * string) : Prop := avoids ":"%char target.2 = true ∧ trimSpaces target.2 = target.2.

Lemma Is_local e target : local e → plain target → Is e target = true ↔ target ∈ leaves e.
Proof.
  intros Hl [Ha Ht]. induction e as [msg|msg es IH|k msg|c msg|err c msg _] using error_ind'; [|..|done|done].
  - split; [done|by intros ?%elem_of_nil].
  - rewrite local_wrap in Hl. cbn [Is leaves]. rewrite existsb_exists list_elem_of_In in_flat_map.
    split; intros (e & He & Hx); exists e; (split; [done|]); apply list_elem_of_In in He; rewrite !Forall_forall in IH, Hl; destruct (Hl e He) as [Hloc _].
    + by apply list_elem_of_In, IH.
    + by apply IH, list_elem_of_In.
  - cbn [Is leaves]. rewrite list_elem_of_singleton /typedIs orb_true_iff bool_decide_eq_true /grpcErrorHasTypeAndMessage.
    rewrite (FromError_own (typed target) (codeOf target.1) target.2) //. rewrite Split_one //. cbn [existsb fst snd andb]. rewrite orb_false_r Ht.
    rewrite andb_true_iff bool_decide_eq_true String.eqb_eq. destruct target as [k' m']. cbn [fst snd]. split; [intros [->|[Hk ->]]; [done|]|by left].
    f_equal. by destruct k, k'.
Qed.

(** C30: what a caller in another process can tell about an error.  Its
    [errors.Is] for a typed error of the repository is true exactly when the
    status that the server's error has is of that type's code and its text
    contains that message, also after another hop.  So a typed error that the
    server's error wraps is recognised, if the first typed error that it wraps
    has the same code, and an error that wraps none is not taken for any of them;
    here the server's error has no status from elsewhere in it, each wrapping text
    has those that it wraps, and the message is one part.  The converse does not
    hold: [remote_confusion]. *)
Theorem errors_cross e target :
  Is (remoteError e) target = bool_decide ((Convert e).1 = codeOf target.1) && contains (Convert e).2 target.2 ∧
  Is (remoteError (remoteError e)) target = Is (remoteError e) target ∧
  (local e → plain target → Is e target = true →
     (∀ first, head (leaves e) = Some first → codeOf first.1 = codeOf target.1) → Is (remoteError e) target = true) ∧
  (local e → leaves e = [] → Is (remoteError e) target = false).
Proof.
  split; [apply Is_remote|]. split; [by rewrite !Is_remote remoteError_status|]. rewrite Is_remote. split.
  - intros Hl Hp Hi Hfirst. apply Is_local in Hi; [|done|done]. rewrite Convert_local //. destruct (head (leaves e)) as [l|] eqn:Eh.
    + cbn [fst snd]. rewrite (Hfirst l) // bool_decide_eq_true_2 //. by apply leaf_in_text.
    + by destruct (leaves e); [apply elem_of_nil in Hi|].
  - intros Hl Hn. rewrite Convert_local // Hn. by destruct target as [[] m].
Qed.
End errors.

(** *** Examples and witnesses *)

Definition demoStatusText (c : code) (msg : string) : string := ("rpc error: desc = " ++ msg)%string.
Fixpoint demoText (e : error) : string :=
  match e with EText msg | EWrap msg _ | ETyped _ msg => msg | EStatus c msg => demoStatusText c msg | ERemote err _ _ => demoText err end.
Definition demoFromError (e : error) : code * string * bool :=
  match ownStatus e, firstStatus e with
  | Some st, _ => (st, true)
  | None, Some st => (st.1, demoText e, true)
  | None, None => (Unknown, demoText e, false)
  end.

#[local] Instance grpcStatus : GRPCStatus.
Proof.
  refine {| statusText := demoStatusText; FromError := demoFromError |}; rewrite /demoFromError.
  - intros e c msg Ho. by rewrite Ho.
  - intros msg es c m Hf. by rewrite Hf.
  - intros e Hf. rewrite Hf. by destruct e.
Defined.

(** What decoding an argument of the wrong type gives. *)
Definition demoError : error := EWrap "invalid type: json: unexpected end" [typed ErrInvalidType; EText "json: unexpected end"].

Lemma errors_cross_witness : Is demoError ErrInvalidType = true ∧ Is (remoteError demoError) ErrInvalidType = true.
Proof.
  split; [vm_compute; reflexivity|]. apply (errors_cross demoError ErrInvalidType); [by split_and!|by split|vm_compute; reflexivity|].
  intros first [= <-]. reflexivity.
Defined.

(** A remote error is taken for another whose message is part of its text; of two
    wrapped errors with different codes the second is lost. *)
Lemma remote_confusion :
  Is (typed ErrFieldNotFound) (InvalidArgumentError, "not found") = false ∧ Is (remoteError (typed ErrFieldNotFound)) (InvalidArgumentError, "not found") = true ∧
  (let e := EWrap "internal error: not found" [typed ErrInternal; typed ErrNotFound] in
   Is e ErrNotFound = true ∧ Is (remoteError e) ErrNotFound = false).
Proof. vm_compute. done. Qed.
End RemoteErrors.
