(* ===== verification/Query.v ===== *)
(** [src/pkg/types/query]: expressions that filter the sequences of a contract
    ([query.go], [primitives/primitives.go]), the key filters built from them
    ([key_filter.go]), limits and sort orders.

    What an expression selects is the business of each chain's database; here it
    is an abstract meaning of the primitives, with which [And] and [Or] are a
    conjunction and a disjunction. *)

From S2P Require Import Prelude GoBytes.

Module Query.

(** [ComparisonOperator], an [int] *)
Definition Eq : Z := 0.
Definition Neq : Z := 1.
Definition Gt : Z := 2.
Definition Lt : Z := 3.
Definition Gte : Z := 4.
Definition Lte : Z := 5.

Definition Finalized : string := "finalized".
Definition Unconfirmed : string := "unconfirmed".

(** [ConfidenceLevelFromString] *)
Definition ConfidenceLevelFromString (value : string) : option string :=
  if String.eqb value "finalized" then Some Finalized else if String.eqb value "unconfirmed" then Some Unconfirmed else None.

(** [BoolOperator], an [int] *)
Definition AND : Z := 0.
Definition OR : Z := 1.

(** The primitives, with values of type [V]; [OtherPrimitive] stands for an
    implementation of the interface in another package. *)
Inductive Primitive (V : Type) :=
  | Comparator (Name : string) (ValueComparators : list (V * Z))
  | Block (block : string) (Operator : Z)
  | Confidence (level : string)
  | Timestamp (timestamp Operator : Z)
  | TxHash (hash : string)
  | OtherPrimitive.
Arguments Comparator {V}.
Arguments Block {V}.
Arguments Confidence {V}.
Arguments Timestamp {V}.
Arguments TxHash {V}.
Arguments OtherPrimitive {V}.

(** A struct with both fields; the primitive, if it is not nil, decides. *)
Inductive Expression (V : Type) := mkExpression (primitive : option (Primitive V)) (expressions : list (Expression V)) (operator : Z).
Arguments mkExpression {V}.

Record KeyFilter (V : Type) := mkKeyFilter { Key : string; Expressions : list (Expression V) }.
Arguments mkKeyFilter {V}.
Arguments Key {V}.
Arguments Expressions {V}.

Section expressions.
Context {V : Type}.
Implicit Types e : Expression V.

Definition primitiveOf e : option (Primitive V) := let '(mkExpression p _ _) := e in p.
Definition boolExpressions e : list (Expression V) := let '(mkExpression _ es _) := e in es.
Definition IsPrimitive e : bool := match primitiveOf e with Some _ => true | None => false end.

Definition ofPrimitive (p : Primitive V) : Expression V := mkExpression (Some p) [] 0.
Definition ofBool (es : list (Expression V)) (op : Z) : Expression V := mkExpression None es op.

Definition And (es : list (Expression V)) : Expression V := match es with [e] => e | _ => ofBool es AND end.
Definition Or (es : list (Expression V)) : Expression V := match es with [e] => e | _ => ofBool es OR end.

(** [Where] *)
Definition Where (key : string) (es : list (Expression V)) : option (KeyFilter V) :=
  if existsb (λ e, negb (IsPrimitive e) && bool_decide (length (boolExpressions e) < 2)) es then None else Some (mkKeyFilter key es).

(** *** Key filters *)

Definition valueComparator (comparatorName : string) (value : V) (op : Z) : Expression V := ofPrimitive (Comparator comparatorName [(value, op)]).
Definition filtersForValues (comparatorName : string) (values : list V) : Expression V :=
  ofBool ((λ value, valueComparator comparatorName value Eq) <$> values) OR.

Definition IndexedSequencesKeyFilter (readName comparatorName : string) (values : list V) (confidence : string) : KeyFilter V :=
  mkKeyFilter readName [filtersForValues comparatorName values; ofPrimitive (Confidence confidence)].
Definition IndexedSequencesByBlockRangeKeyFilter (readName start end_ comparatorName : string) (values : list V) : KeyFilter V :=
  mkKeyFilter readName [filtersForValues comparatorName values; ofPrimitive (Block start Gte); ofPrimitive (Block end_ Lte)].
Definition IndexedSequencesValueGreaterThanKeyFilter (readName comparatorName : string) (value : V) (confidence : string) : KeyFilter V :=
  mkKeyFilter readName [valueComparator comparatorName value Gte; ofPrimitive (Confidence confidence)].
Definition IndexedSequencesValueRangeKeyFilter (readName comparatorName : string) (min max : V) (confidence : string) : KeyFilter V :=
  mkKeyFilter readName [valueComparator comparatorName min Gte; valueComparator comparatorName max Lte; ofPrimitive (Confidence confidence)].
Definition IndexedSequencesByTxHashKeyFilter (readName txHash : string) : KeyFilter V := mkKeyFilter readName [ofPrimitive (TxHash txHash)].
Definition SequencesByBlockRangeKeyFilter (readName start end_ : string) : KeyFilter V :=
  mkKeyFilter readName [ofPrimitive (Block start Gte); ofPrimitive (Block end_ Lte)].
(** [unix] is [timestamp.Unix()], an [int64]. *)
Definition SequencesCreatedAfterKeyFilter (readName : string) (unix : Z) (confidence : string) : KeyFilter V :=
  mkKeyFilter readName [ofPrimitive (Timestamp (wrapU 64 unix) Gt); ofPrimitive (Confidence confidence)].
Definition IndexedSequencesCreatedAfterKeyFilter (readName comparatorName : string) (values : list V) (unix : Z) (confidence : string) : KeyFilter V :=
  mkKeyFilter readName [filtersForValues comparatorName values; ofPrimitive (Timestamp (wrapU 64 unix) Gt); ofPrimitive (Confidence confidence)].
End expressions.

(** *** Limits and sort orders *)

(** [SortDirection], an [int], and [CursorDirection], an [int32]. *)
Definition Asc : Z := 0.
Definition Desc : Z := 1.
Definition CursorPrevious : Z := 1.
Definition CursorFollowing : Z := 2.

(** [OtherSort] stands for an implementation of the interface elsewhere. *)
Inductive SortBy := SortByTimestamp (dir : Z) | SortByBlock (dir : Z) | SortBySequence (dir : Z) | OtherSort (dir : Z).
Definition GetDirection (s : SortBy) : Z := match s with SortByTimestamp d | SortByBlock d | SortBySequence d | OtherSort d => d end.

Record Limit := mkLimit { Cursor : string; CursorDirection : Z; Count : Z }.
Definition CursorLimit (cursor : string) (cursorDirection count : Z) : Limit := mkLimit cursor cursorDirection count.
Definition CountLimit (count : Z) : Limit := mkLimit "" 0 count.

Record LimitAndSort := mkLimitAndSort { SortBys : list SortBy; limit : Limit }.
Definition NewLimitAndSort (l : Limit) (sortBy : list SortBy) : LimitAndSort := mkLimitAndSort sortBy l.
Definition HasCursorLimit (p : LimitAndSort) : bool := negb (String.eqb (Cursor (limit p)) "") && negb (CursorDirection (limit p) =? 0)%Z.
Definition HasSequenceSort (p : LimitAndSort) : bool := existsb (λ s, match s with SortBySequence _ => true | _ => false end) (SortBys p).

(** *** What a filter selects *)

Section meaning.
Context {V Seq : Type} (sem : Primitive V → Seq → bool).

Fixpoint selects (e : Expression V) (s : Seq) : bool :=
  let '(mkExpression p es op) := e in
  match p with
  | Some p => sem p s
  | None => if (op =? AND)%Z then forallb (λ e, selects e s) es else existsb (λ e, selects e s) es
  end.

Definition filterSelects (f : KeyFilter V) (s : Seq) : bool := forallb (λ e, selects e s) (Expressions f).

Lemma selects_And es s : selects (And es) s = forallb (λ e, selects e s) es.
Proof. destruct es as [|e [|e' es]]; [done| |done]. cbn. by rewrite andb_true_r. Qed.
Lemma selects_Or es s : selects (Or es) s = existsb (λ e, selects e s) es.
Proof. destruct es as [|e [|e' es]]; [done| |done]. cbn. by rewrite orb_false_r. Qed.

Definition comparatorSelects (name : string) (value : V) (op : Z) (s : Seq) : bool := sem (Comparator name [(value, op)]) s.

Lemma selects_filtersForValues name values s : selects (filtersForValues name values) s = existsb (λ v, comparatorSelects name v Eq s) values.
Proof. rewrite /filtersForValues /selects. cbn. induction values as [|v values IH]; [done|]. cbn. by rewrite IH. Qed.

(** The key filters select what their comments say: the values are alternatives,
    everything else is required. *)
Lemma key_filters_select readName name values value min max start end_ hash unix level s :
  filterSelects (IndexedSequencesKeyFilter readName name values level) s =
    existsb (λ v, comparatorSelects name v Eq s) values && sem (Confidence level) s ∧
  filterSelects (IndexedSequencesByBlockRangeKeyFilter readName start end_ name values) s =
    existsb (λ v, comparatorSelects name v Eq s) values && (sem (Block start Gte) s && sem (Block end_ Lte) s) ∧
  filterSelects (IndexedSequencesValueGreaterThanKeyFilter readName name value level) s =
    comparatorSelects name value Gte s && sem (Confidence level) s ∧
  filterSelects (IndexedSequencesValueRangeKeyFilter readName name min max level) s =
    comparatorSelects name min Gte s && (comparatorSelects name max Lte s && sem (Confidence level) s) ∧
  filterSelects (IndexedSequencesByTxHashKeyFilter readName hash) s = sem (TxHash hash) s ∧
  filterSelects (SequencesByBlockRangeKeyFilter readName start end_) s = sem (Block start Gte) s && sem (Block end_ Lte) s ∧
  filterSelects (SequencesCreatedAfterKeyFilter readName unix level) s = sem (Timestamp (wrapU 64 unix) Gt) s && sem (Confidence level) s ∧
  filterSelects (IndexedSequencesCreatedAfterKeyFilter readName name values unix level) s =
    existsb (λ v, comparatorSelects name v Eq s) values && (sem (Timestamp (wrapU 64 unix) Gt) s && sem (Confidence level) s).
Proof. rewrite /filterSelects /=. rewrite -!selects_filtersForValues. rewrite !andb_true_r. done. Qed.
End meaning.

Lemma Expression_ind' {V} (P : Expression V → Prop) : (∀ p es op, Forall P es → P (mkExpression p es op)) → ∀ e, P e.
Proof. intros H. fix go 1. intros [p es op]. apply H. revert es. fix goes 1. intros [|e es]; constructor; [apply go|apply goes]. Qed.

(** The filter for one value is not one that [Where] accepts, nor that for none,
    which selects nothing. *)
Lemma few_values {V Seq} (sem : Primitive V → Seq → bool) name (v : V) key s :
  Where key [filtersForValues name [v]] = None ∧ Where key [filtersForValues (V:=V) name []] = None ∧ selects sem (filtersForValues (V:=V) name []) s = false.
Proof. done. Qed.
End Query.
