(* ===== verification/ContractReader.v ===== *)
(** [src/pkg/loop/internal/relayer/pluginprovider/contractreader]: the client
    and the server through which a contract reader in another process is used
    ([contract_reader.go]), and those of a codec ([codec.go]).

    A call of the client gives its message to the server's handler; an error of
    the handler comes back as [RemoteErrors] describes.  JSON, CBOR and
    protocol-buffer marshalling, and the conversion of a value to a Go type, are
    an interface. *)

From S2P Require Import Prelude GoBytes GoStrings Values RemoteErrors Query.

Module ContractReader.
Import Values RemoteErrors Query.

(** *** Versioned bytes *)

Definition JSONEncodingVersion1 : Z := 0.
Definition JSONEncodingVersion2 : Z := 1.
Definition CBOREncodingVersion : Z := 2.
Definition ValuesEncodingVersion : Z := 3.
Definition DefaultEncodingVersion : Z := CBOREncodingVersion.

Record VersionedBytes := mkVersionedBytes { Version : Z; VData : list byte }.

(** What a pointer that is decoded into points to: a [values.Value] or a variable
    of a Go type. *)
Inductive target (G : Type) := TValue | TType (t : G).
Arguments TValue {G}.
Arguments TType {G}.

(** What marshals Go data, and unmarshals it into a variable of some type; an
    error is its text. *)
Class WireFormats := {
  gotype : Type;
  mapOfAny : gotype;                                               (* map[string]any *)
  jsonMarshal : any → string + list byte;
  jsonUnmarshal : target gotype → list byte → string + any;
  jsonv2Marshal : any → string + list byte;
  jsonv2Unmarshal : target gotype → list byte → string + any;
  cborMarshal : any → string + list byte;
  cborUnmarshal : target gotype → list byte → string + any;
  protoMarshal : pbValue → string + list byte;
  protoUnmarshal : list byte → string + pbValue;
  unwrapTo : gotype → Value → string + any;
  valuesErrText : Values.error → string;
  showAny : any → string;
  showBytes : list byte → string
}.

Section reader.
Context `{WireFormats} `{GRPCStatus}.

Definition asValueType (res : target gotype) : bool := match res with TValue => true | TType _ => false end.

(** [fmt.Errorf("%w: %w", target, err)] *)
Definition wrapped (k : kind * string) (err : string) : error := EWrap (k.2 ++ ": " ++ err)%string [typed k; EText err].
Definition orInvalidType {A} (r : string + A) : outcome error A := match r with inl err => Err (wrapped ErrInvalidType err) | inr a => Ok a end.

Definition EncodeVersionedBytes (data : any) (version : Z) : outcome error VersionedBytes :=
  let? bytes :=
    if (version =? JSONEncodingVersion1)%Z then orInvalidType (jsonMarshal data)
    else if (version =? JSONEncodingVersion2)%Z then orInvalidType (jsonv2Marshal data)
    else if (version =? CBOREncodingVersion)%Z then orInvalidType (cborMarshal data)
    else if (version =? ValuesEncodingVersion)%Z then
      let? val := map_err (λ e, wrapped ErrInvalidType (valuesErrText e)) (Wrap data) in orInvalidType (protoMarshal (Proto val))
    else Err (EWrap (ErrInvalidEncoding.2 ++ ": unsupported encoding version " ++ Itoa version ++ " for data " ++ showAny data)%string [typed ErrInvalidEncoding]) in
  Ok (mkVersionedBytes version bytes).

(** The interface [values.Value] as Go data. *)
Definition valueAny (v : option Value) : any := match v with Some v => AValue v | None => ANil end.

Definition DecodeVersionedBytes (res : target gotype) (vData : option VersionedBytes) : outcome error any :=
  match vData with
  | None => Err (EText "cannot decode nil versioned bytes")
  | Some v =>
      if (Version v =? JSONEncodingVersion1)%Z then orInvalidType (jsonUnmarshal res (VData v))
      else if (Version v =? JSONEncodingVersion2)%Z then orInvalidType (jsonv2Unmarshal res (VData v))
      else if (Version v =? CBOREncodingVersion)%Z then orInvalidType (cborUnmarshal res (VData v))
      else if (Version v =? ValuesEncodingVersion)%Z then
        let? protoValue := orInvalidType (protoUnmarshal (VData v)) in
        match res, FromProto protoValue with
        | TValue, value => Ok (valueAny value)
        | TType _, None => Panic                                   (* UnwrapTo of a nil interface *)
        | TType t, Some value => orInvalidType (unwrapTo t value)
        end
      else Err (EText ("unsupported encoding version " ++ Itoa (Version v) ++ " for versionedData " ++ showBytes (VData v))%string)
  end.

(** *** Messages *)

Record BoundContract := mkBoundContract { Address : string; Name : string }.
#[global] Instance BoundContract_eq_dec : EqDecision BoundContract.
Proof. solve_decision. Defined.
#[global] Program Instance BoundContract_countable : Countable BoundContract :=
  inj_countable (λ bc, (Address bc, Name bc)) (λ p, Some (mkBoundContract p.1 p.2)) _.
Next Obligation. by intros []. Qed.

Definition ReadIdentifier (bc : BoundContract) (readName : string) : string := (Address bc ++ "-" ++ Name bc ++ "-" ++ readName)%string.

Record Head := mkHead { Height : string; Hash : list byte; HeadTimestamp : Z }.
Record Sequence := mkSequence { SeqCursor : string; SeqHead : Head; Data : any }.

Definition pbValueComparator : Type := option VersionedBytes * Z.
Inductive pbPrimitive :=
  | PbComparator (name : string) (comparators : list pbValueComparator)
  | PbBlock (number : string) (operator : Z)
  | PbConfidence (c : Z)
  | PbTimestamp (timestamp operator : Z)
  | PbTxHash (hash : string)
  | PbNoPrimitive.
Inductive pbExpression := PbPrimitive (p : pbPrimitive) | PbBoolean (operator : Z) (es : list pbExpression) | PbNoEvaluator.
Record pbQueryFilter := mkPbQueryFilter { pbKey : string; pbExpressions : list pbExpression }.
Record pbLimit := mkPbLimit { pbCursor : option string; pbDirection : option Z; pbCount : Z }.
Record pbLimitAndSort := mkPbLimitAndSort { pbSortBy : list (Z * Z); pbLimitOf : option pbLimit }.
Record pbSequence := mkPbSequence { pbSeqCursor : string; pbSeqHead : Head; pbSeqData : option VersionedBytes }.

Definition Confidence_Unconfirmed : Z := 0.
Definition Confidence_Finalized : Z := 1.
Definition SortType_SortTimestamp : Z := 0.
Definition SortType_SortBlock : Z := 1.
Definition SortType_SortSequence : Z := 2.

Definition confidenceToProto (confidenceLevel : string) : outcome error Z :=
  if String.eqb confidenceLevel Finalized then Ok Confidence_Finalized
  else if String.eqb confidenceLevel Unconfirmed then Ok Confidence_Unconfirmed
  else Err (EText ("invalid confidence level " ++ confidenceLevel)%string).

Definition confidenceFromProto (pbConfidence : Z) : outcome error string :=
  if (pbConfidence =? Confidence_Finalized)%Z then Ok Finalized
  else if (pbConfidence =? Confidence_Unconfirmed)%Z then Ok Unconfirmed
  else Err (EText ("invalid pb confidence level: " ++ Itoa pbConfidence)%string).

Definition statusErr (msg : string) : error := EStatus InvalidArgument msg.

(** *** Expressions *)

Definition comparatorsToProto (encodeWith : Z) (vs : list (any * Z)) : outcome error (list pbValueComparator) :=
  omapM (λ vc, let? versionedValue := EncodeVersionedBytes vc.1 encodeWith in Ok (Some versionedValue, wrapS 32 vc.2)) vs.

Definition primitiveToProto (encodeWith : Z) (p : Primitive any) : outcome error pbPrimitive :=
  match p with
  | Comparator name vs => let? cs := comparatorsToProto encodeWith vs in Ok (PbComparator name cs)
  | Block block op => Ok (PbBlock block (wrapS 32 op))
  | Confidence level => let? c := confidenceToProto level in Ok (PbConfidence c)
  | Timestamp ts op => Ok (PbTimestamp ts (wrapS 32 op))
  | TxHash hash => Ok (PbTxHash hash)
  | OtherPrimitive => Err (statusErr "Unknown primitive type")
  end.

Fixpoint convertExpressionToProto (encodeWith : Z) (e : Expression any) : outcome error pbExpression :=
  let '(mkExpression p es op) := e in
  match p with
  | Some p => let? p := primitiveToProto encodeWith p in Ok (PbPrimitive p)
  | None =>
      let? es := (fix go es := match es with
                               | [] => Ok []
                               | e :: es => let? e := convertExpressionToProto encodeWith e in let? es := go es in Ok (e :: es)
                               end) es in
      Ok (PbBoolean (wrapS 32 op) es)
  end.

Definition convertQueryFilterToProto (filter : KeyFilter any) (encodeWith : Z) : outcome error pbQueryFilter :=
  let? es := omapM (convertExpressionToProto encodeWith) (Expressions filter) in Ok (mkPbQueryFilter (Key filter) es).

(** [CreateContractType] of the implementation, if it has the method; the result
    is a pointer to a new variable. *)
Definition typeProvider : Type := option (string → bool → string + target gotype).

Definition getContractEncodedType (readIdentifier : string) (ctp : typeProvider) (forEncoding : bool) : outcome error (target gotype) :=
  match ctp with
  | Some create => match create readIdentifier forEncoding with inl err => Err (EText err) | inr t => Ok t end
  | None => Ok (TType mapOfAny)
  end.

(** The decoded value is behind a pointer. *)
Definition decodeInto (readIdentifier : string) (ctp : typeProvider) (forEncoding : bool) (v : option VersionedBytes) : outcome error any :=
  let? t := getContractEncodedType readIdentifier ctp forEncoding in let? a := DecodeVersionedBytes t v in Ok (APtr (Some a)).

Definition primitiveFromProto (contract : BoundContract) (key : string) (ctp : typeProvider) (p : pbPrimitive) : outcome error (Primitive any) :=
  match p with
  | PbComparator name cs =>
      let? vs := omapM (λ c, let? val := decodeInto (ReadIdentifier contract (key ++ "." ++ name)%string) ctp true c.1 in Ok (val, c.2)) cs in
      Ok (Comparator name vs)
  | PbConfidence c => let? level := confidenceFromProto c in Ok (Confidence level)
  | PbBlock number op => Ok (Block number op)
  | PbTxHash hash => Ok (TxHash hash)
  | PbTimestamp ts op => Ok (Timestamp ts op)
  | PbNoPrimitive => Err (statusErr "Unknown primitive type")
  end.

Fixpoint convertExpressionFromProto (contract : BoundContract) (key : string) (ctp : typeProvider) (pe : pbExpression) : outcome error (Expression any) :=
  match pe with
  | PbBoolean op es =>
      let? es := (fix go es := match es with
                               | [] => Ok []
                               | e :: es => let? e := convertExpressionFromProto contract key ctp e in let? es := go es in Ok (e :: es)
                               end) es in
      Ok (if (op =? AND)%Z then And es else Or es)
  | PbPrimitive p => let? p := primitiveFromProto contract key ctp p in Ok (ofPrimitive p)
  | PbNoEvaluator => Err (statusErr "Unknown expression type")
  end.

Definition convertQueryFiltersFromProto (f : pbQueryFilter) (contract : BoundContract) (ctp : typeProvider) : outcome error (KeyFilter any) :=
  let? es := omapM (convertExpressionFromProto contract (pbKey f) ctp) (pbExpressions f) in Ok (mkKeyFilter (pbKey f) es).

(** *** Limits and sort orders *)

Definition sortToProto (s : SortBy) : outcome error (Z * Z) :=
  match s with
  | SortByBlock d => Ok (SortType_SortBlock, wrapS 32 d)
  | SortByTimestamp d => Ok (SortType_SortTimestamp, wrapS 32 d)
  | SortBySequence d => Ok (SortType_SortSequence, wrapS 32 d)
  | OtherSort _ => Err (statusErr "Unknown sort by type")
  end.

Definition cursorErr : error := statusErr "Limit cursor and cursor direction must both be defined or undefined".

Definition convertLimitAndSortToProto (p : LimitAndSort) : outcome error pbLimitAndSort :=
  let? sortByArr := omapM sortToProto (SortBys p) in
  let cursorDefined := negb (String.eqb (Cursor (limit p)) "") in
  let cursorDirectionDefined := negb (CursorDirection (limit p) =? 0)%Z in
  if HasCursorLimit p then
    Ok (mkPbLimitAndSort sortByArr (Some (mkPbLimit (Some (Cursor (limit p))) (Some (CursorDirection (limit p))) (Count (limit p)))))
  else if (negb cursorDefined && cursorDirectionDefined) || (cursorDefined && negb cursorDirectionDefined) then Err cursorErr
  else Ok (mkPbLimitAndSort sortByArr (Some (mkPbLimit None None (Count (limit p))))).

Definition sortFromProto (s : Z * Z) : outcome error SortBy :=
  if (s.1 =? SortType_SortTimestamp)%Z then Ok (SortByTimestamp s.2)
  else if (s.1 =? SortType_SortBlock)%Z then Ok (SortByBlock s.2)
  else if (s.1 =? SortType_SortSequence)%Z then Ok (SortBySequence s.2)
  else Err (statusErr "Unknown sort by type").

(** With a cursor the sort orders are converted and then not used. *)
Definition convertLimitAndSortFromProto (p : option pbLimitAndSort) : outcome error LimitAndSort :=
  match p with
  | None => Panic                                                  (* a nil dereference *)
  | Some p =>
      let? sortByArr := omapM sortFromProto (pbSortBy p) in
      match pbLimitOf p with
      | None => Panic
      | Some l =>
          match pbCursor l, pbDirection l with
          | Some cursor, Some direction => Ok (NewLimitAndSort (CursorLimit cursor direction (pbCount l)) [])
          | None, None => Ok (NewLimitAndSort (CountLimit (pbCount l)) sortByArr)
          | _, _ => Err cursorErr
          end
      end
  end.
(** *** Sequences *)

Definition sequenceToProto (version : Z) (s : Sequence) : outcome error pbSequence :=
  let? v := EncodeVersionedBytes (Data s) version in Ok (mkPbSequence (SeqCursor s) (SeqHead s) (Some v)).
Definition convertSequencesToVersionedBytesProto (sequences : list Sequence) (version : Z) : outcome error (list pbSequence) :=
  omapM (sequenceToProto version) sequences.

(** The type of the caller's [sequenceDataType]: as a pointer or not. *)
Record sequenceType := mkSequenceType { isPointer : bool; dataType : target gotype }.

Definition sequenceFromProto (t : sequenceType) (s : pbSequence) : outcome error Sequence :=
  let? cpy := DecodeVersionedBytes (dataType t) (pbSeqData s) in
  Ok (mkSequence (pbSeqCursor s) (pbSeqHead s) (if isPointer t then APtr (Some cpy) else cpy)).
Definition convertSequencesFromProto (pbSequences : list pbSequence) (t : sequenceType) : outcome error (list Sequence) :=
  omapM (sequenceFromProto t) pbSequences.

(** The encodings, by key; of two filters with the same key the later one counts. *)
Definition keyToEncodingVersion (encodeWith : Z) (filters : list (BoundContract * pbQueryFilter * bool)) : gmap string Z :=
  foldl (λ m f, <[pbKey f.1.2 := if f.2 : bool then ValuesEncodingVersion else encodeWith]> m) ∅ filters.

Definition convertSequencesWithKeyToVersionedBytesProto (sequences : list (string * Sequence)) (filters : list (BoundContract * pbQueryFilter * bool)) (encodeWith : Z)
    : outcome error (list (string * pbSequence)) :=
  omapM (λ ks, match keyToEncodingVersion encodeWith filters !! ks.1 with
               | None => Err (EText ("missing encoding version for key " ++ ks.1)%string)
               | Some version => let? s := sequenceToProto version ks.2 in Ok (ks.1, s)
               end) sequences.

Definition keyToType (keyQueries : list (string * sequenceType)) : gmap string sequenceType := foldl (λ m q, <[q.1 := q.2]> m) ∅ keyQueries.

(** A key that was not asked for has a nil type. *)
Definition convertSequencesWithKeyFromProto (pbSequences : list (string * pbSequence)) (keyQueries : list (string * sequenceType)) : outcome error (list (string * Sequence)) :=
  omapM (λ ks, match keyToType keyQueries !! ks.1 with
               | None => Panic
               | Some t => let? s := sequenceFromProto t ks.2 in Ok (ks.1, s)
               end) pbSequences.

(** *** Batches *)

(** A read of a request: the caller's [ReturnVal] points to a variable. *)
Record BatchRead := mkBatchRead { ReadName : string; Params : any; ReturnVal : nat; ReturnType : target gotype }.
(** A read as the server's implementation gets it; its [ReturnVal] is new. *)
Record serverRead := mkServerRead { srName : string; srParams : any; srType : option (target gotype) }.
(** A result of the implementation, and one that the client's caller gets, which
    has its pointer. *)
Record serverResult := mkServerResult { resName : string; resValue : any; resErr : option error }.
Record BatchReadResult := mkBatchReadResult { brName : string; brValue : nat; brErr : option error }.
(** The caller's variables. *)
Definition heap : Type := gmap nat any.

Definition pbBatch : Type := list (BoundContract * list (string * option VersionedBytes)).
Definition pbBatchReply : Type := list (BoundContract * list (string * option VersionedBytes * string)).

Definition convertBatchGetLatestValuesRequestToProto (O : RangeOrder (BoundContract * list BatchRead)) (request : gmap BoundContract (list BatchRead)) (encodeWith : Z)
    : outcome error pbBatch :=
  omapM (λ br, let? reads := omapM (λ r, let? v := EncodeVersionedBytes (Params r) encodeWith in Ok (ReadName r, Some v)) br.2 in Ok (br.1, reads)) (range_map O request).

(** One read of a batch is converted and stored at its index. *)
Definition readFromProto (ctp : typeProvider) (binding : BoundContract) (request : gmap BoundContract (list serverRead)) (ir : nat * (string * option VersionedBytes))
    : outcome error (gmap BoundContract (list serverRead)) :=
  let '(idx, (readName, v)) := ir in
  let? params := decodeInto (ReadIdentifier binding readName) ctp true v in
  let? retVal := getContractEncodedType (ReadIdentifier binding readName) ctp false in
  match request !! binding with
  | Some l => if decide (idx < length l) then Ok (<[binding := <[idx := mkServerRead readName params (Some retVal)]> l]> request) else Panic
  | None => Panic
  end.

Definition batchFromProto (ctp : typeProvider) (request : gmap BoundContract (list serverRead)) (b : BoundContract * list (string * option VersionedBytes))
    : outcome error (gmap BoundContract (list serverRead)) :=
  let request := match request !! b.1 with
                 | None => <[b.1 := replicate (length b.2) (mkServerRead "" ANil None)]> request
                 | Some _ => request
                 end in
  ofold (readFromProto ctp b.1) request (imap pair b.2).

Definition convertBatchGetLatestValuesRequestFromProto (pbRequest : option pbBatch) (ctp : typeProvider) : outcome error (gmap BoundContract (list serverRead)) :=
  match pbRequest with
  | None => Err (EText "received nil request from grpc BatchGetLatestValues")
  | Some bs => ofold (batchFromProto ctp) ∅ bs
  end.

Definition resultToProto (encodeWith : Z) (r : serverResult) : outcome error (string * option VersionedBytes * string) :=
  let replyErr := match resErr r with Some err => text err | None => "" end in
  let? v := EncodeVersionedBytes (resValue r) encodeWith in Ok (resName r, Some v, replyErr).

(** The keys of a map are distinct, so each contract gets one entry. *)
Definition newPbBatchGetLatestValuesReply (O : RangeOrder (BoundContract * list serverResult)) (result : gmap BoundContract (list serverResult)) (encodeWith : Z)
    : outcome error pbBatchReply :=
  omapM (λ br, let? rs := omapM (resultToProto encodeWith) br.2 in Ok (br.1, rs)) (range_map O result).

(** The value goes to the variable of the request. *)
Definition resultFromProto (st : list BatchReadResult * heap) (rr : (string * option VersionedBytes * string) * BatchRead) : outcome error (list BatchReadResult * heap) :=
  let '(res, req) := rr in
  let? a := DecodeVersionedBytes (ReturnType req) res.1.2 in
  let err := if String.eqb res.2 "" then None else Some (EText res.2) in
  Ok (st.1 ++ [mkBatchReadResult res.1.1 (ReturnVal req) err], <[ReturnVal req := a]> st.2).

Definition batchResultFromProto (request : gmap BoundContract (list BatchRead)) (st : gmap BoundContract (list BatchReadResult) * heap)
    (b : BoundContract * list (string * option VersionedBytes * string)) : outcome error (gmap BoundContract (list BatchReadResult) * heap) :=
  match request !! b.1 with
  | None => Err (EText ("received unexpected contract name " ++ Address b.1 ++ "-" ++ Name b.1 ++ " from grpc BatchGetLatestValues reply")%string)
  | Some reqs =>
      if decide (length reqs ≠ length b.2) then Err (EText ("request and results length for contract " ++ Address b.1 ++ "-" ++ Name b.1 ++ " are mismatched " ++
                                                            Itoa (Z.of_nat (length reqs)) ++ " vs " ++ Itoa (Z.of_nat (length b.2)))%string)
      else let? r := ofold resultFromProto ([], st.2) (zip b.2 reqs) in Ok (<[b.1 := r.1]> st.1, r.2)
  end.

Definition parseBatchGetLatestValuesReply (request : gmap BoundContract (list BatchRead)) (reply : option pbBatchReply) (h : heap)
    : outcome error (gmap BoundContract (list BatchReadResult) * heap) :=
  match reply with
  | None => Err (EText "received nil reply from grpc BatchGetLatestValues")
  | Some bs => ofold (batchResultFromProto request) (∅, h) bs
  end.
(** *** The server *)

(** [types.ContractReader]: what a call leaves in the variable of [retVal], and
    its result. *)
Record Reader := mkReader {
  ctp : typeProvider;
  GetLatestValue : string → string → any → target gotype → outcome error any;
  GetLatestValueWithHeadData : string → string → any → target gotype → outcome error (any * option Head);
  BatchGetLatestValues : gmap BoundContract (list serverRead) → outcome error (gmap BoundContract (list serverResult));
  QueryKey : BoundContract → KeyFilter any → LimitAndSort → target gotype → outcome error (list Sequence);
  QueryKeys : list (BoundContract * KeyFilter any * target gotype) → LimitAndSort → outcome error (list (string * Sequence));
  Bind : list BoundContract → option error;
  Unbind : list BoundContract → option error
}.

Record GetLatestValueRequest := mkGetRequest { rqIdentifier : string; rqConfidence : Z; rqParams : option VersionedBytes; rqAsValueType : bool }.

(** [Server.GetLatestValue] and [Server.GetLatestValueWithHeadData] differ in what
    the implementation gives. *)
Definition serverGet {A} (impl : Reader) (get : string → string → any → target gotype → outcome error (any * A)) (request : GetLatestValueRequest)
    : outcome error (option VersionedBytes * A) :=
  let? params := decodeInto (rqIdentifier request) (ctp impl) true (rqParams request) in
  let? retVal := getContractEncodedType (rqIdentifier request) (ctp impl) false in
  let? confidenceLevel := confidenceFromProto (rqConfidence request) in
  let? r := get (rqIdentifier request) confidenceLevel params retVal in
  let encodeWith := if rqAsValueType request then ValuesEncodingVersion else match rqParams request with Some v => Version v | None => 0%Z end in
  let? versionedBytes := EncodeVersionedBytes (APtr (Some r.1)) encodeWith in Ok (Some versionedBytes, r.2).

Definition serverGetLatestValue (impl : Reader) (request : GetLatestValueRequest) : outcome error (option VersionedBytes * unit) :=
  serverGet impl (λ id level params retVal, let? a := GetLatestValue impl id level params retVal in Ok (a, ())) request.
Definition serverGetLatestValueWithHeadData (impl : Reader) (request : GetLatestValueRequest) : outcome error (option VersionedBytes * option Head) :=
  serverGet impl (GetLatestValueWithHeadData impl) request.

Definition serverBatchGetLatestValues (impl : Reader) (encodeWith : Z) (O : RangeOrder (BoundContract * list serverResult)) (request : option pbBatch)
    : outcome error (option pbBatchReply) :=
  let? request := convertBatchGetLatestValuesRequestFromProto request (ctp impl) in
  let? reply := BatchGetLatestValues impl request in
  let? r := newPbBatchGetLatestValuesReply O reply encodeWith in Ok (Some r).

Record QueryKeyRequest := mkQueryKeyRequest { qkContract : BoundContract; qkFilter : pbQueryFilter; qkLimitAndSort : option pbLimitAndSort; qkAsValueType : bool }.

Definition serverQueryKey (impl : Reader) (encodeWith : Z) (request : QueryKeyRequest) : outcome error (list pbSequence) :=
  let contract := qkContract request in
  let? queryFilter := convertQueryFiltersFromProto (qkFilter request) contract (ctp impl) in
  let? sequenceDataType := getContractEncodedType (ReadIdentifier contract (Key queryFilter)) (ctp impl) false in
  let? limitAndSort := convertLimitAndSortFromProto (qkLimitAndSort request) in
  let? sequences := QueryKey impl contract queryFilter limitAndSort sequenceDataType in
  convertSequencesToVersionedBytesProto sequences (if qkAsValueType request then ValuesEncodingVersion else encodeWith).

Definition filterFromProto (ctp : typeProvider) (f : BoundContract * pbQueryFilter * bool) : outcome error (BoundContract * KeyFilter any * target gotype) :=
  let contract := f.1.1 in
  let? queryFilter := convertQueryFiltersFromProto f.1.2 contract ctp in
  let? sequenceDataType := getContractEncodedType (ReadIdentifier contract (Key queryFilter)) ctp false in
  Ok (contract, queryFilter, sequenceDataType).

Definition serverQueryKeys (impl : Reader) (encodeWith : Z) (request : list (BoundContract * pbQueryFilter * bool) * option pbLimitAndSort)
    : outcome error (list (string * pbSequence)) :=
  let? filters := omapM (filterFromProto (ctp impl)) request.1 in
  let? limitAndSort := convertLimitAndSortFromProto request.2 in
  let? sequences := QueryKeys impl filters limitAndSort in
  convertSequencesWithKeyToVersionedBytesProto sequences request.1 encodeWith.

(** [Server.Bind] and [Server.Unbind] *)
Definition serverBind (impl : Reader) (bindings : list BoundContract) : outcome error unit := match Bind impl bindings with None => Ok () | Some e => Err e end.
Definition serverUnbind (impl : Reader) (bindings : list BoundContract) : outcome error unit := match Unbind impl bindings with None => Ok () | Some e => Err e end.

(** *** The client

    A stub sends a message and gives the reply, or a status error. *)

Definition WrapRPC {A} (r : outcome error A) : outcome error A :=
  map_err (λ e, match WrapRPCErr (Some e) with Some e => e | None => e end) r.

(** A server behind gRPC, as a stub. *)
Definition over {A B} (server : A → outcome error B) (request : A) : outcome error B := map_err arrived (server request).

(** [Client.GetLatestValue] and [Client.GetLatestValueWithHeadData] *)
Definition clientGet {A} (grpc : GetLatestValueRequest → outcome error (option VersionedBytes * A)) (encodeWith : Z)
    (readIdentifier confidenceLevel : string) (params : any) (retVal : target gotype) : outcome error (any * A) :=
  let? versionedParams := EncodeVersionedBytes params encodeWith in
  let? pbConfidence := confidenceToProto confidenceLevel in
  let? reply := WrapRPC (grpc (mkGetRequest readIdentifier pbConfidence (Some versionedParams) (asValueType retVal))) in
  let? a := DecodeVersionedBytes retVal reply.1 in Ok (a, reply.2).

Definition clientBatchGetLatestValues (grpc : option pbBatch → outcome error (option pbBatchReply)) (encodeWith : Z) (O : RangeOrder (BoundContract * list BatchRead))
    (request : gmap BoundContract (list BatchRead)) (h : heap) : outcome error (gmap BoundContract (list BatchReadResult) * heap) :=
  let? pbRequest := convertBatchGetLatestValuesRequestToProto O request encodeWith in
  let? reply := WrapRPC (grpc (Some pbRequest)) in
  parseBatchGetLatestValuesReply request reply h.

Definition clientQueryKey (grpc : QueryKeyRequest → outcome error (list pbSequence)) (encodeWith : Z) (contract : BoundContract) (filter : KeyFilter any)
    (limitAndSort : LimitAndSort) (sequenceDataType : sequenceType) : outcome error (list Sequence) :=
  let? f := convertQueryFilterToProto filter encodeWith in
  let? p := convertLimitAndSortToProto limitAndSort in
  let? reply := WrapRPC (grpc (mkQueryKeyRequest contract f (Some p) (asValueType (dataType sequenceDataType)))) in
  convertSequencesFromProto reply sequenceDataType.

Definition ContractKeyFilter : Type := BoundContract * KeyFilter any * sequenceType.

Definition clientQueryKeys (grpc : list (BoundContract * pbQueryFilter * bool) * option pbLimitAndSort → outcome error (list (string * pbSequence))) (encodeWith : Z)
    (keyQueries : list ContractKeyFilter) (limitAndSort : LimitAndSort) : outcome error (list (string * Sequence)) :=
  let? filters := omapM (λ q : ContractKeyFilter, let? f := convertQueryFilterToProto q.1.2 encodeWith in Ok (q.1.1, f, asValueType (dataType q.2))) keyQueries in
  let? p := convertLimitAndSortToProto limitAndSort in
  let? reply := WrapRPC (grpc (filters, Some p)) in
  convertSequencesWithKeyFromProto reply ((λ q : ContractKeyFilter, (Key q.1.2, q.2)) <$> keyQueries).

Definition clientBind (grpc : list BoundContract → outcome error unit) (bindings : list BoundContract) : outcome error unit := WrapRPC (grpc bindings).

(** *** Codecs *)

(** [types.Codec], and [CreateType] of one that has it. *)
Record Codec := mkCodec {
  codecTypes : typeProvider;
  Encode : any → string → outcome error (list byte);
  Decode : list byte → target gotype → string → outcome error any;
  GetMaxEncodingSize : Z → string → outcome error Z;
  GetMaxDecodingSize : Z → string → outcome error Z
}.

Definition serverGetEncoding (impl : Codec) (req : option VersionedBytes * string) : outcome error (list byte) :=
  let? encodedType := decodeInto req.2 (codecTypes impl) true req.1 in Encode impl encodedType req.2.

Definition serverGetDecoding (impl : Codec) (req : list byte * string * Z) : outcome error (option VersionedBytes) :=
  let '(encoded, itemType, wire) := req in
  let? encodedType := getContractEncodedType itemType (codecTypes impl) false in
  let? a := Decode impl encoded encodedType itemType in
  let? v := EncodeVersionedBytes (APtr (Some a)) wire in Ok (Some v).

(** The size comes back as an [int32]. *)
Definition serverGetMaxSize (impl : Codec) (req : Z * string * bool) : outcome error Z :=
  let '(n, itemType, forEncoding) := req in
  let? maxSize := (if forEncoding : bool then GetMaxEncodingSize impl else GetMaxDecodingSize impl) n itemType in Ok (wrapS 32 maxSize).

Definition clientEncode (grpc : option VersionedBytes * string → outcome error (list byte)) (encodeWith : Z) (item : any) (itemType : string) : outcome error (list byte) :=
  let? versionedParams := EncodeVersionedBytes item encodeWith in WrapRPC (grpc (Some versionedParams, itemType)).

Definition clientDecode (grpc : list byte * string * Z → outcome error (option VersionedBytes)) (encodeWith : Z) (raw : list byte) (into : target gotype) (itemType : string)
    : outcome error any :=
  let? resp := WrapRPC (grpc (raw, itemType, wrapU 32 encodeWith)) in DecodeVersionedBytes into resp.

(** The count goes out as an [int32]. *)
Definition clientGetMaxEncodingSize (grpc : Z * string * bool → outcome error Z) (n : Z) (itemType : string) : outcome error Z := WrapRPC (grpc (wrapS 32 n, itemType, true)).
Definition clientGetMaxDecodingSize (grpc : Z * string * bool → outcome error Z) (n : Z) (itemType : string) : outcome error Z := WrapRPC (grpc (wrapS 32 n, itemType, false)).
(** *** Facts: expressions *)

Lemma toProto_eq encodeWith p es op :
  convertExpressionToProto encodeWith (mkExpression p es op) =
    match p with
    | Some p => let? p := primitiveToProto encodeWith p in Ok (PbPrimitive p)
    | None => let? es := omapM (convertExpressionToProto encodeWith) es in Ok (PbBoolean (wrapS 32 op) es)
    end.
Proof. destruct p as [p|]; [done|]. cbn [convertExpressionToProto]. f_equal. induction es as [|e es IH]; [done|]. cbn [omapM]. by rewrite IH. Qed.

Lemma fromProto_bool contract key ctp op es :
  convertExpressionFromProto contract key ctp (PbBoolean op es) =
    let? es := omapM (convertExpressionFromProto contract key ctp) es in Ok (if (op =? AND)%Z then And es else Or es).
Proof. cbn [convertExpressionFromProto]. f_equal. induction es as [|e es IH]; [done|]. cbn [omapM]. by rewrite IH. Qed.

(** Data that is sent with an encoding and decoded into a variable of a type. *)
Definition crosses (version : Z) (a : any) (t : target gotype) (a' : any) : Prop :=
  ∃ v, EncodeVersionedBytes a version = Ok v ∧ DecodeVersionedBytes t (Some v) = Ok a'.

(** Conversions there and back, element by element. *)
Lemma omapM_through {E A B C} (f : A → outcome E B) (g : B → outcome E C) (R : A → C → Prop) l :
  Forall (λ x, ∃ y z, f x = Ok y ∧ g y = Ok z ∧ R x z) l → ∃ ys zs, omapM f l = Ok ys ∧ omapM g ys = Ok zs ∧ Forall2 R l zs.
Proof.
  induction 1 as [|x l (y & z & Hf & Hg & Hr) _ (ys & zs & H1 & H2 & H3)]; [by exists [], []|]. exists (y :: ys), (z :: zs). cbn [omapM]. rewrite Hf Hg /= H1 H2.
  split_and!; [done|done|by constructor].
Qed.

Section query.
Context (ctp : typeProvider) (encodeWith : Z) (dec : string → any → any).

Definition sendablePrimitive (contract : BoundContract) (key : string) (p : Primitive any) : Prop :=
  match p with
  | Comparator name vs =>
      ∀ v op, (v, op) ∈ vs → inS 32 op ∧
        ∃ t, getContractEncodedType (ReadIdentifier contract (key ++ "." ++ name)%string) ctp true = Ok t ∧ crosses encodeWith v t (dec name v)
  | Block _ op | Timestamp _ op => inS 32 op
  | Confidence level => level = Finalized ∨ level = Unconfirmed
  | TxHash _ => True
  | OtherPrimitive => False
  end.

Fixpoint sendable (contract : BoundContract) (key : string) (e : Expression any) : Prop :=
  let '(mkExpression p es op) := e in
  match p with
  | Some p => sendablePrimitive contract key p
  | None => inS 32 op ∧ foldr (λ e P, sendable contract key e ∧ P) True es
  end.

Lemma sendable_bool contract key es op : sendable contract key (mkExpression None es op) ↔ inS 32 op ∧ Forall (sendable contract key) es.
Proof. cbn [sendable]. f_equiv. induction es as [|e es IH]; cbn [foldr]; [by split; [constructor|]|]. by rewrite IH Forall_cons. Qed.

(** A primitive as it arrives: values are behind pointers. *)
Definition arrivedPrimitive (p : Primitive any) : Primitive any :=
  match p with Comparator name vs => Comparator name ((λ vc, (APtr (Some (dec name vc.1)), vc.2)) <$> vs) | p => p end.

Lemma primitive_arrives contract key p : sendablePrimitive contract key p →
  (let? pp := primitiveToProto encodeWith p in primitiveFromProto contract key ctp pp) = Ok (arrivedPrimitive p).
Proof.
  destruct p as [name vs|block op|level|ts op|hash|]; cbn [sendablePrimitive primitiveToProto arrivedPrimitive]; [|..|done|done].
  - intros Hs. rewrite /comparatorsToProto.
    destruct (omapM_through (λ vc : any * Z, let? v := EncodeVersionedBytes vc.1 encodeWith in Ok (Some v, wrapS 32 vc.2))
      (λ c : pbValueComparator, let? val := decodeInto (ReadIdentifier contract (key ++ "." ++ name)%string) ctp true c.1 in Ok (val, c.2))
      (λ vc vc', vc' = (APtr (Some (dec name vc.1)), vc.2)) vs) as (cs & vs' & H1 & H2 & H3).
    { apply Forall_forall. intros [v op] Hin. destruct (Hs v op Hin) as (Hop & t & Ht & w & He & Hd). exists (Some w, op), (APtr (Some (dec name v)), op). cbn [fst snd].
      rewrite He wrapS_small //. cbn [obind]. split; [done|]. rewrite /decodeInto Ht. cbn [obind]. by rewrite Hd. }
    rewrite H1. cbn [obind primitiveFromProto]. rewrite H2. cbn [obind]. do 2 f_equal. clear -H3. induction H3 as [|vc vc' vs vs' -> _ IH]; [done|]. by rewrite IH.
  - intros Hop. cbn [obind primitiveFromProto]. by rewrite wrapS_small.
  - intros [->| ->]; done.
  - intros Hop. cbn [obind primitiveFromProto]. by rewrite wrapS_small.
Qed.

Definition sameSelection (e e' : Expression any) : Prop :=
  ∀ Seq (sem : Primitive any → Seq → bool) s, selects sem e' s = selects (λ p, sem (arrivedPrimitive p)) e s.

Lemma sameSelection_all es es' : Forall2 sameSelection es es' → ∀ Seq (sem : Primitive any → Seq → bool) s,
  forallb (λ e, selects sem e s) es' = forallb (λ e, selects (λ p, sem (arrivedPrimitive p)) e s) es ∧
  existsb (λ e, selects sem e s) es' = existsb (λ e, selects (λ p, sem (arrivedPrimitive p)) e s) es.
Proof.
  intros Hall Seq sem s. induction Hall as [|e e' es es' He _ [IH1 IH2]]; [done|]. cbn [forallb existsb]. by rewrite He IH1 IH2.
Qed.

(** What arrives selects what was meant. *)
Lemma expression_arrives contract key e : sendable contract key e →
  ∃ pe e', convertExpressionToProto encodeWith e = Ok pe ∧ convertExpressionFromProto contract key ctp pe = Ok e' ∧ sameSelection e e'.
Proof.
  induction e as [p es op IH] using Expression_ind'. rewrite toProto_eq. destruct p as [p|].
  - intros Hs%primitive_arrives. destruct (primitiveToProto encodeWith p) as [pp|err|] eqn:E; cbn [obind] in Hs |- *; [|done|done].
    exists (PbPrimitive pp), (ofPrimitive (arrivedPrimitive p)). split; [done|]. cbn [convertExpressionFromProto]. by rewrite Hs.
  - rewrite sendable_bool. intros [Hop Hes].
    destruct (omapM_through (convertExpressionToProto encodeWith) (convertExpressionFromProto contract key ctp) sameSelection es) as (pes & es' & H1 & H2 & H3).
    { apply Forall_forall. intros e He. rewrite !Forall_forall in IH, Hes. by apply IH, Hes. }
    exists (PbBoolean (wrapS 32 op) pes), (if (op =? AND)%Z then And es' else Or es'). rewrite H1. split; [done|]. rewrite fromProto_bool H2. cbn [obind].
    rewrite wrapS_small //. split; [done|]. intros Seq sem s. cbn [selects]. destruct (sameSelection_all _ _ H3 Seq sem s) as [Hf He].
    destruct (op =? AND)%Z; [by rewrite selects_And|by rewrite selects_Or].
Qed.

Lemma filter_arrives contract filter : Forall (sendable contract (Key filter)) (Expressions filter) →
  ∃ pf filter', convertQueryFilterToProto filter encodeWith = Ok pf ∧ convertQueryFiltersFromProto pf contract ctp = Ok filter' ∧ Key filter' = Key filter ∧ pbKey pf = Key filter ∧
    ∀ Seq (sem : Primitive any → Seq → bool) s, filterSelects sem filter' s = filterSelects (λ p, sem (arrivedPrimitive p)) filter s.
Proof.
  intros Hes. rewrite /convertQueryFilterToProto.
  destruct (omapM_through (convertExpressionToProto encodeWith) (convertExpressionFromProto contract (Key filter) ctp) sameSelection (Expressions filter)) as (pes & es' & H1 & H2 & H3).
  { eapply Forall_impl; [exact Hes|]. intros e He. by apply expression_arrives. }
  exists (mkPbQueryFilter (Key filter) pes), (mkKeyFilter (Key filter) es'). rewrite H1. split; [done|]. rewrite /convertQueryFiltersFromProto. cbn [pbKey pbExpressions]. rewrite H2. split_and!; [done..|].
  intros Seq sem s. by apply sameSelection_all.
Qed.
End query.

(** *** Facts: limits *)

Definition sendableSort (s : SortBy) : Prop := match s with OtherSort _ => False | s => inS 32 (GetDirection s) end.
Definition sendableLimit (p : LimitAndSort) : Prop :=
  Forall sendableSort (SortBys p) ∧ (Cursor (limit p) = "" ↔ CursorDirection (limit p) = 0%Z).

(** What arrives of it: with a cursor, no sort order. *)
Definition sentLimit (p : LimitAndSort) : LimitAndSort := if HasCursorLimit p then mkLimitAndSort [] (limit p) else p.

Lemma sorts_arrive l : Forall sendableSort l → ∃ ps, omapM sortToProto l = Ok ps ∧ omapM sortFromProto ps = Ok l.
Proof.
  intros Hl. destruct (omapM_through sortToProto sortFromProto (λ s s', s' = s) l) as (ps & l' & H1 & H2 & H3).
  - eapply Forall_impl; [exact Hl|]. intros [d|d|d|d] Hd; [..|done]; cbn in Hd; eexists _, _; cbn [sortToProto]; rewrite wrapS_small //.
  - exists ps. split; [done|]. rewrite H2. f_equal. clear -H3. by induction H3 as [|s s' l l' -> _ ->].
Qed.

Lemma limit_arrives p : sendableLimit p → ∃ pp, convertLimitAndSortToProto p = Ok pp ∧ convertLimitAndSortFromProto (Some pp) = Ok (sentLimit p).
Proof.
  intros [Hs Hc]. destruct (sorts_arrive _ Hs) as (ps & H1 & H2). rewrite /convertLimitAndSortToProto H1 /sentLimit /HasCursorLimit. cbn [obind].
  destruct p as [sorts [cursor dir count]]; cbn [limit SortBys Cursor CursorDirection Count] in *.
  destruct (String.eqb_spec cursor "") as [->|Hne], (Z.eqb_spec dir 0) as [->|Hd]; cbn [negb andb orb]; [|by destruct Hd; apply Hc|by destruct Hne; apply Hc|].
  - eexists. split; [done|]. cbn [convertLimitAndSortFromProto pbSortBy]. by rewrite H2.
  - eexists. split; [done|]. cbn [convertLimitAndSortFromProto pbSortBy]. by rewrite H2.
Qed.

(** *** Facts: calls *)

Lemma WrapRPC_over {A B} (server : A → outcome error B) (req : A) : WrapRPC (over server req) = map_err remoteError (server req).
Proof. rewrite /WrapRPC /over. by destruct (server req). Qed.

(** Reading a value through another process.  When the parameters can be sent
    and the types are known, the implementation is asked for the same reading at
    the same confidence, with the parameters as they arrive; the caller gets what
    it left in its variable, in the caller's encoding or as a value if the caller
    asked for one, or its error as a remote one. *)
Theorem value_through_rpc {A} impl (get : string → string → any → target gotype → outcome error (any * A)) encodeWith id level params params' retVal ptype rtype :
  crosses encodeWith params ptype params' →
  getContractEncodedType id (ctp impl) true = Ok ptype → getContractEncodedType id (ctp impl) false = Ok rtype →
  level = Finalized ∨ level = Unconfirmed →
  let r := clientGet (over (serverGet impl get)) encodeWith id level params retVal in
  match get id level (APtr (Some params')) rtype with
  | Ok (a, x) => ∀ a', crosses (if asValueType retVal then ValuesEncodingVersion else encodeWith) (APtr (Some a)) retVal a' → r = Ok (a', x)
  | Err e => r = Err (remoteError e)
  | Panic => r = Panic
  end.
Proof.
  intros (v & He & Hd) Hp Hr Hl. cbv zeta.
  assert (Version v = encodeWith) as Hv.
  { rewrite /EncodeVersionedBytes in He. by apply obind_Ok_inv in He as (bytes & _ & [= <-]). }
  assert (∃ c, confidenceToProto level = Ok c ∧ confidenceFromProto c = Ok level) as (c & Hc1 & Hc2) by (destruct Hl as [->| ->]; by eexists).
  rewrite /clientGet He. cbn [obind]. rewrite Hc1. cbn [obind]. rewrite WrapRPC_over /serverGet. cbn [rqIdentifier rqConfidence rqParams rqAsValueType].
  rewrite /decodeInto Hp. cbn [obind]. rewrite Hd. cbn [obind]. rewrite Hr. cbn [obind]. rewrite Hc2. cbn [obind].
  destruct (get id level (APtr (Some params')) rtype) as [[a x]|e|]; cbn [obind map_err fst snd]; [|done|done]. intros a' (w & Hw1 & Hw2).
  rewrite Hv Hw1. cbn [obind map_err fst snd]. by rewrite Hw2.
Qed.

(** A sequence that reaches a caller who asked for a type. *)
Definition arrivedSequence (version : Z) (t : sequenceType) (s s' : Sequence) : Prop :=
  SeqCursor s' = SeqCursor s ∧ SeqHead s' = SeqHead s ∧ ∃ a, crosses version (Data s) (dataType t) a ∧ Data s' = (if isPointer t then APtr (Some a) else a).

Lemma sequences_arrive version t seqs seqs' : Forall2 (arrivedSequence version t) seqs seqs' →
  ∃ ps, convertSequencesToVersionedBytesProto seqs version = Ok ps ∧ convertSequencesFromProto ps t = Ok seqs'.
Proof.
  intros Hall. induction Hall as [|[c hd a] [c' hd' a'] l l' (Hc & Hh & b & (w & He & Hd) & Ha) _ (ps & H1 & H2)]; [by exists []|]. cbn in Hc, Hh, Ha. subst c' hd' a'.
  exists (mkPbSequence c hd (Some w) :: ps). rewrite /convertSequencesToVersionedBytesProto /convertSequencesFromProto in H1 H2 |- *. cbn [omapM].
  rewrite {1}/sequenceToProto /sequenceFromProto. cbn [Data SeqCursor SeqHead]. rewrite He. cbn [obind]. rewrite H1. split; [done|].
  cbn [pbSeqData pbSeqCursor pbSeqHead]. rewrite Hd. cbn [obind]. by rewrite H2.
Qed.

(** C23: a query through another process.  When the filter and the limit can be
    sent, the implementation is asked for the same key of the same contract with
    a filter that selects the same sequences, whatever the primitives mean, and
    the caller gets the sequences it gives, in order, or its error as a remote
    one.  The limit arrives, and so do the sort orders unless there is a cursor:
    then they are lost. *)
Theorem query_through_rpc impl serverEncoding encodeWith dec contract filter p t rtype :
  Forall (sendable (ctp impl) encodeWith dec contract (Key filter)) (Expressions filter) → sendableLimit p →
  getContractEncodedType (ReadIdentifier contract (Key filter)) (ctp impl) false = Ok rtype →
  let r := clientQueryKey (over (serverQueryKey impl serverEncoding)) encodeWith contract filter p t in
  ∃ filter', Key filter' = Key filter ∧
    (∀ Seq (sem : Primitive any → Seq → bool) s, filterSelects sem filter' s = filterSelects (λ q, sem (arrivedPrimitive dec q)) filter s) ∧
    match QueryKey impl contract filter' (sentLimit p) rtype with
    | Ok seqs => ∀ seqs', Forall2 (arrivedSequence (if asValueType (dataType t) then ValuesEncodingVersion else serverEncoding) t) seqs seqs' → r = Ok seqs'
    | Err e => r = Err (remoteError e)
    | Panic => r = Panic
    end.
Proof.
  intros Hf Hp Hr. cbv zeta. destruct (filter_arrives _ _ _ _ _ Hf) as (pf & filter' & H1 & H2 & H3 & H4 & H5). destruct (limit_arrives _ Hp) as (pp & H6 & H7).
  exists filter'. split; [done|]. split; [done|]. rewrite /clientQueryKey H1. cbn [obind]. rewrite H6. cbn [obind]. rewrite WrapRPC_over /serverQueryKey.
  cbn [qkContract qkFilter qkLimitAndSort qkAsValueType]. rewrite H2. cbn [obind]. rewrite H3 Hr. cbn [obind]. rewrite H7. cbn [obind].
  destruct (QueryKey impl contract filter' (sentLimit p) rtype) as [seqs|e|]; cbn [obind map_err]; [|done|done].
  intros seqs' (ps & Ha & Hb)%sequences_arrive. rewrite Ha. cbn [map_err obind]. exact Hb.
Qed.

(** *** Facts: batches *)

Section batch.
Context (impl : Reader) (serverEncoding encodeWith : Z) (dec : BoundContract → BatchRead → any) (rtype : BoundContract → BatchRead → target gotype).

Definition sendableRead (b : BoundContract) (r : BatchRead) : Prop :=
  (∃ t, getContractEncodedType (ReadIdentifier b (ReadName r)) (ctp impl) true = Ok t ∧ crosses encodeWith (Params r) t (dec b r)) ∧
  getContractEncodedType (ReadIdentifier b (ReadName r)) (ctp impl) false = Ok (rtype b r).

(** A read as it arrives. *)
Definition arrivedRead (b : BoundContract) (r : BatchRead) : serverRead := mkServerRead (ReadName r) (APtr (Some (dec b r))) (Some (rtype b r)).
Definition arrivedReads (b : BoundContract) (l : list BatchRead) : list serverRead := arrivedRead b <$> l.
Definition arrivedRequest (request : gmap BoundContract (list BatchRead)) : gmap BoundContract (list serverRead) := map_imap (λ b l, Some (arrivedReads b l)) request.

Definition numbered {A} (n : nat) (l : list A) : list (nat * A) := imap (λ i x, (n + i, x)) l.

Lemma numbered_cons {A} n (x : A) l : numbered n (x :: l) = (n, x) :: numbered (S n) l.
Proof. rewrite /numbered imap_cons. f_equal; [by rewrite Nat.add_0_r|]. apply imap_ext. intros i y _. cbn. by rewrite Nat.add_succ_r. Qed.

Definition readToProto (r : BatchRead) : outcome error (string * option VersionedBytes) := let? v := EncodeVersionedBytes (Params r) encodeWith in Ok (ReadName r, Some v).

(** The reads of one contract are stored one after the other. *)
Lemma reads_arrive b reads m pre z : Forall (sendableRead b) reads → m !! b = Some (pre ++ replicate (length reads) z) →
  ∃ ps, omapM readToProto reads = Ok ps ∧ length ps = length reads ∧
    ofold (readFromProto (ctp impl) b) m (numbered (length pre) ps) = Ok (<[b := pre ++ arrivedReads b reads]> m).
Proof.
  intros Hall. revert m pre. induction Hall as [|r reads ((t & Ht & v & He & Hd) & Hr) _ IH]; intros m pre Hm.
  - exists []. split_and!; [done|done|]. cbn. cbn in Hm. by rewrite insert_id.
  - destruct (IH (<[b := (pre ++ [arrivedRead b r]) ++ replicate (length reads) z]> m) (pre ++ [arrivedRead b r])) as (ps & H1 & H2 & H3); [by rewrite lookup_insert_eq|].
    exists ((ReadName r, Some v) :: ps). cbn [omapM]. rewrite {1}/readToProto He. cbn [obind]. rewrite H1. split; [done|]. split; [cbn; lia|].
    rewrite numbered_cons. cbn [ofold readFromProto]. rewrite /decodeInto Ht. cbn [obind]. rewrite Hd. cbn [obind]. rewrite Hr. cbn [obind]. rewrite Hm.
    rewrite decide_True; [|rewrite length_app /=; lia]. cbn [obind].
    assert (<[length pre := mkServerRead (ReadName r) (APtr (Some (dec b r))) (Some (rtype b r))]> (pre ++ replicate (length (r :: reads)) z) =
      (pre ++ [arrivedRead b r]) ++ replicate (length reads) z) as ->.
    { rewrite insert_app_r_alt // Nat.sub_diag. cbn. by rewrite -app_assoc. }
    rewrite length_app /= Nat.add_1_r in H3. rewrite H3 insert_insert_eq. by rewrite -app_assoc.
Qed.

Definition batchToProto (br : BoundContract * list BatchRead) : outcome error (BoundContract * list (string * option VersionedBytes)) :=
  let? reads := omapM readToProto br.2 in Ok (br.1, reads).

Lemma batches_arrive l m : NoDup l.*1 → (∀ b, b ∈ l.*1 → m !! b = None) → Forall (λ br, Forall (sendableRead br.1) br.2) l →
  ∃ ps, omapM batchToProto l = Ok ps ∧
    ofold (batchFromProto (ctp impl)) m ps = Ok (foldl (λ m br, <[br.1 := arrivedReads br.1 br.2]> m) m l).
Proof.
  revert m. induction l as [|[b reads] l IH]; intros m Hnd Hm Hall; [by exists []|]. apply Forall_cons in Hall as [Hr Hall]. apply NoDup_cons in Hnd as [Hb Hnd]. cbn in Hr.
  destruct (IH (<[b := arrivedReads b reads]> m)) as (ps & H1 & H2); [done| |done|].
  { intros b' Hb'. rewrite lookup_insert_ne; [apply Hm; by right|]. by intros ->. }
  destruct (reads_arrive b reads (<[b := replicate (length reads) (mkServerRead "" ANil None)]> m) [] (mkServerRead "" ANil None) Hr) as (rs & H3 & H4 & H5); [by rewrite lookup_insert_eq|].
  exists ((b, rs) :: ps). cbn [omapM]. rewrite {1}/batchToProto. cbn [fst snd]. rewrite H3. cbn [obind]. rewrite H1. split; [done|].
  assert (batchFromProto (ctp impl) m (b, rs) = Ok (<[b := arrivedReads b reads]> m)) as Hb'.
  { rewrite /batchFromProto. cbn [fst snd]. rewrite (Hm b); [|by left]. rewrite H4. change (imap pair rs) with (numbered (length ([] : list serverRead)) rs).
    rewrite H5. cbn [app]. by rewrite insert_insert_eq. }
  cbn [ofold]. rewrite Hb'. exact H2.
Qed.

Lemma request_arrives O request : (∀ b l, request !! b = Some l → Forall (sendableRead b) l) →
  ∃ ps, convertBatchGetLatestValuesRequestToProto O request encodeWith = Ok ps ∧
    convertBatchGetLatestValuesRequestFromProto (Some ps) (ctp impl) = Ok (arrivedRequest request).
Proof.
  intros Hs. destruct (batches_arrive (range_map O request) ∅) as (ps & H1 & H2); [apply NoDup_fst_range_map|by intros; apply lookup_empty| |].
  { apply Forall_forall. intros [b l] Hbl%elem_of_range_map. by apply Hs. }
  exists ps. split; [exact H1|]. cbn [convertBatchGetLatestValuesRequestFromProto]. rewrite H2. f_equal. apply map_eq. intros b.
  rewrite (foldl_insert_range (λ m br, <[br.1 := arrivedReads br.1 br.2]> m) arrivedReads); [|done]. rewrite lookup_empty /arrivedRequest map_lookup_imap.
  by destruct (request !! b).
Qed.

(** The caller's variables after values have been stored in some of them; [got]
    is what arrives in each. *)
Context (got : nat → any).
Definition store (h : heap) (locs : list nat) : heap := foldl (λ h x, <[x := got x]> h) h locs.

Lemma store_lookup h locs x : store h locs !! x = if decide (x ∈ locs) then Some (got x) else h !! x.
Proof.
  rewrite /store. revert h. induction locs as [|y locs IH]; intros h; [done|]. cbn [foldl]. rewrite IH. destruct (decide (x ∈ locs)) as [Hin|Hin].
  - rewrite decide_True //. by right.
  - destruct (decide (x = y)) as [->|Hne]; [rewrite lookup_insert_eq decide_True //; by left|]. rewrite lookup_insert_ne // decide_False //.
    by intros [|]%elem_of_cons.
Qed.

Lemma store_app h l1 l2 : store h (l1 ++ l2) = store (store h l1) l2.
Proof. by rewrite /store foldl_app. Qed.

Definition sentErr (e : option error) : option error :=
  match e with Some e => if String.eqb (text e) "" then None else Some (EText (text e)) | None => None end.

(** What the caller gets for a read, in its own variable. *)
Definition arrivedResult (req : BatchRead) (res : serverResult) : BatchReadResult := mkBatchReadResult (resName res) (ReturnVal req) (sentErr (resErr res)).
Definition arrivedResults (reqs : list BatchRead) (ress : list serverResult) : list BatchReadResult := zip_with arrivedResult reqs ress.

Definition answers (req : BatchRead) (res : serverResult) : Prop := crosses serverEncoding (resValue res) (ReturnType req) (got (ReturnVal req)).

Lemma results_arrive reqs ress acc h : Forall2 answers reqs ress →
  ∃ ps, omapM (resultToProto serverEncoding) ress = Ok ps ∧ length ps = length reqs ∧
    ofold resultFromProto (acc, h) (zip ps reqs) = Ok (acc ++ arrivedResults reqs ress, store h (ReturnVal <$> reqs)).
Proof.
  intros Hall. revert acc h. induction Hall as [|req res reqs ress (v & He & Hd) _ IH]; intros acc h; [exists []; by rewrite app_nil_r|].
  destruct (IH (acc ++ [arrivedResult req res]) (<[ReturnVal req := got (ReturnVal req)]> h)) as (ps & H1 & H2 & H3).
  exists ((resName res, Some v, match resErr res with Some err => text err | None => "" end) :: ps). cbn [omapM]. rewrite {1}/resultToProto He. cbn [obind]. rewrite H1.
  split; [done|]. split; [cbn; lia|]. cbn [zip zip_with ofold]. cbn [resultFromProto fst snd]. rewrite Hd. cbn [obind].
  assert ((if String.eqb (match resErr res with Some err => text err | None => "" end) "" then None else Some (EText (match resErr res with Some err => text err | None => "" end))) =
    sentErr (resErr res)) as -> by (by destruct (resErr res)).
  change (mkBatchReadResult (resName res) (ReturnVal req) (sentErr (resErr res))) with (arrivedResult req res).
  rewrite H3. by rewrite -app_assoc.
Qed.

Definition resultsToProto (br : BoundContract * list serverResult) : outcome error (BoundContract * list (string * option VersionedBytes * string)) :=
  let? rs := omapM (resultToProto serverEncoding) br.2 in Ok (br.1, rs).

Definition locsOf (request : gmap BoundContract (list BatchRead)) (l : list (BoundContract * list serverResult)) : list nat :=
  flat_map (λ br, ReturnVal <$> default [] (request !! br.1)) l.

Lemma replies_arrive request l st h : Forall (λ br, ∃ reqs, request !! br.1 = Some reqs ∧ Forall2 answers reqs br.2) l →
  ∃ ps, omapM resultsToProto l = Ok ps ∧
    ofold (batchResultFromProto request) (st, h) ps =
      Ok (foldl (λ m br, <[br.1 := arrivedResults (default [] (request !! br.1)) br.2]> m) st l, store h (locsOf request l)).
Proof.
  intros Hall. revert st h. induction Hall as [|[b ress] l (reqs & Hreq & Hans) _ IH]; intros st h; [by exists []|]. cbn [fst snd] in Hreq, Hans.
  destruct (results_arrive reqs ress [] h Hans) as (rs & H1 & H2 & H3). destruct (IH (<[b := arrivedResults reqs ress]> st) (store h (ReturnVal <$> reqs))) as (ps & H4 & H5).
  exists ((b, rs) :: ps). cbn [omapM]. rewrite {1}/resultsToProto. cbn [fst snd]. rewrite H1. cbn [obind]. rewrite H4. split; [done|].
  assert (batchResultFromProto request (st, h) (b, rs) = Ok (<[b := arrivedResults reqs ress]> st, store h (ReturnVal <$> reqs))) as Hb.
  { rewrite /batchResultFromProto. cbn [fst snd]. rewrite Hreq decide_False; [|lia]. by rewrite H3. }
  cbn [ofold]. rewrite Hb. cbn [obind]. rewrite H5. cbn [foldl locsOf flat_map fst snd]. rewrite Hreq /= store_app. done.
Qed.

(** C24: a batch of readings through another process.  When the parameters can be
    sent, the implementation gets the same readings of the same contracts, and
    its results, if they match the request, come back with their names and the
    texts of their errors (an empty text is no error); each value is in the
    variable of its own reading, no other variable has changed, and all of this
    for every order in which the maps are iterated.  An error comes back as a
    remote one. *)
Theorem batch_through_rpc O O' request h :
  (∀ b l, request !! b = Some l → Forall (sendableRead b) l) →
  let r := clientBatchGetLatestValues (over (serverBatchGetLatestValues impl serverEncoding O')) encodeWith O request h in
  match BatchGetLatestValues impl (arrivedRequest request) with
  | Ok result =>
      (∀ b, option_Forall2 (Forall2 answers) (request !! b) (result !! b)) →
      ∃ m h', r = Ok (m, h') ∧
        (∀ b, m !! b = match request !! b, result !! b with Some reqs, Some ress => Some (arrivedResults reqs ress) | _, _ => None end) ∧
        (∀ b reqs req, request !! b = Some reqs → req ∈ reqs → h' !! ReturnVal req = Some (got (ReturnVal req))) ∧
        (∀ x, (∀ b reqs req, request !! b = Some reqs → req ∈ reqs → ReturnVal req ≠ x) → h' !! x = h !! x)
  | Err e => r = Err (remoteError e)
  | Panic => r = Panic
  end.
Proof.
  intros Hs. cbv zeta. destruct (request_arrives O request Hs) as (ps & H1 & H2). rewrite /clientBatchGetLatestValues H1. cbn [obind].
  rewrite WrapRPC_over /serverBatchGetLatestValues H2. cbn [obind]. destruct (BatchGetLatestValues impl (arrivedRequest request)) as [result|e|]; cbn [obind map_err]; [|done|done].
  intros Hres. destruct (replies_arrive request (range_map O' result) ∅ h) as (rs & H3 & H4).
  { apply Forall_forall. intros [b ress] Hb%elem_of_range_map. cbn [fst snd]. specialize (Hres b). rewrite Hb in Hres. inversion Hres as [reqs ress' Hans Hreq|]; subst. by exists reqs. }
  eexists _, _. split; [rewrite /newPbBatchGetLatestValuesReply; change (omapM _ (range_map O' result)) with (omapM resultsToProto (range_map O' result)); rewrite H3; exact H4|].
  assert (∀ b, is_Some (request !! b) ↔ is_Some (result !! b)) as Hdom by (intros b; destruct (Hres b); [by split; eexists|done]).
  assert (∀ x, x ∈ locsOf request (range_map O' result) ↔ ∃ b reqs req, request !! b = Some reqs ∧ req ∈ reqs ∧ ReturnVal req = x) as Hlocs.
  { intros x. rewrite /locsOf list_elem_of_In in_flat_map. split.
    - intros ([b ress] & _ & Hx). cbn [fst] in Hx. destruct (request !! b) as [reqs|] eqn:E; [|done]. apply list_elem_of_In, list_elem_of_fmap in Hx as (req & -> & Hreq). by exists b, reqs, req.
    - intros (b & reqs & req & Hb & Hreq & <-). destruct (proj1 (Hdom b)) as [ress Hress]; [by eexists|]. exists (b, ress). split; [by apply list_elem_of_In, elem_of_range_map|].
      cbn [fst]. rewrite Hb. by apply list_elem_of_In, list_elem_of_fmap_2. }
  split_and!.
  - intros b. rewrite (foldl_insert_range (λ m br, <[br.1 := arrivedResults (default [] (request !! br.1)) br.2]> m) (λ b ress, arrivedResults (default [] (request !! b)) ress)); [|done].
    rewrite lookup_empty. by destruct (Hres b).
  - intros b reqs req Hb Hreq. rewrite store_lookup decide_True //. apply Hlocs. by exists b, reqs, req.
  - intros x Hx. rewrite store_lookup decide_False //. intros (b & reqs & req & Hb & Hreq & He)%Hlocs. by destruct (Hx b reqs req Hb Hreq).
Qed.
End batch.

(** *** Facts: queries for several keys *)

Lemma keyed_notin {X A} (k : X → string) (v : X → A) l (m : gmap string A) key : key ∉ k <$> l → foldl (λ m x, <[k x := v x]> m) m l !! key = m !! key.
Proof.
  revert m. induction l as [|y l IH]; intros m Hk; [done|]. cbn [foldl]. rewrite fmap_cons not_elem_of_cons in Hk. destruct Hk as [Hne Hk].
  rewrite IH // lookup_insert_ne //.
Qed.

Lemma keyed_lookup {X A} (k : X → string) (v : X → A) l (m : gmap string A) x : NoDup (k <$> l) → x ∈ l → foldl (λ m x, <[k x := v x]> m) m l !! k x = Some (v x).
Proof.
  revert m. induction l as [|y l IH]; intros m Hnd Hx; [by apply elem_of_nil in Hx|]. cbn [foldl]. rewrite fmap_cons NoDup_cons in Hnd. destruct Hnd as [Hy Hnd].
  apply elem_of_cons in Hx as [->|Hx]; [|by apply IH]. by rewrite keyed_notin // lookup_insert_eq.
Qed.

(** A sequence that the implementation gives for a key, and the caller's. *)
Definition arrivedFor (serverEncoding : Z) (keyQueries : list ContractKeyFilter) (ks ks' : string * Sequence) : Prop :=
  ∃ q : ContractKeyFilter, q ∈ keyQueries ∧ Key q.1.2 = ks.1 ∧ ks'.1 = ks.1 ∧
    arrivedSequence (if asValueType (dataType q.2) then ValuesEncodingVersion else serverEncoding) q.2 ks.2 ks'.2.

(** A filter as the implementation gets it. *)
Definition arrivedFilter (impl : Reader) (dec : BoundContract → string → string → any → any) (q : ContractKeyFilter) (f : BoundContract * KeyFilter any * target gotype) : Prop :=
  f.1.1 = q.1.1 ∧ Key f.1.2 = Key q.1.2 ∧ getContractEncodedType (ReadIdentifier q.1.1 (Key q.1.2)) (ctp impl) false = Ok f.2 ∧
  ∀ Seq (sem : Primitive any → Seq → bool) s, filterSelects sem f.1.2 s = filterSelects (λ p, sem (arrivedPrimitive (dec q.1.1 (Key q.1.2)) p)) q.1.2 s.

Definition queryToProto (encodeWith : Z) (q : ContractKeyFilter) : outcome error (BoundContract * pbQueryFilter * bool) :=
  let? f := convertQueryFilterToProto q.1.2 encodeWith in Ok (q.1.1, f, asValueType (dataType q.2)).

Lemma queries_arrive impl encodeWith dec keyQueries :
  Forall (λ q : ContractKeyFilter, Forall (sendable (ctp impl) encodeWith (dec q.1.1 (Key q.1.2)) q.1.1 (Key q.1.2)) (Expressions q.1.2) ∧
            is_ok (getContractEncodedType (ReadIdentifier q.1.1 (Key q.1.2)) (ctp impl) false) = true) keyQueries →
  ∃ pfs filters, omapM (queryToProto encodeWith) keyQueries = Ok pfs ∧ omapM (filterFromProto (ctp impl)) pfs = Ok filters ∧
    Forall2 (arrivedFilter impl dec) keyQueries filters ∧
    (λ pf : BoundContract * pbQueryFilter * bool, (pbKey pf.1.2, pf.2)) <$> pfs = (λ q : ContractKeyFilter, (Key q.1.2, asValueType (dataType q.2))) <$> keyQueries.
Proof.
  induction 1 as [|[[c f] t] l [Hs Ht] _ (pfs & fs & H1 & H2 & H3 & H4)]; [by exists [], []|]. cbn [fst snd] in Hs, Ht.
  destruct (filter_arrives _ _ _ _ _ Hs) as (pf & f' & Ha & Hb & Hc & Hd & He).
  destruct (getContractEncodedType (ReadIdentifier c (Key f)) (ctp impl) false) as [rt|e|] eqn:Et; [|done|done].
  exists ((c, pf, asValueType (dataType t)) :: pfs), ((c, f', rt) :: fs). cbn [omapM]. rewrite {1}/queryToProto. cbn [fst snd]. rewrite Ha. cbn [obind]. rewrite H1. split; [done|].
  rewrite {1}/filterFromProto. cbn [fst snd]. rewrite Hb. cbn [obind]. rewrite Hc Et. cbn [obind]. rewrite H2. split; [done|]. split.
  - constructor; [|done]. by split_and!.
  - rewrite !fmap_cons H4. cbn [fst snd]. by rewrite Hd.
Qed.

Lemma keyed_sequences_arrive serverEncoding (pfs : list (BoundContract * pbQueryFilter * bool)) keyQueries seqs seqs' :
  NoDup ((λ q : ContractKeyFilter, Key q.1.2) <$> keyQueries) →
  (λ pf : BoundContract * pbQueryFilter * bool, (pbKey pf.1.2, pf.2)) <$> pfs = (λ q : ContractKeyFilter, (Key q.1.2, asValueType (dataType q.2))) <$> keyQueries →
  Forall2 (arrivedFor serverEncoding keyQueries) seqs seqs' →
  ∃ ps, convertSequencesWithKeyToVersionedBytesProto seqs pfs serverEncoding = Ok ps ∧
    convertSequencesWithKeyFromProto ps ((λ q : ContractKeyFilter, (Key q.1.2, q.2)) <$> keyQueries) = Ok seqs'.
Proof.
  intros Hnd Hpf Hall. assert (∀ q, q ∈ keyQueries →
    keyToEncodingVersion serverEncoding pfs !! Key q.1.2 = Some (if asValueType (dataType q.2) then ValuesEncodingVersion else serverEncoding) ∧
    keyToType ((λ q : ContractKeyFilter, (Key q.1.2, q.2)) <$> keyQueries) !! Key q.1.2 = Some q.2) as Hlook.
  { intros q Hq. split.
    - assert ((Key q.1.2, asValueType (dataType q.2)) ∈ (λ pf : BoundContract * pbQueryFilter * bool, (pbKey pf.1.2, pf.2)) <$> pfs) as Hin by (rewrite Hpf; apply list_elem_of_fmap; by exists q).
      apply list_elem_of_fmap in Hin as (pf & [= Hk Hb] & Hpfin). rewrite Hk Hb /keyToEncodingVersion.
      rewrite (keyed_lookup (λ f : BoundContract * pbQueryFilter * bool, pbKey f.1.2) (λ f, if f.2 then ValuesEncodingVersion else serverEncoding)) //.
      assert ((λ f : BoundContract * pbQueryFilter * bool, pbKey f.1.2) <$> pfs = (λ q : ContractKeyFilter, Key q.1.2) <$> keyQueries) as ->; [|done].
      apply (f_equal (fmap fst)) in Hpf. by rewrite -!list_fmap_compose in Hpf.
    - rewrite /keyToType. apply (keyed_lookup (λ q : string * sequenceType, q.1) snd _ _ (Key q.1.2, q.2)); [by rewrite -list_fmap_compose|apply list_elem_of_fmap; by exists q]. }
  induction Hall as [|[k s] [k' s'] l l' (q & Hq & Hk & Hk' & (Hcur & Hhd & a & (v & He & Hd) & Ha)) _ (ps & H1 & H2)]; [by exists []|]. cbn [fst snd] in *. subst k k'.
  destruct (Hlook q Hq) as [He' Ht']. destruct s' as [c' h' a']. cbn in Hcur, Hhd, Ha. subst c' h' a'.
  exists ((Key q.1.2, mkPbSequence (SeqCursor s) (SeqHead s) (Some v)) :: ps). rewrite /convertSequencesWithKeyToVersionedBytesProto /convertSequencesWithKeyFromProto in H1 H2 |- *.
  cbn [omapM fst snd]. rewrite He' /sequenceToProto He. cbn [obind]. rewrite /sequenceToProto in H1. rewrite H1. split; [done|]. rewrite Ht' /sequenceFromProto. cbn [pbSeqData pbSeqCursor pbSeqHead].
  rewrite Hd. cbn [obind]. rewrite /sequenceFromProto in H2. by rewrite H2.
Qed.

(** A query for several keys through another process.  When the filters and
    the limit can be sent and the keys are distinct, the implementation gets the
    filters in order, each selecting the same sequences, and the caller gets what
    it gives, in order, each sequence in the type asked for with its key.  (With
    one key for two contracts the later type and encoding would count for
    both.) *)
Theorem keys_through_rpc impl serverEncoding encodeWith dec keyQueries p :
  Forall (λ q : ContractKeyFilter, Forall (sendable (ctp impl) encodeWith (dec q.1.1 (Key q.1.2)) q.1.1 (Key q.1.2)) (Expressions q.1.2) ∧
            is_ok (getContractEncodedType (ReadIdentifier q.1.1 (Key q.1.2)) (ctp impl) false) = true) keyQueries →
  sendableLimit p → NoDup ((λ q : ContractKeyFilter, Key q.1.2) <$> keyQueries) →
  let r := clientQueryKeys (over (serverQueryKeys impl serverEncoding)) encodeWith keyQueries p in
  ∃ filters, Forall2 (arrivedFilter impl dec) keyQueries filters ∧
    match QueryKeys impl filters (sentLimit p) with
    | Ok seqs => ∀ seqs', Forall2 (arrivedFor serverEncoding keyQueries) seqs seqs' → r = Ok seqs'
    | Err e => r = Err (remoteError e)
    | Panic => r = Panic
    end.
Proof.
  intros Hs Hp Hnd. cbv zeta. destruct (queries_arrive _ _ _ _ Hs) as (pfs & filters & H1 & H2 & H3 & H4). destruct (limit_arrives _ Hp) as (pp & H5 & H6).
  exists filters. split; [done|]. rewrite /clientQueryKeys. change (omapM _ keyQueries) with (omapM (queryToProto encodeWith) keyQueries). rewrite H1. cbn [obind]. rewrite H5. cbn [obind].
  rewrite WrapRPC_over /serverQueryKeys. cbn [fst snd]. rewrite H2. cbn [obind]. rewrite H6. cbn [obind].
  destruct (QueryKeys impl filters (sentLimit p)) as [seqs|e|]; cbn [obind map_err]; [|done|done].
  intros seqs' (ps & Ha & Hb)%(keyed_sequences_arrive _ pfs); [|done|done]. rewrite Ha. cbn [map_err obind]. exact Hb.
Qed.

(** One key for two contracts. *)
Lemma same_key_confused c1 c2 t1 t2 : let f c := (c, mkPbQueryFilter "key" []) in
  keyToType [("key", t1); ("key", t2)] !! "key" = Some t2 ∧ keyToEncodingVersion 2 [(f c1, true); (f c2, false)] !! "key" = Some 2%Z.
Proof. by split; vm_compute. Qed.

(** *** Facts: codecs *)

(** A codec in another process: it encodes the item as it arrives, what it decodes
    reaches the caller's variable, and sizes are exact while they fit 32 bits. *)
Lemma codec_through_rpc (impl : Codec) encodeWith itemType :
  (∀ item item' t, getContractEncodedType itemType (codecTypes impl) true = Ok t → crosses encodeWith item t item' →
     clientEncode (over (serverGetEncoding impl)) encodeWith item itemType = map_err remoteError (Encode impl (APtr (Some item')) itemType)) ∧
  (∀ raw into t, inU 32 encodeWith → getContractEncodedType itemType (codecTypes impl) false = Ok t →
     match Decode impl raw t itemType with
     | Ok a => ∀ a', crosses encodeWith (APtr (Some a)) into a' → clientDecode (over (serverGetDecoding impl)) encodeWith raw into itemType = Ok a'
     | Err e => clientDecode (over (serverGetDecoding impl)) encodeWith raw into itemType = Err (remoteError e)
     | Panic => clientDecode (over (serverGetDecoding impl)) encodeWith raw into itemType = Panic
     end) ∧
  (∀ n, clientGetMaxEncodingSize (over (serverGetMaxSize impl)) n itemType =
          map_err remoteError (let? z := GetMaxEncodingSize impl (wrapS 32 n) itemType in Ok (wrapS 32 z)) ∧
        clientGetMaxDecodingSize (over (serverGetMaxSize impl)) n itemType =
          map_err remoteError (let? z := GetMaxDecodingSize impl (wrapS 32 n) itemType in Ok (wrapS 32 z))).
Proof.
  split_and!.
  - intros item item' t Ht (v & He & Hd). rewrite /clientEncode He. cbn [obind]. rewrite WrapRPC_over /serverGetEncoding /decodeInto. cbn [fst snd]. rewrite Ht. cbn [obind]. by rewrite Hd.
  - intros raw into t Hw Ht. rewrite /clientDecode WrapRPC_over /serverGetDecoding Ht wrapU_small //. cbn [obind].
    destruct (Decode impl raw t itemType) as [a|e|]; cbn [obind map_err]; [|done|done]. intros a' (v & He & Hd). rewrite He. cbn [obind map_err]. exact Hd.
  - intros n. rewrite /clientGetMaxEncodingSize /clientGetMaxDecodingSize !WrapRPC_over. by split.
Qed.
End reader.

(** *** Witnesses

    Numbers below 256 are sent as one byte; every type is that of such a number. *)

Definition byteOf (a : any) : option byte :=
  match a with AInt KInt64 z | APtr (Some (AInt KInt64 z)) => if decide (0 <= z < 256)%Z then Some (byte_of_Z z) else None | _ => None end.
Definition demoMarshal (a : any) : string + list byte := match byteOf a with Some b => inr [b] | None => inl "not a small number" end.
Definition demoUnmarshal (bs : list byte) : string + any := match bs with [b] => inr (AInt KInt64 (Z_of_byte b)) | _ => inl "not one byte" end.

#[local] Instance demoFormats : WireFormats := {
  gotype := unit; mapOfAny := ();
  jsonMarshal := demoMarshal; jsonUnmarshal _ := demoUnmarshal; jsonv2Marshal := demoMarshal; jsonv2Unmarshal _ := demoUnmarshal;
  cborMarshal := demoMarshal; cborUnmarshal _ := demoUnmarshal;
  protoMarshal p := match p with PInt64 z => inr [byte_of_Z z] | _ => inl "not a number" end;
  protoUnmarshal bs := match bs with [b] => inr (PInt64 (Z_of_byte b)) | _ => inl "not one byte" end;
  unwrapTo _ v := inr (Unwrap v);
  valuesErrText _ := ""; showAny _ := ""; showBytes _ := ""
}.
#[local] Existing Instance RemoteErrors.grpcStatus.

Definition number (z : Z) : any := AInt KInt64 z.
Definition demoContract : BoundContract := mkBoundContract "0xa" "feed".

(** It adds one to its parameter, knows two sequences, and fails for the second
    reading of a batch. *)
Definition demoReader : Reader := mkReader None
  (λ _ _ params _, match params with APtr (Some (AInt KInt64 z)) => Ok (number (z + 1)) | _ => Err (EText "no number") end)
  (λ _ _ _ _, Ok (number 1, Some (mkHead "7" [] 9)))
  (λ request, Ok ((λ l : list serverRead, imap (λ i r, mkServerResult (srName r) (number (Z.of_nat i)) (if decide (i = 1) then Some (EText "reverted") else None)) l) <$> request))
  (λ _ _ _ _, Ok [mkSequence "c1" (mkHead "7" [] 9) (number 5); mkSequence "c2" (mkHead "8" [] 9) (number 6)])
  (λ _ _, Ok [("transfer", mkSequence "c1" (mkHead "7" [] 9) (number 5))])
  (λ _, None) (λ _, None).

Definition demoType : sequenceType := mkSequenceType false TValue.
Definition demoFilter : KeyFilter any := IndexedSequencesKeyFilter "transfer" "amount" [number 3; number 4] Finalized.
Definition demoLimit : LimitAndSort := mkLimitAndSort [SortBySequence Desc] (mkLimit "c0" CursorFollowing 10).

Ltac crosses_by_computation := eexists; split; vm_compute; reflexivity.

Lemma value_through_rpc_witness :
  clientGet (over (serverGet demoReader (λ id level params retVal, let? a := GetLatestValue demoReader id level params retVal in Ok (a, ())))) CBOREncodingVersion
    "0xa-feed-latest" Finalized (number 41) TValue = Ok (AValue (VInt64 42), ()).
Proof.
  apply (value_through_rpc demoReader (λ id level params retVal, let? a := GetLatestValue demoReader id level params retVal in Ok (a, ())) CBOREncodingVersion
    "0xa-feed-latest" Finalized (number 41) (number 41) TValue (TType ()) (TType ())); [crosses_by_computation|done|done|by left|crosses_by_computation].
Defined.

Lemma demo_sendable : Forall (sendable None CBOREncodingVersion (λ _ a, a) demoContract (Key demoFilter)) (Expressions demoFilter).
Proof.
  assert (∀ op, op = Eq ∨ op = OR → inS 32 op) as Hop by (intros op [->| ->]; rewrite /inS; vm_compute; done).
  apply Forall_cons. split; [|by repeat constructor; left]. cbn. split; [by apply Hop; right|].
  split_and!; [..|done]; intros v op [= -> ->]%list_elem_of_singleton; (split; [by apply Hop; left|]); (eexists; split; [reflexivity|crosses_by_computation]).
Qed.

Lemma demo_limit : sendableLimit demoLimit.
Proof. split; [|by split]. constructor; [|constructor]. rewrite /= /inS. vm_compute. done. Qed.

(** The filter is the same but for the pointers, and the sort order is lost. *)
Lemma query_through_rpc_witness :
  clientQueryKey (over (serverQueryKey demoReader CBOREncodingVersion)) CBOREncodingVersion demoContract demoFilter demoLimit demoType =
    Ok [mkSequence "c1" (mkHead "7" [] 9) (AValue (VInt64 5)); mkSequence "c2" (mkHead "8" [] 9) (AValue (VInt64 6))] ∧
  sentLimit demoLimit = mkLimitAndSort [] (limit demoLimit).
Proof.
  split; [|done]. destruct (query_through_rpc demoReader CBOREncodingVersion CBOREncodingVersion (λ _ a, a) demoContract demoFilter demoLimit demoType (TType ())) as (f & _ & _ & Hr).
  - exact demo_sendable.
  - exact demo_limit.
  - done.
  - apply Hr. repeat constructor; eexists; (split; [crosses_by_computation|done]).
Defined.

Definition demoRead (name : string) (z : Z) (x : nat) : BatchRead := mkBatchRead name (number z) x (TType ()).
Definition demoRequest : gmap BoundContract (list BatchRead) := {[ demoContract := [demoRead "a" 8 0; demoRead "b" 9 1] ]}.

(** Two readings, of which the second fails. *)
Lemma batch_through_rpc_witness :
  ∃ m h', clientBatchGetLatestValues (over (serverBatchGetLatestValues demoReader CBOREncodingVersion (insertion_order _))) CBOREncodingVersion (insertion_order _) demoRequest ∅ = Ok (m, h') ∧
    m !! demoContract = Some [mkBatchReadResult "a" 0 None; mkBatchReadResult "b" 1 (Some (EText "reverted"))] ∧ h' !! 0 = Some (number 0) ∧ h' !! 1 = Some (number 1).
Proof.
  destruct (batch_through_rpc demoReader CBOREncodingVersion CBOREncodingVersion (λ _ r, Params r) (λ _ _, TType ()) (λ x, number (Z.of_nat x))
    (insertion_order _) (insertion_order _) demoRequest ∅) as (m & h' & Hr & Hm & Hh & _).
  - intros b l. rewrite /demoRequest lookup_singleton_Some. intros [<- <-]. repeat constructor; (eexists; split; [reflexivity|crosses_by_computation]).
  - intros b. destruct (decide (b = demoContract)) as [->|Hne].
    + vm_compute. repeat constructor; crosses_by_computation.
    + rewrite lookup_fmap /arrivedRequest map_lookup_imap /demoRequest !lookup_singleton_ne //. constructor.
  - exists m, h'. split; [exact Hr|]. split; [rewrite (Hm demoContract); vm_compute; reflexivity|].
    split; [apply (Hh demoContract [demoRead "a" 8 0; demoRead "b" 9 1] (demoRead "a" 8 0))|apply (Hh demoContract [demoRead "a" 8 0; demoRead "b" 9 1] (demoRead "b" 9 1))];
      [by apply lookup_singleton_eq|by left|by apply lookup_singleton_eq|right; by left].
Defined.

Definition demoQuery : ContractKeyFilter := (demoContract, demoFilter, mkSequenceType true (TType ())).

Lemma keys_through_rpc_witness :
  clientQueryKeys (over (serverQueryKeys demoReader CBOREncodingVersion)) CBOREncodingVersion [demoQuery] demoLimit =
    Ok [("transfer", mkSequence "c1" (mkHead "7" [] 9) (APtr (Some (number 5))))].
Proof.
  destruct (keys_through_rpc demoReader CBOREncodingVersion CBOREncodingVersion (λ _ _ _ a, a) [demoQuery] demoLimit) as (fs & _ & Hr).
  - constructor; [|constructor]. split; [exact demo_sendable|done].
  - exact demo_limit.
  - repeat constructor. by apply not_elem_of_nil.
  - apply Hr. repeat constructor. exists demoQuery. split; [by left|]. split; [done|]. split; [done|]. split; [done|]. split; [done|].
    eexists. split; [crosses_by_computation|done].
Defined.
End ContractReader.
