(* ===== verification/Secrets.v ===== *)
(** [src/pkg/workflows/secrets/secrets.go]: the secrets of a workflow, spread over
    the nodes and encrypted for each of them.

    JSON and the sealed boxes of NaCl are an interface: a box opens with the key
    for which it was sealed, and with no other. *)

From stdpp Require Import strings.
From S2P Require Import Prelude GoBytes GoStrings.

Module Secrets.

Inductive error :=
  | ErrMarshal | ErrSeal | ErrKeyNotFound | ErrBlobNotFound | ErrBase64 | ErrDecrypt | ErrJSON | ErrOwner (got expected : string)
  | ErrParse | ErrMetadataOwner | ErrNoSecret (p2pId : string) | ErrNoKey (p2pId : string) | ErrKeyMismatch.

Record SecretPayloadToEncrypt := mkPayload { WorkflowOwner : string; Secrets : gmap string string }.
Record AssignedSecrets := mkAssigned { WorkflowSecretName : string; LocalEnvVarName : string }.
Record Metadata := mkMetadata {
  mdWorkflowOwner : string;
  CapabilitiesRegistry : string;
  DonId : string;
  DateEncrypted : string;
  NodePublicEncryptionKeys : gmap string string;
  EnvVarsAssignedToNodes : gmap string (list AssignedSecrets)
}.
Record EncryptedSecretsResult := mkResult { EncryptedSecrets : gmap string string; metadata : Metadata }.

(** A key has its public half; [seal] also takes what [rand.Reader] gives. *)
Class Crypto := {
  key : Type;
  PublicKey : key → list byte;
  Decrypt : key → list byte → option (list byte);
  seal : nat → list byte → list byte → option (list byte);
  marshalPayload : SecretPayloadToEncrypt → option (list byte);
  unmarshalPayload : list byte → option SecretPayloadToEncrypt;
  unmarshalResult : list byte → option EncryptedSecretsResult
}.

Section secrets.
Context `{Crypto}.

Definition ContainsP2pId (p2pId : list byte) (p2pIds : list (list byte)) : bool := existsb (λ id, bool_decide (id = p2pId)) p2pIds.

(** [values[i%len(values)]] *)
Definition pick {E} (i : nat) (values : list string) : outcome E string :=
  match values with [] => Panic | _ => go_index values (i `mod` length values) end.

(** The secrets of the [i]-th node. *)
Definition assignSecrets (O : RangeOrder (string * list string)) (i : nat) (secrets : gmap string (list string)) : outcome error (gmap string string) :=
  ofold (λ m sv, let? secretValue := pick i sv.2 in Ok (<[sv.1 := secretValue]> m)) ∅ (range_map O secrets).

(** The environment variables of the [i]-th node, for the metadata. *)
Definition assignNames (O : RangeOrder (string * list string)) (i : nat) (names : gmap string (list string)) : outcome error (list AssignedSecrets) :=
  omapM (λ sn, let? name := pick i sn.2 in Ok (mkAssigned sn.1 name)) (range_map O names).

Definition encryptFor (Os On : nat → RangeOrder (string * list string)) (workflowOwner : string) (secrets names : gmap string (list string)) (i : nat) (node : string * list byte)
    (acc : gmap string string * gmap string (list AssignedSecrets)) : outcome error (gmap string string * gmap string (list AssignedSecrets)) :=
  let? assigned := assignSecrets (Os i) i secrets in
  let? secretsJSON := ok_or ErrMarshal (marshalPayload (mkPayload workflowOwner assigned)) in
  let? encrypted := ok_or ErrSeal (seal i node.2 secretsJSON) in
  let? envVars := assignNames (On i) i names in
  Ok (<[node.1 := base64Encode encrypted]> acc.1, match envVars with [] => acc.2 | _ => <[node.1 := envVars]> acc.2 end).

Fixpoint encryptLoop (Os On : nat → RangeOrder (string * list string)) (workflowOwner : string) (secrets names : gmap string (list string)) (i : nat) (nodes : list (string * list byte))
    (acc : gmap string string * gmap string (list AssignedSecrets)) : outcome error (gmap string string * gmap string (list AssignedSecrets)) :=
  match nodes with
  | [] => Ok acc
  | node :: nodes => let? acc := encryptFor Os On workflowOwner secrets names i node acc in encryptLoop Os On workflowOwner secrets names (S i) nodes acc
  end.

(** The maps of secrets are iterated anew for each node. *)
Definition EncryptSecretsForNodes (O : RangeOrder (string * list byte)) (Os On : nat → RangeOrder (string * list string)) (workflowOwner : string)
    (secrets : gmap string (list string)) (encryptionPublicKeys : gmap string (list byte)) (config : gmap string (list string))
    : outcome error (gmap string string * gmap string (list AssignedSecrets)) :=
  encryptLoop Os On workflowOwner secrets config 0 (range_map O encryptionPublicKeys) (∅, ∅).

(** *** Decryption *)

Definition PublicKeyString (k : key) : string := hexEncode (PublicKey k).

Definition normalizeOwner (owner : string) : string := ToLower (TrimPrefix owner "0x").

(** The first node, in the order of the iteration, with the key. *)
Definition findNode (O : RangeOrder (string * string)) (keys : gmap string string) (pubKey : string) : string :=
  match list_find (λ kv, kv.2 = pubKey) (range_map O keys) with Some (_, kv) => kv.1 | None => "" end.

Definition DecryptSecretsForNode (O : RangeOrder (string * string)) (result : EncryptedSecretsResult) (k : key) (workflowOwner : string) : outcome error (gmap string string) :=
  let foundP2pId := findNode O (NodePublicEncryptionKeys (metadata result)) (PublicKeyString k) in
  if String.eqb foundP2pId "" then Err ErrKeyNotFound
  else
    let? bundle := ok_or ErrBlobNotFound (EncryptedSecrets result !! foundP2pId) in
    let? bundleBytes := ok_or ErrBase64 (base64Decode bundle) in
    let? payloadBytes := ok_or ErrDecrypt (Decrypt k bundleBytes) in
    let? payload := ok_or ErrJSON (unmarshalPayload payloadBytes) in
    if String.eqb (normalizeOwner (WorkflowOwner payload)) (normalizeOwner workflowOwner) then Ok (Secrets payload)
    else Err (ErrOwner (WorkflowOwner payload) workflowOwner).

(** *** Validation *)

Definition checkEach {A} (P : A → option error) (l : list A) : option error := foldr (λ x r, match P x with Some e => Some e | None => r end) None l.

Definition ValidateEncryptedSecrets (Oe Ok1 Ok2 : RangeOrder (string * string)) (secretsData : list byte) (encryptionPublicKeys : gmap string (list byte)) (workflowOwner : string) : option error :=
  match unmarshalResult secretsData with
  | None => Some ErrParse
  | Some encryptedSecrets =>
      let md := metadata encryptedSecrets in
      if negb (String.eqb (mdWorkflowOwner md) workflowOwner) then Some ErrMetadataOwner
      else
        match checkEach (λ kv, match base64Decode kv.2 with None => Some ErrBase64 | Some _ => None end) (range_map Oe (EncryptedSecrets encryptedSecrets)) with
        | Some e => Some e
        | None =>
            match checkEach (λ kv, match EncryptedSecrets encryptedSecrets !! kv.1 with None => Some (ErrNoSecret kv.1) | Some _ => None end) (range_map Ok1 (NodePublicEncryptionKeys md)) with
            | Some e => Some e
            | None =>
                checkEach (λ kv, match encryptionPublicKeys !! kv.1 with
                                 | None => Some (ErrNoKey kv.1)
                                 | Some pk => if String.eqb kv.2 (hexEncode pk) then None else Some ErrKeyMismatch
                                 end) (range_map Ok2 (NodePublicEncryptionKeys md))
            end
        end
  end.

(** *** Facts: assignment *)

(** The value, or the name, at position [i]. *)
Definition at_ (i : nat) (values : list string) : string := nth (i `mod` length values) values "".
Definition allGiven (m : gmap string (list string)) : Prop := ∀ name values, m !! name = Some values → values ≠ [].

Lemma pick_ok {E} i values : values ≠ [] → pick (E:=E) i values = Ok (at_ i values).
Proof.
  intros Hne. rewrite /pick /at_. destruct values as [|v values]; [done|]. set (l := v :: values). rewrite /go_index.
  destruct (nth_lookup_or_length l (i `mod` length l) "") as [-> |Hlen]; [done|]. pose proof (Nat.mod_upper_bound i (length l)). cbn in *. lia.
Qed.

Lemma given_Forall O (m : gmap string (list string)) : allGiven m → Forall (λ kv, kv.2 ≠ []) (range_map O m).
Proof. intros Hg. apply Forall_forall. intros [k v] Hin%elem_of_range_map. by apply (Hg k). Qed.

Lemma assignSecrets_ok O i secrets : allGiven secrets → assignSecrets O i secrets = Ok (at_ i <$> secrets).
Proof.
  intros Hg. rewrite /assignSecrets.
  assert (∀ l m, Forall (λ kv : string * list string, kv.2 ≠ []) l →
    ofold (E:=error) (λ m sv, let? v := pick i sv.2 in Ok (<[sv.1 := v]> m)) m l = Ok (foldl (λ (m : gmap string string) sv, <[sv.1 := at_ i sv.2]> m) m l)) as Hfold.
  { intros l. induction l as [|[k v] l IH]; intros m Hl; [done|]. apply Forall_cons in Hl as [Hv Hl]. cbn [ofold fst snd]. rewrite pick_ok //. cbn [obind]. by rewrite IH. }
  rewrite Hfold; [|by apply given_Forall]. f_equal. apply map_eq. intros k.
  rewrite (foldl_insert_range (λ m sv, <[sv.1 := at_ i sv.2]> m) (λ _ vs, at_ i vs)); [|done]. rewrite lookup_empty lookup_fmap. by destruct (secrets !! k).
Qed.

(** A secret without values makes the division panic. *)
Lemma assignSecrets_panic O i secrets name : secrets !! name = Some [] → assignSecrets O i secrets = Panic.
Proof.
  intros Hn. rewrite /assignSecrets. assert ((name, []) ∈ range_map O secrets) as Hin by (by apply elem_of_range_map). revert Hin. generalize (∅ : gmap string string).
  induction (range_map O secrets) as [|[k v] l IH]; intros m Hin; [by apply elem_of_nil in Hin|]. cbn [ofold fst snd]. destruct v as [|v vs]; [done|].
  rewrite pick_ok //. cbn [obind]. apply IH. by apply elem_of_cons in Hin as [|].
Qed.

Lemma assignNames_ok O i names : allGiven names → assignNames O i names = Ok ((λ sn, mkAssigned sn.1 (at_ i sn.2)) <$> range_map O names).
Proof.
  intros Hg. rewrite /assignNames. pose proof (given_Forall O _ Hg) as Hl. induction Hl as [|[k v] l Hv _ IH]; [done|]. cbn [omapM fst snd]. rewrite pick_ok //. cbn [obind]. by rewrite IH.
Qed.

(** Of [n] consecutive numbers each residue gets its share. *)
Lemma count_residue n L j : j < L → length (filter (λ i, i `mod` L = j) (seq 0 n)) = n / L + (if decide (j < n `mod` L) then 1 else 0).
Proof.
  intros Hj. induction n as [|n IH]; [by rewrite Nat.Div0.div_0_l Nat.Div0.mod_0_l|]. rewrite seq_S filter_app length_app IH.
  pose proof (Nat.div_mod_eq n L) as Hn. pose proof (Nat.mod_upper_bound n L) as Hr. set (q := n / L) in *. set (r := n `mod` L) in *.
  assert (S n / L = (if decide (S r < L) then q else S q) ∧ S n `mod` L = (if decide (S r < L) then S r else 0)) as [-> ->].
  { destruct (decide (S r < L)).
    - split; symmetry; [apply (Nat.div_unique _ _ _ (S r))|apply (Nat.mod_unique _ _ q)]; lia.
    - split; symmetry; [apply (Nat.div_unique _ _ _ 0)|apply (Nat.mod_unique _ _ (S q))]; lia. }
  rewrite filter_cons filter_nil. cbn [Nat.add]. fold r. destruct (decide (r = j)), (decide (S r < L)); repeat destruct (decide _); cbn [length]; lia.
Qed.

(** *** Facts: encryption *)

(** A payload that JSON gives back, and what sealed boxes promise. *)
Definition understood (p : SecretPayloadToEncrypt) : Prop := ∃ bs, marshalPayload p = Some bs ∧ unmarshalPayload bs = Some p.
Definition boxesOpen : Prop := ∀ r k m, ∃ c, seal r (PublicKey k) m = Some c ∧ ∀ k', Decrypt k' c = if decide (PublicKey k' = PublicKey k) then Some m else None.

Definition envVarsOf (i : nat) (names : gmap string (list string)) : list AssignedSecrets := (λ sn, mkAssigned sn.1 (at_ i sn.2)) <$> map_to_list names.

(** What a node finds: a box with its payload, for its key alone, and its
    environment variables. *)
Definition provided (owner : string) (secrets names : gmap string (list string)) (i : nat) (node : string * list byte)
    (acc : gmap string string * gmap string (list AssignedSecrets)) : Prop :=
  (∃ c m, acc.1 !! node.1 = Some (base64Encode c) ∧ unmarshalPayload m = Some (mkPayload owner (at_ i <$> secrets)) ∧ ∀ k, Decrypt k c = if decide (PublicKey k = node.2) then Some m else None) ∧
  default [] (acc.2 !! node.1) ≡ₚ envVarsOf i names.

Section encrypt.
Context (Os On : nat → RangeOrder (string * list string)) (owner : string) (secrets names : gmap string (list string)).
Hypothesis secrets_given : allGiven secrets.
Hypothesis names_given : allGiven names.
Hypothesis payloads_understood : ∀ i, understood (mkPayload owner (at_ i <$> secrets)).
Hypothesis boxes_open : boxesOpen.

Lemma encryptFor_ok i p k acc : acc.2 !! p = None →
  ∃ acc', encryptFor Os On owner secrets names i (p, PublicKey k) acc = Ok acc' ∧ provided owner secrets names i (p, PublicKey k) acc' ∧
    ∀ q, q ≠ p → acc'.1 !! q = acc.1 !! q ∧ acc'.2 !! q = acc.2 !! q.
Proof.
  intros Hp. destruct (payloads_understood i) as (m & Hm & Hu). destruct (boxes_open i k m) as (c & Hc & Hd). rewrite /encryptFor assignSecrets_ok //. cbn [obind snd]. rewrite Hm. cbn [ok_or obind].
  rewrite Hc. cbn [ok_or obind]. rewrite assignNames_ok //. cbn [obind fst].
  assert ((λ sn, mkAssigned sn.1 (at_ i sn.2)) <$> range_map (On i) names ≡ₚ envVarsOf i names) as He by (by rewrite /envVarsOf range_map_perm).
  set (envs := (λ sn, mkAssigned sn.1 (at_ i sn.2)) <$> range_map (On i) names) in *. eexists. split; [done|]. split.
  - split; [exists c, m; cbn [fst snd]; rewrite lookup_insert_eq; split_and!; [done|done|]; intros k'; apply Hd|]. cbn [fst snd]. rewrite -He.
    destruct envs; [by rewrite Hp|by rewrite lookup_insert_eq].
  - intros q Hq. cbn [fst snd]. split; [by rewrite lookup_insert_ne|]. destruct envs; [done|by rewrite lookup_insert_ne].
Qed.

Lemma encryptLoop_ok i l acc : NoDup l.*1 → Forall (λ node, ∃ k, node.2 = PublicKey k) l → (∀ p, p ∈ l.*1 → acc.2 !! p = None) →
  ∃ acc', encryptLoop Os On owner secrets names i l acc = Ok acc' ∧ (∀ j node, l !! j = Some node → provided owner secrets names (i + j) node acc') ∧
    ∀ q, q ∉ l.*1 → acc'.1 !! q = acc.1 !! q ∧ acc'.2 !! q = acc.2 !! q.
Proof.
  revert i acc. induction l as [|[p pk] l IH]; intros i acc Hnd Hk Hacc; [by exists acc|]. apply Forall_cons in Hk as [[k Hpk] Hk]. cbn [snd] in Hpk. subst pk.
  apply NoDup_cons in Hnd as [Hp Hnd]. cbn [fst] in Hp. destruct (encryptFor_ok i p k acc) as (acc1 & H1 & H2 & H3); [apply Hacc; by left|].
  destruct (IH (S i) acc1) as (acc' & H4 & H5 & H6); [done|done| |].
  { intros q Hq. destruct (H3 q) as [_ ->]; [by intros ->|]. apply Hacc. by right. }
  exists acc'. cbn [encryptLoop]. rewrite H1. cbn [obind]. split; [done|]. split.
  - intros [|j] node Hj; [|rewrite Nat.add_succ_r; by apply H5]. injection Hj as <-. rewrite Nat.add_0_r. rewrite /provided. cbn [fst snd]. destruct (H6 p Hp) as [-> ->]. exact H2.
  - intros q Hq. rewrite fmap_cons not_elem_of_cons in Hq. destruct Hq as [Hne Hq]. destruct (H6 q Hq) as [-> ->]. by apply H3.
Qed.
End encrypt.

Lemma findNode_unique O (keys : gmap string string) p pubKey : keys !! p = Some pubKey → (∀ q, keys !! q = Some pubKey → q = p) → findNode O keys pubKey = p.
Proof.
  intros Hp Hu. rewrite /findNode. destruct (list_find _ _) as [[j [q v]]|] eqn:E.
  - apply list_find_Some in E as (Hj & Hv & _). cbn in Hv. subst v. apply Hu, (elem_of_range_map O). by eapply list_elem_of_lookup_2.
  - apply list_find_None in E. rewrite Forall_forall in E. destruct (E (p, pubKey)); [by apply elem_of_range_map|done].
Qed.

(** A name without values makes the first node's turn panic. *)
Lemma assignNames_panic O i names name : names !! name = Some [] → assignNames O i names = Panic.
Proof.
  intros Hn. rewrite /assignNames. assert ((name, []) ∈ range_map O names) as Hin by (by apply elem_of_range_map). revert Hin.
  induction (range_map O names) as [|[k v] l IH]; intros Hin; [by apply elem_of_nil in Hin|]. cbn [omapM fst snd]. destruct v as [|v vs]; [done|].
  rewrite pick_ok //. cbn [obind]. rewrite IH //. by apply elem_of_cons in Hin as [|].
Qed.

#[local] Instance allGiven_dec m : Decision (allGiven m).
Proof. change (Decision (map_Forall (λ _ values, values ≠ []) m)). apply _. Defined.

Lemma not_given m : ¬ allGiven m → ∃ name, m !! name = Some [].
Proof.
  intros Hn. apply (map_not_Forall (λ _ values, values ≠ [])) in Hn as (name & values & Hm & Hv). exists name. destruct values as [|v vs]; [done|]. by destruct Hv.
Qed.

Lemma encrypt_panics O Os On owner secrets keys names : keys ≠ ∅ → ¬ (allGiven secrets ∧ allGiven names) →
  (∀ i, understood (mkPayload owner (at_ i <$> secrets))) → boxesOpen → (∀ p pk, keys !! p = Some pk → ∃ k, pk = PublicKey k) →
  EncryptSecretsForNodes O Os On owner secrets keys names = Panic.
Proof.
  intros Hne Hg Hu Hb Hk. rewrite /EncryptSecretsForNodes. destruct (range_map O keys) as [|[p pk] l] eqn:El.
  { destruct Hne. apply map_to_list_empty_iff, Permutation_nil_r. by rewrite -El range_map_perm. }
  destruct (Hk p pk) as [k ->]; [apply (elem_of_range_map O); rewrite El; by left|]. cbn [encryptLoop]. rewrite /encryptFor.
  destruct (decide (allGiven secrets)) as [Hs|[name Hs]%not_given]; [|by rewrite (assignSecrets_panic _ _ _ name)].
  rewrite assignSecrets_ok //. cbn [obind snd]. destruct (Hu 0) as (m & -> & _). cbn [ok_or obind]. destruct (Hb 0 k m) as (c & -> & _). cbn [ok_or obind].
  destruct (decide (allGiven names)) as [Hn|[name Hn]%not_given]; [by destruct Hg|]. by rewrite (assignNames_panic _ _ _ name).
Qed.

(** What came out of the encryption: a box for each node and none else. *)
Definition spread (O : RangeOrder (string * list byte)) (owner : string) (secrets names : gmap string (list string)) (keys : gmap string (list byte))
    (acc : gmap string string * gmap string (list AssignedSecrets)) : Prop :=
  (∀ i node, range_map O keys !! i = Some node → provided owner secrets names i node acc) ∧ ∀ p, keys !! p = None → acc.1 !! p = None ∧ acc.2 !! p = None.

Lemma encrypt_spreads O Os On owner secrets keys names : keys = ∅ ∨ allGiven secrets ∧ allGiven names →
  (∀ i, understood (mkPayload owner (at_ i <$> secrets))) → boxesOpen → (∀ p pk, keys !! p = Some pk → ∃ k, pk = PublicKey k) →
  ∃ acc, EncryptSecretsForNodes O Os On owner secrets keys names = Ok acc ∧ spread O owner secrets names keys acc.
Proof.
  intros [-> |[Hs Hn]] Hu Ho Hk; rewrite /EncryptSecretsForNodes /spread.
  { assert (range_map O (∅ : gmap string (list byte)) = []) as -> by (apply Permutation_nil_r; by rewrite range_map_perm map_to_list_empty). by exists (∅, ∅). }
  destruct (encryptLoop_ok Os On owner secrets names Hs Hn Hu Ho 0 (range_map O keys) (∅, ∅)) as (acc & H1 & H2 & H3).
  { apply NoDup_fst_range_map. }
  { apply Forall_forall. intros [p pk] Hin%elem_of_range_map. by apply (Hk p). }
  { intros p _. apply lookup_empty. }
  exists acc. split; [exact H1|]. split; [exact H2|]. intros p Hp. apply H3. intros ([q pk] & -> & Hin%elem_of_range_map)%list_elem_of_fmap. cbn [fst] in Hp. congruence.
Qed.

(** Who opens a box of the encryption is the node for which it was made. *)
Lemma spread_own O owner secrets names keys enc env O' md k owner' m : spread O owner secrets names keys (enc, env) →
  DecryptSecretsForNode O' (mkResult enc md) k owner' = Ok m →
  ∃ i p, range_map O keys !! i = Some (p, PublicKey k) ∧ m = at_ i <$> secrets ∧ normalizeOwner owner = normalizeOwner owner'.
Proof.
  intros [Hp Hnone]. rewrite /DecryptSecretsForNode. cbn [metadata EncryptedSecrets]. set (p := findNode _ _ _). destruct (String.eqb p ""); [done|].
  destruct (enc !! p) as [blob|] eqn:Eb; [|done]. cbn [ok_or obind]. destruct (keys !! p) as [pk|] eqn:Ek; [|destruct (Hnone p Ek) as [Hq _]; cbn [fst] in Hq; congruence].
  apply (elem_of_range_map O), list_elem_of_lookup_1 in Ek as [i Hi]. destruct (Hp i _ Hi) as [(c & bs & Hc & Hm & Hd) _]. cbn [fst snd] in Hc, Hd. rewrite Eb in Hc. injection Hc as ->.
  rewrite base64_roundtrip. cbn [ok_or obind]. rewrite Hd. destruct (decide _) as [<-|]; [|done]. cbn [ok_or obind]. rewrite Hm. cbn [ok_or obind WorkflowOwner Secrets].
  destruct (String.eqb_spec (normalizeOwner owner) (normalizeOwner owner')) as [Ho|]; [|done]. intros [= <-]. by exists i, p.
Qed.

(** And the node does open it, when the metadata lists its key once. *)
Lemma spread_opens O owner secrets names keys enc env O' md k owner' i p : spread O owner secrets names keys (enc, env) →
  range_map O keys !! i = Some (p, PublicKey k) → p ≠ "" → (∀ q, keys !! q = Some (PublicKey k) → q = p) → NodePublicEncryptionKeys md = hexEncode <$> keys →
  DecryptSecretsForNode O' (mkResult enc md) k owner' =
    if String.eqb (normalizeOwner owner) (normalizeOwner owner') then Ok (at_ i <$> secrets) else Err (ErrOwner owner owner').
Proof.
  intros [Hs _] Hi Hne Huniq Hmd. destruct (Hs i _ Hi) as [(c & m & Hc & Hm & Hd) _]. cbn [fst snd] in Hc, Hd. rewrite /DecryptSecretsForNode. cbn [metadata EncryptedSecrets].
  assert (keys !! p = Some (PublicKey k)) as Hp by (apply (elem_of_range_map O); by eapply list_elem_of_lookup_2).
  rewrite (findNode_unique O' _ p); [|by rewrite Hmd lookup_fmap Hp|].
  - apply String.eqb_neq in Hne as ->. rewrite Hc. cbn [ok_or obind]. rewrite base64_roundtrip. cbn [ok_or obind]. rewrite Hd decide_True //. cbn [ok_or obind]. by rewrite Hm.
  - intros q. rewrite Hmd lookup_fmap /PublicKeyString. destruct (keys !! q) as [pk|] eqn:Eq; [|done]. intros [= Hhex]. apply Huniq.
    rewrite Eq. f_equal. apply (f_equal hexDecode) in Hhex. rewrite !hexDecode_hexEncode in Hhex. by injection Hhex.
Qed.

(** Whether a node gets that value of that secret. *)
Definition gets (O : RangeOrder (string * string)) (r : EncryptedSecretsResult) (owner name value : string) (node : string * key) : bool :=
  match DecryptSecretsForNode O r node.2 owner with Ok m => bool_decide (m !! name = Some value) | _ => false end.

(** Counting along a list is counting its positions. *)
Lemma count_positions {A} (P : A → Prop) (Q : nat → Prop) `{!∀ x, Decision (P x), !∀ i, Decision (Q i)} (l : list A) :
  (∀ i x, l !! i = Some x → P x ↔ Q i) → length (filter P l) = length (filter Q (seq 0 (length l))).
Proof.
  induction l as [|x l IH] using rev_ind; intros Heq; [done|]. rewrite length_app Nat.add_1_r seq_S !filter_app !length_app. f_equal.
  - apply IH. intros i y Hi. apply Heq. by apply lookup_app_l_Some.
  - assert (P x ↔ Q (length l)) as Hx by (apply Heq; by rewrite lookup_app_r // Nat.sub_diag).
    rewrite !filter_cons !filter_nil. cbn [Nat.add]. destruct (decide (P x)), (decide (Q (length l))); tauto || done.
Qed.

Section holders.
Context (O : RangeOrder (string * list byte)) (owner : string) (secrets names : gmap string (list string)) (holders : gmap string key).
Context (enc : gmap string string) (env : gmap string (list AssignedSecrets)).
Let keys := PublicKey <$> holders.
Hypothesis spread_all : spread O owner secrets names keys (enc, env).

Lemma spread_dom : dom enc = dom holders.
Proof.
  apply set_eq. intros p. rewrite !elem_of_dom. destruct (holders !! p) as [k|] eqn:E.
  - split; [done|]. intros _. assert (keys !! p = Some (PublicKey k)) as Hp by (by rewrite lookup_fmap E).
    apply (elem_of_range_map O), list_elem_of_lookup_1 in Hp as [i Hi]. destruct (proj1 spread_all i _ Hi) as [(c & m & Hc & _) _]. by exists (base64Encode c).
  - assert (keys !! p = None) as Hp by (by rewrite lookup_fmap E). destruct (proj2 spread_all p Hp) as [Hc _]. cbn [fst] in Hc. rewrite Hc. by split; intros [].
Qed.

Lemma spread_counts nodes O' md name values j value : prod_map id PublicKey <$> nodes = range_map O keys →
  holders !! "" = None → (∀ p q pk, keys !! p = Some pk → keys !! q = Some pk → p = q) → NodePublicEncryptionKeys md = hexEncode <$> keys →
  secrets !! name = Some values → NoDup values → values !! j = Some value →
  length (filter (gets O' (mkResult enc md) owner name value) nodes) =
    length nodes / length values + (if decide (j < length nodes `mod` length values) then 1 else 0).
Proof.
  intros Hn Hnil Huniq Hmd Hname Hnd Hj. rewrite -count_residue; [|by eapply lookup_lt_Some]. apply count_positions. intros i [p k] Hi.
  assert (range_map O keys !! i = Some (p, PublicKey k)) as Hr by (by rewrite -Hn list_lookup_fmap Hi).
  assert (keys !! p = Some (PublicKey k)) as Hp by (apply (elem_of_range_map O); by eapply list_elem_of_lookup_2).
  rewrite /gets. cbn [snd]. rewrite (spread_opens O owner secrets names keys enc env O' md k owner i p) //.
  - rewrite String.eqb_refl lookup_fmap Hname bool_decide_spec. cbn [fmap option_fmap option_map]. rewrite /at_. apply lookup_lt_Some in Hj as Hlt.
    pose proof (Nat.mod_upper_bound i (length values) ltac:(lia)) as Hm. apply lookup_lt_is_Some in Hm as [v Hv]. rewrite (nth_lookup_Some _ _ _ v) //. split.
    + intros [= ->]. by eapply NoDup_lookup.
    + intros <-. congruence.
  - intros ->. rewrite lookup_fmap Hnil in Hp. done.
  - intros q Hq. by eapply Huniq.
Qed.
End holders.

(** C34: every node gets its secrets, and only its own.  Let the boxes be sound (a
    sealed box opens with the key it was sealed for and with no other), JSON give
    every payload back, and every node hold the key of its public key.  Encryption
    then succeeds exactly when there is no node or every secret and every name has
    a value, and panics otherwise, whatever order the maps are iterated in.  When
    it succeeds there is a box for each node and none else.  The [i]-th node of the
    iteration finds, under its own key, each secret's [i]-th value, counted around,
    if the owner is the one it was encrypted for (up to case and a prefix 0x), and
    the metadata names the [i]-th variables; its identifier must not be empty and
    its key be no other node's.  Whatever the metadata say, a key that opens
    anything is a node's and opens that node's share.  And when no identifier is
    empty and the keys differ, the [j]-th of the [L] distinct values of a secret is
    what [n / L] of the [n] nodes get, and one more if [j < n mod L]. *)
Theorem secrets_reach_nodes O Os On owner secrets names (holders : gmap string key) :
  boxesOpen → (∀ i, understood (mkPayload owner (at_ i <$> secrets))) →
  let keys := PublicKey <$> holders in
  let result := EncryptSecretsForNodes O Os On owner secrets keys names in
  let possible := holders = ∅ ∨ allGiven secrets ∧ allGiven names in
  (possible ↔ ∃ enc env, result = Ok (enc, env)) ∧ (¬ possible ↔ result = Panic) ∧
  ∀ enc env, result = Ok (enc, env) → ∃ nodes, prod_map id PublicKey <$> nodes = range_map O keys ∧ dom enc = dom holders ∧
    (∀ i p k, nodes !! i = Some (p, k) → default [] (env !! p) ≡ₚ envVarsOf i names ∧
       ∀ O' md owner', p ≠ "" → (∀ q, keys !! q = Some (PublicKey k) → q = p) → NodePublicEncryptionKeys md = hexEncode <$> keys →
         DecryptSecretsForNode O' (mkResult enc md) k owner' =
           if String.eqb (normalizeOwner owner) (normalizeOwner owner') then Ok (at_ i <$> secrets) else Err (ErrOwner owner owner')) ∧
    (∀ O' md k owner' m, DecryptSecretsForNode O' (mkResult enc md) k owner' = Ok m →
       ∃ i p k', nodes !! i = Some (p, k') ∧ PublicKey k' = PublicKey k ∧ m = at_ i <$> secrets ∧ normalizeOwner owner = normalizeOwner owner') ∧
    ∀ O' md name values j value, holders !! "" = None → (∀ p q pk, keys !! p = Some pk → keys !! q = Some pk → p = q) →
      NodePublicEncryptionKeys md = hexEncode <$> keys → secrets !! name = Some values → NoDup values → values !! j = Some value →
      let L := length values in length (filter (gets O' (mkResult enc md) owner name value) (map_to_list holders)) =
        size holders / L + (if decide (j < size holders `mod` L) then 1 else 0).
Proof.
  intros Hb Hu. cbv zeta. set (keys := PublicKey <$> holders). set (result := EncryptSecretsForNodes _ _ _ _ _ _ _).
  assert (∀ p pk, keys !! p = Some pk → ∃ k, pk = PublicKey k) as Hk by (intros p pk; rewrite lookup_fmap; destruct (holders !! p); intros [= <-]; eauto).
  assert (keys = ∅ ↔ holders = ∅) as He by apply fmap_empty_iff.
  assert (holders = ∅ ∨ allGiven secrets ∧ allGiven names → ∃ acc, result = Ok acc ∧ spread O owner secrets names keys acc) as Hok by (rewrite -He; intros; by apply encrypt_spreads).
  assert (¬ (holders = ∅ ∨ allGiven secrets ∧ allGiven names) → result = Panic) as Hpanic by (rewrite -He; intros; apply encrypt_panics; tauto).
  destruct (decide (holders = ∅ ∨ allGiven secrets ∧ allGiven names)) as [Hyes|Hno].
  - destruct (Hok Hyes) as ([enc env] & Hres & Hs). rewrite Hres. split; [split; [eauto|done]|]. split; [by split; [intros []|]|]. intros ? ? [= <- <-].
    assert (range_map O keys ≡ₚ map (prod_map id PublicKey) (map_to_list holders)) as (nodes & Hn & Hperm)%Permutation_map_inv by (by rewrite range_map_perm map_to_list_fmap).
    assert (∀ i p k, nodes !! i = Some (p, k) → range_map O keys !! i = Some (p, PublicKey k)) as Hi by (intros i p k Hl; by rewrite Hn list_lookup_fmap Hl).
    exists nodes. split; [done|]. split; [by eapply spread_dom|]. split; [|split].
    + intros i p k Hl%Hi. split; [by apply (proj1 Hs _ _ Hl)|]. intros O' md owner'. by eapply spread_opens.
    + intros O' md k owner' m (i & p & Hl & -> & Ho)%(spread_own _ _ _ _ _ _ _ _ _ _ _ _ Hs). rewrite Hn list_lookup_fmap in Hl. destruct (nodes !! i) as [[q k']|] eqn:En; [|done].
      injection Hl as -> Hpk. by exists i, p, k'.
    + intros O' md name values j value Hnil Huniq Hmd Hname Hnd Hj. assert (size holders = length nodes) as -> by (rewrite -length_map_to_list; by rewrite Hperm).
      rewrite (Permutation_length (filter_Permutation (gets O' (mkResult enc md) owner name value) _ _ Hperm)). rewrite -(spread_counts O owner secrets names holders enc env Hs nodes O' md name values j value) //.
  - rewrite (Hpanic Hno). split; [split; [done|by intros (? & ? & ?)]|]. by split.
Qed.

(** *** Facts: validation *)

Lemma checkEach_None {A} (P : A → option error) l : checkEach P l = None ↔ ∀ x, x ∈ l → P x = None.
Proof.
  induction l as [|x l IH]; cbn [checkEach foldr]; [by split; [intros _ x ?%elem_of_nil|]|]. rewrite -/(checkEach P l). destruct (P x) as [e|] eqn:E.
  - split; [done|]. intros Hall. rewrite -E. apply Hall. by left.
  - rewrite IH. split; [intros Hall y [->|Hy]%elem_of_cons; auto|intros Hall y Hy; apply Hall; by right].
Qed.

(** Every node of the metadata has a readable secret and the registered key. *)
Definition wellFormed (r : EncryptedSecretsResult) (keys : gmap string (list byte)) (owner : string) : Prop :=
  mdWorkflowOwner (metadata r) = owner ∧
  (∀ p blob, EncryptedSecrets r !! p = Some blob → is_Some (base64Decode blob)) ∧
  (∀ p pubKey, NodePublicEncryptionKeys (metadata r) !! p = Some pubKey →
     is_Some (EncryptedSecrets r !! p) ∧ ∃ pk, keys !! p = Some pk ∧ pubKey = hexEncode pk).

Lemma validate_None Oe Ok1 Ok2 data keys owner :
  ValidateEncryptedSecrets Oe Ok1 Ok2 data keys owner = None ↔ ∃ r, unmarshalResult data = Some r ∧ wellFormed r keys owner.
Proof.
  rewrite /ValidateEncryptedSecrets. destruct (unmarshalResult data) as [r|]; [|split; [done|by intros (? & ? & _)]]. cbv zeta.
  assert (∀ P, (∃ r', Some r = Some r' ∧ P r') ↔ P r) as -> by (intros P; split; [by intros (? & [= <-] & ?)|by exists r]). rewrite /wellFormed.
  destruct (String.eqb_spec (mdWorkflowOwner (metadata r)) owner) as [<-|Hne]; cbn [negb]; [|by split; [|intros [? _]]].
  destruct (checkEach _ (range_map Oe _)) as [e|] eqn:E1.
  { split; [done|]. intros (_ & Hb & _). rewrite (proj2 (checkEach_None _ _)) in E1; [done|]. intros [p blob] Hin%elem_of_range_map. cbn [snd]. by destruct (Hb _ _ Hin) as [? ->]. }
  rewrite checkEach_None in E1. destruct (checkEach _ (range_map Ok1 _)) as [e|] eqn:E2.
  { split; [done|]. intros (_ & _ & Hk). rewrite (proj2 (checkEach_None _ _)) in E2; [done|]. intros [p pk] Hin%elem_of_range_map. cbn [fst]. by destruct (Hk _ _ Hin) as [[? ->] _]. }
  rewrite checkEach_None in E2. rewrite checkEach_None. split.
  - intros E3. split; [done|]. split.
    + intros p blob Hb. specialize (E1 (p, blob)). cbn [snd] in E1. destruct (base64Decode blob); [done|]. by specialize (E1 (proj2 (elem_of_range_map Oe _ _ _) Hb)).
    + intros p pubKey Hk. specialize (E2 (p, pubKey)). specialize (E3 (p, pubKey)). cbn [fst snd] in E2, E3. rewrite elem_of_range_map in E2. rewrite elem_of_range_map in E3.
      split; [destruct (EncryptedSecrets r !! p); [done|by specialize (E2 Hk)]|]. specialize (E3 Hk). destruct (keys !! p) as [pk|]; [|done].
      exists pk. split; [done|]. destruct (String.eqb_spec pubKey (hexEncode pk)); done.
  - intros (_ & _ & Hk) [p pubKey] Hin%elem_of_range_map. cbn [fst snd]. destruct (Hk _ _ Hin) as (_ & pk & -> & ->). by rewrite String.eqb_refl.
Qed.

(** What a validated file promises.  Validation accepts, for every order in
    which the maps are iterated, exactly the files whose owner is the given one,
    whose secrets are base64 and in which every node of the metadata has a secret
    and its registered key.  A node whose key is in the metadata then comes as
    far as opening its box. *)
Theorem validation_exact Oe Ok1 Ok2 data keys owner :
  (ValidateEncryptedSecrets Oe Ok1 Ok2 data keys owner = None ↔ ∃ r, unmarshalResult data = Some r ∧ wellFormed r keys owner) ∧
  ∀ r O k owner', unmarshalResult data = Some r → ValidateEncryptedSecrets Oe Ok1 Ok2 data keys owner = None →
    (∃ p, NodePublicEncryptionKeys (metadata r) !! p = Some (PublicKeyString k)) → NodePublicEncryptionKeys (metadata r) !! "" = None →
    ∃ box, DecryptSecretsForNode O r k owner' =
      let? payloadBytes := ok_or ErrDecrypt (Decrypt k box) in
      let? payload := ok_or ErrJSON (unmarshalPayload payloadBytes) in
      if String.eqb (normalizeOwner (WorkflowOwner payload)) (normalizeOwner owner') then Ok (Secrets payload) else Err (ErrOwner (WorkflowOwner payload) owner').
Proof.
  assert (ValidateEncryptedSecrets Oe Ok1 Ok2 data keys owner = None ↔ ∃ r, unmarshalResult data = Some r ∧ wellFormed r keys owner) as Hv by apply validate_None.
  split; [exact Hv|]. intros r O k owner' Hr (r' & Hr' & Hwf)%Hv (p & Hp) Hnil. rewrite Hr in Hr'. injection Hr' as <-. destruct Hwf as (_ & Hb & Hk).
  rewrite /DecryptSecretsForNode /findNode. destruct (list_find _ _) as [[j [q v]]|] eqn:E.
  - apply list_find_Some in E as (Hj & Hv' & _). cbn in Hv'. subst v. assert (NodePublicEncryptionKeys (metadata r) !! q = Some (PublicKeyString k)) as Hq.
    { apply (elem_of_range_map O). by eapply list_elem_of_lookup_2. }
    cbn [fst]. destruct (String.eqb_spec q "") as [->|_]; [congruence|]. destruct (Hk _ _ Hq) as [[blob Hblob] _]. rewrite Hblob. cbn [ok_or obind].
    destruct (Hb _ _ Hblob) as [box ->]. exists box. done.
  - apply list_find_None in E. rewrite Forall_forall in E. destruct (E (p, PublicKeyString k)); [by apply elem_of_range_map|done].
Qed.
End secrets.

(** *** Witnesses *)

(** A key is a byte, a box is its content behind the key, and there is one
    payload for each of the two positions. *)
Definition demoSecrets : gmap string (list string) := {[ "API" := ["k1"; "k2"] ]}.
Definition demoNames : gmap string (list string) := {[ "API" := ["ENV1"; "ENV2"] ]}.
Definition demoPayload (i : nat) : SecretPayloadToEncrypt := mkPayload "0xAb" (at_ i <$> demoSecrets).

#[local] Instance demoCrypto : Crypto := {
  key := byte;
  PublicKey k := [k];
  Decrypt k box := match box with k' :: m => if decide (k = k') then Some m else None | [] => None end;
  seal _ pk m := Some (pk ++ m);
  marshalPayload p := Some [if decide (Secrets p = Secrets (demoPayload 0)) then x00 else x01];
  unmarshalPayload bs := Some (demoPayload (match bs with [x00] => 0 | _ => 1 end));
  unmarshalResult bs := match bs with
    | [x05] => Some (mkResult {[ "n1" := base64Encode [x0a; x00] ]} (mkMetadata "0xAb" "" "" "" {[ "n1" := hexEncode [x0a] ]} ∅))
    | _ => None end
}.

Lemma demo_understood i : understood (mkPayload "0xAb" (at_ i <$> demoSecrets)).
Proof.
  assert (at_ i <$> demoSecrets = {[ "API" := if decide (i `mod` 2 = 0) then "k1" else "k2" ]}) as ->.
  { rewrite /demoSecrets map_fmap_singleton /at_. cbn [length]. pose proof (Nat.mod_upper_bound i 2). by destruct (i `mod` 2) as [|[|n]] eqn:E; [| |lia]. }
  rewrite /understood. destruct (decide (i `mod` 2 = 0)); eexists; split; vm_compute; reflexivity.
Qed.

Lemma demo_boxes : boxesOpen.
Proof. intros r k m. exists (k :: m). split; [done|]. intros k'. cbn. destruct (decide (k' = k)) as [->|Hne]; [by rewrite !decide_True|]. rewrite !decide_False //. congruence. Qed.

Definition demoKeys : gmap string (list byte) := {[ "n1" := [x0a]; "n2" := [x0b] ]}.

Definition demoHolders : gmap string (@key demoCrypto) := {[ "n1" := x0a; "n2" := x0b ]}.

Lemma demoKeys_Some p pk : demoKeys !! p = Some pk → p = "n1" ∧ pk = [x0a] ∨ p = "n2" ∧ pk = [x0b].
Proof. rewrite /demoKeys lookup_insert_Some lookup_singleton_Some. naive_solver. Qed.

(** Whichever node is the first one gets the first value; of two nodes each value
    goes to one; and a secret without a value stops the encryption. *)
Lemma secrets_reach_nodes_witness :
  (∃ enc env p, EncryptSecretsForNodes (insertion_order _) (λ _, insertion_order _) (λ _, insertion_order _) "0xAb" demoSecrets demoKeys demoNames = Ok (enc, env) ∧
    default [] (env !! p) = [mkAssigned "API" "ENV1"] ∧
    ∀ md, NodePublicEncryptionKeys md = hexEncode <$> demoKeys →
      (∃ k, demoHolders !! p = Some k ∧ DecryptSecretsForNode (insertion_order _) (mkResult enc md) k "ab" = Ok {[ "API" := "k1" ]}) ∧
      length (filter (gets (insertion_order _) (mkResult enc md) "0xAb" "API" "k2") (map_to_list demoHolders)) = 1 ∧
      (∀ m, DecryptSecretsForNode (insertion_order _) (mkResult enc md) x0c "ab" ≠ Ok m)) ∧
  EncryptSecretsForNodes (insertion_order _) (λ _, insertion_order _) (λ _, insertion_order _) "0xAb" demoSecrets demoKeys {[ "API" := [] ]} = Panic.
Proof.
  assert (PublicKey <$> demoHolders = demoKeys) as Hkeys by (by rewrite /demoHolders fmap_insert map_fmap_singleton).
  split.
  - destruct (secrets_reach_nodes (insertion_order _) (λ _, insertion_order _) (λ _, insertion_order _) "0xAb" demoSecrets demoNames demoHolders demo_boxes demo_understood) as (H1 & _ & H2).
    rewrite Hkeys in H1 H2. destruct (proj1 H1) as (enc & env & He).
    { right. split; intros name values; [rewrite /demoSecrets|rewrite /demoNames]; rewrite lookup_singleton_Some; by intros [_ <-]. }
    destruct (H2 enc env He) as (nodes & Hn & _ & H3 & H4 & H5). assert (length nodes = 2) as Hlen.
    { rewrite -(length_fmap (prod_map id PublicKey) nodes) Hn range_map_perm. vm_compute. reflexivity. }
    destruct nodes as [|[p k] nodes]; [done|]. assert (demoKeys !! p = Some [k]) as Hp by (apply (elem_of_range_map (insertion_order _)); rewrite -Hn; by left).
    assert (∀ q r pk, demoKeys !! q = Some pk → demoKeys !! r = Some pk → q = r) as Hu.
    { intros q r pk [[-> ->]|[-> ->]]%demoKeys_Some [[-> ?]|[-> ?]]%demoKeys_Some; done. }
    destruct (H3 0 p k eq_refl) as [Henv Hdec]. exists enc, env, p. split; [exact He|]. split; [symmetry; apply Permutation_singleton_l; by rewrite Henv|].
    intros md Hmd. split; [|split].
    + exists k. split.
      * rewrite -Hkeys lookup_fmap in Hp. destruct (demoHolders !! p) as [k'|]; [|done]. by injection Hp as ->.
      * rewrite (Hdec _ md "ab"); [vm_compute; reflexivity| |intros q Hq; by eapply Hu|done]. intros ->. vm_compute in Hp. discriminate.
    + rewrite (H5 (insertion_order _) md "API" ["k1"; "k2"] 1 "k2"); [vm_compute; reflexivity|by vm_compute|exact Hu|exact Hmd|by vm_compute| |done].
      apply (bool_decide_unpack _). vm_compute. done.
    + intros m (i & q & k' & Hi & Hk & _)%H4. injection Hk as ->. assert (demoKeys !! q = Some [x0c]) as Hq.
      { apply (elem_of_range_map (insertion_order _)). rewrite -Hn. apply list_elem_of_lookup. exists i. by rewrite list_lookup_fmap Hi. }
      by apply demoKeys_Some in Hq as [[_ ?]|[_ ?]].
  - destruct (secrets_reach_nodes (insertion_order _) (λ _, insertion_order _) (λ _, insertion_order _) "0xAb" demoSecrets {[ "API" := [] ]} demoHolders demo_boxes demo_understood) as (_ & H2 & _).
    rewrite Hkeys in H2. apply H2. intros [Hx|[_ Hx]]; [by apply (f_equal size) in Hx|]. by apply (Hx "API" []).
Defined.

Definition demoKey : @key demoCrypto := x0a.

Lemma validation_exact_witness :
  ValidateEncryptedSecrets (insertion_order _) (insertion_order _) (insertion_order _) [x05] demoKeys "0xAb" = None ∧
  ∃ r box, unmarshalResult [x05] = Some r ∧ DecryptSecretsForNode (insertion_order _) r demoKey "ab" =
    (let? payloadBytes := ok_or ErrDecrypt (Decrypt demoKey box) in let? payload := ok_or ErrJSON (unmarshalPayload payloadBytes) in
     if String.eqb (normalizeOwner (WorkflowOwner payload)) (normalizeOwner "ab") then Ok (Secrets payload) else Err (ErrOwner (WorkflowOwner payload) "ab")).
Proof.
  assert (ValidateEncryptedSecrets (insertion_order _) (insertion_order _) (insertion_order _) [x05] demoKeys "0xAb" = None) as Hv by (vm_compute; reflexivity).
  split; [exact Hv|]. eexists. destruct (proj2 (validation_exact (insertion_order _) (insertion_order _) (insertion_order _) [x05] demoKeys "0xAb") _ (insertion_order _) demoKey "ab" eq_refl Hv) as [box Hbox].
  - exists "n1". vm_compute. reflexivity.
  - vm_compute. reflexivity.
  - exists box. split; [reflexivity|exact Hbox].
Defined.

(** Validation does not notice a node of the registry that has no secrets. *)
Lemma node_without_secrets :
  ValidateEncryptedSecrets (insertion_order _) (insertion_order _) (insertion_order _) [x05] demoKeys "0xAb" = None ∧
  demoKeys !! "n2" = Some [x0b] ∧ ∀ r, unmarshalResult [x05] = Some r → EncryptedSecrets r !! "n2" = None.
Proof. split; [vm_compute; reflexivity|]. split; [vm_compute; reflexivity|]. intros r [= <-]. vm_compute. reflexivity. Qed.
End Secrets.
