(* ===== verification/PluginService.v ===== *)
(** [src/pkg/loop/internal/goplugin/plugin_service.go, service.go]: a service
    that runs in a child process, and its health report.

    [PluginService] launches the process, relaunches it when it has exited or
    does not answer, and makes the service from the first launch that works.
    Processes are numbered in the order of their launches; what go-plugin and
    the process do is the argument of an event.  The goroutine of [keepAlive],
    a call of [Close] that waits for it and the hooks of the tests are the
    steps of [exec]; [client], [clientProtocol] and [Service] are only touched
    by one of them at a time. *)

From S2P Require Import Prelude GoErrors StateMachine Services.

Module PluginService.
#[local] Existing Instance StateMachine.state_eq_dec.

Definition ErrPluginUnavailable : error := ELeaf "plugin unavailable".
Definition Canceled : error := ELeaf "context canceled".
Definition stoppedErr : error := EWrap "service was stoped while waiting" Canceled.

(** [errors.Is] for a sentinel. *)
Fixpoint isSentinel (e : error) (target : string) : bool :=
  match e with
  | ELeaf msg => String.eqb msg target
  | EWrap _ e => isSentinel e target
  | EJoin es => existsb (λ e, isSentinel e target) es
  end.

(** *** The state *)

(** The goroutine: not started, before the check without delay, in its loop,
    returned. *)
Inductive kpc := KNone | KFirst | KLoop | KEnded.

Record state := mkState {
  sm : StateMachine.state;
  keepAlive : kpc;
  stopCh : bool;                  (* closed *)
  serviceCh : bool;               (* closed *)
  client : option nat;
  clientProtocol : option nat;
  Service : option nat;           (* the process whose connection it was made with *)
  launched : nat;                 (* processes 0, 1, ... *)
  killed : gset nat;
  opened : gset nat;              (* processes that gave a ClientProtocol *)
  closed : gset nat;              (* and those whose ClientProtocol was closed *)
  made : list nat;                (* successful calls of newService *)
  closes : nat                    (* calls of Service.Close *)
}.

Definition Init : state := mkState StateMachine.stateUnstarted KNone false false None None None 0 ∅ ∅ ∅ [] 0.

Definition setSm st s := mkState st (keepAlive s) (stopCh s) (serviceCh s) (client s) (clientProtocol s) (Service s) (launched s) (killed s) (opened s) (closed s) (made s) (closes s).
Definition setKeepAlive k s := mkState (sm s) k (stopCh s) (serviceCh s) (client s) (clientProtocol s) (Service s) (launched s) (killed s) (opened s) (closed s) (made s) (closes s).
Definition closeStopCh s := mkState (sm s) (keepAlive s) true (serviceCh s) (client s) (clientProtocol s) (Service s) (launched s) (killed s) (opened s) (closed s) (made s) (closes s).
Definition setClient c cp s := mkState (sm s) (keepAlive s) (stopCh s) (serviceCh s) c cp (Service s) (launched s) (killed s) (opened s) (closed s) (made s) (closes s).
Definition setService svc s := mkState (sm s) (keepAlive s) (stopCh s) (serviceCh s) (client s) (clientProtocol s) svc (launched s) (killed s) (opened s) (closed s) (made s) (closes s).
Definition NewClient s := mkState (sm s) (keepAlive s) (stopCh s) (serviceCh s) (client s) (clientProtocol s) (Service s) (S (launched s)) (killed s) (opened s) (closed s) (made s) (closes s).
Definition kill c s := mkState (sm s) (keepAlive s) (stopCh s) (serviceCh s) (client s) (clientProtocol s) (Service s) (launched s) ({[c]} ∪ killed s) (opened s) (closed s) (made s) (closes s).
Definition openProtocol c s := mkState (sm s) (keepAlive s) (stopCh s) (serviceCh s) (client s) (clientProtocol s) (Service s) (launched s) (killed s) ({[c]} ∪ opened s) (closed s) (made s) (closes s).
Definition closeProtocol c s := mkState (sm s) (keepAlive s) (stopCh s) (serviceCh s) (client s) (clientProtocol s) (Service s) (launched s) (killed s) (opened s) ({[c]} ∪ closed s) (made s) (closes s).
(** [newService] succeeded with process [c]; the deferred [close(s.serviceCh)]. *)
Definition publish c s := mkState (sm s) (keepAlive s) (stopCh s) true (client s) (clientProtocol s) (Some c) (launched s) (killed s) (opened s) (closed s) (made s ++ [c]) (closes s).
Definition closeService s := mkState (sm s) (keepAlive s) (stopCh s) (serviceCh s) (client s) (clientProtocol s) (Service s) (launched s) (killed s) (opened s) (closed s) (made s) (S (closes s)).

(** What happens in a launch: [client.Client()], [cp.Dispense] and
    [newService]. *)
Record launching := mkLaunching { clientErr : option error; dispenseErr : option error; serviceErr : option error }.

Abbreviation healthMap := (gmap string (option error)).

Section service.
(** [status.Code(err) == codes.Canceled] *)
Context (codeCanceled : error → bool) (pluginName : string).

Definition isCanceled (err : option error) : bool :=
  match err with None => false | Some e => isSentinel e "context canceled" || codeCanceled e end.

(** [closeClient]; [cerr] is what closing the protocol returns. *)
Definition closeClient (cerr : option error) (s : state) : option error * state :=
  let '(err, s) := match clientProtocol s with
                   | Some cp => (if isCanceled cerr then None else cerr, closeProtocol cp s)
                   | None => (None, s)
                   end in
  (err, match client s with Some c => kill c s | None => s end).

Definition launch (l : launching) (s : state) : option error * option nat * option nat * state :=
  let c := launched s in
  let s := NewClient s in
  match clientErr l with
  | Some e => (Some (EWrap "failed to create ClientProtocol" e), None, None, kill c s)
  | None =>
      let s := openProtocol c s in
      let abort s := kill c (closeProtocol c s) in
      match dispenseErr l with
      | Some e => (Some (EWrap ("failed to Dispense " ++ pluginName ++ " plugin")%string e), None, None, abort s)
      | None =>
          if serviceCh s then (None, Some c, Some c, s)
          else match serviceErr l with
               | Some e => (Some (EWrap "failed to create service" e), None, None, abort (setService None s))
               | None => (None, Some c, Some c, publish c s)
               end
      end
  end.

Definition tryLaunch (old : option nat) (cerr : option error) (l : launching) (s : state) : option error * state :=
  if match old with Some o => negb (bool_decide (clientProtocol s = Some o)) | None => false end then (None, s)
  else
    let '(_, s) := closeClient cerr s in
    let '(err, c, cp, s) := launch l s in
    (err, setClient c cp s).

(** [check]; [exited] and [ping] are what the process says. *)
Definition check (exited : bool) (ping cerr : option error) (l : launching) (s : state) : state :=
  match client s, clientProtocol s with
  | Some _, Some _ =>
      if negb exited && match ping with None => true | Some _ => false end then s else (tryLaunch (clientProtocol s) cerr l s).2
  | _, cp => (tryLaunch cp cerr l s).2
  end.

(** *** Steps *)

Inductive event :=
  | EStart
  | ECheck (exited : bool) (ping cerr : option error) (l : launching)   (* at once and on every tick *)
  | EKill (cerr : option error)                                         (* TestPluginService.Kill *)
  | EReset (cerr : option error)                                        (* TestPluginService.Reset *)
  | EStop                                                               (* keepAlive sees stopCh *)
  | EClose
  | EClosed (svcErr cerr : option error).                               (* Close, after wg.Wait() *)

Definition inLoop (s : state) : bool := match keepAlive s with KLoop => true | _ => false end.

(** A process that was killed has exited. *)
Definition plausible (exited : bool) (s : state) : bool :=
  exited || match client s with Some c => bool_decide (c ∉ killed s) | None => true end.

(** [Close] after the goroutine has returned. *)
Definition finishClose (svcErr cerr : option error) (s : state) : option error * state :=
  let '(err, s) := if serviceCh s then (if isCanceled svcErr then None else Join [None; svcErr], closeService s) else (None, s) in
  let '(err', s) := closeClient cerr s in
  (Join [err; err'], s).

(** One step; [None] if it cannot happen.  A refused [Start] or [Close] changes
    nothing. *)
Definition exec (s : state) (e : event) : option state :=
  match e with
  | EStart =>
      Some (if decide (sm s = StateMachine.stateUnstarted) then setKeepAlive KFirst (setSm (StateMachine.afterStart None) s) else s)
  | ECheck exited ping cerr l =>
      match keepAlive s with
      | KFirst | KLoop => if plausible exited s then Some (setKeepAlive KLoop (check exited ping cerr l s)) else None
      | _ => None
      end
  | EKill cerr => if inLoop s then Some (closeClient cerr s).2 else None
  | EReset cerr => if inLoop s then Some (setClient None None (closeClient cerr s).2) else None
  | EStop => if inLoop s && stopCh s then Some (setKeepAlive KEnded s) else None
  | EClose =>
      Some (if decide (sm s = StateMachine.stateStarted) then closeStopCh (setSm StateMachine.stateStopping s) else s)
  | EClosed svcErr cerr =>
      match sm s, keepAlive s with
      | StateMachine.stateStopping, KEnded => let '(err, s) := finishClose svcErr cerr s in Some (setSm (StateMachine.afterStop err) s)
      | _, _ => None
      end
  end.

Inductive reachable : state → Prop :=
  | reach_init : reachable Init
  | reach_step s e s' : reachable s → exec s e = Some s' → reachable s'.

Definition execs (s : state) (es : list event) : option state := foldl (λ s e, s ≫= λ s, exec s e) (Some s) es.

(** *** Calls that wait for the service *)

Definition Ready (svcReady : option error) (s : state) : option error := if serviceCh s then svcReady else Some ErrPluginUnavailable.

(** The ways out of a [select]: [stopCh], the context, anything else. *)
Inductive wait := WStopped | WTimeout | WNext.

(** [WaitCtx]; [None] is a case of the select that is not ready. *)
Definition WaitCtx (cause : error) (w : wait) (ctxDone : bool) (s : state) : option (option error) :=
  match w with
  | WTimeout => if ctxDone then Some (Some cause) else None
  | WNext => if serviceCh s then Some None else None
  | WStopped => if stopCh s then Some (Some stoppedErr) else None
  end.

Inductive pollEnd := PReady | PStopped | PTimeout (err : error).

(** The loop that waits until the service is ready, which has said [err]; [None]
    while it goes on. *)
Fixpoint poll (err : option error) (l : list (wait * option error)) : option pollEnd :=
  match err, l with
  | None, _ => Some PReady
  | Some e, [] => None
  | Some e, (WStopped, _) :: _ => Some PStopped
  | Some e, (WTimeout, _) :: _ => Some (PTimeout e)
  | Some e, (WNext, err) :: l => poll err l
  end.

(** [HealthReport]: the first select, [s.Healthy()], what [Service.Ready] says
    first and then after each select, and the report of the [HealthReporter]. *)
Definition HealthReport (O : RangeOrder (string * option error)) (testing : bool) (name serviceName : string)
    (first : wait) (healthy ready : option error) (polls : list (wait * option error)) (reporter : healthMap) : option (outcome error healthMap) :=
  match first with
  | WStopped => Some (Ok {[ name := Some stoppedErr ]})
  | WTimeout => Some (Ok {[ name := Some ErrPluginUnavailable ]})
  | WNext =>
      let hr : healthMap := {[ name := healthy ]} in
      match poll ready polls with
      | None => None
      | Some PStopped => Some (Ok {[ name := Some stoppedErr ]})
      | Some (PTimeout e) => Some (Ok (<[serviceName := Some e]> hr))
      | Some PReady => Some (Services.CopyHealth O testing hr reporter)
      end
  end.

(** *** The invariant *)

(** No process runs and no protocol is open. *)
Definition quiet (s : state) : Prop := (∀ c, c < launched s → c ∈ killed s) ∧ opened s ⊆ closed s.
(** The service was made once, if at all. *)
Definition serviceOnce (s : state) : Prop := if serviceCh s then ∃ c, made s = [c] ∧ Service s = Some c else made s = [].

(** Every process but the current one was killed, every protocol but the
    current one closed. *)
Record procs (s : state) : Prop := {
  procs_same : client s = clientProtocol s;
  procs_client : ∀ c, client s = Some c → c < launched s;
  procs_bound : ∀ c, c ∈ killed s → c < launched s;
  procs_killed : ∀ c, c < launched s → c ∉ killed s → client s = Some c;
  procs_closed : ∀ c, c ∈ opened s → c ∉ closed s → client s = Some c;
  procs_service : serviceOnce s
}.

Definition final (s : state) : Prop := sm s = StateMachine.stateStopped ∨ sm s = StateMachine.stateStopFailed.
#[local] Instance final_dec s : Decision (final s).
Proof. rewrite /final. apply _. Defined.

Record inv (s : state) : Prop := {
  inv_procs : procs s;
  inv_closes : closes s = if decide (final s) then (if serviceCh s then 1 else 0) else 0;
  inv_ended : keepAlive s = KEnded → stopCh s = true;
  inv_stop : stopCh s = true → sm s = StateMachine.stateStopping ∨ final s;
  inv_phase : match sm s with
              | StateMachine.stateUnstarted => keepAlive s = KNone
              | StateMachine.stateStarted => keepAlive s = KFirst ∨ keepAlive s = KLoop
              | StateMachine.stateStopping => keepAlive s ≠ KNone ∧ stopCh s = true
              | StateMachine.stateStopped | StateMachine.stateStopFailed => keepAlive s = KEnded ∧ quiet s
              | _ => False
              end
}.

(** What the goroutine's work leaves alone. *)
Definition frame (s s' : state) : Prop := sm s' = sm s ∧ keepAlive s' = keepAlive s ∧ stopCh s' = stopCh s ∧ closes s' = closes s.

(** What [closeClient] changes. *)
Lemma closeClient_state cerr s :
  (closeClient cerr s).2 =
    match client s with Some c => kill c | None => id end (match clientProtocol s with Some cp => closeProtocol cp s | None => s end).
Proof. rewrite /closeClient. destruct (clientProtocol s) as [cp|], (client s) as [c|] eqn:E; by rewrite /= ?E. Qed.

(** A launch leaves a process that runs, or none. *)
Lemma launch_cases l s :
  let c := launched s in
  (∃ err s', launch l s = (Some err, None, None, s') ∧ launched s' = S c ∧ killed s' = {[c]} ∪ killed s ∧
     (opened s' = opened s ∧ closed s' = closed s ∨ opened s' = {[c]} ∪ opened s ∧ closed s' = {[c]} ∪ closed s) ∧
     serviceCh s' = serviceCh s ∧ made s' = made s ∧ (serviceCh s = true → Service s' = Service s)) ∨
  (∃ s', launch l s = (None, Some c, Some c, s') ∧ launched s' = S c ∧ killed s' = killed s ∧ opened s' = {[c]} ∪ opened s ∧ closed s' = closed s ∧
     serviceCh s' = true ∧ (if serviceCh s then made s' = made s ∧ Service s' = Service s else made s' = made s ++ [c] ∧ Service s' = Some c)).
Proof.
  cbn. rewrite /launch. destruct (clientErr l) as [e|].
  { left. do 2 eexists. split; [done|]. cbn. naive_solver. }
  destruct (dispenseErr l) as [e|].
  { left. do 2 eexists. split; [done|]. cbn. naive_solver. }
  cbn. destruct (serviceCh s) eqn:Es.
  { right. eexists. split; [done|]. cbn. rewrite Es. naive_solver. }
  destruct (serviceErr l) as [e|]; [left|right].
  - do 2 eexists. split; [done|]. cbn. rewrite Es. naive_solver.
  - eexists. split; [done|]. cbn. naive_solver.
Qed.

Lemma launch_frame l s err c cp s' : launch l s = (err, c, cp, s') → frame s s'.
Proof. rewrite /launch. destruct (clientErr l), (dispenseErr l); cbn; try (destruct (serviceCh s), (serviceErr l)); intros [= <- <- <- <-]; done. Qed.

Lemma closeClient_quiet cerr s : procs s → let s' := (closeClient cerr s).2 in
  procs s' ∧ quiet s' ∧ frame s s' ∧ launched s' = launched s ∧ serviceCh s' = serviceCh s ∧ Service s' = Service s ∧ made s' = made s ∧ client s' = client s.
Proof.
  intros [Hs Hc Hb Hk Ho Hv]. cbn. rewrite closeClient_state -Hs.
  assert (∀ c, c < launched s → c ∈ killed s ∨ client s = Some c) as Hk' by (intros c Hlt; destruct (decide (c ∈ killed s)); auto).
  assert (∀ c, c ∈ opened s → c ∈ closed s ∨ client s = Some c) as Ho' by (intros c Hlt; destruct (decide (c ∈ closed s)); auto).
  destruct (client s) as [c|] eqn:E; cbn.
  - split_and!; [split; cbn; rewrite ?E; try done|split; cbn|..]; try done.
    + intros c'. rewrite elem_of_union elem_of_singleton. intros [->|]; auto.
    + intros c' Hlt Hn. destruct (Hk' c' Hlt) as [|[= ->]]; set_solver.
    + intros c' Hlt Hn. destruct (Ho' c' Hlt) as [|[= ->]]; set_solver.
    + intros c' Hlt. destruct (Hk' c' Hlt) as [|[= ->]]; set_solver.
    + intros c' Hlt. destruct (Ho' c' Hlt) as [|[= ->]]; set_solver.
  - split_and!; [by split; rewrite ?E| |done..]. split.
    + intros c' Hlt. by destruct (Hk' c' Hlt).
    + intros c' Hlt. by destruct (Ho' c' Hlt).
Qed.

(** A launch after the old process is gone. *)
Lemma tryLaunch_procs cerr l s err s' : procs s → tryLaunch (clientProtocol s) cerr l s = (err, s') →
  procs s' ∧ frame s s' ∧ launched s' = S (launched s) ∧ (serviceCh s = true → serviceCh s' = true ∧ Service s' = Service s ∧ made s' = made s) ∧
  match err with
  | None => client s' = Some (launched s) ∧ ¬ (launched s ∈ killed s') ∧ serviceCh s' = true
  | Some _ => client s' = None ∧ quiet s' ∧ serviceCh s' = serviceCh s
  end.
Proof.
  intros Hp. pose proof (closeClient_quiet cerr s Hp) as (Hp1 & [Hq1 Hq2] & Hf & Hl & Hsc & Hsv & Hm & _). rewrite /tryLaunch.
  destruct (closeClient cerr s) as [e s1]. cbn in *.
  assert (match clientProtocol s with Some o => negb (bool_decide (clientProtocol s = Some o)) | None => false end = false) as ->
    by (destruct (clientProtocol s); [by rewrite bool_decide_eq_true_2|done]).
  destruct (launch_cases l s1) as [(err' & s2 & H & Hl2 & Hk2 & Ho2 & Hsc2 & Hm2 & Hsv2)|
    (s2 & H & Hl2 & Hk2 & Ho2 & Hc2 & Hsc2 & Hsv2)];
    pose proof (launch_frame _ _ _ _ _ _ H) as Hf2; rewrite H; intros [= <- <-]; cbn; destruct Hf as (? & ? & ? & ?), Hf2 as (? & ? & ? & ?), Hp1 as [_ _ Hb1 _ _ Hv1].
  - assert (opened s2 ⊆ closed s2) as Hoc by (destruct Ho2 as [[-> ->]|[-> ->]]; set_solver).
    assert (∀ c, c < launched s2 → c ∈ killed s2) as Hkk.
    { intros c. rewrite Hl2 Hk2. intros Hc. destruct (decide (c = launched s1)) as [->|]; [set_solver|]. apply elem_of_union_r, Hq1. lia. }
    split_and!; try done; rewrite /frame /quiet /serviceOnce; cbn; [split; cbn; try done|split_and!; congruence|congruence| |congruence].
    + intros c. rewrite Hk2 elem_of_union elem_of_singleton. intros [->|?%Hb1]; lia.
    + intros c Hc Hn. by destruct Hn; apply Hkk.
    + intros c Hc Hn. by destruct Hn; apply Hoc.
    + unfold serviceOnce in *. cbn. rewrite Hsc2 Hm2. destruct (serviceCh s1); [rewrite Hsv2 //|done].
    + intros Ht. rewrite Hsc2 Hsv2 ?Hsc //. split_and!; congruence.
  - rewrite -Hl. split_and!; rewrite /frame; cbn; [split; cbn|split_and!; congruence|congruence| |congruence| |done].
    + done.
    + intros c [= <-]. lia.
    + intros c. rewrite Hk2. intros ?%Hb1. lia.
    + intros c Hc. rewrite Hk2. intros Hn. destruct (decide (c = launched s1)) as [->|]; [done|]. destruct Hn. apply Hq1. lia.
    + intros c. rewrite Ho2 Hc2 elem_of_union elem_of_singleton. intros [->|Hc] Hn; [done|]. by destruct Hn; apply Hq2.
    + unfold serviceOnce in *. cbn. rewrite Hsc2. destruct (serviceCh s1).
      * destruct Hsv2 as [-> ->]. done.
      * destruct Hsv2 as [-> ->]. rewrite Hv1. by eexists.
    + intros Ht. rewrite -Hsc in Ht. rewrite Ht in Hsv2. destruct Hsv2. split_and!; congruence.
    + rewrite Hk2. intros ?%Hb1. lia.
Qed.

(** The process answers, so a check does nothing. *)
Definition healthy (exited : bool) (ping : option error) (s : state) : bool :=
  match client s with Some _ => negb exited && match ping with None => true | Some _ => false end | None => false end.
(** Everything that a launch needs succeeds. *)
Definition works (l : launching) (s : state) : bool :=
  match clientErr l, dispenseErr l with
  | None, None => serviceCh s || match serviceErr l with None => true | Some _ => false end
  | _, _ => false
  end.

Lemma check_eq exited ping cerr l s : procs s →
  check exited ping cerr l s = if healthy exited ping s then s else (tryLaunch (clientProtocol s) cerr l s).2.
Proof. intros Hp. rewrite /check /healthy -(procs_same s Hp). by destruct (client s). Qed.

Lemma tryLaunch_works cerr l s : procs s → (tryLaunch (clientProtocol s) cerr l s).1 = None ↔ works l s = true.
Proof.
  intros Hp. pose proof (closeClient_quiet cerr s Hp) as (_ & _ & _ & _ & Hsc & _). rewrite /tryLaunch.
  destruct (closeClient cerr s) as [e s1]. cbn in Hsc.
  assert (match clientProtocol s with Some o => negb (bool_decide (clientProtocol s = Some o)) | None => false end = false) as ->
    by (destruct (clientProtocol s); [by rewrite bool_decide_eq_true_2|done]).
  rewrite /launch /works. destruct (clientErr l), (dispenseErr l); cbn; try done. rewrite Hsc. by destruct (serviceCh s), (serviceErr l).
Qed.

Lemma check_inv exited ping cerr l s : procs s → procs (check exited ping cerr l s) ∧ frame s (check exited ping cerr l s).
Proof.
  intros Hp. rewrite check_eq //. destruct (healthy exited ping s); [done|].
  destruct (tryLaunch (clientProtocol s) cerr l s) as [err s'] eqn:E. by apply tryLaunch_procs in E as (? & ? & _).
Qed.

Lemma finishClose_inv svcErr cerr s : procs s → let s' := (finishClose svcErr cerr s).2 in
  procs s' ∧ quiet s' ∧ keepAlive s' = keepAlive s ∧ stopCh s' = stopCh s ∧ serviceCh s' = serviceCh s ∧ closes s' = (if serviceCh s then S (closes s) else closes s).
Proof.
  intros Hp. rewrite /finishClose. set (r := if serviceCh s then _ else _).
  assert (procs r.2 ∧ keepAlive r.2 = keepAlive s ∧ stopCh r.2 = stopCh s ∧ serviceCh r.2 = serviceCh s ∧ closes r.2 = (if serviceCh s then S (closes s) else closes s)) as (Hp' & H1 & H2 & H3 & H4).
  { rewrite /r. destruct (serviceCh s) eqn:E; cbn; [|done]. split; [by destruct Hp; split|done]. }
  destruct r as [err s1]. cbn in *. pose proof (closeClient_quiet cerr s1 Hp') as (? & ? & (? & ? & ? & ?) & _ & ? & _).
  destruct (closeClient cerr s1) as [err' s2]. cbn in *. split_and!; try done; congruence.
Qed.

Lemma procs_Init : procs Init.
Proof. by split; cbn; try lia. Qed.

Lemma execs_step s e es s' : exec s e = Some s' → execs s (e :: es) = execs s' es.
Proof. intros H. by rewrite /execs /= H. Qed.

Lemma plugin_execs es s s' : reachable s → execs s es = Some s' → reachable s'.
Proof.
  revert s. induction es as [|e es IH]; intros s Hs; [by intros [= <-]|]. rewrite /execs /=. destruct (exec s e) as [s1|] eqn:E; cbn.
  - apply IH. by eapply reach_step.
  - intros H. exfalso. clear -H. induction es as [|e' es IH]; [done|exact (IH H)].
Qed.

Lemma plugin_check exited ping cerr l s : procs s → keepAlive s = KFirst ∨ keepAlive s = KLoop → plausible exited s = true →
  ∃ s', exec s (ECheck exited ping cerr l) = Some s' ∧ keepAlive s' = KLoop ∧ sm s' = sm s ∧ stopCh s' = stopCh s.
Proof.
  intros Hp Hk Hpl. exists (setKeepAlive KLoop (check exited ping cerr l s)). pose proof (check_inv exited ping cerr l s Hp) as (_ & H1 & _ & H3 & _).
  split; [by destruct Hk as [E|E]; rewrite /= E Hpl|done].
Qed.

(** Steps of the goroutine, which runs only between [Start] and the end of
    [Close]. *)
Lemma inv_work s s' : inv s → keepAlive s = KFirst ∨ keepAlive s = KLoop → procs s' → frame s s' → inv (setKeepAlive KLoop s').
Proof.
  intros [Hp Hc He Hs Hf] Hk Hp' (H1 & H2 & H3 & H4).
  assert (¬ final s) as Hn by (intros [E|E]; rewrite E in Hf; destruct Hf as [E' _]; destruct Hk; congruence).
  assert (¬ final (setKeepAlive KLoop s')) as Hn' by (rewrite /final /= H1; exact Hn).
  split; cbn.
  - by destruct Hp'; split.
  - rewrite H4 Hc decide_False // decide_False //.
  - done.
  - rewrite H3 /final /= H1. exact Hs.
  - rewrite H1 H3. destruct (sm s); try done; [by destruct Hk; congruence|by right|by split; [|destruct Hf]|..]; destruct Hf as [? _]; destruct Hk; congruence.
Qed.

Lemma plugin_step s e s' : inv s → exec s e = Some s' → inv s'.
Proof.
  intros Hi. pose proof (inv_procs s Hi) as Hp. destruct e as [|exited ping cerr l|cerr|cerr| | |svcErr cerr]; cbn.
  - intros [= <-]. destruct (decide (sm s = StateMachine.stateUnstarted)) as [E|]; [|done].
    destruct Hi as [_ Hc He Hs Hf]. split; cbn; try done.
    + by destruct Hp; split.
    + rewrite Hc !decide_False //; rewrite /final /= ?E; naive_solver.
    + intros Ht. apply Hs in Ht. rewrite /final E in Ht. naive_solver.
    + by left.
  - destruct (keepAlive s) eqn:Hk; try done; (destruct (plausible exited s); [|done]); intros [= <-];
      apply (inv_work s); rewrite ?Hk; auto; by apply check_inv.
  - rewrite /inLoop. destruct (keepAlive s) eqn:Hk; try done. intros [= <-]. pose proof (closeClient_quiet cerr s Hp) as (Hp' & _ & Hf & _).
    pose proof (inv_work s (closeClient cerr s).2 Hi (or_intror Hk) Hp' Hf) as H. destruct Hf as (_ & Hk' & _). rewrite Hk in Hk'.
    destruct ((closeClient cerr s).2); cbn in *. by subst.
  - rewrite /inLoop. destruct (keepAlive s) eqn:Hk; try done. intros [= <-]. pose proof (closeClient_quiet cerr s Hp) as (Hp' & [Hq1 Hq2] & Hf & _).
    assert (procs (setClient None None (closeClient cerr s).2)) as Hp2.
    { destruct Hp' as [_ _ Hb _ _ Hv]. split; cbn; try done; intros c Hc Hn; destruct Hn; auto. }
    pose proof (inv_work s _ Hi (or_intror Hk) Hp2 Hf) as H. destruct Hf as (_ & Hk' & _). rewrite Hk in Hk'.
    destruct ((closeClient cerr s).2); cbn in *. by subst.
  - rewrite /inLoop. destruct (keepAlive s) eqn:Hk; try done. destruct (stopCh s) eqn:Hs; [|done]. intros [= <-]. destruct Hi as [_ Hc He Hst Hf].
    split; cbn; try done; [by destruct Hp; split|]. pose proof (Hst Hs) as [E|[E|E]]; rewrite E in Hf |- *; rewrite Hk in Hf; naive_solver.
  - intros [= <-]. destruct (decide (sm s = StateMachine.stateStarted)) as [E|]; [|done]. destruct Hi as [_ Hc He Hs Hf]. rewrite E in Hf.
    split; cbn; try done; [by destruct Hp; split| |by left|destruct Hf; split; congruence].
    rewrite Hc !decide_False //; rewrite /final /= ?E; naive_solver.
  - destruct (sm s) eqn:E; try done. destruct (keepAlive s) eqn:Hk; try done. pose proof (finishClose_inv svcErr cerr s Hp) as (Hp' & Hq & Hk' & Hs' & Hsc & Hcl).
    destruct (finishClose svcErr cerr s) as [err s1]. cbn in *. intros [= <-]. destruct Hi as [_ Hc He Hs Hf].
    assert (final (setSm (StateMachine.afterStop err) s1)) as Hfin by (destruct err; [by right|by left]).
    split; cbn; [by destruct Hp'; split| |rewrite Hk' Hs'; exact He|by right|].
    + assert (¬ final s) as Hn by (rewrite /final E; naive_solver). rewrite Hcl Hc Hsc (decide_True _ _ Hfin) (decide_False _ _ Hn). done.
    + destruct err; cbn; (split; [congruence|exact Hq]).
Qed.

Lemma plugin_reachable s : reachable s → inv s.
Proof.
  induction 1 as [|s e s' _ IH He]; [|by eapply plugin_step]. split; cbn; try done; apply procs_Init.
Qed.

(** C22: however often the plugin crashes, hangs or fails to start, at most one
    process runs: every process that was launched, but the current one, was
    killed, and every protocol but the current one was closed.  The service
    was made once, if it is available.  After [Close] no process runs and no
    protocol is open, the service was closed, exactly once and only if there
    was one, and nothing can change any more: no further process is launched. *)
Theorem plugin_safe s : reachable s →
  (∀ c, c < launched s → c ∉ killed s → client s = Some c) ∧
  (∀ c, c ∈ opened s → c ∉ closed s → clientProtocol s = Some c) ∧
  (if serviceCh s then ∃ c, made s = [c] ∧ Service s = Some c else made s = []) ∧
  (¬ final s → closes s = 0) ∧
  (final s → quiet s ∧ closes s = length (made s) ∧ ∀ e s', exec s e = Some s' → s' = s).
Proof.
  intros Hr. pose proof (plugin_reachable s Hr) as [[Hs Hc Hb Hk Ho Hv] Hcl He Hst Hf]. unfold serviceOnce in Hv. rewrite -Hs. split_and!; try done.
  - intros Hn. by rewrite Hcl decide_False.
  - intros Hfin. assert (keepAlive s = KEnded ∧ quiet s) as [Hke Hq] by (destruct Hfin as [E|E]; by rewrite E in Hf). split_and!; [done| |].
    + rewrite Hcl decide_True //. destruct (serviceCh s); [destruct Hv as (c & -> & _)|rewrite Hv]; done.
    + intros e s'. destruct e; cbn; rewrite ?Hke /inLoop ?Hke; try done.
      * rewrite decide_False; [by intros [= <-]|]. intros E. destruct Hfin; congruence.
      * rewrite decide_False; [by intros [= <-]|]. intros E. destruct Hfin; congruence.
      * destruct Hfin as [-> | ->]; done.
Qed.

(** A check of a plugin that answers changes nothing.  Otherwise it
    launches one process: if the launch works, that process is the one that
    runs afterwards and the service is available, the same as before if there
    was one; if it does not, no process runs and the next check tries again.
    So one check is enough to recover, from every state. *)
Theorem plugin_recovers s exited ping cerr l : reachable s → keepAlive s = KFirst ∨ keepAlive s = KLoop → plausible exited s = true →
  ∃ s', exec s (ECheck exited ping cerr l) = Some s' ∧ keepAlive s' = KLoop ∧
    (if healthy exited ping s then s' = setKeepAlive KLoop s
     else launched s' = S (launched s) ∧ (serviceCh s = true → Service s' = Service s) ∧
       if works l s then client s' = Some (launched s) ∧ clientProtocol s' = Some (launched s) ∧ (launched s ∉ killed s') ∧ serviceCh s' = true
       else client s' = None ∧ quiet s' ∧ serviceCh s' = serviceCh s).
Proof.
  intros Hr Hk Hpl. pose proof (inv_procs s (plugin_reachable s Hr)) as Hp. exists (setKeepAlive KLoop (check exited ping cerr l s)).
  split; [by destruct Hk as [E|E]; rewrite /= E Hpl|]. split; [done|]. rewrite check_eq //. destruct (healthy exited ping s); [done|].
  pose proof (tryLaunch_works cerr l s Hp) as Hw. destruct (tryLaunch (clientProtocol s) cerr l s) as [err s'] eqn:E.
  pose proof (tryLaunch_procs cerr l s err s' Hp E) as (Hp' & _ & Hl & Hsv & Hc). cbn in Hw |- *. split; [done|]. split; [naive_solver|].
  destruct err as [err|].
  - destruct (works l s); [by destruct Hw as [_ Hw]; discriminate Hw|done].
  - destruct Hw as [Hw _]. rewrite Hw //. rewrite -(procs_same s' Hp'). naive_solver.
Qed.

(** [Close] of a service that was started ends within three steps of the
    goroutine and itself, whatever the check that is under way does. *)
Theorem close_ends s svcErr cerr : reachable s → sm s = StateMachine.stateStarted →
  ∀ exited ping cerr' l, plausible exited s = true → ∃ es s',
    execs s (EClose :: es) = Some s' ∧ final s' ∧ es `sublist_of` [ECheck exited ping cerr' l; EStop; EClosed svcErr cerr].
Proof.
  intros Hr Hsm exited ping cerr' l Hpl. set (s1 := closeStopCh (setSm StateMachine.stateStopping s)).
  assert (exec s EClose = Some s1) as H1 by (by rewrite /= decide_True).
  assert (reachable s1) as Hr1 by (by eapply reach_step). pose proof (plugin_reachable s Hr) as Hi. pose proof (inv_phase s Hi) as Hf. rewrite Hsm in Hf.
  assert (∀ s2, reachable s2 → sm s2 = StateMachine.stateStopping → keepAlive s2 = KLoop → stopCh s2 = true → ∃ s', execs s2 [EStop; EClosed svcErr cerr] = Some s' ∧ final s') as Hend.
  { intros s2 Hr2 E2 E3 E4. rewrite /execs /= /inLoop E3 E4 /= E2. destruct (finishClose svcErr cerr (setKeepAlive KEnded s2)) as [err s3].
    eexists. split; [done|]. destruct err; [by right|by left]. }
  destruct Hf as [Hk|Hk].
  - destruct (plugin_check exited ping cerr' l s1) as (s2 & H2 & Hk2 & Hsm2 & Hst2); [by apply inv_procs, plugin_reachable|by left|done|].
    destruct (Hend s2) as (s' & H' & Hf'); [by eapply reach_step|done..|].
    exists [ECheck exited ping cerr' l; EStop; EClosed svcErr cerr], s'. split_and!; [|done|done].
    by rewrite (execs_step _ _ _ _ H1) (execs_step _ _ _ _ H2).
  - destruct (Hend s1) as (s' & H' & Hf'); [done..|].
    exists [EStop; EClosed svcErr cerr], s'. split_and!; [|done|by apply sublist_cons].
    by rewrite (execs_step _ _ _ _ H1).
Qed.
End service.

Section health.
(** *** A service behind gRPC *)

Context (text : error → string).

(** [ServiceServer.HealthReport]: the errors as texts. *)
Definition serverHealthReport (O : RangeOrder (string * option error)) (report : healthMap) : gmap string string :=
  foldl (λ m ne, <[ne.1 := match ne.2 with Some err => text err | None => "" end]> m) ∅ (range_map O report).

(** [healthReport] *)
Definition healthReport (O : RangeOrder (string * string)) (prefix : string) (s : gmap string string) : healthMap :=
  foldl (λ hr ne, <[(prefix ++ "." ++ ne.1)%string := if String.eqb ne.2 "" then None else Some (ELeaf ne.2)]> hr) {[ prefix := None ]} (range_map O s).

(** [ServiceClient.HealthReport]; the call brings the server's report or fails. *)
Definition clientHealthReport (O : RangeOrder (string * string)) (name : string) (reply : error + gmap string string) : healthMap :=
  match reply with inl err => {[ name := Some err ]} | inr s => healthReport O name s end.


(** *** Health *)

Lemma serverHealthReport_lookup O report n :
  serverHealthReport O report !! n = (λ e, match e with Some err => text err | None => "" end) <$> report !! n.
Proof.
  rewrite /serverHealthReport (foldl_insert_range _ (λ _ e, match e with Some err => text err | None => "" end) (λ m k v, eq_refl)).
  destruct (report !! n); [done|apply lookup_empty].
Qed.

(** The client's name for an entry. *)
Definition under (prefix n : string) : string := (prefix ++ "." ++ n)%string.

Lemma under_inj prefix n n' : under prefix n = under prefix n' → n = n'.
Proof. rewrite /under. induction prefix as [|c p IH]; [intros H; by injection H|]. intros H. injection H as H. auto. Qed.

Lemma under_ne prefix n : under prefix n ≠ prefix.
Proof. rewrite /under. induction prefix as [|c p IH]; [done|]. intros H. injection H as H. auto. Qed.

Lemma healthReport_lookup O prefix s :
  healthReport O prefix s !! prefix = Some None ∧
  (∀ n, healthReport O prefix s !! under prefix n = (λ e, if String.eqb e "" then None else Some (ELeaf e)) <$> s !! n) ∧
  (∀ k e, healthReport O prefix s !! k = Some e → k = prefix ∧ e = None ∨ ∃ n v, k = under prefix n ∧ s !! n = Some v ∧ e = if String.eqb v "" then None else Some (ELeaf v)).
Proof.
  set (f := λ ne : string * string, (under prefix ne.1, if String.eqb ne.2 "" then None else Some (ELeaf ne.2))).
  set (g := λ (hr : healthMap) (kv : string * option error), <[kv.1 := kv.2]> hr).
  assert (healthReport O prefix s = foldl g {[ prefix := None ]} (f <$> range_map O s)) as -> by (by rewrite foldl_fmap).
  assert (∀ k e, (k, e) ∈ f <$> range_map O s ↔ ∃ n v, k = under prefix n ∧ s !! n = Some v ∧ e = if String.eqb v "" then None else Some (ELeaf v)) as Hin.
  { intros k e. rewrite list_elem_of_fmap. split.
    - intros ([n v] & [= -> ->] & H%elem_of_range_map). by exists n, v.
    - intros (n & v & -> & H & ->). exists (n, v). split; [done|by apply elem_of_range_map]. }
  assert (NoDup (f <$> range_map O s).*1) as Hnd.
  { rewrite -list_fmap_compose. rewrite (list_fmap_ext _ (under prefix ∘ fst)); [|by intros ? []].
    rewrite list_fmap_compose. apply NoDup_map_inj_on; [|apply NoDup_fst_range_map]. intros x y _ _. apply under_inj. }
  assert (∀ k, (∀ n, k = under prefix n → s !! n = None) → k ∉ (f <$> range_map O s).*1) as Hout.
  { intros k Hk ([k' e] & -> & (n & v & E & Hv & _)%Hin)%list_elem_of_fmap. cbn in Hk. rewrite (Hk n E) in Hv. done. }
  pose proof (foldl_insert_notin g (λ _ v, v) (λ m k v, eq_refl)) as Hni. pose proof (foldl_insert_elem g (λ _ v, v) (λ m k v, eq_refl)) as Hel.
  split_and!.
  - rewrite Hni; [by rewrite lookup_singleton_eq|]. apply Hout. intros n E. by destruct (under_ne prefix n).
  - intros n. destruct (s !! n) as [v|] eqn:E; cbn.
    + apply (Hel _ _ (under prefix n) _ Hnd). apply Hin. by exists n, v.
    + rewrite Hni; [|by apply Hout; intros n' <-%under_inj]. apply lookup_singleton_ne. apply not_eq_sym, under_ne.
  - intros k e He. destruct (decide (k ∈ (f <$> range_map O s).*1)) as [([k' e'] & -> & Hk)%list_elem_of_fmap|Hk].
    + right. pose proof (proj1 (Hin _ _) Hk) as (n & v & -> & Hv & ->). exists n, v. split_and!; [done..|].
      rewrite (Hel _ _ _ _ Hnd Hk) in He. by injection He as <-.
    + left. rewrite Hni // in He. by apply lookup_singleton_Some in He as [<- <-].
Qed.

Definition errorFree (m : healthMap) : Prop := ∀ n e, m !! n = Some e → e = None.

(** The host's report of a plugin, outside tests.  It shows no error
    exactly when the service became ready in time, the host's own state is
    healthy, the call to the plugin worked and every error that the plugin
    reports has an empty text.  Then it has an entry for every entry of the
    plugin's report, under the name of the plugin's client. *)
Theorem health_vouched O O1 O2 name serviceName root first healthy ready polls report (failed : option error) m :
  let reply := match failed with Some err => inl err | None => inr (serverHealthReport O2 report) end in
  HealthReport O false name serviceName first healthy ready polls (clientHealthReport O1 root reply) = Some (Ok m) →
  (errorFree m ↔ first = WNext ∧ healthy = None ∧ poll ready polls = Some PReady ∧ failed = None ∧ ∀ n err, report !! n = Some (Some err) → text err = "") ∧
  (errorFree m → ∀ n e, report !! n = Some e → m !! under root n = Some None).
Proof.
  intros reply Hm. set (src := clientHealthReport O1 root reply) in Hm.
  assert (errorFree m → first = WNext ∧ poll ready polls = Some PReady) as Hfirst.
  { intros Hfree. destruct first; [injection Hm as <-; by specialize (Hfree name _ (lookup_singleton_eq _ _))..|]. split; [done|].
    cbn in Hm. destruct (poll ready polls) as [[| |e]|]; [done|injection Hm as <-; by specialize (Hfree name _ (lookup_singleton_eq _ _))|
      injection Hm as <-; by specialize (Hfree serviceName _ (lookup_insert_eq _ _ _))|done]. }
  assert (first = WNext → poll ready polls = Some PReady → Services.CopyHealth O false {[ name := healthy ]} src = Ok m) as Hcopy.
  { intros -> Hp. cbn in Hm. rewrite Hp in Hm. by injection Hm. }
  clear Hm. destruct (Services.CopyHealth_merge O {[ name := healthy ]} src) as (m' & Hm' & Hlook).
  assert (errorFree m' ↔ healthy = None ∧ errorFree src) as Hmerge.
  { split.
    - intros Hfree. split.
      + pose proof (Hlook name) as H. rewrite lookup_singleton_eq in H. destruct (src !! name), healthy; try done; by apply Hfree in H.
      + intros n e He. specialize (Hlook n). rewrite He in Hlook. destruct (({[name := healthy]} : healthMap) !! n) as [[]|]; apply Hfree in Hlook; done.
    - intros [-> Hsrc] n e He. rewrite Hlook in He. destruct (src !! n) as [e'|] eqn:E.
      + apply Hsrc in E as ->. destruct (decide (n = name)) as [->|]; [rewrite lookup_singleton_eq in He|rewrite lookup_singleton_ne // in He]; by injection He.
      + by apply lookup_singleton_Some in He as [_ <-]. }
  assert (errorFree src ↔ failed = None ∧ ∀ n err, report !! n = Some (Some err) → text err = "") as Hsrc.
  { rewrite /src /reply. destruct failed as [err|]; cbn.
    - split; [intros Hfree; by specialize (Hfree root _ (lookup_singleton_eq _ _))|by intros [? _]].
    - destruct (healthReport_lookup O1 root (serverHealthReport O2 report)) as (_ & Hu & Hinv). split.
      + intros Hfree. split; [done|]. intros n err Hn. specialize (Hu n). rewrite serverHealthReport_lookup Hn /= in Hu. apply Hfree in Hu.
        by destruct (String.eqb_spec (text err) "").
      + intros [_ He] k e [[-> ->]|(n & v & -> & Hv & ->)]%Hinv; [done|]. rewrite serverHealthReport_lookup in Hv.
        destruct (report !! n) as [[err|]|] eqn:E; try done; injection Hv as <-; [by rewrite (He n err)|done]. }
  split.
  - split.
    + intros Hfree. destruct (Hfirst Hfree) as [H1 H2]. rewrite Hm' in Hcopy. injection (Hcopy H1 H2) as ->. apply Hmerge in Hfree as [? [? ?]%Hsrc]. done.
    + intros (H1 & H2 & H3 & H4). rewrite Hm' in Hcopy. injection (Hcopy H1 H3) as <-. apply Hmerge. split; [done|]. by apply Hsrc.
  - intros Hfree n e He. destruct (Hfirst Hfree) as [H1 H2]. rewrite Hm' in Hcopy. injection (Hcopy H1 H2) as ->.
    pose proof Hfree as [Hh [Hf Ht]%Hsrc]%Hmerge. destruct (healthReport_lookup O1 root (serverHealthReport O2 report)) as (_ & Hu & _).
    specialize (Hu n). rewrite serverHealthReport_lookup He /= in Hu.
    assert (src !! under root n = Some None) as Hs.
    { rewrite /src /reply Hf /=. rewrite Hu. destruct e as [err|]; [by rewrite (Ht n err He)|done]. }
    rewrite Hlook Hs. destruct (decide (under root n = name)) as [->|]; [rewrite lookup_singleton_eq Hh //|rewrite lookup_singleton_ne //].
Qed.
End health.

(** *** Witnesses *)

Definition notCanceled (_ : error) : bool := false.
Definition demoFine : launching := mkLaunching None None None.
Definition demoBroken : launching := mkLaunching None (Some (ELeaf "incompatible")) None.
(** Two launches fail at first, then the plugin runs, crashes and is relaunched,
    and the service is closed. *)
Definition demoEvents : list event :=
  [EStart; ECheck false None None demoBroken; ECheck false None None demoBroken; ECheck false None None demoFine; ECheck false None None demoFine;
   ECheck true None None demoFine].
Definition demoRun (es : list event) : state := default Init (execs notCanceled "median" Init es).

Lemma demo_plugin es : reachable notCanceled "median" (demoRun es).
Proof. rewrite /demoRun. destruct (execs _ _ _ es) eqn:E; [eapply plugin_execs; [apply reach_init|exact E]|apply reach_init]. Qed.

Lemma plugin_safe_witness :
  let s := demoRun demoEvents in
  reachable notCanceled "median" s ∧ (launched s = 4 ∧ killed s = {[0; 1; 2]} ∧ client s = Some 3) ∧
  (if serviceCh s then ∃ c, made s = [c] ∧ Service s = Some c else made s = []).
Proof.
  split; [exact (demo_plugin demoEvents)|]. split; [by vm_compute|]. apply (plugin_safe notCanceled "median" (demoRun demoEvents) (demo_plugin demoEvents)).
Defined.

Lemma plugin_recovers_witness :
  plausible true (demoRun (take 5 demoEvents)) = true ∧
  ∃ s', exec notCanceled "median" (demoRun (take 5 demoEvents)) (ECheck true None None demoFine) = Some s' ∧ client s' = Some 3.
Proof.
  split; [by vm_compute|].
  destruct (plugin_recovers notCanceled "median" (demoRun (take 5 demoEvents)) true None None demoFine (demo_plugin (take 5 demoEvents))) as (s' & He & _ & H);
    [right; by vm_compute|by vm_compute|]. exists s'. split; [exact He|]. vm_compute in H. naive_solver.
Defined.

Lemma close_ends_witness :
  sm (demoRun demoEvents) = StateMachine.stateStarted ∧
  ∃ es s', execs notCanceled "median" (demoRun demoEvents) (EClose :: es) = Some s' ∧ final s'.
Proof.
  split; [by vm_compute|].
  destruct (close_ends notCanceled "median" (demoRun demoEvents) None None (demo_plugin demoEvents) ltac:(by vm_compute) true None None demoFine ltac:(by vm_compute))
    as (es & s' & H & Hf & _). by exists es, s'.
Defined.

Definition demoText (e : error) : string := match e with ELeaf msg => msg | EWrap msg _ => msg | EJoin _ => "errors" end.
Definition demoReport : healthMap := {[ "median" := None; "median.feed" := Some (ELeaf "stale") ]}.

Definition demoHealth : option (outcome error healthMap) :=
  HealthReport (insertion_order _) false "relayer" "plugin" WNext None (Some ErrPluginUnavailable) [(WNext, None)]
    (clientHealthReport (insertion_order _) "plugin" (inr (serverHealthReport demoText (insertion_order _) demoReport))).
Definition demoMerged : healthMap := match demoHealth with Some (Ok m) => m | _ => ∅ end.

(** The plugin's report has an error, so the host's is not free of errors. *)
Lemma health_vouched_witness : demoHealth = Some (Ok demoMerged) ∧ ¬ errorFree demoMerged.
Proof.
  assert (demoHealth = Some (Ok demoMerged)) as Hm by (vm_compute; reflexivity). split; [exact Hm|].
  intros Hf. apply (health_vouched demoText (insertion_order _) (insertion_order _) (insertion_order _) "relayer" "plugin" "plugin" WNext None (Some ErrPluginUnavailable)
            [(WNext, None)] demoReport None demoMerged Hm) in Hf.
  destruct Hf as (_ & _ & _ & _ & H). specialize (H "median.feed" (ELeaf "stale") ltac:(by vm_compute)). discriminate H.
Defined.
End PluginService.
