(* ===== verification/LoopConfig.v ===== *)
(** [src/pkg/loop/config.go]: the configuration that the host gives to a plugin
    in the environment of its process.

    [AsCmdEnv] writes it, [parse] reads it back in the child.  An environment
    is the list of its [key=value] entries; of two entries of one key the
    later one counts, as [os/exec] has it.  URLs, durations and floats, which
    the code only prints and parses, are an interface with the round trips
    that their packages document. *)

From Stdlib.Strings Require Import Ascii.
From S2P Require Import Prelude GoBytes GoStrings.
Open Scope string_scope.
Open Scope list_scope.

Module LoopConfig.

(** [net/url], [time.Duration] and [float64]. *)
Class Formats := {
  url : Type;
  URLString : url → string;
  URLParse : string → option url;
  ParseRequestURI : string → bool;
  DurationString : Z → string;
  ParseDuration : string → option Z;
  float : Type;
  fzero : float;
  FormatFloat : float → string;
  ParseFloat : string → option float;
  duration_roundtrip : ∀ d, inS 64 d → ParseDuration (DurationString d) = Some d;
}.

Definition envDatabaseURL : string := "CL_DATABASE_URL".
Definition envDatabaseIdleInTxSessionTimeout : string := "CL_DATABASE_IDLE_IN_TX_SESSION_TIMEOUT".
Definition envDatabaseLockTimeout : string := "CL_DATABASE_LOCK_TIMEOUT".
Definition envDatabaseQueryTimeout : string := "CL_DATABASE_QUERY_TIMEOUT".
Definition envDatabaseLogSQL : string := "CL_DATABASE_LOG_SQL".
Definition envDatabaseMaxOpenConns : string := "CL_DATABASE_MAX_OPEN_CONNS".
Definition envDatabaseMaxIdleConns : string := "CL_DATABASE_MAX_IDLE_CONNS".
Definition envPromPort : string := "CL_PROMETHEUS_PORT".
Definition envTracingEnabled : string := "CL_TRACING_ENABLED".
Definition envTracingCollectorTarget : string := "CL_TRACING_COLLECTOR_TARGET".
Definition envTracingSamplingRatio : string := "CL_TRACING_SAMPLING_RATIO".
Definition envTracingAttribute : string := "CL_TRACING_ATTRIBUTE_".
Definition envTracingTLSCertPath : string := "CL_TRACING_TLS_CERT_PATH".
Definition envTelemetryEnabled : string := "CL_TELEMETRY_ENABLED".
Definition envTelemetryEndpoint : string := "CL_TELEMETRY_ENDPOINT".
Definition envTelemetryInsecureConn : string := "CL_TELEMETRY_INSECURE_CONNECTION".
Definition envTelemetryCACertFile : string := "CL_TELEMETRY_CA_CERT_FILE".
Definition envTelemetryAttribute : string := "CL_TELEMETRY_ATTRIBUTE_".
Definition envTelemetryTraceSampleRatio : string := "CL_TELEMETRY_TRACE_SAMPLE_RATIO".
Definition envTelemetryAuthHeader : string := "CL_TELEMETRY_AUTH_HEADER".
Definition envTelemetryAuthPubKeyHex : string := "CL_TELEMETRY_AUTH_PUB_KEY_HEX".
Definition envTelemetryEmitterBatchProcessor : string := "CL_TELEMETRY_EMITTER_BATCH_PROCESSOR".
Definition envTelemetryEmitterExportTimeout : string := "CL_TELEMETRY_EMITTER_EXPORT_TIMEOUT".
Definition envTelemetryEmitterExportInterval : string := "CL_TELEMETRY_EMITTER_EXPORT_INTERVAL".
Definition envTelemetryEmitterExportMaxBatchSize : string := "CL_TELEMETRY_EMITTER_EXPORT_MAX_BATCH_SIZE".
Definition envTelemetryEmitterMaxQueueSize : string := "CL_TELEMETRY_EMITTER_MAX_QUEUE_SIZE".

(** [failed to parse <key>], with the value where the code gives it. *)
Inductive error := FailedToParse (key : string) (value : option string) | InvalidTarget.

Section config.
Context {F : Formats}.

(** The fields of [EnvConfig], one group per prefix. *)
Record Database := mkDatabase {
  DatabaseURL : option url;
  DatabaseIdleInTxSessionTimeout : Z; DatabaseLockTimeout : Z; DatabaseQueryTimeout : Z;
  DatabaseLogSQL : bool; DatabaseMaxOpenConns : Z; DatabaseMaxIdleConns : Z
}.
Record Tracing := mkTracing {
  TracingEnabled : bool; TracingCollectorTarget : string; TracingSamplingRatio : float; TracingTLSCertPath : string;
  TracingAttributes : gmap string string
}.
Record Telemetry := mkTelemetry {
  TelemetryEnabled : bool; TelemetryEndpoint : string; TelemetryInsecureConnection : bool; TelemetryCACertFile : string;
  TelemetryAttributes : gmap string string; TelemetryTraceSampleRatio : float; TelemetryAuthHeaders : gmap string string; TelemetryAuthPubKeyHex : string;
  TelemetryEmitterBatchProcessor : bool; TelemetryEmitterExportTimeout : Z; TelemetryEmitterExportInterval : Z;
  TelemetryEmitterExportMaxBatchSize : Z; TelemetryEmitterMaxQueueSize : Z
}.
Record EnvConfig := mkEnvConfig { database : Database; PrometheusPort : Z; tracing : Tracing; telemetry : Telemetry }.

Definition noDatabase : Database := mkDatabase None 0 0 0 false 0 0.
Definition noTracing : Tracing := mkTracing false "" fzero "" ∅.
Definition noTelemetry : Telemetry := mkTelemetry false "" false "" ∅ fzero ∅ "" false 0 0 0 0.

(** *** strconv, os and strings *)

Definition FormatBool (b : bool) : string := if b then "true" else "false".
Definition ParseBool (s : string) : option bool :=
  if existsb (String.eqb s) ["1"; "t"; "T"; "TRUE"; "true"; "True"] then Some true
  else if existsb (String.eqb s) ["0"; "f"; "F"; "FALSE"; "false"; "False"] then Some false
  else None.

(** The key and the value of an entry, if it has a [=]. *)
Definition cutEntry (env : string) : option (string * string) := if contains env "=" then Some (Cut env "="%char) else None.

(** [os.Getenv] *)
Definition Getenv (environ : list string) (key : string) : string :=
  foldl (λ v env, match cutEntry env with Some (k, v') => if String.eqb k key then v' else v | None => v end) "" environ.

(** *** Writing *)

Definition add (k v : string) : string := (k ++ "=" ++ v)%string.
Definition addMap (O : RangeOrder (string * string)) (prefix : string) (m : gmap string string) : list string :=
  (λ kv, add (prefix ++ kv.1) kv.2) <$> range_map O m.

Definition AsCmdEnv (O1 O2 O3 : RangeOrder (string * string)) (e : EnvConfig) : list string :=
  let db := database e in let tr := tracing e in let te := telemetry e in
  match DatabaseURL db with
  | Some u =>
      [add envDatabaseURL (URLString u);
       add envDatabaseIdleInTxSessionTimeout (DurationString (DatabaseIdleInTxSessionTimeout db));
       add envDatabaseLockTimeout (DurationString (DatabaseLockTimeout db));
       add envDatabaseQueryTimeout (DurationString (DatabaseQueryTimeout db));
       add envDatabaseLogSQL (FormatBool (DatabaseLogSQL db));
       add envDatabaseMaxOpenConns (Itoa (DatabaseMaxOpenConns db));
       add envDatabaseMaxIdleConns (Itoa (DatabaseMaxIdleConns db))]
  | None => []
  end ++
  [add envPromPort (Itoa (PrometheusPort e));
   add envTracingEnabled (FormatBool (TracingEnabled tr));
   add envTracingCollectorTarget (TracingCollectorTarget tr);
   add envTracingSamplingRatio (FormatFloat (TracingSamplingRatio tr));
   add envTracingTLSCertPath (TracingTLSCertPath tr)] ++
  addMap O1 envTracingAttribute (TracingAttributes tr) ++
  [add envTelemetryEnabled (FormatBool (TelemetryEnabled te));
   add envTelemetryEndpoint (TelemetryEndpoint te);
   add envTelemetryInsecureConn (FormatBool (TelemetryInsecureConnection te));
   add envTelemetryCACertFile (TelemetryCACertFile te);
   add envTelemetryTraceSampleRatio (FormatFloat (TelemetryTraceSampleRatio te))] ++
  addMap O2 envTelemetryAttribute (TelemetryAttributes te) ++
  addMap O3 envTelemetryAuthHeader (TelemetryAuthHeaders te) ++
  [add envTelemetryAuthPubKeyHex (TelemetryAuthPubKeyHex te);
   add envTelemetryEmitterBatchProcessor (FormatBool (TelemetryEmitterBatchProcessor te));
   add envTelemetryEmitterExportTimeout (DurationString (TelemetryEmitterExportTimeout te));
   add envTelemetryEmitterExportInterval (DurationString (TelemetryEmitterExportInterval te));
   add envTelemetryEmitterExportMaxBatchSize (Itoa (TelemetryEmitterExportMaxBatchSize te));
   add envTelemetryEmitterMaxQueueSize (Itoa (TelemetryEmitterMaxQueueSize te))].

(** *** Reading *)

Section parse.
Context (environ : list string).

Definition getBool (envKey : string) : option bool :=
  let s := Getenv environ envKey in if String.eqb s "" then Some false else ParseBool s.

Definition getValidCollectorTarget : outcome error string :=
  let tracingCollectorTarget := Getenv environ envTracingCollectorTarget in
  if ParseRequestURI tracingCollectorTarget then Ok tracingCollectorTarget else Err InvalidTarget.

Definition getMap (envKeyPrefix : string) : gmap string string :=
  foldl (λ m env, if HasPrefix env envKeyPrefix
                  then match cutEntry env with Some (key, value) => <[TrimPrefix key envKeyPrefix := value]> m | None => m end
                  else m) ∅ environ.

Definition getFloat64OrZero (envKey : string) : float :=
  let s := Getenv environ envKey in
  if String.eqb s "" then fzero else match ParseFloat s with Some f => f | None => fzero end.

Definition getEnv {T} (key : string) (parse : string → option T) : outcome error T :=
  let v := Getenv environ key in ok_or (FailedToParse key (Some v)) (parse v).

Definition parseDatabase (d : Database) : outcome error Database :=
  let? u := getEnv envDatabaseURL (λ s, if String.eqb s "" then Some None else Some <$> URLParse s) in
  match u with
  | None => Ok (mkDatabase None (DatabaseIdleInTxSessionTimeout d) (DatabaseLockTimeout d) (DatabaseQueryTimeout d) (DatabaseLogSQL d)
                  (DatabaseMaxOpenConns d) (DatabaseMaxIdleConns d))
  | Some _ =>
      let? idle := getEnv envDatabaseIdleInTxSessionTimeout ParseDuration in
      let? lock := getEnv envDatabaseLockTimeout ParseDuration in
      let? query := getEnv envDatabaseQueryTimeout ParseDuration in
      let? log := getEnv envDatabaseLogSQL ParseBool in
      let? open := getEnv envDatabaseMaxOpenConns Atoi in
      let? idleConns := getEnv envDatabaseMaxIdleConns Atoi in
      Ok (mkDatabase u idle lock query log open idleConns)
  end.

Definition parseTracing (t : Tracing) : outcome error Tracing :=
  let? enabled := ok_or (FailedToParse envTracingEnabled None) (getBool envTracingEnabled) in
  if enabled : bool then
    let? target := getValidCollectorTarget in
    Ok (mkTracing true target (getFloat64OrZero envTracingSamplingRatio) (Getenv environ envTracingTLSCertPath) (getMap envTracingAttribute))
  else Ok (mkTracing false (TracingCollectorTarget t) (TracingSamplingRatio t) (TracingTLSCertPath t) (TracingAttributes t)).

(** The error of [envTelemetryInsecureConn] names [envTelemetryEndpoint]. *)
Definition parseTelemetry (t : Telemetry) : outcome error Telemetry :=
  let getDuration key := ok_or (FailedToParse key None) (ParseDuration (Getenv environ key)) in
  let getInt key := ok_or (FailedToParse key None) (Atoi (Getenv environ key)) in
  let? enabled := ok_or (FailedToParse envTelemetryEnabled None) (getBool envTelemetryEnabled) in
  if enabled : bool then
    let? insecure := ok_or (FailedToParse envTelemetryEndpoint None) (getBool envTelemetryInsecureConn) in
    let? batch := ok_or (FailedToParse envTelemetryEmitterBatchProcessor None) (getBool envTelemetryEmitterBatchProcessor) in
    let? timeout := getDuration envTelemetryEmitterExportTimeout in
    let? interval := getDuration envTelemetryEmitterExportInterval in
    let? batchSize := getInt envTelemetryEmitterExportMaxBatchSize in
    let? queueSize := getInt envTelemetryEmitterMaxQueueSize in
    Ok (mkTelemetry true (Getenv environ envTelemetryEndpoint) insecure (Getenv environ envTelemetryCACertFile) (getMap envTelemetryAttribute)
          (getFloat64OrZero envTelemetryTraceSampleRatio) (getMap envTelemetryAuthHeader) (Getenv environ envTelemetryAuthPubKeyHex)
          batch timeout interval batchSize queueSize)
  else Ok (mkTelemetry false (TelemetryEndpoint t) (TelemetryInsecureConnection t) (TelemetryCACertFile t) (TelemetryAttributes t) (TelemetryTraceSampleRatio t)
             (TelemetryAuthHeaders t) (TelemetryAuthPubKeyHex t) (TelemetryEmitterBatchProcessor t) (TelemetryEmitterExportTimeout t)
             (TelemetryEmitterExportInterval t) (TelemetryEmitterExportMaxBatchSize t) (TelemetryEmitterMaxQueueSize t)).

(** [parse], which leaves the fields that it does not read as they are. *)
Definition parse (e : EnvConfig) : outcome error EnvConfig :=
  let? db := parseDatabase (database e) in
  let? port := ok_or (FailedToParse envPromPort (Some (Getenv environ envPromPort))) (Atoi (Getenv environ envPromPort)) in
  let? tr := parseTracing (tracing e) in
  let? te := parseTelemetry (telemetry e) in
  Ok (mkEnvConfig db port tr te).
End parse.

(** *** Entries *)

Lemma cutEntry_add k v : avoids "=" k = true → cutEntry (add k v) = Some (k, v).
Proof. intros Hk. rewrite /cutEntry /add (contains_middle k "=" v). f_equal. by apply (Cut_app k v "="). Qed.

Lemma Cut_join env sep : contains env (String sep "") = true → env = ((Cut env sep).1 ++ String sep (Cut env sep).2)%string.
Proof.
  induction env as [|c env IH]; [done|]. cbn [Cut]. destruct (Ascii.eqb_spec c sep) as [->|Hc]; [done|]. intros H.
  assert (contains env (String sep "") = true) as H'.
  { cbn [contains] in H. cbn in H. destruct (Ascii.ascii_dec sep c); [congruence|done]. }
  specialize (IH H'). destruct (Cut env sep) as [k v]. cbn in IH |- *. by rewrite {1}IH.
Qed.

Lemma cutEntry_inv env k v : cutEntry env = Some (k, v) → env = add k v.
Proof.
  rewrite /cutEntry. destruct (contains env "=") eqn:E; [|done]. pose proof (Cut_join env "="%char E) as H. destruct (Cut env "="%char) as [k' v'].
  by intros [= <- <-].
Qed.

Lemma HasPrefix_app k v p : HasPrefix k p = true → HasPrefix (k ++ v) p = true.
Proof.
  revert k. induction p as [|c p IH]; intros [|d k]; try done. change (String d k ++ v)%string with (String d (k ++ v)). cbn [HasPrefix].
  intros [-> Hp]%andb_true_iff. by apply IH.
Qed.

Lemma HasPrefix_refl p k : HasPrefix (p ++ k) p = true.
Proof. induction p as [|c p IH]; [by destruct k|]. change (String c p ++ k)%string with (String c (p ++ k)). cbn [HasPrefix]. by rewrite Ascii.eqb_refl. Qed.

Lemma HasPrefix_add k v p : avoids "=" p = true → HasPrefix (add k v) p = HasPrefix k p.
Proof.
  rewrite /add /avoids. revert k. induction p as [|c p IH]; intros [|d k]; try done.
  - cbn [allChars]. intros [Hc _]%andb_true_iff. apply negb_true_iff in Hc. change ("" ++ "=" ++ v)%string with (String "=" v). cbn [HasPrefix]. by rewrite Hc.
  - cbn [allChars]. intros [_ Hp]%andb_true_iff. change (String d k ++ "=" ++ v)%string with (String d (k ++ "=" ++ v)). cbn [HasPrefix]. by rewrite IH.
Qed.

Lemma TrimPrefix_app p k : TrimPrefix (p ++ k) p = k.
Proof. rewrite /TrimPrefix HasPrefix_refl. induction p as [|c p IH]; [by destruct k|exact IH]. Qed.

Lemma FormatBool_parse b : ParseBool (FormatBool b) = Some b.
Proof. by destruct b. Qed.

(** *** The environment as pairs *)

Definition entry (kv : string * string) : string := add kv.1 kv.2.
Definition clean (kv : string * string) : Prop := avoids "=" kv.1 = true.
(** An entry of somebody else. *)
Definition foreign (env : string) : Prop := HasPrefix env "CL_" = false.

Definition getPair (key v : string) (l : list (string * string)) : string := foldl (λ v kv, if String.eqb kv.1 key then kv.2 else v) v l.
Definition takePair (prefix : string) (m : gmap string string) (kv : string * string) : gmap string string :=
  if HasPrefix kv.1 prefix then <[TrimPrefix kv.1 prefix := kv.2]> m else m.
Definition getPairs (prefix : string) (m : gmap string string) (l : list (string * string)) : gmap string string := foldl (takePair prefix) m l.

Definition mapPairs (O : RangeOrder (string * string)) (prefix : string) (m : gmap string string) : list (string * string) :=
  (λ kv, ((prefix ++ kv.1)%string, kv.2)) <$> range_map O m.

Lemma HasPrefix_CL key env : HasPrefix key "CL_" = true → foreign env → ∀ v, env ≠ add key v.
Proof. rewrite /foreign. intros Hk Hf v ->. by rewrite (HasPrefix_app key _ "CL_" Hk) in Hf. Qed.

Lemma Getenv_pairs pre l post key : HasPrefix key "CL_" = true → Forall foreign pre → Forall foreign post → Forall clean l →
  Getenv (pre ++ (entry <$> l) ++ post) key = getPair key "" l.
Proof.
  intros Hk Hpre Hpost Hl. rewrite /Getenv. set (f := λ (v env : string), match cutEntry env with Some _ => _ | None => v end).
  assert (∀ l v, Forall foreign l → foldl f v l = v) as Hskip.
  { clear -Hk. intros l v. revert v. induction l as [|env l IH]; intros v; [done|]. intros [He Hl]%Forall_cons. cbn [foldl]. rewrite IH // /f.
    destruct (cutEntry env) as [[k v']|] eqn:E; [|done]. destruct (String.eqb_spec k key) as [->|]; [|done].
    apply cutEntry_inv in E. by destruct (HasPrefix_CL key env Hk He v'). }
  rewrite !foldl_app (Hskip pre) // (Hskip post) //. clear -Hl. rewrite /getPair. generalize "" as v.
  induction Hl as [|[k v'] l Hc Hl IH]; intros v; [done|]. cbn [foldl fmap list_fmap]. rewrite -IH {2}/f /entry cutEntry_add //.
Qed.

Lemma getMap_pairs pre l post prefix : HasPrefix prefix "CL_" = true → avoids "=" prefix = true → Forall foreign pre → Forall foreign post → Forall clean l →
  getMap (pre ++ (entry <$> l) ++ post) prefix = getPairs prefix ∅ l.
Proof.
  intros Hp Ha Hpre Hpost Hl. rewrite /getMap. set (f := λ (m : gmap string string) (env : string), if HasPrefix env prefix then _ else m).
  assert (∀ l m, Forall foreign l → foldl f m l = m) as Hskip.
  { clear -Hp. intros l m. revert m. induction l as [|env l IH]; intros m; [done|]. intros [He Hl]%Forall_cons. cbn [foldl]. rewrite IH // /f.
    destruct (HasPrefix env prefix) eqn:E; [|done]. exfalso. rewrite /foreign in He.
    assert (HasPrefix env "CL_" = true); [|congruence]. clear -Hp E. revert env E. destruct prefix as [|c1 [|c2 [|c3 p]]]; try done; [by cbn in Hp; rewrite ?andb_false_r in Hp..|].
    intros [|d1 [|d2 [|d3 s]]]; cbn [HasPrefix] in *; rewrite ?andb_true_iff ?andb_false_r //; rewrite ?andb_true_iff in Hp; [naive_solver..|].
    intros (H1 & H2 & H3 & _). destruct Hp as (Hp1 & Hp2 & Hp3 & _). rewrite ->Ascii.eqb_eq in *. subst. naive_solver. }
  rewrite !foldl_app (Hskip pre) // (Hskip post) //. clear -Hl Ha. rewrite /getPairs. generalize (∅ : gmap string string) as m.
  induction Hl as [|[k v'] l Hc Hl IH]; intros m; [done|]. cbn [foldl fmap list_fmap]. rewrite -IH {2}/f /entry HasPrefix_add // cutEntry_add //.
Qed.

Lemma getPair_app key v l1 l2 : getPair key v (l1 ++ l2) = getPair key (getPair key v l1) l2.
Proof. apply foldl_app. Qed.
Lemma getPairs_app prefix m l1 l2 : getPairs prefix m (l1 ++ l2) = getPairs prefix (getPairs prefix m l1) l2.
Proof. apply foldl_app. Qed.

(** A segment of another prefix. *)
Lemma getPair_map O prefix m key v : HasPrefix key prefix = false → getPair key v (mapPairs O prefix m) = v.
Proof.
  intros Hk. rewrite /getPair /mapPairs. revert v. induction (range_map O m) as [|[k v'] l IH]; intros v; [done|]. cbn [foldl fmap list_fmap fst snd].
  destruct (String.eqb_spec (prefix ++ k) key) as [<-|]; [by rewrite HasPrefix_refl in Hk|apply IH].
Qed.

Lemma getPairs_skip prefix m l : Forall (λ kv, HasPrefix kv.1 prefix = false) l → getPairs prefix m l = m.
Proof. rewrite /getPairs. revert m. induction l as [|kv l IH]; intros m; [done|]. intros [Hk Hl]%Forall_cons. cbn [foldl]. rewrite IH // /takePair. by rewrite Hk. Qed.

Lemma mapPairs_skip O prefix prefix' m : (∀ k, HasPrefix (prefix' ++ k) prefix = false) → Forall (λ kv, HasPrefix kv.1 prefix = false) (mapPairs O prefix' m).
Proof. intros Hp. rewrite /mapPairs Forall_fmap. apply Forall_forall. intros [k v] _. apply Hp. Qed.

Lemma getPairs_map O prefix m : getPairs prefix ∅ (mapPairs O prefix m) = m.
Proof.
  rewrite /getPairs /mapPairs foldl_fmap. apply map_eq. intros k.
  rewrite (foldl_insert_range (λ m kv, takePair prefix m ((prefix ++ kv.1)%string, kv.2)) (λ _ v, v)).
  - destruct (m !! k); [done|apply lookup_empty].
  - intros m' k' v. by rewrite /takePair /= HasPrefix_refl TrimPrefix_app.
Qed.

Definition pairsOf (O1 O2 O3 : RangeOrder (string * string)) (e : EnvConfig) : list (string * string) :=
  let db := database e in let tr := tracing e in let te := telemetry e in
  match DatabaseURL db with
  | Some u =>
      [(envDatabaseURL, (URLString u));
       (envDatabaseIdleInTxSessionTimeout, (DurationString (DatabaseIdleInTxSessionTimeout db)));
       (envDatabaseLockTimeout, (DurationString (DatabaseLockTimeout db)));
       (envDatabaseQueryTimeout, (DurationString (DatabaseQueryTimeout db)));
       (envDatabaseLogSQL, (FormatBool (DatabaseLogSQL db)));
       (envDatabaseMaxOpenConns, (Itoa (DatabaseMaxOpenConns db)));
       (envDatabaseMaxIdleConns, (Itoa (DatabaseMaxIdleConns db)))]
  | None => []
  end ++
  [(envPromPort, (Itoa (PrometheusPort e)));
   (envTracingEnabled, (FormatBool (TracingEnabled tr)));
   (envTracingCollectorTarget, (TracingCollectorTarget tr));
   (envTracingSamplingRatio, (FormatFloat (TracingSamplingRatio tr)));
   (envTracingTLSCertPath, (TracingTLSCertPath tr))] ++
  mapPairs O1 envTracingAttribute (TracingAttributes tr) ++
  [(envTelemetryEnabled, (FormatBool (TelemetryEnabled te)));
   (envTelemetryEndpoint, (TelemetryEndpoint te));
   (envTelemetryInsecureConn, (FormatBool (TelemetryInsecureConnection te)));
   (envTelemetryCACertFile, (TelemetryCACertFile te));
   (envTelemetryTraceSampleRatio, (FormatFloat (TelemetryTraceSampleRatio te)))] ++
  mapPairs O2 envTelemetryAttribute (TelemetryAttributes te) ++
  mapPairs O3 envTelemetryAuthHeader (TelemetryAuthHeaders te) ++
  [(envTelemetryAuthPubKeyHex, (TelemetryAuthPubKeyHex te));
   (envTelemetryEmitterBatchProcessor, (FormatBool (TelemetryEmitterBatchProcessor te)));
   (envTelemetryEmitterExportTimeout, (DurationString (TelemetryEmitterExportTimeout te)));
   (envTelemetryEmitterExportInterval, (DurationString (TelemetryEmitterExportInterval te)));
   (envTelemetryEmitterExportMaxBatchSize, (Itoa (TelemetryEmitterExportMaxBatchSize te)));
   (envTelemetryEmitterMaxQueueSize, (Itoa (TelemetryEmitterMaxQueueSize te)))].

Lemma AsCmdEnv_pairs O1 O2 O3 e : AsCmdEnv O1 O2 O3 e = entry <$> pairsOf O1 O2 O3 e.
Proof.
  assert (∀ O prefix m, addMap O prefix m = entry <$> mapPairs O prefix m) as Hm by (intros; by rewrite /mapPairs -list_fmap_compose).
  rewrite /AsCmdEnv /pairsOf !fmap_app !Hm. by destruct (DatabaseURL (database e)).
Qed.

(** *** What survives *)

Definition cleanKeys (m : gmap string string) : Prop := ∀ k v, m !! k = Some v → avoids "=" k = true.
Definition printable (f : float) : Prop := FormatFloat f ≠ "" ∧ ParseFloat (FormatFloat f) = Some f.

Record sendable (e : EnvConfig) : Prop := {
  send_db : ∀ u, DatabaseURL (database e) = Some u → URLString u ≠ "" ∧ URLParse (URLString u) = Some u;
  send_db_durations : inS 64 (DatabaseIdleInTxSessionTimeout (database e)) ∧ inS 64 (DatabaseLockTimeout (database e)) ∧ inS 64 (DatabaseQueryTimeout (database e));
  send_db_ints : inS 64 (DatabaseMaxOpenConns (database e)) ∧ inS 64 (DatabaseMaxIdleConns (database e));
  send_port : inS 64 (PrometheusPort e);
  send_tracing : cleanKeys (TracingAttributes (tracing e)) ∧ printable (TracingSamplingRatio (tracing e));
  send_telemetry : cleanKeys (TelemetryAttributes (telemetry e)) ∧ cleanKeys (TelemetryAuthHeaders (telemetry e)) ∧ printable (TelemetryTraceSampleRatio (telemetry e));
  send_durations : inS 64 (TelemetryEmitterExportTimeout (telemetry e)) ∧ inS 64 (TelemetryEmitterExportInterval (telemetry e));
  send_ints : inS 64 (TelemetryEmitterExportMaxBatchSize (telemetry e)) ∧ inS 64 (TelemetryEmitterMaxQueueSize (telemetry e))
}.

Lemma mapPairs_clean O prefix m : avoids "=" prefix = true → cleanKeys m → Forall clean (mapPairs O prefix m).
Proof.
  intros Hp Hm. rewrite /mapPairs Forall_fmap. apply Forall_forall. intros [k v] Hk%elem_of_range_map. rewrite /clean /= /avoids allChars_app.
  apply andb_true_iff. split; [exact Hp|by eapply Hm].
Qed.

Lemma pairs_clean O1 O2 O3 e : sendable e → Forall clean (pairsOf O1 O2 O3 e).
Proof.
  intros [_ _ _ _ [H1 _] (H2 & H3 & _) _ _]. rewrite /pairsOf !Forall_app. split_and!; try (by apply mapPairs_clean); try (by repeat constructor).
  destruct (DatabaseURL (database e)); by repeat constructor.
Qed.

(** The part of a configuration that the plugin sees. *)
Definition seen (e : EnvConfig) : EnvConfig :=
  mkEnvConfig (if DatabaseURL (database e) then database e else noDatabase) (PrometheusPort e)
    (if TracingEnabled (tracing e) then tracing e else noTracing) (if TelemetryEnabled (telemetry e) then telemetry e else noTelemetry).

Section roundtrip.
Context (O1 O2 O3 : RangeOrder (string * string)) (pre post : list string) (e : EnvConfig).
Context (Hpre : Forall foreign pre) (Hpost : Forall foreign post) (He : sendable e).
Let environ : list string := pre ++ AsCmdEnv O1 O2 O3 e ++ post.

Lemma environ_Getenv key : HasPrefix key "CL_" = true → Getenv environ key = getPair key "" (pairsOf O1 O2 O3 e).
Proof. intros Hk. rewrite /environ AsCmdEnv_pairs. apply Getenv_pairs; try done. by apply pairs_clean. Qed.

Lemma environ_getMap prefix : HasPrefix prefix "CL_" = true → avoids "=" prefix = true → getMap environ prefix = getPairs prefix ∅ (pairsOf O1 O2 O3 e).
Proof. intros Hk Ha. rewrite /environ AsCmdEnv_pairs. apply getMap_pairs; try done. by apply pairs_clean. Qed.

(** The value of a key, for the keys that are written as they are. *)
Ltac environment := rewrite environ_Getenv // /pairsOf !getPair_app !getPair_map //; by destruct (DatabaseURL (database e)).

Ltac environment_in E := rewrite environ_Getenv // /pairsOf !getPair_app !getPair_map // E; reflexivity.

Lemma environ_map :
  getMap environ envTracingAttribute = TracingAttributes (tracing e) ∧ getMap environ envTelemetryAttribute = TelemetryAttributes (telemetry e) ∧
  getMap environ envTelemetryAuthHeader = TelemetryAuthHeaders (telemetry e).
Proof.
  assert (∀ prefix l, Forall (λ kv, HasPrefix kv.1 prefix = false) l → ∀ m, getPairs prefix m l = m) as Hskip by (intros; by apply getPairs_skip).
  rewrite !environ_getMap // /pairsOf !getPairs_app. set (db := match DatabaseURL (database e) with Some _ => _ | None => [] end).
  assert (∀ m, getPairs envTracingAttribute m db = m ∧ getPairs envTelemetryAttribute m db = m ∧ getPairs envTelemetryAuthHeader m db = m) as Hdb
    by (intros m; rewrite /db; by destruct (DatabaseURL (database e))).
  destruct (Hdb ∅) as (-> & -> & ->). split_and!.
  - rewrite !(getPairs_skip _ _ (_ :: _)); try (by repeat constructor).
    rewrite (getPairs_skip _ _ (mapPairs O2 _ _)); [|by apply mapPairs_skip]. rewrite (getPairs_skip _ _ (mapPairs O3 _ _)); [|by apply mapPairs_skip]. apply getPairs_map.
  - rewrite !(getPairs_skip _ _ (_ :: _)); try (by repeat constructor).
    rewrite (getPairs_skip _ _ (mapPairs O1 _ _)); [|by apply mapPairs_skip]. rewrite (getPairs_skip _ _ (mapPairs O3 _ _)); [|by apply mapPairs_skip]. apply getPairs_map.
  - rewrite !(getPairs_skip _ _ (_ :: _)); try (by repeat constructor).
    rewrite (getPairs_skip _ _ (mapPairs O1 _ _)); [|by apply mapPairs_skip]. rewrite (getPairs_skip _ _ (mapPairs O2 _ _)); [|by apply mapPairs_skip]. apply getPairs_map.
Qed.

Lemma getBool_sent key b : Getenv environ key = FormatBool b → getBool environ key = Some b.
Proof. rewrite /getBool. intros ->. by destruct b. Qed.

Lemma getFloat_sent key f : Getenv environ key = FormatFloat f → printable f → getFloat64OrZero environ key = f.
Proof. rewrite /getFloat64OrZero. intros -> [Hn Hf]. destruct (String.eqb_spec (FormatFloat f) ""); [done|]. by rewrite Hf. Qed.

Lemma database_sent : parseDatabase environ noDatabase = Ok (if DatabaseURL (database e) then database e else noDatabase).
Proof.
  rewrite /parseDatabase /getEnv.
  assert (Getenv environ envDatabaseURL = match DatabaseURL (database e) with Some u => URLString u | None => "" end) as -> by environment.
  destruct (database e) as [u idle lock query log maxOpen maxIdle] eqn:Ed. cbn [DatabaseURL]. destruct u as [u|]; [|done].
  destruct He as [Hu (H1 & H2 & H3) (H4 & H5) _ _ _ _ _]. rewrite Ed /= in Hu H1 H2 H3 H4 H5. destruct (Hu u eq_refl) as [Hn Hp].
  destruct (String.eqb_spec (URLString u) "") as [|_]; [done|]. rewrite Hp. cbn [fmap option_fmap option_map ok_or obind].
  assert (Getenv environ envDatabaseIdleInTxSessionTimeout = DurationString idle ∧ Getenv environ envDatabaseLockTimeout = DurationString lock ∧
          Getenv environ envDatabaseQueryTimeout = DurationString query ∧ Getenv environ envDatabaseLogSQL = FormatBool log ∧
          Getenv environ envDatabaseMaxOpenConns = Itoa maxOpen ∧ Getenv environ envDatabaseMaxIdleConns = Itoa maxIdle) as (-> & -> & -> & -> & -> & ->)
    by (split_and!; environment_in Ed).
  rewrite !duration_roundtrip // FormatBool_parse !Atoi_Itoa //.
Qed.

Lemma tracing_sent : parseTracing environ noTracing =
  if TracingEnabled (tracing e) && negb (ParseRequestURI (TracingCollectorTarget (tracing e))) then Err InvalidTarget
  else Ok (if TracingEnabled (tracing e) then tracing e else noTracing).
Proof.
  rewrite /parseTracing /getValidCollectorTarget. destruct environ_map as (-> & _ & _). destruct (send_tracing e He) as [_ Hf].
  rewrite (getBool_sent _ (TracingEnabled (tracing e))); [|by environment]. cbn [ok_or obind].
  assert (Getenv environ envTracingCollectorTarget = TracingCollectorTarget (tracing e)) as -> by environment.
  rewrite (getFloat_sent _ (TracingSamplingRatio (tracing e))) //; [|by environment].
  assert (Getenv environ envTracingTLSCertPath = TracingTLSCertPath (tracing e)) as -> by environment.
  destruct (tracing e) as [[] target ratio cert attrs]; cbn; [|done]. by destruct (ParseRequestURI target).
Qed.

Lemma telemetry_sent : parseTelemetry environ noTelemetry = Ok (if TelemetryEnabled (telemetry e) then telemetry e else noTelemetry).
Proof.
  rewrite /parseTelemetry. destruct environ_map as (_ & -> & ->). destruct (send_telemetry e He) as (_ & _ & Hf), (send_durations e He) as [H1 H2], (send_ints e He) as [H3 H4].
  rewrite (getBool_sent _ (TelemetryEnabled (telemetry e))); [|by environment].
  rewrite (getBool_sent _ (TelemetryInsecureConnection (telemetry e))); [|by environment].
  rewrite (getBool_sent _ (TelemetryEmitterBatchProcessor (telemetry e))); [|by environment].
  rewrite (getFloat_sent _ (TelemetryTraceSampleRatio (telemetry e))) //; [|by environment].
  assert (Getenv environ envTelemetryEndpoint = TelemetryEndpoint (telemetry e) ∧ Getenv environ envTelemetryCACertFile = TelemetryCACertFile (telemetry e) ∧
          Getenv environ envTelemetryAuthPubKeyHex = TelemetryAuthPubKeyHex (telemetry e) ∧
          Getenv environ envTelemetryEmitterExportTimeout = DurationString (TelemetryEmitterExportTimeout (telemetry e)) ∧
          Getenv environ envTelemetryEmitterExportInterval = DurationString (TelemetryEmitterExportInterval (telemetry e)) ∧
          Getenv environ envTelemetryEmitterExportMaxBatchSize = Itoa (TelemetryEmitterExportMaxBatchSize (telemetry e)) ∧
          Getenv environ envTelemetryEmitterMaxQueueSize = Itoa (TelemetryEmitterMaxQueueSize (telemetry e))) as (-> & -> & -> & -> & -> & -> & ->)
    by (split_and!; environment).
  rewrite !duration_roundtrip // !Atoi_Itoa //. cbn [ok_or obind]. destruct (telemetry e) as [[]]; done.
Qed.
End roundtrip.

(** The configuration that the host writes is the one that the plugin
    reads, whatever the order of the maps and whatever other entries come
    before and after, except for the groups that are switched off, which it
    does not see.  If tracing is on and its target is no URI, the plugin does
    not start. *)
Theorem config_through_env O1 O2 O3 pre post e :
  Forall foreign pre → Forall foreign post → sendable e →
  parse (pre ++ AsCmdEnv O1 O2 O3 e ++ post) (mkEnvConfig noDatabase 0 noTracing noTelemetry) =
    if TracingEnabled (tracing e) && negb (ParseRequestURI (TracingCollectorTarget (tracing e))) then Err InvalidTarget else Ok (seen e).
Proof.
  intros Hpre Hpost He. rewrite /parse. cbn [database tracing telemetry PrometheusPort]. rewrite database_sent //. cbn [obind].
  assert (Getenv (pre ++ AsCmdEnv O1 O2 O3 e ++ post) envPromPort = Itoa (PrometheusPort e)) as ->
    by (rewrite environ_Getenv // /pairsOf !getPair_app !getPair_map //; by destruct (DatabaseURL (database e))).
  rewrite (Atoi_Itoa _ (send_port e He)) tracing_sent // telemetry_sent //. cbn [ok_or obind]. by destruct (_ && _).
Qed.
End config.

(** *** Witnesses *)

#[local] Program Instance demoFormats : Formats := {|
  url := string; URLString u := u; URLParse s := Some s; ParseRequestURI s := contains s ":";
  DurationString := Itoa; ParseDuration := Atoi; float := Z; fzero := 0%Z; FormatFloat := Itoa; ParseFloat := Atoi
|}.
Next Obligation. intros d Hd. by apply Atoi_Itoa. Qed.

Definition demoTracing (key : string) : Tracing := mkTracing true "host:4317" 1%Z "" {[ key := "v=1" ]}.
Definition demoConfig (key : string) : EnvConfig := mkEnvConfig (mkDatabase (Some "db") 10 20 30 true 5 6) 8080 (demoTracing key) noTelemetry.
Definition demoParse (key : string) : outcome error EnvConfig :=
  parse (["PATH=/bin"] ++ AsCmdEnv (insertion_order _) (insertion_order _) (insertion_order _) (demoConfig key) ++ []) (mkEnvConfig noDatabase 0 noTracing noTelemetry).

Lemma demo_config_sendable : sendable (demoConfig "node").
Proof.
  split; cbn.
  - by intros u [= <-].
  - by rewrite /inS.
  - by rewrite /inS.
  - by rewrite /inS.
  - split; [|by split]. intros k v [<- _]%lookup_singleton_Some. done.
  - split_and!; [done|done|by split].
  - by rewrite /inS.
  - by rewrite /inS.
Qed.

Lemma config_through_env_witness : sendable (demoConfig "node") ∧ demoParse "node" = Ok (seen (demoConfig "node")).
Proof. split; [apply demo_config_sendable|]. rewrite /demoParse config_through_env; [done|by repeat constructor|constructor|apply demo_config_sendable]. Defined.

(** A key with a [=] is cut there: the plugin gets another key and value. *)
Lemma equals_in_key : (λ e, TracingAttributes (tracing e)) <$> (match demoParse "a=b" with Ok e => Some e | _ => None end) = Some {[ "a" := "b=v=1" ]}.
Proof. vm_compute. reflexivity. Qed.

(** The error for a malformed [CL_TELEMETRY_INSECURE_CONNECTION] names another
    variable. *)
Lemma wrong_name :
  parseTelemetry ["CL_TELEMETRY_ENABLED=true"; "CL_TELEMETRY_INSECURE_CONNECTION=maybe"] noTelemetry = Err (FailedToParse envTelemetryEndpoint None).
Proof. reflexivity. Qed.
End LoopConfig.
