(* ===== verification/Automation.v ===== *)
(** [src/pkg/types/automation/basetypes.go, trigger.go]: the units of work of
    the automation product: upkeep identifiers, triggers and check results with
    the identifier on which the nodes agree. *)

From Stdlib.Strings Require Import Ascii.
From stdpp Require Import pretty.
From S2P Require Import Prelude GoBytes GoStrings Values.

Module Automation.

(** *** Upkeep identifiers: [[32]byte] *)

Definition UpkeepIdentifier : Type := list byte.
Definition zeros (n : nat) : list byte := replicate n x00.
Definition zeroIdentifier : UpkeepIdentifier := zeros 32.

Definition BigInt (u : UpkeepIdentifier) : Z := be_val u.
Definition identifierString (u : UpkeepIdentifier) : string := Itoa (BigInt u).

(** [FromBigInt]: the identifier, and whether the number is valid. *)
Definition FromBigInt (i : Z) : UpkeepIdentifier * bool :=
  if decide (i < 0)%Z then (zeroIdentifier, false)
  else
    let b := Values.bigBytes i in
    if decide (length b = 0) then (zeroIdentifier, true)
    else if decide (length b <= 32) then (take (32 - length b) zeroIdentifier ++ b, true)
    else (zeroIdentifier, false).

(** *** Triggers *)

Record LogTriggerExtension := mkLogTriggerExtension { TxHash : list byte; Index : Z; ExtBlockHash : list byte; ExtBlockNumber : Z }.
Record Trigger := mkTrigger { BlockNumber : Z; BlockHash : list byte; LogExtension : option LogTriggerExtension }.

Definition NewTrigger (blockNumber : Z) (blockHash : list byte) : Trigger := mkTrigger blockNumber blockHash None.
Definition NewLogTrigger (blockNumber : Z) (blockHash : list byte) (logTriggerExtension : option LogTriggerExtension) : Trigger :=
  mkTrigger blockNumber blockHash logTriggerExtension.

Definition LogIdentifier (e : LogTriggerExtension) : list byte := ExtBlockHash e ++ TxHash e ++ be_bytes 4 (Index e).

(** A double quote. *)
Definition q : string := String "034"%char EmptyString.

Definition extensionString (e : LogTriggerExtension) : string :=
  ("{" ++ q ++ "BlockHash" ++ q ++ ":" ++ q ++ hexEncode (ExtBlockHash e) ++ q ++ "," ++ q ++ "BlockNumber" ++ q ++ ":" ++ Itoa (ExtBlockNumber e) ++
   "," ++ q ++ "Index" ++ q ++ ":" ++ Itoa (Index e) ++ "," ++ q ++ "TxHash" ++ q ++ ":" ++ q ++ hexEncode (TxHash e) ++ q ++ "}")%string.

Definition triggerString (r : Trigger) : string :=
  ("{" ++ q ++ "BlockNumber" ++ q ++ ":" ++ Itoa (BlockNumber r) ++ "," ++ q ++ "BlockHash" ++ q ++ ":" ++ q ++ hexEncode (BlockHash r) ++ q ++
   match LogExtension r with Some e => "," ++ q ++ "LogTriggerExtension" ++ q ++ ":" ++ extensionString e | None => "" end ++ "}")%string.

(** *** Check results *)

Record CheckResult := mkCheckResult {
  PipelineExecutionState : byte;
  Retryable : bool;
  Eligible : bool;
  IneligibilityReason : byte;
  UpkeepID : UpkeepIdentifier;
  trigger : Trigger;
  WorkID : string;
  GasAllocated : Z;               (* uint64 *)
  PerformData : list byte;
  FastGasWei : option Z;
  LinkNative : option Z;
  RetryInterval : Z
}.

Definition checkResultDelimiter : byte := x09.

(** [fmt.Sprintf("%+v", b)] of a bool *)
Definition boolString (b : bool) : string := if b then "true" else "false".
(** [big.NewInt(int64(n)).Bytes()] of a uint64 *)
Definition uintBytes (n : Z) : list byte := Values.bigBytes (wrapS 64 n).
Definition bigOrNothing (z : option Z) : list byte := match z with Some z => Values.bigBytes z | None => [] end.

(** The fields of the identifier, each of which is followed by a delimiter. *)
Definition uniqueFields (r : CheckResult) : list (list byte) :=
  [ [PipelineExecutionState r]; bytes_of_string (boolString (Retryable r)); bytes_of_string (boolString (Eligible r)); [IneligibilityReason r];
    UpkeepID r; BlockHash (trigger r); uintBytes (BlockNumber (trigger r));
    match LogExtension (trigger r) with Some e => bytes_of_string (extensionString e) | None => [] end;
    bytes_of_string (WorkID r); uintBytes (GasAllocated r); PerformData r; bigOrNothing (FastGasWei r); bigOrNothing (LinkNative r) ].

Definition joinFields (fields : list (list byte)) : list byte := foldr (λ f rest, f ++ checkResultDelimiter :: rest) [] fields.

Definition UniqueID (r : CheckResult) : string := hexEncode (joinFields (uniqueFields r)).

(** [CheckResult.String] *)
Definition bigString (z : option Z) : string := match z with Some z => Itoa z | None => "<nil>" end.
Definition resultString (r : CheckResult) : string :=
  ("{" ++ q ++ "PipelineExecutionState" ++ q ++ ":" ++ Itoa (Z_of_byte (PipelineExecutionState r)) ++
   "," ++ q ++ "Retryable" ++ q ++ ":" ++ boolString (Retryable r) ++ "," ++ q ++ "Eligible" ++ q ++ ":" ++ boolString (Eligible r) ++
   "," ++ q ++ "IneligibilityReason" ++ q ++ ":" ++ Itoa (Z_of_byte (IneligibilityReason r)) ++
   "," ++ q ++ "UpkeepID" ++ q ++ ":" ++ identifierString (UpkeepID r) ++ "," ++ q ++ "Trigger" ++ q ++ ":" ++ triggerString (trigger r) ++
   "," ++ q ++ "WorkID" ++ q ++ ":" ++ q ++ WorkID r ++ q ++ "," ++ q ++ "GasAllocated" ++ q ++ ":" ++ Itoa (GasAllocated r) ++
   "," ++ q ++ "PerformData" ++ q ++ ":" ++ q ++ hexEncode (PerformData r) ++ q ++ "," ++ q ++ "FastGasWei" ++ q ++ ":" ++ bigString (FastGasWei r) ++
   "," ++ q ++ "LinkNative" ++ q ++ ":" ++ bigString (LinkNative r) ++ "," ++ q ++ "RetryInterval" ++ q ++ ":" ++ Itoa (RetryInterval r) ++ "}")%string.

(** [checkResultMsg]: every field but the retry interval. *)
Record checkResultMsg := mkMsg {
  mState : byte; mRetryable : bool; mEligible : bool; mReason : byte; mUpkeepID : UpkeepIdentifier; mTrigger : Trigger; mWorkID : string;
  mGasAllocated : Z; mPerformData : list byte; mFastGasWei : option Z; mLinkNative : option Z
}.

(** [encoding/json] on the message. *)
Class MsgFormat := {
  marshalMsg : checkResultMsg → option (list byte);
  unmarshalMsg : list byte → option checkResultMsg;
  msg_roundtrip : ∀ m bs, marshalMsg m = Some bs → unmarshalMsg bs = Some m
}.

Definition toMsg (r : CheckResult) : checkResultMsg :=
  mkMsg (PipelineExecutionState r) (Retryable r) (Eligible r) (IneligibilityReason r) (UpkeepID r) (trigger r) (WorkID r)
    (GasAllocated r) (PerformData r) (FastGasWei r) (LinkNative r).
Definition MarshalJSON `{MsgFormat} (r : CheckResult) : option (list byte) := marshalMsg (toMsg r).

(** [UnmarshalJSON] into [r]. *)
Definition UnmarshalJSON `{MsgFormat} (r : CheckResult) (data : list byte) : option CheckResult :=
  crm ← unmarshalMsg data;
  Some (mkCheckResult (mState crm) (mRetryable crm) (mEligible crm) (mReason crm) (mUpkeepID crm) (mTrigger crm) (mWorkID crm)
          (mGasAllocated crm) (mPerformData crm) (mFastGasWei crm) (mLinkNative crm) (RetryInterval r)).

(** *** Block keys and payloads *)

Record BlockKey := mkBlockKey { Number : Z; KeyHash : list byte }.
(** [BlockHistory.Latest]; [None] is "empty block history". *)
Definition Latest (bh : list BlockKey) : option BlockKey := match bh with [] => None | b :: _ => Some b end.

Record UpkeepPayload := mkPayload { pUpkeepID : UpkeepIdentifier; pTrigger : Trigger; pWorkID : string; CheckData : list byte }.
Definition IsEmpty (p : UpkeepPayload) : bool := String.eqb (pWorkID p) "".

(** *** Identifiers are the numbers below 2^256 *)

Lemma length_bigBytes z n : length (Values.bigBytes z) ≤ n ↔ (Z.abs z < 2 ^ (8 * Z.of_nat n))%Z.
Proof.
  split.
  - intros Hn. rewrite -Values.be_val_bigBytes. pose proof (be_val_range (Values.bigBytes z)) as [_ H]. eapply Z.lt_le_trans; [exact H|].
    apply Z.pow_le_mono_r; lia.
  - intros Hz. rewrite /Values.bigBytes length_be_bytes. case_decide as H0; [lia|].
    assert (Z.log2 (Z.abs z) < 8 * Z.of_nat n)%Z by (apply Z.log2_lt_pow2; lia).
    pose proof (Z.log2_nonneg (Z.abs z)). pose proof (Z.div_mod (Z.log2 (Z.abs z)) 8 ltac:(lia)).
    pose proof (Z.mod_pos_bound (Z.log2 (Z.abs z)) 8 ltac:(lia)). lia.
Qed.

Lemma be_val_zeros n bs : be_val (zeros n ++ bs) = be_val bs.
Proof.
  assert (∀ l, le_val (l ++ zeros n) = le_val l) as H.
  { induction l as [|b l IH]; cbn; [|by rewrite IH]. induction n as [|n IHn]; [done|]. cbn [zeros replicate le_val] in *. by rewrite IHn. }
  by rewrite /be_val reverse_app (reverse_replicate) H.
Qed.

Lemma be_val_inj a b : length a = length b → be_val a = be_val b → a = b.
Proof. intros Hl Hv. by rewrite -(be_bytes_val a) -(be_bytes_val b) Hl Hv. Qed.

(** A number is valid exactly if it fits into 256 bits; the identifier then
    has 32 bytes and stands for the number, and otherwise it is zero.  Every
    identifier comes from its number, and only from it. *)
Theorem upkeep_id_bijection :
  (∀ i, (FromBigInt i).2 = true ↔ inU 256 i) ∧
  (∀ i, length (FromBigInt i).1 = 32 ∧ BigInt (FromBigInt i).1 = if decide (inU 256 i) then i else 0%Z) ∧
  (∀ u, length u = 32 → FromBigInt (BigInt u) = (u, true)).
Proof.
  assert (∀ i, inU 256 i → ∃ u, FromBigInt i = (u, true) ∧ length u = 32 ∧ BigInt u = i) as Hin.
  { intros i [H0 Hi]. rewrite /FromBigInt decide_False; [|lia]. pose proof (Values.be_val_bigBytes i) as Hv. rewrite Z.abs_eq // in Hv.
    assert (length (Values.bigBytes i) ≤ 32) as Hl by (apply length_bigBytes; lia). case_decide as Hb.
    - exists zeroIdentifier. split_and!; [done|done|]. apply nil_length_inv in Hb. by rewrite Hb in Hv.
    - rewrite decide_True //. rewrite /zeroIdentifier /zeros take_replicate. eexists. split_and!; [done| |].
      + rewrite length_app length_replicate. lia.
      + etrans; [apply be_val_zeros|exact Hv]. }
  assert (∀ i, ¬ inU 256 i → FromBigInt i = (zeroIdentifier, false)) as Hout.
  { intros i Hi. rewrite /FromBigInt. case_decide; [done|]. assert (¬ length (Values.bigBytes i) ≤ 32) as Hl by (rewrite length_bigBytes /inU in Hi |- *; lia).
    rewrite decide_False; [|lia]. by rewrite decide_False. }
  split_and!.
  - intros i. destruct (decide (inU 256 i)) as [Hi|Hi]; [by destruct (Hin i Hi) as (u & -> & _)|by rewrite Hout].
  - intros i. destruct (decide (inU 256 i)) as [Hi|Hi]; [by destruct (Hin i Hi) as (u & -> & ? & ?)|by rewrite Hout].
  - intros u Hu. destruct (Hin (BigInt u)) as (u' & E & Hl & Hv); [rewrite /BigInt; pose proof (be_val_range u) as H; by rewrite Hu in H|].
    rewrite E. f_equal. apply be_val_inj; [congruence|exact Hv].
Qed.

(** *** What the identifier of a check result tells apart *)

Lemma delimiter_split {A} (d : A) f g r r' : d ∉ f → d ∉ g → f ++ d :: r = g ++ d :: r' → f = g ∧ r = r'.
Proof.
  revert g. induction f as [|x f IH]; intros [|y g] Hf Hg E; cbn in E.
  - by injection E.
  - injection E as -> _. by destruct Hg; left.
  - injection E as -> _. by destruct Hf; left.
  - injection E as -> E. rewrite !not_elem_of_cons in Hf Hg. destruct (IH g) as [-> ->]; naive_solver.
Qed.

(** Two fields of one length, or without a delimiter, stay apart. *)
Definition separable (f g : list byte) : Prop := length f = length g ∨ (checkResultDelimiter ∉ f) ∧ (checkResultDelimiter ∉ g).

Lemma joinFields_inj fs gs : Forall2 separable fs gs → joinFields fs = joinFields gs → fs = gs.
Proof.
  induction 1 as [|f g fs gs Hs _ IH]; [done|]. cbn [joinFields foldr]. intros E.
  assert (f = g ∧ joinFields fs = joinFields gs) as [-> E'].
  { destruct Hs as [Hl|[Hf Hg]]; [|by eapply delimiter_split]. apply app_inj_1 in E as [-> [= E]]; done. }
  by rewrite (IH E').
Qed.

Lemma hexEncode_inj a b : hexEncode a = hexEncode b → a = b.
Proof. intros H. apply (f_equal hexDecode) in H. rewrite !hexDecode_hexEncode in H. by injection H. Qed.

Lemma bytes_of_string_inj a b : bytes_of_string a = bytes_of_string b → a = b.
Proof. intros H. apply (f_equal String.string_of_list_byte) in H. by rewrite !String.string_of_list_byte_of_string in H. Qed.

Lemma delimiter_avoided s : avoids "009"%char s = true → checkResultDelimiter ∉ bytes_of_string s.
Proof.
  rewrite /avoids /bytes_of_string. induction s as [|c s IH]; [intros _; apply not_elem_of_nil|]. cbn [allChars]. intros [Hc Hs]%andb_true_iff.
  cbn. rewrite not_elem_of_cons. split; [|by apply IH]. intros E. apply (f_equal ascii_of_byte) in E. rewrite ascii_of_byte_of_ascii in E. subst c. by cbn in Hc.
Qed.

Lemma hexEncode_avoids c bs : hexDigit c = None → avoids c (hexEncode bs) = true.
Proof.
  intros Hc. rewrite /avoids. induction bs as [|b bs IH]; [done|]. cbn [hexEncode allChars]. rewrite IH andb_true_r. destruct (hex_byte b) as (H1 & H2 & _).
  rewrite !(proj2 (Ascii.eqb_neq _ _)) //; intros E; [rewrite E in H2|rewrite E in H1]; congruence.
Qed.

Lemma extension_plain e : checkResultDelimiter ∉ bytes_of_string (extensionString e).
Proof.
  apply delimiter_avoided. rewrite /extensionString /avoids !allChars_app. pose proof (hexEncode_avoids "009"%char (ExtBlockHash e) eq_refl) as H1.
  pose proof (hexEncode_avoids "009"%char (TxHash e) eq_refl) as H2. pose proof (Itoa_avoids "009"%char (ExtBlockNumber e) eq_refl ltac:(done)) as H3.
  pose proof (Itoa_avoids "009"%char (Index e) eq_refl ltac:(done)) as H4. unfold avoids in *. by rewrite H1 H2 H3 H4.
Qed.

Lemma append_inj a b x y : String.length a = String.length b → (a ++ x = b ++ y)%string → a = b ∧ x = y.
Proof.
  revert b. induction a as [|c a IH]; intros [|d b]; try done. cbn [String.length]. intros [= Hl] E. injection E as -> E. by destruct (IH b Hl E) as [-> ->].
Qed.

Lemma Itoa_inj z z' c x y : isDigit c = false → c ≠ "-"%char → (Itoa z ++ String c x = Itoa z' ++ String c y)%string → z = z' ∧ x = y.
Proof.
  intros Hc Hm E. apply (f_equal (λ s, Cut s c)) in E. rewrite !Cut_app in E; [|by apply Itoa_avoids..]. injection E as E ->.
  split; [|done]. by apply (inj pretty) in E.
Qed.

Lemma append_cancel p x y : (p ++ x = p ++ y)%string → x = y.
Proof. intros E. by apply append_inj in E as [_ ->]. Qed.

Lemma extensionString_inj e e' : length (ExtBlockHash e) = length (ExtBlockHash e') → length (TxHash e) = length (TxHash e') →
  extensionString e = extensionString e' → e = e'.
Proof.
  intros Hb Ht E. destruct e as [tx i bh bn], e' as [tx' i' bh' bn']. cbn in Hb, Ht. rewrite /extensionString in E. cbn [ExtBlockHash TxHash ExtBlockNumber Index] in E.
  do 6 apply append_cancel in E. apply append_inj in E as [->%hexEncode_inj E]; [|by rewrite !length_hexEncode Hb].
  do 6 apply append_cancel in E. apply (Itoa_inj _ _ ","%char) in E as [-> E]; [|done..].
  do 4 apply append_cancel in E. apply (Itoa_inj _ _ ","%char) in E as [-> E]; [|done..].
  do 5 apply append_cancel in E. by apply append_inj in E as [->%hexEncode_inj _]; [|by rewrite !length_hexEncode Ht].
Qed.

(** Sizes of the arrays. *)
Record wf (r : CheckResult) : Prop := {
  wf_id : length (UpkeepID r) = 32;
  wf_hash : length (BlockHash (trigger r)) = 32;
  wf_ext : match LogExtension (trigger r) with Some e => length (ExtBlockHash e) = 32 ∧ length (TxHash e) = 32 | None => True end
}.

(** No field of a length that varies holds a delimiter. *)
Definition plain (r : CheckResult) : Prop :=
  Forall (λ f, checkResultDelimiter ∉ f)
    [uintBytes (BlockNumber (trigger r)); bytes_of_string (WorkID r); uintBytes (GasAllocated r); PerformData r; bigOrNothing (FastGasWei r); bigOrNothing (LinkNative r)].

(** Everything that the identifier can tell: numbers up to their sign, and
    none like zero. *)
Definition sameResult (r r' : CheckResult) : Prop :=
  PipelineExecutionState r = PipelineExecutionState r' ∧ Retryable r = Retryable r' ∧ Eligible r = Eligible r' ∧
  IneligibilityReason r = IneligibilityReason r' ∧ UpkeepID r = UpkeepID r' ∧ BlockHash (trigger r) = BlockHash (trigger r') ∧
  Z.abs (wrapS 64 (BlockNumber (trigger r))) = Z.abs (wrapS 64 (BlockNumber (trigger r'))) ∧ LogExtension (trigger r) = LogExtension (trigger r') ∧
  WorkID r = WorkID r' ∧ Z.abs (wrapS 64 (GasAllocated r)) = Z.abs (wrapS 64 (GasAllocated r')) ∧ PerformData r = PerformData r' ∧
  Z.abs (default 0%Z (FastGasWei r)) = Z.abs (default 0%Z (FastGasWei r')) ∧ Z.abs (default 0%Z (LinkNative r)) = Z.abs (default 0%Z (LinkNative r')).

Lemma bigBytes_eq z z' : Values.bigBytes z = Values.bigBytes z' ↔ Z.abs z = Z.abs z'.
Proof.
  split; [intros E; by rewrite -!Values.be_val_bigBytes E|]. intros E. by rewrite /Values.bigBytes E.
Qed.

Lemma bigOrNothing_eq z z' : bigOrNothing z = bigOrNothing z' ↔ Z.abs (default 0%Z z) = Z.abs (default 0%Z z').
Proof.
  rewrite -bigBytes_eq. assert (∀ z, bigOrNothing z = Values.bigBytes (default 0%Z z)) as H by (by intros []). by rewrite !H.
Qed.

Lemma uniqueFields_eq r r' : wf r → wf r' → uniqueFields r = uniqueFields r' ↔ sameResult r r'.
Proof.
  intros [_ _ He] [_ _ He']. rewrite /uniqueFields /sameResult -!bigOrNothing_eq -!bigBytes_eq. split.
  - intros [= -> H2%bytes_of_string_inj H3%bytes_of_string_inj -> -> -> H7 H8 H9%bytes_of_string_inj H10 H11 H12 H13].
    split_and!; try done; [by destruct (Retryable r), (Retryable r')|by destruct (Eligible r), (Eligible r')|].
    destruct (LogExtension (trigger r)) as [e|], (LogExtension (trigger r')) as [e'|]; try done.
    f_equal. apply extensionString_inj; [destruct He, He'; congruence..|by apply bytes_of_string_inj].
  - intros (-> & -> & -> & -> & -> & -> & H7 & -> & -> & H10 & -> & -> & ->). by rewrite /uintBytes H7 H10.
Qed.

(** Two check results whose fields of varying length hold no delimiter have
    one identifier exactly if they agree on every field that is encoded, up to
    the signs of the big integers and of the numbers read as 64-bit signed
    integers, with a missing price taken for zero. *)
Theorem unique_id_exact r r' : wf r → wf r' → plain r → plain r' → UniqueID r = UniqueID r' ↔ sameResult r r'.
Proof.
  intros Hw Hw' Hp Hp'. rewrite -uniqueFields_eq //. rewrite /UniqueID. split; [|by intros ->].
  intros E%hexEncode_inj. apply joinFields_inj; [|done]. unfold plain in Hp, Hp'. rewrite !Forall_cons in Hp, Hp'.
  assert (∀ b, checkResultDelimiter ∉ bytes_of_string (boolString b)) as Hb by (intros []; by apply delimiter_avoided).
  assert (∀ o : option LogTriggerExtension, checkResultDelimiter ∉ match o with Some e => bytes_of_string (extensionString e) | None => [] end) as Hext
    by (intros [e|]; [apply extension_plain|apply not_elem_of_nil]).
  destruct Hp as (P1 & P2 & P3 & P4 & P5 & P6 & _), Hp' as (P1' & P2' & P3' & P4' & P5' & P6' & _).
  assert (length (UpkeepID r) = length (UpkeepID r')) as Hid by (by rewrite (wf_id r Hw) (wf_id r' Hw')).
  assert (length (BlockHash (trigger r)) = length (BlockHash (trigger r'))) as Hbh by (by rewrite (wf_hash r Hw) (wf_hash r' Hw')).
  rewrite /uniqueFields !Forall2_cons Forall2_nil /separable. split_and!; [by left|by right; split; apply Hb|by right; split; apply Hb|by left|by left|by left|by right|by right; split; apply Hext|by right|by right|by right|by right|by right|done].
Qed.

(** A check result that is encoded and decoded comes back with every field
    but the retry interval, which stays that of the variable it is decoded
    into; so it keeps its identifier. *)
Theorem result_roundtrip `{MsgFormat} r into bs : MarshalJSON r = Some bs →
  ∃ r', UnmarshalJSON into bs = Some r' ∧ toMsg r' = toMsg r ∧ RetryInterval r' = RetryInterval into ∧ UniqueID r' = UniqueID r.
Proof.
  intros Hm. rewrite /UnmarshalJSON (msg_roundtrip _ _ Hm). cbn [mbind option_bind]. eexists. split; [reflexivity|]. by destruct r as [? ? ? ? ? [] ? ? ? ? ? ?].
Qed.

(** *** Witnesses *)

Definition demoResult (workID : string) (gas : Z) (performData : list byte) (fastGas : option Z) : CheckResult :=
  mkCheckResult x00 false true x00 (zeros 32) (NewTrigger 7 (zeros 32)) workID gas performData fastGas (Some 1%Z) 0.

Lemma demo_wf w g p f : wf (demoResult w g p f).
Proof. by split. Qed.

Lemma demo_plain : plain (demoResult "work" 100 [x01] (Some 5%Z)).
Proof. rewrite /plain. apply (bool_decide_unpack _). by vm_compute. Qed.

(** A price that is negative has the identifier of its absolute value. *)
Lemma unique_id_exact_witness : UniqueID (demoResult "work" 100 [x01] (Some 5%Z)) = UniqueID (demoResult "work" 100 [x01] (Some (-5)%Z)).
Proof.
  apply (unique_id_exact (demoResult "work" 100 [x01] (Some 5%Z)) (demoResult "work" 100 [x01] (Some (-5)%Z)));
    [apply demo_wf|apply demo_wf|apply demo_plain|apply demo_plain|done].
Defined.

(** With a delimiter in a field, results that differ share their identifier:
    a gas limit that is part of the work's name, a price that is part of the
    data to perform. *)
Lemma identifiers_collide :
  UniqueID (demoResult "a" 9 [x01] None) = UniqueID (demoResult (String "a" (String "009" EmptyString)) 0 [x01] None) ∧
  UniqueID (demoResult "a" 1 [] (Some 9%Z)) = UniqueID (demoResult "a" 1 [x09] None) ∧
  UniqueID (demoResult "a" 1 [] None) = UniqueID (demoResult "a" (2 ^ 64 - 1) [] (Some 0%Z)).
Proof. split_and!; vm_compute; reflexivity. Qed.

#[local] Instance extension_eq_dec : EqDecision LogTriggerExtension.
Proof. solve_decision. Defined.
#[local] Instance trigger_eq_dec : EqDecision Trigger.
Proof. solve_decision. Defined.
#[local] Instance msg_eq_dec : EqDecision checkResultMsg.
Proof. solve_decision. Defined.

(** A format for one result. *)
Definition demoMsg : checkResultMsg := toMsg (demoResult "work" 100 [x01] (Some 5%Z)).
#[local] Program Instance demoFormat : MsgFormat :=
  {| marshalMsg m := if decide (m = demoMsg) then Some [x01] else None; unmarshalMsg bs := if decide (bs = [x01]) then Some demoMsg else None |}.
Next Obligation. intros m bs. cbn. case_decide as Hm; [|done]. intros [= <-]. by rewrite Hm. Qed.

Lemma result_roundtrip_witness :
  MarshalJSON (demoResult "work" 100 [x01] (Some 5%Z)) = Some [x01] ∧
  ∃ r', UnmarshalJSON (demoResult "" 0 [] None) [x01] = Some r' ∧ UniqueID r' = UniqueID (demoResult "work" 100 [x01] (Some 5%Z)).
Proof.
  assert (MarshalJSON (demoResult "work" 100 [x01] (Some 5%Z)) = Some [x01]) as Hm by (vm_compute; reflexivity).
  split; [exact Hm|]. destruct (result_roundtrip (demoResult "work" 100 [x01] (Some 5%Z)) (demoResult "" 0 [] None) [x01] Hm) as (r' & H1 & _ & _ & H2).
  exists r'. split; [exact H1|exact H2].
Defined.
End Automation.
