(* ===== verification/CCIPTypes.v ===== *)
(** [src/pkg/types/ccipocr3]: the types that the CCIP plugins exchange: ranges
    of sequence numbers and price types ([generic_types.go]), bytes and big
    integers with their JSON texts ([common_types.go]), the commit report
    ([plugin_commit_types.go]).

    A JSON text is a string.  [encoding/json] gives an [UnmarshalJSON] method
    any JSON value that stands at its place, quoted or not. *)

From Stdlib.Strings Require Import Ascii.
From stdpp Require Import pretty.
From S2P Require Import Prelude GoBytes GoStrings.
Open Scope string_scope.
Open Scope list_scope.

Module CCIPTypes.

(** *** Sequence numbers *)

(** [SeqNum] and [ChainSelector] are uint64. *)
Record SeqNumRange := mkRange { Start : Z; End : Z }.

Definition NewSeqNumRange (start end_ : Z) : SeqNumRange := mkRange start end_.
Definition SetStart (v : Z) (s : SeqNumRange) : SeqNumRange := mkRange v (End s).
Definition SetEnd (v : Z) (s : SeqNumRange) : SeqNumRange := mkRange (Start s) v.

Definition Limit (s : SeqNumRange) (n : Z) : SeqNumRange :=
  let limitedRange := NewSeqNumRange (Start s) (End s) in
  let numElems := wrapU 64 (End s - Start s + 1) in
  if decide (numElems <= 0)%Z then limitedRange
  else if decide (n < numElems)%Z then
    let newEnd := wrapU 64 (Start limitedRange + n - 1) in
    if decide (End limitedRange < newEnd)%Z then limitedRange else SetEnd newEnd limitedRange
  else limitedRange.

Definition Overlaps (s other : SeqNumRange) : bool := (Start s <=? End other)%Z && (Start other <=? End s)%Z.
Definition Contains (s : SeqNumRange) (seq : Z) : bool := (Start s <=? seq)%Z && (seq <=? End s)%Z.

Definition seqNumString (s : Z) : string := Itoa s.
Definition rangeString (s : SeqNumRange) : string := ("[" ++ Itoa (Start s) ++ " -> " ++ Itoa (End s) ++ "]")%string.
Definition chainSelectorString (c : Z) : string := ("ChainSelector(" ++ Itoa c ++ ")")%string.

(** *** Texts *)

Inductive error := TooShort | NoPrefix | NotHex | NotInteger.

Definition q : string := String "034"%char EmptyString.
Definition quoted (s : string) : string := (q ++ s ++ q)%string.
(** [v[1 : len(v)-1]], for a text of two characters at least. *)
Definition inner (v : string) : string := String.substring 1 (String.length v - 2) v.

Definition bytesString (b : list byte) : string := ("0x" ++ hexEncode b)%string.

Definition NewBytesFromString (s : string) : outcome error (list byte) :=
  if decide (String.length s < 2) then Err TooShort
  else if negb (HasPrefix s "0x") then Err NoPrefix
  else ok_or NotHex (hexDecode (dropChars 2 s)).

Definition bytesMarshalJSON (b : list byte) : string := quoted (bytesString b).

Definition bytesUnmarshalJSON (v : string) : outcome error (list byte) :=
  if decide (String.length v < 2) then Err TooShort
  else let v := inner v in
       if negb (HasPrefix v "0x") then Err NoPrefix
       else ok_or NotHex (hexDecode (dropChars 2 v)).

(** [copy] into an array that holds [old]. *)
Definition copyInto (old src : list byte) : list byte := take (length old) src ++ drop (length src) old.
Definition zero32 : list byte := replicate 32 x00.

Definition NewBytes32FromString (s : string) : outcome error (list byte) :=
  if decide (String.length s < 2) then Err TooShort
  else if negb (HasPrefix s "0x") then Err NoPrefix
  else let? b := ok_or NotHex (hexDecode (dropChars 2 s)) in Ok (copyInto zero32 b).

Definition bytes32IsEmpty (b : list byte) : bool := bool_decide (b = zero32).

(** [Bytes32.UnmarshalJSON] of a variable that holds [b]. *)
Definition bytes32UnmarshalJSON (b : list byte) (v : string) : outcome error (list byte) :=
  if decide (String.length v < 4) then Err TooShort
  else let? bCp := ok_or NotHex (hexDecode (dropChars 2 (inner v))) in Ok (copyInto b bCp).

(** [BigInt], [None] for a nil pointer. *)
Definition bigIntMarshalJSON (b : option Z) : string :=
  match b with None => "null" | Some i => quoted (Itoa i) end.

(** [big.Int.SetString(s, 10)] *)
Definition SetString (s : string) : option Z :=
  match s with
  | EmptyString => None
  | String "-" EmptyString | String "+" EmptyString => None
  | String "-" s => Z.opp <$> digits 0 s
  | String "+" s => digits 0 s
  | s => digits 0 s
  end.

Definition bigIntUnmarshalJSON (b : option Z) (p : string) : outcome error (option Z) :=
  if String.eqb p "null" then Ok b
  else if decide (String.length p < 2) then Err TooShort
  else let? z := ok_or NotInteger (SetString (inner p)) in Ok (Some z).

Definition bigIntIsEmpty (b : option Z) : bool := match b with None => true | Some _ => false end.

(** *** Reports *)

Record TokenPrice := mkTokenPrice { TokenID : string; Price : option Z }.
Definition NewTokenPrice (tokenID : string) (price : option Z) : TokenPrice := mkTokenPrice tokenID price.
Record GasPriceChain := mkGasPriceChain { GasPrice : option Z; ChainSel : Z }.
Definition NewGasPriceChain (gasPrice : option Z) (chainSel : Z) : GasPriceChain := mkGasPriceChain gasPrice chainSel.

Record MerkleRootChain := mkRoot { rootChainSel : Z; OnRampAddress : list byte; SeqNumsRange : SeqNumRange; MerkleRoot : list byte }.
Definition NewMerkleRootChain (chainSel : Z) (onRampAddress : list byte) (seqNumsRange : SeqNumRange) (merkleRoot : list byte) : MerkleRootChain :=
  mkRoot chainSel onRampAddress seqNumsRange merkleRoot.

#[export] Instance range_eq_dec : EqDecision SeqNumRange.
Proof. solve_decision. Defined.

Definition Equals (m other : MerkleRootChain) : bool :=
  (rootChainSel m =? rootChainSel other)%Z && match bytesCompare (OnRampAddress m) (OnRampAddress other) with Eq => true | _ => false end &&
  bool_decide (SeqNumsRange m = SeqNumsRange other) && bool_decide (MerkleRoot m = MerkleRoot other).

Record RMNECDSASignature := mkSignature { R : list byte; S_ : list byte }.
Record CommitPluginReport := mkReport {
  MerkleRoots : list MerkleRootChain;
  TokenPriceUpdates : list TokenPrice;
  GasPriceUpdates : list GasPriceChain;
  RMNSignatures : list RMNECDSASignature;
  RMNRawVs : option Z
}.

Definition isNil {A} (l : list A) : bool := match l with [] => true | _ => false end.
Definition reportIsEmpty (r : CommitPluginReport) : bool :=
  isNil (MerkleRoots r) && isNil (TokenPriceUpdates r) && isNil (GasPriceUpdates r) && isNil (RMNSignatures r).

(** *** Facts about ranges *)

Definition rangeOK (s : SeqNumRange) : Prop := inU 64 (Start s) ∧ inU 64 (End s).

(** [Limit] does nothing to a range from 0 if the limit is 0 or the range has
    every number, whose count wraps around. *)
Definition unlimited (s : SeqNumRange) (n : Z) : bool := (Start s =? 0)%Z && ((n =? 0)%Z || (End s =? 2 ^ 64 - 1)%Z).

Lemma Limit_newEnd s n : rangeOK s → inU 64 n → unlimited s n = false →
  Limit s n = s ∧ (∀ seq, Contains s seq = true → (seq - Start s < n)%Z) ∨
  Limit s n = mkRange (Start s) (Start s + n - 1) ∧ (Start s + n - 1 <= End s)%Z ∨
  Limit s n = mkRange (Start s) (Start s + n - 1 - 2 ^ 64) ∧ (End s < Start s ∧ 2 ^ 64 <= Start s + n - 1)%Z.
Proof.
  intros [Hs He] Hn Hu. destruct s as [a b]. unfold inU in *. cbn in *. rewrite /unlimited /= in Hu. rewrite /Limit /Contains /SetEnd /wrapU. cbn [Start End NewSeqNumRange].
  assert ((a = 0)%Z → (n ≠ 0 ∧ b ≠ 2 ^ 64 - 1)%Z) as H0 by (intros ->; rewrite Z.eqb_refl /= in Hu; apply orb_false_iff in Hu as [H1%Z.eqb_neq H2%Z.eqb_neq]; done).
  destruct (decide (a <= b)%Z) as [Hab|Hab].
  - assert ((b - a + 1) mod 2 ^ 64 = b - a + 1)%Z as -> by (apply Z.mod_small; lia). destruct (decide (b - a + 1 <= 0)%Z); [lia|].
    destruct (decide (n < b - a + 1)%Z); [|left; split; [done|]; intros seq; rewrite andb_true_iff !Z.leb_le; lia].
    destruct (decide (n = 0)%Z) as [->|]; [|assert ((a + n - 1) mod 2 ^ 64 = a + n - 1)%Z as -> by (apply Z.mod_small; lia)].
    + assert ((a + 0 - 1) mod 2 ^ 64 = a + 0 - 1)%Z as -> by (apply Z.mod_small; lia). destruct (decide (b < a + 0 - 1)%Z); [lia|]. right; left. split; [done|lia].
    + destruct (decide (b < a + n - 1)%Z); [lia|]. right; left. split; [done|lia].
  - assert (∀ seq, (a <=? seq)%Z && (seq <=? b)%Z = true → (seq - a < n)%Z) as Hempty by (intros seq; rewrite andb_true_iff !Z.leb_le; lia).
    assert ((b - a + 1) mod 2 ^ 64 = if decide (b - a + 1 = 0) then 0 else b - a + 1 + 2 ^ 64)%Z as ->.
    { destruct (decide (b - a + 1 = 0)%Z) as [->|]; [done|]. rewrite -(Z.mod_add _ 1) //. apply Z.mod_small. lia. }
    destruct (decide (b - a + 1 = 0)%Z); [destruct (decide (0 <= 0)%Z); [by left|lia]|]. destruct (decide (b - a + 1 + 2 ^ 64 <= 0)%Z); [lia|].
    destruct (decide (n < b - a + 1 + 2 ^ 64)%Z); [|by left]. destruct (decide (a + n - 1 < 2 ^ 64)%Z) as [Hlt|Hge].
    + assert ((a + n - 1) mod 2 ^ 64 = a + n - 1)%Z as -> by (apply Z.mod_small; lia). destruct (decide (b < a + n - 1)%Z); [by left|]. right; left. split; [done|lia].
    + assert ((a + n - 1) mod 2 ^ 64 = a + n - 1 - 2 ^ 64)%Z as -> by (rewrite -(Z.mod_add _ (-1)) //; rewrite Z.mod_small; lia).
      destruct (decide (b < _)%Z); [by left|]. right; right. split; [done|lia].
Qed.

(** [Limit] is exact: of the numbers of a range it keeps those that are
    fewer than [n] away from the start, for every range, also an empty one,
    and every limit; the exceptions are a range from 0 with limit 0 and the
    range of all numbers, which come back as they are. *)
Theorem limit_exact s n : rangeOK s → inU 64 n →
  rangeOK (Limit s n) ∧ Start (Limit s n) = Start s ∧
  ∀ seq, Contains (Limit s n) seq = Contains s seq && ((seq - Start s <? n)%Z || unlimited s n).
Proof.
  intros Hs Hn. destruct (unlimited s n) eqn:Hu.
  - assert (Limit s n = s) as ->.
    { destruct s as [a b]. destruct Hs as [Ha Hb]. unfold inU, unlimited in *. cbn in *. apply andb_true_iff in Hu as [->%Z.eqb_eq Hu]. apply orb_true_iff in Hu.
      rewrite /Limit /wrapU /=. destruct Hu as [->%Z.eqb_eq| ->%Z.eqb_eq]; [|by vm_compute].
      destruct (decide (_ <= 0)%Z) as [|Hn0]; [done|]. destruct (decide (0 < _)%Z); [|done]. destruct (decide (b < _)%Z) as [|Hge]; [done|].
      assert (b = 2 ^ 64 - 1)%Z as -> by (change ((0 + 0 - 1) mod 2 ^ 64)%Z with (2 ^ 64 - 1)%Z in Hge; lia). exfalso. apply Hn0. by vm_compute. }
    split; [done|]. split; [done|]. intros seq. by rewrite orb_true_r andb_true_r.
  - destruct (Limit_newEnd s n Hs Hn Hu) as [[-> Hc]|[[-> He]|[-> He]]]; rewrite /rangeOK; cbn [Start End]; destruct s as [a b], Hs as [Ha Hb]; cbn in *; unfold inU in *.
    + split; [done|]. split; [done|]. intros seq. specialize (Hc seq). destruct (Contains _ seq) eqn:E; [|done]. rewrite orb_false_r. cbn. symmetry. apply Z.ltb_lt. by apply Hc.
    + split; [split; [done|]|split; [done|]].
      { destruct (decide (a = 0 ∧ n = 0)%Z) as [[-> ->]|]; [done|lia]. }
      intros seq. rewrite /Contains /= orb_false_r. destruct (Z.leb_spec a seq), (Z.leb_spec seq b), (Z.leb_spec seq (a + n - 1)), (Z.ltb_spec (seq - a) n); cbn; try done; lia.
    + split; [split; [done|lia]|split; [done|]]. intros seq. rewrite /Contains /= orb_false_r.
      destruct (Z.leb_spec a seq), (Z.leb_spec seq b), (Z.leb_spec seq (a + n - 1 - 2 ^ 64)), (Z.ltb_spec (seq - a) n); cbn; try done; lia.
Qed.

Lemma limit_exact_witness : rangeOK (mkRange 1 10) ∧ Contains (Limit (mkRange 1 10) 5) 5 = true ∧ Contains (Limit (mkRange 1 10) 5) 6 = false.
Proof.
  assert (rangeOK (mkRange 1 10)) as H by (split; by rewrite /inU). destruct (limit_exact (mkRange 1 10) 5 H ltac:(by rewrite /inU)) as (_ & _ & E).
  split; [done|]. by rewrite !E.
Defined.

(** Two ranges overlap when they have a number in common, if none is empty. *)
Lemma Overlaps_iff s t : (Start s <= End s)%Z → (Start t <= End t)%Z → Overlaps s t = true ↔ ∃ seq, Contains s seq = true ∧ Contains t seq = true.
Proof.
  intros Hs Ht. rewrite /Overlaps /Contains andb_true_iff !Z.leb_le. split.
  - intros [H1 H2]. exists (Z.max (Start s) (Start t)). rewrite !andb_true_iff !Z.leb_le. lia.
  - intros (x & H). rewrite !andb_true_iff !Z.leb_le in H. lia.
Qed.

Lemma Overlaps_comm s t : Overlaps s t = Overlaps t s.
Proof. apply andb_comm. Qed.

(** An empty range passes for one that overlaps. *)
Example empty_overlaps : Overlaps (mkRange 5 4) (mkRange 1 10) = true ∧ ∀ seq, Contains (mkRange 5 4) seq = false.
Proof. split; [done|]. intros seq. rewrite /Contains /=. destruct (Z.leb_spec 5 seq), (Z.leb_spec seq 4); try done; lia. Qed.

(** *** Facts about texts *)

Lemma length_app_string (s t : string) : String.length (s ++ t)%string = String.length s + String.length t.
Proof. induction s as [|c s IH]; [done|]. change (S (String.length (s ++ t)%string) = S (String.length s + String.length t)). by rewrite IH. Qed.

Lemma substring_app_l (s t : string) : String.substring 0 (String.length s) (s ++ t) = s.
Proof. induction s as [|c s IH]; [by destruct t|]. change (String c (String.substring 0 (String.length s) (s ++ t)%string) = String c s). by rewrite IH. Qed.

Lemma length_quoted s : String.length (quoted s) = S (S (String.length s)).
Proof. rewrite /quoted !length_app_string /=. lia. Qed.

Lemma inner_quoted s : inner (quoted s) = s.
Proof.
  rewrite /inner length_quoted. change (S (S (String.length s)) - 2) with (String.length s - 0). rewrite Nat.sub_0_r. apply substring_app_l.
Qed.

Lemma SetString_digits s z : allChars isDigit s = true → s ≠ EmptyString → digits 0 s = Some z → SetString s = Some z.
Proof.
  intros Hall Hne Hd. destruct s as [|c s]; [done|]. cbn [allChars] in Hall. apply andb_true_iff in Hall as [Hc _]. rewrite -Hd.
  clear Hd Hne. destruct c as [[] [] [] [] [] [] [] []]; first [by vm_compute in Hc|reflexivity].
Qed.

Lemma SetString_Itoa z : SetString (Itoa z) = Some z.
Proof.
  rewrite /Itoa /pretty /pretty_Z. destruct z as [|p|p].
  - by vm_compute.
  - destruct (pretty_N_digits (N.pos p)) as (H1 & H2 & H3). by apply SetString_digits.
  - destruct (pretty_N_digits (N.pos p)) as (H1 & H2 & H3). change (pretty p) with (pretty (N.pos p)).
    set (s := pretty (N.pos p)) in *. clearbody s. destruct s as [|c s]; [done|].
    change (Z.opp <$> digits 0 (String c s) = Some (Z.neg p)). by rewrite H1.
Qed.

Lemma Itoa_not_null z : quoted (Itoa z) ≠ "null".
Proof. done. Qed.

Lemma copyInto_full old src : length src = length old → copyInto old src = src.
Proof. intros Hl. rewrite /copyInto Hl drop_ge // app_nil_r. by rewrite -Hl firstn_all. Qed.

(** The JSON texts of bytes, of 32 bytes and of big integers, negative ones
    too, are read back as what was written, whatever the variable held before;
    an absent integer leaves the variable alone.  The constructors read the
    plain texts back. *)
Theorem json_roundtrip :
  (∀ b, bytesUnmarshalJSON (bytesMarshalJSON b) = Ok b ∧ NewBytesFromString (bytesString b) = Ok b) ∧
  (∀ old b, length old = 32 → length b = 32 → bytes32UnmarshalJSON old (bytesMarshalJSON b) = Ok b ∧ NewBytes32FromString (bytesString b) = Ok b) ∧
  (∀ old z, bigIntUnmarshalJSON old (bigIntMarshalJSON (Some z)) = Ok (Some z)) ∧
  (∀ old, bigIntUnmarshalJSON old (bigIntMarshalJSON None) = Ok old).
Proof.
  assert (∀ b, String.length (bytesString b) = S (S (2 * length b))) as Hlen by (intros b; by rewrite /bytesString length_app_string length_hexEncode).
  split_and!.
  - intros b. rewrite /bytesUnmarshalJSON /bytesMarshalJSON /NewBytesFromString length_quoted inner_quoted Hlen /= hexDecode_hexEncode. done.
  - intros old b Ho Hb. rewrite /bytes32UnmarshalJSON /bytesMarshalJSON /NewBytes32FromString length_quoted inner_quoted Hlen Hb /= hexDecode_hexEncode /=.
    by rewrite !copyInto_full ?Ho ?Hb.
  - intros old z. rewrite /bigIntUnmarshalJSON /bigIntMarshalJSON. destruct (String.eqb_spec (quoted (Itoa z)) "null") as [E|_]; [by apply Itoa_not_null in E|].
    rewrite length_quoted inner_quoted SetString_Itoa /=. done.
  - done.
Qed.

(** [UnmarshalJSON] takes the first and the last character for quotes: of the
    JSON number 123 a 2 is left. *)
Example number_read_as_2 : bigIntUnmarshalJSON None "123" = Ok (Some 2%Z).
Proof. done. Qed.

(** Fewer than 32 bytes are read into the beginning of the array, whose tail
    stays; more are cut; and any two characters pass for the prefix. *)
Example stale_tail : bytes32UnmarshalJSON [x01; x02; x03] (quoted "0xff") = Ok [xff; x02; x03] ∧ bytes32UnmarshalJSON [x01] (quoted "zzffee") = Ok [xff].
Proof. by vm_compute. Qed.

(** *** Reports *)

Lemma bytesCompare_eq a b : match bytesCompare a b with Eq => true | _ => false end = bool_decide (a = b).
Proof.
  pose proof (bytesCompare_Eq a b) as H. destruct (bytesCompare a b); symmetry; [apply bool_decide_eq_true|apply bool_decide_eq_false..]; naive_solver.
Qed.

Lemma Equals_iff m other : Equals m other = true ↔ m = other.
Proof.
  rewrite /Equals bytesCompare_eq !andb_true_iff Z.eqb_eq !bool_decide_eq_true. destruct m, other; cbn. naive_solver.
Qed.

Lemma reportIsEmpty_iff r : reportIsEmpty r = true ↔ MerkleRoots r = [] ∧ TokenPriceUpdates r = [] ∧ GasPriceUpdates r = [] ∧ RMNSignatures r = [].
Proof. rewrite /reportIsEmpty !andb_true_iff. destruct r as [[|] [|] [|] [|] ?]; cbn; naive_solver. Qed.

(** A report without roots and prices is not empty when it has signatures. *)
Example signatures_only : reportIsEmpty (mkReport [] [] [] [mkSignature zero32 zero32] None) = false.
Proof. done. Qed.
End CCIPTypes.
