(* ===== verification/LLOTypes.v ===== *)
(** [src/pkg/types/llo/types.go]: report formats, aggregators and channel
    definitions of low-latency oracles, with the texts they have in JSON.

    [encoding/json] is an interface: its strings, its numbers and its objects,
    which it writes with sorted keys. *)

From stdpp Require Import pretty.
From S2P Require Import Prelude GoBytes GoStrings.
Open Scope string_scope.
Open Scope list_scope.

Module LLOTypes.

(** [object] is what a [map[string]interface{}] holds. *)
Class Json := {
  object : Type;
  writeString : string → string;
  readString : string → option string;
  readUint32 : string → option Z;
  writeObject : object → option string;
  readObject : string → option object;
  string_back : ∀ s, readString (writeString s) = Some s;
  object_back : ∀ o s, writeObject o = Some s → readObject s = Some o
}.

Inductive error := UnknownFormat (s : string) | UnknownAggregator (s : string) | InvalidJSON | NotBytes.

(** *** Report formats and aggregators, uint32 *)

Definition ReportFormatEVMPremiumLegacy : Z := 1.
Definition ReportFormatJSON : Z := 2.
Definition ReportFormatRetirement : Z := 3.
Definition ReportFormatEVMABIEncodeUnpacked : Z := 4.
Definition ReportFormatCapabilityTrigger : Z := 5.
Definition ReportFormatEVMStreamlined : Z := 6.

Definition ReportFormats : list Z :=
  [ReportFormatEVMPremiumLegacy; ReportFormatJSON; ReportFormatRetirement; ReportFormatEVMABIEncodeUnpacked; ReportFormatCapabilityTrigger; ReportFormatEVMStreamlined].

Definition unknown (n : Z) : string := ("unknown(" ++ Itoa n ++ ")")%string.

Definition formatString (rf : Z) : string :=
  if (rf =? ReportFormatEVMPremiumLegacy)%Z then "evm_premium_legacy"
  else if (rf =? ReportFormatJSON)%Z then "json"
  else if (rf =? ReportFormatRetirement)%Z then "retirement"
  else if (rf =? ReportFormatEVMABIEncodeUnpacked)%Z then "evm_abi_encode_unpacked"
  else if (rf =? ReportFormatCapabilityTrigger)%Z then "capability_trigger"
  else if (rf =? ReportFormatEVMStreamlined)%Z then "evm_streamlined"
  else unknown rf.

Definition ReportFormatFromString (s : string) : outcome error Z :=
  if String.eqb s "evm_premium_legacy" then Ok ReportFormatEVMPremiumLegacy
  else if String.eqb s "json" then Ok ReportFormatJSON
  else if String.eqb s "retirement" then Ok ReportFormatRetirement
  else if String.eqb s "evm_abi_encode_unpacked" then Ok ReportFormatEVMABIEncodeUnpacked
  else if String.eqb s "capability_trigger" then Ok ReportFormatCapabilityTrigger
  else if String.eqb s "evm_streamlined" then Ok ReportFormatEVMStreamlined
  else Err (UnknownFormat s).

Definition AggregatorMedian : Z := 1.
Definition AggregatorMode : Z := 2.
Definition AggregatorQuote : Z := 3.

Definition aggregatorString (a : Z) : string :=
  if (a =? AggregatorMedian)%Z then "median"
  else if (a =? AggregatorMode)%Z then "mode"
  else if (a =? AggregatorQuote)%Z then "quote"
  else unknown a.

Definition AggregatorFromString (s : string) : outcome error Z :=
  if String.eqb s "median" then Ok AggregatorMedian
  else if String.eqb s "mode" then Ok AggregatorMode
  else if String.eqb s "quote" then Ok AggregatorQuote
  else Err (UnknownAggregator s).

Section json.
Context `{Json}.

(** Both types are written by their names and read by name or number. *)
Definition formatMarshalJSON (rf : Z) : string := writeString (formatString rf).
Definition formatUnmarshalJSON (data : string) : outcome error Z :=
  match readString data with
  | Some str => ReportFormatFromString str
  | None => ok_or InvalidJSON (readUint32 data)
  end.

Definition aggregatorMarshalJSON (a : Z) : string := writeString (aggregatorString a).
Definition aggregatorUnmarshalJSON (data : string) : outcome error Z :=
  match readString data with
  | Some str => AggregatorFromString str
  | None => ok_or InvalidJSON (readUint32 data)
  end.

(** *** Channel definitions *)

Record Stream := mkStream { StreamID : Z; aggregator : Z }.
#[export] Instance stream_eq_dec : EqDecision Stream.
Proof. solve_decision. Defined.

(** [ChannelOpts] is [None] when it is nil. *)
Record ChannelDefinition := mkDefinition { format : Z; Streams : list Stream; Opts : option string }.

(** The loop of [Equals], for lists of one length. *)
Fixpoint sameStreams (a b : list Stream) : bool :=
  match a, b with
  | [], _ => true
  | x :: a, y :: b => if decide (x ≠ y) then false else sameStreams a b
  | _ :: _, [] => true
  end.

Definition Equals (a b : ChannelDefinition) : bool :=
  if negb (format a =? format b)%Z then false
  else if decide (length (Streams a) ≠ length (Streams b)) then false
  else sameStreams (Streams a) (Streams b) && String.eqb (default "" (Opts a)) (default "" (Opts b)).

Definition formatJSON (input : string) : outcome error string :=
  let? obj := ok_or InvalidJSON (readObject input) in ok_or InvalidJSON (writeObject obj).

(** [ChannelOpts.UnmarshalJSON] of a variable that holds [m]; an error leaves
    nil there. *)
Definition optsUnmarshalJSON (m : option string) (data : string) : outcome error (option string) :=
  if String.eqb data "null" then Ok m else let? s := formatJSON data in Ok (Some s).
Definition optsMarshalJSON (m : option string) : outcome error string :=
  match m with None => Ok "null" | Some s => formatJSON s end.

(** What a column of the database holds. *)
Inductive column := CBytes (b : option string) | COther.

(** [ChannelDefinitions.Scan]; [None] is a nil map, [unmarshal] is
    [json.Unmarshal] into the map. *)
Definition Scan {C} (empty : C) (unmarshal : string → option C) (value : column) : outcome error (option C) :=
  match value with
  | COther => Err NotBytes
  | CBytes None => Ok None
  | CBytes (Some b) => if decide (String.length b = 0) then Ok (Some empty) else let? c := ok_or InvalidJSON (unmarshal b) in Ok (Some c)
  end.

(** *** Facts *)

Lemma unknown_format n : ReportFormatFromString (unknown n) = Err (UnknownFormat (unknown n)).
Proof. done. Qed.
Lemma unknown_aggregator n : AggregatorFromString (unknown n) = Err (UnknownAggregator (unknown n)).
Proof. done. Qed.

(** A report format or an aggregator comes back from its JSON text exactly
    when it has a name; any other number is written as a text that is refused
    when it is read. *)
Theorem names_survive n :
  (formatUnmarshalJSON (formatMarshalJSON n) = if decide (n ∈ ReportFormats) then Ok n else Err (UnknownFormat (unknown n))) ∧
  (aggregatorUnmarshalJSON (aggregatorMarshalJSON n) = if decide (n ∈ [AggregatorMedian; AggregatorMode; AggregatorQuote]) then Ok n else Err (UnknownAggregator (unknown n))).
Proof.
  rewrite /formatUnmarshalJSON /formatMarshalJSON /aggregatorUnmarshalJSON /aggregatorMarshalJSON !string_back. split.
  - destruct (decide (n ∈ ReportFormats)) as [Hn|Hn].
    + assert (Forall (λ n, ReportFormatFromString (formatString n) = Ok n) ReportFormats) as Hall by (by repeat constructor).
      rewrite Forall_forall in Hall. by apply Hall.
    + rewrite /ReportFormats !not_elem_of_cons in Hn. destruct Hn as (H1 & H2 & H3 & H4 & H5 & H6 & _). rewrite /formatString.
      by rewrite !(proj2 (Z.eqb_neq _ _)).
  - destruct (decide (n ∈ _)) as [Hn|Hn].
    + assert (Forall (λ n, AggregatorFromString (aggregatorString n) = Ok n) [AggregatorMedian; AggregatorMode; AggregatorQuote]) as Hall by (by repeat constructor).
      rewrite Forall_forall in Hall. by apply Hall.
    + rewrite !not_elem_of_cons in Hn. destruct Hn as (H1 & H2 & H3 & _). rewrite /aggregatorString. by rewrite !(proj2 (Z.eqb_neq _ _)).
Qed.

Lemma sameStreams_iff a b : length a = length b → sameStreams a b = true ↔ a = b.
Proof.
  revert b. induction a as [|x a IH]; intros [|y b]; cbn; try done. intros [= Hl]. destruct (decide (x ≠ y)) as [Hne|Heq].
  - split; [done|]. by intros [= -> _].
  - apply dec_stable in Heq as ->. rewrite IH //. split; [by intros ->|by intros [= ->]].
Qed.

(** Definitions are equal when their formats and streams are, in order, and
    their options, where nil and no bytes count as equal. *)
Lemma Equals_iff_fields a b : Equals a b = true ↔ format a = format b ∧ Streams a = Streams b ∧ default "" (Opts a) = default "" (Opts b).
Proof.
  rewrite /Equals. destruct (Z.eqb_spec (format a) (format b)) as [->|]; cbn; [|naive_solver]. destruct (decide (length (Streams a) ≠ length (Streams b))) as [Hl|Hl].
  - split; [done|]. intros (_ & E & _). by rewrite E in Hl.
  - rewrite andb_true_iff sameStreams_iff; [|lia]. rewrite String.eqb_eq. naive_solver.
Qed.

(** The form of a text is canonical: formatting it again changes nothing. *)
Lemma formatJSON_canonical input s : formatJSON input = Ok s → formatJSON s = Ok s.
Proof.
  rewrite /formatJSON. destruct (readObject input) as [o|]; cbn; [|done]. destruct (writeObject o) as [s'|] eqn:E; cbn; [|done]. intros [= ->].
  by rewrite (object_back o s E) /= E.
Qed.

(** Options that were read are written as they are held. *)
Lemma opts_stable m data m' : data ≠ "null" → optsUnmarshalJSON m data = Ok m' → ∃ s, m' = Some s ∧ optsMarshalJSON m' = Ok s.
Proof.
  intros Hd. rewrite /optsUnmarshalJSON. destruct (String.eqb_spec data "null"); [done|]. destruct (formatJSON data) as [s|e|] eqn:E; cbn; try done. intros [= <-].
  exists s. split; [done|]. by eapply formatJSON_canonical.
Qed.
End json.
End LLOTypes.
