(* ===== verification/ReportingRPC.v ===== *)
(** [src/pkg/loop/internal/core/services/reportingplugin/ocr3/reporting.go] and
    [src/pkg/loop/internal/pb/utils.go]: reporting plugins and their factories
    behind gRPC.  What OCR2 and OCR3 share is in [ReportingRPC]; the plugins of
    OCR2 are in OCR2RPC.v.

    A plugin is the function from the calls of its interface to its answers; it
    acts on a state [W] of its own.  A client turns a call into a request and a
    reply into an answer, a server the other way round.  Every request is
    delivered; an error of the server arrives as its status. *)

From S2P Require Import Prelude GoBytes GoStrings RemoteErrors.

Module ReportingRPC.
Import RemoteErrors.

Section rpc.
Context `{GRPCStatus} {W : Type}.

(** What a method does to the plugin and what it returns. *)
Definition M (A : Type) : Type := W → outcome error A * W.

(** A request that the server rejects before it calls the plugin. *)
Definition checked {A B} (request : outcome error A) (call : A → M B) : M B :=
  λ w, match request with Ok a => call a w | Err e => (Err e, w) | Panic => (Panic, w) end.
Definition reply {A B} (f : A → B) (m : M A) : M B := λ w, let '(r, w) := m w in ((let? a := r in Ok (f a)), w).
(** The call over the connection. *)
Definition over {A} (m : M A) : M A := λ w, let '(r, w) := m w in (map_err arrived r, w).

(** *** pb/utils.go and the observations, which OCR2 and OCR3 share *)

Record AttributedObservation := mkAO { Observation : list byte; Observer : Z }.    (* Observer: uint8 *)
Record pbAO := mkPbAO { pbObservation : list byte; pbObserver : Z }.               (* uint32 *)

Definition ErrConfigDigestLen (l : nat) : error := EText ("invalid ConfigDigest len " ++ Itoa (Z.of_nat l) ++ ": must be 32")%string.
Definition ErrUint8Bounds (name : string) (u : Z) : error := EText ("expected uint8 " ++ name ++ " (max 255) but got " ++ Itoa u)%string.

Definition pbAttributedObservation (ao : AttributedObservation) : pbAO := mkPbAO (Observation ao) (wrapU 32 (Observer ao)).
Definition pbAttributedObservations (aos : list AttributedObservation) : list pbAO := pbAttributedObservation <$> aos.
Definition attributedObservation (pbo : pbAO) : outcome error AttributedObservation :=
  if decide (255 < pbObserver pbo)%Z then Err (ErrUint8Bounds "Observer" (pbObserver pbo))
  else Ok (mkAO (pbObservation pbo) (wrapU 8 (pbObserver pbo))).
Definition attributedObservations (pbos : list pbAO) : outcome error (list AttributedObservation) := omapM attributedObservation pbos.

Definition aoOK (ao : AttributedObservation) : Prop := inU 8 (Observer ao).

Lemma ao_roundtrip ao : aoOK ao → attributedObservation (pbAttributedObservation ao) = Ok ao.
Proof.
  rewrite /aoOK /inU. intros Ho. rewrite /attributedObservation /=. assert (wrapU 32 (Observer ao) = Observer ao) as -> by (apply wrapU_small; rewrite /inU; lia).
  rewrite decide_False; [|lia]. rewrite wrapU_small //. by destruct ao.
Qed.

Lemma aos_roundtrip aos : Forall aoOK aos → attributedObservations (pbAttributedObservations aos) = Ok aos.
Proof.
  intros Ha. apply omapM_Forall2. rewrite /pbAttributedObservations Forall2_fmap_l. induction Ha; constructor; [by apply ao_roundtrip|done].
Qed.

Definition typed {A} (f : M A) (P : A → Prop) : Prop := ∀ w a w', f w = (Ok a, w') → P a.

(** *** Sequences of calls *)

Fixpoint execs {C A} (p : C → M A) (cs : list C) (w : W) : list (outcome error A) * W :=
  match cs with [] => ([], w) | c :: cs => let '(a, w) := p c w in let '(l, w) := execs p cs w in (a :: l, w) end.

(** What a caller of a remote implementation gets for an answer. *)
Definition sent {A} (r : outcome error A) : outcome error A := map_err arrived r.

(** A sequence of calls of [p] is one of [impl], whose answers come through
    [g], if each call is. *)
Lemma execs_related {C A} (g : outcome error A → outcome error A) (impl p : C → M A) cs cs' w :
  Forall2 (λ c c', ∀ w, p c w = (g (impl c' w).1, (impl c' w).2)) cs cs' → execs p cs w = (g <$> (execs impl cs' w).1, (execs impl cs' w).2).
Proof.
  intros Hc. revert w. induction Hc as [|c c' cs cs' Hc _ IH]; intros w; [done|]. cbn [execs]. rewrite Hc. destruct (impl c' w) as [a w1]. cbn [fst snd].
  rewrite IH. by destruct (execs impl cs' w1).
Qed.

(** [p] does what [impl] does, with errors as their statuses. *)
Definition behindRPC {C A} (impl p : C → M A) (c : C) : Prop := ∀ w, p c w = (sent (impl c w).1, (impl c w).2).

Lemma execs_behindRPC {C A} (impl p : C → M A) cs w : Forall (behindRPC impl p) cs → execs p cs w = (sent <$> (execs impl cs w).1, (execs impl cs w).2).
Proof. intros Hc. apply execs_related. by apply Forall_Forall2_diag. Qed.
End rpc.

(** *** Factories *)

Section factory.
Context `{GRPCStatus} {W Cfg pbCfg Info pbInfo P : Type}.

(** The broker: the plugins that are served, by the number of their
    connection. *)
Definition conns : Type := list P.

(** A factory makes a plugin and says its name and limits. *)
Definition Factory : Type := Cfg → M (W:=W) (P * Info).

(** [NewReportingPlugin] of the server: the configuration is checked, the
    plugin is made and served. *)
Definition serverNewReportingPlugin (fromConfig : pbCfg → outcome error Cfg) (toInfo : Info → pbInfo) (impl : Factory) (serveErr : option error)
    (request : pbCfg) (bw : conns * W) : outcome error (nat * pbInfo) * (conns * W) :=
  let '(b, w) := bw in
  match fromConfig request with
  | Err e => (Err e, bw)
  | Panic => (Panic, bw)
  | Ok cfg =>
      let '(r, w) := impl cfg w in
      match r with
      | Err e => (Err e, (b, w))
      | Panic => (Panic, (b, w))
      | Ok (rp, rpi) =>
          match serveErr with
          | Some e => (Err e, (b, w))
          | None => (Ok (length b, toInfo rpi), (b ++ [rp], w))
          end
      end
  end.

(** [NewReportingPlugin] of the client, which dials the plugin's connection. *)
Definition clientNewReportingPlugin (toConfig : Cfg → pbCfg) (fromInfo : pbInfo → Info) (newClient : P → P) (dialErr : error)
    (grpc : pbCfg → conns * W → outcome error (nat * pbInfo) * (conns * W)) (config : Cfg) (bw : conns * W) : outcome error (P * Info) * (conns * W) :=
  let '(r, bw) := grpc (toConfig config) bw in
  match r with
  | Err e => (Err (arrived e), bw)
  | Panic => (Panic, bw)
  | Ok (id, rpi) => (match bw.1 !! id with Some rp => Ok (newClient rp, fromInfo rpi) | None => Err dialErr end, bw)
  end.

(** The factory behind gRPC makes the client of what the factory makes. *)
Lemma factory_remote (toConfig : Cfg → pbCfg) fromConfig toInfo fromInfo newClient dialErr impl cfg b w :
  fromConfig (toConfig cfg) = Ok cfg →
  clientNewReportingPlugin toConfig fromInfo newClient dialErr (serverNewReportingPlugin fromConfig toInfo impl None) cfg (b, w) =
    (let '(r, w) := impl cfg w in
     match r with
     | Ok (rp, rpi) => (Ok (newClient rp, fromInfo (toInfo rpi)), (b ++ [rp], w))
     | Err e => (Err (arrived e), (b, w))
     | Panic => (Panic, (b, w))
     end).
Proof.
  intros Hc. rewrite /clientNewReportingPlugin /serverNewReportingPlugin Hc. destruct (impl cfg w) as [[[rp rpi]|e|] w']; [|done..]. cbn.
  by rewrite lookup_app_r // Nat.sub_diag.
Qed.
End factory.
End ReportingRPC.

(** *** OCR3 *)

Module OCR3RPC.
Import RemoteErrors ReportingRPC.

Record OutcomeContext := mkOC { SeqNr : Z; PreviousOutcome : list byte; Epoch : Z; Round : Z }.
Record pbOutcomeContextT := mkPbOC { pbSeqNr : Z; pbPreviousOutcome : list byte; pbEpoch : Z; pbRound : Z }.
Definition pbOutcomeContext (oc : OutcomeContext) : pbOutcomeContextT := mkPbOC (SeqNr oc) (PreviousOutcome oc) (Epoch oc) (Round oc).
Definition outcomeContext (oc : pbOutcomeContextT) : OutcomeContext := mkOC (pbSeqNr oc) (pbPreviousOutcome oc) (pbEpoch oc) (pbRound oc).

Record ReportWithInfo := mkRI { Report : list byte; Info : list byte }.
(** Transmitters are uint8, delays int64; on the wire uint32 and int64. *)
Record TransmissionSchedule := mkTS { Transmitters : list Z; TransmissionDelays : list Z }.
Record ReportPlus := mkRP { ri : ReportWithInfo; Override : option TransmissionSchedule }.

Definition pbTransmissionSchedule (s : option TransmissionSchedule) : option TransmissionSchedule :=
  match s with None => None | Some s => Some (mkTS (wrapU 32 <$> Transmitters s) (wrapS 64 <$> TransmissionDelays s)) end.
Definition transmissionSchedule (s : option TransmissionSchedule) : option TransmissionSchedule :=
  match s with None => None | Some s => Some (mkTS (wrapU 8 <$> Transmitters s) (wrapS 64 <$> TransmissionDelays s)) end.
Definition pbReportsPlus (l : list ReportPlus) : list ReportPlus := (λ r, mkRP (ri r) (pbTransmissionSchedule (Override r))) <$> l.
Definition reportsPlus (l : list ReportPlus) : list ReportPlus := (λ r, mkRP (ri r) (transmissionSchedule (Override r))) <$> l.

(** The calls of [ocr3types.ReportingPlugin]. *)
Inductive call :=
  | Query (oc : OutcomeContext)
  | Observation (oc : OutcomeContext) (query : list byte)
  | ValidateObservation (oc : OutcomeContext) (query : list byte) (ao : AttributedObservation)
  | ObservationQuorum (oc : OutcomeContext) (query : list byte) (aos : list AttributedObservation)
  | Outcome (oc : OutcomeContext) (query : list byte) (aos : list AttributedObservation)
  | Reports (seqNr : Z) (outcome : list byte)
  | ShouldAcceptAttestedReport (u : Z) (ri : ReportWithInfo)
  | ShouldTransmitAcceptedReport (u : Z) (ri : ReportWithInfo)
  | Close.

Inductive answer := ABytes (b : list byte) | ABool (b : bool) | AReports (l : list ReportPlus) | ANone.

Inductive request :=
  | QueryRequest (oc : pbOutcomeContextT)
  | ObservationRequest (oc : pbOutcomeContextT) (query : list byte)
  | ValidateObservationRequest (oc : pbOutcomeContextT) (query : list byte) (ao : pbAO)
  | ObservationQuorumRequest (oc : pbOutcomeContextT) (query : list byte) (aos : list pbAO)
  | OutcomeRequest (oc : pbOutcomeContextT) (query : list byte) (aos : list pbAO)
  | ReportsRequest (seqNr : Z) (outcome : list byte)
  | ShouldAcceptRequest (u : Z) (ri : ReportWithInfo)
  | ShouldTransmitRequest (u : Z) (ri : ReportWithInfo)
  | CloseRequest.

(** [ocr3types.ReportingPluginConfig]: oracle ids are uint8, [N] and [F] int,
    durations int64. *)
Record Config := mkConfig {
  ConfigDigest : list byte; OracleID : Z; N : Z; F : Z; OnchainConfig : list byte; OffchainConfig : list byte;
  EstimatedRoundInterval : Z; MaxDurationQuery : Z; MaxDurationObservation : Z;
  MaxDurationShouldTransmitAcceptedReport : Z; MaxDurationShouldAcceptAttestedReport : Z
}.
(** Names and limits; the limits are int, on the wire uint64. *)
Record PluginInfo := mkInfo { Name : string; MaxQueryLength : Z; MaxObservationLength : Z; MaxOutcomeLength : Z; MaxReportLength : Z; MaxReportCount : Z }.

Definition toConfig (c : Config) : Config :=
  mkConfig (ConfigDigest c) (wrapU 32 (OracleID c)) (wrapU 32 (N c)) (wrapU 32 (F c)) (OnchainConfig c) (OffchainConfig c)
    (wrapS 64 (EstimatedRoundInterval c)) (wrapS 64 (MaxDurationQuery c)) (wrapS 64 (MaxDurationObservation c))
    (wrapS 64 (MaxDurationShouldTransmitAcceptedReport c)) (wrapS 64 (MaxDurationShouldAcceptAttestedReport c)).
Definition fromConfig (c : Config) : outcome error Config :=
  if decide (length (ConfigDigest c) ≠ 32) then Err (ErrConfigDigestLen (length (ConfigDigest c)))
  else Ok (mkConfig (ConfigDigest c) (wrapU 8 (OracleID c)) (wrapS 64 (N c)) (wrapS 64 (F c)) (OnchainConfig c) (OffchainConfig c)
             (wrapS 64 (EstimatedRoundInterval c)) (wrapS 64 (MaxDurationQuery c)) (wrapS 64 (MaxDurationObservation c))
             (wrapS 64 (MaxDurationShouldTransmitAcceptedReport c)) (wrapS 64 (MaxDurationShouldAcceptAttestedReport c))).

Definition limitsWith (f : Z → Z) (i : PluginInfo) : PluginInfo :=
  mkInfo (Name i) (f (MaxQueryLength i)) (f (MaxObservationLength i)) (f (MaxOutcomeLength i)) (f (MaxReportLength i)) (f (MaxReportCount i)).
Definition toInfo : PluginInfo → PluginInfo := limitsWith (wrapU 64).
Definition fromInfo : PluginInfo → PluginInfo := limitsWith (wrapS 64).

Section plugin.
Context `{GRPCStatus} {W : Type}.

Definition Plugin : Type := call → M (W:=W) answer.

(** The methods of [reportingPluginServer]. *)
Definition server (impl : Plugin) (req : request) : M (W:=W) answer :=
  match req with
  | QueryRequest oc => impl (Query (outcomeContext oc))
  | ObservationRequest oc query => impl (Observation (outcomeContext oc) query)
  | ValidateObservationRequest oc query pbao => checked (attributedObservation pbao) (λ ao, impl (ValidateObservation (outcomeContext oc) query ao))
  | ObservationQuorumRequest oc query pbaos => checked (attributedObservations pbaos) (λ aos, impl (ObservationQuorum (outcomeContext oc) query aos))
  | OutcomeRequest oc query pbaos => checked (attributedObservations pbaos) (λ aos, impl (Outcome (outcomeContext oc) query aos))
  | ReportsRequest seqNr outcome => reply (λ a, match a with AReports l => AReports (pbReportsPlus l) | a => a end) (impl (Reports seqNr outcome))
  | ShouldAcceptRequest u ri => impl (ShouldAcceptAttestedReport u (mkRI (Report ri) (Info ri)))
  | ShouldTransmitRequest u ri => impl (ShouldTransmitAcceptedReport u (mkRI (Report ri) (Info ri)))
  | CloseRequest => impl Close
  end.

(** The methods of [reportingPluginClient]. *)
Definition client (grpc : request → M (W:=W) answer) (c : call) : M (W:=W) answer :=
  match c with
  | Query oc => grpc (QueryRequest (pbOutcomeContext oc))
  | Observation oc query => grpc (ObservationRequest (pbOutcomeContext oc) query)
  | ValidateObservation oc query ao => grpc (ValidateObservationRequest (pbOutcomeContext oc) query (pbAttributedObservation ao))
  | ObservationQuorum oc query aos => grpc (ObservationQuorumRequest (pbOutcomeContext oc) query (pbAttributedObservations aos))
  | Outcome oc query aos => grpc (OutcomeRequest (pbOutcomeContext oc) query (pbAttributedObservations aos))
  | Reports seqNr outcome => reply (λ a, match a with AReports l => AReports (reportsPlus l) | a => a end) (grpc (ReportsRequest seqNr outcome))
  | ShouldAcceptAttestedReport u ri => grpc (ShouldAcceptRequest u (mkRI (Report ri) (Info ri)))
  | ShouldTransmitAcceptedReport u ri => grpc (ShouldTransmitRequest u (mkRI (Report ri) (Info ri)))
  | Close => grpc CloseRequest
  end.

(** [newReportingPluginClient] on the connection of [impl]. *)
Definition remote (impl : Plugin) : Plugin := client (λ req, over (server impl req)).

(** *** Facts *)

(** Values that the Go types can hold. *)
Definition callOK (c : call) : Prop :=
  match c with
  | ValidateObservation _ _ ao => aoOK ao
  | ObservationQuorum _ _ aos | Outcome _ _ aos => Forall aoOK aos
  | _ => True
  end.
Definition scheduleOK (s : option TransmissionSchedule) : Prop :=
  match s with None => True | Some s => Forall (inU 8) (Transmitters s) ∧ Forall (inS 64) (TransmissionDelays s) end.
Definition answerOK (a : answer) : Prop := match a with AReports l => Forall (λ r, scheduleOK (Override r)) l | _ => True end.

Lemma reports_roundtrip l : Forall (λ r, scheduleOK (Override r)) l → reportsPlus (pbReportsPlus l) = l.
Proof.
  rewrite /reportsPlus /pbReportsPlus -list_fmap_compose. induction 1 as [|[r s] l Hs _ IH]; [done|]. cbn [fmap list_fmap]. rewrite IH. f_equal.
  rewrite /compose /=. f_equal. destruct s as [[ts ds]|]; [|done]. destruct Hs as [Ht Hd]. cbn in *. rewrite -!list_fmap_compose. f_equal. f_equal.
  - induction Ht as [|t l1 Ht1 _ IHt]; [done|]. cbn [fmap list_fmap]. rewrite IHt /compose. f_equal.
    rewrite (wrapU_small 32); [|unfold inU in *; lia]. by apply wrapU_small.
  - induction Hd as [|d l1 Hd1 _ IHt]; [done|]. cbn [fmap list_fmap]. rewrite IHt /compose. f_equal. by rewrite wrapS_wrapS // wrapS_small.
Qed.

Lemma ocr3_remote_call impl c : callOK c → typed (impl c) answerOK → behindRPC impl (remote impl) c.
Proof.
  intros Hc Ht w. destruct c as [oc|oc query|oc query ao|oc query aos|oc query aos|seqNr outcome|u [r i]|u [r i]|];
    cbn [remote client server]; rewrite /over /reply /checked /=.
  - destruct oc. by destruct (impl _ w) as [r w'].
  - destruct oc. by destruct (impl _ w) as [r w'].
  - rewrite ao_roundtrip //. destruct oc. by destruct (impl _ w) as [r w'].
  - rewrite aos_roundtrip //. destruct oc. by destruct (impl _ w) as [r w'].
  - rewrite aos_roundtrip //. destruct oc. by destruct (impl _ w) as [r w'].
  - specialize (Ht w). destruct (impl (Reports seqNr outcome) w) as [[a|e|] w'] eqn:E; [|done..]. specialize (Ht a w' eq_refl). cbn.
    destruct a as [b|b|l|]; [done|done| |done]. cbn in Ht |- *. by rewrite reports_roundtrip.
  - by destruct (impl _ w) as [a w'].
  - by destruct (impl _ w) as [a w'].
  - by destruct (impl _ w) as [a w'].
Qed.

Lemma ocr3_execs_remote impl cs w : Forall callOK cs → (∀ c, typed (impl c) answerOK) →
  execs (remote impl) cs w = (sent <$> (execs impl cs w).1, (execs impl cs w).2).
Proof. intros Hc Ht. apply execs_behindRPC. eapply Forall_impl; [exact Hc|]. intros c Hok. by apply ocr3_remote_call. Qed.

Definition configOK (c : Config) : Prop :=
  length (ConfigDigest c) = 32 ∧ inU 8 (OracleID c) ∧ inU 32 (N c) ∧ inU 32 (F c) ∧
  Forall (inS 64) [EstimatedRoundInterval c; MaxDurationQuery c; MaxDurationObservation c; MaxDurationShouldTransmitAcceptedReport c; MaxDurationShouldAcceptAttestedReport c].
Definition infoOK (i : PluginInfo) : Prop :=
  Forall (inS 64) [MaxQueryLength i; MaxObservationLength i; MaxOutcomeLength i; MaxReportLength i; MaxReportCount i].

Lemma ocr3_config_roundtrip c : configOK c → fromConfig (toConfig c) = Ok c.
Proof.
  intros (Hd & Ho & Hn & Hf & Hds). rewrite !Forall_cons in Hds. destruct Hds as (H1 & H2 & H3 & H4 & H5 & _). rewrite /fromConfig /toConfig /=.
  rewrite decide_False; [|lia]. rewrite !wrapS_wrapS // !(wrapS_small 64) // ?(wrapU_small 32) // ?wrapU_small //; unfold inU, inS in *; try lia. by destruct c.
Qed.

Lemma ocr3_info_roundtrip i : infoOK i → fromInfo (toInfo i) = i.
Proof.
  rewrite /infoOK !Forall_cons. intros (H1 & H2 & H3 & H4 & H5 & _). rewrite /fromInfo /toInfo /limitsWith /=. rewrite !wrapS_wrapU // !wrapS_small //. by destruct i.
Qed.

(** The factory of the client, with the factory of the server behind it. *)
Definition remoteFactory (dialErr : error) (impl : Factory (W:=W) (Cfg:=Config) (Info:=PluginInfo) (P:=Plugin)) :=
  clientNewReportingPlugin toConfig fromInfo remote dialErr (serverNewReportingPlugin fromConfig toInfo impl None).

(** C29: an OCR3 plugin that is made and called over gRPC is the plugin that the
    factory makes, as far as anyone can see: it gets the configuration that was
    given, its limits arrive, and any sequence of calls changes it exactly as
    the same calls made directly do and brings the same answers, errors as
    their statuses. *)
Theorem ocr3_behind_rpc dialErr impl cfg b w : configOK cfg →
  let '(r, w') := impl cfg w in
  match r with
  | Ok (rp, rpi) =>
      infoOK rpi → (∀ c, typed (rp c) answerOK) → ∃ client,
        remoteFactory dialErr impl cfg (b, w) = (Ok (client, rpi), (b ++ [rp], w')) ∧
        ∀ cs u, Forall callOK cs → execs client cs u = (sent <$> (execs rp cs u).1, (execs rp cs u).2)
  | Err e => remoteFactory dialErr impl cfg (b, w) = (Err (arrived e), (b, w'))
  | Panic => remoteFactory dialErr impl cfg (b, w) = (Panic, (b, w'))
  end.
Proof.
  intros Hc. pose proof (factory_remote toConfig fromConfig toInfo fromInfo remote dialErr impl cfg b w (ocr3_config_roundtrip cfg Hc)) as Hf.
  rewrite /remoteFactory. destruct (impl cfg w) as [[[rp rpi]|e|] w']; [|exact Hf..]. intros Hi Ht.
  exists (remote rp). rewrite Hf ocr3_info_roundtrip //. split; [done|]. intros cs u Hcs. by apply ocr3_execs_remote.
Qed.
End plugin.

(** *** A witness *)

#[local] Existing Instance RemoteErrors.grpcStatus.

(** A plugin that counts its calls, and refuses to close. *)
Definition demoPlugin : Plugin (W:=nat) := λ c w,
  match c with
  | Close => (Err (EText "busy"), S w)
  | Reports _ _ => (Ok (AReports [mkRP (mkRI [x01] []) (Some (mkTS [3%Z; 255%Z] [5%Z]))]), S w)
  | ObservationQuorum _ _ aos => (Ok (ABool (bool_decide (2 < length aos))), S w)
  | _ => (Ok (ABytes (replicate w x00)), S w)
  end.
Definition demoInfo : PluginInfo := mkInfo "demo" 10 20 30 40 50.
Definition demoConfig : Config := mkConfig (replicate 32 x00) 7 4 1 [] [] 1 2 3 4 5.
Definition demoFactory (cfg : Config) (w : nat) := (Ok (demoPlugin, demoInfo) : outcome error _, S w).

Lemma demo_typed c : typed (demoPlugin c) answerOK.
Proof.
  intros w a w'. destruct c; cbn; intros [= <- <-]; try done. constructor; [|constructor]. split; [by repeat constructor|by repeat constructor].
Qed.

Lemma ocr3_behind_rpc_witness :
  configOK demoConfig ∧ ∃ client,
    remoteFactory (EText "dial") demoFactory demoConfig ([], 0) = (Ok (client, demoInfo), ([demoPlugin], 1)) ∧
    (execs client [Query (mkOC 1 [] 1 1); Close] 0).1 = [Ok (ABytes []); Err (EStatus Unknown "busy")].
Proof.
  assert (configOK demoConfig) as Hc by (split_and!; [done|done|done|done|by repeat constructor]). split; [exact Hc|].
  destruct (ocr3_behind_rpc (EText "dial") demoFactory demoConfig [] 0 Hc) as (client & H1 & H2); [by repeat constructor|exact demo_typed|].
  exists client. split; [exact H1|]. rewrite H2; [vm_compute; reflexivity|by repeat constructor].
Defined.
End OCR3RPC.
