(* ===== verification/OCR2RPC.v ===== *)
(** [src/pkg/loop/internal/core/services/reportingplugin/ocr2/reporting.go]:
    OCR2 reporting plugins behind gRPC, in the same way as those of OCR3, with
    the conversions of [src/pkg/loop/internal/pb/utils.go] for timestamps. *)

From S2P Require Import Prelude GoBytes GoStrings RemoteErrors ReportingRPC.

Module OCR2RPC.
Import RemoteErrors.RemoteErrors ReportingRPC.ReportingRPC.

(** Digests have 32 bytes, epochs are uint32, rounds uint8; on the wire rounds
    are uint32. *)
Record ReportTimestamp := mkTimestamp { ConfigDigest : list byte; Epoch : Z; Round : Z }.

Definition ReportTimestampToPb (ts : ReportTimestamp) : ReportTimestamp := mkTimestamp (ConfigDigest ts) (Epoch ts) (wrapU 32 (Round ts)).
Definition ReportTimestampFromPb (ts : ReportTimestamp) : outcome error ReportTimestamp :=
  if decide (length (ConfigDigest ts) ≠ 32) then Err (ErrConfigDigestLen (length (ConfigDigest ts)))
  else if decide (255 < Round ts)%Z then Err (ErrUint8Bounds "Round" (Round ts))
  else Ok (mkTimestamp (ConfigDigest ts) (Epoch ts) (wrapU 8 (Round ts))).

(** The calls of [libocr.ReportingPlugin]. *)
Inductive call :=
  | Query (ts : ReportTimestamp)
  | Observation (ts : ReportTimestamp) (query : list byte)
  | Report (ts : ReportTimestamp) (query : list byte) (obs : list AttributedObservation)
  | ShouldAcceptFinalizedReport (ts : ReportTimestamp) (report : list byte)
  | ShouldTransmitAcceptedReport (ts : ReportTimestamp) (report : list byte)
  | Close.

Inductive answer := ABytes (b : list byte) | ABool (b : bool) | AReport (shouldReport : bool) (report : list byte) | ANone.

Inductive request :=
  | QueryRequest (ts : ReportTimestamp)
  | ObservationRequest (ts : ReportTimestamp) (query : list byte)
  | ReportRequest (ts : ReportTimestamp) (query : list byte) (obs : list pbAO)
  | ShouldAcceptRequest (ts : ReportTimestamp) (report : list byte)
  | ShouldTransmitRequest (ts : ReportTimestamp) (report : list byte)
  | CloseRequest.

Record Config := mkConfig {
  cfgDigest : list byte; OracleID : Z; N : Z; F : Z; OnchainConfig : list byte; OffchainConfig : list byte;
  EstimatedRoundInterval : Z; MaxDurationQuery : Z; MaxDurationObservation : Z; MaxDurationReport : Z;
  MaxDurationShouldAcceptFinalizedReport : Z; MaxDurationShouldTransmitAcceptedReport : Z
}.
Record PluginInfo := mkInfo { Name : string; UniqueReports : bool; MaxQueryLength : Z; MaxObservationLength : Z; MaxReportLength : Z }.

Definition configWith (fid fint fdur : Z → Z) (c : Config) : Config :=
  mkConfig (cfgDigest c) (fid (OracleID c)) (fint (N c)) (fint (F c)) (OnchainConfig c) (OffchainConfig c)
    (fdur (EstimatedRoundInterval c)) (fdur (MaxDurationQuery c)) (fdur (MaxDurationObservation c)) (fdur (MaxDurationReport c))
    (fdur (MaxDurationShouldAcceptFinalizedReport c)) (fdur (MaxDurationShouldTransmitAcceptedReport c)).
Definition toConfig : Config → Config := configWith (wrapU 32) (wrapU 32) (wrapS 64).
Definition fromConfig (c : Config) : outcome error Config :=
  if decide (length (cfgDigest c) ≠ 32) then Err (ErrConfigDigestLen (length (cfgDigest c)))
  else Ok (configWith (wrapU 8) (wrapS 64) (wrapS 64) c).

Definition limitsWith (f : Z → Z) (i : PluginInfo) : PluginInfo :=
  mkInfo (Name i) (UniqueReports i) (f (MaxQueryLength i)) (f (MaxObservationLength i)) (f (MaxReportLength i)).
Definition toInfo : PluginInfo → PluginInfo := limitsWith (wrapU 64).
Definition fromInfo : PluginInfo → PluginInfo := limitsWith (wrapS 64).

Section plugin.
Context `{GRPCStatus} {W : Type}.

Definition Plugin : Type := call → M (W:=W) answer.

(** The methods of [reportingPluginServer]. *)
Definition server (impl : Plugin) (req : request) : M (W:=W) answer :=
  match req with
  | QueryRequest ts => checked (ReportTimestampFromPb ts) (λ rts, impl (Query rts))
  | ObservationRequest ts query => checked (ReportTimestampFromPb ts) (λ rts, impl (Observation rts query))
  | ReportRequest ts query pbos =>
      checked (ReportTimestampFromPb ts) (λ rts, checked (attributedObservations pbos) (λ obs, impl (Report rts query obs)))
  | ShouldAcceptRequest ts report => checked (ReportTimestampFromPb ts) (λ rts, impl (ShouldAcceptFinalizedReport rts report))
  | ShouldTransmitRequest ts report => checked (ReportTimestampFromPb ts) (λ rts, impl (ShouldTransmitAcceptedReport rts report))
  | CloseRequest => impl Close
  end.

(** The methods of [reportingPluginClient]. *)
Definition client (grpc : request → M (W:=W) answer) (c : call) : M (W:=W) answer :=
  match c with
  | Query ts => grpc (QueryRequest (ReportTimestampToPb ts))
  | Observation ts query => grpc (ObservationRequest (ReportTimestampToPb ts) query)
  | Report ts query obs => grpc (ReportRequest (ReportTimestampToPb ts) query (pbAttributedObservations obs))
  | ShouldAcceptFinalizedReport ts report => grpc (ShouldAcceptRequest (ReportTimestampToPb ts) report)
  | ShouldTransmitAcceptedReport ts report => grpc (ShouldTransmitRequest (ReportTimestampToPb ts) report)
  | Close => grpc CloseRequest
  end.

Definition remote (impl : Plugin) : Plugin := client (λ req, over (server impl req)).

Definition timestampOK (ts : ReportTimestamp) : Prop := length (ConfigDigest ts) = 32 ∧ inU 8 (Round ts).
Definition callOK (c : call) : Prop :=
  match c with
  | Query ts | Observation ts _ | ShouldAcceptFinalizedReport ts _ | ShouldTransmitAcceptedReport ts _ => timestampOK ts
  | Report ts _ obs => timestampOK ts ∧ Forall aoOK obs
  | Close => True
  end.

Lemma timestamp_roundtrip ts : timestampOK ts → ReportTimestampFromPb (ReportTimestampToPb ts) = Ok ts.
Proof.
  intros [Hd Hr]. rewrite /ReportTimestampFromPb /ReportTimestampToPb /=. rewrite (wrapU_small 32); [|unfold inU in *; lia].
  rewrite decide_False; [|lia]. rewrite decide_False; [|unfold inU in Hr; lia]. rewrite wrapU_small //. by destruct ts.
Qed.

Lemma ocr2_remote_call impl c : callOK c → behindRPC impl (remote impl) c.
Proof.
  intros Hc w. destruct c as [ts|ts query|ts query obs|ts report|ts report|]; cbn [remote client server]; rewrite /over /checked /=; cbn in Hc;
    rewrite ?timestamp_roundtrip //; try (by destruct Hc).
  1,2,4,5,6: by destruct (impl _ w).
  destruct Hc as [Ht Ho]. rewrite aos_roundtrip //. by destruct (impl _ w).
Qed.

Lemma ocr2_execs_remote impl cs w : Forall callOK cs → execs (remote impl) cs w = (sent <$> (execs impl cs w).1, (execs impl cs w).2).
Proof. intros Hc. apply execs_behindRPC. eapply Forall_impl; [exact Hc|]. intros c Hok. by apply ocr2_remote_call. Qed.

Definition configOK (c : Config) : Prop :=
  length (cfgDigest c) = 32 ∧ inU 8 (OracleID c) ∧ inU 32 (N c) ∧ inU 32 (F c) ∧
  Forall (inS 64) [EstimatedRoundInterval c; MaxDurationQuery c; MaxDurationObservation c; MaxDurationReport c;
                   MaxDurationShouldAcceptFinalizedReport c; MaxDurationShouldTransmitAcceptedReport c].
Definition infoOK (i : PluginInfo) : Prop := Forall (inS 64) [MaxQueryLength i; MaxObservationLength i; MaxReportLength i].

Lemma ocr2_config_roundtrip c : configOK c → fromConfig (toConfig c) = Ok c.
Proof.
  intros (Hd & Ho & Hn & Hf & Hds). rewrite !Forall_cons in Hds. destruct Hds as (H1 & H2 & H3 & H4 & H5 & H6 & _). rewrite /fromConfig /toConfig /configWith /=.
  rewrite decide_False; [|lia]. rewrite !wrapS_wrapS // !(wrapS_small 64) // ?(wrapU_small 32) // ?wrapU_small //; unfold inU, inS in *; try lia. by destruct c.
Qed.

Lemma ocr2_info_roundtrip i : infoOK i → fromInfo (toInfo i) = i.
Proof. rewrite /infoOK !Forall_cons. intros (H1 & H2 & H3 & _). rewrite /fromInfo /toInfo /limitsWith /=. rewrite !wrapS_wrapU // !wrapS_small //. by destruct i. Qed.

Definition remoteFactory (dialErr : error) (impl : Factory (W:=W) (Cfg:=Config) (Info:=PluginInfo) (P:=Plugin)) :=
  clientNewReportingPlugin toConfig fromInfo remote dialErr (serverNewReportingPlugin fromConfig toInfo impl None).

(** An OCR2 plugin behind gRPC, likewise. *)
Lemma ocr2_behind_rpc dialErr impl cfg b w : configOK cfg →
  let '(r, w') := impl cfg w in
  match r with
  | Ok (rp, rpi) =>
      infoOK rpi → ∃ client, remoteFactory dialErr impl cfg (b, w) = (Ok (client, rpi), (b ++ [rp], w')) ∧
        ∀ cs u, Forall callOK cs → execs client cs u = (sent <$> (execs rp cs u).1, (execs rp cs u).2)
  | Err e => remoteFactory dialErr impl cfg (b, w) = (Err (arrived e), (b, w'))
  | Panic => remoteFactory dialErr impl cfg (b, w) = (Panic, (b, w'))
  end.
Proof.
  intros Hc. pose proof (factory_remote toConfig fromConfig toInfo fromInfo remote dialErr impl cfg b w (ocr2_config_roundtrip cfg Hc)) as Hf.
  rewrite /remoteFactory. destruct (impl cfg w) as [[[rp rpi]|e|] w']; [|exact Hf..]. intros Hi.
  exists (remote rp). rewrite Hf ocr2_info_roundtrip //. split; [done|]. intros cs u Hcs. by apply ocr2_execs_remote.
Qed.
End plugin.
End OCR2RPC.
