(* ===== verification/ProviderRPC.v ===== *)
(** [src/pkg/loop/internal/relayer/pluginprovider/ocr2/config.go,
    contract_transmitter.go] and [ocr3/contract_transmitter.go]: the digester,
    the tracker and the transmitters of a plugin provider behind gRPC.

    A provider is the function from the calls of these interfaces to their
    answers; the fields that a client fills before it returns an error are left
    out.  The tracker's [Notify] is nil on the client: nothing comes of it. *)

From S2P Require Import Prelude GoBytes GoStrings RemoteErrors ReportingRPC OCR2RPC.

Module ProviderRPC.
Import RemoteErrors.RemoteErrors ReportingRPC.ReportingRPC.

(** [libocr.ContractConfig], where [F] is a uint8, and its message, where it is
    a uint32. *)
Record ContractConfig := mkContractConfig {
  ccDigest : list byte; ConfigCount : Z; Signers : list (list byte); Transmitters : list string; F : Z;
  OnchainConfig : list byte; OffchainConfigVersion : Z; OffchainConfig : list byte
}.
Definition withF (digest : list byte) (f : Z) (cc : ContractConfig) : ContractConfig :=
  mkContractConfig digest (ConfigCount cc) (Signers cc) (Transmitters cc) f (OnchainConfig cc) (OffchainConfigVersion cc) (OffchainConfig cc).

Definition pbContractConfig (cc : ContractConfig) : ContractConfig := withF (ccDigest cc) (wrapU 32 (F cc)) cc.

(** [copy] into a zero array of 32 bytes. *)
Definition copy32 (src : list byte) : list byte := take 32 src ++ replicate (32 - length src) x00.

Definition checkDigest (digest : list byte) : outcome error (list byte) :=
  if decide (length digest ≠ 32) then Err (ErrConfigDigestLen (length digest)) else Ok digest.

(** The configuration as [offchainConfigDigesterServer.ConfigDigest] reads it,
    and as [contractConfigTrackerClient.LatestConfig] does. *)
Definition digesterConfig (cc : ContractConfig) : outcome error ContractConfig :=
  if decide (255 < F cc)%Z then Err (ErrUint8Bounds "F" (F cc)) else Ok (withF (copy32 (ccDigest cc)) (wrapU 8 (F cc)) cc).
Definition trackerConfig (cc : ContractConfig) : outcome error ContractConfig :=
  let? digest := checkDigest (ccDigest cc) in
  if decide (255 < F cc)%Z then Err (ErrUint8Bounds "F" (F cc)) else Ok (withF digest (wrapU 8 (F cc)) cc).

(** Signatures with their signers, uint8, in messages uint32. *)
Record AttributedOnchainSignature := mkSignature { Signature : list byte; Signer : Z }.
Definition pbSignature (s : AttributedOnchainSignature) : AttributedOnchainSignature := mkSignature (Signature s) (wrapU 32 (Signer s)).
Definition fromPbSignature (s : AttributedOnchainSignature) : outcome error AttributedOnchainSignature :=
  if decide (255 < Signer s)%Z then Err (ErrUint8Bounds "Signer" (Signer s)) else Ok (mkSignature (Signature s) (wrapU 8 (Signer s))).

Record ReportContext := mkContext { timestamp : OCR2RPC.ReportTimestamp; ExtraHash : list byte }.
Definition pbReportContext (rc : ReportContext) : ReportContext := mkContext (OCR2RPC.ReportTimestampToPb (timestamp rc)) (ExtraHash rc).
Definition fromPbReportContext (rc : ReportContext) : outcome error ReportContext :=
  let? ts := OCR2RPC.ReportTimestampFromPb (timestamp rc) in
  if decide (length (ExtraHash rc) ≠ 32) then Err (EText ("invalid ExtraHash len " ++ Itoa (Z.of_nat (length (ExtraHash rc))) ++ "; must be 32")%string)
  else Ok (mkContext ts (ExtraHash rc)).

Record ReportWithInfo := mkReport { Report : list byte; Info : list byte }.

(** *** Calls *)

Inductive call :=
  | ConfigDigest (config : ContractConfig)
  | ConfigDigestPrefix
  | LatestConfigDetails
  | LatestConfig (changedInBlock : Z)
  | LatestBlockHeight
  | Transmit (rc : ReportContext) (report : list byte) (signatures : list AttributedOnchainSignature)
  | LatestConfigDigestAndEpoch
  | FromAccount
  | TransmitOCR3 (configDigest : list byte) (seqNr : Z) (reportWithInfo : ReportWithInfo) (signatures : list AttributedOnchainSignature).

Inductive answer :=
  | ADigest (digest : list byte)
  | APrefix (p : Z)                                   (* uint16 *)
  | ADetails (changedInBlock : Z) (digest : list byte)
  | AConfig (cc : ContractConfig)
  | AHeight (height : Z)
  | AEpoch (digest : list byte) (epoch : Z)
  | AAccount (account : string)
  | ANone.

Inductive request :=
  | ConfigDigestRequest (config : ContractConfig)
  | ConfigDigestPrefixRequest
  | LatestConfigDetailsRequest
  | LatestConfigRequest (changedInBlock : Z)
  | LatestBlockHeightRequest
  | TransmitRequest (rc : ReportContext) (report : list byte) (signatures : list AttributedOnchainSignature)
  | LatestConfigDigestAndEpochRequest
  | FromAccountRequest
  | TransmitOCR3Request (configDigest : list byte) (seqNr : Z) (reportWithInfo : option ReportWithInfo) (signatures : list AttributedOnchainSignature).

Section provider.
Context `{GRPCStatus} {W : Type}.

Definition Provider : Type := call → M (W:=W) answer.

(** What a client makes of a reply. *)
Definition received {A B} (f : A → outcome error B) (m : M (W:=W) A) : M (W:=W) B := λ w, let '(r, w) := m w in ((let? a := r in f a), w).

(** The servers; the methods that are not here pass the answer on. *)
Definition serverConfigDigest (impl : Provider) (cc : ContractConfig) : M (W:=W) answer := checked (digesterConfig cc) (λ cc, impl (ConfigDigest cc)).
Definition serverConfigDigestPrefix (impl : Provider) : M (W:=W) answer :=
  reply (λ a, match a with APrefix p => APrefix (wrapU 32 p) | a => a end) (impl ConfigDigestPrefix).
Definition serverLatestConfig (impl : Provider) (changedInBlock : Z) : M (W:=W) answer :=
  reply (λ a, match a with AConfig cc => AConfig (pbContractConfig cc) | a => a end) (impl (LatestConfig changedInBlock)).
Definition serverTransmit (impl : Provider) (rc : ReportContext) (report : list byte) (sigs : list AttributedOnchainSignature) : M (W:=W) answer :=
  checked (fromPbReportContext rc) (λ rc, checked (omapM fromPbSignature sigs) (λ sigs, impl (Transmit rc report sigs))).
Definition serverTransmitOCR3 (impl : Provider) (digest : list byte) (seqNr : Z) (ri : option ReportWithInfo) (sigs : list AttributedOnchainSignature) : M (W:=W) answer :=
  checked (checkDigest digest) (λ cd, checked (omapM fromPbSignature sigs) (λ sigs, impl (TransmitOCR3 cd seqNr (default (mkReport [] []) ri) sigs))).

Definition server (impl : Provider) (req : request) : M (W:=W) answer :=
  match req with
  | ConfigDigestRequest cc => serverConfigDigest impl cc
  | ConfigDigestPrefixRequest => serverConfigDigestPrefix impl
  | LatestConfigDetailsRequest => impl LatestConfigDetails
  | LatestConfigRequest b => serverLatestConfig impl b
  | LatestBlockHeightRequest => impl LatestBlockHeight
  | TransmitRequest rc report sigs => serverTransmit impl rc report sigs
  | LatestConfigDigestAndEpochRequest => impl LatestConfigDigestAndEpoch
  | FromAccountRequest => impl FromAccount
  | TransmitOCR3Request digest seqNr ri sigs => serverTransmitOCR3 impl digest seqNr ri sigs
  end.

(** The clients. *)
Definition Conn : Type := request → M (W:=W) answer.
Definition clientConfigDigest (grpc : Conn) (cc : ContractConfig) : M (W:=W) answer :=
  received (λ a, match a with ADigest d => let? d := checkDigest d in Ok (ADigest d) | a => Ok a end) (grpc (ConfigDigestRequest (pbContractConfig cc))).
Definition clientConfigDigestPrefix (grpc : Conn) : M (W:=W) answer :=
  reply (λ a, match a with APrefix p => APrefix (wrapU 16 p) | a => a end) (grpc ConfigDigestPrefixRequest).
Definition clientLatestConfigDetails (grpc : Conn) : M (W:=W) answer :=
  received (λ a, match a with ADetails b d => let? d := checkDigest d in Ok (ADetails b d) | a => Ok a end) (grpc LatestConfigDetailsRequest).
Definition clientLatestConfig (grpc : Conn) (changedInBlock : Z) : M (W:=W) answer :=
  received (λ a, match a with AConfig cc => let? cc := trackerConfig cc in Ok (AConfig cc) | a => Ok a end) (grpc (LatestConfigRequest changedInBlock)).
Definition clientTransmit (grpc : Conn) (rc : ReportContext) (report : list byte) (sigs : list AttributedOnchainSignature) : M (W:=W) answer :=
  grpc (TransmitRequest (pbReportContext rc) report (pbSignature <$> sigs)).
Definition clientLatestConfigDigestAndEpoch (grpc : Conn) : M (W:=W) answer :=
  received (λ a, match a with AEpoch d e => let? d := checkDigest d in Ok (AEpoch d e) | a => Ok a end) (grpc LatestConfigDigestAndEpochRequest).
Definition clientTransmitOCR3 (grpc : Conn) (digest : list byte) (seqNr : Z) (ri : ReportWithInfo) (sigs : list AttributedOnchainSignature) : M (W:=W) answer :=
  grpc (TransmitOCR3Request digest seqNr (Some (mkReport (Report ri) (Info ri))) (pbSignature <$> sigs)).

Definition client (grpc : Conn) (c : call) : M (W:=W) answer :=
  match c with
  | ConfigDigest cc => clientConfigDigest grpc cc
  | ConfigDigestPrefix => clientConfigDigestPrefix grpc
  | LatestConfigDetails => clientLatestConfigDetails grpc
  | LatestConfig b => clientLatestConfig grpc b
  | LatestBlockHeight => grpc LatestBlockHeightRequest
  | Transmit rc report sigs => clientTransmit grpc rc report sigs
  | LatestConfigDigestAndEpoch => clientLatestConfigDigestAndEpoch grpc
  | FromAccount => grpc FromAccountRequest
  | TransmitOCR3 digest seqNr ri sigs => clientTransmitOCR3 grpc digest seqNr ri sigs
  end.

Definition remote (impl : Provider) : Provider := client (λ req, over (server impl req)).

(** *** Facts *)

Definition configOK (cc : ContractConfig) : Prop := length (ccDigest cc) = 32 ∧ inU 8 (F cc).
Definition signaturesOK (sigs : list AttributedOnchainSignature) : Prop := Forall (λ s, inU 8 (Signer s)) sigs.
Definition contextOK (rc : ReportContext) : Prop := OCR2RPC.timestampOK (timestamp rc) ∧ length (ExtraHash rc) = 32.

(** Values that the Go types can hold. *)
Definition callOK (c : call) : Prop :=
  match c with
  | ConfigDigest cc => configOK cc
  | Transmit rc _ sigs => contextOK rc ∧ signaturesOK sigs
  | TransmitOCR3 digest _ _ sigs => length digest = 32 ∧ signaturesOK sigs
  | _ => True
  end.
Definition answerOK (a : answer) : Prop :=
  match a with
  | ADigest d | ADetails _ d | AEpoch d _ => length d = 32
  | APrefix p => inU 16 p
  | AConfig cc => configOK cc
  | _ => True
  end.

Lemma checkDigest_ok d : length d = 32 → checkDigest d = Ok d.
Proof. intros Hl. rewrite /checkDigest decide_False //. lia. Qed.

Lemma copy32_id d : length d = 32 → copy32 d = d.
Proof. intros Hl. rewrite /copy32 Hl /= app_nil_r. by rewrite -Hl firstn_all. Qed.

Lemma config_there cc : configOK cc → digesterConfig (pbContractConfig cc) = Ok cc ∧ trackerConfig (pbContractConfig cc) = Ok cc.
Proof.
  intros [Hd Hf]. rewrite /digesterConfig /trackerConfig /=. unfold inU in Hf. assert (wrapU 32 (F cc) = F cc) as -> by (apply wrapU_small; rewrite /inU; lia).
  rewrite checkDigest_ok //=. rewrite !decide_False; [|lia..]. rewrite copy32_id // wrapU_small //. by destruct cc.
Qed.

Lemma signatures_there sigs : signaturesOK sigs → omapM fromPbSignature (pbSignature <$> sigs) = Ok sigs.
Proof.
  intros Hs. apply omapM_Forall2. rewrite Forall2_fmap_l. induction Hs as [|[s n] sigs Hs _ IH]; constructor; [|done]. cbn in Hs. unfold inU in Hs.
  rewrite /fromPbSignature /=. assert (wrapU 32 n = n) as -> by (apply wrapU_small; rewrite /inU; lia). rewrite decide_False; [|lia]. by rewrite wrapU_small.
Qed.

Lemma context_there rc : contextOK rc → fromPbReportContext (pbReportContext rc) = Ok rc.
Proof.
  intros [Ht Hx]. rewrite /fromPbReportContext /= OCR2RPC.timestamp_roundtrip //=. rewrite decide_False; [|lia]. by destruct rc.
Qed.

Lemma provider_remote_call impl c : callOK c → typed (impl c) answerOK → behindRPC impl (remote impl) c.
Proof.
  intros Hc Ht w. specialize (Ht w). destruct c as [cc| | |b| |rc report sigs| | |digest seqNr ri sigs]; cbn [remote client server];
    rewrite /clientConfigDigest /clientConfigDigestPrefix /clientLatestConfigDetails /clientLatestConfig /clientTransmit /clientLatestConfigDigestAndEpoch /clientTransmitOCR3;
    cbn [server]; rewrite /serverConfigDigest /serverConfigDigestPrefix /serverLatestConfig /serverTransmit /serverTransmitOCR3;
    rewrite /received /over /reply /checked /=; cbn in Hc.
  - destruct (config_there cc Hc) as [-> _]. destruct (impl (ConfigDigest cc) w) as [[a|e|] w'] eqn:E; [|done..]. specialize (Ht a w' eq_refl).
    destruct a; cbn in *; rewrite ?checkDigest_ok //.
  - destruct (impl ConfigDigestPrefix w) as [[a|e|] w'] eqn:E; [|done..]. specialize (Ht a w' eq_refl). destruct a; cbn in *; try done.
    rewrite (wrapU_small 32); [|unfold inU in *; lia]. by rewrite wrapU_small.
  - destruct (impl LatestConfigDetails w) as [[a|e|] w'] eqn:E; [|done..]. specialize (Ht a w' eq_refl). destruct a; cbn in *; rewrite ?checkDigest_ok //.
  - destruct (impl (LatestConfig b) w) as [[a|e|] w'] eqn:E; [|done..]. specialize (Ht a w' eq_refl). destruct a; cbn in *; try done.
    by destruct (config_there cc Ht) as [_ ->].
  - by destruct (impl _ w).
  - destruct Hc as [Hrc Hs]. rewrite context_there // signatures_there //. by destruct (impl _ w).
  - destruct (impl LatestConfigDigestAndEpoch w) as [[a|e|] w'] eqn:E; [|done..]. specialize (Ht a w' eq_refl). destruct a; cbn in *; rewrite ?checkDigest_ok //.
  - by destruct (impl _ w).
  - destruct Hc as [Hd Hs]. rewrite checkDigest_ok // signatures_there //. destruct ri. by destruct (impl _ w).
Qed.

(** A provider behind gRPC answers every sequence of calls as the provider
    itself does, errors as their statuses: digests, configurations, epochs and
    signers come through unchanged. *)
Lemma provider_behind_rpc impl cs w : Forall callOK cs → (∀ c, typed (impl c) answerOK) →
  execs (remote impl) cs w = (sent <$> (execs impl cs w).1, (execs impl cs w).2).
Proof. intros Hc Ht. apply execs_behindRPC. eapply Forall_impl; [exact Hc|]. intros c Hok. by apply provider_remote_call. Qed.

(** The digester's server does not look at the length of the digest: a short
    one is filled up with zeros, while the tracker's client refuses it. *)
Example short_digest cc : ccDigest cc = [] → F cc = 0%Z → is_ok (digesterConfig cc) = true ∧ trackerConfig cc = Err (ErrConfigDigestLen 0).
Proof. intros Hd Hf. by rewrite /digesterConfig /trackerConfig Hd Hf. Qed.
End provider.
End ProviderRPC.
