(* ===== verification/ContractWriterRPC.v ===== *)
(** [src/pkg/loop/internal/relayer/pluginprovider/contractwriter/contract_writer.go,
    converters.go] and [src/pkg/loop/internal/pb/big.go]: contract writers
    behind gRPC.

    Parameters travel as the versioned bytes of [ContractReader]; the server
    decodes them into a [map[string]any].  An absent big integer or string is
    [None]. *)

From S2P Require Import Prelude GoBytes Values RemoteErrors ContractReader ReportingRPC.

Module ContractWriterRPC.
Import Values.Values ContractReader.ContractReader.
Import RemoteErrors.RemoteErrors ReportingRPC.ReportingRPC.

(** *** Conversions *)

(** [pb.BigInt] *)
Record pbBigInt := mkPbBigInt { Negative : bool; pbValue : list byte }.

Definition NewBigIntFromInt (b : option Z) : option pbBigInt := (λ i, mkPbBigInt (bool_decide (Z.sgn i < 0)%Z) (Values.bigBytes i)) <$> b.
Definition Int (b : option pbBigInt) : option Z :=
  (λ b, let i := be_val (pbValue b) in if Negative b then (- i)%Z else i) <$> b.

Record TxMeta := mkMeta { WorkflowExecutionID : option string; GasLimit : option Z }.
Record pbTxMeta := mkPbMeta { pbWorkflowExecutionId : string; pbGasLimit : option pbBigInt }.

Definition TxMetaToProto (meta : option TxMeta) : option pbTxMeta :=
  (λ meta, mkPbMeta (default "" (WorkflowExecutionID meta)) (NewBigIntFromInt (GasLimit meta))) <$> meta.
Definition TxMetaFromProto (proto : option pbTxMeta) : option TxMeta :=
  (λ proto, mkMeta (if String.eqb (pbWorkflowExecutionId proto) "" then None else Some (pbWorkflowExecutionId proto)) (Int (pbGasLimit proto))) <$> proto.

(** *** Calls *)

Record ChainFeeComponents := mkFees { ExecutionFee : option Z; DataAvailabilityFee : option Z }.

Inductive call :=
  | SubmitTransaction (contractName method : string) (params : any) (transactionID toAddress : string) (meta : option TxMeta) (value : option Z)
  | GetTransactionStatus (transactionID : string)
  | GetFeeComponents.

(** [AFees None] is a nil pointer. *)
Inductive answer := ASubmitted | AStatus (status : Z) | AFees (fees : option ChainFeeComponents).

Inductive request :=
  | SubmitTransactionRequest (contractName method : string) (params : VersionedBytes) (transactionId toAddress : string) (meta : option pbTxMeta) (value : option pbBigInt)
  | GetTransactionStatusRequest (transactionId : string)
  | GetFeeComponentsRequest.

Inductive rep := RSubmitted | RStatus (status : Z) | RFees (executionFee dataAvailabilityFee : option pbBigInt).

Section writer.
Context `{WireFormats} `{GRPCStatus} {W : Type}.

Definition Writer : Type := call → M (W:=W) answer.

(** What becomes of a reply. *)
Definition turned {A B} (f : A → outcome error B) (m : M (W:=W) A) : M (W:=W) B := λ w, let '(r, w) := m w in ((let? a := r in f a), w).

Definition replyOf (a : answer) : outcome error rep :=
  match a with
  | ASubmitted => Ok RSubmitted
  | AStatus status => Ok (RStatus (wrapS 32 status))
  | AFees None => Panic
  | AFees (Some fees) => Ok (RFees (NewBigIntFromInt (ExecutionFee fees)) (NewBigIntFromInt (DataAvailabilityFee fees)))
  end.

(** The methods of [Server]. *)
Definition server (impl : Writer) (req : request) : M (W:=W) rep :=
  match req with
  | SubmitTransactionRequest contractName method params transactionId toAddress meta value =>
      checked (DecodeVersionedBytes (TType mapOfAny) (Some params)) (λ params,
        turned replyOf (impl (SubmitTransaction contractName method params transactionId toAddress (TxMetaFromProto meta) (Int value))))
  | GetTransactionStatusRequest transactionId => turned replyOf (impl (GetTransactionStatus transactionId))
  | GetFeeComponentsRequest => turned replyOf (impl GetFeeComponents)
  end.

Definition answerOf (r : rep) : answer :=
  match r with RSubmitted => ASubmitted | RStatus status => AStatus status | RFees e d => AFees (Some (mkFees (Int e) (Int d))) end.

(** The methods of [Client], which wrap every error of a call. *)
Definition client (encodeWith : Z) (grpc : request → M (W:=W) rep) (c : call) : M (W:=W) answer :=
  let call req := λ w, let '(r, w) := grpc req w in ((let? r := WrapRPC r in Ok (answerOf r)), w) in
  match c with
  | SubmitTransaction contractName method params transactionID toAddress meta value =>
      checked (EncodeVersionedBytes params encodeWith) (λ versionedParams,
        call (SubmitTransactionRequest contractName method versionedParams transactionID toAddress (TxMetaToProto meta) (NewBigIntFromInt value)))
  | GetTransactionStatus transactionID => call (GetTransactionStatusRequest transactionID)
  | GetFeeComponents => call GetFeeComponentsRequest
  end.

Definition remote (encodeWith : Z) (impl : Writer) : Writer := client encodeWith (λ req, ReportingRPC.over (server impl req)).

(** *** Facts *)

Lemma Int_NewBigIntFromInt b : Int (NewBigIntFromInt b) = b.
Proof.
  destruct b as [z|]; [|done]. rewrite /Int /NewBigIntFromInt /=. rewrite Values.be_val_bigBytes. f_equal. case_bool_decide; lia.
Qed.

(** The metadata that arrive: an empty identifier counts as none. *)
Definition arrivedMeta (meta : option TxMeta) : option TxMeta :=
  (λ m, mkMeta (match WorkflowExecutionID m with Some "" => None | i => i end) (GasLimit m)) <$> meta.

Lemma meta_there meta : TxMetaFromProto (TxMetaToProto meta) = arrivedMeta meta.
Proof.
  destruct meta as [[i g]|]; [|done]. rewrite /TxMetaFromProto /TxMetaToProto /arrivedMeta /=. rewrite Int_NewBigIntFromInt. do 2 f_equal.
  destruct i as [[|c s]|]; done.
Qed.

(** The call that the implementation gets for a call of the client. *)
Inductive arrives (encodeWith : Z) : call → call → Prop :=
  | arrives_submit contractName method params params' transactionID toAddress meta value :
      crosses encodeWith params (TType mapOfAny) params' →
      arrives encodeWith (SubmitTransaction contractName method params transactionID toAddress meta value)
        (SubmitTransaction contractName method params' transactionID toAddress (arrivedMeta meta) value)
  | arrives_status transactionID : arrives encodeWith (GetTransactionStatus transactionID) (GetTransactionStatus transactionID)
  | arrives_fees : arrives encodeWith GetFeeComponents GetFeeComponents.

Definition answerOK (a : answer) : Prop := match a with AStatus status => inS 32 status | AFees fees => is_Some fees | ASubmitted => True end.

Definition sentBack (r : outcome error answer) : outcome error answer := map_err remoteError r.

Lemma answer_back a : answerOK a → ∃ r, replyOf a = Ok r ∧ answerOf r = a.
Proof.
  destruct a as [|status|fees]; cbn.
  - by eexists.
  - intros Hs. rewrite wrapS_small //. by eexists.
  - intros [[e d] ->]. eexists. split; [done|]. by rewrite /= !Int_NewBigIntFromInt.
Qed.

Lemma writer_remote_call impl encodeWith c c' w : arrives encodeWith c c' → typed (impl c') answerOK →
  remote encodeWith impl c w = (sentBack (impl c' w).1, (impl c' w).2).
Proof.
  intros Hc Ht. specialize (Ht w).
  assert (∀ r w', impl c' w = (r, w') →
            ((let? r := WrapRPC (map_err arrived (let? a := r in replyOf a)) in Ok (answerOf r)), w') = (sentBack r, w')) as Hback.
  { intros [a|e|] w' E; [|done..]. destruct (answer_back a (Ht a w' E)) as (r & Hr & Ha). by rewrite /= Hr /= Ha. }
  destruct Hc as [contractName method params params' transactionID toAddress meta value (v & He & Hd)|transactionID|]; cbn [remote client server];
    rewrite /ReportingRPC.over /checked /turned.
  - rewrite He Hd meta_there Int_NewBigIntFromInt. destruct (impl _ w) as [r w']. by apply Hback.
  - destruct (impl _ w) as [r w']. by apply Hback.
  - destruct (impl _ w) as [r w']. by apply Hback.
Qed.

(** A contract writer behind gRPC submits the transactions of the writer
    itself, with the parameters decoded into a map, and brings its statuses and
    fees, amounts of either sign; an error is the remote form of its own. *)
Lemma writer_behind_rpc impl encodeWith cs cs' w : Forall2 (arrives encodeWith) cs cs' → (∀ c, typed (impl c) answerOK) →
  execs (remote encodeWith impl) cs w = (sentBack <$> (execs impl cs' w).1, (execs impl cs' w).2).
Proof. intros Hc Ht. apply execs_related. eapply Forall2_impl; [exact Hc|]. intros c c' Ha u. by apply writer_remote_call. Qed.

(** Parameters that cannot be encoded are an error before anything is sent. *)
Lemma unsendable impl encodeWith contractName method params e transactionID toAddress meta value w :
  EncodeVersionedBytes params encodeWith = Err e →
  remote encodeWith impl (SubmitTransaction contractName method params transactionID toAddress meta value) w = (Err e, w).
Proof. intros He. cbn [remote client]. by rewrite /checked He. Qed.
End writer.
End ContractWriterRPC.
