(* ===== verification/Monitoring.v ===== *)
(** [src/pkg/monitoring]: from the sources to the exporters.

    A poller (poller.go) fetches from its source and puts the updates into a
    channel; a feed monitor (feed_monitor.go) has a goroutine for each poller
    that passes the updates on to one loop, which starts an export of each
    update for every exporter, and cleans the exporters up when it ends.  All
    of them stop when one context is cancelled; [exec] is one step of one of
    them.  The manager (manager.go) restarts what it manages when the
    configuration changes. *)

From S2P Require Import Prelude.

Module Monitoring.

Section monitor.
Context {D : Type} (exporters cap : nat).

(** *** The state *)

(** What [executeFetch] comes to: data, [ErrNoUpdate], an error that is
    [context.Canceled], another one, a panic that was recovered. *)
Inductive fetched := FData (d : D) | FNoUpdate | FCanceled | FError | FPanic.

(** The goroutine of [sourcePoller.Run]: in [executeFetch], at the select that
    sends, at the select for the next tick, returned. *)
Inductive ppc := PFetch | PSend (d : D) | PWait | PReturned.

(** A poller with its channel; [got] are the data it fetched. *)
Record poller := mkPoller { pcOf : ppc; buffer : list D; got : list D }.

(** The goroutine for a poller: at the first select, at the second one with an
    update, returned. *)
Inductive lpc := LIdle | LHold (d : D) | LReturned.

(** [feedMonitor.Run]: in the loop, in the first [subs.Wait()], in the one for
    the cleanups, returned. *)
Inductive cpc := CLoop | CWait | CCleanup | CReturned.

(** An update is data with the number of its poller, an export is an update
    with the number of an exporter.  What a goroutine lets go of when it sees
    that the context is done is recorded: by those of the monitor in [dropped],
    by the pollers in [unsent]. *)
Record state := mkState {
  pollers : list poller;
  listeners : list lpc;
  consumer : cpc;
  consumed : list (nat * D);
  exporting : list (nat * (nat * D));
  exported : list (nat * (nat * D));
  cleaning : list nat;
  cleaned : list nat;
  cancelled : bool;
  dropped : list (nat * D);
  unsent : list (nat * D)
}.

Definition setPoller i p s := mkState (<[i:=p]> (pollers s)) (listeners s) (consumer s) (consumed s) (exporting s) (exported s) (cleaning s) (cleaned s) (cancelled s) (dropped s) (unsent s).
Definition setListener i l s := mkState (pollers s) (<[i:=l]> (listeners s)) (consumer s) (consumed s) (exporting s) (exported s) (cleaning s) (cleaned s) (cancelled s) (dropped s) (unsent s).
Definition setConsumer c s := mkState (pollers s) (listeners s) c (consumed s) (exporting s) (exported s) (cleaning s) (cleaned s) (cancelled s) (dropped s) (unsent s).

(** Updates that are let go. *)
Definition dropUpdates i (ds : list D) s :=
  mkState (pollers s) (listeners s) (consumer s) (consumed s) (exporting s) (exported s) (cleaning s) (cleaned s) (cancelled s) (dropped s ++ ((i,.) <$> ds)) (unsent s).
Definition keepUpdates i (ds : list D) s :=
  mkState (pollers s) (listeners s) (consumer s) (consumed s) (exporting s) (exported s) (cleaning s) (cleaned s) (cancelled s) (dropped s) (unsent s ++ ((i,.) <$> ds)).

(** *** Steps *)

(** [Run] after a fetch; the first one is handled like the others. *)
Definition afterFetch (r : fetched) (p : poller) : poller :=
  match r with
  | FData d => mkPoller (PSend d) (buffer p) (got p ++ [d])
  | FCanceled => mkPoller PReturned (buffer p) (got p)
  | FNoUpdate | FError | FPanic => mkPoller PWait (buffer p) (got p)
  end.

(** One update for every exporter. *)
Definition exportsOf (u : nat * D) : list (nat * (nat * D)) := (λ j, (j, u)) <$> seq 0 exporters.

Definition consume (i : nat) (d : D) (s : state) : state :=
  mkState (pollers s) (<[i:=LIdle]> (listeners s)) (consumer s) (consumed s ++ [(i, d)]) (exporting s ++ exportsOf (i, d)) (exported s)
    (cleaning s) (cleaned s) (cancelled s) (dropped s) (unsent s).

Definition isReturned (l : lpc) : bool := match l with LReturned => true | _ => false end.

Inductive event :=
  | EFetched (i : nat) (r : fetched)
  | ESend (i : nat)            (* into the channel's buffer *)
  | EHandOff (i : nat)         (* to the goroutine that waits at the channel *)
  | ETick (i : nat)
  | EPollerStop (i : nat)      (* the poller sees ctx.Done() *)
  | EReceive (i : nat)
  | EListenerStop (i : nat)
  | EConsume (i : nat)
  | EExported (k : nat)        (* the k-th export that is running returns or panics *)
  | EBreak
  | ECleanup                   (* subs.Wait() returns, the cleanups start *)
  | ECleaned (k : nat)
  | EReturn
  | ECancel.

Definition exec (s : state) (e : event) : option state :=
  match e with
  | EFetched i r =>
      p ← pollers s !! i;
      match pcOf p with PFetch => Some (setPoller i (afterFetch r p) s) | _ => None end
  | ESend i =>
      p ← pollers s !! i;
      match pcOf p with
      | PSend d => if decide (length (buffer p) < cap) then Some (setPoller i (mkPoller PWait (buffer p ++ [d]) (got p)) s) else None
      | _ => None
      end
  | EHandOff i =>
      p ← pollers s !! i; l ← listeners s !! i;
      match pcOf p, l, buffer p with
      | PSend d, LIdle, [] => Some (setListener i (LHold d) (setPoller i (mkPoller PWait [] (got p)) s))
      | _, _, _ => None
      end
  | ETick i =>
      p ← pollers s !! i;
      match pcOf p with PWait => Some (setPoller i (mkPoller PFetch (buffer p) (got p)) s) | _ => None end
  | EPollerStop i =>
      p ← pollers s !! i;
      if cancelled s then
        match pcOf p with
        | PSend d => Some (keepUpdates i [d] (setPoller i (mkPoller PReturned (buffer p) (got p)) s))
        | PWait => Some (setPoller i (mkPoller PReturned (buffer p) (got p)) s)
        | _ => None
        end
      else None
  | EReceive i =>
      p ← pollers s !! i; l ← listeners s !! i;
      match l, buffer p with
      | LIdle, d :: rest => Some (setListener i (LHold d) (setPoller i (mkPoller (pcOf p) rest (got p)) s))
      | _, _ => None
      end
  | EListenerStop i =>
      l ← listeners s !! i;
      if cancelled s then
        match l with
        | LIdle => Some (setListener i LReturned s)
        | LHold d => Some (dropUpdates i [d] (setListener i LReturned s))
        | LReturned => None
        end
      else None
  | EConsume i =>
      l ← listeners s !! i;
      match l, consumer s with LHold d, CLoop => Some (consume i d s) | _, _ => None end
  | EExported k =>
      x ← exporting s !! k;
      Some (mkState (pollers s) (listeners s) (consumer s) (consumed s) (delete k (exporting s)) (x :: exported s) (cleaning s) (cleaned s) (cancelled s) (dropped s) (unsent s))
  | EBreak => match consumer s with CLoop => if cancelled s then Some (setConsumer CWait s) else None | _ => None end
  | ECleanup =>
      match consumer s with
      | CWait =>
          if decide (exporting s = []) then
            if forallb isReturned (listeners s) then
              Some (mkState (pollers s) (listeners s) CCleanup (consumed s) [] (exported s) (seq 0 exporters) (seq 0 exporters) (cancelled s) (dropped s) (unsent s))
            else None
          else None
      | _ => None
      end
  | ECleaned k =>
      if decide (k < length (cleaning s)) then
        Some (mkState (pollers s) (listeners s) (consumer s) (consumed s) (exporting s) (exported s) (delete k (cleaning s)) (cleaned s) (cancelled s) (dropped s) (unsent s))
      else None
  | EReturn => match consumer s, cleaning s with CCleanup, [] => Some (setConsumer CReturned s) | _, _ => None end
  | ECancel =>
      Some (mkState (pollers s) (listeners s) (consumer s) (consumed s) (exporting s) (exported s) (cleaning s) (cleaned s) true (dropped s) (unsent s))
  end.

(** [n] pollers that have just been started. *)
Definition initial (n : nat) : state :=
  mkState (replicate n (mkPoller PFetch [] [])) (replicate n LIdle) CLoop [] [] [] [] [] false [] [].

Inductive reachable (n : nat) : state → Prop :=
  | reach_init : reachable n (initial n)
  | reach_step s e s' : reachable n s → exec s e = Some s' → reachable n s'.

Definition execs (s : state) (es : list event) : option state := foldl (λ s e, s ≫= λ s, exec s e) (Some s) es.

(** *** The invariant *)

Definition held (l : lpc) : list D := match l with LHold d => [d] | _ => [] end.
Definition pending (p : ppc) : list D := match p with PSend d => [d] | _ => [] end.
(** The updates of one poller. *)
Definition of_ (i : nat) (us : list (nat * D)) : list D := (filter (λ u, u.1 = i) us).*2.

(** Only a goroutine that has returned has let go of an update, one at most. *)
Definition letGo (s : state) (i : nat) (returned : bool) (ds : list D) : Prop := ds = [] ∨ length ds = 1 ∧ returned = true ∧ cancelled s = true.
Definition pReturned (p : ppc) : bool := match p with PReturned => true | _ => false end.

Definition flows (s : state) (i : nat) : Prop :=
  ∃ p l, pollers s !! i = Some p ∧ listeners s !! i = Some l ∧
    got p = of_ i (consumed s) ++ of_ i (dropped s) ++ held l ++ buffer p ++ pending (pcOf p) ++ of_ i (unsent s) ∧
    letGo s i (isReturned l) (of_ i (dropped s)) ∧ letGo s i (pReturned (pcOf p)) (of_ i (unsent s)).

Definition ended (s : state) : Prop :=
  exporting s = [] ∧ Forall (λ l, isReturned l = true) (listeners s) ∧ cleaned s = seq 0 exporters ∧ cancelled s = true.

Record inv (n : nat) (s : state) : Prop := {
  inv_pollers : length (pollers s) = n;
  inv_listeners : length (listeners s) = n;
  inv_flows : ∀ i, i < n → flows s i;
  inv_exports : exporting s ++ exported s ≡ₚ consumed s ≫= exportsOf;
  inv_consumer : match consumer s with
                 | CLoop => cleaned s = [] ∧ cleaning s = []
                 | CWait => cleaned s = [] ∧ cleaning s = [] ∧ cancelled s = true
                 | CCleanup => ended s
                 | CReturned => ended s ∧ cleaning s = []
                 end
}.

Lemma of_app i a b : of_ i (a ++ b) = of_ i a ++ of_ i b.
Proof. by rewrite /of_ filter_app fmap_app. Qed.

Lemma of_tag i ds : of_ i ((i,.) <$> ds) = ds.
Proof. induction ds as [|d ds IH]; [done|]. rewrite /of_ fmap_cons filter_cons_True //=. f_equal. exact IH. Qed.

Lemma of_tag_ne i j ds : j ≠ i → of_ j ((i,.) <$> ds) = [].
Proof. intros Hne. induction ds as [|d ds IH]; [done|]. rewrite /of_ fmap_cons filter_cons_False; [exact IH|cbn; congruence]. Qed.

(** A step at poller [i] leaves the flows of the others alone. *)
Lemma flows_at n s s' i :
  (∀ j, j ≠ i → pollers s' !! j = pollers s !! j ∧ listeners s' !! j = listeners s !! j ∧
     of_ j (consumed s') = of_ j (consumed s) ∧ of_ j (dropped s') = of_ j (dropped s) ∧ of_ j (unsent s') = of_ j (unsent s)) → cancelled s' = cancelled s →
  (∀ j, j < n → flows s j) → (i < n → flows s' i) → ∀ j, j < n → flows s' j.
Proof.
  intros Hne Hcan Hs Hi j Hj. destruct (decide (j = i)) as [->|Hji]; [auto|]. destruct (Hne j Hji) as (Hp & Hl & Hc & Hd & Hu).
  rewrite /flows /letGo Hp Hl Hc Hd Hu Hcan. by apply Hs.
Qed.

Lemma not_ended s i l : listeners s !! i = Some l → isReturned l = false → ¬ ended s.
Proof. intros Hi Hr (_ & Hl & _). rewrite ->Forall_lookup in Hl. by rewrite (Hl i l Hi) in Hr. Qed.

(** What a goroutine lets go of in a step: nothing, or one update when it
    returns. *)
Definition letsGo (s : state) (returned : bool) (ds : list D) : Prop := letGo s 0 returned ds.

(** A step that moves data between a poller, its channel and its goroutine, of
    which new ones are fetched ([dsP]) or let go of ([dsD], [dsU]). *)
Lemma inv_carried n s i p p' l l' dsP dsD dsU : inv n s → pollers s !! i = Some p → listeners s !! i = Some l →
  (isReturned l = true → l' = l ∧ dsD = []) → (pReturned (pcOf p) = true → pReturned (pcOf p') = true ∧ dsU = [] ∧ dsP = []) →
  got p' = got p ++ dsP → dsD ++ held l' ++ buffer p' ++ pending (pcOf p') ++ dsU = held l ++ buffer p ++ pending (pcOf p) ++ dsP →
  letsGo s (isReturned l') dsD → letsGo s (pReturned (pcOf p')) dsU →
  inv n (keepUpdates i dsU (dropUpdates i dsD (setListener i l' (setPoller i p' s)))).
Proof.
  intros [Hp Hl Hf He Hc] Hi Hli Hlr Hpr Hg Hb HD HU. pose proof (lookup_lt_Some _ _ _ Hi) as Hlt. rewrite Hp in Hlt. split; cbn; try done.
  - by rewrite length_insert.
  - by rewrite length_insert.
  - apply (flows_at n s _ i); [|done|done|].
    + intros j Hj. cbn [pollers listeners consumed dropped unsent keepUpdates dropUpdates setListener setPoller]. rewrite !list_lookup_insert_ne // !of_app !(of_tag_ne i j) // !app_nil_r. done.
    + intros _. destruct (Hf i Hlt) as (p0 & l0 & Hi' & Hl' & E & Hd & Hu). rewrite Hi in Hi'. rewrite Hli in Hl'. injection Hi' as <-. injection Hl' as <-.
      exists p', l'. cbn [pollers listeners consumed dropped unsent keepUpdates dropUpdates setListener setPoller]. rewrite !list_lookup_insert_eq; [|by rewrite ?Hl ?Hp..]. split; [done|]. split; [done|]. rewrite !of_app !of_tag Hg E.
      assert (isReturned l = false → of_ i (dropped s) = []) as HnD by (intros Hr; destruct Hd as [?|(_ & Hr' & _)]; [done|congruence]).
      assert (pReturned (pcOf p) = false → of_ i (unsent s) = []) as HnU by (intros Hr; destruct Hu as [?|(_ & Hr' & _)]; [done|congruence]).
      assert (letGo s i (isReturned l') (of_ i (dropped s) ++ dsD)) as HA.
      { destruct (isReturned l) eqn:Hr; [destruct (Hlr eq_refl) as [-> ->]; by rewrite Hr app_nil_r|by rewrite (HnD eq_refl)]. }
      assert (letGo s i (pReturned (pcOf p')) (of_ i (unsent s) ++ dsU)) as HB.
      { destruct (pReturned (pcOf p)) eqn:Hr; [destruct (Hpr eq_refl) as (-> & -> & _); by rewrite app_nil_r|by rewrite (HnU eq_refl)]. }
      split; [|by split]. rewrite -!app_assoc. f_equal.
      f_equal. assert (of_ i (unsent s) = [] ∨ dsU = [] ∧ dsP = []) as [->|[-> ->]] by (destruct (pReturned (pcOf p)); [right; by apply Hpr|left; by apply HnU]).
      * by rewrite !app_nil_l Hb.
      * rewrite !app_nil_r in Hb |- *. rewrite !app_assoc. f_equal. by rewrite -!app_assoc Hb.
  - destruct (consumer s); try done.
    + destruct Hc as (Hx & Hall & Hcl & Hcan). split_and!; [done| |done|done]. apply Forall_insert; [done|].
      destruct (isReturned l) eqn:Hr; [by destruct (Hlr eq_refl) as [-> _]|]. rewrite ->Forall_lookup in Hall. by rewrite (Hall i l Hli) in Hr.
    + destruct Hc as [(Hx & Hall & Hcl & Hcan) Hcg]. split; [|done]. split_and!; [done| |done|done]. apply Forall_insert; [done|].
      destruct (isReturned l) eqn:Hr; [by destruct (Hlr eq_refl) as [-> _]|]. rewrite ->Forall_lookup in Hall. by rewrite (Hall i l Hli) in Hr.
Qed.

Lemma keepUpdates_nil i s : keepUpdates i [] s = s.
Proof. destruct s. rewrite /keepUpdates /=. by rewrite app_nil_r. Qed.
Lemma dropUpdates_nil i s : dropUpdates i [] s = s.
Proof. destruct s. rewrite /dropUpdates /=. by rewrite app_nil_r. Qed.
Lemma setListener_id i l p s : listeners s !! i = Some l → setListener i l (setPoller i p s) = setPoller i p s.
Proof. intros Hl. rewrite /setListener /setPoller /=. by rewrite (list_insert_id _ _ _ Hl). Qed.
Lemma setPoller_id i l p s : pollers s !! i = Some p → setListener i l (setPoller i p s) = setListener i l s.
Proof. intros Hp. rewrite /setListener /setPoller /=. by rewrite (list_insert_id _ _ _ Hp). Qed.

(** A step of a poller that has not returned. *)
Lemma inv_poller n s i p p' dsP dsU : inv n s → pollers s !! i = Some p → pReturned (pcOf p) = false →
  got p' = got p ++ dsP → buffer p' ++ pending (pcOf p') ++ dsU = buffer p ++ pending (pcOf p) ++ dsP →
  letsGo s (pReturned (pcOf p')) dsU → inv n (keepUpdates i dsU (setPoller i p' s)).
Proof.
  intros Hinv Hi Hr Hg Hb HU. pose proof Hinv as [Hp Hl _ _ _]. destruct (lookup_lt_is_Some_2 (listeners s) i) as [l Hli]; [rewrite Hl -Hp; by eapply lookup_lt_Some|].
  rewrite -(setListener_id i l p' s Hli) -(dropUpdates_nil i (setListener i l (setPoller i p' s))).
  apply (inv_carried n s i p p' l l dsP [] dsU); try done; [congruence|by rewrite Hb|by left].
Qed.

(** A step of a goroutine of the monitor that has not returned. *)
Lemma inv_listener n s i p p' l l' dsD : inv n s → pollers s !! i = Some p → listeners s !! i = Some l → isReturned l = false →
  pReturned (pcOf p') = pReturned (pcOf p) → got p' = got p →
  dsD ++ held l' ++ buffer p' ++ pending (pcOf p') = held l ++ buffer p ++ pending (pcOf p) → letsGo s (isReturned l') dsD →
  inv n (dropUpdates i dsD (setListener i l' (setPoller i p' s))).
Proof.
  intros Hinv Hi Hli Hr Hpr Hg Hb HD. rewrite -(keepUpdates_nil i (dropUpdates _ _ _)). apply (inv_carried n s i p p' l l' [] dsD []); try done.
  - congruence.
  - by rewrite Hpr.
  - by rewrite app_nil_r.
  - by rewrite !app_nil_r.
  - by left.
Qed.

Lemma monitor_step n s e s' : inv n s → exec s e = Some s' → inv n s'.
Proof.
  intros Hinv. pose proof Hinv as [Hp Hl Hf He Hc]. destruct e as [i r|i|i|i|i|i|i|i|k| | |k| |]; cbn.
  - destruct (pollers s !! i) as [p|] eqn:Hi; [|done]. cbn. destruct (pcOf p) eqn:Hpc; try done. intros [= <-].
    rewrite -(keepUpdates_nil i (setPoller _ _ _)). apply (inv_poller n s i p _ (match r with FData d => [d] | _ => [] end) [] Hinv Hi); rewrite ?Hpc; try done; destruct r; cbn; rewrite ?app_nil_r //; by left.
  - destruct (pollers s !! i) as [p|] eqn:Hi; [|done]. cbn. destruct (pcOf p) as [|d| |] eqn:Hpc; try done. destruct (decide _); [|done]. intros [= <-].
    rewrite -(keepUpdates_nil i (setPoller _ _ _)). apply (inv_poller n s i p _ [] [] Hinv Hi); rewrite ?Hpc /= ?app_nil_r //. by left.
  - destruct (pollers s !! i) as [p|] eqn:Hi; [|done]. cbn. destruct (listeners s !! i) as [l|] eqn:Hli; [|done]. cbn.
    destruct (pcOf p) as [|d| |] eqn:Hpc, l, (buffer p) eqn:Hb; try done. intros [= <-].
    rewrite -(dropUpdates_nil i (setListener _ _ _)). apply (inv_listener n s i p _ LIdle _ [] Hinv Hi Hli); rewrite ?Hpc ?Hb //. by left.
  - destruct (pollers s !! i) as [p|] eqn:Hi; [|done]. cbn. destruct (pcOf p) as [|d| |] eqn:Hpc; try done. intros [= <-].
    rewrite -(keepUpdates_nil i (setPoller _ _ _)). apply (inv_poller n s i p _ [] [] Hinv Hi); rewrite ?Hpc /= ?app_nil_r //. by left.
  - destruct (pollers s !! i) as [p|] eqn:Hi; [|done]. cbn. destruct (cancelled s) eqn:Hcan; [|done]. destruct (pcOf p) as [|d| |] eqn:Hpc; try done; intros [= <-].
    + apply (inv_poller n s i p _ [] [d] Hinv Hi); rewrite ?Hpc /= ?app_nil_r //. by right.
    + rewrite -(keepUpdates_nil i (setPoller _ _ _)). apply (inv_poller n s i p _ [] [] Hinv Hi); rewrite ?Hpc /= ?app_nil_r //. by left.
  - destruct (pollers s !! i) as [p|] eqn:Hi; [|done]. cbn. destruct (listeners s !! i) as [l|] eqn:Hli; [|done]. cbn.
    destruct l, (buffer p) as [|d0 rest] eqn:Hb; try done. intros [= <-].
    rewrite -(dropUpdates_nil i (setListener _ _ _)). apply (inv_listener n s i p _ LIdle _ [] Hinv Hi Hli); rewrite ?Hb //. by left.
  - destruct (listeners s !! i) as [l|] eqn:Hli; [|done]. cbn. destruct (cancelled s) eqn:Hcan; [|done].
    destruct (lookup_lt_is_Some_2 (pollers s) i) as [p Hi]; [rewrite Hp -Hl; by eapply lookup_lt_Some|].
    destruct l as [|d|]; [| |done]; intros [= <-].
    + rewrite -(setPoller_id i _ p s Hi) -(dropUpdates_nil i (setListener _ _ _)). apply (inv_listener n s i p p LIdle _ [] Hinv Hi Hli); try done. by left.
    + rewrite -(setPoller_id i _ p s Hi). apply (inv_listener n s i p p (LHold d) _ [d] Hinv Hi Hli); try done. by right.
  - destruct (listeners s !! i) as [l|] eqn:Hli; [|done]. cbn. destruct l as [|d|]; try done. destruct (consumer s) eqn:Hcon; try done. intros [= <-].
    assert (i < n) as Hlt by (rewrite -Hl; by eapply lookup_lt_Some). split; cbn; rewrite ?Hcon; try done; [by rewrite length_insert| |].
    + apply (flows_at n s _ i); [|done|done|].
      * intros j Hj. cbn [consume consumed pollers listeners dropped unsent]. rewrite list_lookup_insert_ne // of_app (of_tag_ne i j [d]) // app_nil_r. done.
      * intros _. destruct (Hf i Hlt) as (p & l & Hi & Hl' & E & Hd & Hu). rewrite Hli in Hl'. injection Hl' as <-. exists p, LIdle. cbn [consume consumed pollers listeners held dropped unsent].
        rewrite list_lookup_insert_eq; [|by rewrite Hl]. split; [done|]. split; [done|]. destruct Hd as [Hd|(_ & ? & _)]; [|done].
        rewrite of_app (of_tag i [d]) E Hd. split; [by rewrite -!app_assoc|]. split; [by left|done].
    + rewrite bind_app /= app_nil_r -He. rewrite -!app_assoc. f_equiv. apply Permutation_app_comm.
  - destruct (exporting s !! k) as [x|] eqn:Hk; [|done]. cbn. intros [= <-]. split; cbn; try done.
    + rewrite -He -Permutation_middle. rewrite {2}(take_drop_lookup _ _ _ Hk) delete_take_drop. by rewrite -!app_assoc /= -Permutation_middle.
    + assert (¬ ended s) as Hn by (intros (Hx & _); by rewrite Hx in Hk). destruct (consumer s); naive_solver.
  - destruct (consumer s) eqn:Hcon; try done. destruct (cancelled s) eqn:Hcan; [|done]. intros [= <-]. split; cbn; try done. naive_solver.
  - destruct (consumer s) eqn:Hcon; try done. destruct (decide (exporting s = [])) as [Hx|]; [|done]. destruct (forallb isReturned (listeners s)) eqn:Hr; [|done].
    intros [= <-]. split; cbn; try done; [rewrite -He Hx //|]. rewrite /ended /=. split_and!; [done|apply Forall_forall; intros x Hx'; exact (proj1 (List.forallb_forall _ _) Hr x (proj1 (list_elem_of_In _ _) Hx'))|done|naive_solver].
  - destruct (decide (k < length (cleaning s))) as [Hk|]; [|done]. intros [= <-]. assert (cleaning s ≠ []) as Hcl by (intros E; rewrite E /= in Hk; lia).
    split; cbn; try done. destruct (consumer s); [by destruct Hc as [_ ?]|by destruct Hc as (_ & ? & _)|exact Hc|by destruct Hc as [_ ?]].
  - destruct (consumer s) eqn:Hcon; try done. destruct (cleaning s) eqn:Hcl; [|done]. intros [= <-]. by split; cbn; rewrite ?Hcl.
  - intros [= <-]. split; cbn; try done.
    + intros i Hi. destruct (Hf i Hi) as (p & l & Hpi & Hli & E & HD & HU). exists p, l. split_and!; [done..| |];
        [destruct HD as [?|(? & ? & ?)]|destruct HU as [?|(? & ? & ?)]]; [by left|by right|by left|by right].
    + destruct (consumer s); [done|naive_solver| |]; unfold ended in *; naive_solver.
Qed.

Lemma of_nil i : of_ i [] = [].
Proof. done. Qed.

Lemma monitor_reachable n s : reachable n s → inv n s.
Proof.
  induction 1 as [|s e s' _ IH He]; [|by eapply monitor_step]. split; cbn; rewrite ?length_replicate; try done.
  intros i Hi. exists (mkPoller PFetch [] []), LIdle. cbn. rewrite !lookup_replicate_2 //. split_and!; [done..|by left|by left].
Qed.

(** Once the cleanup has started. *)
Definition cleaningUp (s : state) : bool := match consumer s with CCleanup | CReturned => true | _ => false end.

Lemma cleaning_ended n s : inv n s → cleaningUp s = true → ended s.
Proof. intros [_ _ _ _ Hc]. rewrite /cleaningUp. destruct (consumer s); try done. by destruct Hc. Qed.

Lemma cleanup_last n s e s' : inv n s → cleaningUp s = true → exec s e = Some s' → exported s' = exported s ∧ consumed s' = consumed s ∧ cleaned s' = cleaned s.
Proof.
  intros Hinv Hup. destruct (cleaning_ended n s Hinv Hup) as (Hx & Hl & _).
  destruct e as [i r|i|i|i|i|i|i|i|k| | |k| |]; cbn.
  - destruct (pollers s !! i) as [p|]; [|done]. cbn. by destruct (pcOf p); try done; intros [= <-].
  - destruct (pollers s !! i) as [p|]; [|done]. cbn. destruct (pcOf p); try done. destruct (decide _); [|done]. by intros [= <-].
  - destruct (pollers s !! i) as [p|]; [|done]. cbn. destruct (listeners s !! i) as [l|]; [|done]. cbn.
    by destruct (pcOf p), l, (buffer p); try done; intros [= <-].
  - destruct (pollers s !! i) as [p|]; [|done]. cbn. by destruct (pcOf p); try done; intros [= <-].
  - destruct (pollers s !! i) as [p|]; [|done]. cbn. destruct (cancelled s); [|done]. by destruct (pcOf p); try done; intros [= <-].
  - destruct (pollers s !! i) as [p|]; [|done]. cbn. destruct (listeners s !! i) as [l|]; [|done]. cbn. by destruct l, (buffer p); try done; intros [= <-].
  - destruct (listeners s !! i) as [l|]; [|done]. cbn. destruct (cancelled s); [|done]. by destruct l; try done; intros [= <-].
  - destruct (listeners s !! i) as [l|] eqn:Hi; [|done]. cbn. rewrite ->Forall_lookup in Hl. specialize (Hl i l Hi). by destruct l.
  - by rewrite Hx.
  - destruct (consumer s) eqn:Hc; try done. by rewrite /cleaningUp Hc in Hup.
  - destruct (consumer s) eqn:Hc; try done. by rewrite /cleaningUp Hc in Hup.
  - destruct (decide _); [|done]. by intros [= <-].
  - destruct (consumer s), (cleaning s); try done; by intros [= <-].
  - by intros [= <-].
Qed.

(** Without cancellation nothing has been let go of. *)
Lemma nothing_dropped n s : reachable n s → cancelled s = false → dropped s = [] ∧ unsent s = [].
Proof.
  induction 1 as [|s e s' Hr IH He]; [done|]. intros Hcan.
  assert (cancelled s = false ∧ dropped s' = dropped s ∧ unsent s' = unsent s) as (Hc & -> & ->); [|by apply IH].
  destruct e as [i r|i|i|i|i|i|i|i|k| | |k| |]; cbn in He.
  all: repeat match type of He with
    | (?o ≫= _) = Some _ => destruct o; [cbn in He|done]
    | context [match ?x with _ => _ end] => destruct x eqn:?; try done
    end.
  all: try (injection He as <-; cbn in *; (done || congruence)).
Qed.


(** *** The monitor ends *)

(** Steps of the monitor's own goroutines, of the exports and the cleanups; and
    steps that give it an update. *)
Definition own (e : event) : bool :=
  match e with EReceive _ | EListenerStop _ | EConsume _ | EExported _ | EBreak | ECleanup | ECleaned _ | EReturn => true | _ => false end.
Definition gives (e : event) : bool := match e with ESend _ | EHandOff _ => true | _ => false end.
Definition count (f : event → bool) (es : list event) : nat := length (filter (λ e, f e = true) es).

(** The steps that are left for what there is: an update in a channel has to be
    received, held and exported, or let go of. *)
Definition rank (c : cpc) : nat := match c with CLoop => 3 + exporters | CWait => 2 + exporters | CCleanup => 1 | CReturned => 0 end.
Definition weight (l : lpc) : nat := match l with LIdle => 1 | LHold _ => 3 + exporters | LReturned => 0 end.
Definition measure (s : state) : nat :=
  sum_list_with (λ p, (3 + exporters) * length (buffer p)) (pollers s) + sum_list_with weight (listeners s) +
  length (exporting s) + length (cleaning s) + rank (consumer s).

Lemma sum_insert {A} (f : A → nat) l i x y : l !! i = Some x → sum_list_with f (<[i:=y]> l) + f x = sum_list_with f l + f y.
Proof.
  revert i. induction l as [|z l IH]; intros [|i] Hi; [done..| |].
  - injection Hi as ->. change (f y + sum_list_with f l + f x = f x + sum_list_with f l + f y). lia.
  - change (f z + sum_list_with f (<[i:=y]> l) + f x = f z + sum_list_with f l + f y). specialize (IH i Hi). lia.
Qed.

(** What a step does to the parts of the measure. *)
Lemma measure_poller s i p p' : pollers s !! i = Some p →
  measure (setPoller i p' s) + (3 + exporters) * length (buffer p) = measure s + (3 + exporters) * length (buffer p').
Proof. intros Hi. rewrite /measure /=. pose proof (sum_insert (λ p, (3 + exporters) * length (buffer p)) _ i p p' Hi). cbn in *. lia. Qed.
Lemma measure_listener s i l l' : listeners s !! i = Some l → measure (setListener i l' s) + weight l = measure s + weight l'.
Proof. intros Hi. rewrite /measure /=. pose proof (sum_insert weight _ i l l' Hi). lia. Qed.
Lemma measure_keep i ds s : measure (keepUpdates i ds s) = measure s.
Proof. done. Qed.
Lemma measure_drop i ds s : measure (dropUpdates i ds s) = measure s.
Proof. done. Qed.

(** Every step of the monitor's own brings it nearer to its end. *)
Lemma measure_step s e s' : exec s e = Some s' →
  if own e then measure s' < measure s else measure s' ≤ measure s + (if gives e then 3 + exporters else 0).
Proof.
  destruct e as [i r|i|i|i|i|i|i|i|k| | |k| |]; cbn [own gives exec]; intros He.
  - destruct (pollers s !! i) as [p|] eqn:Hi; [|done]. cbn in He. destruct (pcOf p); try done. injection He as <-.
    pose proof (measure_poller s i p (afterFetch r p) Hi). assert (buffer (afterFetch r p) = buffer p) as Hb by by destruct r. rewrite Hb in H. lia.
  - destruct (pollers s !! i) as [p|] eqn:Hi; [|done]. cbn in He. destruct (pcOf p) as [|d| |]; try done. destruct (decide _); [|done]. injection He as <-.
    pose proof (measure_poller s i p (mkPoller PWait (buffer p ++ [d]) (got p)) Hi) as Hm. cbn [buffer] in Hm. rewrite length_app in Hm. cbn [length] in Hm. lia.
  - destruct (pollers s !! i) as [p|] eqn:Hi; [|done]. cbn in He. destruct (listeners s !! i) as [l|] eqn:Hl; [|done]. cbn in He.
    destruct (pcOf p) as [|d| |], l, (buffer p) eqn:Hb; try done. injection He as <-.
    pose proof (measure_poller s i p (mkPoller PWait [] (got p)) Hi) as Hm. pose proof (measure_listener (setPoller i (mkPoller PWait [] (got p)) s) i LIdle (LHold d) Hl) as Hm2.
    rewrite Hb in Hm. cbn [buffer weight length] in Hm, Hm2. lia.
  - destruct (pollers s !! i) as [p|] eqn:Hi; [|done]. cbn in He. destruct (pcOf p); try done. injection He as <-.
    pose proof (measure_poller s i p (mkPoller PFetch (buffer p) (got p)) Hi) as Hm. cbn [buffer] in Hm. lia.
  - destruct (pollers s !! i) as [p|] eqn:Hi; [|done]. cbn in He. destruct (cancelled s); [|done].
    pose proof (measure_poller s i p (mkPoller PReturned (buffer p) (got p)) Hi) as Hm. cbn [buffer] in Hm.
    destruct (pcOf p); try done; injection He as <-; rewrite ?measure_keep; lia.
  - destruct (pollers s !! i) as [p|] eqn:Hi; [|done]. cbn in He. destruct (listeners s !! i) as [l|] eqn:Hl; [|done]. cbn in He.
    destruct l, (buffer p) as [|d0 rest] eqn:Hb; try done. injection He as <-.
    pose proof (measure_poller s i p (mkPoller (pcOf p) rest (got p)) Hi) as Hm. pose proof (measure_listener (setPoller i (mkPoller (pcOf p) rest (got p)) s) i LIdle (LHold d0) Hl) as Hm2.
    rewrite Hb in Hm. cbn [buffer weight length] in Hm, Hm2. lia.
  - destruct (listeners s !! i) as [l|] eqn:Hl; [|done]. cbn in He. destruct (cancelled s); [|done].
    pose proof (measure_listener s i l LReturned Hl) as Hm. destruct l; try done; injection He as <-; rewrite ?measure_drop; cbn [weight] in Hm; lia.
  - destruct (listeners s !! i) as [l|] eqn:Hl; [|done]. cbn in He. destruct l as [|d|]; try done. destruct (consumer s) eqn:Hc; try done. injection He as <-.
    pose proof (measure_listener s i (LHold d) LIdle Hl) as Hm. rewrite /measure /= in Hm |- *. rewrite length_app length_fmap length_seq. cbn [weight] in Hm. lia.
  - destruct (exporting s !! k) as [x|] eqn:Hk; [|done]. cbn in He. injection He as <-. rewrite /measure /= length_delete; [|by eexists]. apply lookup_lt_Some in Hk. lia.
  - destruct (consumer s) eqn:Hc; try done. destruct (cancelled s); [|done]. injection He as <-. rewrite /measure /= Hc /=. lia.
  - destruct (consumer s) eqn:Hc; try done. destruct (decide _) as [Hx|]; [|done]. destruct (forallb _ _); [|done]. injection He as <-.
    rewrite /measure /= Hc Hx length_seq /=. lia.
  - destruct (decide _) as [Hk|]; [|done]. injection He as <-. rewrite /measure /= length_delete; [|by apply lookup_lt_is_Some_2]. lia.
  - destruct (consumer s) eqn:Hc, (cleaning s) eqn:Hx; try done. injection He as <-. rewrite /measure /= Hc Hx /=. lia.
  - injection He as <-. rewrite /measure /=. lia.
Qed.

Lemma all_returned ls : forallb isReturned ls = true ∨ ∃ i l, ls !! i = Some l ∧ isReturned l = false.
Proof.
  induction ls as [|l ls [IH|(i & l' & Hi & Hr)]]; [by left| |right; by exists (S i), l'].
  destruct (isReturned l) eqn:Hl; [left; by rewrite /= Hl IH|right; by exists 0, l].
Qed.

(** Until [Run] returns, one of its own steps is possible. *)
Lemma monitor_progress n s : inv n s → cancelled s = true → consumer s ≠ CReturned → ∃ e s', own e = true ∧ exec s e = Some s' ∧ cancelled s' = true.
Proof.
  intros [_ _ _ _ Hc] Hcan Hne. destruct (consumer s) eqn:Hcon; [| | |done].
  - exists EBreak, (setConsumer CWait s). by rewrite /= Hcon Hcan.
  - destruct (exporting s) as [|x xs] eqn:Hx.
    + destruct (all_returned (listeners s)) as [Hr|(i & l & Hi & Hr)].
      * eexists ECleanup, _. split; [done|]. by rewrite /= Hcon Hx Hr.
      * destruct l as [|d|]; [| |done]; eexists (EListenerStop i), _; (split; [done|]); by rewrite /= Hi /= Hcan.
    + eexists (EExported 0), _. split; [done|]. by rewrite /= Hx /=.
  - destruct (cleaning s) as [|x xs] eqn:Hx.
    + exists EReturn, (setConsumer CReturned s). by rewrite /= Hcon Hx.
    + eexists (ECleaned 0), _. split; [done|]. by rewrite /= Hx /=.
Qed.

(** Once it has returned, none is. *)
Lemma returned_rests n s e : inv n s → consumer s = CReturned → own e = true → exec s e = None.
Proof.
  intros [_ _ _ _ Hc] Hr. rewrite Hr in Hc. destruct Hc as [(Hx & Hl & _) Hcl]. rewrite ->Forall_lookup in Hl.
  destruct e as [i r|i|i|i|i|i|i|i|k| | |k| |]; cbn [own exec]; try done; intros _.
  - destruct (pollers s !! i); [|done]. destruct (listeners s !! i) as [l|] eqn:Hi; [|done]. specialize (Hl i l Hi). by destruct l.
  - destruct (listeners s !! i) as [l|] eqn:Hi; [|done]. specialize (Hl i l Hi). cbn. by destruct (cancelled s), l.
  - destruct (listeners s !! i) as [l|] eqn:Hi; [|done]. specialize (Hl i l Hi). by destruct l.
  - by rewrite Hx.
  - by rewrite Hr.
  - by rewrite Hr.
  - rewrite Hcl. destruct (decide _) as [Hk|]; [|done]. cbn in Hk. lia.
  - by rewrite Hr.
Qed.

Lemma execs_cons s e es : execs s (e :: es) = s' ← exec s e; execs s' es.
Proof. rewrite /execs /=. destruct (exec s e) as [s'|]; [done|]. cbn. by induction es. Qed.

Lemma count_cons f e es : count f (e :: es) = (if f e then 1 else 0) + count f es.
Proof. rewrite /count filter_cons. by destruct (f e). Qed.

Lemma measure_execs es : ∀ s s', execs s es = Some s' → count own es + measure s' ≤ measure s + (3 + exporters) * count gives es.
Proof.
  induction es as [|e es IH]; intros s s'; [intros [= <-]; cbn; lia|]. rewrite execs_cons. destruct (exec s e) as [s1|] eqn:He; cbn [mbind option_bind]; [|done].
  intros Hes. apply IH in Hes. apply measure_step in He. rewrite !count_cons. destruct e; cbn [own gives] in *; lia.
Qed.

Lemma reachable_execs n es : ∀ s s', reachable n s → execs s es = Some s' → reachable n s' ∧ (cancelled s = true → cancelled s' = true).
Proof.
  induction es as [|e es IH]; intros s s' Hr; [by intros [= <-]|]. rewrite execs_cons. destruct (exec s e) as [s1|] eqn:He; cbn [mbind option_bind]; [|done].
  intros Hes. destruct (IH s1 s') as [H1 H2]; [by eapply reach_step|done|]. split; [done|]. intros Hc. apply H2. clear -He Hc.
  destruct e as [i r|i|i|i|i|i|i|i|k| | |k| |]; cbn in He.
  all: repeat match type of He with
    | (?o ≫= _) = Some _ => destruct o; [cbn in He|done]
    | context [match ?x with _ => _ end] => destruct x eqn:?; try done
    end.
  all: try (injection He as <-; done).
Qed.

Lemma run_can_end n s : reachable n s → cancelled s = true → ∃ es s', Forall (λ e, own e = true) es ∧ execs s es = Some s' ∧ consumer s' = CReturned.
Proof.
  remember (measure s) as m eqn:Hm. revert s Hm. induction (lt_wf m) as [m _ IH]. intros s -> Hr Hcan. pose proof (monitor_reachable n s Hr) as Hinv.
  assert (consumer s = CReturned ∨ consumer s ≠ CReturned) as [Hret|Hne] by (destruct (consumer s); auto).
  - by exists [], s.
  - destruct (monitor_progress n s Hinv Hcan Hne) as (e & s1 & Ho & He & Hc1). pose proof (measure_step s e s1 He) as Hlt. rewrite Ho in Hlt.
    destruct (IH _ Hlt s1 eq_refl) as (es & s2 & Hall & Hes & Hret); [by eapply reach_step|done|].
    exists (e :: es), s2. split; [by constructor|]. by rewrite execs_cons He.
Qed.

(** C35: the monitor comes to its end.  From any state it can be in when its
    context is cancelled, in any run of all the goroutines: the steps of the
    monitor's own goroutines, of the exports and of the cleanups are at most
    [measure s], and a constant more for each update that a poller still puts
    into its channel or hands over; as long as [Run] has not returned, one of
    those steps is possible, whatever the pollers do, and when it has returned none
    is: the run can only stop at its return, and can always go on to it by own
    steps alone.  (A select whose context is done may choose another ready case,
    so that a poller that never chooses its context gives updates forever.) *)
Theorem run_ends n s es s' : reachable n s → cancelled s = true → execs s es = Some s' →
  count own es ≤ measure s + (3 + exporters) * count gives es ∧
  ((∀ e, own e = true → exec s' e = None) ↔ consumer s' = CReturned) ∧
  ∃ es' s'', Forall (λ e, own e = true) es' ∧ length es' ≤ measure s' ∧ execs s' es' = Some s'' ∧ consumer s'' = CReturned.
Proof.
  intros Hr Hcan Hes. pose proof (measure_execs es s s' Hes) as Hm. destruct (reachable_execs n es s s' Hr Hes) as [Hr' Hcan']. specialize (Hcan' Hcan).
  pose proof (monitor_reachable n s' Hr') as Hinv. split; [lia|]. split.
  - split; [|intros Hret e; by apply (returned_rests n)]. intros Hrest.
    destruct (consumer s') eqn:Hc; [| | |done]; exfalso; (destruct (monitor_progress n s' Hinv Hcan') as (e & s1 & Ho & He & _); [by rewrite Hc|]); by rewrite (Hrest e Ho) in He.
  - destruct (run_can_end n s' Hr' Hcan') as (es' & s'' & Hall & Hes' & Hret). exists es', s''. split; [done|]. split; [|done].
    pose proof (measure_execs es' s' s'' Hes') as Hm'. assert (count own es' = length es' ∧ count gives es' = 0) as [H1 H2]; [|lia].
    clear -Hall. induction Hall as [|e es He _ [IH1 IH2]]; [done|]. rewrite !count_cons He IH1 IH2. by destruct e.
Qed.
End monitor.

Lemma monitor_execs {D} exporters cap n (es : list (@event D)) : ∀ s s', reachable exporters cap n s → execs exporters cap s es = Some s' → reachable exporters cap n s'.
Proof.
  unfold execs. induction es as [|e es IH]; cbn; intros s s' Hr H; [by injection H as <-|]. destruct (exec exporters cap s e) as [s1|] eqn:He; cbn in H.
  - by apply (IH s1 s'); [eapply reach_step|].
  - exfalso. clear -H. by induction es.
Qed.

(** Two pollers, two exporters; the second poller's data are still in its
    channel when the context is cancelled. *)
Definition demoEvents : list (@event nat) :=
  [EFetched 0 (FData 7); EHandOff 0; EConsume 0; EFetched 1 (FData 8); ESend 1; EExported 1; ETick 0; EFetched 0 FNoUpdate; ETick 0; EFetched 0 (FData 9); ECancel; EHandOff 0; EReceive 1].

Lemma demo_monitored : ∃ s, reachable 2 1 2 s ∧ execs 2 1 (initial 2) demoEvents = Some s ∧ cancelled s = true.
Proof.
  destruct (execs 2 1 (initial 2) demoEvents) as [s|] eqn:E; [|by vm_compute in E]. exists s. split_and!; [|done|by vm_compute in E; injection E as <-].
  by apply (monitor_execs 2 1 2 demoEvents (initial 2)); [constructor|].
Qed.


Lemma run_ends_witness : ∃ s, execs 2 1 (initial 2) demoEvents = Some s ∧ consumer s = CLoop ∧
  ∃ es s', Forall (λ e, own e = true) es ∧ length es ≤ measure 2 s ∧ execs 2 1 s es = Some s' ∧ consumer s' = CReturned.
Proof.
  destruct demo_monitored as (s & Hr & He & Hc). exists s. split; [done|]. split; [by vm_compute in He; injection He as <-|].
  exact (proj2 (proj2 (run_ends 2 1 2 s [] s Hr Hc eq_refl))).
Defined.

(** *** [runMonitor]

    The sources are those that could be made; a factory is what its
    [NewExporter] gives, [None] for an error.  The result is the number of
    exporters and the pollers with their monitor, or [None] when nothing is
    started. *)
Definition runMonitor {S E D : Type} (sources : list S) (factories : list (option E)) : option (nat * @state D) :=
  if decide (length sources = 0) then None
  else let exporters := omap id factories in
       if decide (length exporters = 0) then None else Some (length exporters, initial (length sources)).

(** A monitor runs when there is a source and an exporter, whatever else
    could not be made. *)
Lemma runMonitor_starts {S E D} (sources : list S) (factories : list (option E)) :
  is_Some (@runMonitor S E D sources factories) ↔ sources ≠ [] ∧ ∃ e, Some e ∈ factories.
Proof.
  rewrite /runMonitor. destruct sources as [|x sources]; cbn; [split; [by intros []|by intros []]|].
  destruct (omap id factories) as [|e es] eqn:Hom; cbn.
  - split; [by intros []|]. intros (_ & e & He). assert (e ∈ omap id factories) as Hin by (apply list_elem_of_omap; by exists (Some e)). rewrite Hom in Hin. by apply elem_of_nil in Hin.
  - split; [|intros _; by eexists]. intros _. split; [done|]. assert (e ∈ omap id factories) as Hin by (rewrite Hom; left).
    apply list_elem_of_omap in Hin as (x' & Hx & Hs). exists e. cbn in Hs. by subst x'.
Qed.

(** *** The manager *)

Section manager.
(** [RDDData] with [assert.ObjectsAreEqual], the zero value. *)
Context {R : Type} `{!EqDecision R} (zero : R).

(** What the manager does to the managed functions: starts them on data,
    cancels those on some data and waits for them. *)
Inductive action := Start (d : R) | Stop (d : R).

(** [managerImpl]: [currentData], and the data of the functions [cancel] and
    [localSubs] stand for. *)
Record manager := mkManager { currentData : R; localSubs : option R }.
Definition NewManager : manager := mkManager zero None.

Definition isDifferentData (current updated : R) : bool := negb (bool_decide (current = updated)).

(** An update of the poller, [None] for one that is not [RDDData]. *)
Definition managerStep (m : manager) (raw : option R) : manager * list action :=
  match raw with
  | None => (m, [])
  | Some updatedData =>
      if isDifferentData (currentData m) updatedData then
        (mkManager updatedData (Some updatedData),
         match localSubs m with Some d => [Stop d] | None => [] end ++ [Start updatedData])
      else (m, [])
  end.

(** [Run] over the updates that come before the context is cancelled. *)
Fixpoint managerRun (m : manager) (raws : list (option R)) : list action :=
  match raws with
  | [] => match localSubs m with Some d => [Stop d] | None => [] end
  | raw :: raws => let '(m', acts) := managerStep m raw in acts ++ managerRun m' raws
  end.

(** The updates that differ from the one before. *)
Fixpoint changes (current : R) (ds : list R) : list R :=
  match ds with
  | [] => []
  | d :: ds => if decide (d = current) then changes current ds else d :: changes d ds
  end.

Definition stopOf (m : manager) : list action := match localSubs m with Some d => [Stop d] | None => [] end.

Lemma managerRun_from raws : ∀ m, managerRun m raws = stopOf m ++ (changes (currentData m) (omap id raws) ≫= λ d, [Start d; Stop d]).
Proof.
  induction raws as [|[d|] raws IH]; intros m; cbn; [by rewrite app_nil_r| |apply IH].
  rewrite /isDifferentData. destruct (decide (d = currentData m)) as [->|Hne].
  - rewrite (bool_decide_eq_true_2 _ eq_refl) /=. apply IH.
  - rewrite (bool_decide_eq_false_2 _ (λ E, Hne (eq_sym E))) /= IH -!app_assoc. done.
Qed.

(** The manager runs the managed functions on every change of the
    configuration, and stops those of one configuration before it starts those
    of the next one; at the end nothing runs. *)
Lemma manager_restarts raws : managerRun NewManager raws = changes zero (omap id raws) ≫= λ d, [Start d; Stop d].
Proof. apply managerRun_from. Qed.
End manager.
End Monitoring.
