(* ===== verification/PrometheusExporter.v ===== *)
(** [src/pkg/monitoring/exporter_prometheus.go, metrics.go]: the exporter that
    turns the updates of a feed into Prometheus series, and their cleanup.

    The registry, which all exporters share, has a value for each vector and
    set of labels.  An export is a sequence of changes of the registry; several
    of them run at once, so their changes may be interleaved.  Floats are an
    interface; instants are nanoseconds. *)

From S2P Require Import Prelude.
Open Scope string_scope.
Open Scope list_scope.

Module PrometheusExporter.

Class Floats := {
  float : Type;
  ofBig : Z → float;             (* toFloat64, and float64(n) of an unsigned integer *)
  fdiv : float → float → float;
  fadd : float → float → float;
  feq : float → float → bool;
  fgt : float → float → bool;
  seconds : Z → float;           (* Duration.Seconds *)
  fzero : float;
  fone : float
}.

(** *** The vectors, with the names of the variables of metrics.go *)

Inductive vector :=
  | headTrackerCurrentHead | feedContractMetadata | feedContractLinkBalance | linkAvailableForPayment
  | feedContractTransactionsSucceeded | feedContractTransactionsFailed | nodeMetadata
  | offchainAggregatorAnswersRaw | offchainAggregatorAnswers | offchainAggregatorAnswersTotal | offchainAggregatorAnswersLatestTimestamp
  | offchainAggregatorJuelsPerFeeCoinRaw | offchainAggregatorJuelsPerFeeCoin
  | offchainAggregatorSubmissionReceivedValues | offchainAggregatorJuelsPerFeeCoinReceivedValues
  | offchainAggregatorAnswerStalled | offchainAggregatorRoundID.

#[global] Instance vector_eq_dec : EqDecision vector.
Proof. solve_decision. Defined.

Definition Labels : Type := gmap string string.
Definition series : Type := vector * Labels.
#[global] Instance series_eq_dec : EqDecision series.
Proof. apply _. Defined.

Section metrics.
Context `{Floats}.

(** [Set], [Add]. *)
Inductive change := SetTo (s : series) (v : float) | AddTo (s : series) (v : float).

(** The value of each series, if there is one. *)
Definition registry : Type := series → option float.
Definition Write (s : series) (v : option float) (r : registry) : registry := λ s', if decide (s' = s) then v else r s'.
Definition apply (c : change) (r : registry) : registry :=
  match c with
  | SetTo s v => Write s (Some v) r
  | AddTo s v => Write s (Some (fadd (default fzero (r s)) v)) r
  end.
Definition Delete (s : series) (r : registry) : registry := Write s None r.
Definition seriesOf (c : change) : series := match c with SetTo s _ | AddTo s _ => s end.

Definition networkLabels (networkName chainID networkID : string) : Labels :=
  list_to_map [("network_name", networkName); ("chain_id", chainID); ("network_id", networkID)].
Definition metadataLabels (chainID contractAddress feedID contractStatus contractType feedName feedPath networkID networkName symbol : string) : Labels :=
  list_to_map [("chain_id", chainID); ("contract_address", contractAddress); ("feed_id", feedID); ("contract_status", contractStatus); ("contract_type", contractType);
               ("feed_name", feedName); ("feed_path", feedPath); ("network_id", networkID); ("network_name", networkName); ("symbol", symbol)].
Definition feedLabels (contractAddress feedID chainID contractStatus contractType feedName feedPath networkID networkName : string) : Labels :=
  list_to_map [("contract_address", contractAddress); ("feed_id", feedID); ("chain_id", chainID); ("contract_status", contractStatus); ("contract_type", contractType);
               ("feed_name", feedName); ("feed_path", feedPath); ("network_id", networkID); ("network_name", networkName)].
Definition paymentLabels (feedID chainID contractStatus contractType feedName feedPath networkID networkName : string) : Labels :=
  list_to_map [("feed_id", feedID); ("chain_id", chainID); ("contract_status", contractStatus); ("contract_type", contractType);
               ("feed_name", feedName); ("feed_path", feedPath); ("network_id", networkID); ("network_name", networkName)].
Definition nodeLabels (chainID networkID networkName oracleName sender : string) : Labels :=
  list_to_map [("chain_id", chainID); ("network_id", networkID); ("network_name", networkName); ("oracle_name", oracleName); ("sender", sender)].
Definition senderLabels (contractAddress feedID sender chainID contractStatus contractType feedName feedPath networkID networkName : string) : Labels :=
  list_to_map [("contract_address", contractAddress); ("feed_id", feedID); ("sender", sender); ("chain_id", chainID); ("contract_status", contractStatus); ("contract_type", contractType);
               ("feed_name", feedName); ("feed_path", feedPath); ("network_id", networkID); ("network_name", networkName)].

(** *** The methods of [defaultMetrics] *)

Definition SetHeadTrackerCurrentHead (blockNumber : float) (networkName chainID networkID : string) : change :=
  SetTo (headTrackerCurrentHead, networkLabels networkName chainID networkID) blockNumber.
Definition SetFeedContractMetadata (chainID contractAddress feedID contractStatus contractType feedName feedPath networkID networkName symbol : string) : change :=
  SetTo (feedContractMetadata, metadataLabels chainID contractAddress feedID contractStatus contractType feedName feedPath networkID networkName symbol) fone.
Definition SetLinkAvailableForPayment (amount : float) (feedID chainID contractStatus contractType feedName feedPath networkID networkName : string) : change :=
  SetTo (linkAvailableForPayment, paymentLabels feedID chainID contractStatus contractType feedName feedPath networkID networkName) amount.
Definition SetNodeMetadata (chainID networkID networkName oracleName sender : string) : change :=
  SetTo (nodeMetadata, nodeLabels chainID networkID networkName oracleName sender) fone.

Definition setFeed (vec : vector) (value : float) (contractAddress feedID chainID contractStatus contractType feedName feedPath networkID networkName : string) : change :=
  SetTo (vec, feedLabels contractAddress feedID chainID contractStatus contractType feedName feedPath networkID networkName) value.
Definition addFeed (vec : vector) (value : float) (contractAddress feedID chainID contractStatus contractType feedName feedPath networkID networkName : string) : change :=
  AddTo (vec, feedLabels contractAddress feedID chainID contractStatus contractType feedName feedPath networkID networkName) value.
Definition setSender (vec : vector) (value : float) (contractAddress feedID sender chainID contractStatus contractType feedName feedPath networkID networkName : string) : change :=
  SetTo (vec, senderLabels contractAddress feedID sender chainID contractStatus contractType feedName feedPath networkID networkName) value.

Definition SetFeedContractLinkBalance := setFeed feedContractLinkBalance.
Definition SetFeedContractTransactionsSucceeded := addFeed feedContractTransactionsSucceeded.
Definition SetFeedContractTransactionsFailed := addFeed feedContractTransactionsFailed.
Definition SetOffchainAggregatorAnswersRaw := setFeed offchainAggregatorAnswersRaw.
Definition SetOffchainAggregatorAnswers := setFeed offchainAggregatorAnswers.
Definition IncOffchainAggregatorAnswersTotal := addFeed offchainAggregatorAnswersTotal fone.
Definition SetOffchainAggregatorAnswersLatestTimestamp := setFeed offchainAggregatorAnswersLatestTimestamp.
Definition SetOffchainAggregatorJuelsPerFeeCoinRaw := setFeed offchainAggregatorJuelsPerFeeCoinRaw.
Definition SetOffchainAggregatorJuelsPerFeeCoin := setFeed offchainAggregatorJuelsPerFeeCoin.
Definition SetOffchainAggregatorSubmissionReceivedValues := setSender offchainAggregatorSubmissionReceivedValues.
Definition SetOffchainAggregatorJuelsPerFeeCoinReceivedValues := setSender offchainAggregatorJuelsPerFeeCoinReceivedValues.
Definition SetOffchainAggregatorAnswerStalled (isSet : bool) := setFeed offchainAggregatorAnswerStalled (if isSet then fone else fzero).
Definition SetOffchainAggregatorRoundID := setFeed offchainAggregatorRoundID.

(** [defaultMetrics.Cleanup]: the series it deletes, in order. *)
Definition cleaned (networkName networkID chainID oracleName sender feedName feedPath symbol contractType contractStatus contractAddress feedID : string) : list series :=
  let feed := feedLabels contractAddress feedID chainID contractStatus contractType feedName feedPath networkID networkName in
  let sent := senderLabels contractAddress feedID sender chainID contractStatus contractType feedName feedPath networkID networkName in
  [(headTrackerCurrentHead, networkLabels networkName chainID networkID);
   (feedContractMetadata, metadataLabels chainID contractAddress feedID contractStatus contractType feedName feedPath networkID networkName symbol);
   (feedContractLinkBalance, feed);
   (linkAvailableForPayment, paymentLabels feedID chainID contractStatus contractType feedName feedPath networkID networkName);
   (feedContractTransactionsSucceeded, feed);
   (feedContractTransactionsSucceeded, feed);            (* for feed_contract_transactions_failed *)
   (nodeMetadata, nodeLabels chainID networkID networkName oracleName sender);
   (offchainAggregatorAnswersRaw, feed);
   (offchainAggregatorAnswers, feed);
   (offchainAggregatorAnswersTotal, feed);
   (offchainAggregatorAnswersLatestTimestamp, feed);
   (offchainAggregatorJuelsPerFeeCoinRaw, feed);
   (offchainAggregatorJuelsPerFeeCoin, feed);
   (offchainAggregatorSubmissionReceivedValues, sent);
   (offchainAggregatorJuelsPerFeeCoinReceivedValues, sent);
   (offchainAggregatorAnswerStalled, feed);
   (offchainAggregatorRoundID, feed)].

Definition deleteAll (ss : list series) (r : registry) : registry := foldl (λ r s, Delete s r) r ss.

(** *** The exporter *)

Record ChainConfig := mkChain { NetworkName : string; NetworkID : string; ChainID : string }.
Record FeedConfig := mkFeed { ID : string; Name : string; Path : string; Symbol : string; ContractType : string; ContractStatus : string; HeartbeatSec : Z; Multiply : Z }.
Record NodeConfig := mkNode { nodeName : string; Account : string }.

Record prometheusLabels := mkLabels {
  networkName : string; networkID : string; chainID : string; senders : gmap string unit;
  feedName : string; feedPath : string; symbol : string; contractType : string; contractStatus : string; contractAddress : string; feedID : string
}.
Definition noLabels : prometheusLabels := mkLabels "" "" "" ∅ "" "" "" "" "" "" "".

Record exporter := mkExporter { labels : prometheusLabels; prevValue : Z; prevTimestamp : Z }.

(** The zero [time.Time]. *)
Definition zeroTime : Z := (-62135596800 * 10 ^ 9)%Z.

Definition orElse (new old : string) : string := if String.eqb new "" then old else new.

(** [updateLabels]; [newLabels] come with their sender. *)
Definition updateLabels (newLabels : prometheusLabels) (sender : string) (p : exporter) : exporter :=
  let old := labels p in
  mkExporter (mkLabels (orElse (networkName newLabels) (networkName old)) (orElse (networkID newLabels) (networkID old)) (orElse (chainID newLabels) (chainID old))
    (if String.eqb sender "" then senders old else <[sender := tt]> (senders old))
    (orElse (feedName newLabels) (feedName old)) (orElse (feedPath newLabels) (feedPath old)) (orElse (symbol newLabels) (symbol old))
    (orElse (contractType newLabels) (contractType old)) (orElse (contractStatus newLabels) (contractStatus old))
    (orElse (contractAddress newLabels) (contractAddress old)) (orElse (feedID newLabels) (feedID old)))
    (prevValue p) (prevTimestamp p).

Definition getOracleName (account : string) (nodes : list NodeConfig) : option string := nodeName <$> List.find (λ n, String.eqb (Account n) account) nodes.
(** The name that is used for a sender, its own one if it is not a node's. *)
Definition oracleNameOf (nodes : list NodeConfig) (sender : string) : string := default sender (getOracleName sender nodes).

Section exporter.
Context (chain : ChainConfig) (feed : FeedConfig) (nodes : list NodeConfig).

Definition NewExporter : exporter * list change :=
  (updateLabels (mkLabels (NetworkName chain) (NetworkID chain) (ChainID chain) ∅ (Name feed) (Path feed) (Symbol feed) (ContractType feed) (ContractStatus feed) (ID feed) (ID feed)) ""
     (mkExporter noLabels 0 zeroTime),
   [SetFeedContractMetadata (ChainID chain) (ID feed) (ID feed) (ContractStatus feed) (ContractType feed) (Name feed) (Path feed) (NetworkID chain) (NetworkName chain) (Symbol feed)]).

Record Envelope := mkEnvelope {
  LatestAnswer : Z; LatestTimestamp : Z; BlockNumber : Z; Transmitter : string; LinkBalance : Z; LinkAvailableForPayment : Z; JuelsPerFeeCoin : Z; AggregatorRoundID : Z
}.
Record TxResults := mkTxResults { NumSucceeded : Z; NumFailed : Z }.

Definition isNewTransmission (value timestamp : Z) (p : exporter) : bool * exporter :=
  if (value =? prevValue p)%Z && (timestamp =? prevTimestamp p)%Z then (false, p) else (true, mkExporter (labels p) value timestamp).

(** The arguments that most calls have in common. *)
Definition withFeed (set : string → string → string → string → string → string → string → string → string → change) : change :=
  set (ID feed) (ID feed) (ChainID chain) (ContractStatus feed) (ContractType feed) (Name feed) (Path feed) (NetworkID chain) (NetworkName chain).
Definition withSender (set : string → string → string → string → string → string → string → string → string → string → change) (sender : string) : change :=
  set (ID feed) (ID feed) sender (ChainID chain) (ContractStatus feed) (ContractType feed) (Name feed) (Path feed) (NetworkID chain) (NetworkName chain).

(** The calls of [exportEnvelope] before and after it asks whether the
    transmission is new. *)
Definition always (now : Z) (e : Envelope) : list change :=
  [withFeed (SetFeedContractLinkBalance (ofBig (LinkBalance e)));
   SetLinkAvailableForPayment (ofBig (LinkAvailableForPayment e)) (ID feed) (ChainID chain) (ContractStatus feed) (ContractType feed) (Name feed) (Path feed) (NetworkID chain) (NetworkName chain);
   SetNodeMetadata (ChainID chain) (NetworkID chain) (NetworkName chain) (oracleNameOf nodes (Transmitter e)) (Transmitter e);
   SetHeadTrackerCurrentHead (ofBig (BlockNumber e)) (NetworkName chain) (ChainID chain) (NetworkID chain)] ++
  (if (HeartbeatSec feed =? 0)%Z then []
   else [withFeed (SetOffchainAggregatorAnswerStalled (fgt (seconds (now - LatestTimestamp e)) (ofBig (HeartbeatSec feed))))]).
Definition whenNew (e : Envelope) : list change :=
  let multiply := if feq (ofBig (Multiply feed)) fzero then fone else ofBig (Multiply feed) in
  let latestAnswer := ofBig (LatestAnswer e) in
  let juelsPerFeeCoin := ofBig (JuelsPerFeeCoin e) in
  [withFeed (SetOffchainAggregatorAnswers (fdiv latestAnswer multiply));
   withFeed (SetOffchainAggregatorAnswersRaw latestAnswer);
   withFeed IncOffchainAggregatorAnswersTotal;
   withFeed (SetOffchainAggregatorAnswersLatestTimestamp (ofBig (LatestTimestamp e / 10 ^ 9)));
   withFeed (SetOffchainAggregatorJuelsPerFeeCoinRaw juelsPerFeeCoin);
   withFeed (SetOffchainAggregatorJuelsPerFeeCoin (fdiv juelsPerFeeCoin multiply));
   withSender (SetOffchainAggregatorSubmissionReceivedValues (fdiv latestAnswer multiply)) (Transmitter e);
   withSender (SetOffchainAggregatorJuelsPerFeeCoinReceivedValues (fdiv juelsPerFeeCoin multiply)) (Transmitter e);
   withFeed (SetOffchainAggregatorRoundID (ofBig (AggregatorRoundID e)))].

Definition exportEnvelope (now : Z) (e : Envelope) (p : exporter) : exporter * list change :=
  let p := updateLabels noLabels (Transmitter e) p in
  let '(new, p) := isNewTransmission (LatestAnswer e) (LatestTimestamp e) p in
  (p, always now e ++ (if new then whenNew e else [])).

Definition exportTxResults (res : TxResults) : list change :=
  [withFeed (SetFeedContractTransactionsSucceeded (ofBig (NumSucceeded res))); withFeed (SetFeedContractTransactionsFailed (ofBig (NumFailed res)))].

Inductive update := UEnvelope (now : Z) (e : Envelope) | UTxResults (res : TxResults) | UOther.

Definition Export (u : update) (p : exporter) : exporter * list change :=
  match u with
  | UEnvelope now e => exportEnvelope now e p
  | UTxResults res => (p, exportTxResults res)
  | UOther => (p, [])
  end.

(** The series that [Cleanup] deletes for one sender. *)
Definition cleanedFor (l : prometheusLabels) (sender : string) : list series :=
  cleaned (networkName l) (networkID l) (chainID l) (oracleNameOf nodes sender) sender (feedName l) (feedPath l) (symbol l) (contractType l) (contractStatus l)
    (contractAddress l) (feedID l).

Definition Cleanup (O : RangeOrder (string * unit)) (p : exporter) (r : registry) : registry :=
  foldl (λ r s, deleteAll (cleanedFor (labels p) s.1) r) r (range_map O (senders (labels p))).

(** Exports in the order in which they ask whether a transmission is new, with
    the changes that each of them makes. *)
Fixpoint exports (us : list update) (p : exporter) : exporter * list (list change) :=
  match us with
  | [] => (p, [])
  | u :: us => let '(p, cs) := Export u p in let '(p, css) := exports us p in (p, cs :: css)
  end.

(** *** Facts *)

Definition transmitters (us : list update) : list string :=
  us ≫= λ u, match u with UEnvelope _ e => [Transmitter e] | _ => [] end.

(** The labels of an exporter that has seen some senders. *)
Definition labelsWith (ss : gmap string unit) : prometheusLabels :=
  mkLabels (NetworkName chain) (NetworkID chain) (ChainID chain) ss (Name feed) (Path feed) (Symbol feed) (ContractType feed) (ContractStatus feed) (ID feed) (ID feed).

Lemma orElse_empty new : orElse new "" = new.
Proof. rewrite /orElse. by destruct (String.eqb_spec new "") as [->|]. Qed.

Lemma NewExporter_labels : labels NewExporter.1 = labelsWith ∅.
Proof. rewrite /NewExporter /updateLabels /=. by rewrite !orElse_empty. Qed.

Lemma Export_labels u p ss : labels p = labelsWith ss →
  labels (Export u p).1 = labelsWith (match u with UEnvelope _ e => if String.eqb (Transmitter e) "" then ss else <[Transmitter e := tt]> ss | _ => ss end).
Proof.
  intros Hl. destruct u as [now e|res|]; [|done..]. rewrite /Export /exportEnvelope /isNewTransmission. destruct (_ && _); by rewrite /= /updateLabels /= Hl.
Qed.

Lemma exports_labels us p ss : labels p = labelsWith ss →
  ∃ ss', labels (exports us p).1 = labelsWith ss' ∧ ∀ s, ss' !! s = Some tt ↔ ss !! s = Some tt ∨ s ≠ "" ∧ s ∈ transmitters us.
Proof.
  revert p ss. induction us as [|u us IH]; intros p ss Hl; cbn [exports].
  - exists ss. split; [done|]. intros s. split; [by left|]. intros [?|[_ Hs]]; [done|]. by apply elem_of_nil in Hs.
  - pose proof (Export_labels u p ss Hl) as Hl'. destruct (Export u p) as [p1 cs]. cbn [fst] in Hl'.
    destruct (IH p1 _ Hl') as (ss' & H1 & H2). destruct (exports us p1) as [p2 css]. exists ss'. split; [exact H1|]. intros s. rewrite H2 /transmitters bind_cons.
    fold (transmitters us). rewrite elem_of_app. destruct u as [now e|res|]; [|rewrite elem_of_nil; naive_solver..]. rewrite list_elem_of_singleton.
    destruct (String.eqb_spec (Transmitter e) "") as [E|E]; [naive_solver|]. rewrite lookup_insert_Some. destruct (decide (Transmitter e = s)) as [<-|]; naive_solver.
Qed.

(** What a cleanup leaves of the registry. *)
Lemma deleteAll_lookup ss r s : deleteAll ss r s = if decide (s ∈ ss) then None else r s.
Proof.
  revert r. induction ss as [|s0 ss IH]; intros r; [done|]. change (deleteAll ss (Delete s0 r) s = if decide (s ∈ s0 :: ss) then None else r s). rewrite IH.
  destruct (decide (s ∈ ss)); [rewrite decide_True //; by right|]. rewrite /Delete /Write. destruct (decide (s = s0)) as [->|].
  - rewrite decide_True //. left.
  - rewrite decide_False // elem_of_cons. naive_solver.
Qed.

Lemma Cleanup_lookup O p r s :
  (Cleanup O p r s = None ∧ ∃ sender, senders (labels p) !! sender = Some tt ∧ s ∈ cleanedFor (labels p) sender) ∨
  (Cleanup O p r s = r s ∧ ∀ sender, senders (labels p) !! sender = Some tt → s ∉ cleanedFor (labels p) sender).
Proof.
  rewrite /Cleanup. assert (∀ sender, senders (labels p) !! sender = Some tt ↔ sender ∈ (range_map O (senders (labels p))).*1) as Hel.
  { intros sender. rewrite list_elem_of_fmap. split.
    - intros Hs. exists (sender, tt). split; [done|]. by apply elem_of_range_map.
    - intros ([s' []] & -> & Hin). by apply elem_of_range_map in Hin. }
  setoid_rewrite Hel. clear Hel. generalize (range_map O (senders (labels p))). intros l. revert r. induction l as [|[s0 []] l IH]; intros r; cbn [foldl fmap list_fmap fst].
  - right. split; [done|]. intros sender Hs. by apply elem_of_nil in Hs.
  - destruct (IH (deleteAll (cleanedFor (labels p) s0) r)) as [[-> (sender & Hs & Hin)]|[-> Hn]].
    + left. split; [done|]. exists sender. split; [by right|done].
    + rewrite deleteAll_lookup. destruct (decide (s ∈ cleanedFor (labels p) s0)); [left|right]; (split; [done|]).
      * exists s0. split; [left|done].
      * intros sender Hs. apply elem_of_cons in Hs as [->|Hs]; [done|by apply Hn].
Qed.

(** *** Every series that is made is cleaned up but one *)

Ltac members := repeat match goal with H : _ ∈ [] |- _ => by apply elem_of_nil in H | H : _ ∈ _ :: _ |- _ => apply elem_of_cons in H as [->|H] end.
Ltac among := rewrite /cleanedFor /cleaned /=; repeat first [by apply list_elem_of_here | apply list_elem_of_further].

Lemma new_cleaned ss sender c : c ∈ NewExporter.2 → seriesOf c ∈ cleanedFor (labelsWith ss) sender.
Proof. intros Hc. cbn in Hc. members. among. Qed.

Lemma always_cleaned ss now e c : c ∈ always now e → seriesOf c ∈ cleanedFor (labelsWith ss) (Transmitter e).
Proof. intros Hc. rewrite /always elem_of_app in Hc. destruct Hc as [Hc|Hc]; [|destruct (HeartbeatSec feed =? 0)%Z]; members; among. Qed.

Lemma whenNew_cleaned ss e c : c ∈ whenNew e → seriesOf c ∈ cleanedFor (labelsWith ss) (Transmitter e).
Proof. intros Hc. rewrite /whenNew in Hc. members; among. Qed.

Lemma tx_cleaned ss sender res c : c ∈ exportTxResults res →
  seriesOf c ∈ cleanedFor (labelsWith ss) sender ∨ (seriesOf c).1 = feedContractTransactionsFailed.
Proof. intros Hc. rewrite /exportTxResults in Hc. members; [left; among|by right]. Qed.

Lemma exports_cleaned us p ss c cs : cs ∈ (exports us p).2 → c ∈ cs →
  (seriesOf c).1 = feedContractTransactionsFailed ∨ (∀ sender, seriesOf c ∈ cleanedFor (labelsWith ss) sender) ∨ ∃ sender, sender ∈ transmitters us ∧ seriesOf c ∈ cleanedFor (labelsWith ss) sender.
Proof.
  revert p. induction us as [|u us IH]; intros p; cbn [exports]; [intros Hcs; by apply elem_of_nil in Hcs|].
  destruct (Export u p) as [p1 cs1] eqn:Hu. specialize (IH p1). destruct (exports us p1) as [p2 css]. cbn [snd] in *. rewrite /transmitters bind_cons. fold (transmitters us).
  intros [->|Hcs]%elem_of_cons Hc.
  - destruct u as [now e|res|]; cbn in Hu.
    + right; right. exists (Transmitter e). split; [rewrite elem_of_app; left; by apply list_elem_of_singleton|]. rewrite /exportEnvelope /isNewTransmission in Hu.
      destruct (_ && _); apply (f_equal snd) in Hu; cbn [snd] in Hu; rewrite -Hu elem_of_app in Hc;
        (destruct Hc as [Hc|Hc]; [by eapply always_cleaned|]); [by apply elem_of_nil in Hc|by apply whenNew_cleaned].
    + injection Hu as <- <-. rewrite /exportTxResults in Hc. members; [right; left; intros sender; among|by left].
    + injection Hu as <- <-. by apply elem_of_nil in Hc.
  - destruct (IH Hcs Hc) as [?|[?|(sender & Hs & Hin)]]; [by left|by right; left|right; right]. exists sender. split; [rewrite elem_of_app; by right|done].
Qed.

Lemma failed_not_cleaned l sender s : s ∈ cleanedFor l sender → s.1 ≠ feedContractTransactionsFailed.
Proof. intros Hs. rewrite /cleanedFor /cleaned /= in Hs. members; done. Qed.

(** The labels of the series that are deleted for a sender: they are of the
    exporter's chain; all but those of the chain's head and of a node are of its
    feed; a sender that they name is that one. *)
Definition ours (s : series) : Prop :=
  s.2 !! "chain_id" = Some (ChainID chain) ∧ s.2 !! "network_id" = Some (NetworkID chain) ∧ s.2 !! "network_name" = Some (NetworkName chain) ∧
  (s.1 = headTrackerCurrentHead ∨ s.1 = nodeMetadata ∨ s.2 !! "feed_id" = Some (ID feed)).

Lemma cleaned_ours ss t s : s ∈ cleanedFor (labelsWith ss) t → ours s ∧ (s.2 !! "sender" = None ∨ s.2 !! "sender" = Some t).
Proof.
  intros Hs. rewrite /cleanedFor /cleaned /= in Hs. rewrite /ours.
  members; (split; [split_and!; [vm_compute; reflexivity..|]|by first [left; vm_compute; reflexivity|right; vm_compute; reflexivity]]);
    first [by left|by right; left|by right; right; vm_compute; reflexivity].
Qed.

(** Those that name no sender are deleted for every one. *)
Lemma cleaned_any ss t t' s : s ∈ cleanedFor (labelsWith ss) t → s.2 !! "sender" = None → s ∈ cleanedFor (labelsWith ss) t'.
Proof. intros Hs Hn. rewrite /cleanedFor /cleaned /= in Hs. members; try (by vm_compute in Hn); among. Qed.

(** C28: what is left of an exporter after its cleanup.  Whatever was exported,
    in whatever order the changes of its exports reached the registry, and
    whatever else is in it: if an envelope of a transmitter with a name was
    exported, every series that the exporter made is gone, except that of the
    failed transactions, which the cleanup forgets, and those labelled with a
    sender without a name; these keep their values.  If there was no such
    envelope everything is left.  No other series are lost than ones of the
    exporter's chain that are its feed's, the chain's head or a node's; and none
    that is labelled with a sender who did not transmit. *)
Theorem exporter_cleans O us ops r :
  (∀ c, c ∈ ops → c ∈ NewExporter.2 ∨ ∃ cs, cs ∈ (exports us NewExporter.1).2 ∧ c ∈ cs) →
  let before := foldl (λ r c, apply c r) r ops in
  let after := Cleanup O (exports us NewExporter.1).1 before in
  (∀ c, c ∈ ops → after (seriesOf c) =
     if decide ((seriesOf c).1 = feedContractTransactionsFailed ∨ (seriesOf c).2 !! "sender" = Some "" ∨ Forall (λ t, t = "") (transmitters us))
     then before (seriesOf c) else None) ∧
  (∀ s, after s = before s ∨ after s = None ∧
     s.2 !! "chain_id" = Some (ChainID chain) ∧ s.2 !! "network_id" = Some (NetworkID chain) ∧ s.2 !! "network_name" = Some (NetworkName chain) ∧
     (s.1 = headTrackerCurrentHead ∨ s.1 = nodeMetadata ∨ s.2 !! "feed_id" = Some (ID feed)) ∧
     ∀ t, s.2 !! "sender" = Some t → t ∈ transmitters us).
Proof.
  intros Hops before after.
  destruct (exports_labels us NewExporter.1 ∅ NewExporter_labels) as (ss & Hl & Hss).
  assert (∀ t, ss !! t = Some tt ↔ t ≠ "" ∧ t ∈ transmitters us) as Hsenders.
  { intros t. rewrite Hss lookup_empty. naive_solver. }
  assert (∀ s, (after s = None ∧ ∃ t, t ≠ "" ∧ t ∈ transmitters us ∧ s ∈ cleanedFor (labelsWith ss) t) ∨
               (after s = before s ∧ ∀ t, t ≠ "" → t ∈ transmitters us → s ∉ cleanedFor (labelsWith ss) t)) as Hafter.
  { intros s. destruct (Cleanup_lookup O (exports us NewExporter.1).1 before s) as [[H1 (t & Ht & Hin)]|[H1 Hn]]; rewrite -/after in H1; [left|right].
    - rewrite !Hl in Ht Hin. apply Hsenders in Ht as [Hne Ht]. split; [done|]. by exists t.
    - split; [done|]. intros t Hne Ht. specialize (Hn t). rewrite !Hl in Hn. apply Hn. by apply Hsenders. }
  split.
  - intros c Hc. destruct (decide _) as [Hkept|Hgone]; destruct (Hafter (seriesOf c)) as [[H1 (t & Hne & Ht & Hin)]|[H1 Hn]]; try done; exfalso.
    + destruct Hkept as [Hf|[Hs|Hall]]; [by apply failed_not_cleaned in Hin| |].
      * apply cleaned_ours in Hin as [_ Hin]. rewrite Hs in Hin. destruct Hin as [Hin|Hin]; congruence.
      * rewrite ->Forall_forall in Hall. by apply Hne, Hall.
    + apply Decidable.not_or in Hgone as [Hf Hgone]. apply Decidable.not_or in Hgone as [Hs Hall].
      assert (∃ t0, t0 ≠ "" ∧ t0 ∈ transmitters us) as (t0 & Hne0 & Ht0).
      { apply not_Forall_Exists in Hall; [|apply _]. apply Exists_exists in Hall as (t0 & ? & ?). by exists t0. }
      destruct (Hops c Hc) as [Hnew|(cs & Hcs & Hin)]; [by eapply Hn, (new_cleaned ss)|].
      destruct (exports_cleaned us _ ss c cs Hcs Hin) as [?|[Hall'|(t' & Ht' & Hin')]]; [done|by eapply Hn, Hall'|].
      destruct (decide (t' = "")) as [->|Hne']; [|by eapply Hn]. destruct (cleaned_ours _ _ _ Hin') as [_ [Hnone|?]]; [|done].
      eapply Hn, (cleaned_any ss ""); done.
  - intros s. destruct (Hafter s) as [[H1 (t & Hne & Ht & Hin)]|[H1 _]]; [right|by left]. destruct (cleaned_ours _ _ _ Hin) as [(Hc & Hi & Hm & Hk) Hsender].
    split_and!; try done. intros t' Ht'. destruct Hsender as [Hs|Hs]; congruence.
Qed.

(** Without an envelope nothing is cleaned up, not even the metadata that
    [NewExporter] sets. *)
Lemma nothing_cleaned O us r : transmitters us = [] → ∀ s, Cleanup O (exports us NewExporter.1).1 r s = r s.
Proof.
  intros Ht s. destruct (exports_labels us NewExporter.1 ∅ NewExporter_labels) as (ss & Hl & Hss).
  destruct (Cleanup_lookup O (exports us NewExporter.1).1 r s) as [[_ (t & Hs & _)]|[H1 _]]; [|done]. rewrite Hl /= Hss Ht lookup_empty in Hs.
  destruct Hs as [?|[_ Hs]]; [done|by apply elem_of_nil in Hs].
Qed.

(** *** The counter of answers *)

Definition isAnswer (c : change) : bool := match c with AddTo (offchainAggregatorAnswersTotal, _) _ => true | _ => false end.
Definition answers (cs : list change) : nat := length (List.filter isAnswer cs).

(** How often the answer or its timestamp changes. *)
Fixpoint transmissions (value timestamp : Z) (us : list update) : nat :=
  match us with
  | [] => 0
  | UEnvelope _ e :: us =>
      if (LatestAnswer e =? value)%Z && (LatestTimestamp e =? timestamp)%Z then transmissions value timestamp us
      else S (transmissions (LatestAnswer e) (LatestTimestamp e) us)
  | _ :: us => transmissions value timestamp us
  end.

Lemma answers_app a b : answers (a ++ b) = answers a + answers b.
Proof. by rewrite /answers List.filter_app length_app. Qed.

Lemma always_no_answer now e : answers (always now e) = 0.
Proof. rewrite /always answers_app. by destruct (_ =? _)%Z. Qed.

(** The counter of answers is increased once for each answer or timestamp that
    differs from the one before. *)
Lemma answers_counted us p : answers (concat (exports us p).2) = transmissions (prevValue p) (prevTimestamp p) us.
Proof.
  revert p. induction us as [|u us IH]; intros p; [done|]. cbn [exports]. destruct (Export u p) as [p1 cs] eqn:Hu. specialize (IH p1).
  destruct (exports us p1) as [p2 css]. cbn [snd concat] in *. rewrite answers_app IH. destruct u as [now e|res|]; cbn [Export] in Hu; [|by injection Hu as <- <-..].
  rewrite /exportEnvelope /isNewTransmission in Hu. cbn [transmissions updateLabels prevValue prevTimestamp] in Hu |- *.
  destruct (_ && _); pose proof (f_equal fst Hu) as Hp; apply (f_equal snd) in Hu; cbn [fst snd] in Hp, Hu; by rewrite -Hu -Hp answers_app always_no_answer.
Qed.
End exporter.
End metrics.

(** *** A witness *)

#[local] Instance demoFloats : Floats := {|
  float := Z; ofBig := id; fdiv := Z.div; fadd := Z.add; feq := Z.eqb; fgt := Z.gtb; seconds d := (d / 10 ^ 9)%Z; fzero := 0%Z; fone := 1%Z
|}.

Definition demoChain : ChainConfig := mkChain "mainnet" "1" "chain-1".
Definition demoFeed : FeedConfig := mkFeed "0xfeed" "LINK / USD" "link-usd" "$" "numerical_median" "live" 60 100.
Definition demoNodes : list NodeConfig := [mkNode "node-a" "0xa"].
Definition demoEnvelope (transmitter : string) (answer : Z) : Envelope := mkEnvelope answer (1000 * 10 ^ 9) 17 transmitter 5 6 7 8.
Definition demoUpdates : list update := [UEnvelope (1030 * 10 ^ 9) (demoEnvelope "0xa" 300); UTxResults (mkTxResults 4 2); UEnvelope (1100 * 10 ^ 9) (demoEnvelope "0xb" 310)].
Definition demoStart := NewExporter demoChain demoFeed.
Definition demoChanges : list change := demoStart.2 ++ concat (exports demoChain demoFeed demoNodes demoUpdates demoStart.1).2.
Definition demoBefore : registry := foldl (λ r c, apply c r) (λ _, None) demoChanges.
Definition demoAfter : registry := Cleanup demoNodes (insertion_order _) (exports demoChain demoFeed demoNodes demoUpdates demoStart.1).1 demoBefore.
Definition demoFailed : series := (feedContractTransactionsFailed, feedLabels "0xfeed" "0xfeed" "chain-1" "live" "numerical_median" "LINK / USD" "link-usd" "1" "mainnet").

Lemma demo_from c : c ∈ demoChanges → c ∈ demoStart.2 ∨ ∃ cs, cs ∈ (exports demoChain demoFeed demoNodes demoUpdates demoStart.1).2 ∧ c ∈ cs.
Proof.
  rewrite /demoChanges elem_of_app. intros [Hc|Hc]; [by left|right]. apply list_elem_of_In, List.in_concat in Hc as (cs & Hcs & Hc).
  exists cs. split; by apply list_elem_of_In.
Qed.

(** The transactions that failed are still counted after the cleanup; another
    feed's series stays. *)
Lemma exporter_cleans_witness : transmitters demoUpdates = ["0xa"; "0xb"] ∧ length demoChanges = 31 ∧
  (∀ c, c ∈ demoChanges → (seriesOf c).1 ≠ feedContractTransactionsFailed → (seriesOf c).2 !! "sender" ≠ Some "" → demoAfter (seriesOf c) = None) ∧
  demoAfter demoFailed = Some 2%Z ∧
  demoAfter (offchainAggregatorAnswers, {["feed_id" := "other"]}) = demoBefore (offchainAggregatorAnswers, {["feed_id" := "other"]}).
Proof.
  destruct (exporter_cleans demoChain demoFeed demoNodes (insertion_order _) demoUpdates demoChanges (λ _, None) demo_from) as [H Hother].
  split; [done|]. split; [vm_compute; reflexivity|]. split; [|split].
  - intros c Hc Hf Hs. etransitivity; [exact (H c Hc)|]. apply decide_False. intros [?|[?|Hall]]; [done..|]. by inversion Hall.
  - assert (AddTo demoFailed (ofBig 2) ∈ demoChanges) as Hin.
    { rewrite /demoChanges elem_of_app. right. apply list_elem_of_In, List.in_concat. exists (exportTxResults demoChain demoFeed (mkTxResults 4 2)). split; apply list_elem_of_In.
      - apply list_elem_of_further, list_elem_of_here.
      - rewrite /exportTxResults. apply list_elem_of_further, list_elem_of_here. }
    pose proof (H _ Hin) as Hx. match type of Hx with context [decide ?P] => destruct (decide P) as [_|Hn]; [|destruct Hn; by left] end.
    etransitivity; [exact Hx|]. vm_compute. reflexivity.
  - destruct (Hother (offchainAggregatorAnswers, {["feed_id" := "other"]})) as [Heq|(_ & Hc & _)]; [exact Heq|]. by vm_compute in Hc.
Defined.

(** A transmitter without a name has series that are never cleaned up. *)
Example nameless_left :
  let us := [UEnvelope 0 (demoEnvelope "" 300); UEnvelope 0 (demoEnvelope "0xa" 310)] in
  let p := exports demoChain demoFeed demoNodes us demoStart.1 in
  Cleanup demoNodes (insertion_order _) p.1 (foldl (λ r c, apply c r) (λ _, None) (concat p.2)) (nodeMetadata, nodeLabels "chain-1" "1" "mainnet" "" "") = Some 1%Z.
Proof. vm_compute. reflexivity. Qed.

(** The head of a chain is one series for all its feeds: the cleanup of one of
    them deletes it for the others. *)
Example head_shared :
  demoBefore (headTrackerCurrentHead, networkLabels "mainnet" "chain-1" "1") = Some 17%Z ∧ demoAfter (headTrackerCurrentHead, networkLabels "mainnet" "chain-1" "1") = None.
Proof. split; vm_compute; reflexivity. Qed.
End PrometheusExporter.
