(* ===== verification/Events.v ===== *)
(** [src/pkg/capabilities/events/events.go]: the emitter of operational events
    with the metadata that its messages carry.

    Marshalling and the client that takes the message are parameters. *)

From S2P Require Import Prelude.
Open Scope string_scope.
Open Scope list_scope.

Module Events.

Definition LabelWorkflowOwner : string := "workflow_owner_address".
Definition LabelWorkflowID : string := "workflow_id".
Definition LabelWorkflowExecutionID : string := "workflow_execution_id".
Definition LabelWorkflowName : string := "workflow_name".
Definition LabelCapabilityContractAddress : string := "capability_contract_address".
Definition LabelCapabilityID : string := "capability_id".
Definition LabelCapabilityVersion : string := "capability_version".
Definition LabelCapabilityName : string := "capability_name".

Record EmitMetadata := mkMetadata {
  WorkflowOwner : string; WorkflowID : string; WorkflowName : string;
  WorkflowExecutionID : string; CapabilityContractAddress : string; CapabilityID : string; CapabilityVersion : string; CapabilityName : string
}.
Definition noMetadata : EmitMetadata := mkMetadata "" "" "" "" "" "" "" "".

(** A field of the other metadata, if it has one. *)
Definition orOther (e otherE : string) : string := if String.eqb otherE "" then e else otherE.

Definition merge (e otherE : EmitMetadata) : EmitMetadata :=
  let pick f := orOther (f e) (f otherE) in
  mkMetadata (pick WorkflowOwner) (pick WorkflowID) (pick WorkflowName) (pick WorkflowExecutionID) (pick CapabilityContractAddress)
    (pick CapabilityID) (pick CapabilityVersion) (pick CapabilityName).

Definition attr (label value : string) : list (string * string) := if String.eqb value "" then [] else [(label, value)].
Definition attrs (e : EmitMetadata) : list (string * string) :=
  attr LabelWorkflowOwner (WorkflowOwner e) ++ attr LabelWorkflowID (WorkflowID e) ++ attr LabelWorkflowExecutionID (WorkflowExecutionID e) ++
  attr LabelWorkflowName (WorkflowName e) ++ attr LabelCapabilityContractAddress (CapabilityContractAddress e) ++ attr LabelCapabilityID (CapabilityID e) ++
  attr LabelCapabilityVersion (CapabilityVersion e) ++ attr LabelCapabilityName (CapabilityName e).

(** [pb.BaseMessage] *)
Record BaseMessage := mkBase { Msg : string; Labels : gmap string string }.

Inductive error := NoOwner | NoID | NoName | NotMarshalled | NotEmitted.

Section emitter.
Context (marshal : BaseMessage → option (list Byte.byte)) {W : Type} (clientEmit : list Byte.byte → list (string * string) → W → option error * W).

(** An [Emitter] is its metadata. *)
Definition With (e md : EmitMetadata) : EmitMetadata := merge e md.

Definition schemaAttrs : list (string * string) :=
  [("beholder_data_schema", "/capabilities-operational-event/versions/1"); ("beholder_data_type", "custom_message")].

Definition labelsOf (nmd : EmitMetadata) : gmap string string :=
  list_to_map [(LabelWorkflowID, WorkflowID nmd); (LabelWorkflowName, WorkflowName nmd); (LabelWorkflowOwner, WorkflowOwner nmd);
               (LabelCapabilityContractAddress, CapabilityContractAddress nmd); (LabelCapabilityID, CapabilityID nmd);
               (LabelCapabilityVersion, CapabilityVersion nmd); (LabelCapabilityName, CapabilityName nmd); (LabelWorkflowExecutionID, WorkflowExecutionID nmd)].

Definition Emit (e : EmitMetadata) (msg : string) (md : EmitMetadata) (w : W) : option error * W :=
  let nmd := merge e md in
  if String.eqb (WorkflowOwner nmd) "" then (Some NoOwner, w)
  else if String.eqb (WorkflowID nmd) "" then (Some NoID, w)
  else if String.eqb (WorkflowName nmd) "" then (Some NoName, w)
  else match marshal (mkBase msg (labelsOf nmd)) with
       | None => (Some NotMarshalled, w)
       | Some bytes => clientEmit bytes (schemaAttrs ++ attrs nmd) w
       end.

(** *** Facts *)

Lemma orOther_assoc a b c : orOther (orOther a b) c = orOther a (orOther b c).
Proof. rewrite /orOther. destruct (String.eqb_spec c "") as [->|Hc]; [done|]. by destruct (String.eqb_spec c ""). Qed.

Lemma orOther_empty a : orOther "" a = a.
Proof. rewrite /orOther. by destruct (String.eqb_spec a "") as [->|]. Qed.

(** Metadata are a monoid in which the later fields win. *)
Lemma merge_assoc a b c : merge (merge a b) c = merge a (merge b c).
Proof. rewrite /merge /=. by rewrite !orOther_assoc. Qed.

Lemma merge_empty a : merge noMetadata a = a ∧ merge a noMetadata = a.
Proof. split; destruct a; rewrite /merge /=; [by rewrite !orOther_empty|done]. Qed.

(** An emitter made in several steps emits as one that is given everything with
    the message. *)
Lemma With_Emit e a b msg md w : Emit (With (With e a) b) msg md w = Emit e msg (merge a (merge b md)) w.
Proof. rewrite /Emit /With. by rewrite !merge_assoc. Qed.

(** An event goes out exactly when it has an owner, an identifier and a name. *)
Lemma Emit_complete e msg md w :
  let nmd := merge e md in
  WorkflowOwner nmd ≠ "" → WorkflowID nmd ≠ "" → WorkflowName nmd ≠ "" →
  Emit e msg md w = match marshal (mkBase msg (labelsOf nmd)) with Some bytes => clientEmit bytes (schemaAttrs ++ attrs nmd) w | None => (Some NotMarshalled, w) end.
Proof.
  intros nmd H1 H2 H3. rewrite /Emit -/nmd. destruct (String.eqb_spec (WorkflowOwner nmd) ""); [done|].
  destruct (String.eqb_spec (WorkflowID nmd) ""); [done|]. destruct (String.eqb_spec (WorkflowName nmd) ""); [done|]. by destruct (marshal _).
Qed.

Lemma Emit_incomplete e msg md w :
  let nmd := merge e md in
  WorkflowOwner nmd = "" ∨ WorkflowID nmd = "" ∨ WorkflowName nmd = "" → ∃ err, Emit e msg md w = (Some err, w).
Proof.
  intros nmd Hm. rewrite /Emit -/nmd. destruct (String.eqb_spec (WorkflowOwner nmd) ""); [by eexists|].
  destruct (String.eqb_spec (WorkflowID nmd) ""); [by eexists|]. destruct (String.eqb_spec (WorkflowName nmd) ""); [by eexists|]. naive_solver.
Qed.

Lemma elem_of_attr label value kv : kv ∈ attr label value ↔ kv = (label, value) ∧ value ≠ "".
Proof. rewrite /attr. destruct (String.eqb_spec value ""); [rewrite elem_of_nil|rewrite list_elem_of_singleton]; naive_solver. Qed.

(** The attributes are the labels that are not empty. *)
Lemma attrs_labels nmd k v : (k, v) ∈ attrs nmd ↔ labelsOf nmd !! k = Some v ∧ v ≠ "".
Proof.
  rewrite /labelsOf -elem_of_list_to_map; [|by apply (bool_decide_unpack _)].
  rewrite /attrs !elem_of_app !elem_of_attr !elem_of_cons elem_of_nil. naive_solver.
Qed.
End emitter.
End Events.
