(* ===== verification/CCIPReaders.v ===== *)
(** [src/pkg/loop/internal/relayer/pluginprovider/ext/ccip]: the readers that
    the CCIP plugins use, behind gRPC.  This file has the data of
    [src/pkg/types/ccip] with their messages ([CCIPData]), the gas price
    estimators ([GasEstimatorRPC]), the reader of the off-ramp ([OffRampRPC])
    and that of the commit store ([CommitStoreRPC]); the others are in
    CCIPRegistryRPC.v.

    A reader is the function from the calls of its interface to its answers, on
    a state [W] of its own.  The messages are those that these clients and
    servers make: the message fields that they read are set.  A slice is a list,
    whether it is nil or empty; an absent big integer is [None]. *)

From Stdlib.Strings Require Import Ascii.
From S2P Require Import Prelude GoBytes GoStrings Values Messages ContractWriterRPC ReportingRPC RemoteErrors.
Import Messages.

Module CCIPData.
Import RemoteErrors.RemoteErrors ReportingRPC.ReportingRPC ContractWriterRPC.ContractWriterRPC.

(** [timestamppb]: a time is its Unix seconds and nanoseconds; it arrives in
    UTC. *)
Abbreviation time := (Z * Z)%type.
Definition timeOK (t : time) : Prop := inS 64 t.1 ∧ (0 <= t.2 < 10 ^ 9)%Z.
Class TimestampPb := {
  pbTimestamp : Type;
  timestampNew : time → pbTimestamp;
  AsTime : pbTimestamp → time;
  AsTime_New t : timeOK t → AsTime (timestampNew t) = t
}.

(** *** models.go and utils.go *)

(** [FinalizedStatus] is an int; the enumeration of the messages has the names
    in another order. *)
Inductive FinalityStatus := FinalityStatus_Unknown | FinalityStatus_Finalized | FinalityStatus_NotFinalized | FinalityStatus_other (n : Z).
Definition FinalizedStatusUnknown : Z := 0.
Definition FinalizedStatusFinalized : Z := 1.
Definition FinalizedStatusNotFinalized : Z := 2.

Definition finalityStatus (finalized : FinalityStatus) : Z :=
  match finalized with
  | FinalityStatus_Finalized => FinalizedStatusFinalized
  | FinalityStatus_NotFinalized => FinalizedStatusNotFinalized
  | _ => FinalizedStatusUnknown
  end.
Definition finalityStatusToPB (finalized : Z) : FinalityStatus :=
  if (finalized =? FinalizedStatusFinalized)%Z then FinalityStatus_Finalized
  else if (finalized =? FinalizedStatusNotFinalized)%Z then FinalityStatus_NotFinalized
  else FinalityStatus_Unknown.

Record TxMeta := mkTxMeta { BlockTimestampUnixMilli : Z; BlockNumber : Z; TxHash : string; LogIndex : Z; Finalized : Z }.
Record pbTxMeta := mkPbTxMeta { pbBlockTimestampUnixMilli : Z; pbBlockNumber : Z; pbTxHash : string; pbLogIndex : Z; pbFinalized : FinalityStatus }.

Definition txMetaToPB (t : TxMeta) : pbTxMeta :=
  mkPbTxMeta (BlockTimestampUnixMilli t) (BlockNumber t) (TxHash t) (LogIndex t) (finalityStatusToPB (Finalized t)).
Definition txMeta (m : pbTxMeta) : TxMeta :=
  mkTxMeta (pbBlockTimestampUnixMilli m) (pbBlockNumber m) (pbTxHash m) (pbLogIndex m) (finalityStatus (pbFinalized m)).

Definition IsFinalized (t : TxMeta) : bool := (Finalized t =? FinalizedStatusFinalized)%Z.
Definition WithFinalityStatus (finalizedBlockNumber : Z) (t : TxMeta) : TxMeta :=
  mkTxMeta (BlockTimestampUnixMilli t) (BlockNumber t) (TxHash t) (LogIndex t)
    (if decide (BlockNumber t <= finalizedBlockNumber)%Z then FinalizedStatusFinalized else FinalizedStatusNotFinalized).

Definition Strings (a : list string) : list string := a.
Definition MakeAddresses (s : list string) : list string := s.

(** *** Messages of a lane *)

Definition Hash : Type := list byte.        (* [32]byte *)
Definition zeroHash : Hash := replicate 32 x00.

Record TokenAmount := mkTokenAmount { Token : string; Amount : option Z }.
Record pbTokenAmount := mkPbTokenAmount { pbToken : string; pbAmount : option pbBigInt }.

Record EVM2EVMMessage := mkMessage {
  SequenceNumber : Z; GasLimit : option Z; Nonce : Z; MessageID : Hash; SourceChainSelector : Z; Sender : string; Receiver : string; Strict : bool;
  FeeToken : string; FeeTokenAmount : option Z; Data : list byte; TokenAmounts : list TokenAmount; SourceTokenData : list (list byte);
  MessageHash : Hash                        (* Hash, computed *)
}.
Record pbEVM2EVMMessage := mkPbMessage {
  pbSequenceNumber : Z; pbGasLimit : option pbBigInt; pbNonce : Z; pbMessageId : list byte; pbSourceChainSelector : Z; pbSender : string; pbReceiver : string;
  pbStrict : bool; pbFeeToken : string; pbFeeTokenAmount : option pbBigInt; pbData : list byte; pbTokenAmounts : list pbTokenAmount; pbSourceTokenData : list (list byte)
}.

Definition tokenAmountSlicePB (l : list TokenAmount) : list pbTokenAmount := (λ t, mkPbTokenAmount (Token t) (NewBigIntFromInt (Amount t))) <$> l.
Definition tokenAmountSlice (l : list pbTokenAmount) : list TokenAmount := (λ t, mkTokenAmount (pbToken t) (Int (pbAmount t))) <$> l.

(** [%v] of a byte slice. *)
Definition fmtBytes (b : list byte) : string := ("[" ++ String.concat " " ((λ c, Itoa (Z.of_N (Byte.to_N c))) <$> b) ++ "]")%string.

Section convert.
Context `{GRPCStatus} (fmtMessage : pbEVM2EVMMessage → string).

(** [fmt.Errorf] with a [%w] verb at its end. *)
Definition wrapf (prefix : string) (e : error) : error := EWrap (prefix ++ text e) [e].

Definition hash (h : list byte) : outcome error Hash :=
  if decide (length h ≠ 32) then Err (EText "hash length is not 32 bytes") else Ok h.

Definition evm2EVMMessage (m : pbEVM2EVMMessage) : outcome error EVM2EVMMessage :=
  let? msgID := map_err (wrapf ("failed to convert message id (" ++ fmtBytes (pbMessageId m) ++ "): ")) (hash (pbMessageId m)) in
  Ok (mkMessage (pbSequenceNumber m) (Int (pbGasLimit m)) (pbNonce m) msgID (pbSourceChainSelector m) (pbSender m) (pbReceiver m) (pbStrict m)
        (pbFeeToken m) (Int (pbFeeTokenAmount m)) (pbData m) (tokenAmountSlice (pbTokenAmounts m)) (pbSourceTokenData m) zeroHash).

Definition evm2EVMMessagePB (m : EVM2EVMMessage) : pbEVM2EVMMessage :=
  mkPbMessage (SequenceNumber m) (NewBigIntFromInt (GasLimit m)) (Nonce m) (MessageID m) (SourceChainSelector m) (Sender m) (Receiver m) (Strict m)
    (FeeToken m) (NewBigIntFromInt (FeeTokenAmount m)) (Data m) (tokenAmountSlicePB (TokenAmounts m)) (SourceTokenData m).

Definition evm2EVMMessageSlice (l : list pbEVM2EVMMessage) : outcome error (list EVM2EVMMessage) := omapM evm2EVMMessage l.
(** [evm2EVMMessageToPB] and [tokenAmountSliceToPB] of offramp.go are the
    functions above. *)
Definition evm2EVMMessageSliceToPB (l : list EVM2EVMMessage) : list pbEVM2EVMMessage := evm2EVMMessagePB <$> l.

Record EVM2EVMMessageWithTxMeta := mkWithTxMeta { msgTxMeta : TxMeta; msgMessage : EVM2EVMMessage }.
Record pbEVM2EVMMessageWithTxMeta := mkPbWithTxMeta { pbMsgTxMeta : pbTxMeta; pbMsgMessage : pbEVM2EVMMessage }.

Definition evm2EVMMessageWithTxMetaSlice (l : list pbEVM2EVMMessageWithTxMeta) : outcome error (list EVM2EVMMessageWithTxMeta) :=
  omapM (λ m, let? decodedMsg := map_err (wrapf ("failed to convert grpc message (" ++ fmtMessage (pbMsgMessage m) ++ ") to evm2evm message: ")) (evm2EVMMessage (pbMsgMessage m)) in
              Ok (mkWithTxMeta (txMeta (pbMsgTxMeta m)) decodedMsg)) l.
Definition evm2EVMMessageWithTxMetaSlicePB (l : list EVM2EVMMessageWithTxMeta) : list pbEVM2EVMMessageWithTxMeta :=
  (λ m, mkPbWithTxMeta (txMetaToPB (msgTxMeta m)) (evm2EVMMessagePB (msgMessage m))) <$> l.

(** *** Reports of executions *)

Record ExecReport := mkExecReport { Messages : list EVM2EVMMessage; OffchainTokenData : list (list (list byte)); Proofs : list (list byte); ProofFlagBits : option Z }.
Record pbExecReport := mkPbExecReport {
  pbEvmToEvmMessages : list pbEVM2EVMMessage; pbOffchainTokenData : list (list (list byte)); pbProofs : list (list byte); pbProofFlagBits : option pbBigInt
}.

Definition byte32Slice (l : list (list byte)) : outcome error (list (list byte)) :=
  omapM (λ b, if decide (length b ≠ 32) then Err (EText ("byte32Slice: invalid length " ++ Itoa (Z.of_nat (length b)))) else Ok b) l.
(** [copy] into new slices of 32 bytes. *)
Definition byte32SliceToPB (l : list (list byte)) : list (list byte) := (λ b, take 32 b) <$> l.
(** A [TokenData] is the list that it holds. *)
Definition offchainTokenData (l : list (list (list byte))) : list (list (list byte)) := (λ b, b) <$> l.
Definition offchainTokenDataToPB (l : list (list (list byte))) : list (list (list byte)) := (λ b, b) <$> l.

Definition execReport (p : pbExecReport) : outcome error ExecReport :=
  let? proofs := map_err (wrapf "execReport: invalid proofs: ") (byte32Slice (pbProofs p)) in
  let? msgs := map_err (wrapf "execReport: invalid messages: ") (evm2EVMMessageSlice (pbEvmToEvmMessages p)) in
  Ok (mkExecReport msgs (offchainTokenData (pbOffchainTokenData p)) proofs (Int (pbProofFlagBits p))).
Definition executionReportPB (r : ExecReport) : pbExecReport :=
  mkPbExecReport (evm2EVMMessageSliceToPB (Messages r)) (offchainTokenDataToPB (OffchainTokenData r)) (byte32SliceToPB (Proofs r)) (NewBigIntFromInt (ProofFlagBits r)).

(** *** Facts *)

Definition unhashed (m : EVM2EVMMessage) : EVM2EVMMessage :=
  mkMessage (SequenceNumber m) (GasLimit m) (Nonce m) (MessageID m) (SourceChainSelector m) (Sender m) (Receiver m) (Strict m) (FeeToken m) (FeeTokenAmount m)
    (Data m) (TokenAmounts m) (SourceTokenData m) zeroHash.
Definition messageOK (m : EVM2EVMMessage) : Prop := length (MessageID m) = 32.
Definition metaOK (t : TxMeta) : Prop := Finalized t ∈ [0; 1; 2]%Z.
Definition unhashedReport (r : ExecReport) : ExecReport := mkExecReport (unhashed <$> Messages r) (OffchainTokenData r) (Proofs r) (ProofFlagBits r).
Definition execReportOK (r : ExecReport) : Prop := Forall messageOK (Messages r) ∧ Forall (λ b, length b = 32) (Proofs r).

Lemma txMeta_back t : metaOK t → txMeta (txMetaToPB t) = t.
Proof.
  destruct t as [a b c d f]. rewrite /metaOK /=. intros Hf. rewrite /txMeta /txMetaToPB /=. f_equal.
  rewrite !elem_of_cons elem_of_nil in Hf. by destruct Hf as [->|[->|[->|[]]]].
Qed.

Lemma tokenAmounts_back l : tokenAmountSlice (tokenAmountSlicePB l) = l.
Proof.
  rewrite /tokenAmountSlice /tokenAmountSlicePB -list_fmap_compose -{2}(list_fmap_id l). apply list_fmap_ext. intros ? [t a] _.
  by rewrite /= Int_NewBigIntFromInt.
Qed.

Lemma message_there m : messageOK m → evm2EVMMessage (evm2EVMMessagePB m) = Ok (unhashed m).
Proof.
  rewrite /messageOK. intros Hm. rewrite /evm2EVMMessage /hash /=. destruct (decide (length (MessageID m) ≠ 32)); [done|].
  by rewrite /= !Int_NewBigIntFromInt tokenAmounts_back.
Qed.

Lemma omapM_fmap {A B C} (f : B → outcome error C) (g : A → B) (h : A → C) (P : A → Prop) l :
  (∀ a, P a → f (g a) = Ok (h a)) → Forall P l → omapM f (g <$> l) = Ok (h <$> l).
Proof. intros Hf Hl. apply omapM_Forall2. rewrite Forall2_fmap. induction Hl; constructor; eauto. Qed.

Lemma messages_there l : Forall messageOK l → evm2EVMMessageSlice (evm2EVMMessageSliceToPB l) = Ok (unhashed <$> l).
Proof. apply omapM_fmap. apply message_there. Qed.

Definition unhashedWithMeta (m : EVM2EVMMessageWithTxMeta) : EVM2EVMMessageWithTxMeta := mkWithTxMeta (msgTxMeta m) (unhashed (msgMessage m)).
Definition withMetaOK (m : EVM2EVMMessageWithTxMeta) : Prop := metaOK (msgTxMeta m) ∧ messageOK (msgMessage m).

Lemma messagesWithMeta_there l : Forall withMetaOK l → evm2EVMMessageWithTxMetaSlice (evm2EVMMessageWithTxMetaSlicePB l) = Ok (unhashedWithMeta <$> l).
Proof. apply omapM_fmap. intros m [Ht Hm]. cbn. by rewrite message_there //= txMeta_back. Qed.

Lemma byte32_there l : Forall (λ b : list byte, length b = 32) l → byte32Slice (byte32SliceToPB l) = Ok l.
Proof.
  intros Hl. rewrite -{2}(list_fmap_id l). apply (omapM_fmap _ _ _ (λ b, length b = 32)); [|done]. cbn. intros b Hb.
  assert (take 32 b = b) as -> by (rewrite -Hb; apply firstn_all). destruct (decide _); [done|]. done.
Qed.

Lemma execReport_there r : execReportOK r → execReport (executionReportPB r) = Ok (unhashedReport r).
Proof.
  intros [Hm Hp]. rewrite /execReport /executionReportPB /=. rewrite byte32_there //= messages_there //=. rewrite Int_NewBigIntFromInt.
  by rewrite /offchainTokenData /offchainTokenDataToPB !list_fmap_id.
Qed.
End convert.

(** *** Closing *)

Section close.
Context `{GRPCStatus} {W : Type}.

Definition Closer : Type := M (W:=W) unit.

(** [errors.Join] of an error that may be nil and one that is not. *)
Definition joined (err : option error) (e : error) : error :=
  match err with
  | None => EWrap (text e) [e]
  | Some err => EWrap (text err ++ String "010"%char EmptyString ++ text e) [err; e]
  end.

(** [services.MultiCloser(deps).Close()], whose closers run concurrently. *)
Fixpoint closeEach (deps : list Closer) (w : W) : outcome error (list error) * W :=
  match deps with
  | [] => (Ok [], w)
  | c :: deps =>
      let '(r, w) := c w in
      let '(errs, w) := closeEach deps w in
      (match r with Panic => Panic | Ok _ => errs | Err e => let? errs := errs in Ok (e :: errs) end, w)
  end.
Definition closeDeps (O : RangeOrder Closer) (deps : list Closer) : Closer :=
  λ w, let '(errs, w) := closeEach (range_order O deps) w in
       (let? errs := errs in match foldl (λ err e, Some (joined err e)) None errs with None => Ok tt | Some e => Err e end, w).

Definition Unavailable : code := OtherCode 14.

(** [shutdownGRPCServer], of the [Close] of a server. *)
Definition shutdownGRPCServer (server : Closer) : Closer :=
  λ w, let '(r, w) := over server w in
       (match r with
        | Err e => if bool_decide ((Convert e).1 = Unavailable ∨ (Convert e).1 = Internal) then Ok tt else Err e
        | r => r
        end, w).

(** Closing a reader with one dependency that fails with an error of kind
    [InternalError] succeeds; the kind does not survive two failures. *)
Lemma internal_lost O (dep : Closer) msg w w' : dep w = (Err (ETyped InternalError msg), w') →
  shutdownGRPCServer (closeDeps O [dep]) w = (Ok tt, w').
Proof.
  intros Hd. rewrite /shutdownGRPCServer /over /closeDeps.
  assert (range_order O [dep] = [dep]) as -> by (apply Permutation_singleton_r, range_order_perm).
  cbn [closeEach]. rewrite Hd /=. rewrite bool_decide_true //. right. rewrite /arrived.
  rewrite (Convert_own (EStatus _ _) (Convert (EWrap (text (ETyped InternalError msg)) [ETyped InternalError msg])).1
             (Convert (EWrap (text (ETyped InternalError msg)) [ETyped InternalError msg])).2) //.
  by rewrite /Convert (FromError_wrapped _ _ Internal msg).
Qed.

(** Every dependency is closed, whatever the others return. *)
Definition run1 (w : W) (dep : Closer) : W := (dep w).2.
Lemma closeDeps_all O deps w : (closeDeps O deps w).2 = foldl run1 w (range_order O deps).
Proof.
  rewrite /closeDeps. assert (∀ l w, (closeEach l w).2 = foldl run1 w l) as Hc.
  { intros l. induction l as [|c l IH]; intros u; [done|]. cbn [closeEach foldl]. rewrite /run1 -/run1. destruct (c u) as [r u1]. cbn.
    specialize (IH u1). destruct (closeEach l u1) as [errs u2]. done. }
  specialize (Hc (range_order O deps) w). destruct (closeEach _ w) as [errs u]. cbn in *. done.
Qed.
End close.
End CCIPData.

(** *** Calls over a connection *)

Section calls.
Import RemoteErrors.RemoteErrors ReportingRPC.ReportingRPC ContractWriterRPC.ContractWriterRPC.
Context `{GRPCStatus} {W Call Answer Rep : Type}.

(** What the caller of a client gets: an answer as [seen], an error as its
    status. *)
Definition seenBack (seen : Answer → Answer) (r : outcome error Answer) : outcome error Answer :=
  match r with Ok a => Ok (seen a) | Err e => Err (arrived e) | Panic => Panic end.

Lemma turned_over (enc : Answer → outcome error Rep) (dec : Rep → outcome error Answer) (seen : Answer → Answer) (P : Answer → Prop) (m : M (W:=W) Answer) w :
  typed m P → (∀ a, P a → ∃ r, enc a = Ok r ∧ dec r = Ok (seen a)) →
  turned dec (over (turned enc m)) w = (seenBack seen (m w).1, (m w).2).
Proof.
  intros Ht Hd. specialize (Ht w). rewrite /turned /over. destruct (m w) as [[a|e|] w'] eqn:E; [|done..].
  cbn [obind]. destruct (Hd a (Ht a w' eq_refl)) as (r & Hr & Hs). rewrite Hr. cbn [map_err obind]. by rewrite Hs.
Qed.
End calls.

(** *** gas_estimator.go *)

Module GasEstimatorRPC.
Import RemoteErrors.RemoteErrors ReportingRPC.ReportingRPC ContractWriterRPC.ContractWriterRPC CCIPData.

Record SendRequestedWithMeta := mkSendRequested {
  srMessage : EVM2EVMMessage; BlockTimestamp : time; Executed : bool; srFinalized : bool; srLogIndex : Z; srTxHash : string
}.

Section wire.
Context `{TimestampPb}.
Record pbSendRequestedWithMeta := mkPbSendRequested {
  pbEvmToEvmMsg : pbEVM2EVMMessage; pbBlockTimestamp : pbTimestamp; pbExecuted : bool; pbSrFinalized : bool; pbSrLogIndex : Z; pbSrTxHash : string
}.
End wire.

(** The calls of [GasPriceEstimatorCommit] and of [GasPriceEstimatorExec]. *)
Inductive commitCall := DenoteInUSD (p wrappedNativePrice : option Z) | Deviates (p1 p2 : option Z) | GetGasPrice | Median (gasPrices : list (option Z)).
Inductive execCall :=
  | ExecDenoteInUSD (p wrappedNativePrice : option Z)
  | EstimateMsgCostUSD (p wrappedNativePrice : option Z) (msg : SendRequestedWithMeta)
  | ExecGetGasPrice
  | ExecMedian (gasPrices : list (option Z)).
Inductive gasAnswer := ABig (i : option Z) | ABool (b : bool).

Inductive commitRequest :=
  | DenoteInUSDRequest (p wrappedNativePrice : option pbBigInt)
  | DeviatesRequest (p1 p2 : option pbBigInt)
  | GetGasPriceRequest
  | MedianRequest (gasPrices : list (option pbBigInt)).
Inductive execRequest `{TimestampPb} :=
  | ExecDenoteInUSDRequest (p wrappedNativePrice : option pbBigInt)
  | EstimateMsgCostUSDRequest (p wrappedNativePrice : option pbBigInt) (msg : pbSendRequestedWithMeta)
  | ExecGetGasPriceRequest
  | ExecMedianRequest (gasPrices : list (option pbBigInt)).
Inductive gasRep := RBig (i : option pbBigInt) | RBool (b : bool).

Definition bigIntSlicePB (l : list (option Z)) : list (option pbBigInt) := NewBigIntFromInt <$> l.
Definition bigIntSlice (l : list (option pbBigInt)) : list (option Z) := Int <$> l.

Section rpc.
Context `{GRPCStatus, TimestampPb} {W : Type}.

Definition CommitEstimator : Type := commitCall → M (W:=W) gasAnswer.
Definition ExecEstimator : Type := execCall → M (W:=W) gasAnswer.

(** The names of these two functions are swapped in the source. *)
Definition evm2EVMOnRampCCIPSendRequestedWithMeta (m : SendRequestedWithMeta) : pbSendRequestedWithMeta :=
  mkPbSendRequested (evm2EVMMessagePB (srMessage m)) (timestampNew (BlockTimestamp m)) (Executed m) (srFinalized m) (wrapU 64 (srLogIndex m)) (srTxHash m).
Definition evm2EVMOnRampCCIPSendRequestedWithMetaPB (p : pbSendRequestedWithMeta) : outcome error SendRequestedWithMeta :=
  let? msg := evm2EVMMessage (pbEvmToEvmMsg p) in
  Ok (mkSendRequested msg (AsTime (pbBlockTimestamp p)) (pbExecuted p) (pbSrFinalized p) (wrapU 64 (pbSrLogIndex p)) (pbSrTxHash p)).

Definition gasEncode (a : gasAnswer) : outcome error gasRep := Ok (match a with ABig i => RBig (NewBigIntFromInt i) | ABool b => RBool b end).
Definition gasDecode (r : gasRep) : outcome error gasAnswer := Ok (match r with RBig i => ABig (Int i) | RBool b => ABool b end).

(** The methods of [CommitGasEstimatorGRPCServer]. *)
Definition commitServer (impl : CommitEstimator) (req : commitRequest) : M (W:=W) gasRep :=
  match req with
  | DenoteInUSDRequest p n => turned gasEncode (impl (DenoteInUSD (Int p) (Int n)))
  | DeviatesRequest p1 p2 => turned gasEncode (impl (Deviates (Int p1) (Int p2)))
  | GetGasPriceRequest => turned gasEncode (impl GetGasPrice)
  | MedianRequest l => turned gasEncode (impl (Median (bigIntSlice l)))
  end.
(** The methods of [CommitGasEstimatorGRPCClient]. *)
Definition commitClient (grpc : commitRequest → M (W:=W) gasRep) (c : commitCall) : M (W:=W) gasAnswer :=
  match c with
  | DenoteInUSD p n => turned gasDecode (grpc (DenoteInUSDRequest (NewBigIntFromInt p) (NewBigIntFromInt n)))
  | Deviates p1 p2 => turned gasDecode (grpc (DeviatesRequest (NewBigIntFromInt p1) (NewBigIntFromInt p2)))
  | GetGasPrice => turned gasDecode (grpc GetGasPriceRequest)
  | Median l => turned gasDecode (grpc (MedianRequest (bigIntSlicePB l)))
  end.
Definition commitRemote (impl : CommitEstimator) : CommitEstimator := commitClient (λ req, over (commitServer impl req)).

(** The methods of [ExecGasEstimatorGRPCServer]. *)
Definition execServer (impl : ExecEstimator) (req : execRequest) : M (W:=W) gasRep :=
  match req with
  | ExecDenoteInUSDRequest p n => turned gasEncode (impl (ExecDenoteInUSD (Int p) (Int n)))
  | EstimateMsgCostUSDRequest p n msg =>
      checked (map_err (wrapf "failed to convert evm2evm msg: ") (evm2EVMOnRampCCIPSendRequestedWithMetaPB msg)) (λ msg,
        turned gasEncode (impl (EstimateMsgCostUSD (Int p) (Int n) msg)))
  | ExecGetGasPriceRequest => turned gasEncode (impl ExecGetGasPrice)
  | ExecMedianRequest l => turned gasEncode (impl (ExecMedian (bigIntSlice l)))
  end.
(** The methods of [ExecGasEstimatorGRPCClient]. *)
Definition execClient (grpc : execRequest → M (W:=W) gasRep) (c : execCall) : M (W:=W) gasAnswer :=
  match c with
  | ExecDenoteInUSD p n => turned gasDecode (grpc (ExecDenoteInUSDRequest (NewBigIntFromInt p) (NewBigIntFromInt n)))
  | EstimateMsgCostUSD p n msg =>
      turned gasDecode (grpc (EstimateMsgCostUSDRequest (NewBigIntFromInt p) (NewBigIntFromInt n) (evm2EVMOnRampCCIPSendRequestedWithMeta msg)))
  | ExecGetGasPrice => turned gasDecode (grpc ExecGetGasPriceRequest)
  | ExecMedian l => turned gasDecode (grpc (ExecMedianRequest (bigIntSlicePB l)))
  end.
Definition execRemote (impl : ExecEstimator) : ExecEstimator := execClient (λ req, over (execServer impl req)).

(** *** Facts *)

Lemma bigInts_back l : bigIntSlice (bigIntSlicePB l) = l.
Proof. rewrite /bigIntSlice /bigIntSlicePB -list_fmap_compose -{2}(list_fmap_id l). apply list_fmap_ext. intros ? i _. apply Int_NewBigIntFromInt. Qed.

Lemma gas_answer_back (a : gasAnswer) : ∃ r, gasEncode a = Ok r ∧ gasDecode r = Ok a.
Proof. eexists. split; [done|]. rewrite /gasDecode. destruct a; [|done]. by rewrite Int_NewBigIntFromInt. Qed.

Definition sendRequestedOK (m : SendRequestedWithMeta) : Prop := messageOK (srMessage m) ∧ timeOK (BlockTimestamp m) ∧ inU 64 (srLogIndex m).
Definition unhashedRequest (m : SendRequestedWithMeta) : SendRequestedWithMeta :=
  mkSendRequested (unhashed (srMessage m)) (BlockTimestamp m) (Executed m) (srFinalized m) (srLogIndex m) (srTxHash m).

Lemma sendRequested_there m : sendRequestedOK m →
  evm2EVMOnRampCCIPSendRequestedWithMetaPB (evm2EVMOnRampCCIPSendRequestedWithMeta m) = Ok (unhashedRequest m).
Proof.
  intros (Hm & Ht & Hl). rewrite /evm2EVMOnRampCCIPSendRequestedWithMetaPB /=. rewrite message_there //=. rewrite (AsTime_New _ Ht). by rewrite !wrapU_small // wrapU_small.
Qed.

(** Prices in a slice are not nil, as the interface asks. *)
Definition commitOK (c : commitCall) : Prop := match c with Median l => Forall is_Some l | _ => True end.
Definition execOK (c : execCall) : Prop :=
  match c with ExecMedian l => Forall is_Some l | EstimateMsgCostUSD _ _ msg => sendRequestedOK msg | _ => True end.
(** The call that the estimator gets: without the computed hash. *)
Definition execArrives (c : execCall) : execCall := match c with EstimateMsgCostUSD p n msg => EstimateMsgCostUSD p n (unhashedRequest msg) | c => c end.

Lemma turned_answer (m : M (W:=W) gasAnswer) w : turned gasDecode (over (turned gasEncode m)) w = (sent (m w).1, (m w).2).
Proof.
  rewrite (turned_over gasEncode gasDecode id (λ _, True)); [|by intros ?|by intros a _; apply gas_answer_back]. by destruct (m w) as [[] ?].
Qed.

(** The commit plugin's estimator behind gRPC is the estimator. *)
Lemma commit_estimator_behind_rpc (impl : CommitEstimator) cs w :
  execs (commitRemote impl) cs w = (sent <$> (execs impl cs w).1, (execs impl cs w).2).
Proof.
  apply execs_behindRPC. apply Forall_forall. intros c _ u.
  destruct c as [p n|p1 p2| |l]; cbn [commitRemote commitClient commitServer]; rewrite ?Int_NewBigIntFromInt ?bigInts_back; apply turned_answer.
Qed.

(** The execution plugin's estimator behind gRPC is the estimator, but for the
    hash of the message whose cost is estimated. *)
Lemma exec_estimator_behind_rpc (impl : ExecEstimator) cs w : Forall execOK cs →
  execs (execRemote impl) cs w = (sent <$> (execs impl (execArrives <$> cs) w).1, (execs impl (execArrives <$> cs) w).2).
Proof.
  intros Hc. apply execs_related. rewrite Forall2_fmap_r. apply Forall_Forall2_diag. eapply Forall_impl; [exact Hc|]. intros c Hok u.
  destruct c as [p n|p n msg| |l]; cbn [execRemote execClient execServer execArrives]; rewrite ?Int_NewBigIntFromInt ?bigInts_back; try apply turned_answer.
  cbn in Hok. rewrite sendRequested_there // /checked /=. apply turned_answer.
Qed.
End rpc.
End GasEstimatorRPC.

(** *** offramp.go *)

Module OffRampRPC.
Import RemoteErrors.RemoteErrors ReportingRPC.ReportingRPC ContractWriterRPC.ContractWriterRPC CCIPData.

Record TokenBucketRateLimit := mkRateLimit { Tokens : option Z; LastUpdated : Z; IsEnabled : bool; Capacity : option Z; Rate : option Z }.
Record pbTokenPoolRateLimit := mkPbRateLimit { pbTokens : option pbBigInt; pbLastUpdated : Z; pbIsEnabled : bool; pbCapacity : option pbBigInt; pbRate : option pbBigInt }.
Definition tokenBucketRateLimit (p : pbTokenPoolRateLimit) : TokenBucketRateLimit :=
  mkRateLimit (Int (pbTokens p)) (pbLastUpdated p) (pbIsEnabled p) (Int (pbCapacity p)) (Int (pbRate p)).
Definition tokenBucketRateLimitPB (s : TokenBucketRateLimit) : pbTokenPoolRateLimit :=
  mkPbRateLimit (NewBigIntFromInt (Tokens s)) (LastUpdated s) (IsEnabled s) (NewBigIntFromInt (Capacity s)) (NewBigIntFromInt (Rate s)).

Record ExecutionStateChangedWithTxMeta := mkStateChanged { scTxMeta : TxMeta; scSequenceNumber : Z }.
Record pbExecutionStateChange := mkPbStateChanged { pbScTxMeta : pbTxMeta; pbScSeqNum : Z }.
Definition executionStateChangedWithTxMeta (p : pbExecutionStateChange) : ExecutionStateChangedWithTxMeta := mkStateChanged (txMeta (pbScTxMeta p)) (pbScSeqNum p).
Definition executionStateChangedWithTxMetaToPB (c : ExecutionStateChangedWithTxMeta) : pbExecutionStateChange := mkPbStateChanged (txMetaToPB (scTxMeta c)) (scSequenceNumber c).
Definition executionStateChangedWithTxMetaSlice (l : list pbExecutionStateChange) := executionStateChangedWithTxMeta <$> l.
Definition executionStateChangedWithTxMetaSliceToPB (l : list ExecutionStateChangedWithTxMeta) := executionStateChangedWithTxMetaToPB <$> l.

Record OffRampStaticConfig := mkStaticConfig { CommitStore : string; ChainSelector : Z; scSourceChainSelector : Z; OnRamp : string; PrevOffRamp : string; ArmProxy : string }.
Record OffRampTokens := mkTokens { DestinationTokens : list string; SourceTokens : list string }.
Definition offRampTokens (t : OffRampTokens) : OffRampTokens := mkTokens (MakeAddresses (DestinationTokens t)) (MakeAddresses (SourceTokens t)).
Definition offRampTokensToPB (t : OffRampTokens) : OffRampTokens := mkTokens (Strings (DestinationTokens t)) (Strings (SourceTokens t)).

(** [ExecOffchainConfig]; the type [F] of the floats is a parameter. *)
Section config.
Context `{DurationPb} {F : Type}.
Record ExecOffchainConfig := mkOffchainConfig {
  DestOptimisticConfirmations : Z; BatchGasLimit : Z; RelativeBoostPerWaitHour : F; InflightCacheExpiry : Z; RootSnoozeTime : Z;
  MessageVisibilityInterval : Z; BatchingStrategyID : Z
}.
Record pbExecOffchainConfig := mkPbOffchainConfig {
  pbDestOptimisticConfirmations : Z; pbBatchGasLimit : Z; pbRelativeBoostPerWaitHour : F; pbInflightCacheExpiry : option pbDuration;
  pbRootSnoozeTime : option pbDuration; pbMessageVisibilityInterval : option pbDuration; pbBatchingStrategyId : Z
}.
Record ExecOnchainConfig := mkOnchainConfig {
  PermissionLessExecutionThresholdSeconds : Z; Router : string; MaxDataBytes : Z; MaxNumberOfTokensPerMsg : Z; PriceRegistry : string;
  MaxPoolReleaseOrMintGas : Z; MaxTokenTransferGas : Z
}.
Record pbExecOnchainConfig := mkPbOnchainConfig {
  pbPermissionlessExecThresholdSeconds : option pbDuration; pbRouter : string; pbMaxDataBytes : Z; pbMaxNumberOfTokensPerMsg : Z; pbPriceRegistry : string;
  pbMaxPoolReleaseOrMintGas : Z; pbMaxTokenTransferGas : Z
}.
Definition Validate (c : ExecOnchainConfig) : option error :=
  if decide (PermissionLessExecutionThresholdSeconds c = 0)%Z then Some (EText "must set PermissionLessExecutionThresholdSeconds") else None.
End config.
Arguments ExecOffchainConfig : clear implicits.
Arguments pbExecOffchainConfig {_} F.

Inductive offRampCall :=
  | Address
  | ChangeConfig (onchainConfig offchainConfig : list byte)
  | CurrentRateLimiterState
  | DecodeExecutionReport (report : list byte)
  | EncodeExecutionReport (report : ExecReport)
  | GasPriceEstimator
  | GetExecutionState (sequenceNumber : Z)
  | GetExecutionStateChangesBetweenSeqNums (seqNumMin seqNumMax confirmations : Z)
  | ListSenderNonces (senders : list string)
  | GetSourceToDestTokensMapping
  | GetStaticConfig
  | GetTokens
  | GetRouter
  | OffchainConfig
  | OnchainConfig.

Inductive offRampRequest :=
  | AddressRequest
  | ChangeConfigRequest (onchainConfig offchainConfig : list byte)
  | CurrentRateLimiterStateRequest
  | DecodeExecutionReportRequest (report : list byte)
  | EncodeExecutionReportRequest (report : pbExecReport)
  | GasPriceEstimatorRequest
  | GetExecutionStateRequest (seqNum : Z)
  | GetExecutionStateChangesRequest (minSeqNum maxSeqNum confirmations : Z)
  | ListSenderNoncesRequest (senders : list string)
  | GetSourceToDestTokensMappingRequest
  | GetStaticConfigRequest
  | GetTokensRequest
  | GetRouterRequest
  | OffchainConfigRequest
  | OnchainConfigRequest.

Section rpc.
Context `{GRPCStatus, DurationPb} (DurationString : Z → string) {W F E : Type}.

(** The answers, [E] the gas price estimators; a nonce, a uint64, by its
    sender. *)
Inductive offRampAnswer :=
  | AAddress (address : string)
  | AAddresses (onchain offchain : string)
  | ARateLimit (s : TokenBucketRateLimit)
  | AReport (report : ExecReport)
  | AEncoded (report : list byte)
  | AEstimator (estimator : E)
  | AState (state : Z)                               (* uint8 *)
  | AChanges (changes : list ExecutionStateChangedWithTxMeta)
  | ANonces (nonces : gmap string Z)
  | AMapping (tokens : gmap string string)
  | AStatic (config : OffRampStaticConfig)
  | ATokens (tokens : OffRampTokens)
  | AOffchain (config : ExecOffchainConfig F)
  | AOnchain (config : ExecOnchainConfig).

Inductive offRampRep :=
  | RAddress (address : string)
  | RAddresses (onchain offchain : string)
  | RRateLimit (s : pbTokenPoolRateLimit)
  | RReport (report : pbExecReport)
  | REncoded (report : list byte)
  | REstimator (estimatorServiceId : Z)              (* int32 *)
  | RState (state : Z)                               (* uint32 *)
  | RChanges (changes : list pbExecutionStateChange)
  | RNonces (nonces : gmap string Z)
  | RMapping (tokens : gmap string string)
  | RStatic (config : OffRampStaticConfig)
  | RTokens (tokens : OffRampTokens)
  | ROffchain (config : pbExecOffchainConfig F)
  | ROnchain (config : pbExecOnchainConfig).

(** [config.NewDuration] *)
Definition NewDuration (d : Z) : outcome error Z :=
  if decide (d < 0)%Z then Err (EText ("cannot make negative time duration: " ++ DurationString d)) else Ok d.

Definition offChainConfig (p : pbExecOffchainConfig F) : outcome error (ExecOffchainConfig F) :=
  let? cachedExpiry := map_err (wrapf "offChainConfig: invalid InflightCacheExpiry: ") (NewDuration (AsDuration (pbInflightCacheExpiry p))) in
  let? rootSnoozeTime := map_err (wrapf "offChainConfig: invalid RootSnoozeTime: ") (NewDuration (AsDuration (pbRootSnoozeTime p))) in
  let? messageVisibleInterval := map_err (wrapf "offChainConfig: invalid MessageVisibilityInterval: ") (NewDuration (AsDuration (pbMessageVisibilityInterval p))) in
  Ok (mkOffchainConfig (pbDestOptimisticConfirmations p) (pbBatchGasLimit p) (pbRelativeBoostPerWaitHour p) cachedExpiry rootSnoozeTime
        messageVisibleInterval (pbBatchingStrategyId p)).
Definition offChainConfigToPB (c : ExecOffchainConfig F) : pbExecOffchainConfig F :=
  mkPbOffchainConfig (DestOptimisticConfirmations c) (BatchGasLimit c) (RelativeBoostPerWaitHour c) (Some (durationNew (InflightCacheExpiry c)))
    (Some (durationNew (RootSnoozeTime c))) (Some (durationNew (MessageVisibilityInterval c))) (BatchingStrategyID c).

(** [sourceToDestTokensMapping], [senderToNonceMapping] and their inverses copy
    a map entry by entry. *)
Definition sourceToDestTokensMapping (m : gmap string string) : gmap string string := m.
Definition senderToNonceMapping (m : gmap string Z) : gmap string Z := m.

Definition OffRamp : Type := offRampCall → M (W:=W) offRampAnswer.

(** What the server makes of an answer, and the client of a reply. *)
Definition offRampEncode (a : offRampAnswer) : outcome error offRampRep :=
  match a with
  | AAddress address => Ok (RAddress address)
  | AAddresses onchain offchain => Ok (RAddresses onchain offchain)
  | ARateLimit s => Ok (RRateLimit (tokenBucketRateLimitPB s))
  | AReport report => Ok (RReport (executionReportPB report))
  | AEncoded report => Ok (REncoded report)
  | AEstimator _ => Panic                            (* not sent *)
  | AState state => Ok (RState (wrapU 32 state))
  | AChanges changes => Ok (RChanges (executionStateChangedWithTxMetaSliceToPB changes))
  | ANonces nonces => Ok (RNonces (senderToNonceMapping nonces))
  | AMapping tokens => Ok (RMapping (sourceToDestTokensMapping tokens))
  | AStatic config => Ok (RStatic config)
  | ATokens tokens => Ok (RTokens (offRampTokensToPB tokens))
  | AOffchain config => Ok (ROffchain (offChainConfigToPB config))
  | AOnchain c =>
      Ok (ROnchain (mkPbOnchainConfig (Some (durationNew (PermissionLessExecutionThresholdSeconds c))) (Router c) (MaxDataBytes c)
            (wrapU 32 (MaxNumberOfTokensPerMsg c)) (PriceRegistry c) (MaxPoolReleaseOrMintGas c) (MaxTokenTransferGas c)))
  end.

(** [dial] is the broker of the client. *)
Definition offRampDecode (dial : Z → outcome error E) (r : offRampRep) : outcome error offRampAnswer :=
  match r with
  | RAddress address => Ok (AAddress address)
  | RAddresses onchain offchain => Ok (AAddresses onchain offchain)
  | RRateLimit s => Ok (ARateLimit (tokenBucketRateLimit s))
  | RReport report => let? report := execReport report in Ok (AReport report)
  | REncoded report => Ok (AEncoded report)
  | REstimator id =>
      let? e := map_err (wrapf ("failed to lookup gas estimator service for off ramp reader at " ++ Itoa id ++ ": ")) (dial (wrapU 32 id)) in Ok (AEstimator e)
  | RState state => Ok (AState (wrapU 8 state))
  | RChanges changes => Ok (AChanges (executionStateChangedWithTxMetaSlice changes))
  | RNonces nonces => Ok (ANonces (senderToNonceMapping nonces))
  | RMapping tokens => Ok (AMapping (sourceToDestTokensMapping tokens))
  | RStatic config => Ok (AStatic config)
  | RTokens tokens => Ok (ATokens (offRampTokens tokens))
  | ROffchain config => let? config := offChainConfig config in Ok (AOffchain config)
  | ROnchain c => Ok (AOnchain (mkOnchainConfig (AsDuration (pbPermissionlessExecThresholdSeconds c)) (pbRouter c) 0 0 "" 0 0))
  end.

(** The methods of [OffRampReaderGRPCServer], whose estimator was served with
    the number [gasEstimatorServerID]. *)
Definition offRampServer (impl : OffRamp) (gasEstimatorServerID : Z) (req : offRampRequest) : M (W:=W) offRampRep :=
  match req with
  | AddressRequest => turned offRampEncode (impl Address)
  | ChangeConfigRequest onchain offchain => turned offRampEncode (impl (ChangeConfig onchain offchain))
  | CurrentRateLimiterStateRequest => turned offRampEncode (impl CurrentRateLimiterState)
  | DecodeExecutionReportRequest report => turned offRampEncode (impl (DecodeExecutionReport report))
  | EncodeExecutionReportRequest report => checked (execReport report) (λ report, turned offRampEncode (impl (EncodeExecutionReport report)))
  | GasPriceEstimatorRequest => λ w, (Ok (REstimator (wrapS 32 gasEstimatorServerID)), w)
  | GetExecutionStateRequest seqNum => turned offRampEncode (impl (GetExecutionState seqNum))
  | GetExecutionStateChangesRequest lo hi confirmations =>
      turned offRampEncode (impl (GetExecutionStateChangesBetweenSeqNums lo hi (wrapS 64 confirmations)))
  | ListSenderNoncesRequest senders => turned offRampEncode (impl (ListSenderNonces (MakeAddresses senders)))
  | GetSourceToDestTokensMappingRequest => turned offRampEncode (impl GetSourceToDestTokensMapping)
  | GetStaticConfigRequest => turned offRampEncode (impl GetStaticConfig)
  | GetTokensRequest => turned offRampEncode (impl GetTokens)
  | GetRouterRequest => turned offRampEncode (impl GetRouter)
  | OffchainConfigRequest => turned offRampEncode (impl OffchainConfig)
  | OnchainConfigRequest => turned offRampEncode (impl OnchainConfig)
  end.

(** The request of a call. *)
Definition requestOf (c : offRampCall) : offRampRequest :=
  match c with
  | Address => AddressRequest
  | ChangeConfig onchain offchain => ChangeConfigRequest onchain offchain
  | CurrentRateLimiterState => CurrentRateLimiterStateRequest
  | DecodeExecutionReport report => DecodeExecutionReportRequest report
  | EncodeExecutionReport report => EncodeExecutionReportRequest (executionReportPB report)
  | GasPriceEstimator => GasPriceEstimatorRequest
  | GetExecutionState sequenceNumber => GetExecutionStateRequest sequenceNumber
  | GetExecutionStateChangesBetweenSeqNums lo hi confirmations => GetExecutionStateChangesRequest lo hi (wrapS 64 confirmations)
  | ListSenderNonces senders => ListSenderNoncesRequest (Strings senders)
  | GetSourceToDestTokensMapping => GetSourceToDestTokensMappingRequest
  | GetStaticConfig => GetStaticConfigRequest
  | GetTokens => GetTokensRequest
  | GetRouter => GetRouterRequest
  | OffchainConfig => OffchainConfigRequest
  | OnchainConfig => OnchainConfigRequest
  end.

(** The methods of [OffRampReaderGRPCClient]. *)
Definition offRampClient (dial : Z → outcome error E) (grpc : offRampRequest → M (W:=W) offRampRep) (c : offRampCall) : M (W:=W) offRampAnswer := turned (offRampDecode dial) (grpc (requestOf c)).

Definition offRampRemote (impl : OffRamp) (gasEstimatorServerID : Z) (dial : Z → outcome error E) : OffRamp :=
  offRampClient dial (λ req, over (offRampServer impl gasEstimatorServerID req)).

(** [NewOffRampReaderGRPCServer]: the estimator is got once and served; the
    broker is the list of what is served. *)
Definition NewOffRampReaderGRPCServer (impl : OffRamp) (serveErr : option error) (bw : list E * W) : outcome error Z * (list E * W) :=
  let '(b, w) := bw in
  let '(r, w) := impl GasPriceEstimator w in
  match r with
  | Ok (AEstimator e) => match serveErr with Some err => (Err err, (b, w)) | None => (Ok (Z.of_nat (length b)), (b ++ [e], w)) end
  | Ok _ | Panic => (Panic, (b, w))
  | Err err => (Err err, (b, w))
  end.

(** [Dial] of the broker, and the client of the estimator. *)
Definition dialEstimator (dialErr : error) (newClient : E → E) (b : list E) (id : Z) : outcome error E :=
  match b !! Z.to_nat id with Some e => Ok (newClient e) | None => Err dialErr end.

(** *** Facts *)

Definition durationOK (d : Z) : Prop := (0 <= d < 2 ^ 63)%Z.
Definition offchainOK (c : ExecOffchainConfig F) : Prop := durationOK (InflightCacheExpiry c) ∧ durationOK (RootSnoozeTime c) ∧ durationOK (MessageVisibilityInterval c).

(** Values that the Go types can hold; the server's estimator is not an answer
    of its methods. *)
Definition offRampCallOK (c : offRampCall) : Prop :=
  match c with
  | EncodeExecutionReport report => execReportOK report
  | GetExecutionStateChangesBetweenSeqNums _ _ confirmations => inS 64 confirmations
  | _ => True
  end.
Definition offRampAnswerOK (a : offRampAnswer) : Prop :=
  match a with
  | AReport report => execReportOK report
  | AState state => inU 8 state
  | AChanges changes => Forall (λ c, metaOK (scTxMeta c)) changes
  | AOffchain config => offchainOK config
  | AOnchain c => inS 64 (PermissionLessExecutionThresholdSeconds c)
  | AEstimator _ => False
  | _ => True
  end.

(** The call that the reader gets, and the answer that arrives: messages lose
    their computed hash, of the on-chain configuration only two fields stay. *)
Definition offRampArrives (c : offRampCall) : offRampCall := match c with EncodeExecutionReport report => EncodeExecutionReport (unhashedReport report) | c => c end.
Definition offRampSeen (a : offRampAnswer) : offRampAnswer :=
  match a with
  | AReport report => AReport (unhashedReport report)
  | AOnchain c => AOnchain (mkOnchainConfig (PermissionLessExecutionThresholdSeconds c) (Router c) 0 0 "" 0 0)
  | a => a
  end.

Lemma rateLimit_back s : tokenBucketRateLimit (tokenBucketRateLimitPB s) = s.
Proof. destruct s. by rewrite /tokenBucketRateLimit /= !Int_NewBigIntFromInt. Qed.

Lemma NewDuration_there d : durationOK d → NewDuration (AsDuration (Some (durationNew d))) = Ok d.
Proof.
  rewrite /durationOK. intros Hd. rewrite AsDuration_New; [|rewrite /inS; change (2 ^ (64 - 1))%Z with (2 ^ 63)%Z; lia].
  rewrite /NewDuration decide_False //. lia.
Qed.

Lemma offchain_there c : offchainOK c → offChainConfig (offChainConfigToPB c) = Ok c.
Proof.
  intros (H1 & H2 & H3). rewrite /offChainConfig. cbn [offChainConfigToPB pbInflightCacheExpiry pbRootSnoozeTime pbMessageVisibilityInterval].
  rewrite !NewDuration_there //. by destruct c.
Qed.

Lemma stateChanges_there l : Forall (λ c, metaOK (scTxMeta c)) l →
  executionStateChangedWithTxMetaSlice (executionStateChangedWithTxMetaSliceToPB l) = l.
Proof.
  intros Hl. rewrite /executionStateChangedWithTxMetaSlice /executionStateChangedWithTxMetaSliceToPB -list_fmap_compose -{2}(list_fmap_id l).
  apply list_fmap_ext. intros i [t n] Hi. rewrite /executionStateChangedWithTxMeta /=. rewrite txMeta_back //.
  exact (proj1 (Forall_lookup _ _) Hl i _ Hi).
Qed.

Lemma offRamp_answer_seen dial a : offRampAnswerOK a → ∃ r, offRampEncode a = Ok r ∧ offRampDecode dial r = Ok (offRampSeen a).
Proof.
  destruct a as [a|a b|s|report|report|e|state|changes|nonces|m|c|t|c|c]; cbn [offRampAnswerOK offRampEncode offRampSeen]; intros Ha; try by destruct Ha.
  all: try (eexists; split; [done|]; cbn [offRampDecode]; done).
  all: eexists; (split; [done|]); cbn [offRampDecode].
  - by rewrite rateLimit_back.
  - by rewrite execReport_there.
  - unfold inU in Ha. rewrite (wrapU_small 32); [|unfold inU; lia]. by rewrite wrapU_small.
  - by rewrite stateChanges_there.
  - by destruct t.
  - by rewrite offchain_there.
  - cbn. by rewrite AsDuration_New.
Qed.

(** The reader whose estimator is [e]. *)
Definition offRampWithEstimator (e : E) (impl : OffRamp) : OffRamp := λ c, match c with GasPriceEstimator => λ w, (Ok (AEstimator e), w) | c => impl c end.

Lemma offramp_remote_call impl id e dial c w : inU 32 id → dial id = Ok e → offRampCallOK c → typed (impl (offRampArrives c)) offRampAnswerOK →
  offRampRemote impl id dial c w = (seenBack offRampSeen (offRampWithEstimator e impl (offRampArrives c) w).1, (offRampWithEstimator e impl (offRampArrives c) w).2).
Proof.
  intros Hid Hd Hc Ht. rewrite /offRampRemote /offRampClient.
  destruct c as [|onchain offchain| |report|report| |n|lo hi confs|senders| | | | | |]; cbn [requestOf offRampServer offRampArrives offRampWithEstimator offRampCallOK] in *;
    try (eapply turned_over; [exact Ht|apply offRamp_answer_seen]).
  - rewrite execReport_there //. eapply turned_over; [exact Ht|apply offRamp_answer_seen].
  - rewrite /turned /over /=. rewrite wrapU_wrapS // wrapU_small // Hd. done.
  - rewrite wrapS_wrapS // wrapS_small //. eapply turned_over; [exact Ht|apply offRamp_answer_seen].
Qed.

(** The off-ramp's reader behind gRPC answers every sequence of calls as the
    reader itself does, with the estimator that it had when it was served;
    errors arrive as their statuses, messages lose their computed hash, and of
    the on-chain configuration only the threshold and the router arrive. *)
Lemma offramp_behind_rpc (impl : OffRamp) (id : Z) (e : E) (dial : Z → outcome error E) (cs : list offRampCall) (w : W) :
  inU 32 id → dial id = Ok e → Forall offRampCallOK cs → (∀ c, c ≠ GasPriceEstimator → typed (impl c) offRampAnswerOK) →
  execs (offRampRemote impl id dial) cs w =
    (seenBack offRampSeen <$> (execs (offRampWithEstimator e impl) (offRampArrives <$> cs) w).1, (execs (offRampWithEstimator e impl) (offRampArrives <$> cs) w).2).
Proof.
  intros Hid Hd Hc Ht. apply execs_related. rewrite Forall2_fmap_r. apply Forall_Forall2_diag. eapply Forall_impl; [exact Hc|]. intros c Hok u.
  assert (c = GasPriceEstimator ∨ c ≠ GasPriceEstimator) as [->|Hg] by (clear; destruct c; first [right; discriminate|left; reflexivity]).
  - rewrite /offRampRemote /offRampClient /turned /over /=. rewrite wrapU_wrapS // wrapU_small // Hd. done.
  - apply offramp_remote_call; [done..|]. apply Ht. by destruct c.
Qed.

(** The server gives the client the estimator that it served. *)
Lemma estimator_dialled impl dialErr newClient b w id b' w' : NewOffRampReaderGRPCServer impl None (b, w) = (Ok id, (b', w')) →
  ∃ e, impl GasPriceEstimator w = (Ok (AEstimator e), w') ∧ dialEstimator dialErr newClient b' id = Ok (newClient e).
Proof.
  rewrite /NewOffRampReaderGRPCServer. destruct (impl GasPriceEstimator w) as [[[]|e|] u]; try done. intros [= <- <- <-].
  eexists. split; [done|]. rewrite /dialEstimator Nat2Z.id lookup_app_r // Nat.sub_diag. done.
Qed.

(** The client loses the limits that the on-chain configuration sets. *)
Example limits_lost impl id dial w w' c : impl OnchainConfig w = (Ok (AOnchain c), w') → inS 64 (PermissionLessExecutionThresholdSeconds c) →
  ∃ c', offRampRemote impl id dial OnchainConfig w = (Ok (AOnchain c'), w') ∧ MaxDataBytes c' = 0%Z ∧ MaxNumberOfTokensPerMsg c' = 0%Z ∧ PriceRegistry c' = "".
Proof.
  intros Hi Hs. eexists. rewrite /offRampRemote /offRampClient. cbn [requestOf offRampServer]. rewrite /turned /over Hi. cbn [offRampEncode obind map_err offRampDecode].
  split; [reflexivity|done].
Qed.
End rpc.
End OffRampRPC.

(** *** commit_store.go, with the prices of price_registry.go *)

Module CommitStoreRPC.
Import RemoteErrors.RemoteErrors ReportingRPC.ReportingRPC ContractWriterRPC.ContractWriterRPC CCIPData.

Record TokenPrice := mkTokenPrice { tpToken : string; tpValue : option Z }.
Record pbTokenPrice := mkPbTokenPrice { pbTpToken : string; pbTpValue : option pbBigInt }.
Record GasPrice := mkGasPrice { DestChainSelector : Z; gpValue : option Z }.
Record pbGasPrice := mkPbGasPrice { pbDestChainSelector : Z; pbGpValue : option pbBigInt }.
Record CommitStoreInterval := mkInterval { Min : Z; Max : Z }.

Record CommitStoreReport := mkReport { TokenPrices : list TokenPrice; GasPrices : list GasPrice; Interval : CommitStoreInterval; MerkleRoot : list byte }.
Record pbCommitStoreReport := mkPbReport { pbTokenPrices : list pbTokenPrice; pbGasPrices : list pbGasPrice; pbInterval : CommitStoreInterval; pbMerkleRoot : list byte }.
Record CommitStoreReportWithTxMeta := mkReportMeta { rmTxMeta : TxMeta; rmReport : CommitStoreReport }.
Record pbCommitStoreReportWithTxMeta := mkPbReportMeta { pbRmTxMeta : pbTxMeta; pbRmReport : pbCommitStoreReport }.

Definition tokenPrice (p : pbTokenPrice) : TokenPrice := mkTokenPrice (pbTpToken p) (Int (pbTpValue p)).
Definition tokenPricePB (p : TokenPrice) : pbTokenPrice := mkPbTokenPrice (tpToken p) (NewBigIntFromInt (tpValue p)).
Definition gasPrice (p : pbGasPrice) : GasPrice := mkGasPrice (pbDestChainSelector p) (Int (pbGpValue p)).
Definition gasPricePB (p : GasPrice) : pbGasPrice := mkPbGasPrice (DestChainSelector p) (NewBigIntFromInt (gpValue p)).
Definition tokenPrices (l : list pbTokenPrice) : list TokenPrice := tokenPrice <$> l.
Definition tokenPricesPB (l : list TokenPrice) : list pbTokenPrice := tokenPricePB <$> l.
Definition gasPrices (l : list pbGasPrice) : list GasPrice := gasPrice <$> l.
Definition gasPricesPB (l : list GasPrice) : list pbGasPrice := gasPricePB <$> l.
Definition commitStoreInterval (i : CommitStoreInterval) : CommitStoreInterval := mkInterval (Min i) (Max i).
Definition commitStoreIntervalPB (i : CommitStoreInterval) : CommitStoreInterval := mkInterval (Min i) (Max i).

Record CommitStoreStaticConfig := mkStatic { csChainSelector : Z; csSourceChainSelector : Z; csOnRamp : string; csArmProxy : string }.

Section config.
Context `{DurationPb}.
Record CommitOffchainConfig := mkOffchain {
  GasPriceDeviationPPB : Z; GasPriceHeartBeat : Z; TokenPriceDeviationPPB : Z; TokenPriceHeartBeat : Z; coInflightCacheExpiry : Z; PriceReportingDisabled : bool
}.
Record pbCommitOffchainConfig := mkPbOffchain {
  pbGasPriceDeviationPpb : Z; pbGasPriceHeartbeat : option pbDuration; pbTokenPriceDeviationPpb : Z; pbTokenPriceHeartbeat : option pbDuration;
  pbCoInflightCacheExpiry : option pbDuration
}.
End config.

Inductive storeCall :=
  | ChangeConfig (onchainConfig offchainConfig : list byte)
  | DecodeCommitReport (report : list byte)
  | EncodeCommitReport (report : CommitStoreReport)
  | GasPriceEstimator
  | GetAcceptedCommitReportsGteTimestamp (ts : time) (confirmations : Z)
  | GetCommitReportMatchingSeqNum (seqNum confirmations : Z)
  | GetCommitStoreStaticConfig
  | GetExpectedNextSequenceNumber
  | GetLatestPriceEpochAndRound
  | IsBlessed (root : list byte)
  | IsDestChainHealthy
  | IsDown
  | OffchainConfig
  | VerifyExecutionReport (report : ExecReport).

Inductive storeRequest `{TimestampPb} :=
  | ChangeConfigRequest (onchainConfig offchainConfig : list byte)
  | DecodeCommitReportRequest (encodedReport : list byte)
  | EncodeCommitReportRequest (report : pbCommitStoreReport)
  | GetCommitGasPriceEstimatorRequest
  | GetAcceptedCommitReportsGteTimestampRequest (timestamp : pbTimestamp) (confirmations : Z)        (* uint64 *)
  | GetCommitReportMatchingSequenceNumberRequest (sequenceNumber confirmations : Z)
  | GetCommitStoreStaticConfigRequest
  | GetExpectedNextSequenceNumberRequest
  | GetLatestPriceEpochAndRoundRequest
  | IsBlessedRequest (root : list byte)
  | IsDestChainHealthyRequest
  | IsDownRequest
  | GetOffchainConfigRequest
  | VerifyExecutionReportRequest (report : pbExecReport).

Section rpc.
Context `{GRPCStatus, DurationPb, TimestampPb} {W E : Type}.

Inductive storeAnswer :=
  | AAddress (address : string)
  | AReport (report : CommitStoreReport)
  | AEncoded (report : list byte)
  | AEstimator (estimator : E)
  | AReports (reports : list CommitStoreReportWithTxMeta)
  | AStatic (config : CommitStoreStaticConfig)
  | ANumber (n : Z)                                  (* uint64 *)
  | ABool (b : bool)
  | AOffchain (config : CommitOffchainConfig).

Inductive storeRep :=
  | RAddress (address : string)
  | RReport (report : pbCommitStoreReport)
  | REncoded (report : list byte)
  | REstimator (gasPriceEstimatorId : Z)             (* uint32 *)
  | RReports (reports : list pbCommitStoreReportWithTxMeta)
  | RStatic (config : CommitStoreStaticConfig)
  | RNumber (n : Z)
  | RBool (b : bool)
  | ROffchain (config : pbCommitOffchainConfig).

Definition merkleRoot (b : list byte) : outcome error (list byte) :=
  if decide (length b ≠ 32) then Err (EText ("expected 32 bytes, got " ++ Itoa (Z.of_nat (length b)))) else Ok b.

Definition commitStoreReport (p : pbCommitStoreReport) : outcome error CommitStoreReport :=
  let? root := map_err (wrapf "cannot convert merkle root: ") (merkleRoot (pbMerkleRoot p)) in
  Ok (mkReport (tokenPrices (pbTokenPrices p)) (gasPrices (pbGasPrices p)) (commitStoreInterval (pbInterval p)) root).
Definition commitStoreReportPB (r : CommitStoreReport) : outcome error pbCommitStoreReport :=
  if decide (length (MerkleRoot r) ≠ 32) then Err (EText ("invalid merkle root: expected 32 bytes, got " ++ Itoa (Z.of_nat (length (MerkleRoot r)))))
  else Ok (mkPbReport (tokenPricesPB (TokenPrices r)) (gasPricesPB (GasPrices r)) (commitStoreIntervalPB (Interval r)) (MerkleRoot r)).

Definition commitStoreReportWithTxMeta (p : pbCommitStoreReportWithTxMeta) : outcome error CommitStoreReportWithTxMeta :=
  let? r := map_err (wrapf "cannot convert commit store report: ") (commitStoreReport (pbRmReport p)) in Ok (mkReportMeta (txMeta (pbRmTxMeta p)) r).
Definition commitStoreReportWithTxMetaSlice (l : list pbCommitStoreReportWithTxMeta) : outcome error (list CommitStoreReportWithTxMeta) :=
  omapM (λ p, map_err (wrapf "cannot convert commit store report with tx meta: ") (commitStoreReportWithTxMeta p)) l.

(** [fmtReport] is [%v] of a report with its metadata. *)
Context (fmtReport : CommitStoreReportWithTxMeta → string).
Definition commitStoreReportWithTxMetaPB (r : CommitStoreReportWithTxMeta) : outcome error pbCommitStoreReportWithTxMeta :=
  let? report := map_err (wrapf "cannot convert commit store report: ") (commitStoreReportPB (rmReport r)) in Ok (mkPbReportMeta (txMetaToPB (rmTxMeta r)) report).
Definition commitStoreReportWithTxMetaPBSlice (l : list CommitStoreReportWithTxMeta) : outcome error (list pbCommitStoreReportWithTxMeta) :=
  omapM (λ '(i, r), map_err (wrapf ("cannot convert commit store report " ++ fmtReport r ++ " at " ++ Itoa (Z.of_nat i) ++ " with tx meta: "))
                      (commitStoreReportWithTxMetaPB r)) (imap pair l).

Definition Store : Type := storeCall → M (W:=W) storeAnswer.

(** What the server makes of an answer, and the client of a reply. *)
Definition storeEncode (a : storeAnswer) : outcome error storeRep :=
  match a with
  | AAddress address => Ok (RAddress address)
  | AReport report => let? pb := commitStoreReportPB report in Ok (RReport pb)
  | AEncoded report => Ok (REncoded report)
  | AEstimator _ => Panic                            (* not sent *)
  | AReports reports => let? pbs := commitStoreReportWithTxMetaPBSlice reports in Ok (RReports pbs)
  | AStatic config => Ok (RStatic config)
  | ANumber n => Ok (RNumber n)
  | ABool b => Ok (RBool b)
  | AOffchain c =>
      Ok (ROffchain (mkPbOffchain (GasPriceDeviationPPB c) (Some (durationNew (GasPriceHeartBeat c))) (TokenPriceDeviationPPB c)
            (Some (durationNew (TokenPriceHeartBeat c))) (Some (durationNew (coInflightCacheExpiry c)))))
  end.

Definition storeDecode (dial : Z → outcome error E) (r : storeRep) : outcome error storeAnswer :=
  match r with
  | RAddress address => Ok (AAddress address)
  | RReport report => let? r := commitStoreReport report in Ok (AReport r)
  | REncoded report => Ok (AEncoded report)
  | REstimator id =>
      let? e := map_err (wrapf ("failed to lookup gas estimator service for off ramp reader at " ++ Itoa id ++ ": ")) (dial id) in Ok (AEstimator e)
  | RReports reports => let? rs := commitStoreReportWithTxMetaSlice reports in Ok (AReports rs)
  | RStatic config => Ok (AStatic config)
  | RNumber n => Ok (ANumber n)
  | RBool b => Ok (ABool b)
  | ROffchain c =>
      Ok (AOffchain (mkOffchain (pbGasPriceDeviationPpb c) (AsDuration (pbGasPriceHeartbeat c)) (pbTokenPriceDeviationPpb c)
            (AsDuration (pbTokenPriceHeartbeat c)) (AsDuration (pbCoInflightCacheExpiry c)) false))
  end.

(** The methods of [CommitStoreGRPCServer]. *)
Definition storeServer (impl : Store) (gasEstimatorServerID : Z) (req : storeRequest) : M (W:=W) storeRep :=
  match req with
  | ChangeConfigRequest onchain offchain => turned storeEncode (impl (ChangeConfig onchain offchain))
  | DecodeCommitReportRequest report => turned storeEncode (impl (DecodeCommitReport report))
  | EncodeCommitReportRequest report => checked (commitStoreReport report) (λ r, turned storeEncode (impl (EncodeCommitReport r)))
  | GetCommitGasPriceEstimatorRequest => λ w, (Ok (REstimator gasEstimatorServerID), w)
  | GetAcceptedCommitReportsGteTimestampRequest ts confirmations =>
      turned storeEncode (impl (GetAcceptedCommitReportsGteTimestamp (AsTime ts) (wrapS 64 confirmations)))
  | GetCommitReportMatchingSequenceNumberRequest n confirmations => turned storeEncode (impl (GetCommitReportMatchingSeqNum n (wrapS 64 confirmations)))
  | GetCommitStoreStaticConfigRequest => turned storeEncode (impl GetCommitStoreStaticConfig)
  | GetExpectedNextSequenceNumberRequest => turned storeEncode (impl GetExpectedNextSequenceNumber)
  | GetLatestPriceEpochAndRoundRequest => turned storeEncode (impl GetLatestPriceEpochAndRound)
  | IsBlessedRequest root => checked (merkleRoot root) (λ r, turned storeEncode (impl (IsBlessed r)))
  | IsDestChainHealthyRequest => turned storeEncode (impl IsDestChainHealthy)
  | IsDownRequest => turned storeEncode (impl IsDown)
  | GetOffchainConfigRequest => turned storeEncode (impl OffchainConfig)
  | VerifyExecutionReportRequest report => checked (execReport report) (λ r, turned storeEncode (impl (VerifyExecutionReport r)))
  end.

(** The methods of [CommitStoreGRPCClient]. *)
Definition storeClient (dial : Z → outcome error E) (grpc : storeRequest → M (W:=W) storeRep) (c : storeCall) : M (W:=W) storeAnswer :=
  let storeCall req := turned (storeDecode dial) (grpc req) in
  match c with
  | ChangeConfig onchain offchain => storeCall (ChangeConfigRequest onchain offchain)
  | DecodeCommitReport report => storeCall (DecodeCommitReportRequest report)
  | EncodeCommitReport report => checked (commitStoreReportPB report) (λ pb, storeCall (EncodeCommitReportRequest pb))
  | GasPriceEstimator => storeCall GetCommitGasPriceEstimatorRequest
  | GetAcceptedCommitReportsGteTimestamp ts confirmations => storeCall (GetAcceptedCommitReportsGteTimestampRequest (timestampNew ts) (wrapU 64 confirmations))
  | GetCommitReportMatchingSeqNum n confirmations => storeCall (GetCommitReportMatchingSequenceNumberRequest n (wrapU 64 confirmations))
  | GetCommitStoreStaticConfig => storeCall GetCommitStoreStaticConfigRequest
  | GetExpectedNextSequenceNumber => storeCall GetExpectedNextSequenceNumberRequest
  | GetLatestPriceEpochAndRound => storeCall GetLatestPriceEpochAndRoundRequest
  | IsBlessed root => storeCall (IsBlessedRequest root)
  | IsDestChainHealthy => storeCall IsDestChainHealthyRequest
  | IsDown => storeCall IsDownRequest
  | OffchainConfig => storeCall GetOffchainConfigRequest
  | VerifyExecutionReport report => storeCall (VerifyExecutionReportRequest (executionReportPB report))
  end.

Definition storeRemote (impl : Store) (gasEstimatorServerID : Z) (dial : Z → outcome error E) : Store :=
  storeClient dial (λ req, over (storeServer impl gasEstimatorServerID req)).

(** *** Facts *)

Definition reportOK (r : CommitStoreReport) : Prop := length (MerkleRoot r) = 32.
Definition storeCallOK (c : storeCall) : Prop :=
  match c with
  | EncodeCommitReport report => reportOK report
  | GetAcceptedCommitReportsGteTimestamp ts confirmations => timeOK ts ∧ inS 64 confirmations
  | GetCommitReportMatchingSeqNum _ confirmations => inS 64 confirmations
  | IsBlessed root => length root = 32
  | VerifyExecutionReport report => execReportOK report
  | _ => True
  end.
Definition storeAnswerOK (a : storeAnswer) : Prop :=
  match a with
  | AReport report => reportOK report
  | AReports reports => Forall (λ r, metaOK (rmTxMeta r) ∧ reportOK (rmReport r)) reports
  | AOffchain c => inS 64 (GasPriceHeartBeat c) ∧ inS 64 (TokenPriceHeartBeat c) ∧ inS 64 (coInflightCacheExpiry c)
  | AEstimator _ => False
  | _ => True
  end.

Definition storeArrives (c : storeCall) : storeCall := match c with VerifyExecutionReport report => VerifyExecutionReport (unhashedReport report) | c => c end.
Definition storeSeen (a : storeAnswer) : storeAnswer :=
  match a with
  | AOffchain c =>
      AOffchain (mkOffchain (GasPriceDeviationPPB c) (GasPriceHeartBeat c) (TokenPriceDeviationPPB c) (TokenPriceHeartBeat c) (coInflightCacheExpiry c) false)
  | a => a
  end.

Lemma tokenPrices_back l : tokenPrices (tokenPricesPB l) = l.
Proof.
  rewrite /tokenPrices /tokenPricesPB -list_fmap_compose -{2}(list_fmap_id l). apply list_fmap_ext. intros ? [t v] _.
  by rewrite /tokenPrice /= Int_NewBigIntFromInt.
Qed.
Lemma gasPrices_back l : gasPrices (gasPricesPB l) = l.
Proof.
  rewrite /gasPrices /gasPricesPB -list_fmap_compose -{2}(list_fmap_id l). apply list_fmap_ext. intros ? [t v] _.
  by rewrite /gasPrice /= Int_NewBigIntFromInt.
Qed.

Lemma merkleRoot_ok b : length b = 32 → merkleRoot b = Ok b.
Proof. intros Hb. rewrite /merkleRoot. by destruct (decide (length b ≠ 32)). Qed.

Lemma report_there r : reportOK r → ∃ pb, commitStoreReportPB r = Ok pb ∧ commitStoreReport pb = Ok r.
Proof.
  intros Hr. rewrite /commitStoreReportPB. destruct (decide _) as [Hn|_]; [by destruct Hn|]. eexists. split; [done|].
  rewrite /commitStoreReport. cbn [pbMerkleRoot pbTokenPrices pbGasPrices pbInterval]. rewrite merkleRoot_ok //= tokenPrices_back gasPrices_back. by destruct r as [? ? [] ?].
Qed.

Lemma reports_there l : Forall (λ r, metaOK (rmTxMeta r) ∧ reportOK (rmReport r)) l →
  ∃ pbs, commitStoreReportWithTxMetaPBSlice l = Ok pbs ∧ commitStoreReportWithTxMetaSlice pbs = Ok l.
Proof.
  rewrite /commitStoreReportWithTxMetaPBSlice. intros Hl.
  assert (∀ k, ∃ pbs, omapM (λ '(i, r), map_err (wrapf ("cannot convert commit store report " ++ fmtReport r ++ " at " ++ Itoa (Z.of_nat i) ++ " with tx meta: "))
     (commitStoreReportWithTxMetaPB r)) (imap (λ i r, (k + i, r)) l) = Ok pbs ∧ commitStoreReportWithTxMetaSlice pbs = Ok l) as Hk.
  { induction Hl as [|[t r] l [Ht Hr] _ IH]; intros k; [by exists []|]. cbn in Ht, Hr. destruct (report_there r Hr) as (pb & HA & HB).
    destruct (IH (S k)) as (pbs & HC & HD). exists (mkPbReportMeta (txMetaToPB t) pb :: pbs). cbn [imap omapM]. rewrite /commitStoreReportWithTxMetaPB /= HA /=.
    split.
    - rewrite (imap_ext _ (λ i r, (S k + i, r))); [by rewrite HC|]. intros i x _. cbn. f_equal. lia.
    - rewrite /commitStoreReportWithTxMetaSlice. cbn [omapM]. rewrite /commitStoreReportWithTxMeta /= HB /= txMeta_back //.
      rewrite /commitStoreReportWithTxMetaSlice in HD. by rewrite HD. }
  exact (Hk 0).
Qed.

Lemma store_answer_seen dial a : storeAnswerOK a → ∃ r, storeEncode a = Ok r ∧ storeDecode dial r = Ok (storeSeen a).
Proof.
  destruct a as [a|r|r|e|l|c|n|b|c]; cbn [storeAnswerOK storeEncode storeSeen]; intros Ha; try by destruct Ha.
  all: try (eexists; split; [done|]; cbn [storeDecode]; done).
  - destruct (report_there r Ha) as (pb & -> & Hr). eexists. split; [done|]. cbn [storeDecode]. by rewrite Hr.
  - destruct (reports_there l Ha) as (pb & -> & Hr). eexists. split; [done|]. cbn [storeDecode]. by rewrite Hr.
  - destruct Ha as (H3 & H4 & H5). eexists. split; [done|]. cbn. by rewrite !AsDuration_New.
Qed.

(** The store whose estimator is [e]. *)
Definition storeWithEstimator (e : E) (impl : Store) : Store := λ c, match c with GasPriceEstimator => λ w, (Ok (AEstimator e), w) | c => impl c end.

Lemma store_remote_call impl id e dial c w : dial id = Ok e → storeCallOK c → (c ≠ GasPriceEstimator → typed (impl (storeArrives c)) storeAnswerOK) →
  storeRemote impl id dial c w = (seenBack storeSeen (storeWithEstimator e impl (storeArrives c) w).1, (storeWithEstimator e impl (storeArrives c) w).2).
Proof.
  intros Hd Hc Ht. rewrite /storeRemote /storeClient.
  destruct c as [onchain offchain|report|report| |ts confs|n confs| | | |root| | | |report]; cbn [storeServer storeArrives storeWithEstimator storeCallOK] in *;
    try (eapply turned_over; [by apply Ht|apply store_answer_seen]).
  - destruct (report_there report Hc) as (pb & -> & Hr). rewrite {1}/checked Hr /checked. eapply turned_over; [by apply Ht|apply store_answer_seen].
  - rewrite /turned /over /= Hd. done.
  - destruct Hc as [Hts Hs]. rewrite (AsTime_New _ Hts) wrapS_wrapU // wrapS_small //. eapply turned_over; [by apply Ht|apply store_answer_seen].
  - rewrite wrapS_wrapU // wrapS_small //. eapply turned_over; [by apply Ht|apply store_answer_seen].
  - rewrite merkleRoot_ok // /checked. eapply turned_over; [by apply Ht|apply store_answer_seen].
  - rewrite execReport_there // /checked. eapply turned_over; [by apply Ht|apply store_answer_seen].
Qed.

(** The commit store's reader behind gRPC answers every sequence of calls as the
    reader itself does, with the estimator that it had when it was served: the
    reports, roots, times and confirmations arrive unchanged; errors arrive as
    their statuses, and that price reporting is disabled does not arrive. *)
Lemma store_behind_rpc (impl : Store) (id : Z) (e : E) (dial : Z → outcome error E) (cs : list storeCall) (w : W) :
  dial id = Ok e → Forall storeCallOK cs → (∀ c, c ≠ GasPriceEstimator → typed (impl c) storeAnswerOK) →
  execs (storeRemote impl id dial) cs w =
    (seenBack storeSeen <$> (execs (storeWithEstimator e impl) (storeArrives <$> cs) w).1, (execs (storeWithEstimator e impl) (storeArrives <$> cs) w).2).
Proof.
  intros Hd Hc Ht. apply execs_related. rewrite Forall2_fmap_r. apply Forall_Forall2_diag. eapply Forall_impl; [exact Hc|]. intros c Hok u.
  apply store_remote_call; [done..|]. intros Hn. apply Ht. by destruct c.
Qed.

Example disabled_lost impl id dial w w' c : impl OffchainConfig w = (Ok (AOffchain c), w') → PriceReportingDisabled c = true →
  ∃ c', storeRemote impl id dial OffchainConfig w = (Ok (AOffchain c'), w') ∧ PriceReportingDisabled c' = false.
Proof.
  intros Hi Hs. eexists. rewrite /storeRemote /storeClient. cbn [storeServer]. rewrite /turned /over Hi. cbn [storeEncode obind map_err storeDecode].
  split; [reflexivity|done].
Qed.
End rpc.
End CommitStoreRPC.
