(* ===== verification/CCIPRegistryRPC.v ===== *)
(** [src/pkg/loop/internal/relayer/pluginprovider/ext/ccip]: the readers of the
    on-ramp ([OnRampRPC]), of the price registry ([PriceRegistryRPC]), of prices
    ([PriceGetterRPC]), of token data and token pools ([TokenRPC]) behind gRPC,
    and the providers that make and serve the readers ([CCIPProviderRPC]).  The
    data and the conventions are those of CCIPReaders.v. *)

From S2P Require Import Prelude GoBytes GoStrings Values Messages ContractWriterRPC ReportingRPC RemoteErrors CCIPReaders.

(** *** onramp.go *)

Module OnRampRPC.
Import RemoteErrors.RemoteErrors ReportingRPC.ReportingRPC ContractWriterRPC.ContractWriterRPC CCIPReaders.CCIPData.

(** The counts and the prices are uint16, in messages uint32. *)
Record OnRampDynamicConfig := mkDynamicConfig {
  Router : string; MaxNumberOfTokensPerMsg : Z; DestGasOverhead : Z; DestGasPerPayloadByte : Z; DestDataAvailabilityOverheadGas : Z;
  DestGasPerDataAvailabilityByte : Z; DestDataAvailabilityMultiplierBps : Z; PriceRegistry : string; MaxDataBytes : Z; MaxPerMsgGasLimit : Z
}.
Definition onRampDynamicConfig (c : OnRampDynamicConfig) : OnRampDynamicConfig :=
  mkDynamicConfig (Router c) (wrapU 16 (MaxNumberOfTokensPerMsg c)) (DestGasOverhead c) (wrapU 16 (DestGasPerPayloadByte c)) (DestDataAvailabilityOverheadGas c)
    (wrapU 16 (DestGasPerDataAvailabilityByte c)) (wrapU 16 (DestDataAvailabilityMultiplierBps c)) (PriceRegistry c) (MaxDataBytes c) (MaxPerMsgGasLimit c).
Definition onRampDynamicConfigPB (c : OnRampDynamicConfig) : OnRampDynamicConfig :=
  mkDynamicConfig (Router c) (wrapU 32 (MaxNumberOfTokensPerMsg c)) (DestGasOverhead c) (wrapU 32 (DestGasPerPayloadByte c)) (DestDataAvailabilityOverheadGas c)
    (wrapU 32 (DestGasPerDataAvailabilityByte c)) (wrapU 32 (DestDataAvailabilityMultiplierBps c)) (PriceRegistry c) (MaxDataBytes c) (MaxPerMsgGasLimit c).

Inductive onRampCall :=
  | Address
  | GetDynamicConfig
  | GetSendRequestsBetweenSeqNums (seqNumMin seqNumMax : Z) (finalized : bool)
  | IsSourceChainHealthy
  | IsSourceCursed
  | RouterAddress
  | SourcePriceRegistryAddress.
Inductive onRampAnswer := AAddress (address : string) | AConfig (config : OnRampDynamicConfig) | ARequests (l : list EVM2EVMMessageWithTxMeta) | ABool (b : bool).

Inductive onRampRequest :=
  | AddressRequest
  | GetDynamicConfigRequest
  | GetSendRequestsBetweenSeqNumsRequest (seqNumMin seqNumMax : Z) (finalized : bool)
  | IsSourceChainHealthyRequest
  | IsSourceCursedRequest
  | RouterAddressRequest
  | SourcePriceRegistryAddressRequest.
Inductive onRampRep := RAddress (address : string) | RConfig (config : OnRampDynamicConfig) | RRequests (l : list pbEVM2EVMMessageWithTxMeta) | RBool (b : bool).

Section rpc.
Context `{GRPCStatus} (fmtMessage : pbEVM2EVMMessage → string) {W : Type}.

Definition OnRamp : Type := onRampCall → M (W:=W) onRampAnswer.

Definition onRampEncode (a : onRampAnswer) : outcome error onRampRep :=
  Ok (match a with
      | AAddress address => RAddress address
      | AConfig config => RConfig (onRampDynamicConfigPB config)
      | ARequests l => RRequests (evm2EVMMessageWithTxMetaSlicePB l)
      | ABool b => RBool b
      end).
Definition onRampDecode (r : onRampRep) : outcome error onRampAnswer :=
  match r with
  | RAddress address => Ok (AAddress address)
  | RConfig config => Ok (AConfig (onRampDynamicConfig config))
  | RRequests l => let? l := evm2EVMMessageWithTxMetaSlice fmtMessage l in Ok (ARequests l)
  | RBool b => Ok (ABool b)
  end.

(** The methods of [OnRampReaderGRPCServer]. *)
Definition onRampServer (impl : OnRamp) (req : onRampRequest) : M (W:=W) onRampRep :=
  match req with
  | AddressRequest => turned onRampEncode (impl Address)
  | GetDynamicConfigRequest => turned onRampEncode (impl GetDynamicConfig)
  | GetSendRequestsBetweenSeqNumsRequest lo hi finalized => turned onRampEncode (impl (GetSendRequestsBetweenSeqNums lo hi finalized))
  | IsSourceChainHealthyRequest => turned onRampEncode (impl IsSourceChainHealthy)
  | IsSourceCursedRequest => turned onRampEncode (impl IsSourceCursed)
  | RouterAddressRequest => turned onRampEncode (impl RouterAddress)
  | SourcePriceRegistryAddressRequest => turned onRampEncode (impl SourcePriceRegistryAddress)
  end.
(** The methods of [OnRampReaderGRPCClient]. *)
Definition onRampClient (grpc : onRampRequest → M (W:=W) onRampRep) (c : onRampCall) : M (W:=W) onRampAnswer :=
  match c with
  | Address => turned onRampDecode (grpc AddressRequest)
  | GetDynamicConfig => turned onRampDecode (grpc GetDynamicConfigRequest)
  | GetSendRequestsBetweenSeqNums lo hi finalized => turned onRampDecode (grpc (GetSendRequestsBetweenSeqNumsRequest lo hi finalized))
  | IsSourceChainHealthy => turned onRampDecode (grpc IsSourceChainHealthyRequest)
  | IsSourceCursed => turned onRampDecode (grpc IsSourceCursedRequest)
  | RouterAddress => turned onRampDecode (grpc RouterAddressRequest)
  | SourcePriceRegistryAddress => turned onRampDecode (grpc SourcePriceRegistryAddressRequest)
  end.
Definition onRampRemote (impl : OnRamp) : OnRamp := onRampClient (λ req, over (onRampServer impl req)).

(** [Close] of the server: its dependencies are those that were added, the
    served connection, and not the reader itself. *)
Definition NewOnRampReaderGRPCServer : list (Closer (W:=W)) := [].
Definition AddDep (deps : list (Closer (W:=W))) (dep : Closer) : list Closer := deps ++ [dep].

Definition configOK (c : OnRampDynamicConfig) : Prop :=
  inU 16 (MaxNumberOfTokensPerMsg c) ∧ inU 16 (DestGasPerPayloadByte c) ∧ inU 16 (DestGasPerDataAvailabilityByte c) ∧ inU 16 (DestDataAvailabilityMultiplierBps c).
Definition onRampAnswerOK (a : onRampAnswer) : Prop := match a with AConfig c => configOK c | ARequests l => Forall withMetaOK l | _ => True end.
Definition onRampSeen (a : onRampAnswer) : onRampAnswer := match a with ARequests l => ARequests (unhashedWithMeta <$> l) | a => a end.

Lemma u16_there z : inU 16 z → wrapU 16 (wrapU 32 z) = z.
Proof. unfold inU. intros Hz. rewrite (wrapU_small 32); [|unfold inU; lia]. by apply wrapU_small. Qed.

Lemma onRamp_config_there c : configOK c → onRampDynamicConfig (onRampDynamicConfigPB c) = c.
Proof. intros (H1 & H2 & H3 & H4). rewrite /onRampDynamicConfig /= !u16_there //. by destruct c. Qed.

Lemma onRamp_answer_seen a : onRampAnswerOK a → ∃ r, onRampEncode a = Ok r ∧ onRampDecode r = Ok (onRampSeen a).
Proof.
  intros Ha. eexists. split; [done|]. destruct a as [a|c|l|b]; cbn [onRampDecode onRampSeen onRampAnswerOK] in *; [done| | |done].
  - by rewrite onRamp_config_there.
  - by rewrite messagesWithMeta_there.
Qed.

(** The on-ramp's reader behind gRPC answers every sequence of calls as the
    reader itself does, errors as their statuses; the messages lose their
    computed hash. *)
Lemma onramp_behind_rpc (impl : OnRamp) (cs : list onRampCall) (w : W) : (∀ c, typed (impl c) onRampAnswerOK) →
  execs (onRampRemote impl) cs w = (seenBack onRampSeen <$> (execs impl cs w).1, (execs impl cs w).2).
Proof.
  intros Ht. apply execs_related. apply Forall_Forall2_diag, Forall_forall. intros c _ u.
  destruct c; cbn [onRampRemote onRampClient onRampServer]; (eapply turned_over; [apply Ht|apply onRamp_answer_seen]).
Qed.

(** Closing a client closes the connection of the server alone: the reader's own
    [Close] does not run. *)
Lemma reader_left_open O (resource : Closer) w :
  (closeDeps O (AddDep NewOnRampReaderGRPCServer resource) w).2 = (resource w).2.
Proof.
  rewrite closeDeps_all. cbn. assert (range_order O [resource] = [resource]) as -> by (apply Permutation_singleton_r, range_order_perm). done.
Qed.
End rpc.
End OnRampRPC.

(** *** price_registry.go *)

Module PriceRegistryRPC.
Import RemoteErrors.RemoteErrors ReportingRPC.ReportingRPC ContractWriterRPC.ContractWriterRPC CCIPReaders.CCIPData CCIPReaders.CommitStoreRPC.

Record TokenPriceUpdate := mkTokenUpdate { tuPrice : TokenPrice; tuTimestampUnixSec : option Z }.
Record pbTokenPriceUpdate := mkPbTokenUpdate { pbTuPrice : pbTokenPrice; pbTuUnixTimestamp : option pbBigInt }.
Record TokenPriceUpdateWithTxMeta := mkTokenUpdateMeta { tumTxMeta : TxMeta; tumUpdate : TokenPriceUpdate }.
Record pbTokenPriceUpdateWithTxMeta := mkPbTokenUpdateMeta { pbTumTxMeta : pbTxMeta; pbTumUpdate : pbTokenPriceUpdate }.
Record GasPriceUpdate := mkGasUpdate { guPrice : GasPrice; guTimestampUnixSec : option Z }.
Record pbGasPriceUpdate := mkPbGasUpdate { pbGuPrice : pbGasPrice; pbGuUnixTimestamp : option pbBigInt }.
Record GasPriceUpdateWithTxMeta := mkGasUpdateMeta { gumTxMeta : TxMeta; gumUpdate : GasPriceUpdate }.
Record pbGasPriceUpdateWithTxMeta := mkPbGasUpdateMeta { pbGumTxMeta : pbTxMeta; pbGumUpdate : pbGasPriceUpdate }.

Definition tokenPriceUpdate (p : pbTokenPriceUpdate) : TokenPriceUpdate := mkTokenUpdate (tokenPrice (pbTuPrice p)) (Int (pbTuUnixTimestamp p)).
Definition tokenPriceUpdatePB (u : TokenPriceUpdate) : pbTokenPriceUpdate := mkPbTokenUpdate (tokenPricePB (tuPrice u)) (NewBigIntFromInt (tuTimestampUnixSec u)).
Definition tokenPriceUpdateSlice (l : list pbTokenPriceUpdate) : list TokenPriceUpdate := tokenPriceUpdate <$> l.
Definition tokenPriceUpdateSlicePB (l : list TokenPriceUpdate) : list pbTokenPriceUpdate := tokenPriceUpdatePB <$> l.
Definition tokenPriceUpdateWithTxMeta (p : pbTokenPriceUpdateWithTxMeta) : TokenPriceUpdateWithTxMeta := mkTokenUpdateMeta (txMeta (pbTumTxMeta p)) (tokenPriceUpdate (pbTumUpdate p)).
Definition tokenPriceUpdateWithTxMetaPB (u : TokenPriceUpdateWithTxMeta) : pbTokenPriceUpdateWithTxMeta := mkPbTokenUpdateMeta (txMetaToPB (tumTxMeta u)) (tokenPriceUpdatePB (tumUpdate u)).
Definition tokenPriceUpdateWithTxMetaSlice (l : list pbTokenPriceUpdateWithTxMeta) := tokenPriceUpdateWithTxMeta <$> l.
Definition tokenPriceUpdateWithTxMetaSlicePB (l : list TokenPriceUpdateWithTxMeta) := tokenPriceUpdateWithTxMetaPB <$> l.
Definition gasPriceUpdate (p : pbGasPriceUpdate) : GasPriceUpdate := mkGasUpdate (mkGasPrice (pbDestChainSelector (pbGuPrice p)) (Int (pbGpValue (pbGuPrice p)))) (Int (pbGuUnixTimestamp p)).
Definition gasPriceUpdatePB (u : GasPriceUpdate) : pbGasPriceUpdate := mkPbGasUpdate (gasPricePB (guPrice u)) (NewBigIntFromInt (guTimestampUnixSec u)).
Definition gasPriceUpdateWithTxMeta (p : pbGasPriceUpdateWithTxMeta) : GasPriceUpdateWithTxMeta := mkGasUpdateMeta (txMeta (pbGumTxMeta p)) (gasPriceUpdate (pbGumUpdate p)).
Definition gasPriceUpdateWithTxMetaPB (u : GasPriceUpdateWithTxMeta) : pbGasPriceUpdateWithTxMeta := mkPbGasUpdateMeta (txMetaToPB (gumTxMeta u)) (gasPriceUpdatePB (gumUpdate u)).
Definition gasPriceUpdateWithTxMetaSlice (l : list pbGasPriceUpdateWithTxMeta) := gasPriceUpdateWithTxMeta <$> l.
Definition gasPriceUpdateWithTxMetaSlicePB (l : list GasPriceUpdateWithTxMeta) := gasPriceUpdateWithTxMetaPB <$> l.

(** Decimals are uint8, in messages uint32. *)
Definition decimals (l : list Z) : outcome error (list Z) :=
  omapM (λ '(i, v), if decide (255 < v)%Z then Err (EText ("decimal value " ++ Itoa v ++ " at " ++ Itoa (Z.of_nat i) ++ " is too large")) else Ok (wrapU 8 v)) (imap pair l).
Definition decimalsPB (l : list Z) : list Z := wrapU 32 <$> l.

Inductive registryCall :=
  | Address
  | GetFeeTokens
  | GetGasPriceUpdatesCreatedAfter (chainSelector : Z) (ts : time) (confirmations : Z)
  | GetAllGasPriceUpdatesCreatedAfter (ts : time) (confirmations : Z)
  | GetTokenPriceUpdatesCreatedAfter (ts : time) (confirmations : Z)
  | GetTokenPrices (wantedTokens : list string)
  | GetTokensDecimals (tokenAddresses : list string).
Inductive registryAnswer :=
  | AAddress (address : string) | AAddresses (l : list string) | AGas (l : list GasPriceUpdateWithTxMeta) | ATokens (l : list TokenPriceUpdateWithTxMeta)
  | APrices (l : list TokenPriceUpdate) | ADecimals (l : list Z).

Inductive registryRequest `{TimestampPb} :=
  | GetAddressRequest
  | GetFeeTokensRequest
  | GetGasPriceUpdatesCreatedAfterRequest (chainSelector : Z) (createdAfter : pbTimestamp) (confirmations : Z)   (* uint64 *)
  | GetAllGasPriceUpdatesCreatedAfterRequest (createdAfter : pbTimestamp) (confirmations : Z)
  | GetTokenPriceUpdatesCreatedAfterRequest (createdAfter : pbTimestamp) (confirmations : Z)
  | GetTokenPricesRequest (tokenAddresses : list string)
  | GetTokensDecimalsRequest (tokenAddresses : list string).
Inductive registryRep :=
  | RAddress (address : string) | RAddresses (l : list string) | RGas (l : list pbGasPriceUpdateWithTxMeta) | RTokens (l : list pbTokenPriceUpdateWithTxMeta)
  | RPrices (l : list pbTokenPriceUpdate) | RDecimals (l : list Z).

Section rpc.
Context `{GRPCStatus, TimestampPb} {W : Type}.

Definition Registry : Type := registryCall → M (W:=W) registryAnswer.

Definition registryEncode (a : registryAnswer) : outcome error registryRep :=
  Ok (match a with
      | AAddress address => RAddress address
      | AAddresses l => RAddresses (Strings l)
      | AGas l => RGas (gasPriceUpdateWithTxMetaSlicePB l)
      | ATokens l => RTokens (tokenPriceUpdateWithTxMetaSlicePB l)
      | APrices l => RPrices (tokenPriceUpdateSlicePB l)
      | ADecimals l => RDecimals (decimalsPB l)
      end).
Definition registryDecode (r : registryRep) : outcome error registryAnswer :=
  match r with
  | RAddress address => Ok (AAddress address)
  | RAddresses l => Ok (AAddresses (MakeAddresses l))
  | RGas l => Ok (AGas (gasPriceUpdateWithTxMetaSlice l))
  | RTokens l => Ok (ATokens (tokenPriceUpdateWithTxMetaSlice l))
  | RPrices l => Ok (APrices (tokenPriceUpdateSlice l))
  | RDecimals l => let? l := decimals l in Ok (ADecimals l)
  end.

(** The methods of [PriceRegistryGRPCServer]. *)
Definition registryServer (impl : Registry) (req : registryRequest) : M (W:=W) registryRep :=
  match req with
  | GetAddressRequest => turned registryEncode (impl Address)
  | GetFeeTokensRequest => turned registryEncode (impl GetFeeTokens)
  | GetGasPriceUpdatesCreatedAfterRequest s ts confs => turned registryEncode (impl (GetGasPriceUpdatesCreatedAfter s (AsTime ts) (wrapS 64 confs)))
  | GetAllGasPriceUpdatesCreatedAfterRequest ts confs => turned registryEncode (impl (GetAllGasPriceUpdatesCreatedAfter (AsTime ts) (wrapS 64 confs)))
  | GetTokenPriceUpdatesCreatedAfterRequest ts confs => turned registryEncode (impl (GetTokenPriceUpdatesCreatedAfter (AsTime ts) (wrapS 64 confs)))
  | GetTokenPricesRequest l => turned registryEncode (impl (GetTokenPrices (MakeAddresses l)))
  | GetTokensDecimalsRequest l => turned registryEncode (impl (GetTokensDecimals (MakeAddresses l)))
  end.
(** The methods of [PriceRegistryGRPCClient]. *)
Definition registryClient (grpc : registryRequest → M (W:=W) registryRep) (c : registryCall) : M (W:=W) registryAnswer :=
  match c with
  | Address => turned registryDecode (grpc GetAddressRequest)
  | GetFeeTokens => turned registryDecode (grpc GetFeeTokensRequest)
  | GetGasPriceUpdatesCreatedAfter s ts confs => turned registryDecode (grpc (GetGasPriceUpdatesCreatedAfterRequest s (timestampNew ts) (wrapU 64 confs)))
  | GetAllGasPriceUpdatesCreatedAfter ts confs => turned registryDecode (grpc (GetAllGasPriceUpdatesCreatedAfterRequest (timestampNew ts) (wrapU 64 confs)))
  | GetTokenPriceUpdatesCreatedAfter ts confs => turned registryDecode (grpc (GetTokenPriceUpdatesCreatedAfterRequest (timestampNew ts) (wrapU 64 confs)))
  | GetTokenPrices l => turned registryDecode (grpc (GetTokenPricesRequest (Strings l)))
  | GetTokensDecimals l => turned registryDecode (grpc (GetTokensDecimalsRequest (Strings l)))
  end.
Definition registryRemote (impl : Registry) : Registry := registryClient (λ req, over (registryServer impl req)).

Definition registryCallOK (c : registryCall) : Prop :=
  match c with
  | GetGasPriceUpdatesCreatedAfter _ ts confs | GetAllGasPriceUpdatesCreatedAfter ts confs | GetTokenPriceUpdatesCreatedAfter ts confs => timeOK ts ∧ inS 64 confs
  | _ => True
  end.
Definition registryAnswerOK (a : registryAnswer) : Prop :=
  match a with
  | AGas l => Forall (λ u, metaOK (gumTxMeta u)) l
  | ATokens l => Forall (λ u, metaOK (tumTxMeta u)) l
  | ADecimals l => Forall (inU 8) l
  | _ => True
  end.

Lemma tokenUpdate_back u : tokenPriceUpdate (tokenPriceUpdatePB u) = u.
Proof. destruct u as [[t v] s]. by rewrite /tokenPriceUpdate /tokenPrice /= !Int_NewBigIntFromInt. Qed.
Lemma gasUpdate_back u : gasPriceUpdate (gasPriceUpdatePB u) = u.
Proof. destruct u as [[t v] s]. by rewrite /gasPriceUpdate /= !Int_NewBigIntFromInt. Qed.

Lemma fmap_back {A B} (f : A → B) (g : B → A) (P : A → Prop) l : (∀ a, P a → g (f a) = a) → Forall P l → g <$> (f <$> l) = l.
Proof. intros Hg Hl. induction Hl as [|a l Ha _ IH]; [done|]. cbn. by rewrite Hg // IH. Qed.

Lemma decimals_there l : Forall (inU 8) l → decimals (decimalsPB l) = Ok l.
Proof.
  intros Hl. rewrite /decimals /decimalsPB. apply omapM_Forall2. apply Forall2_same_length_lookup. split; [by rewrite length_imap length_fmap|].
  intros i [j x] y Hx Hy. rewrite list_lookup_imap list_lookup_fmap Hy /= in Hx. injection Hx as <- <-.
  pose proof (proj1 (Forall_lookup _ _) Hl i y Hy) as Hb. unfold inU in Hb. rewrite (wrapU_small 32); [|unfold inU; lia]. rewrite decide_False; [|lia].
  by rewrite wrapU_small.
Qed.

Lemma registry_answer_seen a : registryAnswerOK a → ∃ r, registryEncode a = Ok r ∧ registryDecode r = Ok (id a).
Proof.
  intros Ha. eexists. split; [done|]. destruct a as [a|l|l|l|l|l]; cbn [registryDecode registryAnswerOK] in *; [done|done| | | |].
  - rewrite /gasPriceUpdateWithTxMetaSlice /gasPriceUpdateWithTxMetaSlicePB. rewrite (fmap_back _ _ _ _ _ Ha) //. intros [t u] Ht.
    rewrite /gasPriceUpdateWithTxMeta /= gasUpdate_back. by rewrite txMeta_back.
  - rewrite /tokenPriceUpdateWithTxMetaSlice /tokenPriceUpdateWithTxMetaSlicePB. rewrite (fmap_back _ _ _ _ _ Ha) //. intros [t u] Ht.
    rewrite /tokenPriceUpdateWithTxMeta /= tokenUpdate_back. by rewrite txMeta_back.
  - rewrite /tokenPriceUpdateSlice /tokenPriceUpdateSlicePB. rewrite (fmap_back _ _ (λ _, True)) //; [|by apply Forall_true]. intros u _. apply tokenUpdate_back.
  - by rewrite decimals_there.
Qed.

Lemma seenBack_id {A} (r : outcome error A) : seenBack id r = sent r.
Proof. by destruct r. Qed.

(** The price registry's reader behind gRPC is the reader: prices and amounts of
    either sign, times and decimals arrive unchanged, errors as their statuses. *)
Lemma registry_behind_rpc (impl : Registry) (cs : list registryCall) (w : W) : Forall registryCallOK cs → (∀ c, typed (impl c) registryAnswerOK) →
  execs (registryRemote impl) cs w = (sent <$> (execs impl cs w).1, (execs impl cs w).2).
Proof.
  intros Hc Ht. apply execs_behindRPC. eapply Forall_impl; [exact Hc|]. intros c Hok u. rewrite -seenBack_id.
  destruct c; cbn [registryRemote registryClient registryServer registryCallOK] in *; try (eapply turned_over; [apply Ht|apply registry_answer_seen]).
  all: destruct Hok as [Hts Hs]; rewrite (AsTime_New _ Hts) wrapS_wrapU // wrapS_small //; (eapply turned_over; [apply Ht|apply registry_answer_seen]).
Qed.
End rpc.
End PriceRegistryRPC.

(** *** pricegetter.go *)

Module PriceGetterRPC.
Import RemoteErrors.RemoteErrors ReportingRPC.ReportingRPC ContractWriterRPC.ContractWriterRPC CCIPReaders.CCIPData.

Inductive getterCall := FilterConfiguredTokens (tokens : list string) | TokenPricesUSD (tokens : list string).
Inductive getterAnswer := ATokens (configured unconfigured : list string) | APrices (prices : gmap string (option Z)).
Inductive getterRequest := FilterConfiguredTokensRequest (tokens : list string) | TokenPricesRequest (tokens : list string).
Inductive getterRep := RTokens (configured unconfigured : list string) | RPrices (prices : gmap string (option pbBigInt)).

Section rpc.
Context `{GRPCStatus} {W : Type}.
Definition PriceGetter : Type := getterCall → M (W:=W) getterAnswer.

(** [make([]string, len(tokens))], to which every token is appended. *)
Definition converted (tokens : list string) : list string := foldl (λ (l : list string) t, l ++ [t]) (replicate (length tokens) "") tokens.
Definition getterEncode (a : getterAnswer) : outcome error getterRep :=
  Ok (match a with
      | ATokens configured unconfigured => RTokens (converted configured) (converted unconfigured)
      | APrices prices => RPrices (NewBigIntFromInt <$> prices)
      end).
(** The client keeps the tokens that are not empty. *)
Definition kept (tokens : list string) : list string := foldl (λ (l : list string) t, if decide (0 < String.length t) then l ++ [t] else l) [] tokens.
Definition getterDecode (r : getterRep) : outcome error getterAnswer :=
  Ok (match r with
      | RTokens configured unconfigured => ATokens (kept configured) (kept unconfigured)
      | RPrices prices => APrices (Int <$> prices)
      end).

(** The methods of [PriceGetterGRPCServer]. *)
Definition getterServer (impl : PriceGetter) (req : getterRequest) : M (W:=W) getterRep :=
  match req with
  | FilterConfiguredTokensRequest tokens => turned getterEncode (impl (FilterConfiguredTokens (MakeAddresses tokens)))
  | TokenPricesRequest tokens => turned getterEncode (impl (TokenPricesUSD (MakeAddresses tokens)))
  end.
(** The methods of [PriceGetterGRPCClient]. *)
Definition getterClient (grpc : getterRequest → M (W:=W) getterRep) (c : getterCall) : M (W:=W) getterAnswer :=
  match c with
  | FilterConfiguredTokens tokens => turned getterDecode (grpc (FilterConfiguredTokensRequest (Strings tokens)))
  | TokenPricesUSD tokens => turned getterDecode (grpc (TokenPricesRequest (Strings tokens)))
  end.
Definition getterRemote (impl : PriceGetter) : PriceGetter := getterClient (λ req, over (getterServer impl req)).

(** Prices are not nil. *)
Definition getterAnswerOK (a : getterAnswer) : Prop := match a with APrices prices => map_Forall (λ _, is_Some) prices | _ => True end.
(** Tokens without an address do not arrive. *)
Definition named (tokens : list string) : list string := filter (λ t, t ≠ "") tokens.
Definition getterSeen (a : getterAnswer) : getterAnswer := match a with ATokens configured unconfigured => ATokens (named configured) (named unconfigured) | a => a end.

Lemma converted_eq tokens : converted tokens = replicate (length tokens) "" ++ tokens.
Proof.
  rewrite /converted. assert (∀ l acc, foldl (λ (l : list string) t, l ++ [t]) acc l = acc ++ l) as Hf; [|by rewrite Hf].
  intros l. induction l as [|t l IH]; intros acc; cbn; [by rewrite app_nil_r|]. by rewrite IH -app_assoc.
Qed.

Lemma kept_eq tokens : kept tokens = named tokens.
Proof.
  rewrite /kept /named. assert (∀ l acc, foldl (λ (l : list string) t, if decide (0 < String.length t) then l ++ [t] else l) acc l = acc ++ filter (λ t, t ≠ "") l) as Hf; [|by rewrite Hf].
  intros l. induction l as [|t l IH]; intros acc; cbn [foldl]; [by rewrite app_nil_r|]. rewrite IH filter_cons.
  destruct t as [|c t].
  - destruct (decide (0 < String.length "")) as [Hl|_]; [cbn in Hl; lia|]. by destruct (decide (_ ≠ _)).
  - destruct (decide (0 < _)) as [_|Hl]; [|cbn in Hl; lia]. destruct (decide (_ ≠ _)) as [_|Hn]; [by rewrite -app_assoc|by destruct Hn].
Qed.

Lemma kept_converted tokens : kept (converted tokens) = named tokens.
Proof.
  rewrite kept_eq converted_eq /named filter_app. generalize (length tokens). intros n. induction n as [|n IH]; [done|].
  cbn [replicate app]. rewrite filter_cons. by destruct (decide (_ ≠ _)).
Qed.

Lemma getter_answer_seen a : getterAnswerOK a → ∃ r, getterEncode a = Ok r ∧ getterDecode r = Ok (getterSeen a).
Proof.
  intros _. eexists. split; [done|]. rewrite /getterDecode. f_equal. destruct a as [c u|prices].
  - by rewrite !kept_converted.
  - cbn. f_equal. rewrite -map_fmap_compose -{2}(map_fmap_id prices). apply map_fmap_ext. intros i z _. apply Int_NewBigIntFromInt.
Qed.

(** The getter of prices behind gRPC is the getter, for tokens with an
    address: the blanks that the server sends are not given to the caller. *)
Lemma pricegetter_behind_rpc (impl : PriceGetter) (cs : list getterCall) (w : W) : (∀ c, typed (impl c) getterAnswerOK) →
  execs (getterRemote impl) cs w = (seenBack getterSeen <$> (execs impl cs w).1, (execs impl cs w).2).
Proof.
  intros Ht. apply execs_related. apply Forall_Forall2_diag, Forall_forall. intros c _ u.
  destruct c; cbn [getterRemote getterClient getterServer]; (eapply turned_over; [apply Ht|apply getter_answer_seen]).
Qed.

(** Twice as many tokens are sent as there are. *)
Example blanks_sent : converted ["0x1"; "0x2"] = [""; ""; "0x1"; "0x2"].
Proof. reflexivity. Qed.
End rpc.
End PriceGetterRPC.

(** *** token_data.go and token_pool.go *)

Module TokenRPC.
Import RemoteErrors.RemoteErrors ReportingRPC.ReportingRPC ContractWriterRPC.ContractWriterRPC CCIPReaders.CCIPData CCIPReaders.GasEstimatorRPC CCIPReaders.OffRampRPC.

Section data.
Context `{GRPCStatus, TimestampPb} {W : Type}.

(** [ReadTokenData]; the index is an int, in the request a uint64. *)
Record tokenCall := mkCall { msg : SendRequestedWithMeta; tokenIndex : Z }.
Record tokenRequest := mkRequest { pbMsg : pbSendRequestedWithMeta; pbTokenIndex : Z }.
Definition DataReader : Type := tokenCall → M (W:=W) (list byte).

(** The message is converted as in gas_estimator.go. *)
Definition dataServer (impl : DataReader) (req : tokenRequest) : M (W:=W) (list byte) :=
  checked (evm2EVMOnRampCCIPSendRequestedWithMetaPB (pbMsg req)) (λ msg, impl (mkCall msg (wrapS 64 (pbTokenIndex req)))).
Definition dataClient (grpc : tokenRequest → M (W:=W) (list byte)) (c : tokenCall) : M (W:=W) (list byte) :=
  grpc (mkRequest (evm2EVMOnRampCCIPSendRequestedWithMeta (msg c)) (wrapU 64 (tokenIndex c))).
Definition dataRemote (impl : DataReader) : DataReader := dataClient (λ req, over (dataServer impl req)).

Definition tokenCallOK (c : tokenCall) : Prop := sendRequestedOK (msg c) ∧ inS 64 (tokenIndex c).
Definition tokenArrives (c : tokenCall) : tokenCall := mkCall (unhashedRequest (msg c)) (tokenIndex c).

Lemma data_behind_rpc (impl : DataReader) (cs : list tokenCall) (w : W) : Forall tokenCallOK cs →
  execs (dataRemote impl) cs w = (sent <$> (execs impl (tokenArrives <$> cs) w).1, (execs impl (tokenArrives <$> cs) w).2).
Proof.
  intros Hc. apply execs_related. rewrite Forall2_fmap_r. apply Forall_Forall2_diag. eapply Forall_impl; [exact Hc|]. intros [m i] [Hm Hi] u. cbn in Hm, Hi.
  rewrite /dataRemote /dataClient /over /dataServer /checked /=. rewrite sendRequested_there // wrapS_wrapU // wrapS_small //. by destruct (impl _ u).
Qed.
End data.

Section pool.
Context `{GRPCStatus} {W : Type}.

(** [GetInboundTokenPoolRateLimits] *)
Definition PoolReader : Type := list string → M (W:=W) (list TokenBucketRateLimit).
Definition poolServer (impl : PoolReader) (tokenPoolReaders : list string) : M (W:=W) (list pbTokenPoolRateLimit) :=
  reply (λ l, tokenBucketRateLimitPB <$> l) (impl (MakeAddresses tokenPoolReaders)).
Definition poolClient (grpc : list string → M (W:=W) (list pbTokenPoolRateLimit)) (tokenPoolReaders : list string) : M (W:=W) (list TokenBucketRateLimit) :=
  reply (λ l, tokenBucketRateLimit <$> l) (grpc (Strings tokenPoolReaders)).
Definition poolRemote (impl : PoolReader) : PoolReader := poolClient (λ req, over (poolServer impl req)).

Lemma pool_behind_rpc (impl : PoolReader) (cs : list (list string)) (w : W) :
  execs (poolRemote impl) cs w = (sent <$> (execs impl cs w).1, (execs impl cs w).2).
Proof.
  apply execs_behindRPC, Forall_forall. intros c _ u. rewrite /poolRemote /poolClient /over /poolServer /reply.
  destruct (impl c u) as [[l|e|] u'] eqn:E; rewrite /MakeAddresses /Strings E //. cbn [map_err obind fst snd].
  by rewrite -list_fmap_compose (list_fmap_ext _ id) ?list_fmap_id // => ? s _; apply rateLimit_back.
Qed.
End pool.
End TokenRPC.

(** *** commit_provider.go and execution_provider.go *)

Module CCIPProviderRPC.
Import RemoteErrors.RemoteErrors ReportingRPC.ReportingRPC ContractWriterRPC.ContractWriterRPC CCIPReaders.CCIPData.

(** The calls of both providers that make readers. *)
Inductive newCall :=
  | NewCommitStoreReader (addr : string)
  | NewOffRampReader (addr : string)
  | NewOnRampReader (addr : string) (sourceChainSelector destChainSelector : Z)
  | NewPriceGetter
  | NewPriceRegistryReader (addr : string)
  | NewTokenDataReader (tokenAddress : string)
  | NewTokenPoolBatchedReader (offRampAddress : string) (sourceChainSelector : Z).

(** The commit provider has no readers of token data and pools, the execution
    provider has no getter of prices. *)
Definition ofCommitProvider (c : newCall) : bool := match c with NewTokenDataReader _ | NewTokenPoolBatchedReader _ _ => false | _ => true end.
Definition ofExecProvider (c : newCall) : bool := match c with NewPriceGetter => false | _ => true end.

Section providers.
Context `{GRPCStatus} {W Reader Served : Type}.

(** What the broker serves, by number; [newServer] wraps a reader, and may
    serve more by itself, as the servers of off-ramps and commit stores do. *)
Abbreviation brokered := (list Served * W)%type.
Context (newServer : newCall → Reader → brokered → outcome error Served * brokered) (newClient : newCall → Served → Reader).

Definition Provider : Type := newCall → M (W:=W) Reader.

(** The servers' methods: the reader is made, wrapped and served. *)
Definition serverNew (impl : Provider) (serveErr : option error) (c : newCall) (bw : brokered) : outcome error Z * brokered :=
  let '(b, w) := bw in
  let '(r, w) := impl c w in
  match r with
  | Err e => (Err e, (b, w))
  | Panic => (Panic, (b, w))
  | Ok reader =>
      let '(h, bw) := newServer c reader (b, w) in
      match h with
      | Err e => (Err (wrapf "failed to create offramp reader grpc server: " e), bw)
      | Panic => (Panic, bw)
      | Ok handler => match serveErr with Some e => (Err e, bw) | None => (Ok (wrapS 32 (Z.of_nat (length bw.1))), (bw.1 ++ [handler], bw.2)) end
      end
  end.

Definition lookupText (c : newCall) : string :=
  match c with
  | NewCommitStoreReader _ | NewOffRampReader _ => "failed to lookup off ramp reader service at "
  | NewOnRampReader _ _ _ => "failed to lookup on ramp reader service at "
  | NewPriceGetter => "failed to lookup price getter service at "
  | NewPriceRegistryReader _ => "failed to lookup price registry reader service at "
  | NewTokenDataReader _ => "failed to lookup token data reader service at "
  | NewTokenPoolBatchedReader _ _ => "failed to lookup token poll batched reader service at "
  end.

(** The clients' methods: the served reader is dialled. *)
Definition clientNew (dialErr : error) (grpc : newCall → brokered → outcome error Z * brokered) (c : newCall) (bw : brokered) : outcome error Reader * brokered :=
  let '(r, bw) := grpc c bw in
  match r with
  | Err e => (Err (arrived e), bw)
  | Panic => (Panic, bw)
  | Ok id =>
      (match bw.1 !! Z.to_nat (wrapU 32 id) with
       | Some s => Ok (newClient c s)
       | None => Err (wrapf (lookupText c ++ Itoa id ++ ": ") dialErr)
       end, bw)
  end.

(** The methods that the two providers have. *)
Definition commitProviderServer (impl : Provider) (serveErr : option error) (c : newCall) (bw : brokered) : option (outcome error Z * brokered) :=
  if ofCommitProvider c then Some (serverNew impl serveErr c bw) else None.
Definition commitProviderClient (dialErr : error) (grpc : newCall → brokered → outcome error Z * brokered) (c : newCall) (bw : brokered) : option (outcome error Reader * brokered) :=
  if ofCommitProvider c then Some (clientNew dialErr grpc c bw) else None.
Definition execProviderServer (impl : Provider) (serveErr : option error) (c : newCall) (bw : brokered) : option (outcome error Z * brokered) :=
  if ofExecProvider c then Some (serverNew impl serveErr c bw) else None.
Definition execProviderClient (dialErr : error) (grpc : newCall → brokered → outcome error Z * brokered) (c : newCall) (bw : brokered) : option (outcome error Reader * brokered) :=
  if ofExecProvider c then Some (clientNew dialErr grpc c bw) else None.

(** *** Sequences of new readers *)

Definition NewServerExtends : Prop := ∀ c reader b w h b' w', newServer c reader (b, w) = (h, (b', w')) → b `prefix_of` b'.

(** A reader that a client gets is the client of what the server made of the
    provider's reader; what was served before stays under its number. *)
Lemma reader_served impl dialErr c b w reader b' w' : NewServerExtends → (Z.of_nat (length b') <= 2 ^ 32)%Z →
  clientNew dialErr (serverNew impl None) c (b, w) = (Ok reader, (b', w')) →
  ∃ r w1 handler bs, impl c w = (Ok r, w1) ∧ newServer c r (b, w1) = (Ok handler, (bs, w')) ∧ reader = newClient c handler ∧ b' = bs ++ [handler] ∧ b `prefix_of` b'.
Proof.
  intros Hx Hl. rewrite /clientNew /serverNew. destruct (impl c w) as [[r|e|] w1] eqn:Ei; [|done..].
  destruct (newServer c r (b, w1)) as [[handler|e|] [bs w2]] eqn:Es; [|done..]. cbn [fst snd]. rewrite wrapU_wrapS //.
  destruct ((bs ++ [handler]) !! _) as [s|] eqn:El; [|done]. intros [= <- <- <-].
  assert (s = handler) as ->.
  { rewrite wrapU_small in El; [|rewrite length_app /= in Hl; unfold inU; lia]. rewrite Nat2Z.id lookup_app_r // Nat.sub_diag /= in El. by injection El as ->. }
  exists r, w1, handler, bs. split; [done|]. split; [done|]. split; [done|]. split; [done|]. apply prefix_app_r. by eapply Hx.
Qed.

(** When the broker cannot serve a reader, what [newServer] served stays: the
    estimator of an off-ramp or a commit store is served for ever, and the
    reader is not closed. *)
Lemma served_left impl dialErr e c b w r w1 handler bs w2 : impl c w = (Ok r, w1) → newServer c r (b, w1) = (Ok handler, (bs, w2)) →
  clientNew dialErr (serverNew impl (Some e)) c (b, w) = (Err (arrived e), (bs, w2)).
Proof. intros Hi Hs. by rewrite /clientNew /serverNew Hi Hs. Qed.
End providers.
End CCIPProviderRPC.
