(* ===== verification/CodecTypes.v ===== *)
(** [src/pkg/codec/field_and_indices.go, modifier_base.go, renamer.go] and the
    retyping of the other modifiers: the off-chain type that a modifier makes of
    an on-chain type, and the renamer, which casts values between the two.

    A [reflect.Type] is a tree: types that refer to themselves are left out, and
    so are embedded fields.  [reflect.StructOf] panics on fields that a struct
    cannot have, as its documentation says; a field name is a string of ASCII
    characters. *)

From Stdlib.Strings Require Import Ascii.
From S2P Require Import Prelude GoBytes GoStrings.

Module CodecTypes.

(** *** Types *)

Inductive width := WNative | W8 | W16 | W32 | W64.
Inductive prim := PBool | PInt (w : width) | PUint (w : width) | PFloat32 | PFloat64 | PString | PInterface | PMap (name : string) | POther (name : string).

(** A struct has the package path and the name of its type, both empty for a
    struct that [StructOf] made; a field has its name, its package path (empty
    for an exported one) and its type. *)
Inductive rtype :=
  | Prim (p : prim)
  | Pointer (elem : rtype)
  | Slice (elem : rtype)
  | Array (len : nat) (elem : rtype)
  | Struct (pkgPath name : string) (fields : list (string * string * rtype)).
Abbreviation field := (string * string * rtype)%type.
Definition Name (f : field) : string := f.1.1.
Definition PkgPath (f : field) : string := f.1.2.
Definition Type_ (f : field) : rtype := f.2.
Definition setType (f : field) (t : rtype) : field := (f.1, t).
Definition setName (f : field) (name : string) : field := (name, f.1.2, f.2).
Definition setPkgPath (f : field) (path : string) : field := (f.1.1, path, f.2).

Section ind.
Variable P : rtype → Prop.
Hypothesis (HPrim : ∀ p, P (Prim p)) (HPointer : ∀ t, P t → P (Pointer t)) (HSlice : ∀ t, P t → P (Slice t)) (HArray : ∀ n t, P t → P (Array n t))
  (HStruct : ∀ pkg name fs, Forall (λ f, P (Type_ f)) fs → P (Struct pkg name fs)).
Fixpoint rtype_ind' (t : rtype) : P t :=
  match t with
  | Prim p => HPrim p
  | Pointer t => HPointer t (rtype_ind' t)
  | Slice t => HSlice t (rtype_ind' t)
  | Array n t => HArray n t (rtype_ind' t)
  | Struct pkg name fs => HStruct pkg name fs ((fix go fs := match fs return Forall (λ f, P (Type_ f)) fs with [] => Forall_nil_2 _ | f :: fs => Forall_cons_2 _ _ _ (rtype_ind' f.2) (go fs) end) fs)
  end.
End ind.

#[global] Instance width_eq_dec : EqDecision width.
Proof. solve_decision. Defined.
#[global] Instance prim_eq_dec : EqDecision prim.
Proof. solve_decision. Defined.
#[global] Instance rtype_eq_dec : EqDecision rtype.
Proof.
  refine (fix go (t u : rtype) : Decision (t = u) :=
    match t, u with
    | Prim p, Prim q => cast_if (decide (p = q))
    | Pointer t, Pointer u => cast_if (go t u)
    | Slice t, Slice u => cast_if (go t u)
    | Array n t, Array k u => cast_if_and (decide (n = k)) (go t u)
    | Struct a b fs, Struct c d gs => cast_if_and3 (decide (a = c)) (decide (b = d)) (list_eq_dec (dec := λ x y, prod_eq_dec (EqDecision1 := go) x y) fs gs)
    | _, _ => right _
    end); abstract congruence.
Defined.

(** [typeTransform] and the like find an error, which wraps [ErrInvalidType]
    in all cases; [Recovered] is that of a recovered panic. *)
Inductive error :=
  | CannotIndexKind                        (* cannot get field index from kind *)
  | CannotFindField (name : string)
  | CannotFind (key : string)
  | CannotRetypeKind
  | CannotExtract                          (* typeForPath *)
  | UnknownType                            (* cannot rename unknown type, cannot retype *)
  | CannotRenameKind
  | ModifyField (text : string)            (* modifyFieldForInput *)
  | Recovered.

(** *** reflect.StructOf *)

Definition isLetter (c : ascii) : bool :=
  let n := N_of_ascii c in ((65 <=? n)%N && (n <=? 90)%N) || ((97 <=? n)%N && (n <=? 122)%N) || Ascii.eqb c "_".
Definition isLowerChar (c : ascii) : bool := let n := N_of_ascii c in ((97 <=? n)%N && (n <=? 122)%N).
Definition isValidFieldName (s : string) : bool :=
  match s with EmptyString => false | String c s => isLetter c && allChars (λ c, isLetter c || isDigit c) s end.

(** A field without package path is exported: its name may not begin with a
    lower-case letter or an underscore. *)
Definition validField (f : field) : bool :=
  isValidFieldName (Name f) &&
  (negb (String.eqb (PkgPath f) "") || match Name f with String c _ => negb (isLowerChar c || Ascii.eqb c "_") | EmptyString => false end).
(** The names differ, but for blanks, and the package paths of the unexported
    fields are one. *)
Fixpoint distinctNames (fs : list field) : bool :=
  match fs with [] => true | f :: fs => (String.eqb (Name f) "_" || negb (existsb (λ g, String.eqb (Name g) (Name f)) fs)) && distinctNames fs end.
Fixpoint onePkgPath (path : string) (fs : list field) : bool :=
  match fs with
  | [] => true
  | f :: fs =>
      if String.eqb (PkgPath f) "" then onePkgPath path fs
      else if String.eqb path "" then onePkgPath (PkgPath f) fs
      else String.eqb path (PkgPath f) && onePkgPath path fs
  end.

Definition StructOf (fs : list field) : outcome error rtype :=
  if forallb validField fs && distinctNames fs && onePkgPath "" fs then Ok (Struct "" "" fs) else Panic.

(** *** field_and_indices.go *)

Inductive fieldsAndIndices := mkFai {
  pkgPath : string;
  fields : list field;
  Indices : gmap string nat;
  subFields : list (string * fieldsAndIndices);
  transform : rtype → outcome error rtype
}.

Definition codecPkg : string := "github.com/smartcontractkit/chainlink-common/pkg/codec".

(** The loop of [getFieldIndices].  The closure for an array asks for the length
    of the variable [inputType], which is the struct when the closure is
    called: [Len] of a struct panics. *)
Fixpoint getFieldIndices_loop (typeTransform : rtype → outcome error rtype) (inputType : rtype) : outcome error fieldsAndIndices :=
  match inputType with
  | Pointer elem => getFieldIndices_loop (λ t, let? u := typeTransform t in Ok (Pointer u)) elem
  | Slice elem => getFieldIndices_loop (λ t, let? u := typeTransform t in Ok (Slice u)) elem
  | Array _ elem => getFieldIndices_loop (λ _, Panic) elem
  | Prim _ => Err CannotIndexKind
  | Struct pkg _ fs =>
      Ok (mkFai (if String.eqb pkg "" then codecPkg else pkg) fs (foldl (λ m '(i, f), <[Name f := i]> m) ∅ (imap pair fs)) [] typeTransform)
  end.
Definition getFieldIndices (inputType : rtype) : outcome error fieldsAndIndices := getFieldIndices_loop (λ t, Ok t) inputType.

(** The map of sub-fields is an association list. *)
Definition subField (f : fieldsAndIndices) (name : string) : option fieldsAndIndices := snd <$> list_find (λ p, p.1 = name) (subFields f) ≫= λ p, Some p.2.
Fixpoint putSub (name : string) (s : fieldsAndIndices) (l : list (string * fieldsAndIndices)) : list (string * fieldsAndIndices) :=
  match l with
  | [] => [(name, s)]
  | (k, s') :: l => if String.eqb k name then (k, s) :: l else (k, s') :: putSub name s l
  end.
Definition setSub (f : fieldsAndIndices) (name : string) (s : fieldsAndIndices) : fieldsAndIndices :=
  mkFai (pkgPath f) (fields f) (Indices f) (putSub name s (subFields f)) (transform f).
Definition withFields (f : fieldsAndIndices) (fs : list field) : fieldsAndIndices := mkFai (pkgPath f) fs (Indices f) (subFields f) (transform f).

(** [f.fields[f.Indices[key]].Type = t]; a missing key has index 0. *)
Definition setFieldType (ix : gmap string nat) (key : string) (t : rtype) (fs : list field) : outcome error (list field) :=
  let i := default 0 (ix !! key) in
  match fs !! i with Some f => Ok (<[i := setType f t]> fs) | None => Panic end.

Fixpoint makeNewType (f : fieldsAndIndices) : outcome error rtype :=
  match f with
  | mkFai _ fs ix subs tr =>
      let? fs := (fix go subs fs :=
                    match subs with
                    | [] => Ok fs
                    | (key, s) :: subs => let? t := makeNewType s in let? fs := setFieldType ix key t fs in go subs fs
                    end) subs fs in
      let? t := StructOf fs in tr t
  end.

Definition populateSubFields (f : fieldsAndIndices) (name : string) : outcome error fieldsAndIndices :=
  match subField f name with
  | Some s => Ok s
  | None =>
      match Indices f !! name with
      | Some i => match fields f !! i with Some fld => getFieldIndices (Type_ fld) | None => Panic end
      | None => Err (CannotFindField name)
      end
  end.

Definition updateTypeFromSubkeyMods (f : fieldsAndIndices) (key : string) : outcome error fieldsAndIndices :=
  match subField f key with
  | None => Ok f
  | Some s =>
      let? t := makeNewType s in
      let? fs := setFieldType (Indices f) key t (fields f) in
      Ok (mkFai (pkgPath f) fs (Indices f) (filter (λ p, p.1 ≠ key) (subFields f)) (transform f))
  end.

Definition addNewField (f : fieldsAndIndices) (fld : field) : fieldsAndIndices :=
  let fs := fields f ++ [fld] in mkFai (pkgPath f) fs (<[Name fld := length fs - 1]> (Indices f)) (subFields f) (transform f).

(** *** modifier_base.go *)

(** [sort.Strings] compares bytes. *)
Fixpoint strLe (s t : string) : bool :=
  match s, t with
  | EmptyString, _ => true
  | String _ _, EmptyString => false
  | String c s, String d t => (N_of_ascii c <? N_of_ascii d)%N || (Ascii.eqb c d && strLe s t)
  end.
Definition subkeysLast {A} (fields : gmap string A) : list string := merge_sort (λ s t, Is_true (strLe s t)) (map_to_list fields).*1.
Definition subkeysFirst {A} (fields : gmap string A) : list string := merge_sort (λ s t, Is_true (strLe t s)) (map_to_list fields).*1.

(** [ItemTyper.Next] *)
Definition Next (t : string) : string * string :=
  if String.eqb t "" then ("", "")
  else match Split t "." with
       | [] => ("", "")
       | [p] => (p, "")
       | p :: path => (p, String.concat "." path)
       end.

Fixpoint typeForPath (from : rtype) (itemType : string) : outcome error rtype :=
  if String.eqb itemType "" then Ok from
  else match from with
       | Pointer elem => typeForPath elem itemType
       | Array _ _ | Slice _ | Prim _ => Err CannotExtract
       | Struct _ _ fs =>
           let '(head, tail) := Next itemType in
           (fix go fs :=
              match fs with
              | [] => Err CannotExtract
              | f :: fs => if String.eqb (Name f) head then (if String.eqb tail "" then Ok (Type_ f) else typeForPath f.2 tail) else go fs
              end) fs
       end.

Section base.
Context {T : Type}.

Abbreviation typeMap := (list (rtype * rtype)).
Definition lookupType (t : rtype) (m : typeMap) : option rtype := snd <$> (list_find (λ p, p.1 = t) m ≫= λ p, Some p.2).

Record modifierBase := mkBase {
  enablePathTraverse : bool;
  changes : gmap string T;                                              (* fields *)
  modifyFieldForInput : string → field → string → T → outcome error field;
  addFieldForInput : option (string → string → T → field);
  onToOffChainType : typeMap;
  offToOnChainType : typeMap;
  onChainStructType : option rtype;
  offChainStructType : option rtype
}.

Definition record_ (m : modifierBase) (on off : rtype) : modifierBase :=
  mkBase (enablePathTraverse m) (changes m) (modifyFieldForInput m) (addFieldForInput m) ((on, off) :: onToOffChainType m) ((off, on) :: offToOnChainType m)
    (onChainStructType m) (offChainStructType m).
Definition setStructs (m : modifierBase) (on off : rtype) : modifierBase :=
  mkBase (enablePathTraverse m) (changes m) (modifyFieldForInput m) (addFieldForInput m) (onToOffChainType m) (offToOnChainType m) (Some on) (Some off).

(** The change of [key] at the end of its path. *)
Definition changeHere (m : modifierBase) (key fieldName : string) (change : T) (cur : fieldsAndIndices) : outcome error fieldsAndIndices :=
  let? cur := updateTypeFromSubkeyMods cur fieldName in
  match Indices cur !! fieldName with
  | Some i =>
      match fields cur !! i with
      | Some fld => let? fld := modifyFieldForInput m (pkgPath cur) fld key change in Ok (withFields cur (<[i := fld]> (fields cur)))
      | None => Panic
      end
  | None =>
      match addFieldForInput m with
      | None => Err (CannotFind key)
      | Some add => Ok (addNewField cur (add (pkgPath cur) fieldName change))
      end
  end.

(** The sub-fields along [parts] are made, and the last one is changed. *)
Fixpoint changeAt (f : fieldsAndIndices → outcome error fieldsAndIndices) (parts : list string) (cur : fieldsAndIndices) : outcome error fieldsAndIndices :=
  match parts with
  | [] => f cur
  | part :: parts => let? s := populateSubFields cur part in let? s := changeAt f parts s in Ok (setSub cur part s)
  end.

Definition lastPart (parts : list string) : string := default "" (last parts).

Definition getStructType (m : modifierBase) (outputType : rtype) : outcome error rtype :=
  let? locations := getFieldIndices outputType in
  let? locations := ofold (λ locations key,
    match changes m !! key with
    | None => Panic
    | Some change =>
        let parts := Split key "." in
        changeAt (changeHere m key (lastPart parts) change) (take (length parts - 1) parts) locations
    end) locations (subkeysFirst (changes m)) in
  makeNewType locations.

(** The deferred function of [RetypeToOffChain]. *)
Definition recovered {A} (r : outcome error A) : outcome error A := match r with Panic => Err Recovered | r => r end.

(** [RetypeToOffChain(onChainType, "")] *)
Fixpoint retype (m : modifierBase) (t : rtype) : outcome error rtype * modifierBase :=
  let known (r : outcome error rtype) (m : modifierBase) : outcome error rtype * modifierBase :=
    match recovered r with
    | Ok off =>
        let m := record_ m t off in
        (Ok off, match onChainStructType m with None => setStructs m t off | Some _ => m end)
    | r => (r, m)
    end in
  match lookupType t (onToOffChainType m) with
  | Some cached => (Ok cached, m)
  | None =>
      if decide (changes m = ∅) then (Ok t, setStructs (record_ m t t) t t)
      else
        match t with
        | Pointer elem => let '(r, m) := retype m elem in known (let? elm := r in Ok (Pointer elm)) m
        | Slice elem => let '(r, m) := retype m elem in known (let? elm := r in Ok (Slice elm)) m
        | Array n elem => let '(r, m) := retype m elem in known (let? elm := r in Ok (Array n elm)) m
        | Struct _ _ _ => known (getStructType m t) m
        | Prim _ => if decide (Some t ≠ onChainStructType m) then (Ok t, m) else (Err CannotRetypeKind, m)
        end
  end.

(** [RetypeToOffChain] *)
Definition RetypeToOffChain (m : modifierBase) (onChainType : rtype) (itemType : string) : outcome error rtype * modifierBase :=
  let itemType := if enablePathTraverse m then itemType else "" in
  if String.eqb itemType "" then retype m onChainType
  else
    match onChainStructType m with
    | Some st =>
        (* in the cache: see [structs_cached] *)
        let '(r, m) := retype m st in (recovered (let? off := r in typeForPath off itemType), m)
    | None =>
        if decide (changes m = ∅) then (recovered (typeForPath onChainType itemType), setStructs (record_ m onChainType onChainType) onChainType onChainType)
        else (Err Recovered, m)                       (* the kind of a nil type *)
    end.

Definition onToOffChainTyper (m : modifierBase) (onChainType : rtype) (itemType : string) : outcome error rtype :=
  match (if String.eqb itemType "" then Some onChainType else onChainStructType m) ≫= λ t, lookupType t (onToOffChainType m) with
  | None => Err UnknownType
  | Some off => typeForPath off itemType
  end.
Definition offToOnChainTyper (m : modifierBase) (offChainType : rtype) (itemType : string) : outcome error rtype :=
  match (if String.eqb itemType "" then Some offChainType else offChainStructType m) ≫= λ t, lookupType t (offToOnChainType m) with
  | None => Err UnknownType
  | Some on => typeForPath on itemType
  end.
End base.
Arguments modifierBase : clear implicits.

(** *** The changes of the modifiers to a field *)

Definition newBase {T} (enablePathTraverse : bool) (fields : gmap string T) (modify : string → field → string → T → outcome error field)
    (add : option (string → string → T → field)) : modifierBase T :=
  mkBase enablePathTraverse fields modify add [] [] None None.

(** renamer.go; indexing an empty name panics. *)
Definition renameField (pkgPath : string) (f : field) (_ : string) (newName : string) : outcome error field :=
  match newName with
  | EmptyString => Panic
  | String c _ => let f := setName f newName in Ok (if isLowerChar c then setPkgPath f pkgPath else f)
  end.
Definition NewPathTraverseRenamer (fields : gmap string string) (enablePathTraverse : bool) : modifierBase string :=
  newBase enablePathTraverse fields renameField None.
Definition NewRenamer (fields : gmap string string) : modifierBase string := NewPathTraverseRenamer fields false.

(** wrapper.go *)
Definition wrapField (_ : string) (f : field) (_ : string) (fieldName : string) : outcome error field :=
  let? t := StructOf [(fieldName, "", Type_ f)] in Ok (setType f t).
Definition NewPathTraverseWrapperModifier (fields : gmap string string) (enablePathTraverse : bool) : modifierBase string :=
  newBase enablePathTraverse fields wrapField None.

(** element_extractor.go and element_extractor_from_onchain.go *)
Inductive ElementExtractorLocation := LocationFirst | LocationMiddle | LocationLast.
Definition expandField (_ : string) (f : field) (_ : string) (_ : option ElementExtractorLocation) : outcome error field := Ok (setType f (Slice (Type_ f))).
Definition NewElementExtractor (fields : gmap string (option ElementExtractorLocation)) := newBase false fields expandField None.

Definition elementField (_ : string) (f : field) (_ : string) (_ : option ElementExtractorLocation) : outcome error field :=
  let t := match Type_ f with Pointer t => t | t => t end in
  match t with Array _ e | Slice e => Ok (setType f e) | _ => Err (ModifyField "is not a slice or array") end.
Definition NewElementExtractorFromOnchain (fields : gmap string (option ElementExtractorLocation)) := newBase false fields elementField None.

(** byte_to_boolean_modifier.go *)
Definition convertUint8InTypeToBool (t : rtype) : outcome error rtype :=
  match t with
  | Prim (PUint W8) => Ok (Prim PBool)
  | Pointer (Prim (PUint W8)) => Ok (Pointer (Prim PBool))
  | _ => Err (ModifyField "cannot convert bool for field")
  end.
Definition boolField (_ : string) (f : field) (_ : string) (_ : unit) : outcome error field := let? t := convertUint8InTypeToBool (Type_ f) in Ok (setType f t).
Definition fieldSet (fields : list string) : gmap string unit := foldl (λ m f, <[f := ()]> m) ∅ fields.
Definition NewByteToBooleanModifier (fields : list string) : modifierBase unit := newBase false (fieldSet fields) boolField None.

(** epoch_to_time.go; the types that [ConvertibleTo(int64)] accepts are the
    numeric ones. *)
Definition bigInt : rtype := Struct "math/big" "Int" [].
Definition timeStruct : rtype := Struct "time" "Time" [].
Definition numeric (t : rtype) : bool := match t with Prim (PInt _ | PUint _ | PFloat32 | PFloat64) => true | _ => false end.
Fixpoint convertInt64InTypeToTime_loop (converter : rtype → rtype) (t : rtype) : outcome error rtype :=
  if numeric t then Ok (converter (Pointer timeStruct))
  else match t with
       | Pointer e => if decide (t = Pointer bigInt) then Ok (converter (Pointer timeStruct)) else convertInt64InTypeToTime_loop converter e
       | Slice e | Array _ e => convertInt64InTypeToTime_loop (λ t, Slice (converter t)) e
       | _ => Err (ModifyField "cannot convert time for field")
       end.
Definition convertInt64InTypeToTime (t : rtype) : outcome error rtype := convertInt64InTypeToTime_loop (λ t, t) t.
Definition timeField (_ : string) (f : field) (_ : string) (_ : unit) : outcome error field := let? t := convertInt64InTypeToTime (Type_ f) in Ok (setType f t).
Definition NewPathTraverseEpochToTimeModifier (fields : list string) (enablePathTraverse : bool) : modifierBase unit := newBase enablePathTraverse (fieldSet fields) timeField None.

(** byte_string_modifier.go *)
Fixpoint createStringTypeForBytes (length : nat) (t : rtype) : outcome error rtype :=
  let fails := Err (ModifyField "cannot convert bytes for field") in
  match t with
  | Pointer e => createStringTypeForBytes length e
  | Array n e =>
      match e with
      | Prim (PUint W8) => if decide (n = length) then Ok (Prim PString) else fails
      | Array k _ => if decide (k = length) then Ok (Array n (Prim PString)) else fails
      | _ => fails
      end
  | Slice (Array k _) => if decide (k = length) then Ok (Slice (Prim PString)) else fails
  | _ => fails
  end.
Definition stringField (length : nat) (_ : string) (f : field) (_ : string) (_ : unit) : outcome error field :=
  let? t := createStringTypeForBytes length (Type_ f) in Ok (setType f t).
Definition NewPathTraverseAddressBytesToStringModifier (fields : list string) (length : nat) (enablePathTraverse : bool) : modifierBase unit :=
  newBase enablePathTraverse (fieldSet fields) (stringField length) None.

(** hard_coder.go; a hard-coded value is its type here. *)
Definition hardCodeField (onChain : gset string) (_ : string) (f : field) (key : string) (newType : rtype) : outcome error field :=
  if decide ((key ∉ onChain) ∧ Type_ f ≠ newType) then Err (ModifyField "cannot change field type without hard-coding its onchain value")
  else Ok (setType f newType).
Definition addHardCoded (_ : string) (name : string) (t : rtype) : field := (name, "", t).
Definition hardCoderBase (onChain : gset string) (offChain : gmap string rtype) (enablePathTraverse : bool) : modifierBase rtype :=
  newBase enablePathTraverse offChain (hardCodeField onChain) (Some addHardCoded).

(** precodec.go; [CreateType] of the codec of a type definition. *)
Definition preCodecField (CreateType : string → option (outcome error rtype)) (_ : string) (f : field) (_ : string) (typeDef : string) : outcome error field :=
  if decide (Type_ f ≠ Slice (Prim (PUint W8)) ∧ Type_ f ≠ Pointer (Slice (Prim (PUint W8)))) then Err (ModifyField "can only decode []byte from on-chain")
  else match CreateType typeDef with
       | None => Err (ModifyField "codec not found for type definition")
       | Some r => let? t := r in Ok (setType f t)
       end.

(** *** Values and the renamer's casts *)

(** What is in memory where a value is: a pointer is nil or leads to a value. *)
Inductive mem := MPrim (p : prim) (payload : Z) | MPtr (v : option mem) | MSlice (l : list mem) | MArray (l : list mem) | MStruct (l : list mem).

(** The memory is one that a value of the type can have. *)
Fixpoint fits (t : rtype) (v : mem) : Prop :=
  match t, v with
  | Prim p, MPrim q _ => p = q
  | Pointer t, MPtr None => True
  | Pointer t, MPtr (Some v) => fits t v
  | Slice t, MSlice l => Forall (fits t) l
  | Array n t, MArray l => length l = n ∧ Forall (fits t) l
  | Struct _ _ fs, MStruct l =>
      (fix go fs l := match fs, l with [] , [] => True | f :: fs, v :: l => fits f.2 v ∧ go fs l | _, _ => False end) fs l
  | _, _ => False
  end.

Record value := mkValue { vType : rtype; vMem : mem }.

Definition Elem (t : rtype) : outcome error rtype := match t with Pointer e | Slice e | Array _ e => Ok e | _ => Panic end.

(** [renameTransform]: the memory is read with another type. *)
Definition renameTransform (typeFunc : rtype → string → outcome error rtype) (rInput : value) (itemType : string) : outcome error value :=
  let? toType := typeFunc (vType rInput) itemType in
  if decide (toType = vType rInput) then Ok rInput
  else match vType rInput with
       | Pointer _ => let? e := Elem toType in Ok (mkValue (Pointer e) (vMem rInput))
       | Struct _ _ _ | Slice _ | Array _ _ => Ok (mkValue toType (vMem rInput))
       | Prim _ => Err CannotRenameKind
       end.

(** The first field of the map, in the order of the iteration, for which the
    last part of the path is [pick]. *)
Definition renameMatch (O : RangeOrder (string * string)) (fields : gmap string string) (pick : string * string → string) (ref : string) : option (string * string) :=
  list_find (λ p, pick p = ref) (range_map O fields) ≫= λ p, Some p.2.

Definition renamerToOffChain (O : RangeOrder (string * string)) (r : modifierBase string) (v : value) (itemType : string) : outcome error value :=
  let itemType := if enablePathTraverse r then itemType else "" in
  let itemType :=
    if String.eqb itemType "" then itemType
    else let parts := Split itemType "." in
         match renameMatch O (changes r) fst (lastPart parts) with
         | Some (_, off) => String.concat "." (take (length parts - 1) parts ++ [off])
         | None => itemType
         end in
  renameTransform (onToOffChainTyper r) v itemType.

Definition renamerToOnChain (O : RangeOrder (string * string)) (r : modifierBase string) (v : value) (itemType : string) : outcome error value :=
  let itemType := if enablePathTraverse r then itemType else "" in
  let itemType :=
    if String.eqb itemType "" then itemType
    else let parts := Split itemType "." in
         match renameMatch O (changes r) snd (lastPart parts) with
         | Some (on, _) => on
         | None => itemType
         end in
  renameTransform (offToOnChainTyper r) v itemType.

(** [wrapperModifier], when it wraps the whole value: the type is a pointer,
    the value a struct, and on the way back [Field] of a pointer panics. *)
Definition isWholeValueWrapper (m : modifierBase string) : option string :=
  match map_to_list (changes m) with [(EmptyString, v)] => Some v | _ => None end.
Definition wrapperRetype (m : modifierBase string) (onChainType : rtype) : outcome error rtype * modifierBase string :=
  match isWholeValueWrapper m with
  | Some v => match StructOf [(v, "", onChainType)] with
              | Ok t => (Ok (Pointer t), record_ m onChainType (Pointer t))
              | r => (recovered r, m)
              end
  | None => retype m onChainType
  end.
Definition wholeToOffChain (name : string) (v : value) : outcome error value :=
  let? t := StructOf [(name, "", vType v)] in Ok (mkValue t (MStruct [vMem v])).
Definition wholeToOnChain (v : value) : outcome error value :=
  match vType v, vMem v with
  | Struct _ _ [f], MStruct [x] => Ok (mkValue (Type_ f) x)
  | Pointer (Struct _ _ [_]), _ => Panic
  | _, _ => Err UnknownType
  end.

(** [bytesToStringModifier.RetypeToOffChain] *)
Definition bytesToStringRetype (m : modifierBase unit) (length : nat) (onChainType : rtype) : outcome error rtype * modifierBase unit :=
  let '(offChainType, m) := retype m onChainType in
  match offChainType, onChainType with
  | Err _, Array n (Prim (PUint W8)) => (Ok (Array n (Prim PString)), m)
  | r, _ => (r, m)
  end.

(** *** Layouts *)

(** A type without its names. *)
Fixpoint layout (t : rtype) : rtype :=
  match t with
  | Prim p => Prim p
  | Pointer t => Pointer (layout t)
  | Slice t => Slice (layout t)
  | Array n t => Array n (layout t)
  | Struct _ _ fs => Struct "" "" ((fix go (fs : list field) : list field := match fs with [] => [] | f :: fs => ("", "", layout f.2) :: go fs end) fs)
  end.
Definition lays (fs : list field) : list field := (λ f, ("", "", layout (Type_ f))) <$> fs.

Lemma layout_struct pkg name fs : layout (Struct pkg name fs) = Struct "" "" (lays fs).
Proof. done. Qed.

(** Values fit types of the same layout. *)
Lemma fits_layout t v : fits (layout t) v ↔ fits t v.
Proof.
  revert v. induction t as [p|t IH|t IH|n t IH|pkg name fs IH] using rtype_ind'; intros v.
  - done.
  - by destruct v as [| [v|] | | | ]; cbn.
  - destruct v as [| |l| | ]; cbn; try done. apply Forall_iff, IH.
  - destruct v as [| | |l| ]; cbn; try done. by rewrite (Forall_iff _ _ _ IH).
  - destruct v as [| | | |l]; try done. rewrite layout_struct. cbn [fits]. revert l.
    induction IH as [|f fs Hf _ IHfs]; intros [|v l]; cbn; try done. by rewrite Hf IHfs.
Qed.

Lemma fits_same t u v : layout t = layout u → fits t v → fits u v.
Proof. intros Hl Hf. apply fits_layout. rewrite -Hl. by apply fits_layout. Qed.

(** A field's type has one layer at most around a struct: a pointer, slice or
    array. *)
Fixpoint baseStruct (t : rtype) : bool := match t with Prim _ => false | Pointer t | Slice t | Array _ t => baseStruct t | Struct _ _ _ => true end.
Definition isStruct (t : rtype) : bool := match t with Struct _ _ _ => true | _ => false end.
Definition oneLayer (t : rtype) : bool := match t with Pointer t | Slice t | Array _ t => isStruct t || negb (baseStruct t) | _ => true end.
Fixpoint shallow (t : rtype) : bool :=
  match t with
  | Prim _ => true
  | Pointer t | Slice t | Array _ t => shallow t
  | Struct _ _ fs => (fix go (fs : list field) := match fs with [] => true | f :: fs => oneLayer f.2 && shallow f.2 && go fs end) fs
  end.
Definition shallowFields (fs : list field) : bool := forallb (λ f, oneLayer (Type_ f) && shallow (Type_ f)) fs.

Lemma shallow_struct pkg name fs : shallow (Struct pkg name fs) = shallowFields fs.
Proof. cbn. induction fs as [|f fs IH]; [done|]. cbn. by rewrite IH. Qed.

Lemma oneLayer_layout t : oneLayer (layout t) = oneLayer t.
Proof.
  assert (∀ t, baseStruct (layout t) = baseStruct t) as Hb by (intros u; induction u using rtype_ind'; done).
  assert (∀ t, isStruct (layout t) = isStruct t) as Hs by (by intros []). destruct t; cbn; try done; by rewrite Hb Hs.
Qed.

Lemma shallow_layout t : shallow (layout t) = shallow t.
Proof.
  induction t as [p|t IH|t IH|n t IH|pkg name fs IH] using rtype_ind'; try done. rewrite layout_struct !shallow_struct.
  induction IH as [|f fs Hf _ IHfs]; [done|]. cbn. rewrite oneLayer_layout Hf. f_equal. exact IHfs.
Qed.

Lemma shallowFields_lays fs gs : lays fs = lays gs → shallowFields fs = shallowFields gs.
Proof.
  revert gs. induction fs as [|f fs IH]; intros [|g gs]; try done. cbn. intros [= Hfg Hl].
  rewrite -(oneLayer_layout (Type_ f)) -(shallow_layout (Type_ f)) Hfg oneLayer_layout shallow_layout. f_equal. by apply IH.
Qed.

(** *** Trees of fields that keep a layout *)

(** What a tree's [makeNewType] returns has the layout [L]. *)
Fixpoint keeps (f : fieldsAndIndices) (L : rtype) : Prop :=
  match f with
  | mkFai _ fs ix subs tr =>
      (∀ u v, layout u = Struct "" "" (lays fs) → tr u = Ok v → layout v = L) ∧ shallowFields fs = true ∧
      (fix go subs := match subs with [] => True | p :: subs => (∃ i fld, ix !! p.1 = Some i ∧ fs !! i = Some fld ∧ keeps p.2 (layout (Type_ fld))) ∧ go subs end) subs
  end.

Definition keepsSub (fs : list field) (ix : gmap string nat) (p : string * fieldsAndIndices) : Prop :=
  ∃ i fld, ix !! p.1 = Some i ∧ fs !! i = Some fld ∧ keeps p.2 (layout (Type_ fld)).

Lemma keeps_unfold f L : keeps f L ↔
  (∀ u v, layout u = Struct "" "" (lays (fields f)) → transform f u = Ok v → layout v = L) ∧ shallowFields (fields f) = true ∧ Forall (keepsSub (fields f) (Indices f)) (subFields f).
Proof.
  destruct f as [pk fs ix subs tr]. cbn [keeps fields Indices subFields transform].
  assert (((fix go subs := match subs with [] => True | p :: subs => (∃ i fld, ix !! p.1 = Some i ∧ fs !! i = Some fld ∧ keeps p.2 (layout (Type_ fld))) ∧ go subs end) subs : Prop)
          ↔ Forall (keepsSub fs ix) subs) as ->; [|done].
  induction subs as [|p subs IH]; [split; [constructor|done]|]. by rewrite Forall_cons IH.
Qed.

Lemma setFieldType_lays ix key t fs fs' i fld : ix !! key = Some i → fs !! i = Some fld → layout t = layout (Type_ fld) →
  setFieldType ix key t fs = Ok fs' → fs' = <[i := setType fld t]> fs ∧ lays fs' = lays fs.
Proof.
  intros Hi Hf Hl. rewrite /setFieldType Hi /= Hf. intros [= <-]. split; [done|]. rewrite /lays list_fmap_insert. apply list_insert_id.
  by rewrite list_lookup_fmap Hf /= -Hl.
Qed.

Lemma lays_lookup fs gs i fld : lays fs = lays gs → fs !! i = Some fld → ∃ gld, gs !! i = Some gld ∧ layout (Type_ gld) = layout (Type_ fld).
Proof.
  intros Hl Hf. assert (lays gs !! i = lays fs !! i) as He by by rewrite Hl. rewrite !list_lookup_fmap Hf /= in He.
  destruct (gs !! i) as [gld|]; [|done]. injection He as He. by exists gld.
Qed.

Lemma keepsSub_lays fs gs ix p : lays fs = lays gs → keepsSub fs ix p → keepsSub gs ix p.
Proof.
  intros Hl (i & fld & Hi & Hf & Hk). destruct (lays_lookup _ _ _ _ Hl Hf) as (gld & Hg & He). exists i, gld. by rewrite He.
Qed.

(** A tree with other fields of the same layout. *)
Lemma keeps_fields f fs ix subs L : lays fs = lays (fields f) → ix = Indices f → Forall (keepsSub (fields f) ix) subs → keeps f L →
  keeps (mkFai (pkgPath f) fs ix subs (transform f)) L.
Proof.
  intros Hl -> Hs (Ht & Hsh & _)%keeps_unfold. apply keeps_unfold. cbn [fields Indices subFields transform]. split; [by rewrite Hl|].
  split; [by rewrite (shallowFields_lays _ _ Hl)|]. eapply Forall_impl; [exact Hs|]. intros p. by apply keepsSub_lays.
Qed.

Section fai_ind.
Variable P : fieldsAndIndices → Prop.
Hypothesis HF : ∀ pk fs ix subs tr, Forall (λ p, P p.2) subs → P (mkFai pk fs ix subs tr).
Fixpoint fai_ind' (f : fieldsAndIndices) : P f :=
  match f with
  | mkFai pk fs ix subs tr =>
      HF pk fs ix subs tr ((fix go subs := match subs return Forall (λ p, P p.2) subs with [] => Forall_nil_2 _ | p :: subs => Forall_cons_2 _ _ _ (fai_ind' p.2) (go subs) end) subs)
  end.
End fai_ind.

Lemma StructOf_ok fs t : StructOf fs = Ok t → t = Struct "" "" fs.
Proof. rewrite /StructOf. destruct (_ && _); [by intros [= <-]|done]. Qed.

Lemma makeNewType_layout f L t : keeps f L → makeNewType f = Ok t → layout t = L.
Proof.
  revert L t. induction f as [pk fs ix subs tr IH] using fai_ind'. intros L t (Ht & _ & Hs)%keeps_unfold. cbn [fields Indices subFields transform] in *. cbn [makeNewType].
  intros Hm. apply obind_Ok_inv in Hm as (fs' & Hgo & Hm). apply obind_Ok_inv in Hm as (u & Hu & Hm). apply (Ht u t); [|done].
  rewrite (StructOf_ok _ _ Hu) layout_struct. f_equal. clear Ht Hu Hm. revert fs Hs Hgo.
  induction IH as [|[k s] subs Hks _ IHs]; intros fs Hs Hgo; [by injection Hgo as <-|]. apply Forall_cons in Hs as [(i & fld & Hi & Hf & Hk) Hs].
  cbn in Hi, Hk. apply obind_Ok_inv in Hgo as (t1 & Ht1 & Hgo). apply obind_Ok_inv in Hgo as (fs1 & Hfs1 & Hgo).
  destruct (setFieldType_lays _ _ _ _ _ _ _ Hi Hf (Hks _ _ Hk Ht1) Hfs1) as [_ Hl]. rewrite -Hl. apply IHs; [|done].
  eapply Forall_impl; [exact Hs|]. intros p. by apply keepsSub_lays.
Qed.

Lemma loop_not_struct tr t f : baseStruct t = false → getFieldIndices_loop tr t ≠ Ok f.
Proof. revert tr. induction t using rtype_ind'; cbn; intros tr Hb; [done| | | |done]; eauto. Qed.

Lemma loop_struct tr t f : isStruct t = true → getFieldIndices_loop tr t = Ok f → layout t = Struct "" "" (lays (fields f)) ∧ shallowFields (fields f) = shallow t ∧ subFields f = [] ∧ transform f = tr.
Proof. destruct t as [| | | |pkg name fs]; try done. intros _ [= <-]. cbn [fields subFields transform]. by rewrite shallow_struct. Qed.

Lemma getFieldIndices_keeps t f : oneLayer t = true → shallow t = true → getFieldIndices t = Ok f → keeps f (layout t).
Proof.
  rewrite /getFieldIndices. intros Ho Hs Hg. apply keeps_unfold.
  assert (∀ tr u, isStruct u = true → shallow u = true → getFieldIndices_loop tr u = Ok f →
            (∀ w v, layout w = layout u → tr w = Ok v → layout v = layout t) →
            (∀ w v, layout w = Struct "" "" (lays (fields f)) → transform f w = Ok v → layout v = layout t) ∧
            shallowFields (fields f) = true ∧ Forall (keepsSub (fields f) (Indices f)) (subFields f)) as Hk.
  { intros tr u Hu Hsu Hl Ht. destruct (loop_struct _ _ _ Hu Hl) as (H1 & H2 & H3 & H4). rewrite H2 H3 H4 -H1. split; [done|]. by split. }
  assert (∀ tr u, getFieldIndices_loop tr u = Ok f → baseStruct u = true) as Hb.
  { intros tr u Hl. destruct (baseStruct u) eqn:Eb; [done|]. by destruct (loop_not_struct tr u f Eb). }
  destruct t as [p|e|e|n e|pkg name fs]; cbn [oneLayer shallow] in *; [done| | | |].
  4: { apply (Hk (λ t, Ok t) (Struct pkg name fs)); [done|exact Hs|exact Hg|]. by intros w v Hw [= <-]. }
  all: cbn [getFieldIndices_loop] in Hg; rewrite (Hb _ _ Hg) orb_false_r in Ho; (eapply Hk; [exact Ho|exact Hs|exact Hg|]).
  - intros w v Hw [= <-]. cbn. by rewrite Hw.
  - intros w v Hw [= <-]. cbn. by rewrite Hw.
  - done.
Qed.

Lemma subField_elem f name s : subField f name = Some s → (name, s) ∈ subFields f.
Proof.
  rewrite /subField. destruct (list_find _ _) as [[i [k s']]|] eqn:E; [|done]. cbn. intros [= ->]. apply list_find_Some in E as (Hl & Hk & _). cbn in Hk. subst k.
  by eapply list_elem_of_lookup_2.
Qed.

Lemma shallow_field fs i fld : shallowFields fs = true → fs !! i = Some fld → oneLayer (Type_ fld) = true ∧ shallow (Type_ fld) = true.
Proof.
  rewrite /shallowFields. intros Hs Hl. apply andb_true_iff. apply list_elem_of_lookup_2, list_elem_of_In in Hl. by apply (proj1 (forallb_forall _ _) Hs).
Qed.

Lemma populate_keeps f L name s : keeps f L → populateSubFields f name = Ok s → ∃ i fld, Indices f !! name = Some i ∧ fields f !! i = Some fld ∧ keeps s (layout (Type_ fld)).
Proof.
  intros (_ & Hsh & Hs)%keeps_unfold. rewrite /populateSubFields. destruct (subField f name) as [s'|] eqn:E.
  - intros [= <-]. apply subField_elem in E. by apply (proj1 (Forall_forall _ _) Hs) in E.
  - destruct (Indices f !! name) as [i|] eqn:Ei; [|done]. destruct (fields f !! i) as [fld|] eqn:Ef; [|done]. intros Hg.
    destruct (shallow_field _ _ _ Hsh Ef) as [Ho Hsf]. exists i, fld. split; [done|]. split; [done|]. by apply getFieldIndices_keeps.
Qed.

Lemma putSub_Forall (P : string * fieldsAndIndices → Prop) name s l : P (name, s) → Forall P l → Forall P (putSub name s l).
Proof.
  intros Hp Hl. induction Hl as [|[k s'] l Hk Hl IH]; cbn; [by repeat constructor|]. destruct (String.eqb_spec k name) as [->|]; by constructor.
Qed.

Lemma setSub_keeps f L name s i fld : keeps f L → Indices f !! name = Some i → fields f !! i = Some fld → keeps s (layout (Type_ fld)) → keeps (setSub f name s) L.
Proof.
  intros Hk Hi Hf Hs. apply keeps_fields; [done|done| |done]. apply keeps_unfold in Hk as (_ & _ & Hk). apply putSub_Forall; [|done]. by exists i, fld.
Qed.

Lemma update_keeps f L key f' : keeps f L → updateTypeFromSubkeyMods f key = Ok f' → keeps f' L ∧ Indices f' = Indices f.
Proof.
  intros Hk. rewrite /updateTypeFromSubkeyMods. destruct (subField f key) as [s|] eqn:E; [|by intros [= <-]]. intros Hu.
  apply obind_Ok_inv in Hu as (t & Ht & Hu). apply obind_Ok_inv in Hu as (fs & Hfs & [= <-]). split; [|done].
  pose proof Hk as (_ & _ & Hs)%keeps_unfold. apply subField_elem in E. destruct (proj1 (Forall_forall _ _) Hs _ E) as (i & fld & Hi & Hf & Hks). cbn in Hi, Hks.
  apply keeps_fields; [|done|apply Forall_forall; intros p Hp; apply list_elem_of_filter in Hp as [_ Hp]; by apply (proj1 (Forall_forall _ _) Hs)|done]. eapply setFieldType_lays; [exact Hi|exact Hf| |exact Hfs]. by eapply makeNewType_layout.
Qed.

Lemma changeAt_keeps (g : fieldsAndIndices → outcome error fieldsAndIndices) parts :
  (∀ f L f', keeps f L → g f = Ok f' → keeps f' L) → ∀ f L f', keeps f L → changeAt g parts f = Ok f' → keeps f' L.
Proof.
  intros Hg. induction parts as [|part parts IH]; intros f L f' Hk; cbn [changeAt]; [by apply Hg|]. intros Hc.
  apply obind_Ok_inv in Hc as (s & Hs & Hc). apply obind_Ok_inv in Hc as (s' & Hs' & [= <-]).
  destruct (populate_keeps _ _ _ _ Hk Hs) as (i & fld & Hi & Hf & Hks). by eapply setSub_keeps; [done..|eapply IH].
Qed.

(** *** Retyping keeps the layout *)

Section keep.
Context {T : Type}.

(** A modifier that changes neither the layout of a field nor adds one. *)
Definition keepsLayout (m : modifierBase T) : Prop :=
  (∀ path f key c f', modifyFieldForInput m path f key c = Ok f' → layout (Type_ f') = layout (Type_ f)) ∧ addFieldForInput m = None.

Lemma changeHere_keeps m key name c f L f' : keepsLayout m → keeps f L → changeHere m key name c f = Ok f' → keeps f' L.
Proof.
  intros [Hm Ha] Hk Hc. rewrite /changeHere in Hc. apply obind_Ok_inv in Hc as (f1 & Hu & Hc). destruct (update_keeps _ _ _ _ Hk Hu) as [Hk1 _].
  destruct (Indices f1 !! name) as [i|]; [|by rewrite Ha in Hc]. destruct (fields f1 !! i) as [fld|] eqn:Ef; [|done].
  apply obind_Ok_inv in Hc as (fld' & Hf & [= <-]). pose proof Hk1 as (_ & _ & Hs)%keeps_unfold. apply keeps_fields; [|done|done|done].
  rewrite /lays list_fmap_insert. apply list_insert_id. by rewrite list_lookup_fmap Ef /= (Hm _ _ _ _ _ Hf).
Qed.

Lemma getStructType_layout m pkg name fs t : keepsLayout m → shallow (Struct pkg name fs) = true →
  getStructType m (Struct pkg name fs) = Ok t → layout t = layout (Struct pkg name fs).
Proof.
  intros Hm Hs Hg. rewrite /getStructType in Hg. apply obind_Ok_inv in Hg as (f & Hf & Hg). apply obind_Ok_inv in Hg as (f' & Hf' & Hg).
  apply (makeNewType_layout f'); [|done]. clear Hg. pose proof (getFieldIndices_keeps (Struct pkg name fs) f eq_refl Hs Hf) as Hk. clear Hf.
  revert f Hk Hf'. induction (subkeysFirst (changes m)) as [|key keys IH]; intros f Hk Hf'; [by injection Hf' as <-|]. cbn [ofold] in Hf'.
  apply obind_Ok_inv in Hf' as (f1 & Hf1 & Hf'). eapply IH; [|exact Hf']. destruct (changes m !! key) as [c|]; [|done].
  eapply changeAt_keeps; [|exact Hk|exact Hf1]. intros g L g' Hkg Hg. by eapply changeHere_keeps.
Qed.

Definition mapsKeep (m : modifierBase T) : Prop :=
  Forall (λ p, layout p.2 = layout p.1) (onToOffChainType m) ∧ Forall (λ p, layout p.2 = layout p.1) (offToOnChainType m).

Lemma lookupType_elem t u (m : list (rtype * rtype)) : lookupType t m = Some u → (t, u) ∈ m.
Proof.
  rewrite /lookupType. destruct (list_find _ _) as [[i [k s']]|] eqn:E; [|done]. cbn. intros [= ->]. apply list_find_Some in E as (Hl & Hk & _). cbn in Hk. subst k.
  by eapply list_elem_of_lookup_2.
Qed.

Lemma lookupType_head t u (m : list (rtype * rtype)) : lookupType t ((t, u) :: m) = Some u.
Proof. rewrite /lookupType /=. by destruct (decide (t = t)). Qed.

(** What the end of [RetypeToOffChain] does with the type that was made. *)
Definition known (m : modifierBase T) (t : rtype) (r : outcome error rtype) : outcome error rtype * modifierBase T :=
  match recovered r with
  | Ok off => let m := record_ m t off in (Ok off, match onChainStructType m with None => setStructs m t off | Some _ => m end)
  | r => (r, m)
  end.

Lemma retype_unfold m t : retype m t =
  match lookupType t (onToOffChainType m) with
  | Some cached => (Ok cached, m)
  | None =>
      if decide (changes m = ∅) then (Ok t, setStructs (record_ m t t) t t)
      else
        match t with
        | Pointer elem => let '(r, m) := retype m elem in known m t (let? elm := r in Ok (Pointer elm))
        | Slice elem => let '(r, m) := retype m elem in known m t (let? elm := r in Ok (Slice elm))
        | Array n elem => let '(r, m) := retype m elem in known m t (let? elm := r in Ok (Array n elm))
        | Struct _ _ _ => known m t (getStructType m t)
        | Prim _ => if decide (Some t ≠ onChainStructType m) then (Ok t, m) else (Err CannotRetypeKind, m)
        end
  end.
Proof. by destruct t. Qed.

Lemma known_ok m t r u m' : known m t r = (Ok u, m') → r = Ok u ∧ (m' = record_ m t u ∨ m' = setStructs (record_ m t u) t u).
Proof.
  rewrite /known. destruct r as [v|e|]; cbn [recovered]; [|done..]. destruct (onChainStructType (record_ m t v)); intros [= <- <-]; auto.
Qed.

(** The configuration of a modifier does not change. *)
Definition sameModifier (m m' : modifierBase T) : Prop :=
  changes m' = changes m ∧ modifyFieldForInput m' = modifyFieldForInput m ∧ addFieldForInput m' = addFieldForInput m ∧ enablePathTraverse m' = enablePathTraverse m.

Lemma sameModifier_keeps m m' : sameModifier m m' → keepsLayout m → keepsLayout m'.
Proof. intros (_ & Hf & Ha & _) [H1 H2]. rewrite /keepsLayout Hf Ha. done. Qed.

Lemma known_same m0 m t r r' m' : sameModifier m0 m → known m t r = (r', m') → sameModifier m0 m'.
Proof. intros Hs. rewrite /known. destruct (recovered r) as [v| |]; [|by intros [= <- <-]..]. by destruct (onChainStructType (record_ m t v)); intros [= <- <-]. Qed.

Lemma retype_same m t r m' : retype m t = (r, m') → sameModifier m m'.
Proof.
  revert m r m'. induction t as [p|t IH|t IH|n t IH|pkg name fs _] using rtype_ind'; intros m r m'; rewrite retype_unfold;
    (destruct (lookupType _ _); [by intros [= <- <-]|]); (destruct (decide (changes m = ∅)); [by intros [= <- <-]|]).
  - destruct (decide _); by intros [= <- <-].
  - destruct (retype m t) as [r1 m1] eqn:E. by apply known_same, (IH m r1).
  - destruct (retype m t) as [r1 m1] eqn:E. by apply known_same, (IH m r1).
  - destruct (retype m t) as [r1 m1] eqn:E. by apply known_same, (IH m r1).
  - by apply known_same.
Qed.

Lemma known_layout m t r u m' : mapsKeep m → (∀ v, r = Ok v → layout v = layout t) → known m t r = (Ok u, m') → layout u = layout t ∧ mapsKeep m'.
Proof.
  intros [H1 H2] Hr Hk. destruct (known_ok _ _ _ _ _ Hk) as [-> Hm]. specialize (Hr u eq_refl). split; [done|].
  destruct Hm as [->| ->]; (split; cbn; (constructor; [by cbn|done])).
Qed.

Lemma retype_layout m t u m' : keepsLayout m → mapsKeep m → shallow t = true → retype m t = (Ok u, m') → layout u = layout t ∧ mapsKeep m'.
Proof.
  intros Hm. revert m u m' Hm. induction t as [p|t IH|t IH|n t IH|pkg name fs _] using rtype_ind'; intros m u m' Hm Hk Hs; rewrite retype_unfold;
    (destruct (lookupType _ (onToOffChainType m)) as [c|] eqn:El;
      [intros [= <- <-]; split; [|done]; apply lookupType_elem in El; destruct Hk as [Hk _]; exact (proj1 (Forall_forall _ _) Hk _ El)|]);
    (destruct (decide (changes m = ∅)); [intros [= <- <-]; split; [done|]; destruct Hk as [H1 H2]; split; by constructor|]).
  - destruct (decide _); [|done]. by intros [= <- <-].
  - destruct (retype m t) as [[v|e|] m1] eqn:E; [|by intros (? & _)%known_ok..]. destruct (IH m v m1 Hm Hk Hs E) as [Hl Hk1].
    apply known_layout; [done|]. intros w [= <-]. cbn. by rewrite Hl.
  - destruct (retype m t) as [[v|e|] m1] eqn:E; [|by intros (? & _)%known_ok..]. destruct (IH m v m1 Hm Hk Hs E) as [Hl Hk1].
    apply known_layout; [done|]. intros w [= <-]. cbn. by rewrite Hl.
  - destruct (retype m t) as [[v|e|] m1] eqn:E; [|by intros (? & _)%known_ok..]. destruct (IH m v m1 Hm Hk Hs E) as [Hl Hk1].
    apply known_layout; [done|]. intros w [= <-]. cbn. by rewrite Hl.
  - apply known_layout; [done|]. intros w Hw. by eapply getStructType_layout.
Qed.
End keep.

Lemma renamer_keepsLayout fields path : keepsLayout (NewPathTraverseRenamer fields path).
Proof.
  split; [|done]. intros p f k c f'. cbn. destruct c as [|ch c]; [done|]. cbn. destruct (isLowerChar ch); by intros [= <-].
Qed.

(** *** The renamer *)

Definition composite (t : rtype) : bool := match t with Prim _ => false | _ => true end.

Lemma retype_recorded {T} (m : modifierBase T) t u m' : composite t = true → onToOffChainType m = [] → retype m t = (Ok u, m') →
  lookupType t (onToOffChainType m') = Some u ∧ lookupType u (offToOnChainType m') = Some t.
Proof.
  intros Hc Hm. rewrite retype_unfold Hm /=. destruct (decide (changes m = ∅)); [intros [= <- <-]; by rewrite !lookupType_head|].
  assert (∀ m1 r, known m1 t r = (Ok u, m') → lookupType t (onToOffChainType m') = Some u ∧ lookupType u (offToOnChainType m') = Some t) as Hk.
  { intros m1 r (_ & [->| ->])%known_ok; by rewrite !lookupType_head. }
  destruct t as [p|t1|t1|k t1|pkg name fs]; [done| | | |apply Hk]; destruct (retype m t1) as [r1 m1]; apply Hk.
Qed.

(** The new types name the same fields in memory: the cast of a value of the
    on-chain type is a value of the off-chain type, with the same memory, and
    the cast back is the value, if every field holds a struct within at most one
    pointer, slice or array. *)
(** C26: The renamer casts values safely: for an on-chain type whose fields hold structs within at most one pointer, slice or array, the memory of every value is one of the off-chain type that RetypeToOffChain returned, and casting back gives the value. *)
Theorem renamer_casts (fields : gmap string string) (path : bool) (O : RangeOrder (string * string)) (t u : rtype) (m : modifierBase string) (v : mem) :
  composite t = true → shallow t = true → RetypeToOffChain (NewPathTraverseRenamer fields path) t "" = (Ok u, m) → fits t v →
  renamerToOffChain O m (mkValue t v) "" = Ok (mkValue u v) ∧ fits u v ∧ renamerToOnChain O m (mkValue u v) "" = Ok (mkValue t v).
Proof.
  intros Hc Hs Hr Hf. assert (retype (NewPathTraverseRenamer fields path) t = (Ok u, m)) as Hr'.
  { revert Hr. rewrite /RetypeToOffChain. by destruct (enablePathTraverse _). }
  destruct (retype_layout _ _ _ _ (renamer_keepsLayout fields path) (conj (Forall_nil_2 _) (Forall_nil_2 _)) Hs Hr') as [Hl _].
  destruct (retype_recorded (NewPathTraverseRenamer fields path) t u m Hc eq_refl Hr') as [H1 H2].
  assert (∀ (tf : rtype → string → outcome error rtype) a b, composite a = true → layout b = layout a → tf a "" = Ok b → renameTransform tf (mkValue a v) "" = Ok (mkValue b v)) as Hcast.
  { intros tf a b Ha Hab Ht. rewrite /renameTransform Ht /=. destruct (decide (b = a)) as [->|_]; [done|].
    destruct a; try done; destruct b; try done. }
  assert (composite u = true) as Hcu by (destruct t, u; done).
  assert (∀ b, (if b : bool then "" else "") = "") as Hno by (by intros []).
  split; [|split; [by eapply fits_same; [symmetry; exact Hl|]|]].
  - rewrite /renamerToOffChain Hno /=. apply Hcast; [done|done|]. rewrite /onToOffChainTyper /= H1 /=. by destruct u.
  - rewrite /renamerToOnChain Hno /=. apply Hcast; [done|done|]. rewrite /offToOnChainTyper /= H2 /=. by destruct t.
Qed.

(** A type with nested slices and pointers of one layer. *)
Definition inner : rtype := Struct "p" "S" [("X", "", Prim PString); ("Z", "", Prim (PInt W64))].
Definition outer : rtype := Struct "p" "T" [("A", "", Prim PString); ("B", "", inner); ("C", "", Slice inner)].
Definition newNames : gmap string string := list_to_map [("A", "X"); ("B.X", "Q"); ("C.Z", "W"); ("B", "Y")].
Definition renamedOuter : rtype :=
  Struct "" "" [("X", "", Prim PString); ("Y", "", Struct "" "" [("Q", "", Prim PString); ("Z", "", Prim (PInt W64))]);
                ("C", "", Slice (Struct "" "" [("X", "", Prim PString); ("W", "", Prim (PInt W64))]))].

Example renames : (RetypeToOffChain (NewRenamer newNames) (Slice outer) "").1 = Ok (Slice renamedOuter).
Proof. vm_compute. reflexivity. Qed.

Lemma renamer_casts_witness :
  ∃ u m, RetypeToOffChain (NewRenamer newNames) (Slice outer) "" = (Ok u, m) ∧
    fits u (MSlice [MStruct [MPrim PString 1; MStruct [MPrim PString 2; MPrim (PInt W64) 3]; MSlice []]]).
Proof.
  eexists _, _. split; [vm_compute; reflexivity|].
  refine (proj1 (proj2 (renamer_casts newNames false (insertion_order _) (Slice outer) _ _ _ eq_refl eq_refl _ _))); [vm_compute; reflexivity|].
  cbn. repeat constructor.
Defined.

(** With two layers the layers come back in the other order: a pointer to a
    slice becomes a slice of pointers, and the cast gives a value that is not
    one of its type. *)
Definition twoLayers : rtype := Struct "p" "T" [("A", "", Pointer (Slice inner))].
Definition nestedName : gmap string string := {[ "A.X" := "Q" ]}.

Example layers_swapped : (RetypeToOffChain (NewRenamer nestedName) twoLayers "").1 =
  Ok (Struct "" "" [("A", "", Slice (Pointer (Struct "" "" [("Q", "", Prim PString); ("Z", "", Prim (PInt W64))])))]).
Proof. vm_compute. reflexivity. Qed.

Example cast_breaks_memory : ∃ u m v, RetypeToOffChain (NewRenamer nestedName) twoLayers "" = (Ok u, m) ∧ fits twoLayers v ∧
  (∀ O, renamerToOffChain O m (mkValue twoLayers v) "" = Ok (mkValue u v)) ∧ ¬ fits u v.
Proof.
  eexists _, _, (MStruct [MPtr (Some (MSlice []))]). split; [vm_compute; reflexivity|]. split; [by repeat constructor|]. split.
  - intros O. vm_compute. reflexivity.
  - by intros [H _].
Qed.

(** Through an array nothing can be renamed. *)
Example array_panics : (RetypeToOffChain (NewRenamer nestedName) (Struct "p" "T" [("A", "", Array 2 inner)]) "").1 = Err Recovered.
Proof. vm_compute. reflexivity. Qed.

(** On the way back the name of a nested field replaces the whole path, or is
    not found: with [B.X] renamed to [Q] the path [Y.Q] is not turned into the
    path of the on-chain field, [B.X], when the field [B] is renamed alone. *)
Example last_part_only O : renameMatch O {[ "B.X" := "Q" ]} fst (lastPart (Split "B.X" ".")) = None.
Proof.
  rewrite /renameMatch. assert (range_map O ({[ "B.X" := "Q" ]} : gmap string string) = [("B.X", "Q")]) as ->; [|done].
  apply Permutation_singleton_r. rewrite range_map_perm map_to_list_singleton. done.
Qed.

(** *** The order of the keys *)

Lemma strLe_cons c s d t : strLe (String c s) (String d t) = (N_of_ascii c <? N_of_ascii d)%N || (Ascii.eqb c d && strLe s t).
Proof. done. Qed.
Lemma strLe_refl s : strLe s s = true.
Proof. induction s as [|c s IH]; [done|]. by rewrite strLe_cons Ascii.eqb_refl IH orb_true_r. Qed.
Lemma strLe_app s t : strLe s (s ++ t)%string = true.
Proof. induction s as [|c s IH]; [done|]. change (String c s ++ t)%string with (String c (s ++ t)). by rewrite strLe_cons Ascii.eqb_refl IH orb_true_r. Qed.
Lemma strLe_antisym s t : strLe s t = true → strLe t s = true → s = t.
Proof.
  revert t. induction s as [|c s IH]; intros [|d t]; try done. rewrite !strLe_cons. intros H1 H2. apply orb_true_iff in H1, H2.
  destruct H1 as [H1%N.ltb_lt|[Hcd%Ascii.eqb_eq H1]%andb_true_iff], H2 as [H2%N.ltb_lt|[Hdc%Ascii.eqb_eq H2]%andb_true_iff]; subst; try lia.
  f_equal. by apply IH.
Qed.
Lemma strLe_total s t : strLe s t = true ∨ strLe t s = true.
Proof.
  revert t. induction s as [|c s IH]; intros [|d t]; [by left|by left|by right|]. rewrite !strLe_cons. destruct (Ascii.eqb_spec c d) as [->|Hn].
  - rewrite Ascii.eqb_refl N.ltb_irrefl /=. apply IH.
  - assert (N_of_ascii c ≠ N_of_ascii d) as Hcd by (intros He; apply Hn; rewrite -(ascii_N_embedding c) -(ascii_N_embedding d); by f_equal).
    destruct (N.ltb_spec (N_of_ascii c) (N_of_ascii d)); [by left|]. right. apply orb_true_iff. left. apply N.ltb_lt. lia.
Qed.
Lemma strLe_trans s t u : strLe s t = true → strLe t u = true → strLe s u = true.
Proof.
  revert t u. induction s as [|c s IH]; intros [|d t] [|e u]; try done. rewrite !strLe_cons. intros H1 H2. apply orb_true_iff in H1, H2. apply orb_true_iff.
  destruct H1 as [H1%N.ltb_lt|[Hcd%Ascii.eqb_eq H1]%andb_true_iff], H2 as [H2%N.ltb_lt|[Hdc%Ascii.eqb_eq H2]%andb_true_iff]; subst.
  - left. apply N.ltb_lt. lia.
  - left. by apply N.ltb_lt.
  - left. by apply N.ltb_lt.
  - right. rewrite Ascii.eqb_refl /=. by eapply IH.
Qed.

Definition strGe (s t : string) : Prop := Is_true (strLe t s).
#[local] Instance strGe_trans : Transitive strGe.
Proof. intros s t u. rewrite /strGe !Is_true_true. intros H1 H2. by eapply strLe_trans. Qed.
#[local] Instance strGe_total : Total strGe.
Proof. intros s t. rewrite /strGe !Is_true_true. destruct (strLe_total t s); auto. Qed.

Lemma StronglySorted_lookup_lt {A} (R : relation A) l i j x y : StronglySorted R l → l !! i = Some x → l !! j = Some y → i < j → R x y.
Proof.
  intros Hs. revert i j. induction Hs as [|z l _ IH Hz]; intros i j; [done|]. destruct i as [|i], j as [|j]; cbn; intros Hi Hj Hlt; [lia| |lia|].
  - injection Hi as ->. exact (proj1 (Forall_lookup _ _) Hz _ _ Hj).
  - apply (IH i j); [done|done|lia].
Qed.

(** A key comes after all keys that go further. *)
Lemma subkeys_first {A} (fields : gmap string A) i j key sub : subkeysFirst fields !! i = Some key → subkeysFirst fields !! j = Some (key ++ sub)%string → sub ≠ "" → j < i.
Proof.
  intros Hi Hj Hsub. assert (StronglySorted strGe (subkeysFirst fields)) as Hsort by (apply (StronglySorted_merge_sort strGe)).
  destruct (decide (j < i)) as [|Hn]; [done|]. exfalso. assert (i ≠ j) as Hne.
  { intros ->. rewrite Hi in Hj. injection Hj as Hj. apply Hsub. apply (f_equal String.length) in Hj.
    assert (∀ a b : string, String.length (a ++ b)%string = String.length a + String.length b) as Hlen.
    { intros a b. induction a as [|c a IHa]; [done|]. exact (f_equal S IHa). }
    rewrite Hlen in Hj. destruct sub; [done|cbn in Hj; lia]. }
  assert (i < j) as Hlt by lia.
  assert (strGe key (key ++ sub)) as Hge by (by eapply (StronglySorted_lookup_lt _ _ i j)).
  rewrite /strGe Is_true_true in Hge. pose proof (strLe_antisym _ _ (strLe_app key sub) Hge) as He.
  apply Hsub. clear -He. induction key as [|c key IH]; [by symmetry|]. apply IH. by injection He.
Qed.

(** *** A kind is never refused *)

(** The struct type is in the cache. *)
Definition structsCached {T} (m : modifierBase T) : Prop := ∀ t, onChainStructType m = Some t → is_Some (lookupType t (onToOffChainType m)).

Lemma lookupType_cons t a b (l : list (rtype * rtype)) : is_Some (lookupType t l) → is_Some (lookupType t ((a, b) :: l)).
Proof.
  rewrite /lookupType /=. destruct (decide (a = t)); [by eexists|]. destruct (list_find _ l) as [[i p]|]; cbn; [|by intros []]. intros _. by eexists.
Qed.

Lemma known_cached {T} (m : modifierBase T) t r r' m' : structsCached m → known m t r = (r', m') → structsCached m'.
Proof.
  intros Hs. rewrite /known. destruct (recovered r) as [v|e|]; [|by intros [= <- <-]..]. cbn. destruct (onChainStructType m) as [s|] eqn:E; intros [= <- <-] t'; cbn.
  - rewrite E. intros [= <-]. by apply lookupType_cons, Hs.
  - intros [= <-]. exists v. apply lookupType_head.
Qed.

Lemma retype_cached {T} (m : modifierBase T) t r m' : structsCached m → retype m t = (r, m') → structsCached m'.
Proof.
  revert m r m'. induction t as [p|t IH|t IH|n t IH|pkg name fs _] using rtype_ind'; intros m r m' Hs; rewrite retype_unfold;
    (destruct (lookupType _ _); [by intros [= <- <-]|]); (destruct (decide (changes m = ∅)); [intros [= <- <-] t'; cbn; intros [= <-]; eexists; apply lookupType_head|]).
  - destruct (decide _); by intros [= <- <-].
  - destruct (retype m t) as [r1 m1] eqn:E. eapply known_cached. by eapply IH.
  - destruct (retype m t) as [r1 m1] eqn:E. eapply known_cached. by eapply IH.
  - destruct (retype m t) as [r1 m1] eqn:E. eapply known_cached. by eapply IH.
  - by eapply known_cached.
Qed.

(** After any retypings a type that is not made of structs is its own off-chain
    type: the error for its kind, and with it the special case for arrays of
    bytes of [bytesToStringModifier], is not reached. *)
Fixpoint retypes {T} (m : modifierBase T) (ts : list rtype) : modifierBase T := match ts with [] => m | t :: ts => retypes (retype m t).2 ts end.

Lemma retypes_cached {T} (m : modifierBase T) ts : structsCached m → structsCached (retypes m ts).
Proof. revert m. induction ts as [|t ts IH]; intros m Hs; [done|]. apply IH. destruct (retype m t) eqn:E. by eapply retype_cached. Qed.

Lemma prim_retyped {T} (m : modifierBase T) p : structsCached m → (∀ c, lookupType (Prim p) (onToOffChainType m) = Some c → c = Prim p) →
  (retype m (Prim p)).1 = Ok (Prim p).
Proof.
  intros Hs Hc. rewrite retype_unfold. destruct (lookupType _ _) as [c|] eqn:E; [by rewrite (Hc c)|]. destruct (decide (changes m = ∅)); [done|].
  destruct (decide _) as [_|Hn]; [done|]. exfalso. apply Hn. intros He. symmetry in He. destruct (Hs _ He) as [c Hl]. by rewrite Hl in E.
Qed.

Example bytes_not_strings length n fields : (bytesToStringRetype (NewPathTraverseAddressBytesToStringModifier fields length false) length (Array n (Prim (PUint W8)))).1 = Ok (Array n (Prim (PUint W8))).
Proof.
  rewrite /bytesToStringRetype. rewrite retype_unfold /=. destruct (decide _) as [|Hn]; [done|].
  rewrite /known /=. done.
Qed.

(** The whole value as a field: the type is a pointer, the value is not one, and
    a value of the type cannot be unwrapped. *)
Example whole_value_panics v : fits (Prim PString) v → ∃ t m,
  wrapperRetype (NewPathTraverseWrapperModifier {[ "" := "X" ]} false) (Prim PString) = (Ok (Pointer t), m) ∧
  wholeToOffChain "X" (mkValue (Prim PString) v) = Ok (mkValue t (MStruct [v])) ∧
  wholeToOnChain (mkValue t (MStruct [v])) = Ok (mkValue (Prim PString) v) ∧
  wholeToOnChain (mkValue (Pointer t) (MPtr (Some (MStruct [v])))) = Panic.
Proof. intros _. eexists _, _. split; [vm_compute; reflexivity|]. done. Qed.

(** The element type of an array of arrays is not looked at. *)
Example any_array_is_bytes : createStringTypeForBytes 20 (Array 2 (Array 20 (Prim (PInt W64)))) = Ok (Array 2 (Prim PString)).
Proof. done. Qed.

End CodecTypes.
