(* ===== verification/CodecMaps.v ===== *)
(** [src/pkg/codec/utils.go, modifier_base.go] and the actions of the
    modifiers: the hooks that convert numbers and times ([CodecHooks]), the
    values of paths ([CodecPaths]), and the transformation of a value as a map,
    of which the fields at the paths of a modifier are changed ([CodecMaps]).

    mapstructure, which turns structs into maps and back, is a parameter. *)

From Stdlib.Strings Require Import Ascii.
From S2P Require Import Prelude GoBytes GoStrings CCIPTypes CodecTypes.

(** *** Hooks *)

Module CodecHooks.
Import CodecTypes.CodecTypes.

(** What a hook converts from, with its type, and to. *)
Inductive data := DInt (w : width) (z : Z) | DUint (w : width) (z : Z) | DString (s : string) | DBig (z : Z) | DNumber (s : string) | DTime (sec : Z) | DOther.
Inductive target := TInt (w : width) | TUint (w : width) | TString | TBigInt | TTime | TOther.
Inductive error := CannotFit | CannotDecode | BadNumber.

Definition bits (w : width) : Z := match w with W8 => 8 | W16 => 16 | W32 => 32 | W64 | WNative => 64 end.
(** Values that the types can hold. *)
Definition dataOK (d : data) : Prop := match d with DInt w z => inS (bits w) z | DUint w z => inU (bits w) z | _ => True end.

(** [big.Int.BitLen] *)
Definition BitLen (z : Z) : Z := if decide (z = 0)%Z then 0%Z else (Z.log2 (Z.abs z) + 1)%Z.

Definition FitsInNBitsSigned (n : Z) (bi : Z) : bool :=
  let bi := if decide (Z.sgn bi < 0)%Z then (- bi - 1)%Z else bi in bool_decide (BitLen bi <= n - 1)%Z.

Definition BigIntHook (to : target) (d : data) : outcome error data :=
  match to with
  | TBigInt =>
      match d with
      | DInt _ z | DUint _ z => Ok (DBig z)
      | DString s => match CCIPTypes.SetString s with Some z => Ok (DBig z) | None => Err CannotDecode end
      | d => Ok d
      end
  | _ =>
      match d with
      | DBig bi =>
          match to with
          | TInt w => if FitsInNBitsSigned (bits w) bi then Ok (DInt w (wrapS (bits w) (wrapS 64 bi))) else Err CannotFit
          | TUint w => if bool_decide (0 <= Z.sgn bi ∧ BitLen bi <= bits w)%Z then Ok (DUint w (wrapU (bits w) (wrapU 64 bi))) else Err CannotFit
          | TString => Ok (DString (Itoa bi))
          | _ => Ok d
          end
      | d => Ok d
      end
  end.

(** [NumberHook], of a JSON number; floats are left out. *)
Definition NumberHook (to : target) (d : data) : outcome error data :=
  match d, to with
  | DNumber n, TInt w => match Atoi n with Some z => Ok (DInt w (wrapS (bits w) z)) | None => Err BadNumber end
  | d, _ => Ok d
  end.

(** [SliceToArrayVerifySizeHook] of a slice of [len] elements that goes into an
    array: the length of what it gives. *)
Definition SliceToArrayVerifySizeHook (len toLen : Z) : option Z := if (len =? 0)%Z then Some toLen else if (len =? toLen)%Z then Some len else None.

(** [EpochToTimeHook]; a time is its Unix seconds. *)
Definition convertToTime (d : data) : data :=
  match d with
  | DInt _ z | DUint _ z | DBig z => DTime (wrapS 64 z)
  | d => d
  end.
Definition convertToEpoch (to : target) (sec : Z) : data :=
  match to with
  | TInt w => DInt w (wrapS (bits w) sec)
  | TUint w => DUint w (wrapU (bits w) sec)
  | TBigInt => DBig sec
  | _ => DTime sec
  end.
Definition EpochToTimeHook (to : target) (d : data) : data :=
  match d with
  | DTime sec => convertToEpoch to sec
  | d => match to with TTime => convertToTime d | _ => d end
  end.

(** *** Facts *)

Lemma BitLen_le z n : (0 <= n)%Z → (BitLen z <= n)%Z ↔ (Z.abs z < 2 ^ n)%Z.
Proof.
  intros Hn. rewrite /BitLen. destruct (decide (z = 0)%Z) as [->|Hz].
  - change (Z.abs 0) with 0%Z. split; [intros _; lia|done].
  - rewrite (Z.log2_lt_pow2 (Z.abs z) n); [lia|lia].
Qed.

Lemma FitsInNBitsSigned_exact n z : (1 <= n)%Z → FitsInNBitsSigned n z = true ↔ inS n z.
Proof.
  intros Hn. rewrite /FitsInNBitsSigned /inS. destruct (decide (Z.sgn z < 0)%Z) as [Hz|Hz]; rewrite bool_decide_eq_true BitLen_le; lia.
Qed.

Lemma bits_pos w : (1 <= bits w <= 64)%Z.
Proof. destruct w; cbn; lia. Qed.

Lemma inS_mono n k z : (1 <= n <= k)%Z → inS n z → inS k z.
Proof. rewrite /inS. intros Hn Hz. pose proof (Z.pow_le_mono_r 2 (n - 1) (k - 1) ltac:(lia) ltac:(lia)). lia. Qed.
Lemma inU_mono n k z : (0 <= n <= k)%Z → inU n z → inU k z.
Proof. rewrite /inU. intros Hn Hz. pose proof (Z.pow_le_mono_r 2 n k ltac:(lia) ltac:(lia)). lia. Qed.

(** What the target holds. *)
Definition holds (to : target) (z : Z) : Prop := match to with TInt w => inS (bits w) z | TUint w => inU (bits w) z | _ => True end.
Definition asTarget (to : target) (z : Z) : data := match to with TInt w => DInt w z | TUint w => DUint w z | TString => DString (Itoa z) | _ => DBig z end.

(** C32: The hook that converts big integers is exact: a big integer becomes a number of the type asked for if and only if the type holds it, and then the way back gives it again; otherwise the value is refused, never truncated. *)
Theorem BigIntHook_exact (to : target) (z : Z) :
  BigIntHook to (DBig z) = Ok (asTarget to z) ∧ holds to z ∧ BigIntHook TBigInt (asTarget to z) = Ok (DBig z) ∨
  BigIntHook to (DBig z) = Err CannotFit ∧ ¬ holds to z.
Proof.
  destruct to as [w|w| | | |]; cbn [BigIntHook holds asTarget].
  - pose proof (bits_pos w) as Hb. destruct (FitsInNBitsSigned (bits w) z) eqn:E.
    + left. apply FitsInNBitsSigned_exact in E; [|lia]. rewrite (wrapS_small 64); [|lia|by eapply inS_mono]. rewrite wrapS_small; [done|lia|done].
    + right. split; [done|]. rewrite -FitsInNBitsSigned_exact; [|lia]. by rewrite E.
  - pose proof (bits_pos w) as Hb. assert ((0 <= Z.sgn z ∧ BitLen z <= bits w)%Z ↔ inU (bits w) z) as Hu.
    { rewrite BitLen_le; [|lia]. rewrite /inU. lia. }
    case_bool_decide as E; [left|right]; rewrite Hu in E; [|done]. rewrite (wrapU_small 64); [|eapply inU_mono; [|exact E]; lia]. by rewrite wrapU_small.
  - left. by rewrite CCIPTypes.SetString_Itoa.
  - by left.
  - by left.
  - by left.
Qed.

(** Epochs survive the way to a time and back where the type holds the
    seconds. *)
Lemma epoch_roundtrip to d z : dataOK d → inS 64 z →
  d = DInt W64 z ∧ to = TInt W64 ∨ d = DBig z ∧ to = TBigInt ∨ (∃ w, d = DInt w z ∧ to = TInt w) ∨ (∃ w, d = DUint w z ∧ to = TUint w) →
  EpochToTimeHook to (EpochToTimeHook TTime d) = d.
Proof.
  intros Hd Hz [[-> ->]|[[-> ->]|[(w & -> & ->)|(w & -> & ->)]]]; cbn; rewrite ?(wrapS_small 64) //.
  - rewrite wrapS_small //. pose proof (bits_pos w). lia.
  - by rewrite wrapU_small.
Qed.

(** A time that the type does not hold is cut off without an error, unlike a
    big integer; so is a JSON number. *)
Example epoch_truncated : EpochToTimeHook (TInt W32) (DTime (2 ^ 31)) = DInt W32 (- 2 ^ 31) ∧ BigIntHook (TInt W32) (DBig (2 ^ 31)) = Err CannotFit.
Proof. by vm_compute. Qed.
Example number_truncated : NumberHook (TInt W8) (DNumber "300") = Ok (DInt W8 44).
Proof. by vm_compute. Qed.
End CodecHooks.

(** *** Values at paths *)

Module CodecPaths.
Import CodecTypes.CodecTypes.

Inductive error := Exhausted | ArrayOrSlice | NoField | BadKind | TypeMismatch | NotSettable.

(** The zero value of a type. *)
Fixpoint zero (t : rtype) : mem :=
  match t with
  | Prim p => MPrim p 0
  | Pointer _ => MPtr None
  | Slice _ => MSlice []
  | Array n t => MArray (replicate n (zero t))
  | Struct _ _ fs => MStruct ((fix go (fs : list field) : list mem := match fs with [] => [] | f :: fs => zero f.2 :: go fs end) fs)
  end.

(** [FieldByName] *)
Fixpoint fieldIndex (name : string) (fs : list field) : option nat :=
  match fs with [] => None | f :: fs => if String.eqb (Name f) name then Some 0 else S <$> fieldIndex name fs end.

Fixpoint derefTypePtr (t : rtype) : rtype := match t with Pointer t => derefTypePtr t | t => t end.

(** [ValueForPath]; the fuel bounds the nesting of the type. *)
Fixpoint ValueForPath (fuel : nat) (t : rtype) (v : mem) (itemType : string) : outcome error value :=
  match fuel with
  | O => Err Exhausted
  | S fuel =>
      if String.eqb itemType "" then Ok (mkValue t v)
      else match t, v with
           | Pointer t, MPtr (Some v) => ValueForPath fuel t v itemType
           | Pointer _, _ => Err BadKind                     (* the zero Value *)
           | Array _ _, _ | Slice _, _ => Err ArrayOrSlice
           | Struct _ _ fs, MStruct l =>
               let '(head, tail) := Next itemType in
               match fieldIndex head fs ≫= λ i, fs !! i ≫= λ f, l !! i ≫= λ x, Some (f, x) with
               | None => Err NoField
               | Some (f, x) => if String.eqb tail "" then Ok (mkValue (Type_ f) x) else ValueForPath fuel (Type_ f) x tail
               end
           | _, _ => Err BadKind
           end
  end.

(** [applyValue] on a field that can be set if [canSet]; what an unexported
    field points to cannot be set either. *)
Definition applyValue (canSet : bool) (tInto : rtype) (vInto : mem) (field : value) : outcome error mem :=
  if decide (derefTypePtr tInto ≠ derefTypePtr (vType field)) then Err TypeMismatch
  else match tInto with
       | Pointer eInto =>
           match vType field with
           | Pointer _ =>
               if canSet then (if decide (vType field = tInto) then Ok (vMem field) else Panic)
               else match vInto with MPtr (Some _) => Panic | _ => Err NotSettable end
           | t => (* an embedded pointer is made, and its element set *)
               if canSet then (if decide (t = eInto) then Ok (MPtr (Some (vMem field))) else Panic) else Panic
           end
       | _ =>
           if canSet then
             match vType field, vMem field with
             | Pointer t, MPtr (Some v) => if decide (t = tInto) then Ok v else Panic
             | Pointer _, _ => Panic
             | _, v => Ok v
             end
           else Err NotSettable
       end.

(** [SetValueAtPath]: the value with the field set.  Only fields without a
    package path can be set. *)
Fixpoint SetValueAtPath (fuel : nat) (canSet : bool) (t : rtype) (v : mem) (field : value) (itemType : string) : outcome error mem :=
  match fuel with
  | O => Err Exhausted
  | S fuel =>
      match t, v with
      | Pointer t, MPtr (Some v) => let? v := SetValueAtPath fuel canSet t v field itemType in Ok (MPtr (Some v))
      | Pointer t, _ => if canSet then let? v := SetValueAtPath fuel canSet t (zero t) field itemType in Ok (MPtr (Some v)) else Panic
      | Array _ _, _ | Slice _, _ => Err ArrayOrSlice
      | Struct _ _ fs, MStruct l =>
          let '(head, tail) := Next itemType in
          match fieldIndex head fs ≫= λ i, fs !! i ≫= λ f, l !! i ≫= λ x, Some (i, f, x) with
          | None => Err NoField
          | Some (i, f, x) =>
              let canSet := canSet && String.eqb (PkgPath f) "" in
              let? x := (if String.eqb tail "" then applyValue canSet (Type_ f) x field else SetValueAtPath fuel canSet (Type_ f) x field tail) in
              Ok (MStruct (<[i := x]> l))
          end
      | _, _ => Err BadKind
      end
  end.

(** [selectType]: a value of the saved type with the given one at its path, and
    zero elsewhere. *)
Definition selectType (fuel : nat) (enablePathTraverse : bool) (inputValue : value) (savedType : rtype) (itemType : string) : outcome error (value * string) :=
  if negb enablePathTraverse then Ok (inputValue, "")
  else if String.eqb itemType "" then Ok (inputValue, itemType)
  else let? v := SetValueAtPath fuel true savedType (zero savedType) inputValue itemType in Ok (mkValue savedType v, itemType).

(** *** Facts *)

(** The memory has the values of all fields, at every depth. *)
Lemma zero_fields pkg name fs : zero (Struct pkg name fs) = MStruct ((λ f, zero (Type_ f)) <$> fs).
Proof. done. Qed.

(** What is set at a path is what is at the path, up to one pointer: a value
    that was set through a pointer field is behind a pointer, and one that was
    behind a pointer is read without it. *)
Inductive reads (t : rtype) (field : value) : value → Prop :=
  | reads_same v : vType field = t → vMem field = v → reads t field (mkValue t v)
  | reads_behind v e : t = Pointer e → vType field = e → vMem field = v → reads t field (mkValue t (MPtr (Some v)))
  | reads_through v : vType field = Pointer t → vMem field = MPtr (Some v) → reads t field (mkValue t v).

Lemma applyValue_reads canSet t x field x' : applyValue canSet t x field = Ok x' → reads t field (mkValue t x').
Proof.
  rewrite /applyValue. destruct (decide (derefTypePtr t ≠ derefTypePtr (vType field))) as [|Hd]; [done|].
  destruct field as [tf vf]. cbn [vType vMem] in *. intros Ha.
  destruct t as [p|e|e|n e|pkg name fs].
  2: { destruct tf, canSet; repeat case_match; simplify_eq; first [by apply reads_same | by eapply reads_behind]. }
  all: destruct canSet; [|done]; destruct tf as [q|e'|e'|k e'|pkg' name' fs'];
    repeat case_match; simplify_eq; try done; first [by eapply reads_through | apply reads_same; [|done]; cbn in *; symmetry; by apply dec_stable].
Qed.

(** What [SetValueAtPath] sets, [ValueForPath] gets. *)
Lemma set_get fuel canSet t v field itemType v' : itemType ≠ "" → SetValueAtPath fuel canSet t v field itemType = Ok v' →
  ∃ r, ValueForPath fuel t v' itemType = Ok r ∧ reads (vType r) field r.
Proof.
  revert canSet t v itemType v'. induction fuel as [|fuel IH]; [done|]. intros canSet t v itemType v' Hne Hs.
  cbn [SetValueAtPath ValueForPath] in *. destruct (String.eqb_spec itemType ""); [done|].
  destruct t as [p|t|t|k t|pkg name fs]; [by destruct v| |done..|].
  - assert (∃ w c u, SetValueAtPath fuel c t w field itemType = Ok u ∧ v' = MPtr (Some u)) as (w & c & u & Hu & ->).
    { destruct v as [| [v|] | | |], canSet; try done; destruct (SetValueAtPath fuel _ t _ field itemType) as [u| |] eqn:Hu; try done; injection Hs as <-; by repeat eexists. }
    by eapply IH.
  - destruct v as [| | | |l]; try done. destruct (Next itemType) as [head tail].
    destruct (fieldIndex head fs) as [i|] eqn:Hi; [|done]. cbn [mbind option_bind] in *.
    destruct (fs !! i) as [f|] eqn:Hf; [|done]. cbn [mbind option_bind] in *. destruct (l !! i) as [x|] eqn:Hx; [|done]. cbn [mbind option_bind] in *.
    destruct (String.eqb_spec tail "") as [->|Ht].
    + destruct (applyValue _ _ _ _) as [u| |] eqn:Ha; [|done..]. injection Hs as <-.
      rewrite list_lookup_insert_eq; [|by eapply lookup_lt_Some]. eexists. split; [done|]. by eapply applyValue_reads.
    + destruct (SetValueAtPath _ _ _ _ _ _) as [u| |] eqn:Ha; [|done..]. injection Hs as <-.
      rewrite list_lookup_insert_eq; [|by eapply lookup_lt_Some]. by eapply IH.
Qed.
End CodecPaths.

(** *** The transformation of values as maps *)

Module CodecMaps.
Import CodecTypes.CodecTypes.

(** A Go value with the type it has in an interface: a pointer, a slice and a
    map can be nil.  The maps are [map[string]any]; their keys are distinct. *)
Inductive gval :=
  | VNil                                                  (* the nil interface *)
  | VPrim (p : prim) (payload : Z)                        (* 0 is the zero value *)
  | VPtr (elem : rtype) (v : option gval)
  | VSlice (elem : rtype) (l : option (list gval))
  | VArr (elem : rtype) (l : list gval)
  | VStruct (t : rtype) (l : list gval)
  | VMap (m : option (list (string * gval))).
Abbreviation entries := (list (string * gval)).
Abbreviation gomap := (option (list (string * gval))).

Fixpoint find (k : string) (m : entries) : option gval := match m with [] => None | (j, v) :: m => if String.eqb j k then Some v else find k m end.
Fixpoint set (k : string) (v : gval) (m : entries) : entries :=
  match m with [] => [(k, v)] | (j, w) :: m => if String.eqb j k then (k, v) :: m else (j, w) :: set k v m end.
(** Reading a nil map finds nothing; writing to it panics. *)
Definition get (k : string) (m : gomap) : option gval := m ≫= find k.
Definition put {E} (k : string) (v : gval) (m : gomap) : outcome E gomap := match m with Some m => Ok (Some (set k v m)) | None => Panic end.

Definition mapType : rtype := Prim (PMap "map[string]interface {}").
Definition boolType : rtype := Prim PBool.
Definition uint8Type : rtype := Prim (PUint W8).

Definition isInterface (t : rtype) : bool := match t with Prim PInterface => true | _ => false end.
Definition isNil (v : gval) : bool := match v with VNil => true | _ => false end.

(** [reflect.Value.IsZero]; what an interface holds is not asked. *)
Fixpoint IsZero (v : gval) : bool :=
  match v with
  | VNil => true
  | VPrim _ z => Z.eqb z 0
  | VPtr _ v => match v with None => true | Some _ => false end
  | VSlice _ l => match l with None => true | Some _ => false end
  | VArr e l => forallb (λ v, if isInterface e then isNil v else IsZero v) l
  | VStruct t l =>
      let fs := match t with Struct _ _ fs => fs | _ => [] end in
      (fix go (fs : list field) (l : list gval) {struct l} : bool :=
         match l with
         | [] => true
         | v :: l => (if isInterface (default t (Type_ <$> head fs)) then isNil v else IsZero v) && go (tail fs) l
         end) fs l
  | VMap m => match m with None => true | Some _ => false end
  end.
(** The dynamic type; the nil interface has none. *)
Definition typeOf (v : gval) : option rtype :=
  match v with
  | VNil => None
  | VPrim p _ => Some (Prim p)
  | VPtr e _ => Some (Pointer e)
  | VSlice e _ => Some (Slice e)
  | VArr e l => Some (Array (length l) e)
  | VStruct t _ => Some t
  | VMap _ => Some mapType
  end.
(** What a pointer points to: nothing behind a nil pointer, and nothing of
    interest in an interface. *)
Definition indirect (v : gval) : option gval := match v with VPtr e v => if isInterface e then None else v | VNil => None | v => Some v end.
(** The elements of a slice or an array. *)
Definition elements (v : option gval) : option (list gval) :=
  match v with Some (VSlice _ l) => Some (default [] l) | Some (VArr _ l) => Some l | _ => None end.

Inductive actionError :=
  | InvalidPath                  (* a name is not found, or mapstructure fails *)
  | NotFound | NotSlice | NotBool | NotByte | NotMap | NoCodec | NotBytes | CodecError.
Inductive error :=
  | CannotRetype
  | PathMappingError (e : actionError) (path : string)
  | CannotDecodeSource
  | CannotDecodeDestination.

(** A decode hook, of the two values. *)
Abbreviation hook := (gval → gval → outcome unit gval).

(** mapstructure: [Decode] of a value to a nil map, which stays nil for a nil
    value, and the decoding of a map to a value of a type, with hooks. *)
Class Mapstructure := {
  Decode : gval → outcome unit gomap;
  DecodeTo : list hook → rtype → entries → outcome unit gval
}.

Section maps.
Context {MS : Mapstructure}.

(** Zero values are removed but for bytes, and but for a key that has the name
    of the struct itself. *)
Definition cleanup (p : string) (m : entries) : entries :=
  List.filter (λ kv, negb (negb (String.eqb kv.1 p) && match kv.2 with VNil => false | v => IsZero v && bool_decide (typeOf v ≠ Some uint8Type) end)) m.

(** Maps, and what the whole is with other maps in their places: the maps are
    shared with the whole. *)
Abbreviation places := (list gomap * (list gomap → gomap))%type.
Fixpoint putAll (subs : list places) (l : list gomap) : list gomap :=
  match subs with [] => [] | (ms, back) :: subs => back (take (length ms) l) :: putAll subs (drop (length ms) l) end.

Definition getMapsFromPath : gomap → list string → outcome actionError places :=
  fix go (m : gomap) (path : list string) {struct path} : outcome actionError places :=
  match path with
  | [] => Ok ([m], λ l, default m (head l))
  | p :: path =>
      match get p m with
      | None => Err InvalidPath
      | Some item =>
          match elements (indirect item) with
          | Some l =>
              let? maps := map_err (λ _, InvalidPath) (omapM Decode l) in
              let? subs := omapM (λ m, go m path) maps in
              Ok (concat subs.*1, λ l, set p (VSlice mapType (Some ((VMap <$> putAll subs l)))) <$> m)
          | None =>
              let? d := map_err (λ _, InvalidPath) (Decode item) in
              match cleanup p (default [] d) with
              | [] => Ok ([], λ _, m)
              | d => let? r := go (Some d) path in Ok (r.1, λ l, set p (VMap (r.2 l)) <$> m)
              end
          end
      end
  end.

Section elements.
Context {T : Type} (fn : gomap → string → T → outcome actionError gomap).

(** One field of the modifier. *)
Definition doForField (m : gomap) (kv : string * T) : outcome error gomap :=
  let path := Split kv.1 "." in
  map_err (λ e, PathMappingError e kv.1)
    (let? r := getMapsFromPath m (removelast path) in
     let? ms := omapM (λ em, fn em (lastPart path) kv.2) r.1 in
     Ok (r.2 ms)).
Definition doForMapElements (O : RangeOrder (string * T)) (fields : gmap string T) (valueMapping : gomap) : outcome error gomap :=
  ofold doForField valueMapping (range_map O fields).

Definition changeElements (O : RangeOrder (string * T)) (fields : gmap string T) (hooks : list hook) (src : gval) (toType : rtype) : outcome error gval :=
  let? valueMapping := map_err (λ _, CannotDecodeSource) (Decode src) in
  let? m := doForMapElements O fields (Some (default [] valueMapping)) in
  map_err (λ _, CannotDecodeDestination) (DecodeTo hooks toType (default [] m)).

(** The zero value of a type. *)
Fixpoint zeroValue (t : rtype) : gval :=
  match t with
  | Prim (PInterface) => VNil
  | Prim p => VPrim p 0
  | Pointer t => VPtr t None
  | Slice t => VSlice t None
  | Array n t => VArr t (replicate n (zeroValue t))
  | Struct _ _ fs => VStruct t ((fix go (fs : list field) : list gval := match fs with [] => [] | f :: fs => zeroValue f.2 :: go fs end) fs)
  end.

(** Below a pointer, a slice or an array; the elements of a slice or an array
    are changed in order.  The type of the zero [Value] panics; an interface
    is not looked into. *)
Fixpoint transformWithMapsHelper (O : RangeOrder (string * T)) (fields : gmap string T) (hooks : list hook) (rItem : gval) (toType : rtype) : outcome error gval :=
  let doMany (te e : rtype) := fix doMany (l : list gval) : outcome error (list gval) :=
    match l with
    | [] => Ok []
    | v :: l => let? r := (if isInterface te then Err CannotRetype else transformWithMapsHelper O fields hooks v e) in let? rs := doMany l in Ok (r :: rs)
    end in
  match rItem with
  | VPtr _ None => Panic
  | VPtr te (Some elm) =>
      match toType with
      | Pointer e =>
          let? r := (if isInterface te then Err CannotRetype else match elm with VStruct _ _ => changeElements O fields hooks elm e | _ => transformWithMapsHelper O fields hooks elm e end) in
          Ok (VPtr e (Some r))
      | _ => Panic
      end
  | VStruct _ _ => changeElements O fields hooks rItem toType
  | VSlice te l => match toType with Slice e => let? rs := doMany te e (match l with Some l => l | None => [] end) in Ok (VSlice e (Some rs)) | _ => Panic end
  | VArr te l =>
      match toType with
      | Array n e => let? rs := doMany te e (take n l) in if (n <? length l)%nat then Panic else Ok (VArr e (rs ++ replicate (n - length l) (zeroValue e)))
      | _ => Panic
      end
  | VNil | VPrim _ _ | VMap _ => Err CannotRetype
  end.

Definition transformWithMaps (O : RangeOrder (string * T)) (typeMap : list (rtype * rtype)) (fields : gmap string T) (hooks : list hook) (item : gval) : outcome error gval :=
  match typeOf item with
  | None => Panic
  | Some t => match lookupType t typeMap with
              | None => Err CannotRetype
              | Some toType => transformWithMapsHelper O fields hooks item toType
              end
  end.
End elements.

(** *** The actions *)

Definition hardCode (m : gomap) (key : string) (item : gval) : outcome actionError gomap := put key item m.

Definition extractMap (m : gomap) (key : string) (elementLocation : option ElementExtractorLocation) : outcome actionError gomap :=
  match get key m with
  | None => Err NotFound
  | Some VNil => Ok m
  | Some item =>
      match elements (indirect item) with
      | None => Err NotSlice
      | Some [] => put key VNil m
      | Some l =>
          let? v := go_index l (match default LocationMiddle elementLocation with LocationFirst => 0 | LocationMiddle => length l / 2 | LocationLast => length l - 1 end) in
          put key v m
      end
  end.

(** The kinds that [IsNil] is asked of; the slice has the type of the item. *)
Definition expandMap (m : gomap) (key : string) (_ : option ElementExtractorLocation) : outcome actionError gomap :=
  match get key m with
  | None => Err NotFound
  | Some item =>
      match typeOf item with
      | None => Ok m
      | Some t => put key (VSlice t (Some (match item with VPtr _ None | VSlice _ None | VMap None => [] | _ => [item] end))) m
      end
  end.

Definition wrapFieldMapAction (m : gomap) (fieldName wrappedFieldName : string) : outcome actionError gomap :=
  match get fieldName m with None => Err NotFound | Some field => put fieldName (VMap (Some [(wrappedFieldName, field)])) m end.
Definition unwrapFieldMapAction (m : gomap) (fieldName wrappedFieldName : string) : outcome actionError gomap :=
  match get fieldName m with
  | None => Err NotFound
  | Some (VMap v) => match get wrappedFieldName v with None => Err NotFound | Some val => put fieldName val m end
  | Some _ => Err NotMap
  end.

Definition byteOf (b : bool) : gval := VPrim (PUint W8) (if b then 1 else 0)%Z.
Definition boolOf (z : Z) : gval := VPrim PBool (if Z.eqb z 0 then 0 else 1)%Z.
Definition boolToByte (m : gomap) (key : string) (_ : unit) : outcome actionError gomap :=
  match get key m with
  | Some (VPrim PBool z) => put key (byteOf (negb (Z.eqb z 0))) m
  | Some (VPtr (Prim PBool) (Some (VPrim PBool z))) => put key (VPtr uint8Type (Some (byteOf (negb (Z.eqb z 0))))) m
  | _ => Err NotBool
  end.
Definition byteToBool (m : gomap) (key : string) (_ : unit) : outcome actionError gomap :=
  match get key m with
  | Some (VPrim (PUint W8) z) => put key (boolOf z) m
  | Some (VPtr (Prim (PUint W8)) (Some (VPrim _ z))) => put key (VPtr boolType (Some (boolOf z))) m
  | Some (VPtr (Prim (PUint W8)) _) => put key (VPtr boolType (Some (boolOf 0))) m
  | _ => Err NotByte
  end.

(** A codec is that of another package: the types it makes, and what it encodes
    and decodes.  [None] for a type that has no codec or a nil one. *)
Record RemoteCodec := mkCodec {
  CreateType : outcome unit gval;
  Encode : gval → outcome unit gval;                        (* a []byte *)
  DecodeBytes : gval → gval → outcome unit gval             (* to the value *)
}.
Section codecs.
Context (codecs : string → option RemoteCodec).
Definition isBytes (v : gval) : bool := match v with VSlice e _ => bool_decide (e = uint8Type) | _ => false end.
Definition decodeFieldMapAction (m : gomap) (key typeDef : string) : outcome actionError gomap :=
  match get key m with
  | None => Err NotFound
  | Some raw =>
      match codecs typeDef with
      | None => Err NoCodec
      | Some codec =>
          let? to := map_err (λ _, CodecError) (CreateType codec) in
          if isBytes raw then let? v := map_err (λ _, CodecError) (DecodeBytes codec raw to) in put key v m else Err NotBytes
      end
  end.
Definition encodeFieldMapAction (m : gomap) (key typeDef : string) : outcome actionError gomap :=
  match get key m with
  | None => Err NotFound
  | Some v => match codecs typeDef with None => Err NoCodec | Some codec => let? b := map_err (λ _, CodecError) (Encode codec v) in put key b m end
  end.
End codecs.

(** *** hard_coder.go *)

(** The last part of a prefix of the parts is appended without the dot. *)
Definition joined (parts : list string) : list string :=
  (fix go (on : string) (parts : list string) : list string :=
     match parts with [] => [] | part :: parts => let on := String.append on part in on :: go on parts end) "" parts.
Definition verifyKey (seen : list string) (k : string) : outcome string (list string) :=
  if existsb (λ on, bool_decide (on ∈ seen)) (joined (Split k ".")) then Err k else Ok (k :: seen).
Definition verifyHardCodeKeys {A} (values : gmap string A) : outcome string unit :=
  let? _ := ofold verifyKey [] (subkeysLast values) in Ok ().

(** What pointers lead to. *)
Fixpoint derefAll (v : gval) : option gval :=
  match v with VNil => None | VPtr _ None => None | VPtr e (Some v) => if isInterface e then Some v else derefAll v | v => Some v end.
Definition hardCodeManyHook (from to : gval) : outcome unit gval :=
  match derefAll from with
  | None => Panic
  | Some from =>
      match elements (derefAll to), elements (Some from) with
      | Some l, None => match typeOf from with Some t => Ok (VSlice t (Some (replicate (length l) from))) | None => Panic end
      | _, _ => Ok from
      end
  end.

Record onChainHardCoder := mkHardCoder { base : modifierBase rtype; offChain : gmap string gval; onChain : gmap string gval; hooks : list hook }.
(** The values to hard-code are not nil, and have a type. *)
Definition NewPathTraverseHardCoder (onChain offChain : gmap string gval) (enablePathTraverse : bool) (hooks : list hook) : outcome string onChainHardCoder :=
  let? _ := verifyHardCodeKeys onChain in
  let? _ := verifyHardCodeKeys offChain in
  Ok (mkHardCoder (hardCoderBase (dom onChain) (omap typeOf offChain) enablePathTraverse) offChain onChain (hooks ++ [hardCodeManyHook])).
Definition NewHardCoder (onChain offChain : gmap string gval) (hooks : list hook) : outcome string onChainHardCoder := NewPathTraverseHardCoder onChain offChain false hooks.

(** The transforms of whole values. *)
Definition hardCoderToOnChain (O : RangeOrder (string * gval)) (m : onChainHardCoder) (offChainValue : gval) : outcome error gval :=
  transformWithMaps hardCode O (offToOnChainType (base m)) (onChain m) (hooks m) offChainValue.
Definition hardCoderToOffChain (O : RangeOrder (string * gval)) (m : onChainHardCoder) (onChainValue : gval) : outcome error gval :=
  match map_to_list (offChain m) with
  | [(k, v)] => if String.eqb k "" then Ok v else transformWithMaps hardCode O (onToOffChainType (base m)) (offChain m) (hooks m ++ [hardCodeManyHook]) onChainValue
  | _ => transformWithMaps hardCode O (onToOffChainType (base m)) (offChain m) (hooks m ++ [hardCodeManyHook]) onChainValue
  end.

(** The other modifiers that use the maps. *)
Definition elementExtractorToOnChain O (m : modifierBase (option ElementExtractorLocation)) (v : gval) := transformWithMaps extractMap O (offToOnChainType m) (changes m) [] v.
Definition elementExtractorToOffChain O (m : modifierBase (option ElementExtractorLocation)) (v : gval) := transformWithMaps expandMap O (onToOffChainType m) (changes m) [] v.
Definition fromOnchainToOnChain O (m : modifierBase (option ElementExtractorLocation)) (v : gval) := transformWithMaps expandMap O (offToOnChainType m) (changes m) [] v.
Definition fromOnchainToOffChain O (m : modifierBase (option ElementExtractorLocation)) (v : gval) := transformWithMaps extractMap O (onToOffChainType m) (changes m) [] v.
Definition byteToBooleanToOnChain O (m : modifierBase unit) (v : gval) := transformWithMaps boolToByte O (offToOnChainType m) (changes m) [] v.
Definition byteToBooleanToOffChain O (m : modifierBase unit) (v : gval) := transformWithMaps byteToBool O (onToOffChainType m) (changes m) [] v.
Definition preCodecToOffChain codecs O (m : modifierBase string) (v : gval) := transformWithMaps (decodeFieldMapAction codecs) O (onToOffChainType m) (changes m) [hardCodeManyHook] v.
Definition preCodecToOnChain codecs O (m : modifierBase string) (v : gval) := transformWithMaps (encodeFieldMapAction codecs) O (offToOnChainType m) (changes m) [hardCodeManyHook] v.
Definition wrapperToOnChain O (m : modifierBase string) (v : gval) := transformWithMaps unwrapFieldMapAction O (offToOnChainType m) (changes m) [] v.
Definition wrapperToOffChain O (m : modifierBase string) (v : gval) := transformWithMaps wrapFieldMapAction O (onToOffChainType m) (changes m) [] v.

(** *** Facts *)

Lemma find_set_eq k v m : find k (set k v m) = Some v.
Proof. induction m as [|[j w] m IH]; cbn; [by rewrite String.eqb_refl|]. destruct (String.eqb_spec j k) as [->|Hn]; cbn; [by rewrite String.eqb_refl|]. by destruct (String.eqb_spec j k). Qed.
Lemma find_set_ne n k v m : n ≠ k → find n (set k v m) = find n m.
Proof.
  intros Hn. induction m as [|[j w] m IH]; cbn; [by destruct (String.eqb_spec k n); subst|].
  destruct (String.eqb_spec j k) as [->|Hj]; cbn; [by destruct (String.eqb_spec k n); subst|]. by rewrite IH.
Qed.
Lemma keys_set k v x m : find k m = Some x → (set k v m).*1 = m.*1.
Proof. induction m as [|[j w] m IH]; [done|]. cbn. destruct (String.eqb_spec j k) as [->|Hj]; [done|]. cbn. intros Hf. by rewrite IH. Qed.
Lemma find_key k m : is_Some (find k m) ↔ k ∈ m.*1.
Proof.
  induction m as [|[j w] m IH]; cbn; [split; [by intros []|by rewrite elem_of_nil]|].
  rewrite elem_of_cons. destruct (String.eqb_spec j k) as [->|Hj]; [split; eauto|]. rewrite IH. naive_solver.
Qed.
Lemma entries_ext m m' : NoDup m.*1 → m.*1 = m'.*1 → (∀ n, find n m = find n m') → m = m'.
Proof.
  revert m'. induction m as [|[j w] m IH]; intros [|[j' w'] m']; try done. cbn. rewrite NoDup_cons. intros [Hj Hd] [= <- Hk] Hf.
  f_equal; [specialize (Hf j); rewrite String.eqb_refl in Hf; congruence|]. apply IH; [done..|]. intros n. specialize (Hf n).
  destruct (String.eqb_spec j n) as [->|Hn]; [|done]. assert (∀ l : entries, n ∉ l.*1 → find n l = None) as Hnone.
  { intros l Hl. apply eq_None_not_Some. by rewrite find_key. }
  rewrite !Hnone //. by rewrite -Hk.
Qed.
Lemma get_put_ne {E} n k v (m m' : gomap) : put (E:=E) k v m = Ok m' → n ≠ k → get n m' = get n m.
Proof. destruct m as [m|]; [|done]. intros [= <-] Hn. by apply find_set_ne. Qed.

Section facts.
Context {T : Type}.
Implicit Types (fn : gomap → string → T → outcome actionError gomap) (O : RangeOrder (string * T)).

(** An action changes no other entry than its own. *)
Definition local fn : Prop := ∀ m key v m' n, fn m key v = Ok m' → n ≠ key → get n m' = get n m.
(** An action replaces the value of its entry. *)
Definition replaces fn (e : actionError) (F : gval → T → outcome actionError gval) : Prop :=
  ∀ m key v, fn m key v = match get key m with None => Err e | Some x => let? y := F x v in put key y m end.

Lemma replaces_local fn e F : replaces fn e F → local fn.
Proof.
  intros Hr m key v m' n. rewrite Hr. destruct (get key m); [|done]. destruct (F g v); [|done..]. cbn. apply get_put_ne.
Qed.

(** The maps of a path are below its first name. *)
Lemma getMaps_others m path ms back l n : getMapsFromPath m path = Ok (ms, back) → head path ≠ Some n → path ≠ [] → get n (back l) = get n m.
Proof.
  destruct path as [|p path]; [done|]. cbn. intros Hg Hn _. assert (n ≠ p) as Hne by congruence. clear Hn.
  assert (∀ w, get n (set p w <$> m) = get n m) as Hset by (intros w; destruct m as [m|]; [by apply find_set_ne|done]).
  destruct (get p m) as [item|]; [|done]. destruct (elements _) as [vs|].
  - apply obind_Ok_inv in Hg as (maps & _ & Hg). apply obind_Ok_inv in Hg as (subs & _ & [= _ <-]). apply Hset.
  - apply obind_Ok_inv in Hg as (d & _ & Hg). destruct (cleanup _ _); [by injection Hg as _ <-|].
    apply obind_Ok_inv in Hg as (r & _ & [= _ <-]). apply Hset.
Qed.

Lemma Split_nonempty s c : ∃ p ps, Split s c = p :: ps.
Proof. rewrite /Split. destruct (splitOn c s). eauto. Qed.

Lemma field_others fn m kv m' n : local fn → doForField fn m kv = Ok m' → head (Split kv.1 ".") ≠ Some n → get n m' = get n m.
Proof.
  intros Hl. rewrite /doForField. destruct (Split_nonempty kv.1 ".") as (p & ps & ->). cbn [head]. intros Hd Hn.
  destruct (let? r := _ in _) as [m0| |] eqn:Hm; [|done..]. injection Hd as <-. apply obind_Ok_inv in Hm as ([ms back] & Hg & Hm).
  apply obind_Ok_inv in Hm as (ms' & Ha & [= <-]). destruct ps as [|q ps].
  - cbn in Hg. injection Hg as <- <-. cbn in Ha. apply obind_Ok_inv in Ha as (u & Hu & [= <-]). cbn. eapply Hl; [done|]. cbn. congruence.
  - eapply getMaps_others; [done| |done]. cbn. congruence.
Qed.
Lemma fields_others fn l m m' n : local fn → ofold (doForField fn) m l = Ok m' → (∀ kv, kv ∈ l → head (Split kv.1 ".") ≠ Some n) → get n m' = get n m.
Proof.
  intros Hl. revert m. induction l as [|kv l IH]; intros m Hf Hn; [by injection Hf as <-|]. apply obind_Ok_inv in Hf as (m1 & H1 & Hf).
  rewrite (IH m1) //; [eapply field_others; [done..|apply Hn]; by left|]. intros kv' Hk. apply Hn. by right.
Qed.

(** All entries that the modifier does not name are as before. *)
Lemma elements_untouched fn O fields m m' n : local fn → doForMapElements fn O fields m = Ok m' →
  (∀ k, is_Some (fields !! k) → head (Split k ".") ≠ Some n) → get n m' = get n m.
Proof.
  intros Hl Hf Hn. eapply fields_others; [done..|]. intros [k v] Hk. apply Hn. apply elem_of_range_map in Hk. eauto.
Qed.

(** *** Paths of one name *)

(** What an action makes of the entries that a modifier names. *)
Definition replaced (F : gval → T → outcome actionError gval) (l : gmap string T) (m m' : entries) : Prop :=
  m'.*1 = m.*1 ∧ (∀ k, is_Some (l !! k) → is_Some (find k m)) ∧
  ∀ n x, find n m = Some x → ∃ y, find n m' = Some y ∧ match l !! n with Some v => F x v = Ok y | None => y = x end.

Lemma doForField_flat fn e F m k v : replaces fn e F → Split k "." = [k] →
  doForField fn (Some m) (k, v) = map_err (λ e, PathMappingError e k) match find k m with None => Err e | Some x => let? y := F x v in Ok (Some (set k y m)) end.
Proof.
  intros Hr Hk. rewrite /doForField. cbn [fst snd]. rewrite Hk. cbn. rewrite Hr. cbn [get mbind option_bind]. destruct (find k m); [|done]. by destruct (F g v).
Qed.

Lemma ofold_flat fn e F l m m' : replaces fn e F → NoDup l.*1 → (∀ k, k ∈ l.*1 → Split k "." = [k]) →
  ofold (doForField fn) (Some m) l = Ok (Some m') → replaced F (list_to_map l) m m'.
Proof.
  intros Hr. revert m. induction l as [|[k v] l IH]; intros m Hd Hs; cbn.
  - intros [= <-]. split; [done|]. split; [by intros k []|]. intros n x Hx. exists x. by rewrite lookup_empty.
  - inversion Hd as [|? ? Hk Hd']; subst. rewrite (doForField_flat _ e F) //; [|apply Hs; by left].
    destruct (find k m) as [x|] eqn:Hx; [|done]. cbn. destruct (F x v) as [y| |] eqn:Hy; [|done..]. cbn. intros Hf.
    apply IH in Hf as (Hk' & Hin & Hf); [|done|intros k' Hk'; apply Hs; by right].
    split; [by rewrite Hk' (keys_set _ _ x)|]. split.
    + intros k' [w Hw]. destruct (decide (k' = k)) as [->|Hn]; [by eexists|]. rewrite lookup_insert_ne // in Hw.
      rewrite -(find_set_ne k' k y) //. by apply Hin.
    + intros n z Hz. destruct (decide (n = k)) as [->|Hn].
      * simplify_eq. destruct (Hf k y) as (y' & Hy' & Hl); [apply find_set_eq|]. rewrite not_elem_of_list_to_map_1 // in Hl. subst y'.
        exists y. by rewrite lookup_insert_eq.
      * destruct (Hf n z) as (y' & Hy' & Hl); [by rewrite find_set_ne|]. exists y'. by rewrite lookup_insert_ne.
Qed.

Lemma ofold_flat_ok fn e F l m m' : replaces fn e F → NoDup l.*1 → NoDup m.*1 → (∀ k, k ∈ l.*1 → Split k "." = [k]) →
  replaced F (list_to_map l) m m' → ofold (doForField fn) (Some m) l = Ok (Some m').
Proof.
  intros Hr. revert m. induction l as [|[k v] l IH]; intros m Hd Hdm Hs (Hk & Hin & Hf); cbn.
  - do 2 f_equal. apply entries_ext; [done..|]. intros n. destruct (find n m) as [x|] eqn:Hx.
    + destruct (Hf n x Hx) as (y & Hy & Hl). rewrite lookup_empty in Hl. congruence.
    + symmetry. apply eq_None_not_Some. rewrite find_key Hk -find_key Hx. by intros [].
  - inversion Hd as [|? ? Hk0 Hd']; subst. rewrite (doForField_flat _ e F) //; [|apply Hs; by left].
    cbn in Hin, Hf. destruct (Hin k) as [x Hx]; [by rewrite lookup_insert_eq|]. rewrite Hx. cbn.
    destruct (Hf k x Hx) as (y & Hy & Hl). rewrite lookup_insert_eq in Hl. rewrite Hl. cbn. apply IH; [done| |intros k' Hk'; apply Hs; by right|].
    + by rewrite (keys_set _ _ x).
    + split; [by rewrite (keys_set _ _ x)|]. split.
      * intros k' [w Hw]. destruct (decide (k' = k)) as [->|Hn]; [rewrite find_set_eq; eauto|]. rewrite find_set_ne //. apply Hin. by rewrite lookup_insert_ne.
      * intros n z. destruct (decide (n = k)) as [->|Hn].
        { rewrite find_set_eq. intros [= <-]. exists y. by rewrite not_elem_of_list_to_map_1. }
        rewrite find_set_ne //. intros Hz. destruct (Hf n z Hz) as (y' & Hy' & Hl'). exists y'. by rewrite lookup_insert_ne // in Hl'.
Qed.

Lemma ofold_Some fn e F l m r : replaces fn e F → (∀ k, k ∈ l.*1 → Split k "." = [k]) → ofold (doForField fn) (Some m) l = Ok r → is_Some r.
Proof.
  intros Hr. revert m. induction l as [|[k v] l IH]; intros m Hs; cbn; [intros [= <-]; eauto|].
  rewrite (doForField_flat _ e F) //; [|apply Hs; by left]. destruct (find k m) as [x|]; [|done]. cbn. destruct (F x v); [|done..]. cbn.
  apply IH. intros k' Hk'. apply Hs. by right.
Qed.

(** The names of a modifier that has no paths. *)
Definition flat (fields : gmap string T) : Prop := ∀ k, is_Some (fields !! k) → Split k "." = [k].

Lemma list_to_map_range O (fields : gmap string T) : list_to_map (range_map O fields) = fields.
Proof. rewrite (list_to_map_proper _ (map_to_list fields)); [apply list_to_map_to_list|apply NoDup_fst_range_map|apply range_map_perm]. Qed.

(** What a modifier without paths makes of a map, in any order. *)
Lemma elements_flat fn e F O fields m r : replaces fn e F → flat fields → NoDup m.*1 →
  doForMapElements fn O fields (Some m) = Ok r ↔ ∃ m', r = Some m' ∧ replaced F fields m m'.
Proof.
  intros Hr Hs Hd. assert (∀ k, k ∈ (range_map O fields).*1 → Split k "." = [k]) as Hs'.
  { intros k ([k' v] & -> & Hk)%list_elem_of_fmap. apply elem_of_range_map in Hk. apply Hs. eauto. }
  pose proof (NoDup_fst_range_map O fields) as Hd'. rewrite -{2}(list_to_map_range O fields). split.
  - intros Hf. destruct (ofold_Some _ _ _ _ _ _ Hr Hs' Hf) as [m' ->]. exists m'. split; [done|]. by eapply ofold_flat.
  - intros (m' & -> & Hm). by eapply ofold_flat_ok.
Qed.
End facts.

(** A transform and its inverse give the map back, whatever the two orders. *)
Lemma elements_roundtrip {T} (fn gn : gomap → string → T → outcome actionError gomap) e e' F G O O' fields m r :
  replaces fn e F → replaces gn e' G → flat fields → NoDup m.*1 →
  (∀ n x v y, find n m = Some x → fields !! n = Some v → F x v = Ok y → G y v = Ok x) →
  doForMapElements fn O fields (Some m) = Ok r → doForMapElements gn O' fields r = Ok (Some m).
Proof.
  intros Hf Hg Hs Hd Hi Hm. apply (elements_flat fn e F) in Hm as (m' & -> & Hk & Hin & Hm); [|done..].
  apply (elements_flat gn e' G); [done..|by rewrite Hk|]. exists m. split; [done|]. split; [done|]. split.
  { intros k Hk'. rewrite find_key Hk -find_key. by apply Hin. }
  intros n y Hy. destruct (find n m) as [x|] eqn:Hx.
  2: { exfalso. assert (is_Some (find n m)) as [z Hz]; [|congruence]. rewrite find_key -Hk -find_key. eauto. }
  exists x. split; [done|]. destruct (Hm n x Hx) as (y' & Hy' & Hl). simplify_eq. destruct (fields !! n) as [v|] eqn:Hv; [by eapply Hi|done].
Qed.

(** The actions replace the values they name. *)
Definition wrapValue (x : gval) (name : string) : outcome actionError gval := Ok (VMap (Some [(name, x)])).
Definition unwrapValue (x : gval) (name : string) : outcome actionError gval := match x with VMap v => ok_or NotFound (get name v) | _ => Err NotMap end.
Definition toByte (x : gval) (_ : unit) : outcome actionError gval :=
  match x with
  | VPrim PBool z => Ok (byteOf (negb (Z.eqb z 0)))
  | VPtr (Prim PBool) (Some (VPrim PBool z)) => Ok (VPtr uint8Type (Some (byteOf (negb (Z.eqb z 0)))))
  | _ => Err NotBool
  end.
Definition toBool (x : gval) (_ : unit) : outcome actionError gval :=
  match x with
  | VPrim (PUint W8) z => Ok (boolOf z)
  | VPtr (Prim (PUint W8)) (Some (VPrim _ z)) => Ok (VPtr boolType (Some (boolOf z)))
  | VPtr (Prim (PUint W8)) _ => Ok (VPtr boolType (Some (boolOf 0)))
  | _ => Err NotByte
  end.
Definition encoded codecs (x : gval) (typeDef : string) : outcome actionError gval :=
  match codecs typeDef with None => Err NoCodec | Some codec => map_err (λ _, CodecError) (Encode codec x) end.
Definition decoded codecs (x : gval) (typeDef : string) : outcome actionError gval :=
  match codecs typeDef with
  | None => Err NoCodec
  | Some codec => let? to := map_err (λ _, CodecError) (CreateType codec) in
                  if isBytes x then map_err (λ _, CodecError) (DecodeBytes codec x to) else Err NotBytes
  end.

Lemma wrap_replaces : replaces wrapFieldMapAction NotFound wrapValue.
Proof. intros m key v. rewrite /wrapFieldMapAction. by destruct (get key m). Qed.
Lemma unwrap_replaces : replaces unwrapFieldMapAction NotFound unwrapValue.
Proof. intros m key v. rewrite /unwrapFieldMapAction. destruct (get key m) as [[]|]; try done. cbn. by destruct (get v m0). Qed.
Lemma toByte_replaces : replaces boolToByte NotBool toByte.
Proof. intros m key v. rewrite /boolToByte. destruct (get key m) as [x|]; [|done]. destruct x as [|p z|t [y|]| | | |]; try done; repeat case_match; simplify_eq; done. Qed.
Lemma toBool_replaces : replaces byteToBool NotByte toBool.
Proof. intros m key v. rewrite /byteToBool. destruct (get key m) as [x|]; [|done]. destruct x as [|p z|t [y|]| | | |]; try done; repeat case_match; simplify_eq; done. Qed.
Lemma encode_replaces codecs : replaces (encodeFieldMapAction codecs) NotFound (encoded codecs).
Proof. intros m key v. rewrite /encodeFieldMapAction /encoded. destruct (get key m); [|done]. by destruct (codecs v). Qed.
Lemma decode_replaces codecs : replaces (decodeFieldMapAction codecs) NotFound (decoded codecs).
Proof.
  intros m key v. rewrite /decodeFieldMapAction /decoded. destruct (get key m); [|done]. destruct (codecs v) as [c|]; [|done].
  destruct (CreateType c); [|done..]. cbn. by destruct (isBytes g).
Qed.

Definition expandValue (x : gval) (_ : option ElementExtractorLocation) : outcome actionError gval :=
  match typeOf x with None => Ok VNil | Some t => Ok (VSlice t (Some (match x with VPtr _ None | VSlice _ None | VMap None => [] | _ => [x] end))) end.
Definition extractValue (x : gval) (elementLocation : option ElementExtractorLocation) : outcome actionError gval :=
  match x with
  | VNil => Ok VNil
  | x => match elements (indirect x) with
         | None => Err NotSlice
         | Some [] => Ok VNil
         | Some l => go_index l (match default LocationMiddle elementLocation with LocationFirst => 0 | LocationMiddle => length l / 2 | LocationLast => length l - 1 end)
         end
  end.
Lemma put_same {E} k x (m : gomap) : get k m = Some x → put (E:=E) k x m = Ok m.
Proof.
  destruct m as [m|]; [|done]. cbn. intros Hx. do 2 f_equal. induction m as [|[j w] m IH]; [done|]. cbn in *.
  destruct (String.eqb_spec j k) as [->|]; [congruence|]. by rewrite IH.
Qed.
Lemma expand_replaces : replaces expandMap NotFound expandValue.
Proof. intros m key v. rewrite /expandMap /expandValue. destruct (get key m) as [x|] eqn:Hx; [|done]. destruct x; try done. cbn. by rewrite put_same. Qed.
Lemma extract_replaces : replaces extractMap NotFound extractValue.
Proof.
  intros m key v. rewrite /extractMap /extractValue. destruct (get key m) as [x|] eqn:Hx; [|done].
  destruct x; try done; [by cbn; rewrite put_same|..]; cbn [elements indirect]; repeat case_match; try done.
Qed.

(** A single element that was expanded is extracted again, wherever it is taken
    from, unless it is a nil pointer, slice or map. *)
Lemma extract_expand x loc y : match x with VPtr _ None | VSlice _ None | VMap None => False | _ => True end → expandValue x loc = Ok y → extractValue y loc = Ok x.
Proof. destruct x as [|p z|t [v|]|t [l|]|t l|t l|[m|]]; try done; intros _; cbn; intros [= <-]; cbn; try done; by destruct loc as [[]|]. Qed.

(** The extractor's loss: it takes one element of many, and none of none. *)
Lemma extract_in x loc y : extractValue x loc = Ok y → y ≠ VNil → ∃ l, elements (indirect x) = Some l ∧ y ∈ l.
Proof.
  destruct x; try (by intros [= <-]); cbn [extractValue]; (destruct (elements _) as [l'|]; [|done]); destruct l' as [|x0 l']; try (by intros [= <-]);
    intros Hy _; eexists; (split; [done|]); rewrite go_index_Ok in Hy; by eapply list_elem_of_lookup_2.
Qed.

Lemma bool_byte x u y : (∀ p z, x = VPrim p z ∨ (∃ t, x = VPtr t (Some (VPrim p z))) → z = 0%Z ∨ z = 1%Z) → toByte x u = Ok y → toBool y u = Ok x.
Proof.
  assert (∀ z, z = 0%Z ∨ z = 1%Z → boolOf (if negb (Z.eqb z 0) then 1 else 0)%Z = VPrim PBool z) as Hb by (by intros z [-> | ->]).
  intros Hz. destruct x as [|p z|t o| | | |]; try done; cbn.
  - destruct p; try done. intros [= <-]. cbn. rewrite Hb //. eapply Hz. by left.
  - destruct t as [[]| | | |]; try done. destruct o as [[|[] z| | | | |]|]; try done. intros [= <-]. cbn. rewrite Hb //. eapply Hz. right. by eexists.
Qed.

(** A hard-coded field has its value, and the others have theirs. *)
Lemma hardCode_flat O (fields : gmap string gval) m : flat fields →
  ∃ m', doForMapElements hardCode O fields (Some m) = Ok (Some m') ∧ ∀ n, find n m' = match (fields !! n) with Some v => Some v | None => find n m end.
Proof.
  intros Hs. rewrite /doForMapElements. pose proof (list_to_map_range O fields) as Hl. rewrite -{2}Hl.
  assert (∀ k, k ∈ (range_map O fields).*1 → Split k "." = [k]) as Hs'.
  { intros k ([k' v] & -> & Hk)%list_elem_of_fmap. apply elem_of_range_map in Hk. apply Hs. eauto. }
  pose proof (NoDup_fst_range_map O fields) as Hd. clear Hs Hl. revert m. induction (range_map O fields) as [|[k v] l IH]; intros m; [by eexists|].
  inversion Hd as [|? ? Hk Hd']; subst. cbn [ofold]. rewrite {1}/doForField /= Hs' /=; [|by left].
  destruct (IH ltac:(intros; apply Hs'; by right) Hd' (set k v m)) as (m' & Hm & Hf). exists m'. split; [done|]. intros n. rewrite Hf.
  destruct (decide (n = k)) as [->|Hn]; [by rewrite lookup_insert_eq not_elem_of_list_to_map_1 // find_set_eq|]. by rewrite lookup_insert_ne // find_set_ne.
Qed.
End maps.

(** *** Keys that override one another *)

Lemma verify_seen seen l r : ofold verifyKey seen l = Ok r → ∀ i k, l !! i = Some k → ∀ on, on ∈ joined (Split k ".") → (on ∉ take i l) ∧ on ∉ seen.
Proof.
  revert seen. induction l as [|k l IH]; intros seen Hf i k' Hk on Hon; [done|].
  apply obind_Ok_inv in Hf as (seen' & Hv & Hf). rewrite /verifyKey in Hv. destruct (existsb _ _) eqn:He; [done|]. injection Hv as <-. destruct i as [|i].
  - injection Hk as ->. split; [apply not_elem_of_nil|]. intros Hin. apply Bool.not_true_iff_false in He. apply He.
    apply existsb_exists. exists on. split; [by apply list_elem_of_In|]. by apply bool_decide_eq_true_2.
  - destruct (IH (k :: seen) Hf i k' Hk on Hon) as [Ht Hs]. rewrite elem_of_cons in Hs. cbn. rewrite elem_of_cons. naive_solver.
Qed.

Lemma splitOn_head c s a ps : splitOn c s = (a, ps) → strLe a s = true.
Proof.
  revert a ps. induction s as [|d s IH]; intros a ps; cbn; [by intros [= <- _]|]. destruct (splitOn c s) as [b qs]. case_match; intros [= <- _]; [done|].
  by rewrite strLe_cons Ascii.eqb_refl (IH _ _ eq_refl) orb_true_r.
Qed.

#[local] Instance strLe_transitive : Transitive (λ s t, Is_true (strLe s t)).
Proof. intros s t u. rewrite !Is_true_true. apply strLe_trans. Qed.
#[local] Instance strLe_totally : Total (λ s t, Is_true (strLe s t)).
Proof. intros s t. rewrite !Is_true_true. destruct (strLe_total s t); auto. Qed.

(** A struct that is hard-coded as a whole has no field that is. *)
Lemma verify_top {A} (values : gmap string A) a k ps : verifyHardCodeKeys values = Ok () → is_Some (values !! a) → is_Some (values !! k) →
  Split k "." = a :: ps → k = a.
Proof.
  rewrite /verifyHardCodeKeys. destruct (ofold _ _ _) as [r| |] eqn:Hf; [|done..]. intros _ Ha Hk Hs.
  assert (∀ x, is_Some (values !! x) → x ∈ subkeysLast values) as Hin.
  { intros x [v Hv]. rewrite /subkeysLast merge_sort_Permutation. apply list_elem_of_fmap. exists (x, v). split; [done|]. by apply elem_of_map_to_list. }
  assert (StronglySorted (λ s t, Is_true (strLe s t)) (subkeysLast values)) as Hsort.
  { apply (StronglySorted_merge_sort _). }
  apply Hin, list_elem_of_lookup in Hk as [i Hi]. apply Hin, list_elem_of_lookup in Ha as [j Hj].
  destruct (verify_seen _ _ _ Hf i k Hi a) as [Ht _]; [rewrite Hs; by left|].
  assert (strLe a k = true) as Hle.
  { rewrite /Split in Hs. destruct (splitOn "." k) as [b qs] eqn:Hb. injection Hs as -> _. by eapply splitOn_head. }
  destruct (decide (j < i)) as [Hlt|Hge]; [destruct Ht; eapply (list_elem_of_lookup_2 _ j); by rewrite lookup_take_lt|].
  destruct (decide (j = i)) as [->|Hn]; [congruence|]. apply strLe_antisym; [|done].
  pose proof (StronglySorted_lookup_lt (λ s t, Is_true (strLe s t)) _ i j k a Hsort Hi Hj ltac:(lia)). by apply Is_true_true.
Qed.

(** The keys of a nested struct and of a field of it are both accepted: they
    are joined without the dot. *)
Example nested_accepted (v : gval) : verifyHardCodeKeys {["A.B" := v; "A.B.C" := v]} = Ok ().
Proof. by vm_compute. Qed.
Example top_refused (v : gval) : verifyHardCodeKeys {["A" := v; "A.B" := v]} = Err "A.B".
Proof. by vm_compute. Qed.

(** *** Runs *)

(** A struct of one level as a map, and back. *)
Definition fieldNames (t : rtype) : list string := match t with Struct _ _ fs => Name <$> fs | _ => [] end.
#[local] Instance oneLevel : Mapstructure := {|
  Decode v := match v with VStruct t l => Ok (Some (zip (fieldNames t) l)) | VPtr _ (Some (VStruct t l)) => Ok (Some (zip (fieldNames t) l)) | VMap m => Ok m | VNil => Ok None | _ => Err () end;
  DecodeTo _ t m := Ok (VStruct t ((λ n, default VNil (find n m)) <$> fieldNames t))
|}.

Definition int64 (z : Z) : gval := VPrim (PInt W64) z.
Definition inner : rtype := Struct "p" "I" [("X", "", boolType); ("Y", "", Prim (PInt W64))].
Definition withInner (x y : Z) : entries := [("A", VStruct inner [VPrim PBool x; int64 y])].

(** A field that is [false] is not found below a path, when another one is not
    zero; when all are zero, nothing is done at all. *)
Example false_below_path :
  (doForMapElements boolToByte (insertion_order _) {["A.X" := ()]} (Some (withInner 1 7)) = Ok (Some [("A", VMap (Some [("X", byteOf true); ("Y", int64 7)]))])) ∧
  (doForMapElements boolToByte (insertion_order _) {["A.X" := ()]} (Some (withInner 0 7)) = Err (PathMappingError NotBool "A.X")) ∧
  (doForMapElements boolToByte (insertion_order _) {["A.X" := ()]} (Some (withInner 0 0)) = Ok (Some (withInner 0 0))).
Proof. by vm_compute. Qed.

(** So a value is not hard-coded in a struct whose fields are zero. *)
Example zero_not_hard_coded :
  (doForMapElements hardCode (insertion_order _) {["A.Z" := int64 5]} (Some (withInner 0 7)) = Ok (Some [("A", VMap (Some [("Y", int64 7); ("Z", int64 5)]))])) ∧
  (doForMapElements hardCode (insertion_order _) {["A.Z" := int64 5]} (Some (withInner 0 0)) = Ok (Some (withInner 0 0))).
Proof. by vm_compute. Qed.

(** A slice of structs is changed in each; a nil pointer in it makes a nil map,
    which cannot be written to. *)
Example each_element :
  doForMapElements hardCode (insertion_order _) {["A.Y" := int64 5]} (Some [("A", VSlice inner (Some [VStruct inner [VPrim PBool 1; int64 0]; VStruct inner [VPrim PBool 0; int64 2]]))]) =
    Ok (Some [("A", VSlice mapType (Some [VMap (Some [("X", VPrim PBool 1); ("Y", int64 5)]); VMap (Some [("X", VPrim PBool 0); ("Y", int64 5)])]))]) ∧
  doForMapElements hardCode (insertion_order _) {["A.Y" := int64 5]} (Some [("A", VSlice (Pointer inner) (Some [VNil]))]) = Panic.
Proof. by vm_compute. Qed.
End CodecMaps.
