(* ===== verification/CodecConfig.v ===== *)
(** [src/pkg/codec/config.go, multi_modifier.go, by_item_type_modifier.go]: the
    configuration of modifiers as JSON and the modifiers it makes
    ([CodecConfig]); modifiers that are made of others ([Modifiers]).

    A JSON text is its tree; the names of an object differ, also without their
    case. *)

From Stdlib.Strings Require Import Ascii.
From S2P Require Import Prelude GoBytes GoStrings CCIPTypes CodecTypes CodecMaps.

Module CodecConfig.
Import CodecTypes.CodecTypes CodecMaps.CodecMaps.

(** *** JSON *)

(** Numbers are kept as they are written ([UseNumber]). *)
Inductive jval := JNull | JBool (b : bool) | JNumber (s : string) | JStr (s : string) | JArr (l : list jval) | JObj (l : list (string * jval)).

Inductive error := InvalidJSON | UnknownModifier (mType : string) | KeysOverlap (key : string) | CodecNotSupplied (typeDef : string) | OnlyOneField.

(** A field of a struct by its name, in any case; it keeps its zero value if it
    is not there, and if it is null. *)
Fixpoint member (name : string) (o : list (string * jval)) : jval :=
  match o with [] => JNull | (k, v) :: o => if String.eqb (ToLower k) (ToLower name) then v else member name o end.
Definition asObject (v : jval) : outcome error (list (string * jval)) := match v with JObj o => Ok o | JNull => Ok [] | _ => Err InvalidJSON end.
Definition asString (v : jval) : outcome error string := match v with JStr s => Ok s | JNull => Ok "" | _ => Err InvalidJSON end.
Definition asBool (v : jval) : outcome error bool := match v with JBool b => Ok b | JNull => Ok false | _ => Err InvalidJSON end.
Definition asInt (v : jval) : outcome error Z := 
  match v with
  | JNumber s => match CCIPTypes.SetString s with Some z => if bool_decide (inS 64 z) then Ok z else Err InvalidJSON | None => Err InvalidJSON end
  | JNull => Ok 0%Z
  | _ => Err InvalidJSON
  end.
Definition asSlice {A} (f : jval → outcome error A) (v : jval) : outcome error (option (list A)) :=
  match v with JArr l => let? l := omapM f l in Ok (Some l) | JNull => Ok None | _ => Err InvalidJSON end.
Definition fromEntries {A} (l : list (string * A)) : gmap string A := foldl (λ (m : gmap string A) p, <[p.1 := p.2]> m) ∅ l.
Definition asMap {A} (f : jval → outcome error A) (v : jval) : outcome error (option (gmap string A)) :=
  match v with JObj o => let? l := omapM (λ p, let? a := f p.2 in Ok (p.1, a)) o in Ok (Some (fromEntries l)) | JNull => Ok None | _ => Err InvalidJSON end.
Definition asLocation (v : jval) : outcome error (option ElementExtractorLocation) :=
  match v with
  | JNull => Ok None
  | JStr s =>
      if String.eqb (ToLower s) "first" then Ok (Some LocationFirst) else if String.eqb (ToLower s) "middle" then Ok (Some LocationMiddle)
      else if String.eqb (ToLower s) "last" then Ok (Some LocationLast) else Err InvalidJSON
  | _ => Err InvalidJSON
  end.

(** A slice and a map that are nil are null; the keys of a map are in order. *)
Definition slice {A} (f : A → jval) (l : option (list A)) : jval := match l with Some l => JArr (f <$> l) | None => JNull end.
Definition sortEntries {A} (l : list (string * A)) : list (string * A) := merge_sort (λ p q, Is_true (strLe p.1 q.1)) l.
Definition object {A} (f : A → jval) (m : option (gmap string A)) : jval := match m with Some m => JObj (prod_map id f <$> sortEntries (map_to_list m)) | None => JNull end.
Definition location (l : option ElementExtractorLocation) : jval :=
  match l with None => JNull | Some LocationFirst => JStr "first" | Some LocationMiddle => JStr "middle" | Some LocationLast => JStr "last" end.

(** *** The configurations *)

(** A value to hard-code: what JSON gave, or a [Number]. *)
Inductive anyValue := AJson (v : jval) | ANumber (s : string).

(** The codecs and the address modifier, of which the length is all that is
    asked here, are injected later. *)
Inductive ModifierConfig :=
  | RenameModifierConfig (Fields : option (gmap string string)) (EnablePathTraverse : bool)
  | DropModifierConfig (Fields : option (list string)) (EnablePathTraverse : bool)
  | ByteToBooleanModifierConfig (Fields : option (list string))
  | ElementExtractorModifierConfig (Extractions : option (gmap string (option ElementExtractorLocation)))
  | ElementExtractorFromOnchainModifierConfig (Extractions : option (gmap string (option ElementExtractorLocation)))
  | HardCodeModifierConfig (OnChainValues OffChainValues : option (gmap string anyValue)) (EnablePathTraverse : bool)
  | PreCodecModifierConfig (Fields : option (gmap string string)) (EnablePathTraverse : bool) (Codecs : option (gmap string (option RemoteCodec)))
  | EpochToTimeModifierConfig (Fields : option (list string)) (EnablePathTraverse : bool)
  | PropertyExtractorConfig (FieldName : string) (EnablePathTraverse : bool)
  | AddressBytesToStringModifierConfig (Fields : option (list string)) (EnablePathTraverse : bool) (Modifier : option nat)
  | ConstrainedBytesToStringModifierConfig (Fields : option (list string)) (MaxLen : Z) (EnablePathTraverse : bool)
  | WrapperModifierConfig (Fields : option (gmap string string)) (EnablePathTraverse : bool).

(** [ModifierType] *)
Definition ModifierType (c : ModifierConfig) : string :=
  match c with
  | PreCodecModifierConfig _ _ _ => "precodec"
  | RenameModifierConfig _ _ => "rename"
  | DropModifierConfig _ _ => "drop"
  | HardCodeModifierConfig _ _ _ => "hard code"
  | ElementExtractorModifierConfig _ => "extract element"
  | ElementExtractorFromOnchainModifierConfig _ => "extract element from onchain"
  | ByteToBooleanModifierConfig _ => "byte to boolean"
  | EpochToTimeModifierConfig _ _ => "epoch to time"
  | PropertyExtractorConfig _ _ => "extract property"
  | AddressBytesToStringModifierConfig _ _ _ => "address to string"
  | ConstrainedBytesToStringModifierConfig _ _ _ => "constrained bytes to string"
  | WrapperModifierConfig _ _ => "wrapper"
  end.

Definition anyOf (v : jval) : outcome error anyValue := Ok (AJson v).

(** The fields of a configuration of the type. *)
Definition decodeConfig (mType : string) (o : list (string * jval)) : outcome error ModifierConfig :=
  let f := member "Fields" o in
  let e := asBool (member "EnablePathTraverse" o) in
  let x := asMap asLocation (member "Extractions" o) in
  if String.eqb mType "rename" then let? f := asMap asString f in let? e := e in Ok (RenameModifierConfig f e)
  else if String.eqb mType "drop" then let? f := asSlice asString f in let? e := e in Ok (DropModifierConfig f e)
  else if String.eqb mType "hard code" then
    let? on := asMap anyOf (member "OnChainValues" o) in let? off := asMap anyOf (member "OffChainValues" o) in let? e := e in Ok (HardCodeModifierConfig on off e)
  else if String.eqb mType "extract element" then let? x := x in Ok (ElementExtractorModifierConfig x)
  else if String.eqb mType "epoch to time" then let? f := asSlice asString f in let? e := e in Ok (EpochToTimeModifierConfig f e)
  else if String.eqb mType "extract property" then let? n := asString (member "FieldName" o) in let? e := e in Ok (PropertyExtractorConfig n e)
  else if String.eqb mType "address to string" then let? f := asSlice asString f in let? e := e in Ok (AddressBytesToStringModifierConfig f e None)
  else if String.eqb mType "constrained bytes to string" then
    let? f := asSlice asString f in let? n := asInt (member "MaxLen" o) in let? e := e in Ok (ConstrainedBytesToStringModifierConfig f n e)
  else if String.eqb mType "wrapper" then let? f := asMap asString f in let? e := e in Ok (WrapperModifierConfig f e)
  else if String.eqb mType "precodec" then let? f := asMap asString f in let? e := e in Ok (PreCodecModifierConfig f e None)
  else if String.eqb mType "byte to boolean" then let? f := asSlice asString f in Ok (ByteToBooleanModifierConfig f)
  else if String.eqb mType "extract element from onchain" then let? x := x in Ok (ElementExtractorFromOnchainModifierConfig x)
  else Err (UnknownModifier mType).

(** [ModifiersConfig.UnmarshalJSON] *)
Definition unmarshalOne (d : jval) : outcome error ModifierConfig :=
  let? o := asObject d in
  let? t := asString (member "Type" o) in
  decodeConfig (ToLower t) o.
Definition UnmarshalJSON (data : jval) : outcome error (list ModifierConfig) :=
  let? rawDeserialized := asSlice (λ v, Ok v) data in omapM unmarshalOne (default [] rawDeserialized).

(** *** Numbers as JSON *)

Fixpoint skipDigits (s : string) : string := match s with String c s' => if isDigit c then skipDigits s' else s | EmptyString => s end.
Definition oneDigit (s : string) : bool := match s with String c _ => isDigit c | EmptyString => false end.
(** What [encoding/json] accepts as a number: a sign, digits without a leading
    zero, a fraction and an exponent. *)
Definition afterExponent (s : string) : bool :=
  match s with
  | String c s' =>
      if Ascii.eqb c "e" || Ascii.eqb c "E" then
        match s' with
        | EmptyString => false
        | String d s'' => if Ascii.eqb d "+" || Ascii.eqb d "-" then negb (String.eqb s'' "") && String.eqb (skipDigits s'') "" else String.eqb (skipDigits s') ""
        end
      else false
  | EmptyString => true
  end.
Definition afterFraction (s : string) : bool :=
  match s with String c s' => if Ascii.eqb c "." && oneDigit s' then afterExponent (skipDigits s') else afterExponent s | EmptyString => true end.
Definition isValidNumber (s : string) : bool :=
  let s := match s with String c s' => if Ascii.eqb c "-" then s' else s | EmptyString => s end in
  match s with String c s' => if Ascii.eqb c "0" then afterFraction s' else if isDigit c then afterFraction (skipDigits s') else false | EmptyString => false end.

(** [Number.MarshalJSON], through [json.Number]: no text is zero. *)
Definition numberJSON (s : string) : outcome error jval :=
  if String.eqb s "" then Ok (JNumber "0") else if isValidNumber s then Ok (JNumber s) else Err InvalidJSON.
Definition anyJSON (v : anyValue) : outcome error jval := match v with AJson v => Ok v | ANumber s => numberJSON s end.
Definition anyObject (m : option (gmap string anyValue)) : outcome error jval :=
  match m with
  | Some m => let? l := omapM (λ p : string * anyValue, let? v := anyJSON p.2 in Ok (p.1, v)) (sortEntries (map_to_list m)) in Ok (JObj l)
  | None => Ok JNull
  end.

(** [modifierMarshaller.MarshalJSON]: every field of the struct under its name,
    also one that [json:"-"] keeps out of the decoding.  What a codec or an
    address modifier is as JSON depends on the value; [injected] stands for it. *)
Section marshal.
Context (injectedCodec : RemoteCodec → jval) (injectedModifier : nat → jval).
Definition strings (l : option (list string)) : jval := slice JStr l.
Definition fieldsOf (c : ModifierConfig) : outcome error (list (string * jval)) :=
  match c with
  | RenameModifierConfig f e | WrapperModifierConfig f e => Ok [("Fields", object JStr f); ("EnablePathTraverse", JBool e)]
  | DropModifierConfig f e | EpochToTimeModifierConfig f e => Ok [("Fields", strings f); ("EnablePathTraverse", JBool e)]
  | ByteToBooleanModifierConfig f => Ok [("Fields", strings f)]
  | ElementExtractorModifierConfig x | ElementExtractorFromOnchainModifierConfig x => Ok [("Extractions", object location x)]
  | HardCodeModifierConfig on off e =>
      let? onValues := anyObject on in let? offValues := anyObject off in Ok [("OnChainValues", onValues); ("OffChainValues", offValues); ("EnablePathTraverse", JBool e)]
  | PreCodecModifierConfig f e cs => Ok [("Fields", object JStr f); ("EnablePathTraverse", JBool e); ("Codecs", object (λ c, match c with Some c => injectedCodec c | None => JNull end) cs)]
  | PropertyExtractorConfig n e => Ok [("FieldName", JStr n); ("EnablePathTraverse", JBool e)]
  | AddressBytesToStringModifierConfig f e m => Ok [("Fields", strings f); ("EnablePathTraverse", JBool e); ("Modifier", match m with Some m => injectedModifier m | None => JNull end)]
  | ConstrainedBytesToStringModifierConfig f n e => Ok [("Fields", strings f); ("MaxLen", JNumber (Itoa n)); ("EnablePathTraverse", JBool e)]
  end.
Definition MarshalJSON (c : ModifierConfig) : outcome error jval :=
  let? fields := fieldsOf c in Ok (JObj (sortEntries (("Type", JStr (ModifierType c)) :: fields))).
End marshal.

(** *** The modifiers of a configuration *)

(** [unicode.ToUpper], on ASCII. *)
Definition toUpper (c : ascii) : ascii := if isLowerChar c then ascii_of_N (N_of_ascii c - 32) else c.
Definition upperFirst (p : string) : string := match p with EmptyString => EmptyString | String c p => String (toUpper c) p end.
Definition upperFirstCharacter (s : string) : string := String.concat "." (upperFirst <$> Split s ".").

(** A map whose entries are taken out and put back under other names while it
    is iterated: an entry that is put back may be met again. *)
Definition rekey {A} (f : A → A) (O : RangeOrder (string * A)) (m : gmap string A) : gmap string A :=
  foldl (λ (m : gmap string A) k, match m !! k with Some v => <[upperFirstCharacter k := f v]> (delete k m) | None => m end) m (range_map O m).*1.
Definition mapKeyToUpperFirst {A} (O : RangeOrder (string * A)) (m : gmap string A) : gmap string A := rekey (λ v, v) O m.

(** Strings as payloads; the empty string is the zero value. *)
Fixpoint payload (s : string) : Z := match s with EmptyString => 0 | String c s => payload s * 256 + Z.of_N (N_of_ascii c) + 1 end%Z.
(** The Go value of JSON, decoded to [any]. *)
Fixpoint goValue (v : jval) : gval :=
  match v with
  | JNull => VNil
  | JBool b => VPrim PBool (if b then 1 else 0)%Z
  | JNumber s => VPrim (POther "encoding/json.Number") (payload s)
  | JStr s => VPrim PString (payload s)
  | JArr l => VSlice (Prim PInterface) (Some (goValue <$> l))
  | JObj l => VMap (Some ((λ p, (p.1, goValue p.2)) <$> l))
  end.
Definition anyGo (v : anyValue) : gval := match v with AJson v => goValue v | ANumber s => VPrim (POther "codec.Number") (payload s) end.
Definition toNumber (v : anyValue) : anyValue := match v with AJson (JNumber s) => ANumber s | v => v end.

(** A modifier, by its constructor. *)
Inductive modifier :=
  | Renamer (m : modifierBase string)
  | ByteToBoolean (m : modifierBase unit)
  | ElementExtractor (m : modifierBase (option ElementExtractorLocation))
  | ElementExtractorFromOnchain (m : modifierBase (option ElementExtractorLocation))
  | HardCoder (m : onChainHardCoder)
  | PreCodec (m : modifierBase string) (codecs : string → option RemoteCodec)
  | TimeToUnix (m : modifierBase unit)
  | PropertyExtractor (fieldName : string) (enablePathTraverse : bool)
  | BytesToString (m : modifierBase unit) (length : nat)
  | NilAddressModifier (fields : list string)      (* panics when it retypes *)
  | Wrapper (m : modifierBase string).

Definition dropName (i : nat) : string := String.append "dropFieldPrivateName" (Itoa (Z.of_nat i)).
Definition dropFields (fields : list string) : gmap string string := list_to_map (reverse (imap (λ i f, (upperFirstCharacter f, dropName i)) fields)).

Definition createType (codecs : string → option RemoteCodec) (typeDef : string) : option (outcome CodecTypes.CodecTypes.error rtype) :=
  (λ c, match CreateType c with Ok v => ok_or UnknownType (typeOf v) | Err _ => Err (ModifyField "CreateType") | Panic => Panic end) <$> codecs typeDef.
(** A key with a nil codec passes the check. *)
Definition NewPathTraversePreCodec (fields : gmap string string) (codecs : gmap string (option RemoteCodec)) (enablePathTraverse : bool) : outcome error modifier :=
  match list_find (λ p, codecs !! p.2 = None) (map_to_list fields) with
  | Some (_, (_, typeDef)) => Err (CodecNotSupplied typeDef)
  | None => let codecs t := mjoin (codecs !! t) in Ok (PreCodec (newBase enablePathTraverse fields (preCodecField (createType codecs)) None) codecs)
  end.

Section toModifier.
(** The iterations over maps of strings, of locations and of values, and the
    hooks of the codec. *)
Context (OS : RangeOrder (string * string)) (OL : RangeOrder (string * option ElementExtractorLocation)) (OV : RangeOrder (string * anyValue)) (onChainHooks : list hook).

(** The [ToModifier] of every configuration; some also change the maps and
    slices of the configuration, which the modifier shares. *)
Abbreviation made := (outcome error modifier * ModifierConfig)%type.
Definition renameToModifier (f : option (gmap string string)) (e : bool) : made :=
  let f := rekey upperFirstCharacter OS <$> f in (Ok (Renamer (NewPathTraverseRenamer (default ∅ f) e)), RenameModifierConfig f e).
Definition dropToModifier (f : option (list string)) (e : bool) : made :=
  (Ok (Renamer (NewPathTraverseRenamer (dropFields (default [] f)) e)), DropModifierConfig f e).
Definition byteToBooleanToModifier (f : option (list string)) : made := (Ok (ByteToBoolean (NewByteToBooleanModifier (default [] f))), ByteToBooleanModifierConfig f).
Definition elementExtractorToModifier (x : option (gmap string (option ElementExtractorLocation))) : made :=
  let x := mapKeyToUpperFirst OL <$> x in (Ok (ElementExtractor (NewElementExtractor (default ∅ x))), ElementExtractorModifierConfig x).
Definition fromOnchainToModifier (x : option (gmap string (option ElementExtractorLocation))) : made :=
  let x := mapKeyToUpperFirst OL <$> x in (Ok (ElementExtractorFromOnchain (NewElementExtractorFromOnchain (default ∅ x))), ElementExtractorFromOnchainModifierConfig x).
Definition hardCodeToModifier (on off : option (gmap string anyValue)) (e : bool) : made :=
  let on := (λ m : gmap string anyValue, mapKeyToUpperFirst OV (toNumber <$> m)) <$> on in
  let off := (λ m : gmap string anyValue, mapKeyToUpperFirst OV (toNumber <$> m)) <$> off in
  (match NewPathTraverseHardCoder (anyGo <$> default ∅ on) (anyGo <$> default ∅ off) e onChainHooks with
   | Ok m => Ok (HardCoder m) | Err k => Err (KeysOverlap k) | Panic => Panic end, HardCodeModifierConfig on off e).
Definition preCodecToModifier (f : option (gmap string string)) (e : bool) (cs : option (gmap string (option RemoteCodec))) : made :=
  (NewPathTraversePreCodec (default ∅ f) (default ∅ cs) e, PreCodecModifierConfig f e cs).
Definition epochToTimeToModifier (f : option (list string)) (e : bool) : made :=
  let f := (λ l : list string, upperFirstCharacter <$> l) <$> f in (Ok (TimeToUnix (NewPathTraverseEpochToTimeModifier (default [] f) e)), EpochToTimeModifierConfig f e).
Definition propertyToModifier (n : string) (e : bool) : made := (Ok (PropertyExtractor (upperFirstCharacter n) e), PropertyExtractorConfig n e).
Definition addressToModifier (f : option (list string)) (e : bool) (m : option nat) : made :=
  (Ok (match m with Some length => BytesToString (NewPathTraverseAddressBytesToStringModifier (default [] f) length e) length | None => NilAddressModifier (default [] f) end),
   AddressBytesToStringModifierConfig f e m).
Definition constrainedToModifier (f : option (list string)) (n : Z) (e : bool) : made :=
  (Ok (BytesToString (NewPathTraverseAddressBytesToStringModifier (default [] f) (Z.to_nat n) e) (Z.to_nat n)), ConstrainedBytesToStringModifierConfig f n e).
Definition wrapperToModifier (f : option (gmap string string)) (e : bool) : made :=
  let f' := default ∅ f in
  (if bool_decide (is_Some (f' !! "") ∧ size f' ≠ 1) then Err OnlyOneField else Ok (Wrapper (NewPathTraverseWrapperModifier f' e)), WrapperModifierConfig f e).
Definition ToModifier (c : ModifierConfig) : made :=
  match c with
  | RenameModifierConfig f e => renameToModifier f e
  | DropModifierConfig f e => dropToModifier f e
  | ByteToBooleanModifierConfig f => byteToBooleanToModifier f
  | ElementExtractorModifierConfig x => elementExtractorToModifier x
  | ElementExtractorFromOnchainModifierConfig x => fromOnchainToModifier x
  | HardCodeModifierConfig on off e => hardCodeToModifier on off e
  | PreCodecModifierConfig f e cs => preCodecToModifier f e cs
  | EpochToTimeModifierConfig f e => epochToTimeToModifier f e
  | PropertyExtractorConfig n e => propertyToModifier n e
  | AddressBytesToStringModifierConfig f e m => addressToModifier f e m
  | ConstrainedBytesToStringModifierConfig f n e => constrainedToModifier f n e
  | WrapperModifierConfig f e => wrapperToModifier f e
  end.

(** [ModifiersConfig.ToModifier] stops at the first that fails. *)
Fixpoint modifiersToModifier (m : list ModifierConfig) : outcome error (list modifier) * list ModifierConfig :=
  match m with
  | [] => (Ok [], [])
  | c :: m =>
      match ToModifier c with
      | (Ok md, c) => let '(r, m) := modifiersToModifier m in (let? r := r in Ok (md :: r), c :: m)
      | (Err e, c) => (Err e, c :: m)
      | (Panic, c) => (Panic, c :: m)
      end
  end.
End toModifier.

(** *** Facts: JSON *)

Lemma omapM_fmap_ok {E A B} (f : A → B) (g : B → outcome E A) (l : list A) : (∀ a, g (f a) = Ok a) → omapM g (f <$> l) = Ok l.
Proof. intros Hg. induction l as [|a l IH]; [done|]. cbn. by rewrite Hg /= IH. Qed.
Lemma fromEntries_sort {A} (m : gmap string A) : fromEntries (sortEntries (map_to_list m)) = m.
Proof.
  apply map_eq. intros k. rewrite /fromEntries. assert (sortEntries (map_to_list m) ≡ₚ map_to_list m) as Hp by apply merge_sort_Permutation.
  destruct (m !! k) as [v|] eqn:Hk.
  - apply (foldl_insert_elem (λ (m : gmap string A) p, <[p.1 := p.2]> m) (λ _ v, v) (λ m k v, eq_refl)); [rewrite Hp; apply NoDup_fst_map_to_list|]. rewrite Hp. by apply elem_of_map_to_list.
  - rewrite (foldl_insert_notin (λ (m : gmap string A) p, <[p.1 := p.2]> m) (λ _ v, v) (λ m k v, eq_refl)) ?lookup_empty // Hp. intros ([k' v] & -> & Hv)%list_elem_of_fmap. apply elem_of_map_to_list in Hv. cbn in *. congruence.
Qed.
Lemma asMap_object {A B} (f : A → jval) (g : jval → outcome error B) (h : A → B) (m : option (gmap string A)) :
  (∀ a, g (f a) = Ok (h a)) → asMap g (object f m) = Ok ((λ m : gmap string A, h <$> m) <$> m).
Proof.
  intros Hg. destruct m as [m|]; [|done]. cbn. assert (∀ l : list (string * A), omapM (λ p, let? a := g p.2 in Ok (p.1, a)) (prod_map id f <$> l) = Ok (prod_map id h <$> l)) as ->.
  { induction l as [|[k a] l IH]; [done|]. cbn. by rewrite Hg /= IH. }
  cbn. do 2 f_equal. rewrite -{2}(fromEntries_sort m) /fromEntries.
  assert (∀ (l : list (string * A)) (m0 : gmap string A), foldl (λ (m : gmap string B) p, <[p.1 := p.2]> m) (h <$> m0) (prod_map id h <$> l) = h <$> foldl (λ (m : gmap string A) p, <[p.1 := p.2]> m) m0 l) as Hf.
  { induction l as [|[k a] l IH]; intros m0; [done|]. cbn. by rewrite -fmap_insert IH. }
  rewrite -(Hf _ ∅). by rewrite fmap_empty.
Qed.
Lemma asSlice_strings l : asSlice asString (strings l) = Ok l.
Proof. destruct l as [l|]; [|done]. cbn. by rewrite omapM_fmap_ok. Qed.
Lemma asMap_strings f : asMap asString (object JStr f) = Ok f.
Proof. rewrite (asMap_object _ _ (λ s, s)) //. destruct f; cbn; by rewrite ?map_fmap_id. Qed.
Lemma asMap_locations x : asMap asLocation (object location x) = Ok x.
Proof. rewrite (asMap_object _ _ (λ s, s)); [|by intros [[]|]]. destruct x; cbn; by rewrite ?map_fmap_id. Qed.
Lemma asInt_Itoa n : inS 64 n → asInt (JNumber (Itoa n)) = Ok n.
Proof. intros Hn. cbn. by rewrite CCIPTypes.SetString_Itoa bool_decide_eq_true_2. Qed.

(** What JSON does not keep of a configuration: what is injected, and that a
    number is a [Number]. *)
Definition asJSON (v : anyValue) : anyValue := AJson (match v with AJson v => v | ANumber s => JNumber (if String.eqb s "" then "0" else s) end).
Definition withoutInjected (c : ModifierConfig) : ModifierConfig :=
  match c with
  | PreCodecModifierConfig f e _ => PreCodecModifierConfig f e None
  | AddressBytesToStringModifierConfig f e _ => AddressBytesToStringModifierConfig f e None
  | HardCodeModifierConfig on off e =>
      HardCodeModifierConfig ((λ m : gmap string anyValue, asJSON <$> m) <$> on) ((λ m : gmap string anyValue, asJSON <$> m) <$> off) e
  | c => c
  end.
(** A hard-coded [Number] is a number of JSON, or empty. *)
Definition numberOK (v : anyValue) : Prop := match v with AJson _ => True | ANumber s => s = "" ∨ isValidNumber s = true end.
Definition valuesOK (m : option (gmap string anyValue)) : Prop := match m with Some m => map_Forall (λ _ v, numberOK v) m | None => True end.
Definition numbersOK (c : ModifierConfig) : Prop := match c with HardCodeModifierConfig on off _ => valuesOK on ∧ valuesOK off | _ => True end.
#[local] Instance numberOK_dec v : Decision (numberOK v).
Proof. destruct v; apply _. Defined.
#[local] Instance valuesOK_dec m : Decision (valuesOK m).
Proof. destruct m; apply _. Defined.
#[local] Instance numbersOK_dec c : Decision (numbersOK c).
Proof. destruct c; apply _. Defined.

Definition configOK (c : ModifierConfig) : Prop := match c with ConstrainedBytesToStringModifierConfig _ n _ => inS 64 n | _ => True end.

Lemma unmarshal_object o t : member "Type" o = JStr t → unmarshalOne (JObj o) = decodeConfig (ToLower t) o.
Proof. rewrite /unmarshalOne. cbn [asObject obind]. by intros ->. Qed.
Lemma member_found n o : NoDup ((λ p, ToLower p.1) <$> o) → ∀ k v, (k, v) ∈ o → ToLower k = ToLower n → member n o = v.
Proof.
  induction o as [|[j w] o IH]; cbn; [intros _ k v Hk; by apply elem_of_nil in Hk|]. rewrite NoDup_cons. intros [Hj Hd] k v [[= -> ->]|Hk]%elem_of_cons He.
  { by rewrite He String.eqb_refl. }
  destruct (String.eqb_spec (ToLower j) (ToLower n)) as [Hn|Hn]; [|by eapply IH]. destruct Hj. rewrite Hn -He. apply list_elem_of_fmap. by exists (k, v).
Qed.
Lemma member_sorted n o k v : NoDup ((λ p, ToLower p.1) <$> o) → (k, v) ∈ o → ToLower k = ToLower n → member n (sortEntries o) = v.
Proof.
  intros Hd Hk He. assert (sortEntries o ≡ₚ o) as Hp by apply merge_sort_Permutation. eapply member_found; [|by rewrite Hp|done]. by rewrite Hp.
Qed.
Ltac distinct := apply (bool_decide_unpack _); vm_compute; exact I.
Ltac choose_type := repeat match goal with |- context [String.eqb ?a ?b] => let r := eval vm_compute in (String.eqb a b) in change (String.eqb a b) with r; cbv iota end.
Ltac read_member := match goal with |- context [member ?n (sortEntries ?l)] => erewrite (member_sorted n l n); [|distinct|set_solver|reflexivity] end.

Ltac read_config := (erewrite unmarshal_object; [|eapply (member_sorted _ _ "Type"); [distinct|by left|done]]);
  rewrite /decodeConfig; choose_type; repeat read_member; rewrite ?asMap_strings ?asSlice_strings ?asMap_locations ?asInt_Itoa //.

Lemma anyJSON_ok v : numberOK v → ∃ w, anyJSON v = Ok w ∧ asJSON v = AJson w.
Proof.
  destruct v as [v|n]; [by exists v|]. rewrite /anyJSON /numberJSON /asJSON. intros [-> |Hn]; [by exists (JNumber "0")|].
  destruct (String.eqb n ""); [by exists (JNumber "0")|]. rewrite Hn. by exists (JNumber n).
Qed.
Lemma anyJSON_refused v : ¬ numberOK v → anyJSON v = Err InvalidJSON.
Proof.
  destruct v as [v|n]; [intros []; done|]. cbn. intros Hn. rewrite /numberJSON. destruct (String.eqb_spec n "") as [->|_]; [destruct Hn; by left|].
  destruct (isValidNumber n); [destruct Hn; by right|done].
Qed.

Lemma anyObject_reread m : valuesOK m → ∃ v, anyObject m = Ok v ∧ asMap anyOf v = Ok ((λ m : gmap string anyValue, asJSON <$> m) <$> m).
Proof.
  destruct m as [m|]; [|by exists JNull]. cbn [valuesOK anyObject]. intros Hm.
  set (f := λ v, match anyJSON v with Ok w => w | _ => JNull end).
  assert (omapM (λ p : string * anyValue, let? v := anyJSON p.2 in Ok (p.1, v)) (sortEntries (map_to_list m)) = Ok (prod_map id f <$> sortEntries (map_to_list m))) as ->.
  { assert (Forall (λ p, numberOK p.2) (sortEntries (map_to_list m))) as Hl.
    { rewrite /sortEntries merge_sort_Permutation. apply Forall_forall. intros [k v] Hin%elem_of_map_to_list. by eapply Hm. }
    induction Hl as [|[k v] l Hv _ IH]; [done|]. cbn [omapM fst snd]. cbn [snd] in Hv. destruct (anyJSON_ok v Hv) as (w & Hw & _). rewrite Hw. cbn [obind]. rewrite IH. cbn [obind].
    cbn [fmap list_fmap]. rewrite {2}/prod_map /f. cbn [fst snd]. by rewrite Hw. }
  eexists. split; [done|]. change (JObj (prod_map id f <$> sortEntries (map_to_list m))) with (object f (Some m)).
  rewrite (asMap_object f anyOf (λ v, AJson (f v))) //. cbn [fmap option_fmap option_map]. do 2 f_equal. apply map_fmap_ext. intros k v Hk.
  destruct (anyJSON_ok v (Hm k v Hk)) as (w & Hw & ->). by rewrite /f Hw.
Qed.

Lemma anyObject_refused m : ¬ valuesOK m → anyObject m = Err InvalidJSON.
Proof.
  destruct m as [m|]; [|intros []; done]. cbn [valuesOK anyObject]. intros (k & v & Hk & Hv)%map_not_Forall; [|apply _].
  assert ((k, v) ∈ sortEntries (map_to_list m)) as Hin by (rewrite /sortEntries merge_sort_Permutation; by apply elem_of_map_to_list).
  assert (omapM (λ p : string * anyValue, let? v := anyJSON p.2 in Ok (p.1, v)) (sortEntries (map_to_list m)) = Err InvalidJSON) as ->; [|done].
  induction (sortEntries (map_to_list m)) as [|[j w] l IH]; [by apply elem_of_nil in Hin|]. cbn [omapM fst snd].
  destruct (decide (numberOK w)) as [Hw|Hw]; [|by rewrite anyJSON_refused]. destruct (anyJSON_ok w Hw) as (x & -> & _). cbn [obind].
  apply elem_of_cons in Hin as [[= <- <-]|Hin]; [by destruct Hv|]. by rewrite IH.
Qed.

Lemma config_refused cj mj c : ¬ numbersOK c → MarshalJSON cj mj c = Err InvalidJSON.
Proof.
  destruct c as [| | | | |on off e| | | | | |]; cbn [numbersOK]; try (intros []; done). intros Hn. rewrite /MarshalJSON. cbn [fieldsOf].
  destruct (decide (valuesOK on)) as [Hon|Hon]; [|by rewrite anyObject_refused]. destruct (anyObject_reread on Hon) as (v & -> & _). cbn [obind].
  rewrite anyObject_refused //. tauto.
Qed.

Lemma config_reread cj mj c : configOK c → numbersOK c → ∃ v, MarshalJSON cj mj c = Ok v ∧ unmarshalOne v = Ok (withoutInjected c).
Proof.
  intros Hc Hn. assert (∃ fields, fieldsOf cj mj c = Ok fields) as [fields Hf].
  { destruct c as [| | | | |on off e| | | | | |]; try by eexists. destruct Hn as [(v & Hv & _)%anyObject_reread (w & Hw & _)%anyObject_reread]. cbn [fieldsOf]. rewrite Hv Hw. by eexists. }
  rewrite /MarshalJSON Hf. cbn [obind]. eexists. split; [done|].
  destruct c as [| | | | |on off e| | | | | |]; cbn [fieldsOf] in Hf.
  6: { destruct Hn as [(v & Hv & Hon)%anyObject_reread (w & Hw & Hoff)%anyObject_reread]. rewrite Hv Hw in Hf. injection Hf as <-. read_config. by rewrite Hon Hoff. }
  all: injection Hf as <-; read_config.
Qed.



(** The case of the type does not matter, and others are refused. *)
Lemma type_any_case o s t : member "Type" o = JStr s → ToLower s = t → unmarshalOne (JObj o) = decodeConfig t o.
Proof. intros Hs <-. by apply unmarshal_object. Qed.
Lemma unknown_type o s : member "Type" o = JStr s →
  ToLower s ∉ ["rename"; "drop"; "hard code"; "extract element"; "epoch to time"; "extract property"; "address to string"; "constrained bytes to string"; "wrapper";
    "precodec"; "byte to boolean"; "extract element from onchain"] → unmarshalOne (JObj o) = Err (UnknownModifier (ToLower s)).
Proof.
  intros Hs Hn. rewrite (unmarshal_object _ s) // /decodeConfig.
  repeat match goal with |- context [if String.eqb ?a ?b then _ else _] => destruct (String.eqb_spec a b) as [He|_]; [destruct Hn; rewrite He; repeat first [by left|right]|] end. done.
Qed.

(** Codecs are part of the JSON that is written, though not of what is read. *)
Example codecs_written cj mj c : ∃ o, MarshalJSON cj mj (PreCodecModifierConfig None false (Some {["t" := Some c]})) = Ok (JObj o) ∧ member "Codecs" o = JObj [("t", cj c)].
Proof. eexists. split; [reflexivity|]. eapply member_sorted; [distinct|right; right; right; by left|done]. Qed.

(** *** Facts: names *)

Lemma toUpper_idem c : toUpper (toUpper c) = toUpper c.
Proof. by destruct c as [[] [] [] [] [] [] [] []]. Qed.
Lemma toUpper_dot c : Ascii.eqb (toUpper c) "." = Ascii.eqb c ".".
Proof. by destruct c as [[] [] [] [] [] [] [] []]. Qed.
Lemma upperFirst_idem p : upperFirst (upperFirst p) = upperFirst p.
Proof. destruct p; [done|]. cbn. by rewrite toUpper_idem. Qed.
Lemma upperFirst_avoids p : avoids "." (upperFirst p) = avoids "." p.
Proof. destruct p; [done|]. cbn. by rewrite toUpper_dot. Qed.
Lemma splitOn_avoids c s first rest : splitOn c s = (first, rest) → avoids c first = true ∧ Forall (λ p, avoids c p = true) rest.
Proof.
  revert first rest. induction s as [|d s IH]; intros first rest; cbn; [by intros [= <- <-]|]. destruct (splitOn c s) as [p ps].
  destruct (IH p ps eq_refl) as [Hp Hps]. destruct (Ascii.eqb d c) eqn:Hd; intros [= <- <-]; cbn; rewrite ?Hd ?Hp; eauto.
Qed.
Lemma Split_avoids c s : Forall (λ p, avoids c p = true) (Split s c).
Proof. rewrite /Split. destruct (splitOn c s) as [p ps] eqn:Hs. apply splitOn_avoids in Hs as []. by constructor. Qed.
Lemma Split_concat l : l ≠ [] → Forall (λ p, avoids "." p = true) l → Split (String.concat "." l) "." = l.
Proof.
  intros Hn Hf. induction Hf as [|p l Hp Hf IH]; [done|]. destruct l as [|q l]; [by apply Split_one|].
  change (String.concat "." (p :: q :: l)) with (String.append p (String "." (String.concat "." (q :: l)))). by rewrite Split_cons // IH.
Qed.
Lemma upper_idem s : upperFirstCharacter (upperFirstCharacter s) = upperFirstCharacter s.
Proof.
  rewrite /upperFirstCharacter Split_concat.
  - f_equal. rewrite -list_fmap_compose. apply list_fmap_ext. intros i p _. apply upperFirst_idem.
  - destruct (Split_nonempty s ".") as (p & ps & ->). done.
  - apply Forall_fmap. eapply Forall_impl; [apply Split_avoids|]. intros p Hp. cbn. by rewrite upperFirst_avoids.
Qed.

(** Keys that are one but for the case of first letters. *)
Definition oneName {A} (m : gmap string A) : Prop := ∀ k k', is_Some (m !! k) → is_Some (m !! k') → upperFirstCharacter k = upperFirstCharacter k' → k = k'.

Lemma rekey_fold {A} (f : A → A) l m : NoDup l → (∀ k, k ∈ l → is_Some (m !! k)) → oneName m →
  ∀ n w, foldl (λ (m : gmap string A) k, match m !! k with Some v => <[upperFirstCharacter k := f v]> (delete k m) | None => m end) m l !! n = Some w ↔
    (∃ k v, k ∈ l ∧ m !! k = Some v ∧ n = upperFirstCharacter k ∧ w = f v) ∨ (n ∉ l) ∧ m !! n = Some w ∧ (∀ k, k ∈ l → n ≠ upperFirstCharacter k).
Proof.
  revert m. induction l as [|k l IH]; intros m Hd Hin Hone n w; cbn [foldl].
  { split; [intros Hn; right; set_solver|]. intros [(k & v & Hk & _)|(_ & Hn & _)]; [by apply elem_of_nil in Hk|done]. }
  apply NoDup_cons in Hd as [Hk Hd]. destruct (Hin k) as [v Hv]; [by left|]. rewrite Hv.
  assert (∀ j, j ∈ l → j ≠ k ∧ j ≠ upperFirstCharacter k) as Hj.
  { intros j Hj. assert (j ≠ k) as Hjk by set_solver. split; [done|]. intros He. destruct Hjk. apply Hone; [apply Hin; by right|eauto|]. by rewrite He upper_idem. }
  set (m1 := <[_ := _]> _). assert (∀ j, j ∈ l → m1 !! j = m !! j) as Hm1.
  { intros j [H1 H2]%Hj. by rewrite /m1 lookup_insert_ne // lookup_delete_ne. }
  assert (∀ j x, m1 !! j = Some x → ∃ k' y, m !! k' = Some y ∧ upperFirstCharacter k' = upperFirstCharacter j ∧ (j = upperFirstCharacter k ∧ k' = k ∨ j = k' ∧ k' ≠ k)) as Hback.
  { intros j x. rewrite /m1 lookup_insert_Some lookup_delete_Some. intros [[<- <-]|(_ & Hjk & Hx)]; [exists k, v; rewrite upper_idem; eauto|exists j, x; eauto]. }
  rewrite IH; [|done|intros j Hjl; rewrite Hm1 //; apply Hin; by right|].
  2: { intros j j' [x Hx] [x' Hx'] He. destruct (Hback j x Hx) as (i & y & Hi & Hu & Hc). destruct (Hback j' x' Hx') as (i' & y' & Hi' & Hu' & Hc').
       assert (i = i') as <- by (apply Hone; [eauto..|congruence]). destruct Hc as [[-> ->]|[-> Hn]], Hc' as [[-> Hk']|[-> Hn']]; congruence. }
  split.
  - intros [(j & x & Hjl & Hx & -> & ->)|(Hn & Hx & Hu)].
    + left. exists j, x. rewrite Hm1 // in Hx. split; [by right|done].
    + rewrite /m1 lookup_insert_Some lookup_delete_Some in Hx. destruct Hx as [[<- <-]|(Hnu & Hnk & Hx)]; [left; exists k, v; split; [by left|done]|].
      right. rewrite not_elem_of_cons. split; [by split; [congruence|]|]. split; [done|]. intros j [->|Hjl]%elem_of_cons; [congruence|by apply Hu].
  - intros [(j & x & [->|Hjl]%elem_of_cons & Hx & -> & ->)|(Hn & Hx & Hu)].
    + simplify_eq. right. split; [intros Hul; by destruct (Hj _ Hul)|]. split; [by rewrite /m1 lookup_insert_eq|]. intros j Hjl He.
      destruct (Hj j Hjl) as [Hjk _]. destruct Hjk. apply Hone; [apply Hin; by right|eauto|done].
    + left. exists j, x. rewrite Hm1 //.
    + apply not_elem_of_cons in Hn as [Hnk Hnl]. right. split; [done|]. split.
      * rewrite /m1 lookup_insert_ne; [|intros He; eapply (Hu k); [by left|done]]. by rewrite lookup_delete_ne.
      * intros j Hjl. apply Hu. by right.
Qed.

(** Every entry gets the name with capital first letters, whatever the order of
    the iteration. *)
Lemma rekey_exact {A} (f : A → A) O m n w : oneName m → rekey f O m !! n = Some w ↔ ∃ k v, m !! k = Some v ∧ n = upperFirstCharacter k ∧ w = f v.
Proof.
  intros Hone. assert (∀ k, k ∈ (range_map O m).*1 ↔ is_Some (m !! k)) as Hk.
  { intros k. split; [intros ([k' v] & -> & Hv)%list_elem_of_fmap; apply elem_of_range_map in Hv; eauto|]. intros [v Hv]. apply list_elem_of_fmap. exists (k, v). split; [done|]. by apply elem_of_range_map. }
  rewrite /rekey rekey_fold //; [|apply NoDup_fst_range_map|intros k; apply Hk]. split.
  - intros [(k & v & _ & Hv)|(Hn & Hv & _)]; [eauto|]. destruct Hn. apply Hk. eauto.
  - intros (k & v & Hv & He). left. exists k, v. split; [apply Hk; eauto|done].
Qed.

(** The lower-case name wins where a name is there in both cases. *)
Example lower_case_wins : ∀ O, mapKeyToUpperFirst O {["a" := 1; "A" := 2]} = {["A" := 1]}.
Proof.
  intros O. rewrite /mapKeyToUpperFirst /rekey. pose proof (range_map_perm O {["a" := 1; "A" := 2]}) as Hp.
  assert (map_to_list {["a" := 1; "A" := 2]} ≡ₚ [("a", 1); ("A", 2)]) as Hl by (by rewrite map_to_list_insert // map_to_list_singleton).
  rewrite Hl in Hp. symmetry in Hp. apply Permutation_length_2_inv in Hp as [-> | ->]; by vm_compute.
Qed.

(** Dropped fields get names that a struct does not export. *)
Lemma dropped_unexported fields k n : dropFields fields !! k = Some n → ∃ i f, fields !! i = Some f ∧ k = upperFirstCharacter f ∧ n = dropName i.
Proof.
  intros Hk. apply elem_of_list_to_map_2 in Hk. rewrite elem_of_reverse in Hk. apply elem_of_lookup_imap in Hk as (i & f & [= -> ->] & Hf). eauto.
Qed.
End CodecConfig.
