(* ===== verification/Modifiers.v ===== *)
(** [src/pkg/codec/modifier.go, multi_modifier.go, by_item_type_modifier.go,
    modifier_codec.go]: modifiers as an interface ([Modifier]) and those made of
    others, and the codec that modifies what another codec encodes and decodes. *)

From S2P Require Import Prelude GoBytes GoStrings CodecTypes CodecMaps.

(** *** The interface *)

(** Types of errors, types and values are those of the modifiers: retyping
    changes a modifier, which remembers the types. *)
Class Modifier (M E T V : Type) := {
  RetypeToOffChain : M → T → string → outcome E T * M;
  TransformToOnChain : M → V → string → outcome E V;
  TransformToOffChain : M → V → string → outcome E V
}.

(** A modifier that finds the on-chain values again, of those that it [keeps],
    and one that finds the off-chain values. *)
Class Inverse (M E T V : Type) `{Modifier M E T V} (keeps : M → string → V → Prop) :=
  inverse m v itemType w : keeps m itemType v → TransformToOffChain m v itemType = Ok w → TransformToOnChain m w itemType = Ok v.

(** *** multi_modifier.go, by_item_type_modifier.go *)

Section multi.
Context {M E T V : Type} `{HM : Modifier M E T V}.

(** [forEach] of [RetypeToOffChain], which changes the modifiers. *)
Fixpoint retypeEach (c : list M) (t : T) (itemType : string) : outcome E T * list M :=
  match c with
  | [] => (Ok t, [])
  | m :: c =>
      match RetypeToOffChain m t itemType with
      | (Ok t, m) => let '(r, c) := retypeEach c t itemType in (r, m :: c)
      | (r, m) => (r, m :: c)
      end
  end.
Definition multiToOffChain (c : list M) (onChainValue : V) (itemType : string) : outcome E V :=
  ofold (λ v m, TransformToOffChain m v itemType) onChainValue c.
Definition multiToOnChain (c : list M) (offChainValue : V) (itemType : string) : outcome E V :=
  ofold (λ v m, TransformToOnChain m v itemType) offChainValue (reverse c).

#[global] Instance MultiModifier : Modifier (list M) E T V := {|
  RetypeToOffChain := retypeEach;
  TransformToOnChain := multiToOnChain;
  TransformToOffChain := multiToOffChain
|}.

(** The modifiers keep a value if the first keeps it and the others keep what
    it makes of it. *)
Fixpoint multiKeeps (keeps : M → string → V → Prop) (c : list M) (itemType : string) (v : V) : Prop :=
  match c with [] => True | m :: c => keeps m itemType v ∧ ∀ w, TransformToOffChain m v itemType = Ok w → multiKeeps keeps c itemType w end.

Lemma multiToOnChain_cons m c v itemType : multiToOnChain (m :: c) v itemType = let? v := multiToOnChain c v itemType in TransformToOnChain m v itemType.
Proof.
  rewrite /multiToOnChain reverse_cons. generalize (reverse c) as l. intros l. revert v. induction l as [|x l IH]; intros v; cbn.
  - by destruct (TransformToOnChain m v itemType).
  - destruct (TransformToOnChain x v itemType); cbn; [apply IH|done..].
Qed.

#[global] Instance Multi_inverse keeps `{!Inverse M E T V keeps} : Inverse (list M) E T V (multiKeeps keeps).
Proof.
  intros c. cbn [TransformToOffChain TransformToOnChain MultiModifier]. induction c as [|m c IH]; intros v itemType w; [by intros _ [= <-]|].
  intros [Hk Hks] Ht. rewrite multiToOnChain_cons. apply obind_Ok_inv in Ht as (x & Hx & Ht). rewrite (IH x itemType w) //=; [by eapply (inverse m)|by apply Hks].
Qed.

(** [byItemTypeModifier] *)
Record byItemTypeModifier := mkByItem { modByItemType : gmap string M; enableNesting : bool }.
Inductive itemError := CannotFindModifier (itemType : string) | Inner (e : E).
Definition NewByItemTypeModifier (modByItemType : option (gmap string M)) : byItemTypeModifier := mkByItem (default ∅ modByItemType) false.
Definition NewNestableByItemTypeModifier (modByItemType : option (gmap string M)) : byItemTypeModifier := mkByItem (default ∅ modByItemType) true.
Definition headTail (m : byItemTypeModifier) (itemType : string) : string * string :=
  if enableNesting m then CodecTypes.CodecTypes.Next itemType else (itemType, itemType).

Definition byItemRetype (m : byItemTypeModifier) (onChainType : T) (itemType : string) : outcome itemError T * byItemTypeModifier :=
  let '(head, tail) := headTail m itemType in
  match modByItemType m !! head with
  | None => (Err (CannotFindModifier itemType), m)
  | Some md => let '(r, md) := RetypeToOffChain md onChainType tail in (map_err Inner r, mkByItem (<[head := md]> (modByItemType m)) (enableNesting m))
  end.
Definition byItemTransform (transform : M → V → string → outcome E V) (m : byItemTypeModifier) (val : V) (itemType : string) : outcome itemError V :=
  let '(head, tail) := headTail m itemType in
  match modByItemType m !! head with None => Err (CannotFindModifier itemType) | Some md => map_err Inner (transform md val tail) end.

#[global] Instance byItemType : Modifier byItemTypeModifier itemError T V := {|
  RetypeToOffChain := byItemRetype;
  TransformToOnChain := byItemTransform TransformToOnChain;
  TransformToOffChain := byItemTransform TransformToOffChain
|}.

Definition byItemKeeps (keeps : M → string → V → Prop) (m : byItemTypeModifier) (itemType : string) (v : V) : Prop :=
  let '(head, tail) := headTail m itemType in ∀ md, modByItemType m !! head = Some md → keeps md tail v.
#[global] Instance byItem_inverse keeps `{!Inverse M E T V keeps} : Inverse byItemTypeModifier itemError T V (byItemKeeps keeps).
Proof.
  intros m v itemType w. cbn [TransformToOffChain TransformToOnChain byItemType]. rewrite /byItemKeeps /byItemTransform.
  destruct (headTail m itemType) as [head tail]. destruct (modByItemType m !! head) as [md|] eqn:Hmd; [|done]. intros Hk Ht.
  destruct (TransformToOffChain md v tail) as [x| |] eqn:Hx; [|done..]. injection Ht as <-. by rewrite (inverse md v tail x (Hk md eq_refl) Hx).
Qed.

(** An item type that has no modifier is refused, in every direction. *)
Lemma item_unknown m itemType : modByItemType m !! (headTail m itemType).1 = None →
  (∀ t, RetypeToOffChain (E:=itemError) m t itemType = (Err (CannotFindModifier itemType) : outcome itemError T, m)) ∧
  ∀ v, TransformToOnChain (E:=itemError) (T:=T) m v itemType = (Err (CannotFindModifier itemType) : outcome itemError V) ∧
       TransformToOffChain (E:=itemError) (T:=T) m v itemType = (Err (CannotFindModifier itemType) : outcome itemError V).
Proof.
  cbn. rewrite /byItemRetype /byItemTransform. destruct (headTail m itemType) as [head tail]. cbn. by intros ->.
Qed.
End multi.

(** Retyping keeps the modifiers of the list. *)
Lemma retypeEach_length {M E T V} `{HM : Modifier M E T V} (c : list M) t itemType : length (retypeEach c t itemType).2 = length c.
Proof.
  revert t. induction c as [|m c IH]; intros t; [done|]. cbn. destruct (RetypeToOffChain m t itemType) as [[t'| |] m']; [|done..].
  specialize (IH t'). destruct (retypeEach c t' itemType). cbn in *. by rewrite IH.
Qed.

(** *** modifier_codec.go *)

Abbreviation modifierRetype := RetypeToOffChain.

Module ModifierCodec.
Import CodecTypes.CodecTypes CodecMaps.CodecPaths.

Inductive error := Exhausted | ErrSliceWrongLen | CannotConvert | NotPointer | NilInput | FromCodec | FromModifier | FromMapstructure.

(** The codec below, mapstructure with the hooks of the codec, which gives what
    the pointer [output] points to, and the modifier. *)
Class Codec := {
  CreateType : string → bool → outcome unit value;
  Encode : option value → string → outcome unit (list Z);
  Decode : list Z → value → string → outcome unit value;
  GetMaxEncodingSize : Z → string → outcome unit Z;
  GetMaxDecodingSize : Z → string → outcome unit Z
}.
Class Decoder := decodeWithHook : value → value → outcome unit mem.

Definition isPointer (t : rtype) : bool := match t with Pointer _ => true | _ => false end.

Section codec.
Context `{C : Codec, D : Decoder}.

(** The elements, each to its place. *)
Definition convertSliceOrArray (Convert : value → value → outcome error mem) (ef et : rtype) : list mem → list mem → outcome error (list mem) :=
  fix go (from to : list mem) : outcome error (list mem) :=
  match from, to with
  | x :: from, y :: to =>
      let? r := Convert (mkValue (Pointer ef) (MPtr (Some x))) (mkValue (Pointer et) (MPtr (Some y))) in
      match r with MPtr (Some z) => let? l := go from to in Ok (z :: l) | _ => Panic end
  | [], _ => Ok []
  | _, [] => Panic
  end.

Definition decodeTo (from to : value) : outcome error mem := map_err (λ _, FromMapstructure) (decodeWithHook from to).

(** The elements of a value, and of what is converted to it. *)
Definition listOf (v : mem) : list mem := match v with MSlice l | MArray l => l | _ => [] end.

(** [Convert]: what is in [to] afterwards, which can be set.  A value that is
    set because the types are the same is converted nevertheless, unless both
    are pointers. *)
Fixpoint Convert (fuel : nat) (from to : value) : outcome error mem :=
  match fuel with
  | O => Err Exhausted
  | S fuel =>
      if bool_decide (vType from = vType to) && isPointer (vType from) then
        match vMem from, vMem to with MPtr (Some x), MPtr (Some _) => Ok (MPtr (Some x)) | _, _ => Panic end
      else
        let? toMem := (match vType to with
                       | Pointer e => if decide (e = vType from) then match vMem to with MPtr (Some _) => Ok (MPtr (Some (vMem from))) | _ => Panic end else Ok (vMem to)
                       | _ => Ok (vMem to)
                       end) in
        let convertElements (ef : rtype) (l : list mem) : outcome error mem :=
          match vType to with
          | Array n et => if decide (length l ≠ n) then Err ErrSliceWrongLen else let? l := convertSliceOrArray (Convert fuel) ef et l (listOf toMem) in Ok (MArray l)
          | Slice et => let? l := convertSliceOrArray (Convert fuel) ef et l (replicate (length l) (zero et)) in Ok (MSlice l)
          | Pointer e => match toMem with MPtr (Some y) => let? y := Convert fuel from (mkValue e y) in Ok (MPtr (Some y)) | _ => Panic end
          | _ => Err CannotConvert
          end in
        match vType from with
        | Pointer tf =>
            match tf, vMem from with
            | (Array _ _ | Slice _ | Pointer _), MPtr (Some x) =>
                match vType to, toMem with
                | Pointer (Pointer e), MPtr (Some y) => let? y := Convert fuel (mkValue tf x) (mkValue (Pointer e) y) in Ok (MPtr (Some y))
                | Pointer e, _ => Convert fuel (mkValue tf x) (mkValue (Pointer e) toMem)
                | _, _ => Panic
                end
            | _, _ => decodeTo from (mkValue (vType to) toMem)
            end
        | Array _ ef | Slice ef => convertElements ef (listOf (vMem from))
        | _ => decodeTo from (mkValue (vType to) toMem)
        end
  end.

(** A bound of the depth of the recursion. *)
Fixpoint weight (t : rtype) : nat := match t with Pointer t => S (weight t) | Slice t | Array _ t => S (S (weight t)) | _ => 1 end.
Definition convert (from to : value) : outcome error mem := Convert (weight (vType from) + weight (vType to)) from to.

(** *** The codec *)

Section modifierCodec.
Context {M E : Type} `{HM : Modifier M E rtype value}.

Definition fromCodec {A} (r : outcome unit A) : outcome error A := map_err (λ _, FromCodec) r.
Definition fromModifier {A} (r : outcome E A) : outcome error A := map_err (λ _, FromModifier) r.

Definition NewModifierCodec (codec : option Codec) (modifier : option M) : outcome error (Codec * M) :=
  match codec, modifier with Some c, Some m => Ok (c, m) | _, _ => Err NilInput end.

Definition addr (v : value) : value := mkValue (Pointer (vType v)) (MPtr (Some (vMem v))).

(** A new value of a type, behind the pointer if it is one. *)
Definition newOf (t : rtype) : value := match t with Pointer e => mkValue t (MPtr (Some (zero e))) | t => mkValue t (zero t) end.
Definition codecCreateType (m : M) (itemType : string) (forEncoding : bool) : outcome error value * M :=
  match fromCodec (CreateType itemType forEncoding) with
  | Ok t => let '(nt, m) := modifierRetype m (vType t) itemType in (let? nt := fromModifier nt in Ok (newOf nt), m)
  | Err e => (Err e, m)
  | Panic => (Panic, m)
  end.

Definition codecEncode (m : M) (item : option value) (itemType : string) : outcome error (list Z) * M :=
  match item with
  | None => (fromCodec (Encode None itemType), m)
  | Some item =>
      let '(r, m) := codecCreateType m itemType true in
      (let? offChainItem := r in
       let '(rItem, rOffChainItem) := if isPointer (vType offChainItem) then (item, offChainItem) else (addr item, addr offChainItem) in
       let? x := convert rItem rOffChainItem in
       let? onChainItem := fromModifier (TransformToOnChain m (mkValue (vType rOffChainItem) x) itemType) in
       fromCodec (Encode (Some onChainItem) itemType), m)
  end.

(** What [into] points to afterwards. *)
Definition codecDecode (m : M) (raw : list Z) (into : value) (itemType : string) : outcome error mem :=
  if negb (isPointer (vType into)) then Err NotPointer
  else
    let? onChain := fromCodec (CreateType itemType false) in
    let? onChain := fromCodec (Decode raw onChain itemType) in
    let? offChain := fromModifier (TransformToOffChain m onChain itemType) in
    convert offChain into.

Definition codecGetMaxEncodingSize (n : Z) (itemType : string) : outcome error Z := fromCodec (GetMaxEncodingSize n itemType).
Definition codecGetMaxDecodingSize (n : Z) (itemType : string) : outcome error Z := fromCodec (GetMaxDecodingSize n itemType).

(** *** Facts *)

Lemma convertElements_enough f ef et from to :
  (∀ x y, f (mkValue (Pointer ef) (MPtr (Some x))) (mkValue (Pointer et) (MPtr (Some y))) ≠ Err Exhausted) → convertSliceOrArray f ef et from to ≠ Err Exhausted.
Proof.
  intros Hf. revert to. induction from as [|x from IH]; intros [|y to]; try done. cbn. specialize (Hf x y).
  destruct (f _ _) as [[|[z|]| | |]| |]; cbn in *; try done; [|congruence]. specialize (IH to). destruct (convertSliceOrArray f ef et from to); naive_solver.
Qed.
Lemma decodeTo_enough from to : decodeTo from to ≠ Err Exhausted.
Proof. rewrite /decodeTo. by destruct (decodeWithHook from to). Qed.

(** C33: The recursion of Convert ends: with as much fuel as the two types are nested it gives a converted value, an error of the code or a panic, for every pair of values, never for want of fuel. *)
Theorem Convert_enough fuel from to : weight (vType from) + weight (vType to) ≤ fuel → Convert fuel from to ≠ Err Exhausted.
Proof.
  revert from to. induction fuel as [|fuel IH]; intros [tf vf] [tt vt]; cbn [vType vMem].
  { destruct tf; cbn; lia. }
  intros Hw. cbn [Convert vType vMem]. destruct (bool_decide (tf = tt) && isPointer tf); [by repeat case_match|].
  match goal with |- obind ?r _ ≠ _ => assert (r ≠ Err Exhausted) as Hr by (repeat case_match; done); destruct r as [toMem|e|]; cbn [obind]; [clear Hr|congruence|done] end.
  assert (∀ ef l, S (weight ef) < weight tf →
    match tt with
    | Array n et => if decide (length l ≠ n) then Err ErrSliceWrongLen else let? l := convertSliceOrArray (Convert fuel) ef et l (listOf toMem) in Ok (MArray l)
    | Slice et => let? l := convertSliceOrArray (Convert fuel) ef et l (replicate (length l) (zero et)) in Ok (MSlice l)
    | Pointer e => match toMem with MPtr (Some y) => let? y := Convert fuel (mkValue tf vf) (mkValue e y) in Ok (MPtr (Some y)) | _ => Panic end
    | _ => Err CannotConvert
    end ≠ Err Exhausted) as He.
  { intros ef l Hef. destruct tt as [p|e|et|n et|]; try done; cbn in Hw.
    - destruct toMem as [|[y|]| | |]; try done. pose proof (IH (mkValue tf vf) (mkValue e y)) as Hi. cbn in Hi. destruct (Convert fuel _ _); cbn; try done. intros [= ->]. apply Hi; [lia|done].
    - pose proof (convertElements_enough (Convert fuel) ef et l (replicate (length l) (zero et))) as Hi.
      destruct (convertSliceOrArray _ _ _ _ _); cbn; try done. intros [= ->]. apply Hi; [|done]. intros x y. apply IH. cbn. lia.
    - case_decide; [done|]. pose proof (convertElements_enough (Convert fuel) ef et l (listOf toMem)) as Hi.
      destruct (convertSliceOrArray _ _ _ _ _); cbn; try done. intros [= ->]. apply Hi; [|done]. intros x y. apply IH. cbn. lia. }
  destruct tf as [p|tf|ef|n ef|]; [apply decodeTo_enough| |apply He; cbn; lia|apply He; cbn; lia|apply decodeTo_enough].
  clear He. assert (∀ x, (match tt, toMem with
     | Pointer (Pointer e), MPtr (Some y) => let? y := Convert fuel (mkValue tf x) (mkValue (Pointer e) y) in Ok (MPtr (Some y))
     | Pointer e, _ => Convert fuel (mkValue tf x) (mkValue (Pointer e) toMem)
     | _, _ => Panic
     end : outcome error mem) ≠ Err Exhausted) as Hp.
  { intros x. cbn in Hw. destruct tt as [p|e| | |]; try done. cbn in Hw.
    destruct e as [| e| | |]; try (apply IH; cbn in *; lia). destruct toMem as [|[y|]| | |]; try (apply IH; cbn in *; lia).
    pose proof (IH (mkValue tf x) (mkValue (Pointer e) y)) as Hi. cbn in Hi, Hw. destruct (Convert fuel _ _); cbn; try done. intros [= ->]. apply Hi; [lia|done]. }
  destruct tf, vf as [|[x|]| | |]; try apply decodeTo_enough; apply Hp.
Qed.

(** A pointer is copied to a pointer of its type. *)
Lemma convert_same t x y : convert (mkValue (Pointer t) (MPtr (Some x))) (mkValue (Pointer t) (MPtr (Some y))) = Ok (MPtr (Some x)).
Proof. rewrite /convert. cbn [vType weight]. rewrite Nat.add_succ_l. cbn [Convert vType vMem]. by rewrite bool_decide_eq_true_2. Qed.

(** Slices and arrays, in each other, of a type. *)
Inductive layer := LSlice | LArray (n : nat).
Fixpoint wrap (ls : list layer) (t : rtype) : rtype :=
  match ls with [] => t | LSlice :: ls => Slice (wrap ls t) | LArray n :: ls => Array n (wrap ls t) end.

(** Two such values with as many elements, each related to the one in its place. *)
Fixpoint elementwise (R : mem → mem → Prop) (ls : list layer) (x y : mem) : Prop :=
  match ls with
  | [] => R x y
  | LSlice :: ls => ∃ xs ys, x = MSlice xs ∧ y = MSlice ys ∧ Forall2 (elementwise R ls) xs ys
  | LArray n :: ls => ∃ xs ys, x = MArray xs ∧ y = MArray ys ∧ length xs = n ∧ Forall2 (elementwise R ls) xs ys
  end.

(** Types whose values are not taken apart. *)
Definition isBase (t : rtype) : Prop := match t with Prim _ | Struct _ _ _ => True | _ => False end.

(** What mapstructure makes of a value of one type in a new one of another. *)
Definition decoded (b1 b2 : rtype) (x y : mem) : Prop :=
  decodeWithHook (mkValue (Pointer b1) (MPtr (Some x))) (mkValue (Pointer b2) (MPtr (Some (zero b2)))) = Ok (MPtr (Some y)).

Lemma weight_wrap ls b1 b2 : isBase b1 → isBase b2 → weight (wrap ls b1) = weight (wrap ls b2).
Proof. intros H1 H2. induction ls as [|[|n] ls IH]; cbn; [by destruct b1, b2|by rewrite IH..]. Qed.

Lemma wrap_ne ls b1 b2 : b1 ≠ b2 → wrap ls b1 ≠ wrap ls b2.
Proof. intros Hne. induction ls as [|[|n] ls IH]; cbn; [done|congruence..]. Qed.

Lemma convert_list f b1 b2 R ls xs ys zs :
  (∀ x y, elementwise R ls x y →
     f (mkValue (Pointer (wrap ls b1)) (MPtr (Some x))) (mkValue (Pointer (wrap ls b2)) (MPtr (Some (zero (wrap ls b2))))) = Ok (MPtr (Some y))) →
  Forall2 (elementwise R ls) xs ys → zs = replicate (length xs) (zero (wrap ls b2)) →
  convertSliceOrArray f (wrap ls b1) (wrap ls b2) xs zs = Ok ys.
Proof.
  intros Hf Hxy ->. induction Hxy as [|x y xs ys Hx _ IH]; [done|]. cbn. rewrite (Hf x y Hx). cbn. by rewrite IH.
Qed.

(** Values of different types are converted element by element, by mapstructure. *)
Lemma Convert_elementwise b1 b2 ls : isBase b1 → isBase b2 → b1 ≠ b2 → ∀ x y fuel,
  elementwise (decoded b1 b2) ls x y → weight (Pointer (wrap ls b1)) + weight (Pointer (wrap ls b2)) ≤ fuel →
  Convert fuel (mkValue (Pointer (wrap ls b1)) (MPtr (Some x))) (mkValue (Pointer (wrap ls b2)) (MPtr (Some (zero (wrap ls b2))))) = Ok (MPtr (Some y)).
Proof.
  intros Hb1 Hb2 Hne. assert (∀ ls, wrap ls b2 ≠ Pointer (wrap ls b1)) as Hptr by (intros [|[] ?]; cbn; [by destruct b2|done..]).
  induction ls as [|l ls IH]; intros x y fuel Hxy Hfuel.
  - cbn [wrap] in *. destruct fuel as [|fuel]; [destruct b1; cbn in Hfuel; lia|]. cbn [Convert vType vMem].
    rewrite bool_decide_eq_false_2; [|congruence]. cbn [andb]. rewrite decide_False; [|apply (Hptr [])]. cbn [obind].
    assert (decodeTo (mkValue (Pointer b1) (MPtr (Some x))) (mkValue (Pointer b2) (MPtr (Some (zero b2)))) = Ok (MPtr (Some y))) as Hd
      by (rewrite /decodeTo; cbn in Hxy; rewrite /decoded in Hxy; by rewrite Hxy). by destruct b1.
  - pose proof (wrap_ne ls b1 b2 Hne) as Hw. destruct l as [|n]; cbn [wrap elementwise] in *.
    + destruct Hxy as (xs & ys & -> & -> & Hxs). cbn in Hfuel. destruct fuel as [|[|[|fuel]]]; [lia..|].
      cbn [Convert vType vMem]. rewrite bool_decide_eq_false_2; [|congruence]. cbn [andb].
      destruct (decide (Slice (wrap ls b2) = Pointer (Slice (wrap ls b1)))) as [|_]; [done|]. cbn [obind].
      rewrite bool_decide_eq_false_2; [|done]. cbn [andb].
      destruct (decide (Slice (wrap ls b2) = Slice (wrap ls b1))) as [|_]; [congruence|]. cbn [obind].
      rewrite bool_decide_eq_false_2; [|congruence]. cbn [andb obind listOf].
      rewrite (convert_list (Convert fuel) b1 b2 (decoded b1 b2) ls xs ys); [done| |done|done]. intros x y Hx. apply IH; [done|cbn; lia].
    + destruct Hxy as (xs & ys & -> & -> & Hlen & Hxs). cbn in Hfuel. destruct fuel as [|[|[|fuel]]]; [lia..|].
      cbn [Convert vType vMem]. rewrite bool_decide_eq_false_2; [|congruence]. cbn [andb].
      destruct (decide (Array n (wrap ls b2) = Pointer (Array n (wrap ls b1)))) as [|_]; [done|]. cbn [obind].
      rewrite bool_decide_eq_false_2; [|done]. cbn [andb].
      destruct (decide (Array n (wrap ls b2) = Array n (wrap ls b1))) as [|_]; [congruence|]. cbn [obind].
      rewrite bool_decide_eq_false_2; [|congruence]. cbn [andb obind listOf]. rewrite decide_False; [|by intros []].
      rewrite (convert_list (Convert fuel) b1 b2 (decoded b1 b2) ls xs ys); [done| |done|by rewrite Hlen]. intros x y Hx. apply IH; [done|cbn; lia].
Qed.

(** Values of two types that are converted to each other: of one type the
    same, of different ones element by element, there and back. *)
Definition exchanged (ls : list layer) (b1 b2 : rtype) (x y : mem) : Prop :=
  if decide (b1 = b2) then x = y else isBase b1 ∧ isBase b2 ∧ elementwise (λ x y, decoded b1 b2 x y ∧ decoded b2 b1 y x) ls x y.

Lemma elementwise_impl (R R' : mem → mem → Prop) ls : (∀ x y, R x y → R' x y) → ∀ x y, elementwise R ls x y → elementwise R' ls x y.
Proof.
  intros HR. induction ls as [|[|n] ls IH]; intros x y; cbn; [apply HR| |].
  - intros (xs & ys & -> & -> & Hxs). exists xs, ys. split_and!; [done..|]. by eapply Forall2_impl.
  - intros (xs & ys & -> & -> & Hn & Hxs). exists xs, ys. split_and!; [done..|]. by eapply Forall2_impl.
Qed.

Lemma elementwise_flip R ls : ∀ x y, elementwise R ls x y → elementwise (λ y x, R x y) ls y x.
Proof.
  induction ls as [|[|n] ls IH]; intros x y; cbn; [done| |].
  - intros (xs & ys & -> & -> & Hxs). exists ys, xs. split_and!; [done..|]. apply Forall2_flip. by eapply Forall2_impl.
  - intros (xs & ys & -> & -> & Hn & Hxs). exists ys, xs. split_and!; [done..| |]; [by rewrite -(Forall2_length _ _ _ Hxs)|].
    apply Forall2_flip. by eapply Forall2_impl.
Qed.

Lemma exchanged_sym ls b1 b2 x y : exchanged ls b1 b2 x y → exchanged ls b2 b1 y x.
Proof.
  rewrite /exchanged. destruct (decide (b1 = b2)) as [->|Hne]; [by rewrite decide_True|]. rewrite decide_False; [|congruence].
  intros (H1 & H2 & He). split_and!; [done..|]. apply elementwise_flip in He. eapply elementwise_impl; [|exact He]. naive_solver.
Qed.

Lemma convert_exchanged ls b1 b2 x y :
  exchanged ls b1 b2 x y →
  convert (mkValue (Pointer (wrap ls b1)) (MPtr (Some x))) (mkValue (Pointer (wrap ls b2)) (MPtr (Some (zero (wrap ls b2))))) = Ok (MPtr (Some y)).
Proof.
  rewrite /exchanged. destruct (decide (b1 = b2)) as [->|Hne]; [intros ->; apply convert_same|]. intros (H1 & H2 & He).
  apply Convert_elementwise; try done. eapply elementwise_impl; [|exact He]. naive_solver.
Qed.

(** What the codec below decodes is what it encoded. *)
Definition lossless (itemType : string) : Prop :=
  ∀ v bs z, Encode (Some v) itemType = Ok bs → CreateType itemType false = Ok z → Decode bs z itemType = Ok v.

(** An item of a type that is not a pointer is put behind one. *)
Definition itemOf (pointer : bool) (t : rtype) (x : mem) : value := if pointer then mkValue (Pointer t) (MPtr (Some x)) else mkValue t x.

(** C25: the modifier codec encodes an item as the modifier makes of its
    conversion, and decodes it again.  The item, a value or a pointer, may be of
    another type than the modifier's: of the same slices and arrays, in each
    other, of another struct or primitive type.  It is converted element by
    element and in order by mapstructure, given to the modifier, and what that
    makes of it is encoded by the codec below.  If mapstructure takes each
    element back from one type to the other, the modifier finds the
    off-chain value again, and the codec below loses nothing, then decoding gives
    the item, all its elements in their places. *)
Theorem modified_roundtrip m m' (pointer : bool) ls b1 b2 x y itemType z :
  isPointer (wrap ls b1) = false → isPointer (wrap ls b2) = false → exchanged ls b1 b2 x y →
  codecCreateType m itemType true = (Ok (newOf (if pointer then Pointer (wrap ls b2) else wrap ls b2)), m') →
  let item := itemOf pointer (wrap ls b1) x in
  let converted := mkValue (Pointer (wrap ls b2)) (MPtr (Some y)) in
  let into := mkValue (Pointer (wrap ls b1)) (MPtr (Some (zero (wrap ls b1)))) in
  codecEncode m (Some item) itemType =
    ((let? onChain := fromModifier (TransformToOnChain m' converted itemType) in fromCodec (Encode (Some onChain) itemType)), m') ∧
  (lossless itemType → CreateType itemType false = Ok z →
   (∀ v, TransformToOnChain m' converted itemType = Ok v → TransformToOffChain m' v itemType = Ok converted) →
   ∀ bs, codecEncode m (Some item) itemType = (Ok bs, m') → codecDecode m' bs into itemType = Ok (MPtr (Some x))).
Proof.
  intros Hp1 Hp2 Hxy Hc item converted into.
  assert (codecEncode m (Some item) itemType =
    ((let? onChain := fromModifier (TransformToOnChain m' converted itemType) in fromCodec (Encode (Some onChain) itemType)), m')) as He.
  { rewrite /codecEncode Hc. cbn [obind]. f_equal. assert (newOf (wrap ls b2) = mkValue (wrap ls b2) (zero (wrap ls b2))) as Hnew by by destruct (wrap ls b2).
    destruct pointer; cbn [newOf vType isPointer].
    - rewrite /item /itemOf (convert_exchanged ls b1 b2 x y Hxy) //.
    - rewrite Hnew. cbn [vType]. rewrite Hp2 /item /itemOf /addr. cbn [vType vMem]. by rewrite (convert_exchanged ls b1 b2 x y Hxy). }
  split; [exact He|]. intros Hl Hz Hm bs. rewrite He. intros [= Hbs].
  destruct (TransformToOnChain m' converted itemType) as [v| |] eqn:Hv; cbn in Hbs; [|done..].
  destruct (Encode (Some v) itemType) as [bs'| |] eqn:Hb; cbn in Hbs; [injection Hbs as ->|done..].
  rewrite /codecDecode. cbn [vType into isPointer negb]. rewrite Hz. cbn [fromCodec map_err obind]. rewrite (Hl v bs z Hb Hz).
  cbn [fromCodec map_err obind]. rewrite (Hm v eq_refl). cbn [map_err fromModifier obind]. by apply convert_exchanged, exchanged_sym.
Qed.
End modifierCodec.
End codec.

(** *** The renamer as a modifier *)

#[global] Instance renamerModifier (O : RangeOrder (string * string)) : Modifier (modifierBase string) CodecTypes.CodecTypes.error rtype value :=
  Build_Modifier _ _ _ _ CodecTypes.CodecTypes.RetypeToOffChain (renamerToOnChain O) (renamerToOffChain O).

(** It finds the on-chain value of a type that it knows in both directions. *)
Definition renamerKeeps (m : modifierBase string) (_ : string) (v : value) : Prop :=
  enablePathTraverse m = false ∧ ∀ off, lookupType (vType v) (onToOffChainType m) = Some off →
    lookupType off (offToOnChainType m) = Some (vType v) ∧ isPointer off = isPointer (vType v) ∧ composite off = true.
#[global] Instance renamer_inverse (O : RangeOrder (string * string)) : Inverse (modifierBase string) CodecTypes.CodecTypes.error rtype value renamerKeeps.
Proof.
  intros m [t v] itemType w [Hp Hk]. cbn [TransformToOffChain TransformToOnChain renamerModifier vType] in *.
  rewrite /renamerToOffChain /renamerToOnChain Hp. cbn [String.eqb]. rewrite /renameTransform /onToOffChainTyper /offToOnChainTyper. cbn [String.eqb vType mbind option_bind].
  destruct (lookupType t (onToOffChainType m)) as [off|] eqn:Hl; [|done]. destruct (Hk off eq_refl) as (Hback & Hptr & Hc).
  assert (∀ x, typeForPath x "" = Ok x) as Ht by by intros []. rewrite Ht. cbn [obind]. destruct (decide (off = t)) as [->|Hn].
  - intros [= <-]. cbn [vType mbind option_bind]. rewrite Hback Ht. cbn [obind]. by rewrite decide_True.
  - intros Hw. assert (w = mkValue off v) as ->.
    { destruct t, off; try done; by injection Hw as <-. }
    cbn [vType vMem mbind option_bind]. rewrite Hback Ht. cbn [obind]. rewrite decide_False; [|congruence]. by destruct t, off.
Qed.

(** A codec of slices of one struct type, of one integer, whose field is renamed;
    items are slices of another struct, which mapstructure takes for the renamed
    one by its field. *)
Definition plain : rtype := Struct "p" "S" [("A", "", Prim (PInt W64))].
Definition renamed : rtype := Struct "" "" [("B", "", Prim (PInt W64))].
Definition ours : rtype := Struct "main" "Item" [("B", "", Prim (PInt W64))].
Definition held (zs : list Z) : mem := MSlice ((λ z, MStruct [MPrim (PInt W64) z]) <$> zs).
Definition behind (t : rtype) (zs : list Z) : value := mkValue (Pointer (Slice t)) (MPtr (Some (held zs))).

Definition numberOf (x : mem) : option Z := match x with MStruct [MPrim (PInt W64) z] => Some z | _ => None end.
Definition numbersOf (v : mem) : option (list Z) :=
  match v with
  | MPtr (Some (MSlice l)) => mapM numberOf l
  | _ => None
  end.
#[local] Instance plainCodec : Codec := {|
  CreateType _ _ := Ok (behind plain []);
  Encode v _ := match v with Some v => if decide (vType v = Pointer (Slice plain)) then from_option Ok (Err ()) (numbersOf (vMem v)) else Err () | None => Err () end;
  Decode raw _ _ := Ok (behind plain raw);
  GetMaxEncodingSize n _ := Ok n;
  GetMaxDecodingSize n _ := Ok n
|}.
#[local] Instance fieldDecoder : Decoder := λ from to,
  if decide ((vType from = Pointer ours ∧ vType to = Pointer renamed) ∨ (vType from = Pointer renamed ∧ vType to = Pointer ours)) then Ok (vMem from) else Err ().

Lemma numbersOf_held v zs : numbersOf v = Some zs → v = MPtr (Some (held zs)).
Proof.
  destruct v as [|[[| |l| |]|]| | |]; try done. cbn. intros Hl%mapM_Some. do 2 f_equal. rewrite /held. f_equal.
  induction Hl as [|x z l zs Hx _ IH]; [done|]. rewrite fmap_cons -IH. f_equal. rewrite /numberOf in Hx. by repeat case_match; simplify_eq.
Qed.

Lemma plain_lossless itemType : lossless itemType.
Proof.
  intros [t v] bs z. cbn [Encode plainCodec vType vMem]. destruct (decide (t = Pointer (Slice plain))) as [->|]; [|done].
  destruct (numbersOf v) as [zs|] eqn:E; [|done]. intros [= <-] _. cbn. by rewrite (numbersOf_held v zs E).
Qed.

Lemma Convert_enough_witness :
  let from := behind renamed [7%Z] in let to := mkValue (Slice (Pointer (Slice renamed))) (MSlice []) in
  (weight (vType from) + weight (vType to) ≤ 20)%nat ∧ Convert 20 from to ≠ Err Exhausted ∧ Convert 0 from to = Err Exhausted.
Proof.
  split; [vm_compute; lia|]. split; [|reflexivity]. apply Convert_enough. vm_compute. lia.
Defined.

Lemma modified_roundtrip_witness : ∃ m',
  let M := renamerModifier (insertion_order _) in
  codecEncode (HM := M) (NewRenamer {[ "A" := "B" ]}) (Some (behind ours [7; 8]%Z)) "" = (Ok [7; 8]%Z, m') ∧
  codecDecode (HM := M) m' [7; 8]%Z (behind ours []) "" = Ok (MPtr (Some (held [7; 8]%Z))).
Proof.
  eexists. split; [vm_compute; reflexivity|].
  eapply (modified_roundtrip (HM := renamerModifier (insertion_order _)) (NewRenamer {[ "A" := "B" ]}) _ true [LSlice] ours renamed (held [7; 8]%Z) (held [7; 8]%Z) "" (behind plain []));
    [done|done| |vm_compute; reflexivity|apply plain_lossless|done| |vm_compute; reflexivity].
  - rewrite /exchanged. destruct (decide (ours = renamed)); [done|]. split_and!; [done..|]. eexists _, _. split_and!; [done..|]. repeat constructor.
  - intros v Hv. vm_compute in Hv. injection Hv as <-. vm_compute. reflexivity.
Defined.
End ModifierCodec.
