(* ===== verification/CodecProperty.v ===== *)
(** [src/pkg/codec/property_extractor.go]: the modifier that takes one property
    out of a struct ([PropertyExtractor]).  mapstructure is the parameter of
    [CodecMaps]. *)

From Stdlib.Strings Require Import Ascii.
From S2P Require Import Prelude GoBytes GoStrings CodecTypes CodecMaps.

Module PropertyExtractor.
Import CodecTypes.CodecTypes CodecMaps.CodecMaps.

(** *** The types *)

Record propertyExtractor := mkExtractor {
  fieldName : string;
  traverse : bool;                                    (* enablePathTraverse *)
  onToOff : list (rtype * rtype);
  offToOn : list (rtype * rtype);
  onStruct : option rtype;
  offStruct : option rtype
}.
Definition NewPathTraversePropertyExtractor (fieldName : string) (enablePathTraverse : bool) : propertyExtractor := mkExtractor fieldName enablePathTraverse [] [] None None.
Definition NewPropertyExtractor (fieldName : string) : propertyExtractor := NewPathTraversePropertyExtractor fieldName false.

Definition remember (e : propertyExtractor) (on off : rtype) : propertyExtractor :=
  mkExtractor (fieldName e) (traverse e) ((on, off) :: onToOff e) ((off, on) :: offToOn e) (onStruct e) (offStruct e).
Definition setOnce (e : propertyExtractor) (on off : rtype) : propertyExtractor :=
  match onStruct e with Some _ => e | None => mkExtractor (fieldName e) (traverse e) (onToOff e) (offToOn e) (Some on) (Some off) end.

Inductive error :=
  | NameRequired | FieldNotFound | Types (e : CodecTypes.CodecTypes.error)
  | NotAStruct | NestedSlices | NoSliceUnderFieldPath
  | ShouldBe (kind : string) | CannotRetype | Mapstructure_ | CannotFind | OneMapExpected | Path.
Definition typesError {A} (r : outcome CodecTypes.CodecTypes.error A) : outcome error A := map_err Types r.

Definition fieldByName (f : fieldsAndIndices) (name : string) : option field := Indices f !! name ≫= λ i, fields f !! i.
Definition pathAndName (field : string) : list string * string := let path := Split field "."%char in (removelast path, lastPart path).
Definition isSlice (t : rtype) : bool := match t with Slice _ | Pointer (Slice _) => true | _ => false end.

(** The locations of the parents, and of the last but one. *)
Definition walk (parts : list string) (f : fieldsAndIndices) : outcome error (fieldsAndIndices * fieldsAndIndices) :=
  ofold (λ '(_, cur) part, let? next := typesError (populateSubFields cur part) in Ok (cur, next)) (f, f) parts.
Definition getPropTypeFromStruct (e : propertyExtractor) (onChainType : rtype) : outcome error rtype :=
  let? f := typesError (getFieldIndices onChainType) in
  let '(parts, name) := pathAndName (fieldName e) in
  let? locations := walk parts f in
  let '(prev, cur) := locations in
  let? prevIsSlice := (match last parts with
                       | None => Ok false
                       | Some p => match fieldByName prev p with None => Err FieldNotFound | Some f => Ok (isSlice (Type_ f)) end
                       end) in
  match fieldByName cur name with
  | None => Err FieldNotFound
  | Some f => Ok (if prevIsSlice : bool then Slice (Type_ f) else Type_ f)
  end.

(** [RetypeToOffChain] of a whole type; a type that is known is not retyped. *)
Fixpoint retypeProperty (e : propertyExtractor) (t : rtype) : outcome error rtype * propertyExtractor :=
  let finish (r : outcome error rtype * propertyExtractor) : outcome error rtype * propertyExtractor :=
    match r with (Ok off, e) => (Ok off, setOnce (remember e t off) t off) | r => r end in
  if String.eqb (fieldName e) "" then (Err NameRequired, e)
  else match lookupType t (onToOff e) with
       | Some off => (Ok off, e)
       | None =>
           match t with
           | Pointer t' => finish (let '(r, e) := retypeProperty e t' in (let? u := r in Ok (Pointer u), e))
           | Slice t' => finish (let '(r, e) := retypeProperty e t' in (let? u := r in Ok (Slice u), e))
           | Array n t' => finish (let '(r, e) := retypeProperty e t' in (let? u := r in Ok (Array n u), e))
           | Struct _ _ _ => finish (match getPropTypeFromStruct e t with Ok off => (Ok off, remember e t off) | r => (r, e) end)
           | Prim _ => if decide (Some t ≠ onStruct e) then (Ok t, e) else (Err CannotRetype, e)
           end
       end.
(** With a path the known type is returned whole; without one that is known the
    methods of a nil type panic, except for a basic type. *)
Definition RetypeToOffChain (e : propertyExtractor) (onChainType : rtype) (itemType : string) : outcome error rtype * propertyExtractor :=
  let itemType := if traverse e then itemType else "" in
  if String.eqb (fieldName e) "" then (Err NameRequired, e)
  else if String.eqb itemType "" then retypeProperty e onChainType
  else match onStruct e with
       | Some st => let '(r, e) := retypeProperty e st in (r, e)
       | None => match onChainType with Prim _ => (Ok onChainType, e) | _ => (Panic, e) end
       end.

(** [initSliceForFieldPath]: the type of the empty slice for a path that leads
    to one, or that a slice is on. *)
Fixpoint initSlice (typ : rtype) (prevIsSlice : bool) (parts : list string) : outcome error rtype :=
  match parts with
  | [] => Err NoSliceUnderFieldPath
  | p :: parts =>
      match typ with
      | Struct _ _ fs =>
          match list_find (λ f, Name f = p) fs with
          | None => Err FieldNotFound
          | Some (_, f) =>
              let fieldType := CodecPaths.derefTypePtr (Type_ f) in
              match parts with
              | [] =>
                  let fieldType := if prevIsSlice then Slice fieldType else fieldType in
                  match fieldType with Slice _ => Ok fieldType | _ => Err NoSliceUnderFieldPath end
              | _ :: _ =>
                  match fieldType with
                  | Slice elem =>
                      if prevIsSlice then Err NestedSlices
                      else match CodecPaths.derefTypePtr elem with
                           | Slice _ => Err NestedSlices
                           | t => initSlice t true parts
                           end
                  | t => initSlice t prevIsSlice parts
                  end
              end
          end
      | _ => Err NotAStruct
      end
  end.
Definition initSliceForFieldPath (rootType : rtype) (fieldPath : string) : outcome error rtype := initSlice (CodecPaths.derefTypePtr rootType) false (Split fieldPath "."%char).

(** *** The values *)

(** [mapstructure.Decode] of a value to a new one of a type. *)
Class ValueDecoder := DecodeValue : rtype → gval → outcome unit gval.

Section values.
Context `{MS : Mapstructure, VD : ValueDecoder}.
Definition decoded {A} (r : outcome unit A) : outcome error A := map_err (λ _, Mapstructure_) r.
Definition pathError {A} (r : outcome actionError A) : outcome error A := map_err (λ _, Path) r.

(** [reflect.Append] and [Set]: the value has the type of its place, or any if
    the place holds an interface; the zero [Value], of a nil item, panics. *)
Definition assign (t : rtype) (v : gval) : outcome error gval :=
  match typeOf v with None => Panic | Some u => if isInterface t || bool_decide (u = t) then Ok v else Panic end.

Definition extractElement (src : gval) (field : string) : outcome error gval :=
  let? valueMapping := decoded (Decode src) in
  let '(path, name) := pathAndName field in
  let? r := pathError (getMapsFromPath (Some (default [] valueMapping)) path) in
  match r.1 with
  | [] => match typeOf src with
          | None => Panic
          | Some t => match initSliceForFieldPath t field with
                      | Ok (Slice e) => Ok (VSlice e (Some []))
                      | Ok _ | Err _ => Err CannotFind
                      | Panic => Panic
                      end
          end
  | [em] => match get name em with None => Err CannotFind | Some item => Ok item end
  | maps =>
      match omap (get name) maps with
      | [] => Err CannotFind
      | v :: vs => match typeOf v with None => Panic | Some t => let? l := omapM (assign t) (v :: vs) in Ok (VSlice t (Some l)) end
      end
  end.

(** The new value is the zero value with the one field set. *)
Definition setFieldValue (src : gval) (dest : rtype) (field : string) : outcome error gval :=
  let? valueMapping := decoded (Decode (zeroValue dest)) in
  let '(path, name) := pathAndName field in
  let? r := pathError (getMapsFromPath (Some (default [] valueMapping)) path) in
  match r.1 with
  | [em] => let? em := put name src em in decoded (DecodeTo [] dest (default [] (r.2 [em])))
  | _ => Err OneMapExpected
  end.

(** An error with the zero [Value], and one with a value that can be set. *)
Inductive failure := NoValue (e : error) | WithValue (e : error).
Definition failed (f : failure) : error := match f with NoValue e | WithValue e => e end.
Definition many {A} (r : outcome failure A) : outcome failure A := map_err (λ f, WithValue (failed f)) r.
(** [Set] to what was made, before the error is looked at. *)
Definition setBefore {A} (r : outcome failure A) : outcome failure A := match r with Err (NoValue _) => Panic | r => r end.
Definition withValue {A} (r : outcome error A) : outcome failure A := map_err WithValue r.
Definition noValue {A} (r : outcome error A) : outcome failure A := map_err NoValue r.

Fixpoint expandWithMapsHelper (toType : rtype) (field : string) (rItem : gval) {struct toType} : outcome failure gval :=
  match toType with
  | Pointer e =>
      match rItem with
      | VPtr _ o =>
          match e, o with
          | Struct _ _ _, Some v => let? r := withValue (setFieldValue v e field) in Ok (VPtr e (Some r))
          | Struct _ _ _, None => Panic
          | _, o => let? r := setBefore (expandWithMapsHelper e field (default VNil o)) in let? r := withValue (assign e r) in Ok (VPtr e (Some r))
          end
      | _ => Err (NoValue (ShouldBe "pointer"))
      end
  | Struct _ _ _ => match rItem with VNil => Panic | _ => withValue (setFieldValue rItem toType field) end
  | Slice e =>
      match rItem with
      | VSlice _ l => let? l := many (omapM (λ v, let? r := expandWithMapsHelper e field v in withValue (assign e r)) (default [] l)) in Ok (VSlice e (Some l))
      | _ => Err (NoValue (ShouldBe "slice"))
      end
  | Array n e =>
      match rItem with
      | VArr _ l =>
          let? rs := many (omapM (λ v, let? r := expandWithMapsHelper e field v in withValue (assign e r)) (take n l)) in
          if (n <? length l)%nat then Panic else Ok (VArr e (rs ++ replicate (n - length l) (zeroValue e)))
      | _ => Err (NoValue (ShouldBe "array"))
      end
  | Prim _ => Err (NoValue CannotRetype)
  end.

Fixpoint extractWithMapsHelper (toType : rtype) (field : string) (rItem : gval) {struct rItem} : outcome failure gval :=
  let extractMany (te e : rtype) := fix extractMany (k : nat) (l : list gval) {struct l} : outcome failure (list gval) :=
    match l, k with
    | [], _ | _, O => Ok []
    | v :: l, S k => let? r := (if isInterface te then Err (NoValue CannotRetype) else extractWithMapsHelper e field v) in let? r := withValue (assign e r) in let? l := extractMany k l in Ok (r :: l)
    end in
  match rItem with
  | VPtr _ None => Panic
  | VPtr te (Some elm) =>
      match (if isInterface te then VNil else elm) with
      | VStruct _ _ =>
          let? tmp := withValue (extractElement rItem field) in
          match toType, tmp with
          | _, VNil => Panic
          | Pointer e, _ => let? r := withValue (decoded (DecodeValue e tmp)) in Ok (VPtr e (Some r))
          | _, _ => Panic
          end
      | _ => match toType with
             | Pointer e => let? r := setBefore (if isInterface te then Err (NoValue CannotRetype) else extractWithMapsHelper e field elm) in let? r := withValue (assign e r) in Ok (VPtr e (Some r))
             | _ => Panic
             end
      end
  | VStruct _ _ => noValue (extractElement rItem field)
  | VSlice te l => match toType with Slice e => let? rs := many (match l with Some l => extractMany te e (length l) l | None => Ok [] end) in Ok (VSlice e (Some rs)) | _ => Panic end
  | VArr te l =>
      match toType with
      | Array n e => let? rs := many (extractMany te e n l) in if (n <? length l)%nat then Panic else Ok (VArr e (rs ++ replicate (n - length l) (zeroValue e)))
      | _ => Panic
      end
  | VPrim _ _ | VMap _ => Err (NoValue CannotRetype)
  | VNil => Panic
  end.

(** [extractOrExpandWithMaps]: a struct of one field may go by the type of its
    field; the result is taken out of its [Value]. *)
Definition extractOrExpandWithMaps (input : gval) (typeMap : list (rtype * rtype)) (field : string) (fn : rtype → string → gval → outcome failure gval) : outcome error gval :=
  match typeOf input with
  | None => Panic
  | Some t =>
      let toType := match lookupType t typeMap with
                    | Some u => Some u
                    | None => match input with VStruct (Struct _ _ [f]) _ => lookupType (Type_ f) typeMap | _ => None end
                    end in
      match toType with
      | None => Err CannotRetype
      | Some toType => let? v := map_err failed (fn toType field input) in match v with VNil => Panic | v => Ok v end
      end
  end.

(** The transforms of whole values. *)
Definition TransformToOnChain (e : propertyExtractor) (offChainValue : gval) : outcome error gval :=
  extractOrExpandWithMaps offChainValue (offToOn e) (fieldName e) expandWithMapsHelper.
Definition TransformToOffChain (e : propertyExtractor) (onChainValue : gval) : outcome error gval :=
  extractOrExpandWithMaps onChainValue (onToOff e) (fieldName e) extractWithMapsHelper.

(** *** Facts *)

(** A struct that is decoded from a map is decoded to one with its entries, of
    the fields that the struct has. *)
Definition decodesBack : Prop := ∀ t m s, DecodeTo [] t m = Ok s →
  (∃ l, s = VStruct t l) ∧ ∃ m', Decode s = Ok (Some m') ∧ ∀ n v, n ∈ fieldNames t → find n m = Some v → find n m' = Some v.

Lemma path_flat field : Split field "."%char = [field] → pathAndName field = ([], field).
Proof. rewrite /pathAndName. by intros ->. Qed.

Lemma extract_flat src field m v : Split field "."%char = [field] → Decode src = Ok (Some m) → find field m = Some v → extractElement src field = Ok v.
Proof. intros Hs Hd Hf. rewrite /extractElement Hd path_flat //=. by rewrite Hf. Qed.

Lemma expand_flat pkg name fs field v r : Split field "."%char = [field] → v ≠ VNil →
  expandWithMapsHelper (Struct pkg name fs) field v = Ok r → ∃ m, find field m = Some v ∧ DecodeTo [] (Struct pkg name fs) m = Ok r.
Proof.
  intros Hs Hv He. assert (withValue (setFieldValue v (Struct pkg name fs) field) = Ok r) as Hset by by destruct v. clear He.
  rewrite /setFieldValue in Hset. destruct (Decode _) as [m| |]; [|done..]. rewrite path_flat //= in Hset.
  destruct (DecodeTo [] _ _) as [s| |] eqn:Hd; [|done..]. injection Hset as ->. eexists. split; [|exact Hd]. apply find_set_eq.
Qed.

(** An error behind a pointer panics: what was made is set first. *)
Lemma expand_error_panics e field t p z : expandWithMapsHelper (Pointer (Slice e)) field (VPtr t (Some (VPrim p z))) = Panic.
Proof. done. Qed.

(** A property that is made a struct of is found in it again. *)
Lemma property_kept e v on toType pkg name fs : decodesBack → fieldName e ∈ Name <$> fs → Split (fieldName e) "."%char = [fieldName e] → v ≠ VNil →
  typeOf v ≫= (λ t, lookupType t (offToOn e)) = Some (Struct pkg name fs) → lookupType (Struct pkg name fs) (onToOff e) = Some toType →
  TransformToOnChain e v = Ok on → TransformToOffChain e on = Ok v.
Proof.
  intros Hb Hin0 Hs Hv Hl Hback. rewrite /TransformToOnChain /TransformToOffChain /extractOrExpandWithMaps.
  destruct (typeOf v) as [t|]; [|done]. cbn [mbind option_bind] in Hl. rewrite Hl. cbv iota.
  destruct (expandWithMapsHelper _ _ v) as [r| |] eqn:He; [|done..]. cbn [map_err obind].
  apply expand_flat in He as (m & Hm & Hd); [|done..]. destruct (Hb _ _ _ Hd) as ((l & ->) & m' & Hd' & Hin).
  intros [= <-]. cbn [typeOf]. rewrite Hback. cbv iota. cbn [extractWithMapsHelper]. rewrite (extract_flat _ _ m' v) //; [|by apply Hin]. by destruct v.
Qed.
End values.

(** What an uninitialised path gives is a slice. *)
Lemma initSlice_slice t b parts s : initSlice t b parts = Ok s → ∃ e, s = Slice e.
Proof.
  revert t b. induction parts as [|p parts IH]; intros t b; [done|]. destruct t; try done. cbn [initSlice].
  destruct (list_find _ _) as [[i f]|]; [|done]. destruct parts as [|q parts].
  - destruct (if b then _ else _); try done. intros [= <-]. by eexists.
  - destruct (CodecPaths.derefTypePtr (Type_ f)) as [| |elem| |]; try (apply IH). destruct b; [done|]. destruct (CodecPaths.derefTypePtr elem); try done; apply IH.
Qed.

(** The type of a field of a struct is remembered in both directions. *)
Lemma retype_field fieldName pkg name fs i f : fieldName ≠ "" → Split fieldName "."%char = [fieldName] → fs !! i = Some f →
  fieldByName (mkFai pkg fs (foldl (λ m '(i, f), <[Name f := i]> m) ∅ (imap pair fs)) [] (λ t, Ok t)) fieldName = Some f →
  let e := (retypeProperty (NewPropertyExtractor fieldName) (Struct pkg name fs)).2 in
  (retypeProperty (NewPropertyExtractor fieldName) (Struct pkg name fs)).1 = Ok (Type_ f) ∧
  lookupType (Struct pkg name fs) (onToOff e) = Some (Type_ f) ∧ lookupType (Type_ f) (offToOn e) = Some (Struct pkg name fs).
Proof.
  intros Hn Hs Hi Hf. cbn [retypeProperty]. destruct (String.eqb_spec fieldName ""); [done|]. cbn [PropertyExtractor.fieldName NewPropertyExtractor NewPathTraversePropertyExtractor].
  destruct (String.eqb_spec fieldName ""); [done|]. cbn [lookupType onToOff].
  assert (∀ e, PropertyExtractor.fieldName e = fieldName → getPropTypeFromStruct e (Struct pkg name fs) = Ok (Type_ f)) as Hg.
  { intros e He. rewrite /getPropTypeFromStruct He. cbn [getFieldIndices getFieldIndices_loop typesError map_err obind]. rewrite path_flat //. cbn [walk ofold obind last].
    rewrite /fieldByName in Hf |- *. cbn [Indices fields] in *. by rewrite Hf. }
  rewrite Hg //. assert (∀ (t u : rtype) l, lookupType t ((t, u) :: l) = Some u) as Hhead by (intros t u l; by rewrite /lookupType /= decide_True).
  by rewrite /= !Hhead.
Qed.

(** *** Runs *)

#[local] Existing Instance oneLevel.
Lemma oneLevel_decodesBack : decodesBack.
Proof.
  intros t m s [= <-]. split; [by eexists|]. eexists. split; [done|]. intros n v Hn Hf. induction (fieldNames t) as [|k l IH]; [by apply elem_of_nil in Hn|].
  cbn. destruct (String.eqb_spec k n) as [->|Hk]; [by rewrite Hf|]. apply IH. by apply elem_of_cons in Hn as [->|].
Qed.

Definition point : rtype := Struct "p" "P" [("X", "", Prim (PInt W64)); ("Y", "", Prim (PInt W64))].
Definition holder : rtype := Struct "p" "H" [("A", "", point); ("B", "", Slice point)].

(** Below a slice the property is a slice. *)
Example property_below_slice : (retypeProperty (NewPropertyExtractor "B.X") holder).1 = Ok (Slice (Prim (PInt W64))) ∧ (retypeProperty (NewPropertyExtractor "A.X") (Pointer holder)).1 = Ok (Pointer (Prim (PInt W64))).
Proof. by vm_compute. Qed.

(** With a path the type of the whole is given for a part of it, once it is
    known. *)
Example path_ignored : let e := NewPathTraversePropertyExtractor "A" true in
  (RetypeToOffChain (RetypeToOffChain e holder "").2 holder "A.X").1 = Ok point.
Proof. by vm_compute. Qed.
End PropertyExtractor.
