(* ===== verification/CodecBytes.v ===== *)
(** [src/pkg/codec/byte_string_modifier.go]: addresses and other bytes as
    strings ([AddressBytes]): the address modifier as an interface with its two
    implementations, what is done to the fields, and the two hooks. *)

From Stdlib.Strings Require Import Ascii.
From S2P Require Import Prelude GoBytes GoStrings.

Module AddressBytes.

Inductive error := UnexpectedLength | BadBase64 | LengthMismatch (expected got : nat) | InvalidValue | CannotConvert | UnexpectedType | Refused.

(** [AddressModifier] *)
Class AddressModifier := {
  EncodeAddress : list byte → outcome error string;
  DecodeAddress : string → outcome error (list byte);
  Length : nat
}.

(** *** The implementations *)

(** [ExampleAddressModifier]: 32 bytes, filled up with zeros at the end. *)
Definition exampleEncode (bts : list byte) : outcome error string :=
  if (32 <? length bts)%nat then Err UnexpectedLength else Ok (base64Encode (bts ++ replicate (32 - length bts) "000"%byte)).
Definition exampleDecode (str : string) : outcome error (list byte) :=
  match base64Decode str with
  | None => Err BadBase64
  | Some bts => if decide (length bts ≠ 32) then Err UnexpectedLength else Ok bts
  end.
Definition exampleModifier : AddressModifier := {| EncodeAddress := exampleEncode; DecodeAddress := exampleDecode; Length := 32 |}.

(** [bytes.Trim] of zeros. *)
Definition isZero (b : byte) : bool := Byte.eqb b "000".
Fixpoint dropZeros (l : list byte) : list byte := match l with b :: l' => if isZero b then dropZeros l' else l | [] => [] end.
Definition trimZeros (l : list byte) : list byte := reverse (dropZeros (reverse (dropZeros l))).

(** [constrainedLengthBytesToStringModifier] *)
Definition constrainedEncode (bts : list byte) : outcome error string := Ok (String.string_of_list_byte (trimZeros bts)).
Definition constrainedDecode (maxLen : nat) (str : string) : outcome error (list byte) :=
  let bts := take maxLen (bytes_of_string str) in Ok (bts ++ replicate (maxLen - length bts) "000"%byte).
Definition constrainedModifier (maxLen : nat) : AddressModifier :=
  {| EncodeAddress := constrainedEncode; DecodeAddress := constrainedDecode maxLen; Length := maxLen |}.

(** *** The hooks and the fields *)

(** What there is of a value: a string, an array or a slice of bytes, an array
    or a slice of those, a nil pointer, another value, no value at all. *)
Inductive data :=
  | DString (s : string)
  | DArray (b : list byte)
  | DBytes (b : list byte)                       (* []byte *)
  | DArrays (l : list (list byte))               (* [k][n]byte *)
  | DSlices (l : list (list byte))               (* [][n]byte *)
  | DNilPointer
  | DOther
  | DNone.
(** What a value is decoded to: a string, an array of [n] bytes, or what
    converts to one, or something else. *)
Inductive target := TString | TBytes (n : nat) | TOther.

Section hooks.
Context `{M : AddressModifier}.

Definition stringToAddressHookForOnChain (to : target) (d : data) : outcome error data :=
  match d, to with
  | DString addr, TBytes n =>
      if decide (n = Length) then
        let? bts := DecodeAddress addr in
        if decide (length bts ≠ Length) then Err (LengthMismatch Length (length bts)) else Ok (DArray bts)
      else Ok d
  | _, _ => Ok d
  end.

(** An array of the length converts, and so does a slice of bytes, of any
    length: its bytes are encoded. *)
Definition addressToStringHookForOffChain (to : target) (d : data) : outcome error data :=
  match d, to with
  | DNone, _ => Err InvalidValue
  | DArray bts, TString => if decide (length bts = Length) then let? s := EncodeAddress bts in Ok (DString s) else Ok d
  | DBytes bts, TString => let? s := EncodeAddress bts in Ok (DString s)
  | _, _ => Ok d
  end.

(** [addressTransformationAction], of the field if it is there: a slice that is
    long enough becomes an array of its first bytes. *)
Definition addressTransformationAction (field : option data) : outcome error (option data) :=
  match field with
  | None => Ok None
  | Some d =>
      match d with
      | DNone => Err InvalidValue
      | DArray b => if decide (length b = Length) then Ok (Some d) else Err UnexpectedType
      | DBytes b => if (length b <? Length)%nat then Err CannotConvert else Ok (Some (DArray (take Length b)))
      | DArrays l => if bool_decide (Forall (λ b, length b = Length) l) then Ok (Some d) else Err UnexpectedType
      | DSlices (b :: l) => if bool_decide (Forall (λ b, length b = Length) (b :: l)) then Ok (Some d) else Err UnexpectedType
      | DSlices [] | DString _ | DNilPointer | DOther => Err UnexpectedType
      end
  end.

(** *** Facts *)

(** A modifier whose strings lead back to the addresses. *)
Class AddressLaws := {
  address_decoded b s : length b = Length → EncodeAddress b = Ok s → DecodeAddress s = Ok b
}.

(** An address is the same after it was a string. *)
Lemma address_hooks `{!AddressLaws} b s : length b = Length →
  addressToStringHookForOffChain TString (DArray b) = Ok (DString s) → stringToAddressHookForOnChain (TBytes Length) (DString s) = Ok (DArray b).
Proof.
  intros Hb. cbn. rewrite decide_True //. destruct (EncodeAddress b) as [s'| |] eqn:He; [|done..]. cbn. intros [= ->].
  rewrite decide_True // (address_decoded b s) //=. rewrite decide_False //. lia.
Qed.

(** An empty slice of addresses is refused, unlike a longer one. *)
Lemma empty_slice_refused : addressTransformationAction (Some (DSlices [])) = Err UnexpectedType.
Proof. done. Qed.
End hooks.

(** *** The laws of the implementations *)

#[global] Instance example_laws : @AddressLaws exampleModifier.
Proof.
  split. cbn. intros b s Hb. rewrite /exampleEncode Hb /=. change (32 - 32) with 0. cbn [replicate]. rewrite app_nil_r. intros [= <-].
  rewrite /exampleDecode base64_roundtrip. rewrite decide_False //. lia.
Qed.

Lemma dropZeros_suffix l : ∃ k, l = replicate k "000"%byte ++ dropZeros l.
Proof.
  induction l as [|b l [k IH]]; [by exists 0|]. cbn. rewrite /isZero. destruct (Byte.eqb b "000") eqn:Hb; [|by exists 0].
  apply Byte.byte_dec_bl in Hb as ->. exists (S k). cbn. by rewrite {1}IH.
Qed.
Lemma dropZeros_head l : match l with b :: _ => b ≠ "000"%byte | [] => True end → dropZeros l = l.
Proof. destruct l as [|b l]; [done|]. intros Hb. cbn. rewrite /isZero. destruct (Byte.eqb b "000") eqn:He; [by apply Byte.byte_dec_bl in He|done]. Qed.

(** A string that neither begins nor ends with a zero byte, and is not too
    long, is found again; a longer one is cut off. *)
Definition trimmed (l : list byte) : Prop := match l with b :: _ => b ≠ "000"%byte | [] => True end ∧ match last l with Some b => b ≠ "000"%byte | None => True end.
Lemma trim_padded l k : trimmed l → trimZeros (l ++ replicate k "000"%byte) = l.
Proof.
  intros [Hh Hl]. rewrite /trimZeros. assert (∀ k l, dropZeros (replicate k "000"%byte ++ l) = dropZeros l) as Hz.
  { intros j m. induction j as [|j IH]; [done|]. apply IH. }
  destruct l as [|b l].
  - assert (dropZeros (replicate k "000"%byte) = []) as Hk by (rewrite -(app_nil_r (replicate _ _)); apply Hz). cbn [app]. by rewrite Hk.
  - rewrite (dropZeros_head ((b :: l) ++ _)) //. rewrite reverse_app reverse_replicate Hz dropZeros_head ?reverse_involutive //.
    rewrite -head_reverse in Hl. by destruct (reverse (b :: l)).
Qed.
Lemma constrained_string maxLen s b : trimmed (bytes_of_string s) → length (bytes_of_string s) ≤ maxLen →
  constrainedDecode maxLen s = Ok b → length b = maxLen ∧ constrainedEncode b = Ok s.
Proof.
  intros Ht Hl. rewrite /constrainedDecode take_ge //. intros [= <-]. split; [rewrite length_app length_replicate; lia|].
  rewrite /constrainedEncode trim_padded // /bytes_of_string. by rewrite String.string_of_list_byte_of_string.
Qed.
Example cut_off : constrainedDecode 3 "chain" = Ok (bytes_of_string "cha").
Proof. by vm_compute. Qed.
(** Addresses that are short do not come back as they were. *)
Example padded_away : ∃ s, exampleEncode ["001"%byte] = Ok s ∧ exampleDecode s ≠ Ok ["001"%byte].
Proof. eexists. split; [by vm_compute|]. by vm_compute. Qed.
(** Bytes that begin with a zero come back in another place. *)
Example leading_zero_lost : let b := ["000"; "001"]%byte in ∃ s, constrainedEncode b = Ok s ∧ constrainedDecode 2 s = Ok ["001"; "000"]%byte.
Proof. eexists. split; [reflexivity|]. by vm_compute. Qed.
End AddressBytes.
