(* ===== verification/RelayerRPC.v ===== *)
(** [src/pkg/loop/internal/relayer/relayer.go]: relayers and their keystores
    behind gRPC.  [KeystoreRPC] and the calls of [RelayerRPC] that answer at
    once are as the interface behind a connection; the calls that make
    something are followed with what they open, serve and close.

    The broker, [structpb] and the providers themselves are parameters. *)

From S2P Require Import Prelude GoBytes GoStrings RemoteErrors ContractReader ReportingRPC ContractWriterRPC CCIPReaders.

(** *** The keystore *)

Module KeystoreRPC.
Import RemoteErrors.RemoteErrors ReportingRPC.ReportingRPC ContractWriterRPC.ContractWriterRPC.

Inductive keystoreCall := Accounts | Sign (account : string) (data : list byte).
Inductive keystoreAnswer := AAccounts (accounts : list string) | ASigned (data : list byte).
Inductive keystoreRequest := AccountsRequest | SignRequest (account : string) (data : list byte).
Inductive keystoreRep := AccountsReply (accounts : list string) | SignReply (signedData : list byte).

Section keystore.
Context `{GRPCStatus} {W : Type}.
Definition Keystore : Type := keystoreCall → M (W:=W) keystoreAnswer.

(** The methods of [keystoreServer] and [keystoreClient]; a method gives the
    answer of its own kind. *)
Definition keystoreServer (impl : Keystore) (req : keystoreRequest) : M (W:=W) keystoreRep :=
  match req with
  | AccountsRequest => turned (λ a, match a with AAccounts l => Ok (AccountsReply l) | _ => Panic end) (impl Accounts)
  | SignRequest account data => turned (λ a, match a with ASigned s => Ok (SignReply s) | _ => Panic end) (impl (Sign account data))
  end.
Definition keystoreClient (grpc : keystoreRequest → M (W:=W) keystoreRep) (c : keystoreCall) : M (W:=W) keystoreAnswer :=
  match c with
  | Accounts => turned (λ r, match r with AccountsReply l => Ok (AAccounts l) | _ => Panic end) (grpc AccountsRequest)
  | Sign account data => turned (λ r, match r with SignReply s => Ok (ASigned s) | _ => Panic end) (grpc (SignRequest account data))
  end.
Definition keystoreRemote (impl : Keystore) : Keystore := keystoreClient (λ req, over (keystoreServer impl req)).

Definition ofKind (c : keystoreCall) (a : keystoreAnswer) : Prop := match c, a with Accounts, AAccounts _ | Sign _ _, ASigned _ => True | _, _ => False end.

(** The keystore behind gRPC signs as the keystore does. *)
Lemma keystore_behind_rpc (impl : Keystore) cs w : (∀ c, typed (impl c) (ofKind c)) → execs (keystoreRemote impl) cs w = (sent <$> (execs impl cs w).1, (execs impl cs w).2).
Proof.
  intros Ht. apply execs_behindRPC, Forall_forall. intros c _ u. specialize (Ht c u). rewrite /keystoreRemote /keystoreClient /turned /over.
  destruct c; cbn [keystoreServer]; rewrite /turned; destruct (impl _ u) as [[[]|e|] u'] eqn:E; try done; by destruct (Ht _ _ eq_refl).
Qed.
End keystore.
End KeystoreRPC.

(** *** The calls of a relayer that answer at once *)

Module RelayerRPC.
Import RemoteErrors.RemoteErrors ReportingRPC.ReportingRPC ContractWriterRPC.ContractWriterRPC.

Record Head := mkHead { Height : string; Hash : list byte; Timestamp : Z }.
Record ChainStatus := mkChain { ID : string; Enabled : bool; Config : string }.
Record NodeStatus := mkNode { ChainID : string; nodeName : string; nodeConfig : string; State : string }.

(** [structpb]: the arguments of a replay as a message and back. *)
Class StructPb (Args : Type) := {
  pbStruct : Type;
  NewStruct : Args → outcome error pbStruct;
  AsMap : pbStruct → Args
}.

Section calls.
Context `{GRPCStatus} {W Args : Type} `{!StructPb Args}.

Inductive relayerCall :=
  | LatestHead
  | GetChainStatus
  | ListNodeStatuses (pageSize : Z) (pageToken : string)
  | Transact (from to : string) (amount : option Z) (balanceCheck : bool)
  | Replay (fromBlock : string) (args : Args).
Inductive relayerAnswer :=
  | AHead (head : Head)
  | AChain (chain : ChainStatus)
  | ANodes (nodes : list NodeStatus) (nextPageToken : string) (total : Z)
  | ADone.
Inductive relayerRequest :=
  | LatestHeadRequest
  | GetChainStatusRequest
  | ListNodeStatusesRequest (pageSize : Z) (pageToken : string)
  | TransactionRequest (from to : string) (amount : option pbBigInt) (balanceCheck : bool)
  | ReplayRequest (fromBlock : string) (args : pbStruct).
Inductive relayerRep :=
  | LatestHeadReply (head : Head)
  | GetChainStatusReply (chain : ChainStatus)
  | ListNodeStatusesReply (nodes : list NodeStatus) (nextPageToken : string) (total : Z)
  | Empty.

Definition Relayer : Type := relayerCall → M (W:=W) relayerAnswer.

(** The methods of [relayerServer]. *)
Definition replyOf (a : relayerAnswer) : outcome error relayerRep :=
  match a with
  | AHead head => Ok (LatestHeadReply head)
  | AChain chain => Ok (GetChainStatusReply chain)
  | ANodes nodes nextPageToken total => Ok (ListNodeStatusesReply nodes nextPageToken (wrapS 32 total))
  | ADone => Ok Empty
  end.
Definition relayerServer (impl : Relayer) (req : relayerRequest) : M (W:=W) relayerRep :=
  turned replyOf
    (match req with
     | LatestHeadRequest => impl LatestHead
     | GetChainStatusRequest => impl GetChainStatus
     | ListNodeStatusesRequest pageSize pageToken => impl (ListNodeStatuses pageSize pageToken)
     | TransactionRequest from to amount balanceCheck => impl (Transact from to (Int amount) balanceCheck)
     | ReplayRequest fromBlock args => impl (Replay fromBlock (AsMap args))
     end).

(** The methods of [relayerClient]; the token of the next page is not read. *)
Definition answerOf (r : relayerRep) : outcome error relayerAnswer :=
  match r with
  | LatestHeadReply head => Ok (AHead head)
  | GetChainStatusReply chain => Ok (AChain chain)
  | ListNodeStatusesReply nodes _ total => Ok (ANodes nodes "" total)
  | Empty => Ok ADone
  end.
Definition relayerClient (grpc : relayerRequest → M (W:=W) relayerRep) (c : relayerCall) : M (W:=W) relayerAnswer :=
  match c with
  | LatestHead => turned answerOf (grpc LatestHeadRequest)
  | GetChainStatus => turned answerOf (grpc GetChainStatusRequest)
  | ListNodeStatuses pageSize pageToken => turned answerOf (grpc (ListNodeStatusesRequest pageSize pageToken))
  | Transact from to amount balanceCheck => turned answerOf (grpc (TransactionRequest from to (NewBigIntFromInt amount) balanceCheck))
  | Replay fromBlock args => checked (NewStruct args) (λ args, turned answerOf (grpc (ReplayRequest fromBlock args)))
  end.
Definition relayerRemote (impl : Relayer) : Relayer := relayerClient (λ req, over (relayerServer impl req)).

(** What arrives of an answer. *)
Definition relayerSeen (a : relayerAnswer) : relayerAnswer := match a with ANodes nodes _ total => ANodes nodes "" total | a => a end.
Definition relayerAnswerOK (a : relayerAnswer) : Prop := match a with ANodes _ _ total => inS 32 total | _ => True end.

(** Arguments that cross as [args'] do. *)
Inductive arrivesAs : relayerCall → relayerCall → Prop :=
  | arrives_replay fromBlock args s : NewStruct args = Ok s → arrivesAs (Replay fromBlock args) (Replay fromBlock (AsMap s))
  | arrives_other c : (∀ fromBlock args, c ≠ Replay fromBlock args) → arrivesAs c c.

Lemma relayer_remote_call impl c c' w : arrivesAs c c' → typed (impl c') relayerAnswerOK → relayerRemote impl c w = (seenBack relayerSeen (impl c' w).1, (impl c' w).2).
Proof.
  intros Hc Ht. assert (∀ a, relayerAnswerOK a → ∃ r, replyOf a = Ok r ∧ answerOf r = Ok (relayerSeen a)) as Hback.
  { intros [| |nodes token total|] Ha; cbn in *; rewrite ?wrapS_small //; by eexists. }
  destruct Hc as [fromBlock args s Hs|c Hn].
  - rewrite /relayerRemote /relayerClient Hs /checked. by eapply turned_over.
  - destruct c as [| |pageSize pageToken|from to amount balanceCheck|fromBlock args]; [..|by destruct (Hn fromBlock args)]; rewrite /relayerRemote /relayerClient /relayerServer ?Int_NewBigIntFromInt; by eapply turned_over.
Qed.

(** A relayer behind gRPC answers as the relayer does, and transacts the same
    amounts; of a list of nodes the token of the next page is lost. *)
Lemma relayer_behind_rpc impl cs cs' w : Forall2 arrivesAs cs cs' → (∀ c, typed (impl c) relayerAnswerOK) →
  execs (relayerRemote impl) cs w = (seenBack relayerSeen <$> (execs impl cs' w).1, (execs impl cs' w).2).
Proof. intros Hc Ht. apply execs_related. eapply Forall2_impl; [exact Hc|]. intros c c' Ha u. by apply relayer_remote_call. Qed.

(** The pages after the first are never reached through the token that the
    client returns. *)
Lemma next_page_lost impl pageSize pageToken w nodes token total w' : impl (ListNodeStatuses pageSize pageToken) w = (Ok (ANodes nodes token total), w') →
  (relayerRemote impl (ListNodeStatuses pageSize pageToken) w).1 = Ok (ANodes nodes "" (wrapS 32 total)).
Proof. intros Hi. by rewrite /relayerRemote /relayerClient /turned /over /relayerServer /turned Hi. Qed.

(** Arguments that [structpb] refuses do not reach the relayer. *)
Lemma replay_refused impl fromBlock args e w : NewStruct args = Err e → relayerRemote impl (Replay fromBlock args) w = (Err e, w).
Proof. intros Hs. by rewrite /relayerRemote /relayerClient Hs. Qed.
End calls.

(** *** The calls that make something *)

Record RelayArgs := mkRelayArgs {
  ExternalJobID : list byte;                     (* a UUID *)
  JobID : Z; OracleSpecID : Z; ContractID : string; New : bool; RelayConfig : list byte; ProviderType : string;
  MercuryCredentials : option (string * string * string * string)
}.
Record PluginArgs := mkPluginArgs { TransmitterID : string; PluginConfig : list byte }.
Record pbRelayArgs := mkPbRelayArgs {
  pbExternalJobID : list byte; pbJobID : Z; pbContractID : string; pbNew : bool; pbRelayConfig : list byte; pbProviderType : string
}.

(** What [NewPluginProvider] of the client sends, and [NewConfigProvider]. *)
Definition providerRequest (rargs : RelayArgs) : pbRelayArgs :=
  mkPbRelayArgs (ExternalJobID rargs) (JobID rargs) (ContractID rargs) (New rargs) (RelayConfig rargs) (ProviderType rargs).
Definition configRequest (rargs : RelayArgs) : pbRelayArgs := mkPbRelayArgs (ExternalJobID rargs) (JobID rargs) (ContractID rargs) (New rargs) (RelayConfig rargs) "".

Section args.
Context `{GRPCStatus}.

(** [uuid.FromBytes] *)
Definition FromBytes (b : list byte) : outcome error (list byte) :=
  if decide (length b = 16) then Ok b else Err (EText ("invalid UUID (got " ++ Itoa (Z.of_nat (length b)) ++ " bytes)")).
Definition relayArgs (r : pbRelayArgs) : outcome error RelayArgs :=
  let? exJobID := map_err (CCIPData.wrapf "invalid uuid bytes for ExternalJobID: ") (FromBytes (pbExternalJobID r)) in
  Ok (mkRelayArgs exJobID (pbJobID r) 0 (pbContractID r) (pbNew r) (pbRelayConfig r) (pbProviderType r) None).

(** The arguments arrive without the number of the specification and without
    credentials; a configuration provider has no type. *)
Definition arrivedArgs (rargs : RelayArgs) : RelayArgs :=
  mkRelayArgs (ExternalJobID rargs) (JobID rargs) 0 (ContractID rargs) (New rargs) (RelayConfig rargs) (ProviderType rargs) None.
Lemma args_there rargs : length (ExternalJobID rargs) = 16 → relayArgs (providerRequest rargs) = Ok (arrivedArgs rargs).
Proof. intros Hl. by rewrite /relayArgs /providerRequest /FromBytes /= decide_True. Qed.

End args.

(** The types of providers. *)
Inductive kind := Median | GenericPlugin | Mercury | CCIPCommit | CCIPExecution | OCR3Capability.
#[global] Instance provider_kind_eq_dec : EqDecision kind.
Proof. solve_decision. Defined.
Definition kindName (k : kind) : string :=
  match k with
  | Median => "median" | GenericPlugin => "plugin" | Mercury => "mercury" | CCIPCommit => "ccip-commit" | CCIPExecution => "ccip-execution" | OCR3Capability => "ocr3-capability"
  end.
Definition kinds : list kind := [Median; GenericPlugin; Mercury; CCIPCommit; CCIPExecution; OCR3Capability].
Definition kindOf (providerType : string) : option kind := snd <$> list_find (λ k, kindName k = providerType) kinds.

Lemma kindOf_name k : kindOf (kindName k) = Some k.
Proof. by destruct k. Qed.
Lemma kindOf_some s k : kindOf s = Some k → s = kindName k.
Proof. rewrite /kindOf. destruct (list_find _ _) as [[i j]|] eqn:E; [|done]. intros [= <-]. by apply list_find_Some in E as (_ & <- & _). Qed.

(** *** What is opened, served and closed *)

(** A connection that was dialled, or something that was made. *)
Inductive thing := Conn (name : string) (id : Z) | Made (name : string) (n : Z).

(** What is open and has no owner, and what is served, with what is closed when
    the serving ends. *)
Record host := mkHost { live : list thing; served : list (string * list thing) }.
Definition opens (t : thing) (h : host) : host := mkHost (t :: live h) (served h).

Section making.
Context `{GRPCStatus} {W : Type}.

(** [ServeNew]: what the server is to close is closed if the broker does not
    accept the connection. *)
Definition serveNew (name : string) (deps before : list thing) (acceptErr : option error) (h : host) : outcome error Z * host :=
  match acceptErr with
  | Some e => (Err e, mkHost before (served h))
  | None => (Ok (wrapS 32 (Z.of_nat (length (served h)))), mkHost before (served h ++ [(name, deps)]))
  end.

(** What the server side does for most requests: something is made, started and
    served.  It is not closed when it does not start. *)
Definition makeAndServe (name : string) (made : outcome error thing) (startErr acceptErr : option error) (h : host) : outcome error Z * host :=
  match made with
  | Err e => (Err e, h)
  | Panic => (Panic, h)
  | Ok t => match startErr with Some e => (Err e, opens t h) | None => serveNew name [t] (live h) acceptErr h end
  end.

(** [relayerServer]'s [NewContractWriter], [NewContractReader] and
    [NewConfigProvider]. *)
Definition NewContractWriter (impl : list byte → outcome error thing) (startErr acceptErr : option error) (config : list byte) : host → outcome error Z * host :=
  makeAndServe "ContractWriter" (impl config) startErr acceptErr.
Definition NewContractReader (impl : list byte → outcome error thing) (startErr acceptErr : option error) (config : list byte) : host → outcome error Z * host :=
  makeAndServe "ContractReader" (impl config) startErr acceptErr.
Definition NewConfigProvider (impl : RelayArgs → outcome error thing) (startErr acceptErr : option error) (req : pbRelayArgs) (h : host) : outcome error Z * host :=
  match relayArgs req with
  | Ok rargs => makeAndServe "ConfigProvider" (impl (mkRelayArgs (ExternalJobID rargs) (JobID rargs) 0 (ContractID rargs) (New rargs) (RelayConfig rargs) "" None)) startErr acceptErr h
  | Err e => (Err e, h)
  | Panic => (Panic, h)
  end.

(** A relayer: its type, the providers that it has, and what it makes. *)
Record relayerImpl := mkImpl { typeName : string; supports : kind → bool; makes : kind → RelayArgs → PluginArgs → outcome error thing }.

(** The providers: a relayer that does not have one says so, though not always
    under the right name. *)
Section providers.
Context (impl : relayerImpl) (startErr acceptErr : option error) (rargs : RelayArgs) (pargs : PluginArgs).
Definition unimplemented (msg : string) (h : host) : outcome error Z * host := (Err (EStatus Unimplemented msg), h).
Definition newOCR3CapabilityProvider (h : host) : outcome error Z * host :=
  if supports impl OCR3Capability then makeAndServe "OCR3CapabilityProvider" (makes impl OCR3Capability rargs pargs) startErr acceptErr h
  else unimplemented "median not supported" h.
Definition newMedianProvider (h : host) : outcome error Z * host :=
  if supports impl Median then makeAndServe "MedianProvider" (makes impl Median rargs pargs) startErr acceptErr h
  else unimplemented "median not supported" h.
Definition newPluginProvider (h : host) : outcome error Z * host := makeAndServe "PluginProvider" (makes impl GenericPlugin rargs pargs) startErr acceptErr h.
Definition newMercuryProvider (h : host) : outcome error Z * host :=
  if supports impl Mercury then makeAndServe "MercuryProvider" (makes impl Mercury rargs pargs) startErr acceptErr h
  else unimplemented ("mercury not supported by " ++ typeName impl) h.
Definition newExecProvider (h : host) : outcome error Z * host :=
  if supports impl CCIPExecution then makeAndServe "CCIPExecutionProvider" (makes impl CCIPExecution rargs pargs) startErr acceptErr h
  else unimplemented ("ccip execution not supported by " ++ typeName impl) h.
Definition newCommitProvider (h : host) : outcome error Z * host :=
  if supports impl CCIPCommit then makeAndServe "CCIPCommitProvider" (makes impl CCIPCommit rargs pargs) startErr acceptErr h
  else unimplemented ("ccip execution not supported by " ++ typeName impl) h.
End providers.

(** [NewPluginProvider] of the server. *)
Definition NewPluginProvider (impl : relayerImpl) (startErr acceptErr : option error) (rargs : pbRelayArgs) (pargs : PluginArgs) (h : host) : outcome error Z * host :=
  match relayArgs rargs with
  | Ok args =>
      match kindOf (pbProviderType rargs) with
      | Some Median => newMedianProvider impl startErr acceptErr args pargs h
      | Some GenericPlugin => newPluginProvider impl startErr acceptErr args pargs h
      | Some Mercury => newMercuryProvider impl startErr acceptErr args pargs h
      | Some CCIPCommit => newCommitProvider impl startErr acceptErr args pargs h
      | Some CCIPExecution => newExecProvider impl startErr acceptErr args pargs h
      | Some OCR3Capability => newOCR3CapabilityProvider impl startErr acceptErr args pargs h
      | None => (Err (EText ("provider type not supported: " ++ ProviderType args)), h)
      end
  | Err e => (Err e, h)
  | Panic => (Panic, h)
  end.

(** [WrapProviderClientConnection]: the client of a type, if there is one, and
    the error; for the CCIP providers both. *)
Definition WrapProviderClientConnection (providerType : string) : option kind * option error :=
  match kindOf providerType with
  | Some (CCIPExecution | CCIPCommit) as k => (k, Some (EText "need to fix BCF-3061"))
  | Some k => (Some k, None)
  | None => (None, Some (EText ("provider type not supported: " ++ providerType)))
  end.

(** [pluginRelayerServer.NewRelayer]: the connections to the keystore and the
    registry are dialled, the relayer is made, started and served. *)
Definition NewRelayer (keystoreID registryID : Z) (dialKeystore dialRegistry : option error) (impl : outcome error thing) (startErr acceptErr : option error) (h : host) :
    outcome error Z * host :=
  match dialKeystore with
  | Some e => (Err (CCIPData.wrapf ("failed to dial Keystore client connection " ++ Itoa keystoreID ++ ": ") e), h)
  | None =>
      let ks := Conn "Keystore" keystoreID in
      match dialRegistry with
      | Some e => (Err (CCIPData.wrapf ("failed to dial CapabilityRegistry client connection " ++ Itoa registryID ++ ": ") e), opens ks h)
      | None =>
          let cr := Conn "CapabilityRegistry" registryID in
          match impl with
          | Err e => (Err e, h)                                        (* both connections are closed *)
          | Panic => (Panic, opens cr (opens ks h))
          | Ok r => match startErr with
                    | Some e => (Err e, opens r h)                     (* the relayer is not *)
                    | None => serveNew "Relayer" [r; ks; cr] (live h) acceptErr h
                    end
          end
      end
  end.

(** [PluginRelayerClient.NewRelayer], when the connection is made: the keystore
    and the registry are served to the plugin; nothing is given back to be
    closed with the connection, or when the request fails. *)
Definition newClient (acceptKeystore acceptRegistry : option error) (grpc : Z → Z → outcome error Z) (h : host) : outcome error Z * list string * host :=
  let '(r, h) := serveNew "Keystore" [] (live h) acceptKeystore h in
  match r with
  | Err e => (Err (CCIPData.wrapf "Failed to create relayer client: failed to serve keystore: " e), [], h)
  | Panic => (Panic, [], h)
  | Ok id =>
      let '(r, h) := serveNew "CapabilitiesRegistry" [] (live h) acceptRegistry h in
      match r with
      | Err e => (Err (CCIPData.wrapf "failed to serve new capability registry: " e), [], h)
      | Panic => (Panic, [], h)
      | Ok registryID => (map_err (CCIPData.wrapf "Failed to create relayer client: failed request: ") (grpc id registryID), [], h)
      end
  end.

(** *** Facts *)

(** What was made is served and owned by its server; it stays open without an
    owner only if it does not start. *)
Lemma makeAndServe_live name made startErr acceptErr h r h' : makeAndServe name made startErr acceptErr h = (r, h') →
  live h' = live h ∨ ∃ t e, made = Ok t ∧ startErr = Some e ∧ r = Err e ∧ live h' = t :: live h.
Proof.
  rewrite /makeAndServe. destruct made as [t|e|]; [|by intros [= _ <-]; left..]. destruct startErr as [e|]; [intros [= <- <-]; right; by eexists _, _|].
  rewrite /serveNew. destruct acceptErr; intros [= _ <-]; by left.
Qed.
Lemma makeAndServe_ok name made startErr acceptErr h id h' : makeAndServe name made startErr acceptErr h = (Ok id, h') →
  ∃ t, made = Ok t ∧ startErr = None ∧ live h' = live h ∧ served h' = served h ++ [(name, [t])] ∧ id = wrapS 32 (Z.of_nat (length (served h))).
Proof.
  rewrite /makeAndServe. destruct made as [t|e|]; [|done..]. destruct startErr; [done|]. rewrite /serveNew. destruct acceptErr; [done|].
  intros [= <- <-]. by exists t.
Qed.

(** The name a provider is served under. *)
Definition servedName (k : kind) : string :=
  match k with
  | Median => "MedianProvider" | GenericPlugin => "PluginProvider" | Mercury => "MercuryProvider"
  | CCIPCommit => "CCIPCommitProvider" | CCIPExecution => "CCIPExecutionProvider" | OCR3Capability => "OCR3CapabilityProvider"
  end.
Definition has (impl : relayerImpl) (k : kind) : bool := match k with GenericPlugin => true | k => supports impl k end.

(** The provider that a client asks for is made of the client's arguments, and
    served. *)
Theorem provider_served impl startErr acceptErr rargs pargs h id h' : length (ExternalJobID rargs) = 16 →
  NewPluginProvider impl startErr acceptErr (providerRequest rargs) pargs h = (Ok id, h') →
  ∃ k t, ProviderType rargs = kindName k ∧ has impl k = true ∧ makes impl k (arrivedArgs rargs) pargs = Ok t ∧
    live h' = live h ∧ served h' = served h ++ [(servedName k, [t])] ∧ id = wrapS 32 (Z.of_nat (length (served h))).
Proof.
  intros Hl. rewrite /NewPluginProvider args_there //. cbn [pbProviderType providerRequest]. destruct (kindOf (ProviderType rargs)) as [k|] eqn:Hk; [|done].
  apply kindOf_some in Hk. intros Hm.
  assert (has impl k = true ∧ makeAndServe (servedName k) (makes impl k (arrivedArgs rargs) pargs) startErr acceptErr h = (Ok id, h')) as [Hh Hs].
  { destruct k; [unfold newMedianProvider in Hm|by split|unfold newMercuryProvider in Hm|unfold newCommitProvider in Hm|unfold newExecProvider in Hm|unfold newOCR3CapabilityProvider in Hm];
      cbn [has]; destruct (supports impl _); done. }
  apply makeAndServe_ok in Hs as (t & Ht & _ & Hlive & Hserved & ->). by exists k, t.
Qed.

(** Every provider has a client of its type; those of CCIP come with an error. *)
Lemma wrapped k : (WrapProviderClientConnection (kindName k)).1 = Some k ∧ ((WrapProviderClientConnection (kindName k)).2 = None ↔ k ≠ CCIPExecution ∧ k ≠ CCIPCommit).
Proof. destruct k; vm_compute; (split; [done|]); split; try done; by intros [? ?]. Qed.

(** What [NewRelayer] of the server leaves open: the keystore's connection if
    the registry cannot be dialled, the relayer if it does not start. *)
Lemma relayer_left_open k c dk dr impl se ae h r h' : impl ≠ Panic → NewRelayer k c dk dr impl se ae h = (r, h') →
  live h' = (match dk, dr, impl, se with
             | None, Some _, _, _ => [Conn "Keystore" k]
             | None, None, Ok rel, Some _ => [rel]
             | _, _, _, _ => []
             end) ++ live h.
Proof.
  intros Hi. rewrite /NewRelayer. destruct dk; [by intros [= _ <-]|]. destruct dr; [by intros [= _ <-]|]. destruct impl as [rel|e|]; [|by intros [= _ <-]|done].
  destruct se; [by intros [= _ <-]|]. rewrite /serveNew. destruct ae; by intros [= _ <-].
Qed.

(** The servers of the keystore and of the registry are never stopped with the
    connection: the client is given nothing to close. *)
Lemma servers_left dk dr grpc h r deps h' : newClient dk dr grpc h = (r, deps, h') → deps = [] ∧ (dk = None → dr = None → served h' = served h ++ [("Keystore", []); ("CapabilitiesRegistry", [])]).
Proof.
  rewrite /newClient /serveNew. destruct dk; [by intros [= _ <- _]|]. cbn. destruct dr; [by intros [= _ <- _]|]. cbn. intros [= _ <- <-]. cbn. by rewrite -app_assoc.
Qed.
End making.
End RelayerRPC.
