(* ===== verification/MercuryRPC.v ===== *)
(** [src/pkg/loop/internal/relayer/pluginprovider/ext/mercury] and
    [src/pkg/loop/internal/reportingplugin/mercury]: the parts of a Mercury
    provider behind gRPC, in the four versions of the reports, the data sources,
    the plugins and what makes them.

    Reports and observations are those of [src/pkg/types/mercury]; an absent big
    integer is [None].  What a version of a client or a server does is the same
    function for all four, of the version's conversions. *)

From S2P Require Import Prelude GoBytes GoStrings ContractWriterRPC ReportingRPC OCR2RPC RemoteErrors CCIPReaders.

(** *** Data *)

Module MercuryData.
Import ContractWriterRPC.ContractWriterRPC.

(** A value that was observed, or why it was not. *)
Record ObsResult (T : Type) := mkResult { Val : T; ObsErr : option RemoteErrors.error }.
#[global] Arguments mkResult {T} _ _.
#[global] Arguments Val {T} _.
#[global] Arguments ObsErr {T} _.
Definition withoutErr {T} (r : ObsResult T) : ObsResult T := mkResult (Val r) None.

(** [v1.Block]; the hash is a string of bytes. *)
Record Block := mkBlock { Num : Z; Hash : list byte; Ts : Z }.
Definition NewBlock (num : Z) (hash : list byte) (ts : Z) : Block := mkBlock num hash ts.
Definition Less (b b2 : Block) : bool :=
  if bool_decide (Num b = Num b2) && bool_decide (Ts b = Ts b2) then match bytesCompare (Hash b) (Hash b2) with Gt => true | _ => false end
  else if bool_decide (Num b = Num b2) then bool_decide (Ts b < Ts b2)%Z
  else bool_decide (Num b < Num b2)%Z.
Definition BlockString (b : Block) : string := (Itoa (Num b) ++ "-0x" ++ hexEncode (Hash b) ++ "-" ++ Itoa (Ts b))%string.

(** The fields of a report, by version. *)
Record ReportFieldsV1 := mkFieldsV1 {
  f1Timestamp : Z; f1BenchmarkPrice : option Z; f1Bid : option Z; f1Ask : option Z; f1CurrentBlockNum : Z; f1CurrentBlockHash : list byte;
  f1ValidFromBlockNum : Z; f1CurrentBlockTimestamp : Z
}.
Record pbReportFieldsV1T := mkPbFieldsV1 {
  pf1Timestamp : Z; pf1BenchmarkPrice : option pbBigInt; pf1Bid : option pbBigInt; pf1Ask : option pbBigInt; pf1CurrentBlockNum : Z; pf1CurrentBlockHash : list byte;
  pf1ValidFromBlockNum : Z; pf1CurrentBlockTimestamp : Z
}.
Definition pbReportFieldsV1 (f : ReportFieldsV1) : pbReportFieldsV1T :=
  mkPbFieldsV1 (f1Timestamp f) (NewBigIntFromInt (f1BenchmarkPrice f)) (NewBigIntFromInt (f1Bid f)) (NewBigIntFromInt (f1Ask f)) (f1CurrentBlockNum f) (f1CurrentBlockHash f)
    (f1ValidFromBlockNum f) (f1CurrentBlockTimestamp f).
Definition reportFieldsV1 (f : pbReportFieldsV1T) : ReportFieldsV1 :=
  mkFieldsV1 (pf1Timestamp f) (Int (pf1BenchmarkPrice f)) (Int (pf1Bid f)) (Int (pf1Ask f)) (pf1CurrentBlockNum f) (pf1CurrentBlockHash f)
    (pf1ValidFromBlockNum f) (pf1CurrentBlockTimestamp f).

Record ReportFieldsV2 := mkFieldsV2 { f2ValidFromTimestamp : Z; f2Timestamp : Z; f2NativeFee : option Z; f2LinkFee : option Z; f2ExpiresAt : Z; f2BenchmarkPrice : option Z }.
Record pbReportFieldsV2T := mkPbFieldsV2 {
  pf2ValidFromTimestamp : Z; pf2Timestamp : Z; pf2NativeFee : option pbBigInt; pf2LinkFee : option pbBigInt; pf2ExpiresAt : Z; pf2BenchmarkPrice : option pbBigInt
}.
Definition pbReportFieldsV2 (f : ReportFieldsV2) : pbReportFieldsV2T :=
  mkPbFieldsV2 (f2ValidFromTimestamp f) (f2Timestamp f) (NewBigIntFromInt (f2NativeFee f)) (NewBigIntFromInt (f2LinkFee f)) (f2ExpiresAt f) (NewBigIntFromInt (f2BenchmarkPrice f)).
Definition reportFieldsV2 (f : pbReportFieldsV2T) : ReportFieldsV2 :=
  mkFieldsV2 (pf2ValidFromTimestamp f) (pf2Timestamp f) (Int (pf2NativeFee f)) (Int (pf2LinkFee f)) (pf2ExpiresAt f) (Int (pf2BenchmarkPrice f)).

Record ReportFieldsV3 := mkFieldsV3 {
  f3ValidFromTimestamp : Z; f3Timestamp : Z; f3NativeFee : option Z; f3LinkFee : option Z; f3ExpiresAt : Z; f3BenchmarkPrice : option Z; f3Bid : option Z; f3Ask : option Z
}.
Record pbReportFieldsV3T := mkPbFieldsV3 {
  pf3ValidFromTimestamp : Z; pf3Timestamp : Z; pf3NativeFee : option pbBigInt; pf3LinkFee : option pbBigInt; pf3ExpiresAt : Z; pf3BenchmarkPrice : option pbBigInt;
  pf3Bid : option pbBigInt; pf3Ask : option pbBigInt
}.
Definition pbReportFieldsV3 (f : ReportFieldsV3) : pbReportFieldsV3T :=
  mkPbFieldsV3 (f3ValidFromTimestamp f) (f3Timestamp f) (NewBigIntFromInt (f3NativeFee f)) (NewBigIntFromInt (f3LinkFee f)) (f3ExpiresAt f) (NewBigIntFromInt (f3BenchmarkPrice f))
    (NewBigIntFromInt (f3Bid f)) (NewBigIntFromInt (f3Ask f)).
Definition reportFieldsV3 (f : pbReportFieldsV3T) : ReportFieldsV3 :=
  mkFieldsV3 (pf3ValidFromTimestamp f) (pf3Timestamp f) (Int (pf3NativeFee f)) (Int (pf3LinkFee f)) (pf3ExpiresAt f) (Int (pf3BenchmarkPrice f)) (Int (pf3Bid f)) (Int (pf3Ask f)).

Record ReportFieldsV4 := mkFieldsV4 {
  f4ValidFromTimestamp : Z; f4Timestamp : Z; f4NativeFee : option Z; f4LinkFee : option Z; f4ExpiresAt : Z; f4BenchmarkPrice : option Z; f4MarketStatus : Z
}.
Record pbReportFieldsV4T := mkPbFieldsV4 {
  pf4ValidFromTimestamp : Z; pf4Timestamp : Z; pf4NativeFee : option pbBigInt; pf4LinkFee : option pbBigInt; pf4ExpiresAt : Z; pf4BenchmarkPrice : option pbBigInt; pf4MarketStatus : Z
}.
Definition pbReportFieldsV4 (f : ReportFieldsV4) : pbReportFieldsV4T :=
  mkPbFieldsV4 (f4ValidFromTimestamp f) (f4Timestamp f) (NewBigIntFromInt (f4NativeFee f)) (NewBigIntFromInt (f4LinkFee f)) (f4ExpiresAt f) (NewBigIntFromInt (f4BenchmarkPrice f))
    (f4MarketStatus f).
Definition reportFieldsV4 (f : pbReportFieldsV4T) : ReportFieldsV4 :=
  mkFieldsV4 (pf4ValidFromTimestamp f) (pf4Timestamp f) (Int (pf4NativeFee f)) (Int (pf4LinkFee f)) (pf4ExpiresAt f) (Int (pf4BenchmarkPrice f)) (pf4MarketStatus f).

(** Observations, by version: the messages have the values alone. *)
Record ObservationV1 := mkObsV1 {
  o1BenchmarkPrice : ObsResult (option Z); o1Bid : ObsResult (option Z); o1Ask : ObsResult (option Z);
  o1CurrentBlockNum : ObsResult Z; o1CurrentBlockHash : ObsResult (list byte); o1CurrentBlockTimestamp : ObsResult Z;
  o1LatestBlocks : list Block; o1MaxFinalizedBlockNumber : ObsResult Z
}.
Record pbBlockT := mkPbBlock { pbNumber : Z; pbHash : list byte; pbTimestamp : Z }.
Record pbObservationV1T := mkPbObsV1 {
  po1BenchmarkPrice : option pbBigInt; po1Bid : option pbBigInt; po1Ask : option pbBigInt; po1CurrentBlockNum : Z; po1CurrentBlockHash : list byte;
  po1CurrentBlockTimestamp : Z; po1LatestBlocks : list pbBlockT; po1MaxFinalizedBlockNumber : Z
}.
Definition block (pb : pbBlockT) : Block := mkBlock (pbNumber pb) (pbHash pb) (pbTimestamp pb).
Definition pbBlock (b : Block) : pbBlockT := mkPbBlock (Num b) (Hash b) (Ts b).
Definition blocks (l : list pbBlockT) : list Block := block <$> l.
Definition pbBlocks (l : list Block) : list pbBlockT := pbBlock <$> l.
Definition pbObservationV1 (o : ObservationV1) : pbObservationV1T :=
  mkPbObsV1 (NewBigIntFromInt (Val (o1BenchmarkPrice o))) (NewBigIntFromInt (Val (o1Bid o))) (NewBigIntFromInt (Val (o1Ask o))) (Val (o1CurrentBlockNum o))
    (Val (o1CurrentBlockHash o)) (Val (o1CurrentBlockTimestamp o)) (pbBlocks (o1LatestBlocks o)) (Val (o1MaxFinalizedBlockNumber o)).
Definition observationV1 (r : pbObservationV1T) : ObservationV1 :=
  mkObsV1 (mkResult (Int (po1BenchmarkPrice r)) None) (mkResult (Int (po1Bid r)) None) (mkResult (Int (po1Ask r)) None) (mkResult (po1CurrentBlockNum r) None)
    (mkResult (po1CurrentBlockHash r) None) (mkResult (po1CurrentBlockTimestamp r) None) (blocks (po1LatestBlocks r)) (mkResult (po1MaxFinalizedBlockNumber r) None).

Record ObservationV2 := mkObsV2 {
  o2BenchmarkPrice : ObsResult (option Z); o2MaxFinalizedTimestamp : ObsResult Z; o2LinkPrice : ObsResult (option Z); o2NativePrice : ObsResult (option Z)
}.
Record pbObservationV2T := mkPbObsV2 { po2BenchmarkPrice : option pbBigInt; po2MaxFinalizedTimestamp : Z; po2LinkPrice : option pbBigInt; po2NativePrice : option pbBigInt }.
Definition pbObservationV2 (o : ObservationV2) : pbObservationV2T :=
  mkPbObsV2 (NewBigIntFromInt (Val (o2BenchmarkPrice o))) (Val (o2MaxFinalizedTimestamp o)) (NewBigIntFromInt (Val (o2LinkPrice o))) (NewBigIntFromInt (Val (o2NativePrice o))).
Definition observationV2 (r : pbObservationV2T) : ObservationV2 :=
  mkObsV2 (mkResult (Int (po2BenchmarkPrice r)) None) (mkResult (po2MaxFinalizedTimestamp r) None) (mkResult (Int (po2LinkPrice r)) None) (mkResult (Int (po2NativePrice r)) None).

Record ObservationV3 := mkObsV3 {
  o3BenchmarkPrice : ObsResult (option Z); o3Bid : ObsResult (option Z); o3Ask : ObsResult (option Z); o3MaxFinalizedTimestamp : ObsResult Z;
  o3LinkPrice : ObsResult (option Z); o3NativePrice : ObsResult (option Z)
}.
Record pbObservationV3T := mkPbObsV3 {
  po3BenchmarkPrice : option pbBigInt; po3Bid : option pbBigInt; po3Ask : option pbBigInt; po3MaxFinalizedTimestamp : Z; po3LinkPrice : option pbBigInt; po3NativePrice : option pbBigInt
}.
Definition pbObservationV3 (o : ObservationV3) : pbObservationV3T :=
  mkPbObsV3 (NewBigIntFromInt (Val (o3BenchmarkPrice o))) (NewBigIntFromInt (Val (o3Bid o))) (NewBigIntFromInt (Val (o3Ask o))) (Val (o3MaxFinalizedTimestamp o))
    (NewBigIntFromInt (Val (o3LinkPrice o))) (NewBigIntFromInt (Val (o3NativePrice o))).
Definition observationV3 (r : pbObservationV3T) : ObservationV3 :=
  mkObsV3 (mkResult (Int (po3BenchmarkPrice r)) None) (mkResult (Int (po3Bid r)) None) (mkResult (Int (po3Ask r)) None) (mkResult (po3MaxFinalizedTimestamp r) None)
    (mkResult (Int (po3LinkPrice r)) None) (mkResult (Int (po3NativePrice r)) None).

Record ObservationV4 := mkObsV4 {
  o4BenchmarkPrice : ObsResult (option Z); o4MaxFinalizedTimestamp : ObsResult Z; o4LinkPrice : ObsResult (option Z); o4NativePrice : ObsResult (option Z);
  o4MarketStatus : ObsResult Z
}.
Record pbObservationV4T := mkPbObsV4 {
  po4BenchmarkPrice : option pbBigInt; po4MaxFinalizedTimestamp : Z; po4LinkPrice : option pbBigInt; po4NativePrice : option pbBigInt; po4MarketStatus : Z
}.
Definition pbObservationV4 (o : ObservationV4) : pbObservationV4T :=
  mkPbObsV4 (NewBigIntFromInt (Val (o4BenchmarkPrice o))) (Val (o4MaxFinalizedTimestamp o)) (NewBigIntFromInt (Val (o4LinkPrice o))) (NewBigIntFromInt (Val (o4NativePrice o)))
    (Val (o4MarketStatus o)).
Definition observationV4 (r : pbObservationV4T) : ObservationV4 :=
  mkObsV4 (mkResult (Int (po4BenchmarkPrice r)) None) (mkResult (po4MaxFinalizedTimestamp r) None) (mkResult (Int (po4LinkPrice r)) None) (mkResult (Int (po4NativePrice r)) None)
    (mkResult (po4MarketStatus r) None).

(** What of an observation arrives: its values, with their errors cleared. *)
Definition clearedV1 (o : ObservationV1) : ObservationV1 :=
  mkObsV1 (withoutErr (o1BenchmarkPrice o)) (withoutErr (o1Bid o)) (withoutErr (o1Ask o)) (withoutErr (o1CurrentBlockNum o)) (withoutErr (o1CurrentBlockHash o))
    (withoutErr (o1CurrentBlockTimestamp o)) (o1LatestBlocks o) (withoutErr (o1MaxFinalizedBlockNumber o)).
Definition clearedV2 (o : ObservationV2) : ObservationV2 :=
  mkObsV2 (withoutErr (o2BenchmarkPrice o)) (withoutErr (o2MaxFinalizedTimestamp o)) (withoutErr (o2LinkPrice o)) (withoutErr (o2NativePrice o)).
Definition clearedV3 (o : ObservationV3) : ObservationV3 :=
  mkObsV3 (withoutErr (o3BenchmarkPrice o)) (withoutErr (o3Bid o)) (withoutErr (o3Ask o)) (withoutErr (o3MaxFinalizedTimestamp o)) (withoutErr (o3LinkPrice o)) (withoutErr (o3NativePrice o)).
Definition clearedV4 (o : ObservationV4) : ObservationV4 :=
  mkObsV4 (withoutErr (o4BenchmarkPrice o)) (withoutErr (o4MaxFinalizedTimestamp o)) (withoutErr (o4LinkPrice o)) (withoutErr (o4NativePrice o)) (withoutErr (o4MarketStatus o)).

(** *** Facts *)

Lemma fieldsV1_there f : reportFieldsV1 (pbReportFieldsV1 f) = f.
Proof. rewrite /reportFieldsV1 /= !Int_NewBigIntFromInt. by destruct f. Qed.
Lemma fieldsV2_there f : reportFieldsV2 (pbReportFieldsV2 f) = f.
Proof. rewrite /reportFieldsV2 /= !Int_NewBigIntFromInt. by destruct f. Qed.
Lemma fieldsV3_there f : reportFieldsV3 (pbReportFieldsV3 f) = f.
Proof. rewrite /reportFieldsV3 /= !Int_NewBigIntFromInt. by destruct f. Qed.
Lemma fieldsV4_there f : reportFieldsV4 (pbReportFieldsV4 f) = f.
Proof. rewrite /reportFieldsV4 /= !Int_NewBigIntFromInt. by destruct f. Qed.

Lemma blocks_there l : blocks (pbBlocks l) = l.
Proof. rewrite /blocks /pbBlocks -list_fmap_compose -{2}(list_fmap_id l). apply list_fmap_ext. by intros _ [] _. Qed.
Lemma observationV1_there o : observationV1 (pbObservationV1 o) = clearedV1 o.
Proof. by rewrite /observationV1 /= !Int_NewBigIntFromInt blocks_there. Qed.
Lemma observationV2_there o : observationV2 (pbObservationV2 o) = clearedV2 o.
Proof. by rewrite /observationV2 /= !Int_NewBigIntFromInt. Qed.
Lemma observationV3_there o : observationV3 (pbObservationV3 o) = clearedV3 o.
Proof. by rewrite /observationV3 /= !Int_NewBigIntFromInt. Qed.
Lemma observationV4_there o : observationV4 (pbObservationV4 o) = clearedV4 o.
Proof. by rewrite /observationV4 /= !Int_NewBigIntFromInt. Qed.

(** Blocks are strictly and totally ordered. *)
Lemma bytesCompare_trans a b c : bytesCompare a b = Gt → bytesCompare b c = Gt → bytesCompare a c = Gt.
Proof.
  revert b c. induction a as [|x a IH]; intros [|y b] [|z c]; cbn; try done.
  destruct (Z.compare_spec (Z_of_byte x) (Z_of_byte y)) as [H1|H1|H1], (Z.compare_spec (Z_of_byte y) (Z_of_byte z)) as [H2|H2|H2]; try done; intros Ha Hb.
  2,3,4: by (destruct (Z.compare_spec (Z_of_byte x) (Z_of_byte z)) as [H|H|H]; [lia..|]).
  destruct (Z.compare_spec (Z_of_byte x) (Z_of_byte z)) as [H|H|H]; [by eapply IH|lia..].
Qed.

Lemma Less_iff a b : Less a b = true ↔
  (Num a < Num b)%Z ∨ Num a = Num b ∧ ((Ts a < Ts b)%Z ∨ Ts a = Ts b ∧ bytesCompare (Hash a) (Hash b) = Gt).
Proof.
  rewrite /Less. case_bool_decide as Hn; cbn [andb]; [|rewrite bool_decide_eq_true; naive_solver lia]. case_bool_decide as Ht.
  - destruct (bytesCompare (Hash a) (Hash b)); naive_solver lia.
  - rewrite bool_decide_eq_true. naive_solver lia.
Qed.
Lemma Less_trans a b c : Less a b = true → Less b c = true → Less a c = true.
Proof. rewrite !Less_iff. pose proof (bytesCompare_trans (Hash a) (Hash b) (Hash c)). naive_solver lia. Qed.
Lemma Less_irrefl a : Less a a = false.
Proof. apply not_true_is_false. rewrite Less_iff. pose proof (proj2 (bytesCompare_Eq (Hash a) (Hash a)) eq_refl) as ->. naive_solver lia. Qed.
Lemma Less_total a b : Less a b = true ∨ a = b ∨ Less b a = true.
Proof.
  rewrite !Less_iff (bytesCompare_antisym (Hash a) (Hash b)). destruct (Z.lt_trichotomy (Num a) (Num b)) as [?|[Hn|?]]; [tauto| |tauto].
  destruct (Z.lt_trichotomy (Ts a) (Ts b)) as [?|[Ht|?]]; [tauto| |right; right; right; split; [done|by left]].
  destruct (bytesCompare (Hash a) (Hash b)) eqn:E; cbn; [|right; right; right; split; [done|by right]|left; right; split; [done|by right]]. apply bytesCompare_Eq in E. right; left. destruct a, b; cbn in *; congruence.
Qed.
End MercuryData.

(** *** Behind gRPC *)

Module MercuryRPC.
Import RemoteErrors.RemoteErrors ReportingRPC.ReportingRPC ContractWriterRPC.ContractWriterRPC MercuryData.
Abbreviation ReportTimestamp := OCR2RPC.OCR2RPC.ReportTimestamp.
Abbreviation timestampOK := OCR2RPC.OCR2RPC.timestampOK.
Abbreviation ReportTimestampToPb := OCR2RPC.OCR2RPC.ReportTimestampToPb.
Abbreviation ReportTimestampFromPb := OCR2RPC.OCR2RPC.ReportTimestampFromPb.

Section rpc.
Context `{GRPCStatus} {W : Type}.

(** *** Report codecs *)

(** The calls of a [ReportCodec]; the number in a report is its block in
    version 1 and its time in the others. *)
Inductive codecCall (Fields : Type) := BuildReport (fields : Fields) | MaxReportLength (n : Z) | NumberFromReport (report : list byte).
Inductive codecRequest (pbFields : Type) := BuildReportRequest (fields : pbFields) | MaxReportLengthRequest (numOracles : Z) | NumberFromReportRequest (report : list byte).
Inductive codecAnswer := AReport (report : list byte) | ANumber (n : Z).
#[global] Arguments BuildReport {_} _.
#[global] Arguments MaxReportLength {_} _.
#[global] Arguments NumberFromReport {_} _.
#[global] Arguments BuildReportRequest {_} _.
#[global] Arguments MaxReportLengthRequest {_} _.
#[global] Arguments NumberFromReportRequest {_} _.

(** The methods of a [ReportCodecServer]; the length is an int, uint64 on the
    wire. *)
Definition codecServer {Fields pbFields} (reportFields : pbFields → Fields) (impl : codecCall Fields → M (W:=W) codecAnswer) (req : codecRequest pbFields) : M (W:=W) codecAnswer :=
  match req with
  | BuildReportRequest fields => impl (BuildReport (reportFields fields))
  | MaxReportLengthRequest numOracles => reply (λ a, match a with ANumber n => ANumber (wrapU 64 n) | a => a end) (impl (MaxReportLength (wrapS 64 numOracles)))
  | NumberFromReportRequest report => impl (NumberFromReport report)
  end.
(** The methods of a [ReportCodecClient]: the number of oracles is not sent. *)
Definition codecClient {Fields pbFields} (pbReportFields : Fields → pbFields) (grpc : codecRequest pbFields → M (W:=W) codecAnswer) (c : codecCall Fields) : M (W:=W) codecAnswer :=
  match c with
  | BuildReport fields => grpc (BuildReportRequest (pbReportFields fields))
  | MaxReportLength n => reply (λ a, match a with ANumber n => ANumber (wrapS 64 n) | a => a end) (grpc (MaxReportLengthRequest 0))
  | NumberFromReport report => grpc (NumberFromReportRequest report)
  end.
Definition codecV1Server := codecServer reportFieldsV1.
Definition codecV1Client := codecClient pbReportFieldsV1.
Definition codecV2Server := codecServer reportFieldsV2.
Definition codecV2Client := codecClient pbReportFieldsV2.
Definition codecV3Server := codecServer reportFieldsV3.
Definition codecV3Client := codecClient pbReportFieldsV3.
Definition codecV4Server := codecServer reportFieldsV4.
Definition codecV4Client := codecClient pbReportFieldsV4.

(** *** Data sources *)

(** [DataSourceServer.Observe] and [DataSourceClient.Observe]; the client of
    version 1 does not [pass] on whether the maximal finalized block is asked
    for. *)
Definition observeServer {Obs pbObs} (pbObservation : Obs → pbObs) (impl : ReportTimestamp → bool → M (W:=W) Obs) (req : ReportTimestamp * bool) : M (W:=W) pbObs :=
  checked (ReportTimestampFromPb req.1) (λ timestamp, reply pbObservation (impl timestamp req.2)).
Definition observeClient {Obs pbObs} (pass : bool) (observation : pbObs → Obs) (grpc : ReportTimestamp * bool → M (W:=W) pbObs) (timestamp : ReportTimestamp) (fetchMaxFinalized : bool) : M (W:=W) Obs :=
  reply observation (grpc (ReportTimestampToPb timestamp, if pass then fetchMaxFinalized else false)).
Definition sourceV1Server := observeServer pbObservationV1.
Definition sourceV1Client := observeClient false observationV1.
Definition sourceV2Server := observeServer pbObservationV2.
Definition sourceV2Client := observeClient true observationV2.
Definition sourceV3Server := observeServer pbObservationV3.
Definition sourceV3Client := observeClient true observationV3.
Definition sourceV4Server := observeServer pbObservationV4.
Definition sourceV4Client := observeClient true observationV4.

(** *** service_fetcher.go, chain_reader.go, onchainconfig.go *)

Inductive fetcherCall := FetchInitialMaxFinalizedBlockNumber | LatestPrice (feedID : list byte) | LatestTimestamp.
Inductive fetcherAnswer := AInitial (n : option Z) | APrice (price : option Z) | ATimestamp (t : Z).
Inductive fetcherReply := RInitial (n : Z) | RPrice (price : option pbBigInt) | RTimestamp (t : Z).
Definition fetcherEncode (a : fetcherAnswer) : outcome error fetcherReply :=
  match a with
  | AInitial None => Err (EText "FetchInitialMaxFinalizedBlockNumber returned nil")
  | AInitial (Some n) => Ok (RInitial n)
  | APrice price => Ok (RPrice (NewBigIntFromInt price))
  | ATimestamp t => Ok (RTimestamp t)
  end.
Definition fetcherDecode (r : fetcherReply) : outcome error fetcherAnswer :=
  match r with RInitial n => Ok (AInitial (Some n)) | RPrice price => Ok (APrice (Int price)) | RTimestamp t => Ok (ATimestamp t) end.
(** The methods of [serverFetcherServer]; a request is a call. *)
Definition fetcherServer (impl : fetcherCall → M (W:=W) fetcherAnswer) (req : fetcherCall) : M (W:=W) fetcherReply :=
  match req with
  | LatestPrice feedID =>
      if decide (length feedID ≠ 32) then λ w, (Err (EText ("expected feed ID to be 32 bytes, got " ++ Itoa (Z.of_nat (length feedID)))%string), w)
      else turned fetcherEncode (impl (LatestPrice feedID))
  | c => turned fetcherEncode (impl c)
  end.
(** The methods of [serverFetcherClient]: the feed is not sent. *)
Definition fetcherClient (grpc : fetcherCall → M (W:=W) fetcherReply) (c : fetcherCall) : M (W:=W) fetcherAnswer :=
  match c with
  | FetchInitialMaxFinalizedBlockNumber => turned fetcherDecode (grpc FetchInitialMaxFinalizedBlockNumber)
  | LatestPrice feedID => turned fetcherDecode (grpc (LatestPrice []))
  | LatestTimestamp => turned fetcherDecode (grpc LatestTimestamp)
  end.

Record Head := mkHead { Number : Z; HeadHash : list byte; HeadTimestamp : Z }.
Definition pbHead (h : Head) : Z * list byte := (Number h, HeadHash h).
Definition headFromPb (h : Z * list byte) : Head := mkHead h.1 h.2 0.
Definition pbHeads (l : list Head) : list (Z * list byte) := pbHead <$> l.
Definition heads (l : list (Z * list byte)) : list Head := headFromPb <$> l.
Definition chainServer (impl : Z → M (W:=W) (list Head)) (numHeads : Z) : M (W:=W) (list (Z * list byte)) := reply pbHeads (impl (wrapS 64 numHeads)).
Definition chainClient (grpc : Z → M (W:=W) (list (Z * list byte))) (n : Z) : M (W:=W) (list Head) := reply heads (grpc (wrapS 64 n)).

Record OnchainConfig := mkOnchainConfig { Min : option Z; Max : option Z }.
Definition pbOnchainConfig (c : OnchainConfig) : option pbBigInt * option pbBigInt := (NewBigIntFromInt (Min c), NewBigIntFromInt (Max c)).
Definition onchainConfig (c : option pbBigInt * option pbBigInt) : OnchainConfig := mkOnchainConfig (Int c.1) (Int c.2).
Definition encodeServer (impl : OnchainConfig → M (W:=W) (list byte)) (req : option pbBigInt * option pbBigInt) : M (W:=W) (list byte) := impl (onchainConfig req).
Definition encodeClient (grpc : option pbBigInt * option pbBigInt → M (W:=W) (list byte)) (c : OnchainConfig) : M (W:=W) (list byte) := grpc (pbOnchainConfig c).
Definition decodeServer (impl : list byte → M (W:=W) OnchainConfig) (req : list byte) : M (W:=W) (option pbBigInt * option pbBigInt) := reply pbOnchainConfig (impl req).
Definition decodeClient (grpc : list byte → M (W:=W) (option pbBigInt * option pbBigInt)) (data : list byte) : M (W:=W) OnchainConfig := reply onchainConfig (grpc data).

(** *** Facts *)

(** What a codec behind gRPC is asked: the maximal length for no oracles. *)
Definition asked {Fields} (c : codecCall Fields) : codecCall Fields := match c with MaxReportLength n => MaxReportLength 0 | c => c end.
Definition codecAnswerOK (a : codecAnswer) : Prop := match a with ANumber n => inS 64 n | _ => True end.

Lemma codec_remote {Fields pbFields} (to : Fields → pbFields) (from : pbFields → Fields) (impl : codecCall Fields → M (W:=W) codecAnswer) cs w :
  (∀ f, from (to f) = f) → (∀ c, typed (impl c) codecAnswerOK) →
  execs (codecClient to (λ req, over (codecServer from impl req))) cs w = (sent <$> (execs impl (asked <$> cs) w).1, (execs impl (asked <$> cs) w).2).
Proof.
  intros Hf Ht. apply execs_related. rewrite Forall2_fmap_r. apply Forall_Forall2_diag, Forall_forall. intros c _ u.
  destruct c as [f|n|report]; cbn [codecClient codecServer asked]; rewrite /over /reply ?Hf.
  - by destruct (impl _ u).
  - replace (wrapS 64 0) with 0%Z by done. specialize (Ht (MaxReportLength 0) u). destruct (impl (MaxReportLength 0) u) as [[[report|m]|e|] u'] eqn:E; [done| |done..].
    cbn. rewrite wrapS_wrapU // wrapS_small //. by apply (Ht (ANumber m) u').
  - by destruct (impl _ u).
Qed.

(** A report codec of any version behind gRPC builds the same reports and reads
    the same numbers; the maximal length is asked for no oracles. *)
Lemma mercury_codecs_behind_rpc i1 i2 i3 i4 cs1 cs2 cs3 cs4 w :
  (∀ c, typed (i1 c) codecAnswerOK) → (∀ c, typed (i2 c) codecAnswerOK) → (∀ c, typed (i3 c) codecAnswerOK) → (∀ c, typed (i4 c) codecAnswerOK) →
  execs (codecV1Client (λ req, over (codecV1Server i1 req))) cs1 w = (sent <$> (execs i1 (asked <$> cs1) w).1, (execs i1 (asked <$> cs1) w).2) ∧
  execs (codecV2Client (λ req, over (codecV2Server i2 req))) cs2 w = (sent <$> (execs i2 (asked <$> cs2) w).1, (execs i2 (asked <$> cs2) w).2) ∧
  execs (codecV3Client (λ req, over (codecV3Server i3 req))) cs3 w = (sent <$> (execs i3 (asked <$> cs3) w).1, (execs i3 (asked <$> cs3) w).2) ∧
  execs (codecV4Client (λ req, over (codecV4Server i4 req))) cs4 w = (sent <$> (execs i4 (asked <$> cs4) w).1, (execs i4 (asked <$> cs4) w).2).
Proof.
  intros H1 H2 H3 H4. split_and!; apply codec_remote; [apply fieldsV1_there|done|apply fieldsV2_there|done|apply fieldsV3_there|done|apply fieldsV4_there|done].
Qed.

Lemma observe_remote {Obs pbObs} (to : Obs → pbObs) (from : pbObs → Obs) (cleared : Obs → Obs) pass impl ts fetch w :
  (∀ o, from (to o) = cleared o) → timestampOK ts →
  observeClient pass from (λ req, over (observeServer to impl req)) ts fetch w =
    (seenBack cleared (impl ts (if pass then fetch else false) w).1, (impl ts (if pass then fetch else false) w).2).
Proof.
  intros Ho Ht. rewrite /observeClient /observeServer /reply /over. cbn [fst snd]. rewrite OCR2RPC.OCR2RPC.timestamp_roundtrip // /checked.
  destruct (impl ts _ w) as [[o|e|] w']; cbn; by rewrite ?Ho.
Qed.

(** A data source behind gRPC observes what it observes, but for the errors of
    single values: their absent or zero values arrive as if they had been
    observed.  In version 1 the maximal finalized block is never asked for. *)
Lemma mercury_sources_behind_rpc i1 i2 i3 i4 ts fetch w : timestampOK ts →
  sourceV1Client (λ req, over (sourceV1Server i1 req)) ts fetch w = (seenBack clearedV1 (i1 ts false w).1, (i1 ts false w).2) ∧
  sourceV2Client (λ req, over (sourceV2Server i2 req)) ts fetch w = (seenBack clearedV2 (i2 ts fetch w).1, (i2 ts fetch w).2) ∧
  sourceV3Client (λ req, over (sourceV3Server i3 req)) ts fetch w = (seenBack clearedV3 (i3 ts fetch w).1, (i3 ts fetch w).2) ∧
  sourceV4Client (λ req, over (sourceV4Server i4 req)) ts fetch w = (seenBack clearedV4 (i4 ts fetch w).1, (i4 ts fetch w).2).
Proof.
  intros Ht. split_and!; [apply (observe_remote _ _ _ false)|apply (observe_remote _ _ _ true)..]; try done;
    [apply observationV1_there|apply observationV2_there|apply observationV3_there|apply observationV4_there].
Qed.

(** The price of a feed is never asked for: every call fails, for want of the
    feed's identifier. *)
Lemma price_never_fetched impl feedID w :
  fetcherClient (λ req, over (fetcherServer impl req)) (LatestPrice feedID) w = (Err (arrived (EText "expected feed ID to be 32 bytes, got 0")), w).
Proof. by vm_compute. Qed.

(** The other calls of the fetcher arrive; without an initial block there is an
    error instead of an absent number. *)
Lemma fetcher_behind_rpc impl c w : (∀ id, c ≠ LatestPrice id) →
  fetcherClient (λ req, over (fetcherServer impl req)) c w =
    (match (impl c w).1 with
     | Ok (AInitial None) => Err (arrived (EText "FetchInitialMaxFinalizedBlockNumber returned nil"))
     | r => sent r
     end, (impl c w).2).
Proof.
  intros Hc. destruct c as [|id|]; [| |]; [|by destruct (Hc id)|]; cbn [fetcherClient fetcherServer]; rewrite /turned /over;
    destruct (impl _ w) as [[[[n|]|price|t]|e|] w']; cbn; by rewrite ?Int_NewBigIntFromInt.
Qed.

(** Heads arrive without their times. *)
Lemma chain_behind_rpc impl n w : inS 64 n →
  chainClient (λ req, over (chainServer impl req)) n w = (seenBack (fmap (λ h, mkHead (Number h) (HeadHash h) 0)) (impl n w).1, (impl n w).2).
Proof.
  intros Hn. rewrite /chainClient /chainServer /reply /over wrapS_wrapS // wrapS_small //. destruct (impl n w) as [[l|e|] w']; cbn; [|done..].
  by rewrite /heads /pbHeads -list_fmap_compose.
Qed.

Lemma onchain_behind_rpc enc dec c data w :
  encodeClient (λ req, over (encodeServer enc req)) c w = (sent (enc c w).1, (enc c w).2) ∧
  decodeClient (λ req, over (decodeServer dec req)) data w = (sent (dec data w).1, (dec data w).2).
Proof.
  rewrite /encodeClient /encodeServer /decodeClient /decodeServer /reply /over. assert (∀ c, onchainConfig (pbOnchainConfig c) = c) as Ho.
  { intros []. by rewrite /onchainConfig /= !Int_NewBigIntFromInt. }
  rewrite Ho. split; [by destruct (enc c w)|]. destruct (dec data w) as [[o|e|] w']; cbn; by rewrite ?Ho.
Qed.
End rpc.
End MercuryRPC.

(** *** Plugins: mercury_reporting.go *)

Module MercuryPlugin.
Import RemoteErrors.RemoteErrors ReportingRPC.ReportingRPC MercuryRPC.

Inductive pluginCall :=
  | Observation (timestamp : ReportTimestamp) (previous : list byte)
  | Report (timestamp : ReportTimestamp) (previousReport : list byte) (obs : list AttributedObservation)
  | Close.
Inductive pluginAnswer := AObservation (o : list byte) | AShould (shouldReport : bool) (report : list byte) | AClosed.
Inductive pluginRequest :=
  | ObservationRequest (timestamp : ReportTimestamp) (previous : list byte)
  | ReportRequest (timestamp : ReportTimestamp) (previousReport : list byte) (obs : list pbAO)
  | CloseRequest.

(** Unlike those of the other plugins, the server's conversion does not check
    that an oracle's number is a uint8. *)
Definition mercurypbAttributedObservations (obs : list AttributedObservation) : list pbAO := (λ o, mkPbAO (ReportingRPC.Observation o) (wrapU 32 (Observer o))) <$> obs.
Definition mercuryattributedObservations (obs : list pbAO) : list AttributedObservation := (λ o, mkAO (pbObservation o) (wrapU 8 (pbObserver o))) <$> obs.

(** [MercuryPluginConfig] and [MercuryPluginInfo]. *)
Record Config := mkConfig {
  cfgDigest : list byte; OracleID : Z; N : Z; F : Z; OnchainConfig : list byte; OffchainConfig : list byte; EstimatedRoundInterval : Z; MaxDurationObservation : Z
}.
Record PluginInfo := mkInfo { Name : string; MaxObservationLength : Z; MaxReportLength : Z }.
Definition configWith (fid fint fdur : Z → Z) (c : Config) : Config :=
  mkConfig (cfgDigest c) (fid (OracleID c)) (fint (N c)) (fint (F c)) (OnchainConfig c) (OffchainConfig c) (fdur (EstimatedRoundInterval c)) (fdur (MaxDurationObservation c)).
Definition toConfig : Config → Config := configWith (wrapU 32) (wrapU 32) (wrapS 64).
(** The digest is converted to an array, which panics on fewer than 32 bytes,
    before its length is checked. *)
Definition fromConfig (c : Config) : outcome error Config :=
  if decide (length (cfgDigest c) < 32) then Panic
  else if decide (length (cfgDigest c) ≠ 32) then Err (ErrConfigDigestLen (length (cfgDigest c)))
  else Ok (configWith (wrapU 8) (wrapS 64) (wrapS 64) c).
Definition limitsWith (f : Z → Z) (i : PluginInfo) : PluginInfo := mkInfo (Name i) (f (MaxObservationLength i)) (f (MaxReportLength i)).
Definition toInfo : PluginInfo → PluginInfo := limitsWith (wrapU 64).
Definition fromInfo : PluginInfo → PluginInfo := limitsWith (wrapS 64).

Section plugin.
Context `{GRPCStatus} {W : Type}.
Definition Plugin : Type := pluginCall → M (W:=W) pluginAnswer.

(** The methods of [mercuryPluginServer]. *)
Definition pluginServer (impl : Plugin) (req : pluginRequest) : M (W:=W) pluginAnswer :=
  match req with
  | ObservationRequest ts previous => checked (ReportTimestampFromPb ts) (λ rts, impl (Observation rts previous))
  | ReportRequest ts previous obs => checked (ReportTimestampFromPb ts) (λ rts, impl (Report rts previous (mercuryattributedObservations obs)))
  | CloseRequest => impl Close
  end.
(** The methods of [mercuryPluginClient]. *)
Definition pluginClient (grpc : pluginRequest → M (W:=W) pluginAnswer) (c : pluginCall) : M (W:=W) pluginAnswer :=
  match c with
  | Observation ts previous => grpc (ObservationRequest (ReportTimestampToPb ts) previous)
  | Report ts previous obs => grpc (ReportRequest (ReportTimestampToPb ts) previous (mercurypbAttributedObservations obs))
  | Close => grpc CloseRequest
  end.
Definition pluginRemote (impl : Plugin) : Plugin := pluginClient (λ req, over (pluginServer impl req)).

(** [NewMercuryPlugin] of the factory's server and client. *)
Definition remoteFactory (dialErr : error) (impl : Factory (W:=W) (Cfg:=Config) (Info:=PluginInfo) (P:=Plugin)) :=
  clientNewReportingPlugin toConfig fromInfo pluginRemote dialErr (serverNewReportingPlugin fromConfig toInfo impl None).

Definition pluginCallOK (c : pluginCall) : Prop :=
  match c with Observation ts _ => timestampOK ts | Report ts _ obs => timestampOK ts ∧ Forall aoOK obs | Close => True end.
Definition configOK (c : Config) : Prop :=
  length (cfgDigest c) = 32 ∧ inU 8 (OracleID c) ∧ inU 32 (N c) ∧ inU 32 (F c) ∧ inS 64 (EstimatedRoundInterval c) ∧ inS 64 (MaxDurationObservation c).
Definition infoOK (i : PluginInfo) : Prop := inS 64 (MaxObservationLength i) ∧ inS 64 (MaxReportLength i).

Lemma mercury_aos_there obs : Forall aoOK obs → mercuryattributedObservations (mercurypbAttributedObservations obs) = obs.
Proof.
  intros Ho. rewrite /mercuryattributedObservations /mercurypbAttributedObservations -list_fmap_compose. induction Ho as [|o obs Ho _ IH]; [done|].
  cbn. rewrite IH. f_equal. unfold aoOK, inU in Ho. rewrite (wrapU_small 32); [|unfold inU; lia]. rewrite wrapU_small //. by destruct o.
Qed.

Lemma plugin_remote_call impl c : pluginCallOK c → behindRPC impl (pluginRemote impl) c.
Proof.
  intros Hc w. destruct c as [ts previous|ts previous obs|]; cbn [pluginRemote pluginClient pluginServer]; rewrite /pluginRemote /over /checked; cbn [pluginClient pluginServer].
  - rewrite /checked OCR2RPC.OCR2RPC.timestamp_roundtrip //. by destruct (impl _ w).
  - destruct Hc as [Ht Ho]. rewrite /checked OCR2RPC.OCR2RPC.timestamp_roundtrip // mercury_aos_there //. by destruct (impl _ w).
  - by destruct (impl _ w).
Qed.

Lemma mercury_config_there c : configOK c → fromConfig (toConfig c) = Ok c.
Proof.
  intros (Hd & Ho & Hn & Hf & He & Hm). rewrite /fromConfig /toConfig /configWith /=. rewrite decide_False; [|lia]. rewrite decide_False; [|lia].
  rewrite !wrapS_wrapS // !(wrapS_small 64) // ?(wrapU_small 32) // ?wrapU_small //; unfold inU, inS in *; try lia. by destruct c.
Qed.

(** A Mercury plugin that is made behind gRPC is the plugin that the factory
    makes of the same configuration: it has the same name and limits and answers
    every sequence of calls as the plugin itself does, errors as their
    statuses. *)
Lemma mercury_plugin_behind_rpc dialErr impl cfg b w : configOK cfg →
  let '(r, w') := impl cfg w in
  match r with
  | Ok (rp, rpi) =>
      infoOK rpi → ∃ client, remoteFactory dialErr impl cfg (b, w) = (Ok (client, rpi), (b ++ [rp], w')) ∧
        ∀ cs u, Forall pluginCallOK cs → execs client cs u = (sent <$> (execs rp cs u).1, (execs rp cs u).2)
  | Err e => remoteFactory dialErr impl cfg (b, w) = (Err (arrived e), (b, w'))
  | Panic => remoteFactory dialErr impl cfg (b, w) = (Panic, (b, w'))
  end.
Proof.
  intros Hc. pose proof (factory_remote toConfig fromConfig toInfo fromInfo pluginRemote dialErr impl cfg b w (mercury_config_there cfg Hc)) as Hr.
  rewrite /remoteFactory Hr. destruct (impl cfg w) as [[[rp rpi]|e|] w']; [|done..]. intros [H1 H2]. exists (pluginRemote rp). split.
  - rewrite /fromInfo /toInfo /limitsWith /= !wrapS_wrapU // !wrapS_small //. by destruct rpi.
  - intros cs u Hcs. apply execs_behindRPC. eapply Forall_impl; [exact Hcs|]. intros c. apply plugin_remote_call.
Qed.
End plugin.

(** An oracle with a number of more than 8 bits is taken for another one, which
    the other plugins refuse; a digest that is too short is a panic. *)
Example observer_cut b : mercuryattributedObservations [mkPbAO b 256] = [mkAO b 0] ∧ attributedObservations [mkPbAO b 256] = Err (ErrUint8Bounds "Observer" 256).
Proof. done. Qed.
Lemma short_digest_panics c : length (cfgDigest c) < 32 → fromConfig c = Panic.
Proof. intros Hd. rewrite /fromConfig. by rewrite decide_True. Qed.
End MercuryPlugin.

(** *** What makes plugin factories: mercury.go *)

Module MercuryAdapter.
Import RemoteErrors.RemoteErrors CCIPReaders.CCIPData.

Inductive version := V1 | V2 | V3 | V4.
Definition number (v : version) : string := match v with V1 => "1" | V2 => "2" | V3 => "3" | V4 => "4" end.

(** What is dialled, closed and served, in order. *)
Inductive event := Dialled (name : string) (id : Z) | Closed (name : string) | Served (name : string) (deps : list string).
#[global] Instance adapter_event_eq_dec : EqDecision event.
Proof. solve_decision. Defined.

Section adapter.
Context `{GRPCStatus}.

(** [ErrConnDial] and [ErrConnAccept]. *)
Definition ErrConnDial (name : string) (id : Z) (e : error) : error := wrapf ("failed to dial " ++ name ++ " client connection " ++ Itoa id ++ ": ") e.
Definition ErrConnAccept (name : string) (id : Z) (e : error) : error := wrapf ("failed to accept " ++ name ++ " server connection " ++ Itoa id ++ ": ") e.

(** [ServeNew]: what the server is to close is closed if it does not serve. *)
Definition ServeNew (name : string) (id : Z) (acceptErr : option error) (deps : list string) : outcome error Z * list event :=
  match acceptErr with
  | Some e => (Err (ErrConnAccept name id e), Closed <$> deps)
  | None => (Ok id, [Served name deps])
  end.

(** [AdapterClient.NewMercuryV1Factory] to [NewMercuryV4Factory]: the data source
    and the provider are served to the plugin.  What is given back is to be
    closed with the connection; when a step fails it is nothing. *)
Definition newMercuryClientFn (dataSourceID providerID : Z) (acceptSource acceptProvider : option error) (request : Z → Z → outcome error Z) : outcome error Z * list string * list event :=
  let '(r, ev) := ServeNew "DataSource" dataSourceID acceptSource [] in
  match r with
  | Err e => (Err e, [], ev)
  | Panic => (Panic, [], ev)
  | Ok dataSourceID =>
      let '(r, ev') := ServeNew "MercuryProvider" providerID acceptProvider [] in
      match r with
      | Err e => (Err e, [], ev ++ ev')
      | Panic => (Panic, [], ev ++ ev')
      | Ok providerID =>
          match request providerID dataSourceID with
          | Ok id => (Ok id, ["DataSource"; "MercuryProvider"], ev ++ ev')
          | Err e => (Err e, [], ev ++ ev')
          | Panic => (Panic, [], ev ++ ev')
          end
      end
  end.

(** The name in the error for version 4 is that of version 3. *)
Definition sourceName (v : version) : string := ("DataSourceV" ++ number v)%string.
Definition dialledName (v : version) : string := match v with V4 => "DataSourceV3" | v => sourceName v end.

(** [AdapterServer.NewMercuryV1Factory] to [NewMercuryV4Factory]: what was
    dialled is closed when the function returns with an error. *)
Definition NewMercuryFactory (v : version) (dataSourceID providerID factoryID : Z) (dialSource dialProvider : option error) (impl : outcome error ()) (acceptErr : option error) :
    outcome error Z * list event :=
  match dialSource with
  | Some e => (Err (ErrConnDial (dialledName v) dataSourceID e), [])
  | None =>
      let ev := [Dialled (sourceName v) dataSourceID] in
      match dialProvider with
      | Some e => (Err (ErrConnDial "MercuryProvider" providerID e), ev ++ [Closed (sourceName v)])
      | None =>
          let ev := ev ++ [Dialled "MercuryProvider" providerID] in
          let deps := [sourceName v; "MercuryProvider"] in
          match impl with
          | Err e => (Err (wrapf ("failed to create MercuryV" ++ number v ++ "Factory: ") e), ev ++ (Closed <$> deps))
          | Panic => (Panic, ev)
          | Ok _ =>
              let '(r, ev') := ServeNew ("MercuryV" ++ number v ++ "Factory") factoryID acceptErr deps in
              match r with
              | Err e => (Err (wrapf ("failed to create new v" ++ number v ++ " factory server: ") e), ev ++ ev' ++ (Closed <$> deps))
              | r => (r, ev ++ ev')
              end
          end
      end
  end.

(** A connection that was dialled for a factory is closed, or belongs to the
    factory's server: none is leaked, and none that is served is closed. *)
Lemma adapter_closes v ds p f dialS dialP impl acc r ev : impl ≠ Panic →
  NewMercuryFactory v ds p f dialS dialP impl acc = (r, ev) →
  ∀ name id, Dialled name id ∈ ev → (Closed name ∈ ev ↔ ¬ ∃ m deps, Served m deps ∈ ev ∧ name ∈ deps).
Proof.
  intros Hi. rewrite /NewMercuryFactory /ServeNew. destruct dialS; [intros [= <- <-] n id Hn; by apply elem_of_nil in Hn|].
  destruct dialP; [|destruct impl as [[]|e|]; [destruct acc| |done]]; intros [= <- <-] n id Hn;
    repeat (apply elem_of_cons in Hn as [Hn|Hn]; [try done; injection Hn as -> ->|]); try (by apply elem_of_nil in Hn); cbn [fmap list_fmap app].
  all: split; [intros Hc (m & deps & Hs & Hd)|intros Hs]; set_unfold; try naive_solver; exfalso; apply Hs.
  all: by eexists _, [sourceName v; "MercuryProvider"]; split; [right; right; left; reflexivity|rewrite !elem_of_cons; tauto].
Qed.

(** If the factory's server is not accepted, both connections are closed
    twice: by [ServeNew] and on return. *)
Lemma factory_closed_twice v ds p f e : filter (λ ev, ev = Closed "MercuryProvider") (NewMercuryFactory v ds p f None None (Ok ()) (Some e)).2 = [Closed "MercuryProvider"; Closed "MercuryProvider"].
Proof. by destruct v. Qed.

(** The client gives back what it serves only if the request succeeds: otherwise
    the data source, and the provider, go on being served. *)
Lemma sources_left ds p accS accP req r deps ev : newMercuryClientFn ds p accS accP req = (r, deps, ev) →
  (∀ n, n ∈ deps → Served n [] ∈ ev) ∧ ((∃ id, r = Ok id) ∨ deps = []) ∧
  (accS = None → accP = None → ev = [Served "DataSource" []; Served "MercuryProvider" []]).
Proof.
  rewrite /newMercuryClientFn /ServeNew. destruct accS; [intros [= <- <- <-]; set_solver|]. destruct accP; [intros [= <- <- <-]; set_solver|].
  destruct (req p ds); intros [= <- <- <-]; set_solver.
Qed.
End adapter.
End MercuryAdapter.
