(* ===== verification/MedianRPC.v ===== *)
(** [src/pkg/loop/internal/relayer/pluginprovider/ext/median/median.go] and
    [src/pkg/loop/internal/reportingplugin/median]: the parts of a median
    provider and the data sources behind gRPC, and the calls that make median
    factories, with what they dial, serve and close.

    A time arrives in UTC, as its Unix seconds and nanoseconds; an absent big
    integer is [None]. *)

From S2P Require Import Prelude GoBytes GoStrings ContractWriterRPC ReportingRPC OCR2RPC RemoteErrors CCIPReaders MercuryRPC.

Module MedianRPC.
Import RemoteErrors.RemoteErrors ReportingRPC.ReportingRPC ContractWriterRPC.ContractWriterRPC CCIPReaders.CCIPData.
Abbreviation ReportTimestamp := OCR2RPC.OCR2RPC.ReportTimestamp.

(** *** Data *)

Record ParsedAttributedObservation := mkParsed { pTimestamp : Z; pValue : option Z; JuelsPerFeeCoin : option Z; GasPriceSubunits : option Z; pObserver : Z }.
Record pbParsed := mkPbParsed { pbpTimestamp : Z; pbValue : option pbBigInt; pbJulesPerFeeCoin : option pbBigInt; pbGasPriceSubunits : option pbBigInt; pbpObserver : Z }.
Definition pbObservation (o : ParsedAttributedObservation) : pbParsed :=
  mkPbParsed (pTimestamp o) (NewBigIntFromInt (pValue o)) (NewBigIntFromInt (JuelsPerFeeCoin o)) (NewBigIntFromInt (GasPriceSubunits o)) (wrapU 32 (pObserver o)).
Definition observation (o : pbParsed) : outcome error ParsedAttributedObservation :=
  if decide (255 < pbpObserver o)%Z then Err (ErrUint8Bounds "Observer" (pbpObserver o))
  else Ok (mkParsed (pbpTimestamp o) (Int (pbValue o)) (Int (pbJulesPerFeeCoin o)) (Int (pbGasPriceSubunits o)) (wrapU 8 (pbpObserver o))).

(** The latest transmission: digests have 32 bytes, rounds are uint8. *)
Record details := mkDetails { dDigest : list byte; dEpoch : Z; dRound : Z; LatestAnswer : option Z; LatestTime : time }.
Record roundRequested := mkRound { rDigest : list byte; rEpoch : Z; rRound : Z }.

(** The calls of the [ReportCodec], the [MedianContract] and the
    [OnchainConfigCodec] of a provider, and of a data source. *)
Inductive call :=
  | BuildReport (observations : list ParsedAttributedObservation)
  | MedianFromReport (report : list byte)
  | MaxReportLength (n : Z)
  | LatestTransmissionDetails
  | LatestRoundRequested (lookback : Z)
  | Encode (min max : option Z)
  | Decode (encoded : list byte)
  | Observe (timestamp : ReportTimestamp)
  | SaveError (msg : string).
Inductive answer :=
  | ABytes (b : list byte) | AInt (i : option Z) | ALength (n : Z) | ADetails (d : details) | ARound (r : roundRequested) | AConfig (min max : option Z) | ASaved.
Inductive request :=
  | BuildReportRequest (observations : list pbParsed)
  | MedianFromReportRequest (report : list byte)
  | MaxReportLengthRequest (n : Z)
  | LatestTransmissionDetailsRequest
  | LatestRoundRequestedRequest (lookback : Z)
  | EncodeRequest (min max : option pbBigInt)
  | DecodeRequest (encoded : list byte)
  | ObserveRequest (timestamp : ReportTimestamp)
  | SaveErrorRequest (msg : string).

Section rpc.
Context `{GRPCStatus, !TimestampPb} {W : Type}.

Inductive rep :=
  | RBytes (b : list byte) | RInt (i : option pbBigInt) | RLength (n : Z)
  | RDetails (digest : list byte) (epoch round : Z) (latestAnswer : option pbBigInt) (latestTimestamp : pbTimestamp)
  | RRound (digest : list byte) (epoch round : Z) | RConfig (min max : option pbBigInt) | RSaved.

Definition medianEncode (a : answer) : outcome error rep :=
  match a with
  | ABytes b => Ok (RBytes b)
  | AInt i => Ok (RInt (NewBigIntFromInt i))
  | ALength n => Ok (RLength (wrapS 64 n))
  | ADetails d => Ok (RDetails (dDigest d) (dEpoch d) (wrapU 32 (dRound d)) (NewBigIntFromInt (LatestAnswer d)) (timestampNew (LatestTime d)))
  | ARound r => Ok (RRound (rDigest r) (rEpoch r) (wrapU 32 (rRound r)))
  | AConfig min max => Ok (RConfig (NewBigIntFromInt min) (NewBigIntFromInt max))
  | ASaved => Ok RSaved
  end.

(** The digest and the round of a reply; the fields that are set before an
    error is returned are left out. *)
Definition checkRound (digest : list byte) (round : Z) : outcome error Z :=
  if decide (length digest ≠ 32) then Err (EText ("expected ConfigDigest length 32 but got " ++ Itoa (Z.of_nat (length digest)))%string)
  else if decide (255 < round)%Z then Err (ErrUint8Bounds "Round" round) else Ok (wrapU 8 round).
Definition medianDecode (r : rep) : outcome error answer :=
  match r with
  | RBytes b => Ok (ABytes b)
  | RInt i => Ok (AInt (Int i))
  | RLength n => Ok (ALength (wrapS 64 n))
  | RDetails digest epoch round ans t => let? round := checkRound digest round in Ok (ADetails (mkDetails digest epoch round (Int ans) (AsTime t)))
  | RRound digest epoch round => let? round := checkRound digest round in Ok (ARound (mkRound digest epoch round))
  | RConfig min max => Ok (AConfig (Int min) (Int max))
  | RSaved => Ok ASaved
  end.

Definition Provider : Type := call → M (W:=W) answer.

(** The methods of [reportCodecServer], [medianContractServer],
    [onchainConfigCodecServer], [dataSourceServer] and the error log's server. *)
Definition medianServer (impl : Provider) (req : request) : M (W:=W) rep :=
  match req with
  | BuildReportRequest l => checked (omapM observation l) (λ obs, turned medianEncode (impl (BuildReport obs)))
  | MedianFromReportRequest report => turned medianEncode (impl (MedianFromReport report))
  | MaxReportLengthRequest n => turned medianEncode (impl (MaxReportLength (wrapS 64 n)))
  | LatestTransmissionDetailsRequest => turned medianEncode (impl LatestTransmissionDetails)
  | LatestRoundRequestedRequest lookback => turned medianEncode (impl (LatestRoundRequested (wrapS 64 lookback)))
  | EncodeRequest min max => turned medianEncode (impl (Encode (Int min) (Int max)))
  | DecodeRequest encoded => turned medianEncode (impl (Decode encoded))
  | ObserveRequest ts => checked (OCR2RPC.OCR2RPC.ReportTimestampFromPb ts) (λ ts, turned medianEncode (impl (Observe ts)))
  | SaveErrorRequest msg => turned medianEncode (impl (SaveError msg))
  end.
(** The methods of their clients. *)
Definition medianClient (grpc : request → M (W:=W) rep) (c : call) : M (W:=W) answer :=
  match c with
  | BuildReport obs => turned medianDecode (grpc (BuildReportRequest (pbObservation <$> obs)))
  | MedianFromReport report => turned medianDecode (grpc (MedianFromReportRequest report))
  | MaxReportLength n => turned medianDecode (grpc (MaxReportLengthRequest (wrapS 64 n)))
  | LatestTransmissionDetails => turned medianDecode (grpc LatestTransmissionDetailsRequest)
  | LatestRoundRequested lookback => turned medianDecode (grpc (LatestRoundRequestedRequest (wrapS 64 lookback)))
  | Encode min max => turned medianDecode (grpc (EncodeRequest (NewBigIntFromInt min) (NewBigIntFromInt max)))
  | Decode encoded => turned medianDecode (grpc (DecodeRequest encoded))
  | Observe ts => turned medianDecode (grpc (ObserveRequest (OCR2RPC.OCR2RPC.ReportTimestampToPb ts)))
  | SaveError msg => turned medianDecode (grpc (SaveErrorRequest msg))
  end.
Definition medianRemote (impl : Provider) : Provider := medianClient (λ req, over (medianServer impl req)).

(** [RmUnimplemented]: which of the contract reader and the codec is kept, by
    the errors of a call of each. *)
Definition kept (err : option error) : bool := match err with None => true | Some e => bool_decide ((Convert e).1 ≠ Unimplemented) end.
Definition RmUnimplemented (readerErr codecErr : option error) : bool * bool := (kept readerErr, kept codecErr).

(** *** Facts *)

Definition medianCallOK (c : call) : Prop :=
  match c with
  | BuildReport obs => Forall (λ o, inU 8 (pObserver o)) obs
  | MaxReportLength n | LatestRoundRequested n => inS 64 n
  | Observe ts => OCR2RPC.OCR2RPC.timestampOK ts
  | _ => True
  end.
Definition medianAnswerOK (a : answer) : Prop :=
  match a with
  | ALength n => inS 64 n
  | ADetails d => length (dDigest d) = 32 ∧ inU 8 (dRound d) ∧ timeOK (LatestTime d)
  | ARound r => length (rDigest r) = 32 ∧ inU 8 (rRound r)
  | _ => True
  end.

Lemma u8_there z : inU 8 z → wrapU 8 (wrapU 32 z) = z ∧ ¬ (255 < wrapU 32 z)%Z.
Proof. unfold inU. intros Hz. rewrite (wrapU_small 32); [|unfold inU; lia]. rewrite wrapU_small //. lia. Qed.

Lemma observations_there obs : Forall (λ o, inU 8 (pObserver o)) obs → omapM observation (pbObservation <$> obs) = Ok obs.
Proof.
  intros Ho. apply omapM_Forall2. rewrite Forall2_fmap_l. induction Ho as [|o obs [Hw Hn]%u8_there _ IH]; constructor; [|done].
  rewrite /observation /pbObservation /= decide_False // Hw !Int_NewBigIntFromInt. by destruct o.
Qed.

Lemma round_there digest round : length digest = 32 → inU 8 round → checkRound digest (wrapU 32 round) = Ok round.
Proof. intros Hd [Hw Hn]%u8_there. rewrite /checkRound decide_False; [|lia]. by rewrite decide_False // Hw. Qed.

Lemma median_answer_back a : medianAnswerOK a → ∃ r, medianEncode a = Ok r ∧ medianDecode r = Ok (id a).
Proof.
  intros Ha. destruct a as [b|i|n|d|r|min max|]; (eexists; split; [reflexivity|]); cbn [medianDecode id]; rewrite ?Int_NewBigIntFromInt //.
  - rewrite wrapS_wrapS // wrapS_small //.
  - destruct Ha as (Hd & Hr & Ht). rewrite round_there // AsTime_New //. by destruct d.
  - destruct Ha as [Hd Hr]. rewrite round_there //. by destruct r.
Qed.

(** A median provider and its data sources behind gRPC answer every sequence of
    calls as they do directly: numbers of either sign, rounds, digests and times
    arrive unchanged, errors as their statuses. *)
Lemma median_behind_rpc (impl : Provider) cs w : Forall medianCallOK cs → (∀ c, typed (impl c) medianAnswerOK) →
  execs (medianRemote impl) cs w = (sent <$> (execs impl cs w).1, (execs impl cs w).2).
Proof.
  intros Hc Ht. apply execs_behindRPC. eapply Forall_impl; [exact Hc|]. clear cs Hc w. intros c Hc w.
  assert (∀ m : M (W:=W) answer, typed m medianAnswerOK → turned medianDecode (over (turned medianEncode m)) w = (sent (m w).1, (m w).2)) as Hover.
  { intros m Hm. rewrite (turned_over medianEncode medianDecode id medianAnswerOK m w Hm median_answer_back). by destruct (m w) as [[] ?]. }
  destruct c as [obs|report|n| |n|min max|b|ts|msg]; cbn [medianRemote medianClient medianServer]; rewrite /medianRemote; cbn [medianClient medianServer];
    rewrite ?observations_there // ?OCR2RPC.OCR2RPC.timestamp_roundtrip // ?wrapS_wrapS // ?wrapS_small // ?Int_NewBigIntFromInt /checked; apply Hover, Ht.
Qed.
End rpc.
End MedianRPC.

(** *** What makes median factories: median.go *)

Module MedianAdapter.
Import RemoteErrors.RemoteErrors CCIPReaders.CCIPData MercuryRPC.MercuryAdapter.

Section adapter.
Context `{GRPCStatus}.

(** The connections of a request. *)
Record factoryRequest := mkRequest {
  MedianProviderID : Z; ContractID : string; DataSourceID : Z; JuelsPerFeeCoinDataSourceID : Z; ErrorLogID : Z; GasPriceSubunitsDataSourceID : Z;
  DeviationFuncDefinition : list byte
}.

(** The connections are dialled in turn; what was dialled is closed when one of
    them cannot be. *)
Fixpoint dialInTurn (dial : Z → option error) (opened : list string) (todo : list (string * Z)) : outcome error (list string) * list event :=
  match todo with
  | [] => (Ok opened, [])
  | (name, id) :: todo =>
      match dial id with
      | Some e => (Err (ErrConnDial name id e), Closed <$> opened)
      | None => let '(r, ev) := dialInTurn dial (opened ++ [name]) todo in (r, Dialled name id :: ev)
      end
  end.

(** [json.Unmarshal] of a text into a map that is not behind a pointer: the
    text is checked, and the map refused. *)
Definition UnmarshalIntoMap (checkValid : list byte → option error) (data : list byte) : error :=
  default (EText "json: Unmarshal(non-pointer map[string]interface {})") (checkValid data).

(** [pluginMedianServer.NewMedianFactory] *)
Definition NewMedianFactory (dial : Z → option error) (checkValid : list byte → option error) (impl : string → outcome error ()) (factoryID : Z) (acceptErr : option error) (req : factoryRequest) :
    outcome error Z * list event :=
  let '(r, ev) := dialInTurn dial [] [("DataSource", DataSourceID req); ("JuelsPerFeeCoinDataSource", JuelsPerFeeCoinDataSourceID req);
                                      ("GasPriceSubunitsDataSource", GasPriceSubunitsDataSourceID req); ("MedianProvider", MedianProviderID req); ("ErrorLog", ErrorLogID req)] in
  match r with
  | Err e => (Err e, ev)
  | Panic => (Panic, ev)
  | Ok deps =>
      if decide (0 < length (DeviationFuncDefinition req)) then
        (Err (wrapf "failed to unmarshal deviationFuncDefinition: " (UnmarshalIntoMap checkValid (DeviationFuncDefinition req))), ev ++ (Closed <$> deps))
      else match impl (ContractID req) with
           | Err e => (Err e, ev ++ (Closed <$> deps))
           | Panic => (Panic, ev)
           | Ok _ => let '(r, ev') := ServeNew "ReportingPluginProvider" factoryID acceptErr deps in (r, ev ++ ev')
           end
  end.

(** [PluginMedianClient.NewMedianFactory], when the connection is made: the data
    sources, the provider and the error log are served to the plugin, in this
    order, and nothing is given back to be closed. *)
Fixpoint serveInTurn (accept : string → Z → option error) (todo : list (string * Z)) : outcome error () * list event :=
  match todo with
  | [] => (Ok (), [])
  | (name, id) :: todo =>
      let '(r, ev) := ServeNew name id (accept name id) [] in
      match r with
      | Ok _ => let '(r, ev') := serveInTurn accept todo in (r, ev ++ ev')
      | Err e => (Err e, ev)
      | Panic => (Panic, ev)
      end
  end.
Definition newMedianClientFn {D} (Marshal : D → outcome error (list byte)) (accept : string → Z → option error) (grpc : factoryRequest → outcome error Z)
    (contractID : string) (dataSource juels gas provider errorLog : Z) (deviation : option D) : outcome error Z * list string * list event :=
  let '(r, ev) := serveInTurn accept [("DataSource", dataSource); ("JuelsPerFeeCoinDataSource", juels); ("GasPriceSubunitsDataSource", gas); ("MedianProvider", provider); ("ErrorLog", errorLog)] in
  match r with
  | Err e => (Err e, [], ev)
  | Panic => (Panic, [], ev)
  | Ok _ =>
      match match deviation with None => Ok [] | Some d => Marshal d end with
      | Err e => (Err (wrapf "failed to marshal deviationFuncDefinition: " e), [], ev)
      | Panic => (Panic, [], ev)
      | Ok json => (grpc (mkRequest provider contractID dataSource juels errorLog gas json), [], ev)
      end
  end.

(** *** Facts *)

Lemma dialInTurn_ok dial opened todo deps ev : dialInTurn dial opened todo = (Ok deps, ev) →
  deps = opened ++ todo.*1 ∧ ev = uncurry Dialled <$> todo.
Proof.
  revert opened ev. induction todo as [|[n id] todo IH]; intros opened ev; cbn; [intros [= <- <-]; by rewrite app_nil_r|].
  destruct (dial id); [done|]. destruct (dialInTurn dial (opened ++ [n]) todo) as [r ev'] eqn:E. intros [= -> <-]. apply IH in E as [-> ->]. by rewrite -app_assoc.
Qed.
Lemma dialInTurn_err dial opened todo r ev : (∀ deps, r ≠ Ok deps) → dialInTurn dial opened todo = (r, ev) →
  (∃ e, r = Err e) ∧ ∃ done', ev = (uncurry Dialled <$> done') ++ (Closed <$> opened ++ done'.*1).
Proof.
  intros Hr. revert opened ev. induction todo as [|[n id] todo IH]; intros opened ev; cbn; [intros [= <- _]; by destruct (Hr opened)|].
  destruct (dial id) as [e|]; [intros [= <- <-]; split; [by eexists|]; exists []; by rewrite app_nil_r|].
  destruct (dialInTurn dial (opened ++ [n]) todo) as [r' ev'] eqn:E. intros [= -> <-]. apply IH in E as [He (d & ->)]. split; [done|].
  exists ((n, id) :: d). cbn. by rewrite -app_assoc.
Qed.

(** Whatever happens, the connections that were dialled are all closed, each
    once and in order, or all belong to the factory's server. *)
Lemma median_closes dial check impl f acc req r ev : impl (ContractID req) ≠ Panic →
  NewMedianFactory dial check impl f acc req = (r, ev) →
  ∃ l, (∃ e, r = Err e) ∧ ev = (uncurry Dialled <$> l) ++ (Closed <$> l.*1) ∨ r = Ok f ∧ ev = (uncurry Dialled <$> l) ++ [Served "ReportingPluginProvider" l.*1].
Proof.
  intros Hi. rewrite /NewMedianFactory. match goal with |- context [dialInTurn dial [] ?l] => set (todo := l) end.
  destruct (dialInTurn dial [] todo) as [rd evd] eqn:E. destruct rd as [deps|e|].
  - apply dialInTurn_ok in E as [-> ->]. cbn [app]. intros Hr. exists todo. destruct (decide (0 < length (DeviationFuncDefinition req))).
    { injection Hr as <- <-. left; eauto. }
    destruct (impl (ContractID req)) as [u|e|]; [|injection Hr as <- <-; left; eauto|done].
    rewrite /ServeNew in Hr. destruct acc; injection Hr as <- <-; [left; eauto|by right].
  - apply dialInTurn_err in E as [_ (d & ->)]; [|done]. intros [= <- <-]. exists d. left. eauto.
  - apply dialInTurn_err in E as [[e He] _]; done.
Qed.

(** A factory with a definition of its deviation is never made behind gRPC:
    whatever the definition is, unmarshalling it fails. *)
Lemma deviation_refused {D} (Marshal : D → outcome error (list byte)) accept dial check impl f acc contractID ds j g p el (d : D) :
  (∀ j, Marshal d = Ok j → j ≠ []) → Marshal d ≠ Panic →
  (∀ n id, accept n id = None) → (∀ id, dial id = None) →
  ∃ e, (newMedianClientFn Marshal accept (λ req, map_err arrived (NewMedianFactory dial check impl f acc req).1) contractID ds j g p el (Some d)).1.1 = Err e.
Proof.
  intros Hj Hp Ha Hd. rewrite /newMedianClientFn /ServeNew. cbn. rewrite /ServeNew !Ha. destruct (Marshal d) as [json|e|] eqn:E; [|by eexists|done]. cbn.
  rewrite /NewMedianFactory. cbn. rewrite !Hd. cbn. rewrite decide_True; [by eexists|]. destruct json as [|b json]; [|cbn; lia]. by destruct (Hj [] eq_refl).
Qed.

(** The sources, the provider and the log go on being served when the client's
    connection is closed: the connection is given nothing to close. *)
Lemma median_sources_left {D} (Marshal : D → outcome error (list byte)) accept grpc contractID ds j g p el d :
  (newMedianClientFn Marshal accept grpc contractID ds j g p el d).1.2 = [] ∧
  ((∀ n id, accept n id = None) →
   (newMedianClientFn Marshal accept grpc contractID ds j g p el d).2 =
     (λ n, Served n []) <$> ["DataSource"; "JuelsPerFeeCoinDataSource"; "GasPriceSubunitsDataSource"; "MedianProvider"; "ErrorLog"]).
Proof.
  rewrite /newMedianClientFn. match goal with |- context [serveInTurn accept ?l] => destruct (serveInTurn accept l) as [r ev] eqn:E end. split.
  - destruct r; [|done..]. by destruct (match d with Some _ => _ | None => _ end).
  - intros Ha. cbn in E. rewrite /ServeNew !Ha in E. injection E as <- <-. by destruct (match d with Some _ => _ | None => _ end).
Qed.
End adapter.
End MedianAdapter.
