(* ===== verification/NullUint32.v ===== *)
(** [src/pkg/utils/null/uint32.go]: a uint32 or null, its JSON, text and
    database forms.  A method that changes its receiver returns it. *)

From stdpp Require Import pretty.
From S2P Require Import Prelude GoBytes GoStrings CodecConfig.

(** What the database gives. *)
Inductive dbValue := DNil | DInt (z : Z) | DInt64 (z : Z) | DUint (z : Z) | DUint32 (z : Z) | DText (s : string) | DBytes (s : string) | DOther.

Module NullUint32.
Import CodecConfig.CodecConfig.

Record Uint32 := mkUint32 { value : Z; Valid : bool }.
Inductive error := NotJSON | NotNumber (s : string) | CannotUnmarshal | Overflow (v : dbValue) | CannotConvert (v : dbValue).

Definition NewUint32 (i : Z) (valid : bool) : Uint32 := mkUint32 i valid.
Definition Uint32From (i : Z) : Uint32 := NewUint32 i true.

(** [strconv.ParseUint(s, 10, 32)], cut to 32 bits: the largest number and an
    error if the digits that come first are too large, on another error 0. *)
Fixpoint overflows (acc : Z) (s : string) : bool :=
  match s with
  | EmptyString => false
  | String c s => match digit c with None => false | Some d => let n := (10 * acc + d)%Z in if decide (2 ^ 32 <= n)%Z then true else overflows n s end
  end.
Definition parse (str : string) : Z * option error :=
  match ParseUint 32 str with
  | Some v => (v, None)
  | None => (if overflows 0 str then (2 ^ 32 - 1)%Z else 0%Z, Some (NotNumber str))
  end.

(** [UnmarshalJSON] of a JSON value; [isFloat64] says of a number that it is in
    the range of a float64, which it is read as first. *)
Definition UnmarshalJSON (isFloat64 : string → bool) (i : Uint32) (data : jval) : Uint32 * option error :=
  match data with
  | JNumber s =>
      if negb (isFloat64 s) then (i, Some NotJSON)
      else match ParseUint 32 s with Some v => (mkUint32 v true, None) | None => (mkUint32 (value i) false, Some (NotNumber s)) end
  | JStr EmptyString => (mkUint32 (value i) false, None)
  | JStr x => let '(v, err) := parse x in (mkUint32 v (match err with None => true | Some _ => false end), err)
  | JNull => (mkUint32 (value i) false, None)
  | _ => (mkUint32 (value i) false, Some CannotUnmarshal)
  end.

Definition UnmarshalText (i : Uint32) (text : string) : Uint32 * option error :=
  if String.eqb text "" || String.eqb text "null" then (mkUint32 (value i) false, None)
  else let '(v, err) := parse text in (mkUint32 v (match err with None => true | Some _ => false end), err).

Definition MarshalJSON (i : Uint32) : jval := if Valid i then JNumber (Itoa (value i)) else JNull.
Definition MarshalText (i : Uint32) : string := if Valid i then Itoa (value i) else "".
Definition SetValid (n : Z) (i : Uint32) : Uint32 := mkUint32 n true.
Definition Value (i : Uint32) : dbValue := if Valid i then DInt64 (value i) else DNil.

(** The receiver is left as it is on an error. *)
Definition Scan (i : Uint32) (v : dbValue) : Uint32 * option error :=
  match v with
  | DNil => (mkUint32 0 false, None)
  | DInt z | DInt64 z => let safe := wrapU 32 z in if decide (safe ≠ z) then (i, Some (Overflow v)) else (Uint32From safe, None)
  | DUint z => let safe := wrapU 32 z in if decide (safe ≠ z) then (i, Some (Overflow v)) else (Uint32From safe, None)
  | DUint32 z => (Uint32From z, None)
  | _ => (i, Some (CannotConvert v))
  end.

Lemma ParseUint_Itoa z : inU 32 z → ParseUint 32 (Itoa z) = Some z.
Proof.
  unfold inU. intros Hz. rewrite /Itoa /pretty /pretty_Z. assert (∃ n : N, z = Z.of_N n) as [n ->] by (exists (Z.to_N z); lia).
  assert (match Z.of_N n with 0%Z => "0" | Z.pos x => pretty x | Z.neg x => "-" +:+ pretty x end = pretty n) as -> by (by destruct n).
  destruct (pretty_N_digits n) as (H1 & _ & H3). rewrite /ParseUint. destruct (pretty n) as [|c s]; [done|]. rewrite H1. cbn [mbind option_bind]. rewrite decide_True //. lia.
Qed.
Lemma Itoa_nonempty z : inU 32 z → Itoa z ≠ "" ∧ Itoa z ≠ "null".
Proof. intros Hz. pose proof (ParseUint_Itoa z Hz) as Hp. split; intros He; by rewrite He in Hp. Qed.

(** What is written is read again, in each of the three forms: the number, or
    that there is none. *)
Lemma uint32_reread isFloat64 i j : inU 32 (value i) → (∀ z, isFloat64 (Itoa z) = true) →
  let same (k : Uint32) := Valid k = Valid i ∧ (Valid i = true → value k = value i) in
  (∃ k, UnmarshalJSON isFloat64 j (MarshalJSON i) = (k, None) ∧ same k) ∧
  (∃ k, UnmarshalText j (MarshalText i) = (k, None) ∧ same k) ∧
  (∃ k, Scan j (Value i) = (k, None) ∧ same k).
Proof.
  intros Hi Hf same. destruct i as [z []]; cbn [value] in Hi.
  - pose proof (ParseUint_Itoa z Hi) as Hp. destruct (Itoa_nonempty z Hi) as [H1 H2]. split_and!; eexists.
    + split; [rewrite /UnmarshalJSON; cbn [MarshalJSON Valid value]; rewrite Hf Hp; done|done].
    + rewrite /UnmarshalText. cbn [MarshalText Valid value]. apply String.eqb_neq in H1 as ->. apply String.eqb_neq in H2 as ->. by rewrite /parse Hp.
    + rewrite /Scan /=. rewrite wrapU_small //. rewrite decide_False; [done|]. by intros [].
  - by split_and!; eexists.
Qed.

(** A number of the database is read exactly if it is a uint32. *)
Lemma Scan_exact i z : (Scan i (DInt64 z) = (Uint32From z, None) ∧ inU 32 z) ∨ (Scan i (DInt64 z) = (i, Some (Overflow (DInt64 z))) ∧ ¬ inU 32 z).
Proof.
  rewrite /Scan. destruct (decide (wrapU 32 z ≠ z)) as [Hn|Hn].
  - right. split; [done|]. intros Hz. by apply Hn, wrapU_small.
  - left. apply dec_stable in Hn. rewrite Hn. split; [done|]. rewrite -Hn. by apply wrapU_range.
Qed.

(** A text that is too large is an error, but leaves the largest number. *)
Example too_large : UnmarshalText (Uint32From 1) "4294967296" = (mkUint32 4294967295 false, Some (NotNumber "4294967296")) ∧
  UnmarshalText (Uint32From 1) "4294967296x" = (mkUint32 4294967295 false, Some (NotNumber "4294967296x")) ∧
  UnmarshalText (Uint32From 1) "429496729x" = (mkUint32 0 false, Some (NotNumber "429496729x")).
Proof. by vm_compute. Qed.
End NullUint32.
