(* ===== verification/Durations.v ===== *)
(** [src/pkg/config/duration.go]: durations that are not negative, their JSON,
    text and database forms.  A method that changes its receiver returns it. *)

From S2P Require Import Prelude GoBytes CodecConfig NullUint32.

Module Durations.
Import CodecConfig.CodecConfig.

(** [time.Duration], its text and [time.ParseDuration]. *)
Class DurationText := {
  DurationString : Z → string;
  timeParseDuration : string → option Z;
  parse_string : ∀ d, inS 64 d → timeParseDuration (DurationString d) = Some d
}.
Inductive error := Negative (d : Z) | BadDuration (s : string) | DontKnow (v : dbValue) | NotString (v : jval).

Section duration.
Context `{DurationText}.

(** A [Duration] is its nanoseconds, which are not negative. *)
Definition NewDuration (d : Z) : outcome error Z := if decide (d < 0)%Z then Err (Negative d) else Ok d.
Definition MustNewDuration (d : Z) : outcome error Z := match NewDuration d with Err _ => Panic | r => r end.
Definition ParseDuration (s : string) : outcome error Z := match timeParseDuration s with None => Err (BadDuration s) | Some d => NewDuration d end.
(** [Before] of a time, in nanoseconds. *)
Definition Before (d t : Z) : Z := (t - d)%Z.
Definition Shorter (d od : Z) : bool := bool_decide (d < od)%Z.
Definition IsInstant (d : Z) : bool := bool_decide (d = 0)%Z.
Definition MarshalText (d : Z) : string := DurationString d.
Definition MarshalJSON (d : Z) : jval := JStr (DurationString d).

(** The receiver is kept if the text is not one of a duration; a negative
    duration leaves it alone in a text, and makes it zero in JSON or from the
    database. *)
Definition UnmarshalText (d : Z) (input : string) : Z * option error :=
  match timeParseDuration input with
  | None => (d, Some (BadDuration input))
  | Some v => if decide (v < 0)%Z then (d, Some (Negative v)) else (v, None)
  end.
Definition orZero (r : outcome error Z) : Z * option error := match r with Ok d => (d, None) | Err e => (0%Z, Some e) | Panic => (0%Z, None) end.
Definition UnmarshalJSON (d : Z) (input : jval) : Z * option error :=
  match match input with JStr txt => Some txt | JNull => Some "" | _ => None end with
  | None => (d, Some (NotString input))
  | Some txt => match timeParseDuration txt with None => (d, Some (BadDuration txt)) | Some v => orZero (NewDuration v) end
  end.
Definition Value (d : Z) : dbValue := DInt64 d.
Definition Scan (d : Z) (v : dbValue) : Z * option error := match v with DInt64 tv => orZero (NewDuration tv) | v => (d, Some (DontKnow v)) end.

(** Every duration that is made is one, and is read as it was written, in its
    three forms; one that is negative is refused, in each of them. *)
Lemma durations_reread d r : inS 64 d →
  match NewDuration d with
  | Ok d => (0 <= d)%Z ∧ UnmarshalText r (MarshalText d) = (d, None) ∧ UnmarshalJSON r (MarshalJSON d) = (d, None) ∧ Scan r (Value d) = (d, None)
  | _ => (d < 0)%Z ∧ MustNewDuration d = Panic ∧ UnmarshalText r (MarshalText d) = (r, Some (Negative d)) ∧
      UnmarshalJSON r (MarshalJSON d) = (0%Z, Some (Negative d)) ∧ Scan r (Value d) = (0%Z, Some (Negative d))
  end.
Proof.
  intros Hd. assert (NewDuration d = if decide (d < 0)%Z then Err (Negative d) else Ok d) as Hn by done.
  rewrite /MustNewDuration /UnmarshalText /MarshalText /UnmarshalJSON /MarshalJSON /Scan /Value Hn.
  destruct (decide (d < 0)%Z) as [Hl|Hl]; rewrite parse_string // Hn; (split; [lia|]); [rewrite (decide_True _ _ Hl)|rewrite (decide_False _ _ Hl)]; done.
Qed.
End duration.
End Durations.
