(* ===== verification/ErrorLists.v ===== *)
(** [src/pkg/config/error.go]: lists of errors, their flattening and texts, and
    the search for duplicates.  Texts are strings. *)

From Stdlib.Strings Require Import Ascii.
From S2P Require Import Prelude GoStrings.

Module ErrorLists.

(** An error, and one that unwraps to several. *)
Inductive error := ELeaf (msg : string) | EMany (msg : string) (es : list error).
Definition text (e : error) : string := match e with ELeaf msg | EMany msg _ => msg end.

Fixpoint flattenOne (e : error) : list error := match e with ELeaf _ => [e] | EMany _ es => flat_map flattenOne es end.
Definition Flatten (errs : list error) : list error := flat_map flattenOne errs.

(** The text of a [multiErrorList]. *)
Definition newline : string := String "010" EmptyString.
Definition tab : string := String "009" EmptyString.
Definition multiErrorText (m : list error) : string :=
  match m with
  | [e] => text e
  | _ => (Itoa (Z.of_nat (length m)) ++ " errors:" ++ String.concat "" ((λ e, newline ++ tab ++ "- " ++ text e) <$> m))%string
  end.
Definition MultiErrorList (err : option error) : nat * option error :=
  match err with None => (0, None) | Some err => let errs := Flatten [err] in (length errs, Some (EMany (multiErrorText errs) errs)) end.

(** [strings.ReplaceAll] of new lines, which are indented. *)
Fixpoint indent (s : string) : string :=
  match s with EmptyString => "" | String c s => if Ascii.eqb c "010" then (newline ++ tab ++ indent s)%string else String c (indent s) end.
Definition NamedMultiErrorList (err : option error) (name : string) : option error :=
  match MultiErrorList err with
  | (0, _) | (_, None) => None
  | (l, Some merr) =>
      let msg := indent (text merr) in
      Some (ELeaf (if decide (l = 1) then name ++ "." ++ msg else name ++ ": " ++ msg)%string)
  end.

(** [UniqueStrings]: whether a string was there before; it is afterwards. *)
Definition isDupe (u : gset string) (s : string) : bool * gset string := if String.eqb s "" then (false, u) else (bool_decide (s ∈ u), {[ s ]} ∪ u).
Definition IsDupe (u : gset string) (s : option string) : bool * gset string := match s with None => (false, u) | Some s => isDupe u s end.
Fixpoint dupes (u : gset string) (l : list string) : list bool :=
  match l with [] => [] | s :: l => let '(b, u) := isDupe u s in b :: dupes u l end.

Lemma manyErrors_ind (P : error → Prop) : (∀ msg, P (ELeaf msg)) → (∀ msg es, Forall P es → P (EMany msg es)) → ∀ e, P e.
Proof. intros Hl Hm. fix IH 1. intros [msg|msg es]; [apply Hl|]. apply Hm. induction es; constructor; [apply IH|done]. Qed.

Definition isLeaf (e : error) : Prop := match e with ELeaf _ => True | _ => False end.

(** What is flattened has no error that unwraps to several, and flattening it
    again changes nothing. *)
Lemma Flatten_leaves es : Forall isLeaf (Flatten es).
Proof.
  rewrite /Flatten Forall_flat_map. apply Forall_forall. intros e _. induction e as [msg|msg es' IH] using manyErrors_ind; cbn; [by constructor|].
  by rewrite Forall_flat_map.
Qed.
Lemma Flatten_leaf es : Forall isLeaf es → Flatten es = es.
Proof. induction 1 as [|e es He _ IH]; [done|]. destruct e; [|done]. cbn. f_equal. exact IH. Qed.
Lemma Flatten_idem es : Flatten (Flatten es) = Flatten es.
Proof. apply Flatten_leaf, Flatten_leaves. Qed.

(** The list of a list of errors is the list. *)
Lemma MultiErrorList_again err n e : MultiErrorList err = (n, Some e) → MultiErrorList (Some e) = (n, Some e).
Proof.
  destruct err as [err|]; [|done]. cbn. rewrite app_nil_r. intros [= <- <-]. cbn. rewrite app_nil_r. fold (Flatten (flattenOne err)).
  assert (Forall isLeaf (flattenOne err)) as Hl by (pose proof (Flatten_leaves [err]) as Hl; cbn in Hl; by rewrite app_nil_r in Hl).
  by rewrite (Flatten_leaf _ Hl).
Qed.

(** A string is reported exactly if it is not empty and was there, or came
    before. *)
Lemma dupes_exact u l i s : l !! i = Some s → dupes u l !! i = Some (bool_decide (s ≠ "" ∧ (s ∈ u ∨ s ∈ take i l))).
Proof.
  revert u i. induction l as [|t l IH]; intros u i Hi; [done|]. cbn [dupes]. destruct (isDupe u t) as [b u'] eqn:E. destruct i as [|i].
  - injection Hi as ->. cbn. f_equal. rewrite /isDupe in E. destruct (String.eqb_spec s "") as [->|Hs]; injection E as <- _.
    + rewrite bool_decide_eq_false_2 //. by intros [].
    + apply bool_decide_ext. rewrite elem_of_nil. tauto.
  - cbn in Hi |- *. rewrite (IH u' i Hi). f_equal. apply bool_decide_ext. rewrite elem_of_cons. rewrite /isDupe in E.
    destruct (String.eqb_spec t "") as [->|Ht]; injection E as _ <-; [naive_solver|]. set_solver.
Qed.
End ErrorLists.
