(* ===== verification/Assets.v ===== *)
(** [src/pkg/assets/link.go] with [src/pkg/utils/bytes]: amounts of LINK, their
    text, JSON and database forms.  A method that changes its receiver returns
    it. *)

From Stdlib.Strings Require Import Ascii.
From Stdlib Require Import QArith.
From stdpp Require Import pretty.
From S2P Require Import Prelude GoStrings CCIPTypes NullUint32.

Module Assets.
Import CCIPTypes.CCIPTypes.

(** [HasQuotes] and [TrimQuotes]. *)
Definition first (s : string) : option ascii := match s with EmptyString => None | String c _ => Some c end.
Fixpoint last (s : string) : option ascii := match s with EmptyString => None | String c EmptyString => Some c | String _ s => last s end.
Definition quotedWith (q : ascii) (s : string) : bool := bool_decide (first s = Some q) && bool_decide (last s = Some q).
Definition HasQuotes (input : string) : bool := Nat.leb 2 (String.length input) && (quotedWith "034" input || quotedWith "039" input).
Definition TrimQuotes (input : string) : string := if HasQuotes input then String.substring 1 (String.length input - 2) input else input.

Definition HasSuffix (s p : string) : bool :=
  Nat.leb (String.length p) (String.length s) && String.eqb (String.substring (String.length s - String.length p) (String.length p) s) p.
Definition TrimSuffix (s p : string) : string := if HasSuffix s p then String.substring 0 (String.length s - String.length p) s else s.

(** [Format]: the rational [i / 10^precision] with as many digits after the
    point, which is exact. *)
Definition getDenominator (precision : nat) : Z := (10 ^ Z.of_nat precision)%Z.
Definition pad (n : nat) (s : string) : string := (Repeat "0" (n - String.length s) ++ s)%string.
Definition Format (i : Z) (precision : nat) : string :=
  let d := getDenominator precision in
  ((if decide (i < 0)%Z then "-" else "") ++ Itoa (Z.abs i / d) ++
    match precision with 0 => "" | _ => "." ++ pad precision (Itoa (Z.abs i mod d)) end)%string.

(** [shopspring/decimal]: the value of a decimal is a rational; its text is read
    as a decimal of the same value. *)
Class Decimals := {
  decimal : Type;
  dval : decimal → Q;
  NewFromBigInt : Z → Z → decimal;
  NewFromString : string → option decimal;
  DecimalString : decimal → string;
  Mul : decimal → decimal → decimal;
  IsInteger : decimal → bool;
  RatNum : decimal → Z;                     (* [d.Rat().Num()] *)
  dval_New c e : (dval (NewFromBigInt c e) == inject_Z c * Qpower 10 e)%Q;
  dval_String d : ∃ d', NewFromString (DecimalString d) = Some d' ∧ (dval d' == dval d)%Q;
  dval_Mul a b : (dval (Mul a b) == dval a * dval b)%Q;
  dval_int d z : (dval d == inject_Z z)%Q → IsInteger d = true ∧ RatNum d = z
}.

Inductive error := NoQuotes | CannotUnmarshal (text : string) | TooPrecise (text : string) | NotBase10 (v : dbValue) | IsVarchar (v : dbValue) | CannotConvert (v : dbValue).

Section link.
Context `{Decimals}.

(** A [Link] is its juels; [None] is the nil pointer. *)
Definition LinkString (l : option Z) : string := match l with None => "0" | Some l => Itoa l end.
Definition LinkUnits (l : option Z) : string := match l with None => "0" | Some l => Format l 18 end.
Definition linkFmtThreshold : Z := 10 ^ 12.

(** [MarshalText]: large amounts in LINK. *)
Definition MarshalText (l : Z) : string :=
  if decide (linkFmtThreshold <= l)%Z then (DecimalString (NewFromBigInt l (-18)) ++ " link")%string else Itoa l.
Definition MarshalJSON (l : Z) : string := (String "034" (MarshalText l) ++ String "034" "")%string.

Definition UnmarshalText (text : string) : outcome error Z :=
  if HasSuffix text "link" then
    let s := TrimSuffix (TrimSuffix text "link") " " in
    match NewFromString s with
    | None => Err (CannotUnmarshal text)
    | Some d => let d := Mul d (NewFromBigInt 1 18) in if IsInteger d then Ok (RatNum d) else Err (TooPrecise text)
    end
  else
    let s := if HasSuffix text "juels" then TrimSuffix (TrimSuffix text "juels") " " else text in
    ok_or (CannotUnmarshal text) (SetString s).
Definition UnmarshalJSON (data : string) : outcome error Z := if HasQuotes data then UnmarshalText (TrimQuotes data) else Err NoQuotes.

Definition Value (l : Z) : dbValue := DText (Itoa l).
Definition Scan (v : dbValue) : outcome error Z :=
  match v with
  | DText s | DBytes s => ok_or (NotBase10 v) (SetString s)
  | DInt64 _ => Err (IsVarchar v)
  | _ => Err (CannotConvert v)
  end.

(** *** Facts *)

Lemma substring_whole p : String.substring 0 (String.length p) p = p.
Proof. rewrite -{2}(append_empty_r p). apply substring_app_l. Qed.
Lemma substring_rest s p : String.substring (String.length s) (String.length p) (s ++ p) = p.
Proof. induction s as [|c s IH]; [apply substring_whole|exact IH]. Qed.
Lemma HasSuffix_app s p : HasSuffix (s ++ p) p = true.
Proof.
  rewrite /HasSuffix length_app_string andb_true_iff. split; [apply Nat.leb_le; lia|].
  replace (String.length s + String.length p - String.length p) with (String.length s) by lia. rewrite substring_rest. apply String.eqb_refl.
Qed.
Lemma TrimSuffix_app s p : TrimSuffix (s ++ p) p = s.
Proof.
  rewrite /TrimSuffix HasSuffix_app length_app_string. replace (String.length s + String.length p - String.length p) with (String.length s) by lia. apply substring_app_l.
Qed.

Lemma allChars_substring P n m s : allChars P s = true → allChars P (String.substring n m s) = true.
Proof.
  revert n m. induction s as [|c s IH]; intros n m Hs; [by destruct n, m|]. cbn in Hs. apply andb_true_iff in Hs as [Hc Hs].
  destruct n as [|n]; cbn; [|by apply IH]. destruct m as [|m]; cbn; [done|]. rewrite Hc /=. by apply IH.
Qed.
Lemma HasSuffix_avoids s p c : avoids c s = true → avoids c p = false → HasSuffix s p = false.
Proof.
  intros Hs Hp. apply not_true_is_false. rewrite /HasSuffix andb_true_iff. intros [_ He%String.eqb_eq]. rewrite -He in Hp.
  by rewrite /avoids (allChars_substring _ _ _ s Hs) in Hp.
Qed.
(** An amount is read as it was written, in juels or in LINK, in text, in JSON
    and from the database. *)
Theorem link_reread l : UnmarshalText (MarshalText l) = Ok l ∧ UnmarshalJSON (MarshalJSON l) = Ok l ∧ Scan (Value l) = Ok l.
Proof.
  assert (UnmarshalText (MarshalText l) = Ok l) as Ht.
  { rewrite /MarshalText. destruct (decide (linkFmtThreshold <= l)%Z) as [Hl|Hl]; rewrite /UnmarshalText.
    - change " link" with (" " ++ "link")%string. rewrite -append_assoc HasSuffix_app !TrimSuffix_app.
      destruct (dval_String (NewFromBigInt l (-18))) as (d & -> & Hd).
      assert (dval (Mul d (NewFromBigInt 1 18)) == inject_Z l) as [-> ->]%dval_int; [|done].
      rewrite dval_Mul Hd !dval_New. rewrite -Qmult_assoc (Qmult_comm (Qpower 10 (-18))) -Qmult_assoc. rewrite -{2}(Qmult_1_r (inject_Z l)). apply Qmult_comp; [reflexivity|by vm_compute].
    - rewrite !(HasSuffix_avoids (Itoa l) _ "l") //; [|by apply Itoa_avoids..]. by rewrite SetString_Itoa. }
  split; [done|]. split; [|by rewrite /Scan /Value SetString_Itoa]. rewrite -Ht /UnmarshalJSON /MarshalJSON. set (s := MarshalText l).
  assert (last (s ++ String "034" "") = Some "034"%char) as Hlast.
  { clearbody s. clear Ht. induction s as [|c s IH]; [done|]. change (String c s ++ String "034" "")%string with (String c (s ++ String "034" "")).
    cbn [last]. destruct (s ++ String "034" "")%string; [done|exact IH]. }
  assert (HasQuotes (String "034" s ++ String "034" "") = true) as Hq.
  { rewrite /HasQuotes andb_true_iff. split; [apply Nat.leb_le; rewrite length_app_string /=; lia|]. rewrite orb_true_iff. left.
    rewrite /quotedWith andb_true_iff !bool_decide_eq_true. split; [done|]. change (String "034" s ++ String "034" "")%string with (String "034" (s ++ String "034" "")).
    cbn [last]. by destruct (s ++ String "034" "")%string. }
  rewrite Hq /TrimQuotes Hq. f_equal. rewrite length_app_string. cbn [String.length]. replace (S (String.length s) + 1 - 2) with (String.length s) by lia.
  apply substring_app_l.
Qed.
End link.

(** Rationals, whose text is a fraction. *)
Definition readFraction (s : string) : option Q :=
  let '(a, b) := Cut s "/" in match SetString a, SetString b with Some n, Some (Zpos d) => Some (Qmake n d) | _, _ => None end.
Definition fractionText (q : Q) : string := (Itoa (Qnum q) ++ String "/" (Itoa (QDen q)))%string.
Lemma fraction_reread q : ∃ q', readFraction (fractionText q) = Some q' ∧ (q' == q)%Q.
Proof.
  destruct q as [n d]. exists (Qmake n d). rewrite /readFraction /fractionText Cut_app; [|by apply Itoa_avoids]. cbn [Qnum Qden]. by rewrite !SetString_Itoa.
Qed.
Lemma fraction_int (q : Q) z : (q == inject_Z z)%Q → (Z.rem (Qnum q) (QDen q) =? 0)%Z = true ∧ (Qnum q / QDen q)%Z = z.
Proof.
  destruct q as [n d]. rewrite /Qeq /=. rewrite Z.mul_1_r. intros ->. split; [|by apply Z.div_mul]. apply Z.eqb_eq. by apply Z.rem_mul.
Qed.
#[local] Instance fractions : Decimals := {|
  decimal := Q; dval q := q; NewFromBigInt c e := (inject_Z c * Qpower 10 e)%Q; NewFromString := readFraction; DecimalString := fractionText; Mul := Qmult;
  IsInteger q := (Z.rem (Qnum q) (QDen q) =? 0)%Z; RatNum q := (Qnum q / QDen q)%Z;
  dval_New c e := Qeq_refl _; dval_String := fraction_reread; dval_Mul a b := Qeq_refl _; dval_int := fraction_int
|}.

(** Two and a half LINK in its three forms. *)
Example link_runs : UnmarshalText (MarshalText 2500000000000000000) = Ok 2500000000000000000%Z ∧ UnmarshalText "12 juels" = Ok 12%Z ∧
  Format (-2500000000000000000) 18 = "-2.500000000000000000" ∧ UnmarshalJSON "12" = Err NoQuotes.
Proof. by vm_compute. Qed.

Lemma digits_app acc s1 s2 : digits acc (s1 ++ s2) = digits acc s1 ≫= λ a, digits a s2.
Proof.
  revert acc. induction s1 as [|c s1 IH]; intros acc; [done|].
  change (String c s1 ++ s2)%string with (String c (s1 ++ s2)). cbn [digits]. destruct (digit c) as [d|]; [|done]. cbn [mbind option_bind]. apply IH.
Qed.
Lemma digits_from acc s v : digits 0 s = Some v → digits acc s = Some (acc * 10 ^ Z.of_nat (String.length s) + v)%Z.
Proof.
  assert (∀ acc k, digits (acc + k) s = (λ v, v + k * 10 ^ Z.of_nat (String.length s))%Z <$> digits acc s) as Hk.
  { induction s as [|c s IH]; intros a k; [cbn; f_equal; lia|]. cbn [digits]. destruct (digit c) as [d|]; [|done]. cbn.
    replace (10 * (a + k) + d)%Z with (10 * a + d + 10 * k)%Z by lia. rewrite IH. destruct (digits _ s); [|done].
    cbn [fmap option_fmap option_map String.length]. f_equal. rewrite Nat2Z.inj_succ Z.pow_succ_r; lia. }
  intros Hv. specialize (Hk 0%Z acc). rewrite Z.add_0_l Hv in Hk. rewrite Hk. cbn. f_equal. lia.
Qed.
Lemma pretty_go_length n x s : (x < 10 ^ N.of_nat n)%N → String.length (pretty_N_go x s) <= n + String.length s.
Proof.
  revert x s. induction n as [|n IH]; intros x s Hx.
  - assert (x = 0%N) as -> by lia. rewrite pretty_N_go_0. done.
  - destruct (decide (x = 0)%N) as [->|Hn]; [rewrite pretty_N_go_0; lia|]. rewrite pretty_N_go_step; [|lia].
    etrans; [apply IH|cbn [String.length]; lia]. rewrite Nat2N.inj_succ N.pow_succ_r' in Hx. apply N.Div0.div_lt_upper_bound. lia.
Qed.
Lemma Itoa_length n x : 0 < n → (0 <= x < 10 ^ Z.of_nat n)%Z → String.length (Itoa x) <= n.
Proof.
  intros Hn Hx. assert (∃ y : N, x = Z.of_N y) as [y ->] by (exists (Z.to_N x); lia). assert (Itoa (Z.of_N y) = pretty y) as -> by (by destruct y).
  rewrite /pretty /pretty_N. case_decide; [cbn; lia|]. pose proof (pretty_go_length n y "") as Hl. cbn in Hl. rewrite Nat.add_0_r in Hl. apply Hl. 
  apply N2Z.inj_lt. rewrite N2Z.inj_pow nat_N_Z. lia.
Qed.
Lemma Itoa_digits x : (0 <= x)%Z → digits 0 (Itoa x) = Some x.
Proof.
  intros Hx. assert (∃ y : N, x = Z.of_N y) as [y ->] by (exists (Z.to_N x); lia). assert (Itoa (Z.of_N y) = pretty y) as -> by (by destruct y). apply pretty_N_digits.
Qed.
Lemma digits_zeros n s : digits 0 (Repeat "0" n ++ s) = digits 0 s.
Proof. induction n as [|n IH]; [done|exact IH]. Qed.
Lemma length_zeros_text n : String.length (Repeat "0" n) = n.
Proof. induction n as [|n IH]; [done|]. change (S (String.length (Repeat "0" n)) = S n). by rewrite IH. Qed.

(** A formatted amount has all its digits: [precision] of them after the point,
    and all of them together are the amount in its smallest unit. *)
Lemma Format_exact i precision : 0 < precision → ∃ whole frac,
  Format i precision = ((if decide (i < 0)%Z then "-" else "") ++ whole ++ "." ++ frac)%string ∧
  String.length frac = precision ∧ digits 0 (whole ++ frac) = Some (Z.abs i).
Proof.
  intros Hp. set (d := getDenominator precision). assert (0 < d)%Z as Hd by (apply Z.pow_pos_nonneg; lia).
  pose proof (Z.mod_pos_bound (Z.abs i) d Hd) as Hm. pose proof (Itoa_length precision (Z.abs i mod d) Hp Hm) as Hl.
  exists (Itoa (Z.abs i / d)), (pad precision (Itoa (Z.abs i mod d))). split_and!.
  - rewrite /Format. by destruct precision; [lia|].
  - rewrite /pad length_app_string length_zeros_text. lia.
  - rewrite digits_app Itoa_digits; [|apply Z.div_pos; lia]. cbn [mbind option_bind].
    assert (digits 0 (pad precision (Itoa (Z.abs i mod d))) = Some (Z.abs i mod d)%Z) as Hf by (rewrite /pad digits_zeros Itoa_digits //; lia).
    rewrite (digits_from _ _ _ Hf) /pad length_app_string length_zeros_text. replace (precision - _ + _) with precision by lia. f_equal.
    fold d. pose proof (Z.div_mod (Z.abs i) d). change (10 ^ Z.of_nat precision)%Z with d. lia.
Qed.
End Assets.
