(* ===== verification/WorkflowYaml.v ===== *)
(** [src/pkg/workflows/models_yaml.go]: a workflow as it is written in YAML, and
    the specification it becomes.

    A JSON text is the tree of [CodecConfig].  A Go map is its entries in the
    order of their keys; an error does not say which entry it is about.  The
    YAML library, the schema that is reflected from the Go types and its
    validation, and the conversion between decimal texts and floats are
    parameters. *)

From Stdlib.Strings Require Import Ascii.
From S2P Require Import Prelude GoBytes GoStrings CodecTypes CodecConfig Messages Workflows WorkflowSDK.

Module WorkflowYaml.
Import CodecTypes.CodecTypes CodecConfig.CodecConfig Messages.

Inductive error := BadJSON (e : CodecConfig.error) | BadNumber | IncorrectRef | BadYAML (msg : string) | BadSchema (msg : string) | Invalid (msg : string).

(** *** Mappings *)

(** A value of a [Mapping]; [VNum] is a [json.Number]. *)
Inductive val := VNull | VBool (b : bool) | VNum (s : string) | VStr (s : string) | VInt64 (z : Z) | VFloat64 (bits : Z) | VArr (l : list val) | VObj (m : list (string * val)).

Section mapping.
(** [strconv.ParseFloat(s, 64)], and the text of a float in JSON. *)
Context (ParseFloat : string → option Z) (FloatText : Z → string).

(** What a decoder that uses numbers makes of a text. *)
Fixpoint decoded (v : jval) : val :=
  match v with
  | JNull => VNull
  | JBool b => VBool b
  | JNumber s => VNum s
  | JStr s => VStr s
  | JArr l => VArr (map decoded l)
  | JObj o => VObj (sortEntries (map (λ p, (p.1, decoded p.2)) o))
  end.

Definition convertNumber (el : val) : outcome error val :=
  match el with
  | VNum elv => if contains elv "." then match ParseFloat elv with Some f => Ok (VFloat64 f) | None => Err BadNumber end
                else match Atoi elv with Some z => Ok (VInt64 z) | None => Err BadNumber end
  | _ => Ok el
  end.

(** The loop of [convertNumbers] on one entry: the elements of a slice are
    converted, but not what is in them. *)
Fixpoint convertEntry (v : val) : outcome error val :=
  match v with
  | VObj tv => let? cm := omapM (λ p, let? v := convertEntry p.2 in Ok (p.1, v)) tv in Ok (VObj cm)
  | VArr tv => let? na := omapM convertNumber tv in Ok (VArr na)
  | v => convertNumber v
  end.
Definition convertNumbers (m : list (string * val)) : outcome error (list (string * val)) := omapM (λ p, let? v := convertEntry p.2 in Ok (p.1, v)) m.

(** [Mapping.UnmarshalJSON]: of null the map is empty. *)
Definition UnmarshalMapping (b : jval) : outcome error (list (string * val)) :=
  match b with
  | JNull => Ok []
  | JObj o => match decoded (JObj o) with VObj mp => convertNumbers mp | _ => Panic end
  | _ => Err (BadJSON InvalidJSON)
  end.

(** [Mapping.MarshalJSON] *)
Fixpoint encoded (v : val) : jval :=
  match v with
  | VNull => JNull
  | VBool b => JBool b
  | VNum s => JNumber s
  | VStr s => JStr s
  | VInt64 z => JNumber (Itoa z)
  | VFloat64 f => JNumber (FloatText f)
  | VArr l => JArr (map encoded l)
  | VObj m => JObj (sortEntries (map (λ p, (p.1, encoded p.2)) m))
  end.
Definition MarshalMapping (m : option (list (string * val))) : jval := match m with None => JNull | Some m => encoded (VObj m) end.

(** *** Identifiers of capabilities *)

Record stepDefinitionTableID := mkTableID { tableName : string; tableVersion : string; tableLabels : option (gmap string string) }.
Record stepDefinitionID := mkID { idStr : string; idTable : option stepDefinitionTableID }.

(** [slices.Sort] *)
Definition sortStrings (l : list string) : list string := merge_sort (λ s t, Is_true (strLe s t)) l.

(** [stepDefinitionTableID.String]; the labels are met in any order. *)
Definition tableString (O : RangeOrder (string * string)) (s : stepDefinitionTableID) : string :=
  let labels := (λ p : string * string, (p.1 ++ "_" ++ p.2)%string) <$> range_map O (default ∅ (tableLabels s)) in
  (tableName s ++ ":" ++ String.concat ":" (sortStrings labels) ++ "@" ++ tableVersion s)%string.
(** [stepDefinitionID.String]: the table is behind a pointer. *)
Definition idString (O : RangeOrder (string * string)) (s : stepDefinitionID) : outcome error string :=
  if decide (idStr s ≠ "") then Ok (idStr s) else match idTable s with Some t => Ok (tableString O t) | None => Panic end.

Definition jsonErr {A} (r : outcome CodecConfig.error A) : outcome error A := map_err BadJSON r.
Definition unmarshalTable (data : jval) : outcome CodecConfig.error stepDefinitionTableID :=
  let? o := asObject data in
  let? n := asString (member "name" o) in
  let? v := asString (member "version" o) in
  let? l := asMap asString (member "labels" o) in
  Ok (mkTableID n v l).
Definition UnmarshalID (data : jval) : outcome error stepDefinitionID :=
  match asString data with
  | Ok m => Ok (mkID m None)
  | _ => let? table := jsonErr (unmarshalTable data) in Ok (mkID "" (Some table))
  end.
Definition MarshalID (s : stepDefinitionID) : jval :=
  if decide (idStr s ≠ "") then JStr (idStr s)
  else match idTable s with
       | None => JNull
       | Some t => JObj [("name", JStr (tableName t)); ("version", JStr (tableVersion t)); ("labels", object JStr (tableLabels t))]
       end.

(** *** Inputs *)

Definition refChar (c : ascii) : bool :=
  let n := N_of_ascii c in ((97 <=? n) && (n <=? 122))%N || ((48 <=? n) && (n <=? 57))%N || Ascii.eqb c "_" || Ascii.eqb c "-".
Fixpoint refChars (s : string) : string := match s with String c s => if refChar c then refChars s else String c s | EmptyString => EmptyString end.
(** [outputRefTokenRe]: a reference is followed by [.outputs)], which it has no
    character of. *)
Definition outputRefToken (s : string) : bool :=
  match s with
  | String "$" (String "(" (String c s)) => refChar c && String.eqb (refChars s) ".outputs)"
  | _ => false
  end.

Record inputs := mkInputs { mapping : option (list (string * val)); outputRef : string }.
Definition UnmarshalInputs (data : jval) : outcome error inputs :=
  match asString data with
  | Ok s => if outputRefToken s then Ok (mkInputs None s) else Err IncorrectRef
  | _ => let? m := UnmarshalMapping data in Ok (mkInputs (Some m) "")
  end.
Definition MarshalInputs (i : inputs) : jval := if decide (outputRef i ≠ "") then JStr (outputRef i) else MarshalMapping (mapping i).

(** *** Steps and workflows *)

Record triggerDefinitionYaml := mkTriggerYaml { tID : stepDefinitionID; tRef : string; tConfig : option (list (string * val)) }.
Record stepDefinitionYaml := mkStepYaml { yID : stepDefinitionID; yRef : string; yInputs : inputs; yConfig : option (list (string * val)) }.
Record WorkflowSpecYaml := mkYaml {
  wName : string; wOwner : string; wTriggers : list triggerDefinitionYaml; wActions : list stepDefinitionYaml; wConsensus : list stepDefinitionYaml; wTargets : list stepDefinitionYaml
}.

(** [sdk.StepDefinition] and [sdk.WorkflowSpec]. *)
Record StepDefinition := mkStepDefinition {
  stepID : string; stepRef : string; stepInputs : inputs; stepConfig : option (list (string * val)); CapabilityType : string
}.
Record WorkflowSpec := mkSpec {
  Name : string; Owner : string; Triggers : list StepDefinition; Actions : list StepDefinition; Consensus : list StepDefinition; Targets : list StepDefinition
}.

(** [toStepDefinition] of a trigger and of another step. *)
Definition toTrigger (O : RangeOrder (string * string)) (s : triggerDefinitionYaml) : outcome error StepDefinition :=
  let? id := idString O (tID s) in Ok (mkStepDefinition id (tRef s) (mkInputs None "") (tConfig s) "").
Definition toStepDefinition (O : RangeOrder (string * string)) (s : stepDefinitionYaml) : outcome error StepDefinition :=
  let? id := idString O (yID s) in Ok (mkStepDefinition id (yRef s) (yInputs s) (yConfig s) "").
Definition withType (t : string) (s : StepDefinition) : StepDefinition := mkStepDefinition (stepID s) (stepRef s) (stepInputs s) (stepConfig s) t.

Definition ToWorkflowSpec (O : RangeOrder (string * string)) (w : WorkflowSpecYaml) : outcome error WorkflowSpec :=
  let steps {A} (f : A → outcome error StepDefinition) t l := omapM (λ x, let? sd := f x in Ok (withType t sd)) l in
  let? triggers := steps (toTrigger O) CapabilityTypeTrigger (wTriggers w) in
  let? actions := steps (toStepDefinition O) CapabilityTypeAction (wActions w) in
  let? consensus := steps (toStepDefinition O) CapabilityTypeConsensus (wConsensus w) in
  let? targets := steps (toStepDefinition O) CapabilityTypeTarget (wTargets w) in
  Ok (mkSpec (wName w) (wOwner w) triggers actions consensus targets).

(** *** Parsing *)

(** What the text of a field is, if it is there. *)
Fixpoint present (name : string) (o : list (string * jval)) : option jval :=
  match o with [] => None | (k, v) :: o => if String.eqb (ToLower k) (ToLower name) then Some v else present name o end.
(** A method that unmarshals is called for null, but not for what is not there. *)
Definition field {A} (f : jval → outcome error A) (zero : A) (name : string) (o : list (string * jval)) : outcome error A :=
  match present name o with Some v => f v | None => Ok zero end.
Definition configField (o : list (string * jval)) : outcome error (option (list (string * val))) := field (λ v, let? m := UnmarshalMapping v in Ok (Some m)) None "config" o.

Definition triggerOf (v : jval) : outcome error triggerDefinitionYaml :=
  let? o := jsonErr (asObject v) in
  let? id := field UnmarshalID (mkID "" None) "id" o in
  let? ref := jsonErr (asString (member "ref" o)) in
  let? config := configField o in
  Ok (mkTriggerYaml id ref config).
Definition stepOf (v : jval) : outcome error stepDefinitionYaml :=
  let? o := jsonErr (asObject v) in
  let? id := field UnmarshalID (mkID "" None) "id" o in
  let? ref := jsonErr (asString (member "ref" o)) in
  let? i := field UnmarshalInputs (mkInputs None "") "inputs" o in
  let? config := configField o in
  Ok (mkStepYaml id ref i config).
Definition listOf {A} (f : jval → outcome error A) (v : jval) : outcome error (list A) :=
  match v with JArr l => omapM f l | JNull => Ok [] | _ => Err (BadJSON InvalidJSON) end.
Definition specOf (v : jval) : outcome error WorkflowSpecYaml :=
  let? o := jsonErr (asObject v) in
  let? name := jsonErr (asString (member "name" o)) in
  let? owner := jsonErr (asString (member "owner" o)) in
  let? triggers := listOf triggerOf (member "triggers" o) in
  let? actions := listOf stepOf (member "actions" o) in
  let? consensus := listOf stepOf (member "consensus" o) in
  let? targets := listOf stepOf (member "targets" o) in
  Ok (mkYaml name owner triggers actions consensus targets).

(** [ParseWorkflowSpecYaml].  The library makes JSON of YAML, with the types of
    the target in mind or without; the schema is made of the Go types, and
    validates what was made without them. *)
Record Library := mkLibrary { yamlForSpec : string → outcome string jval; yamlForAny : string → outcome string jval; schema : outcome string (jval → option string) }.
Definition ParseWorkflowSpecYaml (L : Library) (O : RangeOrder (string * string)) (data : string) : outcome error WorkflowSpec :=
  let? v := map_err BadYAML (yamlForSpec L data) in
  let? w := specOf v in
  let? validate := map_err BadSchema (schema L) in
  let? jsonToValidate := map_err BadYAML (yamlForAny L data) in
  match validate jsonToValidate with
  | Some msg => Err (Invalid msg)
  | None => ToWorkflowSpec O w
  end.

(** *** Facts: identifiers *)

#[local] Instance strLe_order : Transitive (λ s t, Is_true (strLe s t)).
Proof. intros s t u. rewrite !Is_true_true. apply strLe_trans. Qed.
#[local] Instance strLe_compares : Total (λ s t, Is_true (strLe s t)).
Proof. intros s t. rewrite !Is_true_true. destruct (strLe_total s t); auto. Qed.
#[local] Instance strLe_anti : AntiSymm (=) (λ s t, Is_true (strLe s t)).
Proof. intros s t. rewrite !Is_true_true. apply strLe_antisym. Qed.

Lemma sortStrings_perm l l' : l ≡ₚ l' → sortStrings l = sortStrings l'.
Proof.
  intros Hp. apply (Sorted_unique (λ s t, Is_true (strLe s t))); [apply (Sorted_merge_sort (λ s t, Is_true (strLe s t)))..|].
  by rewrite /sortStrings !merge_sort_Permutation.
Qed.

(** The identifier of a table does not depend on the order of its labels. *)
Lemma tableString_order O O' s : tableString O s = tableString O' s.
Proof. rewrite /tableString. do 4 f_equal. apply sortStrings_perm. by rewrite !range_map_perm. Qed.
Lemma idString_order O O' s : idString O s = idString O' s.
Proof. rewrite /idString. case_decide; [done|]. destruct (idTable s); [|done]. by rewrite (tableString_order O O'). Qed.

(** An identifier is a string or a table, or neither. *)
Definition idOK (s : stepDefinitionID) : Prop := idStr s ≠ "" → idTable s = None.
Lemma id_reread s : idOK s → UnmarshalID (MarshalID s) = Ok s.
Proof.
  destruct s as [m t]. rewrite /idOK /MarshalID /UnmarshalID /=. intros Hs. destruct (decide (m ≠ "")) as [Hm|Hm]; cbn.
  - by rewrite Hs.
  - apply dec_stable in Hm as ->. destruct t as [[n v l]|]; [|done]. cbn -[object asMap]. by rewrite asMap_strings.
Qed.
Lemma UnmarshalID_ok data s : UnmarshalID data = Ok s → idOK s.
Proof.
  rewrite /UnmarshalID /idOK. destruct (asString data); [by intros [= <-]|..]; destruct (unmarshalTable data); by intros [= <-].
Qed.

(** *** Facts: inputs *)

Lemma refChars_app s t : allChars refChar s = true → refChars (s ++ t) = refChars t.
Proof.
  induction s as [|c s IH]; [done|]. cbn [allChars]. rewrite andb_true_iff. intros [Hc Hs]. change (String c s ++ t)%string with (String c (s ++ t)). cbn [refChars]. by rewrite Hc IH.
Qed.
Lemma refChars_split s : ∃ p, allChars refChar p = true ∧ s = (p ++ refChars s)%string.
Proof.
  induction s as [|c s (p & Hp & Hs)]; [by exists ""|]. cbn [refChars]. destruct (refChar c) eqn:Hc; [|by exists ""].
  exists (String c p). cbn [allChars]. rewrite Hc. split; [done|]. change (String c p ++ refChars s)%string with (String c (p ++ refChars s)). by rewrite -Hs.
Qed.

(** The inputs that are a reference are those that the builder of workflows
    makes of the steps whose names have the right characters. *)
Lemma outputRefToken_iff s : outputRefToken s = true ↔ ∃ ref, ref ≠ "" ∧ allChars refChar ref = true ∧ s = WorkflowSDK.outputsRef ref.
Proof.
  split.
  - destruct s as [|a s]; [done|]. intros H. cbn in H. destruct (ascii_dec a "$") as [->|Ha]; [|by destruct a as [[] [] [] [] [] [] [] []]].
    destruct s as [|b s]; [done|]. destruct (ascii_dec b "(") as [->|Hb]; [|by destruct b as [[] [] [] [] [] [] [] []]].
    destruct s as [|c s]; [done|]. cbn in H. apply andb_true_iff in H as [Hc Hs%String.eqb_eq]. destruct (refChars_split s) as (p & Hp & He).
    exists (String c p). cbn [allChars]. rewrite Hc Hp. split_and!; [done..|]. rewrite He Hs. done.
  - intros (ref & Hn & Hr & ->). destruct ref as [|c ref]; [done|]. cbn [allChars] in Hr. apply andb_true_iff in Hr as [Hc Hr].
    rewrite /WorkflowSDK.outputsRef. change (outputRefToken ("$(" ++ String c ref ++ ".outputs)")) with (refChar c && String.eqb (refChars (ref ++ ".outputs)")) ".outputs)").
    by rewrite Hc refChars_app.
Qed.

(** *** Facts: mappings *)

Lemma val_ind' (P : val → Prop) :
  P VNull → (∀ b, P (VBool b)) → (∀ s, P (VNum s)) → (∀ s, P (VStr s)) → (∀ z, P (VInt64 z)) → (∀ f, P (VFloat64 f)) →
  (∀ l, Forall P l → P (VArr l)) → (∀ m, Forall (λ p, P p.2) m → P (VObj m)) → ∀ v, P v.
Proof.
  intros H1 H2 H3 H4 H5 H6 Ha Ho. fix IH 1. intros [|b|s|s|z|f|l|m]; [exact H1|apply H2|apply H3|apply H4|apply H5|apply H6| |].
  - apply Ha. induction l; constructor; [apply IH|done].
  - apply Ho. induction m as [|[k v] m IHm]; constructor; [apply IH|done].
Qed.
Lemma jval_ind' (P : jval → Prop) :
  P JNull → (∀ b, P (JBool b)) → (∀ s, P (JNumber s)) → (∀ s, P (JStr s)) → (∀ l, Forall P l → P (JArr l)) → (∀ o, Forall (λ p, P p.2) o → P (JObj o)) → ∀ v, P v.
Proof.
  intros H1 H2 H3 H4 Ha Ho. fix IH 1. intros [|b|s|s|l|o]; [exact H1|apply H2|apply H3|apply H4| |].
  - apply Ha. induction l; constructor; [apply IH|done].
  - apply Ho. induction o as [|[k v] o IHo]; constructor; [apply IH|done].
Qed.

(** Keys in strict order. *)
Definition inOrder (keys : list string) : Prop := StronglySorted (λ s t, Is_true (strLe s t) ∧ s ≠ t) keys.
Lemma inOrder_NoDup keys : inOrder keys → NoDup keys.
Proof. induction 1 as [|k keys _ IH Hk]; constructor; [|done]. intros Hin. rewrite Forall_forall in Hk. by destruct (Hk k Hin). Qed.
Lemma inOrder_intro keys : StronglySorted (λ s t, Is_true (strLe s t)) keys → NoDup keys → inOrder keys.
Proof.
  induction 1 as [|k keys _ IH Hk]; intros Hn; constructor; apply NoDup_cons in Hn as [Hk' Hn]; [by apply IH|].
  rewrite Forall_forall in Hk. apply Forall_forall. intros t Ht. split; [by apply Hk|]. by intros ->.
Qed.

Lemma sorted_keys {A} (l : list (string * A)) : StronglySorted (λ p q : string * A, Is_true (strLe p.1 q.1)) l ↔ StronglySorted (λ s t, Is_true (strLe s t)) l.*1.
Proof.
  induction l as [|p l IH]; [by split; constructor|]. cbn. split; inversion_clear 1 as [|? ? Hl Hp]; (constructor; [by apply IH|]).
  - by rewrite Forall_fmap.
  - by rewrite Forall_fmap in Hp.
Qed.
#[local] Instance entries_trans {A} : Transitive (λ p q : string * A, Is_true (strLe p.1 q.1)).
Proof. intros p q r. rewrite !Is_true_true. apply strLe_trans. Qed.
#[local] Instance entries_total {A} : Total (λ p q : string * A, Is_true (strLe p.1 q.1)).
Proof. intros p q. rewrite !Is_true_true. destruct (strLe_total p.1 q.1); auto. Qed.

Lemma sortEntries_inOrder {A} (l : list (string * A)) : NoDup l.*1 → inOrder (sortEntries l).*1.
Proof.
  intros Hn. apply inOrder_intro; [by apply sorted_keys, (StronglySorted_merge_sort (λ p q : string * A, Is_true (strLe p.1 q.1)))|].
  by rewrite /sortEntries merge_sort_Permutation.
Qed.
Lemma sortEntries_id {A} (l : list (string * A)) : inOrder l.*1 → sortEntries l = l.
Proof.
  intros Ho. pose proof (inOrder_NoDup _ Ho) as Hn. assert (sortEntries l ≡ₚ l) as Hp by apply merge_sort_Permutation.
  apply (StronglySorted_unique_strong (λ p q : string * A, Is_true (strLe p.1 q.1))); [..|done].
  - intros p q Hp1 Hq H1 H2. rewrite Hp in Hp1. assert (p.1 = q.1) as He by (by apply (anti_symm (λ s t, Is_true (strLe s t)))).
    destruct p as [k a], q as [k' b]. cbn in He. subst k'. f_equal. apply list_elem_of_lookup in Hp1 as [i Hi], Hq as [j Hj].
    assert (i = j) as -> by (eapply NoDup_lookup; [exact Hn|rewrite list_lookup_fmap Hi|rewrite list_lookup_fmap Hj]; done). congruence.
  - apply (StronglySorted_merge_sort (λ p q : string * A, Is_true (strLe p.1 q.1))).
  - apply sorted_keys. clear Hn Hp. induction Ho as [|k keys _ IH Hk]; constructor; [done|]. eapply Forall_impl; [exact Hk|]. by intros t [].
Qed.
Lemma map_keys {A B} (f : A → B) (l : list (string * A)) : (map (λ p, (p.1, f p.2)) l).*1 = l.*1.
Proof. induction l as [|p l IH]; [done|]. cbn. by rewrite IH. Qed.
Lemma omapM_keys {X A B} (f : A → outcome X B) (l : list (string * A)) l' : omapM (λ p, let? v := f p.2 in Ok (p.1, v)) l = Ok l' → l'.*1 = l.*1.
Proof.
  revert l'. induction l as [|p l IH]; intros l'; cbn; [by intros [= <-]|]. destruct (f p.2); [|done..]. cbn.
  destruct (omapM _ l) as [m|e|] eqn:Hm; [|done..]. cbn. intros [= <-]. cbn. by rewrite (IH m).
Qed.

(** What [Mapping.UnmarshalJSON] leaves of a text: numbers outside of what
    slices hold are of Go's types, the others as they were written. *)
Fixpoint raw (v : val) : Prop :=
  match v with
  | VNull | VBool _ | VNum _ | VStr _ => True
  | VInt64 _ | VFloat64 _ => False
  | VArr l => foldr (λ v P, raw v ∧ P) True l
  | VObj m => inOrder m.*1 ∧ foldr (λ p P, raw p.2 ∧ P) True m
  end.
Definition scalar (v : val) : Prop :=
  match v with
  | VNum _ | VArr _ | VObj _ => False
  | VInt64 z => inS 64 z
  | VFloat64 f => contains (FloatText f) "." = true ∧ ParseFloat (FloatText f) = Some f
  | _ => True
  end.
Definition element (v : val) : Prop := match v with VArr _ | VObj _ => raw v | v => scalar v end.
Fixpoint kept (v : val) : Prop :=
  match v with
  | VArr l => Forall element l
  | VObj m => inOrder m.*1 ∧ foldr (λ p P, kept p.2 ∧ P) True m
  | v => scalar v
  end.
Lemma foldr_Forall {A} (P : A → Prop) l : foldr (λ a Q, P a ∧ Q) True l ↔ Forall P l.
Proof. induction l as [|a l IH]; cbn; [by split|]. by rewrite IH Forall_cons. Qed.

Lemma contains_avoids s : avoids "." s = true → contains s "." = false.
Proof.
  intros Ha. apply not_true_is_false. intros (pre & post & ->)%contains_split. rewrite /avoids !allChars_app in Ha.
  apply andb_true_iff in Ha as [_ Ha]. apply andb_true_iff in Ha as [Ha _]. done.
Qed.
Lemma Atoi_inS s z : Atoi s = Some z → inS 64 z.
Proof.
  assert (∀ o : option Z, (z' ← o; if decide (- 2 ^ 63 <= z' < 2 ^ 63)%Z then Some z' else None) = Some z → inS 64 z) as Hr.
  { intros [z'|]; [|done]. cbn. destruct (decide _) as [Hz|]; [|done]. by intros [= <-]. }
  assert (∀ s, (z' ← digits 0 s; if decide (- 2 ^ 63 <= - z' < 2 ^ 63)%Z then Some (- z')%Z else None) = Some z → inS 64 z) as Hn.
  { intros s'. destruct (digits 0 s') as [z'|]; [|done]. cbn. destruct (decide _) as [Hz|]; [|done]. by intros [= <-]. }
  rewrite /Atoi. repeat case_match; try done; intros He; (by eapply Hr) || (by eapply Hn).
Qed.

Lemma raw_reread v : raw v → decoded (encoded v) = v.
Proof.
  induction v as [| | | | | |l IH|m IH] using val_ind'; try done; cbn.
  - rewrite foldr_Forall. intros Hl. f_equal. induction Hl as [|v l Hv _ IHl]; [done|]. apply Forall_cons in IH as [H1 H2]. cbn. by rewrite H1 // IHl.
  - rewrite (foldr_Forall (λ p : string * val, raw p.2)). intros [Ho Hm]. f_equal. rewrite (sortEntries_id (map _ m)); [|by rewrite map_keys].
    rewrite sortEntries_id; [|by rewrite !map_keys]. clear Ho. induction Hm as [|[k v] m Hv _ IHm]; [done|]. apply Forall_cons in IH as [H1 H2]. cbn in *. by rewrite H1 // IHm.
Qed.
Lemma scalar_reread v : scalar v → convertNumber (decoded (encoded v)) = Ok v.
Proof.
  destruct v as [| | | |z|f| |]; try done; cbn.
  - intros Hz. rewrite contains_avoids; [|by apply Itoa_avoids]. by rewrite Atoi_Itoa.
  - by intros [-> ->].
Qed.
Lemma element_reread v : element v → convertNumber (decoded (encoded v)) = Ok v.
Proof. destruct v; try apply scalar_reread; cbn [element]; intros Hv; by rewrite (raw_reread _ Hv). Qed.
Lemma kept_reread v : kept v → convertEntry (decoded (encoded v)) = Ok v.
Proof.
  induction v as [| | | |z|f|l _|m IH] using val_ind'; cbn [kept].
  1-6: intros Hv; pose proof (scalar_reread _ Hv) as Hs; exact Hs || by (cbn in Hv).
  - intros Hl. cbn. assert (omapM convertNumber (map decoded (map encoded l)) = Ok l) as ->; [|done].
    induction Hl as [|v l Hv _ IHl]; [done|]. cbn. by rewrite element_reread //= IHl.
  - rewrite (foldr_Forall (λ p : string * val, kept p.2)). intros [Ho Hm]. cbn. rewrite (sortEntries_id (map _ m)); [|by rewrite map_keys].
    rewrite sortEntries_id; [|by rewrite !map_keys]. set (f := omapM _). assert (f (map (λ p, (p.1, decoded p.2)) (map (λ p, (p.1, encoded p.2)) m)) = Ok m) as ->; [|done].
    subst f. clear Ho. induction Hm as [|[k v] m Hv _ IHm]; [done|]. apply Forall_cons in IH as [H1 H2]. cbn in *. by rewrite H1 //= IHm.
Qed.

(** A mapping that is kept is read as it was written. *)
Lemma mapping_reread m : kept (VObj m) → UnmarshalMapping (MarshalMapping (Some m)) = Ok m.
Proof. intros Hm. pose proof (kept_reread _ Hm) as Hr. cbn in Hr |- *. rewrite /convertNumbers. revert Hr. set (r := omapM _ _). destruct r as [m'|e|]; [|done..]. by intros [= ->]. Qed.

(** Every object of a text has distinct names. *)
Fixpoint distinct (v : jval) : Prop :=
  match v with
  | JArr l => foldr (λ v P, distinct v ∧ P) True l
  | JObj o => NoDup o.*1 ∧ foldr (λ p P, distinct p.2 ∧ P) True o
  | _ => True
  end.
(** The floats that were converted have a point in their texts. *)
Fixpoint pointed (v : val) : Prop :=
  match v with
  | VFloat64 f => contains (FloatText f) "." = true
  | VArr l => Forall (λ v, match v with VFloat64 f => contains (FloatText f) "." = true | _ => True end) l
  | VObj m => foldr (λ p P, pointed p.2 ∧ P) True m
  | _ => True
  end.

Lemma Forall_sortEntries {A} (P : string * A → Prop) l : Forall P l → Forall P (sortEntries l).
Proof. intros Hl. by rewrite /sortEntries merge_sort_Permutation. Qed.
Lemma decoded_raw v : distinct v → raw (decoded v).
Proof.
  induction v as [| | | |l IH|o IH] using jval_ind'; try done; cbn.
  - rewrite !foldr_Forall. intros Hl. rewrite Forall_map. induction Hl; decompose_Forall_hyps; constructor; auto.
  - intros [Hn Ho]. split; [apply sortEntries_inOrder; by rewrite map_keys|]. rewrite (foldr_Forall (λ p : string * jval, distinct p.2)) in Ho.
    apply (foldr_Forall (λ p : string * val, raw p.2)). apply Forall_sortEntries. rewrite Forall_map. clear Hn.
    induction Ho; decompose_Forall_hyps; constructor; auto.
Qed.

Section float_law.
(** The text of a float that was read is read as the float. *)
Context (floats_reread : ∀ s f, ParseFloat s = Some f → ParseFloat (FloatText f) = Some f).

Lemma converted_element v w : raw v → convertNumber v = Ok w → (match w with VFloat64 f => contains (FloatText f) "." = true | _ => True end) → element w.
Proof.
  intros Hr. destruct v as [| |s| | | |l|m]; cbn [convertNumber]; try by intros [= <-].
  destruct (contains s "."); [destruct (ParseFloat s) eqn:E|destruct (Atoi s) eqn:E]; try done; intros [= <-]; cbn.
  - intros Hp. split; [done|]. by eapply floats_reread.
  - intros _. by eapply Atoi_inS.
Qed.
Lemma converted_kept v w : raw v → convertEntry v = Ok w → pointed w → kept w.
Proof.
  assert (∀ v w, raw v → convertNumber v = Ok w → pointed w → (∀ l, v ≠ VArr l) → (∀ m, v ≠ VObj m) → kept w) as Hscalar.
  { intros v' w' Hr Hc Hp Ha Ho. pose proof (converted_element v' w' Hr Hc) as He. assert ((∀ l, w' ≠ VArr l) ∧ (∀ m, w' ≠ VObj m)) as [H1 H2].
    { destruct v' as [| |s| | | |l|m]; cbn in Hc; try injection Hc as <-; try by (split; intros ? [=]).
      - destruct (contains s "."); [destruct (ParseFloat s)|destruct (Atoi s)]; try done; injection Hc as <-; done.
      - by destruct (Ha l).
      - by destruct (Ho m). }
    destruct w' as [| | | | | |l|m]; try (by apply He); [by destruct (H1 l)|by destruct (H2 m)]. }
  revert w. induction v as [|b|s|s|z|f|l _|m IH] using val_ind'; intros w Hr Hc Hp.
  1-6: by eapply Hscalar.
  - cbn in Hc, Hr. rewrite foldr_Forall in Hr. destruct (omapM convertNumber l) as [l'|e|] eqn:E; [|done..]. injection Hc as <-. cbn in Hp |- *.
    apply omapM_Forall2 in E. clear Hscalar. induction E as [|v w l l' Hvw _ IHl]; [constructor|]. decompose_Forall_hyps. constructor; [by eapply converted_element|by apply IHl].
  - destruct Hr as [Ho Hr]. rewrite (foldr_Forall (λ p : string * val, raw p.2)) in Hr. cbn in Hc. destruct (omapM _ m) as [m'|e|] eqn:E; [|done..]. injection Hc as <-.
    cbn in Hp |- *. split; [by rewrite (omapM_keys convertEntry m m' E)|]. rewrite (foldr_Forall (λ p : string * val, pointed p.2)) in Hp. apply (foldr_Forall (λ p : string * val, kept p.2)).
    apply omapM_Forall2 in E. clear Ho Hscalar. induction E as [|[k v] w m m' Hvw _ IHm]; [constructor|]. decompose_Forall_hyps. constructor; [|by apply IHm].
    destruct (convertEntry v) as [v'|e|] eqn:Hv; [|done..]. injection Hvw as <-. cbn in *. by auto.
Qed.

(** What a mapping was read from, it is read from again when it is written. *)
Lemma mapping_stable b m : distinct b → UnmarshalMapping b = Ok m → pointed (VObj m) → UnmarshalMapping (MarshalMapping (Some m)) = Ok m.
Proof.
  intros Hd Hm Hp. apply mapping_reread. destruct b as [| | | | |o]; try done; [injection Hm as <-; split; [constructor|done]|].
  apply (converted_kept (decoded (JObj o))); [by apply decoded_raw| |done].
  cbn in Hm |- *. rewrite /convertNumbers in Hm. by rewrite Hm.
Qed.

Lemma inputs_stable b i : distinct b → UnmarshalInputs b = Ok i → pointed (VObj (default [] (mapping i))) → UnmarshalInputs (MarshalInputs i) = Ok i.
Proof.
  rewrite /UnmarshalInputs. intros Hd. destruct (asString b) as [s|e|] eqn:E.
  - destruct (outputRefToken s) eqn:Ht; [|done]. intros [= <-] _. rewrite /MarshalInputs /=. rewrite decide_True; [by rewrite /= Ht|]. by intros ->.
  - destruct (UnmarshalMapping b) as [m|e'|] eqn:Hm; [|done..]. intros [= <-] Hp. cbn [mapping default] in Hp.
    pose proof (mapping_stable b m Hd Hm Hp) as Hs. change (MarshalInputs (mkInputs (Some m) "")) with (MarshalMapping (Some m)).
    change (asString (MarshalMapping (Some m))) with (@Err CodecConfig.error string InvalidJSON). cbv iota. by rewrite Hs.
  - by destruct b.
Qed.
End float_law.

(** *** Facts: workflows *)

Definition blank (s : stepDefinitionID) : Prop := idStr s = "" ∧ idTable s = None.
#[global] Instance blank_dec s : Decision (blank s).
Proof. rewrite /blank. destruct (idTable s); [right; by intros []|]. destruct (decide (idStr s = "")); [by left|right; by intros []]. Defined.
Definition idOf (O : RangeOrder (string * string)) (s : stepDefinitionID) : string :=
  if decide (idStr s ≠ "") then idStr s else match idTable s with Some t => tableString O t | None => "" end.
Definition stepFor (O : RangeOrder (string * string)) (t : string) (s : stepDefinitionYaml) : StepDefinition := mkStepDefinition (idOf O (yID s)) (yRef s) (yInputs s) (yConfig s) t.
Definition triggerFor (O : RangeOrder (string * string)) (s : triggerDefinitionYaml) : StepDefinition :=
  mkStepDefinition (idOf O (tID s)) (tRef s) (mkInputs None "") (tConfig s) CapabilityTypeTrigger.
Definition idsOf (w : WorkflowSpecYaml) : list stepDefinitionID := (tID <$> wTriggers w) ++ (yID <$> wActions w) ++ (yID <$> wConsensus w) ++ (yID <$> wTargets w).

Lemma idString_spec O s : idString O s = if decide (blank s) then Panic else Ok (idOf O s).
Proof.
  rewrite /idString /idOf. destruct (decide (blank s)) as [[-> ->]|Hb]; [done|]. destruct (decide (idStr s ≠ "")) as [|He]; [done|]. apply dec_stable in He.
  destruct (idTable s) eqn:E; [done|]. by destruct Hb.
Qed.

Lemma omapM_ids {A} (f : A → outcome error StepDefinition) (i : A → stepDefinitionID) (g : A → StepDefinition) l :
  (∀ a, f a = if decide (blank (i a)) then Panic else Ok (g a)) → omapM f l = if decide (Exists blank (i <$> l)) then Panic else Ok (g <$> l).
Proof.
  intros Hf. induction l as [|a l IH]; [by destruct (decide _) as [He|]; [apply Exists_nil in He|]|]. cbn [omapM fmap list_fmap].
  rewrite Hf. destruct (decide (blank (i a))) as [Hb|Hb].
  - rewrite decide_True //. by left.
  - rewrite IH. destruct (decide (Exists blank (i <$> l))) as [He|He]; [rewrite decide_True //; by right|]. rewrite decide_False //. by rewrite Exists_cons; intros [].
Qed.

(** A workflow becomes the specification that has its steps in their order, with
    the type of their section; there is a panic exactly if a step has no
    identifier. *)
Lemma ToWorkflowSpec_exact O w : ToWorkflowSpec O w =
  if decide (Exists blank (idsOf w)) then Panic
  else Ok (mkSpec (wName w) (wOwner w) (triggerFor O <$> wTriggers w) (stepFor O CapabilityTypeAction <$> wActions w) (stepFor O CapabilityTypeConsensus <$> wConsensus w)
             (stepFor O CapabilityTypeTarget <$> wTargets w)).
Proof.
  rewrite /ToWorkflowSpec. rewrite (omapM_ids _ tID (triggerFor O)).
  2: { intros a. rewrite /toTrigger idString_spec. by destruct (decide (blank (tID a))). }
  rewrite (omapM_ids _ yID (stepFor O CapabilityTypeAction)).
  2: { intros a. rewrite /toStepDefinition idString_spec. by destruct (decide (blank (yID a))). }
  rewrite (omapM_ids _ yID (stepFor O CapabilityTypeConsensus)).
  2: { intros a. rewrite /toStepDefinition idString_spec. by destruct (decide (blank (yID a))). }
  rewrite (omapM_ids _ yID (stepFor O CapabilityTypeTarget)).
  2: { intros a. rewrite /toStepDefinition idString_spec. by destruct (decide (blank (yID a))). }
  destruct (decide (Exists blank (idsOf w))) as [He|He]; rewrite /idsOf !Exists_app in He;
    destruct (decide (Exists blank (tID <$> wTriggers w))); [tauto||done| |tauto|]; destruct (decide (Exists blank (yID <$> wActions w))); try (done || tauto);
    destruct (decide (Exists blank (yID <$> wConsensus w))); try (done || tauto); destruct (decide (Exists blank (yID <$> wTargets w))); done || tauto.
Qed.

(** Parsing never panics if the schema asks for the identifiers of steps, and
    does not depend on the order of labels. *)
Definition asksForIDs (L : Library) : Prop := ∀ data v w validate j,
  yamlForSpec L data = Ok v → specOf v = Ok w → schema L = Ok validate → yamlForAny L data = Ok j → validate j = None → ¬ Exists blank (idsOf w).
Definition libraryTotal (L : Library) : Prop := (∀ data, yamlForSpec L data ≠ Panic) ∧ (∀ data, yamlForAny L data ≠ Panic) ∧ schema L ≠ Panic.

Lemma omapM_total {X A B} (f : A → outcome X B) l : (∀ a, f a ≠ Panic) → omapM f l ≠ Panic.
Proof. intros Hf. induction l as [|a l IH]; [done|]. cbn. specialize (Hf a). destruct (f a); try done. by destruct (omapM f l). Qed.
Ltac total := repeat (match goal with |- context [match ?x with _ => _ end] => destruct x eqn:? end; try done).
Lemma convertNumber_total v : convertNumber v ≠ Panic.
Proof. destruct v; try done. cbn. total. Qed.
Lemma convertEntry_total v : convertEntry v ≠ Panic.
Proof.
  induction v as [|b|s|s|z|f|l _|m IH] using val_ind'; try apply convertNumber_total; cbn.
  - pose proof (omapM_total convertNumber l convertNumber_total). by destruct (omapM convertNumber l).
  - set (f := omapM _). assert (f m ≠ Panic) as Hm; [|by destruct (f m)]. subst f. induction IH as [|p m Hp _ IHm]; [done|]. cbn. destruct (convertEntry p.2); try done. cbn.
    by destruct (omapM _ m).
Qed.
Lemma UnmarshalMapping_total b : UnmarshalMapping b ≠ Panic.
Proof.
  destruct b as [| | | | |o]; try done. cbn. rewrite /convertNumbers. apply omapM_total. intros p. pose proof (convertEntry_total p.2). by destruct (convertEntry p.2).
Qed.
Lemma asString_total v : asString v ≠ Panic.
Proof. by destruct v. Qed.
Lemma UnmarshalID_total b : UnmarshalID b ≠ Panic.
Proof.
  rewrite /UnmarshalID /unmarshalTable. destruct (asString b) eqn:?; try done; destruct b; try done; cbn -[asMap member].
  all: match goal with |- context [asString ?x] => pose proof (asString_total x); destruct (asString x) end; try done; cbn -[asMap member].
  all: match goal with |- context [asString ?x] => pose proof (asString_total x); destruct (asString x) end; try done; cbn -[asMap member].
  all: rewrite /asMap; destruct (member _ _); try done; match goal with |- context [omapM ?f ?l] => assert (omapM f l ≠ Panic); [apply omapM_total; intros p; by destruct p.2|by destruct (omapM f l)] end.
Qed.
Lemma field_total {A} (f : jval → outcome error A) z n o : (∀ v, f v ≠ Panic) → field f z n o ≠ Panic.
Proof. intros Hf. rewrite /field. by destruct (present n o). Qed.
Lemma configField_total o : configField o ≠ Panic.
Proof. apply field_total. intros v. pose proof (UnmarshalMapping_total v). by destruct (UnmarshalMapping v). Qed.
Lemma UnmarshalInputs_total b : UnmarshalInputs b ≠ Panic.
Proof.
  rewrite /UnmarshalInputs. pose proof (UnmarshalMapping_total b). destruct (asString b); [by destruct (outputRefToken a)|by destruct (UnmarshalMapping b)..].
Qed.
Lemma jsonErr_total {A} (r : outcome CodecConfig.error A) : r ≠ Panic → jsonErr r ≠ Panic.
Proof. by destruct r. Qed.
(** One part of a structure after the other. *)
Lemma bind_total {X A B} (r : outcome X A) (f : A → outcome X B) : r ≠ Panic → (∀ a, f a ≠ Panic) → (let? a := r in f a) ≠ Panic.
Proof. destruct r; cbn; auto. Qed.
Lemma asObject_total v : asObject v ≠ Panic.
Proof. by destruct v. Qed.
Ltac part := apply bind_total; [solve [apply configField_total | apply jsonErr_total; first [apply asObject_total|apply asString_total] | apply field_total; first [apply UnmarshalID_total|apply UnmarshalInputs_total]]|intros ?].
Lemma triggerOf_total v : triggerOf v ≠ Panic.
Proof. rewrite /triggerOf. do 4 part. done. Qed.
Lemma stepOf_total v : stepOf v ≠ Panic.
Proof. rewrite /stepOf. do 5 part. done. Qed.
Lemma listOf_total {A} (f : jval → outcome error A) v : (∀ v, f v ≠ Panic) → listOf f v ≠ Panic.
Proof. intros Hf. destruct v; try done. by apply omapM_total. Qed.
Lemma specOf_total v : specOf v ≠ Panic.
Proof.
  rewrite /specOf. do 3 part. repeat (apply bind_total; [apply listOf_total; first [apply triggerOf_total|apply stepOf_total]|intros ?]). done.
Qed.

Theorem parse_no_panic L O data : libraryTotal L → asksForIDs L → ParseWorkflowSpecYaml L O data ≠ Panic.
Proof.
  intros (H1 & H2 & H3) Ha. rewrite /ParseWorkflowSpecYaml. specialize (H1 data). specialize (H2 data).
  destruct (yamlForSpec L data) as [v| |] eqn:Ev; try done. cbn. pose proof (specOf_total v). destruct (specOf v) as [w| |] eqn:Ew; try done. cbn.
  destruct (schema L) as [validate| |] eqn:Es; try done. cbn. destruct (yamlForAny L data) as [j| |] eqn:Ej; try done. cbn.
  destruct (validate j) eqn:Evj; [done|]. rewrite ToWorkflowSpec_exact. pose proof (Ha _ _ _ _ _ Ev Ew Es Ej Evj). by destruct (decide (Exists blank (idsOf w))).
Qed.
End mapping.

(** *** Runs *)

(** Whole numbers with one digit after the point, as 64-bit floats up to 2. *)
Definition someFloats (s : string) : option Z := if String.eqb s "1.0" then Some 4607182418800017408%Z else if String.eqb s "2.0" then Some 4611686018427387904%Z else None.
Definition someTexts (f : Z) : string := if (f =? 4611686018427387904)%Z then "2" else "1".

(** A float without a fraction is written without a point, and comes back as an
    integer. *)
Example float_becomes_integer : ∃ m, UnmarshalMapping someFloats (JObj [("a", JNumber "2.0")]) = Ok m ∧ UnmarshalMapping someFloats (MarshalMapping someTexts (Some m)) = Ok [("a", VInt64 2)] ∧
  m = [("a", VFloat64 4611686018427387904)].
Proof. by eexists. Qed.
(** A number in a map in a slice stays what was written; in a slice it does not. *)
Example numbers_left : UnmarshalMapping someFloats (JObj [("a", JArr [JNumber "1"; JObj [("b", JNumber "1")]; JArr [JNumber "1"]])]) =
  Ok [("a", VArr [VInt64 1; VObj [("b", VNum "1")]; VArr [VNum "1"]])].
Proof. done. Qed.
(** A float with an exponent and no point is taken for an integer, and refused. *)
Example exponent_refused : UnmarshalMapping someFloats (JObj [("a", JNumber "1e21")]) = Err BadNumber.
Proof. done. Qed.

(** Without labels there are two separators, and different labels may give one
    identifier. *)
Example no_labels : tableString (insertion_order _) (mkTableID "chain" "1.0.0" None) = "chain:@1.0.0".
Proof. by vm_compute. Qed.
Example ids_collide : tableString (insertion_order _) (mkTableID "chain" "1.0.0" (Some {[ "a" := "b_c" ]})) = tableString (insertion_order _) (mkTableID "chain" "1.0.0" (Some {[ "a_b" := "c" ]})).
Proof. by vm_compute. Qed.
Example labels_sorted : tableString (reverse_order _) (mkTableID "chain" "1.0.0" (Some (<["network" := "mainnet"]> {[ "chain" := "ethereum" ]}))) = "chain:chain_ethereum:network_mainnet@1.0.0".
Proof. by vm_compute. Qed.

(** Inputs that are null are refused, unlike a configuration; a step without an
    identifier is a panic, if no schema refuses it. *)
Example null_inputs : stepOf someFloats (JObj [("id", JStr "a@1.0.0"); ("inputs", JNull); ("config", JNull)]) = Err IncorrectRef ∧
  stepOf someFloats (JObj [("id", JStr "a@1.0.0"); ("config", JNull)]) = Ok (mkStepYaml (mkID "a@1.0.0" None) "" (mkInputs None "") (Some [])).
Proof. done. Qed.
Example no_id : (let? w := specOf someFloats (JObj [("targets", JArr [JObj [("config", JObj [])]])]) in ToWorkflowSpec (insertion_order _) w) = Panic.
Proof. done. Qed.

(** A workflow whose library takes one text for one tree. *)
Definition demoTree : jval := JObj [
  ("name", JStr "demo");
  ("triggers", JArr [JObj [("id", JObj [("name", JStr "streams"); ("version", JStr "1.0.0"); ("labels", JObj [("chain", JStr "evm")])]); ("config", JObj [("n", JNumber "3")])]]);
  ("targets", JArr [JObj [("id", JStr "write@1.0.0"); ("inputs", JStr "$(trigger.outputs)"); ("config", JObj [])]])].
Definition hasID (v : jval) : bool := match v with JObj o => match present "id" o with Some (JStr s) => negb (String.eqb s "") | Some (JObj _) => true | _ => false end | _ => false end.
Definition demoSchema (v : jval) : option string :=
  let steps n o := match member n o with JArr l => forallb hasID l | _ => true end in
  match v with JObj o => if steps "triggers" o && steps "actions" o && steps "consensus" o && steps "targets" o then None else Some "missing id" | _ => Some "not an object" end.
Definition demoLibrary : Library := mkLibrary (λ _, Ok demoTree) (λ _, Ok demoTree) (Ok demoSchema).
Example demo_parsed : ParseWorkflowSpecYaml someFloats demoLibrary (insertion_order _) "demo" =
  Ok (mkSpec "demo" "" [mkStepDefinition "streams:chain_evm@1.0.0" "" (mkInputs None "") (Some [("n", VInt64 3)]) CapabilityTypeTrigger] [] []
        [mkStepDefinition "write@1.0.0" "" (mkInputs None "$(trigger.outputs)") (Some []) CapabilityTypeTarget]).
Proof. by vm_compute. Qed.
Lemma demo_asks : libraryTotal demoLibrary ∧ asksForIDs someFloats demoLibrary.
Proof.
  split; [done|]. intros data v w validate j [= <-] Hw [= <-] [= <-] _. vm_compute in Hw. injection Hw as <-. cbn. rewrite !Exists_cons Exists_nil. by intros [[]|[[]|[]]].
Qed.
Lemma parse_no_panic_witness : ParseWorkflowSpecYaml someFloats demoLibrary (insertion_order _) "demo" ≠ Panic.
Proof. apply (parse_no_panic someFloats demoLibrary); apply demo_asks. Defined.
End WorkflowYaml.
