(* ===== verification/JSONSerializable.v ===== *)
(** [src/pkg/utils/jsonserializable]: values of tasks that are kept as JSON.

    A JSON text is the tree of [CodecConfig]; that there is no text is [None].
    A Go map is its entries in the order of their keys, and not nil.  The conversion between
    decimal texts and floats is a parameter. *)

From Stdlib.Strings Require Import Ascii.
From S2P Require Import Prelude GoBytes GoStrings CCIPTypes CodecConfig NullUint32 WorkflowYaml.

Module JSONSerializable.
Import CodecConfig.CodecConfig WorkflowYaml.

(** What an interface holds: what JSON gives, and the byte strings, arrays,
    slices of other types and values with a [Hex] method of programs. *)
Inductive gval :=
  | GNil | GBool (b : bool) | GString (s : string) | GInt64 (z : Z) | GUint64 (z : Z) | GBig (z : Z) | GFloat (bits : Z)
  | GSlice (l : list gval) | GMap (m : list (string * gval))
  | GBytes (b : list byte) | GByteSlices (l : list (list byte)) | GByteArray (b : list byte) | GTypedSlice (l : list gval) | GHex (s : string).

Record JSONSerializable := mkJSON { Val : gval; Valid : bool }.
Inductive error := BadNumber | NotBytes.

Section json.
(** [strconv.ParseFloat(s, 64)], and the text of a float in JSON. *)
Context (ParseFloat : string → option Z) (FloatText : Z → string).

Definition getJSONNumberValue (value : string) : outcome error gval :=
  match CCIPTypes.SetString value with
  | Some bn => Ok (if bool_decide (inS 64 bn) then GInt64 bn else if bool_decide (inU 64 bn) then GUint64 bn else GBig bn)
  | None => match ParseFloat value with Some f => Ok (GFloat f) | None => Err BadNumber end
  end.

(** [ReinterpretJSONNumbers] of what a decoder that uses numbers gives. *)
Fixpoint ReinterpretJSONNumbers (v : jval) : outcome error gval :=
  match v with
  | JNull => Ok GNil
  | JBool b => Ok (GBool b)
  | JStr s => Ok (GString s)
  | JNumber n => getJSONNumberValue n
  | JArr l => let? s := omapM ReinterpretJSONNumbers l in Ok (GSlice s)
  | JObj o => let? m := omapM (λ p, let? v := ReinterpretJSONNumbers p.2 in Ok (p.1, v)) o in Ok (GMap (sortEntries m))
  end.

(** [UnmarshalJSON]: without a text the value is not valid, and null leaves
    everything as it was. *)
Definition UnmarshalJSON (js : JSONSerializable) (bs : option jval) : outcome error JSONSerializable :=
  match bs with
  | None => Ok (mkJSON (Val js) false)
  | Some JNull => Ok js
  | Some decoded => let? reinterpreted := ReinterpretJSONNumbers decoded in Ok (mkJSON reinterpreted true)
  end.

(** [stringToHex] of bytes. *)
Definition stringToHex (s : list byte) : string :=
  let str := hexEncode s in if decide (String.length str < 2) then ("0x" ++ str)%string else if negb (HasPrefix (ToLower str) "0x") then ("0x" ++ str)%string else str.

(** [replaceBytesWithHex], whose lists are nil if they are empty, and
    [json.Marshal] of what it gives. *)
Definition list_ (l : list jval) : jval := match l with [] => JNull | l => JArr l end.
Fixpoint replaced (v : gval) : jval :=
  match v with
  | GHex s => JStr s
  | GNil => JNull
  | GBytes b | GByteArray b => JStr (stringToHex b)
  | GByteSlices l => list_ (map (λ b, JStr (stringToHex b)) l)
  | GSlice l | GTypedSlice l => list_ (map replaced l)
  | GMap m => JObj (sortEntries (map (λ p, (p.1, replaced p.2)) m))
  | GBool b => JBool b
  | GString s => JStr s
  | GInt64 z | GUint64 z | GBig z => JNumber (Itoa z)
  | GFloat f => JNumber (FloatText f)
  end.
Definition MarshalJSON (js : JSONSerializable) : jval := if Valid js then replaced (Val js) else JNull.

Definition Empty (js : option JSONSerializable) : bool := match js with None => true | Some js => negb (Valid js) end.
(** [Value] and [Scan]; the bytes of the database are a JSON text. *)
Inductive dbJSON := DBNil | DBBytes (bs : option jval) | DBOther.
Definition Value (js : JSONSerializable) : dbJSON := if Valid js then DBBytes (Some (MarshalJSON js)) else DBNil.
Definition Scan (js : JSONSerializable) (value : dbJSON) : outcome error JSONSerializable :=
  match value with
  | DBNil => Ok (mkJSON GNil false)
  | DBBytes bs => UnmarshalJSON js bs
  | DBOther => Err NotBytes
  end.

(** *** Facts *)

(** A hexadecimal text never has the prefix itself. *)
Lemma stringToHex_prefix s : stringToHex s = ("0x" ++ hexEncode s)%string.
Proof.
  rewrite /stringToHex. destruct (decide _); [done|]. rewrite ToLower_hexEncode. destruct s as [|b s]; [done|]. cbn [hexEncode HasPrefix].
  assert (Ascii.eqb "x" (hexChar (Z_of_byte b mod 16)) = false) as -> by (by destruct b). by rewrite /= andb_false_r.
Qed.

Lemma gval_ind' (P : gval → Prop) :
  P GNil → (∀ b, P (GBool b)) → (∀ s, P (GString s)) → (∀ z, P (GInt64 z)) → (∀ z, P (GUint64 z)) → (∀ z, P (GBig z)) → (∀ f, P (GFloat f)) →
  (∀ l, Forall P l → P (GSlice l)) → (∀ m, Forall (λ p, P p.2) m → P (GMap m)) →
  (∀ b, P (GBytes b)) → (∀ l, P (GByteSlices l)) → (∀ b, P (GByteArray b)) → (∀ l, Forall P l → P (GTypedSlice l)) → (∀ s, P (GHex s)) → ∀ v, P v.
Proof.
  intros H1 H2 H3 H4 H5 H6 H7 Hs Hm H8 H9 H10 Ht H11. fix IH 1.
  intros [|b|s|z|z|z|f|l|m|b|l|b|l|s]; [exact H1|apply H2|apply H3|apply H4|apply H5|apply H6|apply H7| | |apply H8|apply H9|apply H10| |apply H11].
  - apply Hs. induction l; constructor; [apply IH|done].
  - apply Hm. induction m as [|[k v] m IHm]; constructor; [apply IH|done].
  - apply Ht. induction l; constructor; [apply IH|done].
Qed.

(** Values whose numbers have the ranges of their types, whose floats are read
    from their texts (as integers if these are integers), and whose maps are
    in order. *)
Definition floatOK (f : Z) : Prop :=
  match CCIPTypes.SetString (FloatText f) with Some z => Itoa z = FloatText f | None => ParseFloat (FloatText f) = Some f end.
Fixpoint good (v : gval) : Prop :=
  match v with
  | GFloat f => floatOK f
  | GSlice l | GTypedSlice l => foldr (λ v P, good v ∧ P) True l
  | GMap m => inOrder m.*1 ∧ foldr (λ p P, good p.2 ∧ P) True m
  | _ => True
  end.

Lemma getJSONNumberValue_Itoa z : ∃ g, getJSONNumberValue (Itoa z) = Ok g ∧ replaced g = JNumber (Itoa z).
Proof. rewrite /getJSONNumberValue CCIPTypes.SetString_Itoa. eexists. split; [reflexivity|]. by repeat case_bool_decide. Qed.
(** Lists that come back: as null if they are empty. *)
Lemma list_there l l' : Forall2 (λ j j', ∃ g, ReinterpretJSONNumbers j = Ok g ∧ replaced g = j') l l' → l = l' → ∃ g, ReinterpretJSONNumbers (list_ l) = Ok g ∧ replaced g = list_ l.
Proof.
  intros Hl <-. assert (∃ gs, omapM ReinterpretJSONNumbers l = Ok gs ∧ map replaced gs = l) as (gs & Hg & Hr).
  { induction l as [|j l IH]; [by exists []|]. apply Forall2_cons in Hl as [(g & Hg & Hr) Hl]. destruct (IH Hl) as (gs & Hgs & Hrs). exists (g :: gs). cbn. by rewrite Hg Hgs /= Hr Hrs. }
  destruct l as [|j l]; [by exists GNil|]. exists (GSlice gs). split; [change (list_ (j :: l)) with (JArr (j :: l)); cbn [ReinterpretJSONNumbers]; by rewrite Hg|]. cbn [replaced]. by rewrite Hr.
Qed.

(** What is marshalled is read again, and marshalled to the same: bytes as
    hexadecimal texts, empty lists as null. *)
Theorem marshalled_stable v : good v → ∃ g, ReinterpretJSONNumbers (replaced v) = Ok g ∧ replaced g = replaced v.
Proof.
  induction v as [|b|s|z|z|z|f|l IH|m IH|b|l|b|l IH|s] using gval_ind'; cbn [good].
  1-3: intros _; eexists; (split; [reflexivity|done]).
  1-3: intros _; apply getJSONNumberValue_Itoa.
  - rewrite /floatOK. cbn. rewrite /getJSONNumberValue. destruct (CCIPTypes.SetString (FloatText f)) as [z|] eqn:E; intros Hf.
    + rewrite -Hf. eexists. split; [reflexivity|]. by repeat case_bool_decide.
    + rewrite Hf. by eexists.
  - rewrite foldr_Forall. intros Hl. cbn [replaced]. eapply list_there; [|reflexivity]. rewrite Forall2_fmap. apply Forall_Forall2_diag. induction Hl; decompose_Forall_hyps; constructor; auto.
  - rewrite (foldr_Forall (λ p : string * gval, good p.2)). intros [Ho Hm]. cbn [replaced]. rewrite (sortEntries_id (map _ m)); [|by rewrite map_keys].
    assert (∃ gs, omapM (λ p, let? v := ReinterpretJSONNumbers p.2 in Ok (p.1, v)) (map (λ p, (p.1, replaced p.2)) m) = Ok gs ∧ gs.*1 = m.*1 ∧
      map (λ p, (p.1, replaced p.2)) gs = map (λ p, (p.1, replaced p.2)) m) as (gs & Hg & Hk & Hr).
    { clear Ho. induction Hm as [|[k v] m Hv _ IHm]; [by exists []|]. apply Forall_cons in IH as [H1 H2]. destruct (H1 Hv) as (g & Hg & Hr). destruct (IHm H2) as (gs & Hgs & Hks & Hrs).
      exists ((k, g) :: gs). cbn in *. by rewrite Hg Hgs /= Hks Hr Hrs. }
    exists (GMap gs). split; [cbn [ReinterpretJSONNumbers]; rewrite Hg; cbn; by rewrite sortEntries_id ?Hk|]. cbn [replaced]. by rewrite Hr sortEntries_id ?map_keys.
  - intros _. by eexists.
  - intros _. cbn [replaced]. eapply list_there; [|reflexivity]. rewrite Forall2_fmap. apply Forall_Forall2_diag, Forall_forall. intros b _. by eexists.
  - intros _. by eexists.
  - rewrite foldr_Forall. intros Hl. cbn [replaced]. eapply list_there; [|reflexivity]. rewrite Forall2_fmap. apply Forall_Forall2_diag. induction Hl; decompose_Forall_hyps; constructor; auto.
  - intros _. by eexists.
Qed.

(** A valid value comes back valid, with the same JSON, and from the database
    too, unless it is null: then the receiver stays as it was. *)
Lemma json_reread v js : good v → replaced v ≠ JNull →
  ∃ js', UnmarshalJSON js (Some (MarshalJSON (mkJSON v true))) = Ok js' ∧ Scan js (Value (mkJSON v true)) = Ok js' ∧ Valid js' = true ∧ MarshalJSON js' = MarshalJSON (mkJSON v true).
Proof.
  intros Hv Hn. destruct (marshalled_stable v Hv) as (g & Hg & Hr). exists (mkJSON g true). cbn [MarshalJSON Valid Val Value Scan].
  rewrite /UnmarshalJSON. destruct (replaced v); try done; rewrite Hg; done.
Qed.
(** Whatever a value is, a new one that is read from its JSON has the same. *)
Lemma json_there js : (Valid js = true → good (Val js)) → ∃ js', UnmarshalJSON (mkJSON GNil false) (Some (MarshalJSON js)) = Ok js' ∧ MarshalJSON js' = MarshalJSON js.
Proof.
  destruct js as [v []]; cbn [Valid Val]; [|intros _; by eexists]. intros Hv. destruct (replaced v) eqn:Hn; try by (destruct (json_reread v (mkJSON GNil false) (Hv eq_refl)) as (js' & H1 & _ & _ & H2); [by rewrite Hn|by exists js']).
  rewrite /MarshalJSON /= Hn. by eexists.
Qed.
Lemma null_kept js : UnmarshalJSON js (Some JNull) = Ok js ∧ Scan js DBNil = Ok (mkJSON GNil false).
Proof. done. Qed.
End json.

(** An empty list is marshalled as null, which does not change what it is read
    into. *)
Example empty_list_null PF FT : MarshalJSON FT (mkJSON (GSlice []) true) = JNull ∧
  UnmarshalJSON PF (mkJSON (GString "old") true) (Some (MarshalJSON FT (mkJSON (GSlice []) true))) = Ok (mkJSON (GString "old") true).
Proof. done. Qed.
Example numbers_read PF : ReinterpretJSONNumbers PF (JArr [JNumber "1"; JNumber "9223372036854775808"; JNumber "18446744073709551616"]) =
  Ok (GSlice [GInt64 1; GUint64 9223372036854775808; GBig 18446744073709551616]).
Proof. by vm_compute. Qed.
End JSONSerializable.
