(* ===== verification/ServicesRPC.v ===== *)
(** The services of a node that its plugins call: the keystore of
    [src/pkg/loop/internal/keystore] ([KeystoreService]), the key-value store,
    telemetry, validation and the pipeline runner of
    [src/pkg/loop/internal/core/services] ([KeyValue], [Telemetry],
    [Validation], [Pipeline]), with their clients and servers.

    A service is the function from its calls to its answers, on a state [W] of
    its own.  [structpb] and durations as messages are parameters. *)

From S2P Require Import Prelude GoBytes GoStrings RemoteErrors ReportingRPC ContractWriterRPC CCIPReaders CodecConfig RelayerRPC JSONSerializable.

(** *** keystore.go *)

Module KeystoreService.
Import RemoteErrors.RemoteErrors ReportingRPC.ReportingRPC ContractWriterRPC.ContractWriterRPC.

Inductive keystoreCall :=
  | Sign (keyID data : list byte) | SignBatch (keyID : list byte) (data : list (list byte)) | Verify (keyID data : list byte) | VerifyBatch (keyID : list byte) (data : list (list byte))
  | ListKeys (tags : list string) | RunUDF (name : string) (keyID data : list byte) | ImportKey (keyType : string) (data : list byte) (tags : list string) | ExportKey (keyID : list byte)
  | CreateKey (keyType : string) (tags : list string) | DeleteKey (keyID : list byte) | AddTag (keyID : list byte) (tag : string) | RemoveTag (keyID : list byte) (tag : string) | ListTags (keyID : list byte).
Inductive keystoreRequest :=
  | SignRequest (keyID data : list byte) | SignBatchRequest (keyID : list byte) (data : list (list byte)) | VerifyRequest (keyID data : list byte) | VerifyBatchRequest (keyID : list byte) (data : list (list byte))
  | ListKeysRequest (tags : list string) | RunUDFRequest (name : string) (keyID data : list byte) | ImportKeyRequest (keyType : string) (data : list byte) (tags : list string) | ExportKeyRequest (keyID : list byte)
  | CreateKeyRequest (keyType : string) (tags : list string) | DeleteKeyRequest (keyID : list byte) | AddTagRequest (keyID : list byte) (tag : string) | RemoveTagRequest (keyID : list byte) (tag : string) | ListTagsRequest (keyID : list byte).
(** The answers of the methods, by what they give. *)
Inductive keystoreAnswer := ABytes (b : list byte) | ABatch (l : list (list byte)) | AValid (v : bool) | AValids (l : list bool) | ATags (l : list string) | ANone.

Section keystore.
Context `{GRPCStatus} {W : Type}.
Definition Keystore : Type := keystoreCall → M (W:=W) keystoreAnswer.

(** The methods of [server] and of [Client]; a message of an answer has its
    field alone. *)
Definition keystoreServer (impl : Keystore) (req : keystoreRequest) : M (W:=W) keystoreAnswer :=
  match req with
  | SignRequest keyID data => impl (Sign keyID data)
  | SignBatchRequest keyID data => impl (SignBatch keyID data)
  | VerifyRequest keyID data => impl (Verify keyID data)
  | VerifyBatchRequest keyID data => impl (VerifyBatch keyID data)
  | ListKeysRequest tags => impl (ListKeys tags)
  | RunUDFRequest name keyID data => impl (RunUDF name keyID data)
  | ImportKeyRequest keyType data tags => impl (ImportKey keyType data tags)
  | ExportKeyRequest keyID => impl (ExportKey keyID)
  | CreateKeyRequest keyType tags => impl (CreateKey keyType tags)
  | DeleteKeyRequest keyID => impl (DeleteKey keyID)
  | AddTagRequest keyID tag => impl (AddTag keyID tag)
  | RemoveTagRequest keyID tag => impl (RemoveTag keyID tag)
  | ListTagsRequest keyID => impl (ListTags keyID)
  end.
Definition keystoreClient (grpc : keystoreRequest → M (W:=W) keystoreAnswer) (c : keystoreCall) : M (W:=W) keystoreAnswer :=
  match c with
  | Sign keyID data => grpc (SignRequest keyID data)
  | SignBatch keyID data => grpc (SignBatchRequest keyID data)
  | Verify keyID data => grpc (VerifyRequest keyID data)
  | VerifyBatch keyID data => grpc (VerifyBatchRequest keyID data)
  | ListKeys tags => grpc (ListKeysRequest tags)
  | RunUDF name keyID data => grpc (RunUDFRequest name keyID data)
  | ImportKey keyType data tags => grpc (ImportKeyRequest keyType data tags)
  | ExportKey keyID => grpc (ExportKeyRequest keyID)
  | CreateKey keyType tags => grpc (CreateKeyRequest keyType tags)
  | DeleteKey keyID => grpc (DeleteKeyRequest keyID)
  | AddTag keyID tag => grpc (AddTagRequest keyID tag)
  | RemoveTag keyID tag => grpc (RemoveTagRequest keyID tag)
  | ListTags keyID => grpc (ListTagsRequest keyID)
  end.

(** A keystore behind gRPC answers every sequence of calls as the keystore. *)
Lemma keystore_service_behind_rpc (impl : Keystore) cs w :
  execs (keystoreClient (λ req, over (keystoreServer impl req))) cs w = (sent <$> (execs impl cs w).1, (execs impl cs w).2).
Proof.
  apply execs_behindRPC, Forall_forall. intros c _ u. destruct c; cbn [keystoreClient keystoreServer]; rewrite /over; by destruct (impl _ u).
Qed.
End keystore.
End KeystoreService.

(** *** store.go *)

Module KeyValue.
Import RemoteErrors.RemoteErrors ReportingRPC.ReportingRPC CCIPReaders.CCIPData.

Inductive kvCall := Store (key : string) (val : list byte) | Get (key : string).
Inductive kvAnswer := AStored | AValue (val : list byte).

Section store.
Context `{GRPCStatus} {W : Type}.
Definition KeyValueStore : Type := kvCall → M (W:=W) kvAnswer.
Definition failing {A} (f : error → error) (m : M (W:=W) A) : M (W:=W) A := λ w, let '(r, w) := m w in (map_err f r, w).

(** The errors of the server and of the client; the server's of a read ends
    with a space. *)
Definition storeFailed (key : string) : error → error := wrapf ("failed to store bytes for key: " ++ key ++ ": ").
Definition getFailed (key : string) (e : error) : error := EWrap ("failed to get bytes for key: " ++ key ++ ": " ++ text e ++ " ") [e].
Definition kvServer (impl : KeyValueStore) (req : kvCall) : M (W:=W) kvAnswer :=
  match req with
  | Store key val => failing (storeFailed key) (impl (Store key val))
  | Get key => failing (getFailed key) (impl (Get key))
  end.
Definition kvClient (grpc : kvCall → M (W:=W) kvAnswer) (c : kvCall) : M (W:=W) kvAnswer :=
  match c with
  | Store key val => failing (wrapf ("failed to store value: " ++ String.string_of_list_byte val ++ " for key: " ++ key ++ ": ")) (grpc (Store key val))
  | Get key => failing (wrapf ("failed to get value for key: " ++ key ++ ": ")) (grpc (Get key))
  end.
Definition kvRemote (impl : KeyValueStore) : KeyValueStore := kvClient (λ req, over (kvServer impl req)).

(** An error of the store arrives in a text of the server's and one of the
    client's. *)
Definition kvError (c : kvCall) (e : error) : error :=
  match c with
  | Store key val => wrapf ("failed to store value: " ++ String.string_of_list_byte val ++ " for key: " ++ key ++ ": ") (arrived (storeFailed key e))
  | Get key => wrapf ("failed to get value for key: " ++ key ++ ": ") (arrived (getFailed key e))
  end.
Lemma kv_call impl c w : kvRemote impl c w = (map_err (kvError c) (impl c w).1, (impl c w).2).
Proof. destruct c; rewrite /kvRemote /kvClient /kvServer /failing /over; by destruct (impl _ w) as [[a|e|] w']. Qed.

(** The code of an error is kept through both texts: that of its status, or
    unknown. *)
Lemma kv_code c e : (Convert (kvError c e)).1 = match firstStatus e with Some s => s.1 | None => Unknown end.
Proof.
  assert (∀ m e', (Convert (wrapf m (arrived e'))).1 = (Convert e').1) as Ho.
  { intros m e'. rewrite {1}/Convert /wrapf /arrived. by rewrite (FromError_wrapped _ _ (Convert e').1 (Convert e').2). }
  assert (∀ m, (Convert (EWrap m [e])).1 = match firstStatus e with Some s => s.1 | None => Unknown end) as Hi.
  { intros m. rewrite /Convert. destruct (firstStatus e) as [[c' m']|] eqn:E.
    - by rewrite (FromError_wrapped m [e] c' m') //= E.
    - by rewrite FromError_none //= E. }
  destruct c; cbn [kvError]; rewrite Ho; apply Hi.
Qed.
End store.

(** A store that is a map: what is stored is read again, through gRPC as
    directly, and nothing else changes. *)
Definition mapStore (notFound : string → RemoteErrors.RemoteErrors.error) (c : kvCall) : M (W:=gmap string (list byte)) kvAnswer := λ m,
  match c with
  | Store key val => (Ok AStored, <[key := val]> m)
  | Get key => (match m !! key with Some val => Ok (AValue val) | None => Err (notFound key) end, m)
  end.
Lemma stored_is_read `{GRPCStatus} notFound key val m key' :
  execs (kvRemote (mapStore notFound)) [Store key val; Get key'] m =
    ([Ok AStored; if decide (key = key') then Ok (AValue val) else map_err (kvError (Get key')) (mapStore notFound (Get key') m).1], <[key := val]> m).
Proof.
  cbn [execs]. rewrite kv_call. cbn [mapStore fst snd]. rewrite kv_call. cbn [mapStore fst snd map_err]. destruct (decide (key = key')) as [->|Hn]; [by rewrite lookup_insert_eq|]. by rewrite lookup_insert_ne.
Qed.
End KeyValue.

(** *** telemetry.go *)

Module Telemetry.
Import RemoteErrors.RemoteErrors ReportingRPC.ReportingRPC.

(** What is sent: where, for which contract, of which type, and the log. *)
Record message := mkMessage { network : string; chainID : string; contractID : string; telemetryType : string; payload : list byte }.
(** [TelemetryMessage], in which the identifier of the relayer may be absent. *)
Record pbMessage := mkPbMessage { RelayID : option (string * string); pbContractID : string; pbTelemetryType : string; pbPayload : list byte }.

Section telemetry.
Context `{GRPCStatus} {W : Type}.
Definition Service : Type := message → M (W:=W) ().

Definition emptyField (field : string) : error := EText (field ++ " cannot be empty").
(** The checks that the endpoint and the client share, in their order. *)
Definition missing (m : message) : option error :=
  if decide (contractID m = "") then Some (emptyField "contractID")
  else if decide (telemetryType m = "") then Some (emptyField "telemetryType")
  else if decide (network m = "") then Some (emptyField "network")
  else if decide (chainID m = "") then Some (emptyField "chainId")
  else None.

Definition toMessage (m : message) : pbMessage := mkPbMessage (Some (network m, chainID m)) (contractID m) (telemetryType m) (payload m).
Definition fromMessage (m : pbMessage) : message :=
  let '(n, c) := default ("", "") (RelayID m) in mkMessage n c (pbContractID m) (pbTelemetryType m) (pbPayload m).
(** [telemetryServiceClient.Send] and [telemetryServer.Send]. *)
Definition clientSend (grpc : pbMessage → M (W:=W) ()) (m : message) : M (W:=W) () := λ w,
  match missing m with
  | Some e => (Err e, w)
  | None => if decide (payload m = []) then (Err (emptyField "payload"), w) else grpc (toMessage m) w
  end.
Definition serverSend (impl : Service) (m : pbMessage) : M (W:=W) () := impl (fromMessage m).
Definition sendRemote (impl : Service) : Service := clientSend (λ m, over (serverSend impl m)).

(** [telemetryClient.NewEndpoint] and [telemetryEndpoint.SendLog]; an endpoint
    is the message without its log. *)
Definition NewEndpoint (network chainID contractID telemetryType : string) : outcome error message :=
  let m := mkMessage network chainID contractID telemetryType [] in match missing m with Some e => Err e | None => Ok m end.
Definition SendLog (client : Service) (endpoint : message) (log : list byte) : M (W:=W) () :=
  client (mkMessage (network endpoint) (chainID endpoint) (contractID endpoint) (telemetryType endpoint) log).

Lemma missing_iff m : missing m = None ↔ network m ≠ "" ∧ chainID m ≠ "" ∧ contractID m ≠ "" ∧ telemetryType m ≠ "".
Proof.
  rewrite /missing. destruct (decide (contractID m = "")); [naive_solver|]. destruct (decide (telemetryType m = "")); [naive_solver|].
  destruct (decide (network m = "")); [naive_solver|]. destruct (decide (chainID m = "")); naive_solver.
Qed.

(** The logs of an endpoint that was made all arrive, once, in order and with
    the endpoint's names, but for empty ones, which are refused before they are
    sent. *)
Lemma logs_arrive impl n c i t endpoint logs w : NewEndpoint n c i t = Ok endpoint →
  execs (SendLog (sendRemote impl) endpoint) logs w =
    execs (λ log w, if decide (log = []) then (Err (emptyField "payload"), w) else over (impl (mkMessage n c i t log)) w) logs w.
Proof.
  rewrite /NewEndpoint. destruct (missing _) eqn:E; [done|]. intros [= <-]. revert w. induction logs as [|log logs IH]; intros w; [done|]. cbn [execs].
  assert (SendLog (sendRemote impl) (mkMessage n c i t []) log w = (if decide (log = []) then (Err (emptyField "payload"), w) else over (impl (mkMessage n c i t log)) w)) as ->.
  { assert (missing (mkMessage n c i t log) = None) as Hm by exact E. rewrite /SendLog /sendRemote /clientSend. cbn [network chainID contractID telemetryType payload]. by rewrite Hm. }
  destruct (decide (log = [])); [by rewrite IH|]. destruct (over _ w) as [a w']. by rewrite IH.
Qed.
(** An endpoint is made exactly if no name is empty. *)
Lemma endpoint_iff n c i t : (∃ e, NewEndpoint n c i t = Ok e) ↔ n ≠ "" ∧ c ≠ "" ∧ i ≠ "" ∧ t ≠ "".
Proof.
  rewrite -(missing_iff (mkMessage n c i t [])). rewrite /NewEndpoint. destruct (missing _); naive_solver.
Qed.
End telemetry.
End Telemetry.

(** *** validation.go *)

Module Validation.
Import RemoteErrors.RemoteErrors ReportingRPC.ReportingRPC RelayerRPC.RelayerRPC.

Section validation.
Context `{GRPCStatus} {W Config : Type} `{!StructPb Config}.

Definition validateServer (impl : Config → M (W:=W) ()) (c : pbStruct) : M (W:=W) () := impl (AsMap c).
Definition validateClient (grpc : pbStruct → M (W:=W) ()) (config : Config) : M (W:=W) () := checked (NewStruct config) grpc.

(** A configuration that [structpb] keeps is validated as it is; one that it
    refuses does not reach the service. *)
Lemma validate_exact impl config w :
  validateClient (λ c, over (validateServer impl c)) config w =
    match NewStruct config with
    | Ok s => (sent (impl (AsMap s) w).1, (impl (AsMap s) w).2)
    | Err e => (Err e, w)
    | Panic => (Panic, w)
    end.
Proof.
  rewrite /validateClient /checked. destruct (NewStruct config) as [s|e|]; [|done..]. rewrite /over /validateServer. by destruct (impl _ w).
Qed.
End validation.
End Validation.

(** *** pipeline_runner.go *)

Module Pipeline.
Import CodecConfig.CodecConfig JSONSerializable.JSONSerializable RemoteErrors.RemoteErrors ReportingRPC.ReportingRPC RelayerRPC.RelayerRPC.

(** [durationpb] *)
Class DurationPb := { pbDuration : Type; durationNew : Z → pbDuration; AsDuration : pbDuration → Z; AsDuration_New d : inS 64 d → AsDuration (durationNew d) = d }.

Section pipeline.
Context `{GRPCStatus} {W Vars : Type} `{!StructPb Vars, !DurationPb} (ParseFloat : string → option Z) (FloatText : Z → string).

Record TaskResult := mkTask { ID : string; Type_ : string; TaskValue : JSONSerializable; TaskErr : option error; IsTerminal : bool; Index : Z }.
Record pbTaskResult := mkPbTask { pbId : string; pbType : string; pbValue : jval; pbError : string; HasError : bool; pbIsTerminal : bool; pbIndex : Z }.
Record run := mkRun { Spec : string; RunVars : Vars; MaxTaskDuration : Z }.
Record RunRequest := mkRequest { pbSpec : string; pbVars : pbStruct; pbMaxTaskDuration : pbDuration }.

(** The results of [RunServer.ExecuteRun] and of the client's. *)
Definition taskToPb (trr : TaskResult) : pbTaskResult :=
  mkPbTask (ID trr) (Type_ trr) (MarshalJSON FloatText (TaskValue trr)) (match TaskErr trr with Some e => text e | None => "" end) (match TaskErr trr with Some _ => true | None => false end)
    (IsTerminal trr) (wrapS 32 (Index trr)).
Definition taskFromPb (trr : pbTaskResult) : outcome error TaskResult :=
  let? js := map_err (λ _, EText "failed to parse json.Value") (UnmarshalJSON ParseFloat (mkJSON GNil false) (Some (pbValue trr))) in
  Ok (mkTask (pbId trr) (pbType trr) js (if HasError trr then Some (EText (pbError trr)) else None) (pbIsTerminal trr) (wrapS 64 (pbIndex trr))).

Definition runServer (impl : run → M (W:=W) (list TaskResult)) (rr : RunRequest) : M (W:=W) (list pbTaskResult) :=
  reply (fmap taskToPb) (impl (mkRun (pbSpec rr) (AsMap (pbVars rr)) (AsDuration (pbMaxTaskDuration rr)))).
Definition runClient (grpc : RunRequest → M (W:=W) (list pbTaskResult)) (r : run) : M (W:=W) (list TaskResult) :=
  checked (NewStruct (RunVars r)) (λ vars, ContractWriterRPC.ContractWriterRPC.turned (omapM taskFromPb) (grpc (mkRequest (Spec r) vars (durationNew (MaxTaskDuration r))))).
Definition ExecuteRun (impl : run → M (W:=W) (list TaskResult)) : run → M (W:=W) (list TaskResult) := runClient (λ rr, over (runServer impl rr)).

(** What arrives of a result: its value as JSON, its error as a text. *)
Definition arrivedTask (trr trr' : TaskResult) : Prop :=
  ID trr' = ID trr ∧ Type_ trr' = Type_ trr ∧ MarshalJSON FloatText (TaskValue trr') = MarshalJSON FloatText (TaskValue trr) ∧
  TaskErr trr' = EText ∘ text <$> TaskErr trr ∧ IsTerminal trr' = IsTerminal trr ∧ Index trr' = Index trr.
Definition taskOK (trr : TaskResult) : Prop := inS 32 (Index trr) ∧ (Valid (TaskValue trr) = true → good ParseFloat FloatText (Val (TaskValue trr))).

Lemma task_there trr : taskOK trr → ∃ trr', taskFromPb (taskToPb trr) = Ok trr' ∧ arrivedTask trr trr'.
Proof.
  intros [Hi Hv]. destruct (json_there ParseFloat FloatText _ Hv) as (js & Hu & Hm). rewrite /taskFromPb. cbn [pbValue taskToPb]. rewrite Hu. eexists. split; [reflexivity|]. split_and!; try done; cbn.
  - by destruct (TaskErr trr).
  - rewrite (wrapS_small 32) // wrapS_small //. move: Hi. rewrite /inS. lia.
Qed.

(** A run behind gRPC gives the results of the run, with the same JSON, and
    errors as texts: an error with an empty text is still an error. *)
Lemma run_behind_rpc impl spec vars s d w trs w' : NewStruct vars = Ok s → AsMap s = vars → inS 64 d →
  impl (mkRun spec vars d) w = (Ok trs, w') → Forall taskOK trs → ∃ trs', ExecuteRun impl (mkRun spec vars d) w = (Ok trs', w') ∧ Forall2 arrivedTask trs trs'.
Proof.
  intros Hs Ha Hd Hi Ht. rewrite /ExecuteRun /runClient /runServer /over /checked /reply /ContractWriterRPC.ContractWriterRPC.turned /= Hs Ha AsDuration_New // Hi. cbn.
  assert (∃ trs', omapM taskFromPb (taskToPb <$> trs) = Ok trs' ∧ Forall2 arrivedTask trs trs') as (trs' & -> & Hr); [|by eexists].
  clear Hi. induction Ht as [|trr trs Hr _ (trs' & H1 & H2)]; [exists []; by split|]. destruct (task_there _ Hr) as (t & Hp & Hq). exists (t :: trs'). cbn. rewrite Hp /= H1. split; [done|by constructor].
Qed.
(** An index with more than 32 bits is cut. *)
Lemma index_cut trr : Index trr = (2 ^ 32)%Z → pbIndex (taskToPb trr) = 0%Z.
Proof. intros Hi. by rewrite /taskToPb /= Hi. Qed.
End pipeline.
End Pipeline.
