(* ===== verification/RelayerSetRPC.v ===== *)
(** [src/pkg/loop/internal/relayerset] and the identifiers of relayers in
    [src/pkg/types/relayer.go]: a set of relayers behind gRPC ([RelayerSetRPC]),
    and what its server makes, serves and closes ([RelayerSetServer]).

    A relayer is a reference of the set's; a client of one is the identifier it
    was asked for by.  The broker, the listeners and gRPC's servers are
    parameters. *)

From Stdlib.Strings Require Import Ascii.
From S2P Require Import Prelude GoBytes GoStrings RemoteErrors ReportingRPC ContractWriterRPC CCIPReaders RelayerRPC MercuryRPC.

(** *** Identifiers *)

Module RelayerID.

Record RelayID := mkRelayID { Network : string; ChainID : string }.
#[global] Instance relay_id_eq_dec : EqDecision RelayID.
Proof. solve_decision. Defined.
#[global] Instance relay_id_countable : Countable RelayID.
Proof. apply (inj_countable' (λ i, (Network i, ChainID i)) (λ p, mkRelayID p.1 p.2)). by intros []. Qed.

Definition Name (i : RelayID) : string := (Network i ++ "." ++ ChainID i)%string.
Definition UnmarshalString (s : string) : outcome string RelayID :=
  match Split s "." with
  | [n; c] => Ok (mkRelayID n c)
  | _ => Err ("error unmarshaling Identifier. " ++ s ++ " does not match expected pattern")%string
  end.

(** A name is read again if its parts have no point; what is read has this name. *)
Lemma name_reread i : avoids "." (Network i) = true → avoids "." (ChainID i) = true → UnmarshalString (Name i) = Ok i.
Proof.
  intros Hn Hc. rewrite /UnmarshalString /Name. change ("." ++ ChainID i)%string with (String "." (ChainID i)). rewrite Split_cons // Split_one //. by destruct i.
Qed.
Definition joined (x : string) (l : list string) : string := foldl (λ a b, a ++ "." ++ b)%string x l.
Lemma joined_app p z l : joined (p ++ z) l = (p ++ joined z l)%string.
Proof. revert z. induction l as [|b l IH]; intros z; [done|]. cbn [joined foldl]. rewrite !append_assoc. apply IH. Qed.
Lemma splitOn_join s x l : splitOn "." s = (x, l) → s = joined x l.
Proof.
  revert x l. induction s as [|c s IH]; intros x l; cbn; [by intros [= <- <-]|]. destruct (splitOn "." s) as [y m] eqn:E. specialize (IH y m eq_refl).
  destruct (Ascii.eqb_spec c ".") as [->|Hc]; intros [= <- <-].
  - change (joined "" (y :: m)) with (joined ("." ++ y)%string m). by rewrite joined_app -IH.
  - change (joined (String c y) m) with (joined (String c "" ++ y)%string m). by rewrite joined_app -IH.
Qed.
Lemma read_name s i : UnmarshalString s = Ok i → Name i = s.
Proof.
  rewrite /UnmarshalString /Split. destruct (splitOn "." s) as [x l] eqn:E. destruct l as [|y [|z l]]; try done. intros [= <-]. by rewrite (splitOn_join _ _ _ E).
Qed.
(** A chain's identifier with a point is not. *)
Example pointed_chain : UnmarshalString (Name (mkRelayID "evm" "1.2")) = Err "error unmarshaling Identifier. evm.1.2 does not match expected pattern".
Proof. done. Qed.
End RelayerID.

(** *** The set *)

Module RelayerSetRPC.
Import RemoteErrors.RemoteErrors ReportingRPC.ReportingRPC ContractWriterRPC.ContractWriterRPC CCIPReaders.CCIPData RelayerID.
Abbreviation Head := RelayerRPC.RelayerRPC.Head.

(** [relayerset.RelayerId] *)
Record RelayerId := mkRelayerId { pbChainId : string; pbNetwork : string }.
Definition toPb (i : RelayID) : RelayerId := mkRelayerId (ChainID i) (Network i).
Definition fromPb (i : RelayerId) : RelayID := mkRelayID (pbNetwork i) (pbChainId i).

(** [core.RelayerSet] and [core.Relayer]; [List] of no identifiers gives all
    relayers. *)
Record RelayerSet {W R : Type} := mkRelayerSet {
  Get : RelayID → M (W:=W) R;
  List : list RelayID → M (W:=W) (gmap RelayID R);
  Start : R → M (W:=W) ();
  Close : R → M (W:=W) ();
  Ready : R → M (W:=W) ();
  HealthReport : R → W → gmap string (option error);
  RName : R → W → string;
  LatestHead : R → M (W:=W) Head
}.
#[global] Arguments RelayerSet : clear implicits.

(** The calls of [Client]. *)
Inductive call :=
  | CGet (id : RelayID) | CList (ids : list RelayID) | StartRelayer (id : RelayID) | CloseRelayer (id : RelayID) | RelayerReady (id : RelayID)
  | RelayerHealthReport (id : RelayID) | RelayerName (id : RelayID) | RelayerLatestHead (id : RelayID).
Inductive answer :=
  | ARelayer (id : RelayID) | ARelayers (ids : gset RelayID) | ADone | AHealth (report : gmap string error) | AName (name : string) | AHead (head : Head).
Inductive request :=
  | GetRelayerRequest (id : RelayerId) | ListAllRelayersRequest (ids : list RelayerId) | StartRequest (id : RelayerId) | CloseRequest (id : RelayerId) | ReadyRequest (id : RelayerId)
  | HealthReportRequest (id : RelayerId) | NameRequest (id : RelayerId) | LatestHeadRequest (id : RelayerId).
Inductive rep :=
  | GetRelayerResponse (id : RelayerId) | ListAllRelayersResponse (ids : list (option RelayerId)) | Empty | HealthReportResponse (report : gmap string string) | NameResponse (name : string)
  | LatestHeadResponse (head : Head).

Section rpc.
Context `{GRPCStatus} {W R : Type} (O : RangeOrder (RelayID * R)) (impl : RelayerSet W R).

(** [status.Errorf] with a [%v] verb at its end. *)
Definition Errorf (c : code) (prefix : string) (e : error) : error := EStatus c (prefix ++ text e).
Definition failing {A} (f : error → error) (m : M (W:=W) A) : M (W:=W) A := λ w, let '(r, w) := m w in (map_err f r, w).
Definition andThen {A B} (m : M (W:=W) A) (f : A → M (W:=W) B) : M (W:=W) B :=
  λ w, let '(r, w) := m w in match r with Ok a => f a w | Err e => (Err e, w) | Panic => (Panic, w) end.
Definition look {A} (f : W → A) : M (W:=W) A := λ w, (Ok (f w), w).

Definition getRelayer (id : RelayerId) : M (W:=W) R := failing (Errorf NotFound "error getting relayer: ") (Get impl (fromPb id)).

(** [result[k] = v.Error()] of every part of the report, also of one that is
    nil. *)
Definition errorTexts (report : gmap string (option error)) : outcome error (gmap string string) :=
  if decide (map_Exists (λ _ e, e = None) report) then Panic else Ok (omap (fmap text) report).

(** [%s] of an identifier, which is not a pointer to one. *)
Definition idText (i : RelayID) : string := ("{" ++ Network i ++ " " ++ ChainID i ++ "}")%string.

(** [Server.Get]: the relayer is looked for in the list of all. *)
Definition serverGet (id : RelayerId) : M (W:=W) rep :=
  andThen (failing (Errorf Internal "error getting all relayers: ") (List impl [])) (λ relayers w,
    (match relayers !! fromPb id with
     | Some _ => Ok (GetRelayerResponse id)
     | None => Err (EStatus NotFound ("relayer not found for id " ++ idText (fromPb id)))
     end, w)).
(** [Server.List]: the slice is made with the length and appended to. *)
Definition serverList (ids : list RelayerId) : M (W:=W) rep :=
  reply (λ relayers : gmap RelayID R, ListAllRelayersResponse (replicate (size relayers) None ++ (Some ∘ toPb <$> (range_map O relayers).*1)))
    (failing (Errorf Internal "error getting all relayers: ") (List impl (fromPb <$> ids))).

(** The methods of [Server] that do not make anything. *)
Definition server (req : request) : M (W:=W) rep :=
  match req with
  | GetRelayerRequest id => serverGet id
  | ListAllRelayersRequest ids => serverList ids
  | StartRequest id => andThen (getRelayer id) (λ relayer, reply (λ _, Empty) (failing (Errorf Internal "error starting relayer: ") (Start impl relayer)))
  | CloseRequest id => andThen (getRelayer id) (λ relayer, reply (λ _, Empty) (failing (Errorf Internal "error starting relayer: ") (Close impl relayer)))
  | ReadyRequest id => andThen (getRelayer id) (λ relayer, reply (λ _, Empty) (failing (Errorf Internal "error getting relayer ready: ") (Ready impl relayer)))
  | HealthReportRequest id => andThen (getRelayer id) (λ relayer w, (let? result := errorTexts (HealthReport impl relayer w) in Ok (HealthReportResponse result), w))
  | NameRequest id => andThen (getRelayer id) (λ relayer, reply NameResponse (look (RName impl relayer)))
  | LatestHeadRequest id => andThen (getRelayer id) (λ relayer, reply LatestHeadResponse (LatestHead impl relayer))
  end.

(** A nil message in a list arrives as an empty one. *)
Definition received (id : option RelayerId) : RelayID := fromPb (default (mkRelayerId "" "") id).
(** What a method makes of the reply of its request. *)
Definition answerOf (id : option RelayID) (r : rep) : outcome error answer :=
  match r with
  | GetRelayerResponse i => Ok (ARelayer (default (fromPb i) id))
  | ListAllRelayersResponse ids => Ok (ARelayers (list_to_set (received <$> ids)))
  | Empty => Ok ADone
  | HealthReportResponse report => Ok (AHealth (EText <$> report))
  | NameResponse name => Ok (AName name)
  | LatestHeadResponse head => Ok (AHead head)
  end.
(** The methods of [Client]. *)
Definition client (grpc : request → M (W:=W) rep) (c : call) : M (W:=W) answer :=
  let answered id prefix m := turned (answerOf id) (failing (wrapf prefix) m) in
  match c with
  | CGet id => answered (Some id) "error getting relayer: " (grpc (GetRelayerRequest (toPb id)))
  | CList ids => answered None "error getting all relayers: " (grpc (ListAllRelayersRequest (toPb <$> ids)))
  | StartRelayer id => turned (answerOf None) (grpc (StartRequest (toPb id)))
  | CloseRelayer id => turned (answerOf None) (grpc (CloseRequest (toPb id)))
  | RelayerReady id => turned (answerOf None) (grpc (ReadyRequest (toPb id)))
  | RelayerHealthReport id => answered None "error getting health report: " (grpc (HealthReportRequest (toPb id)))
  | RelayerName id => answered None "error getting name: " (grpc (NameRequest (toPb id)))
  | RelayerLatestHead id => answered None "error getting latest head from relayerset client for relayer: " (grpc (LatestHeadRequest (toPb id)))
  end.
Definition remote : call → M (W:=W) answer := client (λ req, over (server req)).

(** [HealthReport] and [Name] of [relayerClient], which only log an error. *)
Definition relayerHealth (id : RelayID) : M (W:=W) (gmap string error) :=
  λ w, let '(r, w) := remote (RelayerHealthReport id) w in (match r with Ok (AHealth report) => Ok report | Panic => Panic | _ => Ok ∅ end, w).
Definition relayerNameOf (id : RelayID) : M (W:=W) string :=
  λ w, let '(r, w) := remote (RelayerName id) w in (match r with Ok (AName name) => Ok name | Panic => Panic | _ => Ok ""%string end, w).

(** *** Facts *)

Lemma fromPb_toPb i : fromPb (toPb i) = i.
Proof. by destruct i. Qed.
Lemma fromPb_toPb_list (l : list RelayID) : fromPb <$> (toPb <$> l) = l.
Proof. rewrite -list_fmap_compose -{2}(list_fmap_id l). apply list_fmap_ext. intros _ i _. apply fromPb_toPb. Qed.

(** The relayers of the set arrive, and with them, if there are any, one that is
    not in it: the one with an empty identifier. *)
Definition phantom (relayers : gmap RelayID R) : gset RelayID := if decide (relayers = ∅) then ∅ else {[ mkRelayID "" "" ]}.
Lemma received_list (relayers : gmap RelayID R) :
  list_to_set (received <$> (replicate (size relayers) None ++ (Some ∘ toPb <$> (range_map O relayers).*1))) = (dom relayers ∪ phantom relayers : gset RelayID).
Proof.
  assert (received <$> (Some ∘ toPb <$> (range_map O relayers).*1) = (range_map O relayers).*1) as Hids.
  { rewrite -list_fmap_compose -{2}(list_fmap_id (range_map O relayers).*1). apply list_fmap_ext. intros _ i _. apply fromPb_toPb. }
  rewrite fmap_app Hids list_to_set_app_L fmap_replicate. rewrite (comm_L (∪)). f_equal.
  - rewrite range_map_perm. apply set_eq. intros i. rewrite elem_of_list_to_set elem_of_dom list_elem_of_fmap. split.
    + intros ([j r] & -> & Hr%elem_of_map_to_list). by eexists.
    + intros [r Hr]. exists (i, r). by rewrite elem_of_map_to_list.
  - rewrite /phantom. destruct (decide (relayers = ∅)) as [->|Hn]; [done|]. apply map_size_non_empty_iff in Hn. destruct (size relayers) as [|n]; [done|].
    apply set_eq. intros i. rewrite elem_of_list_to_set elem_of_singleton elem_of_replicate. naive_solver lia.
Qed.
Lemma list_exact ids w : remote (CList ids) w =
  (match (List impl ids w).1 with
   | Ok relayers => Ok (ARelayers (dom relayers ∪ phantom relayers))
   | Err e => Err (wrapf "error getting all relayers: " (arrived (Errorf Internal "error getting all relayers: " e)))
   | Panic => Panic
   end, (List impl ids w).2).
Proof.
  rewrite /remote /client /turned /failing /over /server /serverList /reply /failing fromPb_toPb_list. destruct (List impl ids w) as [[relayers|e|] w']; [|done..].
  cbn. by rewrite received_list.
Qed.

(** A relayer is there exactly if it is among all relayers. *)
Lemma get_exact id w : remote (CGet id) w =
  (match (List impl [] w).1 with
   | Ok relayers => if decide (id ∈ dom relayers) then Ok (ARelayer id)
                    else Err (wrapf "error getting relayer: " (arrived (EStatus NotFound ("relayer not found for id " ++ idText id))))
   | Err e => Err (wrapf "error getting relayer: " (arrived (Errorf Internal "error getting all relayers: " e)))
   | Panic => Panic
   end, (List impl [] w).2).
Proof.
  rewrite /remote /client /turned /failing /over /server /serverGet /andThen /failing fromPb_toPb. destruct (List impl [] w) as [[relayers|e|] w']; [|done..].
  cbn. destruct (decide (id ∈ dom relayers)) as [[r Hr]%elem_of_dom|Hn%not_elem_of_dom]; [by rewrite Hr|by rewrite Hn].
Qed.

(** Starting, closing, and whether it is ready: the relayer is asked, and its
    error arrives as an internal one, with its text. *)
Definition forwarded (id : RelayID) (prefix : string) (op : R → M (W:=W) ()) : M (W:=W) answer := λ w,
  let '(r, w) := Get impl id w in
  match r with
  | Ok relayer => let '(r, w) := op relayer w in (match r with Ok _ => Ok ADone | Err e => Err (arrived (Errorf Internal prefix e)) | Panic => Panic end, w)
  | Err e => (Err (arrived (Errorf NotFound "error getting relayer: " e)), w)
  | Panic => (Panic, w)
  end.
Lemma lifecycle_exact id w :
  remote (StartRelayer id) w = forwarded id "error starting relayer: " (Start impl) w ∧
  remote (CloseRelayer id) w = forwarded id "error starting relayer: " (Close impl) w ∧
  remote (RelayerReady id) w = forwarded id "error getting relayer ready: " (Ready impl) w.
Proof.
  rewrite /remote /client /turned /over /server /forwarded /andThen /getRelayer /failing /reply /failing fromPb_toPb.
  destruct (Get impl id w) as [[r|e|] w']; [|done..]. cbn. split_and!; [destruct (Start impl r w') as [[[]|e|] u]|destruct (Close impl r w') as [[[]|e|] u]|destruct (Ready impl r w') as [[[]|e|] u]]; done.
Qed.

(** A report with a part that is healthy brings the server down; one without is
    given back, error by error. *)
Lemma health_exact id w r w' : Get impl id w = (Ok r, w') →
  (map_Exists (λ _ e, e = None) (HealthReport impl r w') → relayerHealth id w = (Panic, w')) ∧
  (map_Forall (λ _ e, e ≠ None) (HealthReport impl r w') → relayerHealth id w = (Ok (omap (fmap (λ e, EText (text e))) (HealthReport impl r w')), w')).
Proof.
  intros Hg. rewrite /relayerHealth /remote /client /turned /failing /over /server /andThen /getRelayer /failing fromPb_toPb Hg. cbn. rewrite /errorTexts. split.
  - intros He. by rewrite decide_True.
  - intros Hf. rewrite decide_False; [|intros (k & e & Hk & ->); by destruct (Hf _ _ Hk)]. cbn. do 2 f_equal. apply map_eq. intros k.
    rewrite lookup_fmap !lookup_omap. by destruct (HealthReport impl r w' !! k) as [[e|]|].
Qed.

(** What is asked of a relayer that the set does not give is not found; its
    client has no name and nothing to report. *)
Lemma missing_relayer id w e w' : Get impl id w = (Err e, w') →
  (∀ c, c ∈ [StartRelayer id; CloseRelayer id; RelayerReady id; RelayerHealthReport id; RelayerName id; RelayerLatestHead id] →
     ∃ e', remote c w = (Err e', w') ∧ (Convert e').1 = NotFound) ∧
  relayerHealth id w = (Ok ∅, w') ∧ relayerNameOf id w = (Ok ""%string, w').
Proof.
  intros Hg. assert (∀ prefix e, (Convert (wrapf prefix (arrived (Errorf NotFound "error getting relayer: " e)))).1 = NotFound) as Hw.
  { intros prefix e'. rewrite /Convert /wrapf /arrived (FromError_wrapped _ _ NotFound (Convert (Errorf NotFound "error getting relayer: " e')).2); [done|].
    cbn. by rewrite (Convert_own _ NotFound ("error getting relayer: " ++ text e')). }
  assert ((Convert (arrived (Errorf NotFound "error getting relayer: " e))).1 = NotFound) as Ha.
  { rewrite /arrived (Convert_own (EStatus _ _) (Convert (Errorf NotFound "error getting relayer: " e)).1 (Convert (Errorf NotFound "error getting relayer: " e)).2) //.
    cbn [fst]. by rewrite (Convert_own _ NotFound ("error getting relayer: " ++ text e)). }
  rewrite /relayerHealth /relayerNameOf /remote /client /turned /failing /over /server /andThen /getRelayer /failing fromPb_toPb Hg. split; [|done].
  intros c Hc. rewrite !elem_of_cons in Hc. destruct Hc as [->|[->|[->|[->|[->|[->|Hc]]]]]]; [..|by apply elem_of_nil in Hc]; rewrite fromPb_toPb Hg; eexists; (split; [reflexivity|]); apply Hw || apply Ha.
Qed.
End rpc.
End RelayerSetRPC.

(** *** What the server makes *)

Module RelayerSetServer.
Import RemoteErrors.RemoteErrors CCIPReaders.CCIPData MercuryRPC.MercuryAdapter RelayerSetRPC.
Abbreviation kind := RelayerRPC.RelayerRPC.kind.

(** The arguments of a provider, of [types/core]. *)
Record RelayArgs := mkRelayArgs { ContractID : string; RelayConfig : list byte; ProviderType : string; MercuryCredentials : option (string * string * string * string) }.
Record pbRelayArgs := mkPbRelayArgs { pbContractID : string; pbRelayConfig : list byte; pbProviderType : string; pbMercuryCredentials : option (string * string * string * string) }.
Definition relayArgsToPb (a : RelayArgs) : pbRelayArgs := mkPbRelayArgs (ContractID a) (RelayConfig a) (ProviderType a) (MercuryCredentials a).
Definition relayArgsFromPb (a : pbRelayArgs) : RelayArgs := mkRelayArgs (pbContractID a) (pbRelayConfig a) (pbProviderType a) (pbMercuryCredentials a).

(** What is opened, served and closed, in order. *)
Inductive effect :=
  | Made (name : string) | Started (name : string) | Listening (provider : string) | Serving (provider : string) | Connected (provider : string) | Event (ev : event).
#[global] Instance effect_eq_dec : EqDecision effect.
Proof. solve_decision. Defined.

Section server.
Context `{GRPCStatus}.

(** *** The server in the process: grpc_provider_server.go *)

(** What a provider is, for the types that can be registered. *)
Record provider := mkProvider { pName : string; isMedian : bool; isOCR3 : bool; hasConn : bool }.
(** [RegisterStandAloneProvider] *)
Definition RegisterStandAloneProvider (fmtType : provider → string) (p : provider) (pType : string) : outcome error () :=
  match RelayerRPC.RelayerRPC.kindOf pType with
  | Some RelayerRPC.RelayerRPC.Median => if isMedian p then Ok () else Err (EText ("expected median provider got " ++ fmtType p)%string)
  | Some RelayerRPC.RelayerRPC.GenericPlugin => Ok ()
  | Some RelayerRPC.RelayerRPC.OCR3Capability => if isOCR3 p then Ok () else Err (EText ("expected OCR3 capability provider got " ++ fmtType p)%string)
  | _ => Err (EText ("unsupported stand alone provider: " ++ String "034" pType ++ String "034" "")%string)
  end.

(** [ProviderServer]: its connections, of which one that was not dialled is nil,
    whether it was started and whether it was stopped. *)
Record ProviderServer := mkServer { conns : list (option string); started : bool; stopped : bool }.
(** [NewProviderServer]: the listener stays open if the provider cannot be
    registered. *)
Definition NewProviderServer (fmtType : provider → string) (listenErr : option error) (p : provider) (pType : string) : outcome error ProviderServer * list effect :=
  match listenErr with
  | Some e => (Err e, [])
  | None => ((let? _ := RegisterStandAloneProvider fmtType p pType in Ok (mkServer [] false false)), [Listening (pName p)])
  end.
Definition StartServer (p : provider) (s : ProviderServer) : ProviderServer * list effect := (mkServer (conns s) true (stopped s), [Serving (pName p)]).
Definition GetConn (dialErr : option error) (p : provider) (s : ProviderServer) : outcome error string * ProviderServer * list effect :=
  match dialErr with
  | Some e => (Err e, mkServer (conns s ++ [None]) (started s) (stopped s), [])
  | None => (Ok (pName p), mkServer (conns s ++ [Some (pName p)]) (started s) (stopped s), [Connected (pName p)])
  end.
(** [Close]: closing a nil connection panics. *)
Definition CloseServer (s : ProviderServer) : outcome error ProviderServer := if decide (None ∈ conns s) then Panic else Ok (mkServer (conns s) (started s) true).

(** *** server.go *)

(** The server closes its resources in order, up to the first error. *)
Fixpoint closeResources (closeErr : string → option error) (l : list string) : option error * list effect :=
  match l with
  | [] => (None, [])
  | r :: l =>
      match closeErr r with
      | Some e => (Some (wrapf "error closing plugin provider server: " e), [Event (Closed r)])
      | None => let '(err, ev) := closeResources closeErr l in (err, Event (Closed r) :: ev)
      end
  end.

Definition inProcessName (p : provider) : string := ("InProcessProviderServer-" ++ pName p)%string.

(** [getProviderConnection]: the resources that are added, and what happens. *)
Definition getProviderConnection (fmtType : provider → string) (listenErr dialErr : option error) (p : provider) (providerType : string) : outcome error string * list string * list effect :=
  let '(r, ev) := NewProviderServer fmtType listenErr p providerType in
  match r with
  | Err e => (Err (wrapf ("failed to wrap provider " ++ pName p ++ " in in process provider server: ") e), [], ev)
  | Panic => (Panic, [], ev)
  | Ok ps =>
      let '(r, ps, ev') := GetConn dialErr p ps in
      (map_err (wrapf "failed to get connection to in process provider server: ") r, [inProcessName p], ev ++ ev')
  end.

(** [Server.NewPluginProvider], given the results of what it calls: the relayer,
    its provider, and the broker. *)
Definition NewPluginProvider (fmtType : provider → string) (getRelayer : option error) (make : RelayArgs → outcome error provider) (listenErr dialErr : option error) (serve : outcome error Z) (args : pbRelayArgs) :
    outcome error Z * list string * list effect :=
  match getRelayer with
  | Some e => (Err (Errorf NotFound "error getting relayer: " e), [], [])
  | None =>
      match make (relayArgsFromPb args) with
      | Err e => (Err (Errorf Internal "error creating plugin provider: " e), [], [])
      | Panic => (Panic, [], [])
      | Ok p =>
          let '(r, res, ev) := if hasConn p then (Ok (pName p), [], []) else getProviderConnection fmtType listenErr dialErr p (pbProviderType args) in
          match r with
          | Err e => (Err (Errorf Internal "error getting provider connection: " e), res, Made (pName p) :: ev)
          | Panic => (Panic, res, Made (pName p) :: ev)
          | Ok conn =>
              match serve with
              | Err e => (Err (Errorf Internal "error serving plugin provider: " e), res, Made (pName p) :: ev)
              | Panic => (Panic, res, Made (pName p) :: ev)
              | Ok id => (Ok id, res ++ ["PluginProvider"], Made (pName p) :: ev ++ [Event (Served "PluginProvider" [])])
              end
          end
      end
  end.

(** [NewContractReader] and [NewContractWriter] of the server; the text of the
    error is that of a reader for both, and the server that is started is not
    one of the resources. *)
Inductive contract := Reader | Writer.
Definition contractName (c : contract) : string := match c with Reader => "ContractReaderInRelayerSet" | Writer => "ContractWriterInRelayerSet" end.
Definition newContract (c : contract) (getRelayer make start accept : option error) (id : Z) : outcome error Z * list effect :=
  match getRelayer with
  | Some e => (Err (Errorf NotFound "error getting relayer: " e), [])
  | None =>
      match make with
      | Some e => (Err (Errorf Internal "error creating contract reader: " e), [])
      | None =>
          let ev := [Made (contractName c)] in
          match start with
          | Some e => (Err e, ev)
          | None => let '(r, ev') := ServeNew (contractName c) id accept [contractName c] in (r, ev ++ Started (contractName c) :: (Event <$> ev'))
          end
      end
  end.

(** *** Facts *)

Lemma relay_args_there a : relayArgsFromPb (relayArgsToPb a) = a.
Proof. by destruct a. Qed.

(** The types that a provider can be registered for. *)
Lemma registered fmtType p pType : RegisterStandAloneProvider fmtType p pType = Ok () ↔
  pType = "plugin" ∨ (pType = "median" ∧ isMedian p = true) ∨ (pType = "ocr3-capability" ∧ isOCR3 p = true).
Proof.
  rewrite /RegisterStandAloneProvider. destruct (RelayerRPC.RelayerRPC.kindOf pType) as [k|] eqn:E.
  - apply RelayerRPC.RelayerRPC.kindOf_some in E as ->. destruct k; cbn; try destruct (isMedian p); try destruct (isOCR3 p); naive_solver.
  - split; [done|]. by intros [->|[[-> _]|[-> _]]].
Qed.

(** The server in the process is never started: a provider without a connection
    of its own is listened for and connected to, but nothing serves it. *)
Lemma never_served fmtType gr make le de serve args r res ev : NewPluginProvider fmtType gr make le de serve args = (r, res, ev) → ∀ name, Serving name ∉ ev.
Proof.
  rewrite /NewPluginProvider. destruct gr; [intros [= <- <- <-]; set_solver|]. destruct (make _) as [p| |]; [|intros [= <- <- <-]; set_solver..].
  destruct (hasConn p); [destruct serve; intros [= <- <- <-]; set_solver|]. rewrite /getProviderConnection /NewProviderServer /GetConn.
  destruct le; [intros [= <- <- <-]; set_solver|]. destruct (RegisterStandAloneProvider fmtType p _); [|intros [= <- <- <-]; set_solver..]. cbn.
  destruct de; [intros [= <- <- <-]; set_solver|]. destruct serve; intros [= <- <- <-]; set_solver.
Qed.

(** Every in-process server whose connection is given out is a resource, and so
    is the provider's; a listener whose provider is not registered is not. *)
Lemma provider_resources fmtType make le de serve args p r res ev : make (relayArgsFromPb args) = Ok p → NewPluginProvider fmtType None make le de serve args = (r, res, ev) →
  (∀ id, r = Ok id → "PluginProvider" ∈ res) ∧ (Connected (pName p) ∈ ev → inProcessName p ∈ res) ∧
  (hasConn p = false → le = None → (∀ u, RegisterStandAloneProvider fmtType p (pbProviderType args) ≠ Ok u) → Listening (pName p) ∈ ev ∧ res = []).
Proof.
  intros Hm. rewrite /NewPluginProvider Hm. destruct (hasConn p); [destruct serve; intros [= <- <- <-]; set_solver|]. rewrite /getProviderConnection /NewProviderServer /GetConn.
  destruct le; [intros [= <- <- <-]; set_solver|]. destruct (RegisterStandAloneProvider fmtType p _) as [u| |] eqn:E; cbn.
  - destruct de; [intros [= <- <- <-]; split_and!; [done|set_solver|intros _ _ Hr; by destruct (Hr u)]|].
    destruct serve; intros [= <- <- <-]; split_and!; try set_solver; intros _ _ Hr; by destruct (Hr u).
  - intros [= <- <- <-]. set_solver.
  - intros [= <- <- <-]. set_solver.
Qed.

(** Closing stops at the first error: what comes before it is closed, what comes
    after is not. *)
Lemma close_stops closeErr l : closeResources closeErr l =
  match list_find (λ r, is_Some (closeErr r)) l with
  | None => (None, (λ r, Event (Closed r)) <$> l)
  | Some (i, r) => (wrapf "error closing plugin provider server: " <$> closeErr r, (λ r, Event (Closed r)) <$> take (S i) l)
  end.
Proof.
  induction l as [|r l IH]; [done|]. cbn [closeResources list_find]. destruct (decide (is_Some (closeErr r))) as [[e E]|Hn%eq_None_not_Some].
  - by rewrite E.
  - rewrite Hn IH. by destruct (list_find _ l) as [[i r']|].
Qed.

(** A reader or a writer that is served is closed with its server, and one that
    is not accepted at once; one that does not start is left. *)
Lemma contract_effects c gr make start accept id r ev : newContract c gr make start accept id = (r, ev) →
  (r = Ok id → ev = [Made (contractName c); Started (contractName c); Event (Served (contractName c) [contractName c])]) ∧
  (gr = None → make = None → start = None → accept ≠ None → Event (Closed (contractName c)) ∈ ev) ∧
  (gr = None → make = None → start ≠ None → ev = [Made (contractName c)]).
Proof.
  rewrite /newContract /ServeNew. destruct gr; [intros [= <- <-]; naive_solver|]. destruct make; [intros [= <- <-]; naive_solver|]. destruct start; [intros [= <- <-]; naive_solver|].
  destruct accept; intros [= <- <-]; cbn; split_and!; try naive_solver; intros; set_solver.
Qed.

(** A server whose dialling failed once panics when it is closed. *)
Lemma nil_conn e p s : CloseServer (GetConn (Some e) p s).1.2 = Panic.
Proof. rewrite /CloseServer /GetConn /=. rewrite decide_True; [done|]. set_solver. Qed.
End server.
End RelayerSetServer.
